(* ===== verification/_CoqProject ===== *)
-Q . S2P
Prelude.v
Text.v
Dates.v
Amount.v
Rows.v
Idempotency.v
PolicyTypes.v
PolicyRules.v
PolicyEvaluate.v
PolicyEnforce.v
PolicyService.v
BudgetTypes.v
BudgetLedger.v
BudgetRedis.v
BudgetService.v
BudgetReconcile.v
KaminoWithdraw.v
KaminoPlan.v
IpAllowlist.v
EarnLedger.v
EarnInvariant.v
EarnMethods.v
EarnExecution.v
EarnSafety.v
EarnGuarantees.v
EarnReconcile.v
EarnTick.v
Pool.v
RingsTypes.v
RingsRedaction.v
RingsLedger.v
RingsService.v
RingsPoll.v
RingsInvariant.v
RingsSafety.v
RingsPolicy.v
RingsScenario.v
RingsGuarantees.v
RingsRetries.v
History.v
WellKnownTokens.v
PaymentOperation.v
PaymentTables.v
ActivationTables.v
RecurringLifecycle.v
TransientRpc.v
RecurringTransactions.v
PaymentCalls.v
SignedSubmission.v
RecurringCollection.v
RecurringOperations.v
RecurringActivation.v
RecurringJob.v
TransferTracker.v
RecurringInvariant.v
RecurringRequests.v
RecurringScenario.v
ActivationScenario.v
RecurringClaims.v
RecurringEvidence.v
RecurringSubmission.v
TrackerSafety.v
ActivationSafety.v
RecurringSafety.v
RecurringGuarantees.v
Workers.v
TokenAmount.v
WorkflowTypes.v
WorkflowTables.v
WorkflowCalls.v
WorkflowAllowlist.v
WorkflowSecret.v
WorkflowOnchain.v
WorkflowDelivery.v
WorkflowEngine.v
WorkflowRoutes.v
WorkflowInvariant.v
WorkflowScenario.v
WorkflowSafety.v
WorkflowGuarantees.v
