(* ===== verification/Prelude.v ===== *)
(** * Solana Developer Platform: a verification library

    The platform lets an organization move money on Solana through custody wallets it
    does not hold the keys of. This library models the parts that decide whether money
    may move, that account for it while it moves, and that build what moves it; and
    proves what a caller relies on. It is written beside the TypeScript: a definition
    keeps the name of the function or type it translates.

    ** The parts and how they meet

    A request reaches the API from an address the IP allowlist of its organization
    admits (IpAllowlist.v). A wallet operation is put to the policy engine
    (PolicyTypes.v, PolicyRules.v, PolicyEvaluate.v, PolicyEnforce.v), which answers
    allow, deny or an approval and records what it decided. A transaction whose fee
    the platform sponsors is admitted against a budget first: a durable reservation
    (BudgetTypes.v, BudgetLedger.v), limits and breakers in Redis (BudgetRedis.v), the
    service that holds both around the paymaster's signature (BudgetService.v) and the
    job that settles what was left open (BudgetReconcile.v). An Earn deposit or
    withdrawal is keyed by an idempotency key (Idempotency.v), built by the Kamino
    package (KaminoWithdraw.v, KaminoPlan.v for exits), executed by a service that
    simulates, signs, records and broadcasts (EarnExecution.v, EarnSafety.v,
    EarnGuarantees.v) over the movement ledger (EarnLedger.v, EarnInvariant.v,
    EarnMethods.v), and brought to its outcome by a sweep (EarnReconcile.v,
    EarnTick.v). A private transfer (Helius Rings) is reserved under the key of its
    intent (RingsTypes.v) in a ledger of operations (RingsLedger.v, RingsInvariant.v)
    whose events are redacted (RingsRedaction.v), is put to the policy engine through
    its service (PolicyService.v), and is proved, signed, sent and watched by a service
    and a sweep (RingsService.v, RingsPoll.v). A recurring payment is collected each
    period by a request or by a job (RecurringCollection.v, RecurringJob.v), activated
    (RecurringActivation.v), cancelled and resumed (RecurringOperations.v): an attempt claims the period, a transfer is
    linked to it, signed, persisted, marked as started and only then sent
    (SignedSubmission.v, with the retries of TransientRpc.v), over tables
    (PaymentTables.v, RecurringTransactions.v) that a job which follows transfers on
    chain writes too (TransferTracker.v). A rule of a token turns an event into an
    execution (WorkflowEngine.v); a person decides the executions whose action cannot be
    undone (WorkflowRoutes.v), and a run of every minute claims what is due and acts on
    chain (WorkflowOnchain.v), on a control list (WorkflowAllowlist.v) or by a delivery
    (WorkflowDelivery.v), over tables of its own (WorkflowTables.v). Amounts are decimal
    strings throughout (Text.v, Amount.v), and doubles where an SDK takes one
    (TokenAmount.v).

    Paths below are under [apps/sdp-api/src] unless they start with [packages].

    - Prelude.v: errors as values ([AppError] and the errors of [lib/errors.ts] it
      constructs), [result], and [prog], an effectful function as the tree of its
      calls and the continuations of their answers. [run] plays a program against a
      concrete environment with a state; [all_runs] states a property of every run
      whatever is answered; [calls_within], [yields] and [guarded] are the three
      shapes of it that most proofs use, with one lemma per construct.
    - Text.v: strings as lists of code units, decimal digits, JSON strings.
    - Rows.v: ordering and limiting the rows a query lists.
    - Pool.v: any number of programs over one state, their calls interleaved
      ([pool_run]); what each program's own calls rest on carries over, and a property
      that every allowed call keeps holds throughout.
    - Amount.v: [packages/sdp-solana/src/amount.ts], [packages/sdp-kamino/src/amounts.ts].
      Parsing and comparing denote the same numbers; the gate of a mint's scale admits
      exactly what 64 bits of base units can hold.
    - Idempotency.v: [middleware/idempotency-key.ts], [lib/idempotency.ts]. A vault fingerprint identifies what moves.
    - Policy*.v: [packages/sdp-types/src/policy.ts], [packages/sdp-policy/src]. The
      evaluation refines an abstract specification (the strictest rule of each scope,
      the strictest scope); a matching deny denies; the classifier of restrictive
      rules is characterised; a failed enforcement is compensated. PolicyService.v is
      [services/policy/enforcement.service.ts] and [lib/tenant-scope.ts]: what is not
      allowed is thrown.
    - Budget*.v: [db/repositories/sponsorship-budget.repository.ts],
      [runtime/sponsorship-budget-redis.ts], [services/sponsorship-budget.service.ts],
      [services/jobs/reconcile-sponsorship-budgets.ts]. The ledger's invariant and the
      lifecycle of a reservation; the reserve script decides as a specification over
      numbers does, within every limit; cancelling undoes an admission and settling
      replaces its amount; custody is asked only for what was admitted and its outcome
      is kept; the job writes only what the chain justifies.
    - Kamino*.v: [packages/sdp-kamino/src]: [withdraw-instructions.ts],
      [share-balances.ts], [guards.ts], [programs.ts], [sdk.ts], [asset-identity.ts],
      [lookup-table.ts]. An exit plan redeems exactly what it reports, its instructions
      execute on a ledger with the documented behaviour of the programs, and nothing
      of the owner but what was asked leaves.
    - IpAllowlist.v: [lib/ip-allowlist.ts], [lib/client-ip.ts],
      [lib/organization-ip-allowlist.ts], [routes/organizations]. Two entries have one
      canonical form exactly when they are one network; what is stored is what is
      enforced.
    - EarnLedger.v, EarnInvariant.v, EarnMethods.v:
      [db/repositories/earn-movements.repository.ts] over migrations 0062 and 0067. The
      invariant of every history of calls, the one direction of a movement's life,
      every branch of an advance, the single recording of a request, the quotas of the
      reconciler's claim.
    - EarnExecution.v, EarnSafety.v, EarnGuarantees.v: [services/earn]. What is recorded
      was approved, simulated and signed; at most one transaction is broadcast and only
      after it is on the ledger; every answer is a movement of the ledger.
    - EarnReconcile.v, EarnTick.v: [services/jobs/reconcile-earn-vault-movements.ts].
      Every write rests on what was read of that movement, and one sweep brings what it
      claims to the status the chain dictates.
    - RingsTypes.v: [packages/sdp-helius-rings/src], and of [services/helius-rings] the
      intent key and the policy's envelope: the key identifies the request.
    - RingsRedaction.v: [redactHeliusRingsEventPayload] over a heap of JavaScript nodes:
      it ends on every graph and writes no secret, a list of which is stated apart
      from the code's.
    - RingsLedger.v, RingsInvariant.v: the six [db/repositories/helius-rings-*]
      repositories over migration 0057; the invariant of the operations and the one
      direction in which they move.
    - RingsService.v, RingsPoll.v: [services/helius-rings/service.ts] with its signer and
      RPC adapters, [services/jobs/poll-rings-indexing.ts], and the requests of
      [routes/helius-rings] by the service call they make. A sweep visits every operation
      it listed, whatever fails.
    - RingsSafety.v: what each call of a run rests on among the calls before it.
      RingsPolicy.v: the same of the policy engine the service is built with, and that
      a refusal stops the run that meets it.
    - RingsGuarantees.v, RingsRetries.v: any number of requests and sweeps at once over
      one ledger: it stays sound, each transaction sent is of its own operation, signed
      for it and authorised, each failure is explained, chains of retries are bounded.
      RingsScenario.v holds the runs the witnesses and examples evaluate.
    - WellKnownTokens.v: [packages/sdp-types/src/well-known-tokens.ts]. A filter by any
      stored form of a token matches the others. PaymentOperation.v: the checks of
      [services/payment-operation.service.ts]. Dates.v: instants and their text.
    - PaymentTables.v: the statements on transfers, attempts, subscriptions and
      recurring payments of [db/repositories/payments.repository.postgres.ts],
      [payment-subscriptions.repository.postgres.ts] and
      [payment-recurring-payments.repository.postgres.ts], over migrations 0007, 0016
      and 0066. RecurringTransactions.v: the transactions of several statements.
    - RecurringLifecycle.v: [packages/sdp-payments/src/recurring-payment-lifecycle.ts].
      TransientRpc.v: [packages/sdp-rpc/src/transient.ts].
    - ActivationTables.v, RecurringActivation.v, ActivationSafety.v: the statements of an
      activation, [activation.ts] of the recurring payments, and what it rests on: custody
      signs the terms of the claimed payment alone, and the payment becomes active when
      the chain has its plan and its subscription. ActivationScenario.v runs one, and
      shows a canceled payment become active again.
    - PaymentCalls.v: the calls the payment programs make. SignedSubmission.v:
      [services/payments/signed-submission.ts] and the sending part of
      [services/payments/recurring-payments/shared.ts]. RecurringCollection.v,
      RecurringOperations.v: [collection.ts] and [lifecycle.ts] beside it, with the
      policy put to a collection. RecurringJob.v, TransferTracker.v:
      [services/jobs/collect-recurring-payments.ts] and
      [services/jobs/track-pending-transfers.ts]. A row of the job that fails stops no
      other.
    - History.v: triples over the calls a run has made. RecurringInvariant.v: what every
      call keeps of the tables. RecurringClaims.v, RecurringEvidence.v,
      RecurringSubmission.v, RecurringSafety.v: what each call of a run rests on among
      the calls before it; TrackerSafety.v: the same of the tracker, whose verdicts are
      the chain's words for the signature of the row listed, or an expiry.
    - RecurringRequests.v, RecurringGuarantees.v: any number of collections, operations,
      activations, jobs and tracker ticks at once over one set of tables: the tables stay sound, what
      is sent is what was signed for the attempt and persisted on its own transfer, and
      is sent once; each failed attempt is explained, by what its transaction came to or
      by nothing having been sent for it; and a period is paid twice only after its
      first attempt was given up. A history shows that giving up a slow attempt can do
      just that.
      RecurringScenario.v holds the runs the witnesses evaluate.
    - TokenAmount.v: [toNumberAmount] and [toMosaicAmount] of
      [packages/sdp-solana/src/amount.ts], [services/token-operation.service.ts] and
      [routes/issuance/handlers/access-control.ts].
    - WorkflowTypes.v: [packages/sdp-issuance/src/workflows] and the types of
      [packages/sdp-types/src/workflows.ts]. WorkflowTables.v: the statements of
      [db/repositories/asset-workflow.repository.postgres.ts],
      [workflow-execution.repository.postgres.ts],
      [workflow-secret-retirement.repository.postgres.ts], and of
      [services/token.service.ts] those on supplies and control lists.
      WorkflowCalls.v: the calls of the workflow programs. Workers.v: several programs of
      one process that share variables.
    - WorkflowAllowlist.v: [services/allowlist-sync.ts]. WorkflowSecret.v:
      [services/workflows/action-secret.ts] and
      [services/jobs/retire-workflow-secrets.ts]. WorkflowOnchain.v: the actions of
      [services/workflows/actions] on chain. WorkflowDelivery.v: [webhook-url.ts],
      [actions/webhook.ts] and [actions/notify.ts]: a delivery goes only to a public
      address, redirected or not; what is public is stated by networks and names, not by
      the code's tests, and the one network the code refuses beyond them is shown.
    - WorkflowEngine.v: [services/workflows/event-bus.ts] and
      [services/jobs/run-workflow-executions.ts]. WorkflowRoutes.v:
      [routes/issuance/handlers/workflows.ts], [workflow-executions.ts] and
      [workflow-params.ts].
    - WorkflowInvariant.v: what the statements keep. WorkflowSafety.v: what a call of a
      request rests on among the calls before it; an operation that cannot be undone is
      submitted of a claimed execution, checked and allowed by the policy, for the amount
      that was asked. WorkflowGuarantees.v: any number of runs, events, edits and decisions
      at once: such operations need a decision each, of a caller who may make it; the
      ledger of executions only moves forward; no token is minted beyond its cap.
      WorkflowScenario.v holds the runs the witnesses evaluate.

    ** How state and effects are modelled

    A repository method is a function from the tables to an answer and new tables: one
    statement or one transaction, all of it or nothing. Where a method reads before its
    transaction, what it read is a snapshot of some earlier tables of the same history.
    A Lua script is a function on the store, for Redis runs it alone. A service or a
    job is a [prog]: a theorem over [all_runs] therefore covers every answer, refusal,
    lost response and interleaving, and the theorems that compose a program with a
    ledger let other callers use it between any two calls ([ledger_trace], [pool_run]).
    The tables of private transfers and of payments may also lose a call or its answer. A clock is
    a call like another. The branches of a [Promise.all] make their calls in the order
    they are written.

    ** What is assumed

    Code that is not in the repository is a parameter: [RedisStore] with [RedisLaws]
    (the commands the scripts use; [tonumber] reads decimal text; the integers of the
    scripts stay below 2^53, where Lua's numbers are exact), [Kit] (the encoding of
    transactions, SHA-256 and base64 of the budget service), [TokenKit] and
    [TokenLedger] with [TokenLaws] (the builders and the effects of the token and vault
    programs), [DecimalKit] (decimal.js), [NodeNet] with [NodeNetLaws] ([isIP],
    [BlockList]), [VaultKit] (the kit's encodings and address check for Earn), [RingsKit]
    (the decoding of an outer transaction and base64), [PaymentKit] (the building,
    compiling, signing and decoding of payment transactions, addresses, base64),
    [WorkflowKit] (addresses, URLs, JSON text, the signature of a delivery, which
    addresses of mail are valid, two messages of the token SDK), [sha256],
    the database's collation [text_le], and the parser of stored JSON. Each group of
    laws has an instance, so that no theorem is about nothing. A code unit is below
    256, and [localeCompare] is asked only of keys made of ASCII letters. The uuids a
    history of payments draws are distinct where a theorem says so ([distinct_ids]);
    slots and heights stay below 2^53.

    ** Bounds and fuel

    Numbers of the program that are [bigint] are [Z], unbounded as they are; the
    64-bit bounds appear where the code checks them. Digits are produced with one unit
    of fuel more than the binary logarithm, which [to_digits_range] shows is enough.
    The admission loop of the budget service makes two passes and the configuration
    loop three, as many as the code allows itself, so their fuel is the code's own
    bound; so is the walk of a retry's ancestors, five, and the three delays of a
    transient RPC retry; a delivery follows one redirect, as the code does. The redaction descends a graph
    with one unit of fuel more than it has nodes, which its seen set makes enough.
    Everything else is structural.

    ** Not modelled

    Logging and metrics, everywhere. Of the modelled files: the fingerprint of a custodial
    withdrawal ([buildEarnWithdrawalFingerprint]); the ordered
    and paginated listings of the two repositories; the fallback from EVALSHA to EVAL,
    which runs the same script; rows locked by others, which SKIP LOCKED would pass
    over in the reconciler's claim; the cached proof that an endpoint serves its
    cluster, which is one call here; the transaction wrapper of an approved operation
    ([runIntentTransaction]); deposits in [sdk.ts]; the resumption of an approved
    operation ([resumeApprovedOperation]); the handlers of [routes/helius-rings], which
    parse and shape; the gateway of private transfers, whose one implementation throws.
    Of payments: the creation and update of a recurring payment, which collect nothing;
    the loop that draws a plan's random number until it is not zero, and the polling inside the confirmation of a signature, the reads of
    token accounts and the settlement of a batch with its transfer, which are one call
    each; the row of a counterparty; the instant a linked transfer gets, which is read before its transaction
    rather than inside it; the wallet and amount resolution of
    [services/payment-operation.service.ts]. Of workflows: the listings of rules and
    executions, the parsing of a request's body, the emitters of events in
    [services/workflows/payment-events.ts], [token-events.ts] and [clearance.ts], whose
    events may be any here, and the SDK that builds the operations on chain, which is one
    call each; supplies are written by the statements modelled alone. Of the rest of the
    repository: rate limits and the operator script of the budgets can be modelled the same
    way; adapters of remote providers, generated clients, OpenAPI schemas, the dashboard
    and the documentation site are left out, their substance being I/O, generated code
    or presentation. *)
From Stdlib Require Import Ascii String ZArith Lia.
From stdpp Require Import base list strings gmap.

Declare Scope sdp_scope.
Delimit Scope sdp_scope with sdp.

(** ** JavaScript errors and results

    A thrown value is an [Error] with its message, an error carrying a code
    ([FeePaymentError], [SdpKaminoError], ...), one that says whether a retry can
    succeed ([RingsAdapterError]), an [AggregateError], or a thrown
    value that is not an [Error]. *)
Inductive jserr : Type :=
| PlainError (message : string)
| CodedError (class code message : string) (cause : option jserr)
| RetryableError (class code message : string) (retryable : bool)
| AggregateError (errors : list jserr) (message : string)
| NonError (text : string).

Inductive result (A : Type) : Type :=
| Ok (a : A)
| Err (e : jserr).
Arguments Ok {A} a.
Arguments Err {A} e.

(** [error instanceof Error ? error.message : String(error)] *)
Definition error_message (e : jserr) : string :=
  match e with
  | PlainError m => m
  | CodedError _ _ m _ => m
  | RetryableError _ _ m _ => m
  | AggregateError _ m => m
  | NonError t => t
  end.

(** [error instanceof Error ? error : undefined] *)
Definition as_error (e : jserr) : option jserr :=
  match e with NonError _ => None | _ => Some e end.

Definition is_ok {A} (r : result A) : bool :=
  match r with Ok _ => true | Err _ => false end.

(** [AppError] of [apps/sdp-api/src/lib/errors.ts], with the constructors the
    modelled code throws. *)
Definition AppError (code message : string) : jserr := CodedError "AppError" code message None.
Definition badRequest (message : string) : jserr := AppError "BAD_REQUEST" message.
Definition conflict (message : string) : jserr := AppError "CONFLICT" message.
Definition internalError (message : string) : jserr := AppError "INTERNAL_ERROR" message.

(** A PostgreSQL error: its SQLSTATE and the constraint it names. *)
Definition database_error (code constraint : string) : jserr :=
  CodedError "DatabaseError" code constraint None.

Definition result_bind {A B} (r : result A) (k : A -> result B) : result B :=
  match r with Ok a => k a | Err e => Err e end.

Notation "'let?' x ':=' r 'in' k" := (result_bind r (fun x => k))
  (at level 10, x pattern, r at level 100, k at level 200) : sdp_scope.

(** ** Programs that call services

    An [async] method is a finite tree of calls: a call of type [C] is answered
    by a value of type [R c] or by a thrown error, and the continuation sees
    which. The tree is independent of who answers, so a property of all its
    answers holds whatever the database, the provider or another process does
    between two calls. *)
Section Prog.
Context {C : Type} {R : C -> Type}.

Inductive prog (A : Type) : Type :=
| Ret (a : A)
| Throw (e : jserr)
| Call (c : C) (k : result (R c) -> prog A).

Record event : Type := Ev { ev_call : C; ev_resp : result (R ev_call) }.
End Prog.
Arguments prog {C} R A.
Arguments Ret {C R A} a.
Arguments Throw {C R A} e.
Arguments Call {C R A} c k.
Arguments event {C} R.
Arguments Ev {C R} ev_call ev_resp.

Section ProgOps.
Context {C : Type} {R : C -> Type}.

Fixpoint bind {A B} (m : prog R A) (f : A -> prog R B) : prog R B :=
  match m with
  | Ret a => f a
  | Throw e => Throw e
  | Call c k => Call c (fun r => bind (k r) f)
  end.

(** [try { m } catch (error) { h(error) }] *)
Fixpoint catch {A} (m : prog R A) (h : jserr -> prog R A) : prog R A :=
  match m with
  | Ret a => Ret a
  | Throw e => h e
  | Call c k => Call c (fun r => catch (k r) h)
  end.

(** [await service.method(...)] *)
Definition call (c : C) : prog R (R c) :=
  Call c (fun r => match r with Ok a => Ret a | Err e => Throw e end).

(** A run against a concrete environment with state [S]. *)
Fixpoint run {S A} (h : forall c, S -> result (R c) * S) (m : prog R A) (s : S)
  : list (event R) * result A * S :=
  match m with
  | Ret a => ([], Ok a, s)
  | Throw e => ([], Err e, s)
  | Call c k =>
      let '(r, s') := h c s in
      let '(tr, res, s'') := run h (k r) s' in
      (Ev c r :: tr, res, s'')
  end.

(** [Q] holds of the trace and the outcome whatever the environment answers. *)
Fixpoint all_runs {A} (m : prog R A) (Q : list (event R) -> result A -> Prop) : Prop :=
  match m with
  | Ret a => Q [] (Ok a)
  | Throw e => Q [] (Err e)
  | Call c k => forall r, all_runs (k r) (fun tr res => Q (Ev c r :: tr) res)
  end.

(** [for (const x of xs) { await f(x) }] *)
Fixpoint for_each {A} (f : A -> prog R unit) (xs : list A) : prog R unit :=
  match xs with
  | [] => Ret tt
  | x :: rest => bind (f x) (fun _ => for_each f rest)
  end.

(** A step that makes no call. *)
Definition of_result {A} (r : result A) : prog R A :=
  match r with Ok a => Ret a | Err e => Throw e end.

(** Every call of the program, whatever it is answered, is of one kind. *)
Definition calls_within {A} (P : C -> Prop) (m : prog R A) : Prop :=
  all_runs m (fun tr _ => Forall (fun e => P (ev_call e)) tr).

(** What every run that returns has done. *)
Definition yields {A} (m : prog R A) (Q : list (event R) -> A -> Prop) : Prop :=
  all_runs m (fun tr res => forall a, res = Ok a -> Q tr a).

(** Every call is made only when what came before it allows it. *)
Definition guarded {A} (P : list (event R) -> event R -> Prop) (ctx : list (event R))
    (m : prog R A) : Prop :=
  all_runs m (fun tr _ => forall pre e post, tr = pre ++ e :: post -> P (ctx ++ pre) e).

(** The number of calls a program can make is bounded by its tree. *)
Inductive terminates {A} (h : C -> Prop) : prog R A -> Prop :=
| terminates_ret a : terminates h (Ret a)
| terminates_throw e : terminates h (Throw e)
| terminates_call c k :
    h c -> (forall r, terminates h (k r)) -> terminates h (Call c k).
End ProgOps.

Notation "'let!' x ':=' m 'in' k" := (bind m (fun x => k))
  (at level 10, x pattern, m at level 100, k at level 200) : sdp_scope.
Notation "m ';;;' k" := (bind m (fun _ => k))
  (at level 199, right associativity) : sdp_scope.

(** ** Optional strings *)

(** A JavaScript string is truthy when it is not empty; [null] and [undefined]
    are not. *)
Definition truthy (o : option string) : bool :=
  match o with
  | Some s => negb (String.eqb s EmptyString)
  | None => false
  end.

(** ** Characters of a string *)
Definition chars (s : string) : list ascii := list_ascii_of_string s.
Definition text (l : list ascii) : string := string_of_list_ascii l.

(** * Lemmas *)

Lemma text_chars s : text (chars s) = s.
Proof. apply string_of_list_ascii_of_string. Qed.

Lemma chars_text l : chars (text l) = l.
Proof. apply list_ascii_of_string_of_list_ascii. Qed.

Section ProgFacts.
Context {C : Type} {R : C -> Type}.

Lemma all_runs_mono {A} (m : prog R A) Q1 Q2 :
  (forall tr res, Q1 tr res -> Q2 tr res) -> all_runs m Q1 -> all_runs m Q2.
Proof.
  revert Q1 Q2. induction m as [a|e|c k IH]; intros Q1 Q2 H; simpl; auto.
  intros Hk r. eapply IH; [|apply Hk]. intros; simpl; auto.
Qed.

Lemma all_runs_true {A} (m : prog R A) : all_runs m (fun _ _ => True).
Proof. induction m; simpl; auto. Qed.

Lemma all_runs_and {A} (m : prog R A) Q1 Q2 :
  all_runs m Q1 -> all_runs m Q2 -> all_runs m (fun tr res => Q1 tr res /\ Q2 tr res).
Proof. revert Q1 Q2. induction m as [a|e|c k IH]; intros Q1 Q2; simpl; auto. Qed.

Lemma all_runs_bind {A B} (m : prog R A) (f : A -> prog R B) Q :
  all_runs (bind m f) Q <->
  all_runs m (fun tr res =>
    match res with
    | Ok a => all_runs (f a) (fun tr' res' => Q (tr ++ tr') res')
    | Err e => Q tr (Err e)
    end).
Proof.
  revert Q. induction m as [a|e|c k IH]; intros Q; simpl; [done|done|].
  split; intros H r; apply (IH r (fun tr res => Q (Ev c r :: tr) res)); exact (H r).
Qed.

Lemma all_runs_catch {A} (m : prog R A) (h : jserr -> prog R A) Q :
  all_runs (catch m h) Q <->
  all_runs m (fun tr res =>
    match res with
    | Ok a => Q tr (Ok a)
    | Err e => all_runs (h e) (fun tr' res' => Q (tr ++ tr') res')
    end).
Proof.
  revert Q. induction m as [a|e|c k IH]; intros Q; simpl; [done|done|].
  split; intros H r; apply (IH r (fun tr res => Q (Ev c r :: tr) res)); exact (H r).
Qed.

(** What holds of all answers holds of every concrete environment. *)
Lemma run_all_runs {S A} (h : forall c, S -> result (R c) * S) (m : prog R A) s Q :
  all_runs m Q -> let '(tr, res, _) := run h m s in Q tr res.
Proof.
  revert s Q. induction m as [a|e|c k IH]; intros s Q H; simpl in *; [done|done|].
  destruct (h c s) as [r s']. specialize (H r). specialize (IH r s' _ H).
  destruct (run h (k r) s') as [[tr res] s'']. exact IH.
Qed.

Lemma run_bind {S A B} (h : forall c, S -> result (R c) * S)
    (m : prog R A) (f : A -> prog R B) s :
  run h (bind m f) s =
  let '(tr, res, s') := run h m s in
  match res with
  | Ok a => let '(tr', res', s'') := run h (f a) s' in (tr ++ tr', res', s'')
  | Err e => (tr, Err e, s')
  end.
Proof.
  revert s. induction m as [a|e|c k IH]; intros s; simpl; [|done|].
  - by destruct (run h (f a) s) as [[? ?] ?].
  - destruct (h c s) as [r s']. rewrite IH.
    destruct (run h (k r) s') as [[tr [a|e]] s'']; [|done].
    by destruct (run h (f a) s'') as [[? ?] ?].
Qed.

Lemma run_catch {S A} (h : forall c, S -> result (R c) * S) (m : prog R A) (f : jserr -> prog R A) s :
  run h (catch m f) s =
  let '(tr, res, s') := run h m s in
  match res with
  | Ok a => (tr, Ok a, s')
  | Err e => let '(tr', res', s'') := run h (f e) s' in (tr ++ tr', res', s'')
  end.
Proof.
  revert s. induction m as [a|e|c k IH]; intros s; simpl; [done| |].
  - by destruct (run h (f e) s) as [[? ?] ?].
  - destruct (h c s) as [r s']. rewrite IH.
    destruct (run h (k r) s') as [[tr [a|e]] s'']; [done|].
    by destruct (run h (f e) s'') as [[? ?] ?].
Qed.

(** *** The kinds of calls a program makes *)

Lemma within_ret {A} P (a : A) : calls_within (R := R) P (Ret a).
Proof. constructor. Qed.

Lemma within_throw {A} P e : calls_within (R := R) P (Throw (A := A) e).
Proof. constructor. Qed.

Lemma within_of_result {A} P (r : result A) : calls_within (R := R) P (of_result r).
Proof. destruct r; constructor. Qed.

Lemma within_step {A} (P : C -> Prop) c (k : result (R c) -> prog R A) :
  P c -> (forall r, calls_within P (k r)) -> calls_within P (Call c k).
Proof.
  intros H Hk r. eapply all_runs_mono; [|exact (Hk r)]. intros tr res Q. by constructor.
Qed.

Lemma within_call (P : C -> Prop) c : P c -> calls_within (R := R) P (call c).
Proof. intros H. apply within_step; [done|]. intros [a|e]; constructor. Qed.

Lemma within_bind {A B} P (m : prog R A) (f : A -> prog R B) :
  calls_within P m -> (forall a, calls_within P (f a)) -> calls_within P (bind m f).
Proof.
  intros Hm Hf. unfold calls_within. rewrite all_runs_bind. eapply all_runs_mono; [|exact Hm].
  intros tr [a|e] H; [|done]. eapply all_runs_mono; [|apply Hf]. intros. by apply Forall_app_2.
Qed.

Lemma within_catch {A} P (m : prog R A) (h : jserr -> prog R A) :
  calls_within P m -> (forall e, calls_within P (h e)) -> calls_within P (catch m h).
Proof.
  intros Hm Hf. unfold calls_within. rewrite all_runs_catch. eapply all_runs_mono; [|exact Hm].
  intros tr [a|e] H; [done|]. eapply all_runs_mono; [|apply Hf]. intros. by apply Forall_app_2.
Qed.

(** *** What returning runs have done *)

Lemma yields_ret {A} (a : A) (Q : list (event R) -> A -> Prop) : Q [] a -> yields (Ret a) Q.
Proof. by intros H b [= <-]. Qed.

Lemma yields_throw {A} e (Q : list (event R) -> A -> Prop) : yields (Throw e) Q.
Proof. by intros b. Qed.

Lemma yields_of_result {A} (r : result A) (Q : list (event R) -> A -> Prop) :
  (forall a, r = Ok a -> Q [] a) -> yields (of_result r) Q.
Proof. destruct r as [a|e]; intros H b; [intros [= <-]; by apply H|done]. Qed.

Lemma yields_call c (Q : list (event R) -> R c -> Prop) :
  (forall a, Q [Ev c (Ok a)] a) -> yields (call c) Q.
Proof. intros H [a|e] b; [intros [= <-]; apply H|done]. Qed.

Lemma yields_bind {A B} (m : prog R A) (f : A -> prog R B) Q1 (Q : list (event R) -> B -> Prop) :
  yields m Q1 -> (forall a tr, Q1 tr a -> yields (f a) (fun tr' b => Q (tr ++ tr') b)) ->
  yields (bind m f) Q.
Proof.
  intros Hm Hf. unfold yields. rewrite all_runs_bind. eapply all_runs_mono; [|exact Hm].
  intros tr [a|e] H; [|done]. apply Hf. by apply H.
Qed.

Lemma yields_mono {A} (m : prog R A) (Q1 Q2 : list (event R) -> A -> Prop) :
  (forall tr a, Q1 tr a -> Q2 tr a) -> yields m Q1 -> yields m Q2.
Proof. intros H. apply all_runs_mono. intros tr res Hq a E. apply H. by apply Hq. Qed.

(** A step that makes no call, and one whose answer does not matter. *)
Lemma yields_result {A B} (r : result A) (f : A -> prog R B) (Q : list (event R) -> B -> Prop) :
  (forall a, r = Ok a -> yields (f a) Q) -> yields (bind (of_result r) f) Q.
Proof.
  intros H. eapply yields_bind with (Q1 := fun tr a => tr = [] /\ r = Ok a).
  - by apply yields_of_result.
  - intros a tr [-> E]. by apply H.
Qed.

Lemma yields_any {A B} (m : prog R A) (f : A -> prog R B) (Q : list (event R) -> B -> Prop) :
  (forall a tr, yields (f a) (fun tr' b => Q (tr ++ tr') b)) -> yields (bind m f) Q.
Proof.
  intros H. eapply yields_bind with (Q1 := fun _ _ => True); [|by intros a tr _].
  eapply all_runs_mono; [|apply all_runs_true]. done.
Qed.

Lemma yields_catch_throw {A} (m : prog R A) (h : jserr -> jserr) (Q : list (event R) -> A -> Prop) :
  yields m Q -> yields (catch m (fun e => Throw (h e))) Q.
Proof.
  intros H. unfold yields. rewrite all_runs_catch. eapply all_runs_mono; [|exact H].
  intros tr [a|e] Hq; [done|]. by intros a.
Qed.

(** *** Guarded calls *)

Lemma guarded_silent {A} P ctx (m : prog R A) :
  all_runs m (fun tr _ => tr = []) -> guarded P ctx m.
Proof. apply all_runs_mono. intros tr _ -> pre e post E. by destruct pre. Qed.

Lemma guarded_ret {A} P (ctx : list (event R)) (a : A) : guarded P ctx (Ret a).
Proof. by apply guarded_silent. Qed.

Lemma guarded_throw {A} P (ctx : list (event R)) e : guarded P ctx (Throw (A := A) e).
Proof. by apply guarded_silent. Qed.

Lemma guarded_of_result {A} P (ctx : list (event R)) (r : result A) : guarded P ctx (of_result r).
Proof. apply guarded_silent. by destruct r. Qed.

Lemma guarded_call P (ctx : list (event R)) c : (forall r, P ctx (Ev c r)) -> guarded P ctx (call c).
Proof.
  intros H r. assert (forall pre e post, [Ev c r] = pre ++ e :: post -> P (ctx ++ pre) e) as Hone.
  { intros [|x pre] e post; [intros [= <- _]; by rewrite app_nil_r|]. by destruct pre. }
  by destruct r.
Qed.

Lemma guarded_split (P : list (event R) -> event R -> Prop) (ctx tr1 tr2 : list (event R)) :
  (forall pre e post, tr1 = pre ++ e :: post -> P (ctx ++ pre) e) ->
  (forall pre e post, tr2 = pre ++ e :: post -> P ((ctx ++ tr1) ++ pre) e) ->
  forall pre e post, tr1 ++ tr2 = pre ++ e :: post -> P (ctx ++ pre) e.
Proof.
  intros H1 H2 pre e post (k & [[-> E]|[-> E]])%app_eq_app.
  - destruct k as [|x k]; [|injection E as <- E; by eapply H1].
    specialize (H2 [] e post). rewrite !app_nil_r in *. by apply H2.
  - rewrite app_assoc. by apply (H2 k e post).
Qed.

Lemma guarded_bind {A B} P ctx (m : prog R A) (f : A -> prog R B) Y :
  guarded P ctx m -> yields m Y -> (forall tr a, Y tr a -> guarded P (ctx ++ tr) (f a)) ->
  guarded P ctx (bind m f).
Proof.
  intros Hm Hy Hf. unfold guarded. rewrite all_runs_bind.
  eapply all_runs_mono; [|exact (all_runs_and _ _ _ Hm Hy)].
  intros tr [a|e] [H1 H2]; [|exact H1]. eapply all_runs_mono; [|apply Hf, H2, eq_refl].
  intros tr' res H3. by apply guarded_split.
Qed.

Lemma guarded_any {A B} P ctx (m : prog R A) (f : A -> prog R B) :
  guarded P ctx m -> (forall tr a, guarded P (ctx ++ tr) (f a)) -> guarded P ctx (bind m f).
Proof.
  intros Hm Hf. eapply guarded_bind with (Y := fun _ _ => True); [done| |intros; apply Hf].
  eapply all_runs_mono; [|apply all_runs_true]. done.
Qed.

Lemma guarded_catch {A} P ctx (m : prog R A) (h : jserr -> prog R A) :
  guarded P ctx m -> (forall tr e, guarded P (ctx ++ tr) (h e)) -> guarded P ctx (catch m h).
Proof.
  intros Hm Hf. unfold guarded. rewrite all_runs_catch. eapply all_runs_mono; [|exact Hm].
  intros tr [a|e] H1; [exact H1|]. eapply all_runs_mono; [|apply (Hf tr e)].
  intros tr' res H3. by apply guarded_split.
Qed.

Lemma guarded_for_each {A} P ctx (f : A -> prog R unit) xs :
  (forall x tr, x ∈ xs -> guarded P (ctx ++ tr) (f x)) -> guarded P ctx (for_each f xs).
Proof.
  revert ctx. induction xs as [|x xs IH]; intros ctx H; [apply guarded_ret|]. cbn [for_each].
  apply guarded_any.
  - rewrite <- (app_nil_r ctx). apply H. by left.
  - intros tr []. apply IH. intros y tr' Hy. rewrite <- app_assoc. apply H. by right.
Qed.

Lemma calls_unguarded {A} P Q ctx (m : prog R A) :
  calls_within Q m -> (forall prior e, Q (ev_call e) -> P prior e) -> guarded P ctx m.
Proof.
  intros Hm H. eapply all_runs_mono; [|exact Hm]. intros tr res Hq pre e post ->.
  apply H. by apply Forall_app in Hq as [_ [Hq _]%Forall_cons].
Qed.
End ProgFacts.

(** Splits a program into its calls and leaves the kind of each to prove. *)
Ltac within_calls :=
  repeat first
    [ apply within_ret | apply within_throw | apply within_of_result
    | match goal with |- calls_within ?P (call ?c) => refine (within_call P c _) end
    | apply within_bind; [|intro] | apply within_catch; [|intro] ].
