(* ===== verification/Text.v ===== *)
(** * JavaScript strings and decimal digits

    The string primitives the program uses ([split], [trim], [padEnd],
    [padStart], [includes]), on the list of code units of a string, and the
    conversion between a [bigint] and its decimal digits. A code unit is an
    [ascii], so the model covers the strings whose code units are below 256;
    every test the program makes is on characters of that range. *)
From Stdlib Require Import Ascii String ZArith Lia.
From stdpp Require Import base list strings.
From S2P Require Import Prelude.

Local Open Scope Z_scope.

Definition code (c : ascii) : Z := Z.of_nat (nat_of_ascii c).

(** [char >= "0" && char <= "9"] *)
Definition is_digit (c : ascii) : bool := (48 <=? code c) && (code c <=? 57).

Definition all_digits (l : list ascii) : bool := forallb is_digit l.

Definition digit_value (c : ascii) : Z := code c - 48.

Definition digit_char (d : Z) : ascii := ascii_of_nat (Z.to_nat (d + 48)).

(** [BigInt(digits)] *)
Definition of_digits (l : list ascii) : Z :=
  fold_left (fun acc c => 10 * acc + digit_value c) l 0.

Fixpoint to_digits_fuel (fuel : nat) (n : Z) (acc : list ascii) : list ascii :=
  match fuel with
  | O => acc
  | S fuel' =>
      if n <? 10 then digit_char n :: acc
      else to_digits_fuel fuel' (n / 10) (digit_char (n mod 10) :: acc)
  end.

(** [n.toString()] for a [bigint] that is not negative. The fuel is the number
    of bits of [n] plus one, at least its number of decimal digits. *)
Definition to_digits (n : Z) : list ascii :=
  to_digits_fuel (S (Z.to_nat (Z.log2 n))) n [].

(** [value.split(sep)] for a separator of one character. *)
Fixpoint split_on (sep : ascii) (l : list ascii) : list (list ascii) :=
  match l with
  | [] => [[]]
  | c :: rest =>
      if Ascii.eqb c sep then [] :: split_on sep rest
      else match split_on sep rest with
           | s :: more => (c :: s) :: more
           | [] => [[c]]
           end
  end.

(** [s1.join(sep)] *)
Fixpoint join (sep : list ascii) (ls : list (list ascii)) : list ascii :=
  match ls with
  | [] => []
  | [s] => s
  | s :: rest => s ++ sep ++ join sep rest
  end.

(** The white space [trim] removes, within the modelled code units. *)
Definition is_space (c : ascii) : bool :=
  ((9 <=? code c) && (code c <=? 13)) || (code c =? 32) || (code c =? 160).

Fixpoint drop_while (p : ascii -> bool) (l : list ascii) : list ascii :=
  match l with
  | [] => []
  | c :: rest => if p c then drop_while p rest else l
  end.

(** Drop the longest suffix of characters satisfying [p]. *)
Definition drop_end_while (p : ascii -> bool) (l : list ascii) : list ascii :=
  rev (drop_while p (rev l)).

Definition trim (l : list ascii) : list ascii :=
  drop_end_while is_space (drop_while is_space l).

Definition is_zero_char (c : ascii) : bool := Ascii.eqb c "0".

(** [s.padEnd(n, "0")] *)
Definition pad_end_zeros (n : Z) (l : list ascii) : list ascii :=
  l ++ repeat "0"%char (Z.to_nat n - length l).

(** [s.padStart(n, "0")] *)
Definition pad_start_zeros (n : Z) (l : list ascii) : list ascii :=
  repeat "0"%char (Z.to_nat n - length l) ++ l.

(** [l.indexOf(c)] for one character; [None] is -1. *)
Fixpoint index_of (c : ascii) (l : list ascii) : option nat :=
  match l with
  | [] => None
  | x :: rest => if Ascii.eqb x c then Some 0%nat else S <$> index_of c rest
  end.

(** [String(n)] for an integer. *)
Definition z_text (n : Z) : string :=
  text (if n <? 0 then "-"%char :: to_digits (- n) else to_digits n).

Definition hex_digit (n : Z) : ascii :=
  if n <? 10 then digit_char n else ascii_of_nat (Z.to_nat (n + 87)).

(** The pattern of a canonical integer: [0], or digits that do not start with one. *)
Definition canonical_integer (l : list ascii) : bool :=
  match l with
  | [] => false
  | [c] => is_digit c
  | c :: rest => is_digit c && negb (is_zero_char c) && all_digits rest
  end.

(** [JSON.stringify] of a string, within the modelled code units. *)
Definition json_char (c : ascii) : list ascii :=
  let esc x := ["092"%char; x] in
  match code c with
  | 34 => esc "034"%char
  | 92 => esc "092"%char
  | 8 => esc "b"%char
  | 9 => esc "t"%char
  | 10 => esc "n"%char
  | 12 => esc "f"%char
  | 13 => esc "r"%char
  | n => if n <? 32
         then ["092"%char; "u"%char; "0"%char; "0"%char; hex_digit (n / 16); hex_digit (n mod 16)]
         else [c]
  end.

Definition json_string (s : string) : string :=
  text ("034"%char :: flat_map json_char (chars s) ++ ["034"%char]).

(** [s.trim()] *)
Definition trimmed (s : string) : string := text (trim (chars s)).

(** [s.toLowerCase()], on the letters of ASCII. *)
Definition to_lower (s : string) : string :=
  text (map (fun c => let n := code c in
                      if (65 <=? n) && (n <=? 90) then ascii_of_nat (Z.to_nat (n + 32)) else c)
          (chars s)).

(** [isTruthyFlag] of [apps/sdp-api/src/lib/feature-flags.ts]. *)
Definition isTruthyFlag (value : option string) : bool :=
  truthy value
  && match value with
     | Some v => existsb (String.eqb (to_lower (trimmed v))) ["1"; "true"; "yes"; "on"]
     | None => false
     end.

(** * Lemmas *)

Create HintDb text.

Lemma is_digit_spec c : is_digit c = true <-> 0 <= digit_value c <= 9.
Proof. unfold is_digit, digit_value. rewrite andb_true_iff, !Z.leb_le. lia. Qed.

Lemma digit_char_value d : 0 <= d <= 9 -> digit_value (digit_char d) = d.
Proof.
  intros H. unfold digit_value, code, digit_char.
  rewrite nat_ascii_embedding; lia.
Qed.

Lemma digit_char_is_digit d : 0 <= d <= 9 -> is_digit (digit_char d) = true.
Proof. intros H. apply is_digit_spec. rewrite digit_char_value; lia. Qed.

Lemma digit_value_char c : is_digit c = true -> digit_char (digit_value c) = c.
Proof.
  intros H%is_digit_spec. unfold digit_char, digit_value, code in *.
  replace (Z.to_nat (Z.of_nat (nat_of_ascii c) - 48 + 48)) with (nat_of_ascii c) by lia.
  apply ascii_nat_embedding.
Qed.

Lemma digit_value_zero : digit_value "0" = 0.
Proof. reflexivity. Qed.

Lemma all_digits_app l1 l2 : all_digits (l1 ++ l2) = all_digits l1 && all_digits l2.
Proof. apply forallb_app. Qed.

Lemma all_digits_zeros n : all_digits (repeat "0"%char n) = true.
Proof. induction n; simpl; auto. Qed.

Lemma all_digits_cons c l : all_digits (c :: l) = is_digit c && all_digits l.
Proof. done. Qed.

Lemma all_digits_In l : all_digits l = true <-> forall c, In c l -> is_digit c = true.
Proof. apply forallb_forall. Qed.

Lemma fold_digits_acc l acc :
  fold_left (fun acc c => 10 * acc + digit_value c) l acc =
  acc * 10 ^ Z.of_nat (length l) + of_digits l.
Proof.
  revert acc. induction l as [|c l IH]; intros acc.
  - simpl. unfold of_digits. simpl. lia.
  - change (of_digits (c :: l))
      with (fold_left (fun acc c => 10 * acc + digit_value c) l (10 * 0 + digit_value c)).
    cbn [fold_left length]. rewrite !IH, Nat2Z.inj_succ, Z.pow_succ_r by lia. ring.
Qed.

Lemma of_digits_app l1 l2 :
  of_digits (l1 ++ l2) = of_digits l1 * 10 ^ Z.of_nat (length l2) + of_digits l2.
Proof.
  unfold of_digits at 1. rewrite fold_left_app, fold_digits_acc. reflexivity.
Qed.

Lemma of_digits_cons c l :
  of_digits (c :: l) = digit_value c * 10 ^ Z.of_nat (length l) + of_digits l.
Proof. apply (of_digits_app [c] l). Qed.

Lemma of_digits_zeros n : of_digits (repeat "0"%char n) = 0.
Proof. induction n as [|n IH]; [done|]. cbn [repeat]. rewrite of_digits_cons, IH. done. Qed.

Lemma of_digits_nonneg l : all_digits l = true -> 0 <= of_digits l.
Proof.
  induction l as [|c l IH]; [done|]. rewrite all_digits_cons, andb_true_iff.
  intros [Hc%is_digit_spec Hl]. rewrite of_digits_cons. specialize (IH Hl).
  assert (0 <= 10 ^ Z.of_nat (length l)) by (apply Z.pow_nonneg; lia). nia.
Qed.

Lemma of_digits_bound l : all_digits l = true -> of_digits l < 10 ^ Z.of_nat (length l).
Proof.
  induction l as [|c l IH]; [done|]. rewrite all_digits_cons, andb_true_iff.
  intros [Hc%is_digit_spec Hl]. rewrite of_digits_cons. specialize (IH Hl).
  cbn [length]. rewrite Nat2Z.inj_succ, Z.pow_succ_r by lia.
  assert (0 <= 10 ^ Z.of_nat (length l)) by (apply Z.pow_nonneg; lia). nia.
Qed.

Lemma to_digits_fuel_spec fuel n acc :
  0 <= n < 2 ^ Z.of_nat fuel ->
  all_digits acc = true ->
  of_digits (to_digits_fuel fuel n acc) =
    n * 10 ^ Z.of_nat (length acc) + of_digits acc
  /\ all_digits (to_digits_fuel fuel n acc) = true.
Proof.
  revert n acc. induction fuel as [|fuel IH]; intros n acc Hn Hacc.
  - change (2 ^ Z.of_nat 0) with 1 in Hn. assert (n = 0) by lia. subst.
    simpl. split; [lia|done].
  - cbn [to_digits_fuel]. destruct (Z.ltb_spec n 10).
    + rewrite of_digits_cons, all_digits_cons, digit_char_value, digit_char_is_digit by lia.
      split; [lia|done].
    + rewrite Nat2Z.inj_succ, Z.pow_succ_r in Hn by lia.
      pose proof (Z.div_mod n 10 ltac:(lia)) as Hdm.
      pose proof (Z.mod_pos_bound n 10 ltac:(lia)).
      edestruct (IH (n / 10) (digit_char (n mod 10) :: acc)) as [H1 H2].
      * split; [apply Z.div_pos; lia|]. apply Z.div_lt_upper_bound; lia.
      * rewrite all_digits_cons, digit_char_is_digit by lia. done.
      * split; [|exact H2]. rewrite H1, of_digits_cons, digit_char_value by lia.
        cbn [length]. rewrite Nat2Z.inj_succ, Z.pow_succ_r by lia. nia.
Qed.

Lemma to_digits_range n : 0 <= n -> 0 <= n < 2 ^ Z.of_nat (S (Z.to_nat (Z.log2 n))).
Proof.
  intros H. split; [done|]. rewrite Nat2Z.inj_succ, Z2Nat.id by apply Z.log2_nonneg.
  destruct (Z.eq_dec n 0) as [->|]; [reflexivity|]. apply Z.log2_spec. lia.
Qed.

Lemma of_to_digits n : 0 <= n -> of_digits (to_digits n) = n.
Proof.
  intros H. unfold to_digits.
  destruct (to_digits_fuel_spec _ n [] (to_digits_range n H) eq_refl) as [-> _].
  simpl. unfold of_digits. simpl. lia.
Qed.

Lemma to_digits_all n : 0 <= n -> all_digits (to_digits n) = true.
Proof.
  intros H. exact (proj2 (to_digits_fuel_spec _ n [] (to_digits_range n H) eq_refl)).
Qed.

(** The first digit is not a zero, except for the number zero. *)
Lemma to_digits_fuel_head fuel n acc :
  0 < n < 2 ^ Z.of_nat fuel ->
  exists c l, to_digits_fuel fuel n acc = c :: l /\ is_zero_char c = false.
Proof.
  revert n acc. induction fuel as [|fuel IH]; intros n acc Hn.
  - change (2 ^ Z.of_nat 0) with 1 in Hn. lia.
  - cbn [to_digits_fuel]. destruct (Z.ltb_spec n 10).
    + exists (digit_char n), acc. split; [done|].
      unfold is_zero_char. apply Ascii.eqb_neq. intros E.
      apply (f_equal digit_value) in E. rewrite digit_char_value in E by lia.
      rewrite digit_value_zero in E. lia.
    + rewrite Nat2Z.inj_succ, Z.pow_succ_r in Hn by lia. apply IH.
      split; [apply Z.div_str_pos; lia|]. apply Z.div_lt_upper_bound; lia.
Qed.

Lemma to_digits_head n :
  0 < n -> exists c l, to_digits n = c :: l /\ is_zero_char c = false.
Proof.
  intros H. apply to_digits_fuel_head.
  pose proof (to_digits_range n ltac:(lia)). lia.
Qed.

Lemma to_digits_zero : to_digits 0 = ["0"%char].
Proof. reflexivity. Qed.

Lemma split_on_none sep l :
  (forall c, In c l -> c <> sep) -> split_on sep l = [l].
Proof.
  induction l as [|c l IH]; intros H; [done|]. cbn [split_on].
  destruct (Ascii.eqb_spec c sep) as [->|_]; [exfalso; apply (H sep); simpl; auto|].
  rewrite IH by (intros; apply H; simpl; auto). done.
Qed.

Lemma split_on_first sep l1 l2 :
  (forall c, In c l1 -> c <> sep) ->
  split_on sep (l1 ++ sep :: l2) = l1 :: split_on sep l2.
Proof.
  induction l1 as [|c l IH]; intros H; simpl.
  - by rewrite Ascii.eqb_refl.
  - destruct (Ascii.eqb_spec c sep) as [->|_]; [exfalso; apply (H sep); simpl; auto|].
    rewrite IH by (intros; apply H; simpl; auto). done.
Qed.

Lemma split_on_join sep l : join [sep] (split_on sep l) = l.
Proof.
  induction l as [|c l IH]; [done|]. cbn [split_on].
  assert (Hne : split_on sep l <> []).
  { destruct l; simpl; [done|]. destruct (Ascii.eqb _ _); [done|].
    by destruct (split_on sep l). }
  destruct (Ascii.eqb_spec c sep) as [->|_].
  - destruct (split_on sep l) as [|s rest]; [done|]. simpl in *. by rewrite IH.
  - destruct (split_on sep l) as [|s rest]; [done|]. simpl in *.
    destruct rest; simpl in *; by rewrite <- IH.
Qed.

Lemma digit_not_dot c : is_digit c = true -> c <> "."%char.
Proof. intros H ->. discriminate H. Qed.

Lemma digit_not_space c : is_digit c = true -> is_space c = false.
Proof.
  intros H%is_digit_spec. unfold digit_value in H. unfold is_space.
  rewrite !orb_false_iff, andb_false_iff, !Z.leb_gt, !Z.eqb_neq. lia.
Qed.

Lemma digits_no_dot l : all_digits l = true -> forall c, In c l -> c <> "."%char.
Proof. intros H c Hc. apply digit_not_dot. by apply (proj1 (all_digits_In l)). Qed.

Lemma drop_while_none p l :
  (forall c, In c l -> p c = false) -> drop_while p l = l.
Proof. destruct l as [|c l]; intros H; [done|]. simpl. rewrite H; [done|by left]. Qed.

Lemma drop_end_while_none p l :
  (forall c, In c l -> p c = false) -> drop_end_while p l = l.
Proof.
  intros H. unfold drop_end_while. rewrite drop_while_none.
  - apply rev_involutive.
  - intros c Hc. apply H. by apply in_rev.
Qed.

Lemma trim_no_space l : (forall c, In c l -> is_space c = false) -> trim l = l.
Proof.
  intros H. unfold trim. rewrite drop_while_none by done. by apply drop_end_while_none.
Qed.

Lemma drop_while_head p l c l' : drop_while p l = c :: l' -> p c = false.
Proof.
  induction l as [|x l IH]; [done|]. simpl. destruct (p x) eqn:E; [done|].
  by intros [= <- <-].
Qed.

Lemma drop_while_decompose p l :
  exists pre, l = pre ++ drop_while p l /\ (forall c, In c pre -> p c = true).
Proof.
  induction l as [|c l (pre & Hl & Hp)]; [by exists []|]. simpl.
  destruct (p c) eqn:E.
  - exists (c :: pre). split; [simpl; by f_equal|]. intros x [->|]; auto.
  - by exists [].
Qed.

Lemma drop_end_while_decompose p l :
  exists suf, l = drop_end_while p l ++ suf /\ (forall c, In c suf -> p c = true).
Proof.
  destruct (drop_while_decompose p (rev l)) as (pre & Hl & Hp).
  exists (rev pre). split.
  - unfold drop_end_while. rewrite <- rev_app_distr, <- Hl. by rewrite rev_involutive.
  - intros c Hc. apply Hp. by apply in_rev.
Qed.

Lemma zeros_repeat l : (forall c, In c l -> is_zero_char c = true) -> l = repeat "0"%char (length l).
Proof.
  induction l as [|c l IH]; intros H; [done|]. simpl.
  rewrite <- IH by (intros; apply H; by right). f_equal.
  apply Ascii.eqb_eq. apply H. by left.
Qed.

(** Leading zeros do not change the number. *)
Lemma of_digits_drop_zeros l : of_digits (drop_while is_zero_char l) = of_digits l.
Proof.
  destruct (drop_while_decompose is_zero_char l) as (pre & Hl & Hp).
  rewrite Hl at 2. rewrite of_digits_app, (zeros_repeat pre Hp), of_digits_zeros. lia.
Qed.

Lemma all_digits_drop_while p l : all_digits l = true -> all_digits (drop_while p l) = true.
Proof.
  destruct (drop_while_decompose p l) as (pre & Hl & _). intros H.
  rewrite Hl, all_digits_app, andb_true_iff in H. tauto.
Qed.

Lemma all_digits_drop_end_while p l :
  all_digits l = true -> all_digits (drop_end_while p l) = true.
Proof.
  destruct (drop_end_while_decompose p l) as (suf & Hl & _). intros H.
  rewrite Hl, all_digits_app, andb_true_iff in H. tauto.
Qed.

#[export] Hint Resolve digit_char_is_digit to_digits_all all_digits_zeros
  all_digits_drop_while all_digits_drop_end_while of_digits_nonneg : text.
Create Rewrite HintDb digits.
#[export] Hint Rewrite of_digits_app of_digits_zeros all_digits_app : digits.

Lemma index_of_Some c l n :
  index_of c l = Some n ->
  exists l1 l2, l = l1 ++ c :: l2 /\ length l1 = n /\ (forall x, In x l1 -> x <> c).
Proof.
  revert n. induction l as [|x l IH]; intros n; simpl; [done|].
  destruct (Ascii.eqb_spec x c) as [->|Hne].
  - intros [= <-]. by exists [], l.
  - destruct (index_of c l) as [m|]; [|done]. intros [= <-].
    destruct (IH m eq_refl) as (l1 & l2 & -> & Hlen & H).
    exists (x :: l1), l2. simpl. split_and!; [done|lia|].
    intros y [<-|Hy]; auto.
Qed.

Lemma index_of_None c l : index_of c l = None -> forall x, In x l -> x <> c.
Proof.
  induction l as [|x l IH]; simpl; [done|].
  destruct (Ascii.eqb_spec x c) as [->|Hne]; [done|].
  destruct (index_of c l); [done|]. intros _ y [<-|Hy]; auto.
Qed.

Lemma filter_digits l : all_digits l = true -> List.filter is_digit l = l.
Proof.
  induction l as [|c l IH]; [done|]. rewrite all_digits_cons, andb_true_iff.
  intros [Hc Hl]. simpl. by rewrite Hc, IH.
Qed.

Lemma filter_digits_none l :
  (forall c, In c l -> is_digit c = false) -> List.filter is_digit l = [].
Proof.
  induction l as [|c l IH]; intros H; [done|]. simpl.
  rewrite H by (by left). apply IH. intros. apply H. by right.
Qed.

Lemma is_space_not_digit c : is_space c = true -> is_digit c = false.
Proof. intros H. destruct (is_digit c) eqn:E; [|done]. apply digit_not_space in E. congruence. Qed.

(** White space carries no digit. *)
Lemma filter_digits_trim l : List.filter is_digit (trim l) = List.filter is_digit l.
Proof.
  unfold trim.
  destruct (drop_while_decompose is_space l) as (pre & Hl & Hp).
  destruct (drop_end_while_decompose is_space (drop_while is_space l)) as (suf & Hs & Hq).
  rewrite Hl at 2. rewrite Hs at 2. rewrite !List.filter_app.
  rewrite (filter_digits_none pre), (filter_digits_none suf).
  - by rewrite app_nil_r.
  - intros. by apply is_space_not_digit, Hq.
  - intros. by apply is_space_not_digit, Hp.
Qed.

(** [join] is undone by [split] when no part holds the separator. *)
Lemma split_on_join_parts sep ls :
  ls <> [] -> Forall (fun s => forall c, In c s -> c <> sep) ls ->
  split_on sep (join [sep] ls) = ls.
Proof.
  intros Hne H. induction H as [|s ls Hs Hls IH]; [done|].
  destruct ls as [|s' ls]; [by apply split_on_none|].
  change (join [sep] (s :: s' :: ls)) with (s ++ sep :: join [sep] (s' :: ls)).
  rewrite split_on_first by done. by rewrite IH.
Qed.

Lemma canonical_integer_digits l : canonical_integer l = true -> all_digits l = true.
Proof.
  destruct l as [|c [|c' l]]; [done| |]; cbn [canonical_integer].
  - intros H. by rewrite all_digits_cons, H.
  - rewrite (all_digits_cons c), !andb_true_iff. tauto.
Qed.

Lemma to_digits_canonical n : 0 <= n -> canonical_integer (to_digits n) = true.
Proof.
  intros H. destruct (Z.eq_dec n 0) as [->|]; [reflexivity|].
  destruct (to_digits_head n) as (c & l & E & Hc); [lia|].
  pose proof (to_digits_all n H) as Hd. rewrite E in *. rewrite all_digits_cons in Hd.
  apply andb_true_iff in Hd as [Hd Hl]. destruct l; cbn [canonical_integer]; [done|].
  by rewrite Hd, Hc, Hl.
Qed.

(** A number has at most [k] decimal digits when it is below [10 ^ k]. *)
Lemma to_digits_fuel_length fuel n acc k :
  0 <= n < 10 ^ Z.of_nat (S k) ->
  (length (to_digits_fuel fuel n acc) <= S k + length acc)%nat.
Proof.
  revert n acc k. induction fuel as [|fuel IH]; intros n acc k Hn; [simpl; lia|].
  cbn [to_digits_fuel]. destruct (Z.ltb_spec n 10); [simpl; lia|].
  destruct k as [|k]; [change (10 ^ Z.of_nat 1) with 10 in Hn; lia|].
  etransitivity; [apply (IH _ _ k)|simpl; lia].
  rewrite Nat2Z.inj_succ, Z.pow_succ_r in Hn by lia.
  split; [apply Z.div_pos; lia|]. apply Z.div_lt_upper_bound; lia.
Qed.

Lemma to_digits_length n k : 0 <= n < 10 ^ Z.of_nat (S k) -> (length (to_digits n) <= S k)%nat.
Proof. intros H. etransitivity; [by apply (to_digits_fuel_length _ _ _ k)|simpl; lia]. Qed.

Lemma split_on_app sep l1 l2 :
  split_on sep (l1 ++ sep :: l2) = split_on sep l1 ++ split_on sep l2.
Proof.
  induction l1 as [|c l1 IH]; [by cbn; rewrite Ascii.eqb_refl|]. cbn [app split_on].
  destruct (Ascii.eqb c sep); [by rewrite IH|]. rewrite IH.
  destruct (split_on sep l1) as [|s more] eqn:E; [|done].
  destruct l1 as [|x l1]; [done|]. cbn in E. destruct (Ascii.eqb x sep); [done|].
  by destruct (split_on sep l1).
Qed.

(** Digits are told apart by their value when they are equally many, and canonical
    integers whatever their lengths. *)
Lemma of_digits_inj l l' :
  length l = length l' -> all_digits l = true -> all_digits l' = true ->
  of_digits l = of_digits l' -> l = l'.
Proof.
  revert l'. induction l as [|c l IH]; intros [|c' l']; try done. intros [= Hlen].
  rewrite !all_digits_cons, !andb_true_iff, !of_digits_cons. rewrite <- Hlen.
  intros [Hc Hl] [Hc' Hl'] E. pose proof (of_digits_bound l Hl). pose proof (of_digits_nonneg l Hl).
  pose proof (of_digits_bound l' Hl') as Hb. pose proof (of_digits_nonneg l' Hl').
  rewrite <- Hlen in Hb.
  assert (digit_value c = digit_value c') as Ec by nia.
  assert (of_digits l = of_digits l') as El by (rewrite Ec in E; lia).
  f_equal; [|by apply IH]. rewrite <- (digit_value_char c Hc), <- (digit_value_char c' Hc').
  by rewrite Ec.
Qed.

Lemma canonical_integer_bounds l :
  canonical_integer l = true ->
  l = ["0"%char] \/ 10 ^ (Z.of_nat (length l) - 1) <= of_digits l < 10 ^ Z.of_nat (length l).
Proof.
  intros H. pose proof (canonical_integer_digits l H) as Hd. pose proof (of_digits_bound l Hd) as Hb.
  destruct l as [|c l]; [done|]. rewrite all_digits_cons, andb_true_iff in Hd. destruct Hd as [Hc Hl].
  destruct (is_zero_char c) eqn:Hz.
  - left. unfold is_zero_char in Hz. apply Ascii.eqb_eq in Hz as ->. destruct l; [done|].
    cbn [canonical_integer] in H. by rewrite andb_false_r in H.
  - right. split; [|done]. rewrite of_digits_cons. cbn [length]. rewrite Nat2Z.inj_succ.
    replace (Z.succ _ - 1) with (Z.of_nat (length l)) by lia. pose proof (of_digits_nonneg l Hl).
    assert (1 <= digit_value c); [|nia]. apply is_digit_spec in Hc as Hv.
    destruct (Z.eq_dec (digit_value c) 0) as [E|]; [|lia]. exfalso.
    rewrite <- (digit_value_char c Hc), E in Hz. done.
Qed.

Lemma canonical_integer_inj l l' :
  canonical_integer l = true -> canonical_integer l' = true -> of_digits l = of_digits l' -> l = l'.
Proof.
  intros H H' E. pose proof (canonical_integer_bounds l H) as [->|B];
    pose proof (canonical_integer_bounds l' H') as [->|B']; [done| | |].
  - change (of_digits ["0"%char]) with 0 in E.
    assert (0 < 10 ^ (Z.of_nat (length l') - 1)); [|lia]. apply Z.pow_pos_nonneg; [lia|].
    destruct l'; [done|]. cbn [length]. lia.
  - change (of_digits ["0"%char]) with 0 in E.
    assert (0 < 10 ^ (Z.of_nat (length l) - 1)); [|lia]. apply Z.pow_pos_nonneg; [lia|].
    destruct l; [done|]. cbn [length]. lia.
  - apply of_digits_inj; [|by apply canonical_integer_digits..|done]. rewrite E in B.
    destruct (Nat.lt_trichotomy (length l) (length l')) as [Hlt|[->|Hlt]]; [exfalso|done|exfalso].
    + assert (10 ^ Z.of_nat (length l) <= 10 ^ (Z.of_nat (length l') - 1)); [|lia].
      apply Z.pow_le_mono_r; lia.
    + assert (10 ^ Z.of_nat (length l') <= 10 ^ (Z.of_nat (length l) - 1)); [|lia].
      apply Z.pow_le_mono_r; lia.
Qed.

(** ** JSON strings read back *)

(** The character a JSON string starts with, and the rest. *)
Definition json_unchar (l : list ascii) : option (ascii * list ascii) :=
  match l with
  | "092"%char :: "u"%char :: "0"%char :: "0"%char :: h :: d :: rest =>
      let digit c := if is_digit c then digit_value c else code c - 87 in
      Some (ascii_of_nat (Z.to_nat (16 * digit h + digit d)), rest)
  | "092"%char :: x :: rest =>
      Some (if Ascii.eqb x "b" then "008"%char else if Ascii.eqb x "t" then "009"%char
            else if Ascii.eqb x "n" then "010"%char else if Ascii.eqb x "f" then "012"%char
            else if Ascii.eqb x "r" then "013"%char else x, rest)
  | c :: rest => if Ascii.eqb c "034" then None else Some (c, rest)
  | [] => None
  end.

Lemma json_unchar_char c l : json_unchar (json_char c ++ l) = Some (c, l).
Proof. destruct c as [[] [] [] [] [] [] [] []]; reflexivity. Qed.

Lemma json_chars_inj l l' r r' :
  flat_map json_char l ++ "034"%char :: r = flat_map json_char l' ++ "034"%char :: r' ->
  l = l' /\ r = r'.
Proof.
  revert l'. induction l as [|c l IH]; intros [|c' l']; cbn [flat_map app]; intros E.
  - by injection E.
  - apply (f_equal json_unchar) in E. rewrite <- app_assoc, json_unchar_char in E. done.
  - apply (f_equal json_unchar) in E. rewrite <- app_assoc, json_unchar_char in E. done.
  - apply (f_equal json_unchar) in E. rewrite <- !app_assoc, !json_unchar_char in E.
    injection E as -> E. by destruct (IH l' E) as [-> ->].
Qed.

(** What follows a JSON string cannot be taken for a part of it. *)
Lemma json_string_inj s s' r r' :
  chars (json_string s) ++ r = chars (json_string s') ++ r' -> s = s' /\ r = r'.
Proof.
  unfold json_string. rewrite !chars_text. cbn [app]. intros [= E].
  rewrite <- !app_assoc in E. cbn [app] in E. apply json_chars_inj in E as [E ->].
  split; [|done]. by rewrite <- (text_chars s), E, text_chars.
Qed.

Lemma append_inj_l s t u : (s ++ t)%string = (s ++ u)%string -> t = u.
Proof. induction s as [|c s IH]; simpl; [done|]. intros [= E]. auto. Qed.
