(* ===== verification/Dates.v ===== *)
(** * Instants

    The two conversions of a JavaScript [Date] the modelled code relies on, for the one
    text form it stores: [toISOString] of a number of milliseconds and [Date.parse] of
    such a text, with the theorem that one undoes the other. Any other text is not a
    date here. *)
From Stdlib Require Import Ascii String ZArith Lia.
From stdpp Require Import base list strings.
From S2P Require Import Prelude Text.

Local Open Scope string_scope.
Local Open Scope Z_scope.
Local Open Scope list_scope.
Local Open Scope sdp_scope.

(** [^\d{4}-\d{2}-\d{2}T\d{2}:\d{2}:\d{2}\.\d{3}Z$] *)
Fixpoint matches_shape (shape s : list ascii) : bool :=
  match shape, s with
  | [], [] => true
  | p :: shape', c :: s' => (if is_digit p then is_digit c else Ascii.eqb p c) && matches_shape shape' s'
  | _, _ => false
  end.

Definition iso_instant (s : string) : bool :=
  matches_shape (chars "0000-00-00T00:00:00.000Z") (chars s).

(** ** The calendar *)

(** The days from 1970-01-01 of a date of the proleptic Gregorian calendar, counting
    years from March. *)
Definition days_of (year month day : Z) : Z :=
  let y := if month <=? 2 then year - 1 else year in
  let era := y / 400 in
  let yoe := y mod 400 in
  let doy := (153 * (if month <=? 2 then month + 9 else month - 3) + 2) / 5 + day - 1 in
  era * 146097 + (yoe * 365 + yoe / 4 - yoe / 100 + doy) - 719468.

(** The date within an era of 400 years, from 1 March of its first year: years since,
    month and day. *)
Definition date_of_era (doe : Z) : Z * Z * Z :=
  let yoe := (doe - doe / 1460 + doe / 36524 - doe / 146096) / 365 in
  let doy := doe - (365 * yoe + yoe / 4 - yoe / 100) in
  let mp := (5 * doy + 2) / 153 in
  let month := if mp <? 10 then mp + 3 else mp - 9 in
  (if month <=? 2 then yoe + 1 else yoe, month, doy - (153 * mp + 2) / 5 + 1).

Definition date_of (days : Z) : Z * Z * Z :=
  let z := days + 719468 in
  let '(yoe, month, day) := date_of_era (z mod 146097) in
  (yoe + z / 146097 * 400, month, day).

(** ** Texts *)

Definition MS_PER_DAY : Z := 86400000.

(** [n] in [k] digits. *)
Fixpoint fixed_digits (k : nat) (n : Z) : list ascii :=
  match k with
  | O => []
  | S k => fixed_digits k (n / 10) ++ [digit_char (n mod 10)]
  end.

(** A year that does not have four digits is written with a sign and six. *)
Definition year_text (year : Z) : list ascii :=
  if (0 <=? year) && (year <=? 9999) then fixed_digits 4 year
  else (if year <? 0 then "-"%char else "+"%char) :: fixed_digits 6 (Z.abs year).

(** [new Date(ms).toISOString()] *)
Definition toISOString (ms : Z) : result string :=
  if 8640000000000000 <? Z.abs ms then Err (PlainError "Invalid time value")
  else
    let '(year, month, day) := date_of (ms / MS_PER_DAY) in
    let t := ms mod MS_PER_DAY in
    Ok (text (year_text year ++ "-"%char :: fixed_digits 2 month ++ "-"%char :: fixed_digits 2 day
              ++ "T"%char :: fixed_digits 2 (t / 3600000) ++ ":"%char :: fixed_digits 2 (t / 60000 mod 60)
              ++ ":"%char :: fixed_digits 2 (t / 1000 mod 60) ++ "."%char :: fixed_digits 3 (t mod 1000)
              ++ ["Z"%char])).

(** [Date.parse] of a text in the form of [toISOString]; [None] is [NaN]. *)
Definition Date_parse (s : string) : option Z :=
  let l := chars s in
  let number from len := of_digits (firstn len (skipn from l)) in
  let '(month, day, hour) := (number 5%nat 2%nat, number 8%nat 2%nat, number 11%nat 2%nat) in
  let '(minute, second, ms) := (number 14%nat 2%nat, number 17%nat 2%nat, number 20%nat 3%nat) in
  let time := ((hour * 60 + minute) * 60 + second) * 1000 + ms in
  if iso_instant s && (1 <=? month) && (month <=? 12) && (1 <=? day) && (day <=? 31)
     && (minute <=? 59) && (second <=? 59) && (time <=? 86400000)
  then Some (days_of (number 0%nat 4%nat) month day * 86400000 + time)
  else None.

(** * Lemmas *)

(** The year and the day within it of a day of an era. *)
Lemma era_year doe :
  0 <= doe < 146097 ->
  let yoe := (doe - doe / 1460 + doe / 36524 - doe / 146096) / 365 in
  0 <= yoe <= 399 /\ 0 <= doe - (365 * yoe + yoe / 4 - yoe / 100) <= 365.
Proof. intros H yoe. unfold yoe. clear yoe. Z.to_euclidean_division_equations. lia. Qed.

Lemma year_day doy :
  0 <= doy <= 365 ->
  let mp := (5 * doy + 2) / 153 in 0 <= mp <= 11 /\ 1 <= doy - (153 * mp + 2) / 5 + 1 <= 31.
Proof. intros H mp. unfold mp. clear mp. Z.to_euclidean_division_equations. lia. Qed.

Lemma date_of_era_ok doe :
  0 <= doe < 146097 ->
  let '(year, month, day) := date_of_era doe in
  1 <= month <= 12 /\ 1 <= day <= 31 /\ days_of year month day = doe - 719468.
Proof.
  intros H. unfold date_of_era. destruct (era_year doe H) as [Hy Hd].
  set (yoe := (doe - doe / 1460 + doe / 36524 - doe / 146096) / 365) in *.
  set (doy := doe - (365 * yoe + yoe / 4 - yoe / 100)) in *.
  destruct (year_day doy Hd) as [Hm Hday]. set (mp := (5 * doy + 2) / 153) in *.
  assert (forall y m, (if m <=? 2 then y - 1 else y) = yoe -> (if m <=? 2 then m + 9 else m - 3) = mp ->
    days_of y m (doy - (153 * mp + 2) / 5 + 1) = doe - 719468) as Hdays.
  { intros y m Ey Em. unfold days_of. rewrite Ey, Em, Z.div_small, Z.mod_small by lia. unfold doy. lia. }
  destruct (Z.ltb_spec mp 10) as [Hlt|Hge].
  - rewrite (proj2 (Z.leb_gt _ _)) in * by lia.
    split; [lia|]. split; [done|]. apply Hdays; rewrite (proj2 (Z.leb_gt _ _)) by lia; lia.
  - rewrite (proj2 (Z.leb_le (mp - 9) 2)) by lia.
    split; [lia|]. split; [done|]. apply Hdays; rewrite (proj2 (Z.leb_le _ _)) by lia; lia.
Qed.

Lemma days_of_era year month day k : days_of (year + k * 400) month day = days_of year month day + k * 146097.
Proof.
  unfold days_of. destruct (month <=? 2).
  - replace (year + k * 400 - 1) with (year - 1 + k * 400) by lia. rewrite Z_div_plus, Z_mod_plus by lia. lia.
  - rewrite Z_div_plus, Z_mod_plus by lia. lia.
Qed.

Lemma days_of_date days :
  let '(year, month, day) := date_of days in
  days_of year month day = days /\ 1 <= month <= 12 /\ 1 <= day <= 31.
Proof.
  unfold date_of. set (z := days + 719468).
  pose proof (date_of_era_ok (z mod 146097) (Z.mod_pos_bound z 146097 eq_refl)) as H.
  destruct (date_of_era (z mod 146097)) as [[year month] day].
  destruct H as (Hm & Hd & E). rewrite days_of_era, E. pose proof (Z.div_mod z 146097). lia.
Qed.

Lemma fixed_digits_length k n : length (fixed_digits k n) = k.
Proof. revert n. induction k as [|k IH]; intros n; [done|]. cbn. rewrite length_app, IH. cbn. lia. Qed.

Lemma fixed_digits_value k n : 0 <= n < 10 ^ Z.of_nat k -> of_digits (fixed_digits k n) = n.
Proof.
  revert n. induction k as [|k IH]; intros n Hn; [cbn in *; lia|]. cbn [fixed_digits].
  rewrite of_digits_app. cbn [length]. pose proof (Z.mod_pos_bound n 10 eq_refl).
  rewrite Nat2Z.inj_succ, Z.pow_succ_r in Hn by lia.
  rewrite IH by (split; [apply Z.div_pos; lia|apply Z.div_lt_upper_bound; lia]).
  unfold of_digits. cbn. rewrite digit_char_value by lia. pose proof (Z.div_mod n 10). lia.
Qed.

Lemma fixed_digits_all k n : all_digits (fixed_digits k n) = true.
Proof.
  revert n. induction k as [|k IH]; intros n; [done|]. cbn [fixed_digits]. rewrite all_digits_app, IH. cbn.
  pose proof (Z.mod_pos_bound n 10 eq_refl). rewrite digit_char_is_digit by lia. done.
Qed.

(** The digits of a number at their place in a text. *)
Lemma matches_app shape1 shape2 l1 l2 :
  length shape1 = length l1 ->
  matches_shape (shape1 ++ shape2) (l1 ++ l2) = matches_shape shape1 l1 && matches_shape shape2 l2.
Proof.
  revert l1. induction shape1 as [|p shape1 IH]; intros [|c l1] H; try done.
  cbn. rewrite IH by (injection H; done). by rewrite andb_assoc.
Qed.

Lemma matches_digits k l : length l = k -> all_digits l = true -> matches_shape (repeat "0"%char k) l = true.
Proof.
  intros <-. induction l as [|c l IH]; [done|]. rewrite all_digits_cons. intros [Hc Hl]%andb_true_iff.
  cbn. by rewrite Hc, IH.
Qed.

Lemma matches_number k n shape l :
  matches_shape (repeat "0"%char k ++ shape) (fixed_digits k n ++ l) = matches_shape shape l.
Proof.
  rewrite matches_app by (by rewrite fixed_digits_length, repeat_length).
  by rewrite matches_digits by (apply fixed_digits_length || apply fixed_digits_all).
Qed.

Lemma matches_mark c shape l :
  is_digit c = false -> matches_shape (c :: shape) (c :: l) = matches_shape shape l.
Proof. intros H. cbn [matches_shape]. by rewrite H, Ascii.eqb_refl. Qed.

(** The text of an instant with a year of four digits, piece by piece. *)
Lemma instant_text year month day hour minute second ms :
  let l := fixed_digits 4 year ++ "-"%char :: fixed_digits 2 month ++ "-"%char :: fixed_digits 2 day
             ++ "T"%char :: fixed_digits 2 hour ++ ":"%char :: fixed_digits 2 minute
             ++ ":"%char :: fixed_digits 2 second ++ "."%char :: fixed_digits 3 ms ++ ["Z"%char] in
  matches_shape (chars "0000-00-00T00:00:00.000Z") l = true
  /\ firstn 4 (skipn 0 l) = fixed_digits 4 year /\ firstn 2 (skipn 5 l) = fixed_digits 2 month
  /\ firstn 2 (skipn 8 l) = fixed_digits 2 day /\ firstn 2 (skipn 11 l) = fixed_digits 2 hour
  /\ firstn 2 (skipn 14 l) = fixed_digits 2 minute /\ firstn 2 (skipn 17 l) = fixed_digits 2 second
  /\ firstn 3 (skipn 20 l) = fixed_digits 3 ms.
Proof.
  intros l. split; [|subst l; by cbn].
  change (chars "0000-00-00T00:00:00.000Z")
    with (repeat "0"%char 4 ++ "-"%char :: repeat "0"%char 2 ++ "-"%char :: repeat "0"%char 2 ++ "T"%char ::
          repeat "0"%char 2 ++ ":"%char :: repeat "0"%char 2 ++ ":"%char :: repeat "0"%char 2 ++ "."%char ::
          repeat "0"%char 3 ++ ["Z"%char]).
  subst l. by repeat (rewrite matches_number; rewrite ?matches_mark by done).
Qed.

Example Date_parse_epoch : Date_parse "1970-01-01T00:00:00.000Z" = Some 0.
Proof. reflexivity. Qed.

Example Date_parse_leap : Date_parse "2024-02-29T12:30:15.250Z" = Some 1709209815250.
Proof. reflexivity. Qed.

(** * Theorems *)

(** Every instant of the years 0 to 9999, to the millisecond, is read back from its
    text as itself. *)
Theorem instants_round_trip ms :
  -62167219200000 <= ms < 253402300800000 ->
  exists s, toISOString ms = Ok s /\ Date_parse s = Some ms.
Proof.
  intros Hms. unfold toISOString. rewrite (proj2 (Z.ltb_ge _ _)) by lia.
  pose proof (days_of_date (ms / MS_PER_DAY)) as H.
  assert (-719528 <= ms / MS_PER_DAY < 2932897) as Hd.
  { unfold MS_PER_DAY. split; [apply Z.div_le_lower_bound; lia|apply Z.div_lt_upper_bound; lia]. }
  destruct (date_of (ms / MS_PER_DAY)) as [[year month] day]. destruct H as (E & Hmo & Hda).
  assert (0 <= year <= 9999) as Hy.
  { clear - E Hmo Hda Hd. unfold days_of in E.
    destruct (Z.leb_spec month 2); Z.to_euclidean_division_equations; lia. }
  unfold year_text. rewrite (proj2 (Z.leb_le 0 year)), (proj2 (Z.leb_le year 9999)) by lia. cbn [andb].
  eexists. split; [reflexivity|]. set (t := ms mod MS_PER_DAY).
  assert (0 <= t < 86400000) as Ht by (by apply Z.mod_pos_bound).
  assert (0 <= t / 3600000 < 24 /\ 0 <= t / 60000 mod 60 < 60 /\ 0 <= t / 1000 mod 60 < 60 /\ 0 <= t mod 1000 < 1000
    /\ ((t / 3600000 * 60 + t / 60000 mod 60) * 60 + t / 1000 mod 60) * 1000 + t mod 1000 = t) as (Hh & Hmi & Hse & Hml & Et).
  { clear - Ht. Z.to_euclidean_division_equations. lia. }
  destruct (instant_text year month day (t / 3600000) (t / 60000 mod 60) (t / 1000 mod 60) (t mod 1000))
    as (Hs & E1 & E2 & E3 & E4 & E5 & E6 & E7).
  unfold Date_parse, iso_instant. rewrite !chars_text, Hs, E1, E2, E3, E4, E5, E6, E7.
  rewrite !fixed_digits_value by (cbn; lia). rewrite Et, E.
  rewrite !(proj2 (Z.leb_le _ _)) by lia. cbn [andb]. f_equal.
  unfold t, MS_PER_DAY. pose proof (Z.div_mod ms 86400000). lia.
Qed.

Lemma instants_round_trip_witness :
  toISOString 1709209815250 = Ok "2024-02-29T12:30:15.250Z"
  /\ exists s, toISOString 1709209815250 = Ok s /\ Date_parse s = Some 1709209815250.
Proof. split; [vm_compute; reflexivity|]. apply instants_round_trip. lia. Defined.
