(* ===== verification/Amount.v ===== *)
(** * Decimal amounts

    [packages/sdp-solana/src/amount.ts] and [packages/sdp-kamino/src/amounts.ts]:
    fixed-point amounts as decimal strings and [bigint] base units. The conversions to a
    JavaScript number are in TokenAmount.v. *)
From Stdlib Require Import Ascii String ZArith Lia.
From stdpp Require Import base list strings.
From S2P Require Import Prelude Text.

Local Open Scope Z_scope.
Local Open Scope sdp_scope.

Definition AmountError (message : string) : jserr :=
  CodedError "AmountError" "" message None.

(** ** [packages/sdp-solana/src/amount.ts] *)
Module SolanaAmount.
Definition MAX_SAFE_BASE_UNITS : Z := 2 ^ 53 - 1.

(** The loop of [isDecimalString]: [hasDigit] and [seenDot] are its variables. *)
Fixpoint isDecimalLoop (hasDigit seenDot : bool) (l : list ascii) : bool :=
  match l with
  | [] => hasDigit
  | char :: rest =>
      if Ascii.eqb char "." then
        if seenDot then false else isDecimalLoop hasDigit true rest
      else if negb (is_digit char) then false
      else isDecimalLoop true seenDot rest
  end.

Definition isDecimalString (value : string) : bool :=
  match chars value with
  | [] => false
  | l => isDecimalLoop false false l
  end.

(** [const [wholeRaw = "", fractionRaw = ""] = value.split(".")] *)
Definition normalizeDecimalParts (l : list ascii) : list ascii * list ascii :=
  let parts := split_on "." l in
  let wholeRaw := default [] (parts !! 0%nat) in
  let fractionRaw := default [] (parts !! 1%nat) in
  (match wholeRaw with [] => ["0"%char] | _ => wholeRaw end, fractionRaw).

Definition decimalScale (value : string) : Z :=
  Z.of_nat (length (normalizeDecimalParts (trim (chars value))).2).

(** [decimals] is an integer; the check [Number.isInteger] always holds. *)
Definition parseDecimalAmount (value : string) (decimals : Z) : result Z :=
  let normalized := trim (chars value) in
  if negb (isDecimalString (text normalized)) then
    Err (AmountError "Invalid decimal amount")
  else if decimals <? 0 then
    Err (AmountError "Invalid decimals configuration")
  else
    let '(whole, fraction) := normalizeDecimalParts normalized in
    if decimals <? Z.of_nat (length fraction) then
      Err (AmountError "Amount has too many decimal places")
    else
      let paddedFraction := pad_end_zeros decimals fraction in
      let combined := whole ++ paddedFraction in
      let sanitized :=
        match drop_while is_zero_char combined with
        | [] => ["0"%char]
        | s => s
        end in
      Ok (of_digits sanitized).

Definition compareDecimalAmounts (left right : string) : result Z :=
  let decimals := Z.max (decimalScale left) (decimalScale right) in
  let? leftAmount := parseDecimalAmount left decimals in
  let? rightAmount := parseDecimalAmount right decimals in
  if leftAmount =? rightAmount then Ok 0
  else Ok (if leftAmount <? rightAmount then -1 else 1).

(** [value] is the [bigint]; a string argument is converted by [BigInt] first. *)
Definition formatDecimalAmount (value : Z) (decimals : Z) : result string :=
  if decimals <? 0 then Err (AmountError "Invalid decimals configuration")
  else
    let negative := value <? 0 in
    let absolute := if negative then - value else value in
    let sign := if negative then ["-"%char] else [] in
    let digits := to_digits absolute in
    if decimals =? 0 then Ok (text (sign ++ digits))
    else
      let digits :=
        if Z.of_nat (length digits) <=? decimals
        then pad_start_zeros (decimals + 1) digits else digits in
      let cut := (length digits - Z.to_nat decimals)%nat in
      let whole := take cut digits in
      let fraction := drop_end_while is_zero_char (drop cut digits) in
      let formatted :=
        match fraction with
        | [] => whole
        | _ => whole ++ ["."%char] ++ fraction
        end in
      Ok (text (sign ++ formatted)).
End SolanaAmount.

(** ** [packages/sdp-kamino/src/amounts.ts] *)
Module KaminoAmount.
Import SolanaAmount.

Definition MAX_U64_BASE_UNITS : Z := Z.shiftl 1 64 - 1.

Definition SdpKaminoError (code message : string) : jserr :=
  CodedError "SdpKaminoError" code message None.

Definition invalidAmount (field value : string) : jserr :=
  SdpKaminoError "INVALID_AMOUNT"
    ("Kamino " ++ field ++ " must be a positive decimal string; received " ++ json_string value).

Definition amountTooPrecise (field value : string) (decimals : Z) : jserr :=
  SdpKaminoError "INVALID_AMOUNT"
    ("Kamino " ++ field ++ " " ++ json_string value
     ++ " has more precision than its mint supports (" ++ z_text decimals
     ++ " decimals). The SDK would floor it, so the amount encoded on chain would not match the amount requested.").

Definition amountOutOfRange (field value : string) : jserr :=
  SdpKaminoError "INVALID_AMOUNT"
    ("Kamino " ++ field ++ " " ++ json_string value
     ++ " exceeds the maximum unsigned 64-bit base-unit amount").

(** [raw] is [String(value ?? "").trim()]; a number above 18 is refused, so
    the rounding of [Number] on long digit strings is not observable. *)
Definition mintDecimals (value label : string) : result Z :=
  let raw := trim (chars value) in
  if negb (match raw with [] => false | _ => all_digits raw end) || (18 <? of_digits raw) then
    Err (PlainError ("Kamino vault state carried an unusable " ++ label ++ " (" ++ value ++ ")"))
  else Ok (of_digits raw).

Definition trimInsignificantFractionalZeroes (value : list ascii) : list ascii :=
  match index_of "." value with
  | None => value
  | Some dot =>
      let whole := take dot value in
      (* the scan that lowers [fractionEnd] while it stands after a zero *)
      match drop_end_while is_zero_char (drop (S dot) value) with
      | [] => whole
      | fraction => whole ++ ["."%char] ++ fraction
      end
  end.

Definition acceptAtMintScale (field value : string) (decimals : Z) : result string :=
  let normalized := trim (chars value) in
  if negb (isDecimalString (text normalized)) then Err (invalidAmount field value)
  else
    let canonicalScaleInput := text (trimInsignificantFractionalZeroes normalized) in
    if decimals <? decimalScale canonicalScaleInput then
      Err (amountTooPrecise field value decimals)
    else
      let? baseUnits := parseDecimalAmount canonicalScaleInput decimals in
      if MAX_U64_BASE_UNITS <? baseUnits then Err (amountOutOfRange field value)
      else formatDecimalAmount baseUnits decimals.

Definition isZeroAmount (canonical : string) : bool := String.eqb canonical "0".
End KaminoAmount.

(** ** The number a decimal string denotes

    [mantissa s / 10 ^ decimalScale s], with no reference to how the code parses
    it: the digits of the string in order, and the count of those after the dot. *)
Module DecimalSpec.
Definition is_decimal (value : string) : bool :=
  SolanaAmount.isDecimalString (text (trim (chars value))).

Definition mantissa (value : string) : Z := of_digits (List.filter is_digit (chars value)).

(** The two strings denote the same number, or the first a smaller one. *)
Definition compare_values (left right : string) : comparison :=
  mantissa left * 10 ^ SolanaAmount.decimalScale right
  ?= mantissa right * 10 ^ SolanaAmount.decimalScale left.

Definition sign_of (c : comparison) : Z :=
  match c with Lt => -1 | Eq => 0 | Gt => 1 end.

(** [units] base units of a token with [decimals] decimals are the number. *)
Definition represents (units : Z) (value : string) (decimals : Z) : Prop :=
  units * 10 ^ SolanaAmount.decimalScale value = mantissa value * 10 ^ decimals.

(** A dot followed by zeros only, such as [".00"]. *)
Definition bare_zero (value : string) : bool :=
  match trim (chars value) with
  | "."%char :: f => forallb is_zero_char f
  | _ => false
  end.

(** The decimal notation: digits, or digits around one dot with at least one of them;
    the text is the number of its digits over ten to the count of those after the dot. *)
Inductive decimal_text : list ascii -> Z -> Z -> Prop :=
| decimal_whole w : all_digits w = true -> w <> [] -> decimal_text w (of_digits w) 0
| decimal_dotted w f : all_digits w = true -> all_digits f = true -> w ++ f <> [] ->
    decimal_text (w ++ "."%char :: f) (of_digits (w ++ f)) (Z.of_nat (length f)).

(** The text, white space around it apart, is the number of that many base units. *)
Definition denotes (value : string) (units decimals : Z) : Prop :=
  exists m k, decimal_text (trim (chars value)) m k /\ units * 10 ^ k = m * 10 ^ decimals.
End DecimalSpec.

(** * Theorems *)

Import SolanaAmount DecimalSpec.

Section DecimalShape.
(** A decimal string is digits, or digits around one dot, with at least one. *)
Lemma isDecimalLoop_shape h sd l :
  isDecimalLoop h sd l = true ->
  (all_digits l = true /\ (h = true \/ l <> []))
  \/ (sd = false /\ exists w f, l = w ++ "."%char :: f /\ all_digits w = true
       /\ all_digits f = true /\ (h = true \/ w ++ f <> [])).
Proof.
  revert h sd. induction l as [|c l IH]; intros h sd; cbn [isDecimalLoop].
  - intros ->. left. by split; [|left].
  - destruct (Ascii.eqb_spec c ".") as [->|Hc].
    + destruct sd; [done|]. intros [[Hl Hn]|(? & _)]%IH; [|done].
      right. split; [done|]. exists [], l. simpl. by split_and!.
    + destruct (is_digit c) eqn:Hd; [|done]. cbn [negb]. intros H%IH.
      destruct H as [[Hl _]|(-> & w & f & -> & Hw & Hf & _)].
      * left. split; [by rewrite all_digits_cons, Hd, Hl | by right].
      * right. split; [done|]. exists (c :: w), f.
        rewrite all_digits_cons, Hd. simpl. split_and!; auto.
Qed.

Lemma isDecimalString_shape l :
  isDecimalString (text l) = true ->
  l <> [] /\
  ((all_digits l = true)
   \/ exists w f, l = w ++ "."%char :: f /\ all_digits w = true
       /\ all_digits f = true /\ w ++ f <> []).
Proof.
  unfold isDecimalString. rewrite chars_text. destruct l as [|c l]; [done|].
  intros H. split; [done|].
  destruct (isDecimalLoop_shape _ _ _ H) as [[? _]|(_ & w & f & ? & ? & ? & [?|?])];
    [by left|done|right; by exists w, f].
Qed.

Lemma isDecimalLoop_digits h sd w l :
  all_digits w = true ->
  isDecimalLoop h sd (w ++ l) = isDecimalLoop (h || negb (bool_decide (w = []))) sd l.
Proof.
  revert h. induction w as [|c w IH]; intros h H.
  - rewrite bool_decide_eq_true_2 by done. simpl. by rewrite orb_false_r.
  - rewrite all_digits_cons, andb_true_iff in H. destruct H as [Hc Hw].
    cbn [app isDecimalLoop]. rewrite Hc. cbn [negb].
    destruct (Ascii.eqb_spec c ".") as [->|_]; [done|].
    rewrite IH, orb_true_l by done.
    by rewrite (bool_decide_eq_false_2 (c :: w = [])), orb_true_r.
Qed.

Lemma isDecimalString_digits l :
  all_digits l = true -> l <> [] -> isDecimalString (text l) = true.
Proof.
  intros H Hn. unfold isDecimalString. rewrite chars_text.
  destruct l as [|c l]; [done|].
  rewrite <- (app_nil_r (c :: l)), isDecimalLoop_digits by done.
  by rewrite bool_decide_eq_false_2.
Qed.

Lemma isDecimalString_dotted w f :
  all_digits w = true -> all_digits f = true -> w ++ f <> [] ->
  isDecimalString (text (w ++ "."%char :: f)) = true.
Proof.
  intros Hw Hf Hn. unfold isDecimalString. rewrite chars_text.
  assert (Hs : w ++ "."%char :: f <> []) by by destruct w.
  destruct (w ++ "."%char :: f) as [|c l'] eqn:E; [done|]. rewrite <- E.
  rewrite isDecimalLoop_digits by done. cbn [isDecimalLoop].
  rewrite Ascii.eqb_refl. rewrite <- (app_nil_r f), isDecimalLoop_digits by done.
  cbn [isDecimalLoop orb]. rewrite <- negb_andb. apply negb_true_iff.
  apply andb_false_iff. destruct w; [right|left]; by apply bool_decide_eq_false_2.
Qed.

Lemma normalize_digits l :
  all_digits l = true -> l <> [] -> normalizeDecimalParts l = (l, []).
Proof.
  intros H Hn. unfold normalizeDecimalParts.
  rewrite split_on_none by by apply digits_no_dot. simpl. by destruct l.
Qed.

Lemma normalize_dotted w f :
  all_digits w = true -> all_digits f = true ->
  normalizeDecimalParts (w ++ "."%char :: f) = (match w with [] => ["0"%char] | _ => w end, f).
Proof.
  intros Hw Hf. unfold normalizeDecimalParts.
  rewrite split_on_first by by apply digits_no_dot.
  rewrite split_on_none by by apply digits_no_dot. done.
Qed.

(** What the code reads off a decimal string: the digits, split in two. *)
Lemma decimal_parts value :
  is_decimal value = true ->
  exists whole fraction,
    normalizeDecimalParts (trim (chars value)) = (whole, fraction)
    /\ all_digits whole = true /\ all_digits fraction = true /\ whole <> []
    /\ of_digits (whole ++ fraction) = mantissa value.
Proof.
  unfold is_decimal, mantissa. rewrite <- filter_digits_trim.
  intros [Hne [Hd|(w & f & E & Hw & Hf & Hn)]]%isDecimalString_shape.
  - exists (trim (chars value)), []. rewrite normalize_digits, filter_digits, app_nil_r by done.
    done.
  - rewrite E, normalize_dotted by done.
    rewrite List.filter_app. cbn [List.filter]. rewrite !filter_digits by done.
    eexists _, _. split; [done|]. destruct w as [|c w]; simpl; split_and!; try done.
Qed.

Lemma sanitize_digits l :
  of_digits (match drop_while is_zero_char l with [] => ["0"%char] | s => s end) = of_digits l.
Proof. rewrite <- (of_digits_drop_zeros l). by destruct (drop_while _ _). Qed.

Lemma decimalScale_fraction value whole fraction :
  normalizeDecimalParts (trim (chars value)) = (whole, fraction) ->
  decimalScale value = Z.of_nat (length fraction).
Proof. unfold decimalScale. by intros ->. Qed.

Lemma decimalScale_nonneg value : 0 <= decimalScale value.
Proof. unfold decimalScale. lia. Qed.

Lemma mantissa_nonneg value : 0 <= mantissa value.
Proof.
  apply of_digits_nonneg, all_digits_In. intros c [_ H]%filter_In. done.
Qed.
End DecimalShape.

Section AmountFacts.
Lemma parse_decimal value decimals :
  is_decimal value = true -> decimalScale value <= decimals ->
  parseDecimalAmount value decimals = Ok (mantissa value * 10 ^ (decimals - decimalScale value)).
Proof.
  intros Hd Hs. pose proof (decimalScale_nonneg value).
  unfold parseDecimalAmount. fold (is_decimal value). rewrite Hd. cbn [negb].
  rewrite (proj2 (Z.ltb_ge _ _)) by lia.
  destruct (decimal_parts value Hd) as (w & f & E & Hw & Hf & Hn & Hm).
  rewrite (decimalScale_fraction _ _ _ E) in *. rewrite E.
  rewrite (proj2 (Z.ltb_ge _ _)) by lia. f_equal.
  rewrite sanitize_digits. unfold pad_end_zeros.
  rewrite app_assoc, of_digits_app, of_digits_zeros, Hm, repeat_length.
  rewrite Nat2Z.inj_sub, Z2Nat.id by lia. lia.
Qed.

Lemma pow10_pos n : 0 <= n -> 0 < 10 ^ n.
Proof. intros. by apply Z.pow_pos_nonneg. Qed.

(** Comparing at a common scale compares the numbers. *)
Lemma compare_at_scale ml mr sl sr d :
  0 <= sl <= d -> 0 <= sr <= d ->
  (ml * 10 ^ (d - sl) ?= mr * 10 ^ (d - sr)) = (ml * 10 ^ sr ?= mr * 10 ^ sl).
Proof.
  intros Hl Hr.
  rewrite (Zmult_compare_compat_r (ml * 10 ^ (d - sl)) _ (10 ^ (sl + sr)))
    by (apply Z.lt_gt, pow10_pos; lia).
  rewrite (Zmult_compare_compat_r (ml * 10 ^ sr) _ (10 ^ d))
    by (apply Z.lt_gt, pow10_pos; lia).
  rewrite <- !Z.mul_assoc, <- !Z.pow_add_r by lia.
  f_equal; f_equal; f_equal; lia.
Qed.

Lemma compare_sign x y :
  (if x =? y then Ok 0 else Ok (if x <? y then -1 else 1)) = Ok (sign_of (x ?= y)).
Proof.
  destruct (Z.compare_spec x y) as [->|H|H].
  - by rewrite Z.eqb_refl.
  - rewrite (proj2 (Z.eqb_neq _ _)), (proj2 (Z.ltb_lt _ _)) by lia. done.
  - rewrite (proj2 (Z.eqb_neq _ _)), (proj2 (Z.ltb_ge _ _)) by lia. done.
Qed.

Lemma compareDecimalAmounts_decimal left right :
  is_decimal left = true -> is_decimal right = true ->
  compareDecimalAmounts left right = Ok (sign_of (compare_values left right)).
Proof.
  intros Hl Hr. unfold compareDecimalAmounts.
  pose proof (decimalScale_nonneg left). pose proof (decimalScale_nonneg right).
  rewrite !parse_decimal by (done || lia). cbn [result_bind].
  rewrite compare_sign. unfold compare_values. by rewrite compare_at_scale by lia.
Qed.

Lemma parse_not_decimal value decimals :
  is_decimal value = false ->
  parseDecimalAmount value decimals = Err (AmountError "Invalid decimal amount").
Proof. intros H. unfold parseDecimalAmount. fold (is_decimal value). by rewrite H. Qed.

(** A string of digits, with or without a dot, is not changed by [trim]. *)
Lemma trim_digits l : all_digits l = true -> trim l = l.
Proof.
  intros H. apply trim_no_space. intros c Hc. apply digit_not_space.
  by apply (proj1 (all_digits_In l)).
Qed.

Lemma trim_dotted w f :
  all_digits w = true -> all_digits f = true -> trim (w ++ "."%char :: f) = w ++ "."%char :: f.
Proof.
  intros Hw Hf. apply trim_no_space. intros c [Hc|[<-|Hc]]%in_app_or.
  - apply digit_not_space. by apply (proj1 (all_digits_In w)).
  - done.
  - apply digit_not_space. by apply (proj1 (all_digits_In f)).
Qed.

Lemma is_decimal_digits l : all_digits l = true -> l <> [] -> is_decimal (text l) = true.
Proof.
  intros H Hn. unfold is_decimal. rewrite chars_text, trim_digits by done.
  by apply isDecimalString_digits.
Qed.

Lemma is_decimal_dotted w f :
  all_digits w = true -> all_digits f = true -> w ++ f <> [] ->
  is_decimal (text (w ++ "."%char :: f)) = true.
Proof.
  intros Hw Hf Hn. unfold is_decimal. rewrite chars_text, trim_dotted by done.
  by apply isDecimalString_dotted.
Qed.

Lemma mantissa_digits l : all_digits l = true -> mantissa (text l) = of_digits l.
Proof. intros H. unfold mantissa. by rewrite chars_text, filter_digits. Qed.

Lemma mantissa_dotted w f :
  all_digits w = true -> all_digits f = true ->
  mantissa (text (w ++ "."%char :: f)) = of_digits (w ++ f).
Proof.
  intros Hw Hf. unfold mantissa. rewrite chars_text, List.filter_app.
  cbn [List.filter]. by rewrite !filter_digits.
Qed.

Lemma scale_digits l : all_digits l = true -> l <> [] -> decimalScale (text l) = 0.
Proof.
  intros H Hn. unfold decimalScale. rewrite chars_text, trim_digits by done.
  by rewrite normalize_digits.
Qed.

Lemma scale_dotted w f :
  all_digits w = true -> all_digits f = true ->
  decimalScale (text (w ++ "."%char :: f)) = Z.of_nat (length f).
Proof.
  intros Hw Hf. unfold decimalScale. rewrite chars_text, trim_dotted by done.
  by rewrite normalize_dotted.
Qed.
End AmountFacts.

Section FormatFacts.
(** The digits of a number cut [d] places from the right. *)
Lemma cut_digits D d :
  all_digits D = true -> 0 <= d < Z.of_nat (length D) ->
  let cut := (length D - Z.to_nat d)%nat in
  let f := drop_end_while is_zero_char (drop cut D) in
  all_digits (take cut D) = true /\ all_digits f = true /\ take cut D <> []
  /\ Z.of_nat (length f) <= d
  /\ of_digits (take cut D ++ f) * 10 ^ (d - Z.of_nat (length f)) = of_digits D.
Proof.
  intros HD Hd cut f.
  rewrite <- (take_drop cut D), all_digits_app, andb_true_iff in HD.
  destruct HD as [Hw HF].
  destruct (drop_end_while_decompose is_zero_char (drop cut D)) as (z & Hz & Hzero).
  fold f in Hz. apply zeros_repeat in Hzero.
  assert (Hlen : Z.of_nat (length f) + Z.of_nat (length z) = d).
  { apply (f_equal length) in Hz. rewrite length_drop, length_app in Hz. lia. }
  split_and!; [done|by apply all_digits_drop_end_while| |lia|].
  - intros E%(f_equal length). rewrite length_take in E. simpl in E. lia.
  - assert (E : of_digits D = of_digits ((take cut D ++ f) ++ z))
      by by rewrite <- app_assoc, <- Hz, take_drop.
    rewrite E, (of_digits_app (take cut D ++ f)), Hzero, of_digits_zeros, repeat_length.
    replace (d - Z.of_nat (length f)) with (Z.of_nat (length z)) by lia. lia.
Qed.

Lemma pad_start_digits n l :
  all_digits l = true ->
  all_digits (pad_start_zeros n l) = true /\ of_digits (pad_start_zeros n l) = of_digits l
  /\ Z.of_nat (length (pad_start_zeros n l)) = Z.max n (Z.of_nat (length l)).
Proof.
  intros H. unfold pad_start_zeros.
  rewrite all_digits_app, all_digits_zeros, H, of_digits_app, of_digits_zeros.
  rewrite length_app, repeat_length. split_and!; [done|lia|lia].
Qed.

(** What [formatDecimalAmount] prints for a number of base units. *)
Lemma format_shape z d :
  0 <= z -> 0 <= d ->
  exists w f, formatDecimalAmount z d
      = Ok (text (match f with [] => w | _ => w ++ "."%char :: f end))
    /\ all_digits w = true /\ all_digits f = true /\ w <> []
    /\ Z.of_nat (length f) <= d
    /\ of_digits (w ++ f) * 10 ^ (d - Z.of_nat (length f)) = z.
Proof.
  intros Hz Hd. unfold formatDecimalAmount.
  rewrite (proj2 (Z.ltb_ge d 0)), (proj2 (Z.ltb_ge z 0)) by lia. cbn [app].
  pose proof (to_digits_all z Hz) as Hall. pose proof (of_to_digits z Hz) as Hof.
  assert (Hne : to_digits z <> []) by (intros E; destruct (Z.eq_dec z 0) as [->|];
    [done|destruct (to_digits_head z) as (? & ? & E' & _); [lia|congruence]]).
  destruct (Z.eqb_spec d 0) as [->|Hd0].
  - exists (to_digits z), []. rewrite app_nil_r, Hof. split_and!; try done. cbn. lia.
  - set (D := if _ <=? d then _ else _).
    assert (all_digits D = true /\ of_digits D = z /\ d < Z.of_nat (length D)) as (HD & HoD & Hl).
    { unfold D. destruct (Z.leb_spec (Z.of_nat (length (to_digits z))) d); [|done].
      destruct (pad_start_digits (d + 1) _ Hall) as (? & -> & ->).
      split_and!; [done|done|lia]. }
    destruct (cut_digits D d HD ltac:(lia)) as (H1 & H2 & H3 & H4 & H5).
    eexists _, _. split; [reflexivity|]. rewrite <- HoD. done.
Qed.

Lemma printed_value w f :
  all_digits w = true -> all_digits f = true -> w <> [] ->
  let s := text (match f with [] => w | _ => w ++ "."%char :: f end) in
  is_decimal s = true /\ decimalScale s = Z.of_nat (length f)
  /\ mantissa s = of_digits (w ++ f).
Proof.
  intros Hw Hf Hn s. unfold s. destruct f as [|c f].
  - rewrite is_decimal_digits, scale_digits, mantissa_digits, app_nil_r by done. done.
  - rewrite is_decimal_dotted, scale_dotted, mantissa_dotted by (done || by destruct w). done.
Qed.

Lemma format_parse z d :
  0 <= z -> 0 <= d ->
  exists s, formatDecimalAmount z d = Ok s /\ parseDecimalAmount s d = Ok z
            /\ is_decimal s = true.
Proof.
  intros Hz Hd. destruct (format_shape z d Hz Hd) as (w & f & -> & Hw & Hf & Hn & Hl & Hv).
  eexists. split; [reflexivity|].
  destruct (printed_value w f Hw Hf Hn) as (H1 & H2 & H3). cbv zeta in *.
  split; [|done]. rewrite parse_decimal by (done || lia). rewrite H2, H3, Hv. done.
Qed.
End FormatFacts.

Section KaminoFacts.
Import KaminoAmount.

Lemma drop_while_head_not p l c l' : drop_while p l = c :: l' -> p c = false.
Proof. apply drop_while_head. Qed.

(** A fraction stripped of its insignificant zeros is empty or ends in another digit. *)
Lemma stripped_last f :
  all_digits f = true ->
  let f' := drop_end_while is_zero_char f in
  f' = [] \/ exists g c, f' = g ++ [c] /\ is_digit c = true /\ digit_value c <> 0.
Proof.
  intros Hf f'. unfold f', drop_end_while.
  destruct (drop_while is_zero_char (rev f)) as [|c g] eqn:E; [by left|right].
  exists (rev g), c. split; [done|].
  assert (Hc : is_digit c = true).
  { apply (proj1 (all_digits_In f) Hf). apply in_rev.
    destruct (drop_while_decompose is_zero_char (rev f)) as (pre & -> & _).
    rewrite E. apply in_or_app. right. by left. }
  split; [done|]. intros H0. apply drop_while_head in E.
  rewrite <- (digit_value_char c Hc), H0 in E. done.
Qed.

Lemma strip_digits l : all_digits l = true -> trimInsignificantFractionalZeroes l = l.
Proof.
  intros H. unfold trimInsignificantFractionalZeroes.
  destruct (index_of "." l) as [n|] eqn:E; [|done].
  apply index_of_Some in E as (l1 & l2 & -> & _ & _).
  by destruct (digits_no_dot _ H "."%char ltac:(apply in_or_app; right; by left)).
Qed.

Lemma index_of_dotted w f :
  all_digits w = true -> index_of "." (w ++ "."%char :: f) = Some (length w).
Proof.
  induction w as [|c w IH]; intros H; [done|].
  rewrite all_digits_cons, andb_true_iff in H. destruct H as [Hc Hw].
  simpl. destruct (Ascii.eqb_spec c ".") as [->|_]; [done|]. by rewrite IH.
Qed.

Lemma strip_dotted w f :
  all_digits w = true ->
  trimInsignificantFractionalZeroes (w ++ "."%char :: f) =
  match drop_end_while is_zero_char f with [] => w | f' => w ++ "."%char :: f' end.
Proof.
  intros H. unfold trimInsignificantFractionalZeroes. rewrite index_of_dotted by done.
  rewrite take_app_length, drop_app_ge by lia.
  replace (S (length w) - length w)%nat with 1%nat by lia.
  change (drop 1 ("."%char :: f)) with f.
  by destruct (drop_end_while is_zero_char f).
Qed.

Lemma strip_scale m w f d u :
  all_digits w = true -> all_digits f = true -> 0 <= d ->
  m = of_digits (w ++ f) -> u * 10 ^ Z.of_nat (length f) = m * 10 ^ d ->
  let f' := drop_end_while is_zero_char f in
  Z.of_nat (length f') <= d /\ u = of_digits (w ++ f') * 10 ^ (d - Z.of_nat (length f')).
Proof.
  intros Hw Hf Hd -> Hu f'.
  destruct (drop_end_while_decompose is_zero_char f) as (z & Hz & Hzero).
  fold f' in Hz. apply zeros_repeat in Hzero.
  assert (Hu' : u * 10 ^ Z.of_nat (length f') = of_digits (w ++ f') * 10 ^ d).
  { rewrite Hz, app_assoc, of_digits_app, length_app, Hzero, of_digits_zeros, repeat_length,
      Nat2Z.inj_add, Z.pow_add_r in Hu by lia.
    assert (0 < 10 ^ Z.of_nat (length z)) by (apply pow10_pos; lia). nia. }
  assert (Hle : Z.of_nat (length f') <= d).
  { destruct (Z.le_gt_cases (Z.of_nat (length f')) d) as [|Hgt]; [done|exfalso].
    destruct (stripped_last f Hf) as [E|(g & c & E & Hc%is_digit_spec & Hc0)];
      fold f' in E; rewrite E in *; [simpl in Hgt; lia|].
    rewrite app_assoc, of_digits_app, !length_app in Hu'.
    change (of_digits [c]) with (digit_value c) in Hu'. cbn [length] in *.
    rewrite length_app in Hgt. cbn [length] in Hgt.
    replace (Z.of_nat (length g + 1)) with (d + 1 + (Z.of_nat (length g) - d)) in Hu' by lia.
    rewrite !Z.pow_add_r in Hu' by lia. change (10 ^ 1) with 10 in Hu'.
    assert (0 < 10 ^ d) by (apply pow10_pos; lia). change (Z.of_nat 1) with 1 in Hu'.
    change (10 ^ 1) with 10 in Hu'.
    assert (u * 10 * 10 ^ (Z.of_nat (length g) - d) = of_digits (w ++ g) * 10 + digit_value c)
      by nia.
    lia. }
  split; [done|].
  replace d with (d - Z.of_nat (length f') + Z.of_nat (length f')) in Hu' by lia.
  rewrite Z.pow_add_r in Hu' by lia.
  assert (0 < 10 ^ Z.of_nat (length f')) by (apply pow10_pos; lia). nia.
Qed.

Lemma drop_while_all p l : forallb p l = true -> drop_while p l = [].
Proof. induction l as [|c l IH]; [done|]. cbn. rewrite andb_true_iff. intros [-> H]. by apply IH. Qed.

(** The zeros after the dot are nothing once they are cut from the end. *)
Lemma zeros_cut f : forallb is_zero_char f = bool_decide (drop_end_while is_zero_char f = []).
Proof.
  apply eq_true_iff_eq. rewrite bool_decide_eq_true. unfold drop_end_while. split.
  - intros H. rewrite (drop_while_all _ (rev f)); [done|]. apply forallb_forall. intros c Hc.
    rewrite forallb_forall in H. by apply H, in_rev.
  - intros H. destruct (drop_end_while_decompose is_zero_char f) as (z & Hz & Hzero).
    unfold drop_end_while in Hz. rewrite H in Hz. rewrite Hz. by apply forallb_forall.
Qed.

Lemma bare_zero_digits value l : trim (chars value) = l -> all_digits l = true -> bare_zero value = false.
Proof.
  unfold bare_zero. intros -> H. destruct l as [|c l]; [done|]. rewrite all_digits_cons, andb_true_iff in H.
  destruct H as [H _]. destruct (Ascii.eqb_spec c ".") as [->|Hc]; [done|].
  by destruct c as [[] [] [] [] [] [] [] []].
Qed.

Lemma bare_zero_dotted value w f :
  trim (chars value) = w ++ "."%char :: f -> all_digits w = true ->
  bare_zero value = bool_decide (w = []) && bool_decide (drop_end_while is_zero_char f = []).
Proof.
  unfold bare_zero. intros -> H. rewrite <- zeros_cut. destruct w as [|c w]; [done|]. rewrite all_digits_cons, andb_true_iff in H.
  destruct H as [H _]. cbn [app]. rewrite (bool_decide_eq_false_2 (c :: w = [])) by done.
  destruct (Ascii.eqb_spec c ".") as [->|Hc]; [done|]. by destruct c as [[] [] [] [] [] [] [] []].
Qed.

Lemma bare_zero_strip value :
  is_decimal value = true -> bare_zero value = true -> trimInsignificantFractionalZeroes (trim (chars value)) = [].
Proof.
  intros Hd Hb. destruct (isDecimalString_shape _ Hd) as [Hne [Hl|(w & f & E & Hw & Hf & Hn)]].
  - by rewrite (bare_zero_digits value _ eq_refl Hl) in Hb.
  - rewrite (bare_zero_dotted value w f E Hw), andb_true_iff, !bool_decide_eq_true in Hb. destruct Hb as [-> Hb].
    by rewrite E, strip_dotted, Hb.
Qed.

(** The stripped spelling denotes the same number, at the least scale. *)
Lemma strip_value value :
  is_decimal value = true ->
  let c := text (trimInsignificantFractionalZeroes (trim (chars value))) in
  decimalScale c <= decimalScale value
  /\ mantissa value = mantissa c * 10 ^ (decimalScale value - decimalScale c)
  /\ is_decimal c = negb (bare_zero value)
  /\ (forall u d, 0 <= d -> represents u value d -> decimalScale c <= d).
Proof.
  intros Hd c. unfold c, represents, is_decimal in *.
  destruct (isDecimalString_shape _ Hd) as [Hne [Hl|(w & f & E & Hw & Hf & Hn)]].
  - rewrite (bare_zero_digits value _ eq_refl Hl), strip_digits by done.
    assert (Hs : decimalScale (text (trim (chars value))) = decimalScale value).
    { unfold decimalScale. by rewrite chars_text, (trim_digits (trim (chars value))). }
    rewrite Hs, Z.sub_diag, Z.mul_1_r.
    fold (is_decimal (text (trim (chars value)))). rewrite is_decimal_digits by done.
    unfold mantissa at 2. rewrite chars_text, filter_digits_trim.
    split_and!; [lia|done|done|].
    intros u d Hd0 _. rewrite <- Hs, scale_digits by done. lia.
  - assert (Hmf : mantissa value = of_digits (w ++ f)).
    { unfold mantissa. rewrite <- filter_digits_trim, E, List.filter_app. cbn [List.filter].
      by rewrite !filter_digits. }
    assert (Hsf : decimalScale value = Z.of_nat (length f)).
    { unfold decimalScale. by rewrite E, normalize_dotted. }
    rewrite (bare_zero_dotted value w f E Hw), E, strip_dotted, Hmf, Hsf by done.
    pose proof (fun u d => strip_scale (of_digits (w ++ f)) w f d u Hw Hf) as Hstrip. cbv zeta in Hstrip.
    destruct (drop_end_while_decompose is_zero_char f) as (z & Hz & Hzero).
    assert (Hf' : all_digits (drop_end_while is_zero_char f) = true) by auto with text.
    set (f' := drop_end_while is_zero_char f) in *. clearbody f'.
    apply zeros_repeat in Hzero.
    assert (Hval : of_digits (w ++ f)
      = of_digits (w ++ f') * 10 ^ (Z.of_nat (length f) - Z.of_nat (length f'))).
    { rewrite Hz, app_assoc, of_digits_app, Hzero, of_digits_zeros, !length_app, repeat_length.
      replace (Z.of_nat (length f' + length z) - Z.of_nat (length f'))
        with (Z.of_nat (length z)) by lia. lia. }
    assert (Hle : Z.of_nat (length f') <= Z.of_nat (length f))
      by (rewrite Hz, length_app; lia).
    destruct f' as [|x f'].
    + rewrite app_nil_r in Hval. destruct w as [|y w].
      * change (decimalScale (text [])) with 0.
        split_and!; [lia|exact Hval|done|]. intros; lia.
      * fold (is_decimal (text (y :: w))).
        rewrite is_decimal_digits, scale_digits, mantissa_digits by done.
        split_and!; [lia|exact Hval|done|intros; lia].
    + fold (is_decimal (text (w ++ "."%char :: x :: f'))).
      rewrite is_decimal_dotted, scale_dotted, mantissa_dotted by (done || by destruct w).
      split_and!; [done|exact Hval|by destruct w|].
      intros u d Hd0 Hu. by apply (Hstrip u d Hd0 eq_refl Hu).
Qed.

Lemma denotes_iff value u d : denotes value u d <-> is_decimal value = true /\ represents u value d.
Proof.
  unfold denotes, represents, is_decimal. split.
  - intros (m & k & Ht & E). remember (trim (chars value)) as l eqn:Ew. destruct Ht as [w Hw Hn|w f Hw Hf Hn].
    + split; [by apply isDecimalString_digits|]. unfold decimalScale, mantissa. rewrite <- Ew, normalize_digits by done.
      rewrite <- filter_digits_trim, <- Ew, filter_digits by done. exact E.
    + split; [by apply isDecimalString_dotted|]. unfold decimalScale, mantissa. rewrite <- Ew, normalize_dotted by done.
      rewrite <- filter_digits_trim, <- Ew, List.filter_app. cbn [List.filter]. by rewrite !filter_digits.
  - intros [[Hne [Hl|(w & f & Ew & Hw & Hf & Hn)]]%isDecimalString_shape E].
    + exists (of_digits (trim (chars value))), 0. split; [by apply decimal_whole|].
      revert E. unfold decimalScale, mantissa. by rewrite normalize_digits, <- filter_digits_trim, filter_digits by done.
    + exists (of_digits (w ++ f)), (Z.of_nat (length f)). split; [rewrite Ew; by apply decimal_dotted|].
      revert E. unfold decimalScale, mantissa. rewrite Ew, normalize_dotted, <- filter_digits_trim, Ew by done.
      rewrite List.filter_app. cbn [List.filter]. by rewrite !filter_digits.
Qed.

Lemma represents_unique u u' value d :
  represents u value d -> represents u' value d -> u = u'.
Proof.
  unfold represents. intros H H'. pose proof (decimalScale_nonneg value).
  assert (0 < 10 ^ decimalScale value) by (apply pow10_pos; lia). nia.
Qed.
End KaminoFacts.

(** A decimal string has no white space around it. *)
Lemma isDecimalString_is_decimal s : isDecimalString s = true -> is_decimal s = true.
Proof.
  intros H. assert (Ht : trim (chars s) = chars s).
  { rewrite <- (text_chars s) in H.
    destruct (isDecimalString_shape _ H) as [_ [Hd|(w & f & -> & Hw & Hf & _)]].
    - by apply trim_digits.
    - by apply trim_dotted. }
  unfold is_decimal. by rewrite Ht, text_chars.
Qed.

Lemma parse_too_precise value decimals :
  is_decimal value = true -> decimals < decimalScale value ->
  parseDecimalAmount value decimals =
  if decimals <? 0 then Err (AmountError "Invalid decimals configuration")
  else Err (AmountError "Amount has too many decimal places").
Proof.
  intros Hd Hs. unfold parseDecimalAmount. fold (is_decimal value). rewrite Hd. cbn [negb].
  destruct (decimals <? 0); [done|].
  destruct (normalizeDecimalParts (trim (chars value))) as [w f] eqn:E.
  rewrite (decimalScale_fraction _ _ _ E) in *. by rewrite (proj2 (Z.ltb_lt _ _)).
Qed.

(** What is parsed is what the text denotes. *)
Lemma parsed_denotes value decimals n : parseDecimalAmount value decimals = Ok n -> denotes value n decimals.
Proof.
  intros H. apply denotes_iff. destruct (is_decimal value) eqn:Hd; [split; [done|]|by rewrite parse_not_decimal in H].
  destruct (Z.ltb_spec decimals (decimalScale value)) as [Hlt|Hle];
    [rewrite parse_too_precise in H by done; by destruct (decimals <? 0)|].
  rewrite parse_decimal in H by done. injection H as <-. unfold represents.
  rewrite <- Z.mul_assoc, <- Z.pow_add_r by (pose proof (decimalScale_nonneg value); lia). f_equal. f_equal. lia.
Qed.

Lemma parseDecimalAmount_nonneg value decimals n : parseDecimalAmount value decimals = Ok n -> 0 <= n.
Proof.
  destruct (is_decimal value) eqn:Hd; [|by rewrite parse_not_decimal].
  destruct (Z.ltb_spec decimals (decimalScale value)); [rewrite parse_too_precise by done; by destruct (decimals <? 0)|].
  rewrite parse_decimal by done. intros [= <-]. pose proof (mantissa_nonneg value).
  apply Z.mul_nonneg_nonneg; [done|]. apply Z.pow_nonneg. lia.
Qed.

(** [parseDecimalAmount] on every input: it refuses a string that is not a
    decimal, then a negative number of decimals, then an amount with more decimal
    places than the token has, each with its own message; and it returns exactly
    the number the string denotes, scaled to base units. *)
Theorem parseDecimalAmount_spec value decimals :
  parseDecimalAmount value decimals =
  if negb (is_decimal value) then Err (AmountError "Invalid decimal amount")
  else if decimals <? 0 then Err (AmountError "Invalid decimals configuration")
  else if decimals <? decimalScale value then
    Err (AmountError "Amount has too many decimal places")
  else Ok (mantissa value * 10 ^ (decimals - decimalScale value)).
Proof.
  destruct (is_decimal value) eqn:Hd; cbn [negb]; [|by apply parse_not_decimal].
  destruct (Z.ltb_spec decimals (decimalScale value)); [|rewrite parse_decimal by done].
  - by apply parse_too_precise.
  - pose proof (decimalScale_nonneg value). by rewrite (proj2 (Z.ltb_ge decimals 0)) by lia.
Qed.

(** [compareDecimalAmounts] never throws on two decimal strings and returns
    the sign of the comparison of the numbers they denote, whatever their
    spelling (different scales, leading zeros, trailing zeros). *)
Theorem compareDecimalAmounts_spec left right
  (Hleft : is_decimal left = true) (Hright : is_decimal right = true) :
  compareDecimalAmounts left right = Ok (sign_of (compare_values left right)).
Proof. by apply compareDecimalAmounts_decimal. Qed.

Lemma compareDecimalAmounts_spec_witness :
  is_decimal "0010.50" = true /\ compareDecimalAmounts "0010.50" "10.5" = Ok 0.
Proof.
  split; [reflexivity|].
  rewrite (compareDecimalAmounts_spec "0010.50" "10.5" eq_refl eq_refl). reflexivity.
Defined.

(** Formatting base units and parsing the result at the same decimals gives
    the base units back, and the printed form is a decimal string. *)
Theorem format_parse_roundtrip value decimals
  (Hvalue : 0 <= value) (Hdecimals : 0 <= decimals) :
  exists s, formatDecimalAmount value decimals = Ok s
    /\ is_decimal s = true /\ parseDecimalAmount s decimals = Ok value.
Proof. destruct (format_parse value decimals Hvalue Hdecimals) as (s & ? & ? & ?). eauto. Qed.

Lemma format_parse_roundtrip_witness :
  exists s, formatDecimalAmount 1050 3 = Ok s
    /\ is_decimal s = true /\ parseDecimalAmount s 3 = Ok 1050.
Proof. apply (format_parse_roundtrip 1050 3); lia. Defined.

Section AcceptAtMintScale.
Import KaminoAmount.

Lemma accept_iff field value decimals s (Hdecimals : 0 <= decimals) :
  acceptAtMintScale field value decimals = Ok s <->
  is_decimal value = true /\ bare_zero value = false /\
  exists units, represents units value decimals /\ units < 2 ^ 64
    /\ formatDecimalAmount units decimals = Ok s.
Proof.
  unfold acceptAtMintScale. fold (is_decimal value).
  destruct (is_decimal value) eqn:Hd; cbn [negb]; [|split; [done|by intros [? _]]].
  destruct (strip_value value Hd) as (Hsc & Hm & Hc & Hmin).
  set (c := text (trimInsignificantFractionalZeroes (trim (chars value)))) in *.
  pose proof (decimalScale_nonneg c).
  assert (Hrep : decimalScale c <= decimals ->
    represents (mantissa c * 10 ^ (decimals - decimalScale c)) value decimals).
  { intros Hle. unfold represents. rewrite Hm, <- !Z.mul_assoc, <- !Z.pow_add_r by lia.
    f_equal. f_equal. lia. }
  destruct (Z.ltb_spec decimals (decimalScale c)) as [Hlt|Hle].
  { split; [done|]. intros (_ & _ & u & Hu & _). specialize (Hmin u decimals Hdecimals Hu). lia. }
  destruct (bare_zero value) eqn:Hb; cbn [negb] in Hc.
  { rewrite parse_not_decimal by done. split; [done|by intros (_ & ? & _)]. }
  rewrite parse_decimal by done. cbn [result_bind].
  change MAX_U64_BASE_UNITS with (2 ^ 64 - 1).
  destruct (Z.ltb_spec (2 ^ 64 - 1) (mantissa c * 10 ^ (decimals - decimalScale c))).
  - split; [done|]. intros (_ & _ & u & Hu & Hmax & _).
    rewrite (represents_unique _ _ _ _ Hu (Hrep Hle)) in Hmax. lia.
  - split.
    + intros Hs. split_and!; [done|done|]. eexists. split_and!; [by apply Hrep|lia|done].
    + intros (_ & _ & u & Hu & _ & Hs). by rewrite (represents_unique _ _ _ _ Hu (Hrep Hle)) in Hs.
Qed.

(** An accepted amount is a count of atoms, and parses back to it. *)
Lemma accepted_units field value decimals s :
  0 <= decimals -> acceptAtMintScale field value decimals = Ok s ->
  exists units, 0 <= units < 2 ^ 64 /\ represents units value decimals
    /\ formatDecimalAmount units decimals = Ok s /\ parseDecimalAmount s decimals = Ok units.
Proof.
  intros Hd (_ & _ & u & Hu & Hmax & Hf)%accept_iff; [|done].
  assert (0 <= u) as Hpos.
  { unfold represents in Hu. pose proof (decimalScale_nonneg value).
    assert (0 < 10 ^ decimalScale value) by (apply pow10_pos; lia).
    assert (0 <= 10 ^ decimals) by (apply Z.pow_nonneg; lia).
    assert (0 <= mantissa value) by apply mantissa_nonneg. nia. }
  destruct (format_parse u decimals Hpos Hd) as (s' & Hf' & Hp & _).
  assert (s' = s) as -> by congruence. by exists u.
Qed.

(** The spelling of a count denotes it. *)
Lemma format_denotes value u d s :
  0 <= d -> represents u value d -> formatDecimalAmount u d = Ok s -> is_decimal s = true /\ represents u s d.
Proof.
  intros Hd Hu Hf. destruct (format_parse u d) as (s' & Hf' & Hp & Hs); [|done|].
  { unfold represents in Hu. pose proof (decimalScale_nonneg value).
    assert (0 < 10 ^ decimalScale value) by (apply pow10_pos; lia).
    assert (0 <= 10 ^ d) by (apply Z.pow_nonneg; lia). pose proof (mantissa_nonneg value). nia. }
  assert (s' = s) as -> by congruence.
  assert (is_decimal s = true) as Hi by (destruct (is_decimal s) eqn:E; [done|]; rewrite parse_not_decimal in Hp by done; done).
  split; [done|]. destruct (Z.le_gt_cases (decimalScale s) d) as [Hle|]; [|rewrite parse_too_precise in Hp by done; by destruct (d <? 0)].
  rewrite parse_decimal in Hp by done. injection Hp as Hp. unfold represents. rewrite <- Hp, <- Z.mul_assoc, <- Z.pow_add_r by (pose proof (decimalScale_nonneg s); lia).
  f_equal. f_equal. lia.
Qed.

(** C24. A value is accepted exactly when it is a text in decimal notation, other than a
    dot followed by zeros only, whose number is a whole count of mint atoms that fits in
    64 bits; and what is returned is the canonical spelling of that count, again a text
    of the same number. *)
Theorem acceptAtMintScale_exact field value decimals s (Hdecimals : 0 <= decimals) :
  acceptAtMintScale field value decimals = Ok s <->
  bare_zero value = false /\
  exists units, denotes value units decimals /\ units < 2 ^ 64
    /\ formatDecimalAmount units decimals = Ok s /\ denotes s units decimals.
Proof.
  rewrite accept_iff by done. split.
  - intros (Hv & Hb & u & Hu & Hmax & Hs). split; [done|]. exists u. rewrite !denotes_iff.
    split_and!; try done; by eapply format_denotes.
  - intros (Hb & u & [Hv Hu]%denotes_iff & Hmax & Hs & _). split_and!; [done..|]. by exists u.
Qed.

Lemma acceptAtMintScale_exact_witness :
  acceptAtMintScale "amount" " 1.5000000" 6 = Ok "1.5" /\ bare_zero " 1.5000000" = false.
Proof.
  split.
  - apply (acceptAtMintScale_exact "amount" " 1.5000000" 6 "1.5"); [lia|].
    split; [reflexivity|]. exists 1500000. split_and!; [|reflexivity..|].
    + exists 15000000, 7. split; [|reflexivity]. exact (decimal_dotted ["1"%char] (chars "5000000") eq_refl eq_refl ltac:(done)).
    + exists 15, 1. split; [|reflexivity]. exact (decimal_dotted ["1"%char] ["5"%char] eq_refl eq_refl ltac:(done)).
  - reflexivity.
Defined.

(** A dot followed by zeros is a decimal string, and it escapes the gate:
    the stripped text is empty, and what is thrown is the [AmountError] of the
    fixed-point helper instead of the package's own invalid-amount error. *)
Theorem acceptAtMintScale_bare_zero field value decimals
  (Hdecimals : 0 <= decimals) (Hvalue : is_decimal value = true)
  (Hbare : bare_zero value = true) :
  acceptAtMintScale field value decimals = Err (AmountError "Invalid decimal amount").
Proof.
  unfold acceptAtMintScale. fold (is_decimal value). rewrite Hvalue. cbn [negb].
  destruct (strip_value value Hvalue) as (_ & _ & Hc & _). rewrite Hbare in Hc.
  rewrite (bare_zero_strip value Hvalue Hbare) in *.
  change (decimalScale (text [])) with 0. rewrite (proj2 (Z.ltb_ge _ _)) by lia.
  by rewrite parse_not_decimal.
Qed.

Lemma acceptAtMintScale_bare_zero_witness :
  acceptAtMintScale "shares" ".00" 6 = Err (AmountError "Invalid decimal amount").
Proof. apply (acceptAtMintScale_bare_zero "shares" ".00" 6); [lia|reflexivity|reflexivity]. Defined.
End AcceptAtMintScale.
