(* ===== verification/Rows.v ===== *)
(** * Rows of a statement

    What the ledgers' statements do with rows: [ORDER BY] several text columns under
    the database's collation, [LIMIT], and the lemmas on filtered, ordered and limited
    rows the ledgers share. *)
From Stdlib Require Import Ascii String ZArith Lia.
From stdpp Require Import base list strings sorting.
From S2P Require Import Prelude.

Local Open Scope string_scope.
Local Open Scope Z_scope.

(** [text_le] orders text as the database does: [(a1, a2, ...) <= (b1, b2, ...)] *)
Fixpoint key_le (text_le : string -> string -> bool) (a b : list string) : bool :=
  match a, b with
  | x :: a', y :: b' => if String.eqb x y then key_le text_le a' b' else text_le x y
  | _, _ => true
  end.

Fixpoint insert_by {A} (le : A -> A -> bool) (x : A) (l : list A) : list A :=
  match l with
  | [] => [x]
  | y :: rest => if le x y then x :: l else y :: insert_by le x rest
  end.

(** [ORDER BY] *)
Definition order_by {A} (le : A -> A -> bool) (l : list A) : list A :=
  foldr (insert_by le) [] l.

(** [LIMIT] *)
Definition limit_rows {A} (n : Z) (l : list A) : list A := take (Z.to_nat n) l.

(** [UPDATE ... WHERE p RETURNING *], first row: the answer and the rows. *)
Definition update_where {A} (p : A -> bool) (f : A -> A) (l : list A) : option A * list A :=
  (f <$> List.find p l, map (fun x => if p x then f x else x) l).

(** Each row is still there, changed at most as [R] says. *)
Definition later_rows {A} (R : A -> A -> Prop) (l l' : list A) : Prop := forall r, r ∈ l -> exists r', r' ∈ l' /\ R r r'.

(** ** Constraints *)

Definition check_violation (table : string) : jserr := database_error "23514" table.
Definition unique_violation (table : string) : jserr := database_error "23505" table.
Definition foreign_key_violation (table : string) : jserr := database_error "23503" table.

(** * Lemmas *)

Lemma insert_by_rel {A} (R : A -> A -> Prop) (le : A -> A -> bool) x x' l l' :
  (forall a a' b b', R a a' -> R b b' -> le a b = le a' b') ->
  R x x' -> Forall2 R l l' -> Forall2 R (insert_by le x l) (insert_by le x' l').
Proof.
  intros Hle Hx. induction 1 as [|a a' l l' Ha Hl IH]; cbn [insert_by]; [by repeat constructor|].
  rewrite (Hle x x' a a') by done. destruct (le x' a'); by repeat constructor.
Qed.

Lemma order_by_rel {A} (R : A -> A -> Prop) (le : A -> A -> bool) l l' :
  (forall a a' b b', R a a' -> R b b' -> le a b = le a' b') ->
  Forall2 R l l' -> Forall2 R (order_by le l) (order_by le l').
Proof.
  intros Hle. induction 1; [constructor|]. unfold order_by in *. cbn [foldr].
  by apply insert_by_rel.
Qed.

Lemma filter_rel {A} (R : A -> A -> Prop) (P : A -> bool) l l' :
  Forall2 (fun a b => R a b /\ P a = P b) l l' ->
  Forall2 R (List.filter P l) (List.filter P l').
Proof.
  induction 1 as [|a b l l' [Hr Hp] _ IH]; [constructor|]. cbn [List.filter]. rewrite Hp.
  destruct (P b); [by constructor|done].
Qed.

Lemma insert_by_perm {A} (le : A -> A -> bool) x l : insert_by le x l ≡ₚ x :: l.
Proof.
  induction l as [|y l IH]; [done|]. cbn [insert_by]. destruct (le x y); [done|].
  rewrite IH. apply Permutation_swap.
Qed.

Lemma order_by_perm {A} (le : A -> A -> bool) l : order_by le l ≡ₚ l.
Proof.
  induction l as [|x l IH]; [done|]. unfold order_by in *. cbn [foldr].
  by rewrite insert_by_perm, IH.
Qed.

Lemma limited_elem {A} (le : A -> A -> bool) (P : A -> bool) n l x :
  x ∈ limit_rows n (order_by le (List.filter P l)) -> x ∈ l /\ P x = true.
Proof.
  intros H%elem_of_take. destruct H as (k & H%list_elem_of_lookup_2 & _).
  rewrite order_by_perm in H. apply list_elem_of_In, filter_In in H.
  by rewrite list_elem_of_In.
Qed.

Lemma filter_nodup {A} (p : A -> bool) l : NoDup l -> NoDup (List.filter p l).
Proof. rewrite !NoDup_ListNoDup. apply List.NoDup_filter. Qed.

Lemma filter_elem {A} (p : A -> bool) l x : x ∈ List.filter p l <-> x ∈ l /\ p x = true.
Proof. rewrite !list_elem_of_In. apply filter_In. Qed.

Lemma limited_nodup {A} (le : A -> A -> bool) p n (l : list A) :
  NoDup l -> NoDup (limit_rows n (order_by le (List.filter p l))).
Proof.
  intros H. eapply sublist_NoDup; [|apply sublist_take].
  rewrite order_by_perm. by apply filter_nodup.
Qed.

Lemma limited_length {A} (le : A -> A -> bool) p n (l : list A) :
  0 <= n ->
  Z.of_nat (length (limit_rows n (order_by le (List.filter p l))))
  = Z.min n (Z.of_nat (length (List.filter p l))).
Proof. intros Hn. unfold limit_rows. rewrite length_take, order_by_perm. lia. Qed.

Lemma later_rows_refl {A} (R : A -> A -> Prop) l : (forall r, R r r) -> later_rows R l l.
Proof. intros H r Hr. by exists r. Qed.

Lemma later_rows_trans {A} (R : A -> A -> Prop) l1 l2 l3 :
  (forall a b c, R a b -> R b c -> R a c) -> later_rows R l1 l2 -> later_rows R l2 l3 -> later_rows R l1 l3.
Proof.
  intros HR H1 H2 r (r' & Hr' & L1)%H1. destruct (H2 _ Hr') as (r'' & Hr'' & L2). exists r''. eauto.
Qed.

(** A row is known by its key. *)
Lemma same_key {A B} (key : A -> B) (l : list A) x y :
  NoDup (key <$> l) -> x ∈ l -> y ∈ l -> key x = key y -> x = y.
Proof.
  intros Hn (i & Hi)%list_elem_of_lookup (j & Hj)%list_elem_of_lookup Hk.
  assert (i = j) as ->; [|congruence].
  eapply NoDup_lookup; [exact Hn|by rewrite list_lookup_fmap, Hi|by rewrite list_lookup_fmap, Hj, Hk].
Qed.

Lemma later_rows_app {A} (R : A -> A -> Prop) l l' : (forall r, R r r) -> later_rows R l (l ++ l').
Proof. intros HR r Hr. exists r. split; [apply elem_of_app; by left|done]. Qed.

Lemma fresh_key {A} (key : A -> string) k (l : list A) :
  existsb (fun x => String.eqb (key x) k) l = false -> k ∉ key <$> l.
Proof.
  intros H Hin. apply list_elem_of_fmap in Hin as (x & -> & Hx).
  assert (existsb (fun y => String.eqb (key y) (key x)) l = true) as H'; [|congruence].
  apply existsb_exists. exists x. by rewrite <- list_elem_of_In, String.eqb_refl.
Qed.

(** *** Updated rows *)

Section Updates.
Context {A : Type} (p : A -> bool) (f : A -> A) (l : list A).

(** What an update with rows answers is one of the rows it leaves. *)
Lemma update_where_some r l' :
  update_where p f l = (Some r, l') ->
  l' = map (fun x => if p x then f x else x) l /\ exists x, x ∈ l /\ p x = true /\ r = f x /\ r ∈ l'.
Proof.
  unfold update_where. intros [= Hr <-]. split; [done|].
  destruct (List.find p l) as [x|] eqn:E; [|done]. injection Hr as <-.
  apply find_some in E as [Hx Hp]. exists x. rewrite list_elem_of_In. do 3 (split; [done|]).
  apply list_elem_of_In, in_map_iff. exists x. by rewrite Hp.
Qed.

Lemma update_rows_later (R : A -> A -> Prop) :
  (forall r, R r r) -> (forall r, p r = true -> R r (f r)) ->
  later_rows R l (map (fun x => if p x then f x else x) l).
Proof.
  intros Hr Hf x Hx. exists (if p x then f x else x). split.
  - apply list_elem_of_In, in_map_iff. exists x. by rewrite <- list_elem_of_In.
  - destruct (p x) eqn:E; auto.
Qed.

Lemma update_rows_elem y :
  y ∈ map (fun x => if p x then f x else x) l -> exists x, x ∈ l /\ y = (if p x then f x else x).
Proof. rewrite list_elem_of_In, in_map_iff. intros (x & <- & Hx). exists x. by rewrite list_elem_of_In. Qed.

Lemma update_rows_key {B} (key : A -> B) :
  (forall r, p r = true -> key (f r) = key r) -> key <$> map (fun x => if p x then f x else x) l = key <$> l.
Proof.
  intros Hk. induction l as [|x l' IH]; [done|]. cbn. rewrite IH. destruct (p x) eqn:E; [by rewrite Hk|done].
Qed.
End Updates.
