(* ===== verification/Idempotency.v ===== *)
(** * Idempotency keys and fingerprints

    [apps/sdp-api/src/middleware/idempotency-key.ts]: the header a request may carry.
    [apps/sdp-api/src/lib/idempotency.ts]: the request id a provider dedupes on, the
    resolution of a replay, and the fingerprints of transfers and of vault movements
    with the theorem that a vault fingerprint identifies what moves. The hash of
    [node:crypto] is the variable [sha256]. [buildEarnWithdrawalFingerprint], which
    goes through a double, is not modelled. *)
From Stdlib Require Import Ascii String ZArith Lia.
From stdpp Require Import base list strings.
From S2P Require Import Prelude Text Amount.

Local Open Scope string_scope.
Local Open Scope Z_scope.
Local Open Scope sdp_scope.

(** ** The header ([middleware/idempotency-key.ts]) *)

Definition IDEMPOTENCY_KEY_HEADER : string := "Idempotency-Key".

(** [/^[\x20-\x7e]{1,255}$/.test(key)] *)
Definition IDEMPOTENCY_KEY_PATTERN (key : string) : bool :=
  (1 <=? Z.of_nat (String.length key)) && (Z.of_nat (String.length key) <=? 255)
  && forallb (fun c => (32 <=? code c) && (code c <=? 126)) (chars key).

(** What is echoed on the response, before the request is handled. *)
Definition idempotencyKeyMiddleware (idempotencyKey : option string) : result (option string) :=
  match idempotencyKey with
  | Some key =>
      if IDEMPOTENCY_KEY_PATTERN key then Ok (Some key)
      else Err (badRequest (IDEMPOTENCY_KEY_HEADER ++ " must be 1-255 printable ASCII characters"))
  | None => Ok None
  end.

Example empty_key_refused :
  idempotencyKeyMiddleware (Some "") = Err (badRequest "Idempotency-Key must be 1-255 printable ASCII characters").
Proof. reflexivity. Qed.

(** ** The provider's request id *)

Section RequestId.
(** The 32 bytes of the digest. *)
Variable sha256 : list ascii -> list Z.

(** [digest("hex")] *)
Definition hex_digest (material : list ascii) : list ascii :=
  flat_map (fun b => [hex_digit (b / 16); hex_digit (b mod 16)]) (sha256 material).

(** [`${part.length}:${part}`], joined by bars. *)
Definition request_material (scope : list string) (key : string) : list ascii :=
  join ["|"%char] (map (fun part => to_digits (Z.of_nat (String.length part)) ++ ":"%char :: chars part)
                     (scope ++ [key]))%list.

(** [s.slice(from, to)] *)
Definition js_slice (from to : nat) (l : list ascii) : list ascii := take (to - from) (drop from l).

(** [Number.parseInt(c, 16)] of one hexadecimal digit in lower case. *)
Definition hex_nibble (c : ascii) : Z := if is_digit c then digit_value c else code c - 87.

Definition deriveProviderRequestId (scope : list string) (key : string) : string :=
  let hash := hex_digest (request_material scope key) in
  let variant := hex_digit (Z.lor (Z.land (hex_nibble (nth 16 hash "0"%char)) 3) 8) in
  text (join ["-"%char]
    [js_slice 0 8 hash; js_slice 8 12 hash; "4"%char :: js_slice 13 16 hash;
     variant :: js_slice 17 20 hash; js_slice 20 32 hash]).
End RequestId.

(** ** Replays *)

(** [existing] is what [findExisting] found. *)
Definition resolveIdempotencyReplay {Row} (idempotency_fingerprint : Row -> option string)
    (existing : option Row) (fingerprint : string) : result (option Row) :=
  match existing with
  | None => Ok None
  | Some row =>
      match idempotency_fingerprint row with
      | None => Ok None
      | Some stored =>
          if String.eqb stored fingerprint then Ok (Some row)
          else Err (conflict "Idempotency key already used with different request payload")
      end
  end.

(** ** Fingerprints *)

(** A value handed to [JSON.stringify]: a number by its printed form, a date by its
    ISO form, an object by its fields in order. *)
Inductive payload :=
| VUndefined
| VNull
| VBool (b : bool)
| VNumber (printed : string)
| VString (s : string)
| VDate (iso : string)
| VArray (items : list payload)
| VObject (fields : list (string * payload)).

Definition defined (v : payload) : bool := match v with VUndefined => false | _ => true end.

(** [localeCompare] of two keys made of ASCII letters: letters first whatever their
    case, then lower case before upper. *)
Definition lower (c : ascii) : Z :=
  let n := code c in if (65 <=? n) && (n <=? 90) then n + 32 else n.

Fixpoint letters_compare (weight : ascii -> Z) (a b : list ascii) : comparison :=
  match a, b with
  | [], [] => Eq
  | [], _ => Lt
  | _, [] => Gt
  | x :: a', y :: b' =>
      match weight x ?= weight y with Eq => letters_compare weight a' b' | c => c end
  end.

Definition locale_le (a b : string) : bool :=
  match letters_compare lower (chars a) (chars b) with
  | Lt => true
  | Gt => false
  | Eq => match letters_compare (fun c => - code c) (chars a) (chars b) with Gt => false | _ => true end
  end.

Fixpoint insert_field {A} (x : string * A) (l : list (string * A)) : list (string * A) :=
  match l with
  | [] => [x]
  | y :: rest => if locale_le (fst x) (fst y) then x :: l else y :: insert_field x rest
  end.

(** [.sort(([a], [b]) => a.localeCompare(b))] *)
Definition sort_fields {A} (l : list (string * A)) : list (string * A) :=
  foldr insert_field [] l.

Fixpoint normalizeForFingerprint (v : payload) : payload :=
  match v with
  | VArray items => VArray (map normalizeForFingerprint items)
  | VDate iso => VString iso
  | VObject fields =>
      VObject (sort_fields (flat_map (fun '(key, x) =>
        if defined x then [(key, normalizeForFingerprint x)] else []) fields))
  | _ => v
  end.

(** [JSON.stringify] *)
Fixpoint stringify (v : payload) : list ascii :=
  match v with
  | VUndefined | VNull => chars "null"
  | VBool b => chars (if b then "true" else "false")
  | VNumber printed => chars printed
  | VString s | VDate s => chars (json_string s)
  | VArray items => "["%char :: join [","%char] (map stringify items) ++ ["]"%char]
  | VObject fields =>
      "{"%char :: join [","%char] (flat_map (fun '(key, x) =>
        if defined x then [chars (json_string key) ++ ":"%char :: stringify x] else []) fields)
      ++ ["}"%char]
  end%list.

Definition fingerprint_of (fields : list (string * payload)) : string :=
  text (stringify (normalizeForFingerprint (VObject fields))).

(** A nullable string, and [value ?? null]. *)
Definition nullable (o : option string) : payload :=
  match o with Some s => VString s | None => VNull end.

Definition or_null (v : payload) : payload := if defined v then v else VNull.

Record PaymentTransferFingerprintInput := mkTransferInput {
  ft_sourceAddress : option string;
  ft_destinationAddress : option string;
  ft_token : string;
  ft_amount : option string;
  ft_memo : option string;
  ft_type : string;
  ft_privateTransfer : payload;
}.

Definition buildPaymentTransferFingerprint (i : PaymentTransferFingerprintInput) : string :=
  fingerprint_of
    [("scope", VString "payment_transfer"); ("sourceAddress", nullable (ft_sourceAddress i));
     ("destinationAddress", nullable (ft_destinationAddress i)); ("token", VString (ft_token i));
     ("amount", nullable (ft_amount i)); ("memo", nullable (ft_memo i));
     ("type", VString (ft_type i)); ("privateTransfer", or_null (ft_privateTransfer i))].

Record TransferBatchFingerprintRecipientInput := mkRecipient {
  fr_externalId : option string;
  fr_counterpartyId : string;
  fr_counterpartyAccountId : string;
  fr_destinationAddress : string;
  fr_amount : string;
}.

Record TransferBatchFingerprintInput := mkBatchInput {
  fb_sourceAddress : string;
  fb_token : string;
  fb_recipients : list TransferBatchFingerprintRecipientInput;
  fb_options : payload;
}.

Definition recipient_payload (r : TransferBatchFingerprintRecipientInput) : payload :=
  VObject
    [("externalId", nullable (fr_externalId r)); ("counterpartyId", VString (fr_counterpartyId r));
     ("counterpartyAccountId", VString (fr_counterpartyAccountId r));
     ("destinationAddress", VString (fr_destinationAddress r)); ("amount", VString (fr_amount r))].

Definition buildTransferBatchFingerprint (i : TransferBatchFingerprintInput) : string :=
  fingerprint_of
    [("scope", VString "payment_transfer_batch"); ("sourceAddress", VString (fb_sourceAddress i));
     ("token", VString (fb_token i)); ("recipients", VArray (map recipient_payload (fb_recipients i)));
     ("options", or_null (fb_options i))].

(** [integer.replace(/^0+(?=\d)/, "")]: the leading zeros a digit follows. *)
Definition strip_leading_zeros (l : list ascii) : list ascii :=
  let kept := drop_while is_zero_char l in
  match (length l - length kept)%nat, kept with
  | O, _ => l
  | _, c :: _ => if is_digit c then kept else "0"%char :: kept
  | _, [] => ["0"%char]
  end.

Definition normalizeDecimalString (value : string) : string :=
  let parts := split_on "." (chars value) in
  let integer := match parts with s :: _ => s | [] => ["0"%char] end in
  let fraction := match parts with _ :: s :: _ => s | _ => [] end in
  let normalizedInteger :=
    match strip_leading_zeros integer with [] => ["0"%char] | l => l end in
  let normalizedFraction := drop_end_while is_zero_char fraction in
  text (match normalizedFraction with
        | [] => normalizedInteger
        | _ => normalizedInteger ++ "."%char :: normalizedFraction
        end)%list.

Record EarnVaultDepositFingerprintInput := mkDepositFingerprint {
  fd_environment : string;
  fd_provider : string;
  fd_providerReference : string;
  fd_custodyWalletId : string;
  fd_amount : string;
  fd_minSharesOut : option string;
}.

Definition buildEarnVaultDepositFingerprint (i : EarnVaultDepositFingerprintInput) : string :=
  fingerprint_of
    [("scope", VString "earn_vault_deposit"); ("environment", VString (fd_environment i));
     ("provider", VString (fd_provider i)); ("providerReference", VString (fd_providerReference i));
     ("custodyWalletId", VString (fd_custodyWalletId i)); ("direction", VString "deposit");
     ("amount", VString (normalizeDecimalString (fd_amount i)));
     ("minSharesOut", nullable (normalizeDecimalString <$> fd_minSharesOut i))].

Record EarnVaultWithdrawalFingerprintInput := mkWithdrawalFingerprint {
  fw_environment : string;
  fw_provider : string;
  fw_positionId : string;
  fw_shares : string;
}.

Definition buildEarnVaultWithdrawalFingerprint (i : EarnVaultWithdrawalFingerprintInput) : string :=
  fingerprint_of
    [("scope", VString "earn_vault_withdrawal"); ("environment", VString (fw_environment i));
     ("provider", VString (fw_provider i)); ("positionId", VString (fw_positionId i));
     ("direction", VString "withdrawal");
     ("shares", VString (normalizeDecimalString (fw_shares i)))].

(** ** What a fingerprint stands for *)

(** Two decimal strings are one amount. *)
Definition same_amount (a b : string) : Prop :=
  SolanaAmount.compareDecimalAmounts a b = Ok 0.

Definition same_floor (a b : option string) : Prop :=
  match a, b with
  | Some x, Some y => same_amount x y
  | None, None => True
  | _, _ => False
  end.

Definition decimal_deposit (i : EarnVaultDepositFingerprintInput) : bool :=
  SolanaAmount.isDecimalString (fd_amount i)
  && match fd_minSharesOut i with Some m => SolanaAmount.isDecimalString m | None => true end.

Definition same_deposit (i j : EarnVaultDepositFingerprintInput) : Prop :=
  fd_environment i = fd_environment j /\ fd_provider i = fd_provider j
  /\ fd_providerReference i = fd_providerReference j /\ fd_custodyWalletId i = fd_custodyWalletId j
  /\ same_amount (fd_amount i) (fd_amount j) /\ same_floor (fd_minSharesOut i) (fd_minSharesOut j).

Definition same_withdrawal (i j : EarnVaultWithdrawalFingerprintInput) : Prop :=
  fw_environment i = fw_environment j /\ fw_provider i = fw_provider j
  /\ fw_positionId i = fw_positionId j /\ same_amount (fw_shares i) (fw_shares j).

(** The shape of a version 4 UUID: [8-4-4-4-12] hexadecimal digits in lower case, a
    [4], and a variant digit. *)
Definition hex_char (c : ascii) : bool := is_digit c || ((97 <=? code c) && (code c <=? 102)).

Definition uuid_v4 (l : list ascii) : bool :=
  match split_on "-" l with
  | [a; b; v :: c; w :: d; e] =>
      forallb hex_char (a ++ b ++ c ++ d ++ e)%list
      && bool_decide (length a = 8 /\ length b = 4 /\ length c = 3 /\ length d = 3 /\ length e = 12)%nat
      && Ascii.eqb v "4" && existsb (Ascii.eqb w) ["8"; "9"; "a"; "b"]%char
  | _ => false
  end.

(** * Lemmas *)

Import SolanaAmount DecimalSpec.

(** ** Canonical decimals *)

Section Decimals.

Lemma drop_while_length p l : (length (drop_while p l) <= length l)%nat.
Proof. induction l as [|c l IH]; [done|]. cbn [drop_while]. destruct (p c); cbn [length]; lia. Qed.

Lemma drop_while_full p l : length (drop_while p l) = length l -> drop_while p l = l.
Proof.
  destruct l as [|c l]; [done|]. cbn [drop_while]. destruct (p c); [|done].
  pose proof (drop_while_length p l). cbn [length]. lia.
Qed.

(** The integer part loses its insignificant zeros and keeps its value. *)
Definition canonical_whole (w : list ascii) : list ascii :=
  match strip_leading_zeros w with [] => ["0"%char] | l => l end.

Lemma canonical_whole_spec w :
  all_digits w = true ->
  canonical_integer (canonical_whole w) = true /\ of_digits (canonical_whole w) = of_digits w.
Proof.
  intros Hw. pose proof (all_digits_drop_while is_zero_char w Hw) as Hk.
  pose proof (of_digits_drop_zeros w) as Hv. pose proof (drop_while_full is_zero_char w) as Hf.
  pose proof (drop_while_length is_zero_char w) as Hle.
  unfold canonical_whole, strip_leading_zeros.
  destruct (drop_while is_zero_char w) as [|c k] eqn:E.
  - destruct w as [|x w]; [done|]. cbn [length Nat.sub]. split; [done|]. by rewrite <- Hv.
  - pose proof (drop_while_head _ _ _ _ E) as Hz.
    rewrite all_digits_cons, andb_true_iff in Hk. destruct Hk as [Hc Hk].
    assert (canonical_integer (c :: k) = true) as Hcan.
    { destruct k; cbn [canonical_integer]; [done|]. by rewrite Hc, Hz, Hk. }
    destruct (length w - length (c :: k))%nat eqn:En; [|by rewrite Hc].
    rewrite <- Hf by lia. done.
Qed.

Lemma canonical_fraction_spec f :
  exists k, f = (drop_end_while is_zero_char f ++ repeat "0"%char k)%list
    /\ forall f0 c, drop_end_while is_zero_char f = (f0 ++ [c])%list -> is_zero_char c = false.
Proof.
  destruct (drop_end_while_decompose is_zero_char f) as (suf & Hf & Hs).
  exists (length suf). rewrite <- zeros_repeat by done. split; [done|]. intros f0 c E.
  unfold drop_end_while in E. apply (f_equal (@rev ascii)) in E.
  rewrite rev_involutive, rev_app_distr in E. by apply drop_while_head in E.
Qed.

(** What the normalized spelling of a decimal is. *)
Definition spelled (i f : list ascii) : list ascii :=
  (match f with [] => i | _ => i ++ "."%char :: f end)%list.

Lemma normalized_parts w f v :
  all_digits w = true -> all_digits f = true ->
  split_on "." (chars v) = w :: (match f with [] => [] | _ => [f] end) \/ split_on "." (chars v) = [w; f] ->
  mantissa v = of_digits (w ++ f)%list -> decimalScale v = Z.of_nat (length f) ->
  exists i g, chars (normalizeDecimalString v) = spelled i g
    /\ canonical_integer i = true /\ all_digits g = true
    /\ (forall g0 c, g = (g0 ++ [c])%list -> is_zero_char c = false)
    /\ of_digits (i ++ g)%list * 10 ^ decimalScale v = mantissa v * 10 ^ Z.of_nat (length g).
Proof.
  intros Hw Hf Hsplit Hm Hs. destruct (canonical_whole_spec w Hw) as [Hi Hv].
  destruct (canonical_fraction_spec f) as (k & Ek & Hlast).
  exists (canonical_whole w), (drop_end_while is_zero_char f).
  split; [|split; [done|split; [by apply all_digits_drop_end_while|split; [done|]]]].
  - unfold normalizeDecimalString, spelled. rewrite chars_text.
    fold (canonical_whole w). destruct Hsplit as [->| ->]; [|done].
    by destruct f.
  - set (g := drop_end_while is_zero_char f) in *. rewrite Hs, Hm, Ek.
    rewrite app_assoc, (of_digits_app (w ++ g)), of_digits_zeros, length_app, repeat_length.
    rewrite of_digits_app, (of_digits_app w), Hv, Nat2Z.inj_add, Z.pow_add_r by lia. lia.
Qed.

Lemma decimal_normalized v :
  isDecimalString v = true ->
  exists i g, chars (normalizeDecimalString v) = spelled i g
    /\ canonical_integer i = true /\ all_digits g = true
    /\ (forall g0 c, g = (g0 ++ [c])%list -> is_zero_char c = false)
    /\ of_digits (i ++ g)%list * 10 ^ decimalScale v = mantissa v * 10 ^ Z.of_nat (length g).
Proof.
  rewrite <- (text_chars v) at 1.
  intros [Hn [Hd|(w & f & E & Hw & Hf & _)]]%isDecimalString_shape.
  - apply (normalized_parts (chars v) []); [done..| | |].
    + left. apply split_on_none. by apply digits_no_dot.
    + rewrite app_nil_r, <- (text_chars v) at 1. by apply mantissa_digits.
    + rewrite <- (text_chars v). by apply scale_digits.
  - apply (normalized_parts w f); [done..| | |].
    + right. rewrite E, split_on_first, split_on_none; [done|by apply digits_no_dot..].
    + rewrite <- (text_chars v), E. by apply mantissa_dotted.
    + rewrite <- (text_chars v), E. by apply scale_dotted.
Qed.

Lemma spelled_inj i g i' g' :
  all_digits i = true -> all_digits g = true -> all_digits i' = true -> all_digits g' = true ->
  spelled i g = spelled i' g' -> i = i' /\ g = g'.
Proof.
  intros Hi Hg Hi' Hg' E. apply (f_equal (split_on ".")) in E. unfold spelled in E.
  destruct g, g'; rewrite ?(split_on_first "."), ?split_on_none in E
    by (by apply digits_no_dot); by simplify_eq.
Qed.

(** Spellings without insignificant zeros are equal when their numbers are. *)
Lemma canonical_spelling_le i g i' g' :
  canonical_integer i = true -> all_digits g = true ->
  canonical_integer i' = true -> all_digits g' = true ->
  (forall g0 c, g' = (g0 ++ [c])%list -> is_zero_char c = false) ->
  of_digits (i ++ g)%list * 10 ^ Z.of_nat (length g')
    = of_digits (i' ++ g')%list * 10 ^ Z.of_nat (length g) ->
  (length g <= length g')%nat -> i = i' /\ g = g'.
Proof.
  intros Hi Hg Hi' Hg' Hlast E Hle.
  destruct (Nat.eq_dec (length g) (length g')) as [El|Hne].
  - rewrite El in E. apply Z.mul_reg_r in E; [|apply Z.pow_nonzero; lia].
    rewrite !of_digits_app, El in E.
    pose proof (of_digits_bound g Hg) as B. pose proof (of_digits_nonneg g Hg).
    pose proof (of_digits_bound g' Hg'). pose proof (of_digits_nonneg g' Hg'). rewrite El in B.
    assert (of_digits i = of_digits i') as Ei by nia. rewrite Ei in E.
    split; [by apply canonical_integer_inj|]. apply of_digits_inj; [done..|lia].
  - exfalso. destruct (exists_last (l := g')) as (g0 & c & ->); [intros ->; cbn [length] in *; lia|].
    specialize (Hlast g0 c eq_refl). rewrite length_app in *. cbn [length] in *.
    rewrite all_digits_app, andb_true_iff in Hg'. destruct Hg' as [_ Hc].
    rewrite all_digits_cons, andb_true_r in Hc.
    rewrite (app_assoc i'), (of_digits_app (i' ++ g0)) in E. cbn [length] in E.
    set (n := length g0) in *. set (k := length g) in *.
    replace (Z.of_nat (n + 1)) with (Z.of_nat k + (1 + Z.of_nat (n - k))) in E by lia.
    rewrite !Z.pow_add_r in E by lia. change (10 ^ Z.of_nat 1) with 10 in E. change (10 ^ 1) with 10 in E.
    assert (0 < 10 ^ Z.of_nat k) by (apply Z.pow_pos_nonneg; lia).
    assert (of_digits (i ++ g)%list * (10 * 10 ^ Z.of_nat (n - k))
            = of_digits (i' ++ g0)%list * 10 + of_digits [c]) as E' by nia.
    rewrite of_digits_cons in E'. change (of_digits []) with 0 in E'. cbn [length] in E'.
    change (10 ^ Z.of_nat 0) with 1 in E'. apply is_digit_spec in Hc as Hv.
    assert (digit_value c = 0) as Ez.
    { set (x := of_digits (i ++ g)%list * 10 ^ Z.of_nat (n - k)).
      assert (10 * (x - of_digits (i' ++ g0)%list) = digit_value c) by (unfold x; lia). lia. }
    rewrite <- (digit_value_char c Hc), Ez in Hlast. done.
Qed.

Lemma canonical_spelling_inj i g i' g' :
  canonical_integer i = true -> all_digits g = true ->
  (forall g0 c, g = (g0 ++ [c])%list -> is_zero_char c = false) ->
  canonical_integer i' = true -> all_digits g' = true ->
  (forall g0 c, g' = (g0 ++ [c])%list -> is_zero_char c = false) ->
  of_digits (i ++ g)%list * 10 ^ Z.of_nat (length g')
    = of_digits (i' ++ g')%list * 10 ^ Z.of_nat (length g) ->
  i = i' /\ g = g'.
Proof.
  intros Hi Hg Hl Hi' Hg' Hl' E.
  destruct (Nat.le_ge_cases (length g) (length g')) as [H|H].
  - by apply canonical_spelling_le.
  - destruct (canonical_spelling_le i' g' i g) as [-> ->]; done.
Qed.

(** Two decimals have one normalized spelling exactly when they are one number. *)
Lemma normalize_identifies a b :
  isDecimalString a = true -> isDecimalString b = true ->
  normalizeDecimalString a = normalizeDecimalString b <-> compareDecimalAmounts a b = Ok 0.
Proof.
  intros Ha Hb. rewrite compareDecimalAmounts_decimal by by apply isDecimalString_is_decimal.
  assert (Ok (sign_of (compare_values a b)) = Ok 0 <-> compare_values a b = Eq) as ->
    by (destruct (compare_values a b); cbn; split; congruence).
  unfold compare_values. rewrite Z.compare_eq_iff.
  destruct (decimal_normalized a Ha) as (i & g & Ea & Hi & Hg & Hl & Va).
  destruct (decimal_normalized b Hb) as (i' & g' & Eb & Hi' & Hg' & Hl' & Vb).
  pose proof (canonical_integer_digits i Hi). pose proof (canonical_integer_digits i' Hi').
  pose proof (decimalScale_nonneg a). pose proof (decimalScale_nonneg b).
  set (sa := 10 ^ decimalScale a) in *. set (sb := 10 ^ decimalScale b) in *.
  assert (0 < sa /\ 0 < sb) as [Psa Psb] by (split; apply Z.pow_pos_nonneg; lia).
  set (pg := 10 ^ Z.of_nat (length g)) in *. set (pg' := 10 ^ Z.of_nat (length g')) in *.
  assert (0 < pg /\ 0 < pg') as [Pg Pg'] by (split; apply Z.pow_pos_nonneg; lia).
  split.
  - intros E. apply (f_equal chars) in E. rewrite Ea, Eb in E.
    apply spelled_inj in E as [-> ->]; [|done..].
    apply (Z.mul_reg_r _ _ pg'); [lia|]. fold pg' in Va. nia.
  - intros E. enough (i = i' /\ g = g') as [-> ->].
    { by rewrite <- (text_chars (normalizeDecimalString a)), Ea, <- Eb, text_chars. }
    apply canonical_spelling_inj; try done. fold pg pg'.
    apply (Z.mul_reg_r _ _ (sa * sb)); [nia|].
    replace (of_digits (i ++ g)%list * pg' * (sa * sb))
      with (of_digits (i ++ g)%list * sa * (sb * pg')) by ring.
    replace (of_digits (i' ++ g')%list * pg * (sa * sb))
      with (of_digits (i' ++ g')%list * sb * (sa * pg)) by ring.
    rewrite Va, Vb. transitivity (mantissa a * sb * (pg * pg')); [ring|]. rewrite E. ring.
Qed.
End Decimals.

(** ** Objects of strings *)

Section Objects.

(** A value that is a string or null. *)
Definition plain (v : payload) : bool := match v with VString _ | VNull => true | _ => false end.

Definition field_text (f : string * payload) : list ascii :=
  (chars (json_string (fst f)) ++ ":"%char :: stringify (snd f))%list.

Lemma field_inj f f' r r' :
  plain (snd f) = true -> plain (snd f') = true ->
  (field_text f ++ r = field_text f' ++ r')%list -> f = f' /\ r = r'.
Proof.
  destruct f as [k v], f' as [k' v']. unfold field_text. cbn [fst snd]. intros Hp Hp' E.
  rewrite <- !app_assoc in E. apply json_string_inj in E as [-> [= E]].
  destruct v, v'; try done; cbn [stringify] in E.
  - injection E as ->. done.
  - apply json_string_inj in E as [-> ->]. done.
Qed.

Lemma join_cons sep x xs :
  join [sep] (x :: xs) = (x ++ flat_map (fun y => sep :: y) xs)%list.
Proof.
  revert x. induction xs as [|y xs IH]; intros x; [cbn; by rewrite app_nil_r|].
  cbn [flat_map]. change (join [sep] (x :: y :: xs)) with (x ++ sep :: join [sep] (y :: xs))%list.
  by rewrite IH.
Qed.

Lemma more_fields_inj fs fs' r r' :
  forallb (fun f => plain (snd f)) fs = true -> forallb (fun f => plain (snd f)) fs' = true ->
  (flat_map (fun y => ","%char :: y) (map field_text fs) ++ "}"%char :: r
   = flat_map (fun y => ","%char :: y) (map field_text fs') ++ "}"%char :: r')%list -> fs = fs'.
Proof.
  revert fs'. induction fs as [|f fs IH]; intros [|f' fs']; cbn [forallb map flat_map app];
    rewrite ?andb_true_iff; intros Hp Hp' E; try done.
  destruct Hp as [Hf Hp], Hp' as [Hf' Hp']. apply (f_equal (@tl ascii)) in E.
  cbn [tl] in E. rewrite <- (app_assoc (field_text f)), <- (app_assoc (field_text f')) in E.
  apply field_inj in E as [-> E]; [|done..]. f_equal. by apply IH.
Qed.

Lemma stringify_fields fs :
  forallb (fun f => plain (snd f)) fs = true ->
  stringify (VObject fs) = ("{"%char :: join [","%char] (map field_text fs) ++ ["}"%char])%list.
Proof.
  intros H. cbn [stringify]. do 2 f_equal. f_equal.
  induction fs as [|[k v] fs IH]; [done|]. cbn [forallb flat_map map] in *.
  apply andb_true_iff in H as [Hv H]. rewrite IH by done. by destruct v.
Qed.

Lemma stringify_inj fs fs' :
  forallb (fun f => plain (snd f)) fs = true -> forallb (fun f => plain (snd f)) fs' = true ->
  text (stringify (VObject fs)) = text (stringify (VObject fs')) -> fs = fs'.
Proof.
  intros Hp Hp' E. apply (f_equal chars) in E. rewrite !chars_text, !stringify_fields in E by done.
  apply (f_equal (@tl ascii)) in E. cbn [tl] in E.
  destruct fs as [|f fs], fs' as [|f' fs']; [done| | |]; cbn [map] in E.
  - rewrite join_cons, <- app_assoc in E. unfold field_text in E. by cbn in E.
  - rewrite join_cons, <- app_assoc in E. unfold field_text in E. by cbn in E.
  - cbn [forallb] in Hp, Hp'. apply andb_true_iff in Hp as [Hf Hp], Hp' as [Hf' Hp'].
    rewrite !join_cons, <- (app_assoc (field_text f)), <- (app_assoc (field_text f')) in E.
    apply field_inj in E as [-> E]; [|done..]. f_equal.
    by apply (more_fields_inj _ _ [] []).
Qed.

Lemma deposit_fields i :
  buildEarnVaultDepositFingerprint i = text (stringify (VObject
    [("amount", VString (normalizeDecimalString (fd_amount i)));
     ("custodyWalletId", VString (fd_custodyWalletId i)); ("direction", VString "deposit");
     ("environment", VString (fd_environment i));
     ("minSharesOut", nullable (normalizeDecimalString <$> fd_minSharesOut i));
     ("provider", VString (fd_provider i)); ("providerReference", VString (fd_providerReference i));
     ("scope", VString "earn_vault_deposit")])).
Proof. unfold buildEarnVaultDepositFingerprint, fingerprint_of. by destruct (fd_minSharesOut i). Qed.

Lemma withdrawal_fields i :
  buildEarnVaultWithdrawalFingerprint i = text (stringify (VObject
    [("direction", VString "withdrawal"); ("environment", VString (fw_environment i));
     ("positionId", VString (fw_positionId i)); ("provider", VString (fw_provider i));
     ("scope", VString "earn_vault_withdrawal");
     ("shares", VString (normalizeDecimalString (fw_shares i)))])).
Proof. reflexivity. Qed.

Lemma nullable_plain o : plain (nullable o) = true.
Proof. by destruct o. Qed.
End Objects.

(** ** The material of a request id *)

Section Material.

Lemma digits_no_mark l c : all_digits l = true -> is_digit c = false -> forall x, In x l -> x <> c.
Proof. intros Hl Hc x Hx ->. by rewrite (proj1 (all_digits_In l) Hl c Hx) in Hc. Qed.

Lemma prefixed_inj p p' r r' :
  (to_digits (Z.of_nat (String.length p)) ++ ":"%char :: chars p ++ r
   = to_digits (Z.of_nat (String.length p')) ++ ":"%char :: chars p' ++ r')%list ->
  p = p' /\ r = r'.
Proof.
  intros E.
  assert (forall s, all_digits (to_digits (Z.of_nat (String.length s))) = true) as Hd
    by (intros; apply to_digits_all; lia).
  assert (forall s : string, length (chars s) = String.length s) as Hlen
    by (intros s; induction s as [|c s IH]; [done|];
        change (S (length (chars s)) = S (String.length s)); by rewrite IH).
  pose proof (f_equal (split_on ":") E) as S.
  rewrite !split_on_first in S by (by apply digits_no_mark; [apply Hd|reflexivity]).
  injection S as En _. pose proof (f_equal of_digits En) as Ev. rewrite !of_to_digits in Ev by lia.
  rewrite En in E. apply app_inv_head in E. injection E as E.
  apply app_inj_1 in E as [E ->]; [|rewrite !Hlen; lia]. split; [|done].
  by rewrite <- (text_chars p), E, text_chars.
Qed.

Lemma material_inj ps ps' :
  let part p := (to_digits (Z.of_nat (String.length p)) ++ ":"%char :: chars p)%list in
  flat_map (fun y => "|"%char :: y) (map part ps) = flat_map (fun y => "|"%char :: y) (map part ps') ->
  ps = ps'.
Proof.
  intros part. revert ps'. induction ps as [|p ps IH]; intros [|p' ps']; cbn [map flat_map]; try done.
  intros [= E]. unfold part in E. rewrite <- !app_assoc in E. cbn [app] in E.
  apply prefixed_inj in E as [-> E]. f_equal. by apply IH.
Qed.

Lemma request_material_inj scope scope' key key' :
  request_material scope key = request_material scope' key' -> scope = scope' /\ key = key'.
Proof.
  unfold request_material. intros E. apply app_inj_tail.
  destruct (scope ++ [key])%list as [|p ps] eqn:E1; [by destruct scope|].
  destruct (scope' ++ [key'])%list as [|p' ps'] eqn:E2; [by destruct scope'|].
  cbn [map] in E. rewrite !join_cons, <- !app_assoc in E. cbn [app] in E.
  apply prefixed_inj in E as [-> E]. f_equal. by apply material_inj.
Qed.
End Material.

(** ** The shape of a request id *)

Section Uuid.

Lemma hex_digit_char n : 0 <= n < 16 -> hex_char (hex_digit n) = true.
Proof.
  intros H. assert (forallb (fun k => hex_char (hex_digit (Z.of_nat k))) (seq 0 16) = true) as Hall
    by (vm_compute; reflexivity).
  rewrite forallb_forall in Hall. specialize (Hall (Z.to_nat n)). rewrite Z2Nat.id in Hall by lia.
  apply Hall, in_seq. lia.
Qed.

Lemma hex_digest_shape bytes :
  Forall (fun b => 0 <= b < 256) bytes ->
  let h := flat_map (fun b => [hex_digit (b / 16); hex_digit (b mod 16)]) bytes in
  length h = (2 * length bytes)%nat /\ forallb hex_char h = true.
Proof.
  induction 1 as [|b bytes Hb _ [Hl Hh]]; [done|]. cbn [flat_map app length forallb].
  split; [lia|]. rewrite !hex_digit_char, Hh; [done| |].
  - apply Z.mod_pos_bound. lia.
  - split; [apply Z.div_pos; lia|]. apply Z.div_lt_upper_bound; lia.
Qed.

Lemma variant_digit n :
  existsb (Ascii.eqb (hex_digit (Z.lor (Z.land n 3) 8))) ["8"; "9"; "a"; "b"]%char = true.
Proof.
  assert (0 <= Z.land n 3 < 4) as H.
  { change 3 with (Z.ones 2). rewrite Z.land_ones by lia. apply Z.mod_pos_bound. lia. }
  assert (Z.land n 3 = 0 \/ Z.land n 3 = 1 \/ Z.land n 3 = 2 \/ Z.land n 3 = 3)
    as [->|[->|[->| ->]]] by lia; reflexivity.
Qed.

Lemma hex_no_dash l : forallb hex_char l = true -> forall c, In c l -> c <> "-"%char.
Proof. intros H c Hc ->. rewrite forallb_forall in H. by apply H in Hc. Qed.

Lemma slice_shape from to h :
  forallb hex_char h = true -> (to <= length h)%nat -> (from <= to)%nat ->
  length (js_slice from to h) = (to - from)%nat /\ forallb hex_char (js_slice from to h) = true.
Proof.
  intros Hh H1 H2. unfold js_slice. split; [rewrite length_take, length_drop; lia|].
  rewrite forallb_forall in Hh |- *. intros c Hc%list_elem_of_In. apply Hh, list_elem_of_In.
  apply elem_of_take in Hc as (k & Hc & _). rewrite lookup_drop in Hc.
  by eapply list_elem_of_lookup_2.
Qed.
End Uuid.

(** * Theorems *)

(** C31. A vault fingerprint identifies what moves. Two deposits have one fingerprint
    exactly when they name the same environment, provider, vault and wallet, the same
    amount as a number and the same slippage floor or none; two withdrawals exactly
    when they name the same environment, provider and position and as many shares;
    and no deposit shares a fingerprint with a withdrawal. *)
Theorem vault_fingerprints_identify :
  (forall i j, decimal_deposit i = true -> decimal_deposit j = true ->
     buildEarnVaultDepositFingerprint i = buildEarnVaultDepositFingerprint j <-> same_deposit i j)
  /\ (forall i j, isDecimalString (fw_shares i) = true -> isDecimalString (fw_shares j) = true ->
        buildEarnVaultWithdrawalFingerprint i = buildEarnVaultWithdrawalFingerprint j
        <-> same_withdrawal i j)
  /\ forall i j, buildEarnVaultDepositFingerprint i <> buildEarnVaultWithdrawalFingerprint j.
Proof.
  split; [|split].
  - intros i j [Hi Hfi]%andb_true_iff [Hj Hfj]%andb_true_iff. rewrite !deposit_fields.
    unfold same_deposit, same_amount. rewrite <- normalize_identifies by done.
    assert (nullable (normalizeDecimalString <$> fd_minSharesOut i)
            = nullable (normalizeDecimalString <$> fd_minSharesOut j)
            <-> same_floor (fd_minSharesOut i) (fd_minSharesOut j)) as Hfloor.
    { destruct (fd_minSharesOut i) as [a|], (fd_minSharesOut j) as [b|]; cbn; [|done..].
      unfold same_amount. rewrite <- normalize_identifies by done. split; congruence. }
    rewrite <- Hfloor. split.
    + intros E%stringify_inj; [|cbn [forallb snd]; by rewrite nullable_plain..]. by injection E.
    + by intros (-> & -> & -> & -> & -> & ->).
  - intros i j Hi Hj. rewrite !withdrawal_fields. unfold same_withdrawal, same_amount.
    rewrite <- normalize_identifies by done. split.
    + intros E%stringify_inj; [|done..]. by injection E.
    + by intros (-> & -> & -> & ->).
  - intros i j. rewrite deposit_fields, withdrawal_fields.
    intros E%stringify_inj; [done|cbn [forallb snd]; by rewrite nullable_plain|done].
Qed.

Lemma vault_fingerprints_identify_witness :
  let request amount floor :=
    mkDepositFingerprint "sandbox" "kamino" "vault" "wallet" amount floor in
  buildEarnVaultDepositFingerprint (request "010.50" (Some "1."))
  = buildEarnVaultDepositFingerprint (request "10.5" (Some "1")).
Proof.
  intros request.
  apply (proj1 vault_fingerprints_identify (request "010.50" (Some "1.")) (request "10.5" (Some "1")));
    [reflexivity..|].
  repeat split; vm_compute; reflexivity.
Defined.

(** The request id of a keyed money movement: a version 4 UUID whatever the scope
    and the key, and derived from a material that no other scope and key share, so
    that two requests can only collide in the hash. *)
Theorem request_id_shape_and_material sha256 :
  (forall m, length (sha256 m) = 32%nat /\ Forall (fun b => 0 <= b < 256) (sha256 m)) ->
  (forall scope key, uuid_v4 (chars (deriveProviderRequestId sha256 scope key)) = true)
  /\ forall scope scope' key key',
       request_material scope key = request_material scope' key' -> scope = scope' /\ key = key'.
Proof.
  intros Hsha. split; [|apply request_material_inj]. intros scope key.
  destruct (Hsha (request_material scope key)) as [Hlen Hb].
  destruct (hex_digest_shape _ Hb) as [Hl Hh]. rewrite Hlen in Hl.
  unfold deriveProviderRequestId, hex_digest. rewrite chars_text.
  set (h := flat_map _ _) in *.
  destruct (slice_shape 0 8 h) as [L1 F1]; [done|lia..|].
  destruct (slice_shape 8 12 h) as [L2 F2]; [done|lia..|].
  destruct (slice_shape 13 16 h) as [L3 F3]; [done|lia..|].
  destruct (slice_shape 17 20 h) as [L4 F4]; [done|lia..|].
  destruct (slice_shape 20 32 h) as [L5 F5]; [done|lia..|].
  pose proof (variant_digit (hex_nibble (nth 16 h "0"%char))) as Hv.
  set (variant := hex_digit _) in *. unfold uuid_v4. rewrite split_on_join_parts; [|done|].
  - rewrite !forallb_app, F1, F2, F3, F4, F5, L1, L2, L3, L4, L5. cbn [andb].
    rewrite bool_decide_eq_true_2 by lia. by rewrite Ascii.eqb_refl, Hv.
  - repeat constructor; try by apply hex_no_dash.
    intros c [<-|Hc]; [|by apply (hex_no_dash _ F4)]. intros E. by rewrite E in Hv.
Qed.

Lemma request_id_shape_and_material_witness :
  uuid_v4 (chars (deriveProviderRequestId (fun _ => repeat 171 32) ["ground"; "prj"] "key-1")) = true.
Proof.
  apply (request_id_shape_and_material (fun _ => repeat 171 32)).
  intros m. split; [reflexivity|]. apply Forall_forall. intros b Hb.
  apply list_elem_of_In, repeat_spec in Hb as ->. lia.
Defined.
