(* ===== verification/PolicyTypes.v ===== *)
(** * Wallet-operation policies: the data

    The types of [packages/sdp-types/src/policy.ts] that the policy engine
    reads, with the texts of the enumerations that appear in its reasons, and the
    Solana clusters of [well-known-tokens.ts]. *)
From Stdlib Require Import Ascii String ZArith Lia.
From stdpp Require Import base list strings.
From S2P Require Import Prelude.

Inductive SolanaCluster := mainnet_beta | devnet.

#[export] Instance SolanaCluster_eq_dec : EqDecision SolanaCluster.
Proof. solve_decision. Defined.

Definition cluster_text (c : SolanaCluster) : string :=
  match c with mainnet_beta => "mainnet-beta" | devnet => "devnet" end.

(** A JSON value, for the [unknown] fields of an operation. *)
Inductive json : Type :=
| JNull
| JBool (b : bool)
| JNumber (n : Z)
| JString (s : string)
| JArray (items : list json)
| JObject (fields : list (string * json)).

Abbreviation json_record := (list (string * json)).

Inductive PolicyDecision : Type :=
| allow | deny | approval_required | provider_approval_required | review | not_evaluated.

(** [Exclude<PolicyDecision, "not_evaluated">] *)
Inductive PolicyRuleAction : Type :=
| action_allow | action_deny | action_approval_required
| action_provider_approval_required | action_review.

Inductive PolicyDefaultAction : Type :=
| default_allow | default_deny | default_approval_required | default_review.

Inductive PolicyRuleScope : Type := scope_wallet | scope_api_key.

Inductive EffectivePolicySource : Type := implicit_default_allow | customer_profile.

Inductive WalletOperationFamily : Type :=
| transfer | payment | ramp | issuance | program.

Inductive WalletOperationType : Type :=
| earn_vault_deposit | earn_vault_withdrawal
| issuance_burn_execute | issuance_force_burn_execute | issuance_mint_execute
| issuance_seize_execute | issuance_update_authority_execute
| payment_transfer_batch_execute | payment_transfer_execute
| ramp_offramp_quote | ramp_onramp_quote
| recurring_payment_collection | recurring_payment_create | recurring_payment_update
| rings_shield | rings_transfer_registered | rings_transfer_anonymous | rings_withdraw
| rings_merge | rings_timelock_create | rings_timelock_settle | rings_zone_create.

Inductive WalletOperationStatus : Type :=
| status_created | status_evaluated | status_pending_approval | status_executing
| status_completed | status_failed | status_canceled.

Inductive ApprovalRequestStatus : Type :=
| request_pending | request_approved | request_rejected | request_canceled
| request_expired | request_failed.

#[export] Instance PolicyDecision_eq_dec : EqDecision PolicyDecision.
Proof. solve_decision. Defined.
#[export] Instance PolicyRuleScope_eq_dec : EqDecision PolicyRuleScope.
Proof. solve_decision. Defined.
#[export] Instance EffectivePolicySource_eq_dec : EqDecision EffectivePolicySource.
Proof. solve_decision. Defined.
#[export] Instance WalletOperationFamily_eq_dec : EqDecision WalletOperationFamily.
Proof. solve_decision. Defined.
#[export] Instance WalletOperationType_eq_dec : EqDecision WalletOperationType.
Proof. solve_decision. Defined.
#[export] Instance WalletOperationStatus_eq_dec : EqDecision WalletOperationStatus.
Proof. solve_decision. Defined.
#[export] Instance ApprovalRequestStatus_eq_dec : EqDecision ApprovalRequestStatus.
Proof. solve_decision. Defined.

(** A rule action and a default action are decisions. *)
Definition action_decision (a : PolicyRuleAction) : PolicyDecision :=
  match a with
  | action_allow => allow
  | action_deny => deny
  | action_approval_required => approval_required
  | action_provider_approval_required => provider_approval_required
  | action_review => review
  end.

Definition default_decision (a : PolicyDefaultAction) : PolicyDecision :=
  match a with
  | default_allow => allow
  | default_deny => deny
  | default_approval_required => approval_required
  | default_review => review
  end.

Definition decision_text (d : PolicyDecision) : string :=
  match d with
  | allow => "allow"
  | deny => "deny"
  | approval_required => "approval_required"
  | provider_approval_required => "provider_approval_required"
  | review => "review"
  | not_evaluated => "not_evaluated"
  end.

Definition family_text (f : WalletOperationFamily) : string :=
  match f with
  | transfer => "transfer"
  | payment => "payment"
  | ramp => "ramp"
  | issuance => "issuance"
  | program => "program"
  end.

Definition type_text (t : WalletOperationType) : string :=
  match t with
  | earn_vault_deposit => "earn_vault_deposit"
  | earn_vault_withdrawal => "earn_vault_withdrawal"
  | issuance_burn_execute => "issuance_burn_execute"
  | issuance_force_burn_execute => "issuance_force_burn_execute"
  | issuance_mint_execute => "issuance_mint_execute"
  | issuance_seize_execute => "issuance_seize_execute"
  | issuance_update_authority_execute => "issuance_update_authority_execute"
  | payment_transfer_batch_execute => "payment_transfer_batch_execute"
  | payment_transfer_execute => "payment_transfer_execute"
  | ramp_offramp_quote => "ramp_offramp_quote"
  | ramp_onramp_quote => "ramp_onramp_quote"
  | recurring_payment_collection => "recurring_payment_collection"
  | recurring_payment_create => "recurring_payment_create"
  | recurring_payment_update => "recurring_payment_update"
  | rings_shield => "rings_shield"
  | rings_transfer_registered => "rings_transfer_registered"
  | rings_transfer_anonymous => "rings_transfer_anonymous"
  | rings_withdraw => "rings_withdraw"
  | rings_merge => "rings_merge"
  | rings_timelock_create => "rings_timelock_create"
  | rings_timelock_settle => "rings_timelock_settle"
  | rings_zone_create => "rings_zone_create"
  end.

(** [interface PolicyRuleBase] *)
Record PolicyRuleBase := mkRuleBase {
  rule_id : option string;
  rule_name : option string;
  rule_action : option PolicyRuleAction;
  rule_description : option string;
}.

(** The union [PolicyRule], one constructor per [kind]. *)
Inductive PolicyRule : Type :=
| OperationFamilyPolicyRule (base : PolicyRuleBase)
    (family : option WalletOperationFamily) (families : option (list WalletOperationFamily))
| OperationTypePolicyRule (base : PolicyRuleBase)
    (operationType : option WalletOperationType)
    (operationTypes : option (list WalletOperationType))
| AssetPolicyRule (base : PolicyRuleBase)
    (asset : option string) (assets : option (list string))
| DestinationPolicyRule (base : PolicyRuleBase)
    (allowlist : option (list string)) (blocklist : option (list string))
    (destination : option string) (destinations : option (list string))
| AmountPolicyRule (base : PolicyRuleBase)
    (min : option string) (max : option string)
    (asset : option string) (assets : option (list string))
| ApprovalPolicyRule (base : PolicyRuleBase)
    (families : option (list WalletOperationFamily))
    (operationTypes : option (list WalletOperationType))
    (assets : option (list string)) (approvalGroupId : option string)
| AlwaysPolicyRule (base : PolicyRuleBase).

Inductive rule_kind : Type :=
| kind_operation_family | kind_operation_type | kind_asset | kind_destination
| kind_amount | kind_approval | kind_always.

#[export] Instance rule_kind_eq_dec : EqDecision rule_kind.
Proof. solve_decision. Defined.

(** [rule.kind] *)
Definition kind (r : PolicyRule) : rule_kind :=
  match r with
  | OperationFamilyPolicyRule _ _ _ => kind_operation_family
  | OperationTypePolicyRule _ _ _ => kind_operation_type
  | AssetPolicyRule _ _ _ => kind_asset
  | DestinationPolicyRule _ _ _ _ _ => kind_destination
  | AmountPolicyRule _ _ _ _ _ => kind_amount
  | ApprovalPolicyRule _ _ _ _ _ => kind_approval
  | AlwaysPolicyRule _ => kind_always
  end.

(** The fields every kind of rule has. *)
Definition rule_base (r : PolicyRule) : PolicyRuleBase :=
  match r with
  | OperationFamilyPolicyRule b _ _ | OperationTypePolicyRule b _ _
  | AssetPolicyRule b _ _ | DestinationPolicyRule b _ _ _ _
  | AmountPolicyRule b _ _ _ _ | ApprovalPolicyRule b _ _ _ _ | AlwaysPolicyRule b => b
  end.

Record WalletOperationActor := mkActor {
  actor_type : string;
  actor_id : option string;
  actor_extra : json_record;
}.

Record PolicyCandidate := mkCandidate {
  organizationId : string;
  projectId : option string;
  custodyWalletId : option string;
  walletId : string;
  apiKeyId : option string;
  actor : option WalletOperationActor;
  source : string;
  operationFamily : WalletOperationFamily;
  operationType : WalletOperationType;
  op_asset : option string;
  op_amount : option string;
  op_destination : option string;
  context : json_record;
  providerExtensions : json_record;
}.

(** [interface WalletOperationEnvelope extends PolicyCandidate] *)
Record WalletOperationEnvelope := mkEnvelope {
  envelope_candidate : PolicyCandidate;
  envelope_id : string;
  rawPayload : json_record;
  idempotencyKey : option string;
  envelope_status : WalletOperationStatus;
  createdAt : string;
  updatedAt : string;
}.

(** The fields of a control profile and of its revision that the engine reads. *)
Record ControlProfile := mkProfile { profile_id : string; activeRevisionId : option string }.

Record ControlProfileRevision := mkRevision {
  revision_id : string;
  revisionNumber : Z;
  revision_rules : list PolicyRule;
  revision_defaultAction : PolicyDefaultAction;
}.

(** [EffectivePolicy], the same shape for a wallet and for an API key. *)
Record EffectivePolicy := mkEffective {
  effective_source : EffectivePolicySource;
  effective_profile : option ControlProfile;
  effective_revision : option ControlProfileRevision;
  effective_defaultAction : PolicyDefaultAction;
}.

Record MatchedPolicyRule := mkMatched {
  matched_scope : PolicyRuleScope;
  matched_ruleId : option string;
  matched_kind : rule_kind;
  matched_decision : PolicyDecision;
  matched_reason : string;
  matched_rule : PolicyRule;
  matched_leg : option nat;
}.

Record PolicyDryRunCriterion := mkCriterion {
  criterion_scope : PolicyRuleScope;
  criterion_ruleId : option string;
  criterion_kind : rule_kind;
  criterion_name : option string;
  criterion_matched : bool;
  criterion_action : option PolicyDecision;
  criterion_reason : option string;
  criterion_leg : option nat;
}.

Record PolicyScopeEvaluation := mkScopeEvaluation {
  scope : PolicyRuleScope;
  scope_source : EffectivePolicySource;
  profileId : option string;
  revisionId : option string;
  scope_defaultAction : PolicyDefaultAction;
  scope_decision : PolicyDecision;
  scope_reasonCode : string;
  scope_reason : string;
  scope_matchedRules : list MatchedPolicyRule;
  scope_requiresApproval : bool;
}.

Record CandidatePolicyEvaluation := mkEvaluation {
  wallet : PolicyScopeEvaluation;
  apiKey : option PolicyScopeEvaluation;
  decision : PolicyDecision;
  reasonCode : string;
  reason : string;
  matchedRules : list MatchedPolicyRule;
  requiresApproval : bool;
  walletPolicyRevisionId : option string;
  apiKeyPolicyRevisionId : option string;
}.

(** [PolicyEvaluationPolicyContext] *)
Record PolicyEvaluationPolicyContext := mkPolicyContext {
  context_source : EffectivePolicySource;
  context_profileId : option string;
  context_revisionId : option string;
  context_defaultAction : PolicyDefaultAction;
  context_decision : PolicyDecision;
  context_requiresApproval : bool;
}.

(** The operation snapshot of the audit context: the envelope without its
    [status] and [updatedAt]. *)
Record OperationSnapshot := mkSnapshot {
  snapshot_candidate : PolicyCandidate;
  snapshot_id : string;
  snapshot_rawPayload : json_record;
  snapshot_idempotencyKey : option string;
  snapshot_createdAt : string;
}.

Record PolicyEvaluationContext := mkContext {
  context_operation : OperationSnapshot;
  context_walletPolicy : PolicyEvaluationPolicyContext;
  context_apiKeyPolicy : option PolicyEvaluationPolicyContext;
}.
