(* ===== verification/PolicyRules.v ===== *)
(** * Wallet-operation policies: the rules

    [packages/sdp-policy/src/decisions.ts] and [packages/sdp-policy/src/rules/]:
    what one rule says of one operation, and which rules can restrict. *)
From Stdlib Require Import Ascii String ZArith Lia.
From stdpp Require Import base list strings sets.
From S2P Require Import Prelude Text Amount PolicyTypes.

Local Open Scope string_scope.

(** [DECISION_RANK] *)
Definition DECISION_RANK (d : PolicyDecision) : Z :=
  match d with
  | not_evaluated => 0
  | allow => 1
  | review => 2
  | provider_approval_required => 3
  | approval_required => 4
  | deny => 5
  end%Z.

Definition isApprovalDecision (d : PolicyDecision) : bool :=
  bool_decide (d = approval_required) || bool_decide (d = provider_approval_required).

Definition walletOperationStatusForDecision (d : PolicyDecision) : WalletOperationStatus :=
  match d with
  | allow => status_evaluated
  | approval_required | provider_approval_required | review => status_pending_approval
  | deny | not_evaluated => status_failed
  end.

Record RuleEvaluation := mkRuleEvaluation {
  rule_decision : PolicyDecision;
  rule_reason : string;
  evaluated_rule : PolicyRule;
}.

(** [values.includes(value)] *)
Definition includes {T} `{EqDecision T} (values : list T) (value : T) : bool :=
  bool_decide (value ∈ values).

(** [[...new Set(values)]]: the first occurrence of every value, in order. *)
Fixpoint distinct_from {T} `{EqDecision T} (seen values : list T) : list T :=
  match values with
  | [] => []
  | v :: rest =>
      if includes seen v then distinct_from seen rest
      else v :: distinct_from (v :: seen) rest
  end.

Definition ruleValues {T} `{EqDecision T} (single : option T) (many : option (list T)) : list T :=
  distinct_from [] (match single with Some v => [v] | None => [] end ++ default [] many).

Definition decision_or (b : PolicyRuleBase) (d : PolicyDecision) : PolicyDecision :=
  match rule_action b with Some a => action_decision a | None => d end.

Definition evaluateAlwaysRule (b : PolicyRuleBase) : RuleEvaluation :=
  mkRuleEvaluation (decision_or b allow) "Always rule matched." (AlwaysPolicyRule b).

Definition evaluateOperationFamilyRule b family families (operation : PolicyCandidate)
    : option RuleEvaluation :=
  let rule := OperationFamilyPolicyRule b family families in
  let values := ruleValues family families in
  if Nat.eqb (length values) 0 then
    Some (mkRuleEvaluation review "Operation family rule has no families." rule)
  else if negb (includes values (operationFamily operation)) then None
  else Some (mkRuleEvaluation (decision_or b allow)
    ("Operation family " ++ family_text (operationFamily operation) ++ " matched policy.") rule).

Definition evaluateOperationTypeRule b operationType_ operationTypes (operation : PolicyCandidate)
    : option RuleEvaluation :=
  let rule := OperationTypePolicyRule b operationType_ operationTypes in
  let values := ruleValues operationType_ operationTypes in
  if Nat.eqb (length values) 0 then
    Some (mkRuleEvaluation review "Operation type rule has no operation types." rule)
  else if negb (includes values (operationType operation)) then None
  else Some (mkRuleEvaluation (decision_or b allow)
    ("Operation type " ++ type_text (operationType operation) ++ " matched policy.") rule).

(** [operation.asset !== null && assets.includes(operation.asset)] *)
Definition names_asset (assets : list string) (operation : PolicyCandidate) : bool :=
  match op_asset operation with Some a => includes assets a | None => false end.

Definition evaluateAssetRule b asset assets (operation : PolicyCandidate)
    : option RuleEvaluation :=
  let rule := AssetPolicyRule b asset assets in
  let values := ruleValues asset assets in
  if Nat.eqb (length values) 0 then
    Some (mkRuleEvaluation review "Asset rule has no assets." rule)
  else if negb (names_asset values operation) then None
  else Some (mkRuleEvaluation (decision_or b allow)
    ("Asset " ++ default "" (op_asset operation) ++ " matched policy.") rule).

Definition evaluateDestinationRule b allowlist_ blocklist_ destination_ destinations
    (operation : PolicyCandidate) : option RuleEvaluation :=
  let rule := DestinationPolicyRule b allowlist_ blocklist_ destination_ destinations in
  let blocklist := ruleValues None blocklist_ in
  let allowlist := (ruleValues destination_ destinations ++ ruleValues None allowlist_)%list in
  let listed values :=
    match op_destination operation with Some d => includes values d | None => false end in
  let text := default "" (op_destination operation) in
  if Nat.eqb (length blocklist) 0 && Nat.eqb (length allowlist) 0 then
    Some (mkRuleEvaluation review "Destination rule has no allowlist or blocklist." rule)
  else if listed blocklist then
    Some (mkRuleEvaluation deny ("Destination " ++ text ++ " is blocked by policy.") rule)
  else if Nat.ltb 0 (length allowlist) then
    if negb (listed allowlist) then
      Some (mkRuleEvaluation deny
        match op_destination operation with
        | None => "Operation has no destination for destination policy evaluation."
        | Some _ => "Destination " ++ text ++ " is not allowed by policy."
        end rule)
    else
      Some (mkRuleEvaluation (decision_or b allow)
        ("Destination " ++ text ++ " matched policy.") rule)
  else None.

(** [compareDecimalAmounts(left, right) < 0] and [> 0]; on decimal strings the
    comparison does not throw. *)
Definition amount_below (left right : string) : bool :=
  match SolanaAmount.compareDecimalAmounts left right with
  | Ok c => Z.ltb c 0 | Err _ => false
  end.
Definition amount_above (left right : string) : bool :=
  match SolanaAmount.compareDecimalAmounts left right with
  | Ok c => Z.ltb 0 c | Err _ => false
  end.

Definition on_bound (bound : option string) (test : string -> bool) : bool :=
  match bound with Some s => test s | None => false end.

Definition evaluateAmountRule b min_ max_ asset assets (operation : PolicyCandidate)
    : option RuleEvaluation :=
  let rule := AmountPolicyRule b min_ max_ asset assets in
  let values := ruleValues asset assets in
  let invalid s := negb (SolanaAmount.isDecimalString s) in
  if Nat.eqb (length values) 0 then
    Some (mkRuleEvaluation review "Amount rule has no assets." rule)
  else if negb (names_asset values operation) then None
  else match op_amount operation with
  | None => None
  | Some amount =>
      if invalid amount then
        Some (mkRuleEvaluation review
          "Operation amount is invalid for amount policy evaluation." rule)
      else if bool_decide (min_ = None) && bool_decide (max_ = None) then
        Some (mkRuleEvaluation review "Amount rule has no min or max." rule)
      else if on_bound min_ invalid || on_bound max_ invalid then
        Some (mkRuleEvaluation review "Amount rule has an invalid decimal bound." rule)
      else if on_bound min_ (amount_below amount) then
        Some (mkRuleEvaluation deny
          ("Operation amount " ++ amount ++ " is below policy minimum "
           ++ default "" min_ ++ ".") rule)
      else if on_bound max_ (amount_above amount) then
        Some (mkRuleEvaluation deny
          ("Operation amount " ++ amount ++ " exceeds policy maximum "
           ++ default "" max_ ++ ".") rule)
      else
        Some (mkRuleEvaluation (decision_or b allow)
          ("Operation amount " ++ amount ++ " matched policy.") rule)
  end.

Definition evaluateApprovalRule b families_ operationTypes_ assets_ approvalGroupId
    (operation : PolicyCandidate) : option RuleEvaluation :=
  let rule := ApprovalPolicyRule b families_ operationTypes_ assets_ approvalGroupId in
  let families := ruleValues None families_ in
  let operationTypes := ruleValues None operationTypes_ in
  let assets := ruleValues None assets_ in
  if Nat.ltb 0 (length families) && negb (includes families (operationFamily operation)) then None
  else if Nat.ltb 0 (length operationTypes)
          && negb (includes operationTypes (operationType operation)) then None
  else if Nat.ltb 0 (length assets) && negb (names_asset assets operation) then None
  else Some (mkRuleEvaluation (decision_or b approval_required)
    "Approval policy matched operation." rule).

Definition evaluatePolicyRule (rule : PolicyRule) (operation : PolicyCandidate)
    : option RuleEvaluation :=
  match rule with
  | AlwaysPolicyRule b => Some (evaluateAlwaysRule b)
  | OperationFamilyPolicyRule b f fs => evaluateOperationFamilyRule b f fs operation
  | OperationTypePolicyRule b t ts => evaluateOperationTypeRule b t ts operation
  | AssetPolicyRule b a as_ => evaluateAssetRule b a as_ operation
  | DestinationPolicyRule b al bl d ds => evaluateDestinationRule b al bl d ds operation
  | AmountPolicyRule b mn mx a as_ => evaluateAmountRule b mn mx a as_ operation
  | ApprovalPolicyRule b fs ts as_ g => evaluateApprovalRule b fs ts as_ g operation
  end.

(** [policyRuleRestricts], of [rules/restricts.ts]. *)
Definition policyRuleRestricts (rule : PolicyRule) : bool :=
  match rule_action (rule_base rule) with
  | Some a => negb (bool_decide (action_decision a = allow))
  | None =>
      match rule with
      | ApprovalPolicyRule _ _ _ _ _ | AmountPolicyRule _ _ _ _ _
      | DestinationPolicyRule _ _ _ _ _ => true
      | AssetPolicyRule _ a as_ => Nat.eqb (length (ruleValues a as_)) 0
      | OperationFamilyPolicyRule _ f fs => Nat.eqb (length (ruleValues f fs)) 0
      | OperationTypePolicyRule _ t ts => Nat.eqb (length (ruleValues t ts)) 0
      | AlwaysPolicyRule _ => false
      end
  end.

(** ** Reference decisions

    What the documentation says of a rule, with no reason text and no
    deduplication: [None] when the rule does not apply. *)
Definition destination_decision (b : PolicyRuleBase) (allowed blocked : list string)
    (d : option string) : option PolicyDecision :=
  if bool_decide (blocked = []) && bool_decide (allowed = []) then Some review
  else match d with
  | Some x =>
      if bool_decide (x ∈ blocked) then Some deny
      else if bool_decide (allowed = []) then None
      else if bool_decide (x ∈ allowed) then Some (decision_or b allow)
      else Some deny
  | None => if bool_decide (allowed = []) then None else Some deny
  end.

(** The amount is within the bounds, as numbers. *)
Definition within_bounds (min_ max_ : option string) (amount : string) : bool :=
  match min_ with
  | Some m => negb (bool_decide (DecimalSpec.compare_values amount m = Lt))
  | None => true
  end &&
  match max_ with
  | Some m => negb (bool_decide (DecimalSpec.compare_values amount m = Gt))
  | None => true
  end.

(** An operation with the given asset, amount and destination. *)
Definition sample_operation (asset amount destination : option string) : PolicyCandidate :=
  mkCandidate "org" (Some "project") None "wallet" None None "api" transfer
    payment_transfer_execute asset amount destination [] [].

Definition plain_rule (action : option PolicyRuleAction) : PolicyRuleBase :=
  mkRuleBase None None action None.

(** * Theorems *)

Section RuleValues.
Context {T : Type} `{EqDecision T}.

Lemma includes_spec (values : list T) v : includes values v = true <-> v ∈ values.
Proof. apply bool_decide_eq_true. Qed.

Lemma distinct_from_elem (seen values : list T) v :
  v ∈ distinct_from seen values <-> v ∈ values /\ v ∉ seen.
Proof.
  revert seen. induction values as [|x values IH]; intros seen; simpl; [set_solver|].
  destruct (includes seen x) eqn:E.
  - apply includes_spec in E. rewrite IH. set_solver.
  - assert (x ∉ seen) by (intros F; apply includes_spec in F; congruence).
    rewrite elem_of_cons, IH. destruct (decide (v = x)); set_solver.
Qed.

Lemma ruleValues_elem (single : option T) many v :
  v ∈ ruleValues single many <-> single = Some v \/ v ∈ default [] many.
Proof.
  unfold ruleValues. rewrite distinct_from_elem. destruct single; set_solver.
Qed.

Lemma ruleValues_nil (single : option T) many :
  Nat.eqb (length (ruleValues single many)) 0 = true <-> single = None /\ default [] many = [].
Proof.
  rewrite Nat.eqb_eq, length_zero_iff_nil. unfold ruleValues.
  destruct single; simpl.
  - split; [done|]. by intros [? _].
  - destruct (default [] many); simpl; [done|]. split; [done|]. by intros [_ ?].
Qed.

Lemma ruleValues_includes (single : option T) many v :
  includes (ruleValues single many) v
  = bool_decide (v ∈ (match single with Some x => [x] | None => [] end ++ default [] many)%list).
Proof.
  apply bool_decide_ext. rewrite ruleValues_elem. destruct single; set_solver.
Qed.

Lemma length_zero_nil (l : list T) : Nat.eqb (length l) 0 = bool_decide (l = []).
Proof. by destruct l. Qed.

Lemma ltb_zero_length (l : list T) : Nat.ltb 0 (length l) = negb (bool_decide (l = [])).
Proof. by destruct l. Qed.
End RuleValues.

Create HintDb policy.
Create Rewrite HintDb policy_rw.
#[export] Hint Rewrite @ruleValues_includes @length_zero_nil @ltb_zero_length : policy_rw.

Lemma ruleValues_nil_app {T} `{EqDecision T} (single : option T) many :
  ruleValues single many = []
  <-> (match single with Some x => [x] | None => [] end ++ default [] many)%list = [].
Proof.
  rewrite <- length_zero_iff_nil, <- Nat.eqb_eq, ruleValues_nil.
  destruct single; simpl; [split; [by intros [? _]|done]|]. split; [by intros [_ ?]|done].
Qed.

Lemma ruleValues_empty {T} `{EqDecision T} (single : option T) many :
  bool_decide (ruleValues single many = [])
  = bool_decide ((match single with Some x => [x] | None => [] end ++ default [] many)%list = []).
Proof. apply bool_decide_ext, ruleValues_nil_app. Qed.

(** Comparisons of decimal strings do not throw. *)
Lemma amount_below_spec left right :
  SolanaAmount.isDecimalString left = true -> SolanaAmount.isDecimalString right = true ->
  amount_below left right = true <-> DecimalSpec.compare_values left right = Lt.
Proof.
  intros Hl%isDecimalString_is_decimal Hr%isDecimalString_is_decimal. unfold amount_below.
  rewrite compareDecimalAmounts_decimal by done.
  by destruct (DecimalSpec.compare_values left right).
Qed.

Lemma amount_above_spec left right :
  SolanaAmount.isDecimalString left = true -> SolanaAmount.isDecimalString right = true ->
  amount_above left right = true <-> DecimalSpec.compare_values left right = Gt.
Proof.
  intros Hl%isDecimalString_is_decimal Hr%isDecimalString_is_decimal. unfold amount_above.
  rewrite compareDecimalAmounts_decimal by done.
  by destruct (DecimalSpec.compare_values left right).
Qed.

Lemma isApprovalDecision_spec d :
  isApprovalDecision d = true <-> d = approval_required \/ d = provider_approval_required.
Proof. unfold isApprovalDecision. rewrite orb_true_iff, !bool_decide_eq_true. done. Qed.

Lemma DECISION_RANK_inj d d' : DECISION_RANK d = DECISION_RANK d' -> d = d'.
Proof. destruct d, d'; done. Qed.

Lemma DECISION_RANK_bounds d : (0 <= DECISION_RANK d <= 5)%Z.
Proof. destruct d; simpl; lia. Qed.

Lemma includes_true {T} `{EqDecision T} (values : list T) v :
  v ∈ values -> includes values v = true.
Proof. apply includes_spec. Qed.

Lemma on_bound_invalid bound :
  (forall s, bound = Some s -> SolanaAmount.isDecimalString s = true) ->
  on_bound bound (fun s => negb (SolanaAmount.isDecimalString s)) = false.
Proof. destruct bound as [s|]; [|done]. intros H. simpl. by rewrite (H s). Qed.

Lemma within_bounds_spec mn mx amount :
  SolanaAmount.isDecimalString amount = true ->
  (forall s, mn = Some s -> SolanaAmount.isDecimalString s = true) ->
  (forall s, mx = Some s -> SolanaAmount.isDecimalString s = true) ->
  within_bounds mn mx amount
  = negb (on_bound mn (amount_below amount)) && negb (on_bound mx (amount_above amount)).
Proof.
  intros Ha Hmn Hmx. unfold within_bounds. f_equal.
  - destruct mn as [m|]; [|done]. simpl. f_equal. symmetry. apply Bool.eq_iff_eq_true.
    rewrite bool_decide_eq_true. apply amount_below_spec; auto.
  - destruct mx as [m|]; [|done]. simpl. f_equal. symmetry. apply Bool.eq_iff_eq_true.
    rewrite bool_decide_eq_true. apply amount_above_spec; auto.
Qed.

(** A rule with criteria names some value. *)
Lemma ruleValues_some {T} `{EqDecision T} (single : option T) many :
  Nat.eqb (length (ruleValues single many)) 0 = false -> exists v, v ∈ ruleValues single many.
Proof. destruct (ruleValues single many) as [|v l]; [done|]. intros _. exists v. by left. Qed.

Lemma destination_rule_table b al bl d ds operation :
  rule_decision <$> evaluateDestinationRule b al bl d ds operation =
  destination_decision b
    ((match d with Some x => [x] | None => [] end ++ default [] ds) ++ default [] al)%list
    (default [] bl) (op_destination operation).
Proof.
  unfold evaluateDestinationRule, destination_decision.
  rewrite !length_zero_nil, ltb_zero_length.
  set (allowed := (_ ++ default [] al)%list).
  assert (Ha : forall x, includes (ruleValues d ds ++ ruleValues None al) x = bool_decide (x ∈ allowed)).
  { intros x. apply bool_decide_ext. unfold allowed.
    rewrite !elem_of_app, !ruleValues_elem. destruct d; set_solver. }
  assert (Hn : bool_decide ((ruleValues d ds ++ ruleValues None al)%list = []) = bool_decide (allowed = [])).
  { apply bool_decide_ext. unfold allowed. rewrite !app_nil.
    rewrite !ruleValues_nil_app, !app_nil. naive_solver. }
  rewrite Hn, (ruleValues_empty None bl). cbn [app].
  destruct (bool_decide (default [] bl = []) && bool_decide (allowed = [])); [done|].
  destruct (op_destination operation) as [x|].
  - rewrite ruleValues_includes, Ha. cbn [app].
    destruct (bool_decide (x ∈ default [] bl)); [done|].
    destruct (bool_decide (allowed = [])); [done|]. cbn [negb].
    by destruct (bool_decide (x ∈ allowed)).
  - by destruct (bool_decide (allowed = [])).
Qed.

Lemma amount_rule_table b mn mx a as_ operation x amount :
  op_asset operation = Some x -> x ∈ ruleValues a as_ ->
  op_amount operation = Some amount -> SolanaAmount.isDecimalString amount = true ->
  (forall s, mn = Some s -> SolanaAmount.isDecimalString s = true) ->
  (forall s, mx = Some s -> SolanaAmount.isDecimalString s = true) ->
  ~ (mn = None /\ mx = None) ->
  rule_decision <$> evaluateAmountRule b mn mx a as_ operation
  = Some (if within_bounds mn mx amount then decision_or b allow else deny).
Proof.
  intros Hx Hin Ham Hd Hmn Hmx Hsome. unfold evaluateAmountRule, names_asset.
  rewrite Hx, Ham, Hd, includes_true by done. cbn [negb].
  rewrite (proj2 (Nat.eqb_neq _ _)) by (destruct (ruleValues a as_); [set_solver|done]).
  rewrite !on_bound_invalid, within_bounds_spec by done. cbn [orb].
  destruct (bool_decide (mn = None) && bool_decide (mx = None)) eqn:E.
  { apply andb_true_iff in E as [?%bool_decide_eq_true ?%bool_decide_eq_true]. by destruct Hsome. }
  destruct (on_bound mn (amount_below amount)); [done|].
  by destruct (on_bound mx (amount_above amount)).
Qed.

(** A rule of a kind that can restrict restricts some operation. *)
Lemma restricting_operation rule :
  rule_action (rule_base rule) = None -> policyRuleRestricts rule = true ->
  exists operation e,
    evaluatePolicyRule rule operation = Some e /\ rule_decision e <> allow.
Proof.
  unfold policyRuleRestricts. intros Hb. rewrite Hb. intros H.
  destruct rule as [b f fs|b t ts|b a as_|b al bl d ds|b mn mx a as_|b fs ts as_ g|b];
    simpl in Hb, H; try discriminate H.
  - exists (sample_operation None None None). simpl. unfold evaluateOperationFamilyRule.
    rewrite H. eexists. by split.
  - exists (sample_operation None None None). simpl. unfold evaluateOperationTypeRule.
    rewrite H. eexists. by split.
  - exists (sample_operation None None None). simpl. unfold evaluateAssetRule.
    rewrite H. eexists. by split.
  - pose proof (fun x => destination_rule_table b al bl d ds (sample_operation None None x)) as E.
    unfold destination_decision in E. cbn [op_destination sample_operation] in E.
    destruct (default [] bl) as [|x l].
    + specialize (E None). cbv beta iota in E. rewrite (bool_decide_eq_true_2 ([] = [])), andb_true_l in E by done.
      exists (sample_operation None None None). cbn [evaluatePolicyRule].
      destruct (evaluateDestinationRule b al bl d ds _) as [e|]; cbn in E.
      * exists e. split; [done|]. intros Hal. rewrite Hal in E.
        by destruct (bool_decide _).
      * by destruct (bool_decide _).
    + specialize (E (Some x)). cbv beta iota in E. exists (sample_operation None None (Some x)).
      rewrite (bool_decide_eq_true_2 (x ∈ x :: l)) in E by by left.
      rewrite (bool_decide_eq_false_2 (x :: l = [])), andb_false_l in E by done.
      cbn [evaluatePolicyRule].
      destruct (evaluateDestinationRule b al bl d ds _) as [e|]; [|done].
      exists e. simpl in E. split; [done|congruence].
  - destruct (Nat.eqb (length (ruleValues a as_)) 0) eqn:En.
    + exists (sample_operation None None None). simpl. unfold evaluateAmountRule. rewrite En.
      eexists. by split.
    + destruct (ruleValues_some _ _ En) as [x Hx].
      exists (sample_operation (Some x) (Some "x") None). simpl.
      unfold evaluateAmountRule, names_asset. rewrite En. simpl. rewrite includes_true by done.
      eexists. by split.
  - assert (exists e, evaluateApprovalRule b fs ts as_ g
      (mkCandidate "org" None None "wallet" None None "api"
         (default transfer (head (ruleValues None fs)))
         (default payment_transfer_execute (head (ruleValues None ts)))
         (head (ruleValues None as_)) None None [] []) = Some e
      /\ rule_decision e <> allow) as (e & He & Hne); [|eauto].
    unfold evaluateApprovalRule, names_asset, decision_or. simpl. rewrite Hb.
    destruct (ruleValues None fs) as [|f fs']; destruct (ruleValues None ts) as [|t ts'];
      destruct (ruleValues None as_) as [|a as']; simpl;
      rewrite ?includes_true by (by left); eexists; by split.
Qed.

(** A kind that does not restrict allows whatever it matches. *)
Lemma unrestricting_rule rule operation e :
  rule_action (rule_base rule) = None -> policyRuleRestricts rule = false ->
  evaluatePolicyRule rule operation = Some e -> rule_decision e = allow.
Proof.
  unfold policyRuleRestricts. intros Hb. rewrite Hb.
  destruct rule as [b f fs|b t ts|b a as_|b al bl d ds|b mn mx a as_|b fs ts as_ g|b];
    simpl in *; intros H; try discriminate H.
  - unfold evaluateOperationFamilyRule. rewrite H. destruct (negb _); [done|].
    intros [= <-]. simpl. unfold decision_or. by rewrite Hb.
  - unfold evaluateOperationTypeRule. rewrite H. destruct (negb _); [done|].
    intros [= <-]. simpl. unfold decision_or. by rewrite Hb.
  - unfold evaluateAssetRule. rewrite H. destruct (negb _); [done|].
    intros [= <-]. simpl. unfold decision_or. by rewrite Hb.
  - intros [= <-]. simpl. unfold decision_or. by rewrite Hb.
Qed.

(** An evaluation names the rule it came from. *)
Lemma evaluated_rule_same rule operation e :
  evaluatePolicyRule rule operation = Some e -> evaluated_rule e = rule.
Proof.
  destruct rule; simpl; unfold evaluateOperationFamilyRule, evaluateOperationTypeRule,
    evaluateAssetRule, evaluateDestinationRule, evaluateAmountRule, evaluateApprovalRule;
    intros H; repeat case_match; simplify_eq; done.
Qed.

(** The decision of a destination rule: with no list it reviews; a blocked
    destination is denied whatever the allowlist and the action say; when there is
    an allowlist (the three allow fields together) anything off it is denied, a
    missing destination included; and a blocklist alone abstains on the rest. *)
Theorem evaluateDestinationRule_decision b al bl d ds operation :
  rule_decision <$> evaluateDestinationRule b al bl d ds operation =
  destination_decision b
    ((match d with Some x => [x] | None => [] end ++ default [] ds) ++ default [] al)%list
    (default [] bl) (op_destination operation).
Proof. apply destination_rule_table. Qed.

(** An amount rule that names the operation's asset, on an operation amount
    and bounds that are decimal strings: it denies exactly when the amount is
    outside the bounds as a number, and gives the rule's action (or allow)
    otherwise. *)
Theorem evaluateAmountRule_decision b mn mx a as_ operation x amount
  (Hasset : op_asset operation = Some x) (Hnamed : x ∈ ruleValues a as_)
  (Hamount : op_amount operation = Some amount)
  (Hdecimal : SolanaAmount.isDecimalString amount = true)
  (Hmin : forall s, mn = Some s -> SolanaAmount.isDecimalString s = true)
  (Hmax : forall s, mx = Some s -> SolanaAmount.isDecimalString s = true)
  (Hbounds : ~ (mn = None /\ mx = None)) :
  rule_decision <$> evaluateAmountRule b mn mx a as_ operation
  = Some (if within_bounds mn mx amount then decision_or b allow else deny).
Proof. by apply (amount_rule_table _ _ _ _ _ _ x). Qed.

Lemma evaluateAmountRule_decision_witness :
  rule_decision <$> evaluateAmountRule (plain_rule None) None (Some "100.0") (Some "USDC") None
    (sample_operation (Some "USDC") (Some "100.00000001") None) = Some deny.
Proof.
  rewrite (evaluateAmountRule_decision (plain_rule None) None (Some "100.0") (Some "USDC") None
    (sample_operation (Some "USDC") (Some "100.00000001") None) "USDC" "100.00000001").
  - vm_compute. reflexivity.
  - reflexivity.
  - apply ruleValues_elem. by left.
  - reflexivity.
  - reflexivity.
  - intros s. discriminate.
  - intros s [= <-]. reflexivity.
  - intros [_ E]. discriminate.
Defined.

(** For a rule that pins no action, [policyRuleRestricts] is exactly whether
    some operation can get a decision other than allow from it. *)
Theorem policyRuleRestricts_spec rule (Haction : rule_action (rule_base rule) = None) :
  policyRuleRestricts rule = true <->
  exists operation e, evaluatePolicyRule rule operation = Some e /\ rule_decision e <> allow.
Proof.
  split; [by apply restricting_operation|]. intros (op & e & He & Hne).
  destruct (policyRuleRestricts rule) eqn:E; [done|].
  by destruct Hne; eapply unrestricting_rule.
Qed.

Lemma policyRuleRestricts_spec_witness :
  exists operation e,
    evaluatePolicyRule (AssetPolicyRule (plain_rule None) None None) operation = Some e
    /\ rule_decision e <> allow.
Proof.
  apply (policyRuleRestricts_spec (AssetPolicyRule (plain_rule None) None None) eq_refl).
  reflexivity.
Defined.

(** With the action pinned to allow the classification is wrong: it says that
    no rule of that action can do anything but allow, and a destination rule with
    an allowlist still denies an operation whose destination is not on it. *)
Theorem policyRuleRestricts_pinned_allow b al bl d ds operation
  (Haction : rule_action b = Some action_allow)
  (Hallowed : ((match d with Some x => [x] | None => [] end ++ default [] ds)
               ++ default [] al)%list <> [])
  (Hdestination : op_destination operation = None) :
  policyRuleRestricts (DestinationPolicyRule b al bl d ds) = false
  /\ rule_decision <$> evaluatePolicyRule (DestinationPolicyRule b al bl d ds) operation
     = Some deny.
Proof.
  split; [unfold policyRuleRestricts; simpl; by rewrite Haction|].
  simpl. rewrite destination_rule_table. unfold destination_decision.
  rewrite Hdestination, (bool_decide_eq_false_2 _ Hallowed).
  by rewrite andb_false_r.
Qed.

Lemma policyRuleRestricts_pinned_allow_witness :
  policyRuleRestricts
    (DestinationPolicyRule (plain_rule (Some action_allow)) (Some ["treasury"]) None None None)
  = false.
Proof.
  refine (proj1 (policyRuleRestricts_pinned_allow (plain_rule (Some action_allow))
    (Some ["treasury"]) None None None (sample_operation None None None) _ _ _));
    [reflexivity|discriminate|reflexivity].
Defined.
