(* ===== verification/PolicyEvaluate.v ===== *)
(** * Wallet-operation policies: evaluation

    [packages/sdp-policy/src/evaluate.ts]: the views of an operation, the
    evaluation of one scope, the combination of the scopes, and the dry-run
    description of the same rules. *)
From Stdlib Require Import Ascii String ZArith Lia Permutation.
From stdpp Require Import base list strings sets.
From S2P Require Import Prelude Text PolicyTypes PolicyRules.

Local Open Scope string_scope.

Record CandidateView := mkView { view_candidate : PolicyCandidate; leg : option nat }.

(** [RuleEvaluation & { leg }] *)
Record ViewRuleEvaluation := mkViewRuleEvaluation {
  evaluation : RuleEvaluation;
  evaluation_leg : option nat;
}.

Definition IMPLICIT_DEFAULT_ALLOW_POLICY : EffectivePolicy :=
  mkEffective implicit_default_allow None None default_allow.

Record EvaluateCandidatePoliciesInput := mkInput {
  candidate : PolicyCandidate;
  legs : list PolicyCandidate;
  walletPolicy : EffectivePolicy;
  apiKeyPolicy : option EffectivePolicy;
}.

Definition candidateViews (candidate : PolicyCandidate) (legs : list PolicyCandidate)
    : list CandidateView :=
  mkView candidate None :: imap (fun index leg => mkView leg (Some index)) legs.

Definition viewRules (rules : list PolicyRule) (view : CandidateView) (hasLegs : bool)
    : list PolicyRule :=
  if negb hasLegs || bool_decide (leg view <> None) then rules
  else List.filter (fun rule => negb (bool_decide (kind rule = kind_destination))) rules.

Definition scopeLabel (s : PolicyRuleScope) : string :=
  match s with scope_wallet => "wallet" | scope_api_key => "API key" end.

Definition missingPolicyReasonCode (s : PolicyRuleScope) : string :=
  match s with scope_wallet => "wallet_policy_missing" | scope_api_key => "api_key_policy_missing" end.

Definition matchedPolicyReasonCode (s : PolicyRuleScope) : string :=
  match s with scope_wallet => "wallet_policy_match" | scope_api_key => "api_key_policy_match" end.

Definition toMatchedRule (s : PolicyRuleScope) (e : ViewRuleEvaluation) : MatchedPolicyRule :=
  let rule := evaluated_rule (evaluation e) in
  mkMatched s (rule_id (rule_base rule)) (kind rule)
    (rule_decision (evaluation e)) (rule_reason (evaluation e)) rule (evaluation_leg e).

(** The loop of [selectStrictestRule]: [selected] is its variable. *)
Definition selectStep (selected : option ViewRuleEvaluation) (e : ViewRuleEvaluation)
    : option ViewRuleEvaluation :=
  match selected with
  | None => Some e
  | Some s =>
      if (DECISION_RANK (rule_decision (evaluation s))
          <? DECISION_RANK (rule_decision (evaluation e)))%Z
      then Some e else selected
  end.

Definition selectStrictestRule (evaluations : list ViewRuleEvaluation)
    : option ViewRuleEvaluation :=
  fold_left selectStep evaluations None.

Definition viewReason (e : ViewRuleEvaluation) : string :=
  match evaluation_leg e with
  | None => rule_reason (evaluation e)
  | Some leg => "Leg " ++ z_text (Z.of_nat leg + 1) ++ ": " ++ rule_reason (evaluation e)
  end.

(** The matched rules of one view. *)
Definition viewEvaluations (rules : list PolicyRule) (hasLegs : bool) (view : CandidateView)
    : list ViewRuleEvaluation :=
  flat_map (fun rule =>
    match evaluatePolicyRule rule (view_candidate view) with
    | None => []
    | Some e => [mkViewRuleEvaluation e (leg view)]
    end) (viewRules rules view hasLegs).

Definition ruleEvaluations (rules : list PolicyRule) (views : list CandidateView)
    : list ViewRuleEvaluation :=
  let hasLegs := existsb (fun view => bool_decide (leg view <> None)) views in
  flat_map (viewEvaluations rules hasLegs) views.

Definition evaluatePolicyScope (s : PolicyRuleScope) (policy : EffectivePolicy)
    (views : list CandidateView) : PolicyScopeEvaluation :=
  match effective_revision policy with
  | None =>
      mkScopeEvaluation s implicit_default_allow None None (effective_defaultAction policy)
        allow (missingPolicyReasonCode s)
        (scopeLabel s ++ " policy is not active; implicit default allow applies.") [] false
  | Some revision =>
      let profileId := profile_id <$> effective_profile policy in
      let evaluations := ruleEvaluations (revision_rules revision) views in
      match selectStrictestRule evaluations with
      | Some selectedRule =>
          let d := rule_decision (evaluation selectedRule) in
          mkScopeEvaluation s (effective_source policy) profileId (Some (revision_id revision))
            (effective_defaultAction policy) d (matchedPolicyReasonCode s)
            (viewReason selectedRule) (map (toMatchedRule s) evaluations) (isApprovalDecision d)
      | None =>
          let d := default_decision (effective_defaultAction policy) in
          mkScopeEvaluation s (effective_source policy) profileId (Some (revision_id revision))
            (effective_defaultAction policy) d (matchedPolicyReasonCode s)
            ("No " ++ scopeLabel s ++ " policy rules matched; default action "
             ++ decision_text d ++ " applies.") [] (isApprovalDecision d)
      end
  end.

Definition resolveApiKeyScopeEvaluation (input : EvaluateCandidatePoliciesInput)
    : option PolicyScopeEvaluation :=
  let views := candidateViews (candidate input) (legs input) in
  match apiKeyPolicy input with
  | Some policy => Some (evaluatePolicyScope scope_api_key policy views)
  | None =>
      match apiKeyId (candidate input) with
      | Some _ => Some (evaluatePolicyScope scope_api_key IMPLICIT_DEFAULT_ALLOW_POLICY views)
      | None => None
      end
  end.

Definition join_texts (sep : string) (l : list string) : string := String.concat sep l.

Definition summarizeScopeDecisions (scopes : list PolicyScopeEvaluation)
    (selected : PolicyScopeEvaluation) : string :=
  if forallb (fun s => bool_decide (scope_source s = implicit_default_allow)) scopes then
    "No active wallet or API key policy exists; implicit default allow applies."
  else
    let decisions := join_texts ", "
      (map (fun s => scopeLabel (scope s) ++ "=" ++ decision_text (scope_decision s)) scopes) in
    scope_reason selected ++ " Combined policy decision: " ++ decisions ++ ".".

(** [scopes.reduce((strictest, scope) => ...)], on [first :: rest]. *)
Definition strictestScope (first : PolicyScopeEvaluation) (rest : list PolicyScopeEvaluation)
    : PolicyScopeEvaluation :=
  fold_left (fun strictest s =>
    if (DECISION_RANK (scope_decision strictest) <? DECISION_RANK (scope_decision s))%Z
    then s else strictest) rest first.

Definition evaluateCandidatePolicies (input : EvaluateCandidatePoliciesInput)
    : CandidatePolicyEvaluation :=
  let wallet := evaluatePolicyScope scope_wallet (walletPolicy input)
                  (candidateViews (candidate input) (legs input)) in
  let apiKey := resolveApiKeyScopeEvaluation input in
  let others := match apiKey with None => [] | Some a => [a] end in
  let scopes := wallet :: others in
  let selected := strictestScope wallet others in
  let allScopesUseImplicitAllow :=
    forallb (fun s => bool_decide (scope_source s = implicit_default_allow)
                      && bool_decide (scope_decision s = allow)) scopes in
  mkEvaluation wallet apiKey (scope_decision selected)
    (if allScopesUseImplicitAllow then "implicit_default_allow" else scope_reasonCode selected)
    (summarizeScopeDecisions scopes selected)
    (flat_map scope_matchedRules scopes)
    (isApprovalDecision (scope_decision selected))
    (revisionId wallet)
    (match apiKey with None => None | Some a => revisionId a end).

Definition describeCriterion (s : PolicyRuleScope) (view : CandidateView) (rule : PolicyRule)
    : PolicyDryRunCriterion :=
  let e := evaluatePolicyRule rule (view_candidate view) in
  mkCriterion s (rule_id (rule_base rule)) (kind rule) (rule_name (rule_base rule))
    (bool_decide (is_Some e)) (rule_decision <$> e) (rule_reason <$> e) (leg view).

Definition describeCandidateRuleCriteria (s : PolicyRuleScope) (policy : EffectivePolicy)
    (candidate : PolicyCandidate) (legs : list PolicyCandidate) : list PolicyDryRunCriterion :=
  match effective_revision policy with
  | None => []
  | Some revision =>
      flat_map (fun view =>
        map (describeCriterion s view)
          (viewRules (revision_rules revision) view (Nat.ltb 0 (length legs))))
        (candidateViews candidate legs)
  end.

Definition createPolicyContext (s : PolicyScopeEvaluation) : PolicyEvaluationPolicyContext :=
  mkPolicyContext (scope_source s) (profileId s) (revisionId s) (scope_defaultAction s)
    (scope_decision s) (scope_requiresApproval s).

Definition createPolicyEvaluationContext (operation : WalletOperationEnvelope)
    (wallet : PolicyScopeEvaluation) (apiKey : option PolicyScopeEvaluation)
    : PolicyEvaluationContext :=
  mkContext
    (mkSnapshot (envelope_candidate operation) (envelope_id operation) (rawPayload operation)
       (idempotencyKey operation) (createdAt operation))
    (createPolicyContext wallet)
    (createPolicyContext <$> apiKey).

(** [WalletOperationPolicyEvaluation] *)
Record WalletOperationPolicyEvaluation := mkOperationEvaluation {
  operation_evaluation : CandidatePolicyEvaluation;
  evaluated_operation : WalletOperationEnvelope;
  evaluationContext : PolicyEvaluationContext;
}.

Definition evaluateWalletOperationPolicies (operation : WalletOperationEnvelope)
    (legs : list PolicyCandidate) (walletPolicy : EffectivePolicy)
    (apiKeyPolicy : option EffectivePolicy) : WalletOperationPolicyEvaluation :=
  let e := evaluateCandidatePolicies
    (mkInput (envelope_candidate operation) legs walletPolicy apiKeyPolicy) in
  mkOperationEvaluation e operation
    (createPolicyEvaluationContext operation (wallet e) (apiKey e)).

(** ** Specification

    A rule of a revision matches an operation with decision [d]: on the operation
    itself or on one of its legs, except that a destination rule only speaks of
    the legs when there are any. *)
Definition applies_to (legs : list PolicyCandidate) (rule : PolicyRule) (view : CandidateView)
    : bool :=
  negb (bool_decide (legs <> []) && bool_decide (leg view = None)
        && bool_decide (kind rule = kind_destination)).

Definition rule_matches (rules : list PolicyRule) (candidate : PolicyCandidate)
    (legs : list PolicyCandidate) (d : PolicyDecision) : Prop :=
  exists view rule e,
    view ∈ candidateViews candidate legs /\ rule ∈ rules /\ applies_to legs rule view = true
    /\ evaluatePolicyRule rule (view_candidate view) = Some e /\ rule_decision e = d.

(** The strictest of a set of decisions. *)
Definition is_strictest (d : PolicyDecision) (ds : PolicyDecision -> Prop) : Prop :=
  ds d /\ forall d', ds d' -> (DECISION_RANK d' <= DECISION_RANK d)%Z.

(** What a scope promises: the strictest match, the default action when nothing
    matches, and allow when no revision is active. *)
Definition scope_promise (policy : EffectivePolicy) (candidate : PolicyCandidate)
    (legs : list PolicyCandidate) (d : PolicyDecision) : Prop :=
  match effective_revision policy with
  | None => d = allow
  | Some revision =>
      let matched := rule_matches (revision_rules revision) candidate legs in
      is_strictest d matched
      \/ ((forall d', ~ matched d') /\ d = default_decision (effective_defaultAction policy))
  end.

(** The same policy with its rules in another order. *)
Definition same_rules (p q : EffectivePolicy) : Prop :=
  effective_defaultAction p = effective_defaultAction q /\
  match effective_revision p, effective_revision q with
  | None, None => True
  | Some r, Some r' => Permutation (revision_rules r) (revision_rules r')
  | _, _ => False
  end.

Definition with_destination (d : option string) (c : PolicyCandidate) : PolicyCandidate :=
  mkCandidate (organizationId c) (projectId c) (custodyWalletId c) (walletId c) (apiKeyId c)
    (actor c) (source c) (operationFamily c) (operationType c) (op_asset c) (op_amount c) d
    (context c) (providerExtensions c).

(** What a dry-run criterion and a matched rule both say. *)
Definition criterion_summary (c : PolicyDryRunCriterion)
    : option string * rule_kind * option PolicyDecision * option string * option nat :=
  (criterion_ruleId c, criterion_kind c, criterion_action c, criterion_reason c, criterion_leg c).
Definition matched_summary (m : MatchedPolicyRule)
    : option string * rule_kind * option PolicyDecision * option string * option nat :=
  (matched_ruleId m, matched_kind m, Some (matched_decision m), Some (matched_reason m),
   matched_leg m).

(** The API-key policy that applies: a key without one is implicitly allowed. *)
Definition apiKey_policy_in_force (input : EvaluateCandidatePoliciesInput) : option EffectivePolicy :=
  match apiKeyPolicy input, apiKeyId (candidate input) with
  | Some p, _ => Some p
  | None, Some _ => Some IMPLICIT_DEFAULT_ALLOW_POLICY
  | None, None => None
  end.

(** ** Concrete policies for the witnesses *)

Definition sample_policy (rules : list PolicyRule) : EffectivePolicy :=
  mkEffective customer_profile (Some (mkProfile "wcp_1" (Some "rev_1")))
    (Some (mkRevision "rev_1" 1 rules default_deny)) default_deny.

Definition deny_blocked : PolicyRule :=
  DestinationPolicyRule (plain_rule None) None (Some ["mule"]) None None.

Definition allow_everything : PolicyRule := AlwaysPolicyRule (plain_rule None).

Definition batch_input : EvaluateCandidatePoliciesInput :=
  mkInput (sample_operation (Some "USDC") (Some "30") None)
    [sample_operation (Some "USDC") (Some "10") (Some "alice");
     sample_operation (Some "USDC") (Some "20") (Some "mule")]
    (sample_policy [allow_everything; deny_blocked]) None.

(** * Theorems *)

Abbreviation rank e := (DECISION_RANK (rule_decision (evaluation e))).

Lemma selectStep_fold evaluations acc :
  match fold_left selectStep evaluations (Some acc) with
  | Some s => (s = acc \/ s ∈ evaluations) /\ (rank acc <= rank s)%Z
              /\ forall e, e ∈ evaluations -> (rank e <= rank s)%Z
  | None => False
  end.
Proof.
  revert acc. induction evaluations as [|e l IH]; intros acc; simpl.
  - split_and!; [by left|lia|set_solver].
  - destruct (Z.ltb_spec (rank acc) (rank e)).
    + specialize (IH e). destruct (fold_left selectStep l (Some e)) as [s|]; [|done].
      destruct IH as (Hin & Hle & Hall). split_and!; [set_solver|lia|].
      intros x Hx. apply elem_of_cons in Hx as [->|Hx]; [lia|auto].
    + specialize (IH acc). destruct (fold_left selectStep l (Some acc)) as [s|]; [|done].
      destruct IH as (Hin & Hle & Hall). split_and!; [set_solver|lia|].
      intros x Hx. apply elem_of_cons in Hx as [->|Hx]; [lia|auto].
Qed.

(** The selected evaluation is one of them and none is stricter. *)
Lemma selectStrictestRule_spec evaluations :
  match selectStrictestRule evaluations with
  | None => evaluations = []
  | Some s => s ∈ evaluations /\ forall e, e ∈ evaluations -> (rank e <= rank s)%Z
  end.
Proof.
  unfold selectStrictestRule. destruct evaluations as [|e l]; [done|]. simpl.
  pose proof (selectStep_fold l e) as H.
  destruct (fold_left selectStep l (Some e)) as [s|]; [|done].
  destruct H as (Hin & Hle & Hall). split; [set_solver|].
  intros x Hx. apply elem_of_cons in Hx as [->|Hx]; auto.
Qed.

Lemma hasLegs_views candidate legs :
  existsb (fun view => bool_decide (leg view <> None)) (candidateViews candidate legs)
  = bool_decide (legs <> []).
Proof. destruct legs as [|l legs]; [done|]. reflexivity. Qed.

Lemma ltb_legs (legs : list PolicyCandidate) :
  Nat.ltb 0 (length legs) = bool_decide (legs <> []).
Proof. by destruct legs. Qed.

Lemma viewRules_elem rules view legs rule :
  rule ∈ viewRules rules view (bool_decide (legs <> []))
  <-> rule ∈ rules /\ applies_to legs rule view = true.
Proof.
  unfold viewRules, applies_to.
  destruct (bool_decide (legs <> [])); simpl; [|naive_solver].
  destruct (leg view) as [n|]; simpl.
  - naive_solver.
  - rewrite !list_elem_of_In, List.filter_In. done.
Qed.

Lemma viewEvaluations_elem rules hasLegs view v :
  v ∈ viewEvaluations rules hasLegs view <->
  exists rule e, rule ∈ viewRules rules view hasLegs
    /\ evaluatePolicyRule rule (view_candidate view) = Some e
    /\ v = mkViewRuleEvaluation e (leg view).
Proof.
  unfold viewEvaluations. rewrite list_elem_of_In, in_flat_map. split.
  - intros (rule & Hr & Hv). destruct (evaluatePolicyRule rule _) as [e|] eqn:E; [|done].
    destruct Hv as [<-|[]]. exists rule, e. by rewrite list_elem_of_In.
  - intros (rule & e & Hr & He & ->). exists rule. rewrite list_elem_of_In in Hr.
    split; [done|]. rewrite He. by left.
Qed.

Lemma ruleEvaluations_matches rules candidate legs d :
  (exists v, v ∈ ruleEvaluations rules (candidateViews candidate legs)
             /\ rule_decision (evaluation v) = d)
  <-> rule_matches rules candidate legs d.
Proof.
  unfold ruleEvaluations. rewrite hasLegs_views. split.
  - intros (v & Hv & Hd). apply list_elem_of_In, in_flat_map in Hv as (view & Hview & Hv).
    apply list_elem_of_In, viewEvaluations_elem in Hv as (rule & e & Hr & He & ->).
    apply viewRules_elem in Hr as [Hr Ha]. exists view, rule, e.
    by rewrite list_elem_of_In.
  - intros (view & rule & e & Hview & Hr & Ha & He & Hd).
    exists (mkViewRuleEvaluation e (leg view)). split; [|done].
    apply list_elem_of_In, in_flat_map. exists view. rewrite <- list_elem_of_In.
    split; [done|]. apply list_elem_of_In, viewEvaluations_elem.
    exists rule, e. by rewrite viewRules_elem.
Qed.

Lemma evaluatePolicyScope_promise s policy candidate legs :
  scope_promise policy candidate legs
    (scope_decision (evaluatePolicyScope s policy (candidateViews candidate legs))).
Proof.
  unfold scope_promise, evaluatePolicyScope.
  destruct (effective_revision policy) as [revision|]; [|done].
  pose proof (selectStrictestRule_spec
    (ruleEvaluations (revision_rules revision) (candidateViews candidate legs))) as H.
  destruct (selectStrictestRule _) as [v|]; simpl.
  - destruct H as [Hin Hmax]. left. split.
    + apply ruleEvaluations_matches. eauto.
    + intros d' (v' & Hv' & <-)%ruleEvaluations_matches. by apply Hmax.
  - right. split; [|done]. intros d' (v' & Hv' & _)%ruleEvaluations_matches.
    rewrite H in Hv'. set_solver.
Qed.

(** The promise determines the decision. *)
Lemma is_strictest_unique ds d d' : is_strictest d ds -> is_strictest d' ds -> d = d'.
Proof.
  intros [H1 H2] [H3 H4]. apply DECISION_RANK_inj.
  specialize (H2 _ H3). specialize (H4 _ H1). lia.
Qed.

Lemma scope_promise_unique policy candidate legs d d' :
  scope_promise policy candidate legs d -> scope_promise policy candidate legs d' -> d = d'.
Proof.
  unfold scope_promise. destruct (effective_revision policy); [|congruence].
  intros [H|[Hn ->]] [H'|[Hn' ->]]; [by eapply is_strictest_unique| | |done].
  - destruct H as [H _]. by destruct (Hn' _ H).
  - destruct H' as [H' _]. by destruct (Hn _ H').
Qed.

Lemma rule_matches_permutation rules rules' candidate legs d :
  Permutation rules rules' ->
  rule_matches rules candidate legs d -> rule_matches rules' candidate legs d.
Proof.
  intros HP (view & rule & e & Hv & Hr & H). exists view, rule, e.
  split; [done|]. split; [|done]. by rewrite <- HP.
Qed.

Lemma scope_promise_same_rules p q candidate legs d :
  same_rules p q -> scope_promise p candidate legs d -> scope_promise q candidate legs d.
Proof.
  unfold same_rules, scope_promise. intros [Hd H].
  destruct (effective_revision p) as [r|], (effective_revision q) as [r'|]; try done.
  pose proof (fun d => rule_matches_permutation _ _ candidate legs d H) as H1.
  pose proof (fun d => rule_matches_permutation _ _ candidate legs d (Permutation_sym H)) as H2.
  intros [[Hm Hmax]|[Hn ->]]; [left; split; auto|right; split; [|by rewrite Hd]].
  intros d' ?. by apply (Hn d'), H2.
Qed.

Lemma resolveApiKeyScopeEvaluation_spec input :
  resolveApiKeyScopeEvaluation input
  = (fun p => evaluatePolicyScope scope_api_key p (candidateViews (candidate input) (legs input)))
      <$> apiKey_policy_in_force input.
Proof.
  unfold resolveApiKeyScopeEvaluation, apiKey_policy_in_force.
  destruct (apiKeyPolicy input); [done|]. by destruct (apiKeyId (candidate input)).
Qed.

Lemma evaluateCandidatePolicies_rank input :
  let e := evaluateCandidatePolicies input in
  DECISION_RANK (decision e) =
  Z.max (DECISION_RANK (scope_decision (wallet e)))
        (match apiKey e with Some a => DECISION_RANK (scope_decision a) | None => 0%Z end).
Proof.
  unfold evaluateCandidatePolicies. simpl.
  set (w := evaluatePolicyScope _ _ _). pose proof (DECISION_RANK_bounds (scope_decision w)).
  destruct (resolveApiKeyScopeEvaluation input) as [a|]; simpl; [|lia].
  destruct (Z.ltb_spec (DECISION_RANK (scope_decision w)) (DECISION_RANK (scope_decision a))); lia.
Qed.

Lemma deny_is_top d : (5 <= DECISION_RANK d)%Z -> d = deny.
Proof. destruct d; simpl; lia || done. Qed.

(** A matching deny rule makes its scope deny. *)
Lemma scope_promise_deny policy revision candidate legs d :
  effective_revision policy = Some revision ->
  rule_matches (revision_rules revision) candidate legs deny ->
  scope_promise policy candidate legs d -> d = deny.
Proof.
  unfold scope_promise. intros -> Hm [[_ Hmax]|[Hn _]]; [|by destruct (Hn _ Hm)].
  apply deny_is_top. apply (Hmax _ Hm).
Qed.

(** Only destination rules read the destination. *)
Lemma evaluatePolicyRule_destination rule d c :
  kind rule <> kind_destination ->
  evaluatePolicyRule rule (with_destination d c) = evaluatePolicyRule rule c.
Proof. destruct rule; simpl; intros H; done. Qed.

Lemma flat_map_ext_elem {A B} (f g : A -> list B) l :
  (forall x, x ∈ l -> f x = g x) -> flat_map f l = flat_map g l.
Proof.
  induction l as [|x l IH]; intros H; simpl; [done|].
  rewrite H by by left. f_equal. apply IH. intros y Hy. apply H. by right.
Qed.

Lemma ruleEvaluations_destination rules d c l ls :
  ruleEvaluations rules (candidateViews (with_destination d c) (l :: ls))
  = ruleEvaluations rules (candidateViews c (l :: ls)).
Proof.
  unfold ruleEvaluations. rewrite !hasLegs_views. unfold candidateViews. simpl.
  f_equal. apply flat_map_ext_elem. intros rule Hr. simpl in *.
  apply list_elem_of_In, List.filter_In in Hr as [_ Hk].
  apply negb_true_iff, bool_decide_eq_false in Hk. by rewrite evaluatePolicyRule_destination.
Qed.

Lemma evaluatePolicyScope_destination s p d c l ls :
  evaluatePolicyScope s p (candidateViews (with_destination d c) (l :: ls))
  = evaluatePolicyScope s p (candidateViews c (l :: ls)).
Proof.
  unfold evaluatePolicyScope. destruct (effective_revision p); [|done].
  by rewrite ruleEvaluations_destination.
Qed.

Lemma criteria_view s rules hasLegs view :
  map criterion_summary
    (List.filter criterion_matched (map (describeCriterion s view) (viewRules rules view hasLegs)))
  = map matched_summary (map (toMatchedRule s) (viewEvaluations rules hasLegs view)).
Proof.
  unfold viewEvaluations. induction (viewRules rules view hasLegs) as [|rule l IH]; [done|].
  simpl. destruct (evaluatePolicyRule rule (view_candidate view)) as [e|] eqn:E; simpl.
  - rewrite IH. f_equal. unfold criterion_summary, matched_summary, toMatchedRule. simpl.
    rewrite E. simpl. by rewrite (evaluated_rule_same rule _ e E).
  - done.
Qed.

Lemma flat_map_filter_map {A B C} (p : B -> bool) (g : B -> C) (f : A -> list B) l :
  map g (List.filter p (flat_map f l)) = flat_map (fun x => map g (List.filter p (f x))) l.
Proof. induction l as [|x l IH]; [done|]. simpl. by rewrite List.filter_app, map_app, IH. Qed.

Lemma map_flat_map {A B C} (g : B -> C) (f : A -> list B) l :
  map g (flat_map f l) = flat_map (fun x => map g (f x)) l.
Proof. induction l as [|x l IH]; [done|]. simpl. by rewrite map_app, IH. Qed.

Lemma evaluateCandidatePolicies_apiKey input :
  apiKey (evaluateCandidatePolicies input)
  = (fun p => evaluatePolicyScope scope_api_key p (candidateViews (candidate input) (legs input)))
      <$> apiKey_policy_in_force input.
Proof. apply resolveApiKeyScopeEvaluation_spec. Qed.

(** C2. The engine implements its specification: the wallet scope, and the
    API-key scope when a key made the operation, each decide the strictest match
    among their rules (their default action when nothing matches, allow when no
    revision is active), and the operation's decision is the stricter of the two:
    an API-key policy can narrow what the wallet policy allows and never widen it. *)
Theorem evaluateCandidatePolicies_refines input :
  let e := evaluateCandidatePolicies input in
  scope_promise (walletPolicy input) (candidate input) (legs input) (scope_decision (wallet e))
  /\ match apiKey_policy_in_force input with
     | Some p => exists a, apiKey e = Some a
         /\ scope_promise p (candidate input) (legs input) (scope_decision a)
         /\ DECISION_RANK (decision e)
            = Z.max (DECISION_RANK (scope_decision (wallet e))) (DECISION_RANK (scope_decision a))
     | None => apiKey e = None /\ decision e = scope_decision (wallet e)
     end
  /\ requiresApproval e = isApprovalDecision (decision e).
Proof.
  intros e. split; [apply evaluatePolicyScope_promise|]. split; [|done].
  pose proof (evaluateCandidatePolicies_apiKey input) as Ha. fold e in Ha.
  pose proof (evaluateCandidatePolicies_rank input) as Hr. cbv zeta in Hr. fold e in Hr.
  destruct (apiKey_policy_in_force input) as [p|]; rewrite Ha in Hr;
    cbn [fmap option_fmap option_map] in Hr.
  - eexists. split; [exact Ha|]. split; [apply evaluatePolicyScope_promise|exact Hr].
  - split; [done|]. apply DECISION_RANK_inj.
    pose proof (DECISION_RANK_bounds (scope_decision (wallet e))). lia.
Qed.

(** A deny rule of either scope that matches the operation, or any one of
    its legs, denies the operation, whatever the other rules and scope say. *)
Theorem matching_deny_denies input p revision
  (Hscope : p = walletPolicy input \/ apiKey_policy_in_force input = Some p)
  (Hrevision : effective_revision p = Some revision)
  (Hdeny : rule_matches (revision_rules revision) (candidate input) (legs input) deny) :
  decision (evaluateCandidatePolicies input) = deny.
Proof.
  apply deny_is_top. rewrite evaluateCandidatePolicies_rank, evaluateCandidatePolicies_apiKey.
  assert (H : forall s, scope_decision
    (evaluatePolicyScope s p (candidateViews (candidate input) (legs input))) = deny).
  { intros s. eapply scope_promise_deny; eauto using evaluatePolicyScope_promise. }
  destruct Hscope as [->| ->]; simpl; rewrite H; simpl; lia.
Qed.

(** The decision does not depend on the order of a revision's rules, in
    either scope. *)
Theorem decision_order_independent input w' a'
  (Hwallet : same_rules (walletPolicy input) w')
  (Hkey : match apiKeyPolicy input, a' with
          | Some p, Some q => same_rules p q
          | None, None => True
          | _, _ => False
          end) :
  decision (evaluateCandidatePolicies (mkInput (candidate input) (legs input) w' a'))
  = decision (evaluateCandidatePolicies input).
Proof.
  assert (H : forall s p q, same_rules p q ->
    scope_decision (evaluatePolicyScope s q (candidateViews (candidate input) (legs input)))
    = scope_decision (evaluatePolicyScope s p (candidateViews (candidate input) (legs input)))).
  { intros s p q Hs. eapply scope_promise_unique; [apply evaluatePolicyScope_promise|].
    eapply scope_promise_same_rules, evaluatePolicyScope_promise. exact Hs. }
  apply DECISION_RANK_inj. rewrite !evaluateCandidatePolicies_rank.
  rewrite !evaluateCandidatePolicies_apiKey. simpl. rewrite (H scope_wallet _ _ Hwallet).
  unfold apiKey_policy_in_force. simpl.
  destruct (apiKeyPolicy input) as [p|], a' as [q|]; try done; simpl.
  by rewrite (H scope_api_key _ _ Hkey).
Qed.

(** When the operation has legs its own destination plays no part: the
    whole evaluation is the same whatever the aggregate candidate names, since
    destination rules decide on the legs. *)
Theorem aggregate_destination_irrelevant input d l ls (Hlegs : legs input = l :: ls) :
  evaluateCandidatePolicies
    (mkInput (with_destination d (candidate input)) (legs input) (walletPolicy input)
       (apiKeyPolicy input))
  = evaluateCandidatePolicies input.
Proof.
  destruct input as [c ls' w a]. simpl in *. subst.
  unfold evaluateCandidatePolicies, resolveApiKeyScopeEvaluation. simpl.
  rewrite evaluatePolicyScope_destination.
  destruct a; [by rewrite evaluatePolicyScope_destination|].
  destruct (apiKeyId c); [by rewrite evaluatePolicyScope_destination|done].
Qed.

(** The dry run and the enforcement agree: the criteria reported as matched
    are, in order and in number, the matched rules the evaluation of the scope
    records (rule, kind, decision, reason and leg). *)
Theorem dry_run_agrees s policy candidate legs :
  map criterion_summary
    (List.filter criterion_matched (describeCandidateRuleCriteria s policy candidate legs))
  = map matched_summary
      (scope_matchedRules (evaluatePolicyScope s policy (candidateViews candidate legs))).
Proof.
  unfold describeCandidateRuleCriteria, evaluatePolicyScope.
  destruct (effective_revision policy) as [revision|]; [|done].
  rewrite flat_map_filter_map, ltb_legs.
  pose proof (selectStrictestRule_spec
    (ruleEvaluations (revision_rules revision) (candidateViews candidate legs))) as H.
  transitivity (map matched_summary (map (toMatchedRule s)
    (ruleEvaluations (revision_rules revision) (candidateViews candidate legs)))).
  - unfold ruleEvaluations. rewrite hasLegs_views, !map_flat_map.
    apply flat_map_ext. intros view. by rewrite criteria_view.
  - destruct (selectStrictestRule _) as [v|]; [done|]. by rewrite H.
Qed.

Lemma matching_deny_denies_witness :
  decision (evaluateCandidatePolicies batch_input) = deny.
Proof.
  refine (matching_deny_denies batch_input (walletPolicy batch_input)
    (mkRevision "rev_1" 1 [allow_everything; deny_blocked] default_deny) _ _ _).
  - left. reflexivity.
  - reflexivity.
  - exists (mkView (sample_operation (Some "USDC") (Some "20") (Some "mule")) (Some 1%nat)),
      deny_blocked.
    eexists. split; [|split; [|split; [|split]]].
    + right. right. left.
    + right. left.
    + reflexivity.
    + reflexivity.
    + reflexivity.
Defined.

Lemma decision_order_independent_witness :
  decision (evaluateCandidatePolicies
    (mkInput (candidate batch_input) (legs batch_input)
       (sample_policy [deny_blocked; allow_everything]) None))
  = decision (evaluateCandidatePolicies batch_input).
Proof.
  refine (decision_order_independent batch_input
    (sample_policy [deny_blocked; allow_everything]) None _ _).
  - split; [reflexivity|]. simpl. apply perm_swap.
  - exact I.
Defined.

Lemma aggregate_destination_irrelevant_witness :
  evaluateCandidatePolicies
    (mkInput (with_destination (Some "mule") (candidate batch_input)) (legs batch_input)
       (walletPolicy batch_input) (apiKeyPolicy batch_input))
  = evaluateCandidatePolicies batch_input.
Proof.
  exact (aggregate_destination_irrelevant batch_input (Some "mule") _ _ eq_refl).
Defined.
