(* ===== verification/PolicyEnforce.v ===== *)
(** * Wallet-operation policies: enforcement

    [packages/sdp-policy/src/enforce.ts] over the [PolicyEnforcementStore] of
    [packages/sdp-policy/src/ports.ts]. The store is an interface the package
    does not implement: its methods are calls, each answered or refused by the
    environment, and the theorems hold for every answer. *)
From Stdlib Require Import Ascii String ZArith Lia.
From stdpp Require Import base list strings sets.
From S2P Require Import Prelude Text PolicyTypes PolicyRules PolicyEvaluate.

Local Open Scope string_scope.
Local Open Scope sdp_scope.

Record CreateWalletOperationInput := mkCreateOperation {
  create_candidate : PolicyCandidate;
  create_legs : list PolicyCandidate;
  create_rawPayload : json_record;
  create_idempotencyKey : option string;
  create_status : option WalletOperationStatus;
}.

Record EffectiveOperationPolicies := mkOperationPolicies {
  op_walletPolicy : EffectivePolicy;
  op_apiKeyPolicy : option EffectivePolicy;
}.

Record CreateApprovalRequestInput := mkApprovalInput {
  approval_organizationId : string;
  approval_projectId : option string;
  approval_walletOperationId : string;
  approval_approvalGroupId : option string;
  approval_provider : option string;
  approval_providerReference : option string;
  approval_providerPayload : json_record;
  approval_requestedBy : option string;
}.

Record RecordPolicyEvaluationInput := mkRecordInput {
  record_walletOperationId : string;
  record_walletPolicyRevisionId : option string;
  record_apiKeyPolicyRevisionId : option string;
  record_decision : PolicyDecision;
  record_reasonCode : string;
  record_reason : string;
  record_matchedRules : list MatchedPolicyRule;
  record_evaluationContext : PolicyEvaluationContext;
  record_requiresApproval : bool;
  record_approvalRequestId : option string;
}.

(** [PolicyEvaluation], the stored row. *)
Record PolicyEvaluation := mkPolicyEvaluation {
  row_id : string;
  row_input : RecordPolicyEvaluationInput;
  row_createdAt : string;
}.

(** The methods of [PolicyEnforcementStore]. *)
Inductive store_call : Type :=
| createWalletOperation (input : CreateWalletOperationInput)
| loadEffectivePolicies (operation : WalletOperationEnvelope)
| createApprovalRequest (input : CreateApprovalRequestInput)
| recordPolicyEvaluation (input : RecordPolicyEvaluationInput)
| updateWalletOperationStatus (walletOperationId : string) (status : WalletOperationStatus)
| failApprovalRequest (operation : WalletOperationEnvelope) (approvalRequestId : string).

Definition store_response (c : store_call) : Type :=
  match c with
  | createWalletOperation _ => WalletOperationEnvelope
  | loadEffectivePolicies _ => EffectiveOperationPolicies
  | createApprovalRequest _ => string * ApprovalRequestStatus
  | recordPolicyEvaluation _ => PolicyEvaluation
  | updateWalletOperationStatus _ _ => WalletOperationStatus * string
  | failApprovalRequest _ _ => unit
  end.

Abbreviation store_event := (event store_response).
Abbreviation store_prog := (prog store_response).

Definition store (c : store_call) : store_prog (store_response c) := call c.

(** [record[key]] of a JSON object. *)
Fixpoint field (key : string) (r : json_record) : option json :=
  match r with
  | [] => None
  | (k, v) :: rest => if String.eqb k key then Some v else field key rest
  end.

Definition stringValue (value : option json) : option string :=
  match value with
  | Some (JString s) => if Nat.ltb 0 (String.length s) then Some s else None
  | _ => None
  end.

Fixpoint firstStringValue (values : list (option json)) : option string :=
  match values with
  | [] => None
  | v :: rest =>
      match stringValue v with Some s => Some s | None => firstStringValue rest end
  end.

Fixpoint getApprovalGroupId (rules : list MatchedPolicyRule) : option string :=
  match rules with
  | [] => None
  | m :: rest =>
      match matched_rule m with
      | ApprovalPolicyRule _ _ _ _ (Some group) => Some group
      | _ => getApprovalGroupId rest
      end
  end.

Definition createApprovalRequestInput (operation : WalletOperationEnvelope)
    (e : WalletOperationPolicyEvaluation) : CreateApprovalRequestInput :=
  let c := envelope_candidate operation in
  let ext := providerExtensions c in
  mkApprovalInput (organizationId c) (projectId c) (envelope_id operation)
    (getApprovalGroupId (matchedRules (operation_evaluation e)))
    (stringValue (field "provider" ext))
    (firstStringValue [field "providerReference" ext; field "approvalId" ext;
                       field "approvalRequestId" ext])
    ext
    (match actor c with
     | None => None
     | Some a => stringValue (JString <$> actor_id a)
     end).

(** [{...createPolicyEvaluationInput(result), approvalRequestId}] *)
Definition createPolicyEvaluationInput (result : WalletOperationPolicyEvaluation)
    (approvalRequestId : option string) : RecordPolicyEvaluationInput :=
  let e := operation_evaluation result in
  mkRecordInput (envelope_id (evaluated_operation result)) (walletPolicyRevisionId e)
    (apiKeyPolicyRevisionId e) (decision e) (reasonCode e) (reason e) (matchedRules e)
    (evaluationContext result) (requiresApproval e) approvalRequestId.

Definition compensateEnforcementFailure (operation : WalletOperationEnvelope)
    (approvalRequestId : option string) (error : jserr) : store_prog unit :=
  catch
    match approvalRequestId with
    | Some id => store (failApprovalRequest operation id)
    | None =>
        let! _ := store (updateWalletOperationStatus (envelope_id operation) status_failed) in
        Ret tt
    end
    (fun cleanupError =>
       Throw (AggregateError [error; cleanupError]
         ("Wallet operation policy enforcement failed (" ++ error_message error
          ++ ") and cleanup failed (" ++ error_message cleanupError ++ ")"))).

(** [catch (error) { await compensate(...); throw error; }] *)
Definition compensated {A} (operation : WalletOperationEnvelope)
    (approvalRequestId : option string) (body : store_prog A) : store_prog A :=
  catch body (fun error =>
    let! _ := compensateEnforcementFailure operation approvalRequestId error in Throw error).

(** The [try] block up to the assignment of [approvalRequestId]. *)
Definition evaluateAndRequest (input : CreateWalletOperationInput)
    (operation : WalletOperationEnvelope)
    : store_prog (WalletOperationPolicyEvaluation * WalletOperationStatus * option string) :=
  let! policies := store (loadEffectivePolicies operation) in
  let result := evaluateWalletOperationPolicies operation (create_legs input)
                  (op_walletPolicy policies) (op_apiKeyPolicy policies) in
  let status := walletOperationStatusForDecision (decision (operation_evaluation result)) in
  if bool_decide (status = status_pending_approval) then
    let! approvalRequest :=
      store (createApprovalRequest (createApprovalRequestInput operation result)) in
    if negb (bool_decide (approvalRequest.2 = request_pending)) then
      Throw (PlainError "Wallet operation approval request is no longer pending")
    else Ret (result, status, Some approvalRequest.1)
  else Ret (result, status, None).

(** The rest of the [try] block. *)
Definition recordAndUpdate (operation : WalletOperationEnvelope)
    (result : WalletOperationPolicyEvaluation) (status : WalletOperationStatus)
    (approvalRequestId : option string)
    : store_prog (WalletOperationEnvelope * PolicyEvaluation) :=
  let! evaluation :=
    store (recordPolicyEvaluation (createPolicyEvaluationInput result approvalRequestId)) in
  let! updated := store (updateWalletOperationStatus (envelope_id operation) status) in
  Ret (mkEnvelope (envelope_candidate operation) (envelope_id operation) (rawPayload operation)
         (idempotencyKey operation) updated.1 (createdAt operation) updated.2, evaluation).

(** The handler catches what either half of the [try] block throws; it sees
    [approvalRequestId] as assigned when the throw happens. *)
Definition enforceWalletOperationPolicy (input : CreateWalletOperationInput)
    : store_prog (WalletOperationEnvelope * PolicyEvaluation) :=
  let! operation := store (createWalletOperation
    (mkCreateOperation (create_candidate input) (create_legs input) (create_rawPayload input)
       (create_idempotencyKey input)
       (Some (default status_created (create_status input))))) in
  let! (result, status, approvalRequestId) :=
    compensated operation None (evaluateAndRequest input operation) in
  compensated operation approvalRequestId
    (recordAndUpdate operation result status approvalRequestId).

(** * What enforcement promises *)

Definition enforced_result (input : CreateWalletOperationInput)
    (operation : WalletOperationEnvelope) (policies : EffectiveOperationPolicies)
    : WalletOperationPolicyEvaluation :=
  evaluateWalletOperationPolicies operation (create_legs input)
    (op_walletPolicy policies) (op_apiKeyPolicy policies).

Definition enforced_status (result : WalletOperationPolicyEvaluation) : WalletOperationStatus :=
  walletOperationStatusForDecision (decision (operation_evaluation result)).

(** A method of the store together with its answer. *)
Definition answered (c : store_call) (r : result (store_response c)) : store_event := Ev c r.

(** What the flow has written when the evaluation is recorded. *)
Definition written_before (input : CreateWalletOperationInput)
    (operation : WalletOperationEnvelope) (policies : EffectiveOperationPolicies)
    (approvalRequestId : option string) : list store_event :=
  [answered (createWalletOperation
      (mkCreateOperation (create_candidate input) (create_legs input)
         (create_rawPayload input) (create_idempotencyKey input)
         (Some (default status_created (create_status input))))) (Ok operation);
   answered (loadEffectivePolicies operation) (Ok policies)]
  ++ match approvalRequestId with
     | Some id =>
         [answered (createApprovalRequest (createApprovalRequestInput operation
             (enforced_result input operation policies)))
            (Ok (id, request_pending))]
     | None => []
     end.

(** The error the compensation handler sees: what the last call threw, or the
    flow's own refusal of an approval request that is no longer pending. *)
Definition failure_of (e : store_event) : jserr :=
  match ev_resp e with
  | Err err => err
  | Ok _ => PlainError "Wallet operation approval request is no longer pending"
  end.

Definition is_pending_request (e : store_event) : option string :=
  match e with
  | Ev (createApprovalRequest _) (Ok (id, request_pending)) => Some id
  | _ => None
  end.

(** The approval request a trace left pending. *)
Fixpoint pending_request (tr : list store_event) : option string :=
  match tr with
  | [] => None
  | e :: rest =>
      match is_pending_request e with Some id => Some id | None => pending_request rest end
  end.

Definition cleanup_call (operation : WalletOperationEnvelope) (approval : option string)
    : store_call :=
  match approval with
  | Some id => failApprovalRequest operation id
  | None => updateWalletOperationStatus (envelope_id operation) status_failed
  end.

(** The cleanup's answer decides which error leaves the flow. *)
Definition compensated_error {A} (original : jserr) (answer : result A) : jserr :=
  match answer with
  | Ok _ => original
  | Err cleanup =>
      AggregateError [original; cleanup]
        ("Wallet operation policy enforcement failed (" ++ error_message original
         ++ ") and cleanup failed (" ++ error_message cleanup ++ ")")
  end.

(** Either the operation was never written, or one cleanup call ends the run. *)
Definition compensated_failure (tr : list store_event) (e : jserr) : Prop :=
  (exists c, tr = [Ev c (Err e)])
  \/ exists operation c0 body answer,
       head body = Some (answered (createWalletOperation c0) (Ok operation))
       /\ (tr = body ++ [answered (cleanup_call operation (pending_request body)) answer])%list
       /\ exists failing, last body = Some failing
          /\ e = compensated_error (failure_of failing) answer.

Definition records_decision (d : PolicyDecision) (e : store_event) : Prop :=
  match e with
  | Ev (recordPolicyEvaluation i) (Ok _) => record_decision i = d
  | _ => False
  end.

(** Every status written is [failed], or follows a recorded evaluation whose
    decision it is. *)
Definition statuses_follow_decisions (tr : list store_event) : Prop :=
  forall before after id st answer,
    (tr = before ++ answered (updateWalletOperationStatus id st) answer :: after)%list ->
    st = status_failed
    \/ exists e d, e ∈ before /\ records_decision d e
                   /\ st = walletOperationStatusForDecision d.

(** * Lemmas *)

(** [statuses_follow_decisions] read off a trace from left to right. *)
Fixpoint statuses_from (seen tr : list store_event) : Prop :=
  match tr with
  | [] => True
  | e :: rest =>
      match e with
      | Ev (updateWalletOperationStatus _ st) _ =>
          st = status_failed
          \/ exists e' d, e' ∈ seen /\ records_decision d e'
                        /\ st = walletOperationStatusForDecision d
      | _ => True
      end /\ statuses_from (seen ++ [e])%list rest
  end.

Lemma statuses_from_app seen tr before id st answer after :
  statuses_from seen tr ->
  (tr = before ++ answered (updateWalletOperationStatus id st) answer :: after)%list ->
  st = status_failed
  \/ exists e d, e ∈ (seen ++ before)%list /\ records_decision d e
                 /\ st = walletOperationStatusForDecision d.
Proof.
  revert seen tr. induction before as [|e before IH]; intros seen tr Hs ->; simpl in Hs.
  - rewrite app_nil_r. apply Hs.
  - destruct Hs as [_ Hs]. specialize (IH _ _ Hs eq_refl).
    by rewrite <- app_assoc in IH.
Qed.

Lemma statuses_from_follow tr : statuses_from [] tr -> statuses_follow_decisions tr.
Proof. intros Hs before after id st answer E. exact (statuses_from_app [] tr _ _ _ _ _ Hs E). Qed.

Lemma compensated_at (tr : list store_event) e operation c0 body failing answer :
  head body = Some (answered (createWalletOperation c0) (Ok operation)) ->
  last body = Some failing ->
  (tr = body ++ [answered (cleanup_call operation (pending_request body)) answer])%list ->
  e = compensated_error (failure_of failing) answer ->
  compensated_failure tr e.
Proof. intros. right. eauto 10. Qed.

(** Runs a store program symbolically, one answer at a time. *)
Ltac store_steps :=
  repeat (cbn [all_runs bind catch call store compensateEnforcementFailure negb fst snd];
          match goal with
          | |- forall _ : result _, _ => intros [?|?]
          | |- context [bool_decide ?P] => destruct (bool_decide_reflect P)
          end);
  cbn [all_runs bind catch call store negb].

(** Names the run up to its last call as the body the last call compensates. *)
Ltac compensated :=
  match goal with
  | |- compensated_failure [_] _ => left; eexists; reflexivity
  | |- compensated_failure ?tr _ =>
      let body := eval cbn [removelast] in (removelast tr) in
      eapply (compensated_at tr _ _ _ body); reflexivity
  end.

(** The run follows from its recorded decision. *)
Ltac statuses :=
  apply statuses_from_follow; cbn [statuses_from app];
  repeat split; try (left; reflexivity);
  match goal with
  | |- context [Ev (recordPolicyEvaluation ?i) (Ok ?row)] =>
      right; exists (answered (recordPolicyEvaluation i) (Ok row)), (record_decision i);
      split; [apply list_elem_of_In; simpl; tauto | split; reflexivity]
  end.

(** * Theorems *)

(** When enforcement returns, exactly this was written, in this order: the
    operation (status [created] unless the caller chose one), the policies read,
    an approval request if and only if the decision pauses the operation, the
    evaluation row linked to that request, and the status of the decision. *)
Theorem enforce_writes input :
  all_runs (enforceWalletOperationPolicy input) (fun tr res =>
    forall updated row, res = Ok (updated, row) ->
    exists operation policies approval answer,
      let result := enforced_result input operation policies in
      (tr = written_before input operation policies approval
            ++ [answered (recordPolicyEvaluation (createPolicyEvaluationInput result approval)) (Ok row);
                answered (updateWalletOperationStatus (envelope_id operation) (enforced_status result))
                   (Ok answer)])%list
      /\ (is_Some approval <-> enforced_status result = status_pending_approval)
      /\ envelope_id updated = envelope_id operation
      /\ envelope_candidate updated = envelope_candidate operation
      /\ envelope_status updated = answer.1).
Proof.
  unfold enforceWalletOperationPolicy, compensated, evaluateAndRequest, recordAndUpdate.
  store_steps; try (intros u v Hres; discriminate);
    intros u v Hres; injection Hres as <- <-.
  - match goal with H : ?a.2 = request_pending |- _ => destruct a as [? ?]; simpl in H; subst end.
    eexists _, _, (Some _), _. split_and!; try reflexivity. by split; eauto.
  - eexists _, _, None, _. split_and!; try reflexivity. by split; [intros [? ?]|].
Qed.

(** An enforcement failure is always compensated: unless the operation was
    never written, the last call of the run marks the pending approval request
    failed, or the operation when there is none, and the error that leaves is
    the original one, aggregated with the cleanup's when that fails too. *)
Theorem enforce_failure_compensated input :
  all_runs (enforceWalletOperationPolicy input) (fun tr res =>
    forall e, res = Err e -> compensated_failure tr e).
Proof.
  unfold enforceWalletOperationPolicy, compensated, evaluateAndRequest, recordAndUpdate.
  store_steps; try (intros ? ?; discriminate); intros err Hres; injection Hres as <-;
    repeat match goal with
    | H : ?a.2 = request_pending |- _ => destruct a as [? ?]; simpl in H; subst
    | H : ?a.2 <> request_pending |- _ => destruct a as [? []]; simpl in H; try done
    end; cbn [fst snd]; compensated.
Qed.

(** On every run, failing or not, the only status written without a
    recorded evaluation is [failed]; any other is the status of the decision
    recorded before it. *)
Theorem enforce_statuses_follow_decisions input :
  all_runs (enforceWalletOperationPolicy input) (fun tr _ => statuses_follow_decisions tr).
Proof.
  unfold enforceWalletOperationPolicy, compensated, evaluateAndRequest, recordAndUpdate.
  store_steps; statuses.
Qed.
