(* ===== verification/PolicyService.v ===== *)
(** * Wallet-operation policies: the API's entry

    [apps/sdp-api/src/lib/tenant-scope.ts] ([createTenantScope], [assertTenantClaim])
    and the enforcing half of [apps/sdp-api/src/services/policy/enforcement.service.ts]:
    the package's enforcement of PolicyEnforce.v behind the contract of the routes, where
    an operation that is not allowed leaves as an error. *)
From Stdlib Require Import Ascii String ZArith Lia.
From stdpp Require Import base list strings.
From S2P Require Import Prelude Text PolicyTypes PolicyRules PolicyEvaluate PolicyEnforce.

Local Open Scope string_scope.
Local Open Scope sdp_scope.

(** ** Tenant scopes *)

Record TenantScope := mkTenantScope {
  scope_organizationId : string;
  scope_projectId : option string;
}.

Definition TenantScopeViolationError (message : string) : jserr :=
  CodedError "TenantScopeViolationError" "" message None.

Definition createTenantScope (organizationId : string) (projectId : option string)
    : result TenantScope :=
  let organization := trimmed organizationId in
  let project := trimmed <$> projectId in
  if String.eqb organization "" then
    Err (TenantScopeViolationError "Tenant organizationId is required")
  else if bool_decide (is_Some projectId) && negb (truthy project) then
    Err (TenantScopeViolationError "Tenant projectId cannot be empty")
  else Ok (mkTenantScope organization project).

Definition assertTenantClaim (scope : TenantScope) (organizationId : string)
    (projectId : option string) (operation : string) : result unit :=
  if negb (String.eqb organizationId (scope_organizationId scope)) then
    Err (TenantScopeViolationError (operation ++ " cannot override the repository organization scope"))
  else if negb (bool_decide (projectId = scope_projectId scope)) then
    Err (TenantScopeViolationError (operation ++ " cannot override the repository project scope"))
  else Ok tt.

(** ** Enforcement behind the routes' contract *)

Definition walletOperationPolicyDecisionError (operation : WalletOperationEnvelope)
    (evaluation : PolicyEvaluation) : jserr :=
  match record_decision (row_input evaluation) with
  | not_evaluated => AppError "FORBIDDEN" "Wallet operation was not evaluated by policy"
  | deny => AppError "FORBIDDEN" "Wallet operation denied by policy"
  | _ => AppError "SIGNING_PENDING" "Wallet operation requires policy approval"
  end.

(** [WalletPolicyEnforcementService.enforce] *)
Definition enforce (input : CreateWalletOperationInput)
    : store_prog (WalletOperationEnvelope * PolicyEvaluation) :=
  let! enforcement := PolicyEnforce.enforceWalletOperationPolicy input in
  if bool_decide (record_decision (row_input enforcement.2) = allow) then Ret enforcement
  else Throw (walletOperationPolicyDecisionError enforcement.1 enforcement.2).

(** [enforceWalletOperationPolicy(env, scope, input)], of an operation that is not the
    replay of an approved one. *)
Definition enforceWalletOperationPolicy (scope : TenantScope) (input : CreateWalletOperationInput)
    : store_prog (WalletOperationEnvelope * PolicyEvaluation) :=
  let candidate := create_candidate input in
  let! _ := of_result (assertTenantClaim scope (organizationId candidate) (projectId candidate)
                         "enforceWalletOperationPolicy") in
  enforce input.

(** The engine evaluated this operation, its evaluation was recorded, and the row the
    store returned allows it. *)
Definition policy_allows (input : CreateWalletOperationInput) (evaluation : PolicyEvaluation)
    (tr : list store_event) : Prop :=
  record_decision (row_input evaluation) = allow
  /\ exists operation policies approval,
       (forall e, e ∈ written_before input operation policies approval -> e ∈ tr)
       /\ answered (recordPolicyEvaluation
            (createPolicyEvaluationInput (enforced_result input operation policies) approval)) (Ok evaluation) ∈ tr.

(** ** A store to compute with *)

(** A store with one default for every operation, at a given time. *)
Definition default_store (now : string) (action : PolicyDefaultAction) (c : store_call) : result (store_response c) :=
  match c return result (store_response c) with
  | createWalletOperation i =>
      Ok (mkEnvelope (create_candidate i) "wallet-operation" (create_rawPayload i) (create_idempotencyKey i)
            status_created now now)
  | loadEffectivePolicies _ =>
      Ok (mkOperationPolicies
            (mkEffective customer_profile (Some (mkProfile "profile" (Some "revision")))
               (Some (mkRevision "revision" 1 [] action)) action) None)
  | createApprovalRequest _ => Ok ("approval-request", request_pending)
  | recordPolicyEvaluation i => Ok (mkPolicyEvaluation "evaluation" i now)
  | updateWalletOperationStatus _ st => Ok (st, now)
  | failApprovalRequest _ _ => Ok tt
  end.

(** * Lemmas *)

Lemma enforcement_yields input :
  yields (PolicyEnforce.enforceWalletOperationPolicy input) (fun tr r =>
    exists o p a, (forall e, e ∈ written_before input o p a -> e ∈ tr)
      /\ answered (recordPolicyEvaluation (createPolicyEvaluationInput (enforced_result input o p) a)) (Ok r.2) ∈ tr).
Proof.
  eapply all_runs_mono; [|exact (enforce_writes input)].
  intros tr res H [updated row] E. destruct (H updated row E) as (o & p & a & answer & -> & _).
  exists o, p, a. cbn [snd]. split; [intros e He|]; apply elem_of_app; [by left|]. right. by left.
Qed.

Lemma enforce_policy_allows scope input :
  yields (enforceWalletOperationPolicy scope input) (fun tr r => policy_allows input r.2 tr).
Proof.
  apply yields_result. intros [] _. unfold enforce. eapply yields_bind; [apply enforcement_yields|].
  intros [updated row] tr (o & p & a & Hw & He). cbn [snd] in *.
  destruct (bool_decide_reflect (record_decision (row_input row) = allow)) as [Hd|Hd]; [|apply yields_throw].
  apply yields_ret. rewrite app_nil_r. split; [done|]. by exists o, p, a.
Qed.

(** Only an allowed operation returns. *)
Lemma enforce_allows scope input :
  yields (enforceWalletOperationPolicy scope input)
    (fun _ r => record_decision (row_input r.2) = allow).
Proof.
  unfold enforceWalletOperationPolicy, enforce.
  apply yields_result. intros [] _. apply yields_any. intros [operation evaluation] tr. cbn [fst snd].
  destruct (bool_decide_reflect (record_decision (row_input evaluation) = allow)) as [E|E];
    [by apply yields_ret|apply yields_throw].
Qed.

Lemma createTenantScope_claim organization project scope operation :
  createTenantScope organization project = Ok scope ->
  trimmed organization = organization -> trimmed <$> project = project ->
  assertTenantClaim scope organization project operation = Ok tt.
Proof.
  unfold createTenantScope. intros H Ho Hp. rewrite Ho, Hp in H.
  destruct (String.eqb organization ""); [done|]. destruct (_ && _); [done|].
  injection H as <-. unfold assertTenantClaim. cbn [scope_organizationId scope_projectId].
  by rewrite String.eqb_refl, bool_decide_eq_true_2.
Qed.
