(* ===== verification/BudgetTypes.v ===== *)
(** * Sponsorship budgets: data

    The types of [apps/sdp-api/src/db/repositories/sponsorship-budget.repository.ts]
    that the ledger, the Redis admission layer, the service and the reconciler
    share. Lamports, versions and attempts are [Z]; timestamps are the ISO
    strings the tables store. *)
From Stdlib Require Import Ascii String ZArith Lia.
From stdpp Require Import base list strings gmap.
From S2P Require Import Prelude Text.

Local Open Scope string_scope.

Inductive SponsorshipNetwork := devnet | mainnet.
Inductive SponsorshipBudgetScopeType := scope_global | scope_organization | scope_project.
Inductive SponsorshipReservationStatus :=
  st_reserved | st_signed | st_submitted | st_committed | st_released | st_charged_unknown.
Inductive ProductEnvironment := env_sandbox | env_production.

#[export] Instance SponsorshipNetwork_eq : EqDecision SponsorshipNetwork.
Proof. solve_decision. Defined.
#[export] Instance SponsorshipBudgetScopeType_eq : EqDecision SponsorshipBudgetScopeType.
Proof. solve_decision. Defined.
#[export] Instance SponsorshipReservationStatus_eq : EqDecision SponsorshipReservationStatus.
Proof. solve_decision. Defined.
#[export] Instance ProductEnvironment_eq : EqDecision ProductEnvironment.
Proof. solve_decision. Defined.

Definition network_text (n : SponsorshipNetwork) : string :=
  match n with devnet => "devnet" | mainnet => "mainnet" end.
Definition scope_type_text (t : SponsorshipBudgetScopeType) : string :=
  match t with
  | scope_global => "global" | scope_organization => "organization" | scope_project => "project"
  end.

Definition SPONSORSHIP_BREAKER_OPERATOR : string := "system:sponsorship-breaker".

Record SponsorshipBudgetPolicy := mkPolicy {
  policy_id : string;
  policy_network : SponsorshipNetwork;
  scopeType : SponsorshipBudgetScopeType;
  scopeId : option string;
  enabled : bool;
  perTransactionLamports : Z;
  hourlyLamports : Z;
  dailyLamports : Z;
  version : Z;
  updatedBy : string;
  updateReason : string;
  policy_updatedAt : string;
}.

Record SponsorshipBudgetUsage := mkUsage {
  usage_global : Z;
  usage_organization : Z;
  usage_project : Z;
}.

Record CreateSponsorshipReservationInput := mkReservationInput {
  in_id : string;
  in_network : SponsorshipNetwork;
  in_productEnvironment : ProductEnvironment;
  in_organizationId : string;
  in_projectId : option string;
  in_actorType : string;
  in_actorId : string;
  in_transactionDigest : string;
  in_feePayer : string;
  in_providerConfigFingerprint : string;
  in_recentBlockhash : string;
  in_reservedLamports : Z;
  in_hourBucket : string;
  in_dayBucket : string;
  in_policyVersions : list (string * Z);
}.

Record SponsorshipReservation := mkReservation {
  id : string;
  status : SponsorshipReservationStatus;
  signature : option string;
  signedTransaction : option string;
  reservedLamports : Z;
  actualLamports : option Z;
  attempt : Z;
}.

Inductive SignaturePersistResult := persisted | stale | duplicate_signature.
#[export] Instance SignaturePersistResult_eq : EqDecision SignaturePersistResult.
Proof. solve_decision. Defined.

Record SponsorshipLiveWindowReservation := mkLive {
  live_id : string;
  live_attempt : Z;
  live_reservedLamports : Z;
  live_organizationId : string;
  live_projectId : option string;
}.

Record SponsorshipReconciliationReservation := mkCandidate {
  reservation : SponsorshipReservation;
  network : SponsorshipNetwork;
  organizationId : string;
  projectId : option string;
  feePayer : string;
  providerConfigFingerprint : string;
  recentBlockhash : string;
  hourBucket : string;
  dayBucket : string;
  missCount : Z;
  updatedAt : string;
  redisSettledAt : option string;
}.

(** The two windows of a usage snapshot or of the live reservations. *)
Record windows (A : Type) := mkWindows { hour : A; day : A }.
Arguments mkWindows {A} hour day.
Arguments hour {A} w.
Arguments day {A} w.

Record WindowSnapshot := mkSnapshot {
  snapshot_usage : windows SponsorshipBudgetUsage;
  snapshot_live : windows (list SponsorshipLiveWindowReservation);
}.

(** [Number.MAX_SAFE_INTEGER] *)
Definition MAX_SAFE_INTEGER : Z := 9007199254740991.

(** [ids.includes(status)] *)
Definition status_in (s : SponsorshipReservationStatus) (l : list SponsorshipReservationStatus)
    : bool := existsb (fun x => bool_decide (x = s)) l.

Lemma status_in_spec s l : status_in s l = true <-> s ∈ l.
Proof.
  unfold status_in. rewrite existsb_exists. split.
  - intros (x & Hin & Hx). apply bool_decide_eq_true in Hx as ->. by apply list_elem_of_In.
  - intros Hin. exists s. split; [by apply list_elem_of_In|by apply bool_decide_eq_true].
Qed.

Lemma status_in_false s l : status_in s l = false <-> s ∉ l.
Proof. rewrite <- status_in_spec. destruct (status_in s l); naive_solver. Qed.
