(* ===== verification/BudgetLedger.v ===== *)
(** * Sponsorship budgets: the durable ledger

    [apps/sdp-api/src/db/repositories/sponsorship-budget.repository.ts]: each
    method is one SQL statement (or one transaction) over the tables of migration
    [0055_sponsorship_budgets.sql], here a function on a [Ledger]. A statement
    either returns its result and the new tables or fails with the constraint it
    violates and changes nothing. [now] is [sdp_iso_now()]. *)
From Stdlib Require Import Ascii String ZArith Lia FunctionalExtensionality.
From stdpp Require Import base list strings gmap sorting.
From S2P Require Import Prelude Text BudgetTypes.

Local Open Scope string_scope.
Local Open Scope Z_scope.
Local Open Scope sdp_scope.

(** One row of [sponsorship_budget_reservations]. *)
Record ReservationRow := mkRow {
  row_network : SponsorshipNetwork;
  row_productEnvironment : ProductEnvironment;
  row_organizationId : string;
  row_projectId : option string;
  row_actorType : string;
  row_actorId : string;
  row_transactionDigest : string;
  row_feePayer : string;
  row_providerConfigFingerprint : string;
  row_recentBlockhash : string;
  row_reservedLamports : Z;
  row_actualLamports : option Z;
  row_hourBucket : string;
  row_dayBucket : string;
  row_policyVersions : list (string * Z);
  row_status : SponsorshipReservationStatus;
  row_signature : option string;
  row_signedTransaction : option string;
  row_attempt : Z;
  row_missCount : Z;
  row_failureReason : option string;
  row_updatedAt : string;
  row_submittedAt : option string;
  row_reconciledAt : option string;
  row_redisSettledAt : option string;
}.

(** One row of [sponsorship_budget_policy_revisions]: the policy as written,
    which carries who changed it and why. *)
Record PolicyRevision := mkRevision {
  revision_id : string;
  revision_policy : SponsorshipBudgetPolicy;
}.

Record Ledger := mkLedger {
  reservations : gmap string ReservationRow;
  policies : list SponsorshipBudgetPolicy;
  revisions : list PolicyRevision;
  configFailures : list (SponsorshipNetwork * Z);
}.

Definition signature_index : string := "idx_sponsorship_budget_reservations_signature".

Definition isDuplicateSignatureError (e : jserr) : bool :=
  match e with
  | CodedError _ code constraint _ =>
      String.eqb code "23505" && String.eqb constraint signature_index
  | _ => false
  end.

(** The CHECK constraints of the reservations table. *)
Definition row_checks (r : ReservationRow) : bool :=
  (0 <=? row_reservedLamports r)
  && match row_actualLamports r with Some a => 0 <=? a | None => true end
  && (1 <=? row_attempt r) && (0 <=? row_missCount r).

(** The partial unique index on [signature]. *)
Definition signature_free (l : gmap string ReservationRow) (id : string) (s : option string)
    : bool :=
  match s with
  | None => true
  | Some sig =>
      forallb (fun '(id', r) => String.eqb id' id || negb (bool_decide (row_signature r = Some sig)))
        (map_to_list l)
  end.

Definition with_reservations (l : Ledger) (rs : gmap string ReservationRow) : Ledger :=
  mkLedger rs (policies l) (revisions l) (configFailures l).

(** [UPDATE sponsorship_budget_reservations SET f WHERE id = ? AND p]: the number
    of rows changed. *)
Definition update_reservation (id : string) (p : ReservationRow -> bool)
    (f : ReservationRow -> ReservationRow) (l : Ledger) : result (Z * Ledger) :=
  match reservations l !! id with
  | None => Ok (0, l)
  | Some r =>
      if p r then
        if negb (row_checks (f r)) then Err (database_error "23514" "check")
        else if negb (signature_free (reservations l) id (row_signature (f r)))
             then Err (database_error "23505" signature_index)
             else Ok (1, with_reservations l (<[id := f r]> (reservations l)))
      else Ok (0, l)
  end.

Definition updated_one (r : result (Z * Ledger)) : result (bool * Ledger) :=
  let? (n, l) := r in Ok (n =? 1, l).

(** [reason.slice(0, 500)] *)
Definition slice (n : nat) (s : string) : string := String.substring 0 n s.

Definition createReservation (now : string) (input : CreateSponsorshipReservationInput)
    (l : Ledger) : result (bool * Ledger) :=
  match reservations l !! in_id input with
  | Some _ => Ok (false, l)
  | None =>
      let r := mkRow (in_network input) (in_productEnvironment input) (in_organizationId input)
                 (in_projectId input) (in_actorType input) (in_actorId input)
                 (in_transactionDigest input) (in_feePayer input)
                 (in_providerConfigFingerprint input) (in_recentBlockhash input)
                 (in_reservedLamports input) None (in_hourBucket input) (in_dayBucket input)
                 (in_policyVersions input) st_reserved None None 1 0 None now None None None in
      if row_checks r then Ok (true, with_reservations l (<[in_id input := r]> (reservations l)))
      else Err (database_error "23514" "check")
  end.

Definition mapReservation (id : string) (r : ReservationRow) : SponsorshipReservation :=
  mkReservation id (row_status r) (row_signature r) (row_signedTransaction r)
    (row_reservedLamports r) (row_actualLamports r) (row_attempt r).

Definition getReservation (id : string) (l : Ledger) : option SponsorshipReservation :=
  mapReservation id <$> reservations l !! id.

Definition reopenReleasedReservation (now : string) (input : CreateSponsorshipReservationInput)
    (expectedAttempt : Z) (l : Ledger) : result (option Z * Ledger) :=
  let? (n, l') := update_reservation (in_id input)
    (fun r => bool_decide (row_status r = st_released) && (row_attempt r =? expectedAttempt)
              && bool_decide (is_Some (row_redisSettledAt r)))
    (fun r => mkRow (row_network r) (row_productEnvironment r) (row_organizationId r)
                (row_projectId r) (row_actorType r) (row_actorId r) (row_transactionDigest r)
                (row_feePayer r) (in_providerConfigFingerprint input) (row_recentBlockhash r)
                (in_reservedLamports input) None (in_hourBucket input) (in_dayBucket input)
                (in_policyVersions input) st_reserved None None (row_attempt r + 1) 0 None
                now None None None) l in
  Ok (if n =? 1 then row_attempt <$> reservations l' !! in_id input else None, l').

(** The columns [status], [signature], [signed_transaction], [actual_lamports],
    [failure_reason] and the four timestamps of an update; the rest is kept. *)
Definition set_outcome (r : ReservationRow) (st : SponsorshipReservationStatus)
    (signature signedTransaction : option string) (actual : option Z)
    (failureReason : option string) (updatedAt : string)
    (submittedAt reconciledAt : option string) : ReservationRow :=
  mkRow (row_network r) (row_productEnvironment r) (row_organizationId r) (row_projectId r)
    (row_actorType r) (row_actorId r) (row_transactionDigest r) (row_feePayer r)
    (row_providerConfigFingerprint r) (row_recentBlockhash r) (row_reservedLamports r) actual
    (row_hourBucket r) (row_dayBucket r) (row_policyVersions r) st signature signedTransaction
    (row_attempt r) (row_missCount r) failureReason updatedAt submittedAt reconciledAt
    (row_redisSettledAt r).

Definition at_attempt (expectedAttempt : Z) (from : list SponsorshipReservationStatus)
    (r : ReservationRow) : bool :=
  (row_attempt r =? expectedAttempt) && status_in (row_status r) from.

(** [try { ... } catch (error) { if (isDuplicateSignatureError(error)) ... }] *)
Definition persist_signature (r : result (Z * Ledger)) (l : Ledger)
    : result (SignaturePersistResult * Ledger) :=
  match r with
  | Ok (n, l') => Ok (if n =? 1 then persisted else stale, l')
  | Err e => if isDuplicateSignatureError e then Ok (duplicate_signature, l) else Err e
  end.

Definition markSigned (now id : string) (expectedAttempt : Z)
    (signedTransaction signature : string) (l : Ledger)
    : result (SignaturePersistResult * Ledger) :=
  persist_signature
    (update_reservation id (at_attempt expectedAttempt [st_reserved])
       (fun r => set_outcome r st_signed (Some signature) (Some signedTransaction)
                   (row_actualLamports r) (row_failureReason r) now (row_submittedAt r)
                   (row_reconciledAt r)) l) l.

Definition markSubmitted (now id : string) (expectedAttempt : Z) (signature : string) (l : Ledger)
    : result (SignaturePersistResult * Ledger) :=
  persist_signature
    (update_reservation id (at_attempt expectedAttempt [st_reserved; st_signed])
       (fun r => set_outcome r st_submitted (Some signature) (row_signedTransaction r)
                   (row_actualLamports r) (row_failureReason r) now (Some now)
                   (row_reconciledAt r)) l) l.

Definition markChargedUnknown (now id : string) (expectedAttempt : Z) (reason : string)
    (l : Ledger) : result (bool * Ledger) :=
  updated_one
    (update_reservation id (at_attempt expectedAttempt [st_reserved; st_signed; st_submitted])
       (fun r => set_outcome r st_charged_unknown (row_signature r) (row_signedTransaction r)
                   (row_actualLamports r) (Some (slice 500 reason)) now (row_submittedAt r)
                   (row_reconciledAt r)) l).

Definition markReleased (now id : string) (expectedAttempt : Z) (reason : string) (l : Ledger)
    : result (bool * Ledger) :=
  updated_one
    (update_reservation id (at_attempt expectedAttempt [st_reserved; st_signed])
       (fun r => set_outcome r st_released (row_signature r) (row_signedTransaction r)
                   (Some 0) (Some (slice 500 reason)) now (row_submittedAt r) (Some now)) l).

(** The two statuses a settlement writes. *)
Inductive settled_status := settle_committed | settle_released.
Definition settled_text (s : settled_status) : SponsorshipReservationStatus :=
  match s with settle_committed => st_committed | settle_released => st_released end.

Definition settleReservation (now id : string) (expectedAttempt : Z) (st : settled_status)
    (actualLamports : Z) (reason : option string) (l : Ledger) : result (bool * Ledger) :=
  updated_one
    (update_reservation id (at_attempt expectedAttempt [st_signed; st_submitted])
       (fun r => set_outcome r (settled_text st) (row_signature r) (row_signedTransaction r)
                   (Some actualLamports) reason now (row_submittedAt r) (Some now)) l).

Definition recordReconciliationMiss (now id : string) (expectedAttempt expectedMissCount : Z)
    (l : Ledger) : result (bool * Ledger) :=
  updated_one
    (update_reservation id
       (fun r => (row_attempt r =? expectedAttempt) && (row_missCount r =? expectedMissCount)
                 && status_in (row_status r) [st_signed; st_submitted])
       (fun r => mkRow (row_network r) (row_productEnvironment r) (row_organizationId r)
          (row_projectId r) (row_actorType r) (row_actorId r) (row_transactionDigest r)
          (row_feePayer r) (row_providerConfigFingerprint r) (row_recentBlockhash r)
          (row_reservedLamports r) (row_actualLamports r) (row_hourBucket r) (row_dayBucket r)
          (row_policyVersions r) (row_status r) (row_signature r) (row_signedTransaction r)
          (row_attempt r) (row_missCount r + 1) (row_failureReason r) now (row_submittedAt r)
          (row_reconciledAt r) (row_redisSettledAt r)) l).

Definition markRedisSettled (now id : string) (expectedAttempt : Z) (l : Ledger)
    : result (bool * Ledger) :=
  updated_one
    (update_reservation id (at_attempt expectedAttempt [st_committed; st_released])
       (fun r => mkRow (row_network r) (row_productEnvironment r) (row_organizationId r)
          (row_projectId r) (row_actorType r) (row_actorId r) (row_transactionDigest r)
          (row_feePayer r) (row_providerConfigFingerprint r) (row_recentBlockhash r)
          (row_reservedLamports r) (row_actualLamports r) (row_hourBucket r) (row_dayBucket r)
          (row_policyVersions r) (row_status r) (row_signature r) (row_signedTransaction r)
          (row_attempt r) (row_missCount r) (row_failureReason r) now (row_submittedAt r)
          (row_reconciledAt r) (Some (default now (row_redisSettledAt r)))) l).

(** ** Windows *)

Record WindowInput := mkWindowInput {
  w_network : SponsorshipNetwork;
  w_organizationId : string;
  w_projectId : option string;
  w_hourBucket : string;
  w_dayBucket : string;
  w_excludeReservationId : option string;
}.

(** [COALESCE(actual_lamports, reserved_lamports)] *)
Definition charge (r : ReservationRow) : Z := default (row_reservedLamports r) (row_actualLamports r).

(** [AND id <> ?], present only when an id to exclude is given. *)
Definition not_excluded (w : WindowInput) (id : string) : bool :=
  match w_excludeReservationId w with
  | Some x => if truthy (Some x) then negb (String.eqb id x) else true
  | None => true
  end.

(** [SUM(CASE WHEN p THEN charge ELSE 0 END)] over the rows of the window. *)
Definition sum_where (w : WindowInput) (p : ReservationRow -> bool) (l : Ledger) : Z :=
  map_fold (fun id r acc =>
    (if bool_decide (row_network r = w_network w)
        && negb (bool_decide (row_status r = st_released))
        && (String.eqb (row_hourBucket r) (w_hourBucket w)
            || String.eqb (row_dayBucket r) (w_dayBucket w))
        && not_excluded w id && p r
     then charge r else 0) + acc) 0 (reservations l).

Definition in_scope (w : WindowInput) (t : SponsorshipBudgetScopeType) (r : ReservationRow) : bool :=
  match t with
  | scope_global => true
  | scope_organization => String.eqb (row_organizationId r) (w_organizationId w)
  | scope_project =>
      String.eqb (row_organizationId r) (w_organizationId w)
      && bool_decide (row_projectId r = w_projectId w)
  end.

Definition getWindowUsage (w : WindowInput) (l : Ledger) : windows SponsorshipBudgetUsage :=
  let hour_sum t :=
    sum_where w (fun r => String.eqb (row_hourBucket r) (w_hourBucket w) && in_scope w t r) l in
  let day_sum t :=
    sum_where w (fun r => String.eqb (row_dayBucket r) (w_dayBucket w) && in_scope w t r) l in
  mkWindows
    (mkUsage (hour_sum scope_global) (hour_sum scope_organization) (hour_sum scope_project))
    (mkUsage (day_sum scope_global) (day_sum scope_organization) (day_sum scope_project)).

Definition mapLive (id : string) (r : ReservationRow) : SponsorshipLiveWindowReservation :=
  mkLive id (row_attempt r) (row_reservedLamports r) (row_organizationId r) (row_projectId r).

Definition live_row (w : WindowInput) (id : string) (r : ReservationRow) : bool :=
  bool_decide (row_network r = w_network w)
  && status_in (row_status r) [st_reserved; st_signed; st_submitted]
  && (String.eqb (row_hourBucket r) (w_hourBucket w) || String.eqb (row_dayBucket r) (w_dayBucket w))
  && not_excluded w id.

Definition listLiveWindowReservations (w : WindowInput) (l : Ledger)
    : windows (list SponsorshipLiveWindowReservation) :=
  let rows := List.filter (fun '(id, r) => live_row w id r) (map_to_list (reservations l)) in
  let pick p := List.map (fun '(id, r) => mapLive id r) (List.filter (fun '(_, r) => p r) rows) in
  mkWindows (pick (fun r => String.eqb (row_hourBucket r) (w_hourBucket w)))
            (pick (fun r => String.eqb (row_dayBucket r) (w_dayBucket w))).

(** One REPEATABLE READ transaction: both reads see the same tables. *)
Definition loadWindowAdmissionSnapshot (w : WindowInput) (l : Ledger) : WindowSnapshot :=
  mkSnapshot (getWindowUsage w l) (listLiveWindowReservations w l).

Definition mapCandidate (id : string) (r : ReservationRow) : SponsorshipReconciliationReservation :=
  mkCandidate (mapReservation id r) (row_network r) (row_organizationId r) (row_projectId r)
    (row_feePayer r) (row_providerConfigFingerprint r) (row_recentBlockhash r)
    (row_hourBucket r) (row_dayBucket r) (row_missCount r) (row_updatedAt r)
    (row_redisSettledAt r).

Definition is_candidate (n : SponsorshipNetwork) (updatedBefore : string) (r : ReservationRow)
    : bool :=
  bool_decide (row_network r = n)
  && ((status_in (row_status r) [st_reserved; st_signed; st_submitted]
       && String.leb (row_updatedAt r) updatedBefore)
      || (status_in (row_status r) [st_committed; st_released]
          && bool_decide (row_redisSettledAt r = None))).

(** [ORDER BY updated_at, id] *)
Definition candidate_le (a b : string * ReservationRow) : Prop :=
  String.ltb (row_updatedAt a.2) (row_updatedAt b.2) = true
  \/ row_updatedAt a.2 = row_updatedAt b.2 /\ String.leb a.1 b.1 = true.
#[export] Instance candidate_le_dec : RelDecision candidate_le.
Proof. intros a b. unfold candidate_le. apply _. Defined.

Definition listReconciliationCandidates (n : SponsorshipNetwork) (updatedBefore : string)
    (limit : nat) (l : Ledger) : list SponsorshipReconciliationReservation :=
  List.map (fun '(id, r) => mapCandidate id r)
    (take limit
       (merge_sort candidate_le
          (List.filter (fun '(_, r) => is_candidate n updatedBefore r)
             (map_to_list (reservations l))))).

(** ** Policies *)

Definition same_scope (n : SponsorshipNetwork) (t : SponsorshipBudgetScopeType)
    (s : option string) (p : SponsorshipBudgetPolicy) : bool :=
  bool_decide (policy_network p = n) && bool_decide (scopeType p = t)
  && bool_decide (scopeId p = s).

Definition getGlobalPolicy (n : SponsorshipNetwork) (l : Ledger) : option SponsorshipBudgetPolicy :=
  List.find (same_scope n scope_global None) (policies l).

(** [DISTINCT ON (scope_type) ... ORDER BY scope_type, (scope_id IS NOT NULL) DESC]:
    of the rows of one scope type, one with a scope id if there is any. *)
Definition distinct_on (t : SponsorshipBudgetScopeType) (rows : list SponsorshipBudgetPolicy)
    : list SponsorshipBudgetPolicy :=
  let mine := List.filter (fun p => bool_decide (scopeType p = t)) rows in
  match List.filter (fun p => bool_decide (is_Some (scopeId p))) mine with
  | p :: _ => [p]
  | [] => match mine with p :: _ => [p] | [] => [] end
  end.

Definition resolves (n : SponsorshipNetwork) (organizationId : string) (projectId : option string)
    (p : SponsorshipBudgetPolicy) : bool :=
  bool_decide (policy_network p = n)
  && match scopeType p with
     | scope_global => bool_decide (scopeId p = None)
     | scope_organization =>
         bool_decide (scopeId p = Some organizationId) || bool_decide (scopeId p = None)
     | scope_project =>
         bool_decide (is_Some projectId)
         && (bool_decide (scopeId p = projectId) || bool_decide (scopeId p = None))
     end.

Definition requiredScopes (projectId : option string) : list SponsorshipBudgetScopeType :=
  if truthy projectId then [scope_global; scope_organization; scope_project]
  else [scope_global; scope_organization].

Fixpoint pick_scopes (rows : list SponsorshipBudgetPolicy)
    (scopes : list SponsorshipBudgetScopeType) : result (list SponsorshipBudgetPolicy) :=
  match scopes with
  | [] => Ok []
  | t :: rest =>
      match List.find (fun p => bool_decide (scopeType p = t)) rows with
      | None => Err (PlainError ("Missing " ++ scope_type_text t ++ " sponsorship policy"))
      | Some p => let? ps := pick_scopes rows rest in Ok (p :: ps)
      end
  end.

Definition resolvePolicies (n : SponsorshipNetwork) (organizationId : string)
    (projectId : option string) (l : Ledger) : result (list SponsorshipBudgetPolicy) :=
  let matching := List.filter (resolves n organizationId projectId) (policies l) in
  let rows := flat_map (fun t => distinct_on t matching)
                [scope_global; scope_organization; scope_project] in
  if existsb (fun t => negb (existsb (fun p => bool_decide (scopeType p = t)) rows))
       (requiredScopes projectId)
  then Err (PlainError "Sponsorship budget policy hierarchy is incomplete")
  else pick_scopes rows (requiredScopes projectId).

(** The CHECK constraints of the policies table. *)
Definition policy_checks (p : SponsorshipBudgetPolicy) : bool :=
  (negb (bool_decide (scopeType p = scope_global)) || bool_decide (scopeId p = None))
  && (0 <=? perTransactionLamports p) && (perTransactionLamports p <=? MAX_SAFE_INTEGER)
  && (perTransactionLamports p <=? hourlyLamports p) && (hourlyLamports p <=? MAX_SAFE_INTEGER)
  && (hourlyLamports p <=? dailyLamports p) && (dailyLamports p <=? MAX_SAFE_INTEGER).

(** The unique index on [(network, scope_type, COALESCE(scope_id, ''))]. *)
Definition scope_taken (p : SponsorshipBudgetPolicy) (ps : list SponsorshipBudgetPolicy) : bool :=
  existsb (fun q => negb (String.eqb (policy_id q) (policy_id p))
                    && bool_decide (policy_network q = policy_network p)
                    && bool_decide (scopeType q = scopeType p)
                    && String.eqb (default "" (scopeId q)) (default "" (scopeId p))) ps.

(** [insertRevision]: [UNIQUE (policy_id, version)] on an append-only table. *)
Definition insertRevision (revisionId : string) (p : SponsorshipBudgetPolicy) (l : Ledger)
    : result Ledger :=
  if existsb (fun r => String.eqb (policy_id (revision_policy r)) (policy_id p)
                       && (version (revision_policy r) =? version p)) (revisions l)
  then Err (database_error "23505" "sponsorship_budget_policy_revisions_policy_id_version_key")
  else Ok (mkLedger (reservations l) (policies l)
             (revisions l ++ [mkRevision revisionId p]) (configFailures l)).

Definition with_policies (l : Ledger) (ps : list SponsorshipBudgetPolicy) : Ledger :=
  mkLedger (reservations l) ps (revisions l) (configFailures l).

(** [UPDATE sponsorship_budget_policies SET f WHERE p] on the one row of a scope,
    with its revision, in one transaction. *)
Definition update_policy (revisionId : string) (p : SponsorshipBudgetPolicy -> bool)
    (f : SponsorshipBudgetPolicy -> SponsorshipBudgetPolicy) (l : Ledger)
    : result (option SponsorshipBudgetPolicy * Ledger) :=
  match List.find p (policies l) with
  | None => Ok (None, l)
  | Some old =>
      let row := f old in
      let l' := with_policies l (List.map (fun q => if p q then f q else q) (policies l)) in
      let? l'' := insertRevision revisionId row l' in
      Ok (Some row, l'')
  end.

Record SetPolicyEnabledInput := mkSetEnabled {
  set_network : SponsorshipNetwork;
  set_scopeType : SponsorshipBudgetScopeType;
  set_scopeId : option string;
  set_enabled : bool;
  set_operator : string;
  set_reason : string;
  overwriteDisabledProvenance : option bool;
}.

Definition with_enabled (e : bool) (operator reason now : string) (p : SponsorshipBudgetPolicy)
    : SponsorshipBudgetPolicy :=
  mkPolicy (policy_id p) (policy_network p) (scopeType p) (scopeId p) e
    (perTransactionLamports p) (hourlyLamports p) (dailyLamports p) (version p + 1)
    operator reason now.

Definition setPolicyEnabled (now revisionId : string) (input : SetPolicyEnabledInput) (l : Ledger)
    : result (option SponsorshipBudgetPolicy * Ledger) :=
  let overwrite := default true (overwriteDisabledProvenance input) in
  update_policy revisionId
    (fun p => same_scope (set_network input) (set_scopeType input) (set_scopeId input) p
      && (negb (Bool.eqb (enabled p) (set_enabled input))
          || (overwrite && negb (set_enabled input)
              && (negb (String.eqb (updatedBy p) (set_operator input))
                  || negb (String.eqb (updateReason p) (set_reason input))))))
    (with_enabled (set_enabled input) (set_operator input) (set_reason input) now) l.

Definition tripGlobalBreaker (now revisionId : string) (n : SponsorshipNetwork) (reason : string)
    (recoverable : option bool) (l : Ledger) : result (option SponsorshipBudgetPolicy * Ledger) :=
  setPolicyEnabled now revisionId
    (mkSetEnabled n scope_global None false SPONSORSHIP_BREAKER_OPERATOR reason
       (Some (negb (default false recoverable)))) l.

Definition resumeGlobalBreaker (now revisionId : string) (n : SponsorshipNetwork)
    (expectedTripReason reason : string) (l : Ledger)
    : result (option SponsorshipBudgetPolicy * Ledger) :=
  update_policy revisionId
    (fun p => same_scope n scope_global None p && negb (enabled p)
              && String.eqb (updatedBy p) SPONSORSHIP_BREAKER_OPERATOR
              && String.eqb (updateReason p) expectedTripReason)
    (with_enabled true SPONSORSHIP_BREAKER_OPERATOR reason now) l.

Record UpsertPolicyInput := mkUpsert {
  upsert_network : SponsorshipNetwork;
  upsert_scopeType : SponsorshipBudgetScopeType;
  upsert_scopeId : option string;
  upsert_enabled : bool;
  upsert_perTransactionLamports : Z;
  upsert_hourlyLamports : Z;
  upsert_dailyLamports : Z;
  upsert_operator : string;
  upsert_reason : string;
}.

(** [newId] and [revisionId] are the two [randomUUID()]s. On a conflict of ids the
    update keeps the columns the [SET] list does not name. *)
Definition upsertPolicy (now newId revisionId : string) (input : UpsertPolicyInput) (l : Ledger)
    : result (SponsorshipBudgetPolicy * Ledger) :=
  let existing := List.find (same_scope (upsert_network input) (upsert_scopeType input)
                               (upsert_scopeId input)) (policies l) in
  let id := from_option policy_id newId existing in
  let proposed := mkPolicy id (upsert_network input) (upsert_scopeType input)
               (upsert_scopeId input) (upsert_enabled input)
               (upsert_perTransactionLamports input) (upsert_hourlyLamports input)
               (upsert_dailyLamports input) (from_option version 0 existing + 1)
               (upsert_operator input) (upsert_reason input) now in
  if negb (policy_checks proposed) then Err (database_error "23514" "check")
  else
    let? (row, ps) :=
      match List.find (fun p => String.eqb (policy_id p) id) (policies l) with
      | Some q =>
          let row := mkPolicy id (policy_network q) (scopeType q) (scopeId q)
            (enabled proposed) (perTransactionLamports proposed) (hourlyLamports proposed)
            (dailyLamports proposed) (version proposed) (updatedBy proposed)
            (updateReason proposed) now in
          Ok (row, List.map (fun p => if String.eqb (policy_id p) id then row else p) (policies l))
      | None =>
          if scope_taken proposed (policies l)
          then Err (database_error "23505" "idx_sponsorship_budget_policy_scope")
          else Ok (proposed, (policies l ++ [proposed])%list)
      end in
    let? l' := insertRevision revisionId row (with_policies l ps) in
    Ok (row, l').

(** ** The consecutive-failure counter of the reconciler *)

Fixpoint failures_of (n : SponsorshipNetwork) (fs : list (SponsorshipNetwork * Z)) : option Z :=
  match fs with
  | [] => None
  | (m, k) :: rest => if bool_decide (m = n) then Some k else failures_of n rest
  end.

Definition set_failures (n : SponsorshipNetwork) (k : Z) (l : Ledger) : Ledger :=
  mkLedger (reservations l) (policies l) (revisions l)
    ((n, k) :: List.filter (fun '(m, _) => negb (bool_decide (m = n))) (configFailures l)).

Definition recordProviderConfigFailure (n : SponsorshipNetwork) (l : Ledger) : Z * Ledger :=
  let k := match failures_of n (configFailures l) with Some k => k + 1 | None => 1 end in
  (k, set_failures n k l).

Definition resetProviderConfigFailures (n : SponsorshipNetwork) (l : Ledger) : Ledger :=
  match failures_of n (configFailures l) with
  | Some k => if 0 <? k then set_failures n 0 l else l
  | None => l
  end.

(** ** Histories of repository calls *)

(** A call of the repository that writes. *)
Inductive ledger_op : Type :=
| OpCreate (input : CreateSponsorshipReservationInput)
| OpReopen (input : CreateSponsorshipReservationInput) (expectedAttempt : Z)
| OpSigned (id : string) (expectedAttempt : Z) (signedTransaction signature : string)
| OpSubmitted (id : string) (expectedAttempt : Z) (signature : string)
| OpChargedUnknown (id : string) (expectedAttempt : Z) (reason : string)
| OpReleased (id : string) (expectedAttempt : Z) (reason : string)
| OpSettle (id : string) (expectedAttempt : Z) (st : settled_status) (actual : Z)
    (reason : option string)
| OpMiss (id : string) (expectedAttempt expectedMissCount : Z)
| OpRedisSettled (id : string) (expectedAttempt : Z)
| OpSetEnabled (revisionId : string) (input : SetPolicyEnabledInput)
| OpResume (revisionId : string) (n : SponsorshipNetwork) (expectedTripReason reason : string)
| OpUpsert (newId revisionId : string) (input : UpsertPolicyInput)
| OpConfigFailure (n : SponsorshipNetwork)
| OpConfigReset (n : SponsorshipNetwork).

Definition ledger_after {A} (r : result (A * Ledger)) (l : Ledger) : Ledger :=
  match r with Ok (_, l') => l' | Err _ => l end.

(** The tables after a call; a statement that fails changes nothing. *)
Definition apply_op (now : string) (op : ledger_op) (l : Ledger) : Ledger :=
  match op with
  | OpCreate input => ledger_after (createReservation now input l) l
  | OpReopen input a => ledger_after (reopenReleasedReservation now input a l) l
  | OpSigned i a tx sig => ledger_after (markSigned now i a tx sig l) l
  | OpSubmitted i a sig => ledger_after (markSubmitted now i a sig l) l
  | OpChargedUnknown i a reason => ledger_after (markChargedUnknown now i a reason l) l
  | OpReleased i a reason => ledger_after (markReleased now i a reason l) l
  | OpSettle i a st actual reason => ledger_after (settleReservation now i a st actual reason l) l
  | OpMiss i a m => ledger_after (recordReconciliationMiss now i a m l) l
  | OpRedisSettled i a => ledger_after (markRedisSettled now i a l) l
  | OpSetEnabled rev input => ledger_after (setPolicyEnabled now rev input l) l
  | OpResume rev n expected reason => ledger_after (resumeGlobalBreaker now rev n expected reason l) l
  | OpUpsert newId rev input => ledger_after (upsertPolicy now newId rev input l) l
  | OpConfigFailure n => (recordProviderConfigFailure n l).2
  | OpConfigReset n => resetProviderConfigFailures n l
  end.

(** Any interleaving of the calls of all processes. *)
Definition replay (ops : list (string * ledger_op)) (l : Ledger) : Ledger :=
  fold_left (fun l '(now, op) => apply_op now op l) ops l.

(** ** The reservation state machine *)

(** What a row of each status holds. *)
Definition status_columns (r : ReservationRow) : Prop :=
  match row_status r with
  | st_reserved =>
      row_actualLamports r = None /\ row_signature r = None /\ row_signedTransaction r = None
      /\ row_redisSettledAt r = None
  | st_signed =>
      row_actualLamports r = None /\ is_Some (row_signature r)
      /\ is_Some (row_signedTransaction r) /\ row_redisSettledAt r = None
  | st_submitted =>
      row_actualLamports r = None /\ is_Some (row_signature r) /\ row_redisSettledAt r = None
  | st_committed => is_Some (row_actualLamports r) /\ is_Some (row_signature r)
  | st_released => is_Some (row_actualLamports r)
  | st_charged_unknown => row_actualLamports r = None /\ row_redisSettledAt r = None
  end.

Definition row_ok (r : ReservationRow) : Prop := row_checks r = true /\ status_columns r.

Definition signatures_unique (rs : gmap string ReservationRow) : Prop :=
  forall i j ri rj s, rs !! i = Some ri -> rs !! j = Some rj ->
    row_signature ri = Some s -> row_signature rj = Some s -> i = j.

Definition ledger_ok (l : Ledger) : Prop :=
  map_Forall (fun _ => row_ok) (reservations l) /\ signatures_unique (reservations l).

(** How far a status is; the last three are final for their attempt. *)
Definition status_rank (s : SponsorshipReservationStatus) : Z :=
  match s with
  | st_reserved => 0 | st_signed => 1 | st_submitted => 2
  | st_committed | st_released | st_charged_unknown => 3
  end.

Definition advances (s s' : SponsorshipReservationStatus) : Prop :=
  s = s' \/ status_rank s < status_rank s'.

(** Nothing reopens these. *)
Definition final_status (s : SponsorshipReservationStatus) : bool :=
  status_in s [st_committed; st_charged_unknown].

(** What the row of a reservation can be later on. *)
Definition later_row (r r' : ReservationRow) : Prop :=
  (row_network r', row_productEnvironment r', row_organizationId r', row_projectId r',
   row_actorType r', row_actorId r', row_transactionDigest r', row_feePayer r',
   row_recentBlockhash r')
  = (row_network r, row_productEnvironment r, row_organizationId r, row_projectId r,
     row_actorType r, row_actorId r, row_transactionDigest r, row_feePayer r,
     row_recentBlockhash r)
  /\ row_attempt r <= row_attempt r'
  /\ (row_attempt r' = row_attempt r ->
       advances (row_status r) (row_status r')
       /\ row_reservedLamports r' = row_reservedLamports r
       /\ row_hourBucket r' = row_hourBucket r /\ row_dayBucket r' = row_dayBucket r)
  /\ (row_attempt r < row_attempt r' -> final_status (row_status r) = false)
  /\ (final_status (row_status r) = true -> row_actualLamports r' = row_actualLamports r).

(** The reservation and attempt a call is fenced on. *)
Definition fence (op : ledger_op) : option (string * Z) :=
  match op with
  | OpReopen input a => Some (in_id input, a)
  | OpSigned i a _ _ | OpSubmitted i a _ | OpChargedUnknown i a _ | OpReleased i a _
  | OpSettle i a _ _ _ | OpMiss i a _ | OpRedisSettled i a => Some (i, a)
  | _ => None
  end.

(** ** Sample tables *)

Definition sample_input (lamports : Z) : CreateSponsorshipReservationInput :=
  mkReservationInput "r1" devnet env_sandbox "org1" (Some "proj1") "api_key" "key1" "digest1"
    "payer1" "fp1" "hash1" lamports "2026-01-01T10:00:00.000Z" "2026-01-01T00:00:00.000Z" [].

Definition sample_policy (t : SponsorshipBudgetScopeType) (s : option string)
    (by_ reason : string) (on : bool) : SponsorshipBudgetPolicy :=
  mkPolicy ("sbp_" ++ scope_type_text t ++ default "" s) devnet t s on 100 1000 5000 1
    by_ reason "t0".

Definition sample_policies : list SponsorshipBudgetPolicy :=
  [sample_policy scope_global None "migration" "Initial" true;
   sample_policy scope_organization None "migration" "Initial" true;
   sample_policy scope_organization (Some "org1") "ops" "limit" true;
   sample_policy scope_project None "migration" "Initial" true].

Definition sample_ledger : Ledger :=
  mkLedger ∅ sample_policies (List.map (mkRevision "sbpr_1") sample_policies) [].

Definition killed_ledger : Ledger :=
  mkLedger ∅ [sample_policy scope_global None "operator" "incident" false] [] [].

Definition sample_history : list (string * ledger_op) :=
  [("t1", OpCreate (sample_input 50));
   ("t2", OpSigned "r1" 1 "tx1" "sig1");
   ("t3", OpReleased "r1" 2 "stale");
   ("t4", OpSubmitted "r1" 1 "sig1");
   ("t5", OpSettle "r1" 1 settle_committed 30 None);
   ("t6", OpRedisSettled "r1" 1)].

Definition sample_window : WindowInput :=
  mkWindowInput devnet "org1" (Some "proj1") "2026-01-01T10:00:00.000Z"
    "2026-01-01T00:00:00.000Z" None.

(** * Lemmas *)

Lemma signature_free_spec rs i s :
  signature_free rs i s = true <->
  forall sig j r, s = Some sig -> rs !! j = Some r -> j <> i -> row_signature r <> Some sig.
Proof.
  unfold signature_free. destruct s as [sig|]; [|naive_solver].
  rewrite forallb_forall. split.
  - intros H sig' j r [= <-] Hj Hne. specialize (H (j, r)).
    rewrite <- list_elem_of_In, elem_of_map_to_list in H. specialize (H Hj).
    destruct (String.eqb_spec j i); [done|].
    apply negb_true_iff, bool_decide_eq_false in H. done.
  - intros H [j r] Hin. rewrite <- list_elem_of_In, elem_of_map_to_list in Hin.
    destruct (String.eqb_spec j i) as [->|Hne]; [done|].
    apply negb_true_iff, bool_decide_eq_false. by eapply H.
Qed.

Lemma update_reservation_ok id p f l n l' :
  update_reservation id p f l = Ok (n, l') ->
  (n = 0 /\ l' = l)
  \/ (n = 1 /\ exists r, reservations l !! id = Some r /\ p r = true /\ row_checks (f r) = true
      /\ signature_free (reservations l) id (row_signature (f r)) = true
      /\ l' = with_reservations l (<[id := f r]> (reservations l))).
Proof.
  unfold update_reservation. destruct (reservations l !! id) as [r|] eqn:E; [|naive_solver].
  destruct (p r) eqn:Ep; [|naive_solver].
  destruct (row_checks (f r)) eqn:Ec; simpl; [|done].
  destruct (signature_free _ _ _) eqn:Es; simpl; [|done].
  intros [= <- <-]. right. eauto 10.
Qed.

(** A row as the insert writes it. *)
Definition fresh_row (r : ReservationRow) : Prop :=
  row_status r = st_reserved /\ row_actualLamports r = None /\ row_signature r = None
  /\ row_signedTransaction r = None /\ row_redisSettledAt r = None /\ row_attempt r = 1.

Definition row_step (r r' : ReservationRow) : Prop :=
  (status_columns r -> status_columns r') /\ later_row r r'.

(** What a call of the history does to the reservations: nothing, one insert, or
    one fenced step of one row. *)
Definition op_effect (op : ledger_op) (rs rs' : gmap string ReservationRow) : Prop :=
  rs' = rs
  \/ (fence op = None
      /\ exists i r, rs !! i = None /\ fresh_row r /\ row_checks r = true /\ rs' = <[i := r]> rs)
  \/ (exists i r r', rs !! i = Some r /\ rs' = <[i := r']> rs /\ row_checks r' = true
      /\ signature_free rs i (row_signature r') = true
      /\ fence op = Some (i, row_attempt r) /\ row_step r r').

Lemma at_attempt_spec a from r :
  at_attempt a from r = true <-> row_attempt r = a /\ row_status r ∈ from.
Proof. unfold at_attempt. by rewrite andb_true_iff, status_in_spec, Z.eqb_eq. Qed.

Lemma update_effect op id a p f l r' :
  fence op = Some (id, a) ->
  (forall r, p r = true -> row_attempt r = a /\ row_step r (f r)) ->
  r' = update_reservation id p f l ->
  op_effect op (reservations l) (reservations (ledger_after r' l)).
Proof.
  intros Hf Hp ->. destruct (update_reservation id p f l) as [[n l']|e] eqn:E; [|by left].
  apply update_reservation_ok in E as [[-> ->]|(-> & r & Hr & Ep & Hc & Hs & ->)]; [by left|].
  right. right. destruct (Hp r Ep) as [Ha Hstep]. exists id, r, (f r).
  rewrite Ha. by split_and!.
Qed.

Lemma ledger_after_updated_one r l : ledger_after (updated_one r) l = ledger_after r l.
Proof. by destruct r as [[n l']|e]. Qed.

Lemma ledger_after_persist r l : ledger_after (persist_signature r l) l = ledger_after r l.
Proof. destruct r as [[n l']|e]; simpl; [done|]. by destruct (isDuplicateSignatureError e). Qed.

Lemma insertRevision_reservations rev p l l' :
  insertRevision rev p l = Ok l' -> reservations l' = reservations l.
Proof. unfold insertRevision. destruct (existsb _ _); [done|]. by intros [= <-]. Qed.

Lemma update_policy_reservations rev p f l :
  reservations (ledger_after (update_policy rev p f l) l) = reservations l.
Proof.
  unfold update_policy. destruct (List.find p (policies l)); [|done].
  destruct (insertRevision _ _ _) eqn:E; simpl; [|done].
  by apply insertRevision_reservations in E.
Qed.

Lemma upsertPolicy_reservations now nid rev input l :
  reservations (ledger_after (upsertPolicy now nid rev input l) l) = reservations l.
Proof.
  unfold upsertPolicy. destruct (policy_checks _); [|done]. simpl.
  destruct (match List.find _ _ with Some _ => _ | None => _ end) as [[row ps]|e]; [|done].
  simpl. destruct (insertRevision _ _ _) eqn:E; simpl; [|done].
  by apply insertRevision_reservations in E.
Qed.

Ltac row_step :=
  unfold row_step, status_columns, later_row, advances, final_status; cbn;
  let H := fresh in
  split; [intros H | split_and!];
  repeat match goal with
         | E : row_status ?r ∈ _ |- _ => apply list_elem_of_In in E; simpl in E
         | E : _ \/ _ |- _ => destruct E
         | E : False |- _ => destruct E
         | E : _ = row_status ?r |- _ => symmetry in E
         | E : row_status ?r = _ |- _ => rewrite E in *; clear E
         end;
  cbn in *; try (intuition (try lia; try discriminate; eauto); fail).

Lemma create_effect now input l :
  op_effect (OpCreate input) (reservations l)
    (reservations (ledger_after (createReservation now input l) l)).
Proof.
  unfold createReservation. destruct (reservations l !! in_id input) eqn:E; [by left|].
  destruct (row_checks _) eqn:Ec; [|by left].
  right. left. split; [done|]. do 2 eexists. split_and!; [exact E| |exact Ec|reflexivity]. by split_and!.
Qed.

Lemma reopen_effect now input a l :
  op_effect (OpReopen input a) (reservations l)
    (reservations (ledger_after (reopenReleasedReservation now input a l) l)).
Proof.
  unfold reopenReleasedReservation. set (u := update_reservation _ _ _ l).
  assert (op_effect (OpReopen input a) (reservations l) (reservations (ledger_after u l))) as H.
  { eapply update_effect; [reflexivity| |reflexivity].
    intros r. rewrite !andb_true_iff, Z.eqb_eq, !bool_decide_eq_true.
    intros [[Hst Ha] _]. split; [done|]. row_step. }
  destruct u as [[n l']|e]; exact H.
Qed.

Lemma miss_effect now id a m l :
  op_effect (OpMiss id a m) (reservations l)
    (reservations (ledger_after (recordReconciliationMiss now id a m l) l)).
Proof.
  unfold recordReconciliationMiss. rewrite ledger_after_updated_one.
  eapply update_effect; [reflexivity| |reflexivity].
  intros r. rewrite !andb_true_iff, !Z.eqb_eq, status_in_spec.
  intros [[Ha _] Hst]. split; [done|]. row_step.
Qed.

Lemma config_reservations n l :
  reservations (recordProviderConfigFailure n l).2 = reservations l
  /\ reservations (resetProviderConfigFailures n l) = reservations l.
Proof.
  split; [done|]. unfold resetProviderConfigFailures.
  destruct (failures_of _ _); [|done]. by destruct (0 <? _).
Qed.

(** Every call is fenced on the attempt it names and moves one row one step. *)
Lemma apply_op_effect now op l : op_effect op (reservations l) (reservations (apply_op now op l)).
Proof.
  destruct op; cbn [apply_op];
    auto using create_effect, reopen_effect, miss_effect;
    try (left; first [apply update_policy_reservations | apply upsertPolicy_reservations
                     | apply config_reservations]).
  all: unfold markSigned, markSubmitted, markChargedUnknown, markReleased, settleReservation,
    recordReconciliationMiss, markRedisSettled;
    rewrite ?ledger_after_persist, ?ledger_after_updated_one.
  all: eapply update_effect; [reflexivity| |reflexivity];
    intros r Hp; apply at_attempt_spec in Hp as [Ha Hst]; split; [done|];
    try match goal with st : settled_status |- _ => destruct st end; row_step.
Qed.

Lemma row_step_ok r r' : row_ok r -> row_checks r' = true -> row_step r r' -> row_ok r'.
Proof. intros [_ Hc] Hk [Hs _]. split; auto. Qed.

Lemma fresh_row_ok r : fresh_row r -> row_checks r = true -> row_ok r.
Proof.
  intros (Hst & Ha & Hs & Ht & Hr & _) Hc. split; [done|].
  unfold status_columns. by rewrite Hst.
Qed.

Lemma insert_unique rs i r :
  signatures_unique rs -> signature_free rs i (row_signature r) = true ->
  signatures_unique (<[i := r]> rs).
Proof.
  intros Hu Hf j k rj rk s. rewrite signature_free_spec in Hf.
  destruct (decide (j = i)) as [->|Hj], (decide (k = i)) as [->|Hk];
    rewrite ?lookup_insert_eq, ?lookup_insert_ne by done; [done| | |apply Hu].
  - intros [= <-] Hk' Hsr Hsk. by destruct (Hf s k rk Hsr Hk' Hk).
  - intros Hj' [= <-] Hsr Hsk. by destruct (Hf s j rj Hsk Hj' Hj).
Qed.

Lemma op_effect_ok op l rs' :
  ledger_ok l -> op_effect op (reservations l) rs' ->
  map_Forall (fun _ => row_ok) rs' /\ signatures_unique rs'.
Proof.
  intros [Hrow Hsig] [->|[(_ & i & r & Hi & Hf & Hc & ->)|(i & r & r' & Hi & -> & Hc & Hs & _ & Hst)]];
    [done| |].
  - split; [apply map_Forall_insert_2; auto using fresh_row_ok|].
    apply insert_unique; [done|]. destruct Hf as (_ & _ & -> & _). done.
  - split; [|by apply insert_unique].
    apply map_Forall_insert_2; [|done]. eapply row_step_ok; eauto.
Qed.

Lemma replay_snoc ops now op l : replay (ops ++ [(now, op)]) l = apply_op now op (replay ops l).
Proof. unfold replay. by rewrite fold_left_app. Qed.

Lemma advances_trans s1 s2 s3 : advances s1 s2 -> advances s2 s3 -> advances s1 s3.
Proof. unfold advances. intros [->|?] [->|?]; auto. right. lia. Qed.

Lemma final_status_rank s : final_status s = true -> status_rank s = 3.
Proof. by destruct s. Qed.

Lemma advances_final s s' : final_status s = true -> advances s s' -> s' = s.
Proof.
  intros Hf%final_status_rank [->|Hr]; [done|].
  assert (status_rank s' <= 3) by (destruct s'; simpl; lia). lia.
Qed.

Lemma later_row_refl r : later_row r r.
Proof. unfold later_row, advances. intuition; lia. Qed.

Lemma later_row_trans r1 r2 r3 : later_row r1 r2 -> later_row r2 r3 -> later_row r1 r3.
Proof.
  intros (H1 & Ha & Hs & Hf & Hx) (H1' & Ha' & Hs' & Hf' & Hx').
  assert (final_status (row_status r1) = true ->
          row_attempt r2 = row_attempt r1 /\ row_status r2 = row_status r1) as Hkeep.
  { intros F. assert (row_attempt r2 = row_attempt r1) as E.
    { destruct (Z.le_gt_cases (row_attempt r2) (row_attempt r1)); [lia|].
      rewrite Hf in F by lia. done. }
    split; [done|]. apply advances_final; [done|]. by apply Hs. }
  split_and!; [congruence|lia| | |].
  - intros E. destruct Hs as (? & ? & ? & ?); [lia|]. destruct Hs' as (? & ? & ? & ?); [lia|].
    split_and!; [by eapply advances_trans|congruence..].
  - intros Hlt. destruct (final_status (row_status r1)) eqn:F; [|done].
    destruct (Hkeep eq_refl) as [E1 E2]. rewrite E1, E2 in Hf'.
    rewrite Hf' in F by lia. done.
  - intros F. destruct (Hkeep F) as [E1 E2]. rewrite Hx', Hx; [done|done|by rewrite E2].
Qed.

Lemma op_effect_later op rs rs' id r :
  op_effect op rs rs' -> rs !! id = Some r -> exists r', rs' !! id = Some r' /\ later_row r r'.
Proof.
  intros [->|[(_ & i & r0 & Hi & _ & _ & ->)|(i & r0 & r0' & Hi & -> & _ & _ & _ & _ & Hl)]] Hr.
  - eauto using later_row_refl.
  - exists r. rewrite lookup_insert_ne by congruence. auto using later_row_refl.
  - destruct (decide (i = id)) as [->|Hne].
    + exists r0'. rewrite lookup_insert_eq. split; [done|]. congruence.
    + exists r. rewrite lookup_insert_ne by done. auto using later_row_refl.
Qed.

Lemma op_effect_stale op rs rs' id r a :
  op_effect op rs rs' -> rs !! id = Some r -> fence op = Some (id, a) -> a <> row_attempt r ->
  rs' = rs.
Proof.
  intros [->|[(Hf & _)|(i & r0 & r0' & Hi & _ & _ & _ & Hf & _)]] Hr Hf' Ha; congruence.
Qed.

(** ** Usage *)

(** Whether the sum of the window over [p] looks at the row. *)
Definition counted (w : WindowInput) (p : ReservationRow -> bool) (id : string)
    (r : ReservationRow) : bool :=
  bool_decide (row_network r = w_network w)
  && (String.eqb (row_hourBucket r) (w_hourBucket w)
      || String.eqb (row_dayBucket r) (w_dayBucket w))
  && not_excluded w id && p r.

(** What the row of a reservation adds to that sum. *)
Definition contribution (w : WindowInput) (p : ReservationRow -> bool) (id : string)
    (r : ReservationRow) : Z :=
  if counted w p id r && negb (bool_decide (row_status r = st_released)) then charge r else 0.

Lemma sum_where_contribution w p l :
  sum_where w p l = map_fold (fun id r acc => contribution w p id r + acc) 0 (reservations l).
Proof.
  unfold sum_where. f_equal. unfold contribution, counted.
  apply functional_extensionality; intros id; apply functional_extensionality; intros r.
  apply functional_extensionality; intros acc.
  by repeat match goal with |- context [bool_decide ?P] => destruct (bool_decide P) end;
    destruct (String.eqb _ _), (String.eqb _ _), (not_excluded w id), (p r).
Qed.

Lemma sum_where_insert w p l id r r' :
  reservations l !! id = Some r ->
  sum_where w p (with_reservations l (<[id := r']> (reservations l)))
  = sum_where w p l - contribution w p id r + contribution w p id r'.
Proof.
  intros Hr. rewrite !sum_where_contribution. simpl.
  rewrite <- (insert_delete_id _ _ _ Hr) at 2. rewrite <- insert_delete_eq.
  rewrite !map_fold_insert_L; unfold contribution; try apply lookup_delete_eq; intros; lia.
Qed.

Definition usage_at (t : SponsorshipBudgetScopeType) (u : SponsorshipBudgetUsage) : Z :=
  match t with
  | scope_global => usage_global u
  | scope_organization => usage_organization u
  | scope_project => usage_project u
  end.

(** The share of a row in the usage of a scope, by the hour and by the day. *)
Definition hour_share (w : WindowInput) (t : SponsorshipBudgetScopeType) (r : ReservationRow) :=
  String.eqb (row_hourBucket r) (w_hourBucket w) && in_scope w t r.
Definition day_share (w : WindowInput) (t : SponsorshipBudgetScopeType) (r : ReservationRow) :=
  String.eqb (row_dayBucket r) (w_dayBucket w) && in_scope w t r.

Lemma usage_insert w l id r r' t :
  reservations l !! id = Some r ->
  let l' := with_reservations l (<[id := r']> (reservations l)) in
  usage_at t (hour (getWindowUsage w l'))
    = usage_at t (hour (getWindowUsage w l))
      - contribution w (hour_share w t) id r + contribution w (hour_share w t) id r'
  /\ usage_at t (day (getWindowUsage w l'))
    = usage_at t (day (getWindowUsage w l))
      - contribution w (day_share w t) id r + contribution w (day_share w t) id r'.
Proof. intros Hr l'. split; destruct t; by apply sum_where_insert. Qed.

(** The usage of every scope and window that counts the row moves by [d]. *)
Definition usage_shift (w : WindowInput) (id : string) (r : ReservationRow) (d : Z)
    (l l' : Ledger) : Prop :=
  forall t,
    usage_at t (hour (getWindowUsage w l'))
    = usage_at t (hour (getWindowUsage w l)) + (if counted w (hour_share w t) id r then d else 0)
    /\ usage_at t (day (getWindowUsage w l'))
    = usage_at t (day (getWindowUsage w l)) + (if counted w (day_share w t) id r then d else 0).

Lemma contribution_open w p id r :
  row_actualLamports r = None -> row_status r <> st_released ->
  contribution w p id r = if counted w p id r then row_reservedLamports r else 0.
Proof.
  intros Ha Hs. unfold contribution, charge. rewrite Ha, bool_decide_eq_false_2 by done.
  by destruct (counted w p id r).
Qed.

Lemma update_shift w id p f l n l' r d :
  update_reservation id p f l = Ok (n, l') -> reservations l !! id = Some r ->
  (p r = true -> forall q, (q = hour_share w \/ q = day_share w) -> forall t,
     contribution w (q t) id (f r)
     = contribution w (q t) id r + (if counted w (q t) id r then d else 0)) ->
  n = 1 -> usage_shift w id r d l l'.
Proof.
  intros E Hr Hc Hn t.
  apply update_reservation_ok in E as [[-> ->]|(_ & r0 & Hr0 & Hp & _ & _ & ->)]; [done|].
  assert (r0 = r) as -> by congruence.
  destruct (usage_insert w l id r (f r) t Hr) as [-> ->].
  rewrite !(Hc Hp) by auto. lia.
Qed.

Lemma open_row r :
  row_ok r -> status_in (row_status r) [st_reserved; st_signed; st_submitted] = true ->
  row_actualLamports r = None /\ row_status r <> st_released.
Proof.
  intros [_ Hs]. unfold status_columns in Hs. destruct (row_status r); try done; naive_solver.
Qed.

Lemma at_attempt_open a from r :
  at_attempt a from r = true -> row_ok r ->
  (forall s, s ∈ from -> status_in s [st_reserved; st_signed; st_submitted] = true) ->
  row_actualLamports r = None /\ row_status r <> st_released.
Proof. intros [_ Hs]%at_attempt_spec Hok Hf. apply open_row; auto. Qed.

(** A set_outcome of an open row, and what it does to the sums that count it. *)
Lemma outcome_contribution w q id r st sig tx actual reason now sub rec :
  (q = hour_share w \/ q = day_share w) -> row_actualLamports r = None ->
  row_status r <> st_released -> forall t,
  contribution w (q t) id (set_outcome r st sig tx actual reason now sub rec)
  = contribution w (q t) id r
    + (if counted w (q t) id r
       then (if bool_decide (st = st_released) then 0
             else default (row_reservedLamports r) actual) - row_reservedLamports r
       else 0).
Proof.
  intros Hq Ha Hs t. rewrite (contribution_open w (q t) id r Ha Hs).
  unfold contribution, charge. cbn [set_outcome row_status row_actualLamports row_reservedLamports].
  assert (counted w (q t) id (set_outcome r st sig tx actual reason now sub rec)
          = counted w (q t) id r) as -> by (by destruct Hq as [-> | ->]; destruct t).
  destruct (counted w (q t) id r), (bool_decide (st = st_released)); simpl; lia.
Qed.

(** ** Policies *)

Lemma find_none_filter {A} (p : A -> bool) l : List.find p l = None -> List.filter p l = [].
Proof.
  intros H. induction l as [|x l IH]; simpl in *; [done|].
  destruct (p x); [done|auto].
Qed.

Lemma distinct_on_spec t rows :
  match distinct_on t rows with
  | [] => forall p, p ∈ rows -> scopeType p <> t
  | [p] => p ∈ rows /\ scopeType p = t
      /\ (forall q, q ∈ rows -> scopeType q = t -> is_Some (scopeId q) -> is_Some (scopeId p))
  | _ => False
  end.
Proof.
  unfold distinct_on. set (mine := List.filter _ rows).
  assert (forall q, q ∈ mine <-> q ∈ rows /\ scopeType q = t) as Hmine.
  { intros q. unfold mine. rewrite !list_elem_of_In, filter_In, bool_decide_eq_true. done. }
  destruct (List.filter _ mine) as [|p ps] eqn:E.
  - assert (forall q, q ∈ mine -> ~ is_Some (scopeId q)) as Hnone.
    { intros q Hq Hs. assert (q ∈ List.filter (fun p => bool_decide (is_Some (scopeId p))) mine) as H.
      { rewrite list_elem_of_In, filter_In, bool_decide_eq_true. by rewrite <- list_elem_of_In. }
      rewrite E in H. by apply not_elem_of_nil in H. }
    destruct mine as [|p ps] eqn:Em.
    + intros q Hq Ht. assert (q ∈ mine) as H by (rewrite Em; apply Hmine; auto).
      rewrite Em in H. by apply not_elem_of_nil in H.
    + destruct (proj1 (Hmine p)) as [H1 H2]; [left|]. split_and!; [done|done|].
      intros q Hq Ht Hs. exfalso. apply (Hnone q); [|done]. by apply Hmine.
  - assert (p ∈ List.filter (fun p => bool_decide (is_Some (scopeId p))) mine) as H
      by (rewrite E; left).
    rewrite list_elem_of_In, filter_In, bool_decide_eq_true, <- list_elem_of_In in H.
    destruct H as [Hp Hs]. apply Hmine in Hp as [Hp Ht]. by split_and!.
Qed.

Lemma find_scope rows t :
  match List.find (fun p => bool_decide (scopeType p = t)) rows with
  | Some p => p ∈ rows /\ scopeType p = t
  | None => forall p, p ∈ rows -> scopeType p <> t
  end.
Proof.
  destruct (List.find _ rows) as [p|] eqn:E.
  - apply find_some in E as [Hin Ht%bool_decide_eq_true]. by apply list_elem_of_In in Hin.
  - intros p Hp. apply list_elem_of_In in Hp.
    apply (find_none _ _ E) in Hp. by apply bool_decide_eq_false in Hp.
Qed.

Lemma pick_scopes_spec rows scopes ps :
  pick_scopes rows scopes = Ok ps ->
  map scopeType ps = scopes /\ Forall (fun p => p ∈ rows) ps.
Proof.
  revert ps. induction scopes as [|t scopes IH]; intros ps; simpl; [by intros [= <-]|].
  pose proof (find_scope rows t) as Hf. destruct (List.find _ rows) as [p|]; [|done].
  destruct (pick_scopes rows scopes) as [ps'|]; simpl; [|done].
  intros [= <-]. destruct (IH _ eq_refl), Hf. simpl. split; [congruence|by constructor].
Qed.

Lemma pick_scopes_total rows scopes :
  (forall t, t ∈ scopes -> exists p, p ∈ rows /\ scopeType p = t) ->
  exists ps, pick_scopes rows scopes = Ok ps.
Proof.
  induction scopes as [|t scopes IH]; intros H; simpl; [eauto|].
  pose proof (find_scope rows t) as Hf. destruct (List.find _ rows) as [p|].
  - destruct IH as [ps ->]; [|simpl; eauto]. intros t' Ht'. apply H. by right.
  - destruct (H t ltac:(left)) as (p & Hp & Ht). by destruct (Hf p Hp).
Qed.

(** The rows of [DISTINCT ON (scope_type)]: at most one per scope type. *)
Definition distinct_rows (rows : list SponsorshipBudgetPolicy) : list SponsorshipBudgetPolicy :=
  flat_map (fun t => distinct_on t rows) [scope_global; scope_organization; scope_project].

Lemma distinct_rows_spec rows p :
  p ∈ distinct_rows rows ->
  p ∈ rows /\ forall q, q ∈ rows -> scopeType q = scopeType p -> is_Some (scopeId q) ->
                        is_Some (scopeId p).
Proof.
  unfold distinct_rows. rewrite list_elem_of_In, in_flat_map.
  intros (t & _ & Hin). pose proof (distinct_on_spec t rows) as Hd.
  destruct (distinct_on t rows) as [|x [|? ?]]; [done| |done].
  destruct Hin as [->|[]]. naive_solver.
Qed.

Lemma distinct_rows_complete rows p :
  p ∈ rows -> exists q, q ∈ distinct_rows rows /\ scopeType q = scopeType p.
Proof.
  intros Hp. pose proof (distinct_on_spec (scopeType p) rows) as Hd.
  destruct (distinct_on (scopeType p) rows) as [|x [|? ?]] eqn:E; [|exists x|done].
  - by destruct (Hd p Hp).
  - split; [|naive_solver]. unfold distinct_rows. rewrite list_elem_of_In, in_flat_map.
    exists (scopeType p). rewrite E. split; [|by left].
    destruct (scopeType p); simpl; auto.
Qed.

(** ** The breaker *)

(** The global policy of the network is disabled, by someone other than the
    breaker or for a reason other than [R]. *)
Definition down_for_good (n : SponsorshipNetwork) (R : string) (l : Ledger) : Prop :=
  Forall (fun p => same_scope n scope_global None p = true ->
            enabled p = false /\ (updatedBy p <> SPONSORSHIP_BREAKER_OPERATOR \/ updateReason p <> R))
    (policies l).

(** What the service and the reconciler do to policies on their own: trips of the
    global breaker, of which only recoverable ones use the reason [R], and
    resumes of trips with that reason. *)
Definition automatic (R : string) (op : ledger_op) : Prop :=
  match op with
  | OpSetEnabled _ input =>
      exists m reason recoverable,
        input = mkSetEnabled m scope_global None false SPONSORSHIP_BREAKER_OPERATOR reason
                  (Some (negb recoverable))
        /\ (recoverable = true \/ reason <> R)
  | OpResume _ _ expected _ => expected = R
  | OpUpsert _ _ _ => False
  | _ => True
  end.

Lemma insertRevision_policies rev p l l' :
  insertRevision rev p l = Ok l' -> policies l' = policies l.
Proof. unfold insertRevision. destruct (existsb _ _); [done|]. by intros [= <-]. Qed.

Lemma update_policy_down rev p f l n R :
  (forall q, p q = true -> same_scope n scope_global None (f q) = true ->
     (same_scope n scope_global None q = true ->
        enabled q = false /\ (updatedBy q <> SPONSORSHIP_BREAKER_OPERATOR \/ updateReason q <> R)) ->
     enabled (f q) = false
     /\ (updatedBy (f q) <> SPONSORSHIP_BREAKER_OPERATOR \/ updateReason (f q) <> R)) ->
  down_for_good n R l -> down_for_good n R (ledger_after (update_policy rev p f l) l).
Proof.
  intros Hf Hd. unfold update_policy. destruct (List.find p (policies l)); [|done].
  destruct (insertRevision _ _ _) as [l'|e] eqn:E; simpl; [|done].
  apply insertRevision_policies in E. unfold down_for_good in *. rewrite E. simpl.
  rewrite Forall_map. eapply Forall_impl; [exact Hd|]. simpl.
  intros q Hq. destruct (p q) eqn:Ep; auto.
Qed.

Lemma update_reservation_policies id p f l r :
  r = update_reservation id p f l -> policies (ledger_after r l) = policies l.
Proof.
  intros ->. destruct (update_reservation id p f l) as [[n l']|e] eqn:E; [|done].
  by apply update_reservation_ok in E as [[-> ->]|(_ & ? & _ & _ & _ & _ & ->)].
Qed.

(** The calls that are fenced on a reservation leave the policies alone. *)
Lemma fenced_policies now op l :
  is_Some (fence op) -> policies (apply_op now op l) = policies l.
Proof.
  destruct op; cbn [apply_op fence]; try (by intros [? ?]); intros _;
    unfold markSigned, markSubmitted, markChargedUnknown, markReleased, settleReservation,
      recordReconciliationMiss, markRedisSettled;
    rewrite ?ledger_after_persist, ?ledger_after_updated_one;
    try (by eapply update_reservation_policies).
  unfold reopenReleasedReservation. set (u := update_reservation _ _ _ l).
  transitivity (policies (ledger_after u l)); [by destruct u as [[? ?]|?]|].
  by eapply update_reservation_policies.
Qed.

Lemma apply_op_down now op l n R :
  automatic R op -> down_for_good n R l -> down_for_good n R (apply_op now op l).
Proof.
  intros Ha Hd. destruct (fence op) as [x|] eqn:Hf.
  { unfold down_for_good. rewrite fenced_policies; [exact Hd|eauto]. }
  destruct op; try discriminate Hf; cbn [apply_op automatic] in *; try done.
  - unfold createReservation. destruct (_ !! _); [done|]. by destruct (row_checks _).
  - destruct Ha as (m & reason & recoverable & -> & Hr). unfold setPolicyEnabled. cbn.
    apply update_policy_down; [|done]. intros q Hq Hs Hold. simpl. split; [done|].
    destruct Hr as [->|Hr]; [|by right]. simpl in Hq.
    assert (same_scope n scope_global None q = true) as Hq' by exact Hs.
    apply Hold in Hq' as [Hen _]. rewrite Hen in Hq. simpl in Hq.
    rewrite andb_false_r in Hq. done.
  - subst. unfold resumeGlobalBreaker. apply update_policy_down; [|done].
    intros q Hq Hs Hold. exfalso.
    assert (same_scope n scope_global None q = true) as Hq' by exact Hs.
    apply Hold in Hq' as [_ Hp]. rewrite !andb_true_iff, !String.eqb_eq in Hq. naive_solver.
  - unfold resetProviderConfigFailures. destruct (failures_of _ _); [|done].
    by destruct (0 <? _).
Qed.

(** * Theorems *)

(** C23. Whatever calls the processes make, in whatever order and at whatever
    attempts, every row keeps the columns its status promises (an uncommitted
    row has no actual spend, a signed one its transaction, a submitted or
    committed one its signature) and no two reservations hold one signature. *)
Theorem ledger_invariant ops l : ledger_ok l -> ledger_ok (replay ops l).
Proof.
  intros Hl. induction ops as [|[now op] ops IH] using rev_ind; [done|].
  rewrite replay_snoc. exact (op_effect_ok op _ _ IH (apply_op_effect now op _)).
Qed.

(** C21. A reservation is never deleted and keeps its identity; within an attempt
    its status only moves forward and its amount and windows are fixed; a
    committed or charged-unknown reservation is final: it is never reopened and
    its recorded spend never changes. *)
Theorem reservation_lifecycle ops l id r :
  reservations l !! id = Some r ->
  exists r', reservations (replay ops l) !! id = Some r' /\ later_row r r'.
Proof.
  intros Hr. induction ops as [|[now op] ops IH] using rev_ind; [eauto using later_row_refl|].
  destruct IH as (r1 & Hr1 & Hl1). rewrite replay_snoc.
  destruct (op_effect_later op _ _ id r1 (apply_op_effect now op _) Hr1) as (r2 & Hr2 & Hl2).
  eauto using later_row_trans.
Qed.

(** Fencing: a process that still holds an older attempt of a reservation
    changes nothing, whatever it calls and however often. *)
Theorem stale_attempts_change_nothing ops l id r :
  reservations l !! id = Some r ->
  Forall (fun '(_, op) => exists a, fence op = Some (id, a) /\ a <> row_attempt r) ops ->
  reservations (replay ops l) = reservations l.
Proof.
  intros Hr H. induction ops as [|[now op] ops IH] using rev_ind; [done|].
  apply Forall_app in H as [H1 H2]. rewrite Forall_singleton in H2. destruct H2 as (a & Hf & Ha).
  rewrite replay_snoc, <- (IH H1). eapply op_effect_stale; eauto using apply_op_effect.
  by rewrite (IH H1).
Qed.

(** Usage accounting: releasing an open reservation gives back exactly its
    amount to every window and scope that counts it, charging it as unknown gives
    back nothing, and committing it replaces the reserved amount by the actual. *)
Theorem settlement_accounting w now id a reason actual l l' r :
  ledger_ok l -> reservations l !! id = Some r ->
  (markReleased now id a reason l = Ok (true, l') ->
     usage_shift w id r (- row_reservedLamports r) l l')
  /\ (markChargedUnknown now id a reason l = Ok (true, l') -> usage_shift w id r 0 l l')
  /\ (settleReservation now id a settle_committed actual None l = Ok (true, l') ->
     usage_shift w id r (actual - row_reservedLamports r) l l').
Proof.
  intros [Hok _] Hr. specialize (Hok id r Hr). simpl in Hok.
  split_and!; unfold markReleased, markChargedUnknown, settleReservation, updated_one;
    (destruct (update_reservation _ _ _ l) as [[n l0]|e] eqn:E; [|done]);
    intros [= ->%Z.eqb_eq ->];
    (eapply update_shift; [exact E|exact Hr| |done]); intros Hp q Hq t;
    (destruct (at_attempt_open _ _ _ Hp Hok) as [Ha Hs];
      [intros s; rewrite status_in_spec; set_solver|]);
    rewrite outcome_contribution by done; cbn [settled_text];
    rewrite ?bool_decide_eq_true_2, ?bool_decide_eq_false_2 by done; simpl; rewrite ?Ha; simpl;
    destruct (counted w (q t) id r); lia.
Qed.

(** The policies that decide an admission: one per required scope, in the
    order global, organization, project, each of the request's network and
    scope, and a scope's own policy before the default; and the resolution fails
    only when a required scope has no policy at all. *)
Theorem resolvePolicies_spec n organizationId projectId l :
  match resolvePolicies n organizationId projectId l with
  | Ok ps =>
      map scopeType ps = requiredScopes projectId
      /\ Forall (fun p => p ∈ policies l /\ resolves n organizationId projectId p = true
           /\ forall q, q ∈ policies l -> resolves n organizationId projectId q = true ->
                scopeType q = scopeType p -> is_Some (scopeId q) -> is_Some (scopeId p)) ps
  | Err _ =>
      exists t, t ∈ requiredScopes projectId
      /\ forall p, p ∈ policies l -> resolves n organizationId projectId p = true ->
           scopeType p <> t
  end.
Proof.
  unfold resolvePolicies. set (matching := List.filter _ (policies l)).
  assert (forall p, p ∈ matching <-> p ∈ policies l /\ resolves n organizationId projectId p = true)
    as Hm by (intros p; unfold matching; by rewrite !list_elem_of_In, filter_In).
  fold (distinct_rows matching). destruct (existsb _ (requiredScopes projectId)) eqn:E.
  - apply existsb_exists in E as (t & Ht & Hn). exists t. split; [by apply list_elem_of_In|].
    intros p Hp Hr Hst. apply negb_true_iff in Hn.
    destruct (distinct_rows_complete matching p) as (q & Hq & Hqt); [by apply Hm|].
    assert (existsb (fun p => bool_decide (scopeType p = t)) (distinct_rows matching) = true) as E.
    { apply existsb_exists. exists q. rewrite <- list_elem_of_In, bool_decide_eq_true.
      split; [done|congruence]. }
    congruence.
  - destruct (pick_scopes_total (distinct_rows matching) (requiredScopes projectId)) as [ps Eps].
    { intros t Ht. destruct (existsb (fun p => bool_decide (scopeType p = t))
        (distinct_rows matching)) eqn:E'.
      - apply existsb_exists in E' as (p & Hp & Hpt). exists p.
        rewrite list_elem_of_In. split; [done|by apply bool_decide_eq_true in Hpt].
      - assert (existsb (fun t => negb (existsb (fun p => bool_decide (scopeType p = t))
          (distinct_rows matching))) (requiredScopes projectId) = true); [|congruence].
        apply existsb_exists. exists t. rewrite E'. split; [by apply list_elem_of_In|done]. }
    rewrite Eps. apply pick_scopes_spec in Eps as [Hs Hf]. split; [done|].
    eapply Forall_impl; [exact Hf|]. simpl. intros p Hp%distinct_rows_spec.
    destruct Hp as [Hp Hpref]. apply Hm in Hp as [? ?]. split_and!; [done..|].
    intros q Hq Hqr. apply Hpref. by apply Hm.
Qed.

(** The breaker's compare-and-set: once the global policy is disabled by an
    operator, or by a trip for another reason, no sequence of automatic trips and
    recoveries enables it again or makes it look recoverable. *)
Theorem strong_disable_survives ops l n R :
  down_for_good n R l -> Forall (fun '(_, op) => automatic R op) ops ->
  down_for_good n R (replay ops l).
Proof.
  intros Hd H. induction ops as [|[now op] ops IH] using rev_ind; [done|].
  apply Forall_app in H as [H1 H2]. rewrite Forall_singleton in H2.
  rewrite replay_snoc. apply apply_op_down; auto.
Qed.

Lemma sample_ledger_ok : ledger_ok sample_ledger.
Proof. split; [apply map_Forall_empty|]. intros ? ? ? ? ? H. cbn in H. by rewrite lookup_empty in H. Qed.

Lemma sample_reserved_ok : ledger_ok (replay (take 1 sample_history) sample_ledger).
Proof. exact (op_effect_ok _ _ _ sample_ledger_ok (apply_op_effect "t1" _ _)). Qed.

Lemma ledger_invariant_witness :
  ledger_ok (replay sample_history sample_ledger)
  /\ option_map row_status (reservations (replay sample_history sample_ledger) !! "r1")
     = Some st_committed.
Proof. split; [apply ledger_invariant, sample_ledger_ok | reflexivity]. Defined.

Lemma reservation_lifecycle_witness :
  let l := replay (take 1 sample_history) sample_ledger in
  exists r r', reservations l !! "r1" = Some r
    /\ reservations (replay (drop 1 sample_history) l) !! "r1" = Some r' /\ later_row r r'.
Proof.
  intros l. eexists.
  destruct (reservation_lifecycle (drop 1 sample_history) l "r1" _ eq_refl) as (r' & H1 & H2).
  exists r'. by split; [|split].
Defined.

Lemma stale_attempts_change_nothing_witness :
  let l := replay (take 2 sample_history) sample_ledger in
  reservations (replay [("t3", OpReleased "r1" 2 "stale"); ("t4", OpChargedUnknown "r1" 0 "late")] l)
  = reservations l.
Proof.
  intros l. eapply (stale_attempts_change_nothing _ l "r1"); [reflexivity|].
  repeat constructor; eexists; (split; [reflexivity|]); vm_compute; discriminate.
Defined.

Lemma settlement_accounting_witness :
  let l := replay (take 1 sample_history) sample_ledger in
  exists l' r, markReleased "t2" "r1" 1 "rejected" l = Ok (true, l')
    /\ usage_shift sample_window "r1" r (- row_reservedLamports r) l l'
    /\ usage_at scope_project (hour (getWindowUsage sample_window l)) = 50
    /\ usage_at scope_project (hour (getWindowUsage sample_window l')) = 0.
Proof.
  intros l. do 2 eexists. split; [reflexivity|]. split; [|split; reflexivity].
  refine (proj1 (settlement_accounting sample_window "t2" "r1" 1 "rejected" 0 l _ _
    sample_reserved_ok _) _); reflexivity.
Defined.

Lemma strong_disable_survives_witness :
  let ops := [("t1", OpSetEnabled "v1" (mkSetEnabled devnet scope_global None false
                       SPONSORSHIP_BREAKER_OPERATOR "Kora down" (Some false)));
              ("t2", OpResume "v2" devnet "Kora down" "readable again")] in
  down_for_good devnet "Kora down" (replay ops killed_ledger)
  /\ option_map enabled (getGlobalPolicy devnet (replay ops killed_ledger)) = Some false.
Proof.
  intros ops. split; [|reflexivity]. apply (strong_disable_survives ops).
  - apply Forall_singleton. intros _. split; [reflexivity|]. right. discriminate.
  - repeat constructor. exists devnet, "Kora down", true. split; [reflexivity|by left].
Defined.
