(* ===== verification/BudgetRedis.v ===== *)
(** * Sponsorship budgets: the Redis admission layer

    [apps/sdp-api/src/runtime/sponsorship-budget-redis.ts]: its five Lua scripts
    and the methods of [SponsorshipBudgetRedis] that run them. Redis itself is a
    service: the class [RedisStore] names the commands the scripts use and
    [RedisLaws] their documented effects. Redis runs a script atomically, so a
    script is a function on the store; it returns the store with its reply, or no
    reply when it raises an error. Numbers travel as decimal text. *)
From Stdlib Require Import Ascii String ZArith Lia.
From stdpp Require Import base list strings gmap.
From S2P Require Import Prelude Text BudgetTypes.

Local Open Scope string_scope.
Local Open Scope Z_scope.
Local Open Scope sdp_scope.

(** ** Redis *)

Class RedisStore (S : Type) := {
  hget : S -> string -> string -> option string;
  hset : S -> string -> string -> string -> S;
  hincrby : S -> string -> string -> Z -> S;
  hdel : S -> string -> string -> S;
  pexpire : S -> string -> Z -> S;
  (** the string stored at a key, if one is *)
  get : S -> string -> option string;
  set_px : S -> string -> string -> Z -> S;
  del : S -> string -> S;
}.

Definition int64_min : Z := - 2 ^ 63.
Definition int64_max : Z := 2 ^ 63 - 1.

(** What a command does to the fields and strings it can be seen at. [HSET] and
    [HINCRBY] fail on a key that holds a string, [HINCRBY] on a field that is not
    a number and outside 64 bits. *)
Class RedisLaws (S : Type) `{RedisStore S} := {
  hget_hset s k f v k' f' :
    get s k = None ->
    hget (hset s k f v) k' f' = if decide (k' = k /\ f' = f) then Some v else hget s k' f';
  get_hset s k f v k' : get (hset s k f v) k' = get s k';
  hget_hincrby s k f d n k' f' :
    get s k = None -> default "0" (hget s k f) = z_text n ->
    int64_min <= n -> int64_min <= n + d <= int64_max ->
    hget (hincrby s k f d) k' f'
      = if decide (k' = k /\ f' = f) then Some (z_text (n + d)) else hget s k' f';
  get_hincrby s k f d k' : get (hincrby s k f d) k' = get s k';
  hget_hdel s k f k' f' :
    hget (hdel s k f) k' f' = if decide (k' = k /\ f' = f) then None else hget s k' f';
  get_hdel s k f k' : get (hdel s k f) k' = get s k';
  hget_pexpire s k ttl k' f : 0 < ttl -> hget (pexpire s k ttl) k' f = hget s k' f;
  get_pexpire s k ttl k' : 0 < ttl -> get (pexpire s k ttl) k' = get s k';
  get_set s k v ttl k' :
    0 < ttl -> get (set_px s k v ttl) k' = if decide (k' = k) then Some v else get s k';
  hget_set s k v ttl k' f : k' <> k -> hget (set_px s k v ttl) k' f = hget s k' f;
  get_del s k k' : get (del s k) k' = if decide (k' = k) then None else get s k';
  hget_del s k k' f : k' <> k -> hget (del s k) k' f = hget s k' f;
}.

(** ** Lua *)

(** [tonumber(s)] of the numbers the scripts and their callers write; any other
    text is an error where the script computes with it. *)
Definition tonumber (s : string) : option Z :=
  match chars s with
  | [] => None
  | c :: ds =>
      if Ascii.eqb c "-" then
        match ds with
        | [] => None
        | _ => if all_digits ds then Some (- of_digits ds) else None
        end
      else if all_digits (c :: ds) then Some (of_digits (c :: ds)) else None
  end.

(** [ARGV[i]] *)
Definition argv (ARGV : list string) (i : nat) : option string := ARGV !! (i - 1)%nat.
Definition argn (ARGV : list string) (i : nat) : option Z := argv ARGV i ≫= tonumber.

Record BudgetKeys := mkKeys {
  k_hour : string;
  k_day : string;
  k_reservation : string;
  k_settlement : string;
  k_control : string;
}.

Definition initialized (field : string) : string := "__initialized:" ++ field.
Definition owned (ownership field : string) : string := ownership ++ ":" ++ field.

Definition is_some {A} (o : option A) : bool := match o with Some _ => true | None => false end.

Section Scripts.
Context {S : Type} `{RedisStore S}.

(** [tonumber(redis.call('HGET', key, field) or '0')] *)
Definition counter (s : S) (key field : string) : option Z :=
  tonumber (default "0" (hget s key field)).

(** *** RESERVE_LUA *)

Record ScopeArg := mkScope {
  sc_field : string;
  sc_per_tx : Z;
  sc_hour_limit : Z;
  sc_day_limit : Z;
  sc_control_field : string;
  sc_expected_version : string;
}.

Record ReserveArgs := mkReserve {
  ra_amount : Z;
  ra_scopes : list ScopeArg;
  ra_ttl : Z;
  ra_ownership : string;
}.

(** The six arguments of scope [i], at [offset = 2 + ((i - 1) * 6)]. *)
Definition decodeScope (ARGV : list string) (i : nat) : option ScopeArg :=
  let offset := (2 + (i - 1) * 6)%nat in
  field ← argv ARGV (offset + 1);
  per_tx ← argn ARGV (offset + 2);
  hour_limit ← argn ARGV (offset + 3);
  day_limit ← argn ARGV (offset + 4);
  control_field ← argv ARGV (offset + 5);
  expected_version ← argv ARGV (offset + 6);
  Some (mkScope field per_tx hour_limit day_limit control_field expected_version).

Definition decodeReserve (ARGV : list string) : option ReserveArgs :=
  amount ← argn ARGV 1;
  count ← argn ARGV 2;
  let count := Z.to_nat count in
  scopes ← mapM (decodeScope ARGV) (seq 1 count);
  ttl ← argn ARGV (3 + count * 6);
  ownership ← argv ARGV (4 + count * 6);
  Some (mkReserve amount scopes ttl ownership).

(** The first loop: every counter is initialized and every control is the
    expected version, enabled. The scope that is not, with its index. *)
Fixpoint reserveControls (s : S) (K : BudgetKeys) (i : Z) (scopes : list ScopeArg)
    : option (list Z) :=
  match scopes with
  | [] => None
  | sc :: rest =>
      let marker := initialized (sc_field sc) in
      if negb (is_some (hget s (k_hour K) marker)) || negb (is_some (hget s (k_day K) marker))
      then Some [-2; i]
      else
        match hget s (k_control K) (sc_control_field sc) with
        | None => Some [-3; i]
        | Some control =>
            if negb (String.eqb control (sc_expected_version sc ++ ":1")) then Some [-3; i]
            else reserveControls s K (i + 1) rest
        end
  end.

(** [counts]: this attempt is already charged to the field. *)
Definition reserveCounts (s : S) (key ownership : string) (scopes : list ScopeArg)
    (field : string) : bool :=
  if is_some (hget s key (owned ownership field)) then true
  else if negb (is_some (hget s key ownership)) then false
  else negb (existsb (fun sc => is_some (hget s key (owned ownership (sc_field sc)))) scopes).

Definition exceeds (counted : bool) (used amount limit : Z) : bool :=
  if counted then limit <? used else limit <? used + amount.

(** The second loop: a denial, or which counters already count the attempt. *)
Fixpoint reserveLimits (s : S) (K : BudgetKeys) (a : ReserveArgs) (i : Z)
    (scopes : list ScopeArg) : option (list Z + list (bool * bool)) :=
  match scopes with
  | [] => Some (inr [])
  | sc :: rest =>
      if sc_per_tx sc <? ra_amount a then Some (inl [0; i; -1; -1])
      else
        let counted_hour := reserveCounts s (k_hour K) (ra_ownership a) (ra_scopes a) (sc_field sc) in
        let counted_day := reserveCounts s (k_day K) (ra_ownership a) (ra_scopes a) (sc_field sc) in
        hour_used ← counter s (k_hour K) (sc_field sc);
        day_used ← counter s (k_day K) (sc_field sc);
        if exceeds counted_hour hour_used (ra_amount a) (sc_hour_limit sc)
        then Some (inl [0; i; hour_used; day_used])
        else if exceeds counted_day day_used (ra_amount a) (sc_day_limit sc)
        then Some (inl [0; i; hour_used; day_used])
        else
          rest' ← reserveLimits s K a (i + 1) rest;
          Some (match rest' with
                | inl denial => inl denial
                | inr counted => inr ((counted_hour, counted_day) :: counted)
                end)
  end.

Definition chargeField (key ownership field : string) (amount : Z) (counted : bool) (s : S) : S :=
  if counted then s
  else hset (hincrby s key field amount) key (owned ownership field) (z_text amount).

(** The third loop. *)
Fixpoint reserveCharge (K : BudgetKeys) (a : ReserveArgs)
    (work : list (ScopeArg * (bool * bool))) (s : S) : S :=
  match work with
  | [] => s
  | (sc, (counted_hour, counted_day)) :: rest =>
      let s := chargeField (k_hour K) (ra_ownership a) (sc_field sc) (ra_amount a) counted_hour s in
      let s := chargeField (k_day K) (ra_ownership a) (sc_field sc) (ra_amount a) counted_day s in
      reserveCharge K a rest s
  end.

Definition reserveRecord (K : BudgetKeys) (a : ReserveArgs) (s : S) : S :=
  let s := hset s (k_hour K) (ra_ownership a) (z_text (ra_amount a)) in
  let s := hset s (k_day K) (ra_ownership a) (z_text (ra_amount a)) in
  set_px s (k_reservation K) (z_text (ra_amount a)) (ra_ttl a).

Definition reserveBody (K : BudgetKeys) (a : ReserveArgs) (s : S) : S * option (list Z) :=
  let existing := get s (k_reservation K) in
  match reserveControls s K 1 (ra_scopes a) with
  | Some refusal => (s, Some refusal)
  | None =>
      if is_some existing || is_some (get s (k_settlement K))
      then (s, Some (2 :: match tonumber (default "0" existing) with Some n => [n] | None => [] end))
      else
        match reserveLimits s K a 1 (ra_scopes a) with
        | None => (s, None)
        | Some (inl denial) => (s, Some denial)
        | Some (inr counted) =>
            (reserveRecord K a (reserveCharge K a (combine (ra_scopes a) counted) s),
             Some [1; ra_amount a])
        end
  end.

Definition RESERVE_LUA (K : BudgetKeys) (ARGV : list string) (s : S) : S * option (list Z) :=
  match decodeReserve ARGV with
  | None => (s, None)
  | Some a => reserveBody K a s
  end.

(** *** SYNC_CONTROL_LUA *)

(** [string.find(current, ':')] and [string.sub(current, 1, separator - 1)] *)
Definition before_colon (current : string) : option string :=
  n ← index_of ":" (chars current); Some (text (take n (chars current))).

Definition SYNC_CONTROL_LUA (control : string) (ARGV : list string) (s : S)
    : S * option (list Z) :=
  let write :=
    match argv ARGV 1, argv ARGV 2, argv ARGV 3 with
    | Some field, Some version, Some flag =>
        (hset s control field (version ++ ":" ++ flag), Some [1])
    | _, _, _ => (s, None)
    end in
  match argv ARGV 1 with
  | None => (s, None)
  | Some field =>
      match hget s control field with
      | None => write
      | Some current =>
          match before_colon current ≫= tonumber, argn ARGV 2 with
          | Some current_version, Some version =>
              if version <? current_version then (s, Some [0]) else write
          | _, _ => (s, None)
          end
      end
  end.

(** *** CANCEL_LUA *)

(** [covers]: the hash counts this attempt against the field. *)
Definition covers (s : S) (key ownership : string) (fields : list string) (field : string) : bool :=
  if is_some (hget s key (owned ownership field)) then true
  else if negb (is_some (hget s key ownership)) then false
  else if existsb (fun f => is_some (hget s key (owned ownership f))) fields then false
  else is_some (hget s key (initialized field)).

(** [if hour_owned and tonumber(hour_owned) ~= amount then] *)
Definition disagrees (o : option string) (amount : Z) : bool :=
  match o with
  | None => false
  | Some v => negb (bool_decide (tonumber v = Some amount))
  end.

(** A counter the hash counts is at least [floor], for every field; [None] where
    a counter is not a number. *)
Fixpoint countersCover (s : S) (key ownership : string) (all : list string) (floor : Z)
    (fields : list string) : option bool :=
  match fields with
  | [] => Some true
  | f :: rest =>
      if covers s key ownership all f then
        used ← counter s key f;
        if used <? floor then Some false else countersCover s key ownership all floor rest
      else countersCover s key ownership all floor rest
  end.

(** Both hashes, field by field. *)
Fixpoint cancelGuard (s : S) (K : BudgetKeys) (ownership : string) (all : list string)
    (amount : Z) (fields : list string) : option bool :=
  match fields with
  | [] => Some true
  | f :: rest =>
      hour_ok ← countersCover s (k_hour K) ownership all amount [f];
      if negb hour_ok then Some false
      else
        day_ok ← countersCover s (k_day K) ownership all amount [f];
        if negb day_ok then Some false else cancelGuard s K ownership all amount rest
  end.

(** [adjusted] is computed for every field before any is written. *)
Definition adjustFields (key ownership : string) (fields : list string) (delta : Z)
    (skip_zero : bool) (s : S) : S :=
  fold_left (fun s' f =>
    if covers s key ownership fields f then
      let s' := if skip_zero && (delta =? 0) then s' else hincrby s' key f delta in
      hdel s' key (owned ownership f)
    else s') fields s.

Definition CANCEL_LUA (K : BudgetKeys) (ownership : string) (fields : list string) (s : S)
    : S * option Z :=
  let owned_value := get s (k_reservation K) in
  let hour_owned := hget s (k_hour K) ownership in
  let day_owned := hget s (k_day K) ownership in
  match (match owned_value with
         | Some v => Some v
         | None => match hour_owned with Some v => Some v | None => day_owned end
         end) with
  | None => (s, Some 0)
  | Some amount_value =>
      match tonumber amount_value with
      | None => (s, None)
      | Some amount =>
          if disagrees hour_owned amount then (s, Some (-2))
          else if disagrees day_owned amount then (s, Some (-2))
          else
            match cancelGuard s K ownership fields amount fields with
            | None => (s, None)
            | Some false => (s, Some (-1))
            | Some true =>
                let s := adjustFields (k_hour K) ownership fields (- amount) false s in
                let s := adjustFields (k_day K) ownership fields (- amount) false s in
                let s := hdel s (k_hour K) ownership in
                let s := hdel s (k_day K) ownership in
                (del s (k_reservation K), Some amount)
            end
      end
  end.

(** *** SETTLE_LUA *)

Record SettleArgs := mkSettle {
  sa_reserved : Z;
  sa_actual : Z;
  sa_fields : list string;
  sa_ttl : Z;
  sa_detectMissing : bool;
  sa_ownership : string;
}.

(** One hash of the checking loop: a refusal, or none. *)
Definition settleGuard (s : S) (key : string) (a : SettleArgs) : option (option (list Z)) :=
  let delta := sa_actual a - sa_reserved a in
  if disagrees (hget s key (sa_ownership a)) (sa_reserved a) then Some (Some [0; 2])
  else if delta <? 0 then
    ok ← countersCover s key (sa_ownership a) (sa_fields a) (- delta) (sa_fields a);
    Some (if ok : bool then None else Some [0; 1])
  else Some None.

Definition settleHash (key : string) (a : SettleArgs) (s : S) : S :=
  hdel (adjustFields key (sa_ownership a) (sa_fields a) (sa_actual a - sa_reserved a) true s)
       key (sa_ownership a).

Definition SETTLE_LUA (K : BudgetKeys) (a : SettleArgs) (s : S) : S * option (list Z) :=
  let delta := sa_actual a - sa_reserved a in
  if is_some (get s (k_settlement K)) then (s, Some [1; 0])
  else
    let owned_value := get s (k_reservation K) in
    if negb (is_some owned_value) && negb (sa_detectMissing a) then (s, Some [0; 2])
    else if disagrees owned_value (sa_reserved a) then (s, Some [0; 2])
    else
      match settleGuard s (k_hour K) a with
      | None => (s, None)
      | Some (Some refusal) => (s, Some refusal)
      | Some None =>
          match settleGuard s (k_day K) a with
          | None => (s, None)
          | Some (Some refusal) => (s, Some refusal)
          | Some None =>
              let s := settleHash (k_hour K) a s in
              let s := settleHash (k_day K) a s in
              let s := del s (k_reservation K) in
              (set_px s (k_settlement K) (z_text (sa_actual a)) (sa_ttl a), Some [1; delta])
          end
      end.

(** *** INITIALIZE_LUA *)

(** The live reservation whose arguments start at the cursor: ownership field,
    reserved lamports, settlement key and scope fields. *)
Record LiveArg := mkLiveArg {
  la_ownership : string;
  la_reserved : Z;
  la_settlement_key : string;
  la_fields : list string;
}.

Record InitializeArgs := mkInitialize {
  ia_fields : list string;
  ia_hour : list string;
  ia_day : list string;
  ia_hour_ttl : Z;
  ia_day_ttl : Z;
  ia_live_hour : list LiveArg;
  ia_live_day : list LiveArg;
}.

(** The seeding loop: a field that carries no marker in a hash gets the ledger's
    value there; [seeded_hour] and [seeded_day] collect such fields. *)
Fixpoint seedFields (K : BudgetKeys) (work : list (string * (string * string))) (s : S)
    : S * (list string * list string) :=
  match work with
  | [] => (s, ([], []))
  | (field, (hour_value, day_value)) :: rest =>
      let marker := initialized field in
      let seed key value s := hset (hset s key field value) key marker "1" in
      let new_hour := negb (is_some (hget s (k_hour K) marker)) in
      let s := if new_hour then seed (k_hour K) hour_value s else s in
      let new_day := negb (is_some (hget s (k_day K) marker)) in
      let s := if new_day then seed (k_day K) day_value s else s in
      let '(s, (seeded_hour, seeded_day)) := seedFields K rest s in
      (s, ((if new_hour then [field] else []) ++ seeded_hour,
           (if new_day then [field] else []) ++ seeded_day)%list)
  end.

(** [reconstruct] for one field of one live reservation. *)
Definition reconstructField (key : string) (la : LiveArg) (seeded : list string)
    (field : string) (s : S) : S * option unit :=
  if existsb (String.eqb field) seeded then
    match get s (la_settlement_key la) with
    | Some settled =>
        match tonumber settled with
        | None => (s, None)
        | Some n =>
            let delta := n - la_reserved la in
            (if delta =? 0 then s else hincrby s key field delta, Some tt)
        end
    | None =>
        (hset (hset s key (owned (la_ownership la) field) (z_text (la_reserved la)))
              key (la_ownership la) (z_text (la_reserved la)), Some tt)
    end
  else (s, Some tt).

(** Runs the steps in order; the first error stops the script, keeping the writes
    made so far. *)
Fixpoint in_order (steps : list (S -> S * option unit)) (s : S) : S * option unit :=
  match steps with
  | [] => (s, Some tt)
  | step :: rest =>
      match step s with
      | (s', Some _) => in_order rest s'
      | (s', None) => (s', None)
      end
  end.

Definition reconstruct (key : string) (seeded : list string) (live : list LiveArg)
    : S -> S * option unit :=
  in_order (flat_map (fun la => List.map (reconstructField key la seeded) (la_fields la)) live).

Definition INITIALIZE_LUA (K : BudgetKeys) (a : InitializeArgs) (s : S) : S * option (list Z) :=
  let '(s, (seeded_hour, seeded_day)) :=
    seedFields K (combine (ia_fields a) (combine (ia_hour a) (ia_day a))) s in
  let s := pexpire s (k_hour K) (ia_hour_ttl a) in
  let s := pexpire s (k_day K) (ia_day_ttl a) in
  match in_order [reconstruct (k_hour K) seeded_hour (ia_live_hour a);
                  reconstruct (k_day K) seeded_day (ia_live_day a)] s with
  | (s, Some _) => (s, Some [1])
  | (s, None) => (s, None)
  end.
End Scripts.

(** ** [SponsorshipBudgetRedis] *)

Record BudgetAdmissionInput := mkAdmission {
  ad_network : SponsorshipNetwork;
  ad_organizationId : string;
  ad_projectId : option string;
  ad_hourBucket : string;
  ad_dayBucket : string;
  ad_reservationId : string;
  ad_attempt : Z;
  ad_amount : Z;
  ad_policies : list SponsorshipBudgetPolicy;
  ad_usage : windows SponsorshipBudgetUsage;
  ad_liveReservations : option (windows (list SponsorshipLiveWindowReservation));
}.

(** The input of [cancel]. *)
Record BudgetCancelInput := mkCancel {
  ca_network : SponsorshipNetwork;
  ca_organizationId : string;
  ca_projectId : option string;
  ca_hourBucket : string;
  ca_dayBucket : string;
  ca_reservationId : string;
  ca_attempt : Z;
}.

(** The input of [settle]. *)
Record BudgetSettleInput := mkSettlement {
  se_cancel : BudgetCancelInput;
  se_reservedLamports : Z;
  se_actualLamports : Z;
  se_detectMissingReservation : bool;
}.

Inductive reserve_outcome := admitted | duplicate | denied | stale_policy.
#[export] Instance reserve_outcome_eq : EqDecision reserve_outcome.
Proof. solve_decision. Defined.

Definition key_prefix (n : SponsorshipNetwork) : string :=
  "sdp:sponsorship:{" ++ network_text n ++ "}".

Definition control_key (n : SponsorshipNetwork) : string := key_prefix n ++ ":control".

Definition settlement_key (n : SponsorshipNetwork) (reservationId : string) (attempt : Z)
    : string := key_prefix n ++ ":settlement:" ++ reservationId ++ ":" ++ z_text attempt.

Definition keys (n : SponsorshipNetwork) (hourBucket dayBucket reservationId : string)
    (attempt : Z) : BudgetKeys :=
  mkKeys (key_prefix n ++ ":hour:" ++ hourBucket) (key_prefix n ++ ":day:" ++ dayBucket)
    (key_prefix n ++ ":reservation:" ++ reservationId ++ ":" ++ z_text attempt)
    (settlement_key n reservationId attempt) (control_key n).

Definition fields (organizationId : string) (projectId : option string) : list string :=
  ["global"; "organization:" ++ organizationId]
  ++ match projectId with
     | Some p => if truthy projectId then ["project:" ++ p] else []
     | None => []
     end.

Definition ownershipField (reservationId : string) (attempt : Z) : string :=
  "__reservation:" ++ reservationId ++ ":" ++ z_text attempt.

Definition controlField (p : SponsorshipBudgetPolicy) : string :=
  scope_type_text (scopeType p) ++ ":" ++ default "default" (scopeId p).

Definition ttlUntilNextHour (now : Z) : Z :=
  Z.max 60000 (3600000 - now mod 3600000 + 3600000).
Definition ttlUntilNextDay (now : Z) : Z :=
  Z.max 60000 (86400000 - now mod 86400000 + 86400000).

Definition admission_keys (i : BudgetAdmissionInput) : BudgetKeys :=
  keys (ad_network i) (ad_hourBucket i) (ad_dayBucket i) (ad_reservationId i) (ad_attempt i).
Definition cancel_keys (i : BudgetCancelInput) : BudgetKeys :=
  keys (ca_network i) (ca_hourBucket i) (ca_dayBucket i) (ca_reservationId i) (ca_attempt i).

Definition usage_values (projectId : option string) (u : SponsorshipBudgetUsage) : list string :=
  List.map z_text ([usage_global u; usage_organization u]
                   ++ (if truthy projectId then [usage_project u] else [])).

Definition live_arg (n : SponsorshipNetwork) (r : SponsorshipLiveWindowReservation) : LiveArg :=
  mkLiveArg (ownershipField (live_id r) (live_attempt r)) (live_reservedLamports r)
    (settlement_key n (live_id r) (live_attempt r))
    (fields (live_organizationId r) (live_projectId r)).

Definition initialize_args (now : Z) (i : BudgetAdmissionInput) : InitializeArgs :=
  let live := default (mkWindows [] []) (ad_liveReservations i) in
  mkInitialize (fields (ad_organizationId i) (ad_projectId i))
    (usage_values (ad_projectId i) (hour (ad_usage i)))
    (usage_values (ad_projectId i) (day (ad_usage i)))
    (ttlUntilNextHour now) (ttlUntilNextDay now)
    (List.map (live_arg (ad_network i)) (hour live)) (List.map (live_arg (ad_network i)) (day live)).

Definition sync_args (p : SponsorshipBudgetPolicy) : list string :=
  [controlField p; z_text (version p); if enabled p then "1" else "0"].

(** [new Map(policies.map((policy) => [policy.scopeType, policy]))]: the last wins. *)
Definition policyByScope (ps : list SponsorshipBudgetPolicy) (t : SponsorshipBudgetScopeType)
    : option SponsorshipBudgetPolicy :=
  List.find (fun p => bool_decide (scopeType p = t)) (rev ps).

Definition scope_of_index (index : nat) : SponsorshipBudgetScopeType :=
  match index with
  | 0%nat => scope_global
  | 1%nat => scope_organization
  | _ => scope_project
  end.

(** The loop that pushes six arguments per field. *)
Fixpoint scope_args (ps : list SponsorshipBudgetPolicy) (index : nat) (fs : list string)
    : result (list string) :=
  match fs with
  | [] => Ok []
  | f :: rest =>
      match policyByScope ps (scope_of_index index) with
      | None => Err (PlainError ("Missing " ++ scope_type_text (scope_of_index index)
                                 ++ " sponsorship budget policy"))
      | Some p =>
          let? args := scope_args ps (Datatypes.S index) rest in
          Ok ([f; z_text (perTransactionLamports p); z_text (hourlyLamports p);
               z_text (dailyLamports p); controlField p; z_text (version p)] ++ args)%list
      end
  end.

Definition reserve_args (now : Z) (i : BudgetAdmissionInput) : result (list string) :=
  let fs := fields (ad_organizationId i) (ad_projectId i) in
  let? args := scope_args (ad_policies i) 0 fs in
  Ok ([z_text (ad_amount i); z_text (Z.of_nat (length fs))] ++ args
      ++ [z_text (ttlUntilNextDay now); ownershipField (ad_reservationId i) (ad_attempt i)])%list.

Definition settle_args (now : Z) (i : BudgetSettleInput) : SettleArgs :=
  mkSettle (se_reservedLamports i) (se_actualLamports i)
    (fields (ca_organizationId (se_cancel i)) (ca_projectId (se_cancel i)))
    (ttlUntilNextDay now) (se_detectMissingReservation i)
    (ownershipField (ca_reservationId (se_cancel i)) (ca_attempt (se_cancel i))).

Definition script_error : jserr := PlainError "ERR Error running script".

Section Methods.
Context {S : Type} `{RedisStore S}.

Definition syncPolicy (p : SponsorshipBudgetPolicy) (s : S) : S * result unit :=
  match SYNC_CONTROL_LUA (control_key (policy_network p)) (sync_args p) s with
  | (s, Some _) => (s, Ok tt)
  | (s, None) => (s, Err script_error)
  end.

(** [Promise.all(policies.map(syncPolicy))], in the order of the list. *)
Fixpoint syncPolicies (ps : list SponsorshipBudgetPolicy) (s : S) : S * result unit :=
  match ps with
  | [] => (s, Ok tt)
  | p :: rest =>
      match syncPolicy p s with
      | (s, Ok _) => syncPolicies rest s
      | (s, Err e) => (s, Err e)
      end
  end.

Definition reserve_reply (reply : list Z) : reserve_outcome :=
  match reply with
  | 2 :: _ => duplicate
  | 1 :: _ => admitted
  | -3 :: _ => stale_policy
  | _ => denied
  end.

Definition reserve (now : Z) (i : BudgetAdmissionInput) (s : S) : S * result reserve_outcome :=
  match INITIALIZE_LUA (admission_keys i) (initialize_args now i) s with
  | (s, None) => (s, Err script_error)
  | (s, Some _) =>
      match syncPolicies (ad_policies i) s with
      | (s, Err e) => (s, Err e)
      | (s, Ok _) =>
          match reserve_args now i with
          | Err e => (s, Err e)
          | Ok args =>
              match RESERVE_LUA (admission_keys i) args s with
              | (s, None) => (s, Err script_error)
              | (s, Some reply) => (s, Ok (reserve_reply reply))
              end
          end
      end
  end.

Definition cancel (i : BudgetCancelInput) (s : S) : S * result unit :=
  match CANCEL_LUA (cancel_keys i) (ownershipField (ca_reservationId i) (ca_attempt i))
          (fields (ca_organizationId i) (ca_projectId i)) s with
  | (s, None) => (s, Err script_error)
  | (s, Some reply) =>
      if (reply =? -1) || (reply =? -2)
      then (s, Err (PlainError "Sponsorship budget counter invariant violated during compensation"))
      else (s, Ok tt)
  end.

Definition settle (now : Z) (i : BudgetSettleInput) (s : S) : S * result Z :=
  match SETTLE_LUA (cancel_keys (se_cancel i)) (settle_args now i) s with
  | (s, None) => (s, Err script_error)
  | (s, Some reply) =>
      match reply with
      | [1; delta] => (s, Ok delta)
      | _ => (s, Err (PlainError "Sponsorship budget counter invariant violated during settlement"))
      end
  end.

Definition getPolicyControl (p : SponsorshipBudgetPolicy) (s : S)
    : result (option (Z * bool)) :=
  match hget s (control_key (policy_network p)) (controlField p) with
  | None => Ok None
  | Some value =>
      if negb (truthy (Some value)) then Ok None
      else
        let malformed :=
          Err (PlainError ("Malformed Redis sponsorship control for " ++ policy_id p)) in
        match split_on ":" (chars value) with
        | version :: enabled :: _ =>
            match tonumber (text version) with
            | Some n =>
                if (Z.abs n <=? MAX_SAFE_INTEGER)
                   && (String.eqb (text enabled) "0" || String.eqb (text enabled) "1")
                then Ok (Some (n, String.eqb (text enabled) "1"))
                else malformed
            | None => malformed
            end
        | _ => malformed
        end
  end.
End Methods.

(** ** What the scripts rely on *)

(** The keys and fields of one reservation do not collide. *)
Definition layout (K : BudgetKeys) (ownership : string) (fs : list string) : Prop :=
  NoDup [k_hour K; k_day K; k_reservation K; k_settlement K; k_control K]
  /\ NoDup fs
  /\ Forall (fun f => f <> ownership /\ forall g, f <> owned ownership g) fs.

Section Reliance.
Context {S : Type} `{RedisStore S}.

(** A counter is stored as the decimal text of [n]; an absent one counts [0]. *)
Definition counter_is (s : S) (key f : string) (n : Z) : Prop :=
  default "0" (hget s key f) = z_text n.

(** The counters of the fields are natural numbers in both hashes, and no string
    is stored at the keys of the hashes. *)
Definition counters_ok (s : S) (K : BudgetKeys) (fs : list string) : Prop :=
  (get s (k_hour K) = None /\ get s (k_day K) = None)
  /\ Forall (fun f => forall key, key = k_hour K \/ key = k_day K ->
               exists n, 0 <= n /\ counter_is s key f n) fs.

(** Nothing in the store belongs to this attempt. *)
Definition fresh (s : S) (K : BudgetKeys) (ownership : string) (fs : list string) : Prop :=
  forall key, key = k_hour K \/ key = k_day K ->
    hget s key ownership = None /\ Forall (fun f => hget s key (owned ownership f) = None) fs.

(** Every field of every hash reads alike in the two stores, except that the
    counters of [fs] have moved by [d] in both windows. *)
Definition shifted (K : BudgetKeys) (fs : list string) (d : Z) (s s' : S) : Prop :=
  (forall k f, k <> k_reservation K -> k <> k_settlement K ->
     ~ ((k = k_hour K \/ k = k_day K) /\ f ∈ fs) -> hget s' k f = hget s k f)
  /\ forall key f n, key = k_hour K \/ key = k_day K -> f ∈ fs ->
       counter_is s key f n -> counter_is s' key f (n + d).
End Reliance.

(** The limits a policy sets, within the numbers JavaScript represents. *)
Definition limits_ok (p : SponsorshipBudgetPolicy) : Prop :=
  hourlyLamports p <= MAX_SAFE_INTEGER /\ dailyLamports p <= MAX_SAFE_INTEGER.

(** * Lemmas *)


(** ** A store in memory

    An implementation of the commands on finite maps, for the witnesses. *)
Record memory := mkMemory {
  hashes : gmap (string * string) string;
  strings : gmap string string;
}.

Definition drop_key (k : string) (m : memory) : memory :=
  mkMemory (filter (fun x => x.1.1 <> k) (hashes m)) (delete k (strings m)).

Definition put_field (m : memory) (k f v : string) : memory :=
  match strings m !! k with
  | Some _ => m
  | None => mkMemory (<[(k, f) := v]> (hashes m)) (strings m)
  end.

Definition add_field (m : memory) (k f : string) (d : Z) : memory :=
  match tonumber (default "0" (hashes m !! (k, f))) with
  | None => m
  | Some n =>
      if String.eqb (default "0" (hashes m !! (k, f))) (z_text n)
         && (int64_min <=? n + d) && (n + d <=? int64_max)
      then put_field m k f (z_text (n + d)) else m
  end.

#[export] Instance memory_store : RedisStore memory := {
  hget m k f := hashes m !! (k, f);
  hset := put_field;
  hincrby := add_field;
  hdel m k f := mkMemory (delete (k, f) (hashes m)) (strings m);
  pexpire m k ttl := if 0 <? ttl then m else drop_key k m;
  get m k := strings m !! k;
  set_px m k v ttl :=
    if 0 <? ttl then let m := drop_key k m in mkMemory (hashes m) (<[k := v]> (strings m)) else m;
  del m k := drop_key k m;
}.

Definition empty_memory : memory := mkMemory ∅ ∅.

(** ** What the script decides *)

(** The reference definition of an admission that meets no earlier attempt. *)
Definition admissible {S : Type} `{RedisStore S} (i : BudgetAdmissionInput) (s : S) : Prop :=
  let K := admission_keys i in
  get s (k_reservation K) = None /\ get s (k_settlement K) = None
  /\ forall index f p,
       fields (ad_organizationId i) (ad_projectId i) !! index = Some f ->
       policyByScope (ad_policies i) (scope_of_index index) = Some p ->
       is_Some (hget s (k_hour K) (initialized f)) /\ is_Some (hget s (k_day K) (initialized f))
       /\ hget s (k_control K) (controlField p) = Some (z_text (version p) ++ ":1")
       /\ ad_amount i <= perTransactionLamports p
       /\ exists h d, counter s (k_hour K) f = Some h /\ counter s (k_day K) f = Some d
          /\ h + ad_amount i <= hourlyLamports p /\ d + ad_amount i <= dailyLamports p.

(** The assumptions about one admission the theorems share: the counters of its
    scopes are natural numbers, its amount is one, and its policies satisfy the
    table's CHECK constraints. *)
Definition admission_ok {S : Type} `{RedisStore S} (i : BudgetAdmissionInput) (s : S) : Prop :=
  counters_ok s (admission_keys i) (fields (ad_organizationId i) (ad_projectId i))
  /\ 0 <= ad_amount i /\ Forall limits_ok (ad_policies i).

Definition admission_fresh {S : Type} `{RedisStore S} (i : BudgetAdmissionInput) (s : S) : Prop :=
  fresh s (admission_keys i) (ownershipField (ad_reservationId i) (ad_attempt i))
    (fields (ad_organizationId i) (ad_projectId i)).

Definition cancel_of (i : BudgetAdmissionInput) : BudgetCancelInput :=
  mkCancel (ad_network i) (ad_organizationId i) (ad_projectId i) (ad_hourBucket i)
    (ad_dayBucket i) (ad_reservationId i) (ad_attempt i).

(** The third script of [reserve], once the first two have run. *)
Definition admit_ {S : Type} `{RedisStore S} (now : Z) (i : BudgetAdmissionInput) (s : S)
    : S * option (list Z) :=
  match reserve_args now i with
  | Ok args => RESERVE_LUA (admission_keys i) args s
  | Err _ => (s, None)
  end.

Definition is_admitted (reply : option (list Z)) : Prop :=
  exists r, reply = Some r /\ reserve_reply r = admitted.

(** ** A sample request *)

Definition sample_limits (t : SponsorshipBudgetScopeType) : SponsorshipBudgetPolicy :=
  mkPolicy ("sbp_" ++ scope_type_text t) devnet t None true 100 1000 5000 3 "ops" "limit" "t0".

Definition sample_admission : BudgetAdmissionInput :=
  mkAdmission devnet "org1" (Some "proj1") "2026-01-01T10:00:00.000Z"
    "2026-01-01T00:00:00.000Z" "sbr_1" 1 50
    [sample_limits scope_global; sample_limits scope_organization; sample_limits scope_project]
    (mkWindows (mkUsage 100 100 100) (mkUsage 100 100 100)) None.

(** The store the third script finds. *)
Definition sample_store : memory :=
  (syncPolicies (ad_policies sample_admission)
     (INITIALIZE_LUA (admission_keys sample_admission) (initialize_args 0 sample_admission)
        empty_memory).1).1.

Definition sample_admitted : memory := (admit_ 0 sample_admission sample_store).1.
Lemma to_digits_nonempty n : 0 <= n -> to_digits n <> [].
Proof.
  intros H E. destruct (Z.eq_dec n 0) as [->|]; [discriminate E|].
  destruct (to_digits_head n ltac:(lia)) as (c & l & E' & _). congruence.
Qed.

Lemma tonumber_z_text z : tonumber (z_text z) = Some z.
Proof.
  unfold tonumber, z_text. rewrite chars_text. destruct (Z.ltb_spec z 0) as [Hz|Hz].
  - rewrite Ascii.eqb_refl. pose proof (to_digits_nonempty (- z) ltac:(lia)).
    pose proof (to_digits_all (- z) ltac:(lia)) as Hd.
    pose proof (of_to_digits (- z) ltac:(lia)) as Hv.
    destruct (to_digits (- z)); [done|]. rewrite Hd, Hv. f_equal. lia.
  - pose proof (to_digits_nonempty z Hz). pose proof (to_digits_all z Hz) as Hd.
    pose proof (of_to_digits z Hz) as Hv. destruct (to_digits z) as [|c l]; [done|].
    destruct (Ascii.eqb_spec c "-") as [->|_]; [by rewrite all_digits_cons in Hd|].
    by rewrite Hd, Hv.
Qed.

Lemma counter_value {S} `{RedisStore S} s key f n :
  counter_is s key f n -> counter s key f = Some n.
Proof. unfold counter_is, counter. intros ->. apply tonumber_z_text. Qed.

(** ** Names *)

Lemma append_self s t : s = (s ++ t)%string -> t = "".
Proof. induction s as [|c s IH]; simpl; [done|]. intros [= E]. auto. Qed.

Lemma owned_inj own f g : owned own f = owned own g -> f = g.
Proof. unfold owned. intros E%append_inj_l. by injection E. Qed.

Lemma owned_not_own own f : owned own f <> own.
Proof. unfold owned. intros E. symmetry in E. by apply append_self in E. Qed.

Lemma keys_nodup n h d i a :
  NoDup [k_hour (keys n h d i a); k_day (keys n h d i a); k_reservation (keys n h d i a);
         k_settlement (keys n h d i a); k_control (keys n h d i a)].
Proof.
  destruct n; repeat (apply NoDup_cons; split; [intros Hin; set_unfold in Hin; naive_solver|]);
    apply NoDup_nil_2.
Qed.

Lemma fields_not_owned o p i a f :
  f ∈ fields o p ->
  f <> ownershipField i a /\ forall g, f <> owned (ownershipField i a) g.
Proof.
  intros Hf. assert (exists c r, f = String c r /\ c <> "_"%char) as (c & r & -> & Hc).
  { unfold fields in Hf. destruct p as [p|]; [destruct (truthy _)|];
      set_unfold in Hf; repeat destruct Hf as [Hf|Hf]; subst; try done; simpl; eauto;
      do 2 eexists; (split; [reflexivity|discriminate]). }
  split; [|intros g]; intros E; apply Hc; by injection E.
Qed.

Lemma fields_nodup o p : NoDup (fields o p).
Proof.
  unfold fields. destruct p as [p|]; [destruct (truthy _)|]; simpl;
    repeat (apply NoDup_cons; split; [intros Hin; set_unfold in Hin; naive_solver|]);
    apply NoDup_nil_2.
Qed.

Lemma layout_ok n h d i a o p : layout (keys n h d i a) (ownershipField i a) (fields o p).
Proof.
  split_and!; [apply keys_nodup|apply fields_nodup|].
  apply Forall_forall. intros f. apply fields_not_owned.
Qed.

Lemma keys_distinct K :
  NoDup [k_hour K; k_day K; k_reservation K; k_settlement K; k_control K] ->
  k_hour K <> k_day K /\ k_hour K <> k_reservation K /\ k_hour K <> k_settlement K
  /\ k_day K <> k_reservation K /\ k_day K <> k_settlement K
  /\ k_reservation K <> k_settlement K.
Proof.
  intros Hk. apply NoDup_cons in Hk as [H1 Hk]. apply NoDup_cons in Hk as [H2 Hk].
  apply NoDup_cons in Hk as [H3 _]. set_unfold in H1. set_unfold in H2. set_unfold in H3. tauto.
Qed.

(** ** Effects of the scripts' steps *)

Section Effects.
Context {S : Type} `{RedisLaws S}.

Ltac keycases :=
  repeat match goal with
         | |- context [decide ?P] => destruct (decide P)
         end; try done; try naive_solver.

Lemma counter_hincrby s key f d n k' f' :
  get s key = None -> counter_is s key f n -> 0 <= n -> 0 <= n + d <= int64_max ->
  hget (hincrby s key f d) k' f'
    = if decide (k' = key /\ f' = f) then Some (z_text (n + d)) else hget s k' f'.
Proof. intros. apply hget_hincrby; [done|done| |]; unfold int64_min, int64_max in *; lia. Qed.

(** One charged field of one hash. *)
Lemma chargeField_spec s key own f amount counted n :
  get s key = None -> counter_is s key f n -> 0 <= n -> 0 <= amount ->
  (counted = false -> n + amount <= int64_max) ->
  let s' := chargeField key own f amount counted s in
  (forall k, get s' k = get s k)
  /\ (forall k g, ~ (k = key /\ (g = f \/ g = owned own f)) -> hget s' k g = hget s k g)
  /\ (f <> owned own f -> counter_is s' key f (if counted then n else n + amount))
  /\ (counted = false -> hget s' key (owned own f) = Some (z_text amount)).
Proof.
  intros Hs Hn Hn0 Ha Hmax. unfold chargeField. destruct counted; simpl.
  { split_and!; try done. }
  assert (get (hincrby s key f amount) key = None) as Hs' by (by rewrite get_hincrby).
  assert (0 <= n + amount <= int64_max) as Hr by (specialize (Hmax eq_refl); lia).
  split_and!.
  - intros k. by rewrite get_hset, get_hincrby.
  - intros k g Hg. rewrite hget_hset by done. rewrite (counter_hincrby _ _ _ _ n) by done. keycases.
  - intros Hne. unfold counter_is. rewrite hget_hset by done.
    rewrite (counter_hincrby _ _ _ _ n) by done. keycases.
  - intros _. rewrite hget_hset by done. keycases.
Qed.

Definition charges (own : string) (amount : Z) (L : list (string * string * bool)) (s : S) : S :=
  fold_left (fun (s : S) (x : string * string * bool) =>
    chargeField x.1.1 own x.1.2 amount x.2 s) L s.

(** What each charge of a list needs. *)
Definition chargeable (own : string) (amount : Z) (s : S) (x : string * string * bool) : Prop :=
  let '(key, f, counted) := x in
  get s key = None /\ (forall g, f <> owned own g)
  /\ exists n, 0 <= n /\ counter_is s key f n /\ (counted = false -> n + amount <= int64_max).

Lemma counter_is_same s s' key f n :
  hget s' key f = hget s key f -> counter_is s key f n -> counter_is s' key f n.
Proof. unfold counter_is. by intros ->. Qed.

Lemma chargeable_after own amount s key f counted x :
  chargeable own amount s (key, f, counted) -> 0 <= amount -> chargeable own amount s x ->
  x.1 <> (key, f) ->
  chargeable own amount (chargeField key own f amount counted s) x.
Proof.
  destruct x as [[k g] c]. intros (Hs & Hf & n & Hn0 & Hn & Hmax) Ha (Hs' & Hg & m & Hm0 & Hm & Hmax') Hne.
  destruct (chargeField_spec s key own f amount counted n) as (H1 & H2 & _); [done..|].
  split_and!; [by rewrite H1|done|]. exists m. split_and!; [done| |done].
  eapply counter_is_same; [|exact Hm]. apply H2. simpl in Hne. naive_solver.
Qed.

Lemma charges_spec own amount (L : list (string * string * bool)) s :
  0 <= amount -> NoDup (map fst L) -> Forall (chargeable own amount s) L ->
  let s' := charges own amount L s in
  (forall k, get s' k = get s k)
  /\ (forall k g, (forall f (c : bool), (k, f, c) ∈ L -> g <> f /\ g <> owned own f) ->
       hget s' k g = hget s k g)
  /\ (forall key f (c : bool), (key, f, c) ∈ L ->
       (forall n, counter_is s key f n -> counter_is s' key f (if c then n else n + amount))
       /\ (c = false -> hget s' key (owned own f) = Some (z_text amount))).
Proof.
  intros Ha. revert s. induction L as [|[[key f] c] L IH]; intros s Hnd Hall; simpl.
  { split_and!; [done|done|]. by intros ? ? ? ?%not_elem_of_nil. }
  apply NoDup_cons in Hnd as [Hnin Hnd]. apply Forall_cons in Hall as [Hx Hall].
  pose proof Hx as (Hs & Hf & n & Hn0 & Hn & Hmax).
  destruct (chargeField_spec s key own f amount c n) as (G1 & G2 & G3 & G4); [done..|].
  set (s1 := chargeField key own f amount c s) in *.
  assert (Forall (chargeable own amount s1) L) as Hall1.
  { rewrite Forall_forall in *. intros x Hin. apply chargeable_after; auto.
    intros E. apply Hnin. rewrite <- E. exact (list_elem_of_fmap_2 fst _ _ Hin). }
  destruct (IH s1 Hnd Hall1) as (I1 & I2 & I3). fold s1.
  assert (forall f' c', (key, f', c') ∈ L -> f' <> f) as Hdiff.
  { intros f' c' Hin ->. apply Hnin. exact (list_elem_of_fmap_2 fst _ _ Hin). }
  assert (forall k f' c', (k, f', c') ∈ L -> forall g, f' <> owned own g) as Hno.
  { intros k f' c' Hin. rewrite Forall_forall in Hall. apply (Hall _ Hin). }
  split_and!.
  - intros k. by rewrite I1, G1.
  - intros k g Hg. rewrite I2 by (intros f' c' Hin; apply (Hg f' c'); by right).
    apply G2. intros [-> Hgf]. destruct (Hg f c); [left|]. naive_solver.
  - intros k g c' Hin. apply elem_of_cons in Hin as [[= -> -> ->]|Hin].
    + assert (forall h, h = f \/ h = owned own f -> hget (charges own amount L s1) key h = hget s1 key h)
        as Hkeep.
      { intros h Hh. apply I2. intros f' c' Hin. specialize (Hdiff _ _ Hin).
        specialize (Hno _ _ _ Hin). destruct Hh as [->| ->]; split.
        - congruence.
        - apply Hf.
        - apply not_eq_sym, Hno.
        - intros E%owned_inj. congruence. }
      split.
      * intros m Hm. assert (m = n) as ->.
        { apply counter_value in Hm, Hn. congruence. }
        eapply counter_is_same; [apply Hkeep; auto|]. apply G3, Hf.
      * intros E. rewrite Hkeep by auto. auto.
    + destruct (I3 k g c' Hin) as [J1 J2]. split; [|done].
      intros m Hm. apply J1. eapply counter_is_same; [|exact Hm]. apply G2.
      specialize (Hno _ _ _ Hin). intros [-> [->| ->]]; [by destruct (Hdiff _ _ Hin)|].
      by destruct (Hno f).
Qed.

(** The charges of the third loop of the admission script. *)
Definition charge_list (K : BudgetKeys) (work : list (ScopeArg * (bool * bool)))
    : list (string * string * bool) :=
  flat_map (fun '(sc, (ch, cd)) =>
    [(k_hour K, sc_field sc, ch); (k_day K, sc_field sc, cd)]) work.

Lemma reserveCharge_charges K a work s :
  reserveCharge K a work s = charges (ra_ownership a) (ra_amount a) (charge_list K work) s.
Proof.
  revert s. induction work as [|[sc [ch cd]] work IH]; intros s; simpl; [done|]. by rewrite IH.
Qed.

Lemma charge_list_spec K work key f c :
  (key, f, c) ∈ charge_list K work <->
  exists sc ch cd, (sc, (ch, cd)) ∈ work /\ f = sc_field sc
    /\ (key = k_hour K /\ c = ch \/ key = k_day K /\ c = cd).
Proof.
  unfold charge_list. rewrite list_elem_of_In, in_flat_map. split.
  - intros ([sc [ch cd]] & Hin & Hx). exists sc, ch, cd. rewrite list_elem_of_In.
    simpl in Hx. naive_solver.
  - intros (sc & ch & cd & Hin & -> & Hk). exists (sc, (ch, cd)).
    rewrite <- list_elem_of_In. split; [done|]. simpl. naive_solver.
Qed.

Lemma charge_list_nodup K work :
  k_hour K <> k_day K -> NoDup (map (fun x => sc_field x.1) work) ->
  NoDup (map fst (charge_list K work)).
Proof.
  intros Hk. induction work as [|[sc [ch cd]] work IH]; simpl; [constructor|].
  intros [Hnin Hnd]%NoDup_cons.
  assert (forall key, (key, sc_field sc) ∉ map fst (charge_list K work)) as Hfresh.
  { intros key. rewrite list_elem_of_fmap. intros ([[k f] c] & E & Hin). simpl in E.
    injection E as _ E'. rewrite <- E' in Hin.
    apply charge_list_spec in Hin as (sc' & ch' & cd' & Hin & E & _).
    apply Hnin. rewrite list_elem_of_fmap. exists (sc', (ch', cd')). simpl. auto. }
  apply NoDup_cons. split; [|apply NoDup_cons; split; auto].
  intros [E|Hin]%elem_of_cons; [congruence|by apply Hfresh in Hin].
Qed.

(** ** The admission script *)

Lemma reserveControls_none s K i scopes :
  reserveControls s K i scopes = None ->
  Forall (fun sc => hget s (k_control K) (sc_control_field sc)
                    = Some (sc_expected_version sc ++ ":1")) scopes.
Proof.
  revert i. induction scopes as [|sc scopes IH]; intros i; simpl; [constructor|].
  destruct (negb _ || negb _); [done|].
  destruct (hget s (k_control K) _) as [v|] eqn:E; [|done].
  destruct (String.eqb_spec v (sc_expected_version sc ++ ":1")) as [->|]; simpl; [|done].
  constructor; eauto.
Qed.

Lemma reserveControls_refuses s K i scopes r :
  reserveControls s K i scopes = Some r -> reserve_reply r <> admitted.
Proof.
  revert i. induction scopes as [|sc scopes IH]; intros i; simpl; [done|].
  destruct (negb _ || negb _); [by intros [= <-]|].
  destruct (hget s (k_control K) _); [|by intros [= <-]].
  destruct (String.eqb _ _); simpl; [apply IH|by intros [= <-]].
Qed.

Lemma reserveLimits_refuses s K a i scopes r :
  reserveLimits s K a i scopes = Some (inl r) -> reserve_reply r <> admitted.
Proof.
  revert i r. induction scopes as [|sc scopes IH]; intros i r; simpl; [done|].
  destruct (_ <? _); [by intros [= <-]|].
  destruct (counter s (k_hour K) _); simpl; [|done].
  destruct (counter s (k_day K) _); simpl; [|done].
  destruct (exceeds _ _ _ _); [by intros [= <-]|].
  destruct (exceeds _ _ _ _); [by intros [= <-]|].
  destruct (reserveLimits s K a (i + 1) scopes) as [[r'|c]|] eqn:E; simpl; [|done..].
  intros [= <-]. eauto.
Qed.

(** What the second loop has established of a scope it lets through. *)
Definition within (s : S) (K : BudgetKeys) (a : ReserveArgs) (sc : ScopeArg)
    (counted : bool * bool) : Prop :=
  ra_amount a <= sc_per_tx sc
  /\ counted = (reserveCounts s (k_hour K) (ra_ownership a) (ra_scopes a) (sc_field sc),
                reserveCounts s (k_day K) (ra_ownership a) (ra_scopes a) (sc_field sc))
  /\ exists h d, counter s (k_hour K) (sc_field sc) = Some h
      /\ counter s (k_day K) (sc_field sc) = Some d
      /\ exceeds counted.1 h (ra_amount a) (sc_hour_limit sc) = false
      /\ exceeds counted.2 d (ra_amount a) (sc_day_limit sc) = false.

Lemma reserveLimits_within s K a i scopes counted :
  reserveLimits s K a i scopes = Some (inr counted) -> Forall2 (within s K a) scopes counted.
Proof.
  revert i counted. induction scopes as [|sc scopes IH]; intros i counted; simpl.
  { by intros [= <-]. }
  destruct (Z.ltb_spec (sc_per_tx sc) (ra_amount a)); [done|].
  destruct (counter s (k_hour K) _) as [h|] eqn:Eh; simpl; [|done].
  destruct (counter s (k_day K) _) as [d|] eqn:Ed; simpl; [|done].
  destruct (exceeds _ h _ _) eqn:Xh; [done|]. destruct (exceeds _ d _ _) eqn:Xd; [done|].
  destruct (reserveLimits s K a (i + 1) scopes) as [[r'|c]|] eqn:E; simpl; [done| |done].
  intros [= <-]. constructor; [|eauto]. split_and!; [done..|]. exists h, d. eauto.
Qed.

Lemma reserveBody_admitted K a s s' reply :
  reserveBody K a s = (s', Some reply) -> reserve_reply reply = admitted ->
  exists counted,
    reply = [1; ra_amount a] /\ get s (k_reservation K) = None /\ get s (k_settlement K) = None
    /\ Forall (fun sc => hget s (k_control K) (sc_control_field sc)
                    = Some (sc_expected_version sc ++ ":1")) (ra_scopes a)
    /\ Forall2 (within s K a) (ra_scopes a) counted
    /\ s' = reserveRecord K a (charges (ra_ownership a) (ra_amount a)
              (charge_list K (combine (ra_scopes a) counted)) s).
Proof.
  unfold reserveBody. intros E Hr.
  destruct (reserveControls s K 1 (ra_scopes a)) as [r|] eqn:Ec.
  { injection E as <- <-. by apply reserveControls_refuses in Ec. }
  destruct (get s (k_reservation K)) as [v|] eqn:Ee; simpl in E.
  { injection E as <- <-. discriminate Hr. }
  destruct (get s (k_settlement K)) as [v|] eqn:Es; simpl in E.
  { injection E as <- <-. discriminate Hr. }
  destruct (reserveLimits s K a 1 (ra_scopes a)) as [[r|counted]|] eqn:El; [| |done].
  - injection E as <- <-. by apply reserveLimits_refuses in El.
  - injection E as <- <-. exists counted. rewrite reserveCharge_charges.
    split_and!; eauto using reserveControls_none, reserveLimits_within.
Qed.

Lemma reserveBody_refused K a s s' reply :
  reserveBody K a s = (s', reply) -> (forall r, reply = Some r -> reserve_reply r <> admitted) ->
  s' = s.
Proof.
  unfold reserveBody. intros E Hr.
  destruct (reserveControls _ _ _ _); [by injection E as <- <-|].
  destruct (_ || _); [by injection E as <- <-|].
  destruct (reserveLimits _ _ _ _ _) as [[r|counted]|]; [by injection E as <- <-| |by injection E as <- <-].
  injection E as <- <-. by specialize (Hr _ eq_refl).
Qed.

Lemma combine_fields scopes (counted : list (bool * bool)) :
  length counted = length scopes ->
  map (fun x => sc_field x.1) (combine scopes counted) = map sc_field scopes.
Proof.
  revert counted. induction scopes as [|sc scopes IH]; intros [|c counted]; simpl; try done.
  intros [= E]. f_equal. auto.
Qed.

Lemma elem_of_combine {A B} (l : list A) (k : list B) x y P :
  Forall2 P l k -> (x, y) ∈ combine l k -> P x y.
Proof.
  induction 1 as [|x' y' l k Hp Hl IH]; simpl; [by intros ?%not_elem_of_nil|].
  intros [[= -> ->]|Hin]%elem_of_cons; auto.
Qed.

Lemma combine_complete {A B} (l : list A) (k : list B) x P :
  Forall2 P l k -> x ∈ l -> exists y, (x, y) ∈ combine l k.
Proof.
  induction 1 as [|x' y' l k Hp Hl IH]; simpl; [by intros ?%not_elem_of_nil|].
  intros [->|Hin]%elem_of_cons; [exists y'; left|]. destruct (IH Hin) as [y Hy].
  exists y. by right.
Qed.

Lemma exceeds_false counted used amount limit :
  exceeds counted used amount limit = false ->
  (if counted then used else used + amount) <= limit.
Proof. unfold exceeds. destruct counted; intros H'%Z.ltb_ge; lia. Qed.

(** The charges of an admission can all be made. *)
Lemma admission_chargeable K a s counted :
  layout K (ra_ownership a) (map sc_field (ra_scopes a)) ->
  counters_ok s K (map sc_field (ra_scopes a)) -> 0 <= ra_amount a ->
  Forall (fun sc => sc_hour_limit sc <= MAX_SAFE_INTEGER /\ sc_day_limit sc <= MAX_SAFE_INTEGER)
    (ra_scopes a) ->
  Forall2 (within s K a) (ra_scopes a) counted ->
  Forall (chargeable (ra_ownership a) (ra_amount a) s)
    (charge_list K (combine (ra_scopes a) counted)).
Proof.
  intros (_ & _ & Hown) ((Hh & Hd) & Hc) Ha Hlim Hw. apply Forall_forall. intros [[key f] c] Hin.
  apply charge_list_spec in Hin as (sc & ch & cd & Hin & -> & Hk).
  pose proof (elem_of_combine _ _ _ _ _ Hw Hin) as (_ & _ & h & d & Eh & Ed & Xh & Xd).
  assert (sc ∈ ra_scopes a) as Hsc by (apply list_elem_of_In in Hin; apply list_elem_of_In;
    eapply in_combine_l; exact Hin).
  pose proof (proj1 (Forall_forall _ _) Hlim sc Hsc) as [Lh Ld].
  pose proof (proj1 (Forall_forall _ _) Hc) as Hc'.
  pose proof (proj1 (Forall_forall _ _) Hown) as Hown'.
  assert (sc_field sc ∈ map sc_field (ra_scopes a)) as Hf by (by apply (list_elem_of_fmap_2 sc_field)).
  apply exceeds_false in Xh, Xd. simpl in Xh, Xd.
  destruct Hk as [[-> ->]|[-> ->]]; (split_and!; [done|apply Hown', Hf|]).
  - destruct (Hc' _ Hf (k_hour K)) as (n & Hn0 & Hn); [auto|]. exists n. split_and!; [done..|].
    intros ->. apply counter_value in Hn. assert (n = h) as -> by congruence.
    unfold MAX_SAFE_INTEGER, int64_max in *. lia.
  - destruct (Hc' _ Hf (k_day K)) as (n & Hn0 & Hn); [auto|]. exists n. split_and!; [done..|].
    intros ->. apply counter_value in Hn. assert (n = d) as -> by congruence.
    unfold MAX_SAFE_INTEGER, int64_max in *. lia.
Qed.

(** The store after an admission, read at every key and field. *)
Lemma admission_effect K a s s' reply :
  layout K (ra_ownership a) (map sc_field (ra_scopes a)) ->
  counters_ok s K (map sc_field (ra_scopes a)) -> 0 <= ra_amount a -> 0 < ra_ttl a ->
  Forall (fun sc => sc_hour_limit sc <= MAX_SAFE_INTEGER /\ sc_day_limit sc <= MAX_SAFE_INTEGER)
    (ra_scopes a) ->
  reserveBody K a s = (s', Some reply) -> reserve_reply reply = admitted ->
  exists counted, Forall2 (within s K a) (ra_scopes a) counted
  /\ (forall k, get s' k = if decide (k = k_reservation K) then Some (z_text (ra_amount a))
                          else get s k)
  /\ (forall k g, k <> k_reservation K ->
       ~ ((k = k_hour K \/ k = k_day K)
          /\ (g = ra_ownership a \/ exists f, f ∈ map sc_field (ra_scopes a)
                                     /\ (g = f \/ g = owned (ra_ownership a) f))) ->
       hget s' k g = hget s k g)
  /\ (forall key, key = k_hour K \/ key = k_day K ->
       hget s' key (ra_ownership a) = Some (z_text (ra_amount a)))
  /\ (forall key f (c : bool), (key, f, c) ∈ charge_list K (combine (ra_scopes a) counted) ->
       (forall n, counter_is s key f n -> counter_is s' key f (if c then n else n + ra_amount a))
       /\ (c = false -> hget s' key (owned (ra_ownership a) f) = Some (z_text (ra_amount a)))).
Proof.
  intros Hl Hc Ha Httl Hlim E Hr.
  apply reserveBody_admitted in E as (counted & _ & _ & _ & _ & Hw & ->); [|done].
  pose proof (admission_chargeable K a s counted Hl Hc Ha Hlim Hw) as Hch.
  destruct Hl as (Hkeys & Hnd & Hown), Hc as ((Hgh & Hgd) & _).
  apply NoDup_cons in Hkeys as [Hk1 Hkeys]. apply NoDup_cons in Hkeys as [Hk2 _].
  set_unfold in Hk1. set_unfold in Hk2.
  assert (NoDup (map fst (charge_list K (combine (ra_scopes a) counted)))) as Hndc.
  { apply charge_list_nodup; [tauto|]. rewrite combine_fields; [done|].
    symmetry. by eapply Forall2_length. }
  destruct (charges_spec _ _ _ _ Ha Hndc Hch) as (I1 & I2 & I3).
  set (s1 := charges _ _ _ s) in *. exists counted. split; [done|].
  assert (forall k f c, (k, f, c) ∈ charge_list K (combine (ra_scopes a) counted) ->
            (k = k_hour K \/ k = k_day K) /\ f ∈ map sc_field (ra_scopes a)
            /\ f <> ra_ownership a) as Hcl.
  { intros k f c (sc & ch & cd & Hin & -> & Hk)%charge_list_spec.
    assert (sc_field sc ∈ map sc_field (ra_scopes a)) as Hf.
    { apply (list_elem_of_fmap_2 sc_field). apply list_elem_of_In in Hin.
      apply list_elem_of_In. eapply in_combine_l, Hin. }
    split_and!; [tauto|done|]. by apply (proj1 (Forall_forall _ _) Hown _ Hf). }
  assert (get s1 (k_hour K) = None /\ get s1 (k_day K) = None) as [G1 G2] by (by rewrite !I1).
  unfold reserveRecord. split_and!.
  - intros k. rewrite get_set, !get_hset, I1 by done. done.
  - intros k g Hkr Hg. rewrite hget_set, !hget_hset by (rewrite ?get_hset; done).
    repeat case_decide; try tauto.
    apply I2. intros f c (Hk & Hf & _)%Hcl. split; intros ->; apply Hg; eauto 10.
  - intros key Hk. assert (key <> k_reservation K) by intuition congruence.
    rewrite hget_set, !hget_hset by (rewrite ?get_hset; done).
    repeat case_decide; tauto.
  - intros key f c Hin. destruct (Hcl _ _ _ Hin) as (Hk & Hf & Hne).
    destruct (I3 key f c Hin) as [J1 J2].
    assert (forall g, g <> ra_ownership a ->
      hget (set_px (hset (hset s1 (k_hour K) (ra_ownership a) (z_text (ra_amount a)))
        (k_day K) (ra_ownership a) (z_text (ra_amount a))) (k_reservation K)
        (z_text (ra_amount a)) (ra_ttl a)) key g = hget s1 key g) as Hkeep.
    { intros g Hg. assert (key <> k_reservation K) by intuition congruence.
      rewrite hget_set, !hget_hset by (rewrite ?get_hset; done).
      repeat case_decide; tauto. }
    split.
    + intros n Hn. eapply counter_is_same; [by apply Hkeep|]. by apply J1.
    + intros Ec. rewrite Hkeep; [auto|apply owned_not_own].
Qed.

(** ** Undoing and settling *)

Definition adjusts (key own : string) (delta : Z) (skip : bool) (L : list string) (s : S) : S :=
  fold_left (fun s f => hdel (if skip && (delta =? 0) then s else hincrby s key f delta)
                          key (owned own f)) L s.

(** Every field adjusted by [delta], its mark removed. *)
Lemma adjusts_spec key own delta skip L s :
  get s key = None -> NoDup L ->
  Forall (fun f => (forall g, f <> owned own g)
          /\ exists n, 0 <= n /\ counter_is s key f n /\ 0 <= n + delta <= int64_max) L ->
  let s' := adjusts key own delta skip L s in
  (forall k, get s' k = get s k)
  /\ (forall k g, ~ (k = key /\ exists f, f ∈ L /\ (g = f \/ g = owned own f)) ->
       hget s' k g = hget s k g)
  /\ (forall f, f ∈ L -> hget s' key (owned own f) = None
       /\ forall n, counter_is s key f n -> counter_is s' key f (n + delta)).
Proof.
  revert s. induction L as [|f L IH]; intros s Hs Hnd Hall; simpl.
  { split_and!; [done|done|]. by intros ? ?%not_elem_of_nil. }
  apply NoDup_cons in Hnd as [Hnin Hnd]. apply Forall_cons in Hall as [(Hf & n & Hn0 & Hn & Hr) Hall].
  set (s1 := hdel _ _ _).
  assert (forall k, get s1 k = get s k) as G1.
  { intros k. unfold s1. rewrite get_hdel. destruct (skip && _); [done|]. by rewrite get_hincrby. }
  assert (forall k g, ~ (k = key /\ (g = f \/ g = owned own f)) -> hget s1 k g = hget s k g) as G2.
  { intros k g Hg. unfold s1. rewrite hget_hdel. destruct (skip && _);
      rewrite ?(counter_hincrby _ _ _ _ n) by done; repeat case_decide; naive_solver. }
  assert (hget s1 key (owned own f) = None) as G3.
  { unfold s1. rewrite hget_hdel. case_decide; naive_solver. }
  assert (counter_is s1 key f (n + delta)) as G4.
  { unfold s1, counter_is. rewrite hget_hdel. rewrite decide_False by naive_solver.
    destruct (skip && (delta =? 0)) eqn:Es.
    - apply andb_true_iff in Es as [_ ->%Z.eqb_eq]. by rewrite Z.add_0_r.
    - rewrite (counter_hincrby _ _ _ _ n) by done. by rewrite decide_True by done. }
  destruct (IH s1) as (I1 & I2 & I3); [by rewrite G1|done| |].
  { apply Forall_forall. intros g Hg.
    destruct (proj1 (Forall_forall _ _) Hall g Hg) as (Hgo & m & Hm0 & Hm & Hmr).
    split; [done|]. exists m. split; [done|]. split; [|done].
    eapply counter_is_same; [|exact Hm]. apply G2.
    intros [_ [->| ->]]; [done|by destruct (Hgo f)]. }
  fold s1. split_and!.
  - intros k. by rewrite I1, G1.
  - intros k g Hg. rewrite I2; [apply G2|]; intros [-> Hx]; apply Hg; (split; [done|]).
    + exists f. split; [left|done].
    + destruct Hx as (f' & Hin & Hx). exists f'. split; [by right|done].
  - assert (forall h, h = f \/ h = owned own f -> hget (adjusts key own delta skip L s1) key h
                        = hget s1 key h) as Hkeep.
    { intros h Hh. apply I2. intros (_ & f' & Hin & Hx).
      pose proof (proj1 (proj1 (Forall_forall _ _) Hall f' Hin)) as Hf'.
      destruct Hh as [->| ->], Hx as [E|E]; subst; try done.
      - by destruct (Hf f').
      - by destruct (Hf' f).
      - apply owned_inj in E. congruence. }
    intros g [->|Hin]%elem_of_cons.
    + split; [by rewrite Hkeep by auto|]. intros m Hm.
      assert (m = n) as -> by (apply counter_value in Hm, Hn; congruence).
      eapply counter_is_same; [apply Hkeep; auto|exact G4].
    + destruct (I3 g Hin) as [J1 J2]. split; [done|]. intros m Hm. apply J2.
      eapply counter_is_same; [|exact Hm]. apply G2.
      pose proof (proj1 (proj1 (Forall_forall _ _) Hall g Hin)) as Hg'.
      intros [_ [->| ->]]; [done|by destruct (Hg' f)].
Qed.

(** When the hash counts every field of the attempt, the guarded loop of the
    scripts adjusts them all. *)
Lemma adjustFields_adjusts key own fs delta skip s :
  Forall (fun f => covers s key own fs f = true) fs ->
  adjustFields key own fs delta skip s = adjusts key own delta skip fs s.
Proof.
  intros Hall. unfold adjustFields, adjusts.
  assert (forall L s0, Forall (fun f => covers s key own fs f = true) L ->
    fold_left (fun s' f => if covers s key own fs f
      then let s' := if skip && (delta =? 0) then s' else hincrby s' key f delta in
           hdel s' key (owned own f)
      else s') L s0
    = fold_left (fun s f => hdel (if skip && (delta =? 0) then s else hincrby s key f delta)
                          key (owned own f)) L s0) as Hgen; [|exact (Hgen fs s Hall)].
  intros L. induction L as [|f L IH]; intros s0 HL; simpl; [done|].
  apply Forall_cons in HL as [-> HL]. apply IH, HL.
Qed.

(** A hash that counts the attempt against every field, and can move by [delta]. *)
Definition adjustable (key own : string) (fs : list string) (delta : Z) (s : S) : Prop :=
  get s key = None /\ NoDup fs
  /\ Forall (fun f => (forall g, f <> owned own g) /\ is_some (hget s key (owned own f)) = true
       /\ exists n, 0 <= n /\ counter_is s key f n /\ 0 <= n + delta <= int64_max) fs.

Lemma adjustable_same key own fs delta s s1 :
  get s1 key = get s key ->
  (forall f, f ∈ fs -> hget s1 key f = hget s key f
                       /\ hget s1 key (owned own f) = hget s key (owned own f)) ->
  adjustable key own fs delta s -> adjustable key own fs delta s1.
Proof.
  intros Hg Hf (Hs & Hnd & Hall). split_and!; [congruence|done|].
  apply Forall_forall. intros f Hin. destruct (Hf f Hin) as [E1 E2].
  destruct (proj1 (Forall_forall _ _) Hall f Hin) as (Ho & Hm & n & Hn0 & Hn & Hr).
  split; [done|]. rewrite E2. split; [done|]. exists n. split; [done|]. split; [|done].
  by eapply counter_is_same.
Qed.

Lemma adjustFields_spec key own fs delta skip s :
  adjustable key own fs delta s ->
  let s' := adjustFields key own fs delta skip s in
  (forall k, get s' k = get s k)
  /\ (forall k g, ~ (k = key /\ exists f, f ∈ fs /\ (g = f \/ g = owned own f)) ->
       hget s' k g = hget s k g)
  /\ (forall f, f ∈ fs -> hget s' key (owned own f) = None
       /\ forall n, counter_is s key f n -> counter_is s' key f (n + delta)).
Proof.
  intros (Hs & Hnd & Hall). rewrite adjustFields_adjusts.
  - apply adjusts_spec; [done|done|]. eapply Forall_impl; [exact Hall|]. simpl. naive_solver.
  - eapply Forall_impl; [exact Hall|]. simpl. intros f (_ & Hm & _). unfold covers. by rewrite Hm.
Qed.

Lemma countersCover_true key own all floor fs s :
  Forall (fun f => exists n, counter_is s key f n /\ floor <= n) fs ->
  countersCover s key own all floor fs = Some true.
Proof.
  induction 1 as [|f fs (n & Hn & Hle) _ IH]; simpl; [done|].
  rewrite (counter_value _ _ _ _ Hn). simpl.
  destruct (Z.ltb_spec n floor); [lia|]. by destruct (covers _ _ _ _ _).
Qed.

Lemma cancelGuard_true s K own all amount fs :
  Forall (fun f => forall key, key = k_hour K \/ key = k_day K ->
            exists n, counter_is s key f n /\ amount <= n) fs ->
  cancelGuard s K own all amount fs = Some true.
Proof.
  induction 1 as [|f fs Hf _ IH]; cbn [cancelGuard]; [done|].
  rewrite !countersCover_true by (constructor; auto). exact IH.
Qed.

Lemma disagrees_same n : disagrees (Some (z_text n)) n = false.
Proof. unfold disagrees. by rewrite tonumber_z_text, bool_decide_eq_true_2. Qed.

(** The store [s'] of an attempt that [s] does not know, charged with [amount]. *)
Definition charged (K : BudgetKeys) (own : string) (fs : list string) (amount : Z) (s s' : S)
    : Prop :=
  (forall k, get s' k = if decide (k = k_reservation K) then Some (z_text amount) else get s k)
  /\ (forall k g, k <> k_reservation K ->
       ~ ((k = k_hour K \/ k = k_day K)
          /\ (g = own \/ exists f, f ∈ fs /\ (g = f \/ g = owned own f))) ->
       hget s' k g = hget s k g)
  /\ (forall key, key = k_hour K \/ key = k_day K ->
       hget s' key own = Some (z_text amount)
       /\ forall f, f ∈ fs -> hget s' key (owned own f) = Some (z_text amount)
          /\ forall n, counter_is s key f n -> counter_is s' key f (n + amount)).

Lemma fresh_admission K a s s' reply :
  layout K (ra_ownership a) (map sc_field (ra_scopes a)) ->
  counters_ok s K (map sc_field (ra_scopes a)) -> 0 <= ra_amount a -> 0 < ra_ttl a ->
  Forall (fun sc => sc_hour_limit sc <= MAX_SAFE_INTEGER /\ sc_day_limit sc <= MAX_SAFE_INTEGER)
    (ra_scopes a) ->
  fresh s K (ra_ownership a) (map sc_field (ra_scopes a)) ->
  reserveBody K a s = (s', Some reply) -> reserve_reply reply = admitted ->
  charged K (ra_ownership a) (map sc_field (ra_scopes a)) (ra_amount a) s s'
  /\ Forall (fun f => forall key n, key = k_hour K \/ key = k_day K -> counter_is s key f n ->
               n + ra_amount a <= MAX_SAFE_INTEGER) (map sc_field (ra_scopes a)).
Proof.
  intros Hl Hc Ha Httl Hlim Hfr E Hr.
  destruct (admission_effect K a s s' reply Hl Hc Ha Httl Hlim E Hr)
    as (counted & Hw & G & F & O & C).
  assert (forall sc, sc ∈ ra_scopes a -> (sc, (false, false)) ∈ combine (ra_scopes a) counted) as Hcnt.
  { intros sc Hin. destruct (combine_complete _ _ _ _ Hw Hin) as [[ch cd] Hx].
    pose proof (elem_of_combine _ _ _ _ _ Hw Hx) as (_ & Ec & _).
    assert (sc_field sc ∈ map sc_field (ra_scopes a)) as Hf by (by apply (list_elem_of_fmap_2 sc_field)).
    assert (forall key, key = k_hour K \/ key = k_day K ->
      reserveCounts s key (ra_ownership a) (ra_scopes a) (sc_field sc) = false) as Hz.
    { intros key Hk. destruct (Hfr key Hk) as [H1 H2].
      pose proof (proj1 (Forall_forall _ _) H2 _ Hf) as H3. simpl in H3.
      unfold reserveCounts. by rewrite H3, H1. }
    rewrite !Hz in Ec by auto. by injection Ec as -> ->. }
  split.
  - split_and!; [exact G|exact F|]. intros key Hk. split; [auto|].
    intros f (sc & -> & Hin)%list_elem_of_fmap.
    destruct (C key (sc_field sc) false) as [C1 C2].
    { apply charge_list_spec. exists sc, false, false. naive_solver. }
    split; [auto|exact C1].
  - apply Forall_forall. intros f (sc & -> & Hin)%list_elem_of_fmap key n Hk Hn.
    pose proof (elem_of_combine _ _ _ _ _ Hw (Hcnt sc Hin)) as (_ & _ & h & d & Eh & Ed & Xh & Xd).
    apply exceeds_false in Xh, Xd. simpl in *.
    destruct (proj1 (Forall_forall _ _) Hlim sc Hin).
    apply counter_value in Hn. destruct Hk as [->| ->].
    + assert (n = h) by congruence. lia.
    + assert (n = d) by congruence. lia.
Qed.

(** What undoing or settling a charged attempt starts from. *)
Definition settleable (K : BudgetKeys) (own : string) (fs : list string) (amount : Z) (s s' : S)
    : Prop :=
  layout K own fs /\ counters_ok s K fs /\ fresh s K own fs /\ 0 <= amount
  /\ get s (k_reservation K) = None /\ get s (k_settlement K) = None
  /\ charged K own fs amount s s'.

Lemma charged_adjustable K own fs amount delta s s' key :
  settleable K own fs amount s s' -> key = k_hour K \/ key = k_day K ->
  (forall f n, f ∈ fs -> counter_is s key f n -> 0 <= n -> 0 <= n + amount + delta <= int64_max) ->
  adjustable key own fs delta s'.
Proof.
  intros ((Hkeys & Hnd & Hown) & ((Hgh & Hgd) & Hc) & _ & Ha & _ & _ & G & _ & C) Hk Hr.
  destruct (C key Hk) as [_ Cf]. split_and!; [|done|].
  - rewrite G. apply NoDup_cons in Hkeys as [Hk1 Hkeys]. apply NoDup_cons in Hkeys as [Hk2 _].
    set_unfold in Hk1. set_unfold in Hk2.
    rewrite decide_False by intuition congruence. by destruct Hk as [->| ->].
  - apply Forall_forall. intros f Hf. destruct (Cf f Hf) as [Hm Hn].
    destruct (proj1 (Forall_forall _ _) Hc f Hf key Hk) as (n & Hn0 & Hn').
    split; [apply (proj1 (Forall_forall _ _) Hown f Hf)|]. rewrite Hm. split; [done|].
    exists (n + amount). split; [lia|]. split; [auto|]. eauto.
Qed.

(** Both hashes adjusted, the attempt's own fields untouched. *)
Lemma both_adjusted K own fs amount delta skip s s' :
  settleable K own fs amount s s' ->
  (forall key f n, key = k_hour K \/ key = k_day K -> f ∈ fs -> counter_is s key f n -> 0 <= n ->
     0 <= n + amount + delta <= int64_max) ->
  forall s1, s1 = adjustFields (k_hour K) own fs delta skip s' ->
  forall s1', (forall k, get s1' k = get s1 k) ->
    (forall k g, ~ (k = k_hour K /\ g = own) -> hget s1' k g = hget s1 k g) ->
  let s2 := adjustFields (k_day K) own fs delta skip s1' in
  (forall k, get s2 k = get s' k)
  /\ (forall k g, ~ (k = k_hour K /\ g = own) ->
        ~ ((k = k_hour K \/ k = k_day K) /\ exists f, f ∈ fs /\ (g = f \/ g = owned own f)) ->
        hget s2 k g = hget s' k g)
  /\ hget s2 (k_hour K) own = hget s1' (k_hour K) own
  /\ (forall key f, key = k_hour K \/ key = k_day K -> f ∈ fs ->
        hget s2 key (owned own f) = None
        /\ forall n, counter_is s key f n -> counter_is s2 key f (n + amount + delta)).
Proof.
  intros Hs Hr s1 -> s1' G1 F1.
  pose proof (charged_adjustable K own fs amount delta s s' (k_hour K) Hs (or_introl eq_refl)
    (fun f n => Hr _ f n (or_introl eq_refl))) as Ah.
  pose proof (charged_adjustable K own fs amount delta s s' (k_day K) Hs (or_intror eq_refl)
    (fun f n => Hr _ f n (or_intror eq_refl))) as Ad.
  destruct (adjustFields_spec _ _ _ _ skip _ Ah) as (I1 & I2 & I3).
  set (s1 := adjustFields (k_hour K) own fs delta skip s') in *.
  destruct Hs as ((Hkeys & Hnd & Hown) & _ & _ & _ & _ & _ & _ & _ & C).
  apply NoDup_cons in Hkeys as [Hk1 _]. set_unfold in Hk1.
  assert (k_day K <> k_hour K) as Hne by intuition congruence.
  assert (forall g, hget s1' (k_day K) g = hget s' (k_day K) g) as Hday.
  { intros g. rewrite F1, I2; [done|naive_solver|naive_solver]. }
  assert (adjustable (k_day K) own fs delta s1') as Ad'.
  { eapply adjustable_same; [|intros f _; split; apply Hday|exact Ad]. by rewrite G1, I1. }
  destruct (adjustFields_spec _ _ _ _ skip _ Ad') as (J1 & J2 & J3).
  set (s2 := adjustFields (k_day K) own fs delta skip s1') in *. cbv zeta. split_and!.
  - intros k. by rewrite J1, G1, I1.
  - intros k g Hg1 Hg2. rewrite J2 by naive_solver. rewrite F1 by done. apply I2. naive_solver.
  - apply J2. naive_solver.
  - assert (forall f, f ∈ fs -> f <> own /\ owned own f <> own) as Hno.
    { intros f Hf. destruct (proj1 (Forall_forall _ _) Hown f Hf). split; [done|].
      apply owned_not_own. }
    intros key f Hk Hf. destruct (C key Hk) as [_ Cf]. destruct (Cf f Hf) as [_ Cn].
    destruct (Hno f Hf). destruct Hk as [->| ->].
    + destruct (I3 f Hf) as [K1 K2].
      split; [rewrite J2, F1 by naive_solver; exact K1|].
      intros n Hn. eapply counter_is_same; [rewrite J2, F1 by naive_solver; reflexivity|].
      auto.
    + destruct (J3 f Hf) as [K1 K2]. split; [done|]. intros n Hn. apply K2.
      eapply counter_is_same; [apply Hday|]. auto.
Qed.

(** Both hashes adjusted and the attempt's fields deleted: nothing is left of the
    attempt but the movement of the counters. *)
Lemma adjusted_shift K own fs amount delta s s' s2 s3 :
  settleable K own fs amount s s' ->
  (forall k g, ~ (k = k_hour K /\ g = own) ->
     ~ ((k = k_hour K \/ k = k_day K) /\ exists f, f ∈ fs /\ (g = f \/ g = owned own f)) ->
     hget s2 k g = hget s' k g) ->
  (forall key f, key = k_hour K \/ key = k_day K -> f ∈ fs ->
     hget s2 key (owned own f) = None
     /\ forall n, counter_is s key f n -> counter_is s2 key f (n + amount + delta)) ->
  (forall k g, k <> k_reservation K -> k <> k_settlement K ->
     hget s3 k g = if decide ((k = k_hour K \/ k = k_day K) /\ g = own) then None
                   else hget s2 k g) ->
  shifted K fs (amount + delta) s s3.
Proof.
  intros ((Hkeys & _ & Hown) & _ & Hfr & _ & _ & _ & _ & F & _) B2 B3 E3.
  destruct (keys_distinct _ Hkeys) as (? & ? & ? & ? & ? & ?). split.
  - intros k g Hkr Hks Hg. rewrite E3 by done.
    destruct (decide ((k = k_hour K \/ k = k_day K) /\ g = own)) as [[Hk ->]|Hgo].
    { destruct (Hfr k Hk) as [-> _]. done. }
    destruct (decide ((k = k_hour K \/ k = k_day K) /\ g ∈ map (owned own) fs)) as [[Hk Hx]|Hno].
    { apply list_elem_of_fmap in Hx as (f & -> & Hf).
      destruct (B3 k f Hk Hf) as [-> _]. destruct (Hfr k Hk) as [_ Hfm].
      by rewrite (proj1 (Forall_forall _ _) Hfm f Hf). }
    assert (~ ((k = k_hour K \/ k = k_day K) /\ exists f, f ∈ fs /\ (g = f \/ g = owned own f))) as Hout.
    { intros (Hk & f & Hf & [->| ->]); [tauto|]. apply Hno. split; [done|].
      by apply (list_elem_of_fmap_2 (owned own)). }
    rewrite B2, F; [done|done| |tauto|exact Hout].
    intros (Hk & [->|Hx]); [tauto|]. apply Hout. eauto.
  - intros key f n Hk Hf Hn. destruct (B3 key f Hk Hf) as [_ Hb].
    replace (n + (amount + delta)) with (n + amount + delta) by lia.
    eapply counter_is_same; [|exact (Hb n Hn)].
    destruct (proj1 (Forall_forall _ _) Hown f Hf).
    rewrite E3; [by rewrite decide_False by tauto|intuition congruence..].
Qed.

Lemma settleable_counters K own fs amount s s' f key :
  settleable K own fs amount s s' -> f ∈ fs -> key = k_hour K \/ key = k_day K ->
  exists n, counter_is s' key f n /\ amount <= n.
Proof.
  intros (_ & (_ & Hc) & _ & _ & _ & _ & _ & _ & C) Hf Hk.
  destruct (proj1 (Forall_forall _ _) Hc f Hf key Hk) as (n & Hn0 & Hn).
  exists (n + amount). destruct (C key Hk) as [_ Cf]. split; [by apply Cf|lia].
Qed.

(** Cancelling a charged attempt. *)
Lemma cancel_charged K own fs amount s s' :
  settleable K own fs amount s s' ->
  (forall key f n, key = k_hour K \/ key = k_day K -> f ∈ fs -> counter_is s key f n ->
     n <= MAX_SAFE_INTEGER) ->
  exists s2, CANCEL_LUA K own fs s' = (s2, Some amount)
  /\ (forall k, get s2 k = get s k) /\ shifted K fs 0 s s2.
Proof.
  intros Hs Hmax. pose proof Hs as ((Hkeys & _) & (_ & Hc) & _ & _ & Hres & _ & G & _ & C).
  destruct (C (k_hour K)) as [Ch _]; [auto|]. destruct (C (k_day K)) as [Cd _]; [auto|].
  unfold CANCEL_LUA. rewrite (G (k_reservation K)), decide_True by done.
  rewrite tonumber_z_text, Ch, Cd, !disagrees_same.
  rewrite cancelGuard_true.
  2:{ apply Forall_forall. intros f Hf key Hk. by eapply settleable_counters. }
  eexists. split; [reflexivity|].
  edestruct (both_adjusted K own fs amount (- amount) false s s' Hs) as (B1 & B2 & B0 & B3);
    [|reflexivity|reflexivity|reflexivity|].
  { intros key f n Hk Hf Hn Hn0. specialize (Hmax key f n Hk Hf Hn).
    unfold MAX_SAFE_INTEGER, int64_max in *. lia. }
  set (s2 := adjustFields (k_day K) _ _ _ _ _) in *. split.
  - intros k. rewrite get_del, !get_hdel, B1, G. repeat case_decide; congruence.
  - replace 0 with (amount + - amount) by lia. eapply adjusted_shift; [exact Hs|exact B2|exact B3|].
    intros k g Hkr _. rewrite hget_del, !hget_hdel by done. repeat case_decide; tauto.
Qed.

(** Settling a charged attempt, and that doing it again is a no-op. *)
Lemma settle_charged K a fs amount s s' :
  settleable K (sa_ownership a) fs amount s s' -> sa_reserved a = amount -> sa_fields a = fs ->
  0 <= sa_actual a <= MAX_SAFE_INTEGER -> 0 < sa_ttl a ->
  (forall key f n, key = k_hour K \/ key = k_day K -> f ∈ fs -> counter_is s key f n ->
     n <= MAX_SAFE_INTEGER) ->
  exists s2, SETTLE_LUA K a s' = (s2, Some [1; sa_actual a - amount])
  /\ (forall k, get s2 k = if decide (k = k_settlement K) then Some (z_text (sa_actual a))
                          else get s k)
  /\ shifted K fs (sa_actual a) s s2.
Proof.
  intros Hs Eam Efs Hact Httl Hmax.
  pose proof Hs as ((Hkeys & _) & (_ & Hc) & _ & Ha & Hres & Hset & G & _ & C).
  destruct (keys_distinct _ Hkeys) as (? & ? & ? & ? & ? & ?).
  destruct (C (k_hour K)) as [Ch _]; [auto|]. destruct (C (k_day K)) as [Cd _]; [auto|].
  assert (forall key, key = k_hour K \/ key = k_day K ->
    settleGuard s' key a = Some None) as Hguard.
  { intros key Hk. destruct (C key Hk) as [Ck _]. unfold settleGuard.
    rewrite Ck, Eam, disagrees_same, Efs. destruct (_ <? 0); [|done].
    rewrite countersCover_true; [done|]. apply Forall_forall. intros f Hf.
    destruct (settleable_counters _ _ _ _ _ _ f key Hs Hf Hk) as (n & Hn & Hle).
    exists n. split; [done|]. lia. }
  unfold SETTLE_LUA. rewrite !G, decide_False, Hset by congruence.
  rewrite decide_True by done. cbn [is_some negb andb]. rewrite Eam, disagrees_same.
  rewrite !Hguard by auto. eexists. split; [reflexivity|].
  edestruct (both_adjusted K (sa_ownership a) fs amount (sa_actual a - amount) true s s' Hs)
    as (B1 & B2 & B0 & B3); [|reflexivity| | |].
  { intros key f n Hk Hf Hn Hn0. specialize (Hmax key f n Hk Hf Hn).
    unfold MAX_SAFE_INTEGER, int64_max in *. lia. }
  { instantiate (1 := settleHash (k_hour K) a s'). intros k. unfold settleHash.
    by rewrite get_hdel, Efs, Eam. }
  { intros k g Hkg. unfold settleHash. rewrite hget_hdel, decide_False by tauto.
    by rewrite Efs, Eam. }
  set (s2 := adjustFields (k_day K) _ _ _ _ _) in *.
  assert (settleHash (k_day K) a (settleHash (k_hour K) a s')
          = hdel s2 (k_day K) (sa_ownership a)) as ->.
  { unfold settleHash at 1. by rewrite Efs, Eam. }
  assert (forall k g, k = k_hour K -> g = sa_ownership a -> hget s2 k g = None) as Hown.
  { intros k g -> ->. rewrite B0. unfold settleHash. rewrite hget_hdel. by rewrite decide_True. }
  split.
  - intros k. rewrite get_set, get_del, get_hdel, B1, G by done.
    repeat case_decide; congruence.
  - replace (sa_actual a) with (amount + (sa_actual a - amount)) at 1 by lia.
    eapply adjusted_shift; [exact Hs|exact B2|exact B3|].
    intros k g Hkr Hks. rewrite hget_set, hget_del, hget_hdel by done.
    destruct (decide (k = k_day K /\ g = sa_ownership a)) as [[-> ->]|Hd].
    { by rewrite decide_True by auto. }
    destruct (decide (_ /\ _)) as [[[Hk|Hk] Hg]|Hn]; [|tauto|done]. by apply Hown.
Qed.
End Effects.

(** ** Arguments *)

(** The six arguments a policy is sent as, once decoded. *)
Definition scope_of_policy (f : string) (p : SponsorshipBudgetPolicy) : ScopeArg :=
  mkScope f (perTransactionLamports p) (hourlyLamports p) (dailyLamports p) (controlField p)
    (z_text (version p)).

Arguments z_text : simpl never.

(** The scopes of a request, as the script decodes them from [args]. *)
Lemma reserve_args_decode now i args :
  reserve_args now i = Ok args ->
  exists scopes,
    decodeReserve args = Some (mkReserve (ad_amount i) scopes (ttlUntilNextDay now)
                                 (ownershipField (ad_reservationId i) (ad_attempt i)))
    /\ map sc_field scopes = fields (ad_organizationId i) (ad_projectId i)
    /\ (forall index sc, scopes !! index = Some sc ->
         exists p, policyByScope (ad_policies i) (scope_of_index index) = Some p
                   /\ sc = scope_of_policy (sc_field sc) p).
Proof.
  unfold reserve_args, fields.
  destruct (match ad_projectId i with Some p => if truthy _ then _ else _ | None => _ end)
    as [|f [|? ?]] eqn:Ep.
  3:{ destruct (ad_projectId i); [destruct (truthy _)|]; discriminate Ep. }
  all: cbn [app scope_args scope_of_index];
    destruct (policyByScope (ad_policies i) scope_global) as [p0|] eqn:E0; [|done]; cbn;
    destruct (policyByScope (ad_policies i) scope_organization) as [p1|] eqn:E1; [|done]; cbn.
  - intros [= <-]. eexists [scope_of_policy _ p0; scope_of_policy _ p1]. split_and!.
    + unfold decodeReserve, argn, argv. cbn. rewrite !tonumber_z_text. cbn. rewrite !Nat2Z.id. cbn.
      unfold decodeScope, argn, argv. cbn. rewrite !tonumber_z_text. reflexivity.
    + reflexivity.
    + intros [|[|index]] sc; cbn; [intros [= <-]..|done]; eauto.
  - destruct (policyByScope (ad_policies i) scope_project) as [p2|] eqn:E2; [|done]; cbn.
    intros [= <-]. eexists [scope_of_policy _ p0; scope_of_policy _ p1; scope_of_policy _ p2].
    split_and!.
    + unfold decodeReserve, argn, argv. cbn. rewrite !tonumber_z_text. cbn. rewrite !Nat2Z.id. cbn.
      unfold decodeScope, argn, argv. cbn. rewrite !tonumber_z_text. reflexivity.
    + reflexivity.
    + intros [|[|[|index]]] sc; cbn; [intros [= <-]..|done]; eauto.
Qed.

Lemma policyByScope_in ps t p : policyByScope ps t = Some p -> p ∈ ps.
Proof.
  unfold policyByScope. intros H%find_some. destruct H as [H _].
  apply in_rev in H. by apply list_elem_of_In.
Qed.

Lemma scopes_limits i (scopes : list ScopeArg) :
  Forall limits_ok (ad_policies i) ->
  (forall index sc, scopes !! index = Some sc ->
     exists p, policyByScope (ad_policies i) (scope_of_index index) = Some p
               /\ sc = scope_of_policy (sc_field sc) p) ->
  Forall (fun sc => sc_hour_limit sc <= MAX_SAFE_INTEGER /\ sc_day_limit sc <= MAX_SAFE_INTEGER)
    scopes.
Proof.
  intros Hl Hs. apply Forall_lookup. intros index sc Hi.
  destruct (Hs index sc Hi) as (p & Hp%policyByScope_in & ->).
  exact (proj1 (Forall_forall _ _) Hl p Hp).
Qed.

Lemma ttl_day_pos now : 0 < ttlUntilNextDay now.
Proof. unfold ttlUntilNextDay. lia. Qed.

(** ** Controls *)

Section Controls.
Context {S : Type} `{RedisLaws S}.

(** The control of a scope is at version [v], enabled or not. *)
Definition control_is (s : S) (n : SponsorshipNetwork) (F : string) (v : Z) : Prop :=
  exists flag, hget s (control_key n) F = Some (z_text v ++ ":" ++ flag).

(** Every control is one that [syncPolicy] writes. *)
Definition controls_ok (s : S) : Prop :=
  forall n, get s (control_key n) = None
  /\ forall F x, hget s (control_key n) F = Some x -> exists v, control_is s n F v.

Lemma chars_append s t : chars (s ++ t) = (chars s ++ chars t)%list.
Proof. induction s as [|c s IH]; simpl; [done|]. by rewrite IH. Qed.

Lemma digits_no_colon l : all_digits l = true -> index_of ":" l = None.
Proof.
  induction l as [|c l IH]; simpl; [done|]. rewrite andb_true_iff. intros [Hc Hl].
  destruct (Ascii.eqb_spec c ":") as [->|]; [done|]. by rewrite IH.
Qed.

Lemma index_of_app c l r : index_of c l = None -> index_of c (l ++ c :: r) = Some (length l).
Proof.
  induction l as [|x l IH]; simpl; [by rewrite Ascii.eqb_refl|].
  destruct (Ascii.eqb x c); [done|]. destruct (index_of c l); [done|]. by rewrite IH.
Qed.

Lemma z_text_no_colon v : index_of ":" (chars (z_text v)) = None.
Proof.
  unfold z_text. rewrite chars_text. destruct (Z.ltb_spec v 0).
  - cbn [index_of]. change (Ascii.eqb "-" ":") with false. cbn iota.
    by rewrite digits_no_colon by (apply to_digits_all; lia).
  - by rewrite digits_no_colon by (apply to_digits_all; lia).
Qed.

Lemma before_colon_control v flag : before_colon (z_text v ++ ":" ++ flag) = Some (z_text v).
Proof.
  unfold before_colon. rewrite chars_append.
  change (chars (":" ++ flag)) with (":"%char :: chars flag).
  rewrite index_of_app by apply z_text_no_colon. cbn -[chars text].
  by rewrite take_app_length, text_chars.
Qed.

Lemma control_unique s n F v w : control_is s n F v -> control_is s n F w -> v = w.
Proof.
  intros [f1 H1] [f2 H2]. rewrite H1 in H2. injection H2 as H2.
  apply (f_equal before_colon) in H2. rewrite !before_colon_control in H2.
  injection H2 as H2. apply (f_equal tonumber) in H2. rewrite !tonumber_z_text in H2. congruence.
Qed.

Lemma control_key_inj n m : control_key n = control_key m -> n = m.
Proof. by destruct n, m. Qed.

(** One synchronization: it succeeds, keeps the newer version, and touches no
    other control. *)
Lemma syncPolicy_spec p s :
  controls_ok s ->
  exists s', syncPolicy p s = (s', Ok tt) /\ controls_ok s'
  /\ (forall n F v, control_is s n F v -> exists w, control_is s' n F w /\ v <= w)
  /\ exists w, control_is s' (policy_network p) (controlField p) w /\ version p <= w.
Proof.
  intros Hok. destruct (Hok (policy_network p)) as [Hg Hc].
  set (s1 := hset s (control_key (policy_network p)) (controlField p)
               (z_text (version p) ++ ":" ++ if enabled p then "1" else "0")).
  assert (forall n F, hget s1 (control_key n) F =
            if decide (control_key n = control_key (policy_network p) /\ F = controlField p)
            then Some (z_text (version p) ++ ":" ++ if enabled p then "1" else "0")
            else hget s (control_key n) F) as Hread.
  { intros n F. unfold s1. by rewrite hget_hset. }
  assert (control_is s1 (policy_network p) (controlField p) (version p)) as Hnew.
  { eexists. rewrite Hread, decide_True by done. reflexivity. }
  assert (controls_ok s1) as Hok1.
  { intros n. split; [unfold s1; by rewrite get_hset; apply Hok|]. intros F x.
    rewrite Hread. case_decide as Hd; [|intros Hx].
    - intros _. destruct Hd as [->%control_key_inj ->]. eauto.
    - destruct (proj2 (Hok n) F x Hx) as (v & flag & Hv). exists v, flag.
      by rewrite Hread, decide_False. }
  assert (forall v, control_is s (policy_network p) (controlField p) v -> v <= version p ->
    forall n F w, control_is s n F w -> exists w', control_is s1 n F w' /\ w <= w') as Hmono.
  { intros v Hv Hle n F w Hw.
    destruct (decide (control_key n = control_key (policy_network p) /\ F = controlField p))
      as [[E ->]|Hd].
    - apply control_key_inj in E as ->. rewrite (control_unique _ _ _ _ _ Hw Hv). eauto.
    - exists w. split; [|lia]. destruct Hw as [flag Hw]. exists flag. by rewrite Hread, decide_False. }
  unfold syncPolicy, SYNC_CONTROL_LUA, sync_args, argn, argv. cbn.
  destruct (hget s (control_key (policy_network p)) (controlField p)) as [x|] eqn:Ex.
  - destruct (Hc _ _ Ex) as (v & Hv). pose proof Hv as [flag Hf]. rewrite Hf in Ex.
    injection Ex as <-. rewrite before_colon_control. cbn. rewrite !tonumber_z_text.
    destruct (Z.ltb_spec (version p) v).
    + exists s. split_and!; [done|done| |exists v; split; [done|lia]].
      intros n F w Hw. exists w. split; [done|lia].
    + exists s1. split_and!; [done|done|eauto|exists (version p); split; [done|lia]].
  - exists s1. split_and!; [done|done| |exists (version p); split; [done|lia]].
    intros n F w Hw. exists w. split; [|lia]. destruct Hw as [flag Hw]. exists flag.
    rewrite Hread. case_decide as Hd; [|done]. destruct Hd as [->%control_key_inj ->]. congruence.
Qed.
End Controls.

#[export] Instance memory_laws : RedisLaws memory.
Proof.
  split; simpl; intros; unfold drop_key, put_field in *; simpl in *.
  - rewrite H. simpl. rewrite lookup_insert. repeat case_decide; naive_solver.
  - by destruct (strings s !! k).
  - unfold add_field. rewrite H0, tonumber_z_text, String.eqb_refl.
    destruct (Z.leb_spec int64_min (n + d)); [|lia].
    destruct (Z.leb_spec (n + d) int64_max); [|lia]. simpl.
    unfold put_field. rewrite H. simpl. rewrite lookup_insert. repeat case_decide; naive_solver.
  - unfold add_field. destruct (tonumber _); [|done]. destruct (_ && _); [|done].
    unfold put_field. by destruct (strings s !! k).
  - rewrite lookup_delete. repeat case_decide; naive_solver.
  - done.
  - by rewrite (proj2 (Z.ltb_lt 0 ttl)).
  - by rewrite (proj2 (Z.ltb_lt 0 ttl)).
  - rewrite (proj2 (Z.ltb_lt 0 ttl)) by done. simpl. rewrite lookup_insert, lookup_delete.
    repeat case_decide; congruence.
  - destruct (0 <? ttl); [|done]. simpl. rewrite map_lookup_filter.
    destruct (hashes s !! (k', f)); simpl; [|done]. by rewrite option_guard_True.
  - rewrite lookup_delete. repeat case_decide; congruence.
  - rewrite map_lookup_filter. destruct (hashes s !! (k', f)); simpl; [|done].
    by rewrite option_guard_True.
Qed.

Section Admission.
Context {S : Type} `{RedisLaws S}.

(** The script run on a request, in terms of the decoded scopes. *)
Lemma admit_body now i (s s' : S) reply :
  admit_ now i s = (s', Some reply) ->
  exists a, reserveBody (admission_keys i) a s = (s', Some reply)
  /\ ra_amount a = ad_amount i /\ ra_ttl a = ttlUntilNextDay now
  /\ ra_ownership a = ownershipField (ad_reservationId i) (ad_attempt i)
  /\ map sc_field (ra_scopes a) = fields (ad_organizationId i) (ad_projectId i)
  /\ (forall index sc, ra_scopes a !! index = Some sc ->
       exists p, policyByScope (ad_policies i) (scope_of_index index) = Some p
                 /\ sc = scope_of_policy (sc_field sc) p).
Proof.
  unfold admit_. destruct (reserve_args now i) as [args|e] eqn:Ea; [|done].
  apply reserve_args_decode in Ea as (scopes & Ed & Hf & Hp).
  unfold RESERVE_LUA. rewrite Ed. intros E. eexists. by split_and!.
Qed.

(** The scope a policy is looked up for. *)
Lemma scope_at i (scopes : list ScopeArg) index f p :
  map sc_field scopes = fields (ad_organizationId i) (ad_projectId i) ->
  (forall index sc, scopes !! index = Some sc ->
     exists p, policyByScope (ad_policies i) (scope_of_index index) = Some p
               /\ sc = scope_of_policy (sc_field sc) p) ->
  fields (ad_organizationId i) (ad_projectId i) !! index = Some f ->
  policyByScope (ad_policies i) (scope_of_index index) = Some p ->
  scope_of_policy f p ∈ scopes.
Proof.
  intros Hf Hs Hi Hp. rewrite <- Hf in Hi.
  apply list_lookup_fmap_Some in Hi as (sc & -> & Hsc).
  destruct (Hs index sc Hsc) as (p' & Hp' & E). rewrite Hp in Hp'. injection Hp' as <-.
  rewrite <- E. by eapply list_elem_of_lookup_2.
Qed.

Lemma admission_settleable now i s s' reply :
  admission_ok i s -> admission_fresh i s -> admit_ now i s = (s', Some reply) ->
  reserve_reply reply = admitted ->
  settleable (admission_keys i) (ownershipField (ad_reservationId i) (ad_attempt i))
    (fields (ad_organizationId i) (ad_projectId i)) (ad_amount i) s s'
  /\ forall key f n, key = k_hour (admission_keys i) \/ key = k_day (admission_keys i) ->
       f ∈ fields (ad_organizationId i) (ad_projectId i) -> counter_is s key f n ->
       n <= MAX_SAFE_INTEGER.
Proof.
  intros (Hc & Ha & Hl) Hfr E Hr.
  destruct (admit_body now i s s' reply E) as (a & Eb & Eam & Ettl & Eown & Ef & Hsc).
  pose proof Eb as Eb'. apply reserveBody_admitted in Eb' as (_ & _ & G1 & G2 & _); [|done].
  unfold admission_fresh in Hfr. rewrite <- Eown, <- Ef in *. rewrite <- Eam in *.
  assert (layout (admission_keys i) (ra_ownership a) (map sc_field (ra_scopes a))) as Hlay.
  { rewrite Eown, Ef. apply layout_ok. }
  assert (0 < ra_ttl a) as Httl by (rewrite Ettl; apply ttl_day_pos).
  destruct (fresh_admission _ _ _ _ _ Hlay Hc Ha Httl (scopes_limits i _ Hl Hsc) Hfr Eb Hr)
    as [Hch Hmax]. split; [by split_and!|].
  intros key f n Hk Hf Hn. pose proof (proj1 (Forall_forall _ _) Hmax f Hf key n Hk Hn). lia.
Qed.

Lemma reserveControls_pass s K i scopes :
  reserveControls s K i scopes = None <->
  Forall (fun sc => is_Some (hget s (k_hour K) (initialized (sc_field sc)))
                    /\ is_Some (hget s (k_day K) (initialized (sc_field sc)))
                    /\ hget s (k_control K) (sc_control_field sc)
                       = Some (sc_expected_version sc ++ ":1")) scopes.
Proof.
  revert i. induction scopes as [|sc scopes IH]; intros i; simpl; [by split; [constructor|]|].
  rewrite Forall_cons, <- (IH (i + 1)).
  destruct (hget s (k_hour K) _) as [v|]; simpl; [|split; [done|intros [[[? ?] _] _]; done]].
  destruct (hget s (k_day K) _) as [w|]; simpl; [|split; [done|intros [(_ & [? ?] & _) _]; done]].
  destruct (hget s (k_control K) _) as [c|]; [|split; [done|intros [(_ & _ & ?) _]; done]].
  destruct (String.eqb_spec c (sc_expected_version sc ++ ":1")) as [->|Hne]; simpl.
  - split; [intros ->; split_and!; eauto|naive_solver].
  - split; [done|intros [(_ & _ & ?) _]; congruence].
Qed.

Lemma fresh_counts s K own (scopes : list ScopeArg) sc key :
  fresh s K own (map sc_field scopes) -> key = k_hour K \/ key = k_day K -> sc ∈ scopes ->
  reserveCounts s key own scopes (sc_field sc) = false.
Proof.
  intros Hfr Hk Hin. destruct (Hfr key Hk) as [H1 H2].
  pose proof (proj1 (Forall_forall _ _) H2 _ (list_elem_of_fmap_2 sc_field _ _ Hin)) as H3.
  simpl in H3. unfold reserveCounts. by rewrite H3, H1.
Qed.

Lemma reserveLimits_pass s K a i scopes :
  Forall (fun sc =>
    reserveCounts s (k_hour K) (ra_ownership a) (ra_scopes a) (sc_field sc) = false
    /\ reserveCounts s (k_day K) (ra_ownership a) (ra_scopes a) (sc_field sc) = false
    /\ ra_amount a <= sc_per_tx sc
    /\ exists h d, counter s (k_hour K) (sc_field sc) = Some h
       /\ counter s (k_day K) (sc_field sc) = Some d
       /\ h + ra_amount a <= sc_hour_limit sc /\ d + ra_amount a <= sc_day_limit sc) scopes ->
  exists counted, reserveLimits s K a i scopes = Some (inr counted).
Proof.
  intros Hall. revert i. induction Hall as [|sc scopes (Hh & Hd & Hp & h & d & Eh & Ed & Lh & Ld) _ IH];
    intros i; cbn [reserveLimits]; [eauto|].
  destruct (Z.ltb_spec (sc_per_tx sc) (ra_amount a)); [lia|].
  rewrite Hh, Hd, Eh, Ed. cbn. unfold exceeds.
  destruct (Z.ltb_spec (sc_hour_limit sc) (h + ra_amount a)); [lia|].
  destruct (Z.ltb_spec (sc_day_limit sc) (d + ra_amount a)); [lia|].
  destruct (IH (i + 1)) as [counted ->]. cbn. eauto.
Qed.

Lemma admitted_admissible i a s s' r :
  admission_fresh i s ->
  map sc_field (ra_scopes a) = fields (ad_organizationId i) (ad_projectId i) ->
  (forall index sc, ra_scopes a !! index = Some sc ->
     exists p, policyByScope (ad_policies i) (scope_of_index index) = Some p
               /\ sc = scope_of_policy (sc_field sc) p) ->
  ra_amount a = ad_amount i ->
  ra_ownership a = ownershipField (ad_reservationId i) (ad_attempt i) ->
  reserveBody (admission_keys i) a s = (s', Some r) -> reserve_reply r = admitted ->
  admissible i s.
Proof.
  intros Hfr Hf Hsc Eam Eown E Hr. pose proof E as E'. unfold reserveBody in E'.
  destruct (reserveControls s (admission_keys i) 1 (ra_scopes a)) eqn:Ec.
  { injection E' as <- <-. by apply reserveControls_refuses in Ec. }
  clear E'. apply reserveBody_admitted in E as (counted & _ & G1 & G2 & _ & Hw & _); [|done].
  split_and!; [done|done|]. intros index f p Hi Hp.
  pose proof (scope_at i _ index f p Hf Hsc Hi Hp) as Hin.
  destruct (proj1 (Forall_forall _ _) (proj1 (reserveControls_pass _ _ _ _) Ec) _ Hin)
    as (M1 & M2 & M3). split_and!; [done|done|done| |].
  all: destruct (combine_complete _ _ _ _ Hw Hin) as [[ch cd] Hx];
    pose proof (elem_of_combine _ _ _ _ _ Hw Hx) as (Hper & Hcn & h & d & Eh & Ed & Xh & Xd).
  - by rewrite <- Eam.
  - unfold admission_fresh in Hfr. rewrite <- Hf, <- Eown in Hfr.
    pose proof (fresh_counts _ _ _ _ _ (k_hour (admission_keys i)) Hfr (or_introl eq_refl) Hin) as C1.
    pose proof (fresh_counts _ _ _ _ _ (k_day (admission_keys i)) Hfr (or_intror eq_refl) Hin) as C2.
    rewrite C1, C2 in Hcn. injection Hcn as -> ->. apply exceeds_false in Xh, Xd. simpl in *.
    rewrite <- Eam. eauto 10.
Qed.

Lemma admissible_admitted i a s s' r :
  admission_fresh i s ->
  map sc_field (ra_scopes a) = fields (ad_organizationId i) (ad_projectId i) ->
  (forall index sc, ra_scopes a !! index = Some sc ->
     exists p, policyByScope (ad_policies i) (scope_of_index index) = Some p
               /\ sc = scope_of_policy (sc_field sc) p) ->
  ra_amount a = ad_amount i ->
  ra_ownership a = ownershipField (ad_reservationId i) (ad_attempt i) ->
  reserveBody (admission_keys i) a s = (s', r) -> admissible i s -> is_admitted r.
Proof.
  intros Hfr Hf Hsc Eam Eown E (G1 & G2 & Hadm).
  assert (forall sc, sc ∈ ra_scopes a -> exists index p,
    fields (ad_organizationId i) (ad_projectId i) !! index = Some (sc_field sc)
    /\ policyByScope (ad_policies i) (scope_of_index index) = Some p
    /\ sc = scope_of_policy (sc_field sc) p) as Hat.
  { intros sc (index & Hi)%list_elem_of_lookup. destruct (Hsc index sc Hi) as (p & Hp & Esc).
    exists index, p. split; [|done]. rewrite <- Hf, list_lookup_fmap, Hi. done. }
  unfold reserveBody in E. rewrite (proj2 (reserveControls_pass _ _ _ _)) in E.
  2:{ apply Forall_forall. intros sc Hin. destruct (Hat sc Hin) as (index & p & Hi & Hp & Esc).
      destruct (Hadm index _ p Hi Hp) as (M1 & M2 & M3 & _). by rewrite Esc. }
  rewrite G1, G2 in E. cbn in E.
  destruct (reserveLimits_pass s (admission_keys i) a 1 (ra_scopes a)) as [counted Ec].
  { apply Forall_forall. intros sc Hin. destruct (Hat sc Hin) as (index & p & Hi & Hp & Esc).
    destruct (Hadm index _ p Hi Hp) as (_ & _ & _ & Hper & h & d & Eh & Ed & Lh & Ld).
    unfold admission_fresh in Hfr. rewrite <- Hf, <- Eown in Hfr.
    split_and!; [eapply fresh_counts; eauto|eapply fresh_counts; eauto| |].
    - rewrite Eam, Esc. done.
    - exists h, d. rewrite Eam, Esc. done. }
  rewrite Ec in E. injection E as <- <-. by eexists.
Qed.
End Admission.

(** * Theorems *)

Section Theorems.
Context {S : Type} `{RedisLaws S}.

(** An admission fits every limit: whatever the store holds and whatever
    happened before, when the script admits an amount, it is within the
    per-transaction limit of each scope, each policy is enabled at the version the
    caller resolved, and every counter ends within its hourly and daily limit. *)
Theorem admission_within_limits now i (s s' : S) reply :
  admission_ok i s -> admit_ now i s = (s', Some reply) -> reserve_reply reply = admitted ->
  forall index f p,
    fields (ad_organizationId i) (ad_projectId i) !! index = Some f ->
    policyByScope (ad_policies i) (scope_of_index index) = Some p ->
    ad_amount i <= perTransactionLamports p
    /\ hget s (k_control (admission_keys i)) (controlField p) = Some (z_text (version p) ++ ":1")
    /\ exists h d, counter s' (k_hour (admission_keys i)) f = Some h /\ h <= hourlyLamports p
       /\ counter s' (k_day (admission_keys i)) f = Some d /\ d <= dailyLamports p.
Proof.
  intros (Hc & Ha & Hl) E Hr index f p Hi Hp.
  destruct (admit_body now i s s' reply E) as (a & Eb & Eam & Ettl & Eown & Ef & Hsc).
  pose proof (scope_at i _ index f p Ef Hsc Hi Hp) as Hin.
  pose proof Eb as Eb'. apply reserveBody_admitted in Eb' as (_ & _ & _ & _ & Hctl & _); [|done].
  rewrite <- Ef, <- Eam in *.
  edestruct (admission_effect (admission_keys i) a s s' reply) as (counted & Hw & _ & _ & _ & C);
    [rewrite Eown, Ef; apply layout_ok|exact Hc|done|rewrite Ettl; apply ttl_day_pos
    |exact (scopes_limits i _ Hl Hsc)|done|done|].
  destruct (combine_complete _ _ _ _ Hw Hin) as [[ch cd] Hx].
  pose proof (elem_of_combine _ _ _ _ _ Hw Hx) as (Hper & _ & h & d & Eh & Ed & Xh & Xd).
  apply exceeds_false in Xh, Xd. simpl in *. split; [done|].
  split; [exact (proj1 (Forall_forall _ _) Hctl _ Hin)|].
  destruct Hc as [_ Hc]. assert (f ∈ map sc_field (ra_scopes a)) as Hf.
  { apply (list_elem_of_fmap_2 sc_field) in Hin. exact Hin. }
  assert (forall key (c : bool) v, (key, f, c) ∈ charge_list (admission_keys i) (combine (ra_scopes a) counted) ->
    key = k_hour (admission_keys i) \/ key = k_day (admission_keys i) ->
    counter s key f = Some v -> counter s' key f = Some (if c then v else v + ra_amount a)) as Hcnt.
  { intros key c v Hcl Hk Hv. destruct (proj1 (Forall_forall _ _) Hc f Hf key Hk) as (n & _ & Hn).
    pose proof (counter_value _ _ _ _ Hn) as Hn'. assert (n = v) as -> by congruence.
    apply counter_value. by apply (C key f c). }
  exists (if ch then h else h + ra_amount a), (if cd then d else d + ra_amount a).
  split_and!; [|done| |done]; (apply Hcnt; [apply charge_list_spec|auto|done]);
    exists (scope_of_policy f p), ch, cd; auto.
Qed.

(** C3. The decision, both ways: an attempt the store does not know yet is
    admitted exactly when it meets the reference definition of an admissible
    request (no reservation or settlement of the attempt, initialized counters,
    current enabled policies, every limit respected), and any other answer, or a
    script error, leaves the store as it was. *)
Theorem admission_decision now i (s s' : S) reply :
  admission_ok i s -> admission_fresh i s -> is_ok (reserve_args now i) = true ->
  admit_ now i s = (s', reply) ->
  (is_admitted reply <-> admissible i s) /\ (~ is_admitted reply -> s' = s).
Proof.
  intros Hok Hfr Hargs E. unfold admit_ in E.
  destruct (reserve_args now i) as [args|] eqn:Ea; [|done].
  apply reserve_args_decode in Ea as (scopes & Ed & Hf & Hsc).
  unfold RESERVE_LUA in E. rewrite Ed in E. set (a := mkReserve _ _ _ _) in E. split; [split|].
  - intros (r & -> & Hr). exact (admitted_admissible i a s s' r Hfr Hf Hsc eq_refl eq_refl E Hr).
  - intros Hadm. by eapply (admissible_admitted i a s); eauto.
  - intros Hn. eapply reserveBody_refused; [exact E|]. intros r -> Hr. apply Hn. by exists r.
Qed.

(** Cancelling undoes an admission: after the script admits a new attempt,
    cancelling it returns its amount and restores every string, every field and
    every counter the admission touched. *)
Theorem cancel_undoes_admission now i (s s' : S) reply :
  admission_ok i s -> admission_fresh i s -> admit_ now i s = (s', Some reply) ->
  reserve_reply reply = admitted ->
  exists s2, cancel (cancel_of i) s' = (s2, Ok tt)
  /\ (forall k, get s2 k = get s k)
  /\ shifted (admission_keys i) (fields (ad_organizationId i) (ad_projectId i)) 0 s s2.
Proof.
  intros Hok Hfr E Hr. destruct (admission_settleable now i s s' reply Hok Hfr E Hr) as [Hs Hmax].
  destruct (cancel_charged _ _ _ _ _ _ Hs Hmax) as (s2 & Ec & Hg & Hsh).
  exists s2. split; [|done]. unfold cancel, cancel_keys, cancel_of. simpl.
  change (keys (ad_network i) (ad_hourBucket i) (ad_dayBucket i) (ad_reservationId i) (ad_attempt i))
    with (admission_keys i).
  rewrite Ec. destruct Hok as (_ & Ha & _).
  destruct (Z.eqb_spec (ad_amount i) (-1)); [lia|]. by destruct (Z.eqb_spec (ad_amount i) (-2)); [lia|].
Qed.

(** Settling replaces the reservation by the actual spend: every counter
    moves by exactly the actual amount, the attempt's marks and its reservation
    are gone, and settling again, or reserving the attempt again, changes
    nothing more. *)
Theorem settle_replaces_reservation now later i actual detect (s s' : S) reply :
  admission_ok i s -> admission_fresh i s -> admit_ now i s = (s', Some reply) ->
  reserve_reply reply = admitted -> 0 <= actual <= MAX_SAFE_INTEGER ->
  let settlement := mkSettlement (cancel_of i) (ad_amount i) actual detect in
  exists s2, settle later settlement s' = (s2, Ok (actual - ad_amount i))
  /\ (forall k, get s2 k = if decide (k = k_settlement (admission_keys i))
                          then Some (z_text actual) else get s k)
  /\ shifted (admission_keys i) (fields (ad_organizationId i) (ad_projectId i)) actual s s2
  /\ settle later settlement s2 = (s2, Ok 0)
  /\ forall again, (admit_ again i s2).1 = s2.
Proof.
  intros Hok Hfr E Hr Hact settlement.
  destruct (admission_settleable now i s s' reply Hok Hfr E Hr) as [Hs Hmax].
  destruct (settle_charged (admission_keys i) (settle_args later settlement) _ _ _ _ Hs)
    as (s2 & Es & Hg & Hsh); [done|done|done|apply ttl_day_pos|done|].
  exists s2. assert (cancel_keys (se_cancel settlement) = admission_keys i) as Ek by done.
  assert (get s2 (k_settlement (admission_keys i)) = Some (z_text actual)) as Hset.
  { rewrite Hg. by rewrite decide_True. }
  split_and!; [|exact Hg|exact Hsh| |].
  - unfold settle. rewrite Ek, Es. done.
  - unfold settle. rewrite Ek. unfold SETTLE_LUA. by rewrite Hset.
  - intros again. unfold admit_. destruct (reserve_args again i) as [args|]; [|done].
    unfold RESERVE_LUA. destruct (decodeReserve args) as [a|]; [|done]. unfold reserveBody.
    destruct (reserveControls _ _ _ _); [done|]. rewrite Hset. by rewrite orb_true_r.
Qed.

(** Controls never regress: synchronizing policies, in any order and with any
    duplicates, always succeeds, never lowers a version the store has seen, and
    leaves each policy's control at its version or a newer one. *)
Theorem controls_never_regress ps (s : S) :
  controls_ok s ->
  exists s', syncPolicies ps s = (s', Ok tt)
  /\ (forall n F v, control_is s n F v -> exists w, control_is s' n F w /\ v <= w)
  /\ Forall (fun p => exists w, control_is s' (policy_network p) (controlField p) w
                                /\ version p <= w) ps.
Proof.
  revert s. induction ps as [|p ps IH]; intros s Hok; simpl.
  { exists s. split_and!; [done| |constructor]. intros n F v Hv. exists v. split; [done|lia]. }
  destruct (syncPolicy_spec p s Hok) as (s1 & -> & Hok1 & Hmono & w & Hw & Hle).
  destruct (IH s1 Hok1) as (s2 & E & Hmono2 & Hall). exists s2. split_and!; [done| |].
  - intros n F v Hv. destruct (Hmono n F v Hv) as (w1 & Hw1 & ?).
    destruct (Hmono2 n F w1 Hw1) as (w2 & Hw2 & ?). exists w2. split; [done|lia].
  - constructor; [|done]. destruct (Hmono2 _ _ _ Hw) as (w2 & Hw2 & ?). exists w2.
    split; [done|lia].
Qed.
End Theorems.

(** ** Witnesses *)

Lemma sample_admission_ok : admission_ok sample_admission sample_store.
Proof.
  split; [split; [split; vm_compute; reflexivity|]|split; [vm_compute; discriminate|]].
  - repeat (apply Forall_cons; split); [..|apply Forall_nil_2];
      intros key [->| ->]; exists 100; (split; [lia|vm_compute; reflexivity]).
  - repeat (apply Forall_cons; split); [..|apply Forall_nil_2]; vm_compute; split; discriminate.
Qed.

Lemma sample_admission_fresh : admission_fresh sample_admission sample_store.
Proof.
  intros key [->| ->]; (split; [vm_compute; reflexivity|]);
    repeat (apply Forall_cons; split); try apply Forall_nil_2; vm_compute; reflexivity.
Qed.

Lemma sample_reply : admit_ 0 sample_admission sample_store = (sample_admitted, Some [1; 50]).
Proof.
  assert ((admit_ 0 sample_admission sample_store).2 = Some [1; 50]) as <- by (vm_compute; reflexivity).
  apply surjective_pairing.
Qed.

Lemma admission_within_limits_witness :
  exists h d,
    counter sample_admitted (k_hour (admission_keys sample_admission)) "project:proj1" = Some h
    /\ h <= 1000
    /\ counter sample_admitted (k_day (admission_keys sample_admission)) "project:proj1" = Some d
    /\ d <= 5000.
Proof.
  exact (proj2 (proj2 (admission_within_limits 0 sample_admission sample_store sample_admitted [1; 50]
    sample_admission_ok sample_reply eq_refl 2%nat "project:proj1" (sample_limits scope_project)
    eq_refl eq_refl))).
Defined.

Lemma admission_decision_witness :
  admissible sample_admission sample_store.
Proof.
  apply (admission_decision 0 sample_admission sample_store sample_admitted (Some [1; 50])
    sample_admission_ok sample_admission_fresh eq_refl sample_reply).
  exists [1; 50]. split; reflexivity.
Defined.

Lemma cancel_undoes_admission_witness :
  exists s2, cancel (cancel_of sample_admission) sample_admitted = (s2, Ok tt)
  /\ shifted (admission_keys sample_admission) (fields "org1" (Some "proj1")) 0 sample_store s2.
Proof.
  destruct (cancel_undoes_admission 0 sample_admission sample_store sample_admitted [1; 50]
    sample_admission_ok sample_admission_fresh sample_reply eq_refl) as (s2 & E & _ & H).
  exists s2. split; [exact E|exact H].
Defined.

Lemma settle_replaces_reservation_witness :
  exists s2,
    settle 0 (mkSettlement (cancel_of sample_admission) 50 20 true) sample_admitted = (s2, Ok (-30))
    /\ shifted (admission_keys sample_admission) (fields "org1" (Some "proj1")) 20 sample_store s2.
Proof.
  destruct (settle_replaces_reservation 0 0 sample_admission 20 true sample_store sample_admitted
    [1; 50] sample_admission_ok sample_admission_fresh sample_reply eq_refl) as (s2 & E & _ & H & _);
    [split; vm_compute; discriminate|].
  exists s2. split; [exact E|exact H].
Defined.

Lemma controls_never_regress_witness :
  exists s' : memory,
    syncPolicies [sample_limits scope_global; sample_limits scope_global] empty_memory = (s', Ok tt)
    /\ exists w, control_is s' devnet "global:default" w /\ 3 <= w.
Proof.
  destruct (controls_never_regress [sample_limits scope_global; sample_limits scope_global]
    (empty_memory : memory)) as (s' & E & _ & H).
  - intros n. split; [reflexivity|]. intros F x Hx. discriminate Hx.
  - exists s'. split; [exact E|]. apply Forall_cons in H as [H _]. exact H.
Defined.
