(* ===== verification/BudgetService.v ===== *)
(** * Sponsorship budgets: admission, signing and release

    [apps/sdp-api/src/services/sponsorship-budget.service.ts]: the class
    [BudgetedFeePayment] as programs over the calls it makes to the ledger, to
    Redis, to the fee-payment provider, to the RPC and to the owner of a
    submission. Every call may be answered by anything or refused, at any time,
    so a theorem about all runs covers crashes of the services, lost responses and
    other processes. [@solana/kit], SHA-256 and base64 are the parameters of
    [Kit]. Logging is left out; [Promise.all] asks in the order of the list. *)
From Stdlib Require Import Ascii String ZArith Lia.
From stdpp Require Import base list strings gmap sorting.
From S2P Require Import Prelude Text BudgetTypes BudgetRedis BudgetLedger.

Local Open Scope string_scope.
Local Open Scope Z_scope.
Local Open Scope sdp_scope.

(** ** Provider configuration *)

(** A value of a provider configuration: JSON with [undefined] and [bigint]; a
    number carries the text [JSON.stringify] gives it. *)
Inductive config_value : Type :=
| VNull | VUndefined
| VBool (b : bool)
| VNumber (json_text : string)
| VString (s : string)
| VBigint (n : Z)
| VArray (items : list config_value)
| VObject (entries : list (string * config_value)).

Record SponsorshipProviderConfiguration := mkConfiguration {
  signerAddress : string;
  maxAllowedLamports : Z;
  feePayerMayTransferLamports : bool;
  feePayerPolicy : config_value;
}.

(** [xs.join(",")] *)
Definition commas (xs : list string) : string := text (join [","%char] (List.map chars xs)).

Definition quote (s : string) : string := json_string s.

(** What the code uses of [@solana/kit], [node:crypto] and the runtime's locale. *)
Record Kit := mkKit {
  (** [getTransactionDecoder().decode(tx).messageBytes] *)
  messageBytes : string -> result string;
  (** [getCompiledTransactionMessageDecoder().decode(bytes).lifetimeToken], when it
      is a string *)
  lifetimeToken : string -> result (option string);
  (** [getSignatureFromTransaction(getTransactionDecoder().decode(tx))] *)
  signatureOf : string -> result string;
  (** [assertIsFullySignedTransaction] passes *)
  isFullySigned : string -> bool;
  (** [assertIsSignature] *)
  checkSignature : string -> result unit;
  sha256 : string -> string;
  encodeBase64 : string -> string;
  decodeBase64 : string -> string;
  (** [a.localeCompare(b) <= 0] *)
  localeLe : string -> string -> bool;
}.

Record SponsorshipScope := mkScopeOf {
  scope_environment : ProductEnvironment;
  scope_organizationId : string;
  scope_projectId : option string;
  actor_type : string;
  actor_id : string;
}.

Definition environment_text (e : ProductEnvironment) : string :=
  match e with env_sandbox => "sandbox" | env_production => "production" end.

Record OwnedSignedSubmission := mkSubmission {
  submission_transaction : string;
  submission_signature : string;
}.

(** ** Calls *)

Inductive service_call : Type :=
| ProviderConfiguration
| NetworkFee (transaction : string)
| ProviderSignAsFeePayer (transaction : string)
| ProviderSignAndSend (transaction : string)
| Clock
| ResolvePolicies (n : SponsorshipNetwork) (organizationId : string) (projectId : option string)
| LoadSnapshot (w : WindowInput)
| GetReservation (id : string)
| CreateReservation (input : CreateSponsorshipReservationInput)
| ReopenReleased (input : CreateSponsorshipReservationInput) (expectedAttempt : Z)
| MarkSigned (id : string) (attempt : Z) (signedTransaction signature : string)
| MarkSubmitted (id : string) (attempt : Z) (signature : string)
| MarkChargedUnknown (id : string) (attempt : Z) (reason : string)
| MarkReleased (id : string) (attempt : Z) (reason : string)
| SettleReservation (id : string) (attempt : Z) (st : settled_status) (actual : Z)
    (reason : option string)
| MarkRedisSettled (id : string) (attempt : Z)
| TripGlobalBreaker (n : SponsorshipNetwork) (reason : string)
| RedisReserve (input : BudgetAdmissionInput)
| RedisSettle (input : BudgetSettleInput)
| RedisSyncPolicy (p : SponsorshipBudgetPolicy)
| PersistSigned (submission : OwnedSignedSubmission)
| MarkStarted
| HasStarted.

Definition service_response (c : service_call) : Type :=
  match c with
  | ProviderConfiguration => SponsorshipProviderConfiguration
  | NetworkFee _ => Z
  | ProviderSignAsFeePayer _ | ProviderSignAndSend _ => string
  | Clock => string
  | ResolvePolicies _ _ _ => list SponsorshipBudgetPolicy
  | LoadSnapshot _ => WindowSnapshot
  | GetReservation _ => option SponsorshipReservation
  | CreateReservation _ => bool
  | ReopenReleased _ _ => option Z
  | MarkSigned _ _ _ _ | MarkSubmitted _ _ _ => SignaturePersistResult
  | MarkChargedUnknown _ _ _ | MarkReleased _ _ _ | SettleReservation _ _ _ _ _
  | MarkRedisSettled _ _ => bool
  | TripGlobalBreaker _ _ => option SponsorshipBudgetPolicy
  | RedisReserve _ => reserve_outcome
  | RedisSettle _ => Z
  | RedisSyncPolicy _ | PersistSigned _ | MarkStarted => unit
  | HasStarted => bool
  end.

Abbreviation service_event := (event service_response).
Abbreviation service_prog := (prog service_response).

Definition ask (c : service_call) : service_prog (service_response c) := call c.

(** A computation that may throw. *)
Definition lift {A} (r : result A) : service_prog A :=
  match r with Ok a => Ret a | Err e => Throw e end.

Definition FeePaymentError (message code : string) (cause : option jserr) : jserr :=
  CodedError "FeePaymentError" code message cause.

Definition isFeePaymentError (e : jserr) : bool :=
  match e with CodedError class _ _ _ => String.eqb class "FeePaymentError" | _ => false end.

Definition isDeterministicProviderRejection (e : jserr) : bool :=
  match e with
  | CodedError class code _ _ =>
      String.eqb class "FeePaymentError"
      && existsb (String.eqb code)
           ["SIGNING_FAILED"; "TRANSACTION_TOO_LARGE"; "INSUFFICIENT_BALANCE"; "RATE_LIMITED"]
  | _ => false
  end.

Inductive AdmissionOperation := op_sign | op_send.

Definition reservationHasResponse (r : SponsorshipReservation) (op : AdmissionOperation) : bool :=
  match op with
  | op_sign => status_in (status r) [st_signed; st_submitted; st_committed]
               && truthy (signedTransaction r)
  | op_send => status_in (status r) [st_submitted; st_committed] && truthy (signature r)
  end.

Record AdmissionResult := mkAdmissionResult {
  result_id : string;
  result_attempt : Z;
  result_replay : option SponsorshipReservation;
  result_cancel : option BudgetCancelInput;
  result_settlement : option BudgetSettleInput;
}.

Inductive DurableAdmission :=
| Owned (r : AdmissionResult)
| Replay (r : AdmissionResult)
| InProgress.

Record AdmissionContext := mkContext {
  ctx_id : string;
  ctx_network : SponsorshipNetwork;
  ctx_amount : Z;
  ctx_transactionDigest : string;
  ctx_feePayer : string;
  ctx_providerConfigFingerprint : string;
  ctx_recentBlockhash : string;
  ctx_hourBucket : string;
  ctx_dayBucket : string;
}.

Record PreparedOwnedSubmission := mkPrepared {
  prepared : OwnedSignedSubmission;
  (** what [releaseDefinitelyUnbroadcast] closes over *)
  prepared_reservation : AdmissionResult;
}.

(** [env.SOLANA_NETWORK === "mainnet-beta" ? "mainnet" : "devnet"] *)
Definition resolveNetwork (solana_network : string) : SponsorshipNetwork :=
  if String.eqb solana_network "mainnet-beta" then mainnet else devnet.

(** [iso.slice(0, n)] *)
Definition utcBuckets (iso : string) : string * string :=
  (slice 13 iso ++ ":00:00.000Z", slice 10 iso ++ "T00:00:00.000Z").

Definition policyVersions (ps : list SponsorshipBudgetPolicy) : list (string * Z) :=
  List.map (fun p => (policy_id p, version p)) ps.

(** [([a], [b]) => a.localeCompare(b)] *)
Definition entry_le (kit : Kit) (a b : string * string) : Prop := localeLe kit a.1 b.1 = true.
#[export] Instance entry_le_dec kit : RelDecision (entry_le kit).
Proof. intros a b. unfold entry_le. apply _. Defined.

Section Service.
Context (kit : Kit) (solana_network : string) (scope : SponsorshipScope)
        (providerHasConfiguration : bool).

Definition network_ : SponsorshipNetwork := resolveNetwork solana_network.

(** Entries are serialized and sorted by key. *)
Fixpoint canonicalJson (v : config_value) : string :=
  match v with
  | VNull => "null"
  | VUndefined => quote "__undefined__"
  | VBool b => if b then "true" else "false"
  | VNumber t => t
  | VString s => quote s
  | VBigint n => quote (z_text n)
  | VArray items => "[" ++ commas (List.map canonicalJson items) ++ "]"
  | VObject entries =>
      let written := List.map (fun '(k, e) => (k, canonicalJson e)) entries in
      let sorted := merge_sort (entry_le kit) written in
      "{" ++ commas (List.map (fun '(k, t) => quote k ++ ":" ++ t) sorted) ++ "}"
  end.

Definition sponsorshipProviderConfigFingerprint (c : SponsorshipProviderConfiguration) : string :=
  sha256 kit (canonicalJson (VObject
    [("maxAllowedLamports", VBigint (maxAllowedLamports c));
     ("feePayerMayTransferLamports", VBool (feePayerMayTransferLamports c));
     ("feePayerPolicy", feePayerPolicy c)])).

Definition getRecentBlockhash (transaction : string) : result string :=
  let? message := messageBytes kit transaction in
  let? token := lifetimeToken kit message in
  match token with
  | Some t => Ok t
  | None => Err (FeePaymentError "Sponsored transaction does not contain a recent blockhash"
                   "SIGNING_FAILED" None)
  end.

Definition getFullySignedSubmission (signedTransaction : string) : result OwnedSignedSubmission :=
  let? _ := messageBytes kit signedTransaction in
  if negb (isFullySigned kit signedTransaction)
  then Err (PlainError "Sponsored transaction is not fully signed")
  else let? s := signatureOf kit signedTransaction in Ok (mkSubmission signedTransaction s).

Definition optional_text (o : option string) : string :=
  match o with Some s => quote s | None => "null" end.

(** [JSON.stringify] of the identity a reservation id is the digest of. *)
Definition reservation_identity (feePayer transactionDigest : string) : string :=
  "{" ++ commas [quote "network" ++ ":" ++ quote (network_text network_);
    quote "productEnvironment" ++ ":" ++ quote (environment_text (scope_environment scope));
    quote "organizationId" ++ ":" ++ quote (scope_organizationId scope);
    quote "projectId" ++ ":" ++ optional_text (scope_projectId scope);
    quote "actor" ++ ":{" ++ commas [quote "type" ++ ":" ++ quote (actor_type scope);
                                     quote "id" ++ ":" ++ quote (actor_id scope)] ++ "}";
    quote "feePayer" ++ ":" ++ quote feePayer;
    quote "transactionDigest" ++ ":" ++ quote transactionDigest] ++ "}".

(** *** The breaker *)

Definition tripBreaker (n : SponsorshipNetwork) (reason : string) : service_prog unit :=
  let! policy := ask (TripGlobalBreaker n reason) in
  match policy with
  | Some p => ask (RedisSyncPolicy p)
  | None => Ret tt
  end.

(** Never returns. *)
Definition accountingUnavailable {A} (n : SponsorshipNetwork) (message breakerReason : string)
    (error : option jserr) : service_prog A :=
  let! _ := catch (tripBreaker n breakerReason) (fun _ => Ret tt) in
  Throw (FeePaymentError message "PROVIDER_NOT_AVAILABLE" (error ≫= as_error)).

(** [try { m } catch (error) { return this.accountingUnavailable(..., error) }] *)
Definition accounted {A} (m : service_prog A) (n : SponsorshipNetwork)
    (message breakerReason : string) : service_prog A :=
  catch m (fun error => accountingUnavailable n message breakerReason (Some error)).

(** *** Admission *)

Definition prepareAdmission (transaction : string) : service_prog AdmissionContext :=
  if negb providerHasConfiguration then
    Throw (FeePaymentError "Managed sponsorship provider does not expose fail-closed configuration"
             "PROVIDER_NOT_AVAILABLE" None)
  else
    let! (providerConfig, networkFee) :=
      catch (let! c := ask ProviderConfiguration in
             let! f := ask (NetworkFee transaction) in Ret (c, f))
        (fun error => Throw (FeePaymentError "Sponsorship preflight is unavailable"
                               "PROVIDER_NOT_AVAILABLE" (as_error error))) in
    let providerOutflow :=
      if feePayerMayTransferLamports providerConfig then maxAllowedLamports providerConfig else 0 in
    let ceiling := networkFee + providerOutflow in
    if (ceiling <? 0) || (MAX_SAFE_INTEGER <? ceiling) then
      Throw (FeePaymentError "Sponsored transaction cost cannot be represented safely"
               "TRANSACTION_TOO_LARGE" None)
    else
      let fingerprint := sponsorshipProviderConfigFingerprint providerConfig in
      let! message := lift (messageBytes kit transaction) in
      let! recentBlockhash := lift (getRecentBlockhash transaction) in
      let transactionDigest := sha256 kit message in
      let id := "sbr_" ++ sha256 kit
                  (reservation_identity (signerAddress providerConfig) transactionDigest) in
      let! iso := ask Clock in
      let buckets := utcBuckets iso in
      Ret (mkContext id network_ ceiling transactionDigest (signerAddress providerConfig)
             fingerprint recentBlockhash buckets.1 buckets.2).

Definition readReservation (c : AdmissionContext) : service_prog (option SponsorshipReservation) :=
  accounted (ask (GetReservation (ctx_id c))) (ctx_network c)
    "Sponsorship reservation state is unavailable" "Durable reservation read failed".

Definition replay_of (c : AdmissionContext) (r : SponsorshipReservation) : AdmissionResult :=
  mkAdmissionResult (ctx_id c) (attempt r) (Some r) None None.

Definition replayable (r : SponsorshipReservation) (op : AdmissionOperation) : bool :=
  status_in (status r) [st_signed; st_submitted; st_committed] && reservationHasResponse r op.

Definition resolveDurableReplay (c : AdmissionContext) (op : AdmissionOperation)
    (durableReplay : option SponsorshipReservation) : result (option AdmissionResult) :=
  match durableReplay with
  | None => Ok None
  | Some r =>
      if replayable r op then Ok (Some (replay_of c r))
      else if bool_decide (status r = st_charged_unknown) then
        Err (FeePaymentError
               "Previous sponsorship outcome is ambiguous and cannot be retried safely"
               "PROVIDER_NOT_AVAILABLE" None)
      else Ok None
  end.

Definition resolveEnabledPolicies (n : SponsorshipNetwork)
    : service_prog (list SponsorshipBudgetPolicy) :=
  accounted (ask (ResolvePolicies n (scope_organizationId scope) (scope_projectId scope))) n
    "Sponsorship policy resolution is unavailable" "Policy resolution failed".

Definition releaseDurable (c : AdmissionContext) (attempt : Z) (reason : string)
    : service_prog unit :=
  accounted (let! _ := ask (MarkReleased (ctx_id c) attempt reason) in
             let! _ := ask (MarkRedisSettled (ctx_id c) attempt) in Ret tt)
    (ctx_network c) "Sponsorship reservation release is unavailable"
    "Durable reservation release failed".

(** The [durable] variable of the loop is [null] or of kind [owned] wherever it is
    read: the two other kinds leave the loop at once. *)
Definition assertSponsorshipEnabled (c : AdmissionContext) (ps : list SponsorshipBudgetPolicy)
    (durable : option AdmissionResult) (reservationAttempt : Z) : service_prog unit :=
  if forallb enabled ps then Ret tt
  else
    let! _ := (match durable with
               | Some _ => releaseDurable c reservationAttempt "sponsorship disabled during admission"
               | None => Ret tt
               end) in
    Throw (FeePaymentError "Sponsorship is disabled for this scope" "PROVIDER_NOT_AVAILABLE" None).

Definition cancelInput (c : AdmissionContext) (attempt : Z) : BudgetCancelInput :=
  mkCancel (ctx_network c) (scope_organizationId scope) (scope_projectId scope)
    (ctx_hourBucket c) (ctx_dayBucket c) (ctx_id c) attempt.

Definition settlementInput (c : AdmissionContext) (attempt : Z) : BudgetSettleInput :=
  mkSettlement (cancelInput c attempt) (ctx_amount c) (ctx_amount c) false.

Definition reservationInput (c : AdmissionContext) (ps : list SponsorshipBudgetPolicy)
    : CreateSponsorshipReservationInput :=
  mkReservationInput (ctx_id c) (ctx_network c) (scope_environment scope)
    (scope_organizationId scope) (scope_projectId scope) (actor_type scope) (actor_id scope)
    (ctx_transactionDigest c) (ctx_feePayer c) (ctx_providerConfigFingerprint c)
    (ctx_recentBlockhash c) (ctx_amount c) (ctx_hourBucket c) (ctx_dayBucket c)
    (policyVersions ps).

Definition owned_result (c : AdmissionContext) (attempt : Z) : AdmissionResult :=
  mkAdmissionResult (ctx_id c) attempt None (Some (cancelInput c attempt))
    (Some (settlementInput c attempt)).

(** The [try] block after the insert did not create the row. *)
Definition adoptExisting (c : AdmissionContext) (op : AdmissionOperation)
    (ps : list SponsorshipBudgetPolicy) (attempt_ : Z) : service_prog DurableAdmission :=
  let! existing := ask (GetReservation (ctx_id c)) in
  let! reopened :=
    (match existing with
     | Some r =>
         if bool_decide (status r = st_released) && (attempt r + 1 =? attempt_)
         then ask (ReopenReleased (reservationInput c ps) (attempt r))
         else Ret None
     | None => Ret None
     end) in
  if bool_decide (reopened = Some attempt_) then Ret (Owned (owned_result c attempt_))
  else
    match existing with
    | Some r => if replayable r op then Ret (Replay (replay_of c r)) else Ret InProgress
    | None => Throw (PlainError "Reservation insert conflicted without a durable ledger row")
    end.

Definition persistReservationDurable (c : AdmissionContext) (op : AdmissionOperation)
    (ps : list SponsorshipBudgetPolicy) (attempt_ : Z) : service_prog DurableAdmission :=
  catch
    (let! created :=
       (if attempt_ =? 1 then ask (CreateReservation (reservationInput c ps)) else Ret false) in
     if created : bool then Ret (Owned (owned_result c attempt_))
     else adoptExisting c op ps attempt_)
    (fun error =>
       if isFeePaymentError error then Throw error
       else accountingUnavailable (ctx_network c)
              "Sponsorship reservation persistence is unavailable"
              "Durable reservation persistence failed" (Some error)).

Definition window_of (c : AdmissionContext) : WindowInput :=
  mkWindowInput (ctx_network c) (scope_organizationId scope) (scope_projectId scope)
    (ctx_hourBucket c) (ctx_dayBucket c) (Some (ctx_id c)).

Definition admissionInput (c : AdmissionContext) (ps : list SponsorshipBudgetPolicy)
    (attempt : Z) (s : WindowSnapshot) : BudgetAdmissionInput :=
  mkAdmission (ctx_network c) (scope_organizationId scope) (scope_projectId scope)
    (ctx_hourBucket c) (ctx_dayBucket c) (ctx_id c) attempt (ctx_amount c) ps
    (snapshot_usage s) (Some (snapshot_live s)).

Definition reserveBudget (c : AdmissionContext) (ps : list SponsorshipBudgetPolicy) (attempt : Z)
    : service_prog reserve_outcome :=
  accounted
    (let! snapshot := ask (LoadSnapshot (window_of c)) in
     ask (RedisReserve (admissionInput c ps attempt snapshot)))
    (ctx_network c) "Sponsorship budget admission is unavailable"
    "Budget reconstruction or Redis admission failed".

(** What the loop does with the answer of Redis. *)
Definition refuse {A} (c : AdmissionContext) (attempt : Z) (reason message code : string)
    : service_prog A :=
  let! _ := releaseDurable c attempt reason in Throw (FeePaymentError message code None).

(** The [for] loop: [fuel] iterations are left and this is number [iteration]. *)
Fixpoint admitLoop (fuel iteration : nat) (c : AdmissionContext) (op : AdmissionOperation)
    (reservationAttempt : Z) (durable : option AdmissionResult) : service_prog AdmissionResult :=
  match fuel with
  | O =>
      match durable with
      | Some _ => refuse c reservationAttempt "policy changed during admission"
                    "Sponsorship policy changed during admission" "PROVIDER_NOT_AVAILABLE"
      | None => Throw (FeePaymentError "Sponsorship policy changed during admission"
                         "PROVIDER_NOT_AVAILABLE" None)
      end
  | S fuel =>
      let! ps := resolveEnabledPolicies (ctx_network c) in
      let! _ := assertSponsorshipEnabled c ps durable reservationAttempt in
      let! d := (match durable with
                 | Some r => Ret (Owned r)
                 | None => persistReservationDurable c op ps reservationAttempt
                 end) in
      match d with
      | Replay r => Ret r
      | InProgress =>
          Throw (FeePaymentError "An identical sponsorship operation is already in progress"
                   "PROVIDER_NOT_AVAILABLE" None)
      | Owned r =>
          let! admission := reserveBudget c ps reservationAttempt in
          match admission with
          | stale_policy =>
              if Nat.eqb iteration 0
              then admitLoop fuel (Datatypes.S iteration) c op reservationAttempt (Some r)
              else refuse c reservationAttempt "policy changed during admission"
                     "Sponsorship policy changed during admission" "PROVIDER_NOT_AVAILABLE"
          | denied => refuse c reservationAttempt "budget exceeded during admission"
                        "Sponsorship budget exceeded" "RATE_LIMITED"
          | duplicate => refuse c reservationAttempt
                           "redundant redis reservation during admission"
                           "An identical sponsorship operation is already in progress"
                           "PROVIDER_NOT_AVAILABLE"
          | admitted => Ret r
          end
      end
  end.

Definition admitAgainstCurrentPolicy (c : AdmissionContext) (op : AdmissionOperation)
    (reservationAttempt : Z) : service_prog AdmissionResult :=
  admitLoop 2 0 c op reservationAttempt None.

Definition next_attempt (durable : option SponsorshipReservation) : Z :=
  match durable with
  | Some r => if bool_decide (status r = st_released) then attempt r + 1 else attempt r
  | None => 1
  end.

Definition admitted_operation (transaction : string) (op : AdmissionOperation)
    : service_prog AdmissionResult :=
  let! c := prepareAdmission transaction in
  let! durableReservation := readReservation c in
  let! durableReplay := lift (resolveDurableReplay c op durableReservation) in
  match durableReplay with
  | Some r => Ret r
  | None => admitAgainstCurrentPolicy c op (next_attempt durableReservation)
  end.

(** *** After the provider *)

Definition durablyAdvanced (reservation : AdmissionResult)
    (forwardStatuses : list SponsorshipReservationStatus) : service_prog bool :=
  catch
    (let! current := ask (GetReservation (result_id reservation)) in
     Ret (match current with
          | Some r => (attempt r =? result_attempt reservation) && status_in (status r) forwardStatuses
          | None => false
          end))
    (fun _ => Ret false).

Definition ambiguous_reason (e : jserr) : string :=
  match e with NonError _ => "Unknown Kora failure" | _ => error_message e end.

Definition markAmbiguous (reservation : AdmissionResult) (error : jserr) : service_prog unit :=
  let! kept :=
    accounted (ask (MarkChargedUnknown (result_id reservation) (result_attempt reservation)
                      (ambiguous_reason error)))
      network_ "Ambiguous sponsorship outcome could not be persisted"
      "Failed to persist ambiguous Kora outcome" in
  if kept : bool then Ret tt
  else accountingUnavailable network_ "Ambiguous sponsorship outcome could not be persisted"
         "Ambiguous sponsorship state transition was lost" None.

Inductive release_boundary := before_submission | after_submission.

Definition release_reason (e : jserr) : string :=
  match e with NonError _ => "Kora rejected sponsorship" | _ => error_message e end.

Definition zero_settlement (s : BudgetSettleInput) : BudgetSettleInput :=
  mkSettlement (se_cancel s) (se_reservedLamports s) 0 true.

Definition releaseDeterministic (reservation : AdmissionResult) (error : jserr)
    (boundary : release_boundary) : service_prog unit :=
  let reason := release_reason error in
  let! released :=
    accounted
      (match boundary with
       | after_submission =>
           ask (SettleReservation (result_id reservation) (result_attempt reservation)
                  settle_released 0 (Some reason))
       | before_submission =>
           ask (MarkReleased (result_id reservation) (result_attempt reservation) reason)
       end)
      network_ "Sponsorship release state is unavailable"
      "Deterministic release persistence failed" in
  match (if released : bool then result_settlement reservation else None) with
  | None =>
      let! _ := tripBreaker network_ "Deterministic release lost its durable ownership transition" in
      Throw (FeePaymentError "Sponsorship release could not be persisted safely"
               "PROVIDER_NOT_AVAILABLE" None)
  | Some settlement =>
      accounted
        (let! _ := ask (RedisSettle (zero_settlement settlement)) in
         let! kept := ask (MarkRedisSettled (result_id reservation)
                                  (result_attempt reservation)) in
         if kept : bool then Ret tt
         else Throw (PlainError "Released reservation lost its Redis settlement ownership"))
        network_ "Sponsorship release accounting is unavailable" "Redis release invariant failed"
  end.

Definition releaseDuplicateSignature (reservation : AdmissionResult) : service_prog unit :=
  releaseDeterministic reservation
    (FeePaymentError "Transaction already sponsored under another reservation" "RATE_LIMITED" None)
    before_submission.

(** What [persist] answered about a signature: released duplicates and durable
    transitions return the value, a lost transition does not. *)
Definition settled_signature {A} (reservation : AdmissionResult) (value : A)
    (answer : SignaturePersistResult) (forward : list SponsorshipReservationStatus)
    (message breakerReason : string) : service_prog A :=
  if bool_decide (answer = duplicate_signature) then
    let! _ := releaseDuplicateSignature reservation in Ret value
  else
    let! advanced :=
      (if negb (bool_decide (answer = persisted)) then durablyAdvanced reservation forward
       else Ret true) in
    if advanced : bool then Ret value
    else accountingUnavailable network_ message breakerReason None.

Definition signAsFeePayer (transaction : string) : service_prog string :=
  let! reservation := admitted_operation transaction op_sign in
  match (if truthy (result_replay reservation ≫= signedTransaction)
         then result_replay reservation ≫= signedTransaction else None) with
  | Some stored => Ret (decodeBase64 kit stored)
  | None =>
      let! signed :=
        catch (ask (ProviderSignAsFeePayer transaction))
          (fun error => let! _ := markAmbiguous reservation error in Throw error) in
      let! signature :=
        accounted (lift (signatureOf kit signed)) network_
          "Signed sponsorship result could not be reconstructed"
          "Signed sponsorship signature extraction failed" in
      let! result :=
        accounted (ask (MarkSigned (result_id reservation) (result_attempt reservation)
                          (encodeBase64 kit signed) signature))
          network_ "Signed sponsorship outcome could not be persisted"
          "Signed sponsorship persistence failed" in
      settled_signature reservation signed result
        [st_signed; st_submitted; st_committed; st_charged_unknown]
        "Signed sponsorship outcome could not be persisted"
        "Signed sponsorship outcome lost its durable state transition"
  end.

Definition signAndSend (transaction : string) : service_prog string :=
  let! reservation := admitted_operation transaction op_send in
  match (if truthy (result_replay reservation ≫= signature)
         then result_replay reservation ≫= signature else None) with
  | Some stored =>
      let! _ := lift (checkSignature kit stored) in Ret stored
  | None =>
      let! signature :=
        catch (ask (ProviderSignAndSend transaction))
          (fun error =>
             let! _ := (if isDeterministicProviderRejection error
                        then releaseDeterministic reservation error before_submission
                        else markAmbiguous reservation error) in
             Throw error) in
      let! result :=
        accounted (ask (MarkSubmitted (result_id reservation) (result_attempt reservation) signature))
          network_ "Submitted sponsorship outcome could not be persisted"
          "Submitted sponsorship persistence failed" in
      settled_signature reservation signature result
        [st_submitted; st_committed; st_charged_unknown]
        "Submitted sponsorship outcome could not be persisted"
        "Submitted sponsorship outcome lost its durable state transition"
  end.

(** The first [try] block of [prepareOwnedSubmission]. *)
Definition signOwned (transaction : string) (reservation : AdmissionResult)
    : service_prog OwnedSignedSubmission :=
  let! signedTransaction := ask (ProviderSignAsFeePayer transaction) in
  let! submission := lift (getFullySignedSubmission signedTransaction) in
  let! signedResult :=
    ask (MarkSigned (result_id reservation) (result_attempt reservation)
           (encodeBase64 kit signedTransaction) (submission_signature submission)) in
  if negb (bool_decide (signedResult = persisted)) then
    Throw (FeePaymentError "Owned sponsorship signature could not be persisted"
             "PROVIDER_NOT_AVAILABLE" None)
  else
    let! _ := ask (PersistSigned submission) in
    let! ps := resolveEnabledPolicies network_ in
    if existsb (fun p => negb (enabled p)) ps then
      Throw (FeePaymentError "Sponsorship is disabled for this scope" "PROVIDER_NOT_AVAILABLE" None)
    else Ret submission.

(** The handler of [markStarted]. *)
Definition startFailed {A} (reservation : AdmissionResult) (error : jserr) : service_prog A :=
  let! started := catch (ask HasStarted) (fun _ => Throw error) in
  let! _ := (if negb started then releaseDeterministic reservation error before_submission
             else Ret tt) in
  Throw error.

Definition prepareOwnedSubmission (transaction : string) : service_prog PreparedOwnedSubmission :=
  let! reservation := admitted_operation transaction op_sign in
  match result_replay reservation with
  | Some _ =>
      Throw (FeePaymentError "An identical owned submission is already in progress"
               "PROVIDER_NOT_AVAILABLE" None)
  | None =>
      let! submission :=
        catch (signOwned transaction reservation)
          (fun error =>
             let! _ := releaseDeterministic reservation error before_submission in Throw error) in
      let! _ := catch (ask MarkStarted) (fun error => startFailed reservation error) in
      let! submittedResult :=
        accounted (ask (MarkSubmitted (result_id reservation) (result_attempt reservation)
                          (submission_signature submission)))
          network_ "Owned submission accounting could not be persisted"
          "Owned submission accounting persistence failed" in
      let! advanced :=
        (if negb (bool_decide (submittedResult = persisted))
         then durablyAdvanced reservation [st_submitted; st_committed; st_charged_unknown]
         else Ret true) in
      if advanced : bool then Ret (mkPrepared submission reservation)
      else accountingUnavailable network_ "Owned submission accounting could not be persisted"
             "Owned submission accounting lost its durable state transition" None
  end.

Definition releaseDefinitelyUnbroadcast (p : PreparedOwnedSubmission) (error : jserr)
    : service_prog unit :=
  releaseDeterministic (prepared_reservation p) error after_submission.
End Service.

(** ** What is promised about traces *)

Definition provider_call (c : service_call) : bool :=
  match c with ProviderSignAsFeePayer _ | ProviderSignAndSend _ => true | _ => false end.

Definition breaker_call (c : service_call) : bool :=
  match c with TripGlobalBreaker _ _ | RedisSyncPolicy _ => true | _ => false end.

(** Gives a reservation's budget back, in the ledger or in Redis. *)
Definition release_call (c : service_call) : bool :=
  match c with
  | MarkReleased _ _ _ | SettleReservation _ _ _ _ _ | RedisSettle _ | MarkRedisSettled _ _ => true
  | _ => false
  end.

Definition only (P : service_call -> bool) (tr : list service_event) : Prop :=
  Forall (fun e => P (ev_call e) = true) tr.

(** The ledger row is this process's: inserted, or reopened at the next attempt. *)
Definition durable_claim (id : string) (att amount : Z) (e : service_event) : Prop :=
  match e with
  | Ev (CreateReservation i) (Ok true) =>
      in_id i = id /\ att = 1 /\ in_reservedLamports i = amount
  | Ev (ReopenReleased i expected) (Ok (Some b)) =>
      in_id i = id /\ b = att /\ att = expected + 1 /\ in_reservedLamports i = amount
  | _ => False
  end.

(** Redis admitted that amount for that attempt. *)
Definition admitted_claim (id : string) (att amount : Z) (e : service_event) : Prop :=
  match e with
  | Ev (RedisReserve i) (Ok admitted) =>
      ad_reservationId i = id /\ ad_attempt i = att /\ ad_amount i = amount
  | _ => False
  end.

(** First the row, then the admission. *)
Definition claims (id : string) (att amount : Z) (tr : list service_event) : Prop :=
  exists t1 t2, tr = (t1 ++ t2)%list /\ Exists (durable_claim id att amount) t1
                /\ Exists (admitted_claim id att amount) t2.

(** Custody is asked only with both claims in hand. *)
Definition asks_with_claims (tr : list service_event) : Prop :=
  forall before e after, tr = (before ++ e :: after)%list -> provider_call (ev_call e) = true ->
    exists id att amount, claims id att amount before.

Definition trips (tr : list service_event) : Prop :=
  Exists (fun e => exists n reason, ev_call e = TripGlobalBreaker n reason) tr.

Definition releases (id : string) (att : Z) (tr : list service_event) : Prop :=
  Exists (fun e => exists reason, ev_call e = MarkReleased id att reason) tr.

(** Once custody has refused or failed to answer, nothing is given back: the attempt
    is durably charged as unknown and the error passed on, or the breaker is tripped. *)
Definition kept_as_unknown {A} (id : string) (att : Z) (e : jserr) (after : list service_event)
    (res : result A) : Prop :=
  only (fun c => negb (release_call c)) after
  /\ ((exists reason,
          after = [Ev (R := service_response) (MarkChargedUnknown id att reason) (Ok true)]
          /\ res = Err e)
      \/ trips after /\ exists m cause, res = Err (FeePaymentError m "PROVIDER_NOT_AVAILABLE" cause)).

(** What the ledger answered to the record of a signature. *)
Abbreviation record_answer := (SignaturePersistResult -> service_event -> Prop).

(** The record of a transaction the fee payer signed: its bytes and its own signature. *)
Definition records_signed (kit : Kit) (id : string) (att : Z) (signed : string) : record_answer := fun a e =>
  exists s, signatureOf kit signed = Ok s
    /\ e = Ev (R := service_response) (MarkSigned id att (encodeBase64 kit signed) s) (Ok a).

(** The record of the signature of a transaction the provider sent. *)
Definition records_submitted (id : string) (att : Z) (signature : string) : record_answer := fun a e =>
  e = Ev (R := service_response) (MarkSubmitted id att signature) (Ok a).

(** The ledger knows what became of the signature the caller receives: it recorded it for
    this attempt; or it has it under another reservation, and this attempt is released;
    or this attempt is already past the record. *)
Definition signature_recorded (id : string) (att : Z) (answered : record_answer)
    (past : list SponsorshipReservationStatus) (after : list service_event) : Prop :=
  Exists (answered persisted) after
  \/ (Exists (answered duplicate_signature) after /\ releases id att after)
  \/ (Exists (answered stale) after
      /\ exists row, Ev (R := service_response) (GetReservation id) (Ok (Some row)) ∈ after
           /\ attempt row = att /\ status row ∈ past).

(** A refusal that proves that nothing was signed. *)
Inductive proves_unsigned : jserr -> Prop :=
| unsigned_refusal code message cause :
    code ∈ ["SIGNING_FAILED"; "TRANSACTION_TOO_LARGE"; "INSUFFICIENT_BALANCE"; "RATE_LIMITED"] ->
    proves_unsigned (CodedError "FeePaymentError" code message cause).

(** The provider's answer [ans] and what the run does after it. *)
Definition outcome (id : string) (att : Z) (answered : string -> record_answer)
    (past : list SponsorshipReservationStatus) (unsigned : jserr -> Prop) (ans : result string)
    (after : list service_event) (res : result string) : Prop :=
  match ans with
  | Ok v => res = Ok v /\ signature_recorded id att (answered v) past after \/ is_ok res = false /\ trips after
  | Err e =>
      (unsigned e /\ releases id att after /\ (res = Err e \/ is_ok res = false /\ trips after))
      \/ (~ unsigned e /\ kept_as_unknown id att e after res)
  end.

(** The first answer about a reservation in a trace. *)
Fixpoint first_reservation (tr : list service_event) : option SponsorshipReservation :=
  match tr with
  | [] => None
  | Ev (GetReservation _) (Ok r) :: _ => r
  | _ :: rest => first_reservation rest
  end.

(** * Lemmas *)

Section Runs.
Context (kit : Kit) (solana_network : string) (scope : SponsorshipScope) (hasConfiguration : bool).

Lemma only_app P t1 t2 : only P t1 -> only P t2 -> only P (t1 ++ t2).
Proof. apply Forall_app_2. Qed.

Lemma only_mono (P Q : service_call -> bool) tr :
  (forall c, P c = true -> Q c = true) -> only P tr -> only Q tr.
Proof. intros H Hf. eapply Forall_impl; [exact Hf|]. simpl. auto. Qed.

(** The two ways of [tripBreaker]. *)
Lemma tripBreaker_runs n reason :
  all_runs (tripBreaker n reason) (fun tr _ => only breaker_call tr /\ trips tr).
Proof.
  cbn. intros [[p|]|e]; cbn; [intros [r|e]; cbn| |];
    (split; [repeat constructor|left; eauto]).
Qed.

Lemma accountingUnavailable_runs {A} n m reason error :
  all_runs (accountingUnavailable (A := A) n m reason error) (fun tr res =>
    only breaker_call tr /\ trips tr
    /\ exists cause, res = Err (FeePaymentError m "PROVIDER_NOT_AVAILABLE" cause)).
Proof.
  unfold accountingUnavailable. rewrite all_runs_bind, all_runs_catch.
  eapply all_runs_mono; [|apply tripBreaker_runs]. intros tr [u|e] [H1 H2]; cbn;
    rewrite ?app_nil_r; eauto.
Qed.

(** What [m] promises, or its failure followed by the breaker. *)
Lemma accounted_runs {A} (m : service_prog A) n msg reason (Q : list service_event -> A -> Prop)
    (E : list service_event -> Prop) :
  all_runs m (fun tr res => match res with Ok a => Q tr a | Err _ => E tr end) ->
  all_runs (accounted m n msg reason) (fun tr res =>
    match res with
    | Ok a => Q tr a
    | Err e => exists t1 t2, tr = (t1 ++ t2)%list /\ E t1 /\ only breaker_call t2 /\ trips t2
               /\ exists cause, e = FeePaymentError msg "PROVIDER_NOT_AVAILABLE" cause
    end).
Proof.
  intros H. unfold accounted. rewrite all_runs_catch. eapply all_runs_mono; [|exact H].
  intros tr [a|e]; [done|]. intros HE.
  eapply all_runs_mono; [|apply accountingUnavailable_runs].
  intros tr' res' (H1 & H2 & cause & ->). eauto 10.
Qed.

(** One call. *)
Lemma ask_runs c (Q : list service_event -> result (service_response c) -> Prop) :
  (forall r, Q [Ev c r] r) -> all_runs (ask c) Q.
Proof. intros H. cbn. intros [a|e]; apply H. Qed.

Arguments tripBreaker : simpl never.
Arguments accountingUnavailable : simpl never.
Arguments releaseDurable : simpl never.
Arguments adoptExisting : simpl never.

(** Calls that neither ask custody nor claim anything. *)
Definition quiet (c : service_call) : bool :=
  match c with
  | ProviderSignAsFeePayer _ | ProviderSignAndSend _ | CreateReservation _ | ReopenReleased _ _
  | RedisReserve _ => false
  | _ => true
  end.

Definition unclaimed (c : service_call) : bool := negb (provider_call c).

Lemma quiet_unclaimed c : quiet c = true -> unclaimed c = true.
Proof. by destruct c. Qed.

Lemma breaker_quiet c : breaker_call c = true -> quiet c = true.
Proof. by destruct c. Qed.

Lemma only_quiet_unclaimed tr : only quiet tr -> only unclaimed tr.
Proof. apply only_mono, quiet_unclaimed. Qed.

Lemma only_breaker_quiet tr : only breaker_call tr -> only quiet tr.
Proof. apply only_mono, breaker_quiet. Qed.

Hint Resolve only_app only_quiet_unclaimed only_breaker_quiet : core.

Lemma quiet_no_claim tr id att amount :
  only quiet tr -> ~ Exists (durable_claim id att amount) tr.
Proof.
  intros H Hx. apply Exists_exists in Hx as (e & Hin & He).
  apply (proj1 (Forall_forall _ _) H) in Hin. by destruct e as [[] ?].
Qed.

Lemma prepareAdmission_runs tx :
  all_runs (prepareAdmission kit solana_network scope hasConfiguration tx) (fun tr _ => only quiet tr).
Proof.
  unfold prepareAdmission. destruct hasConfiguration; cbn; [|constructor].
  intros [c|e]; cbn; [|repeat constructor]. intros [f|e]; cbn; [|repeat constructor].
  destruct (_ || _); cbn; [repeat constructor|].
  destruct (messageBytes kit tx) as [m|e] eqn:Em; cbn; [|repeat constructor].
  destruct (getRecentBlockhash kit tx); cbn; [|repeat constructor].
  intros [iso|e]; cbn; repeat constructor.
Qed.

Lemma readReservation_runs c :
  all_runs (readReservation c) (fun tr res =>
    only quiet tr /\ match res with Ok r => first_reservation tr = r | Err _ => True end).
Proof.
  unfold readReservation. eapply all_runs_mono;
    [|apply (accounted_runs _ _ _ _ (fun tr r => only quiet tr /\ first_reservation tr = r)
        (fun tr => only quiet tr))].
  - intros tr [r|e]; [done|]. intros (t1 & t2 & -> & H1 & H2 & _). eauto.
  - apply ask_runs. intros [r|e]; [split|]; try done; repeat constructor.
Qed.

Lemma resolveEnabledPolicies_runs n :
  all_runs (resolveEnabledPolicies scope n) (fun tr res =>
    only quiet tr /\ match res with Ok _ => True | Err _ => trips tr end).
Proof.
  unfold resolveEnabledPolicies. eapply all_runs_mono;
    [|apply (accounted_runs _ _ _ _ (fun tr _ => only quiet tr) (fun tr => only quiet tr))].
  - intros tr [r|e]; [done|]. intros (t1 & t2 & -> & H1 & H2 & H3 & _).
    split; [eauto|]. unfold trips. rewrite Exists_app. auto.
  - apply ask_runs. intros [r|e]; repeat constructor.
Qed.

(** A release is always attempted before the run ends. *)
Lemma releaseDurable_runs c att reason :
  all_runs (releaseDurable c att reason) (fun tr _ => only quiet tr /\ releases (ctx_id c) att tr).
Proof.
  unfold releaseDurable. eapply all_runs_mono;
    [|apply (accounted_runs _ _ _ _ (fun tr _ => only quiet tr /\ releases (ctx_id c) att tr)
        (fun tr => only quiet tr /\ releases (ctx_id c) att tr))].
  - intros tr [r|e]; [done|]. intros (t1 & t2 & -> & [H1 H1'] & H2 & _).
    split; [eauto|]. apply Exists_app. auto.
  - cbn. intros [b|e]; cbn; [intros [b'|e]; cbn|]; (split; [repeat constructor|left; eauto]).
Qed.

Lemma refuse_runs {A} c att reason m code :
  all_runs (refuse (A := A) c att reason m code) (fun tr res =>
    only quiet tr /\ releases (ctx_id c) att tr /\ is_ok res = false).
Proof.
  unfold refuse. rewrite all_runs_bind. eapply all_runs_mono; [|apply releaseDurable_runs].
  intros tr [u|e] [H1 H2]; cbn; rewrite ?app_nil_r; auto.
Qed.

Lemma assertSponsorshipEnabled_runs c ps durable att :
  all_runs (assertSponsorshipEnabled c ps durable att) (fun tr res =>
    only quiet tr /\ match res with
                     | Ok _ => True
                     | Err _ => is_Some durable -> releases (ctx_id c) att tr
                     end).
Proof.
  unfold assertSponsorshipEnabled. destruct (forallb enabled ps); [repeat constructor|].
  rewrite all_runs_bind. destruct durable.
  - eapply all_runs_mono; [|apply releaseDurable_runs].
    intros tr [u|e] [H1 H2]; cbn; rewrite ?app_nil_r; auto.
  - cbn. split; [constructor|]. by intros [? ?].
Qed.

Ltac no_claim :=
  intros Hx; repeat (apply Exists_cons in Hx as [Hx|Hx]); cbn in Hx;
  first [done | by apply Exists_nil in Hx | naive_solver].

Lemma adoptExisting_runs c op ps att :
  all_runs (adoptExisting scope c op ps att) (fun tr res =>
    only unclaimed tr /\ match res with
    | Ok (Owned r) => r = owned_result scope c att
                      /\ Exists (durable_claim (ctx_id c) att (ctx_amount c)) tr
    | Ok (Replay r) => exists row, r = replay_of c row /\ replayable row op = true
                      /\ ~ Exists (durable_claim (ctx_id c) att (ctx_amount c)) tr
    | _ => ~ Exists (durable_claim (ctx_id c) att (ctx_amount c)) tr
    end).
Proof.
  unfold adoptExisting. cbn. intros [[r|]|e]; cbn; [| |split; [repeat constructor|no_claim]].
  - destruct (bool_decide _ && _) eqn:E; cbn.
    + apply andb_true_iff in E as [_ E%Z.eqb_eq].
      intros [o|e]; cbn; [|split; [repeat constructor|no_claim]].
      destruct (bool_decide_reflect (o = Some att)) as [->|Hne]; cbn.
      { split; [repeat constructor|]. split; [done|]. right. left. cbn. auto. }
      destruct (replayable r op) eqn:Er; cbn; (split; [repeat constructor|]);
        [exists r; split_and!; [done|done|]|]; destruct o; no_claim.
    + rewrite bool_decide_eq_false_2 by done. destruct (replayable r op) eqn:Er; cbn;
        (split; [repeat constructor|]); [exists r; split_and!; [done|done|]|]; no_claim.
  - split; [repeat constructor|no_claim].
Qed.

(** Ownership comes from one claim of the very attempt. *)
Lemma persistReservationDurable_runs c op ps att :
  all_runs (persistReservationDurable scope c op ps att) (fun tr res =>
    only unclaimed tr /\ match res with
    | Ok (Owned r) => r = owned_result scope c att
                      /\ Exists (durable_claim (ctx_id c) att (ctx_amount c)) tr
    | Ok (Replay r) => exists row, r = replay_of c row /\ replayable row op = true
                      /\ ~ Exists (durable_claim (ctx_id c) att (ctx_amount c)) tr
    | Ok InProgress => ~ Exists (durable_claim (ctx_id c) att (ctx_amount c)) tr
    | Err _ => ~ Exists (durable_claim (ctx_id c) att (ctx_amount c)) tr
    end).
Proof.
  unfold persistReservationDurable. rewrite all_runs_catch.
  set (C := durable_claim (ctx_id c) att (ctx_amount c)).
  eapply (all_runs_mono _ (fun tr res => only unclaimed tr /\ match res with
    | Ok (Owned r) => r = owned_result scope c att /\ Exists C tr
    | Ok (Replay r) => exists row, r = replay_of c row /\ replayable row op = true /\ ~ Exists C tr
    | _ => ~ Exists C tr
    end)).
  - intros tr [d|e] [H1 H2]; [done|]. destruct (isFeePaymentError e); cbn.
    + by rewrite app_nil_r.
    + eapply all_runs_mono; [|apply accountingUnavailable_runs].
      intros tr' res (Hb & _ & cause & ->). split; [eauto|].
      rewrite Exists_app. intros [?|Hc]; [done|]. eapply quiet_no_claim; [|exact Hc]. eauto.
  - unfold C. destruct (Z.eqb_spec att 1) as [->|Hatt]; cbn.
    + intros [[]|e]; cbn.
      * split; [repeat constructor|]. split; [done|]. left. cbn. auto.
      * eapply all_runs_mono; [|apply adoptExisting_runs]. cbn. intros tr res [H1 H2].
        split; [by constructor|].
        match goal with |- context [?e :: tr] =>
          assert (forall P, P = durable_claim (ctx_id c) 1 (ctx_amount c) ->
                    Exists P (e :: tr) <-> Exists P tr) as Hcons
            by (intros P ->; rewrite Exists_cons; naive_solver)
        end.
        destruct res as [[r|r|]|e]; specialize (Hcons _ eq_refl); naive_solver.
      * split; [repeat constructor|no_claim].
    + apply adoptExisting_runs.
Qed.

(** Redis is asked last, and answered [admitted] only about this attempt. *)
Lemma reserveBudget_runs c ps att :
  all_runs (reserveBudget scope c ps att) (fun tr res =>
    only unclaimed tr /\ (forall id a x, ~ Exists (durable_claim id a x) tr) /\ match res with
    | Ok admitted => Exists (admitted_claim (ctx_id c) att (ctx_amount c)) tr
    | Ok _ => True
    | Err _ => trips tr
    end).
Proof.
  unfold reserveBudget. set (P := fun tr : list service_event =>
    only unclaimed tr /\ forall id a x, ~ Exists (durable_claim id a x) tr).
  eapply all_runs_mono; [|apply (accounted_runs _ _ _ _ (fun tr o => P tr /\ match o with
      | admitted => Exists (admitted_claim (ctx_id c) att (ctx_amount c)) tr | _ => True end) P)].
  - intros tr [o|e]; [by intros [[? ?] ?]|]. intros (t1 & t2 & -> & [H1 H1'] & H2 & H3 & _).
    split_and!; [eauto| |unfold trips; rewrite Exists_app; auto].
    intros id a x. rewrite Exists_app. intros [Hx|Hx]; [by eapply H1'|].
    eapply quiet_no_claim; [|exact Hx]. eauto.
  - cbn. intros [s|e]; cbn; [|split; [repeat constructor|intros id a x; no_claim]].
    intros [o|e]; cbn; [|split; [repeat constructor|intros id a x; no_claim]].
    split; [split; [repeat constructor|intros id a x; no_claim]|].
    destruct o; try done. right. left. cbn. auto.
Qed.

(** What the loop has established when it starts an iteration. *)
Definition loop_promise (c : AdmissionContext) (op : AdmissionOperation) (att : Z)
    (durable : option AdmissionResult) (tr : list service_event) (res : result AdmissionResult)
    : Prop :=
  let C := durable_claim (ctx_id c) att (ctx_amount c) in
  only unclaimed tr /\ match res with
  | Ok r =>
      (r = owned_result scope c att
       /\ exists t1 t2, tr = (t1 ++ t2)%list /\ (is_Some durable \/ Exists C t1)
                        /\ Exists (admitted_claim (ctx_id c) att (ctx_amount c)) t2)
      \/ durable = None /\ exists row, r = replay_of c row /\ replayable row op = true
                                      /\ ~ Exists C tr
  | Err _ => is_Some durable \/ Exists C tr -> releases (ctx_id c) att tr \/ trips tr
  end.

Ltac onlys :=
  repeat apply only_app; first [assumption | constructor | by apply only_quiet_unclaimed | idtac].

(** The promise survives what came before the iteration. *)
Lemma promise_extend c op att durable d tr0 tr res :
  only unclaimed tr0 ->
  is_Some durable \/ Exists (durable_claim (ctx_id c) att (ctx_amount c)) tr0 ->
  loop_promise c op att (Some d) tr res -> loop_promise c op att durable (tr0 ++ tr) res.
Proof.
  intros U Hc [U' P]. split; [eauto|]. destruct res as [r|e].
  - destruct P as [(-> & t1 & t2 & -> & _ & Ha)|[? _]]; [|done]. left. split; [done|].
    exists (tr0 ++ t1)%list, t2. split; [by rewrite app_assoc|]. split; [|done].
    destruct Hc; [auto|]. right. rewrite Exists_app. auto.
  - intros _. destruct P as [P|P]; [by left| |]; unfold releases, trips in *;
      rewrite !Exists_app; auto.
Qed.

Lemma refused_promise {A} c op att durable t1 t2 t3 t4 reason m code :
  only unclaimed (t1 ++ t2 ++ t3) -> only unclaimed t4 ->
  all_runs (refuse (A := A) c att reason m code) (fun tr' res' =>
    match res' with
    | Ok _ => False
    | Err e => loop_promise c op att durable (t1 ++ t2 ++ t3 ++ t4 ++ tr')%list (Err e)
    end).
Proof.
  intros U U4. eapply all_runs_mono; [|apply refuse_runs].
  intros tr [r|e] (H1 & H2 & H3); [done|]. split.
  - apply only_quiet_unclaimed in H1. unfold only in *. rewrite !Forall_app in U. rewrite !Forall_app. tauto.
  - intros _. left. unfold releases in *. rewrite !Exists_app. auto.
Qed.

Ltac refused :=
  eapply all_runs_mono; [|apply refused_promise; eassumption];
  intros ? [?|?]; [done|]; let H := fresh in intros H; rewrite <- ?app_assoc; exact H.

Lemma admitLoop_runs fuel iteration c op att durable :
  (forall r, durable = Some r -> r = owned_result scope c att) ->
  all_runs (admitLoop scope fuel iteration c op att durable) (loop_promise c op att durable).
Proof.
  revert iteration durable. induction fuel as [|fuel IH]; intros iteration durable Hd;
    cbn [admitLoop].
  { destruct durable.
    - eapply all_runs_mono; [|apply refuse_runs]. intros tr [r|e] (H1 & H2 & H3); [done|].
      split; [eauto|auto].
    - cbn. split; [constructor|]. intros [[? ?]|H]; [done|by apply Exists_nil in H]. }
  rewrite all_runs_bind. eapply all_runs_mono; [|apply resolveEnabledPolicies_runs].
  intros tr1 [ps|e] [Q1 T1]; [|by split; [eauto|auto]].
  rewrite all_runs_bind. eapply all_runs_mono; [|apply assertSponsorshipEnabled_runs].
  intros tr2 [u|e] [Q2 T2].
  2:{ split; [eauto|]. intros [Hs|Hx].
      - left. unfold releases. rewrite Exists_app. right. by apply T2.
      - exfalso. eapply quiet_no_claim; [|exact Hx]. eauto. }
  rewrite all_runs_bind.
  eapply (all_runs_mono _ (fun tr res => only unclaimed tr /\ match res with
    | Ok (Owned r) => r = owned_result scope c att
                      /\ (is_Some durable \/ Exists (durable_claim (ctx_id c) att (ctx_amount c)) tr)
    | Ok (Replay r) => durable = None /\ exists row, r = replay_of c row /\ replayable row op = true
                      /\ ~ Exists (durable_claim (ctx_id c) att (ctx_amount c)) tr
    | _ => durable = None /\ ~ Exists (durable_claim (ctx_id c) att (ctx_amount c)) tr
    end)).
  2:{ destruct durable as [r|].
      - split; [constructor|]. auto.
      - eapply all_runs_mono; [|apply persistReservationDurable_runs].
        intros tr [[r|r|]|e] [H1 H2]; naive_solver. }
  intros tr3 res3 [U3 P3].
  assert (only unclaimed (tr1 ++ tr2 ++ tr3)) as U by eauto 8.
  assert (~ Exists (durable_claim (ctx_id c) att (ctx_amount c)) tr3 ->
          ~ Exists (durable_claim (ctx_id c) att (ctx_amount c)) (tr1 ++ tr2 ++ tr3)) as Hno.
  { intros Hn Hx. apply Exists_app in Hx as [Hx|Hx]; [by eapply quiet_no_claim in Hx|].
    apply Exists_app in Hx as [Hx|Hx]; [by eapply quiet_no_claim in Hx|done]. }
  destruct res3 as [[r|r|]|e].
  - destruct P3 as [-> Hcl].
    assert (is_Some durable \/ Exists (durable_claim (ctx_id c) att (ctx_amount c))
              (tr1 ++ tr2 ++ tr3)) as Hclaim.
    { destruct Hcl as [?|?]; [auto|]. right. rewrite !Exists_app. auto. }
    rewrite all_runs_bind. eapply all_runs_mono; [|apply reserveBudget_runs].
    intros tr4 [[]|e] (U4 & N4 & P4).
    + split; [onlys|]. left. split; [done|].
      exists (tr1 ++ tr2 ++ tr3)%list, tr4. by rewrite !app_nil_r, <- !app_assoc.
    + refused.
    + refused.
    + destruct (Nat.eqb iteration 0); [|refused].
      eapply all_runs_mono; [|apply IH]; [|by intros ? [= <-]].
      intros tr5 res5 P5. rewrite !app_assoc. rewrite <- (app_assoc tr1), <- (app_assoc tr1).
      eapply promise_extend; [| |exact P5]; [onlys|].
      destruct Hclaim as [?|Hx]; [auto|]. right. rewrite !Exists_app in Hx. rewrite !Exists_app. tauto.
    + split; [onlys|]. intros _. right. unfold trips in *.
      rewrite !Exists_app. auto.
  - destruct P3 as (-> & row & -> & Hr & Hn). split; [by rewrite app_nil_r|].
    right. split; [done|]. exists row. rewrite app_nil_r. auto.
  - destruct P3 as [-> Hn]. split; [by rewrite app_nil_r|]. rewrite app_nil_r.
    intros [[? ?]|Hx]; [done|]. by apply Hno in Hx.
  - destruct P3 as [-> Hn]. split; [done|]. intros [[? ?]|Hx]; [done|]. by apply Hno in Hx.
Qed.

(** Every claim a run makes is about its own reservation and attempt. *)
Definition claims_only (c : AdmissionContext) (att : Z) (tr : list service_event) : Prop :=
  forall id a x, Exists (durable_claim id a x) tr ->
    id = ctx_id c /\ a = att /\ x = ctx_amount c.

Lemma claims_only_app c att t1 t2 :
  claims_only c att t1 -> claims_only c att t2 -> claims_only c att (t1 ++ t2).
Proof. intros H1 H2 id a x. rewrite Exists_app. intros [H|H]; eauto. Qed.

Lemma claims_only_quiet c att tr : only quiet tr -> claims_only c att tr.
Proof. intros H id a x Hx. by eapply quiet_no_claim in Hx. Qed.

Lemma persist_claims c op ps att :
  all_runs (persistReservationDurable scope c op ps att) (fun tr _ => claims_only c att tr).
Proof.
  unfold persistReservationDurable. rewrite all_runs_catch.
  assert (all_runs (adoptExisting scope c op ps att) (fun tr _ => claims_only c att tr)) as Ha.
  { unfold adoptExisting. cbn. intros [[r|]|e]; cbn; [|by intros id a x; no_claim..].
    destruct (bool_decide _ && _) eqn:E; cbn.
    - apply andb_true_iff in E as [_ E%Z.eqb_eq].
      intros [o|e]; cbn; [|by intros id a x; no_claim].
      assert (claims_only c att
        [Ev (R := service_response) (GetReservation (ctx_id c)) (Ok (Some r));
         Ev (R := service_response) (ReopenReleased (reservationInput scope c ps) (attempt r)) (Ok o)])
        as Hc.
      { intros id a x Hx. apply Exists_cons in Hx as [Hx|Hx]; [done|].
        apply Exists_cons in Hx as [Hx|Hx]; [|by apply Exists_nil in Hx].
        cbn in Hx. destruct o; [|done]. destruct Hx as (<- & _ & -> & <-). auto. }
      destruct (bool_decide _); [exact Hc|]. destruct (replayable r op); exact Hc.
    - rewrite bool_decide_eq_false_2 by done.
      destruct (replayable r op); cbn; intros id a x; no_claim. }
  eapply (all_runs_mono _ (fun tr _ => claims_only c att tr)).
  - intros tr [d|e] H; [done|]. destruct (isFeePaymentError e); [cbn; by rewrite app_nil_r|].
    eapply all_runs_mono; [|apply accountingUnavailable_runs].
    intros tr' res (Hb & _). apply claims_only_app; [done|].
    apply claims_only_quiet. by apply only_breaker_quiet.
  - destruct (Z.eqb_spec att 1) as [->|]; [|exact Ha]. cbn. intros [[]|e]; cbn.
    + intros id a x Hx. apply Exists_cons in Hx as [Hx|Hx]; [|by apply Exists_nil in Hx].
      cbn in Hx. destruct Hx as (<- & -> & <-). auto.
    + eapply all_runs_mono; [|exact Ha]. intros tr res H id a x Hx.
      apply Exists_cons in Hx as [Hx|Hx]; [done|eauto].
    + intros id a x; no_claim.
Qed.

Lemma admitLoop_claims fuel iteration c op att durable :
  all_runs (admitLoop scope fuel iteration c op att durable) (fun tr _ => claims_only c att tr).
Proof.
  revert iteration durable. induction fuel as [|fuel IH]; intros iteration durable; cbn [admitLoop].
  { destruct durable.
    - eapply all_runs_mono; [|apply refuse_runs]. intros tr res (H & _). by apply claims_only_quiet.
    - apply claims_only_quiet. constructor. }
  assert (forall t, claims_only c att t -> forall reason m code,
    all_runs (refuse (A := AdmissionResult) c att reason m code)
      (fun tr _ => claims_only c att (t ++ tr))) as Href.
  { intros t Ht reason m code. eapply all_runs_mono; [|apply refuse_runs].
    intros tr res (H & _). apply claims_only_app; [done|]. by apply claims_only_quiet. }
  rewrite all_runs_bind. eapply all_runs_mono; [|apply resolveEnabledPolicies_runs].
  intros tr1 [ps|e] [Q1 _]; [|by apply claims_only_quiet].
  rewrite all_runs_bind. eapply all_runs_mono; [|apply assertSponsorshipEnabled_runs].
  intros tr2 [u|e] [Q2 _]; [|by apply claims_only_quiet, only_app].
  rewrite all_runs_bind.
  eapply (all_runs_mono _ (fun tr _ => claims_only c att tr)).
  2:{ destruct durable; [by apply claims_only_quiet; constructor|apply persist_claims]. }
  intros tr3 res3 C3.
  assert (claims_only c att (tr1 ++ tr2 ++ tr3)) as C.
  { apply claims_only_app; [by apply claims_only_quiet|].
    apply claims_only_app; [by apply claims_only_quiet|done]. }
  destruct res3 as [[r|r|]|e]; [|cbn; by rewrite ?app_nil_r..|done].
  rewrite all_runs_bind. eapply all_runs_mono; [|apply reserveBudget_runs].
  intros tr4 res4 (_ & N4 & _).
  assert (claims_only c att ((tr1 ++ tr2 ++ tr3) ++ tr4)) as C4.
  { apply claims_only_app; [done|]. intros id a x Hx. by apply N4 in Hx. }
  rewrite <- !app_assoc in C4.
  assert (forall reason m code, all_runs (refuse (A := AdmissionResult) c att reason m code)
      (fun tr _ => claims_only c att (tr1 ++ tr2 ++ tr3 ++ tr4 ++ tr))) as Href4.
  { intros reason m code. eapply all_runs_mono; [|apply (Href _ C4)].
    intros tr res H. cbv beta in H. rewrite <- !app_assoc in H. exact H. }
  destruct res4 as [[]|e]; [cbn; by rewrite app_nil_r|apply Href4|apply Href4| |done].
  destruct (Nat.eqb iteration 0); [|apply Href4].
  eapply all_runs_mono; [|apply IH]. intros tr5 res5 C5.
  rewrite !app_assoc. apply claims_only_app; [by rewrite <- !app_assoc|done].
Qed.

(** An admission: claimed, replayed, or refused with its claim given up. *)
Lemma admitted_operation_runs tx op :
  all_runs (admitted_operation kit solana_network scope hasConfiguration tx op) (fun tr res =>
    only unclaimed tr /\ match res with
    | Ok r =>
        (result_replay r = None /\ exists amount, claims (result_id r) (result_attempt r) amount tr)
        \/ exists row, result_replay r = Some row /\ replayable row op = true
    | Err _ => forall id att x, Exists (durable_claim id att x) tr -> releases id att tr \/ trips tr
    end).
Proof.
  unfold admitted_operation. rewrite all_runs_bind.
  eapply all_runs_mono; [|apply prepareAdmission_runs]. intros tr1 [c|e] Q1.
  2:{ split; [eauto|]. intros id att x Hx. by eapply quiet_no_claim in Hx. }
  rewrite all_runs_bind. eapply all_runs_mono; [|apply readReservation_runs].
  intros tr2 [row|e] [Q2 _].
  2:{ split; [eauto|]. intros id att x Hx. eapply quiet_no_claim in Hx; [done|eauto]. }
  unfold resolveDurableReplay.
  assert (forall att, all_runs (admitAgainstCurrentPolicy scope c op att) (fun tr res =>
    only unclaimed (tr1 ++ tr2 ++ tr) /\ match res with
    | Ok r =>
        (result_replay r = None
         /\ exists amount, claims (result_id r) (result_attempt r) amount (tr1 ++ tr2 ++ tr))
        \/ exists row, result_replay r = Some row /\ replayable row op = true
    | Err _ => forall id att x, Exists (durable_claim id att x) (tr1 ++ tr2 ++ tr) ->
                 releases id att (tr1 ++ tr2 ++ tr) \/ trips (tr1 ++ tr2 ++ tr)
    end)) as Hloop.
  { intros att. unfold admitAgainstCurrentPolicy.
    eapply all_runs_mono; [|apply all_runs_and;
      [apply (admitLoop_runs 2 0 c op att None); done|apply (admitLoop_claims 2 0 c op att None)]].
    intros tr res [[U P] C]. split; [onlys|]. destruct res as [r|e].
    - destruct P as [(-> & t1 & t2 & -> & [[? ?]|Hd] & Ha)|(_ & x & -> & Hr & _)]; [done| |].
      + left. split; [done|]. exists (ctx_amount c), (tr1 ++ tr2 ++ t1)%list, t2.
        rewrite !app_assoc. split; [done|]. split; [|done]. rewrite !Exists_app. auto.
      + right. exists x. auto.
    - intros id a x Hx. rewrite !Exists_app in Hx.
      destruct Hx as [Hx|[Hx|Hx]]; [by eapply quiet_no_claim in Hx..|].
      unfold releases, trips in *. rewrite !Exists_app.
      destruct (C _ _ _ Hx) as (-> & -> & ->).
      destruct P; auto. }
  destruct row as [r|]; cbn [lift bind]; [|apply Hloop].
  destruct (replayable r op) eqn:Er; cbn [lift bind].
  - cbn. split; [onlys; eauto|]. right. exists r. auto.
  - destruct (bool_decide _); [|apply Hloop]. cbn. rewrite app_nil_r. split; [eauto|].
    intros id a x Hx. eapply quiet_no_claim in Hx; [done|eauto].
Qed.

Lemma accounted_quiet {A} (m : service_prog A) n msg reason :
  all_runs m (fun tr _ => only quiet tr) ->
  all_runs (accounted m n msg reason) (fun tr res =>
    only quiet tr /\ (is_ok res = false -> trips tr)).
Proof.
  intros H. eapply all_runs_mono; [|apply (accounted_runs _ _ _ _ (fun tr _ => only quiet tr)
    (fun tr => only quiet tr)); eapply all_runs_mono; [|exact H]; by intros tr [a|e]].
  intros tr [a|e]; [done|]. intros (t1 & t2 & -> & Q1 & Q2 & T & _). split; [eauto|].
  intros _. unfold trips in *. rewrite Exists_app. auto.
Qed.

Lemma releaseDeterministic_runs r error boundary :
  all_runs (releaseDeterministic solana_network r error boundary) (fun tr res =>
    only quiet tr /\ (is_ok res = false -> trips tr)
    /\ (boundary = before_submission -> releases (result_id r) (result_attempt r) tr)).
Proof.
  unfold releaseDeterministic. rewrite all_runs_bind.
  match goal with |- all_runs (accounted ?m _ _ _) _ => set (ask_release := m) end.
  assert (all_runs ask_release (fun tr _ => only quiet tr
    /\ (boundary = before_submission -> releases (result_id r) (result_attempt r) tr))) as Hm.
  { unfold ask_release. destruct boundary; cbn; intros [?|?]; (split; [repeat constructor|]); try done;
      intros _; left; by eexists. }
  eapply all_runs_mono with (Q1 := fun tr res => only quiet tr /\ (is_ok res = false -> trips tr)
    /\ (boundary = before_submission -> releases (result_id r) (result_attempt r) tr)).
  2:{ eapply all_runs_mono; [|apply (accounted_runs _ _ _ _
        (fun tr _ => only quiet tr /\ (boundary = before_submission -> releases (result_id r) (result_attempt r) tr))
        (fun tr => only quiet tr /\ (boundary = before_submission -> releases (result_id r) (result_attempt r) tr)));
        eapply all_runs_mono; [|exact Hm]; by intros tr [x|e]].
      intros tr [x|e]; [by intros []|]. intros (t1 & t2 & -> & [Q1 R1] & Q2 & T & _). split; [eauto|].
      split; [intros _; unfold trips in *; rewrite Exists_app; auto|].
      intros E. unfold releases in *. rewrite Exists_app. auto. }
  assert (forall t t', releases (result_id r) (result_attempt r) t ->
    releases (result_id r) (result_attempt r) (t ++ t')) as Hr.
  { intros t t' H. unfold releases in *. rewrite Exists_app. auto. }
  intros tr [b|e] (Q1 & T1 & R1); [|by auto].
  destruct (if b then result_settlement r else None) as [s|].
  - eapply all_runs_mono; [|apply accounted_quiet].
    + intros tr' res [Q2 T2]. split; [eauto|]. split; [|auto]. intros E. specialize (T2 E).
      unfold trips in *. rewrite Exists_app. auto.
    + cbn. intros [z|e]; cbn; [|repeat constructor].
      intros [[]|e]; cbn; repeat constructor.
  - rewrite all_runs_bind. eapply all_runs_mono; [|apply tripBreaker_runs].
    intros tr' [u|e] [Q2 T]; cbn; rewrite ?app_nil_r; (split; [eauto|]); (split; [intros _|by auto]);
      unfold trips in *; rewrite Exists_app; auto.
Qed.

Lemma markAmbiguous_runs r error :
  all_runs (markAmbiguous solana_network r error) (fun tr res =>
    only (fun c => negb (release_call c)) tr /\ only quiet tr
    /\ match res with
       | Ok _ => exists reason, tr = [Ev (R := service_response)
                   (MarkChargedUnknown (result_id r) (result_attempt r) reason) (Ok true)]
       | Err e => trips tr /\ exists m cause, e = FeePaymentError m "PROVIDER_NOT_AVAILABLE" cause
       end).
Proof.
  assert (forall tr, only breaker_call tr -> only (fun c => negb (release_call c)) tr) as Hb.
  { intros tr. apply only_mono. by intros []. }
  unfold markAmbiguous. rewrite all_runs_bind.
  eapply all_runs_mono; [|apply (accounted_runs _ _ _ _
    (fun tr (b : bool) => exists reason, tr = [Ev (R := service_response)
       (MarkChargedUnknown (result_id r) (result_attempt r) reason) (Ok b)])
    (fun tr => exists x, tr = [Ev (R := service_response)
       (MarkChargedUnknown (result_id r) (result_attempt r) (ambiguous_reason error)) x]));
    apply ask_runs; intros [?|?]; eauto].
  intros tr [[]|e].
  - intros [reason ->]. cbn. split_and!; [repeat constructor|repeat constructor|]. eauto.
  - intros [reason ->]. eapply all_runs_mono; [|apply accountingUnavailable_runs].
    intros tr res (Q & T & cause & ->). split_and!.
    + apply only_app; [repeat constructor|auto].
    + apply only_app; [repeat constructor|auto].
    + unfold trips in *. rewrite Exists_app. auto.
    + eauto.
  - intros (t1 & t2 & -> & [x ->] & Q & T & cause & ->). split_and!.
    + apply only_app; [repeat constructor|auto].
    + apply only_app; [repeat constructor|auto].
    + unfold trips in *. rewrite Exists_app. auto.
    + eauto.
Qed.

(** The row of the attempt is past the record of its signature. *)
Definition past_record (id : string) (att : Z) (past : list SponsorshipReservationStatus)
    (tr : list service_event) : Prop :=
  exists row, Ev (R := service_response) (GetReservation id) (Ok (Some row)) ∈ tr
    /\ attempt row = att /\ status row ∈ past.

Lemma status_in_elem s l : status_in s l = true -> s ∈ l.
Proof.
  unfold status_in. intros (x & Hx & E)%existsb_exists. apply bool_decide_eq_true in E. subst. by apply list_elem_of_In.
Qed.

Lemma durablyAdvanced_runs r forward :
  all_runs (durablyAdvanced r forward) (fun tr res =>
    only quiet tr /\ exists b, res = Ok b
    /\ (b = true -> past_record (result_id r) (result_attempt r) forward tr)).
Proof.
  unfold durablyAdvanced. cbn. intros [[row|]|e]; cbn; (split; [repeat constructor|]);
    eexists; (split; [reflexivity|]); try done.
  intros [Ha%Z.eqb_eq H%status_in_elem]%andb_true_iff. exists row. split; [by left|done].
Qed.

(** What becomes of an answer about a signature. *)
Lemma settled_signature_runs {A} r (value : A) answer forward m reason :
  all_runs (settled_signature solana_network r value answer forward m reason) (fun tr res =>
    only quiet tr /\ match res with
    | Ok v => v = value
        /\ (answer = duplicate_signature -> releases (result_id r) (result_attempt r) tr)
        /\ (answer = stale -> past_record (result_id r) (result_attempt r) forward tr)
    | Err _ => trips tr
    end).
Proof.
  unfold settled_signature. destruct (bool_decide_reflect (answer = duplicate_signature)) as [Hd|Hd].
  - rewrite all_runs_bind. eapply all_runs_mono; [|apply releaseDeterministic_runs].
    intros tr [u|e] (Q & T & R); cbn; [rewrite app_nil_r|]; (split; [done|]); [|by apply T].
    split; [done|]. split; [by intros _; apply R|]. intros E. congruence.
  - rewrite all_runs_bind. destruct (bool_decide_reflect (answer = persisted)) as [Hp|Hp]; cbn [negb].
    + cbn. split; [constructor|]. split_and!; [done|intros E; congruence..].
    + eapply all_runs_mono; [|apply durablyAdvanced_runs].
      intros tr res (Q & b & -> & Hb). destruct b.
      * cbn. rewrite app_nil_r. split; [done|]. split_and!; [done|intros E; congruence|].
        intros _. by apply Hb.
      * eapply all_runs_mono; [|apply accountingUnavailable_runs].
        intros tr' res (Q' & T & cause & ->). split; [eauto|].
        unfold trips in *. rewrite Exists_app. auto.
Qed.

(** Persisting a signature and settling what the ledger answered. *)
Lemma persisted_runs {A} r (value : A) (c : service_call) forward m reason m' reason'
    (k : service_response c -> SignaturePersistResult) (answered : record_answer) :
  quiet c = true ->
  (forall a, answered (k a) (Ev (R := service_response) c (Ok a))) ->
  all_runs (bind (accounted (ask c) (network_ solana_network) m reason)
              (fun a => settled_signature solana_network r value (k a) forward m' reason'))
    (fun tr res => only quiet tr /\ match res with
       | Ok v => v = value /\ signature_recorded (result_id r) (result_attempt r) answered forward tr
       | Err _ => trips tr
       end).
Proof.
  intros Hq Hk. rewrite all_runs_bind.
  eapply all_runs_mono; [|apply (accounted_runs _ _ _ _
    (fun tr a => tr = [Ev (R := service_response) c (Ok a)]) (fun tr => only quiet tr));
    apply ask_runs; intros [a|e]; [done|by repeat constructor]].
  intros tr [a|e].
  - intros ->. eapply all_runs_mono; [|by apply settled_signature_runs]. specialize (Hk a).
    intros tr [v|e] [Q P].
    + split; [by constructor|]. destruct P as (-> & Pd & Ps). split; [done|].
      unfold signature_recorded. destruct (k a) eqn:Ek.
      * left. by left.
      * right. right. split; [by left|]. destruct (Ps eq_refl) as (row & Hin & H). exists row. split; [by right|done].
      * right. left. split; [by left|]. right. by apply Pd.
    + split; [by constructor|]. by right.
  - intros (t1 & t2 & -> & Q & Q' & T & _). split; [eauto|].
    unfold trips in *. rewrite Exists_app. auto.
Qed.

(** A record stays with the calls before it. *)
Lemma signature_recorded_after id att answered past t1 t2 :
  signature_recorded id att answered past t2 -> signature_recorded id att answered past (t1 ++ t2).
Proof.
  unfold signature_recorded, releases. rewrite !Exists_app. intros [H|[[H R]|(H & row & Hin & Hr)]]; [by auto|by auto|].
  right. right. split; [by auto|]. exists row. split; [apply elem_of_app; by right|done].
Qed.

(** Custody is asked once: what comes before and after that call. *)
Lemma asked_once t1 t2 x before e after :
  only unclaimed t1 -> only unclaimed t2 ->
  (t1 ++ x :: t2 = before ++ e :: after)%list -> provider_call (ev_call e) = true ->
  before = t1 /\ e = x /\ after = t2.
Proof.
  intros U1 U2 E Hp. revert before E. induction t1 as [|y t1 IH]; intros [|z before] E.
  - by injection E as -> ->.
  - injection E as -> E. exfalso. rewrite E in U2. unfold only in U2.
    rewrite Forall_app, Forall_cons in U2. destruct U2 as (_ & U2 & _).
    unfold unclaimed in U2. by rewrite Hp in U2.
  - injection E as -> _. apply Forall_cons in U1 as [U1 _].
    unfold unclaimed in U1. by rewrite Hp in U1.
  - injection E as -> E. apply Forall_cons in U1 as [_ U1].
    destruct (IH U1 before E) as (-> & -> & ->). auto.
Qed.

Lemma never_asked t before e after :
  only unclaimed t -> (t = before ++ e :: after)%list -> provider_call (ev_call e) = true -> False.
Proof.
  intros U -> Hp. unfold only in U. rewrite Forall_app, Forall_cons in U.
  destruct U as (_ & U & _). unfold unclaimed in U. by rewrite Hp in U.
Qed.

Lemma replayable_sign row : replayable row op_sign = true -> truthy (signedTransaction row) = true.
Proof. unfold replayable, reservationHasResponse. by intros [_ [_ ?]%andb_true_iff]%andb_true_iff. Qed.

Lemma replayable_send row : replayable row op_send = true -> truthy (signature row) = true.
Proof. unfold replayable, reservationHasResponse. by intros [_ [_ ?]%andb_true_iff]%andb_true_iff. Qed.

(** The statuses an attempt has once its signature is recorded, and once it is submitted. *)
Definition past_signing : list SponsorshipReservationStatus := [st_signed; st_submitted; st_committed; st_charged_unknown].
Definition past_sending : list SponsorshipReservationStatus := [st_submitted; st_committed; st_charged_unknown].

(** A run of [signAsFeePayer] or [signAndSend]: it never asks custody, or asks once
    with both claims in hand and accounts for the answer under the claimed attempt. *)
Definition custody_run (asks : service_call) (answered : string -> Z -> string -> record_answer)
    (past : list SponsorshipReservationStatus) (unsigned : jserr -> Prop)
    (tr : list service_event) (res : result string) : Prop :=
  only unclaimed tr
  \/ exists t1 ans t2, tr = (t1 ++ ans :: t2)%list /\ ev_call ans = asks
     /\ only unclaimed t1 /\ only unclaimed t2
     /\ exists id att amount, claims id att amount t1
     /\ match ans with
        | Ev (ProviderSignAsFeePayer _) r | Ev (ProviderSignAndSend _) r =>
            outcome id att (answered id att) past unsigned r t2 res
        | _ => False
        end.

Lemma markAmbiguous_outcome {A} r error (k : list service_event -> result A -> Prop) :
  (forall tr e, only quiet tr ->
     kept_as_unknown (A := string) (result_id r) (result_attempt r) error tr (Err e) -> k tr (Err e)) ->
  all_runs (bind (markAmbiguous solana_network r error) (fun _ => Throw error)) k.
Proof.
  intros Hk. rewrite all_runs_bind. eapply all_runs_mono; [|apply markAmbiguous_runs].
  intros tr [u|e] (N & Q & P); cbn; rewrite ?app_nil_r; apply Hk; try done; (split; [done|]).
  - destruct P as [reason ->]. left. eauto 10.
  - right. destruct P as (T & m & cause & ->). eauto.
Qed.

Lemma signAsFeePayer_runs tx :
  all_runs (signAsFeePayer kit solana_network scope hasConfiguration tx)
    (custody_run (ProviderSignAsFeePayer tx) (records_signed kit) past_signing (fun _ => False)).
Proof.
  unfold signAsFeePayer. rewrite all_runs_bind.
  eapply all_runs_mono; [|apply admitted_operation_runs]. intros tr1 [r|e] [U1 P1]; [|by left].
  destruct P1 as [[Hr (amount & Hcl)]|(row & Hr & Hrep)].
  2:{ rewrite Hr. cbn [mbind option_bind]. pose proof (replayable_sign _ Hrep) as Ht.
      rewrite Ht. destruct (signedTransaction row) as [s|]; [|done].
      left. cbn. by rewrite app_nil_r. }
  rewrite Hr. cbn [mbind option_bind truthy]. rewrite all_runs_bind, all_runs_catch.
  intros ans. destruct ans as [v|e].
  - cbn [all_runs]. rewrite all_runs_bind.
    eapply all_runs_mono; [|apply (accounted_runs _ _ _ _ (fun tr s => tr = [] /\ signatureOf kit v = Ok s)
      (fun tr => tr = [])); destruct (signatureOf kit v); by cbn].
    intros tr2 [s|e].
    + intros [-> Es]. eapply all_runs_mono; [|apply (persisted_runs r v (MarkSigned (result_id r) (result_attempt r)
        (encodeBase64 kit v) s) _ _ _ _ _ (fun a => a) (records_signed kit (result_id r) (result_attempt r) v));
        [done|intros a; by exists s]].
      intros tr3 res [Q3 P3]. right.
      exists tr1, (Ev (R := service_response) (ProviderSignAsFeePayer tx) (Ok v)), tr3.
      split_and!; [done|done|done|eauto|]. exists (result_id r), (result_attempt r), amount. split; [done|].
      cbn. destruct res as [w|e]; [left|by right]. by destruct P3 as [-> P3].
    + intros (t1 & t2 & -> & -> & Q2 & T & _). right.
      exists tr1, (Ev (R := service_response) (ProviderSignAsFeePayer tx) (Ok v)), t2.
      split_and!; [done|done|done|eauto|]. exists (result_id r), (result_attempt r), amount. split; [done|]. cbn. auto.
  - eapply markAmbiguous_outcome. intros tr e' Q K. cbn. right.
    exists tr1, (Ev (R := service_response) (ProviderSignAsFeePayer tx) (Err e)), tr.
    split_and!; [done|done|done|eauto|]. exists (result_id r), (result_attempt r), amount. split; [done|].
    right. split; [by intros []|exact K].
Qed.

Lemma deterministic_unsigned e : isDeterministicProviderRejection e = true <-> proves_unsigned e.
Proof.
  split.
  - destruct e; try done. cbn [isDeterministicProviderRejection]. intros [->%String.eqb_eq H]%andb_true_iff.
    apply existsb_exists in H as (c & Hc & ->%String.eqb_eq). constructor. by apply list_elem_of_In.
  - intros [code m c Hc]. cbn [isDeterministicProviderRejection]. rewrite String.eqb_refl. apply existsb_exists.
    exists code. split; [by apply list_elem_of_In|apply String.eqb_refl].
Qed.

Lemma signAndSend_runs tx :
  all_runs (signAndSend kit solana_network scope hasConfiguration tx)
    (custody_run (ProviderSignAndSend tx) records_submitted past_sending proves_unsigned).
Proof.
  unfold signAndSend. rewrite all_runs_bind.
  eapply all_runs_mono; [|apply admitted_operation_runs]. intros tr1 [r|e] [U1 P1]; [|by left].
  destruct P1 as [[Hr (amount & Hcl)]|(row & Hr & Hrep)].
  2:{ rewrite Hr. cbn [mbind option_bind]. pose proof (replayable_send _ Hrep) as Ht.
      rewrite Ht. destruct (signature row) as [s|]; [|done].
      destruct (checkSignature kit s); left; cbn; by rewrite app_nil_r. }
  rewrite Hr. cbn [mbind option_bind truthy]. rewrite all_runs_bind, all_runs_catch.
  assert (forall ans t2 res, only quiet t2 ->
    outcome (result_id r) (result_attempt r) (records_submitted (result_id r) (result_attempt r)) past_sending
      proves_unsigned ans t2 res ->
    custody_run (ProviderSignAndSend tx) records_submitted past_sending proves_unsigned
      (tr1 ++ Ev (R := service_response) (ProviderSignAndSend tx) ans :: t2) res) as Hrun.
  { intros ans t2 res Q O. right. exists tr1, (Ev (R := service_response) (ProviderSignAndSend tx) ans), t2.
    split_and!; [done|done|done|eauto|]. by exists (result_id r), (result_attempt r), amount. }
  intros ans. destruct ans as [v|e].
  - cbn [all_runs]. eapply all_runs_mono; [|apply (persisted_runs r v (MarkSubmitted (result_id r)
      (result_attempt r) v) _ _ _ _ _ (fun a => a) (records_submitted (result_id r) (result_attempt r) v)); [done|by intros a]].
    intros tr3 res [Q3 P3]. apply Hrun; [done|]. cbn. destruct res as [w|e]; [left|by right].
    by destruct P3 as [-> P3].
  - cbn [all_runs]. pose proof (deterministic_unsigned e) as Hiff. destruct (isDeterministicProviderRejection e) eqn:Ed.
    + rewrite all_runs_bind. eapply all_runs_mono; [|apply releaseDeterministic_runs].
      intros tr [u|e'] (Q & T & R); cbn; rewrite ?app_nil_r; (apply Hrun; [done|]); left;
        (split; [by apply Hiff|]); (split; [by apply R|]); [by left|right]. split; [done|by apply T].
    + eapply markAmbiguous_outcome. intros tr e' Q K. apply Hrun; [done|]. right. split; [by intros ?%Hiff|exact K].
Qed.

(** Programs made of calls of a set only make calls of the set. *)
Definition calls_only {A} (P : service_call -> bool) (m : service_prog A) : Prop :=
  all_runs m (fun tr _ => only P tr).

Lemma calls_bind {A B} P (m : service_prog A) (f : A -> service_prog B) :
  calls_only P m -> (forall a, calls_only P (f a)) -> calls_only P (bind m f).
Proof.
  intros Hm Hf. unfold calls_only. rewrite all_runs_bind. eapply all_runs_mono; [|exact Hm].
  intros tr [a|e] H; [|done]. eapply all_runs_mono; [|apply Hf]. intros. by apply only_app.
Qed.

Lemma calls_catch {A} P (m : service_prog A) (h : jserr -> service_prog A) :
  calls_only P m -> (forall e, calls_only P (h e)) -> calls_only P (catch m h).
Proof.
  intros Hm Hf. unfold calls_only. rewrite all_runs_catch. eapply all_runs_mono; [|exact Hm].
  intros tr [a|e] H; [done|]. eapply all_runs_mono; [|apply Hf]. intros. by apply only_app.
Qed.

Lemma calls_ret {A} P (a : A) : calls_only P (Ret a).
Proof. constructor. Qed.

Lemma calls_throw {A} P e : calls_only P (Throw (A := A) e).
Proof. constructor. Qed.

Lemma calls_ask (P : service_call -> bool) c : P c = true -> calls_only P (ask c).
Proof. intros H. cbn. intros [r|e]; by repeat constructor. Qed.

Lemma calls_call {A} (P : service_call -> bool) c (k : result (service_response c) -> service_prog A) :
  P c = true -> (forall r, calls_only P (k r)) -> calls_only P (Call c k).
Proof.
  intros H Hk r. eapply all_runs_mono; [|exact (Hk r)]. intros tr res Q. by constructor.
Qed.

Lemma calls_lift {A} P (r : result A) : calls_only P (lift r).
Proof. destruct r; constructor. Qed.

Lemma calls_accounted {A} (m : service_prog A) n msg reason :
  calls_only quiet m -> calls_only quiet (accounted m n msg reason).
Proof.
  intros H. apply calls_catch; [done|]. intros e.
  eapply all_runs_mono; [|apply accountingUnavailable_runs]. intros tr res (Q & _).
  by apply only_breaker_quiet.
Qed.

Lemma calls_release r error boundary :
  calls_only quiet (releaseDeterministic solana_network r error boundary).
Proof. eapply all_runs_mono; [|apply releaseDeterministic_runs]. by intros tr res [Q _]. Qed.

Lemma calls_advanced r forward : calls_only quiet (durablyAdvanced r forward).
Proof. eapply all_runs_mono; [|apply durablyAdvanced_runs]. by intros tr res [Q _]. Qed.

Lemma calls_unavailable {A} n m reason e :
  calls_only quiet (accountingUnavailable (A := A) n m reason e).
Proof.
  eapply all_runs_mono; [|apply accountingUnavailable_runs]. intros tr res (Q & _).
  by apply only_breaker_quiet.
Qed.

Lemma calls_resolve n : calls_only quiet (resolveEnabledPolicies scope n).
Proof. eapply all_runs_mono; [|apply resolveEnabledPolicies_runs]. by intros tr res [Q _]. Qed.

(** What [prepareOwnedSubmission] does once custody has answered. *)
Ltac quietly :=
  repeat first
    [ apply calls_ret | apply calls_throw | apply calls_lift | apply calls_release
    | apply calls_advanced | apply calls_unavailable | apply calls_resolve
    | apply calls_accounted | by apply calls_ask
    | apply calls_bind; [|intros ?] | apply calls_catch; [|intros ?]
    | apply calls_call; [done|intros [?|?]; cbn [bind catch]]
    | match goal with |- calls_only _ (if ?b then _ else _) => destruct b end ].

(** [prepareOwnedSubmission] asks custody at most once, with both claims. *)
Lemma prepareOwnedSubmission_runs tx :
  all_runs (prepareOwnedSubmission kit solana_network scope hasConfiguration tx) (fun tr res =>
    only unclaimed tr
    \/ exists t1 ans t2, tr = (t1 ++ ans :: t2)%list /\ ev_call ans = ProviderSignAsFeePayer tx
       /\ only unclaimed t1 /\ only unclaimed t2
       /\ exists id att amount, claims id att amount t1).
Proof.
  unfold prepareOwnedSubmission. rewrite all_runs_bind.
  eapply all_runs_mono; [|apply admitted_operation_runs]. intros tr1 [r|e] [U1 P1]; [|by left].
  destruct P1 as [[Hr (amount & Hcl)]|(row & Hr & Hrep)].
  2:{ rewrite Hr. left. cbn. by rewrite app_nil_r. }
  rewrite Hr. unfold signOwned. intros ans.
  assert (forall k : service_prog PreparedOwnedSubmission, calls_only quiet k ->
    all_runs k (fun tr _ =>
      only unclaimed (tr1 ++ Ev (R := service_response) (ProviderSignAsFeePayer tx) ans :: tr)
      \/ exists t1 a t2, (tr1 ++ Ev (R := service_response) (ProviderSignAsFeePayer tx) ans :: tr)%list
           = (t1 ++ a :: t2)%list
         /\ ev_call a = ProviderSignAsFeePayer tx /\ only unclaimed t1 /\ only unclaimed t2
         /\ exists id att amount, claims id att amount t1)) as Hend.
  { intros k Hk. eapply all_runs_mono; [|exact Hk]. intros tr res Q. right.
    do 3 eexists. split_and!; [reflexivity|done|done|eauto|eauto]. }
  apply Hend. destruct ans as [v|e]; cbn [bind catch ask call]; unfold startFailed; quietly.
Qed.

Lemma custody_asks asks answered past unsigned tr res :
  custody_run asks answered past unsigned tr res -> asks_with_claims tr.
Proof.
  intros [U|(t1 & a & t2 & -> & _ & U1 & U2 & id & att & amount & Hc & _)] before e after E Hp.
  - by destruct (never_asked tr before e after U E Hp).
  - destruct (asked_once t1 t2 a before e after U1 U2 E Hp) as (-> & _). by exists id, att, amount.
Qed.

Definition no_reads (c : service_call) : bool :=
  match c with GetReservation _ => false | _ => true end.

Lemma first_reservation_skip t1 t2 :
  only no_reads t1 -> first_reservation (t1 ++ t2) = first_reservation t2.
Proof.
  induction t1 as [|[c r] t1 IH]; [done|]. intros [H1 H2]%Forall_cons. cbn.
  destruct c; try done; by apply IH.
Qed.

Lemma prepareAdmission_reads tx :
  all_runs (prepareAdmission kit solana_network scope hasConfiguration tx)
    (fun tr _ => only no_reads tr).
Proof.
  unfold prepareAdmission. destruct hasConfiguration; cbn; [|constructor].
  intros [c|e]; cbn; [|repeat constructor]. intros [f|e]; cbn; [|repeat constructor].
  destruct (_ || _); cbn; [repeat constructor|].
  destruct (messageBytes kit tx) as [m|e]; cbn; [|repeat constructor].
  destruct (getRecentBlockhash kit tx); cbn; [|repeat constructor].
  intros [iso|e]; cbn; repeat constructor.
Qed.

Lemma readReservation_exact c :
  all_runs (readReservation c) (fun tr res =>
    match res with
    | Ok r => tr = [Ev (R := service_response) (GetReservation (ctx_id c)) (Ok r)]
    | Err _ => first_reservation tr = None
    end).
Proof.
  unfold readReservation, accounted. cbn. intros [r|e]; cbn; [done|].
  eapply all_runs_mono; [|apply accountingUnavailable_runs].
  intros tr res (Q & _ & cause & ->). cbn. clear -Q.
  induction tr as [|[x r] tr IH]; [done|]. apply Forall_cons in Q as [H1 H2]. cbn in *.
  destruct x; try done; by apply IH.
Qed.

(** What the ledger already knows of a request decides it. *)
Lemma admitted_operation_replay tx op :
  all_runs (admitted_operation kit solana_network scope hasConfiguration tx op) (fun tr res =>
    forall row, first_reservation tr = Some row ->
      (replayable row op = true -> only quiet tr /\ exists r, res = Ok r /\ result_replay r = Some row)
      /\ (status row = st_charged_unknown -> only quiet tr /\ is_ok res = false)).
Proof.
  unfold admitted_operation. rewrite all_runs_bind.
  eapply all_runs_mono; [|apply all_runs_and; [apply prepareAdmission_runs|apply prepareAdmission_reads]].
  intros tr1 [c|e] [Q1 N1].
  2:{ intros row. rewrite <- (app_nil_r tr1). by rewrite first_reservation_skip. }
  rewrite all_runs_bind. eapply all_runs_mono; [|apply readReservation_exact].
  intros tr2 [r|e].
  2:{ intros E row. rewrite first_reservation_skip by done. congruence. }
  intros ->. rewrite all_runs_bind. unfold resolveDurableReplay.
  destruct r as [r|]; cbn [lift].
  - destruct (replayable r op) eqn:Er; cbn [lift all_runs].
    { cbn. intros row. rewrite first_reservation_skip by done. cbn. intros [= <-].
      rewrite ?app_nil_r. assert (only quiet (tr1 ++ [Ev (R := service_response)
        (GetReservation (ctx_id c)) (Ok (Some r))])) as Q by (apply only_app; [done|by repeat constructor]).
      split; [eauto|]. intros Hs. unfold replayable in Er. by rewrite Hs in Er. }
    destruct (bool_decide_reflect (status r = st_charged_unknown)) as [Hs|Hs]; cbn [all_runs].
    { cbn. intros row. rewrite first_reservation_skip by done. cbn. intros [= <-].
      rewrite ?app_nil_r. split; [congruence|]. intros _. split; [|done].
      apply only_app; [done|by repeat constructor]. }
    cbn [lift all_runs]. eapply (all_runs_mono _ (fun _ _ => True)); [|by apply all_runs_true].
    intros tr res _ row. rewrite first_reservation_skip by done. cbn. intros [= <-].
    by split; [congruence|].
  - cbn [lift all_runs]. eapply (all_runs_mono _ (fun _ _ => True)); [|by apply all_runs_true].
    intros tr res _ row. rewrite first_reservation_skip by done. done.
Qed.

(** An admission that returns has read the ledger. *)
Lemma admitted_operation_reads tx op :
  all_runs (admitted_operation kit solana_network scope hasConfiguration tx op) (fun tr res =>
    is_ok res = true -> forall t, first_reservation (tr ++ t) = first_reservation tr).
Proof.
  unfold admitted_operation. rewrite all_runs_bind.
  eapply all_runs_mono; [|apply prepareAdmission_reads]. intros tr1 [c|e] N1; [|done].
  rewrite all_runs_bind. eapply all_runs_mono; [|apply readReservation_exact].
  intros tr2 [r|e]; [|done]. intros ->.
  eapply (all_runs_mono _ (fun _ _ => True)); [|by apply all_runs_true].
  intros tr res _ _ t. rewrite <- app_assoc.
  rewrite (first_reservation_skip tr1 _ N1), (first_reservation_skip tr1 _ N1). reflexivity.
Qed.
End Runs.

(** * Theorems *)

(** C5. Custody is asked only for budget already held: on every run of every
    entry point, whatever the services answer, a request to sign or send is
    preceded by this process's own durable claim of the reservation (an insert or
    a reopening of the next attempt) and then by Redis admitting the same amount
    for the same attempt. *)
Theorem custody_needs_admission kit network scope hasConfiguration tx :
  all_runs (signAsFeePayer kit network scope hasConfiguration tx) (fun tr _ => asks_with_claims tr)
  /\ all_runs (signAndSend kit network scope hasConfiguration tx) (fun tr _ => asks_with_claims tr)
  /\ all_runs (prepareOwnedSubmission kit network scope hasConfiguration tx)
       (fun tr _ => asks_with_claims tr).
Proof.
  split_and!.
  - eapply all_runs_mono; [|apply signAsFeePayer_runs]. intros tr res. apply custody_asks.
  - eapply all_runs_mono; [|apply signAndSend_runs]. intros tr res. apply custody_asks.
  - eapply all_runs_mono; [|apply prepareOwnedSubmission_runs].
    intros tr res [U|(t1 & a & t2 & -> & _ & U1 & U2 & Hc)] before e after E Hp.
    + by destruct (never_asked tr before e after U E Hp).
    + by destruct (asked_once t1 t2 a before e after U1 U2 E Hp) as (-> & _).
Qed.


(** Requests are idempotent: when the ledger already holds the signed
    transaction of the request, [signAsFeePayer] returns it without claiming or
    asking anything; when it holds an ambiguous outcome, the request is refused
    the same way. *)
Theorem durable_outcome_is_replayed kit network scope hasConfiguration tx :
  all_runs (signAsFeePayer kit network scope hasConfiguration tx) (fun tr res =>
    forall row, first_reservation tr = Some row ->
      (replayable row op_sign = true ->
         only quiet tr /\ exists s, signedTransaction row = Some s /\ res = Ok (decodeBase64 kit s))
      /\ (status row = st_charged_unknown -> only quiet tr /\ is_ok res = false)).
Proof.
  unfold signAsFeePayer. rewrite all_runs_bind.
  eapply all_runs_mono; [|apply all_runs_and;
    [apply admitted_operation_replay|apply admitted_operation_reads]].
  intros tr1 [r|e] [H Hf]; [specialize (Hf eq_refl)|].
  - destruct (result_replay r) as [x|] eqn:Ex; cbn [mbind option_bind].
    + destruct (truthy (signedTransaction x)) eqn:Et.
      * destruct (signedTransaction x) as [s|] eqn:Es; [|done]. cbn. rewrite app_nil_r.
        intros row Hrow. destruct (H row Hrow) as [H1 H2]. split.
        -- intros Hr. destruct (H1 Hr) as (Q & r' & [= <-] & Hr'). split; [done|]. exists s.
           rewrite Ex in Hr'. injection Hr' as ->. done.
        -- intros Hs. by destruct (H2 Hs).
      * eapply (all_runs_mono _ (fun _ _ => True)); [|by apply all_runs_true].
        intros tr res _ row. rewrite Hf. intros Hrow. destruct (H row Hrow) as [H1 H2]. split.
        -- intros Hr. destruct (H1 Hr) as (_ & r' & [= <-] & Hr'). rewrite Ex in Hr'.
           injection Hr' as ->. apply replayable_sign in Hr. congruence.
        -- intros Hs. by destruct (H2 Hs).
    + eapply (all_runs_mono _ (fun _ _ => True)); [|by apply all_runs_true].
      intros tr res _ row. rewrite Hf. intros Hrow. destruct (H row Hrow) as [H1 H2]. split.
      * intros Hr. destruct (H1 Hr) as (_ & r' & [= <-] & Hr'). congruence.
      * intros Hs. by destruct (H2 Hs).
  - intros row Hrow. destruct (H row Hrow) as [H1 H2]. split; [|done].
    intros Hr. by destruct (H1 Hr) as (_ & r' & ? & _).
Qed.

(** A refused admission keeps nothing: on every run where admission fails
    after this process claimed the reservation, a release of that attempt was
    issued to the ledger or the breaker was tripped. *)
Theorem refused_admission_is_released kit network scope hasConfiguration tx op :
  all_runs (admitted_operation kit network scope hasConfiguration tx op) (fun tr res =>
    is_ok res = false -> forall id att amount,
      Exists (durable_claim id att amount) tr -> releases id att tr \/ trips tr).
Proof.
  eapply all_runs_mono; [|apply admitted_operation_runs]. intros tr [r|e] [_ H]; [done|].
  intros _. exact H.
Qed.
