(* ===== verification/BudgetReconcile.v ===== *)
(** * Sponsorship budgets: reconciliation

    [apps/sdp-api/src/services/jobs/reconcile-sponsorship-budgets.ts]: the job that
    settles reservations against the chain and recovers the breaker, as a program
    over the calls it makes. The RPC, the provider and the clock are calls;
    [assertIsSignature] and [assertIsBlockhash] are parameters. Logging is left
    out. *)
From Stdlib Require Import Ascii String ZArith Lia.
From stdpp Require Import base list strings gmap.
From S2P Require Import Prelude Text BudgetTypes BudgetRedis BudgetLedger BudgetService.

Local Open Scope string_scope.
Local Open Scope Z_scope.
Local Open Scope sdp_scope.

Definition RECONCILIATION_BATCH_SIZE : nat := 250.
Definition PROVIDER_CONFIG_READ_ATTEMPTS : nat := 3.
Definition CONSECUTIVE_CONFIG_FAILURES_BEFORE_TRIP : Z := 3.
Definition KORA_CONFIG_UNAVAILABLE_BREAKER_REASON : string :=
  "Kora security configuration was unavailable during reconciliation".
Definition BREAKER_RECOVERY_REASON : string :=
  "Kora security configuration became readable again during reconciliation".

(** The balances of a confirmed transaction; [None] where the RPC omits them. *)
Record ConfirmedTransaction := mkConfirmed {
  preBalances : option (list Z);
  postBalances : option (list Z);
}.

Inductive reconcile_call : Type :=
| ListCandidates (n : SponsorshipNetwork) (limit : nat)
| GetGlobalPolicy (n : SponsorshipNetwork)
| ReadConfiguration
| Sleep
| RecordConfigFailure (n : SponsorshipNetwork)
| ResetConfigFailures (n : SponsorshipNetwork)
| ResumeBreaker (n : SponsorshipNetwork) (expectedTripReason reason : string)
| TripBreaker (n : SponsorshipNetwork) (reason : string) (recoverable : bool)
| SyncPolicy (p : SponsorshipBudgetPolicy)
| GetTransaction (signature : string)
| IsBlockhashValid (blockhash : string)
| RecordMiss (id : string) (attempt missCount : Z)
| Settle (id : string) (attempt : Z) (st : settled_status) (actual : Z)
| ChargeUnknown (id : string) (attempt : Z) (reason : string)
| ReadReservation (id : string)
| SettleRedis (input : BudgetSettleInput)
| RedisSettled (id : string) (attempt : Z).

Definition reconcile_response (c : reconcile_call) : Type :=
  match c with
  | ListCandidates _ _ => list SponsorshipReconciliationReservation
  | GetGlobalPolicy _ => option SponsorshipBudgetPolicy
  | ReadConfiguration => SponsorshipProviderConfiguration
  | Sleep | ResetConfigFailures _ | SyncPolicy _ => unit
  | RecordConfigFailure _ => Z
  | ResumeBreaker _ _ _ | TripBreaker _ _ _ => option SponsorshipBudgetPolicy
  | GetTransaction _ => option ConfirmedTransaction
  | IsBlockhashValid _ => bool
  | RecordMiss _ _ _ | Settle _ _ _ _ | ChargeUnknown _ _ _ | RedisSettled _ _ => bool
  | ReadReservation _ => option SponsorshipReservation
  | SettleRedis _ => Z
  end.

Abbreviation reconcile_event := (event reconcile_response).
Abbreviation reconcile_prog := (prog reconcile_response).

Definition query (c : reconcile_call) : reconcile_prog (reconcile_response c) := call c.

Inductive ReconciliationOutcome :=
  redis_synced | committed_ | charged_unknown_ | still_valid | awaiting_expiry.

Definition isRecoverableBreakerTrip (p : option SponsorshipBudgetPolicy) : bool :=
  match p with
  | None => false
  | Some p => negb (enabled p) && String.eqb (updatedBy p) SPONSORSHIP_BREAKER_OPERATOR
              && String.eqb (updateReason p) KORA_CONFIG_UNAVAILABLE_BREAKER_REASON
  end.

(** [balances?.[0]] *)
Definition first_balance (balances : option (list Z)) : option Z := balances ≫= head.

Definition feePayerSpendLamports (pre post : option (list Z)) : result Z :=
  match first_balance pre, first_balance post with
  | Some before, Some after =>
      let delta := if after <? before then before - after else 0 in
      if MAX_SAFE_INTEGER <? delta
      then Err (PlainError "Fee-payer balance delta exceeds JavaScript safe integer range")
      else Ok delta
  | _, _ => Err (PlainError "Confirmed transaction omitted fee-payer balance data")
  end.

Definition tripBreakerJob (n : SponsorshipNetwork) (reason : string) (recoverable : bool)
    : reconcile_prog unit :=
  let! policy := query (TripBreaker n reason recoverable) in
  match policy with
  | Some p => query (SyncPolicy p)
  | None => Ret tt
  end.

(** The loop over [PROVIDER_CONFIG_READ_ATTEMPTS]; [left_] reads remain. *)
Fixpoint readConfigurationLoop (left_ : nat) (lastError : jserr)
    : reconcile_prog SponsorshipProviderConfiguration :=
  match left_ with
  | O => Throw lastError
  | S n =>
      Call ReadConfiguration (fun r =>
        match r with
        | Ok c => Ret c
        | Err e =>
            let! _ := (if Nat.ltb 0 n then query Sleep else Ret tt) in
            readConfigurationLoop n e
        end)
  end.

Definition readProviderConfiguration : reconcile_prog SponsorshipProviderConfiguration :=
  readConfigurationLoop PROVIDER_CONFIG_READ_ATTEMPTS (NonError "undefined").

Definition handleProviderConfigFailure (n : SponsorshipNetwork) : reconcile_prog unit :=
  let! consecutiveFailures := query (RecordConfigFailure n) in
  if CONSECUTIVE_CONFIG_FAILURES_BEFORE_TRIP <=? consecutiveFailures
  then tripBreakerJob n KORA_CONFIG_UNAVAILABLE_BREAKER_REASON true
  else Ret tt.

Definition settlement_of (r : SponsorshipReconciliationReservation) (actual : Z)
    : BudgetSettleInput :=
  mkSettlement
    (mkCancel (network r) (organizationId r) (projectId r) (hourBucket r) (dayBucket r)
       (id (reservation r)) (attempt (reservation r)))
    (reservedLamports (reservation r)) actual true.

Definition syncRedisSettlement (r : SponsorshipReconciliationReservation) (actual : Z)
    : reconcile_prog unit :=
  catch
    (let! _ := query (SettleRedis (settlement_of r actual)) in
     let! kept := query (RedisSettled (id (reservation r)) (attempt (reservation r))) in
     if kept : bool then Ret tt
     else Throw (PlainError "Redis settlement lost its durable reservation ownership"))
    (fun error =>
       let! _ := tripBreakerJob (network r)
                   "Redis settlement failed after durable ledger settlement" false in
       Throw error).

Definition settleDurably (r : SponsorshipReconciliationReservation) (st : settled_status)
    (actual : Z) : reconcile_prog unit :=
  let! settled := query (Settle (id (reservation r)) (attempt (reservation r)) st actual) in
  if negb settled then Ret tt else syncRedisSettlement r actual.

Definition concurrentlyResolved (r : SponsorshipReconciliationReservation)
    (current : option SponsorshipReservation) : bool :=
  match current with
  | None => false
  | Some c => negb (attempt c =? attempt (reservation r))
              || status_in (status c) [st_charged_unknown; st_committed; st_released]
  end.

Definition persistAmbiguousCharge (r : SponsorshipReconciliationReservation)
    (reason breakerReason lostTransitionError : string) : reconcile_prog unit :=
  let! kept := query (ChargeUnknown (id (reservation r)) (attempt (reservation r)) reason) in
  if kept : bool then Ret tt
  else
    let! current := query (ReadReservation (id (reservation r))) in
    if concurrentlyResolved r current then Ret tt
    else
      let! _ := tripBreakerJob (network r) breakerReason false in
      Throw (PlainError lostTransitionError).

Section Reconcile.
Context (checkSignature checkBlockhash : string -> result unit)
        (fingerprint : SponsorshipProviderConfiguration -> string).

Definition lift_ {A} (r : result A) : reconcile_prog A :=
  match r with Ok a => Ret a | Err e => Throw e end.

Definition reconcileReservation (r : SponsorshipReconciliationReservation)
    : reconcile_prog ReconciliationOutcome :=
  let row := reservation r in
  if status_in (status row) [st_committed; st_released] then
    match actualLamports row with
    | None => Throw (PlainError "Terminal sponsorship reservation omitted actual lamports")
    | Some actual => let! _ := syncRedisSettlement r actual in Ret redis_synced
    end
  else
    match (if truthy (signature row) then signature row else None) with
    | None =>
        let! _ := persistAmbiguousCharge r
          "No signature was durably captured before reconciliation timeout"
          "Signature-less ambiguous reservation lost its durable transition"
          "Failed to persist signature-less ambiguous sponsorship outcome" in
        Ret charged_unknown_
    | Some sig =>
        let! _ := lift_ (checkSignature sig) in
        let! transaction := query (GetTransaction sig) in
        match transaction with
        | Some t =>
            let! actual := lift_ (feePayerSpendLamports (preBalances t) (postBalances t)) in
            let! _ := (if reservedLamports row <? actual
                       then tripBreakerJob (network r)
                              ("Actual sponsorship spend " ++ z_text actual
                               ++ " exceeded reservation " ++ z_text (reservedLamports row)) false
                       else Ret tt) in
            let! _ := settleDurably r settle_committed actual in
            Ret committed_
        | None =>
            let! _ := lift_ (checkBlockhash (recentBlockhash r)) in
            let! valid := query (IsBlockhashValid (recentBlockhash r)) in
            if valid : bool then Ret still_valid
            else if missCount r =? 0 then
              let! _ := query (RecordMiss (id row) (attempt row) 0) in Ret awaiting_expiry
            else
              let! _ := persistAmbiguousCharge r
                "Signature absent after blockhash expiry on two reconciliation passes"
                "Ambiguous unconfirmed reservation lost its durable transition"
                "Failed to retain ambiguous unconfirmed sponsorship charge" in
              Ret charged_unknown_
        end
    end.

(** One turn of the loop over the reservations: its failure is collected. *)
Definition reconcileOne (c : SponsorshipProviderConfiguration)
    (r : SponsorshipReconciliationReservation) : reconcile_prog ReconciliationOutcome :=
  if negb (String.eqb (feePayer r) (signerAddress c))
     || negb (String.eqb (providerConfigFingerprint r) (fingerprint c)) then
    let! _ := tripBreakerJob (network r)
      "Kora signer or security configuration changed during sponsorship reconciliation" false in
    Throw (PlainError "Kora signer or security configuration does not match the reservation")
  else reconcileReservation r.

Definition as_failure (e : jserr) : jserr :=
  match e with NonError t => PlainError t | _ => e end.

(** The failures of the batch, in order. *)
Fixpoint reconcileAll (c : SponsorshipProviderConfiguration)
    (rs : list SponsorshipReconciliationReservation) : reconcile_prog (list jserr) :=
  match rs with
  | [] => Ret []
  | r :: rest =>
      let! failure :=
        catch (let! _ := reconcileOne c r in Ret None)
          (fun error => Ret (Some (as_failure error))) in
      let! failures := reconcileAll c rest in
      Ret (match failure with Some e => e :: failures | None => failures end)
  end.

Definition reconcileSponsorshipBudgets (solana_network : string) : reconcile_prog unit :=
  let n := resolveNetwork solana_network in
  let! reservations := query (ListCandidates n RECONCILIATION_BATCH_SIZE) in
  let! globalPolicy := query (GetGlobalPolicy n) in
  let recoverableTrip := isRecoverableBreakerTrip globalPolicy in
  if Nat.eqb (length reservations) 0 && negb recoverableTrip then Ret tt
  else
    let! configuration :=
      catch readProviderConfiguration
        (fun error =>
           let! _ := (if Nat.ltb 0 (length reservations)
                      then handleProviderConfigFailure n else Ret tt) in
           Throw (CodedError "Error" "" "Kora security configuration is unavailable" (Some error))) in
    let! _ := query (ResetConfigFailures n) in
    let! _ :=
      (if recoverableTrip then
         let! resumed := query (ResumeBreaker n KORA_CONFIG_UNAVAILABLE_BREAKER_REASON
                                  BREAKER_RECOVERY_REASON) in
         match resumed with
         | Some p => query (SyncPolicy p)
         | None => Ret tt
         end
       else Ret tt) in
    if Nat.eqb (length reservations) 0 then Ret tt
    else
      let! failures := reconcileAll configuration reservations in
      if Nat.ltb 0 (length failures) then
        Throw (AggregateError failures "One or more sponsorship reservations failed reconciliation")
      else Ret tt.
End Reconcile.

(** ** What is promised about traces *)

Definition answered_ (c : reconcile_call) (r : result (reconcile_response c)) : reconcile_event :=
  Ev c r.

Definition tripped (n : SponsorshipNetwork) (tr : list reconcile_event) : Prop :=
  Exists (fun e => exists reason, ev_call e = TripBreaker n reason false) tr.

(** Why a reservation may be settled or charged, given what was seen before. *)
Definition justified_by (r : SponsorshipReconciliationReservation) (seen : list reconcile_event)
    (c : reconcile_call) : Prop :=
  match c with
  | Settle i a st actual =>
      i = id (reservation r) /\ a = attempt (reservation r) /\ st = settle_committed
      /\ (exists sig t, signature (reservation r) = Some sig
            /\ answered_ (GetTransaction sig) (Ok (Some t)) ∈ seen
            /\ feePayerSpendLamports (preBalances t) (postBalances t) = Ok actual)
      /\ (reservedLamports (reservation r) < actual -> tripped (network r) seen)
  | ChargeUnknown i a _ =>
      i = id (reservation r) /\ a = attempt (reservation r)
      /\ (truthy (signature (reservation r)) = false
          \/ exists sig, signature (reservation r) = Some sig
             /\ answered_ (GetTransaction sig) (Ok None) ∈ seen
             /\ answered_ (IsBlockhashValid (recentBlockhash r)) (Ok false) ∈ seen
             /\ missCount r <> 0)
  | SettleRedis i =>
      se_cancel i = se_cancel (settlement_of r 0)
      /\ (actualLamports (reservation r) = Some (se_actualLamports i)
            /\ status_in (status (reservation r)) [st_committed; st_released] = true
          \/ answered_ (Settle (id (reservation r)) (attempt (reservation r)) settle_committed
                          (se_actualLamports i)) (Ok true) ∈ seen)
  | _ => True
  end.

(** Every call of a trace is justified, in the sense of [J], by what precedes it. *)
Definition all_justified (J : list reconcile_event -> reconcile_call -> Prop)
    (tr : list reconcile_event) : Prop :=
  forall before e after, tr = (before ++ e :: after)%list -> J before (ev_call e).

(** The breaker is only tripped recoverably after enough consecutive failures, and
    only resumed when the policy just read is such a trip and the configuration
    has become readable. *)
Definition breaker_guard (n : SponsorshipNetwork) (before : list reconcile_event)
    (c : reconcile_call) : Prop :=
  match c with
  | TripBreaker _ reason true =>
      reason = KORA_CONFIG_UNAVAILABLE_BREAKER_REASON
      /\ exists k, answered_ (RecordConfigFailure n) (Ok k) ∈ before
                   /\ CONSECUTIVE_CONFIG_FAILURES_BEFORE_TRIP <= k
  | ResumeBreaker m expected _ =>
      m = n /\ expected = KORA_CONFIG_UNAVAILABLE_BREAKER_REASON
      /\ (exists p, answered_ (GetGlobalPolicy n) (Ok p) ∈ before /\ isRecoverableBreakerTrip p = true)
      /\ exists conf, answered_ ReadConfiguration (Ok conf) ∈ before
  | _ => True
  end.

Definition is_read (e : reconcile_event) : bool :=
  match ev_call e with ReadConfiguration => true | _ => false end.

(** [all_justified] read off a trace from left to right. *)
Fixpoint justified_from (J : list reconcile_event -> reconcile_call -> Prop)
    (seen tr : list reconcile_event) : Prop :=
  match tr with
  | [] => True
  | e :: rest => J seen (ev_call e) /\ justified_from J (seen ++ [e]) rest
  end.

(** The promise of a program from a point where [seen] has happened. *)
Definition justifies {A} (J : list reconcile_event -> reconcile_call -> Prop)
    (seen : list reconcile_event) (m : reconcile_prog A) : Prop :=
  all_runs m (fun tr _ => justified_from J seen tr).

(** Calls that neither settle nor charge. *)
Definition free (c : reconcile_call) : bool :=
  match c with Settle _ _ _ _ | ChargeUnknown _ _ _ | SettleRedis _ => false | _ => true end.

(** Calls that neither trip the breaker recoverably nor resume it. *)
Definition unguarded (c : reconcile_call) : bool :=
  match c with TripBreaker _ _ true | ResumeBreaker _ _ _ => false | _ => true end.

(** * Lemmas *)

Section Justified.
Context (J : list reconcile_event -> reconcile_call -> Prop).

Lemma justified_from_app seen before e after :
  justified_from J seen (before ++ e :: after) -> J (seen ++ before)%list (ev_call e).
Proof.
  revert seen. induction before as [|x before IH]; intros seen; simpl.
  - rewrite app_nil_r. by intros [? _].
  - intros [_ H]. apply IH in H. by rewrite <- app_assoc in H.
Qed.

Lemma justifies_all {A} (m : reconcile_prog A) :
  justifies J [] m -> all_runs m (fun tr _ => all_justified J tr).
Proof.
  intros H. eapply all_runs_mono; [|exact H]. intros tr res Hj before e after ->.
  exact (justified_from_app [] before e after Hj).
Qed.

Lemma justified_app seen t1 t2 :
  justified_from J seen (t1 ++ t2) <->
  justified_from J seen t1 /\ justified_from J (seen ++ t1) t2.
Proof.
  revert seen. induction t1 as [|e t1 IH]; intros seen; simpl.
  - rewrite app_nil_r. tauto.
  - rewrite IH, <- app_assoc. simpl. tauto.
Qed.

Lemma justifies_call {A} seen c (k : result (reconcile_response c) -> reconcile_prog A) :
  J seen c -> (forall x, justifies J (seen ++ [answered_ c x]) (k x)) ->
  justifies J seen (Call c k).
Proof. intros Hc Hk x. eapply all_runs_mono; [|exact (Hk x)]. intros tr res H. by split. Qed.

Lemma justifies_bind {A B} seen (m : reconcile_prog A) (f : A -> reconcile_prog B) :
  all_runs m (fun tr res => justified_from J seen tr
    /\ forall a, res = Ok a -> justifies J (seen ++ tr) (f a)) ->
  justifies J seen (bind m f).
Proof.
  intros H. unfold justifies. rewrite all_runs_bind. eapply all_runs_mono; [|exact H].
  intros tr [a|e] [H1 H2]; [|done]. eapply all_runs_mono; [|exact (H2 a eq_refl)].
  intros tr' res' H'. by apply justified_app.
Qed.

Lemma justifies_then {A B} seen (m : reconcile_prog A) (f : A -> reconcile_prog B) :
  justifies J seen m -> (forall a tr, justifies J (seen ++ tr) (f a)) ->
  justifies J seen (bind m f).
Proof.
  intros Hm Hf. apply justifies_bind. eapply all_runs_mono; [|exact Hm]. intros tr res H.
  split; [done|]. auto.
Qed.

Lemma justifies_catch {A} seen (m : reconcile_prog A) (h : jserr -> reconcile_prog A) :
  justifies J seen m -> (forall e tr, justifies J (seen ++ tr) (h e)) ->
  justifies J seen (catch m h).
Proof.
  intros Hm Hh. unfold justifies. rewrite all_runs_catch. eapply all_runs_mono; [|exact Hm].
  intros tr [a|e] H; [done|]. eapply all_runs_mono; [|exact (Hh e tr)].
  intros tr' res' H'. by apply justified_app.
Qed.

Lemma justifies_ret {A} seen (a : A) : justifies J seen (Ret a).
Proof. done. Qed.

Lemma justifies_throw {A} seen e : justifies J seen (Throw (A := A) e).
Proof. done. Qed.

Lemma justifies_lift {A} seen (r : result A) : justifies J seen (lift_ r).
Proof. by destruct r. Qed.

Lemma justifies_query seen c : J seen c -> justifies J seen (query c).
Proof. intros H. apply justifies_call; [done|]. by intros [?|?]. Qed.

Lemma justified_free (P : reconcile_call -> bool) seen tr :
  (forall s c, P c = true -> J s c) -> Forall (fun e => P (ev_call e) = true) tr ->
  justified_from J seen tr.
Proof.
  intros HP H. revert seen. induction H as [|e tr He _ IH]; intros seen; simpl; auto.
Qed.
End Justified.

Lemma tripBreakerJob_runs n reason recoverable :
  all_runs (tripBreakerJob n reason recoverable) (fun tr _ =>
    Forall (fun e => free (ev_call e) = true) tr
    /\ Exists (fun e => ev_call e = TripBreaker n reason recoverable) tr).
Proof.
  cbn. intros [[p|]|e]; cbn; [intros [r|e]; cbn| |]; (split; [repeat constructor|by left]).
Qed.

Lemma free_justified r s c : free c = true -> justified_by r s c.
Proof. by destruct c. Qed.

Lemma trip_then {A} r seen n reason recoverable (f : unit -> reconcile_prog A) :
  (forall tr, Exists (fun e => ev_call e = TripBreaker n reason recoverable) tr ->
     justifies (justified_by r) (seen ++ tr) (f tt)) ->
  justifies (justified_by r) seen (bind (tripBreakerJob n reason recoverable) f).
Proof.
  intros Hf. apply justifies_bind. eapply all_runs_mono; [|apply tripBreakerJob_runs].
  intros tr res [Hfree Ht]. split; [exact (justified_free _ _ _ _ (free_justified r) Hfree)|]. intros [] _. auto.
Qed.

Lemma syncRedisSettlement_justified r seen actual :
  justified_by r seen (SettleRedis (settlement_of r actual)) ->
  justifies (justified_by r) seen (syncRedisSettlement r actual).
Proof.
  intros H. unfold syncRedisSettlement. cbn [bind catch query call].
  assert (forall seen e, justifies (justified_by r) seen
    (bind (tripBreakerJob (network r) "Redis settlement failed after durable ledger settlement" false)
       (fun _ => Throw (A := unit) e))) as Htrip by (intros; by apply trip_then).
  apply justifies_call; [exact H|]. intros [z|e]; cbn [bind catch]; [|apply Htrip].
  apply justifies_call; [done|]. intros [[]|e]; cbn [bind catch]; [done|apply Htrip..].
Qed.

Lemma persistAmbiguousCharge_justified r seen reason breakerReason lost :
  (forall why, justified_by r seen
     (ChargeUnknown (id (reservation r)) (attempt (reservation r)) why)) ->
  justifies (justified_by r) seen (persistAmbiguousCharge r reason breakerReason lost).
Proof.
  intros H. unfold persistAmbiguousCharge. cbn [bind query call].
  apply justifies_call; [apply H|]. intros [[]|e]; cbn [bind]; [done| |done].
  apply justifies_call; [done|]. intros [current|e]; cbn [bind]; [|done].
  destruct (concurrentlyResolved r current); [done|]. by apply trip_then.
Qed.

Ltac in_trace := unfold answered_; rewrite !elem_of_app, ?list_elem_of_singleton; tauto.

Lemma settleDurably_justified r seen actual :
  justified_by r seen (Settle (id (reservation r)) (attempt (reservation r)) settle_committed actual) ->
  justifies (justified_by r) seen (settleDurably r settle_committed actual).
Proof.
  intros H. unfold settleDurably. cbn [bind query call].
  apply justifies_call; [exact H|]. intros [[]|e]; cbn [bind negb]; [|done..].
  apply syncRedisSettlement_justified. split; [done|]. right. in_trace.
Qed.

(** The loop stops at the first read that answers. *)
Lemma readConfigurationLoop_runs n e0 :
  all_runs (readConfigurationLoop n e0) (fun tr res =>
    match res with
    | Ok c => exists t, tr = (t ++ [answered_ ReadConfiguration (Ok c)])%list
              /\ (length (List.filter is_read tr) <= n)%nat
    | Err e => length (List.filter is_read tr) = n
               \/ Exists (fun x => exists e, x = answered_ Sleep (Err e)) tr
    end).
Proof.
  revert e0. induction n as [|n IH]; intros e0; cbn [readConfigurationLoop]; [by left|].
  intros [c|e]; cbn [all_runs].
  - exists []. split; [done|]. cbn. lia.
  - destruct (Nat.ltb 0 n); cbn [bind query call].
    + intros [u|e']; cbn [bind all_runs].
      * eapply all_runs_mono; [|apply IH]. intros tr [c|e'] H.
        -- destruct H as (t & -> & Hl). eexists (_ :: _ :: t). split; [reflexivity|].
           cbn [List.filter is_read ev_call length app] in *. lia.
        -- destruct H as [H|H]; [left; cbn; by rewrite H|right; by do 2 right].
      * right. right. left. by eexists.
    + eapply all_runs_mono; [|apply IH]. intros tr [c|e'] H.
      * destruct H as (t & -> & Hl). eexists (_ :: t). split; [reflexivity|].
        cbn [List.filter is_read ev_call length app] in *. lia.
      * destruct H as [H|H]; [left; cbn; by rewrite H|right; by right].
Qed.

Section Guard.
Context (n : SponsorshipNetwork).

Lemma unguarded_ok s c : unguarded c = true -> breaker_guard n s c.
Proof. destruct c as [| | | | | | |? ? []| | | | | | | | |]; done. Qed.

Ltac unguarded :=
  repeat first
    [ progress intros
    | apply justifies_ret | apply justifies_throw | apply justifies_lift
    | by apply justifies_query, unguarded_ok
    | apply justifies_catch; [|intros ? ?] | apply justifies_then; [|intros ? ?]
    | match goal with
      | |- justifies _ _ (match ?o with Some _ => _ | None => _ end) => destruct o
      | |- justifies _ _ (if ?b then _ else _) => destruct b
      end ].

Lemma trip_unguarded seen m reason :
  justifies (breaker_guard n) seen (tripBreakerJob m reason false).
Proof. unfold tripBreakerJob. unguarded. Qed.

Lemma sync_unguarded r seen actual :
  justifies (breaker_guard n) seen (syncRedisSettlement r actual).
Proof.
  unfold syncRedisSettlement. apply justifies_catch; [unguarded|intros ? ?].
  apply justifies_then; [apply trip_unguarded|unguarded].
Qed.

Lemma ambiguous_unguarded r seen reason breakerReason lost :
  justifies (breaker_guard n) seen (persistAmbiguousCharge r reason breakerReason lost).
Proof.
  unfold persistAmbiguousCharge. unguarded.
Qed.

Lemma reconcileOne_unguarded checkSignature checkBlockhash fingerprint c r seen :
  justifies (breaker_guard n) seen (reconcileOne checkSignature checkBlockhash fingerprint c r).
Proof.
  unfold reconcileOne, reconcileReservation, settleDurably.
  repeat first [apply trip_unguarded | apply sync_unguarded | apply ambiguous_unguarded
               | progress unguarded].
Qed.

Lemma reconcileAll_unguarded checkSignature checkBlockhash fingerprint c rs seen :
  justifies (breaker_guard n) seen (reconcileAll checkSignature checkBlockhash fingerprint c rs).
Proof.
  revert seen. induction rs as [|r rs IH]; intros seen; cbn [reconcileAll]; [apply justifies_ret|].
  apply justifies_then; [|intros; apply justifies_then; [apply IH|intros; apply justifies_ret]].
  apply justifies_catch; [|intros; apply justifies_ret].
  apply justifies_then; [apply reconcileOne_unguarded|intros; apply justifies_ret].
Qed.

Lemma readConfigurationLoop_unguarded k e0 seen :
  justifies (breaker_guard n) seen (readConfigurationLoop k e0).
Proof.
  revert e0 seen. induction k as [|k IH]; intros e0 seen; cbn [readConfigurationLoop]; [done|].
  apply justifies_call; [done|]. intros [c|e]; [done|].
  apply justifies_then; [unguarded|intros; apply IH].
Qed.

Lemma configFailure_guarded seen :
  justifies (breaker_guard n) seen (handleProviderConfigFailure n).
Proof.
  unfold handleProviderConfigFailure. apply justifies_call; [done|].
  intros [k|e]; cbn [bind]; [|done].
  destruct (Z.leb_spec CONSECUTIVE_CONFIG_FAILURES_BEFORE_TRIP k); [|done].
  unfold tripBreakerJob. apply justifies_then; [|unguarded].
  apply justifies_query. split; [done|]. exists k. split; [|done]. in_trace.
Qed.

(** After a successful read of the configuration. *)
Lemma recovery_guarded p seen conf :
  answered_ (GetGlobalPolicy n) (Ok p) ∈ seen -> answered_ ReadConfiguration (Ok conf) ∈ seen ->
  forall A (k : unit -> reconcile_prog A), (forall tr, justifies (breaker_guard n) (seen ++ tr) (k tt)) ->
  justifies (breaker_guard n) seen
    (bind (if isRecoverableBreakerTrip p then
             let! resumed := query (ResumeBreaker n KORA_CONFIG_UNAVAILABLE_BREAKER_REASON
                                      BREAKER_RECOVERY_REASON) in
             match resumed with Some q => query (SyncPolicy q) | None => Ret tt end
           else Ret tt)%sdp k).
Proof.
  intros Hp Hc A k Hk. apply justifies_then; [|intros []; apply Hk].
  destruct (isRecoverableBreakerTrip p) eqn:E; [|done].
  apply justifies_then; [|unguarded]. apply justifies_query.
  split_and!; [done|done|exists p; auto|exists conf; auto].
Qed.
End Guard.

(** * Theorems *)

(** C34. The reconciler never guesses: on every run, a reservation is settled
    only as committed, at the fee-payer balance drop of the confirmed transaction
    just fetched, with the breaker tripped first when that exceeds the
    reservation; it is charged as unknown only when it has no signature, or on a
    second pass after the chain denied both the transaction and the blockhash;
    and Redis is settled only at the amount the ledger holds. *)
Theorem reconcile_is_justified checkSignature checkBlockhash r :
  all_runs (reconcileReservation checkSignature checkBlockhash r) (fun tr _ => all_justified (justified_by r) tr).
Proof.
  apply justifies_all. unfold reconcileReservation.
  destruct (status_in (status (reservation r)) _) eqn:Hst.
  { destruct (actualLamports (reservation r)) as [actual|] eqn:Ha; [|done].
    apply justifies_then; [|intros; apply justifies_ret].
    apply syncRedisSettlement_justified. split; [done|]. left. auto. }
  destruct (if truthy _ then _ else _) as [sig|] eqn:Hsig.
  2:{ apply justifies_then; [|intros; apply justifies_ret].
      apply persistAmbiguousCharge_justified. intros why. split_and!; [done|done|]. left.
      destruct (truthy _) eqn:E; [|done]. rewrite Hsig in E. done. }
  assert (signature (reservation r) = Some sig) as Hs by (by destruct (truthy _)).
  destruct (checkSignature sig); cbn [lift_ bind]; [|done]. cbn [query call bind].
  apply justifies_call; [done|]. intros [[t|]|e]; cbn [bind]; [| |done].
  - destruct (feePayerSpendLamports _ _) as [actual|] eqn:Hspend; cbn [lift_ bind]; [|done].
    assert (forall tr, (reservedLamports (reservation r) < actual -> tripped (network r) tr) ->
      justifies (justified_by r) (([] ++ [answered_ (GetTransaction sig) (Ok (Some t))]) ++ tr)
        (let! _ := settleDurably r settle_committed actual in Ret committed_)%sdp) as Hrest.
    { intros tr Htr. apply justifies_then; [|intros; apply justifies_ret].
      apply settleDurably_justified. split_and!; [done..| |].
      - exists sig, t. split_and!; [done| |done]. in_trace.
      - intros Hlt. unfold tripped. rewrite Exists_app. right. by apply Htr. }
    destruct (Z.ltb_spec (reservedLamports (reservation r)) actual).
    + apply trip_then. intros tr Htr. apply Hrest. intros _.
      eapply Exists_impl; [exact Htr|]. simpl. eauto.
    + cbn [bind]. rewrite <- (app_nil_r (_ ++ _)%list). apply Hrest. lia.
  - destruct (checkBlockhash _); cbn [lift_ bind]; [|done].
    apply justifies_call; [done|]. intros [[]|e]; cbn [bind]; [done| |done].
    destruct (Z.eqb_spec (missCount r) 0).
    + apply justifies_call; [done|]. by intros [?|?].
    + apply justifies_then; [|intros; apply justifies_ret].
      apply persistAmbiguousCharge_justified. intros why. split_and!; [done|done|]. right.
      exists sig. split_and!; [done|in_trace|in_trace|done].
Qed.

(** The provider's configuration is read at most three times, the run ending
    with the first read that answers; it fails only when all three reads failed
    (or the pause between two of them did). *)
Theorem configuration_reads :
  all_runs readProviderConfiguration (fun tr res =>
    match res with
    | Ok c => exists t, tr = (t ++ [answered_ ReadConfiguration (Ok c)])%list
              /\ (length (List.filter is_read tr) <= 3)%nat
    | Err e => length (List.filter is_read tr) = 3%nat
               \/ Exists (fun x => exists e, x = answered_ Sleep (Err e)) tr
    end).
Proof. apply readConfigurationLoop_runs. Qed.

(** The breaker recovers by itself only from its own configuration trips: on
    every run of the job, it is tripped recoverably only after three consecutive
    recorded failures, and a resume is attempted only when the policy just read is
    such a trip and the provider's configuration has just been read, and then only
    against that trip's reason. *)
Theorem breaker_recovery_is_guarded checkSignature checkBlockhash fingerprint solana_network :
  all_runs (reconcileSponsorshipBudgets checkSignature checkBlockhash fingerprint solana_network)
    (fun tr _ => all_justified (breaker_guard (resolveNetwork solana_network)) tr).
Proof.
  apply justifies_all. unfold reconcileSponsorshipBudgets.
  set (n := resolveNetwork solana_network). cbn [query call bind].
  apply justifies_call; [done|]. intros [rs|e]; cbn [bind]; [|done].
  apply justifies_call; [done|]. intros [p|e]; cbn [bind]; [|done].
  destruct (_ && _); [done|]. apply justifies_bind.
  rewrite all_runs_catch.
  eapply all_runs_mono; [|apply all_runs_and;
    [apply (readConfigurationLoop_runs PROVIDER_CONFIG_READ_ATTEMPTS)
    |apply (readConfigurationLoop_unguarded n)]].
  intros tr [c|e] [H1 H2].
  - split; [exact H2|]. intros c' [= <-]. destruct H1 as (t & -> & _).
    cbn [query call bind]. apply justifies_call; [done|]. intros [u|e]; cbn [bind]; [|done].
    eapply (recovery_guarded n p _ c); [in_trace|in_trace|].
    intros tr'. destruct (Nat.eqb _ _); [done|].
    apply justifies_then; [apply reconcileAll_unguarded|].
    intros fs tr2. by destruct (Nat.ltb _ _).
  - eapply (all_runs_mono _ (fun tr' res' => justified_from (breaker_guard n)
      ((([] ++ [answered_ (ListCandidates n RECONCILIATION_BATCH_SIZE) (Ok rs)])
         ++ [answered_ (GetGlobalPolicy n) (Ok p)]) ++ tr) tr' /\ is_ok res' = false)).
    + intros tr' [c|e'] [H3 H4]; [done|]. split; [|done]. by apply justified_app.
    + apply all_runs_and; [|rewrite all_runs_bind; eapply (all_runs_mono _ (fun _ _ => True));
        [by intros ? [?|?]|apply all_runs_true]].
      apply justifies_then; [|intros; apply justifies_throw].
      destruct (Nat.ltb _ _); [apply configFailure_guarded|apply justifies_ret].
Qed.
