(* ===== verification/KaminoWithdraw.v ===== *)
(** * Kamino vault exits: the instructions

    [packages/sdp-kamino/src/withdraw-instructions.ts], [share-balances.ts],
    [guards.ts] and [programs.ts]: how the share accounts of an owner are read,
    consolidated and redeemed by literal instruction bytes. The instruction
    builders of [@solana-program/token] and the address check of [@solana/kit] are
    a parameter, the class [TokenKit]; what the chain does with the instructions is
    the class [TokenLedger], its laws the documented behaviour of the token and
    vault programs. Base units are [Z], the bytes of an instruction [Z] too. *)
From Stdlib Require Import Ascii String ZArith Lia.
From stdpp Require Import base list strings gmap.
From S2P Require Import Prelude Text Amount PolicyTypes.
Import KaminoAmount.

Local Open Scope string_scope.
Local Open Scope Z_scope.
Local Open Scope sdp_scope.

(** ** What the packages provide *)

(** An [Instruction] of [@solana/kit]; of its accounts only the addresses. *)
Record Instruction := mkInstruction {
  programAddress : string;
  accounts : list string;
  data : option (list Z);
}.

Record CreateTokenAccount := mkCreate {
  create_payer : string;
  create_ata : string;
  create_owner : string;
  create_mint : string;
}.

Record TransferChecked := mkTransfer {
  transfer_source : string;
  transfer_mint : string;
  transfer_destination : string;
  transfer_authority : string;
  transfer_amount : Z;
  transfer_decimals : Z;
}.

Record CloseAccount := mkClose {
  close_account : string;
  close_destination : string;
  close_owner : string;
}.

Class TokenKit := {
  TOKEN_PROGRAM_ADDRESS : string;
  findAssociatedTokenPda : string -> string -> string -> string;
  getCreateAssociatedTokenIdempotentInstruction : CreateTokenAccount -> string -> Instruction;
  getTransferCheckedInstruction : TransferChecked -> string -> Instruction;
  getCloseAccountInstruction : CloseAccount -> string -> Instruction;
  (** [address(raw)] of [@solana/kit]: throws on a string that is no address. *)
  checkAddress : string -> result unit;
}.

(** ** [share-balances.ts] *)

Record ShareTokenAccountBalance := mkBalance { address : string; amount : Z }.

Definition VAULT_UNREADABLE (message : string) : jserr := SdpKaminoError "VAULT_UNREADABLE" message.

(** [value?.key] *)
Fixpoint json_field (key : string) (fields : list (string * json)) : option json :=
  match fields with
  | [] => None
  | (k, v) :: rest => if String.eqb k key then Some v else json_field key rest
  end.

Definition json_get (key : string) (value : option json) : option json :=
  match value with Some (JObject fields) => json_field key fields | _ => None end.

Definition readRawAmount (entry : json) (index : nat) : result Z :=
  match json_get "amount" (json_get "tokenAmount" (json_get "info" (json_get "parsed"
          (json_get "data" (json_get "account" (Some entry)))))) with
  | Some (JString raw) =>
      if negb (match chars raw with [] => false | _ => all_digits (chars raw) end)
      then Err (VAULT_UNREADABLE ("Kamino share-token account " ++ z_text (Z.of_nat index)
                                  ++ " did not contain an exact raw amount"))
      else Ok (of_digits (chars raw))
  | _ => Err (VAULT_UNREADABLE ("Kamino share-token account " ++ z_text (Z.of_nat index)
                                ++ " did not contain an exact raw amount"))
  end.

Definition not_a_list : jserr :=
  VAULT_UNREADABLE "Kamino share-token RPC response did not contain an account list".

Fixpoint sumFrom (index : nat) (entries : list json) (total : Z) : result Z :=
  match entries with
  | [] => Ok total
  | e :: rest => let? a := readRawAmount e index in sumFrom (S index) rest (total + a)
  end.

Definition sumRawTokenAccountBaseUnits (entries : option json) : result Z :=
  match entries with Some (JArray es) => sumFrom 0 es 0 | _ => Err not_a_list end.

Definition is_sdp_kamino_error (e : jserr) : bool :=
  match e with CodedError class _ _ _ => String.eqb class "SdpKaminoError" | _ => false end.

Section Parse.
Context `{TokenKit}.

Definition parseBalance (entry : json) (index : nat) : result ShareTokenAccountBalance :=
  match json_get "pubkey" (Some entry) with
  | Some (JString rawAddress) =>
      match (let? _ := checkAddress rawAddress in
             let? a := readRawAmount entry index in Ok (mkBalance rawAddress a)) with
      | Ok b => Ok b
      | Err cause =>
          if is_sdp_kamino_error cause then Err cause
          else Err (CodedError "SdpKaminoError" "VAULT_UNREADABLE"
                      ("Kamino share-token account " ++ z_text (Z.of_nat index)
                       ++ " contained an invalid address") (Some cause))
      end
  | _ => Err (VAULT_UNREADABLE ("Kamino share-token account " ++ z_text (Z.of_nat index)
                                ++ " did not contain an address"))
  end.

Fixpoint parseFrom (index : nat) (entries : list json) : result (list ShareTokenAccountBalance) :=
  match entries with
  | [] => Ok []
  | e :: rest =>
      let? b := parseBalance e index in
      let? bs := parseFrom (S index) rest in Ok (b :: bs)
  end.

Definition parseShareTokenAccountBalances (entries : option json)
    : result (list ShareTokenAccountBalance) :=
  match entries with Some (JArray es) => parseFrom 0 es | _ => Err not_a_list end.
End Parse.

(** ** [withdraw-instructions.ts] *)

Inductive WithdrawInstructionRole := unstake | prepare | withdraw | post.
#[export] Instance WithdrawInstructionRole_eq : EqDecision WithdrawInstructionRole.
Proof. solve_decision. Defined.

Record RoleTaggedInstruction := mkTagged {
  instruction : Instruction;
  role : WithdrawInstructionRole;
  sharesBaseUnits : option Z;
}.

Definition KVAULT_SHARE_REDEEMING_DISCRIMINATORS : list (list Z) :=
  [[183; 18; 70; 156; 148; 109; 161; 34]; [19; 131; 112; 155; 170; 220; 34; 57]].

Definition KVAULT_BURN_ALL_SHARES_SENTINEL : Z := 18446744073709551615.

(** [accounts.reduce((sum, account) => sum + account.amount, 0n)] *)
Definition sum_amounts (bs : list ShareTokenAccountBalance) : Z :=
  fold_left (fun sum b => sum + amount b) bs 0.

Record ConsolidationInput := mkConsolidationInput {
  ci_requestedBaseUnits : Z;
  ci_shareMint : string;
  ci_shareDecimals : Z;
  ci_owner : string;
  ci_rentPayer : option string;
  ci_accounts : list ShareTokenAccountBalance;
}.

Record Consolidation := mkConsolidation {
  instructions : list Instruction;
  shareAta : string;
  totalBaseUnits : Z;
  postConsolidationAtaBaseUnits : Z;
}.

Section Instructions.
Context `{TokenKit}.

Definition share_ata (owner shareMint : string) : string :=
  findAssociatedTokenPda owner shareMint TOKEN_PROGRAM_ADDRESS.

(** The loop over the accounts; what is left to move when it ends. *)
Fixpoint consolidateLoop (i : ConsolidationInput) (ata : string)
    (bs : list ShareTokenAccountBalance) (remaining : Z) : list Instruction * Z :=
  match bs with
  | [] => ([], remaining)
  | b :: rest =>
      if remaining =? 0 then ([], remaining)
      else if String.eqb (address b) ata || (amount b =? 0)
      then consolidateLoop i ata rest remaining
      else
        let moved := if amount b <? remaining then amount b else remaining in
        let '(ixs, left_) := consolidateLoop i ata rest (remaining - moved) in
        (getTransferCheckedInstruction
           (mkTransfer (address b) (ci_shareMint i) ata (ci_owner i) moved (ci_shareDecimals i))
           TOKEN_PROGRAM_ADDRESS :: ixs, left_)
  end.

Definition buildShareAccountConsolidation (i : ConsolidationInput) : result Consolidation :=
  let ata := share_ata (ci_owner i) (ci_shareMint i) in
  let total := sum_amounts (ci_accounts i) in
  if KVAULT_BURN_ALL_SHARES_SENTINEL <? total then
    Err (VAULT_UNREADABLE "Kamino share-token balances exceed the mint's u64 supply range.")
  else if total <? ci_requestedBaseUnits i then
    Err (SdpKaminoError "INVALID_AMOUNT"
           ("Kamino wallet holds " ++ z_text total ++ " share base units, below the requested "
            ++ z_text (ci_requestedBaseUnits i) ++ "."))
  else
    let ataBaseUnits :=
      sum_amounts (List.filter (fun b => String.eqb (address b) ata) (ci_accounts i)) in
    let remaining := ci_requestedBaseUnits i - ataBaseUnits in
    if remaining <=? 0 then Ok (mkConsolidation [] ata total ataBaseUnits)
    else
      let create :=
        getCreateAssociatedTokenIdempotentInstruction
          (mkCreate (default (ci_owner i) (ci_rentPayer i)) ata (ci_owner i) (ci_shareMint i))
          TOKEN_PROGRAM_ADDRESS in
      let '(ixs, left_) := consolidateLoop i ata (ci_accounts i) remaining in
      if negb (left_ =? 0) then
        Err (VAULT_UNREADABLE
               "Kamino share-token account balances did not cover the requested consolidation.")
      else Ok (mkConsolidation (create :: ixs) ata total (ci_requestedBaseUnits i)).

Definition buildMaximumWithdrawalBalanceGuard (requestedBaseUnits : Z) (shareMint : string)
    (shareDecimals : Z) (owner : string) : option Instruction :=
  if negb (requestedBaseUnits =? KVAULT_BURN_ALL_SHARES_SENTINEL) then None
  else
    let ata := share_ata owner shareMint in
    Some (getTransferCheckedInstruction
            (mkTransfer ata shareMint ata owner requestedBaseUnits shareDecimals)
            TOKEN_PROGRAM_ADDRESS).

(** [data[8 + index] = Number(remaining & 0xffn); remaining >>= 8n], [left_] times. *)
Fixpoint writeShares (left_ index : nat) (remaining : Z) (bytes : list Z) : list Z :=
  match left_ with
  | O => bytes
  | S n =>
      writeShares n (S index) (Z.shiftr remaining 8)
        (<[(8 + index)%nat := Z.land remaining 255]> bytes)
  end.

Definition rewriteKvaultWithdrawShares (ix : Instruction) (shares : Z) : result Instruction :=
  let refusal := Err (VAULT_UNREADABLE
    "Kamino burn-all instruction does not carry a writable sharesAmount argument") in
  match data ix with
  | None => refusal
  | Some current =>
      if Nat.ltb (length current) 16 then refusal
      else Ok (mkInstruction (programAddress ix) (accounts ix)
                 (Some (writeShares 8 0 shares current)))
  end.

(** [value = (value << 8n) | BigInt(data[8 + index])] for the indices below [left_],
    from the last one down. *)
Fixpoint readShares (left_ : nat) (bytes : list Z) (value : Z) : Z :=
  match left_ with
  | O => value
  | S n => readShares n bytes (Z.lor (Z.shiftl value 8) (default 0 (bytes !! (8 + n)%nat)))
  end.

Definition starts_with (bytes discriminator : list Z) : bool :=
  forallb (fun '(index, byte) => bool_decide (bytes !! index = Some byte))
    (zip (seq 0 (length discriminator)) discriminator).

Definition decodeKvaultWithdrawShares (ix : Instruction) (kvaultProgramAddress : string)
    : option Z :=
  if negb (String.eqb (programAddress ix) kvaultProgramAddress) then None
  else
    match data ix with
    | None => None
    | Some bytes =>
        if Nat.ltb (length bytes) 16 then None
        else if negb (existsb (starts_with bytes) KVAULT_SHARE_REDEEMING_DISCRIMINATORS) then None
        else Some (readShares 8 bytes 0)
    end.

Definition is_sentinel (t : RoleTaggedInstruction) : bool :=
  bool_decide (sharesBaseUnits t = Some KVAULT_BURN_ALL_SHARES_SENTINEL).

Definition is_redemption (t : RoleTaggedInstruction) : bool :=
  bool_decide (role t = withdraw).

(** [list.findIndex(p)] *)
Fixpoint findIndexFrom {A} (p : A -> bool) (index : Z) (l : list A) : Z :=
  match l with
  | [] => -1
  | x :: rest => if p x then index else findIndexFrom p (index + 1) rest
  end.
Definition findIndex {A} (p : A -> bool) (l : list A) : Z := findIndexFrom p 0 l.

Definition literalBaseUnits (redeeming : list RoleTaggedInstruction) : Z :=
  fold_left (fun sum t => sum + (if is_sentinel t then 0 else default 0 (sharesBaseUnits t)))
    redeeming 0.

(** The final [map], whose rewriting can throw. *)
Fixpoint rewriteSentinels (ts : list RoleTaggedInstruction) (remainder : Z)
    : result (list RoleTaggedInstruction) :=
  match ts with
  | [] => Ok []
  | t :: rest =>
      let? t' :=
        (if is_sentinel t then
           let? ix := rewriteKvaultWithdrawShares (instruction t) remainder in
           Ok (mkTagged ix (role t) (Some remainder))
         else Ok t) in
      let? rest' := rewriteSentinels rest remainder in
      Ok (t' :: rest')
  end.

Definition resolveBurnAllSentinel (ts : list RoleTaggedInstruction) (requestedBaseUnits : Z)
    (maximumBalanceGuarded : bool) : result (list RoleTaggedInstruction) :=
  let sentinelCount := length (List.filter is_sentinel ts) in
  if Nat.eqb sentinelCount 0 then Ok ts
  else if negb (Nat.eqb sentinelCount 1) then
    Err (VAULT_UNREADABLE
      "Kamino withdraw bundle carries more than one burn-all instruction; refusing to build.")
  else
    let redeeming := List.filter is_redemption ts in
    if negb (findIndex is_sentinel redeeming =? Z.of_nat (length redeeming) - 1) then
      Err (VAULT_UNREADABLE
        ("Kamino withdraw bundle places burn-all before a later share redemption; refusing to "
         ++ "rewrite an order the provider did not document."))
    else
      let remainder := requestedBaseUnits - literalBaseUnits redeeming in
      if (remainder <=? 0) || (KVAULT_BURN_ALL_SHARES_SENTINEL <? remainder) then
        Err (SdpKaminoError "INVALID_AMOUNT"
          ("Kamino withdraw instructions leave " ++ z_text remainder
           ++ " share base units for their final redemption; "
           ++ "the remainder must be positive and fit in the protocol's u64 field."))
      else if (remainder =? KVAULT_BURN_ALL_SHARES_SENTINEL) && negb maximumBalanceGuarded then
        Err (VAULT_UNREADABLE
          "Kamino's maximum-u64 burn-all instruction requires an atomic share-balance guard.")
      else rewriteSentinels ts remainder.

Definition buildShareAccountCloseInstruction (shareAta owner : string) (refundTo : option string)
    (ataBaseUnitsBeforeExit redeemedBaseUnits ownerTotalBaseUnits : Z) : option Instruction :=
  if negb (ataBaseUnitsBeforeExit =? redeemedBaseUnits) then None
  else if negb (ownerTotalBaseUnits =? redeemedBaseUnits) then None
  else Some (getCloseAccountInstruction (mkClose shareAta (default owner refundTo) owner)
               TOKEN_PROGRAM_ADDRESS).
End Instructions.

(** ** [programs.ts] and [guards.ts] *)

Definition KAMINO_KVAULT_PROGRAM_IDS (c : SolanaCluster) : string :=
  match c with
  | mainnet_beta => "KvauGMspG5k6rtzrqqn7WNn3oZdyKqLKwK2XWQ8FLjd"
  | devnet => "devkRngFnfp4gBc5a3LsadgbQKdPo8MSZ4prFiNSVmY"
  end.

Definition KAMINO_KLEND_PROGRAM_IDS (c : SolanaCluster) : string :=
  match c with
  | mainnet_beta => "KLend2g3cP87fffoy8q1mQqGKjrxjC8boSyAYavgmjD"
  | devnet => "KLend2g3cP87fffoy8q1mQqGKjrxjC8boSyAYavgmjD"
  end.

Definition KAMINO_FARMS_PROGRAM_IDS (c : SolanaCluster) : string :=
  match c with
  | mainnet_beta => "FarmsPZpWu9i7Kky8tPN37rs2TpmMrAZrC7S7vJa91Hr"
  | devnet => "FarmsPZpWu9i7Kky8tPN37rs2TpmMrAZrC7S7vJa91Hr"
  end.

Definition kaminoProgramAllowlist (c : SolanaCluster) : list string :=
  [KAMINO_KVAULT_PROGRAM_IDS c; KAMINO_KLEND_PROGRAM_IDS c; KAMINO_FARMS_PROGRAM_IDS c].

Definition foreignKvaultProgramId (c : SolanaCluster) : string :=
  match c with
  | devnet => KAMINO_KVAULT_PROGRAM_IDS mainnet_beta
  | mainnet_beta => KAMINO_KVAULT_PROGRAM_IDS devnet
  end.

Definition CLUSTER_INVARIANT_PROGRAMS : list string :=
  ["11111111111111111111111111111111";
   "TokenkegQfeZyiNwAJbNbGKPFXCWuBvf9Ss623VQ5DA";
   "TokenzQdBNbLqP5VEhdkAS6EPFLC1PHnBqCXEpPxuEb";
   "ATokenGPvbdGVxr1b2hvZbsiqW5xWH25efTNsLJA8knL";
   "MemoSq4gqABAXKb96qnH8TysNcWxMyWCqXgDLGmfcHr";
   "ComputeBudget111111111111111111111111111111"].

Definition permittedPlanPrograms (c : SolanaCluster) : list string :=
  (kaminoProgramAllowlist c ++ CLUSTER_INVARIANT_PROGRAMS)%list.

Definition permitted (c : SolanaCluster) (program : string) : bool :=
  existsb (String.eqb program) (permittedPlanPrograms c).

Definition KaminoProgramMismatchError (c : SolanaCluster) (offendingProgram : string) : jserr :=
  CodedError "KaminoProgramMismatchError" offendingProgram
    ("Kamino instruction targets " ++ offendingProgram ++ ", which is not a " ++ cluster_text c
     ++ " program. This is the program-id override being silently dropped — see @sdp/kamino/sdk.ts.")
    None.

(** The loop of [assertPlanTargetsCluster] over the plan's instructions. *)
Fixpoint assertTargets (c : SolanaCluster) (ixs : list Instruction) : result unit :=
  match ixs with
  | [] => Ok tt
  | ix :: rest =>
      if permitted c (programAddress ix) then assertTargets c rest
      else Err (KaminoProgramMismatchError c (programAddress ix))
  end.

Record KaminoInstructionPlan := mkPlan {
  plan_cluster : SolanaCluster;
  plan_instructions : list Instruction;
  plan_lookupTables : list string;
  plan_depositTokenMint : string;
  plan_shareMint : string;
  plan_accepted : string;
  plan_createsShareAccount : bool;
}.

Definition assertPlanTargetsCluster (plan : KaminoInstructionPlan)
    : result KaminoInstructionPlan :=
  let? _ := assertTargets (plan_cluster plan) (plan_instructions plan) in Ok plan.

Definition planInstructionCount (plan : KaminoInstructionPlan) : nat :=
  length (plan_instructions plan).

(** [new Set()] filled in order, then spread. *)
Fixpoint programs_from (seen : list string) (ixs : list Instruction) : list string :=
  match ixs with
  | [] => seen
  | ix :: rest =>
      programs_from (if existsb (String.eqb (programAddress ix)) seen then seen
                     else (seen ++ [programAddress ix])%list) rest
  end.

Definition planProgramAddresses (plan : KaminoInstructionPlan) : list string :=
  programs_from [] (plan_instructions plan).

(** ** What the chain does *)

(** The balances of the share mint by token account; no entry where there is no
    account. An instruction that fails fails the transaction. *)
Class TokenLedger := exec : Instruction -> gmap string Z -> option (gmap string Z).

Fixpoint exec_all `{TokenLedger} (ixs : list Instruction) (b : gmap string Z)
    : option (gmap string Z) :=
  match ixs with
  | [] => Some b
  | ix :: rest => exec ix b ≫= exec_all rest
  end.

(** The documented behaviour of the token programs on the share mint of an owner,
    and of the vault program, whose redemptions burn from the owner's associated
    account: a literal amount, or with the sentinel all it holds. *)
Class TokenLaws `{TokenKit} `{TokenLedger} (mint owner : string) (decimals : Z)
    (kvault : string) := {
  exec_create payer b :
    exec (getCreateAssociatedTokenIdempotentInstruction
            (mkCreate payer (share_ata owner mint) owner mint) TOKEN_PROGRAM_ADDRESS) b
    = Some (match b !! share_ata owner mint with
            | Some _ => b
            | None => <[share_ata owner mint := 0]> b
            end);
  exec_transfer source destination n b :
    0 <= n ->
    exec (getTransferCheckedInstruction
            (mkTransfer source mint destination owner n decimals) TOKEN_PROGRAM_ADDRESS) b
    = match b !! source, b !! destination with
      | Some x, Some y =>
          if n <=? x
          then Some (if String.eqb source destination then b
                     else <[destination := y + n]> (<[source := x - n]> b))
          else None
      | _, _ => None
      end;
  exec_close destination b :
    exec (getCloseAccountInstruction (mkClose (share_ata owner mint) destination owner)
            TOKEN_PROGRAM_ADDRESS) b
    = match b !! share_ata owner mint with
      | Some x => if x =? 0 then Some (delete (share_ata owner mint) b) else None
      | None => None
      end;
  exec_redeem ix n b :
    decodeKvaultWithdrawShares ix kvault = Some n ->
    exec ix b
    = match b !! share_ata owner mint with
      | Some x =>
          if n =? KVAULT_BURN_ALL_SHARES_SENTINEL then Some (<[share_ata owner mint := 0]> b)
          else if n <=? x then Some (<[share_ata owner mint := x - n]> b) else None
      | None => None
      end;
}.

(** The chain holds what the accounts say. *)
Definition agrees (b : gmap string Z) (bs : list ShareTokenAccountBalance) (ata : string) : Prop :=
  (forall x, x ∈ bs -> b !! address x = Some (amount x))
  /\ ((forall x, x ∈ bs -> address x <> ata) -> b !! ata = None).

(** Each account is listed once, with a balance that is not negative. *)
Definition well_formed (bs : list ShareTokenAccountBalance) : Prop :=
  NoDup (address <$> bs) /\ Forall (fun x => 0 <= amount x) bs.

(** The accounts other than [ata]. *)
Definition auxiliary (ata : string) (bs : list ShareTokenAccountBalance)
    : list ShareTokenAccountBalance :=
  List.filter (fun x => negb (String.eqb (address x) ata)) bs.

Definition held (b : gmap string Z) (keys : list string) : Z :=
  foldr (fun k sum => default 0 (b !! k) + sum) 0 keys.

(** The tag of an instruction is what its bytes say. *)
Definition faithful (kvault : string) (t : RoleTaggedInstruction) : Prop :=
  match role t with
  | withdraw => exists n, sharesBaseUnits t = Some n
                /\ decodeKvaultWithdrawShares (instruction t) kvault = Some n
  | _ => sharesBaseUnits t = None
  end.

(** [tagged.reduce((sum, entry) => sum + (entry.sharesBaseUnits ?? 0n), 0n)] *)
Definition encodedBaseUnits (ts : list RoleTaggedInstruction) : Z :=
  fold_left (fun sum t => sum + default 0 (sharesBaseUnits t)) ts 0.

(** The bytes of a [Uint8Array]. *)
Definition byte_array (bytes : list Z) : Prop := Forall (fun x => 0 <= x < 256) bytes.

(** Only the bytes of the sentinel change. *)
Definition rewritten (t t' : RoleTaggedInstruction) : Prop :=
  (is_sentinel t = false /\ t' = t)
  \/ (is_sentinel t = true /\ role t' = role t
      /\ programAddress (instruction t') = programAddress (instruction t)
      /\ accounts (instruction t') = accounts (instruction t)
      /\ exists n current, sharesBaseUnits t' = Some n /\ 0 < n <= KVAULT_BURN_ALL_SHARES_SENTINEL
         /\ data (instruction t) = Some current
         /\ data (instruction t') = Some (writeShares 8 0 n current)).

(** ** What the bytes of an instruction redeem

    The layout of the vault program's two redeeming instructions, without the code's
    reader: eight bytes that name the instruction, then the count of shares in eight
    bytes, the least significant first. *)
Definition little_endian (bytes : list Z) : Z := foldr (fun b n => b + 256 * n) 0 bytes.

Definition redeemed_shares (kvault : string) (ix : Instruction) : option Z :=
  match data ix with
  | Some bytes =>
      if bool_decide (programAddress ix = kvault /\ (16 <= length bytes)%nat
                      /\ take 8 bytes ∈ [[183; 18; 70; 156; 148; 109; 161; 34]; [19; 131; 112; 155; 170; 220; 34; 57]])
      then Some (little_endian (take 8 (drop 8 bytes))) else None
  | None => None
  end.

Definition total_redeemed (kvault : string) (ixs : list Instruction) : Z :=
  foldr (fun ix n => default 0 (redeemed_shares kvault ix) + n) 0 ixs.

(** The same instruction, or one that asked for the maximum with a count in its place:
    program, accounts and the other bytes stay. *)
Definition resized (kvault : string) (ix ix' : Instruction) : Prop :=
  ix' = ix
  \/ (redeemed_shares kvault ix = Some (2 ^ 64 - 1) /\ (exists n, 0 < n < 2 ^ 64 /\ redeemed_shares kvault ix' = Some n)
      /\ programAddress ix' = programAddress ix /\ accounts ix' = accounts ix
      /\ forall bytes bytes', data ix = Some bytes -> data ix' = Some bytes' ->
           length bytes' = length bytes /\ forall k, (k < 8 \/ 16 <= k)%nat -> bytes' !! k = bytes !! k).

(** When a bundle is accepted. *)
Definition resolvable (ts : list RoleTaggedInstruction) (requested : Z) (guarded : bool) : Prop :=
  List.filter is_sentinel ts = []
  \/ (exists before last, List.filter is_redemption ts = (before ++ [last])%list
        /\ is_sentinel last = true /\ Forall (fun t => is_sentinel t = false) before
        /\ 0 < requested - encodedBaseUnits before <= KVAULT_BURN_ALL_SHARES_SENTINEL
        /\ (requested - encodedBaseUnits before = KVAULT_BURN_ALL_SHARES_SENTINEL ->
            guarded = true)).

(** A tagged redemption of [n] shares. *)
Definition sample_redemption (n : Z) : RoleTaggedInstruction :=
  mkTagged (mkInstruction "kvault" []
      (Some (writeShares 8 0 n ([183; 18; 70; 156; 148; 109; 161; 34] ++ repeat 0 8)%list)))
    withdraw (Some n).

(** * Lemmas *)

Lemma sum_amounts_acc bs n :
  fold_left (fun sum b => sum + amount b) bs n = n + sum_amounts bs.
Proof.
  unfold sum_amounts. revert n. induction bs as [|x bs IH]; intros n; cbn [fold_left]; [lia|].
  rewrite IH, (IH (0 + amount x)). lia.
Qed.

Lemma sum_amounts_cons x bs : sum_amounts (x :: bs) = amount x + sum_amounts bs.
Proof. unfold sum_amounts at 1. cbn [fold_left]. rewrite sum_amounts_acc. lia. Qed.

Lemma sum_amounts_split ata bs :
  sum_amounts bs = sum_amounts (List.filter (fun b => String.eqb (address b) ata) bs)
                   + sum_amounts (auxiliary ata bs).
Proof.
  induction bs as [|x bs IH]; [done|]. simpl. rewrite sum_amounts_cons, IH.
  destruct (String.eqb _ _); simpl; rewrite sum_amounts_cons; lia.
Qed.

Lemma sum_amounts_nonneg bs : Forall (fun x => 0 <= amount x) bs -> 0 <= sum_amounts bs.
Proof.
  induction 1 as [|x bs Hx _ IH]; [done|]. rewrite sum_amounts_cons. lia.
Qed.

Lemma encoded_acc ts n :
  fold_left (fun sum t => sum + default 0 (sharesBaseUnits t)) ts n = n + encodedBaseUnits ts.
Proof.
  unfold encodedBaseUnits. revert n. induction ts as [|x ts IH]; intros n; cbn [fold_left]; [lia|].
  rewrite IH, (IH (0 + default 0 (sharesBaseUnits x))). lia.
Qed.

Lemma encoded_cons t ts :
  encodedBaseUnits (t :: ts) = default 0 (sharesBaseUnits t) + encodedBaseUnits ts.
Proof. unfold encodedBaseUnits at 1. cbn [fold_left]. rewrite encoded_acc. lia. Qed.

Lemma encoded_app ts us : encodedBaseUnits (ts ++ us) = encodedBaseUnits ts + encodedBaseUnits us.
Proof. induction ts as [|t ts IH]; simpl; [done|]. rewrite !encoded_cons, IH. lia. Qed.

Section Execution.
Context `{TokenLedger}.

Lemma exec_all_app xs ys b : exec_all (xs ++ ys) b = exec_all xs b ≫= exec_all ys.
Proof.
  revert b. induction xs as [|x xs IH]; intros b; simpl; [done|].
  destruct (exec x b); simpl; [apply IH|done].
Qed.

Lemma exec_all_app_inv xs ys b b' :
  exec_all (xs ++ ys) b = Some b' -> exists b1, exec_all xs b = Some b1 /\ exec_all ys b1 = Some b'.
Proof. rewrite exec_all_app. intros (b1 & ? & ?)%bind_Some. by exists b1. Qed.

Lemma exec_one ix b : exec_all (option_list (Some ix)) b = exec ix b.
Proof. simpl. by destruct (exec ix b). Qed.
End Execution.

Lemma held_insert_out b k v keys : k ∉ keys -> held (<[k := v]> b) keys = held b keys.
Proof.
  induction keys as [|k' keys IH]; intros Hk; simpl; [done|].
  apply not_elem_of_cons in Hk as [Hne Hk]. by rewrite lookup_insert_ne, IH.
Qed.

Lemma held_ext b b' keys : (forall k, k ∈ keys -> b !! k = b' !! k) -> held b keys = held b' keys.
Proof.
  induction keys as [|k keys IH]; intros Hk; simpl; [done|].
  rewrite (Hk k), IH; [done| |by left]. intros; apply Hk. by right.
Qed.

Lemma auxiliary_cons_eq ata x bs : address x = ata -> auxiliary ata (x :: bs) = auxiliary ata bs.
Proof. intros <-. unfold auxiliary. simpl. by rewrite String.eqb_refl. Qed.

Lemma auxiliary_cons_ne ata x bs :
  address x <> ata -> auxiliary ata (x :: bs) = x :: auxiliary ata bs.
Proof. intros Hne. unfold auxiliary. simpl. by rewrite (proj2 (String.eqb_neq _ _) Hne). Qed.

Lemma elem_of_auxiliary ata x bs : x ∈ auxiliary ata bs <-> x ∈ bs /\ address x <> ata.
Proof.
  unfold auxiliary. by rewrite !list_elem_of_In, filter_In, negb_true_iff, String.eqb_neq.
Qed.

Lemma auxiliary_well_formed ata bs : well_formed bs -> well_formed (auxiliary ata bs).
Proof.
  intros [Hnd Hpos]. induction bs as [|x bs IH]; [done|].
  apply NoDup_cons in Hnd as [Hx Hnd]. apply Forall_cons in Hpos as [Hp Hpos].
  destruct (IH Hnd Hpos) as [IHnd IHpos].
  destruct (decide (address x = ata)) as [E|E].
  - rewrite auxiliary_cons_eq; done.
  - rewrite auxiliary_cons_ne by done. split; [|by constructor].
    apply NoDup_cons. split; [|done]. intros Hin. apply Hx.
    apply list_elem_of_fmap in Hin as (z & -> & Hz%elem_of_auxiliary).
    apply list_elem_of_fmap. exists z. tauto.
Qed.

Section Consolidation.
Context `{TokenLaws mint owner decimals kvault}.
Let ata := share_ata owner mint.

(** What the loop leaves, and what the transfers it emits do. *)
Definition moves (b b' : gmap string Z) (bs : list ShareTokenAccountBalance) (y moved : Z) : Prop :=
  b' !! ata = Some (y + moved)
  /\ (forall k, k <> ata -> k ∉ (address <$> bs) -> b' !! k = b !! k)
  /\ (forall x, x ∈ bs -> address x <> ata ->
        exists v, b' !! address x = Some v /\ 0 <= v <= amount x)
  /\ held b' (address <$> auxiliary ata bs) = held b (address <$> auxiliary ata bs) - moved.

Lemma moves_none b bs y :
  Forall (fun x => 0 <= amount x) bs -> b !! ata = Some y ->
  (forall x, x ∈ bs -> address x <> ata -> b !! address x = Some (amount x)) ->
  moves b b bs y 0.
Proof.
  intros Hpos Hy Hb. split_and!; [rewrite Hy; f_equal; lia|done| |lia].
  intros x Hx Hne. exists (amount x). split; [by apply Hb|].
  rewrite Forall_forall in Hpos. specialize (Hpos x Hx). lia.
Qed.

Lemma moves_skip b b' x bs y moved :
  address x = ata -> moves b b' bs y moved -> moves b b' (x :: bs) y moved.
Proof.
  intros Hx (Hy & Hk & Hv & Hs). split_and!; [done| | |by rewrite auxiliary_cons_eq].
  - intros k Hne Hin. apply Hk; [done|]. intros Hin'. apply Hin. by right.
  - intros z [->|Hz]%elem_of_cons Hne; [done|]. by apply Hv.
Qed.

Lemma moves_step b b' x bs y rest m :
  address x <> ata -> address x ∉ (address <$> bs) -> b !! ata = Some y ->
  b !! address x = Some (amount x) -> 0 <= m <= amount x ->
  moves (<[ata := y + m]> (<[address x := amount x - m]> b)) b' bs (y + m) rest ->
  moves b b' (x :: bs) y (m + rest).
Proof.
  intros Hne Hnin Hy Hx Hm (Hy' & Hk & Hv & Hs).
  assert (b' !! address x = Some (amount x - m)) as Hx'.
  { rewrite Hk by done. by rewrite lookup_insert_ne, lookup_insert_eq. }
  split_and!.
  - rewrite Hy'. f_equal. lia.
  - intros k Hk' Hin. rewrite Hk; [|done|intros ?; apply Hin; by right].
    rewrite lookup_insert_ne by done. rewrite lookup_insert_ne; [done|].
    intros E. apply Hin. rewrite <- E. by left.
  - intros z [->|Hz]%elem_of_cons Hz'; [|by apply Hv]. exists (amount x - m). split; [done|lia].
  - rewrite auxiliary_cons_ne by done. cbn [fmap list_fmap held foldr].
    fold (held b' (address <$> auxiliary ata bs)) (held b (address <$> auxiliary ata bs)).
    rewrite Hs, Hx', Hx. simpl.
    rewrite held_insert_out, held_insert_out; [lia| |].
    all: intros Hin; apply list_elem_of_fmap in Hin as (z & E & Hz%elem_of_auxiliary).
    + apply Hnin. apply list_elem_of_fmap. exists z. tauto.
    + by destruct Hz as [_ []].
Qed.

Lemma consolidateLoop_spec i bs b y remaining :
  ci_shareMint i = mint -> ci_owner i = owner -> ci_shareDecimals i = decimals ->
  well_formed bs -> 0 <= remaining -> b !! ata = Some y ->
  (forall x, x ∈ bs -> address x <> ata -> b !! address x = Some (amount x)) ->
  let '(ixs, left_) := consolidateLoop i ata bs remaining in
  left_ = Z.max 0 (remaining - sum_amounts (auxiliary ata bs))
  /\ exists b', exec_all ixs b = Some b' /\ moves b b' bs y (remaining - left_).
Proof.
  intros Hm Ho Hd. revert b y remaining. induction bs as [|x bs IH]; intros b y remaining Hwf Hrem Hy Hb.
  - cbn [consolidateLoop]. change (sum_amounts (auxiliary ata [])) with 0.
    split; [lia|]. exists b. split; [done|]. rewrite Z.sub_diag. by apply moves_none.
  - assert (Hwf' := auxiliary_well_formed ata _ Hwf). destruct Hwf as [Hnd Hpos].
    apply NoDup_cons in Hnd as [Hnin Hnd]. apply Forall_cons in Hpos as [Hp Hpos].
    cbn [consolidateLoop].
    assert (Haux := auxiliary_well_formed ata bs (conj Hnd Hpos)).
    assert (Hsum := sum_amounts_nonneg _ (proj2 Haux)).
    destruct (Z.eqb_spec remaining 0) as [->|Hne].
    { split; [|exists b; split; [done|]; by apply moves_none; [constructor|..]].
      pose proof (sum_amounts_nonneg _ (proj2 Hwf')). lia. }
    destruct (String.eqb_spec (address x) ata) as [E|E].
    + cbn [orb]. rewrite auxiliary_cons_eq by done.
      specialize (IH b y remaining (conj Hnd Hpos) Hrem Hy).
      destruct (consolidateLoop i ata bs remaining) as [ixs l].
      destruct IH as (Hl & b' & He & Hmv); [intros; apply Hb; [by right|done]|].
      split; [done|]. exists b'. split; [done|]. by apply moves_skip.
    + rewrite auxiliary_cons_ne, sum_amounts_cons by done.
      assert (b !! address x = Some (amount x)) as Hx by (apply Hb; [by left|done]).
      set (m := if amount x <? remaining then amount x else remaining).
      assert (m = Z.min (amount x) remaining) as Hmin
        by (unfold m; destruct (Z.ltb_spec (amount x) remaining); lia).
      assert (forall rem', rem' = remaining - m ->
        let '(ixs, l) := consolidateLoop i ata bs rem' in
        l = Z.max 0 (rem' - sum_amounts (auxiliary ata bs))
        /\ exists b', exec_all ixs (<[ata := y + m]> (<[address x := amount x - m]> b)) = Some b'
           /\ moves b b' (x :: bs) y (m + (rem' - l))) as Hstep.
      { intros rem' ->.
        specialize (IH (<[ata := y + m]> (<[address x := amount x - m]> b)) (y + m) (remaining - m)).
        destruct (consolidateLoop i ata bs (remaining - m)) as [ixs l].
        destruct IH as (Hl & b' & He & Hmv); [done|lia|by rewrite lookup_insert_eq| |].
        { intros z Hz Hz'. rewrite !lookup_insert_ne; [apply Hb; [by right|done]| |done].
          intros E'. apply Hnin. rewrite E'. by apply list_elem_of_fmap_2. }
        split; [done|]. exists b'. split; [done|]. apply moves_step; try done. lia. }
      destruct (Z.eqb_spec (amount x) 0) as [E0|E0]; cbn [orb].
      * assert (m = 0) as Hm0 by lia. specialize (Hstep remaining ltac:(lia)).
        destruct (consolidateLoop i ata bs remaining) as [ixs l].
        destruct Hstep as (Hl & b' & He & Hmv). split; [lia|]. exists b'.
        rewrite Hm0 in Hmv. split; [|exact Hmv]. rewrite <- He. f_equal.
        rewrite Hm0, Z.add_0_r, Z.sub_0_r. rewrite (insert_id b (address x)) by done.
        by rewrite insert_id.
      * specialize (Hstep (remaining - m) eq_refl).
        destruct (consolidateLoop i ata bs (remaining - m)) as [ixs l].
        destruct Hstep as (Hl & b' & He & Hmv). split; [lia|]. exists b'. split.
        -- cbn [exec_all]. rewrite Hm, Ho, Hd.
           rewrite (exec_transfer (mint := mint) (owner := owner) (decimals := decimals) (kvault := kvault))
             by lia.
           rewrite Hx, Hy. rewrite (proj2 (String.eqb_neq _ _) E).
           rewrite (proj2 (Z.leb_le _ _)) by lia. exact He.
        -- replace (remaining - l) with (m + (remaining - m - l)) by lia. exact Hmv.
Qed.
End Consolidation.

Lemma filter_own_none ata bs :
  (forall x, x ∈ bs -> address x <> ata) ->
  List.filter (fun b => String.eqb (address b) ata) bs = [].
Proof.
  induction bs as [|x bs IH]; intros H; simpl; [done|].
  rewrite (proj2 (String.eqb_neq _ _)) by (apply H; by left). apply IH. intros; apply H. by right.
Qed.

Lemma filter_own bs x :
  NoDup (address <$> bs) -> x ∈ bs ->
  List.filter (fun b => String.eqb (address b) (address x)) bs = [x].
Proof.
  induction bs as [|z bs IH]; intros Hnd Hin; [by apply not_elem_of_nil in Hin|].
  apply NoDup_cons in Hnd as [Hz Hnd]. cbn [List.filter].
  destruct (String.eqb_spec (address z) (address x)) as [E|E].
  - apply elem_of_cons in Hin as [->|Hin].
    + rewrite filter_own_none; [done|]. intros w Hw E'. apply Hz. rewrite <- E'.
      by apply list_elem_of_fmap_2.
    + exfalso. apply Hz. rewrite E. by apply list_elem_of_fmap_2.
  - apply IH; [done|]. by apply elem_of_cons in Hin as [->|Hin].
Qed.

Lemma own_balance b bs ata :
  well_formed bs -> agrees b bs ata ->
  sum_amounts (List.filter (fun x => String.eqb (address x) ata) bs) = default 0 (b !! ata)
  /\ (b !! ata = None -> forall x, x ∈ bs -> address x <> ata).
Proof.
  intros [Hnd _] [Hin Hout].
  destruct (decide (Exists (fun x => address x = ata) bs)) as [(x & Hx & <-)%Exists_exists|Hn].
  - rewrite filter_own, Hin by done. split; [done|discriminate].
  - assert (forall x, x ∈ bs -> address x <> ata) as Hne
      by (intros x Hx E; apply Hn, Exists_exists; eauto).
    rewrite filter_own_none, Hout by done. done.
Qed.

Lemma held_agrees b bs ata :
  agrees b bs ata -> held b (address <$> auxiliary ata bs) = sum_amounts (auxiliary ata bs).
Proof.
  intros [Hin _]. assert (forall x, x ∈ auxiliary ata bs -> b !! address x = Some (amount x)) as H
    by (intros x [? _]%elem_of_auxiliary; auto).
  induction (auxiliary ata bs) as [|x l IH]; [done|]. rewrite sum_amounts_cons.
  cbn [fmap list_fmap held foldr]. fold (held b (address <$> l)).
  rewrite (H x) by (by left). rewrite IH; [done|]. intros; apply H. by right.
Qed.

(** The sequence of instructions that leaves the redemption account at [post]. *)
Definition funds (b : gmap string Z) (bs : list ShareTokenAccountBalance) (ata : string)
    (post : Z) (b' : gmap string Z) : Prop :=
  b' !! ata = Some post
  /\ held b' (ata :: (address <$> auxiliary ata bs)) = held b (ata :: (address <$> auxiliary ata bs))
  /\ (forall x, x ∈ bs -> address x <> ata ->
        exists v, b' !! address x = Some v /\ 0 <= v <= amount x)
  /\ (forall k, k <> ata -> k ∉ (address <$> bs) -> b' !! k = b !! k).

Lemma consolidation_funds `{TokenLaws (ci_shareMint i) (ci_owner i) (ci_shareDecimals i) kvault} b :
  let ata := share_ata (ci_owner i) (ci_shareMint i) in
  let bs := ci_accounts i in
  well_formed bs -> 0 < ci_requestedBaseUnits i -> agrees b bs ata ->
  match buildShareAccountConsolidation i with
  | Ok c =>
      shareAta c = ata /\ totalBaseUnits c = sum_amounts bs
      /\ ci_requestedBaseUnits i <= postConsolidationAtaBaseUnits c <= totalBaseUnits c
      /\ totalBaseUnits c <= KVAULT_BURN_ALL_SHARES_SENTINEL
      /\ exists b', exec_all (instructions c) b = Some b'
                    /\ funds b bs ata (postConsolidationAtaBaseUnits c) b'
  | Err _ => sum_amounts bs < ci_requestedBaseUnits i
             \/ KVAULT_BURN_ALL_SHARES_SENTINEL < sum_amounts bs
  end.
Proof.
  intros ata bs Hwf Hreq Hb. unfold buildShareAccountConsolidation. fold ata bs.
  destruct (own_balance _ _ _ Hwf Hb) as [Hown Hnone].
  assert (Hsplit := sum_amounts_split ata bs). rewrite Hown in Hsplit.
  assert (Haux := sum_amounts_nonneg _ (proj2 (auxiliary_well_formed ata bs Hwf))).
  destruct (Z.ltb_spec KVAULT_BURN_ALL_SHARES_SENTINEL (sum_amounts bs)) as [Hbig|Hbig]; [by right|].
  destruct (Z.ltb_spec (sum_amounts bs) (ci_requestedBaseUnits i)) as [Hlow|Hlow]; [by left|].
  rewrite Hown. destruct (Z.leb_spec (ci_requestedBaseUnits i - default 0 (b !! ata)) 0) as [Hle|Hgt].
  { destruct (b !! ata) as [y|] eqn:Hy; simpl in *; [|lia].
    split_and!; [done|done|lia|lia|done|]. exists b. split; [done|].
    split_and!; [done|done| |done]. intros x Hx _. exists (amount x).
    split; [by apply Hb|]. destruct Hwf as [_ Hp]. rewrite Forall_forall in Hp. specialize (Hp x Hx). lia. }
  set (b0 := match b !! ata with Some _ => b | None => <[ata := 0]> b end).
  assert (b0 !! ata = Some (default 0 (b !! ata))) as Hy0
    by (unfold b0; destruct (b !! ata) eqn:E; [done|by rewrite lookup_insert_eq]).
  assert (forall k, k <> ata -> b0 !! k = b !! k) as Hk0
    by (intros k Hk; unfold b0; destruct (b !! ata); [done|by rewrite lookup_insert_ne]).
  pose proof (consolidateLoop_spec (mint := ci_shareMint i) (owner := ci_owner i)
    (decimals := ci_shareDecimals i) (kvault := kvault) i bs b0 (default 0 (b !! ata))
    (ci_requestedBaseUnits i - default 0 (b !! ata)) eq_refl eq_refl eq_refl Hwf (Z.lt_le_incl _ _ Hgt) Hy0) as Hloop.
  fold ata in Hloop.
  destruct (consolidateLoop i ata bs _) as [ixs l].
  destruct Hloop as (Hl & b' & He & Hy' & Hk' & Hv' & Hs').
  { intros x Hx Hne. rewrite Hk0 by done. by apply Hb. }
  fold ata in Hy', Hk', Hv', Hs'. assert (l = 0) as -> by lia. rewrite Z.eqb_refl. cbn [negb].
  split_and!; [done|done|simpl; lia|simpl; lia|done|]. exists b'. cbn [instructions exec_all].
  unfold ata at 1. rewrite (exec_create (mint := ci_shareMint i) (owner := ci_owner i)
    (decimals := ci_shareDecimals i) (kvault := kvault)). fold ata. split; [exact He|].
  cbn [postConsolidationAtaBaseUnits]. split_and!.
  - rewrite Hy'. f_equal. lia.
  - cbn [held foldr]. fold (held b' (address <$> auxiliary ata bs)) (held b (address <$> auxiliary ata bs)).
    rewrite Hs', Hy'. simpl. rewrite (held_ext b0 b); [lia|].
    intros k (x & -> & Hx%elem_of_auxiliary)%list_elem_of_fmap. apply Hk0. tauto.
  - exact Hv'.
  - intros k Hne Hk. rewrite Hk' by done. by apply Hk0.
Qed.

(** ** Bytes *)

Lemma writeShares_length n i v bytes : length (writeShares n i v bytes) = length bytes.
Proof.
  revert i v bytes. induction n as [|n IH]; intros i v bytes; simpl; [done|].
  by rewrite IH, length_insert.
Qed.

Lemma writeShares_before n i v bytes k : (k < 8 + i)%nat -> writeShares n i v bytes !! k = bytes !! k.
Proof.
  revert i v bytes. induction n as [|n IH]; intros i v bytes Hk; cbn [writeShares]; [done|].
  rewrite IH by lia. apply list_lookup_insert_ne. lia.
Qed.

Lemma writeShares_lookup n i v bytes k :
  (8 + i + n <= length bytes)%nat -> (k < n)%nat ->
  writeShares n i v bytes !! (8 + (i + k))%nat = Some (v / 2 ^ (8 * Z.of_nat k) mod 256).
Proof.
  revert i v bytes k. induction n as [|n IH]; intros i v bytes k Hlen Hk; [lia|]. cbn [writeShares].
  destruct k as [|k].
  - rewrite writeShares_before by lia. rewrite Nat.add_0_r, list_lookup_insert_eq by lia.
    f_equal. change 255 with (Z.ones 8). by rewrite Z.land_ones, Z.div_1_r by lia.
  - replace (8 + (i + S k))%nat with (8 + (S i + k))%nat by lia.
    rewrite IH by (rewrite ?length_insert; lia). f_equal.
    rewrite Z.shiftr_div_pow2, Z.div_div by lia. f_equal. f_equal.
    rewrite <- Z.pow_add_r by lia. f_equal. lia.
Qed.

Lemma lor_low value d : 0 <= d < 256 -> Z.lor (Z.shiftl value 8) d = value * 256 + d.
Proof.
  intros Hd. assert (Z.land (Z.shiftl value 8) d = 0) as Hland.
  { apply Z.bits_inj_0. intros j. rewrite Z.land_spec. destruct (Z.ltb_spec j 8).
    - by rewrite Z.shiftl_spec_low.
    - rewrite <- (Z.mod_small d (2 ^ 8)) by (simpl; lia).
      rewrite Z.mod_pow2_bits_high by lia. apply andb_false_r. }
  rewrite <- Z.lxor_lor, <- Z.add_nocarry_lxor by done. rewrite Z.shiftl_mul_pow2 by lia. reflexivity.
Qed.

Lemma readShares_spec n bytes value v :
  0 <= v ->
  (forall k, (k < n)%nat -> bytes !! (8 + k)%nat = Some (v / 2 ^ (8 * Z.of_nat k) mod 256)) ->
  readShares n bytes value = value * 2 ^ (8 * Z.of_nat n) + v mod 2 ^ (8 * Z.of_nat n).
Proof.
  intros Hv. revert value. induction n as [|n IH]; intros value Hb; cbn [readShares].
  { rewrite Z.mod_1_r. simpl. lia. }
  rewrite IH by (intros; apply Hb; lia). rewrite (Hb n) by lia. cbn [from_option id].
  set (d := v / 2 ^ (8 * Z.of_nat n)).
  assert (0 <= d mod 256 < 256) as Hd by (apply Z.mod_pos_bound; lia).
  rewrite lor_low by done.
  replace (8 * Z.of_nat (S n)) with (8 * Z.of_nat n + 8) by lia.
  rewrite Z.pow_add_r by lia. change (2 ^ 8) with 256.
  rewrite Z.rem_mul_r by lia. fold d. lia.
Qed.

Lemma starts_with_before bytes bytes' d :
  (length d <= 8)%nat -> (forall k, (k < 8)%nat -> bytes' !! k = bytes !! k) ->
  starts_with bytes' d = starts_with bytes d.
Proof.
  intros Hd Hk. unfold starts_with. apply eq_true_iff_eq. rewrite !forallb_forall.
  split; intros H [k x] Hin; specialize (H (k, x) Hin); cbn beta iota in *;
    apply in_combine_l, in_seq in Hin; by rewrite Hk in * by lia.
Qed.

Lemma rewrite_decodes ix kvault n v :
  decodeKvaultWithdrawShares ix kvault = Some n -> 0 <= v < 2 ^ 64 ->
  exists ix', rewriteKvaultWithdrawShares ix v = Ok ix'
    /\ decodeKvaultWithdrawShares ix' kvault = Some v
    /\ programAddress ix' = programAddress ix /\ accounts ix' = accounts ix
    /\ exists current, data ix = Some current /\ data ix' = Some (writeShares 8 0 v current).
Proof.
  unfold decodeKvaultWithdrawShares, rewriteKvaultWithdrawShares. intros Hdec Hv.
  destruct (String.eqb (programAddress ix) kvault) eqn:Hp; [|done]. cbn [negb] in Hdec.
  destruct (data ix) as [bytes|]; [|done].
  destruct (Nat.ltb_spec (length bytes) 16) as [|Hlen]; [done|].
  destruct (existsb _ _) eqn:Hd; [|done]. eexists. split; [reflexivity|].
  cbn [programAddress data accounts]. rewrite Hp, writeShares_length. cbn [negb].
  rewrite (proj2 (Nat.ltb_ge _ _)) by lia. split_and!; [|done|done|by exists bytes].
  assert (existsb (starts_with (writeShares 8 0 v bytes)) KVAULT_SHARE_REDEEMING_DISCRIMINATORS = true) as ->.
  { rewrite <- Hd. unfold KVAULT_SHARE_REDEEMING_DISCRIMINATORS. cbn [existsb].
    assert (forall d, length d = 8%nat ->
      starts_with (writeShares 8 0 v bytes) d = starts_with bytes d) as Hs.
    { intros d Hl. apply starts_with_before; [lia|]. intros; apply writeShares_before; lia. }
    by rewrite !Hs. }
  cbn [negb]. f_equal. rewrite (readShares_spec 8 _ _ v); [|lia|].
  - change (8 * Z.of_nat 8) with 64. rewrite Z.mod_small; lia.
  - intros k Hk. exact (writeShares_lookup 8 0 v bytes k ltac:(lia) Hk).
Qed.

Lemma writeShares_after n i v bytes k : (8 + i + n <= k)%nat -> writeShares n i v bytes !! k = bytes !! k.
Proof.
  revert i v bytes. induction n as [|n IH]; intros i v bytes Hk; cbn [writeShares]; [done|].
  rewrite IH by lia. apply list_lookup_insert_ne. lia.
Qed.

Lemma writeShares_bytes n i v bytes : byte_array bytes -> byte_array (writeShares n i v bytes).
Proof.
  revert i v bytes. induction n as [|n IH]; intros i v bytes Hb; cbn [writeShares]; [done|].
  apply IH, Forall_insert; [done|]. change 255 with (Z.ones 8). rewrite Z.land_ones by lia.
  apply Z.mod_pos_bound. lia.
Qed.

(** The reader of the code is the layout. *)
Lemma decode_redeemed ix kvault :
  from_option byte_array True (data ix) -> decodeKvaultWithdrawShares ix kvault = redeemed_shares kvault ix.
Proof.
  unfold decodeKvaultWithdrawShares, redeemed_shares. destruct (data ix) as [bytes|]; [|by destruct (negb _)].
  cbn [from_option]. intros Hb. destruct (String.eqb_spec (programAddress ix) kvault) as [Hp|Hp]; cbn [negb];
    [|by rewrite bool_decide_eq_false_2 by tauto].
  destruct (Nat.ltb_spec (length bytes) 16) as [Hl|Hl]; [by rewrite bool_decide_eq_false_2 by lia|].
  do 16 (destruct bytes as [|? bytes]; [by cbn in Hl; lia|]).
  do 16 (apply Forall_cons in Hb as [? Hb]).
  unfold KVAULT_SHARE_REDEEMING_DISCRIMINATORS, starts_with. cbn [existsb length seq zip zip_with forallb take drop].
  cbn [lookup list_lookup readShares Nat.add from_option default id]. rewrite !lor_low by lia. unfold little_endian. cbn [foldr].
  match goal with |- (if negb ?b then _ else _) = (if ?c then _ else _) => assert (b = c) as -> end.
  - apply eq_true_iff_eq. rewrite !bool_decide_eq_true, !orb_true_iff, !andb_true_iff, !bool_decide_eq_true.
    rewrite elem_of_cons, list_elem_of_singleton. cbn [length].
    split; [intros [Hd|[Hd|Hd]]; [| |done]; (split_and!; [done|lia|]); [left|right]; intuition congruence|].
    intros (_ & _ & [Hd|Hd]); [left|right; left]; injection Hd; intros; subst; by repeat split.
  - destruct (bool_decide _); cbn [negb]; [|done]. f_equal. change (take 0 bytes) with (@nil Z). cbn [foldr]. lia.
Qed.

Lemma readShares_range n bytes value m :
  byte_array bytes -> 0 <= value < 2 ^ (8 * m) -> 0 <= m ->
  0 <= readShares n bytes value < 2 ^ (8 * (m + Z.of_nat n)).
Proof.
  intros Hb. revert value m. induction n as [|n IH]; intros value m Hv Hm; cbn [readShares].
  { by rewrite Z.add_0_r. }
  replace (m + Z.of_nat (S n)) with ((m + 1) + Z.of_nat n) by lia. apply IH; [|lia].
  assert (0 <= default 0 (bytes !! (8 + n)%nat) < 256) as Hd.
  { destruct (bytes !! (8 + n)%nat) as [x|] eqn:E; simpl; [|lia].
    unfold byte_array in Hb. rewrite Forall_lookup in Hb. by eapply Hb. }
  rewrite lor_low by done. replace (8 * (m + 1)) with (8 * m + 8) by lia.
  rewrite Z.pow_add_r by lia. change (2 ^ 8) with 256. nia.
Qed.

Lemma decode_range ix kvault n :
  from_option byte_array True (data ix) -> decodeKvaultWithdrawShares ix kvault = Some n ->
  0 <= n <= KVAULT_BURN_ALL_SHARES_SENTINEL.
Proof.
  unfold decodeKvaultWithdrawShares. intros Hb Hd. destruct (negb _); [done|].
  destruct (data ix) as [bytes|]; [|done]. destruct (Nat.ltb _ _); [done|].
  destruct (negb _); [done|]. assert (n = readShares 8 bytes 0) as -> by congruence.
  pose proof (readShares_range 8 bytes 0 0 Hb ltac:(simpl; lia) ltac:(lia)) as H. unfold KVAULT_BURN_ALL_SHARES_SENTINEL.
  change (2 ^ (8 * (0 + Z.of_nat 8))) with 18446744073709551616 in H. lia.
Qed.

(** ** The burn-all sentinel *)

Lemma rewriteSentinels_spec kvault ts v :
  Forall (faithful kvault) ts -> 0 < v <= KVAULT_BURN_ALL_SHARES_SENTINEL ->
  exists out, rewriteSentinels ts v = Ok out /\ Forall (faithful kvault) out
    /\ Forall2 rewritten ts out
    /\ encodedBaseUnits out
       = encodedBaseUnits (List.filter (fun t => negb (is_sentinel t)) ts)
         + v * Z.of_nat (length (List.filter is_sentinel ts))
    /\ (v <> KVAULT_BURN_ALL_SHARES_SENTINEL -> Forall (fun t => is_sentinel t = false) out).
Proof.
  intros Hf Hv. assert (0 <= v < 2 ^ 64) as Hv'
    by (unfold KVAULT_BURN_ALL_SHARES_SENTINEL in Hv; lia).
  induction Hf as [|t ts Ht Hf (out & IHe & IHf & IHr & IHs & IHn)].
  { exists []. repeat (split; [by repeat constructor; cbn; lia|]). by constructor. }
  cbn [rewriteSentinels List.filter]. rewrite IHe. destruct (is_sentinel t) eqn:Es; cbn [result_bind negb].
  - assert (exists n, role t = withdraw /\ decodeKvaultWithdrawShares (instruction t) kvault = Some n)
      as (n & Hrole & Hdec).
    { apply bool_decide_eq_true in Es. unfold faithful in Ht. destruct (role t); [congruence..| |congruence].
      destruct Ht as (n & _ & ?). by exists n. }
    destruct (rewrite_decodes _ _ _ _ Hdec Hv') as (ix & -> & Hdec' & Hp & Ha & current & Hcur & Hcur'). cbn [result_bind].
    eexists. split; [reflexivity|]. split_and!.
    + constructor; [|done]. unfold faithful. cbn [role]. rewrite Hrole. exists v. done.
    + constructor; [|done]. right. split_and!; [done..|]. exists v, current. done.
    + rewrite encoded_cons, IHs. cbn [sharesBaseUnits length from_option id]. lia.
    + intros Hne. constructor; [|auto]. apply bool_decide_eq_false. cbn [sharesBaseUnits]. congruence.
  - eexists. split; [reflexivity|]. split_and!.
    + by constructor.
    + constructor; [by left|done].
    + rewrite !encoded_cons, IHs. lia.
    + intros Hne. constructor; auto.
Qed.

Lemma literal_acc ts n :
  fold_left (fun sum t => sum + (if is_sentinel t then 0 else default 0 (sharesBaseUnits t))) ts n
  = n + encodedBaseUnits (List.filter (fun t => negb (is_sentinel t)) ts).
Proof.
  revert n. induction ts as [|t ts IH]; intros n; cbn [fold_left List.filter].
  { unfold encodedBaseUnits. simpl. lia. }
  rewrite IH. destruct (is_sentinel t); cbn [negb]; [|rewrite encoded_cons]; lia.
Qed.

Lemma encoded_redeeming kvault ts :
  Forall (faithful kvault) ts ->
  encodedBaseUnits (List.filter (fun t => negb (is_sentinel t)) (List.filter is_redemption ts))
  = encodedBaseUnits (List.filter (fun t => negb (is_sentinel t)) ts)
  /\ List.filter is_sentinel (List.filter is_redemption ts) = List.filter is_sentinel ts.
Proof.
  induction 1 as [|t ts Ht _ [IH1 IH2]]; [done|]. cbn [List.filter].
  unfold is_redemption at 1 4. unfold faithful in Ht.
  assert (role t <> withdraw -> sharesBaseUnits t = None) as Hnone by (destruct (role t); congruence).
  case_bool_decide as Er; cbn [List.filter].
  - destruct (is_sentinel t); cbn [negb]; rewrite ?encoded_cons, ?IH1, ?IH2; done.
  - assert (is_sentinel t = false) as -> by (unfold is_sentinel; by rewrite Hnone).
    cbn [negb]. by rewrite encoded_cons, IH1, IH2, Hnone.
Qed.

Lemma findIndexFrom_spec {A} (p : A -> bool) l i :
  0 <= i ->
  (findIndexFrom p i l = -1 /\ Forall (fun x => p x = false) l)
  \/ (exists before x after, l = (before ++ x :: after)%list /\ p x = true
      /\ Forall (fun y => p y = false) before
      /\ findIndexFrom p i l = i + Z.of_nat (length before)).
Proof.
  revert i. induction l as [|x l IH]; intros i Hi; cbn [findIndexFrom]; [by left|].
  destruct (p x) eqn:E.
  - right. exists [], x, l. split_and!; [done|done|constructor|simpl; lia].
  - destruct (IH (i + 1) ltac:(lia)) as [[H1 H2]|(bf & y & af & -> & Hy & Hb & He)].
    + left. split; [done|by constructor].
    + right. exists (x :: bf), y, af. split_and!; [done|done|by constructor|].
      rewrite He. cbn [length]. lia.
Qed.

Lemma filter_none {A} (p : A -> bool) l : Forall (fun x => p x = false) l -> List.filter p l = [].
Proof. induction 1 as [|x l Hx _ IH]; [done|]. simpl. by rewrite Hx. Qed.

Lemma filter_all {A} (p : A -> bool) l : Forall (fun x => p x = false) l ->
  List.filter (fun x => negb (p x)) l = l.
Proof. induction 1 as [|x l Hx _ IH]; [done|]. simpl. by rewrite Hx; simpl; rewrite IH. Qed.

Lemma last_sentinel rs :
  length (List.filter is_sentinel rs) = 1%nat ->
  (findIndex is_sentinel rs = Z.of_nat (length rs) - 1 <->
   exists before last, rs = (before ++ [last])%list /\ is_sentinel last = true
     /\ Forall (fun t => is_sentinel t = false) before).
Proof.
  intros Hlen. unfold findIndex.
  destruct (findIndexFrom_spec is_sentinel rs 0 ltac:(lia))
    as [[_ Hn]|(bf & x & af & -> & Hx & Hb & He)].
  { rewrite (filter_none _ _ Hn) in Hlen. done. }
  rewrite He, length_app. cbn [length]. split.
  - intros Hi. exists bf, x. destruct af as [|y af]; [done|]. cbn [length] in Hi. lia.
  - intros (bf' & last & E & Hl & Hb').
    rewrite !List.filter_app in Hlen. cbn [List.filter] in Hlen. rewrite Hx in Hlen.
    induction af as [|z af' _] using rev_ind; [simpl; lia|].
    exfalso. rewrite app_comm_cons, app_assoc in E. apply app_inj_tail in E as [<- <-].
    rewrite filter_none in Hlen by done. cbn [length app] in Hlen.
    rewrite List.filter_app in Hlen. cbn [List.filter] in Hlen. rewrite Hl, !length_app in Hlen.
    cbn [length] in Hlen. lia.
Qed.

Lemma resolve_spec kvault ts requested guarded :
  Forall (faithful kvault) ts ->
  match resolveBurnAllSentinel ts requested guarded with
  | Ok out =>
      resolvable ts requested guarded /\ Forall (faithful kvault) out /\ Forall2 rewritten ts out
      /\ ((out = ts /\ List.filter is_sentinel ts = []) \/ encodedBaseUnits out = requested)
      /\ (Exists (fun t => is_sentinel t = true) out -> guarded = true)
  | Err _ => ~ resolvable ts requested guarded
  end.
Proof.
  intros Hf. unfold resolveBurnAllSentinel.
  destruct (encoded_redeeming _ _ Hf) as [Henc Hsent].
  set (count := length (List.filter is_sentinel ts)).
  set (rs := List.filter is_redemption ts) in *.
  destruct (Nat.eqb_spec count 0) as [E0|E0].
  { apply nil_length_inv in E0. split_and!; [by left|done| |by left|].
    - clear -E0. induction ts as [|t ts IH]; [constructor|]. cbn [List.filter] in E0.
      destruct (is_sentinel t) eqn:E; [done|]. constructor; [by left|auto].
    - intros (t & Hin & Ht)%Exists_exists. exfalso.
      assert (t ∈ List.filter is_sentinel ts) as Hin'
        by (apply list_elem_of_In, filter_In; split; [by apply list_elem_of_In|done]).
      rewrite E0 in Hin'. by apply not_elem_of_nil in Hin'. }
  assert (forall before last, rs = (before ++ [last])%list -> is_sentinel last = true ->
    Forall (fun t => is_sentinel t = false) before ->
    count = 1%nat /\ literalBaseUnits rs = encodedBaseUnits before) as Hshape.
  { intros before last E Hl Hb. unfold count. rewrite <- Hsent. unfold literalBaseUnits.
    rewrite literal_acc, E, !List.filter_app, filter_none, filter_all by done. cbn [List.filter].
    rewrite Hl. cbn [negb]. rewrite app_nil_r. done. }
  destruct (Nat.eqb_spec count 1) as [E1|E1]; cbn [negb].
  2:{ intros [H|(bf & l & Hr & Hl & Hb & _)]; [by apply E0; unfold count; rewrite H|].
      by apply E1, (Hshape bf l). }
  pose proof (last_sentinel rs) as Hlast. rewrite Hsent in Hlast. specialize (Hlast E1).
  destruct (Z.eqb_spec (findIndex is_sentinel rs) (Z.of_nat (length rs) - 1)) as [Ei|Ei]; cbn [negb].
  2:{ intros [H|(bf & l & Hr & Hl & Hb & _)]; [by apply E0; unfold count; rewrite H|].
      apply Ei, Hlast. by exists bf, l. }
  apply Hlast in Ei as (before & last & Hr & Hl & Hb).
  destruct (Hshape before last Hr Hl Hb) as [_ ->].
  assert (resolvable ts requested guarded <->
    0 < requested - encodedBaseUnits before <= KVAULT_BURN_ALL_SHARES_SENTINEL
    /\ (requested - encodedBaseUnits before = KVAULT_BURN_ALL_SHARES_SENTINEL -> guarded = true)) as Hres.
  { split; [|by intros; right; exists before, last].
    intros [H|(bf & l & Hr' & _ & _ & Hrest)]; [exfalso; by apply E0; unfold count; rewrite H|].
    fold rs in Hr'. rewrite Hr in Hr'. by apply app_inj_tail in Hr' as [-> ->]. }
  set (rem := requested - encodedBaseUnits before) in *.
  destruct (Z.leb_spec rem 0) as [|H1]; cbn [orb]; [rewrite Hres; lia|].
  destruct (Z.ltb_spec KVAULT_BURN_ALL_SHARES_SENTINEL rem) as [|H2]; [rewrite Hres; lia|].
  destruct (Z.eqb_spec rem KVAULT_BURN_ALL_SHARES_SENTINEL) as [E|E]; cbn [andb].
  - destruct guarded; cbn [negb]; [|rewrite Hres; intros [_ H]; by specialize (H E)].
    destruct (rewriteSentinels_spec kvault ts rem Hf) as (out & -> & Ho & Hrw & Hs & _).
    { lia. }
    split_and!; [by rewrite Hres|done|done| |done]. right. rewrite Hs. fold count.
    rewrite <- Henc, Hr, List.filter_app, filter_all by done. cbn [List.filter]. rewrite Hl. cbn [negb].
    rewrite app_nil_r, E1. unfold rem. lia.
  - destruct (rewriteSentinels_spec kvault ts rem Hf) as (out & -> & Ho & Hrw & Hs & Hn).
    { lia. }
    split_and!; [by rewrite Hres|done|done| |].
    + right. rewrite Hs. fold count. rewrite <- Henc, Hr, List.filter_app, filter_all by done.
      cbn [List.filter]. rewrite Hl. cbn [negb]. rewrite app_nil_r, E1. unfold rem. lia.
    + intros Hex. exfalso. specialize (Hn E). apply Exists_exists in Hex as (t & Hin & Ht).
      rewrite Forall_forall in Hn. specialize (Hn t Hin). congruence.
Qed.

(** ** Running the instructions *)

Lemma held_insert b k v keys :
  NoDup keys -> k ∈ keys -> held (<[k := v]> b) keys = held b keys - default 0 (b !! k) + v.
Proof.
  induction keys as [|k' keys IH]; intros Hnd Hk; [by apply not_elem_of_nil in Hk|].
  apply NoDup_cons in Hnd as [Hk' Hnd]. cbn [held foldr].
  fold (held (<[k := v]> b) keys) (held b keys). destruct (decide (k' = k)) as [->|Hne].
  - rewrite lookup_insert_eq, held_insert_out by done. simpl. lia.
  - apply elem_of_cons in Hk as [->|Hk]; [done|].
    rewrite lookup_insert_ne, IH by done. lia.
Qed.

(** The mint's supply: no negative balance, and all fit in 64 bits together. *)
Definition supply (b : gmap string Z) (keys : list string) : Prop :=
  (forall k, k ∈ keys -> 0 <= default 0 (b !! k))
  /\ held b keys <= KVAULT_BURN_ALL_SHARES_SENTINEL.

(** From [b] to [b'] the keys lose [burned] together and nothing else changes. *)
Definition burns (keys : list string) (burned : Z) (b b' : gmap string Z) : Prop :=
  held b' keys = held b keys - burned
  /\ (forall k, k ∈ keys -> 0 <= default 0 (b' !! k))
  /\ (forall k, k ∉ keys -> b' !! k = b !! k).

Lemma burns_refl keys b : (forall k, k ∈ keys -> 0 <= default 0 (b !! k)) -> burns keys 0 b b.
Proof. intros H. split_and!; [lia|done|done]. Qed.

Lemma burns_trans keys m n b1 b2 b3 :
  burns keys m b1 b2 -> burns keys n b2 b3 -> burns keys (m + n) b1 b3.
Proof.
  intros (H1 & _ & H2) (H3 & H4 & H5). split_and!; [lia|done|].
  intros k Hk. by rewrite H5, H2.
Qed.

Lemma burns_supply keys n b b' : 0 <= n -> supply b keys -> burns keys n b b' -> supply b' keys.
Proof. intros Hn [_ Hs] (H1 & H2 & _). split; [done|lia]. Qed.

Lemma held_ge b k keys x :
  (forall k, k ∈ keys -> 0 <= default 0 (b !! k)) -> k ∈ keys -> b !! k = Some x -> x <= held b keys.
Proof.
  induction keys as [|k' keys IH]; intros Hpos Hk Hx; [by apply not_elem_of_nil in Hk|].
  cbn [held foldr]. fold (held b keys).
  assert (0 <= held b keys) as Hge.
  { clear -Hpos. induction keys as [|z keys IH]; [done|]. cbn [held foldr]. fold (held b keys).
    assert (0 <= default 0 (b !! z)) by (apply Hpos; right; left).
    enough (0 <= held b keys) by lia. apply IH. intros k [->|Hk]%elem_of_cons; apply Hpos; [left|by do 2 right]. }
  apply elem_of_cons in Hk as [->|Hk].
  - rewrite Hx. simpl. lia.
  - assert (0 <= default 0 (b !! k')) by (apply Hpos; left).
    enough (x <= held b keys) by lia. apply IH; [|done..]. intros; apply Hpos. by right.
Qed.

Lemma sentinel_le ts :
  Forall (fun t => 0 <= default 0 (sharesBaseUnits t)) ts ->
  0 <= encodedBaseUnits ts
  /\ (Exists (fun t => is_sentinel t = true) ts -> KVAULT_BURN_ALL_SHARES_SENTINEL <= encodedBaseUnits ts).
Proof.
  induction 1 as [|t ts Ht _ [IH1 IH2]].
  - split; [done|]. by rewrite Exists_nil.
  - rewrite encoded_cons. split; [lia|]. rewrite Exists_cons. intros [Hs|Hex]; [|specialize (IH2 Hex); lia].
    apply bool_decide_eq_true in Hs. rewrite Hs in *. cbn [from_option id]. lia.
Qed.

Definition leaves_alone `{TokenLedger} (ix : Instruction) : Prop :=
  forall b b', exec ix b = Some b' -> b' = b.

(** It succeeds, too. *)
Definition stands_by `{TokenLedger} (ix : Instruction) : Prop := forall b, exec ix b = Some b.

Section Chain.
Context `{TokenLaws mint owner decimals kvault}.
Let ata := share_ata owner mint.

Section Keys.
Context (keys : list string) (Hnodup : NoDup keys) (Hata : ata ∈ keys).

Lemma transfer_burns source n b b' :
  0 <= n -> source ∈ keys -> (forall k, k ∈ keys -> 0 <= default 0 (b !! k)) ->
  exec (getTransferCheckedInstruction (mkTransfer source mint ata owner n decimals)
          TOKEN_PROGRAM_ADDRESS) b = Some b' ->
  burns keys 0 b b'
  /\ exists x, b !! source = Some x /\ n <= x /\ (source = ata -> b' = b).
Proof.
  intros Hn Hs Hpos.
  rewrite (exec_transfer (mint := mint) (owner := owner) (decimals := decimals) (kvault := kvault)) by done.
  destruct (b !! source) as [x|] eqn:Hx; [|done]. destruct (b !! ata) as [y|] eqn:Hy; [|done].
  destruct (Z.leb_spec n x); [|done]. intros [= <-].
  assert (0 <= x) by (pose proof (Hpos source Hs) as Hp; by rewrite Hx in Hp).
  assert (0 <= y) by (pose proof (Hpos ata Hata) as Hp; by rewrite Hy in Hp).
  destruct (String.eqb_spec source ata) as [E|E].
  { split; [by apply burns_refl|]. by exists x. }
  split; [|by exists x]. split_and!.
  - rewrite !held_insert, lookup_insert_ne, Hx, Hy by done. simpl. lia.
  - intros k Hk. destruct (decide (k = ata)) as [->|]; [rewrite lookup_insert_eq; simpl; lia|].
    rewrite lookup_insert_ne by done. destruct (decide (k = source)) as [->|].
    + rewrite lookup_insert_eq. simpl. lia.
    + rewrite lookup_insert_ne by done. by apply Hpos.
  - intros k Hk. rewrite !lookup_insert_ne; [done| |]; by intros ->.
Qed.

Lemma consolidateLoop_burns i bs remaining b b' :
  ci_shareMint i = mint -> ci_owner i = owner -> ci_shareDecimals i = decimals ->
  Forall (fun x => 0 <= amount x) bs -> (forall x, x ∈ bs -> address x ∈ keys) -> 0 <= remaining ->
  (forall k, k ∈ keys -> 0 <= default 0 (b !! k)) ->
  exec_all (consolidateLoop i ata bs remaining).1 b = Some b' -> burns keys 0 b b'.
Proof.
  intros Hm Ho Hd Hpos Hin. revert remaining b. induction Hpos as [|x bs Hx _ IH];
    intros remaining b Hr Hb; cbn [consolidateLoop].
  { intros [= <-]. by apply burns_refl. }
  destruct (remaining =? 0); [intros [= <-]; by apply burns_refl|].
  assert (forall z, z ∈ bs -> address z ∈ keys) as Hin' by (intros; apply Hin; by right).
  destruct (String.eqb _ _ || _); [by apply IH|].
  set (m := if amount x <? remaining then amount x else remaining).
  assert (0 <= m <= remaining) as Hmr by (unfold m; destruct (Z.ltb_spec (amount x) remaining); lia).
  destruct (consolidateLoop i ata bs (remaining - m)) as [ixs l] eqn:El. cbn [fst exec_all].
  rewrite Hm, Ho, Hd. destruct (exec _ b) as [b1|] eqn:E1; [|done]. cbn [mbind option_bind].
  apply transfer_burns in E1 as [E1 _]; [|lia|apply Hin; by left|done].
  intros He. change 0 with (0 + 0). eapply burns_trans; [exact E1|].
  apply (IH Hin' (remaining - m)); [lia|apply E1|]. by rewrite El.
Qed.

Lemma create_burns payer b b' :
  (forall k, k ∈ keys -> 0 <= default 0 (b !! k)) ->
  exec (getCreateAssociatedTokenIdempotentInstruction
          (mkCreate payer ata owner mint) TOKEN_PROGRAM_ADDRESS) b = Some b' -> burns keys 0 b b'.
Proof.
  intros Hb. unfold ata.
  rewrite (exec_create (mint := mint) (owner := owner) (decimals := decimals) (kvault := kvault)).
  fold ata. intros [= <-]. destruct (b !! ata) as [y|] eqn:Hy; [by apply burns_refl|].
  split_and!.
  - rewrite held_insert, Hy by done. simpl. lia.
  - intros k Hk. destruct (decide (k = ata)) as [->|]; [by rewrite lookup_insert_eq|].
    rewrite lookup_insert_ne by done. by apply Hb.
  - intros k Hk. rewrite lookup_insert_ne; [done|]. by intros ->.
Qed.

Lemma close_burns destination b b' :
  (forall k, k ∈ keys -> 0 <= default 0 (b !! k)) ->
  exec (getCloseAccountInstruction (mkClose ata destination owner) TOKEN_PROGRAM_ADDRESS) b
  = Some b' -> burns keys 0 b b'.
Proof.
  intros Hb. unfold ata.
  rewrite (exec_close (mint := mint) (owner := owner) (decimals := decimals) (kvault := kvault)).
  fold ata. destruct (b !! ata) as [y|] eqn:Hy; [|done].
  destruct (Z.eqb_spec y 0) as [->|]; [|done]. intros [= <-]. split_and!.
  - rewrite Z.sub_0_r. clear -Hy. induction keys as [|k ks IH]; [done|]. cbn [held foldr].
    fold (held b ks) (held (delete ata b) ks). rewrite IH.
    destruct (decide (k = ata)) as [->|]; [by rewrite lookup_delete_eq, Hy|].
    by rewrite lookup_delete_ne.
  - intros k Hk. destruct (decide (k = ata)) as [->|]; [by rewrite lookup_delete_eq|].
    rewrite lookup_delete_ne by done. by apply Hb.
  - intros k Hk. rewrite lookup_delete_ne; [done|]. by intros ->.
Qed.

(** A redemption burns its literal amount; the sentinel burns the maximum when the
    account holds the maximum. *)
Lemma redeem_burns ix n b b' :
  0 <= n -> (forall k, k ∈ keys -> 0 <= default 0 (b !! k)) ->
  decodeKvaultWithdrawShares ix kvault = Some n ->
  (n = KVAULT_BURN_ALL_SHARES_SENTINEL -> b !! ata = Some n) ->
  exec ix b = Some b' ->
  burns keys n b b' /\ b' !! ata = Some (default 0 (b !! ata) - n).
Proof.
  intros Hn Hb Hd Hs.
  rewrite (exec_redeem (mint := mint) (owner := owner) (decimals := decimals) (kvault := kvault) ix n) by done.
  fold ata. destruct (b !! ata) as [x|] eqn:Hx; [|done].
  assert (forall v, 0 <= v -> v = x - n ->
    burns keys n b (<[ata := v]> b) /\ (<[ata := v]> b) !! ata = Some (x - n)) as Hgo.
  { intros v Hv ->. split; [|by rewrite lookup_insert_eq]. split_and!.
    - rewrite held_insert, Hx by done. simpl. lia.
    - intros k Hk. destruct (decide (k = ata)) as [->|]; [by rewrite lookup_insert_eq|].
      rewrite lookup_insert_ne by done. by apply Hb.
    - intros k Hk. rewrite lookup_insert_ne; [done|]. by intros ->. }
  destruct (Z.eqb_spec n KVAULT_BURN_ALL_SHARES_SENTINEL) as [E|E].
  - intros [= <-]. specialize (Hs E). apply Hgo; [done|]. injection Hs. lia.
  - destruct (Z.leb_spec n x); [|done]. intros [= <-]. apply Hgo; [lia|done].
Qed.

Lemma redemptions_burn ts b b' :
  Forall (faithful kvault) ts -> Forall (fun t => 0 <= default 0 (sharesBaseUnits t)) ts ->
  Forall (fun t => role t <> withdraw -> leaves_alone (instruction t)) ts ->
  (forall k, k ∈ keys -> 0 <= default 0 (b !! k)) ->
  (Exists (fun t => is_sentinel t = true) ts ->
     encodedBaseUnits ts = KVAULT_BURN_ALL_SHARES_SENTINEL /\
     b !! ata = Some KVAULT_BURN_ALL_SHARES_SENTINEL) ->
  exec_all (instruction <$> ts) b = Some b' -> burns keys (encodedBaseUnits ts) b b'.
Proof.
  intros Hf. revert b. induction Hf as [|t ts Ht Hf IH]; intros b Hpos Hal Hb Hs He.
  { injection He as <-. by apply burns_refl. }
  apply Forall_cons in Hpos as [Hp Hpos]. apply Forall_cons in Hal as [Ha Hal].
  destruct (sentinel_le ts Hpos) as [Hge Hsl].
  rewrite encoded_cons in *. cbn [fmap list_fmap exec_all] in He.
  destruct (exec (instruction t) b) as [b1|] eqn:E1; [|done]. cbn [mbind option_bind] in He.
  rewrite Exists_cons in Hs. unfold KVAULT_BURN_ALL_SHARES_SENTINEL in *.
  assert ((exists n, role t = withdraw /\ sharesBaseUnits t = Some n
             /\ decodeKvaultWithdrawShares (instruction t) kvault = Some n)
          \/ (role t <> withdraw /\ sharesBaseUnits t = None)) as [(n & Hr & Hn & Hd)|[Hr Hn]].
  { unfold faithful in Ht. destruct (role t); [by right..|left|by right].
    destruct Ht as (n & ? & ?). by exists n. }
  - rewrite Hn in *. cbn [from_option id] in *.
    destruct (redeem_burns (instruction t) n b b1) as [Hb1 Hata1]; try done.
    { intros E. rewrite E. apply Hs. left. apply bool_decide_eq_true. by rewrite Hn, E. }
    eapply burns_trans; [exact Hb1|]. apply IH; [done|done|apply Hb1| |done].
    intros Hex. destruct (Hs (or_intror Hex)) as [Hsum Hval]. specialize (Hsl Hex).
    assert (n = 0) as -> by lia. rewrite Hata1, Hval. split; [lia|]. f_equal.
  - rewrite Hn in *. cbn [from_option id] in *. rewrite Z.add_0_l in *.
    apply (Ha Hr) in E1 as ->. apply IH; try done. intros Hex. apply Hs. by right.
Qed.

End Keys.

Lemma redemptions_run ts b y :
  Forall (faithful kvault) ts -> Forall (fun t => 0 <= default 0 (sharesBaseUnits t)) ts ->
  Forall (fun t => role t <> withdraw -> stands_by (instruction t)) ts ->
  b !! ata = Some y -> encodedBaseUnits ts <= y <= KVAULT_BURN_ALL_SHARES_SENTINEL ->
  exists b', exec_all (instruction <$> ts) b = Some b'
    /\ b' !! ata = Some (y - encodedBaseUnits ts).
Proof.
  intros Hf. revert b y. induction Hf as [|t ts Ht Hf IH]; intros b y Hpos Hst Hy Hle.
  { exists b. split; [done|]. rewrite Hy. f_equal. unfold encodedBaseUnits. cbn. lia. }
  apply Forall_cons in Hpos as [Hp Hpos]. apply Forall_cons in Hst as [Hs Hst].
  destruct (sentinel_le ts Hpos) as [Hge _].
  rewrite encoded_cons in *. cbn [fmap list_fmap exec_all].
  assert ((exists n, sharesBaseUnits t = Some n
             /\ decodeKvaultWithdrawShares (instruction t) kvault = Some n)
          \/ (role t <> withdraw /\ sharesBaseUnits t = None)) as [(n & Hn & Hd)|[Hr Hn]].
  { unfold faithful in Ht. destruct (role t); [by right..|by left|by right]. }
  - rewrite Hn in *. cbn [from_option id] in *.
    rewrite (exec_redeem (mint := mint) (owner := owner) (decimals := decimals) (kvault := kvault) _ n) by done.
    fold ata. rewrite Hy.
    assert (exists b1, (if n =? KVAULT_BURN_ALL_SHARES_SENTINEL then Some (<[ata := 0]> b)
              else if n <=? y then Some (<[ata := y - n]> b) else None) = Some b1
            /\ b1 !! ata = Some (y - n)) as (b1 & -> & Hb1).
    { destruct (Z.eqb_spec n KVAULT_BURN_ALL_SHARES_SENTINEL).
      - eexists. split; [done|]. rewrite lookup_insert_eq. f_equal. lia.
      - rewrite (proj2 (Z.leb_le _ _)) by lia. eexists. split; [done|]. by rewrite lookup_insert_eq. }
    destruct (IH b1 (y - n) Hpos Hst Hb1 ltac:(lia)) as (b' & He & Hb').
    exists b'. split; [exact He|]. rewrite Hb'. f_equal. lia.
  - rewrite Hn in *. cbn [from_option id] in *. rewrite (Hs Hr). apply IH; done.
Qed.
End Chain.

Lemma exec_bystanders `{TokenLedger} ixs b b' :
  Forall leaves_alone ixs -> exec_all ixs b = Some b' -> b' = b.
Proof.
  intros Hal. revert b. induction Hal as [|ix ixs Hix _ IH]; intros b He; [by injection He|].
  cbn [exec_all] in He. destruct (exec ix b) as [b1|] eqn:E; [|done]. apply Hix in E as ->. by apply IH.
Qed.

Lemma run_bystanders `{TokenLedger} ixs b : Forall stands_by ixs -> exec_all ixs b = Some b.
Proof. induction 1 as [|ix ixs Hix _ IH]; [done|]. cbn [exec_all]. by rewrite Hix. Qed.

Lemma stands_by_leaves_alone `{TokenLedger} ix : stands_by ix -> leaves_alone ix.
Proof. intros Hix b b'. rewrite Hix. by intros [= ->]. Qed.

(** * Theorems *)

(** The burn-all sentinel never survives by accident: on a faithfully tagged
    bundle, resolving it succeeds exactly when the bundle has no sentinel, or one
    alone on its last redemption whose literal remainder is positive and fits, the
    maximum only under the guard; the result is again faithful to its bytes, equal
    to the bundle except for that one amount, and encodes the request. *)
Theorem resolveBurnAllSentinel_exact kvault ts requested guarded
  (Htags : Forall (faithful kvault) ts) :
  match resolveBurnAllSentinel ts requested guarded with
  | Ok out =>
      resolvable ts requested guarded /\ Forall (faithful kvault) out /\ Forall2 rewritten ts out
      /\ ((out = ts /\ List.filter is_sentinel ts = []) \/ encodedBaseUnits out = requested)
      /\ (Exists (fun t => is_sentinel t = true) out -> guarded = true)
  | Err _ => ~ resolvable ts requested guarded
  end.
Proof. by apply resolve_spec. Qed.

Lemma resolveBurnAllSentinel_exact_witness :
  exists out, resolveBurnAllSentinel [sample_redemption 5; sample_redemption KVAULT_BURN_ALL_SHARES_SENTINEL]
    12 false = Ok out
    /\ encodedBaseUnits out = 12 /\ Forall (faithful "kvault") out.
Proof.
  pose proof (resolveBurnAllSentinel_exact "kvault"
    [sample_redemption 5; sample_redemption KVAULT_BURN_ALL_SHARES_SENTINEL] 12 false) as H.
  destruct (resolveBurnAllSentinel _ _ _) as [out|] eqn:E; [|vm_compute in E; discriminate].
  destruct H as (_ & Hf & _ & Hs & _).
  { repeat constructor; eexists; split; vm_compute; reflexivity. }
  exists out. split; [reflexivity|]. split; [|exact Hf].
  destruct Hs as [[_ Hn]|Hs]; [vm_compute in Hn; discriminate|exact Hs].
Defined.
