(* ===== verification/KaminoPlan.v ===== *)
(** * Kamino vault exits: the plan

    [packages/sdp-kamino/src/sdk.ts] ([bindVault], [buildKaminoWithdrawPlan]) with
    [asset-identity.ts] and [lookup-table.ts], as a program over the calls it
    makes: the RPC, the [klend-sdk] client and the caller's [assertActive]. The
    numbers of [decimal.js] are the class [DecimalKit]. The reads of one
    [Promise.all] are made one after the other. *)
From Stdlib Require Import Ascii String ZArith Lia.
From stdpp Require Import base list strings gmap.
From S2P Require Import Prelude Text Amount PolicyTypes KaminoWithdraw.
Import SolanaAmount KaminoAmount.

Local Open Scope string_scope.
Local Open Scope Z_scope.
Local Open Scope sdp_scope.

Class DecimalKit := {
  Decimal : Type;
  newDecimal : string -> result Decimal;
  isFinite : Decimal -> bool;
  isNegative : Decimal -> bool;
  decimal_max : Decimal -> Decimal -> Decimal;
}.

(** The state of a vault as read by the SDK; the numbers as [String] prints them. *)
Record VaultState := mkVaultState {
  tokenMint : option string;
  sharesMint : option string;
  sharesMintDecimals : string;
  vaultLookupTable : option string;
  withdrawalPenaltyLamports : string;
  withdrawalPenaltyBps : string;
}.

Record KaminoRuntime := mkRuntime { runtime_cluster : SolanaCluster; rpcUrl : string }.

Record KaminoWithdrawInput := mkWithdrawInput {
  wi_vault : string;
  wi_owner : string;
  wi_rentPayer : option string;
  wi_shares : string;
  wi_rentRefundTo : option string;
  wi_slot : Z;
}.

Record KaminoVaultAssetIdentity := mkIdentity { depositTokenMint : string; shareMint : string }.

(** What [withdrawIxs] returns; an entry can be missing. *)
Record WithdrawBundle := mkBundle {
  unstakeFromFarmIfNeededIxs : option (list (option Instruction));
  withdrawIxs : option (list (option Instruction));
  postWithdrawIxs : option (list (option Instruction));
}.

Section Plan.
Context `{TokenKit} `{DecimalKit} {Reserves : Type}.

(** The state of the shares the SDK is told to plan with. *)
Record SharesState := mkSharesState {
  userSharesAta : string;
  ataBalance : Decimal;
  farmBalance : Decimal;
  totalShares : Decimal;
}.

Record WithdrawRequest := mkRequest {
  rq_owner : string;
  rq_shares : Decimal;
  rq_slot : Z;
  rq_reserves : Reserves;
  rq_payer : string;
  rq_penaltyLamports : Decimal;
  rq_penaltyBps : Decimal;
  rq_sharesState : option SharesState;
}.

Inductive plan_call : Type :=
| AssertActive
| GetVaultState (vault : string)
| LoadVaultProgram (vault : string)
| GetTokenAccountsByOwner (owner mint : string)
| LoadVaultReserves
| FetchGlobalConfig
| FetchLookupTable (table : string)
| ExposesUserSharesState
| WithdrawIxs (request : WithdrawRequest).

Definition plan_response (c : plan_call) : Type :=
  match c with
  | AssertActive => unit
  | GetVaultState _ => VaultState
  | LoadVaultProgram _ => string
  | GetTokenAccountsByOwner _ _ => option json
  | LoadVaultReserves => Reserves
  | FetchGlobalConfig => option (string * string)
  | FetchLookupTable _ => list (string * list string)
  | ExposesUserSharesState => bool
  | WithdrawIxs _ => WithdrawBundle
  end.

Abbreviation plan_prog := (prog plan_response).
Abbreviation plan_event := (event plan_response).

Definition sdk (c : plan_call) : plan_prog (plan_response c) := call c.

Definition settled {A} (r : result A) : plan_prog A :=
  match r with Ok a => Ret a | Err e => Throw e end.

Definition vaultUnreadable (vault : string) (c : SolanaCluster) (cause : jserr) : jserr :=
  CodedError "SdpKaminoError" "VAULT_UNREADABLE"
    ("Kamino vault " ++ vault ++ " could not be read on " ++ cluster_text c ++ ". "
     ++ "Check that the RPC endpoint serves that cluster — a mismatched RPC reports a missing vault, not a connection error.")
    (Some cause).

Definition requiredMintAddress (field : string) (value : option string) : result string :=
  let raw := text (trim (chars (default "" value))) in
  match checkAddress raw with
  | Ok _ => Ok raw
  | Err cause =>
      Err (CodedError "SdpKaminoError" "VAULT_UNREADABLE"
             ("Kamino vault state did not contain a valid " ++ field) (Some cause))
  end.

Definition vaultAssetIdentityFromState (state : VaultState) : result KaminoVaultAssetIdentity :=
  let? deposit := requiredMintAddress "tokenMint" (tokenMint state) in
  let? share := requiredMintAddress "sharesMint" (sharesMint state) in
  Ok (mkIdentity deposit share).

Definition bindVault (runtime : KaminoRuntime) (vault : string)
    : plan_prog (VaultState * KaminoVaultAssetIdentity) :=
  let! _ := sdk AssertActive in
  let! state := catch (sdk (GetVaultState vault))
    (fun cause => Throw (vaultUnreadable vault (runtime_cluster runtime) cause)) in
  let! _ := sdk AssertActive in
  let! boundProgram := sdk (LoadVaultProgram vault) in
  if negb (String.eqb boundProgram (KAMINO_KVAULT_PROGRAM_IDS (runtime_cluster runtime))) then
    Throw (vaultUnreadable vault (runtime_cluster runtime)
             (NonError "vault bound to the wrong kvault program"))
  else
    let! identity := settled (vaultAssetIdentityFromState state) in
    Ret (state, identity).

Definition toDecimal (value label : string) : result Decimal :=
  if negb (isDecimalString value) then Err (invalidAmount label value)
  else
    let? parsed := newDecimal value in
    if negb (isFinite parsed) || isNegative parsed then Err (invalidAmount label value)
    else Ok parsed.

Definition requireNonNegativeFiniteDecimal (label value : string) : result Decimal :=
  let refusal := "Kamino " ++ label ++ " was not a finite non-negative decimal" in
  match newDecimal value with
  | Err cause => Err (CodedError "SdpKaminoError" "VAULT_UNREADABLE" refusal (Some cause))
  | Ok parsed =>
      if negb (isFinite parsed) || isNegative parsed then Err (VAULT_UNREADABLE refusal)
      else Ok parsed
  end.

Definition maximum_penalty (what vault global : string) : result Decimal :=
  let? a := requireNonNegativeFiniteDecimal ("vault withdrawal penalty " ++ what) vault in
  let? b := requireNonNegativeFiniteDecimal ("global withdrawal penalty " ++ what) global in
  Ok (decimal_max a b).

Definition UNSET_LOOKUP_TABLE : string := "11111111111111111111111111111111".

(** [addressesByTable[table]] *)
Fixpoint table_entry (table : string) (l : list (string * list string)) : list string :=
  match l with
  | [] => []
  | (t, addresses) :: rest => if String.eqb t table then addresses else table_entry table rest
  end.

(** The tables found; an unreadable one counts as none. *)
Definition loadVaultLookupTableAddresses (lookupTableAddress : option string)
    : plan_prog (list (string * list string)) :=
  let table := default "" lookupTableAddress in
  if String.eqb table "" || String.eqb table UNSET_LOOKUP_TABLE then Ret []
  else
    catch
      (let! addressesByTable := sdk (FetchLookupTable table) in
       match table_entry table addressesByTable with
       | [] => Ret []
       | _ => Ret addressesByTable
       end)
      (fun _ => Ret []).

(** [(raw ?? []).filter(Boolean)] *)
Definition asInstructions (raw : option (list (option Instruction))) : list Instruction :=
  omap id (default [] raw).

Definition tagUnredeeming (r : WithdrawInstructionRole) (ix : Instruction)
    : RoleTaggedInstruction := mkTagged ix r None.

Definition tagWithdraw (kvault : string) (ix : Instruction) : RoleTaggedInstruction :=
  let shares := decodeKvaultWithdrawShares ix kvault in
  mkTagged ix (match shares with None => prepare | Some _ => withdraw end) shares.

Definition tagBundle (kvault : string) (bundle : WithdrawBundle) : list RoleTaggedInstruction :=
  ((tagUnredeeming unstake <$> asInstructions (unstakeFromFarmIfNeededIxs bundle))
   ++ (tagWithdraw kvault <$> asInstructions (withdrawIxs bundle))
   ++ (tagUnredeeming post <$> asInstructions (postWithdrawIxs bundle)))%list.

(** The consolidation and the guard go before the first redemption. *)
Definition guardBundle (decoded : list RoleTaggedInstruction) (before : list Instruction)
    : result (list RoleTaggedInstruction) :=
  let firstRedemptionIndex := findIndex is_redemption decoded in
  if Nat.ltb 0 (length before) && (firstRedemptionIndex =? -1) then
    Err (VAULT_UNREADABLE
      "Kamino produced no redemption instruction after preparing the withdrawal share balance.")
  else if Nat.ltb 0 (length before) then
    let k := Z.to_nat firstRedemptionIndex in
    Ok (take k decoded ++ (tagUnredeeming prepare <$> before) ++ drop k decoded)%list
  else Ok decoded.

(** Everything after the SDK answered. *)
Definition finishWithdrawPlan (cluster : SolanaCluster) (input : KaminoWithdrawInput)
    (state : VaultState) (identity : KaminoVaultAssetIdentity) (shareDecimals : Z)
    (acceptedShares : string) (requestedBaseUnits : Z)
    (shareAccounts : list ShareTokenAccountBalance) (consolidation : Consolidation)
    (lookupTables : list (string * list string)) (bundle : WithdrawBundle)
    : result KaminoInstructionPlan :=
  let decoded := tagBundle (KAMINO_KVAULT_PROGRAM_IDS cluster) bundle in
  let maximumBalanceGuard :=
    buildMaximumWithdrawalBalanceGuard requestedBaseUnits (default "" (sharesMint state))
      shareDecimals (wi_owner input) in
  let? guarded := guardBundle decoded
    (instructions consolidation ++ option_list maximumBalanceGuard)%list in
  let? tagged := resolveBurnAllSentinel guarded requestedBaseUnits
    (match maximumBalanceGuard with Some _ => true | None => false end) in
  let encoded := encodedBaseUnits tagged in
  if negb (encoded =? requestedBaseUnits) then
    Err (VAULT_UNREADABLE
      ("Kamino withdraw instructions encode " ++ z_text encoded
       ++ " share base units where the accepted request is " ++ z_text requestedBaseUnits
       ++ "; refusing to build a plan whose ledger "
       ++ "record would not match what moves on chain."))
  else
    let createsShareAccount :=
      negb (existsb (fun a => String.eqb (address a) (shareAta consolidation)) shareAccounts) in
    let rentRefundTo :=
      if createsShareAccount then wi_rentPayer input else wi_rentRefundTo input in
    let close :=
      buildShareAccountCloseInstruction (shareAta consolidation) (wi_owner input) rentRefundTo
        (postConsolidationAtaBaseUnits consolidation) requestedBaseUnits
        (totalBaseUnits consolidation) in
    assertPlanTargetsCluster
      (mkPlan cluster ((instruction <$> tagged) ++ option_list close)%list
         (lookupTables.*1) (depositTokenMint identity) (shareMint identity)
         acceptedShares createsShareAccount).

(** The [getUserSharesState] the SDK is given while it builds. *)
Definition consolidatedState (c : Consolidation) (shareDecimals : Z) : result (option SharesState) :=
  match instructions c with
  | [] => Ok None
  | _ =>
      let? ataText := formatDecimalAmount (postConsolidationAtaBaseUnits c) shareDecimals in
      let? postConsolidationAta := newDecimal ataText in
      let? totalText := formatDecimalAmount (totalBaseUnits c) shareDecimals in
      let? total := newDecimal totalText in
      let? zero := newDecimal "0" in
      Ok (Some (mkSharesState (shareAta c) postConsolidationAta zero total))
  end.

Definition buildKaminoWithdrawPlan (runtime : KaminoRuntime) (input : KaminoWithdrawInput)
    : plan_prog KaminoInstructionPlan :=
  let cluster := runtime_cluster runtime in
  let! (state, identity) := bindVault runtime (wi_vault input) in
  let! shareDecimals := settled (mintDecimals (sharesMintDecimals state) "sharesMintDecimals") in
  let! acceptedShares := settled (acceptAtMintScale "shares" (wi_shares input) shareDecimals) in
  if isZeroAmount acceptedShares then Throw (invalidAmount "shares" (wi_shares input))
  else
    let! requestedBaseUnits := settled (parseDecimalAmount acceptedShares shareDecimals) in
    let! shares := settled (toDecimal acceptedShares "shares") in
    let! _ := sdk AssertActive in
    let! entries := sdk (GetTokenAccountsByOwner (wi_owner input) (shareMint identity)) in
    let! reserves := sdk LoadVaultReserves in
    let! globalConfig := sdk FetchGlobalConfig in
    let! lookupTables := loadVaultLookupTableAddresses (vaultLookupTable state) in
    let! _ := sdk AssertActive in
    let! shareAccounts := settled (parseShareTokenAccountBalances entries) in
    let! consolidation := settled (buildShareAccountConsolidation
      (mkConsolidationInput requestedBaseUnits (shareMint identity) shareDecimals
         (wi_owner input) (wi_rentPayer input) shareAccounts)) in
    match globalConfig with
    | None => Throw (vaultUnreadable (wi_vault input) cluster
                       (NonError "kvault global config not found"))
    | Some (globalLamports, globalBps) =>
        let! _ := sdk AssertActive in
        let! penaltyLamports := settled
          (maximum_penalty "lamports" (withdrawalPenaltyLamports state) globalLamports) in
        let! penaltyBps := settled
          (maximum_penalty "bps" (withdrawalPenaltyBps state) globalBps) in
        let! exposed := sdk ExposesUserSharesState in
        if negb exposed then
          Throw (vaultUnreadable (wi_vault input) cluster
            (NonError "klend-sdk no longer exposes getUserSharesState required for safe consolidation"))
        else
          let! sharesState := settled (consolidatedState consolidation shareDecimals) in
          let! bundle := sdk (WithdrawIxs
            (mkRequest (wi_owner input) shares (wi_slot input) reserves
               (default (wi_owner input) (wi_rentPayer input)) penaltyLamports penaltyBps
               sharesState)) in
          let! _ := sdk AssertActive in
          settled (finishWithdrawPlan cluster input state identity shareDecimals acceptedShares
                     requestedBaseUnits shareAccounts consolidation lookupTables bundle)
    end.
End Plan.

(** ** What is promised about a plan *)

Section Promises.
Context `{TokenKit} `{DecimalKit} {Reserves : Type}.

Abbreviation tr_event := (event (plan_response (Reserves := Reserves))).

Definition answer (c : plan_call) (r : plan_response c) : tr_event := Ev c (Ok r).

(** Those of the withdrawal proper that redeem shares. *)
Definition redeems (kvault : string) (ix : Instruction) : bool :=
  match decodeKvaultWithdrawShares ix kvault with Some _ => true | None => false end.

Definition bystanders (kvault : string) (bundle : WithdrawBundle) : list Instruction :=
  (asInstructions (unstakeFromFarmIfNeededIxs bundle)
   ++ List.filter (fun ix => negb (redeems kvault ix)) (asInstructions (withdrawIxs bundle))
   ++ asInstructions (postWithdrawIxs bundle))%list.

(** A run that built [plan]: what it read and what it computed. *)
Record built (runtime : KaminoRuntime) (input : KaminoWithdrawInput) (tr : list tr_event)
    (plan : KaminoInstructionPlan) (state : VaultState) (identity : KaminoVaultAssetIdentity)
    (decimals requested : Z) (accepted : string) (entries : option json)
    (shareAccounts : list ShareTokenAccountBalance) (consolidation : Consolidation)
    (lookupTables : list (string * list string)) (request : WithdrawRequest)
    (bundle : WithdrawBundle) : Prop := {
  built_state : answer (GetVaultState (wi_vault input)) state ∈ tr;
  built_identity : vaultAssetIdentityFromState state = Ok identity;
  built_decimals : mintDecimals (sharesMintDecimals state) "sharesMintDecimals" = Ok decimals;
  built_accepted : acceptAtMintScale "shares" (wi_shares input) decimals = Ok accepted;
  built_positive : isZeroAmount accepted = false;
  built_requested : parseDecimalAmount accepted decimals = Ok requested;
  built_entries :
    answer (GetTokenAccountsByOwner (wi_owner input) (shareMint identity)) entries ∈ tr;
  built_accounts : parseShareTokenAccountBalances entries = Ok shareAccounts;
  built_consolidation : buildShareAccountConsolidation
    (mkConsolidationInput requested (shareMint identity) decimals (wi_owner input)
       (wi_rentPayer input) shareAccounts) = Ok consolidation;
  built_bundle : answer (WithdrawIxs request) bundle ∈ tr;
  built_plan : finishWithdrawPlan (runtime_cluster runtime) input state identity decimals accepted
    requested shareAccounts consolidation lookupTables bundle = Ok plan;
}.
End Promises.

(** ** A concrete exit

    An owner with two share accounts leaves a devnet vault completely. *)
Module Demo.
Definition kvault : string := KAMINO_KVAULT_PROGRAM_IDS devnet.

Definition kit : TokenKit := {|
  TOKEN_PROGRAM_ADDRESS := "TokenkegQfeZyiNwAJbNbGKPFXCWuBvf9Ss623VQ5DA";
  findAssociatedTokenPda owner mint program := owner ++ ":" ++ mint;
  getCreateAssociatedTokenIdempotentInstruction c program :=
    mkInstruction "ATokenGPvbdGVxr1b2hvZbsiqW5xWH25efTNsLJA8knL"
      [create_payer c; create_ata c; create_owner c; create_mint c] (Some [1]);
  getTransferCheckedInstruction t program :=
    mkInstruction program [transfer_source t; transfer_mint t; transfer_destination t;
                           transfer_authority t]
      (Some [12; transfer_amount t; transfer_decimals t]);
  getCloseAccountInstruction c program :=
    mkInstruction program [close_account c; close_destination c; close_owner c] (Some [9]);
  checkAddress raw := if String.eqb raw "" then Err (PlainError "not an address") else Ok tt
|}.

Definition decimal_kit : DecimalKit := {|
  Decimal := string;
  newDecimal := Ok;
  isFinite _ := true;
  isNegative _ := false;
  decimal_max a _ := a
|}.

Definition ata : string := "owner:mint".

Definition transfer_ (source destination : string) (n : Z) (b : gmap string Z)
    : option (gmap string Z) :=
  match b !! source, b !! destination with
  | Some x, Some y =>
      if n <=? x
      then Some (if String.eqb source destination then b
                 else <[destination := y + n]> (<[source := x - n]> b))
      else None
  | _, _ => None
  end.

Definition ledger : TokenLedger := fun ix b =>
  match decodeKvaultWithdrawShares ix kvault with
  | Some n =>
      match b !! ata with
      | Some x =>
          if n =? KVAULT_BURN_ALL_SHARES_SENTINEL then Some (<[ata := 0]> b)
          else if n <=? x then Some (<[ata := x - n]> b) else None
      | None => None
      end
  | None =>
      match data ix, accounts ix with
      | Some [1], [_; account; _; _] =>
          Some (match b !! account with Some _ => b | None => <[account := 0]> b end)
      | Some [12; n; _], [source; _; destination; _] => transfer_ source destination n b
      | Some [9], [account; _; _] =>
          match b !! account with
          | Some x => if x =? 0 then Some (delete account b) else None
          | None => None
          end
      | _, _ => Some b
      end
  end.

Definition entry (pubkey units : string) : json :=
  JObject [("pubkey", JString pubkey);
           ("account", JObject [("data", JObject [("parsed", JObject [("info",
              JObject [("tokenAmount", JObject [("amount", JString units)])])])])])].

Definition state : VaultState := mkVaultState (Some "deposit") (Some "mint") "6" None "0" "0".

Definition burn_all : Instruction :=
  mkInstruction kvault ["owner"; ata]
    (Some ([183; 18; 70; 156; 148; 109; 161; 34] ++ repeat 255 8)%list).

Definition bundle : WithdrawBundle :=
  mkBundle None (Some [Some (mkInstruction "MemoSq4gqABAXKb96qnH8TysNcWxMyWCqXgDLGmfcHr" [] None);
                       Some burn_all]) None.

Definition shareEntries : option json := Some (JArray [entry ata "5"; entry "aux" "7"]).

Definition answers (c : @plan_call decimal_kit unit) (s : unit)
    : result (@plan_response decimal_kit unit c) * unit :=
  (match c as c' return result (@plan_response decimal_kit unit c') with
   | AssertActive => Ok tt
   | GetVaultState _ => Ok state
   | LoadVaultProgram _ => Ok kvault
   | GetTokenAccountsByOwner _ _ => Ok shareEntries
   | LoadVaultReserves => Ok tt
   | FetchGlobalConfig => Ok (Some ("0", "0"))
   | FetchLookupTable _ => Ok []
   | ExposesUserSharesState => Ok true
   | WithdrawIxs _ => Ok bundle
   end, s).

Definition runtime : KaminoRuntime := mkRuntime devnet "https://rpc".
Definition input : KaminoWithdrawInput := mkWithdrawInput "vault" "owner" None "0.000012" None 7.

Definition exit_run :=
  run answers (@buildKaminoWithdrawPlan kit decimal_kit unit runtime input) tt.

Definition balances : gmap string Z := {[ata := 5; "aux" := 7]}.

(** The answers of a trace, by call. *)
Definition state_of (e : event (@plan_response decimal_kit unit)) : option VaultState :=
  match e with Ev (GetVaultState _) (Ok s) => Some s | _ => None end.
Definition entries_of (e : event (@plan_response decimal_kit unit)) : option (option json) :=
  match e with Ev (GetTokenAccountsByOwner _ _) (Ok j) => Some j | _ => None end.
Definition bundle_of (e : event (@plan_response decimal_kit unit)) : option WithdrawBundle :=
  match e with Ev (WithdrawIxs _) (Ok b) => Some b | _ => None end.
End Demo.

(** * Lemmas *)

Section Runs.
Context `{TokenKit} `{DecimalKit} {Reserves : Type}.

Lemma settled_runs {A B} (r : result A) (f : A -> prog (plan_response (Reserves := Reserves)) B) Q :
  (forall a, r = Ok a -> all_runs (f a) Q) -> (forall e, Q [] (Err e)) ->
  all_runs (bind (settled r) f) Q.
Proof. intros Hok Herr. destruct r as [a|e]; simpl; auto. Qed.

Lemma sdk_runs {B} c (f : plan_response c -> prog (plan_response (Reserves := Reserves)) B) Q :
  (forall r, all_runs (f r) (fun tr res => Q (answer c r :: tr) res)) ->
  (forall e, Q [Ev c (Err e)] (Err e)) -> all_runs (bind (sdk c) f) Q.
Proof. intros Hok Herr [r|e]; simpl; [apply Hok|apply Herr]. Qed.

Lemma any_runs {A B} (m : prog (plan_response (Reserves := Reserves)) A)
    (f : A -> prog (plan_response (Reserves := Reserves)) B) Q :
  (forall a tr, all_runs (f a) (fun tr' res => Q (tr ++ tr')%list res)) ->
  (forall e tr, Q tr (Err e)) -> all_runs (bind m f) Q.
Proof.
  intros Hok Herr. rewrite all_runs_bind. eapply all_runs_mono; [|apply all_runs_true].
  intros tr [a|e] _; auto.
Qed.

Lemma bindVault_runs {B} runtime vault f Q :
  (forall tr state identity, answer (GetVaultState vault) state ∈ tr ->
     vaultAssetIdentityFromState state = Ok identity ->
     all_runs (f (state, identity)) (fun tr' res => Q (tr ++ tr')%list res)) ->
  (forall tr e, Q tr (Err e)) ->
  all_runs (bind (bindVault (Reserves := Reserves) runtime vault) f) (Q : _ -> result B -> Prop).
Proof.
  intros Hok Herr. unfold bindVault. cbn [bind sdk call]. intros [u1|e]; cbn [bind all_runs]; [|auto].
  cbn [catch]. intros [state|e]; cbn [bind all_runs catch]; [|auto].
  intros [u2|e]; cbn [bind all_runs]; [|auto]. intros [p|e]; cbn [bind all_runs]; [|auto].
  destruct (negb _); cbn [bind all_runs]; [auto|].
  destruct (vaultAssetIdentityFromState state) as [identity|e] eqn:E; cbn [bind all_runs settled]; [|auto].
  specialize (Hok [Ev AssertActive (Ok u1); Ev (GetVaultState vault) (Ok state);
    Ev AssertActive (Ok u2); Ev (LoadVaultProgram vault) (Ok p)] state identity).
  apply Hok; [|done]. right. left.
Qed.

Lemma withdraw_built runtime input :
  all_runs (buildKaminoWithdrawPlan (Reserves := Reserves) runtime input) (fun tr res =>
    match res with
    | Ok plan => exists state identity decimals requested accepted entries bs c lookup request bundle,
        built runtime input tr plan state identity decimals requested accepted entries bs c lookup
          request bundle
    | Err _ => True
    end).
Proof.
  unfold buildKaminoWithdrawPlan. apply bindVault_runs; [|done].
  intros tr0 state identity Hstate Hid.
  apply settled_runs; [|done]. intros decimals Hdec. apply settled_runs; [|done].
  intros accepted Hacc. destruct (isZeroAmount accepted) eqn:Hz; [done|].
  apply settled_runs; [|done]. intros requested Hreq. apply settled_runs; [|done].
  intros shares _. apply sdk_runs; [|done]. intros [].
  apply sdk_runs; [|done]. intros entries. apply sdk_runs; [|done]. intros reserves.
  apply sdk_runs; [|done]. intros config. apply any_runs; [|done]. intros lookup trl.
  apply sdk_runs; [|done]. intros []. apply settled_runs; [|done]. intros bs Hbs.
  apply settled_runs; [|done]. intros c Hc. destruct config as [[gl gb]|]; [|done].
  apply sdk_runs; [|done]. intros []. apply settled_runs; [|done]. intros pl _.
  apply settled_runs; [|done]. intros pb _. apply sdk_runs; [|done]. intros [|]; [|done].
  cbn [negb]. apply settled_runs; [|done]. intros sharesState _.
  apply sdk_runs; [|done]. intros bundle. apply sdk_runs; [|done]. intros [].
  destruct (finishWithdrawPlan _ _ _ _ _ _ _ _ _ _ _) as [plan|e] eqn:Hfin; simpl; [|done].
  eexists state, identity, decimals, requested, accepted, entries, bs, c, lookup, _, bundle.
  split; try done.
  - apply elem_of_app. by left.
  - apply elem_of_app. right. right. left.
  - apply elem_of_app. right. do 4 right. apply elem_of_app. right. do 3 right. left.
Qed.
End Runs.

(** ** The finished plan *)

Section Finish.
Context `{TokenKit} `{DecimalKit}.

Lemma tagBundle_faithful kvault bundle : Forall (faithful kvault) (tagBundle kvault bundle).
Proof.
  unfold tagBundle. rewrite !Forall_app, !Forall_fmap. split_and!; apply Forall_forall; intros ix _.
  1,3: done.
  unfold compose, tagWithdraw, faithful. cbn [role sharesBaseUnits instruction].
  destruct (decodeKvaultWithdrawShares ix kvault) as [n|]; [by exists n|done].
Qed.

(** A tagged instruction of the bundle redeems, or is one of the bystanders. *)
Lemma tagBundle_role kvault bundle t :
  t ∈ tagBundle kvault bundle ->
  (role t = withdraw /\ instruction t ∈ asInstructions (withdrawIxs bundle))
  \/ (role t <> withdraw /\ instruction t ∈ bystanders kvault bundle).
Proof.
  unfold tagBundle, bystanders. rewrite !elem_of_app, !list_elem_of_fmap.
  intros [(ix & -> & Hin)|[(ix & -> & Hin)|(ix & -> & Hin)]].
  - right. split; [done|]. by left.
  - unfold tagWithdraw. cbn [role instruction].
    destruct (decodeKvaultWithdrawShares ix kvault) eqn:E; [by left|right].
    split; [done|]. right. left. apply list_elem_of_In, filter_In.
    split; [by apply list_elem_of_In|]. unfold redeems. by rewrite E.
  - right. split; [done|]. by do 2 right.
Qed.

(** Where the consolidation and the guard go. *)
Lemma guardBundle_split decoded before out :
  guardBundle decoded before = Ok out ->
  exists A R, decoded = (A ++ R)%list
    /\ out = (A ++ (tagUnredeeming prepare <$> before) ++ R)%list
    /\ Forall (fun t => role t <> withdraw) A
    /\ (before = [] \/ exists x R', R = x :: R' /\ role x = withdraw).
Proof.
  unfold guardBundle. destruct (Nat.ltb_spec 0 (length before)) as [Hlt|Hle]; cbn [andb].
  - unfold findIndex. destruct (findIndexFrom_spec is_redemption decoded 0 ltac:(lia))
      as [[-> _]|(A & x & R & -> & Hx & HA & ->)]; [done|].
    destruct (_ =? _); [done|]. intros [= <-]. exists A, (x :: R). split_and!; [done| | |].
    + rewrite Z.add_0_l, Nat2Z.id, take_app_length, drop_app_length. done.
    + eapply Forall_impl; [exact HA|]. intros t Ht. by apply bool_decide_eq_false in Ht.
    + right. exists x, R. split; [done|]. by apply bool_decide_eq_true in Hx.
  - intros [= <-]. exists [], decoded. destruct before; [|simpl in Hle; lia]. split_and!; try done. by left.
Qed.

Lemma rewritten_id ts out :
  Forall (fun t => is_sentinel t = false) ts -> Forall2 rewritten ts out -> out = ts.
Proof.
  intros Hn Hr. induction Hr as [|t t' ts out Ht Hr IH]; [done|].
  apply Forall_cons in Hn as [Hn1 Hn]. rewrite IH by done.
  destruct Ht as [[_ ->]|[Hs _]]; [done|congruence].
Qed.

Lemma faithful_unredeeming kvault ts :
  Forall (faithful kvault) ts -> Forall (fun t => role t <> withdraw) ts ->
  Forall (fun t => is_sentinel t = false) ts /\ encodedBaseUnits ts = 0.
Proof.
  induction 1 as [|t ts Ht _ IH]; intros Hr; [by split|].
  apply Forall_cons in Hr as [Hr1 Hr]. destruct (IH Hr) as [IH1 IH2].
  assert (sharesBaseUnits t = None) as E by (unfold faithful in Ht; by destruct (role t)).
  split; [constructor; [|done]|rewrite encoded_cons, IH2, E; done].
  apply bool_decide_eq_false. by rewrite E.
Qed.

Lemma assertTargets_ok c ixs :
  assertTargets c ixs = Ok tt <-> Forall (fun ix => permitted c (programAddress ix) = true) ixs.
Proof.
  induction ixs as [|ix ixs IH]; cbn [assertTargets]; [done|]. rewrite Forall_cons.
  destruct (permitted c (programAddress ix)) eqn:E.
  - rewrite IH. tauto.
  - split; [done|]. by intros [? _].
Qed.

Lemma instruction_prepare (ixs : list Instruction) : instruction <$> (tagUnredeeming prepare <$> ixs) = ixs.
Proof. induction ixs as [|ix ixs IH]; [done|]. cbn. by rewrite IH. Qed.

(** What a plan that was finished is made of. *)
Record finished (cluster : SolanaCluster) (owner shareMint_ : string) (decimals requested : Z)
    (consolidation : Consolidation) (bundle : WithdrawBundle) (plan : KaminoInstructionPlan)
    (A R : list RoleTaggedInstruction) (close : option Instruction) : Prop := {
  finished_plan : plan_instructions plan
    = ((instruction <$> A)
       ++ (instructions consolidation
           ++ option_list (buildMaximumWithdrawalBalanceGuard requested shareMint_ decimals owner))
       ++ (instruction <$> R) ++ option_list close)%list;
  finished_first : Forall (fun t => role t <> withdraw /\ t ∈ tagBundle (KAMINO_KVAULT_PROGRAM_IDS cluster) bundle) A;
  finished_faithful : Forall (faithful (KAMINO_KVAULT_PROGRAM_IDS cluster)) R;
  finished_rewritten : exists R0, (A ++ R0)%list = tagBundle (KAMINO_KVAULT_PROGRAM_IDS cluster) bundle
    /\ Forall2 rewritten R0 R
    /\ ((instructions consolidation
          ++ option_list (buildMaximumWithdrawalBalanceGuard requested shareMint_ decimals owner))%list = []
        \/ exists x R', R0 = x :: R' /\ role x = withdraw);
  finished_encoded : encodedBaseUnits R = requested;
  finished_guarded : Exists (fun t => is_sentinel t = true) R ->
    requested = KVAULT_BURN_ALL_SHARES_SENTINEL;
  finished_close : exists refund, close = buildShareAccountCloseInstruction (shareAta consolidation) owner refund
    (postConsolidationAtaBaseUnits consolidation) requested (totalBaseUnits consolidation);
  finished_permitted :
    Forall (fun ix => permitted cluster (programAddress ix) = true) (plan_instructions plan);
}.

Lemma finish_finished cluster input state identity decimals accepted requested bs c lookup bundle plan :
  finishWithdrawPlan cluster input state identity decimals accepted requested bs c lookup bundle
  = Ok plan ->
  plan_accepted plan = accepted /\ plan_shareMint plan = shareMint identity
  /\ exists A R close, finished cluster (wi_owner input) (default "" (sharesMint state)) decimals
       requested c bundle plan A R close.
Proof.
  unfold finishWithdrawPlan. cbv zeta. set (kvault := KAMINO_KVAULT_PROGRAM_IDS cluster).
  set (guard := buildMaximumWithdrawalBalanceGuard _ _ _ _).
  set (before := (instructions c ++ option_list guard)%list).
  assert (Hdf := tagBundle_faithful kvault bundle).
  destruct (guardBundle (tagBundle kvault bundle) before) as [guarded|] eqn:Hg; [|done]. cbn [result_bind].
  destruct (guardBundle_split _ _ _ Hg) as (A & R & Hdec & -> & HA & Hwhere).
  rewrite Hdec, Forall_app in Hdf. destruct Hdf as [HfA HfR].
  assert (Forall (faithful kvault) (A ++ (tagUnredeeming prepare <$> before) ++ R)) as Hf.
  { rewrite !Forall_app. split_and!; [done| |done]. rewrite Forall_fmap. by apply Forall_forall. }
  pose proof (resolve_spec kvault _ requested (match guard with Some _ => true | None => false end) Hf) as Hres.
  destruct (resolveBurnAllSentinel _ _ _) as [tagged|]; [|done]. cbn [result_bind].
  destruct Hres as (_ & Hft & Hrw & Henc & Hsent).
  destruct (Z.eqb_spec (encodedBaseUnits tagged) requested) as [Hsum|]; cbn [negb]; [|done].
  set (close := buildShareAccountCloseInstruction _ _ _ _ _ _).
  unfold assertPlanTargetsCluster. cbn [plan_cluster plan_instructions].
  destruct (assertTargets _ _) as [[]|] eqn:Hperm; cbn [result_bind]; [|done]. intros [= <-].
  split_and!; [done|done|].
  apply Forall2_app_inv_l in Hrw as (A' & R'' & HrA & HrR & ->).
  apply Forall2_app_inv_l in HrR as (P' & R' & HrP & HrR & ->).
  destruct (faithful_unredeeming kvault A HfA HA) as [HnA HsA].
  apply rewritten_id in HrA as ->; [|done].
  assert (Forall (faithful kvault) (tagUnredeeming prepare <$> before)) as HfP
    by (rewrite Forall_fmap; by apply Forall_forall).
  destruct (faithful_unredeeming kvault _ HfP) as [HnP HsP];
    [rewrite Forall_fmap; by apply Forall_forall|].
  apply rewritten_id in HrP as ->; [|done].
  rewrite !Forall_app in Hft. destruct Hft as (_ & _ & HfR').
  exists A, R', close. split.
  - cbn [plan_instructions]. rewrite !fmap_app, instruction_prepare. unfold before.
    rewrite <- !app_assoc. done.
  - rewrite Forall_forall in *. intros t Ht. split; [by apply HA|]. fold kvault. rewrite Hdec.
    apply elem_of_app. by left.
  - done.
  - exists R. by fold kvault.
  - rewrite !encoded_app, HsA, HsP in Hsum. lia.
  - intros Hex. assert (match guard with Some _ => true | None => false end = true) as E.
    { apply Hsent. rewrite !Exists_app. by do 2 right. }
    unfold guard, buildMaximumWithdrawalBalanceGuard in E.
    destruct (Z.eqb_spec requested KVAULT_BURN_ALL_SHARES_SENTINEL); [done|discriminate].
  - by eexists.
  - by apply assertTargets_ok.
Qed.

(** The three stages of the bundle around the place where the own instructions go. *)
Lemma split_at_redemption (A R U W P : list RoleTaggedInstruction) x :
  (A ++ x :: R = U ++ W ++ P)%list -> role x = withdraw ->
  Forall (fun t => role t <> withdraw) U -> Forall (fun t => role t <> withdraw) P ->
  exists W1 W2, (A = U ++ W1)%list /\ (W = W1 ++ W2)%list /\ (x :: R = W2 ++ P)%list.
Proof.
  intros E Hx HU HP. rewrite Forall_forall in HU, HP.
  apply app_eq_inv in E as [(k & -> & E)|(k & -> & E)].
  - apply app_eq_inv in E as [(k' & -> & E)|(k' & -> & E)].
    + by exists k, k'.
    + exfalso. apply (HP x); [|done]. rewrite E. apply elem_of_app. right. left.
  - destruct k as [|y k].
    + exists [], W. by rewrite !app_nil_r.
    + injection E as <- _. destruct (HU x); [apply elem_of_app; right; left|done].
Qed.

Lemma rewritten_refl ts : Forall (fun t => is_sentinel t = false) ts -> Forall2 rewritten ts ts.
Proof. induction 1; constructor; [by left|done]. Qed.

Lemma tags_unredeeming kvault r ixs : r <> withdraw ->
  Forall (faithful kvault) (tagUnredeeming r <$> ixs) /\ Forall (fun t => role t <> withdraw) (tagUnredeeming r <$> ixs).
Proof.
  intros Hr. rewrite !Forall_fmap. split; apply Forall_forall; intros ix _; [|done].
  unfold compose, faithful. cbn. by destruct r.
Qed.

Lemma instruction_tags r (ixs : list Instruction) : instruction <$> (tagUnredeeming r <$> ixs) = ixs.
Proof. induction ixs as [|ix ixs IH]; [done|]. cbn. by rewrite IH. Qed.

(** The redemptions of a finished plan, on both sides of its own instructions. *)
Lemma staged kvault bundle A R0 R own :
  (A ++ R0)%list = tagBundle kvault bundle -> Forall2 rewritten R0 R ->
  Forall (fun t => role t <> withdraw) A -> Forall (faithful kvault) A -> Forall (faithful kvault) R ->
  own = [] \/ (exists x R', R0 = x :: R' /\ role x = withdraw) ->
  exists W1 W2,
    ((instruction <$> A) ++ own ++ (instruction <$> R))%list
    = (asInstructions (unstakeFromFarmIfNeededIxs bundle) ++ (instruction <$> W1) ++ own
       ++ (instruction <$> W2) ++ asInstructions (postWithdrawIxs bundle))%list
    /\ Forall2 rewritten (tagWithdraw kvault <$> asInstructions (withdrawIxs bundle)) (W1 ++ W2)
    /\ Forall (faithful kvault) (W1 ++ W2) /\ encodedBaseUnits (W1 ++ W2) = encodedBaseUnits R
    /\ (Exists (fun t => is_sentinel t = true) (W1 ++ W2) -> Exists (fun t => is_sentinel t = true) R)
    /\ (own <> [] -> Forall (fun t => role t <> withdraw) W1).
Proof.
  intros Hdec Hrw HA HfA HfR Hown. destruct (faithful_unredeeming kvault A HfA HA) as [HnA HsA].
  destruct (tags_unredeeming kvault unstake (asInstructions (unstakeFromFarmIfNeededIxs bundle)) ltac:(done)) as [HfU HrU].
  destruct (tags_unredeeming kvault post (asInstructions (postWithdrawIxs bundle)) ltac:(done)) as [HfP HrP].
  destruct (faithful_unredeeming kvault _ HfU HrU) as [HnU HsU]. destruct (faithful_unredeeming kvault _ HfP HrP) as [HnP HsP].
  unfold tagBundle in Hdec. set (U := tagUnredeeming unstake <$> _) in *. set (P := tagUnredeeming post <$> _) in *.
  set (W := tagWithdraw kvault <$> _) in *.
  assert (exists W1 W2, (A ++ R = U ++ (W1 ++ W2) ++ P)%list /\ Forall2 rewritten W (W1 ++ W2)
    /\ (own = [] \/ ((A = U ++ W1)%list /\ (R = W2 ++ P)%list))) as (W1 & W2 & E & HW & Hplace).
  { destruct Hown as [->|(x & R' & -> & Hx)].
    - assert (Forall2 rewritten (A ++ R0) (A ++ R)) as Hall by (apply Forall2_app; [by apply rewritten_refl|done]).
      rewrite Hdec in Hall. apply Forall2_app_inv_l in Hall as (U' & Q & HU & HQ & E).
      apply Forall2_app_inv_l in HQ as (W' & P' & HW & HP & ->). apply rewritten_id in HU as ->; [|done].
      apply rewritten_id in HP as ->; [|done]. exists [], W'. split_and!; [done|done|by left].
    - destruct (split_at_redemption _ _ _ _ _ _ Hdec Hx HrU HrP) as (W1 & W2 & -> & EW & E2). rewrite E2 in Hrw.
      apply Forall2_app_inv_l in Hrw as (W2' & P' & HW2 & HP & ->). apply rewritten_id in HP as ->; [|done].
      apply Forall_app in HnA as [_ Hn1]. exists W1, W2'. rewrite EW. split_and!.
      + by rewrite <- !app_assoc.
      + apply Forall2_app; [by apply rewritten_refl|done].
      + by right. }
  assert (Forall (faithful kvault) (A ++ R)) as Hf by by apply Forall_app. rewrite E, !Forall_app in Hf.
  destruct Hf as (_ & Hf12 & _). exists W1, W2. split_and!.
  - destruct Hplace as [->|[-> ->]].
    + cbn [app]. rewrite <- fmap_app, E, !fmap_app. unfold U, P. by rewrite !instruction_tags, <- !app_assoc.
    + rewrite !fmap_app. unfold U, P. by rewrite !instruction_tags, <- !app_assoc.
  - done.
  - by apply Forall_app.
  - assert (encodedBaseUnits (A ++ R) = encodedBaseUnits (U ++ (W1 ++ W2) ++ P)) as Hs by by rewrite E.
    rewrite (encoded_app A), (encoded_app U), (encoded_app (W1 ++ W2)), HsA, HsU, HsP in Hs. lia.
  - intros Hex. assert (Exists (fun t => is_sentinel t = true) (A ++ R)) as Hall.
    { rewrite E, Exists_app. right. rewrite Exists_app. by left. }
    apply Exists_app in Hall as [Hall|Hall]; [|done]. exfalso. apply Exists_exists in Hall as (t & Ht & Hs).
    rewrite Forall_forall in HnA. specialize (HnA t Ht). congruence.
  - intros Ho. destruct Hplace as [->|[-> _]]; [done|]. by apply Forall_app in HA as [_ ?].
Qed.

(** What a redemption is when it is in the plan, by its bytes. *)
Lemma resized_tag kvault ix t :
  from_option byte_array True (data ix) -> rewritten (tagWithdraw kvault ix) t -> faithful kvault t ->
  resized kvault ix (instruction t) /\ redeemed_shares kvault (instruction t) = sharesBaseUnits t.
Proof.
  intros Hb [[_ ->]|(Hs & Hrole & Hp & Ha & n & current & Hn & Hpos & Hc & Hc')] Hf.
  - split; [by left|]. cbn [tagWithdraw instruction sharesBaseUnits]. by rewrite decode_redeemed.
  - cbn [tagWithdraw instruction] in *. rewrite Hc in Hb. cbn [from_option] in Hb.
    apply bool_decide_eq_true in Hs. cbn [tagWithdraw sharesBaseUnits role] in Hs, Hrole. rewrite Hs in Hrole.
    unfold faithful in Hf. rewrite Hrole in Hf. destruct Hf as (m & Hm & Hd).
    assert (m = n) as -> by congruence. rewrite decode_redeemed in Hd by (rewrite Hc'; by apply writeShares_bytes).
    split; [|congruence]. right. rewrite <- decode_redeemed by by rewrite Hc. split_and!; [done| |done|done|].
    + exists n. unfold KVAULT_BURN_ALL_SHARES_SENTINEL in Hpos. split; [lia|done].
    + intros bytes bytes' E E'. assert (bytes = current) as -> by congruence.
      assert (bytes' = writeShares 8 0 n current) as -> by congruence. split; [by apply writeShares_length|].
      intros k [Hk|Hk]; [apply writeShares_before|apply writeShares_after]; lia.
Qed.

Lemma resized_tags kvault ixs ts :
  Forall (fun ix => from_option byte_array True (data ix)) ixs ->
  Forall2 rewritten (tagWithdraw kvault <$> ixs) ts -> Forall (faithful kvault) ts ->
  Forall2 (resized kvault) ixs (instruction <$> ts)
  /\ Forall (fun t => redeemed_shares kvault (instruction t) = sharesBaseUnits t) ts
  /\ total_redeemed kvault (instruction <$> ts) = encodedBaseUnits ts.
Proof.
  intros Hb. revert ts. induction Hb as [|ix ixs Hix Hb IH]; intros ts Hr Hf; inversion Hr as [|? t ? ts' Ht Hts]; subst.
  { split_and!; by constructor. }
  apply Forall_cons in Hf as [Hft Hf]. destruct (IH _ Hts Hf) as (H1 & H2 & H3).
  destruct (resized_tag _ _ _ Hix Ht Hft) as [H4 H5]. cbn [fmap list_fmap]. split_and!; [by constructor..|].
  rewrite encoded_cons. cbn [total_redeemed foldr]. rewrite H5. unfold total_redeemed in H3. by rewrite H3.
Qed.
End Finish.

(** ** What the plan does on chain *)

(** The token accounts a plan may touch: the redemption account first. *)
Definition owner_keys `{TokenKit} (mint owner : string) (bs : list ShareTokenAccountBalance)
    : list string :=
  share_ata owner mint :: (address <$> auxiliary (share_ata owner mint) bs).

(** What is relied on of the instructions the SDK returned. *)
Definition bundle_bytes (bundle : WithdrawBundle) : Prop :=
  Forall (fun ix => from_option byte_array True (data ix)) (asInstructions (withdrawIxs bundle)).

Lemma owner_keys_nodup `{TokenKit} mint owner bs :
  well_formed bs -> NoDup (owner_keys mint owner bs).
Proof.
  intros Hwf. apply NoDup_cons. split; [|by apply auxiliary_well_formed].
  intros (x & E & [_ Hne]%elem_of_auxiliary)%list_elem_of_fmap. by rewrite E in Hne.
Qed.

Lemma owner_keys_elem `{TokenKit} mint owner bs x : x ∈ bs -> address x ∈ owner_keys mint owner bs.
Proof.
  intros Hx. unfold owner_keys. destruct (decide (address x = share_ata owner mint)) as [->|Hne]; [left|right].
  apply list_elem_of_fmap_2, elem_of_auxiliary. done.
Qed.

Section OnChain.
Context `{TokenLaws mint owner decimals (KAMINO_KVAULT_PROGRAM_IDS cluster)}.
Abbreviation kvault := (KAMINO_KVAULT_PROGRAM_IDS cluster).

Lemma consolidation_burns requested payer bs c b b' :
  buildShareAccountConsolidation (mkConsolidationInput requested mint decimals owner payer bs) = Ok c ->
  well_formed bs -> (forall k, k ∈ owner_keys mint owner bs -> 0 <= default 0 (b !! k)) ->
  exec_all (instructions c) b = Some b' ->
  burns (owner_keys mint owner bs) 0 b b' /\ shareAta c = share_ata owner mint.
Proof.
  intros Hc Hwf Hb. assert (Hnd := owner_keys_nodup mint owner bs Hwf).
  assert (share_ata owner mint ∈ owner_keys mint owner bs) as Hata by left.
  unfold buildShareAccountConsolidation in Hc. cbn [ci_owner ci_shareMint ci_accounts
    ci_requestedBaseUnits ci_rentPayer] in Hc.
  destruct (_ <? _); [done|]. destruct (_ <? _); [done|].
  set (left0 := requested - _) in Hc. destruct (Z.leb_spec left0 0) as [Hle|Hgt].
  { injection Hc as <-. cbn [instructions exec_all shareAta]. intros [= <-]. split; [|done].
    by apply burns_refl. }
  match type of Hc with context [consolidateLoop ?i ?a ?l ?r] =>
    destruct (consolidateLoop i a l r) as [ixs left_] eqn:El end.
  destruct (negb _); [done|]. injection Hc as <-. cbn [instructions exec_all shareAta].
  intros He. split; [|done]. destruct (exec _ b) as [b1|] eqn:E1; [|done]. cbn [mbind option_bind] in He.
  apply (create_burns (mint := mint) (owner := owner) (decimals := decimals) (kvault := kvault)
    (owner_keys mint owner bs)) in E1; [|done..].
  change 0 with (0 + 0). eapply burns_trans; [exact E1|].
  match type of El with consolidateLoop ?i _ _ _ = _ =>
    apply (consolidateLoop_burns (mint := mint) (owner := owner) (decimals := decimals)
      (kvault := kvault) (owner_keys mint owner bs) Hnd Hata i bs left0); try reflexivity end.
  - apply Hwf.
  - intros x. apply owner_keys_elem.
  - lia.
  - apply E1.
  - rewrite El. exact He.
Qed.

Lemma redeeming_ok (P : Instruction -> Prop) bundle A R0 R :
  (A ++ R0)%list = tagBundle kvault bundle -> Forall2 rewritten R0 R ->
  Forall P (bystanders kvault bundle) -> bundle_bytes bundle ->
  Forall (fun t => 0 <= default 0 (sharesBaseUnits t)) R
  /\ Forall (fun t => role t <> withdraw -> P (instruction t)) R.
Proof.
  intros Hb Hr Hby Hbytes.
  assert (forall t, t ∈ R0 -> t ∈ tagBundle kvault bundle) as Hin
    by (intros t Ht; rewrite <- Hb; apply elem_of_app; by right).
  clear Hb. assert (Hf := tagBundle_faithful kvault bundle).
  induction Hr as [|t t' R0 R Ht Hr IH]; [done|].
  destruct IH as [IH1 IH2]; [intros; apply Hin; by right|].
  assert (t ∈ tagBundle kvault bundle) as Htb by (apply Hin; left).
  destruct Ht as [[_ ->]|(Hs & Hrole & _ & _ & n & current & Hn & Hpos & _)].
  - split; constructor; try done.
    + destruct (tagBundle_role _ _ _ Htb) as [[Hw Hi]|[Hw _]].
      * rewrite Forall_forall in Hf. specialize (Hf t Htb). unfold faithful in Hf. rewrite Hw in Hf.
        destruct Hf as (n & -> & Hd). cbn [from_option id].
        unfold bundle_bytes in Hbytes. rewrite Forall_forall in Hbytes.
        apply (decode_range (instruction t) kvault); [by apply Hbytes|done].
      * rewrite Forall_forall in Hf. specialize (Hf t Htb). unfold faithful in Hf.
        destruct (role t); try done; rewrite Hf; done.
    + intros Hw. destruct (tagBundle_role _ _ _ Htb) as [[? _]|[_ Hi]]; [done|].
      rewrite Forall_forall in Hby. by apply Hby.
  - split; constructor; try done.
    + rewrite Hn. cbn [from_option id]. lia.
    + intros Hw. exfalso. apply Hw. rewrite Hrole. rewrite Forall_forall in Hf.
      specialize (Hf t Htb). apply bool_decide_eq_true in Hs. unfold faithful in Hf.
      destruct (role t); congruence.
Qed.

Lemma first_bystanders (P : Instruction -> Prop) bundle A :
  Forall P (bystanders kvault bundle) ->
  Forall (fun t => role t <> withdraw /\ t ∈ tagBundle kvault bundle) A ->
  Forall P (instruction <$> A).
Proof.
  intros Hby HA. rewrite Forall_fmap. eapply Forall_impl; [exact HA|]. intros t [Hr Ht].
  destruct (tagBundle_role _ _ _ Ht) as [[? _]|[_ Hi]]; [done|].
  rewrite Forall_forall in Hby. by apply Hby.
Qed.

Lemma finished_burns requested payer bs c bundle plan A R close b b' :
  finished cluster owner mint decimals requested c bundle plan A R close ->
  buildShareAccountConsolidation (mkConsolidationInput requested mint decimals owner payer bs) = Ok c ->
  well_formed bs -> 0 < requested ->
  Forall leaves_alone (bystanders kvault bundle) -> bundle_bytes bundle ->
  supply b (owner_keys mint owner bs) ->
  exec_all (plan_instructions plan) b = Some b' -> burns (owner_keys mint owner bs) requested b b'.
Proof.
  intros [Hplan HA HfR (R0 & Hdec & Hrw & _) Henc Hguard [refund ->] _] Hc Hwf Hreq Hby Hbytes Hsup He.
  set (keys := owner_keys mint owner bs) in *.
  assert (Hnd := owner_keys_nodup mint owner bs Hwf). fold keys in Hnd.
  assert (share_ata owner mint ∈ keys) as Hata by left.
  destruct (redeeming_ok _ _ _ _ _ Hdec Hrw Hby Hbytes) as [Hpos Hal].
  rewrite Hplan, <- !app_assoc in He.
  apply exec_all_app_inv in He as (b0 & E0 & He).
  apply exec_bystanders in E0 as ->; [|by eapply first_bystanders].
  apply exec_all_app_inv in He as (b1 & E1 & He).
  destruct (consolidation_burns _ _ _ _ _ _ Hc Hwf (proj1 Hsup) E1) as [Hb1 Hshare]. fold keys in Hb1.
  assert (Hsup1 := burns_supply _ _ _ _ (Z.le_refl 0) Hsup Hb1).
  apply exec_all_app_inv in He as (b2 & E2 & He).
  assert (b2 = b1 /\ (requested = KVAULT_BURN_ALL_SHARES_SENTINEL ->
    b1 !! share_ata owner mint = Some KVAULT_BURN_ALL_SHARES_SENTINEL)) as [-> Hmax].
  { unfold buildMaximumWithdrawalBalanceGuard in E2.
    destruct (Z.eqb_spec requested KVAULT_BURN_ALL_SHARES_SENTINEL) as [E|E]; cbn [negb] in E2.
    - rewrite exec_one in E2. rename E2 into E3.
      apply (transfer_burns (mint := mint) (owner := owner) (decimals := decimals) (kvault := kvault)
        keys Hnd Hata) in E3 as [_ (x & Hx & Hle & Hid)]; [|lia|done|apply Hsup1].
      split; [by apply Hid|]. intros _. rewrite Hx. f_equal.
      pose proof (held_ge b1 _ keys x (proj1 Hsup1) Hata Hx). destruct Hsup1 as [_ Hheld]. lia.
    - injection E2 as <-. split; [done|]. intros. done. }
  apply exec_all_app_inv in He as (b3 & E3 & He).
  apply (redemptions_burn (mint := mint) (owner := owner) (decimals := decimals) (kvault := kvault)
    keys Hnd Hata) in E3; [|done|done|done|apply Hsup1|].
  2:{ intros Hex. specialize (Hguard Hex). split; [by rewrite Henc|by apply Hmax]. }
  rewrite Henc in E3.
  assert (burns keys 0 b3 b') as Hclose.
  { unfold buildShareAccountCloseInstruction in He. rewrite Hshare in He.
    destruct (negb _); [injection He as <-; apply burns_refl, E3|].
    destruct (negb _); [injection He as <-; apply burns_refl, E3|].
    rewrite exec_one in He. rename He into E4.
    eapply (close_burns (mint := mint) (owner := owner) (decimals := decimals) (kvault := kvault));
      [exact Hata|apply E3|exact E4]. }
  replace requested with (0 + (requested + 0)) by lia.
  eapply burns_trans; [exact Hb1|]. eapply burns_trans; [exact E3|exact Hclose].
Qed.

Lemma finished_runs requested payer bs c bundle plan A R close b :
  finished cluster owner mint decimals requested c bundle plan A R close ->
  buildShareAccountConsolidation (mkConsolidationInput requested mint decimals owner payer bs) = Ok c ->
  well_formed bs -> 0 < requested ->
  Forall stands_by (bystanders kvault bundle) -> bundle_bytes bundle ->
  agrees b bs (share_ata owner mint) ->
  exists b', exec_all (plan_instructions plan) b = Some b'
    /\ b' !! share_ata owner mint
       = if sum_amounts bs =? requested then None
         else Some (postConsolidationAtaBaseUnits c - requested).
Proof.
  intros [Hplan HA HfR (R0 & Hdec & Hrw & _) Henc _ [refund ->] _] Hc Hwf Hreq Hby Hbytes Hag.
  destruct (redeeming_ok _ _ _ _ _ Hdec Hrw Hby Hbytes) as [Hpos Hst].
  pose proof (consolidation_funds (kvault := kvault)
    (i := mkConsolidationInput requested mint decimals owner payer bs) b Hwf Hreq Hag) as Hcons.
  rewrite Hc in Hcons. cbn [ci_shareMint ci_owner ci_accounts ci_requestedBaseUnits] in Hcons.
  destruct Hcons as (Hshare & Htotal & [Hpost1 Hpost2] & Hmax & b1 & E1 & Hb1 & _).
  destruct (redemptions_run (mint := mint) (owner := owner) (decimals := decimals) (kvault := kvault)
    R b1 _ HfR Hpos Hst Hb1 ltac:(lia)) as (b3 & E3 & Hb3).
  rewrite Henc in Hb3.
  assert (exec_all (option_list (buildMaximumWithdrawalBalanceGuard requested mint decimals owner)) b1
    = Some b1) as E2.
  { unfold buildMaximumWithdrawalBalanceGuard. destruct (negb _); [done|]. rewrite exec_one.
    rewrite (exec_transfer (mint := mint) (owner := owner) (decimals := decimals) (kvault := kvault))
      by lia.
    rewrite Hb1, String.eqb_refl. by rewrite (proj2 (Z.leb_le _ _)) by lia. }
  rewrite Hplan, <- !app_assoc, exec_all_app, run_bystanders by (by eapply first_bystanders).
  cbn [mbind option_bind]. rewrite exec_all_app, E1. cbn [mbind option_bind].
  rewrite exec_all_app, E2. cbn [mbind option_bind]. rewrite exec_all_app, E3. cbn [mbind option_bind].
  unfold buildShareAccountCloseInstruction. rewrite Hshare, <- Htotal.
  destruct (Z.eqb_spec (totalBaseUnits c) requested) as [Et|Et]; cbn [negb].
  - rewrite (proj2 (Z.eqb_eq (postConsolidationAtaBaseUnits c) requested)) by lia. cbn [negb].
    rewrite exec_one, (exec_close (mint := mint) (owner := owner) (decimals := decimals) (kvault := kvault)).
    rewrite Hb3. rewrite (proj2 (Z.eqb_eq (postConsolidationAtaBaseUnits c - requested) 0)) by lia.
    eexists. split; [done|]. by rewrite lookup_delete_eq.
  - destruct (negb _); exists b3; done.
Qed.
End OnChain.

Section Amounts.
Lemma format_zero d : 0 <= d <= 18 -> formatDecimalAmount 0 d = Ok "0".
Proof.
  intros Hd.
  assert (forallb (fun n => match formatDecimalAmount 0 (Z.of_nat n) with
    Ok s => String.eqb s "0" | Err _ => false end) (seq 0 19) = true) as H by reflexivity.
  rewrite forallb_forall in H. specialize (H (Z.to_nat d) ltac:(apply in_seq; lia)).
  rewrite Z2Nat.id in H by lia. destruct (formatDecimalAmount 0 d) as [s|]; [|done].
  by apply String.eqb_eq in H as ->.
Qed.

Lemma mintDecimals_range value label d : mintDecimals value label = Ok d -> 0 <= d <= 18.
Proof.
  unfold mintDecimals. set (raw := trim (chars value)).
  destruct (all_digits raw) eqn:E.
  - destruct (negb _ || _) eqn:Eb; [done|]. intros [= <-].
    apply orb_false_iff in Eb as [_ Eb%Z.ltb_ge]. split; [by apply of_digits_nonneg|done].
  - by destruct raw.
Qed.

(** The base units of an accepted request that is not zero. *)
Lemma requested_units value d accepted requested label text_ :
  mintDecimals text_ label = Ok d -> acceptAtMintScale "shares" value d = Ok accepted ->
  isZeroAmount accepted = false -> parseDecimalAmount accepted d = Ok requested ->
  0 < requested < 2 ^ 64 /\ DecimalSpec.denotes value requested d
  /\ formatDecimalAmount requested d = Ok accepted.
Proof.
  intros Hd%mintDecimals_range Hacc Hz Hp.
  destruct (accepted_units _ _ _ _ (proj1 Hd) Hacc) as (u & Hu & Hr & Hf & Hp').
  assert (u = requested) as -> by congruence.
  split_and!; [|lia|apply denotes_iff; split; [exact (proj1 (proj1 (accept_iff _ _ _ _ (proj1 Hd)) Hacc))|done]|done].
  destruct (Z.eq_dec requested 0) as [->|]; [|lia].
  rewrite format_zero in Hf by lia. injection Hf as <-. done.
Qed.
End Amounts.

(** ** The concrete exit *)

Lemma demo_laws : @TokenLaws Demo.kit Demo.ledger "mint" "owner" 6 Demo.kvault.
Proof.
  split.
  - intros payer b. reflexivity.
  - intros source destination n b _. reflexivity.
  - intros destination b. reflexivity.
  - intros ix n b Hd. unfold exec, Demo.ledger. by rewrite Hd.
Qed.

Lemma answered_in {A} (f : event (@plan_response Demo.decimal_kit unit) -> option A) e a (tr : list _) :
  f e = Some a -> e ∈ tr -> a ∈ omap f tr.
Proof. intros Hf He. apply list_elem_of_omap. by exists e. Qed.

(** What the concrete run read and computed. *)
Lemma demo_built plan st identity d rq acc entries bs c lookup req bundle :
  built (Reserves := unit) (H := Demo.kit) (H0 := Demo.decimal_kit) Demo.runtime Demo.input
    Demo.exit_run.1.1 plan st identity d rq acc entries bs c lookup req bundle ->
  st = Demo.state /\ identity = mkIdentity "deposit" "mint" /\ d = 6 /\ rq = 12
  /\ bs = [mkBalance Demo.ata 5; mkBalance "aux" 7] /\ bundle = Demo.bundle.
Proof.
  intros [Hst Hid Hd Hacc _ Hp Hen Hbs _ Hbd _].
  apply (answered_in Demo.state_of _ st) in Hst; [|done].
  change (omap Demo.state_of Demo.exit_run.1.1) with [Demo.state] in Hst.
  apply list_elem_of_singleton in Hst as ->.
  apply (answered_in Demo.entries_of _ entries) in Hen; [|done].
  change (omap Demo.entries_of Demo.exit_run.1.1) with [Demo.shareEntries] in Hen.
  apply list_elem_of_singleton in Hen as ->.
  apply (answered_in Demo.bundle_of _ bundle) in Hbd; [|done].
  change (omap Demo.bundle_of Demo.exit_run.1.1) with [Demo.bundle] in Hbd.
  apply list_elem_of_singleton in Hbd as ->.
  vm_compute in Hid. injection Hid as <-. vm_compute in Hd. injection Hd as <-.
  vm_compute in Hacc. injection Hacc as <-. vm_compute in Hp. injection Hp as <-.
  vm_compute in Hbs. injection Hbs as <-. done.
Qed.

Lemma demo_well_formed : well_formed [mkBalance Demo.ata 5; mkBalance "aux" 7].
Proof.
  split; [|repeat constructor; done]. apply NoDup_cons. split; [|by apply NoDup_singleton].
  by intros ?%list_elem_of_singleton.
Qed.

Lemma demo_bystanders :
  Forall (@stands_by Demo.ledger) (bystanders Demo.kvault Demo.bundle).
Proof. constructor; [|constructor]. intros b. reflexivity. Qed.

Lemma demo_bytes : bundle_bytes Demo.bundle.
Proof. repeat constructor; cbn; lia. Qed.

Lemma demo_exit Q :
  all_runs (@buildKaminoWithdrawPlan Demo.kit Demo.decimal_kit unit Demo.runtime Demo.input) Q ->
  forall plan, Demo.exit_run.1.2 = Ok plan -> Q Demo.exit_run.1.1 (Ok plan).
Proof.
  intros H plan Hplan. apply (run_all_runs Demo.answers _ tt) in H. fold Demo.exit_run in H.
  rewrite <- Hplan. by destruct Demo.exit_run as [[? ?] ?].
Qed.

Lemma demo_executes :
  exists plan b', Demo.exit_run.1.2 = Ok plan
    /\ @exec_all Demo.ledger (plan_instructions plan) Demo.balances = Some b'.
Proof. eexists _, _. split; vm_compute; reflexivity. Qed.

(** * Theorems *)

Section Theorems.
Context `{TokenKit} `{DecimalKit} {Reserves : Type}.


(** C7. What was ledgered is what moves, whatever the balances have become when
    the transaction lands: if the token and vault programs behave as documented
    and the SDK's other instructions leave the share accounts alone, a plan that
    executes at all burns exactly the requested shares from the owner's accounts,
    and changes no other account. *)
Theorem withdraw_moves_exactly runtime input :
  all_runs (buildKaminoWithdrawPlan (Reserves := Reserves) runtime input) (fun tr res =>
    forall plan, res = Ok plan ->
    exists state identity decimals requested accepted entries bs c lookup request bundle,
      built runtime input tr plan state identity decimals requested accepted entries bs c lookup
        request bundle
      /\ forall (L : TokenLedger) b b',
           TokenLaws (shareMint identity) (wi_owner input) decimals
             (KAMINO_KVAULT_PROGRAM_IDS (runtime_cluster runtime)) ->
           sharesMint state = Some (shareMint identity) -> well_formed bs ->
           Forall leaves_alone
             (bystanders (KAMINO_KVAULT_PROGRAM_IDS (runtime_cluster runtime)) bundle) ->
           bundle_bytes bundle ->
           supply b (owner_keys (shareMint identity) (wi_owner input) bs) ->
           exec_all (plan_instructions plan) b = Some b' ->
           burns (owner_keys (shareMint identity) (wi_owner input) bs) requested b b').
Proof.
  eapply all_runs_mono; [|apply withdraw_built]. intros tr res Hb plan ->.
  destruct Hb as (state & identity & d & u & acc & entries & bs & c & lookup & rq & bundle & Hb).
  do 11 eexists. split; [exact Hb|]. intros L b b' Hlaws Hmint Hwf Hby Hbytes Hsup He.
  destruct Hb as [_ _ Hd Hacc Hz Hp _ _ Hc _ Hfin].
  destruct (requested_units _ _ _ _ _ _ Hd Hacc Hz Hp) as (Hu & _).
  destruct (finish_finished _ _ _ _ _ _ _ _ _ _ _ _ Hfin) as (_ & _ & A & R & close & Hplan).
  rewrite Hmint in Hplan. cbn [from_option id] in Hplan.
  eapply finished_burns; try eassumption. lia.
Qed.

(** C25. The exit goes through: executed while the chain still holds the accounts
    that were read, a plan succeeds; it leaves in the redemption account what the
    consolidation put there less the request, and closes it exactly when the owner
    exits the whole position. *)
Theorem withdraw_executes runtime input :
  all_runs (buildKaminoWithdrawPlan (Reserves := Reserves) runtime input) (fun tr res =>
    forall plan, res = Ok plan ->
    exists state identity decimals requested accepted entries bs c lookup request bundle,
      built runtime input tr plan state identity decimals requested accepted entries bs c lookup
        request bundle
      /\ forall (L : TokenLedger) b,
           TokenLaws (shareMint identity) (wi_owner input) decimals
             (KAMINO_KVAULT_PROGRAM_IDS (runtime_cluster runtime)) ->
           sharesMint state = Some (shareMint identity) -> well_formed bs ->
           Forall stands_by
             (bystanders (KAMINO_KVAULT_PROGRAM_IDS (runtime_cluster runtime)) bundle) ->
           bundle_bytes bundle ->
           agrees b bs (share_ata (wi_owner input) (shareMint identity)) ->
           exists b', exec_all (plan_instructions plan) b = Some b'
             /\ b' !! share_ata (wi_owner input) (shareMint identity)
                = if sum_amounts bs =? requested then None
                  else Some (postConsolidationAtaBaseUnits c - requested)).
Proof.
  eapply all_runs_mono; [|apply withdraw_built]. intros tr res Hb plan ->.
  destruct Hb as (state & identity & d & u & acc & entries & bs & c & lookup & rq & bundle & Hb).
  do 11 eexists. split; [exact Hb|]. intros L b Hlaws Hmint Hwf Hby Hbytes Hag.
  destruct Hb as [_ _ Hd Hacc Hz Hp _ _ Hc _ Hfin].
  destruct (requested_units _ _ _ _ _ _ Hd Hacc Hz Hp) as (Hu & _).
  destruct (finish_finished _ _ _ _ _ _ _ _ _ _ _ _ Hfin) as (_ & _ & A & R & close & Hplan).
  rewrite Hmint in Hplan. cbn [from_option id] in Hplan.
  eapply finished_runs; try eassumption. lia.
Qed.
End Theorems.

Lemma withdraw_moves_exactly_witness :
  exists plan b', Demo.exit_run.1.2 = Ok plan
    /\ @exec_all Demo.ledger (plan_instructions plan) Demo.balances = Some b'
    /\ burns (@owner_keys Demo.kit "mint" "owner" [mkBalance Demo.ata 5; mkBalance "aux" 7]) 12
         Demo.balances b'.
Proof.
  destruct demo_executes as (plan & b' & Hplan & He). exists plan, b'. split; [done|]. split; [done|].
  destruct (demo_exit _ (@withdraw_moves_exactly Demo.kit Demo.decimal_kit unit Demo.runtime Demo.input)
    plan Hplan plan eq_refl) as (st & id & d & rq & acc & en & bs & c & lk & req & bd & Hb & Hgo).
  apply demo_built in Hb as (-> & -> & -> & -> & -> & ->).
  apply (Hgo Demo.ledger); [apply demo_laws|done|apply demo_well_formed| |apply demo_bytes| |exact He].
  - eapply Forall_impl; [exact demo_bystanders|]. intros ix. apply stands_by_leaves_alone.
  - split; [|vm_compute; done]. intros k Hk. change (k ∈ [Demo.ata; "aux"]) in Hk.
    rewrite elem_of_cons, list_elem_of_singleton in Hk. destruct Hk as [->| ->]; vm_compute; done.
Defined.

Lemma withdraw_executes_witness :
  exists plan b', Demo.exit_run.1.2 = Ok plan
    /\ @exec_all Demo.ledger (plan_instructions plan) Demo.balances = Some b'
    /\ b' !! Demo.ata = None.
Proof.
  destruct demo_executes as (plan & _ & Hplan & _).
  destruct (demo_exit _ (@withdraw_executes Demo.kit Demo.decimal_kit unit Demo.runtime Demo.input)
    plan Hplan plan eq_refl) as (st & id & d & rq & acc & en & bs & c & lk & req & bd & Hb & Hgo).
  apply demo_built in Hb as (-> & -> & -> & -> & -> & ->).
  destruct (Hgo Demo.ledger Demo.balances) as (b' & He & Hata);
    [apply demo_laws|done|apply demo_well_formed|apply demo_bystanders|apply demo_bytes| |].
  - split; [|intros Hno; exfalso; apply (Hno (mkBalance Demo.ata 5)); [left|done]].
    intros x Hx. rewrite elem_of_cons, list_elem_of_singleton in Hx.
    destruct Hx as [->| ->]; vm_compute; done.
  - exists plan, b'. split; [done|]. split; [exact He|exact Hata].
Defined.
