(* ===== verification/IpAllowlist.v ===== *)
(** * IP allowlists

    [apps/sdp-api/src/lib/ip-allowlist.ts] (parsing, canonical form and matching of
    address ranges), [lib/client-ip.ts] (which address a request came from),
    [lib/organization-ip-allowlist.ts] (enforcement) and the schema and lock-out
    guard of [routes/organizations]. [isIP] and [BlockList] of [node:net] are the
    class [NodeNet], with their documented behaviour in [NodeNetLaws]. Addresses are
    lists of groups: four octets or eight hextets. *)
From Stdlib Require Import Ascii String ZArith Lia.
From stdpp Require Import base list strings.
From S2P Require Import Prelude Text PolicyTypes.

Local Open Scope Z_scope.
Local Open Scope sdp_scope.

(** ** Parsing *)

Inductive IpType := ipv4 | ipv6.

#[export] Instance IpType_eq_dec : EqDecision IpType.
Proof. solve_decision. Defined.

Record ParsedIpRange := mkRange {
  range_address : string;
  groups : list Z;
  prefix : Z;
  range_type : IpType;
}.

Definition has_char (c : ascii) (l : list ascii) : bool := existsb (Ascii.eqb c) l.

(** An octet is a canonical integer of at most three digits, at most 255. *)
Definition parseOctet (part : list ascii) : option Z :=
  if negb (canonical_integer part && (Z.of_nat (length part) <=? 3)) then None
  else
    let octet := of_digits part in
    if 255 <? octet then None else Some octet.

Definition parseIpv4Octets (address : list ascii) : option (list Z) :=
  let parts := split_on "." address in
  if negb (Nat.eqb (length parts) 4) then None else mapM parseOctet parts.

(** [0-9a-fA-F] *)
Definition hex_value (c : ascii) : option Z :=
  if is_digit c then Some (digit_value c)
  else if (97 <=? code c) && (code c <=? 102) then Some (code c - 87)
  else if (65 <=? code c) && (code c <=? 70) then Some (code c - 55)
  else None.

(** [Number.parseInt(part, 16)] of hexadecimal digits; [None] for another
    character. *)
Fixpoint hex_number (acc : Z) (l : list ascii) : option Z :=
  match l with
  | [] => Some acc
  | c :: rest => v ← hex_value c; hex_number (16 * acc + v) rest
  end.

(** One to four hexadecimal digits. *)
Definition parseHextet (part : list ascii) : option Z :=
  if (1 <=? Z.of_nat (length part)) && (Z.of_nat (length part) <=? 4)
  then hex_number 0 part else None.

(** Numeric hextets for a list of groups, a dotted quad allowed as the last one. *)
Fixpoint toHextets (parts : list (list ascii)) : option (list Z) :=
  match parts with
  | [] => Some []
  | part :: rest =>
      if has_char "." part then
        match rest with
        | [] =>
            octets ← parseIpv4Octets part;
            match octets with
            | [o0; o1; o2; o3] => Some [Z.lor (Z.shiftl o0 8) o1; Z.lor (Z.shiftl o2 8) o3]
            | _ => None
            end
        | _ :: _ => None
        end
      else
        hextet ← parseHextet part;
        hextets ← toHextets rest;
        Some (hextet :: hextets)
  end.

(** The text before and after the first [::], when there is one. *)
Fixpoint split_elision (l : list ascii) : option (list ascii * list ascii) :=
  match l with
  | [] => None
  | c :: rest =>
      match rest with
      | c' :: after =>
          if Ascii.eqb c ":" && Ascii.eqb c' ":" then Some ([], after)
          else
            match split_elision rest with
            | Some (before, after') => Some (c :: before, after')
            | None => None
            end
      | [] => None
      end
  end.

Definition toSide (side : list ascii) : option (list Z) :=
  toHextets (if (0 <? Z.of_nat (length side)) then split_on ":" side else []).

Definition parseIpv6Hextets (address : list ascii) : option (list Z) :=
  match split_elision address with
  | None =>
      hextets ← toHextets (split_on ":" address);
      if Nat.eqb (length hextets) 8 then Some hextets else None
  | Some (headText, tailText) =>
      if bool_decide (is_Some (split_elision (":"%char :: tailText))) then None
      else
        head ← toSide headText;
        tail ← toSide tailText;
        let elided := 8 - Z.of_nat (length head) - Z.of_nat (length tail) in
        if elided <? 1 then None
        else Some (head ++ repeat 0 (Z.to_nat elided) ++ tail)
  end.

Definition maximumPrefix (t : IpType) : Z := match t with ipv4 => 32 | ipv6 => 128 end.

Definition parseGroups (t : IpType) (address : list ascii) : option (list Z) :=
  match t with ipv4 => parseIpv4Octets address | ipv6 => parseIpv6Hextets address end.

Definition typeOf (address : list ascii) : IpType :=
  if has_char ":" address then ipv6 else ipv4.

(** [Number(rawPrefix)] is exact where it is compared: a prefix too long for a
    double is far above every maximum. *)
Definition parsePrefix (t : IpType) (rawPrefix : list ascii) : option Z :=
  if negb (canonical_integer rawPrefix) then None
  else
    let prefix := of_digits rawPrefix in
    if maximumPrefix t <? prefix then None else Some prefix.

Definition parseIpRange (value : string) : option ParsedIpRange :=
  if bool_decide (chars value = []) || negb (bool_decide (chars value = trim (chars value)))
  then None
  else
    match split_on "/" (chars value) with
    | address :: rawPrefix =>
        if Nat.ltb 1 (length rawPrefix) then None
        else if has_char "%" address then None
        else
          let type := typeOf address in
          groups ← parseGroups type address;
          match rawPrefix with
          | [] => Some (mkRange (text address) groups (maximumPrefix type) type)
          | raw :: _ =>
              prefix ← parsePrefix type raw;
              Some (mkRange (text address) groups prefix type)
          end
    | [] => None
    end.

Definition isValidIpAllowlistEntry (value : string) : bool :=
  bool_decide (is_Some (parseIpRange value)).

(** ** The canonical form *)

Definition maskGroup (bitsPerGroup prefix : Z) (index : nat) (group : Z) : Z :=
  let width := Z.shiftl 1 bitsPerGroup - 1 in
  let significant := Z.min (Z.max (prefix - Z.of_nat index * bitsPerGroup) 0) bitsPerGroup in
  if significant =? 0 then 0
  else Z.land group (Z.land (Z.shiftl width (bitsPerGroup - significant)) width).

(** Zero every bit past the prefix. *)
Definition maskGroups (groups : list Z) (bitsPerGroup prefix : Z) : list Z :=
  imap (maskGroup bitsPerGroup prefix) groups.

(** [n.toString(16)] for a number that is not negative, with enough fuel. *)
Fixpoint to_hex_fuel (fuel : nat) (n : Z) (acc : list ascii) : list ascii :=
  match fuel with
  | O => acc
  | S fuel' =>
      if n <? 16 then hex_digit n :: acc
      else to_hex_fuel fuel' (n / 16) (hex_digit (n mod 16) :: acc)
  end.

Definition to_hex (n : Z) : list ascii := to_hex_fuel (S (Z.to_nat (Z.log2 n))) n [].

(** The state of the loop that looks for the longest run of zero hextets. *)
Record ZeroRuns := mkRuns { bestStart : Z; bestLength : Z; runStart : Z }.

Definition closeRun (index : Z) (s : ZeroRuns) : ZeroRuns :=
  if runStart s =? -1 then s
  else
    let length := index - runStart s in
    if bestLength s <? length then mkRuns (runStart s) length (-1)
    else mkRuns (bestStart s) (bestLength s) (-1).

Fixpoint scanRuns (index : Z) (hextets : list Z) (s : ZeroRuns) : ZeroRuns :=
  match hextets with
  | [] => closeRun index s
  | h :: rest =>
      scanRuns (index + 1) rest
        (if h =? 0 then
           if runStart s =? -1 then mkRuns (bestStart s) (bestLength s) index else s
         else closeRun index s)
  end.

(** RFC 5952: lower case, no leading zeros, the longest run of zeros elided. *)
Definition formatIpv6 (hextets : list Z) : list ascii :=
  let best := scanRuns 0 hextets (mkRuns (-1) 0 (-1)) in
  let groups := to_hex <$> hextets in
  if bestLength best <? 2 then join [":"%char] groups
  else
    let head := join [":"%char] (take (Z.to_nat (bestStart best)) groups) in
    let tail := join [":"%char] (drop (Z.to_nat (bestStart best + bestLength best)) groups) in
    head ++ [":"%char; ":"%char] ++ tail.

Definition isIpv4Mapped (hextets : list Z) : bool :=
  forallb (fun h => h =? 0) (take 5 hextets)
  && match hextets !! 5%nat with Some h => h =? 65535 | None => false end.

Definition formatIpv4 (octets : list Z) : list ascii :=
  join ["."%char] (to_digits <$> octets).

Definition formatRange (address : list ascii) (prefix maximumPrefix : Z) : string :=
  text (if prefix =? maximumPrefix then address else address ++ "/"%char :: to_digits prefix).

(** [masked[i]]; the groups of a parsed range are always there. *)
Definition group_at (hextets : list Z) (i : nat) : Z := nth i hextets 0.

Definition mappedOctets (masked : list Z) : list Z :=
  [Z.shiftr (group_at masked 6) 8; Z.land (group_at masked 6) 255;
   Z.shiftr (group_at masked 7) 8; Z.land (group_at masked 7) 255].

Definition canonicalRange (parsed : ParsedIpRange) : string :=
  match range_type parsed with
  | ipv4 => formatRange (formatIpv4 (maskGroups (groups parsed) 8 (prefix parsed))) (prefix parsed) 32
  | ipv6 =>
      let masked := maskGroups (groups parsed) 16 (prefix parsed) in
      if (96 <=? prefix parsed) && isIpv4Mapped masked
      then formatRange (formatIpv4 (mappedOctets masked)) (prefix parsed - 96) 32
      else formatRange (formatIpv6 masked) (prefix parsed) 128
  end.

Definition canonicalizeIpAllowlistEntry (value : string) : option string :=
  parsed ← parseIpRange value; Some (canonicalRange parsed).

(** ** Matching *)

(** [node:net]. A [BlockList] is what has been added to it; [addSubnet] is [None]
    when it throws. [denotes] is the 128-bit address a literal stands for, an IPv4
    address being its IPv4-mapped IPv6 address. *)
Class NodeNet := {
  BlockList : Type;
  isIP : string -> Z;
  newBlockList : BlockList;
  addSubnet : BlockList -> string -> Z -> IpType -> option BlockList;
  check : BlockList -> string -> IpType -> bool;
  denotes : string -> IpType -> Z;
}.

(** The number the groups of an address spell. *)
Definition address_number (width : Z) (gs : list Z) : Z :=
  fold_left (fun acc g => acc * 2 ^ width + g) gs 0.

(** The IPv4-mapped addresses start at [::ffff:0:0]. *)
Definition groups_number (t : IpType) (gs : list Z) : Z :=
  match t with
  | ipv4 => 65535 * 2 ^ 32 + address_number 8 gs
  | ipv6 => address_number 16 gs
  end.

(** The prefix length within the 128 bits. *)
Definition prefix_of (t : IpType) (prefix : Z) : Z :=
  match t with ipv4 => prefix + 96 | ipv6 => prefix end.

(** The first [p] of 128 bits agree. *)
Definition same_prefix (p a b : Z) : bool := Z.shiftr a (128 - p) =? Z.shiftr b (128 - p).

(** What the documentation of [node:net] says of it, for the literals the parser
    of this module accepts: they denote their groups, a subnet of them with a
    prefix in range can be added, and a list matches a client exactly when one of
    its subnets does, whichever notation each uses. *)
Class NodeNetLaws `{NodeNet} := {
  denotes_groups t a gs :
    parseGroups t (chars a) = Some gs -> denotes a t = groups_number t gs;
  addSubnet_accepts b t a gs p :
    parseGroups t (chars a) = Some gs -> 0 <= p <= maximumPrefix t ->
    is_Some (addSubnet b a p t);
  check_new c ct : check newBlockList c ct = false;
  check_added b b' t a gs p c ct :
    parseGroups t (chars a) = Some gs -> addSubnet b a p t = Some b' ->
    isIP c = match ct with ipv4 => 4 | ipv6 => 6 end ->
    check b' c ct = check b c ct || same_prefix (prefix_of t p) (denotes c ct) (denotes a t);
}.

Section Matching.
Context `{NodeNet}.

Definition clientIpType (value : string) : option IpType :=
  if isIP value =? 4 then Some ipv4 else if isIP value =? 6 then Some ipv6 else None.

(** The loop that fills the list; [None] is its early [return false]. *)
Fixpoint addEntries (blockList : BlockList) (entries : list json) : option BlockList :=
  match entries with
  | [] => Some blockList
  | JString entry :: rest =>
      parsed ← parseIpRange entry;
      blockList' ← addSubnet blockList (range_address parsed) (prefix parsed) (range_type parsed);
      addEntries blockList' rest
  | _ :: _ => None
  end.

(** [allowedIps] is any value: [None] is [undefined]. *)
Definition isClientIpAllowed (clientIp : option string) (allowedIps : option json) : bool :=
  match allowedIps with
  | None | Some JNull => true
  | Some (JArray []) => true
  | Some (JArray entries) =>
      match clientIp with
      | None => false
      | Some ip =>
          if negb (truthy clientIp) || has_char "%" (chars ip) then false
          else
            match clientIpType ip with
            | None => false
            | Some clientType =>
                match addEntries newBlockList entries with
                | None => false
                | Some blockList => check blockList ip clientType
                end
            end
      end
  | Some _ => false
  end.

(** ** The client's address ([client-ip.ts]) *)

Definition parseForwardedFor (value : option string) : list string :=
  if truthy value then
    List.filter (fun entry => negb (isIP entry =? 0))
      ((fun entry => text (trim entry)) <$> split_on "," (chars (default EmptyString value)))
  else [].

(** [K_SERVICE] is set by Cloud Run. *)
Definition resolveClientIp (forwardedFor K_SERVICE : option string) : option string :=
  let forwarded := parseForwardedFor forwardedFor in
  match forwarded with
  | [] => None
  | first :: _ =>
      if truthy K_SERVICE then
        if 2 <=? Z.of_nat (length forwarded)
        then forwarded !! (length forwarded - 2)%nat else None
      else Some first
  end.

(** ** The organization's allowlist ([organization-ip-allowlist.ts]) *)

(** A property of a parsed JSON value; [None] is [undefined]. *)
Definition json_property (name : string) (v : json) : option json :=
  match v with
  | JObject fields => snd <$> List.find (fun '(k, _) => String.eqb k name) (rev fields)
  | _ => None
  end.

(** [JSON_parse] is the language's; a text it refuses makes it throw. *)
Definition readAllowedIpAddresses (JSON_parse : string -> result json)
    (settings : option string) : result json :=
  match settings with
  | Some s =>
      if truthy settings then
        let? parsed := JSON_parse s in
        Ok (default JNull (json_property "allowedIpAddresses" parsed))
      else Ok JNull
  | None => Ok JNull
  end.

(** The reads of [enforceOrganizationIpAllowlist]. *)
Definition enforceOrganizationIpAllowlist (JSON_parse : string -> result json)
    (forwardedFor K_SERVICE : option string)
    (row : option (option string)) : result unit :=
  match row with
  | None => Ok tt
  | Some settings =>
      match readAllowedIpAddresses JSON_parse settings with
      | Err _ => Ok tt
      | Ok allowedIpAddresses =>
          if isClientIpAllowed (resolveClientIp forwardedFor K_SERVICE) (Some allowedIpAddresses)
          then Ok tt
          else Err (AppError "FORBIDDEN" "Request origin is not allowed for this organization")
      end
  end.

(** ** Writing it ([routes/organizations]) *)

(** [[...new Set(entries)]]: the first of equal entries is kept. *)
Fixpoint distinct (seen entries : list string) : list string :=
  match entries with
  | [] => []
  | e :: rest =>
      if existsb (String.eqb e) seen then distinct seen rest
      else e :: distinct (e :: seen) rest
  end.

Definition MAX_ORGANIZATION_ALLOWED_IPS : Z := 100.

(** [allowedIpAddresses] of [updateOrgSchema]: [None] is a refused body. *)
Definition allowedIpAddressesSchema (entries : list string) : option (list string) :=
  canonical ← mapM canonicalizeIpAllowlistEntry entries;
  if MAX_ORGANIZATION_ALLOWED_IPS <? Z.of_nat (length canonical) then None
  else Some (distinct [] canonical).

Definition assertAllowlistAdmitsCaller (clientIp : option string)
    (allowedIps : option (list string)) : result unit :=
  match allowedIps with
  | None | Some [] => Ok tt
  | Some entries =>
      if isClientIpAllowed clientIp (Some (JArray (JString <$> entries))) then Ok tt
      else Err (badRequest
        (match clientIp with
         | Some ip =>
             if truthy clientIp
             then "The allowed IP list must include the address this request came from ("
                  ++ ip ++ "), or it would lock the organization out."
             else "No client IP could be determined for this request, so an allowed IP list cannot be verified. It would lock the organization out."
         | None => "No client IP could be determined for this request, so an allowed IP list cannot be verified. It would lock the organization out."
         end)%string)
  end.
End Matching.

(** * Lemmas *)

(** ** Addresses as numbers *)

Section Numbers.

Lemma address_number_acc w gs acc :
  0 < w ->
  fold_left (fun a g => a * 2 ^ w + g) gs acc
  = acc * 2 ^ (w * Z.of_nat (length gs)) + address_number w gs.
Proof.
  intros Hw. unfold address_number. revert acc. induction gs as [|g gs IH]; intros acc.
  - cbn [fold_left length]. rewrite Z.mul_0_r. change (2 ^ 0) with 1. lia.
  - cbn [fold_left length]. rewrite IH, (IH (0 * 2 ^ w + g)).
    rewrite Nat2Z.inj_succ, Z.mul_succ_r, Z.pow_add_r by lia. ring.
Qed.

Lemma address_number_cons w g gs :
  0 < w ->
  address_number w (g :: gs) = g * 2 ^ (w * Z.of_nat (length gs)) + address_number w gs.
Proof. intros Hw. unfold address_number at 1. cbn [fold_left]. by rewrite address_number_acc. Qed.

Definition bounded (w : Z) (gs : list Z) : Prop := Forall (fun g => 0 <= g < 2 ^ w) gs.

Lemma address_number_bounds w gs :
  0 < w -> bounded w gs -> 0 <= address_number w gs < 2 ^ (w * Z.of_nat (length gs)).
Proof.
  intros Hw. induction 1 as [|g gs Hg Hgs IH].
  - rewrite Z.mul_0_r. by split.
  - rewrite address_number_cons by done. cbn [length].
    rewrite Nat2Z.inj_succ, Z.mul_succ_r, Z.add_comm, Z.pow_add_r by lia. nia.
Qed.

Lemma address_number_inj w gs gs' :
  0 < w -> length gs = length gs' -> bounded w gs -> bounded w gs' ->
  address_number w gs = address_number w gs' -> gs = gs'.
Proof.
  intros Hw. revert gs'. induction gs as [|g gs IH]; intros [|g' gs']; try done.
  intros [= Hl] Hb Hb' E.
  apply Forall_cons in Hb as [Hg Hb]. apply Forall_cons in Hb' as [Hg' Hb'].
  rewrite !address_number_cons, Hl in E by done.
  pose proof (address_number_bounds w gs Hw Hb) as B. rewrite Hl in B.
  pose proof (address_number_bounds w gs' Hw Hb') as B'.
  set (K := 2 ^ (w * Z.of_nat (length gs'))) in *.
  assert (g = g') as -> by nia.
  f_equal. apply IH; [done|done|done|lia].
Qed.

(** Keeping the bits above [2 ^ k]. *)
Definition floor_to (k x : Z) : Z := x / 2 ^ k * 2 ^ k.

Lemma floor_to_shiftr k x : 0 <= k -> floor_to k x = Z.shiftl (Z.shiftr x k) k.
Proof. intros H. unfold floor_to. by rewrite Z.shiftl_mul_pow2, Z.shiftr_div_pow2. Qed.

Lemma floor_to_shiftr_same k x : 0 <= k -> Z.shiftr (floor_to k x) k = Z.shiftr x k.
Proof.
  intros H. rewrite floor_to_shiftr, Z.shiftr_shiftl_l, Z.sub_diag by done.
  apply Z.shiftl_0_r.
Qed.

Lemma floor_to_idem k x : 0 <= k -> floor_to k (floor_to k x) = floor_to k x.
Proof.
  intros H. unfold floor_to. rewrite Z.div_mul; [done|].
  apply Z.pow_nonzero; lia.
Qed.

Lemma floor_to_all k x : 0 <= x < 2 ^ k -> floor_to k x = 0.
Proof. intros H. unfold floor_to. by rewrite Z.div_small. Qed.

Lemma floor_to_0 x : floor_to 0 x = x.
Proof. unfold floor_to. change (2 ^ 0) with 1. rewrite Z.div_1_r. lia. Qed.

Lemma floor_to_bounds k x n : 0 <= k -> 0 <= x < n -> 0 <= floor_to k x < n.
Proof.
  intros Hk Hx. unfold floor_to. assert (0 < 2 ^ k) by (apply Z.pow_pos_nonneg; lia).
  pose proof (Z.div_pos x (2 ^ k)). pose proof (Z.mul_div_le x (2 ^ k)). nia.
Qed.

(** A number above a block of [n >= k] bits is not touched. *)
Lemma floor_to_high k n g x :
  0 <= k <= n -> floor_to k (g * 2 ^ n + x) = g * 2 ^ n + floor_to k x.
Proof.
  intros H. unfold floor_to. replace n with ((n - k) + k) by lia.
  rewrite Z.pow_add_r by lia. rewrite Z.mul_assoc, Z.div_add_l.
  - ring.
  - apply Z.pow_nonzero; lia.
Qed.

(** A block wholly below the cut disappears. *)
Lemma floor_to_low k n g x :
  0 <= n <= k -> 0 <= x < 2 ^ n ->
  floor_to k (g * 2 ^ n + x) = floor_to (k - n) g * 2 ^ n.
Proof.
  intros H Hx. unfold floor_to. replace k with (n + (k - n)) at 1 2 by lia.
  rewrite Z.pow_add_r by lia. assert (0 < 2 ^ n) by (apply Z.pow_pos_nonneg; lia).
  assert (0 < 2 ^ (k - n)) by (apply Z.pow_pos_nonneg; lia).
  rewrite <- Z.div_div by lia. rewrite Z.div_add_l by lia.
  rewrite (Z.div_small x) by done. rewrite Z.add_0_r. ring.
Qed.
End Numbers.

(** ** Masking *)

Section Masking.

Lemma maskGroup_spec w p g :
  0 < w -> 0 <= g < 2 ^ w -> p <= w ->
  maskGroup w p 0 g = floor_to (w - Z.max p 0) g.
Proof.
  intros Hw Hg Hp. unfold maskGroup. rewrite Z.mul_0_l, Z.sub_0_r.
  set (s := Z.min (Z.max p 0) w). replace (Z.max p 0) with s by (unfold s; lia).
  assert (0 <= s <= w) as Hs by (unfold s; lia). clearbody s.
  destruct (Z.eqb_spec s 0) as [->|Hne].
  { rewrite Z.sub_0_r. by rewrite floor_to_all. }
  rewrite floor_to_shiftr by lia. rewrite Z.shiftl_1_l, Z.sub_1_r, <- Z.ones_equiv.
  apply Z.bits_inj'. intros i Hi. rewrite !Z.land_spec.
  destruct (Z.ltb_spec i (w - s)).
  - rewrite (Z.shiftl_spec_low _ (w - s)), Z.shiftl_spec_low by lia. by rewrite andb_false_r.
  - rewrite !Z.shiftl_spec, Z.shiftr_spec by lia.
    rewrite Z.sub_add. destruct (Z.ltb_spec i w).
    + rewrite !Z.ones_spec_low by lia. by rewrite andb_true_r.
    + rewrite (Z.ones_spec_high w i), andb_false_r, andb_false_r by lia.
      symmetry. apply (Z.bits_above_log2 g); [lia|].
      destruct (Z.eq_dec g 0) as [->|]; [simpl; lia|]. 
      assert (Z.log2 g < w) by (apply Z.log2_lt_pow2; lia). lia.
Qed.

Lemma maskGroup_shift w p i g : maskGroup w p (S i) g = maskGroup w (p - w) i g.
Proof. unfold maskGroup. by replace (p - Z.of_nat (S i) * w) with (p - w - Z.of_nat i * w) by lia. Qed.

Lemma maskGroups_cons w p g gs :
  maskGroups (g :: gs) w p = maskGroup w p 0 g :: maskGroups gs w (p - w).
Proof.
  unfold maskGroups. rewrite imap_cons. f_equal. apply imap_ext. intros i x _.
  apply maskGroup_shift.
Qed.

Lemma maskGroups_length gs w p : length (maskGroups gs w p) = length gs.
Proof. apply length_imap. Qed.

Lemma maskGroup_clip w p g : 0 < w -> maskGroup w p 0 g = maskGroup w (Z.min p w) 0 g.
Proof.
  intros Hw. unfold maskGroup. rewrite Z.mul_0_l, !Z.sub_0_r.
  by replace (Z.min (Z.max (Z.min p w) 0) w) with (Z.min (Z.max p 0) w) by lia.
Qed.

Lemma maskGroup_bounds w p g :
  0 < w -> 0 <= g < 2 ^ w -> 0 <= maskGroup w p 0 g < 2 ^ w.
Proof.
  intros Hw Hg. rewrite maskGroup_clip, maskGroup_spec by lia. apply floor_to_bounds; lia.
Qed.

Lemma maskGroups_bounded w p gs : 0 < w -> bounded w gs -> bounded w (maskGroups gs w p).
Proof.
  intros Hw H. revert p. induction H as [|g gs Hg Hgs IH]; intros p; [constructor|].
  rewrite maskGroups_cons. constructor; [by apply maskGroup_bounds|apply IH].
Qed.

(** Masking keeps the first bits of the number and clears the others. *)
Lemma maskGroups_number w gs p :
  0 < w -> bounded w gs -> p <= w * Z.of_nat (length gs) ->
  address_number w (maskGroups gs w p)
  = floor_to (w * Z.of_nat (length gs) - Z.max p 0) (address_number w gs).
Proof.
  intros Hw H. revert p. induction H as [|g gs Hg Hgs IH]; intros p Hp.
  - unfold floor_to. rewrite Z.div_0_l; [done|].
    apply Z.pow_nonzero; [lia|]. cbn [length] in *. lia.
  - rewrite maskGroups_cons, !address_number_cons, maskGroups_length by done.
    cbn [length] in *. rewrite Nat2Z.inj_succ, Z.mul_succ_r in *.
    pose proof (address_number_bounds w gs Hw Hgs) as B.
    set (n := w * Z.of_nat (length gs)) in *. assert (0 <= n) by (unfold n; nia).
    rewrite IH by lia. rewrite maskGroup_clip, maskGroup_spec by lia.
    destruct (Z.leb_spec w p).
    + rewrite (floor_to_high _ n) by lia.
      replace (w - Z.max (Z.min p w) 0) with 0 by lia. rewrite floor_to_0.
      by replace (n + w - Z.max p 0) with (n - Z.max (p - w) 0) by lia.
    + rewrite (floor_to_low _ n) by lia.
      replace (n - Z.max (p - w) 0) with n by lia. rewrite (floor_to_all n (address_number w gs)), Z.add_0_r by done.
      by replace (n + w - Z.max p 0 - n) with (w - Z.max (Z.min p w) 0) by lia.
Qed.
End Masking.

(** ** Digits *)

Section Digits.

(** A decidable fact about the numbers below a bound is a computation. *)
Lemma forall_below (P : Z -> bool) k n :
  forallb (fun i => P (Z.of_nat i)) (seq 0 k) = true -> 0 <= n < Z.of_nat k -> P n = true.
Proof.
  intros H Hn. rewrite forallb_forall in H. rewrite <- (Z2Nat.id n) by lia.
  apply H, in_seq. lia.
Qed.

(** The characters of a formatted address. *)
Definition hexish (c : ascii) : Prop := is_Some (hex_value c).
Definition address_char (c : ascii) : Prop := hexish c \/ c = "."%char \/ c = ":"%char.

Lemma hexish_not c d : hexish c -> hex_value d = None -> c <> d.
Proof. intros [v Hv] Hd ->. congruence. Qed.

Lemma digit_hexish c : is_digit c = true -> hexish c.
Proof. intros H. unfold hexish, hex_value. by rewrite H. Qed.

Lemma hexish_not_space c : hexish c -> is_space c = false.
Proof.
  unfold hexish, hex_value, is_digit, is_space. intros [v Hv].
  rewrite !orb_false_iff, andb_false_iff, !Z.leb_gt, !Z.eqb_neq.
  destruct (Z.leb_spec 48 (code c)), (Z.leb_spec (code c) 57), (Z.leb_spec 97 (code c)),
    (Z.leb_spec (code c) 102), (Z.leb_spec 65 (code c)), (Z.leb_spec (code c) 70);
    cbn [andb] in Hv; try done; lia.
Qed.

Lemma address_char_clean c :
  address_char c -> is_space c = false /\ c <> "/"%char /\ c <> "%"%char.
Proof.
  intros [Hc|[->| ->]]; [|done|done].
  split; [by apply hexish_not_space|]. split; by apply hexish_not.
Qed.

Lemma hex_digit_value n : 0 <= n < 16 -> hex_value (hex_digit n) = Some n.
Proof.
  intros Hn.
  pose proof (forall_below
    (fun n => match hex_value (hex_digit n) with Some v => v =? n | None => false end)
    16 n eq_refl Hn) as H. cbn beta in H.
  destruct (hex_value _); [|done]. by apply Z.eqb_eq in H as ->.
Qed.

Lemma hex_number_app acc l1 l2 :
  hex_number acc (l1 ++ l2) = (a ← hex_number acc l1; hex_number a l2).
Proof.
  revert acc. induction l1 as [|c l1 IH]; intros acc; [done|]. cbn [app hex_number].
  destruct (hex_value c); cbn [mbind option_bind]; [apply IH|done].
Qed.

Lemma to_hex_fuel_app fuel n acc : to_hex_fuel fuel n acc = to_hex_fuel fuel n [] ++ acc.
Proof.
  revert n acc. induction fuel as [|fuel IH]; intros n acc; [done|]. cbn [to_hex_fuel].
  destruct (n <? 16); [done|]. by rewrite IH, (IH _ [_]), <- app_assoc.
Qed.

Lemma to_hex_fuel_spec fuel n :
  0 <= n < 2 ^ Z.of_nat fuel -> hex_number 0 (to_hex_fuel fuel n []) = Some n.
Proof.
  revert n. induction fuel as [|fuel IH]; intros n Hn.
  - change (2 ^ Z.of_nat 0) with 1 in Hn. cbn. f_equal. lia.
  - cbn [to_hex_fuel]. destruct (Z.ltb_spec n 16).
    + cbn [hex_number]. by rewrite hex_digit_value by lia.
    + rewrite Nat2Z.inj_succ, Z.pow_succ_r in Hn by lia.
      rewrite to_hex_fuel_app, hex_number_app, IH.
      * cbn [mbind option_bind hex_number].
        pose proof (Z.mod_pos_bound n 16). pose proof (Z.div_mod n 16).
        rewrite hex_digit_value by lia. cbn [mbind option_bind]. f_equal. lia.
      * split; [apply Z.div_pos; lia|]. apply Z.div_lt_upper_bound; lia.
Qed.

Lemma to_hex_number n : 0 <= n -> hex_number 0 (to_hex n) = Some n.
Proof. intros H. by apply to_hex_fuel_spec, to_digits_range. Qed.

Lemma to_hex_fuel_length fuel n k :
  0 <= n < 16 ^ Z.of_nat (S k) -> (length (to_hex_fuel fuel n []) <= S k)%nat.
Proof.
  revert n k. induction fuel as [|fuel IH]; intros n k Hn; [simpl; lia|].
  cbn [to_hex_fuel]. destruct (Z.ltb_spec n 16); [simpl; lia|].
  destruct k as [|k]; [change (16 ^ Z.of_nat 1) with 16 in Hn; lia|].
  rewrite to_hex_fuel_app, length_app. cbn [length].
  rewrite Nat2Z.inj_succ, Z.pow_succ_r in Hn by lia.
  specialize (IH (n / 16) k). ospecialize (IH _); [|lia].
  split; [apply Z.div_pos; lia|]. apply Z.div_lt_upper_bound; lia.
Qed.

Lemma to_hex_nonempty n : to_hex n <> [].
Proof.
  unfold to_hex. cbn [to_hex_fuel]. destruct (n <? 16); [done|].
  rewrite to_hex_fuel_app. by intros [_ H]%app_eq_nil.
Qed.

Lemma hex_number_hexish acc l v : hex_number acc l = Some v -> Forall hexish l.
Proof.
  revert acc. induction l as [|c l IH]; intros acc H; [constructor|]. cbn [hex_number] in H.
  destruct (hex_value c) eqn:E; [|done]. constructor; [by eexists|by eapply IH].
Qed.

Lemma hex_value_bounds c v : hex_value c = Some v -> 0 <= v < 16.
Proof.
  unfold hex_value. destruct (is_digit c) eqn:Ed.
  - apply is_digit_spec in Ed. intros [= <-]. lia.
  - destruct ((97 <=? code c) && (code c <=? 102)) eqn:E1.
    { rewrite andb_true_iff, !Z.leb_le in E1. intros [= <-]. lia. }
    destruct ((65 <=? code c) && (code c <=? 70)) eqn:E2; [|done].
    rewrite andb_true_iff, !Z.leb_le in E2. intros [= <-]. lia.
Qed.

Lemma hex_number_bounds acc l v :
  0 <= acc -> hex_number acc l = Some v ->
  0 <= v < (acc + 1) * 16 ^ Z.of_nat (length l).
Proof.
  revert acc. induction l as [|c l IH]; intros acc Ha H; cbn [hex_number] in H.
  - injection H as <-. change (16 ^ Z.of_nat (length [])) with 1. lia.
  - destruct (hex_value c) as [d|] eqn:E; [|done]. apply hex_value_bounds in E.
    apply IH in H; [|lia]. cbn [length]. rewrite Nat2Z.inj_succ, Z.pow_succ_r by lia.
    assert (0 < 16 ^ Z.of_nat (length l)) by (apply Z.pow_pos_nonneg; lia). nia.
Qed.

Lemma parseHextet_to_hex h : 0 <= h < 2 ^ 16 -> parseHextet (to_hex h) = Some h.
Proof.
  intros Hh. unfold parseHextet.
  assert (length (to_hex h) <= 4)%nat by (apply to_hex_fuel_length; exact Hh).
  pose proof (to_hex_nonempty h). destruct (to_hex h) eqn:E; [done|].
  rewrite (proj2 (Z.leb_le 1 _)) by (cbn [length]; lia).
  rewrite (proj2 (Z.leb_le _ 4)) by lia. cbn [andb]. rewrite <- E. apply to_hex_number. lia.
Qed.

Lemma parseHextet_bounds part h : parseHextet part = Some h -> 0 <= h < 2 ^ 16.
Proof.
  unfold parseHextet. destruct (_ && _) eqn:E; [|done].
  rewrite andb_true_iff, !Z.leb_le in E. intros H%hex_number_bounds; [|lia].
  assert (16 ^ Z.of_nat (length part) <= 16 ^ 4) by (apply Z.pow_le_mono_r; lia).
  change (16 ^ 4) with (2 ^ 16) in *. lia.
Qed.

Lemma parseOctet_bounds part o : parseOctet part = Some o -> 0 <= o < 2 ^ 8.
Proof.
  unfold parseOctet. destruct (canonical_integer part && _) eqn:E; [|done]. cbn [negb].
  apply andb_true_iff in E as [E%canonical_integer_digits _].
  destruct (Z.ltb_spec 255 (of_digits part)); [done|]. intros [= <-].
  pose proof (of_digits_nonneg _ E). change (2 ^ 8) with 256. lia.
Qed.

Lemma parseOctet_to_digits o : 0 <= o < 2 ^ 8 -> parseOctet (to_digits o) = Some o.
Proof.
  intros Ho. change (2 ^ 8) with 256 in Ho. unfold parseOctet.
  assert (length (to_digits o) <= 3)%nat by (apply to_digits_length; simpl; lia).
  rewrite to_digits_canonical, (proj2 (Z.leb_le _ 3)), of_to_digits by lia. cbn [andb negb].
  by rewrite (proj2 (Z.ltb_ge 255 o)) by lia.
Qed.

Lemma to_digits_hexish n : 0 <= n -> Forall hexish (to_digits n).
Proof.
  intros H. apply Forall_forall. intros c Hc%list_elem_of_In. apply digit_hexish.
  by apply (proj1 (all_digits_In _) (to_digits_all n H)).
Qed.

Lemma to_hex_hexish n : 0 <= n -> Forall hexish (to_hex n).
Proof. intros H. by eapply hex_number_hexish, to_hex_number. Qed.
End Digits.

(** ** What the parsers accept *)

Section Parsed.

Lemma lor_pair a b : 0 <= b < 2 ^ 8 -> Z.lor (Z.shiftl a 8) b = a * 2 ^ 8 + b.
Proof.
  intros Hb. rewrite <- Z.shiftl_mul_pow2 by lia.
  assert (Z.land (Z.shiftl a 8) b = 0) as H0.
  { apply Z.bits_inj'. intros i Hi. rewrite Z.land_spec, Z.bits_0.
    destruct (Z.ltb_spec i 8); [by rewrite Z.shiftl_spec_low|].
    assert (Z.testbit b i = false) as ->; [|by rewrite andb_false_r].
    apply Z.testbit_false; [done|]. rewrite Z.div_small; [done|].
    pose proof (Z.pow_le_mono_r 2 8 i). lia. }
  symmetry. rewrite <- Z.lxor_lor by done. by apply Z.add_nocarry_lxor.
Qed.

Lemma parseIpv4Octets_parsed a gs :
  parseIpv4Octets a = Some gs -> length gs = 4%nat /\ bounded 8 gs.
Proof.
  unfold parseIpv4Octets. destruct (Nat.eqb_spec (length (split_on "." a)) 4); [|done].
  cbn [negb]. intros H. split; [by rewrite <- (length_mapM _ _ _ H)|].
  apply mapM_Some in H. eapply Forall2_Forall_r; [exact H|].
  apply Forall_true. intros part o. apply parseOctet_bounds.
Qed.

Lemma toHextets_bounded parts hs : toHextets parts = Some hs -> bounded 16 hs.
Proof.
  revert hs. induction parts as [|part rest IH]; intros hs H; [by injection H as <-; constructor|].
  cbn [toHextets] in H. destruct (has_char "." part).
  - destruct rest; [|done]. destruct (parseIpv4Octets part) as [os|] eqn:E; [|done].
    apply parseIpv4Octets_parsed in E as [_ B]. cbn [mbind option_bind] in H.
    destruct os as [|o0 [|o1 [|o2 [|o3 [|]]]]]; try done. injection H as <-.
    apply Forall_cons in B as [B0 B]. apply Forall_cons in B as [B1 B].
    apply Forall_cons in B as [B2 B]. apply Forall_cons in B as [B3 _].
    rewrite !lor_pair by done. repeat constructor; lia.
  - destruct (parseHextet part) as [h|] eqn:E; [|done]. cbn [mbind option_bind] in H.
    destruct (toHextets rest) as [hs'|]; [|done]. injection H as <-.
    constructor; [by eapply parseHextet_bounds|by apply IH].
Qed.

Lemma parseIpv6Hextets_parsed a hs :
  parseIpv6Hextets a = Some hs -> length hs = 8%nat /\ bounded 16 hs.
Proof.
  unfold parseIpv6Hextets. destruct (split_elision a) as [[before after]|].
  - case_bool_decide; [done|]. destruct (toSide before) as [hd|] eqn:E1; cbn [mbind option_bind]; [|done].
    destruct (toSide after) as [tl|] eqn:E2; cbn [mbind option_bind]; [|done].
    destruct (Z.ltb_spec (8 - Z.of_nat (length hd) - Z.of_nat (length tl)) 1); [done|].
    intros [= <-]. rewrite !length_app, repeat_length. split; [lia|].
    apply Forall_app; split; [by eapply toHextets_bounded|].
    apply Forall_app; split; [|by eapply toHextets_bounded].
    apply Forall_forall. intros x Hx%list_elem_of_In%repeat_spec. by subst.
  - destruct (toHextets _) as [hs'|] eqn:E; cbn [mbind option_bind]; [|done].
    destruct (Nat.eqb_spec (length hs') 8); [|done]. intros [= ->].
    split; [done|by eapply toHextets_bounded].
Qed.

(** The width of a group and the number of groups of an address. *)
Definition width_of (t : IpType) : Z := match t with ipv4 => 8 | ipv6 => 16 end.
Definition group_count (t : IpType) : nat := match t with ipv4 => 4%nat | ipv6 => 8%nat end.

Lemma parseGroups_parsed t a gs :
  parseGroups t a = Some gs -> length gs = group_count t /\ bounded (width_of t) gs.
Proof. destruct t; [apply parseIpv4Octets_parsed|apply parseIpv6Hextets_parsed]. Qed.

(** What is known of a parsed range. *)
Record valid_range (r : ParsedIpRange) : Prop := mkValidRange {
  valid_groups : parseGroups (range_type r) (chars (range_address r)) = Some (groups r);
  valid_prefix : 0 <= prefix r <= maximumPrefix (range_type r);
}.

Lemma parsePrefix_bounds t raw p : parsePrefix t raw = Some p -> 0 <= p <= maximumPrefix t.
Proof.
  unfold parsePrefix. destruct (canonical_integer raw) eqn:E; [|done]. cbn [negb].
  apply canonical_integer_digits in E. destruct (Z.ltb_spec (maximumPrefix t) (of_digits raw)); [done|].
  intros [= <-]. pose proof (of_digits_nonneg _ E). lia.
Qed.

Lemma parseIpRange_valid v r : parseIpRange v = Some r -> valid_range r.
Proof.
  unfold parseIpRange. destruct (_ || _); [done|].
  destruct (split_on "/" (chars v)) as [|a raws]; [done|].
  destruct (Nat.ltb _ _); [done|]. destruct (has_char "%" a); [done|].
  destruct (parseGroups (typeOf a) a) as [gs|] eqn:E; cbn [mbind option_bind]; [|done].
  destruct raws as [|raw ?].
  - intros [= <-]. split; cbn; [by rewrite chars_text|by destruct (typeOf a)].
  - destruct (parsePrefix _ raw) as [p|] eqn:Ep; [|done]. intros [= <-].
    split; cbn; [by rewrite chars_text|by apply parsePrefix_bounds in Ep].
Qed.

(** ** Formatted addresses *)

Lemma has_char_false c l : Forall (fun x => x <> c) l -> has_char c l = false.
Proof.
  induction 1 as [|x l Hx Hl IH]; [done|]. unfold has_char in *. cbn [existsb].
  rewrite IH, orb_false_r. apply Ascii.eqb_neq. congruence.
Qed.

Lemma has_char_true c l : c ∈ l -> has_char c l = true.
Proof.
  intros H. apply existsb_exists. exists c. split; [by apply list_elem_of_In|].
  apply Ascii.eqb_refl.
Qed.

Lemma hexish_all_not l c : hex_value c = None -> Forall hexish l -> Forall (fun x => x <> c) l.
Proof. intros Hc H. eapply Forall_impl; [exact H|]. intros x Hx. by eapply hexish_not. Qed.

Lemma join_chars (P : ascii -> Prop) sep ls :
  P sep -> Forall (Forall P) ls -> Forall P (join [sep] ls).
Proof.
  intros Hs. induction 1 as [|s ls Hls Hrest IH]; [constructor|].
  destruct ls as [|s' ls]; [done|].
  change (join [sep] (s :: s' :: ls)) with (s ++ sep :: join [sep] (s' :: ls)).
  apply Forall_app. auto.
Qed.

(** A dotted or colon-separated list of groups splits into its groups. *)
Lemma split_groups sep ls :
  hex_value sep = None -> ls <> [] -> Forall (Forall hexish) ls ->
  split_on sep (join [sep] ls) = ls.
Proof.
  intros Hs Hne H. apply split_on_join_parts; [done|].
  eapply Forall_impl; [exact H|]. intros s Hh c Hc.
  apply (hexish_all_not _ sep) in Hh; [|done]. rewrite Forall_forall in Hh.
  by apply Hh, list_elem_of_In.
Qed.

Lemma octets_hexish gs : bounded 8 gs -> Forall (Forall hexish) (to_digits <$> gs).
Proof. intros H. apply Forall_fmap. eapply Forall_impl; [exact H|]. intros g [Hg _]. by apply to_digits_hexish. Qed.

Lemma hextets_hexish hs : bounded 16 hs -> Forall (Forall hexish) (to_hex <$> hs).
Proof. intros H. apply Forall_fmap. eapply Forall_impl; [exact H|]. intros g [Hg _]. by apply to_hex_hexish. Qed.

Lemma parse_formatIpv4 gs :
  length gs = 4%nat -> bounded 8 gs -> parseIpv4Octets (formatIpv4 gs) = Some gs.
Proof.
  intros Hl Hb. unfold parseIpv4Octets, formatIpv4.
  rewrite split_groups; [|done| |by apply octets_hexish]; [|by destruct gs].
  rewrite length_fmap, Hl. cbn [Nat.eqb negb].
  apply mapM_Some, Forall2_fmap_l, Forall_Forall2_diag.
  eapply Forall_impl; [exact Hb|]. intros g. apply parseOctet_to_digits.
Qed.
End Parsed.

(** ** RFC 5952 *)

Section Elision.

Lemma toHextets_to_hex hs : bounded 16 hs -> toHextets (to_hex <$> hs) = Some hs.
Proof.
  induction 1 as [|h hs Hh Hhs IH]; [done|]. cbn [fmap list_fmap toHextets].
  assert (Forall hexish (to_hex h)) by (apply to_hex_hexish; lia).
  rewrite has_char_false, parseHextet_to_hex by (done || by apply hexish_all_not).
  cbn [mbind option_bind]. change (list_fmap _ _ to_hex hs) with (to_hex <$> hs). by rewrite IH.
Qed.

(** Text without a colon is passed over. *)
Lemma elision_skip s t :
  Forall (fun c => c <> ":"%char) s ->
  split_elision (s ++ t) = (fun '(b, a) => (s ++ b, a)) <$> split_elision t.
Proof.
  induction 1 as [|c s Hc Hs IH]; [cbn [app]; by destruct (split_elision t) as [[]|]|].
  cbn [app split_elision]. destruct (s ++ t) as [|c' st] eqn:E.
  - apply app_eq_nil in E as [-> ->]. done.
  - rewrite (proj2 (Ascii.eqb_neq c ":")) by done. cbn [andb]. rewrite IH.
    by destruct (split_elision t) as [[]|].
Qed.

(** A colon followed by something else is not an elision. *)
Lemma elision_colon c t :
  c <> ":"%char ->
  split_elision (":"%char :: c :: t)
  = (fun '(b, a) => (":"%char :: b, a)) <$> split_elision (c :: t).
Proof.
  intros Hc. apply Ascii.eqb_neq in Hc.
  change (split_elision (":"%char :: c :: t))
    with (if Ascii.eqb ":" ":" && Ascii.eqb c ":" then Some ([], t)
          else match split_elision (c :: t) with
               | Some (before, after) => Some (":"%char :: before, after)
               | None => None
               end).
  rewrite Hc, andb_false_r. by destruct (split_elision (c :: t)) as [[]|].
Qed.

Lemma elision_here t : split_elision (":"%char :: ":"%char :: t) = Some ([], t).
Proof. reflexivity. Qed.

(** Groups that can be written between colons. *)
Definition group_text (s : list ascii) : Prop := Forall hexish s /\ s <> [].

Lemma group_text_head s : group_text s -> exists c s', s = c :: s' /\ c <> ":"%char.
Proof.
  intros [Hh Hne]. destruct s as [|c s]; [done|]. apply Forall_cons in Hh as [Hc _].
  exists c, s. split; [done|]. by apply hexish_not.
Qed.

Lemma elision_join gs t :
  Forall group_text gs ->
  split_elision (join [":"%char] gs ++ t)
  = (fun '(b, a) => (join [":"%char] gs ++ b, a)) <$> split_elision t.
Proof.
  induction 1 as [|s gs Hs Hgs IH]; [cbn [app join]; by destruct (split_elision t) as [[]|]|].
  assert (Forall (fun c => c <> ":"%char) s) as Hc by by apply hexish_all_not, Hs.
  destruct gs as [|s' gs]; [by apply elision_skip|].
  change (join [":"%char] (s :: s' :: gs)) with (s ++ ":"%char :: join [":"%char] (s' :: gs)).
  rewrite <- app_assoc, elision_skip by done. cbn [app].
  apply Forall_cons in Hgs as [Hs' _].
  destruct (group_text_head _ Hs') as (c & r & -> & Hne).
  assert (exists j, join [":"%char] ((c :: r) :: gs) = c :: j) as [j Hj]
    by (destruct gs; by eexists).
  rewrite Hj in *. cbn [app] in *. rewrite elision_colon, IH by done.
  destruct (split_elision t) as [[b a]|]; [|done]. cbn. by rewrite <- app_assoc.
Qed.

Lemma hextet_texts hs : bounded 16 hs -> Forall group_text (to_hex <$> hs).
Proof.
  intros H. apply Forall_fmap. eapply Forall_impl; [exact H|]. intros h [Hh _].
  split; [by apply to_hex_hexish|apply to_hex_nonempty].
Qed.

Lemma no_elision gs : Forall group_text gs -> split_elision (join [":"%char] gs) = None.
Proof. intros H. rewrite <- (app_nil_r (join _ _)), elision_join; done. Qed.

Lemma no_second_elision gs :
  Forall group_text gs -> split_elision (":"%char :: join [":"%char] gs) = None.
Proof.
  intros H. destruct gs as [|s gs]; [done|]. apply Forall_cons in H as H'. destruct H' as [Hs _].
  destruct (group_text_head _ Hs) as (c & r & -> & Hne).
  assert (exists j, join [":"%char] ((c :: r) :: gs) = c :: j) as [j Hj]
    by (destruct gs; by eexists).
  rewrite Hj, elision_colon, <- Hj, no_elision by done. done.
Qed.

Lemma toSide_join hs : bounded 16 hs -> toSide (join [":"%char] (to_hex <$> hs)) = Some hs.
Proof.
  intros Hb. unfold toSide. destruct hs as [|h hs]; [done|].
  pose proof (hextet_texts _ Hb) as Ht. rewrite fmap_cons in *.
  apply Forall_cons in Ht as Ht'. destruct Ht' as [Hs _].
  destruct (group_text_head _ Hs) as (c & r & Hc & _).
  assert (0 < length (join [":"%char] (to_hex h :: (to_hex <$> hs))))%nat as Hlen.
  { rewrite Hc. destruct hs; cbn; lia. }
  rewrite (proj2 (Z.ltb_lt 0 _)) by lia.
  rewrite split_groups; [|done|done|by apply (hextets_hexish (h :: hs))].
  by apply (toHextets_to_hex (h :: hs)).
Qed.
End Elision.

Section Runs.
Variable hs : list Z.

(** The hextets from [a] to [b] are zeros. *)
Definition zeros_in (a b : Z) : Prop :=
  0 <= a <= b /\ forall k, a <= Z.of_nat k < b -> hs !! k = Some 0.

Definition good_best (s : ZeroRuns) : Prop :=
  bestLength s = 0 \/ (0 < bestLength s /\ zeros_in (bestStart s) (bestStart s + bestLength s)).

Definition good_runs (index : Z) (s : ZeroRuns) : Prop :=
  good_best s /\ (runStart s = -1 \/ zeros_in (runStart s) index).

Lemma closeRun_good index s :
  good_runs index s -> good_best (closeRun index s) /\ runStart (closeRun index s) = -1.
Proof.
  intros [Hb Hr]. unfold closeRun. destruct (Z.eqb_spec (runStart s) (-1)); [done|].
  destruct Hr as [|Hz]; [done|]. destruct (Z.ltb_spec (bestLength s) (index - runStart s)); [|done].
  split; [|done]. right. cbn.
  assert (0 <= bestLength s) by (destruct Hb as [->|[]]; lia).
  split; [lia|]. by replace (runStart s + (index - runStart s)) with index by lia.
Qed.

Lemma scanRuns_good rest pre s :
  hs = pre ++ rest -> good_runs (Z.of_nat (length pre)) s ->
  good_best (scanRuns (Z.of_nat (length pre)) rest s).
Proof.
  revert pre s. induction rest as [|h rest IH]; intros pre s E Hg; cbn [scanRuns].
  { by apply closeRun_good. }
  replace (Z.of_nat (length pre) + 1) with (Z.of_nat (length (pre ++ [h])))
    by (rewrite length_app; cbn; lia).
  apply IH; [by rewrite <- app_assoc|].
  rewrite length_app, Nat2Z.inj_add. cbn [length]. change (Z.of_nat 1) with 1.
  destruct (Z.eqb_spec h 0) as [->|].
  - assert (hs !! length pre = Some 0) as Hh by (rewrite E; by apply list_lookup_middle).
    destruct Hg as [Hb Hr]. destruct (Z.eqb_spec (runStart s) (-1)).
    + split; [exact Hb|]. right. split; cbn; [lia|]. intros k Hk.
      by replace k with (length pre) by lia.
    + split; [done|]. right. destruct Hr as [|[Hle Hz]]; [done|]. split; [lia|].
      intros k Hk. destruct (decide (k = length pre)) as [->|]; [done|]. apply Hz. lia.
  - destruct (closeRun_good _ _ Hg) as [Hb Hr]. split; [done|by left].
Qed.

Lemma scanRuns_best : good_best (scanRuns 0 hs (mkRuns (-1) 0 (-1))).
Proof. apply (scanRuns_good hs []); [done|]. split; by left. Qed.

Lemma lookup_repeat {A} (x : A) n i : (i < n)%nat -> repeat x n !! i = Some x.
Proof. revert i. induction n as [|n IH]; intros [|i] Hi; try lia; [done|]. apply IH. lia. Qed.

Lemma zeros_in_split a b :
  a < b -> zeros_in a b ->
  hs = take (Z.to_nat a) hs ++ repeat 0 (Z.to_nat (b - a)) ++ drop (Z.to_nat b) hs.
Proof.
  intros Hab [Hle Hz].
  replace (Z.to_nat b) with (Z.to_nat a + Z.to_nat (b - a))%nat by lia.
  rewrite <- drop_drop. set (n := Z.to_nat (b - a)).
  assert (take n (drop (Z.to_nat a) hs) = repeat 0 n) as E.
  { apply list_eq. intros i. destruct (decide (i < n)%nat).
    - rewrite lookup_take_lt, lookup_drop by done.
      rewrite Hz by lia. symmetry. by apply lookup_repeat.
    - rewrite lookup_take_ge by lia. symmetry. apply lookup_ge_None.
      rewrite repeat_length. lia. }
  by rewrite <- E, !take_drop.
Qed.
End Runs.

(** The text of a canonical address reads back as the same hextets. *)
Lemma parse_formatIpv6 hs :
  length hs = 8%nat -> bounded 16 hs -> parseIpv6Hextets (formatIpv6 hs) = Some hs.
Proof.
  intros Hl Hb. pose proof (scanRuns_best hs) as Hbest. unfold formatIpv6, parseIpv6Hextets.
  set (best := scanRuns 0 hs _) in *. destruct (Z.ltb_spec (bestLength best) 2).
  - rewrite no_elision by by apply hextet_texts.
    rewrite split_groups; [|done|by destruct hs|by apply hextets_hexish].
    rewrite toHextets_to_hex by done. cbn [mbind option_bind]. by rewrite Hl.
  - destruct Hbest as [|[_ Hz]]; [lia|]. apply zeros_in_split in Hz as Hs; [|lia].
    set (a := Z.to_nat (bestStart best)) in *.
    set (b := Z.to_nat (bestStart best + bestLength best)) in *.
    rewrite <- !fmap_take, <- !fmap_drop.
    assert (bounded 16 (take a hs)) as Ha by by apply Forall_take.
    assert (bounded 16 (drop b hs)) as Hd by by apply Forall_drop.
    rewrite elision_join by by apply hextet_texts. cbn [app].
    rewrite elision_here. cbn [fmap option_fmap option_map]. rewrite app_nil_r.
    rewrite bool_decide_eq_false_2
      by (rewrite no_second_elision by (by apply hextet_texts); by intros [? ?]).
    rewrite !toSide_join by done. cbn [mbind option_bind].
    assert (length hs = length (take a hs) + Z.to_nat (bestLength best) + length (drop b hs))%nat as E.
    { rewrite Hs at 1. rewrite !length_app, repeat_length. unfold a, b. lia. }
    rewrite (proj2 (Z.ltb_ge _ 1)) by lia. f_equal. symmetry.
    etransitivity; [exact Hs|]. do 3 f_equal. lia.
Qed.

(** ** The canonical form *)

(** The set of addresses a range selects: its first address and its prefix, within
    the 128-bit space. *)
Definition network (r : ParsedIpRange) : Z * Z :=
  let p := prefix_of (range_type r) (prefix r) in
  (floor_to (128 - p) (groups_number (range_type r) (groups r)), p).

Section Canonical.

Lemma parse_formatRange a gs p :
  a <> [] -> Forall address_char a -> parseGroups (typeOf a) a = Some gs ->
  0 <= p <= maximumPrefix (typeOf a) ->
  parseIpRange (formatRange a p (maximumPrefix (typeOf a)))
  = Some (mkRange (text a) gs p (typeOf a)).
Proof.
  intros Hne Hc Hg Hp.
  assert (forall x, In x a -> is_space x = false /\ x <> "/"%char /\ x <> "%"%char) as Ha.
  { intros x Hx. apply address_char_clean. rewrite Forall_forall in Hc.
    by apply Hc, list_elem_of_In. }
  assert (has_char "%" a = false) as Hpc.
  { apply has_char_false, Forall_forall. intros x Hx%list_elem_of_In. by apply Ha. }
  pose proof (to_digits_all p ltac:(lia)) as Hd.
  unfold formatRange, parseIpRange. rewrite chars_text.
  destruct (Z.eqb_spec p (maximumPrefix (typeOf a))) as [->|Hlt].
  - rewrite trim_no_space by (intros x Hx; by apply Ha). rewrite bool_decide_eq_false_2 by done.
    rewrite bool_decide_eq_true_2 by done. cbn [negb orb].
    rewrite split_on_none by (intros x Hx; by apply Ha). cbn [length Nat.ltb Nat.leb].
    by rewrite Hpc, Hg.
  - rewrite trim_no_space.
    2:{ intros x [Hx|[<-|Hx]]%in_app_or; [by apply Ha|done|].
        apply digit_not_space. by apply (proj1 (all_digits_In _) Hd). }
    rewrite bool_decide_eq_false_2 by (by destruct a). rewrite bool_decide_eq_true_2 by done.
    cbn [negb orb]. rewrite split_on_first by (intros x Hx; by apply Ha).
    rewrite split_on_none.
    2:{ intros x Hx ->. by pose proof (proj1 (all_digits_In _) Hd _ Hx). }
    cbn [length Nat.ltb Nat.leb]. rewrite Hpc, Hg. cbn [mbind option_bind].
    unfold parsePrefix. rewrite to_digits_canonical, of_to_digits by lia. cbn [negb].
    by rewrite (proj2 (Z.ltb_ge _ _)) by lia.
Qed.

Lemma formatIpv4_chars gs : bounded 8 gs -> Forall (fun c => hexish c \/ c = "."%char) (formatIpv4 gs).
Proof.
  intros H. apply join_chars; [by right|]. eapply Forall_impl; [by apply octets_hexish|].
  intros s Hs. eapply Forall_impl; [exact Hs|]. by left.
Qed.

Lemma formatIpv4_type gs : bounded 8 gs -> typeOf (formatIpv4 gs) = ipv4.
Proof.
  intros H. unfold typeOf. rewrite has_char_false; [done|].
  eapply Forall_impl; [by apply formatIpv4_chars|]. intros c [Hc| ->]; [by apply hexish_not|done].
Qed.

Lemma join_hextets_chars hs :
  bounded 16 hs -> Forall address_char (join [":"%char] (to_hex <$> hs)).
Proof.
  intros H. apply join_chars; [by right; right|]. eapply Forall_impl; [by apply hextets_hexish|].
  intros s Hs. eapply Forall_impl; [exact Hs|]. by left.
Qed.

Lemma formatIpv6_chars hs : bounded 16 hs -> Forall address_char (formatIpv6 hs).
Proof.
  intros H. unfold formatIpv6. destruct (_ <? 2); [by apply join_hextets_chars|].
  rewrite <- fmap_take, <- fmap_drop. apply Forall_app. split.
  { by apply join_hextets_chars, Forall_take. }
  constructor; [by right; right|]. constructor; [by right; right|].
  by apply join_hextets_chars, Forall_drop.
Qed.

Lemma formatIpv6_type hs : length hs = 8%nat -> typeOf (formatIpv6 hs) = ipv6.
Proof.
  intros H. unfold typeOf. rewrite has_char_true; [done|]. unfold formatIpv6.
  destruct (_ <? 2).
  - destruct hs as [|h [|h' hs]]; try done. rewrite !fmap_cons.
    change (join [":"%char] (to_hex h :: to_hex h' :: (to_hex <$> hs)))
      with (to_hex h ++ ":"%char :: join [":"%char] (to_hex h' :: (to_hex <$> hs))).
    apply elem_of_app; right. constructor.
  - apply elem_of_app; right. constructor.
Qed.

Lemma formatRange_ipv4 gs p :
  length gs = 4%nat -> bounded 8 gs -> 0 <= p <= 32 ->
  parseIpRange (formatRange (formatIpv4 gs) p 32) = Some (mkRange (text (formatIpv4 gs)) gs p ipv4).
Proof.
  intros Hl Hb Hp. pose proof (formatIpv4_type gs Hb) as Ht.
  pose proof (parse_formatIpv4 gs Hl Hb) as Hg.
  pose proof (parse_formatRange (formatIpv4 gs) gs p) as H. rewrite Ht in H. apply H; [| |done|done].
  - intros E. by rewrite E in Hg.
  - eapply Forall_impl; [by apply formatIpv4_chars|]. intros c [Hc|Hc]; [by left|by right; left].
Qed.

Lemma formatRange_ipv6 hs p :
  length hs = 8%nat -> bounded 16 hs -> 0 <= p <= 128 ->
  parseIpRange (formatRange (formatIpv6 hs) p 128)
  = Some (mkRange (text (formatIpv6 hs)) hs p ipv6).
Proof.
  intros Hl Hb Hp. pose proof (formatIpv6_type hs Hl) as Ht.
  pose proof (parse_formatIpv6 hs Hl Hb) as Hg.
  pose proof (parse_formatRange (formatIpv6 hs) hs p) as H. rewrite Ht in H.
  apply H; [|by apply formatIpv6_chars|done|done]. intros E. by rewrite E in Hg.
Qed.

(** The IPv4-mapped hextets, and the octets they hold. *)
Lemma mapped_octets hs :
  length hs = 8%nat -> bounded 16 hs -> isIpv4Mapped hs = true ->
  length (mappedOctets hs) = 4%nat /\ bounded 8 (mappedOctets hs)
  /\ groups_number ipv4 (mappedOctets hs) = groups_number ipv6 hs.
Proof.
  intros Hl Hb Hm. do 8 (destruct hs as [|? hs]; [done|]). destruct hs; [|done].
  unfold isIpv4Mapped in Hm. cbn in Hm. rewrite !andb_true_iff, !Z.eqb_eq in Hm.
  destruct Hm as ((-> & -> & -> & -> & -> & _) & ->).
  do 6 apply Forall_cons_1 in Hb as [_ Hb].
  apply Forall_cons_1 in Hb as [H6 Hb]. apply Forall_cons_1 in Hb as [H7 _].
  change (2 ^ 16) with 65536 in *. unfold mappedOctets, group_at. cbn [nth].
  rewrite !Z.shiftr_div_pow2 by lia. change 255 with (Z.ones 8). rewrite !Z.land_ones by lia.
  change (2 ^ 8) with 256. split; [done|]. split.
  - assert (forall z, 0 <= z < 65536 -> 0 <= z / 256 < 2 ^ 8 /\ 0 <= z mod 256 < 2 ^ 8) as Hz.
    { intros z Hz. change (2 ^ 8) with 256. Z.div_mod_to_equations. lia. }
    repeat (apply Forall_cons; split; [by apply Hz|]). constructor.
  - cbn. change (Z.pow_pos 2 8) with 256. change (Z.pow_pos 2 16) with 65536.
    change (Z.pow_pos 2 32) with 4294967296. Z.div_mod_to_equations. lia.
Qed.

(** Only IPv4-mapped hextets have a number in the IPv4-mapped range. *)
Lemma mapped_number hs n :
  length hs = 8%nat -> bounded 16 hs -> 0 <= n < 2 ^ 32 ->
  address_number 16 hs = 65535 * 2 ^ 32 + n -> isIpv4Mapped hs = true.
Proof.
  intros Hl Hb Hn E. do 8 (destruct hs as [|? hs]; [done|]). destruct hs; [|done].
  do 7 (apply Forall_cons_1 in Hb as [? Hb]). apply Forall_cons_1 in Hb as [? _].
  change (2 ^ 16) with 65536 in *. cbn in E. change (2 ^ 32) with 4294967296 in *.
  change (Z.pow_pos 2 16) with 65536 in E.
  unfold isIpv4Mapped. cbn. rewrite !andb_true_iff, !Z.eqb_eq. split_and!; done || lia.
Qed.

(** What the mask leaves of the groups is the first address of the network. *)
Lemma masked_network r :
  valid_range r ->
  groups_number (range_type r)
    (maskGroups (groups r) (width_of (range_type r)) (prefix r)) = (network r).1.
Proof.
  intros [Hg Hp]. apply parseGroups_parsed in Hg as [Hl Hb]. unfold network. cbn [fst].
  destruct (range_type r); cbn [width_of group_count maximumPrefix prefix_of groups_number] in *.
  - rewrite maskGroups_number, Hl by (rewrite ?Hl; done || lia).
    rewrite floor_to_high by lia. do 2 f_equal. lia.
  - rewrite maskGroups_number, Hl by (rewrite ?Hl; done || lia). f_equal. lia.
Qed.

Lemma masked_groups r :
  valid_range r ->
  let gs := maskGroups (groups r) (width_of (range_type r)) (prefix r) in
  length gs = group_count (range_type r) /\ bounded (width_of (range_type r)) gs.
Proof.
  intros [Hg _]. apply parseGroups_parsed in Hg as [Hl Hb]. cbv zeta.
  rewrite maskGroups_length. split; [done|]. apply maskGroups_bounded; [|done].
  by destruct (range_type r).
Qed.

(** The canonical text of a range reads back as the same network. *)
Lemma canonicalRange_parsed r :
  valid_range r ->
  exists r', parseIpRange (canonicalRange r) = Some r' /\ network r' = network r.
Proof.
  intros Hr. pose proof (masked_network r Hr) as Hn. pose proof (masked_groups r Hr) as [Hl Hb].
  pose proof (valid_prefix r Hr) as Hp.
  assert (0 <= 128 - (network r).2) as H0 by (unfold network; cbn; destruct (range_type r); cbn in *; lia).
  assert (floor_to (128 - (network r).2) (network r).1 = (network r).1) as Hi
    by (unfold network in *; cbn [fst snd] in *; by apply floor_to_idem).
  unfold canonicalRange. destruct (range_type r) eqn:Et; cbn [width_of group_count maximumPrefix] in *.
  - eexists. split; [by apply formatRange_ipv4|].
    unfold network at 1. cbn [range_type groups prefix]. rewrite Hn.
    assert ((network r).2 = prefix_of ipv4 (prefix r)) as H2 by (unfold network; by rewrite Et).
    rewrite <- H2, Hi. by destruct (network r).
  - assert ((network r).2 = prefix r) as H2 by (unfold network; by rewrite Et).
    destruct (Z.leb_spec 96 (prefix r)); cbn [andb]; [destruct (isIpv4Mapped _) eqn:Em|].
    + destruct (mapped_octets _ Hl Hb Em) as (Hl4 & Hb4 & Hn4).
      eexists. split; [apply formatRange_ipv4; [done|done|lia]|].
      unfold network at 1. cbn [range_type groups prefix prefix_of]. rewrite Hn4, Hn.
      rewrite Z.sub_add, <- H2, Hi. by destruct (network r).
    + eexists. split; [by apply formatRange_ipv6|].
      unfold network at 1. cbn [range_type groups prefix prefix_of]. rewrite Hn.
      rewrite <- H2, Hi. by destruct (network r).
    + eexists. split; [by apply formatRange_ipv6|].
      unfold network at 1. cbn [range_type groups prefix prefix_of]. rewrite Hn.
      rewrite <- H2, Hi. by destruct (network r).
Qed.

(** The canonical text of a mixed pair: an IPv4 range and the IPv6 range of its
    mapped addresses. *)
Lemma canonicalRange_mixed r4 r6 :
  valid_range r4 -> valid_range r6 -> range_type r4 = ipv4 -> range_type r6 = ipv6 ->
  network r4 = network r6 -> canonicalRange r4 = canonicalRange r6.
Proof.
  intros H4 H6 E4 E6 E. pose proof (masked_network _ H4) as N4. pose proof (masked_network _ H6) as N6.
  pose proof (masked_groups _ H4) as [L4 B4]. pose proof (masked_groups _ H6) as [L6 B6].
  pose proof (valid_prefix _ H4) as P4.
  unfold canonicalRange. rewrite E4, E6 in *. cbn [width_of group_count maximumPrefix] in *.
  assert (prefix r6 = prefix r4 + 96) as Hp.
  { apply (f_equal snd) in E. unfold network in E. rewrite E4, E6 in E. symmetry. exact E. }
  rewrite Hp in *. rewrite (proj2 (Z.leb_le 96 _)) by lia. cbn [andb].
  rewrite <- E, <- N4 in N6. cbn [groups_number] in N6.
  pose proof (address_number_bounds 8 _ ltac:(lia) B4) as Bn. rewrite L4 in Bn.
  pose proof (mapped_number _ _ L6 B6 Bn N6) as Hm. rewrite Hm.
  destruct (mapped_octets _ L6 B6 Hm) as (L & B & N). cbn [groups_number] in N.
  assert (maskGroups (groups r4) 8 (prefix r4)
          = mappedOctets (maskGroups (groups r6) 16 (prefix r4 + 96))) as <-.
  { apply (address_number_inj 8); [lia|congruence|done|done|lia]. }
  by replace (prefix r4 + 96 - 96) with (prefix r4) by lia.
Qed.

Lemma canonicalRange_same r r' :
  valid_range r -> valid_range r' -> network r = network r' ->
  canonicalRange r = canonicalRange r'.
Proof.
  intros H H' E. destruct (range_type r) eqn:Et, (range_type r') eqn:Et'.
  2:{ by apply canonicalRange_mixed. }
  2:{ symmetry. by apply canonicalRange_mixed. }
  all: pose proof (masked_network _ H) as N; pose proof (masked_network _ H') as N';
    pose proof (masked_groups _ H) as [L B]; pose proof (masked_groups _ H') as [L' B'];
    unfold canonicalRange; rewrite Et, Et' in *; cbn [width_of group_count groups_number] in *;
    assert (prefix r = prefix r') as Hp
      by (apply (f_equal snd) in E; unfold network in E; rewrite Et, Et' in E; cbn in E; lia);
    rewrite E, <- N' in N; try apply Z.add_reg_l in N;
    apply address_number_inj in N; try done; try congruence; by rewrite N, Hp.
Qed.
End Canonical.

Section MatchingFacts.
Context `{NodeNetLaws}.

(** A client, by the type [isIP] gives it, is in a network. *)
Definition in_network (c : string) (ct : IpType) (n : Z * Z) : bool :=
  same_prefix n.2 (denotes c ct) n.1.

(** The entries of a list that reads as ranges: [None] when one does not. *)
Definition entry_range (e : json) : option ParsedIpRange :=
  match e with JString s => parseIpRange s | _ => None end.

Lemma same_prefix_floor p a b :
  0 <= p <= 128 -> same_prefix p a (floor_to (128 - p) b) = same_prefix p a b.
Proof. intros Hp. unfold same_prefix. by rewrite floor_to_shiftr_same by lia. Qed.

Lemma clientIpType_isIP c ct :
  clientIpType c = Some ct -> isIP c = match ct with ipv4 => 4 | ipv6 => 6 end.
Proof.
  unfold clientIpType. destruct (Z.eqb_spec (isIP c) 4); [by intros [= <-]|].
  destruct (Z.eqb_spec (isIP c) 6); [by intros [= <-]|done].
Qed.

(** One range of the list selects its network. *)
Lemma check_range b b' r c ct :
  valid_range r -> clientIpType c = Some ct ->
  addSubnet b (range_address r) (prefix r) (range_type r) = Some b' ->
  check b' c ct = check b c ct || in_network c ct (network r).
Proof.
  intros [Hg Hp] Hc Ha. erewrite check_added by (done || by apply clientIpType_isIP).
  rewrite (denotes_groups _ _ _ Hg). unfold in_network, network. cbn [fst snd].
  rewrite same_prefix_floor; [done|].
  destruct (range_type r); cbn [prefix_of maximumPrefix] in *; lia.
Qed.

Lemma addEntries_spec entries b c ct :
  clientIpType c = Some ct ->
  match mapM entry_range entries with
  | Some ranges => exists b', addEntries b entries = Some b'
      /\ check b' c ct = check b c ct || existsb (in_network c ct) (network <$> ranges)
  | None => addEntries b entries = None
  end.
Proof.
  intros Hc. revert b. induction entries as [|e entries IH]; intros b.
  { exists b. split; [done|]. cbn. by rewrite orb_false_r. }
  destruct e as [| | |s| |]; cbn [mapM mbind option_bind entry_range addEntries]; try done.
  destruct (parseIpRange s) as [r|] eqn:Er; [|done]. cbn [mbind option_bind].
  apply parseIpRange_valid in Er as Hr. pose proof Hr as [Hg Hp].
  destruct (addSubnet_accepts b _ _ _ _ Hg Hp) as [b1 Hb1]. rewrite Hb1. cbn [mbind option_bind].
  specialize (IH b1). destruct (mapM entry_range entries) as [rs|]; [|done].
  destruct IH as (b' & Hb' & Hch). exists b'. split; [done|].
  rewrite Hch, (check_range _ _ _ _ _ Hr Hc Hb1). cbn. by rewrite orb_assoc.
Qed.

(** A known client of a list that is not empty. *)
Lemma allowed_ranges c ct entries :
  truthy (Some c) = true -> has_char "%" (chars c) = false -> clientIpType c = Some ct ->
  entries <> [] ->
  isClientIpAllowed (Some c) (Some (JArray entries))
  = match mapM entry_range entries with
    | Some ranges => existsb (in_network c ct) (network <$> ranges)
    | None => false
    end.
Proof.
  intros Ht Hp Hc Hne. pose proof (addEntries_spec entries newBlockList c ct Hc) as Ha.
  unfold isClientIpAllowed. rewrite Ht, Hp, Hc. destruct entries; [done|]. cbn [negb orb].
  destruct (mapM entry_range _) as [rs|]; [|by rewrite Ha].
  destruct Ha as (b & -> & ->). by rewrite check_new.
Qed.

(** A client nothing is known of. *)
Definition unknown_client (c : option string) : Prop :=
  match c with
  | None => True
  | Some ip => truthy c = false \/ has_char "%" (chars ip) = true \/ clientIpType ip = None
  end.

Lemma client_cases c :
  unknown_client c
  \/ exists ip ct, c = Some ip /\ truthy c = true /\ has_char "%" (chars ip) = false
       /\ clientIpType ip = Some ct.
Proof.
  destruct c as [ip|]; [|by left]. cbn [unknown_client].
  destruct (truthy (Some ip)) eqn:Ht; [|by auto]. destruct (has_char "%" (chars ip)) eqn:Hp; [by auto|].
  destruct (clientIpType ip) as [ct|] eqn:Hc; [|by auto]. right. by exists ip, ct.
Qed.

Lemma unknown_refused c entries :
  unknown_client c -> entries <> [] -> isClientIpAllowed c (Some (JArray entries)) = false.
Proof.
  intros Hc Hne. destruct entries; [done|]. destruct c as [ip|]; [|done].
  unfold isClientIpAllowed. destruct Hc as [->|[->| ->]]; [done|by rewrite orb_true_r|].
  by destruct (_ || _).
Qed.

(** Two lists whose entries select the same networks admit the same clients. *)
Lemma same_networks_same_clients c (es es' : list json) (rs rs' : list ParsedIpRange) :
  es <> [] -> es' <> [] -> mapM entry_range es = Some rs -> mapM entry_range es' = Some rs' ->
  (forall n, n ∈ network <$> rs <-> n ∈ network <$> rs') ->
  isClientIpAllowed c (Some (JArray es)) = isClientIpAllowed c (Some (JArray es')).
Proof.
  intros Hne Hne' Hm Hm' Hn. destruct (client_cases c) as [Hu|(ip & ct & -> & Ht & Hp & Hc)].
  { by rewrite !unknown_refused. }
  rewrite !(allowed_ranges ip ct), Hm, Hm' by done.
  apply eq_true_iff_eq. rewrite !existsb_exists.
  by setoid_rewrite <- list_elem_of_In; setoid_rewrite Hn.
Qed.

(** ** The stored list *)

Lemma distinct_elem (seen es : list string) (e : string) : e ∈ distinct seen es <-> e ∈ es /\ ~ e ∈ seen.
Proof.
  revert seen. induction es as [|x es IH]; intros seen; cbn [distinct].
  { split; [by intros ?%elem_of_nil|by intros [?%elem_of_nil _]]. }
  destruct (existsb (String.eqb x) seen) eqn:E.
  - apply existsb_exists in E as (y & Hy%list_elem_of_In & ->%String.eqb_eq).
    rewrite IH, elem_of_cons. split; [tauto|]. intros [[->|] ?]; tauto.
  - assert (~ x ∈ seen) as Hx.
    { intros Hx%list_elem_of_In. rewrite <- not_true_iff_false, existsb_exists in E. apply E.
      exists x. by rewrite String.eqb_refl. }
    rewrite !elem_of_cons, IH, elem_of_cons.
    destruct (decide (e = x)) as [->|]; [tauto|]. tauto.
Qed.

Lemma canonicalize_spec v c :
  canonicalizeIpAllowlistEntry v = Some c ->
  exists r r', parseIpRange v = Some r /\ parseIpRange c = Some r' /\ network r' = network r.
Proof.
  unfold canonicalizeIpAllowlistEntry. destruct (parseIpRange v) as [r|] eqn:E; [|done].
  intros [= <-]. destruct (canonicalRange_parsed r) as (r' & Hr' & Hn); [by eapply parseIpRange_valid|].
  by exists r, r'.
Qed.

Lemma canonical_list_spec (vs cs : list string) :
  mapM canonicalizeIpAllowlistEntry vs = Some cs ->
  exists rs rs' : list ParsedIpRange, mapM entry_range (JString <$> vs) = Some rs
    /\ mapM entry_range (JString <$> cs) = Some rs' /\ network <$> rs' = network <$> rs.
Proof.
  intros Hm%mapM_Some. induction Hm as [|v c vs cs Hc _ (rs & rs' & E & E' & Hn)]; [by exists [], []|].
  destruct (canonicalize_spec _ _ Hc) as (r & r' & Hr & Hr' & Hrn).
  exists (r :: rs), (r' :: rs'). rewrite !fmap_cons. cbn [mapM entry_range].
  rewrite Hr, Hr'. cbn [mbind option_bind]. by rewrite E, E', Hn, Hrn.
Qed.

Lemma mapM_elem {A B} (f : A -> option B) (l : list A) (k : list B) y :
  mapM f l = Some k -> (y ∈ k <-> exists x, x ∈ l /\ f x = Some y).
Proof.
  intros Hm%mapM_Some. induction Hm as [|x z l k Hxz _ IH].
  { split; [by intros ?%elem_of_nil|by intros (? & ?%elem_of_nil & _)]. }
  rewrite elem_of_cons, IH. setoid_rewrite elem_of_cons. split.
  - intros [->|(x' & ? & ?)]; eauto.
  - intros (x' & [->|?] & E); [left; congruence|eauto].
Qed.

(** The networks of entries are those of their texts. *)
Lemma entries_networks (xs : list string) (rs : list ParsedIpRange) n :
  mapM entry_range (JString <$> xs) = Some rs ->
  n ∈ network <$> rs <-> exists x r, x ∈ xs /\ parseIpRange x = Some r /\ n = network r.
Proof.
  intros Hm. rewrite list_elem_of_fmap. setoid_rewrite (mapM_elem _ _ _ _ Hm).
  setoid_rewrite list_elem_of_fmap. split.
  - intros (r & -> & j & (x & -> & Hx) & Hr). by exists x, r.
  - intros (x & r & Hx & Hr & ->). eauto 10.
Qed.

(** Entries kept from a list that reads as ranges read as ranges of it. *)
Lemma sublist_networks (cs ds : list string) (rs : list ParsedIpRange) :
  (forall d, d ∈ ds <-> d ∈ cs) -> mapM entry_range (JString <$> cs) = Some rs ->
  exists rs' : list ParsedIpRange, mapM entry_range (JString <$> ds) = Some rs'
    /\ forall n, n ∈ network <$> rs' <-> n ∈ network <$> rs.
Proof.
  intros Hd Hcs.
  assert (is_Some (mapM entry_range (JString <$> ds))) as [rs' Hrs'].
  { assert (is_Some (mapM entry_range (JString <$> cs))) as Hs by by eexists.
    rewrite mapM_is_Some, Forall_fmap, Forall_forall in *. intros d Hdd. by apply Hs, Hd. }
  exists rs'. split; [done|]. intros n.
  rewrite (entries_networks ds rs'), (entries_networks cs rs) by done.
  by setoid_rewrite Hd.
Qed.

Lemma schema_spec (vs stored : list string) :
  allowedIpAddressesSchema vs = Some stored ->
  exists cs : list string, mapM canonicalizeIpAllowlistEntry vs = Some cs
    /\ forall d, d ∈ stored <-> d ∈ cs.
Proof.
  unfold allowedIpAddressesSchema. destruct (mapM _ vs) as [cs|]; [|done]. cbn [mbind option_bind].
  destruct (_ <? _); [done|]. intros [= <-]. exists cs. split; [done|]. intros d.
  rewrite distinct_elem. split; [tauto|]. intros H'. split; [done|]. by intros ?%elem_of_nil.
Qed.

Lemma stored_list_same_clients (vs stored : list string) c :
  allowedIpAddressesSchema vs = Some stored ->
  isClientIpAllowed c (Some (JArray (JString <$> stored)))
  = isClientIpAllowed c (Some (JArray (JString <$> vs))).
Proof.
  intros Hs. destruct (schema_spec _ _ Hs) as (cs & Hm & Hd).
  apply length_mapM in Hm as Hl.
  destruct (canonical_list_spec _ _ Hm) as (rs & rs' & Hrs & Hrs' & Hn).
  destruct (sublist_networks _ _ _ Hd Hrs') as (ds & Hds & Hnn).
  destruct vs as [|v vs].
  { destruct cs; [|done]. destruct stored as [|d ?]; [done|].
    by destruct (proj1 (elem_of_nil d)); apply Hd; left. }
  eapply same_networks_same_clients; [|done|exact Hds|exact Hrs|].
  - destruct stored; [|done]. destruct cs as [|x ?]; [done|].
    by destruct (proj1 (elem_of_nil x)); apply Hd; left.
  - intros n. by rewrite Hnn, Hn.
Qed.
End MatchingFacts.

(** * A concrete list *)

(** A [BlockList] as the list of its networks. *)
Module Demo.

Definition literal_number (value : string) (t : IpType) : Z :=
  match parseGroups t (chars value) with Some gs => groups_number t gs | None => 0 end.

Definition literal_type (value : string) : Z :=
  match parseGroups ipv4 (chars value), parseGroups ipv6 (chars value) with
  | Some _, _ => 4
  | None, Some _ => 6
  | None, None => 0
  end.

#[local] Instance listNet : NodeNet := {|
  BlockList := list (Z * Z);
  isIP := literal_type;
  newBlockList := [];
  addSubnet b a p t := Some ((prefix_of t p, literal_number a t) :: b);
  check b c ct := existsb (fun '(p, a) => same_prefix p (literal_number c ct) a) b;
  denotes := literal_number;
|}.

#[local] Instance listNet_laws : NodeNetLaws.
Proof.
  split.
  - intros t a gs E. cbn. unfold literal_number. by rewrite E.
  - intros b t a gs p _ _. by eexists.
  - done.
  - intros b b' t a gs p c ct _ [= <-] _. cbn. apply orb_comm.
Qed.

Definition parse_settings (s : string) : result json :=
  Ok (JObject [("name"%string, JString "acme");
               ("allowedIpAddresses"%string, JArray [JString "203.0.113.0/24"])]).
End Demo.

(** * Theorems *)

(** Canonicalization accepts exactly the valid entries, and its result is
    valid, means the same and is its own canonical form: the round trip through
    RFC 5952 and dotted-decimal text loses nothing of the range. *)
Theorem canonical_entry_stable v :
  match canonicalizeIpAllowlistEntry v with
  | None => isValidIpAllowlistEntry v = false
  | Some c => canonicalizeIpAllowlistEntry c = Some c /\
      exists r r', parseIpRange v = Some r /\ parseIpRange c = Some r' /\ network r' = network r
  end.
Proof.
  destruct (canonicalizeIpAllowlistEntry v) as [c|] eqn:E.
  - destruct (canonicalize_spec _ _ E) as (r & r' & Hr & Hr' & Hn). split; [|by exists r, r'].
    unfold canonicalizeIpAllowlistEntry in *. rewrite Hr in E. rewrite Hr'.
    injection E as <-. cbn [mbind option_bind]. f_equal.
    apply canonicalRange_same; eauto using parseIpRange_valid.
  - unfold canonicalizeIpAllowlistEntry, isValidIpAllowlistEntry in *.
    destruct (parseIpRange v); [done|]. by apply bool_decide_eq_false_2; intros [? ?].
Qed.

(** The canonical form is the range: two valid entries have the same canonical
    text exactly when they select the same addresses, an IPv4 range and the range
    of its IPv4-mapped addresses included. *)
Theorem canonical_iff_same_network v w r r' :
  parseIpRange v = Some r -> parseIpRange w = Some r' ->
  (canonicalizeIpAllowlistEntry v = canonicalizeIpAllowlistEntry w <-> network r = network r').
Proof.
  intros Hv Hw. apply parseIpRange_valid in Hv as V, Hw as W.
  unfold canonicalizeIpAllowlistEntry. rewrite Hv, Hw. cbn [mbind option_bind]. split.
  - intros [= E]. destruct (canonicalRange_parsed _ V) as (x & Hx & <-).
    destruct (canonicalRange_parsed _ W) as (y & Hy & <-). congruence.
  - intros E. f_equal. by apply canonicalRange_same.
Qed.

Lemma canonical_iff_same_network_witness :
  canonicalizeIpAllowlistEntry "::ffff:203.0.113.5/120"
  = canonicalizeIpAllowlistEntry "203.0.113.9/24".
Proof.
  apply (canonical_iff_same_network "::ffff:203.0.113.5/120" "203.0.113.9/24"
    (mkRange "::ffff:203.0.113.5" [0; 0; 0; 0; 0; 65535; 51968; 28933] 120 ipv6)
    (mkRange "203.0.113.9" [203; 0; 113; 9] 24 ipv4)); vm_compute; reflexivity.
Defined.

(** Enforcement on every input: no restriction admits everyone, a value that is
    not a list, a client that is not a known address and a list with any malformed
    entry admit no one, and otherwise a client is admitted exactly when one of the
    entries selects its address. *)
Theorem isClientIpAllowed_spec `{NodeNetLaws} c allowed :
  isClientIpAllowed c allowed =
  match allowed with
  | None | Some JNull | Some (JArray []) => true
  | Some (JArray entries) =>
      match c, mapM entry_range entries with
      | Some ip, Some ranges =>
          truthy c && negb (has_char "%" (chars ip))
          && match clientIpType ip with
             | Some ct => existsb (fun r => in_network ip ct (network r)) ranges
             | None => false
             end
      | _, _ => false
      end
  | Some _ => false
  end.
Proof.
  destruct allowed as [[| | | |[|e entries]|]|]; try done.
  destruct (client_cases c) as [Hu|(ip & ct & -> & Ht & Hp & Hc)].
  - rewrite unknown_refused by done. destruct c as [ip|]; [|done].
    destruct (mapM entry_range (e :: entries)); [|done].
    destruct Hu as [->|[->| ->]]; [done|by rewrite andb_false_r|by rewrite andb_false_r].
  - rewrite (allowed_ranges ip ct), Ht, Hp, Hc by done. cbn [negb andb].
    destruct (mapM entry_range (e :: entries)) as [rs|]; [|done]. by induction rs; cbn; f_equal.
Qed.

Lemma isClientIpAllowed_spec_witness :
  isClientIpAllowed (H := Demo.listNet) (Some "::ffff:203.0.113.42"%string)
    (Some (JArray [JString "10.0.0.0/8"; JString "203.0.113.0/24"])) = true.
Proof.
  rewrite (isClientIpAllowed_spec (H := Demo.listNet) (H0 := Demo.listNet_laws)).
  vm_compute. reflexivity.
Defined.

(** C37. What is stored is what was submitted, and it never locks its author out:
    the canonical, deduplicated list of an accepted update admits exactly the
    clients the submitted spelling admits, and when the update passed the lock-out
    guard, a later request from the same origin is not refused. *)
Theorem stored_allowlist_enforced `{NodeNetLaws} JSON_parse forwardedFor K_SERVICE vs stored settings blob :
  allowedIpAddressesSchema vs = Some stored ->
  truthy (Some settings) = true -> JSON_parse settings = Ok blob ->
  json_property "allowedIpAddresses" blob = Some (JArray (JString <$> stored)) ->
  (forall c, isClientIpAllowed c (Some (JArray (JString <$> stored)))
             = isClientIpAllowed c (Some (JArray (JString <$> vs))))
  /\ (assertAllowlistAdmitsCaller (resolveClientIp forwardedFor K_SERVICE) (Some stored) = Ok tt ->
      enforceOrganizationIpAllowlist JSON_parse forwardedFor K_SERVICE (Some (Some settings)) = Ok tt).
Proof.
  intros Hs Ht Hj Hp. split; [intros c; by apply stored_list_same_clients|].
  unfold assertAllowlistAdmitsCaller, enforceOrganizationIpAllowlist, readAllowedIpAddresses.
  rewrite Ht, Hj. cbn [result_bind]. rewrite Hp. cbn [default from_option id].
  destruct stored as [|s stored]; [done|].
  by destruct (isClientIpAllowed _ (Some (JArray _))).
Qed.

Lemma stored_allowlist_enforced_witness :
  enforceOrganizationIpAllowlist (H := Demo.listNet) Demo.parse_settings
    (Some "203.0.113.7"%string) None (Some (Some "{}"%string)) = Ok tt.
Proof.
  eapply (stored_allowlist_enforced (H := Demo.listNet) (H0 := Demo.listNet_laws)
            Demo.parse_settings _ _ ["203.0.113.5/24"; "203.0.113.9/24"]%string
            ["203.0.113.0/24"]%string); vm_compute; reflexivity.
Defined.

(** Behind the Google load balancer the client cannot choose its address:
    whatever the caller put in front, the entry before the load balancer's own is
    the one used, so long as both are addresses. *)
Theorem forwarded_prefix_ignored `{NodeNet} spoofed client balancer K_SERVICE :
  truthy (Some K_SERVICE) = true ->
  isIP (text (trim client)) <> 0 -> isIP (text (trim balancer)) <> 0 ->
  (forall x, In x client -> x <> ","%char) -> (forall x, In x balancer -> x <> ","%char) ->
  resolveClientIp (Some (text (spoofed ++ ","%char :: client ++ ","%char :: balancer)))
    (Some K_SERVICE) = Some (text (trim client)).
Proof.
  intros Hk Hc Hb Nc Nb. unfold resolveClientIp, parseForwardedFor.
  assert (truthy (Some (text (spoofed ++ ","%char :: client ++ ","%char :: balancer))) = true) as ->
    by by destruct spoofed.
  cbn [default from_option id].
  rewrite chars_text, split_on_app, split_on_first, (split_on_none _ balancer) by done.
  rewrite fmap_app, List.filter_app. cbn [fmap list_fmap List.filter].
  rewrite !(proj2 (Z.eqb_neq _ 0)) by done. cbn [negb].
  set (xs := List.filter _ _). rewrite Hk, length_app. cbn [length].
  rewrite (proj2 (Z.leb_le 2 _)) by lia.
  replace (length xs + 2 - 2)%nat with (length xs) by lia.
  rewrite list_lookup_middle by done. by destruct xs.
Qed.

Lemma forwarded_prefix_ignored_witness :
  resolveClientIp (H := Demo.listNet) (Some "10.0.0.1, 203.0.113.7, 35.191.0.1"%string)
    (Some "api"%string) = Some "203.0.113.7"%string.
Proof.
  apply (forwarded_prefix_ignored (H := Demo.listNet) (chars "10.0.0.1") (chars " 203.0.113.7")
           (chars " 35.191.0.1") "api"); try (vm_compute; done).
  all: intros x Hx ->; vm_compute in Hx; intuition discriminate.
Defined.
