(* ===== verification/EarnLedger.v ===== *)
(** * Earn: the movement ledger

    [apps/sdp-api/src/db/repositories/earn-movements.repository.ts] over the tables
    of migrations [0062_earn_movements.sql] and [0067], with the transition matrix
    of [packages/sdp-types/src/earn.ts]. A table is the list of its rows in the
    order they were inserted; a method is a function on the [EarnTables], which a
    thrown error leaves unchanged (its transaction rolls back). [now] is
    [sdp_iso_now()], an id is the one the method generates, and text is ordered by
    [text_le], the database's collation. *)
From Stdlib Require Import Ascii String ZArith Lia.
From stdpp Require Import base list strings sorting relations.
From S2P Require Import Prelude Text Rows PolicyTypes.

Local Open Scope string_scope.
Local Open Scope Z_scope.
Local Open Scope sdp_scope.

(** ** Data *)

Inductive SdpEnvironment := sandbox | production.
Inductive EarnExecutionModel := custodial | vault_direct.
Inductive EarnMovementDirection := deposit | withdrawal.

(** The statuses of both models. *)
Inductive EarnMovementStatus :=
| mv_requested | mv_submitted | mv_confirmed | mv_finalized | mv_failed
| mv_processing | mv_pending_approval | mv_completed | mv_partially_completed | mv_cancelled.

#[export] Instance SdpEnvironment_eq_dec : EqDecision SdpEnvironment.
Proof. solve_decision. Defined.
#[export] Instance EarnExecutionModel_eq_dec : EqDecision EarnExecutionModel.
Proof. solve_decision. Defined.
#[export] Instance EarnMovementDirection_eq_dec : EqDecision EarnMovementDirection.
Proof. solve_decision. Defined.
#[export] Instance EarnMovementStatus_eq_dec : EqDecision EarnMovementStatus.
Proof. solve_decision. Defined.

Definition model_text (m : EarnExecutionModel) : string :=
  match m with custodial => "custodial" | vault_direct => "vault_direct" end.

Definition movement_status_text (s : EarnMovementStatus) : string :=
  match s with
  | mv_requested => "requested" | mv_submitted => "submitted" | mv_confirmed => "confirmed"
  | mv_finalized => "finalized" | mv_failed => "failed" | mv_processing => "processing"
  | mv_pending_approval => "pending_approval" | mv_completed => "completed"
  | mv_partially_completed => "partially_completed" | mv_cancelled => "cancelled"
  end.

(** [EARN_MOVEMENT_STATUSES], and the rows of [earn_movement_statuses]. *)
Definition EARN_MOVEMENT_STATUSES (m : EarnExecutionModel) : list EarnMovementStatus :=
  match m with
  | custodial => [mv_requested; mv_processing; mv_pending_approval; mv_completed;
                  mv_partially_completed; mv_failed; mv_cancelled]
  | vault_direct => [mv_requested; mv_submitted; mv_confirmed; mv_finalized; mv_failed]
  end.

Definition EARN_TERMINAL_MOVEMENT_STATUSES (m : EarnExecutionModel) : list EarnMovementStatus :=
  match m with
  | custodial => [mv_completed; mv_partially_completed; mv_failed; mv_cancelled]
  | vault_direct => [mv_finalized; mv_failed]
  end.

(** [EARN_MOVEMENT_TRANSITIONS]: the statuses a target may be reached from; a
    target the matrix does not carry has none. *)
Definition EARN_MOVEMENT_TRANSITIONS (m : EarnExecutionModel) (target : EarnMovementStatus)
    : list EarnMovementStatus :=
  match m, target with
  | custodial, (mv_processing | mv_pending_approval | mv_completed | mv_partially_completed
               | mv_failed | mv_cancelled) => [mv_requested; mv_processing; mv_pending_approval]
  | vault_direct, mv_submitted => [mv_requested]
  | vault_direct, mv_confirmed => [mv_requested; mv_submitted]
  | vault_direct, mv_finalized => [mv_requested; mv_submitted; mv_confirmed]
  | vault_direct, mv_failed => [mv_requested; mv_submitted]
  | _, _ => []
  end.

(** The columns of a movement no statement ever updates. *)
Record MovementFacts := mkFacts {
  mv_id : string;
  mv_organization_id : string;
  mv_project_id : option string;
  mv_environment : SdpEnvironment;
  mv_provider : string;
  execution_model : EarnExecutionModel;
  direction : EarnMovementDirection;
  position_id : string;
  denomination : string;
  amount_requested : string;
  min_shares_out : option string;
  payout_token : option string;
  mv_custody_wallet_id : option string;
  mv_vault_address : option string;
  source_address : option string;
  destination_address : option string;
  mv_signature : option string;
  signed_transaction : option string;
  last_valid_block_height : option Z;
  request_id : string;
  idempotency_fingerprint : string;
  mv_created_by : option string;
  initiated_by_key_id : option string;
  mv_created_at : string;
  creates_share_account : bool;
  mv_share_ata_rent_funder : option string;
}.

Record EarnMovementRow := mkMovement {
  facts : MovementFacts;
  mv_status : EarnMovementStatus;
  mv_failure_reason : option string;
  confirmed_at : option string;
  settled_at : option string;
  amount_settled : option string;
  fee_amount : option string;
  shares_out : option string;
  provider_reference : option string;
  provider_data : json_record;
  mv_updated_at : string;
  reconciliation_attempted_at : option string;
}.

Record EarnPositionRow := mkPosition {
  pos_id : string;
  pos_organization_id : string;
  pos_project_id : option string;
  pos_environment : SdpEnvironment;
  pos_provider : string;
  pos_kind : EarnExecutionModel;
  pos_custody_wallet_id : option string;
  pos_vault_address : option string;
  share_mint : option string;
  token_mint : option string;
  provider_wallet_id : option string;
  pos_label : string;
  pos_created_by : option string;
  pos_created_at : string;
  pos_updated_at : string;
  activated_at : option string;
  closed_at : option string;
  share_ata_rent_funder : option string;
}.

(** The tables the statements join and never write. *)
Record ProjectRow := mkProject {
  project_id_ : string; project_organization : string; project_environment : SdpEnvironment;
}.

(** A wallet's configuration or connection: its organization and, unless shared,
    its project. *)
Record CustodyScope := mkScope { scope_organization : string; scope_project : option string }.

Record CustodyWalletRow := mkWallet {
  wallet_id : string;
  wallet_config : option CustodyScope;
  wallet_connection : option CustodyScope;
}.

Record ProviderWalletRow := mkProviderWallet {
  pw_id : string;
  pw_organization : string;
  pw_project : option string;
  pw_environment : SdpEnvironment;
  pw_provider : string;
  pw_label : option string;
  pw_ref : string;
  pw_created_by : option string;
  pw_created_at : string;
  pw_updated_at : string;
}.

Record EarnTables := mkTables {
  movements : list EarnMovementRow;
  positions : list EarnPositionRow;
  projects : list ProjectRow;
  custody_wallets : list CustodyWalletRow;
  provider_wallets : list ProviderWalletRow;
}.

Definition with_movements (l : EarnTables) (ms : list EarnMovementRow) : EarnTables :=
  mkTables ms (positions l) (projects l) (custody_wallets l) (provider_wallets l).

Definition with_positions (l : EarnTables) (ps : list EarnPositionRow) : EarnTables :=
  mkTables (movements l) ps (projects l) (custody_wallets l) (provider_wallets l).

(** ** The constraints of [earn_movements] *)

(** [BTRIM(s)] removes spaces. *)
Definition btrim (s : string) : string :=
  text (drop_end_while (Ascii.eqb " ") (drop_while (Ascii.eqb " ") (chars s))).

(** [NULLIF(BTRIM(column), '') IS NOT NULL] *)
Definition not_blank (o : option string) : bool :=
  match o with Some s => negb (String.eqb (btrim s) "") | None => false end.

(** Digits, with a fraction of digits or none. *)
Definition DECIMAL_STRING (s : string) : bool :=
  match split_on "." (chars s) with
  | [whole] => negb (bool_decide (whole = [])) && all_digits whole
  | [whole; fraction] =>
      negb (bool_decide (whole = [])) && all_digits whole
      && negb (bool_decide (fraction = [])) && all_digits fraction
  | _ => false
  end.

Definition NON_ZERO_DIGIT (s : string) : bool :=
  existsb (fun c => is_digit c && negb (is_zero_char c)) (chars s).

Definition length_within (s : string) : bool :=
  let n := Z.of_nat (String.length s) in (1 <=? n) && (n <=? 128).

Definition positive_amount (s : string) : bool :=
  length_within s && DECIMAL_STRING s && NON_ZERO_DIGIT s.

Definition null_or (p : string -> bool) (o : option string) : bool :=
  match o with Some s => p s | None => true end.

Definition is_vault (m : EarnMovementRow) : bool :=
  bool_decide (execution_model (facts m) = vault_direct).

Definition status_one_of (s : EarnMovementStatus) (ss : list EarnMovementStatus) : bool :=
  existsb (fun x => bool_decide (x = s)) ss.

(** [earn_movements_model_shape_check]: which columns each model fills. *)
Definition model_shape (m : EarnMovementRow) : bool :=
  let f := facts m in
  if is_vault m then
    bool_decide (is_Some (mv_custody_wallet_id f)) && bool_decide (is_Some (mv_vault_address f))
    && bool_decide (is_Some (mv_signature f)) && bool_decide (is_Some (signed_transaction f))
    && bool_decide (is_Some (last_valid_block_height f))
    && bool_decide (payout_token f = None) && bool_decide (fee_amount m = None)
  else
    bool_decide (mv_custody_wallet_id f = None) && bool_decide (mv_vault_address f = None)
    && bool_decide (mv_signature f = None) && bool_decide (signed_transaction f = None)
    && bool_decide (last_valid_block_height f = None)
    && bool_decide (min_shares_out f = None) && bool_decide (shares_out m = None).

(** The metadata checks: commitment, settlement and failure of a vault movement. *)
Definition metadata_check (m : EarnMovementRow) : bool :=
  negb (is_vault m)
  || (eqb (status_one_of (mv_status m) [mv_confirmed; mv_finalized]) (not_blank (confirmed_at m))
      && eqb (bool_decide (mv_status m = mv_finalized)) (not_blank (settled_at m))
      && eqb (bool_decide (mv_status m = mv_failed)) (not_blank (mv_failure_reason m))).

Definition amount_checks (m : EarnMovementRow) : bool :=
  let f := facts m in
  positive_amount (amount_requested f)
  && null_or length_within (amount_settled m) && null_or length_within (fee_amount m)
  && (negb (is_vault m)
      || (null_or (fun s => DECIMAL_STRING s && NON_ZERO_DIGIT s) (amount_settled m)
          && null_or positive_amount (min_shares_out f)))
  && match shares_out m with
     | None => true
     | Some s => status_one_of (mv_status m) [mv_confirmed; mv_finalized] && positive_amount s
     end.

Definition UINT64_MAX : Z := 2 ^ 64 - 1.

(** The CHECK constraints and the (model, status) key of one row. *)
Definition movement_checks (m : EarnMovementRow) : bool :=
  let f := facts m in
  status_one_of (mv_status m) (EARN_MOVEMENT_STATUSES (execution_model f))
  && model_shape m && metadata_check m && amount_checks m
  && length_within (btrim (denomination f))
  && match last_valid_block_height f with
     | Some h => (0 <=? h) && (h <=? UINT64_MAX)
     | None => true
     end
  && (bool_decide (mv_share_ata_rent_funder f = None) || creates_share_account f).

(** The unique indexes, besides the one vault inserts resolve their replays by:
    ids, signatures, provider references and custodial requests. *)
Definition distinct_keys (m other : EarnMovementRow) : bool :=
  negb (String.eqb (mv_id (facts m)) (mv_id (facts other)))
  && negb (bool_decide (is_Some (mv_signature (facts m)))
           && bool_decide (mv_signature (facts m) = mv_signature (facts other)))
  && negb (bool_decide (is_Some (provider_reference m))
           && String.eqb (mv_provider (facts m)) (mv_provider (facts other))
           && bool_decide (provider_reference m = provider_reference other))
  && negb (negb (is_vault m) && negb (is_vault other)
           && String.eqb (position_id (facts m)) (position_id (facts other))
           && String.eqb (request_id (facts m)) (request_id (facts other))).

(** The foreign keys to [earn_positions]. *)
Definition claims_position (m : EarnMovementRow) (p : EarnPositionRow) : bool :=
  let f := facts m in
  String.eqb (position_id f) (pos_id p)
  && String.eqb (mv_organization_id f) (pos_organization_id p)
  && bool_decide (mv_environment f = pos_environment p)
  && String.eqb (mv_provider f) (pos_provider p)
  && (bool_decide (mv_vault_address f = None) || bool_decide (mv_custody_wallet_id f = None)
      || (bool_decide (mv_vault_address f = pos_vault_address p)
          && bool_decide (mv_custody_wallet_id f = pos_custody_wallet_id p))).

(** ** Statements *)

(** [INSERT ... ON CONFLICT DO NOTHING RETURNING *] against a unique index:
    checks, then the index named in the conflict target, then the others, then the
    foreign keys. *)
Definition insert_movement (conflicts : EarnMovementRow -> bool) (m : EarnMovementRow)
    (l : EarnTables) : result (option EarnMovementRow * EarnTables) :=
  if negb (movement_checks m) then Err (database_error "23514" "earn_movements")
  else if existsb conflicts (movements l) then Ok (None, l)
  else if negb (forallb (distinct_keys m) (movements l)) then
    Err (database_error "23505" "earn_movements")
  else if negb (existsb (claims_position m) (positions l)) then
    Err (database_error "23503" "earn_movements_position_fkey")
  else Ok (Some m, with_movements l (movements l ++ [m])).

Definition same_vault_request (organization request : string) (m : EarnMovementRow) : bool :=
  String.eqb (mv_organization_id (facts m)) organization
  && String.eqb (request_id (facts m)) request && is_vault m.

(** [UPDATE earn_movements SET f WHERE id = ? AND guard RETURNING *]. *)
Definition update_movement (matches : EarnMovementRow -> bool)
    (f : EarnMovementRow -> EarnMovementRow) (l : EarnTables)
    : result (option EarnMovementRow * EarnTables) :=
  let updated := f <$> List.filter matches (movements l) in
  if negb (forallb movement_checks updated) then Err (database_error "23514" "earn_movements")
  else if negb (forallb (fun m => forallb (fun other =>
                  String.eqb (mv_id (facts m)) (mv_id (facts other)) || distinct_keys m other)
                  (movements l)) updated)
  then Err (database_error "23505" "earn_movements")
  else Ok (head updated,
           with_movements l ((fun m => if matches m then f m else m) <$> movements l)).

Definition update_position (id : string) (f : EarnPositionRow -> EarnPositionRow)
    (l : EarnTables) : EarnTables :=
  with_positions l ((fun p => if String.eqb (pos_id p) id then f p else p) <$> positions l).

(** ** Reads *)

Definition getMovementById (id organization : string) (l : EarnTables)
    : option EarnMovementRow :=
  List.find (fun m => String.eqb (mv_id (facts m)) id
                      && String.eqb (mv_organization_id (facts m)) organization) (movements l).

Definition findVaultMovementByRequestId (organization request : string) (l : EarnTables)
    : option EarnMovementRow :=
  List.find (same_vault_request organization request) (movements l).

Definition getPositionById (organization : string) (environment : SdpEnvironment) (id : string)
    (l : EarnTables) : option EarnPositionRow :=
  List.find (fun p => String.eqb (pos_id p) id && String.eqb (pos_organization_id p) organization
                      && bool_decide (pos_environment p = environment)) (positions l).

Definition findCustodialMovementByRequestId (organization providerWallet request : string)
    (l : EarnTables) : option EarnMovementRow :=
  List.find (fun m =>
    String.eqb (mv_organization_id (facts m)) organization
    && String.eqb (request_id (facts m)) request && negb (is_vault m)
    && existsb (fun p => String.eqb (pos_id p) (position_id (facts m))
                         && bool_decide (pos_kind p = custodial)
                         && bool_decide (provider_wallet_id p = Some providerWallet))
         (positions l)) (movements l).

Definition findMovementByProviderReference (provider reference : string) (l : EarnTables)
    : option EarnMovementRow :=
  List.find (fun m => String.eqb (mv_provider (facts m)) provider
                      && bool_decide (provider_reference m = Some reference)) (movements l).

(** ** Replays *)

(** The rule every site that resolves a replay enforces. *)
Definition assertMovementIsOwnReplay (movement : EarnMovementRow)
    (projectId fingerprint : string) : result unit :=
  if negb (bool_decide (mv_project_id (facts movement) = Some projectId))
     || negb (String.eqb (idempotency_fingerprint (facts movement)) fingerprint)
  then Err (conflict "Idempotency key already used with different request payload")
  else Ok tt.

Definition requireMovementPosition (l : EarnTables) (m : EarnMovementRow)
    : result EarnPositionRow :=
  match getPositionById (mv_organization_id (facts m)) (mv_environment (facts m))
          (position_id (facts m)) l with
  | Some p => Ok p
  | None => Err (PlainError ("Earn movement " ++ mv_id (facts m) ++ " references missing holding "
                             ++ position_id (facts m)))
  end.

(** ** Intents *)

Record ShareAccountRentAttribution := mkAttribution {
  createsShareAccount : bool;
  shareAtaRentFunder : option string;
}.

(** A movement that did not create the share account records no funder. *)
Definition shareAccountClaimBindings (a : ShareAccountRentAttribution) : bool * option string :=
  (createsShareAccount a, if createsShareAccount a then shareAtaRentFunder a else None).

Record CreateSignedVaultDepositIntentInput := mkDepositIntent {
  di_organizationId : string;
  di_projectId : string;
  di_environment : SdpEnvironment;
  di_provider : string;
  di_vaultAddress : string;
  di_custodyWalletId : string;
  di_shareMint : string;
  di_tokenMint : string;
  di_label : string;
  di_requestedAmount : string;
  di_acceptedMinSharesOut : option string;
  di_sourceAddress : string;
  di_signature : string;
  di_signedTransaction : string;
  di_lastValidBlockHeight : Z;
  di_requestId : string;
  di_idempotencyFingerprint : string;
  di_createdBy : option string;
  di_initiatedByKeyId : option string;
  di_attribution : ShareAccountRentAttribution;
}.

Record CreateSignedVaultWithdrawalIntentInput := mkWithdrawalIntent {
  wd_organizationId : string;
  wd_projectId : string;
  wd_environment : SdpEnvironment;
  wd_provider : string;
  wd_positionId : string;
  wd_vaultAddress : string;
  wd_custodyWalletId : string;
  wd_shareMint : string;
  wd_requestedShares : string;
  wd_walletAddress : string;
  wd_signature : string;
  wd_signedTransaction : string;
  wd_lastValidBlockHeight : Z;
  wd_requestId : string;
  wd_idempotencyFingerprint : string;
  wd_createdBy : option string;
  wd_initiatedByKeyId : option string;
  wd_attribution : ShareAccountRentAttribution;
}.

Record IntentResult := mkIntentResult {
  result_position : EarnPositionRow;
  result_movement : EarnMovementRow;
  replayed : bool;
}.

(** A movement as its INSERT leaves it. *)
Definition inserted (now : string) (f : MovementFacts) (data : json_record) : EarnMovementRow :=
  mkMovement f mv_requested None None None None None None None data now None.

Definition deposit_facts (now id : string) (i : CreateSignedVaultDepositIntentInput)
    (position : string) : MovementFacts :=
  let '(creates, funder) := shareAccountClaimBindings (di_attribution i) in
  mkFacts id (di_organizationId i) (Some (di_projectId i)) (di_environment i) (di_provider i)
    vault_direct deposit position (di_tokenMint i) (di_requestedAmount i)
    (di_acceptedMinSharesOut i) None (Some (di_custodyWalletId i)) (Some (di_vaultAddress i))
    (Some (di_sourceAddress i)) (Some (di_vaultAddress i)) (Some (di_signature i))
    (Some (di_signedTransaction i)) (Some (di_lastValidBlockHeight i)) (di_requestId i)
    (di_idempotencyFingerprint i) (di_createdBy i) (di_initiatedByKeyId i) now creates funder.

Definition insertVaultMovement (now id : string) (i : CreateSignedVaultDepositIntentInput)
    (position : string) (l : EarnTables) : result (option EarnMovementRow * EarnTables) :=
  insert_movement (same_vault_request (di_organizationId i) (di_requestId i))
    (inserted now (deposit_facts now id i position) []) l.

Definition withdrawal_facts (now id : string) (i : CreateSignedVaultWithdrawalIntentInput)
    : MovementFacts :=
  let '(creates, funder) := shareAccountClaimBindings (wd_attribution i) in
  mkFacts id (wd_organizationId i) (Some (wd_projectId i)) (wd_environment i) (wd_provider i)
    vault_direct withdrawal (wd_positionId i) (wd_shareMint i) (wd_requestedShares i) None None
    (Some (wd_custodyWalletId i)) (Some (wd_vaultAddress i)) (Some (wd_vaultAddress i))
    (Some (wd_walletAddress i)) (Some (wd_signature i)) (Some (wd_signedTransaction i))
    (Some (wd_lastValidBlockHeight i)) (wd_requestId i) (wd_idempotencyFingerprint i)
    (wd_createdBy i) (wd_initiatedByKeyId i) now creates funder.

Definition insertVaultWithdrawalMovement (now id : string)
    (i : CreateSignedVaultWithdrawalIntentInput) (l : EarnTables)
    : result (option EarnMovementRow * EarnTables) :=
  insert_movement (same_vault_request (wd_organizationId i) (wd_requestId i))
    (inserted now (withdrawal_facts now id i) []) l.

(** The wallet belongs to the project's organization, and to the project unless it
    is shared. *)
Definition scope_admits (p : ProjectRow) (s : CustodyScope) : bool :=
  String.eqb (scope_organization s) (project_organization p)
  && match scope_project s with Some id => String.eqb id (project_id_ p) | None => true end.

Definition wallet_in_scope (p : ProjectRow) (w : CustodyWalletRow) : bool :=
  match wallet_config w with Some s => scope_admits p s | None => false end
  || match wallet_connection w with Some s => scope_admits p s | None => false end.

Definition same_claim (p : EarnPositionRow) (q : EarnPositionRow) : bool :=
  bool_decide (pos_kind q = vault_direct)
  && String.eqb (pos_organization_id p) (pos_organization_id q)
  && bool_decide (pos_environment p = pos_environment q)
  && String.eqb (pos_provider p) (pos_provider q)
  && bool_decide (pos_vault_address p = pos_vault_address q)
  && bool_decide (pos_custody_wallet_id p = pos_custody_wallet_id q).

Definition claim_conflict : jserr :=
  conflict "Vault position does not match project, wallet scope, or asset identity".

Definition refresh_claim (now label : string) (q : EarnPositionRow) : EarnPositionRow :=
  mkPosition (pos_id q) (pos_organization_id q) (pos_project_id q) (pos_environment q)
    (pos_provider q) (pos_kind q) (pos_custody_wallet_id q) (pos_vault_address q) (share_mint q)
    (token_mint q) (provider_wallet_id q) label (pos_created_by q) (pos_created_at q) now
    (Some (default now (activated_at q))) (closed_at q) (share_ata_rent_funder q).

(** Claim or refresh the vault holding. *)
Definition claimVaultPosition (now id : string) (i : CreateSignedVaultDepositIntentInput)
    (l : EarnTables) : result (EarnPositionRow * EarnTables) :=
  match List.find (fun p => String.eqb (project_id_ p) (di_projectId i)
                            && String.eqb (project_organization p) (di_organizationId i)
                            && bool_decide (project_environment p = di_environment i))
          (projects l),
        List.find (fun w => String.eqb (wallet_id w) (di_custodyWalletId i)) (custody_wallets l)
  with
  | Some project, Some wallet =>
      if negb (wallet_in_scope project wallet) then Err claim_conflict
      else
        let claimed :=
          mkPosition id (project_organization project) (Some (project_id_ project))
            (project_environment project) (di_provider i) vault_direct (Some (wallet_id wallet))
            (Some (di_vaultAddress i)) (Some (di_shareMint i)) (Some (di_tokenMint i)) None
            (di_label i) (di_createdBy i) now now (Some now) None None in
        match List.find (same_claim claimed) (positions l) with
        | Some held =>
            if bool_decide (token_mint held = token_mint claimed)
               && bool_decide (share_mint held = share_mint claimed)
            then Ok (refresh_claim now (di_label i) held,
                     update_position (pos_id held) (refresh_claim now (di_label i)) l)
            else Err claim_conflict
        | None =>
            if existsb (fun p => String.eqb (pos_id p) id) (positions l)
            then Err (database_error "23505" "earn_positions_pkey")
            else Ok (claimed, with_positions l (positions l ++ [claimed]))
        end
  | _, _ => Err claim_conflict
  end.

(** [text_le] orders text as the database does. *)
Section Collation.
Variable text_le : string -> string -> bool.

Definition created_key (m : EarnMovementRow) : list string :=
  [mv_created_at (facts m); mv_id (facts m)].

(** The movements that claim the share account of a position. *)
Definition claims_share_account (position : string) (m : EarnMovementRow) : bool :=
  String.eqb (position_id (facts m)) position && creates_share_account (facts m)
  && negb (bool_decide (mv_status m = mv_failed)).

(** The funder the newest claim names. *)
Definition projected_funder (position : string) (ms : list EarnMovementRow) : option string :=
  newest ← head (order_by (fun a b => key_le text_le (created_key b) (created_key a))
                   (List.filter (claims_share_account position) ms));
  mv_share_ata_rent_funder (facts newest).

Definition set_funder (now : string) (funder : option string) (q : EarnPositionRow)
    : EarnPositionRow :=
  mkPosition (pos_id q) (pos_organization_id q) (pos_project_id q) (pos_environment q)
    (pos_provider q) (pos_kind q) (pos_custody_wallet_id q) (pos_vault_address q) (share_mint q)
    (token_mint q) (provider_wallet_id q) (pos_label q) (pos_created_by q) (pos_created_at q) now
    (activated_at q) (closed_at q) funder.

Definition projectShareAccountRentFunder (now position organization : string) (l : EarnTables)
    : EarnTables :=
  update_position position
    (fun q => if String.eqb (pos_organization_id q) organization
              then set_funder now (projected_funder position (movements l)) q else q) l.

(** [earlier] is the table the first lookup reads: another transaction may commit
    between it and the insert. *)
Definition createSignedVaultDepositIntent (now positionId movementId : string)
    (i : CreateSignedVaultDepositIntentInput) (earlier l : EarnTables)
    : result (IntentResult * EarnTables) :=
  match findVaultMovementByRequestId (di_organizationId i) (di_requestId i) earlier with
  | Some prior =>
      let? _ := assertMovementIsOwnReplay prior (di_projectId i) (di_idempotencyFingerprint i) in
      let? position := requireMovementPosition l prior in
      Ok (mkIntentResult position prior true, l)
  | None =>
      let? (claimed, l) := claimVaultPosition now positionId i l in
      let? (insertion, l) := insertVaultMovement now movementId i (pos_id claimed) l in
      match insertion with
      | None =>
          match findVaultMovementByRequestId (di_organizationId i) (di_requestId i) l with
          | None => Err (PlainError "Failed to resolve concurrent earn vault movement")
          | Some winner =>
              let? _ := assertMovementIsOwnReplay winner (di_projectId i)
                          (di_idempotencyFingerprint i) in
              let? position := requireMovementPosition l winner in
              Ok (mkIntentResult position winner true, l)
          end
      | Some m =>
          Ok (mkIntentResult claimed m false,
              projectShareAccountRentFunder now (pos_id claimed) (di_organizationId i) l)
      end
  end.

Definition resolveReplay (i : CreateSignedVaultWithdrawalIntentInput) (snapshot l : EarnTables)
    : result (option IntentResult) :=
  match findVaultMovementByRequestId (wd_organizationId i) (wd_requestId i) snapshot with
  | None => Ok None
  | Some prior =>
      let? _ := assertMovementIsOwnReplay prior (wd_projectId i) (wd_idempotencyFingerprint i) in
      if negb (bool_decide (direction (facts prior) = withdrawal)) then
        Err (conflict "Idempotency key already used with different request payload")
      else
        let? position := requireMovementPosition l prior in
        Ok (Some (mkIntentResult position prior true))
  end.

Definition createSignedVaultWithdrawalIntent (now movementId : string)
    (i : CreateSignedVaultWithdrawalIntentInput) (earlier l : EarnTables)
    : result (IntentResult * EarnTables) :=
  let? prior := resolveReplay i earlier l in
  match prior with
  | Some r => Ok (r, l)
  | None =>
      let? (insertion, l) := insertVaultWithdrawalMovement now movementId i l in
      match insertion with
      | None =>
          let? winner := resolveReplay i l l in
          match winner with
          | Some r => Ok (r, l)
          | None => Err (PlainError "Failed to resolve concurrent earn vault withdrawal")
          end
      | Some m =>
          let l := projectShareAccountRentFunder now (position_id (facts m))
                     (wd_organizationId i) l in
          let? position := requireMovementPosition l m in
          Ok (mkIntentResult position m false, l)
      end
  end.

(** ** Advancing a vault movement *)

(** A column of the input: [None] is [undefined], [Some None] a null. *)
Abbreviation column := (option (option string)).

Record AdvanceVaultMovementInput := mkAdvance {
  adv_movementId : string;
  adv_organizationId : string;
  adv_toStatus : EarnMovementStatus;
  adv_sharesOut : column;
  adv_failureReason : column;
  adv_confirmedAt : column;
  adv_settledAt : column;
}.

(** [!value?.trim()] *)
Definition missing_text (c : column) : bool :=
  match c with
  | Some (Some s) => bool_decide (trim (chars s) = [])
  | _ => true
  end.

Definition given (c : column) : bool := bool_decide (is_Some c).

(** Field coupling, checked before the statement runs; [None] is no objection. *)
Definition vault_transition_objection (i : AdvanceVaultMovementInput) : option string :=
  let to := adv_toStatus i in
  let commits := status_one_of to [mv_confirmed; mv_finalized] in
  if given (adv_failureReason i) && negb (bool_decide (to = mv_failed))
  then Some "failureReason is only valid when failing an earn vault movement"
  else if bool_decide (to = mv_failed) && missing_text (adv_failureReason i)
  then Some "failureReason is required when failing an earn vault movement"
  else if given (adv_settledAt i) && negb (bool_decide (to = mv_finalized))
  then Some "settledAt is only valid when finalizing an earn vault movement"
  else if bool_decide (to = mv_finalized) && missing_text (adv_settledAt i)
  then Some "settledAt is required when finalizing an earn vault movement"
  else if given (adv_confirmedAt i) && negb commits
  then Some "confirmedAt is only valid when confirming an earn vault movement"
  else if commits && missing_text (adv_confirmedAt i)
  then Some "confirmedAt is required when confirming an earn vault movement"
  else if given (adv_sharesOut i) && negb (bool_decide (to = mv_confirmed))
  then Some "sharesOut is only valid when confirming an earn vault movement"
  else match adv_sharesOut i with
       | Some (Some s) =>
           if positive_amount s then None
           else Some "sharesOut must be a positive unsigned decimal with at most 128 characters"
       | _ => None
       end.

Definition assertVaultTransitionMetadata (i : AdvanceVaultMovementInput) : result unit :=
  match vault_transition_objection i with
  | Some message => Err (PlainError message)
  | None => Ok tt
  end.

Definition allowedSourceStatuses (model : EarnExecutionModel) (to : EarnMovementStatus)
    : result (list EarnMovementStatus) :=
  match EARN_MOVEMENT_TRANSITIONS model to with
  | [] => Err (PlainError ("Illegal earn movement transition: " ++ model_text model ++ " -> "
                           ++ movement_status_text to))
  | sources => Ok sources
  end.

(** [column = ?] when the input names it. *)
Definition assigned (c : column) (old : option string) : option string := default old c.

(** [COALESCE(a, b)] *)
Definition coalesce (a b : option string) : option string :=
  match a with Some _ => a | None => b end.

Definition advance_row (now : string) (i : AdvanceVaultMovementInput) (m : EarnMovementRow)
    : EarnMovementRow :=
  mkMovement (facts m) (adv_toStatus i)
    (assigned (adv_failureReason i) (mv_failure_reason m))
    (match adv_confirmedAt i with
     | Some observed => coalesce (confirmed_at m) observed
     | None => confirmed_at m
     end)
    (assigned (adv_settledAt i) (settled_at m))
    (if status_one_of (adv_toStatus i) [mv_confirmed; mv_finalized]
     then coalesce (amount_settled m) (Some (amount_requested (facts m)))
     else amount_settled m)
    (fee_amount m)
    (assigned (adv_sharesOut i) (shares_out m))
    (provider_reference m) (provider_data m) now (reconciliation_attempted_at m).

Definition live_statuses : list EarnMovementStatus :=
  [mv_requested; mv_submitted; mv_confirmed; mv_finalized].

Definition live_evidence (position : string) (ms : list EarnMovementRow) : bool :=
  existsb (fun m => String.eqb (position_id (facts m)) position
                    && status_one_of (mv_status m) live_statuses) ms.

Definition set_activation (now : string) (activated closed : option string)
    (q : EarnPositionRow) : EarnPositionRow :=
  mkPosition (pos_id q) (pos_organization_id q) (pos_project_id q) (pos_environment q)
    (pos_provider q) (pos_kind q) (pos_custody_wallet_id q) (pos_vault_address q) (share_mint q)
    (token_mint q) (provider_wallet_id q) (pos_label q) (pos_created_by q) (pos_created_at q) now
    activated closed (share_ata_rent_funder q).

(** De-activate a holding nothing live remains of. *)
Definition deactivate (now position : string) (l : EarnTables) : EarnTables :=
  update_position position
    (fun q => if bool_decide (is_Some (activated_at q)) && negb (live_evidence position (movements l))
              then set_activation now None (closed_at q) q else q) l.

Definition reactivate (now position organization : string) (l : EarnTables) : EarnTables :=
  update_position position
    (fun q => if String.eqb (pos_organization_id q) organization
              then set_activation now (Some (default now (activated_at q))) None q else q) l.

Definition advances_movement (i : AdvanceVaultMovementInput) (sources : list EarnMovementStatus)
    (m : EarnMovementRow) : bool :=
  String.eqb (mv_id (facts m)) (adv_movementId i)
  && String.eqb (mv_organization_id (facts m)) (adv_organizationId i)
  && is_vault m && status_one_of (mv_status m) sources.

Definition advanceVaultMovement (now : string) (i : AdvanceVaultMovementInput) (l : EarnTables)
    : result (option EarnMovementRow * EarnTables) :=
  let? _ := assertVaultTransitionMetadata i in
  let? sources := allowedSourceStatuses vault_direct (adv_toStatus i) in
  let advance := update_movement (advances_movement i sources) (advance_row now i) in
  if bool_decide (adv_toStatus i = mv_submitted) then advance l
  else
    match getMovementById (adv_movementId i) (adv_organizationId i) l with
    | None => Ok (None, l)
    | Some candidate =>
        let? (row, l) := advance l in
        match row with
        | None => Ok (None, l)
        | Some m =>
            let position := position_id (facts m) in
            if bool_decide (adv_toStatus i = mv_failed) then
              Ok (Some m, projectShareAccountRentFunder now position (adv_organizationId i)
                            (deactivate now position l))
            else if bool_decide (direction (facts candidate) = deposit) then
              Ok (Some m, reactivate now position (adv_organizationId i) l)
            else Ok (Some m, l)
        end
    end.

(** ** The reconciler's queue *)

Definition unsettled : list EarnMovementStatus := [mv_requested; mv_submitted; mv_confirmed].

Definition vault_in (ss : list EarnMovementStatus) (m : EarnMovementRow) : bool :=
  is_vault m && status_one_of (mv_status m) ss.

Definition is_confirmed (m : EarnMovementRow) : bool := bool_decide (mv_status m = mv_confirmed).

Definition attempt_key (m : EarnMovementRow) : list string :=
  [default (mv_created_at (facts m)) (reconciliation_attempted_at m);
   mv_created_at (facts m); mv_id (facts m)].

Definition attempt_le (a b : EarnMovementRow) : bool := key_le text_le (attempt_key a) (attempt_key b).

(** [false] sorts before [true]. *)
Definition confirmed_last (le : EarnMovementRow -> EarnMovementRow -> bool)
    (a b : EarnMovementRow) : bool :=
  if eqb (is_confirmed a) (is_confirmed b) then le a b else is_confirmed b.

Definition has_id (ms : list EarnMovementRow) (m : EarnMovementRow) : bool :=
  existsb (fun x => String.eqb (mv_id (facts x)) (mv_id (facts m))) ms.

Definition confirmedQuota (limit : Z) : Z := if 1 <? limit then Z.max 1 (limit / 4) else 0.
Definition blockhashBoundQuota (limit : Z) : Z := limit - confirmedQuota limit.

(** The rows the statement selects: the two reserved parts, then what is left. *)
Definition claimed_rows (limit : Z) (ms : list EarnMovementRow) : list EarnMovementRow :=
  let blockhash_bound :=
    limit_rows (blockhashBoundQuota limit)
      (order_by attempt_le (List.filter (vault_in [mv_requested; mv_submitted]) ms)) in
  let confirmed :=
    limit_rows (confirmedQuota limit)
      (order_by attempt_le (List.filter (vault_in [mv_confirmed]) ms)) in
  let reserved := (blockhash_bound ++ confirmed)%list in
  let overflow :=
    limit_rows (Z.max 0 (limit - Z.of_nat (length reserved)))
      (order_by (confirmed_last attempt_le)
         (List.filter (fun m => vault_in unsettled m && negb (has_id reserved m)) ms)) in
  (reserved ++ overflow)%list.

Definition touch_attempt (now : string) (m : EarnMovementRow) : EarnMovementRow :=
  mkMovement (facts m) (mv_status m) (mv_failure_reason m) (confirmed_at m) (settled_at m)
    (amount_settled m) (fee_amount m) (shares_out m) (provider_reference m) (provider_data m)
    (mv_updated_at m) (Some now).

Definition created_le (a b : EarnMovementRow) : bool := key_le text_le (created_key a) (created_key b).

Definition claimUnsettledVaultMovements (now : string) (limit : Z) (l : EarnTables)
    : result (list EarnMovementRow * EarnTables) :=
  if (limit <? 1) || (256 <? limit) then
    Err (PlainError "claimUnsettledVaultMovements limit must be an integer from 1 to 256")
  else
    let claimed := claimed_rows limit (movements l) in
    Ok (order_by (confirmed_last created_le)
          (touch_attempt now <$> List.filter (has_id claimed) (movements l)),
        with_movements l
          ((fun m => if has_id claimed m then touch_attempt now m else m) <$> movements l)).

(** ** Custodial movements *)

(** Open the holding of a program wallet, unless it has one. *)
Definition mintEarnPositionForProviderWallet (id providerWallet : string) (l : EarnTables)
    : result EarnTables :=
  let holds p := bool_decide (provider_wallet_id p = Some providerWallet)
                 && bool_decide (pos_kind p = custodial) in
  let l' :=
    match List.find (fun w => String.eqb (pw_id w) providerWallet) (provider_wallets l) with
    | Some w =>
        if existsb holds (positions l) || existsb (fun p => String.eqb (pos_id p) id) (positions l)
        then l
        else
          with_positions l (positions l ++
            [mkPosition id (pw_organization w) (pw_project w) (pw_environment w) (pw_provider w)
               custodial None None None None (Some (pw_id w)) (default (pw_ref w) (pw_label w))
               (pw_created_by w) (pw_created_at w) (pw_updated_at w) (Some (pw_created_at w)) None
               None])
    | None => l
    end in
  if existsb holds (positions l') then Ok l'
  else Err (PlainError ("Earn ledger could not open a custodial holding for program wallet "
                        ++ providerWallet)).

Record CreateCustodialMovementInput := mkCustodial {
  cm_organizationId : string;
  cm_projectId : string;
  cm_environment : SdpEnvironment;
  cm_provider : string;
  cm_providerWalletId : string;
  cm_amountRequestedUsd : string;
  cm_payoutToken : string;
  cm_destinationAddress : string;
  cm_requestId : string;
  cm_idempotencyFingerprint : string;
  cm_providerData : json_record;
  cm_createdBy : option string;
  cm_initiatedByKeyId : option string;
}.

Definition custodial_facts (now id : string) (i : CreateCustodialMovementInput)
    (position : string) : MovementFacts :=
  mkFacts id (cm_organizationId i) (Some (cm_projectId i)) (cm_environment i) (cm_provider i)
    custodial withdrawal position "usd" (cm_amountRequestedUsd i) None (Some (cm_payoutToken i))
    None None None (Some (cm_destinationAddress i)) None None None (cm_requestId i)
    (cm_idempotencyFingerprint i) (cm_createdBy i) (cm_initiatedByKeyId i) now false None.

(** [INSERT ... SELECT ... FROM earn_positions]: one row, since a program wallet
    has one holding, or none. *)
Definition insert_custodial (now id : string) (i : CreateCustodialMovementInput)
    (l : EarnTables) : result (option EarnMovementRow * EarnTables) :=
  match List.find (fun p => bool_decide (provider_wallet_id p = Some (cm_providerWalletId i))
                            && bool_decide (pos_kind p = custodial)) (positions l) with
  | None => Ok (None, l)
  | Some p =>
      insert_movement (fun _ => false)
        (inserted now (custodial_facts now id i (pos_id p)) (cm_providerData i)) l
  end.

(** [id] and [id'] are the two ids the two statements may generate. *)
Definition createCustodialMovement (now id positionId id' : string)
    (i : CreateCustodialMovementInput) (l : EarnTables) : result (EarnMovementRow * EarnTables) :=
  let? (row, l) := insert_custodial now id i l in
  match row with
  | Some m => Ok (m, l)
  | None =>
      let? l := mintEarnPositionForProviderWallet positionId (cm_providerWalletId i) l in
      let? (healed, l) := insert_custodial now id' i l in
      match healed with
      | Some m => Ok (m, l)
      | None =>
          Err (PlainError ("Earn program wallet " ++ cm_providerWalletId i
               ++ " has no custodial holding to record a movement against"))
      end
  end.

Inductive UpdateCustodialMovementSelector :=
| by_movement_id (id : string)
| by_provider_reference (provider reference : string).

Record UpdateCustodialMovementGuardedInput := mkCustodialUpdate {
  uc_selector : UpdateCustodialMovementSelector;
  uc_organizationId : string;
  uc_toStatus : EarnMovementStatus;
  uc_providerReference : option string;
  uc_amountSettled : column;
  uc_feeAmount : column;
  uc_failureReason : column;
  uc_settledAt : column;
  uc_providerData : option json_record;
}.

(** [a || b] of two JSON objects: the fields of [b] replace those of [a]. *)
Definition json_concat (a b : json_record) : json_record :=
  (List.filter (fun '(k, _) => negb (existsb (fun '(k', _) => String.eqb k k') b)) a ++ b)%list.

Definition observe_row (now : string) (i : UpdateCustodialMovementGuardedInput)
    (m : EarnMovementRow) : EarnMovementRow :=
  mkMovement (facts m) (uc_toStatus i) (assigned (uc_failureReason i) (mv_failure_reason m))
    (confirmed_at m) (assigned (uc_settledAt i) (settled_at m))
    (assigned (uc_amountSettled i) (amount_settled m)) (assigned (uc_feeAmount i) (fee_amount m))
    (shares_out m)
    (match uc_providerReference i with Some r => Some r | None => provider_reference m end)
    (match uc_providerData i with
     | Some data => json_concat (provider_data m) data
     | None => provider_data m
     end) now (reconciliation_attempted_at m).

Definition selects_movement (s : UpdateCustodialMovementSelector) (m : EarnMovementRow) : bool :=
  match s with
  | by_movement_id id => String.eqb (mv_id (facts m)) id
  | by_provider_reference provider reference =>
      String.eqb (mv_provider (facts m)) provider
      && bool_decide (provider_reference m = Some reference)
  end.

Definition observes_movement (i : UpdateCustodialMovementGuardedInput)
    (sources : list EarnMovementStatus) (m : EarnMovementRow) : bool :=
  String.eqb (mv_organization_id (facts m)) (uc_organizationId i) && negb (is_vault m)
  && status_one_of (mv_status m) sources && selects_movement (uc_selector i) m.

Definition updateCustodialMovementGuarded (now : string)
    (i : UpdateCustodialMovementGuardedInput) (l : EarnTables)
    : result (option EarnMovementRow * EarnTables) :=
  let? sources := allowedSourceStatuses custodial (uc_toStatus i) in
  update_movement (observes_movement i sources) (observe_row now i) l.
End Collation.

(** ** Histories *)

(** The calls that write; each carries the ids and the clock it used, and an
    intent the table its first lookup read. *)
Inductive earn_op :=
| OpDeposit (now positionId movementId : string) (i : CreateSignedVaultDepositIntentInput)
    (earlier : EarnTables)
| OpWithdrawal (now movementId : string) (i : CreateSignedVaultWithdrawalIntentInput)
    (earlier : EarnTables)
| OpAdvance (now : string) (i : AdvanceVaultMovementInput)
| OpClaim (now : string) (limit : Z)
| OpCustodial (now id positionId id' : string) (i : CreateCustodialMovementInput)
| OpObserve (now : string) (i : UpdateCustodialMovementGuardedInput)
| OpMint (id providerWallet : string).

(** The tables after a call: those it returns, or the old ones when it throws. *)
Definition tables_after {A} (l : EarnTables) (r : result (A * EarnTables)) : EarnTables :=
  match r with Ok (_, l') => l' | Err _ => l end.

Definition apply_earn_op (text_le : string -> string -> bool) (op : earn_op) (l : EarnTables)
    : EarnTables :=
  match op with
  | OpDeposit now pid mid i earlier =>
      tables_after l (createSignedVaultDepositIntent text_le now pid mid i earlier l)
  | OpWithdrawal now mid i earlier =>
      tables_after l (createSignedVaultWithdrawalIntent text_le now mid i earlier l)
  | OpAdvance now i => tables_after l (advanceVaultMovement text_le now i l)
  | OpClaim now limit => tables_after l (claimUnsettledVaultMovements text_le now limit l)
  | OpCustodial now id pid id' i => tables_after l (createCustodialMovement now id pid id' i l)
  | OpObserve now i => tables_after l (updateCustodialMovementGuarded now i l)
  | OpMint id w =>
      match mintEarnPositionForProviderWallet id w l with Ok l' => l' | Err _ => l end
  end.

Definition earn_history (text_le : string -> string -> bool) (ops : list earn_op)
    (l : EarnTables) : EarnTables :=
  fold_left (fun l op => apply_earn_op text_le op l) ops l.
