(* ===== verification/EarnInvariant.v ===== *)
(** * Earn: the invariant of the movement ledger

    What every history of calls of EarnLedger.v keeps: the constraints of a row,
    the unique indexes and the foreign keys, the two columns of a holding derived
    from its movements, and the direction in which a movement may progress. *)
From Stdlib Require Import Ascii String ZArith Lia.
From stdpp Require Import base list strings sorting relations.
From S2P Require Import Prelude Text Rows PolicyTypes EarnLedger.

Local Open Scope string_scope.
Local Open Scope Z_scope.
Local Open Scope sdp_scope.

(** ** The invariant *)

(** A column of a vault movement is null rather than blank when its status has no
    use for it. *)
Definition null_not_blank (o : option string) : Prop := not_blank o = true \/ o = None.

Definition movement_sound (m : EarnMovementRow) : Prop :=
  movement_checks m = true
  /\ (is_vault m = true ->
      null_not_blank (confirmed_at m) /\ null_not_blank (settled_at m)
      /\ null_not_blank (mv_failure_reason m))
  /\ (is_vault m = false -> creates_share_account (facts m) = false).

(** Two rows the unique indexes allow side by side. *)
Definition compatible (m other : EarnMovementRow) : Prop :=
  distinct_keys m other = true
  /\ ~ (is_vault m = true /\ is_vault other = true
        /\ mv_organization_id (facts m) = mv_organization_id (facts other)
        /\ request_id (facts m) = request_id (facts other)).

Record tables_ok (l : EarnTables) : Prop := mkTablesOk {
  ok_rows : Forall movement_sound (movements l);
  ok_unique : ForallOrdPairs compatible (movements l);
  ok_claims : Forall (fun m => Exists (fun p => claims_position m p = true) (positions l))
                (movements l);
  ok_positions : NoDup (pos_id <$> positions l);
}.

Section HoldingsInvariant.
Variable text_le : string -> string -> bool.

(** The rent funder of every holding but [except] is what its movements project. *)
Definition funders_ok (except : option string) (l : EarnTables) : Prop :=
  forall p, p ∈ positions l -> Some (pos_id p) <> except ->
    share_ata_rent_funder p = projected_funder text_le (pos_id p) (movements l).

(** A holding with a live deposit is active. *)
Definition active_ok (l : EarnTables) : Prop :=
  forall m p, m ∈ movements l -> p ∈ positions l -> position_id (facts m) = pos_id p ->
    direction (facts m) = deposit -> status_one_of (mv_status m) live_statuses = true ->
    is_Some (activated_at p).

Record ledger_sound (l : EarnTables) : Prop := mkSound {
  sound_tables : tables_ok l;
  sound_funders : funders_ok None l;
  sound_active : active_ok l;
}.
End HoldingsInvariant.

(** ** Progress of a movement *)

(** One legal transition, and the statuses reachable by them. *)
Definition transition (m : EarnExecutionModel) (from to : EarnMovementStatus) : Prop :=
  from ∈ EARN_MOVEMENT_TRANSITIONS m to.

Definition reachable (m : EarnExecutionModel) : relation EarnMovementStatus := rtc (transition m).

(** What a later state of a movement keeps of an earlier one. *)
Record later_movement (m m' : EarnMovementRow) : Prop := mkLater {
  later_facts : facts m' = facts m;
  later_status : reachable (execution_model (facts m)) (mv_status m) (mv_status m');
  later_terminal : mv_status m ∈ EARN_TERMINAL_MOVEMENT_STATUSES (execution_model (facts m)) ->
    m' = m;
  later_confirmed : execution_model (facts m) = vault_direct ->
    forall t, confirmed_at m = Some t -> confirmed_at m' = Some t;
  later_amount : execution_model (facts m) = vault_direct ->
    forall a, amount_settled m = Some a -> amount_settled m' = Some a;
}.

(** * Lemmas *)

(** ** Statements *)

Section Statements.

Lemma status_one_of_spec s ss : status_one_of s ss = true <-> s ∈ ss.
Proof.
  unfold status_one_of. rewrite existsb_exists. split.
  - intros (x & Hx & E). apply bool_decide_eq_true in E as ->. by apply list_elem_of_In.
  - intros H. exists s. split; [by apply list_elem_of_In|]. by apply bool_decide_eq_true.
Qed.

(** Two rows share a key that is not null. *)
Lemma shared_sym (a b : option string) :
  bool_decide (is_Some a) && bool_decide (a = b) = bool_decide (is_Some b) && bool_decide (b = a).
Proof.
  destruct (decide (a = b)) as [->|Hne]; [done|].
  rewrite !(bool_decide_eq_false_2 (_ = _)) by congruence. by rewrite !andb_false_r.
Qed.

Lemma shared_within_sym (a b : option string) (p q : bool) :
  p = q ->
  bool_decide (is_Some a) && p && bool_decide (a = b)
  = bool_decide (is_Some b) && q && bool_decide (b = a).
Proof.
  intros <-. destruct p; [rewrite !andb_true_r; apply shared_sym|]. by rewrite !andb_false_r.
Qed.

Lemma distinct_keys_sym m o : distinct_keys m o = distinct_keys o m.
Proof.
  unfold distinct_keys. rewrite (shared_sym (mv_signature (facts m))).
  rewrite (shared_within_sym (provider_reference m) _ _ _ (String.eqb_sym _ _)).
  rewrite (String.eqb_sym (mv_id (facts m))), (String.eqb_sym (position_id (facts m))),
    (String.eqb_sym (request_id (facts m))).
  by rewrite (andb_comm (negb (is_vault m))).
Qed.

Lemma compatible_sym m o : compatible m o -> compatible o m.
Proof. intros [H1 H2]. split; [by rewrite distinct_keys_sym|]. intros (? & ? & ? & ?). by apply H2. Qed.

Lemma distinct_ids m o : distinct_keys m o = true -> mv_id (facts m) <> mv_id (facts o).
Proof. unfold distinct_keys. rewrite !andb_true_iff, !negb_true_iff, String.eqb_neq. tauto. Qed.

(** The rows of a sound table are told apart by their ids. *)
Lemma same_id_same_row ms a b :
  ForallOrdPairs compatible ms -> a ∈ ms -> b ∈ ms -> mv_id (facts a) = mv_id (facts b) -> a = b.
Proof.
  induction 1 as [|x ms Hx Hms IH]; [by intros ?%elem_of_nil|].
  rewrite !elem_of_cons. rewrite Forall_forall in Hx. intros Ha Hb E.
  assert (forall y, y ∈ ms -> mv_id (facts x) <> mv_id (facts y)) as Hd.
  { intros y Hy. by apply distinct_ids, Hx. }
  destruct Ha as [->|Ha], Hb as [->|Hb]; [done|by destruct (Hd b Hb)|by destruct (Hd a Ha)|auto].
Qed.

(** The rows a statement may not touch keep every constraint when one row is
    replaced by a compatible one with the same facts. *)
Definition replace_row (id : string) (m' : EarnMovementRow) (ms : list EarnMovementRow)
    : list EarnMovementRow :=
  (fun m => if String.eqb (mv_id (facts m)) id then m' else m) <$> ms.

Lemma replace_row_none id m' ms :
  (forall m, m ∈ ms -> mv_id (facts m) <> id) -> replace_row id m' ms = ms.
Proof.
  unfold replace_row. induction ms as [|m ms IH]; intros H; [done|]. rewrite fmap_cons.
  rewrite IH by (intros; apply H; by right).
  rewrite (proj2 (String.eqb_neq _ _)); [done|]. apply H. by left.
Qed.

(** An update that matches at most one row replaces it, or does nothing. *)
Lemma update_movement_spec matches f l r l' :
  ForallOrdPairs compatible (movements l) ->
  (forall a b, a ∈ movements l -> b ∈ movements l -> matches a = true -> matches b = true -> a = b) ->
  update_movement matches f l = Ok (r, l') ->
  (r = None /\ l' = l /\ forall m, m ∈ movements l -> matches m = false)
  \/ exists m, m ∈ movements l /\ matches m = true /\ r = Some (f m)
       /\ movement_checks (f m) = true
       /\ (forall o, o ∈ movements l -> mv_id (facts (f m)) <> mv_id (facts o) ->
             distinct_keys (f m) o = true)
       /\ l' = with_movements l (replace_row (mv_id (facts m)) (f m) (movements l)).
Proof.
  intros Hu Huniq. unfold update_movement. set (updated := f <$> _).
  destruct (forallb movement_checks updated) eqn:Hc; cbn [negb]; [|done].
  set (distinct := forallb _ updated). destruct distinct eqn:Hd; cbn [negb]; [|done].
  intros [= <- <-]. unfold distinct, updated in *.
  rewrite forallb_forall in Hc. rewrite forallb_forall in Hd.
  destruct (List.filter matches (movements l)) as [|m rest] eqn:E.
  - left. assert (forall m, m ∈ movements l -> matches m = false) as Hn.
    { intros m Hm. destruct (matches m) eqn:Em; [|done].
      assert (In m (List.filter matches (movements l))) as Hin
        by (apply filter_In; split; [by apply list_elem_of_In|done]).
      by rewrite E in Hin. }
    split; [done|]. split; [|done]. destruct l as [ms ps prs cws pws]. unfold with_movements.
    cbn in *. f_equal. rewrite <- (list_fmap_id ms) at 2. apply list_fmap_ext.
    intros i m Hm. by rewrite Hn by (by eapply list_elem_of_lookup_2).
  - right. assert (In m (List.filter matches (movements l))) as Hin by (rewrite E; by left).
    apply filter_In in Hin as [Hin Hm]. apply list_elem_of_In in Hin.
    exists m. split; [done|]. split; [done|]. split; [done|].
    split; [apply Hc; by left|]. split.
    + intros o Ho Hne. specialize (Hd (f m) ltac:(by left)).
      rewrite forallb_forall in Hd. specialize (Hd o). apply list_elem_of_In in Ho.
      specialize (Hd Ho). by rewrite (proj2 (String.eqb_neq _ _) Hne) in Hd.
    + f_equal. unfold replace_row. apply list_fmap_ext. intros i x Hx.
      apply list_elem_of_lookup_2 in Hx. destruct (matches x) eqn:Ex.
      * rewrite (Huniq x m) by done. by rewrite String.eqb_refl.
      * rewrite (proj2 (String.eqb_neq _ _)); [done|]. intros Hid.
        rewrite (same_id_same_row _ x m Hu) in Ex by done. congruence.
Qed.
End Statements.

(** ** The projection *)

Section Projection.
Variable text_le : string -> string -> bool.

(** Rows with the same facts and the same claims project the same funder. *)
Lemma projected_funder_rel q ms ms' :
  Forall2 (fun a b => facts a = facts b
           /\ claims_share_account q a = claims_share_account q b) ms ms' ->
  projected_funder text_le q ms = projected_funder text_le q ms'.
Proof.
  intros H%filter_rel. unfold projected_funder.
  apply (order_by_rel _ (fun a b => key_le text_le (created_key b) (created_key a))) in H.
  2:{ intros a a' b b' E E'. unfold created_key. by rewrite E, E'. }
  destruct H as [|a b l l' E _]; [done|]. cbn [head mbind option_bind]. by rewrite E.
Qed.

Lemma projected_funder_snoc q ms m :
  claims_share_account q m = false ->
  projected_funder text_le q (ms ++ [m]) = projected_funder text_le q ms.
Proof.
  intros H. unfold projected_funder. rewrite List.filter_app. cbn [List.filter].
  by rewrite H, app_nil_r.
Qed.

Lemma claims_position_of q m : claims_share_account q m = true -> position_id (facts m) = q.
Proof. unfold claims_share_account. rewrite !andb_true_iff, String.eqb_eq. tauto. Qed.

Lemma projected_funder_none q ms :
  (forall m, m ∈ ms -> position_id (facts m) <> q) -> projected_funder text_le q ms = None.
Proof.
  intros H. unfold projected_funder.
  replace (List.filter (claims_share_account q) ms) with (@nil EarnMovementRow); [done|].
  symmetry. induction ms as [|m ms IH]; [done|]. cbn [List.filter].
  destruct (claims_share_account q m) eqn:E.
  - apply claims_position_of in E. destruct (H m); [by left|done].
  - apply IH. intros x Hx. apply H. by right.
Qed.
End Projection.

(** ** The tables stay sound *)

Section TablesOk.

Lemma pairs_snoc {A} (R : A -> A -> Prop) l x :
  ForallOrdPairs R l -> Forall (fun y => R y x) l -> ForallOrdPairs R (l ++ [x]).
Proof.
  induction 1 as [|y l Hy Hl IH]; intros Hx; [by repeat constructor|].
  apply Forall_cons in Hx as [Hyx Hx]. cbn [app]. constructor; [|by apply IH].
  apply Forall_app. split; [done|by constructor].
Qed.

(** Replacing the row of an id by one compatible with the others. *)
Lemma pairs_replace ms id m' :
  ForallOrdPairs compatible ms ->
  (forall o, o ∈ ms -> mv_id (facts o) <> id -> compatible m' o) ->
  ForallOrdPairs compatible (replace_row id m' ms).
Proof.
  unfold replace_row. induction 1 as [|x ms Hx Hms IH]; intros Ho; [constructor|].
  rewrite fmap_cons. constructor; [|apply IH; intros; apply Ho; [by right|done]].
  apply Forall_fmap, Forall_forall. intros y Hy. cbn. rewrite Forall_forall in Hx.
  pose proof (distinct_ids _ _ (proj1 (Hx y Hy))) as Hne.
  destruct (String.eqb_spec (mv_id (facts x)) id) as [Ex|Ex],
    (String.eqb_spec (mv_id (facts y)) id) as [Ey|Ey].
  - congruence.
  - apply Ho; [by right|done].
  - apply compatible_sym, Ho; [by left|done].
  - by apply Hx.
Qed.

Lemma compatible_facts m m' o :
  facts m' = facts m -> distinct_keys m' o = true -> compatible m o -> compatible m' o.
Proof. intros Hf Hd [_ H]. split; [done|]. unfold is_vault in *. by rewrite Hf. Qed.

Lemma replace_row_elem id m' ms o :
  o ∈ replace_row id m' ms ->
  o = m' \/ (o ∈ ms /\ mv_id (facts o) <> id).
Proof.
  unfold replace_row. intros (m & -> & Hm)%list_elem_of_fmap.
  destruct (String.eqb_spec (mv_id (facts m)) id); auto.
Qed.

Lemma replace_ok l m m' :
  tables_ok l -> m ∈ movements l -> facts m' = facts m -> movement_sound m' ->
  (forall o, o ∈ movements l -> mv_id (facts m') <> mv_id (facts o) -> distinct_keys m' o = true) ->
  tables_ok (with_movements l (replace_row (mv_id (facts m)) m' (movements l))).
Proof.
  intros [Hr Hu Hc Hp] Hm Hf Hs Hd. split; cbn; [| | |done].
  - apply Forall_forall. intros o [->|[Ho _]]%replace_row_elem; [done|].
    by apply (proj1 (Forall_forall _ _) Hr).
  - apply pairs_replace; [done|]. intros o Ho Hne. apply (compatible_facts m); [done| |].
    + apply Hd; [done|]. congruence.
    + destruct (ForallOrdPairs_In Hu m o) as [E|[H|H]]; try by apply list_elem_of_In.
      * by subst.
      * done.
      * by apply compatible_sym.
  - apply Forall_forall. intros o [->|[Ho _]]%replace_row_elem.
    + eapply Exists_impl; [by apply (proj1 (Forall_forall _ _) Hc m)|].
      intros p. unfold claims_position. by rewrite Hf.
    + by apply (proj1 (Forall_forall _ _) Hc).
Qed.

Lemma insert_ok l conflicts m r l' :
  tables_ok l -> (movement_checks m = true -> movement_sound m) ->
  (forall o, o ∈ movements l -> conflicts o = false ->
     ~ (is_vault o = true /\ is_vault m = true
        /\ mv_organization_id (facts o) = mv_organization_id (facts m)
        /\ request_id (facts o) = request_id (facts m))) ->
  insert_movement conflicts m l = Ok (r, l') ->
  tables_ok l'
  /\ ((r = None /\ l' = l /\ exists o, o ∈ movements l /\ conflicts o = true)
      \/ (r = Some m /\ l' = with_movements l (movements l ++ [m])
          /\ (forall o, o ∈ movements l -> conflicts o = false)
          /\ Exists (fun p => claims_position m p = true) (positions l))).
Proof.
  intros Hok Hs Hreq. unfold insert_movement.
  destruct (movement_checks m) eqn:Hc; cbn [negb]; [|done]. specialize (Hs eq_refl).
  destruct (existsb conflicts (movements l)) eqn:Hx.
  { intros [= <- <-]. split; [done|]. left. split; [done|]. split; [done|].
    apply existsb_exists in Hx as (o & Ho & E). exists o. by rewrite list_elem_of_In. }
  destruct (forallb (distinct_keys m) (movements l)) eqn:Hd; cbn [negb]; [|done].
  destruct (existsb (claims_position m) (positions l)) eqn:Hp; cbn [negb]; [|done].
  intros [= <- <-].
  assert (forall o, o ∈ movements l -> conflicts o = false) as Hn.
  { intros o Ho. destruct (conflicts o) eqn:E; [|done].
    rewrite <- not_true_iff_false, existsb_exists in Hx. destruct Hx. exists o.
    by rewrite <- list_elem_of_In. }
  assert (Exists (fun p => claims_position m p = true) (positions l)) as Hex.
  { apply existsb_exists in Hp as (p & Hp & E). apply Exists_exists. exists p.
    by rewrite list_elem_of_In. }
  split; [|right; auto].
  destruct Hok as [Hr Hu Hcl Hps]. split; cbn; [| | |done].
  - apply Forall_app. split; [done|by constructor].
  - apply pairs_snoc; [done|]. apply Forall_forall. intros o Ho. split.
    + rewrite forallb_forall in Hd. rewrite distinct_keys_sym. by apply Hd, list_elem_of_In.
    + apply Hreq; auto.
  - apply Forall_app. split; [done|by constructor].
Qed.

(** A holding keeps what its movements name. *)
Definition same_holding (p q : EarnPositionRow) : Prop :=
  pos_id q = pos_id p /\ pos_organization_id q = pos_organization_id p
  /\ pos_environment q = pos_environment p /\ pos_provider q = pos_provider p
  /\ pos_vault_address q = pos_vault_address p
  /\ pos_custody_wallet_id q = pos_custody_wallet_id p.

Lemma same_holding_claims m p q :
  same_holding p q -> claims_position m q = claims_position m p.
Proof. unfold claims_position. by intros (-> & -> & -> & -> & -> & ->). Qed.

Lemma update_position_ok l id f :
  tables_ok l -> (forall q, same_holding q (f q)) -> tables_ok (update_position id f l).
Proof.
  intros [Hr Hu Hc Hp] Hf. split; cbn; [done|done| |].
  - eapply Forall_impl; [exact Hc|]. intros m Hm. apply Exists_exists in Hm as (p & Hpp & E).
    apply Exists_exists. exists (if String.eqb (pos_id p) id then f p else p).
    split; [apply list_elem_of_fmap; by exists p|]. destruct (String.eqb _ _); [|done].
    by rewrite (same_holding_claims m p).
  - rewrite <- list_fmap_compose.
    erewrite list_fmap_ext; [exact Hp|].
    intros i p _. cbn. destruct (String.eqb _ _); [|done]. by destruct (Hf p) as [-> _].
Qed.

Lemma add_position_ok l p :
  tables_ok l -> (forall q, q ∈ positions l -> pos_id q <> pos_id p) ->
  tables_ok (with_positions l (positions l ++ [p])).
Proof.
  intros [Hr Hu Hc Hp] Hn. split; cbn; [done|done| |].
  - eapply Forall_impl; [exact Hc|]. intros m Hm. apply Exists_app. by left.
  - rewrite fmap_app. apply NoDup_app. split; [done|]. split; [|by apply NoDup_singleton].
    intros x (q & -> & Hq)%list_elem_of_fmap Hx%list_elem_of_singleton. by apply (Hn q Hq).
Qed.
End TablesOk.

(** ** Holdings *)

Section Holdings.
Variable text_le : string -> string -> bool.

Lemma same_position_row l p q :
  tables_ok l -> p ∈ positions l -> q ∈ positions l -> pos_id p = pos_id q -> p = q.
Proof.
  intros [_ _ _ Hp]. revert Hp. induction (positions l) as [|x ps IH]; [by intros _ ?%elem_of_nil|].
  rewrite fmap_cons, NoDup_cons, !elem_of_cons. intros [Hx Hn] [->|Hp] [->|Hq] E; [done| | |auto].
  - destruct Hx. apply list_elem_of_fmap. by exists q.
  - destruct Hx. apply list_elem_of_fmap. by exists p.
Qed.

(** The holding a movement names is the one its foreign key matches. *)
Lemma movement_claims l m p :
  tables_ok l -> m ∈ movements l -> p ∈ positions l -> pos_id p = position_id (facts m) ->
  claims_position m p = true.
Proof.
  intros Hok Hm Hp E.
  pose proof (proj1 (Forall_forall _ _) (ok_claims _ Hok) m Hm) as (q & Hq & Hc)%Exists_exists.
  rewrite (same_position_row l p q); try done. unfold claims_position in Hc.
  rewrite !andb_true_iff, String.eqb_eq in Hc. destruct Hc as [[[[Hc _] _] _] _]. congruence.
Qed.

Lemma claims_position_organization m p :
  claims_position m p = true -> pos_organization_id p = mv_organization_id (facts m).
Proof.
  unfold claims_position. rewrite !andb_true_iff, !String.eqb_eq. intros [[[[_ H] _] _] _]. done.
Qed.

Lemma claims_position_id m p : claims_position m p = true -> position_id (facts m) = pos_id p.
Proof.
  unfold claims_position. rewrite !andb_true_iff, !String.eqb_eq. intros [[[[H _] _] _] _]. done.
Qed.

Lemma replace_row_rel (R : EarnMovementRow -> EarnMovementRow -> Prop) ms m m' :
  ForallOrdPairs compatible ms -> m ∈ ms -> (forall o, o ∈ ms -> R o o) -> R m m' ->
  Forall2 R ms (replace_row (mv_id (facts m)) m' ms).
Proof.
  intros Hu Hm Hr Hmm. unfold replace_row. apply Forall2_fmap_r, Forall_Forall2_diag, Forall_forall.
  intros x Hx. cbn.
  destruct (String.eqb_spec (mv_id (facts x)) (mv_id (facts m))) as [E|E]; [|by apply Hr].
  by rewrite (same_id_same_row _ x m Hu).
Qed.

(** One movement changes status: the funders that do not depend on it stand. *)
Lemma update_holdings except l m m' :
  tables_ok l -> m ∈ movements l -> facts m' = facts m ->
  (status_one_of (mv_status m') live_statuses = true ->
   status_one_of (mv_status m) live_statuses = true) ->
  (bool_decide (mv_status m' = mv_failed) = bool_decide (mv_status m = mv_failed)
   \/ creates_share_account (facts m) = false \/ except = Some (position_id (facts m))) ->
  funders_ok text_le None l -> active_ok l ->
  let l' := with_movements l (replace_row (mv_id (facts m)) m' (movements l)) in
  funders_ok text_le except l' /\ active_ok l'.
Proof.
  intros Hok Hm Hf Hlive Hcase Hfund Hact. cbn. split.
  - intros p Hp Hne. cbn in *. rewrite (Hfund p Hp) by done. apply projected_funder_rel.
    apply replace_row_rel; [apply Hok|done|done|]. split; [done|].
    unfold claims_share_account. rewrite Hf.
    destruct Hcase as [->|[->| ->]]; [done|by rewrite !andb_false_r|].
    rewrite (proj2 (String.eqb_neq _ _)); [done|]. congruence.
  - intros o p [->|[Ho _]]%replace_row_elem Hp; cbn in *; [|by apply Hact].
    rewrite Hf. intros H1 H2 H3%Hlive. by apply (Hact m).
Qed.

Lemma update_position_elem id f l p :
  p ∈ positions (update_position id f l) ->
  exists q, q ∈ positions l /\ p = if String.eqb (pos_id q) id then f q else q.
Proof. intros (q & -> & Hq)%list_elem_of_fmap. by exists q. Qed.

(** A statement on a holding that leaves its funder and keeps it active while it
    has a live deposit. *)
Lemma update_position_holdings except id f l :
  (forall q, same_holding q (f q) /\ share_ata_rent_funder (f q) = share_ata_rent_funder q) ->
  (forall q, q ∈ positions l -> pos_id q = id -> is_Some (activated_at q) ->
     live_evidence id (movements l) = true -> is_Some (activated_at (f q))) ->
  funders_ok text_le except l -> active_ok l ->
  funders_ok text_le except (update_position id f l) /\ active_ok (update_position id f l).
Proof.
  intros Hf Hact Hfu Ha. split.
  - intros p (q & Hq & ->)%update_position_elem. destruct (String.eqb_spec (pos_id q) id) as [E|E];
      [|by apply Hfu]. destruct (Hf q) as [(-> & _) ->]. by apply Hfu.
  - intros m p Hm (q & Hq & ->)%update_position_elem.
    destruct (String.eqb_spec (pos_id q) id) as [E|E]; [|by apply Ha].
    destruct (Hf q) as [(-> & _) _]. intros Hid Hd Hl. apply Hact; [done|done|by apply (Ha m)|].
    apply existsb_exists. exists m. rewrite list_elem_of_In in Hm. split; [done|].
    by rewrite Hid, E, String.eqb_refl.
Qed.

Lemma set_activation_same now a c q :
  same_holding q (set_activation now a c q)
  /\ share_ata_rent_funder (set_activation now a c q) = share_ata_rent_funder q.
Proof. by repeat split. Qed.

Lemma deactivate_sound except now position l :
  tables_ok l -> funders_ok text_le except l -> active_ok l ->
  tables_ok (deactivate now position l) /\ funders_ok text_le except (deactivate now position l)
  /\ active_ok (deactivate now position l).
Proof.
  intros Hok Hfu Ha. unfold deactivate. split.
  - apply update_position_ok; [done|]. intros q. by destruct (_ && _); repeat split.
  - apply update_position_holdings; [|by intros q _ _ Hs ->; rewrite andb_false_r|done|done].
    intros q. destruct (_ && _); [apply set_activation_same|by repeat split].
Qed.

Lemma reactivate_sound now position organization l :
  ledger_sound text_le l -> ledger_sound text_le (reactivate now position organization l).
Proof.
  intros [Hok Hfu Ha]. unfold reactivate. set (f := fun q => _).
  assert (tables_ok (update_position position f l)) as Ht.
  { apply update_position_ok; [done|]. intros q. unfold f. by destruct (String.eqb _ _); repeat split. }
  destruct (update_position_holdings None position f l) as [H1 H2]; [| |done|done|done].
  - intros q. unfold f. destruct (String.eqb _ _); [apply set_activation_same|by repeat split].
  - intros q _ _ Hs _. unfold f. by destruct (String.eqb _ _).
Qed.

(** Projecting the funder of the one holding left out. *)
Lemma project_sound now position organization l :
  tables_ok l -> funders_ok text_le (Some position) l -> active_ok l ->
  (forall p, p ∈ positions l -> pos_id p = position -> pos_organization_id p = organization) ->
  ledger_sound text_le (projectShareAccountRentFunder text_le now position organization l).
Proof.
  intros Hok Hfu Ha Horg. unfold projectShareAccountRentFunder. set (f := fun q => _).
  assert (forall q, same_holding q (f q) /\ activated_at (f q) = activated_at q) as Hf.
  { intros q. unfold f. by destruct (String.eqb _ _); repeat split. }
  split.
  - apply update_position_ok; [done|]. intros q. apply Hf.
  - intros p (q & Hq & ->)%update_position_elem _.
    destruct (String.eqb_spec (pos_id q) position) as [E|E]; [|apply Hfu; congruence].
    unfold f. rewrite (Horg q Hq E), String.eqb_refl. cbn. by rewrite E.
  - intros m p Hm (q & Hq & ->)%update_position_elem.
    destruct (String.eqb_spec (pos_id q) position); [|by apply Ha].
    destruct (Hf q) as [(-> & _) ->]. by apply Ha.
Qed.
End Holdings.

(** ** Progress *)

Section Progress.

Lemma later_refl m : later_movement m m.
Proof. by split. Qed.

Lemma later_trans m1 m2 m3 :
  later_movement m1 m2 -> later_movement m2 m3 -> later_movement m1 m3.
Proof.
  intros [F1 S1 T1 C1 A1] [F2 S2 T2 C2 A2]. rewrite F1 in *. split.
  - by rewrite F2.
  - by transitivity (mv_status m2).
  - intros Ht. rewrite (T1 Ht) in *. auto.
  - intros Hv t Ht. auto.
  - intros Hv a Ha. auto.
Qed.

(** No row goes away: the first rows are the old ones, later. *)
Definition grows (ms ms' : list EarnMovementRow) : Prop :=
  exists old new, ms' = (old ++ new)%list /\ Forall2 later_movement ms old.

Lemma grows_rel ms ms' : Forall2 later_movement ms ms' -> grows ms ms'.
Proof. intros H. exists ms', []. by rewrite app_nil_r. Qed.

Lemma grows_refl ms : grows ms ms.
Proof. apply grows_rel, Forall_Forall2_diag, Forall_forall. intros. apply later_refl. Qed.

Lemma grows_snoc ms m : grows ms (ms ++ [m]).
Proof.
  exists ms, [m]. split; [done|]. apply Forall_Forall2_diag, Forall_forall. intros. apply later_refl.
Qed.

Lemma grows_trans a b c : grows a b -> grows b c -> grows a c.
Proof.
  intros (o1 & n1 & -> & H1) (o2 & n2 & -> & H2).
  apply Forall2_app_inv_l in H2 as (o & n & Ho & Hn & ->).
  exists o, (n ++ n2)%list. split; [by rewrite app_assoc|].
  clear -H1 Ho. revert o Ho. induction H1; intros o Ho; inversion Ho; subst; constructor; [|auto].
  by eapply later_trans.
Qed.
End Progress.

(** ** Insertions *)

Section Inserts.
Variable text_le : string -> string -> bool.

Lemma movement_request_live m : mv_status m = mv_requested ->
  status_one_of (mv_status m) live_statuses = true /\ mv_status m <> mv_failed.
Proof. by intros ->. Qed.

(** A new movement disturbs at most the funder of its own holding. *)
Lemma insert_sound conflicts m l r l' :
  ledger_sound text_le l -> (movement_checks m = true -> movement_sound m) ->
  (forall o, o ∈ movements l -> conflicts o = false ->
     ~ (is_vault o = true /\ is_vault m = true
        /\ mv_organization_id (facts o) = mv_organization_id (facts m)
        /\ request_id (facts o) = request_id (facts m))) ->
  (direction (facts m) = deposit -> forall p, p ∈ positions l ->
     pos_id p = position_id (facts m) -> is_Some (activated_at p)) ->
  insert_movement conflicts m l = Ok (r, l') ->
  (r = None /\ l' = l)
  \/ (r = Some m /\ l' = with_movements l (movements l ++ [m])
      /\ tables_ok l' /\ active_ok l'
      /\ funders_ok text_le
           (if creates_share_account (facts m) then Some (position_id (facts m)) else None) l').
Proof.
  intros [Hok Hfu Ha] Hs Hreq Hact Hins.
  apply insert_ok in Hins as [Hok' [(-> & -> & _)|(-> & -> & _ & Hex)]]; [by left| |done..].
  right. split; [done|]. split; [done|]. split; [done|]. split.
  - intros o p [Ho| ->%list_elem_of_singleton]%elem_of_app Hp E; [by apply Ha|].
    intros Hd _. by apply Hact.
  - intros p Hp Hne. cbn in *. rewrite (Hfu p Hp) by done. symmetry. apply projected_funder_snoc.
    unfold claims_share_account. destruct (creates_share_account (facts m));
      [|by rewrite andb_false_r]. rewrite (proj2 (String.eqb_neq _ _)); [done|]. congruence.
Qed.

Lemma funders_weaken q l : funders_ok text_le None l -> funders_ok text_le (Some q) l.
Proof. intros H p Hp _. by apply H. Qed.

(** A vault request is inserted, and its holding projected. *)
Lemma insert_vault_sound now organization request m l r l' :
  ledger_sound text_le l -> (movement_checks m = true -> movement_sound m) ->
  mv_organization_id (facts m) = organization -> request_id (facts m) = request ->
  (direction (facts m) = deposit -> forall p, p ∈ positions l ->
     pos_id p = position_id (facts m) -> is_Some (activated_at p)) ->
  insert_movement (same_vault_request organization request) m l = Ok (r, l') ->
  (r = None /\ l' = l)
  \/ (r = Some m /\ movements l' = (movements l ++ [m])%list
      /\ ledger_sound text_le
           (projectShareAccountRentFunder text_le now (position_id (facts m)) organization l')).
Proof.
  intros Hsound Hs Ho Hr Hact Hins.
  apply insert_sound in Hins as [H|(-> & -> & Hok & Ha & Hfu)]; [by left| |done|done| |done].
  - right. split; [done|]. split; [done|]. apply project_sound; [done| |done|].
    + by destruct (creates_share_account (facts m)); [|apply funders_weaken].
    + intros p Hp E. rewrite <- Ho. apply claims_position_organization.
      apply (movement_claims _ m p Hok); [|done|done]. apply elem_of_app. right.
      by apply list_elem_of_singleton.
  - intros o _. unfold same_vault_request. intros Hc (Hv & _ & E1 & E2).
    rewrite Hv, E1, E2, Ho, Hr, !String.eqb_refl in Hc. done.
Qed.

Lemma inserted_sound now f data :
  (execution_model f = custodial -> creates_share_account f = false) ->
  movement_checks (inserted now f data) = true -> movement_sound (inserted now f data).
Proof.
  intros Hc H. split; [done|]. split; [intros _; repeat split; by right|].
  unfold is_vault. cbn. destruct (execution_model f); [auto|done].
Qed.

Lemma deposit_facts_spec now id i q :
  let f := deposit_facts now id i q in
  execution_model f = vault_direct /\ mv_organization_id f = di_organizationId i
  /\ request_id f = di_requestId i /\ direction f = deposit /\ position_id f = q
  /\ mv_project_id f = Some (di_projectId i)
  /\ idempotency_fingerprint f = di_idempotencyFingerprint i /\ mv_environment f = di_environment i
  /\ mv_id f = id /\ mv_signature f = Some (di_signature i)
  /\ signed_transaction f = Some (di_signedTransaction i).
Proof. unfold deposit_facts. by destruct (shareAccountClaimBindings _). Qed.

Lemma withdrawal_facts_spec now id i :
  let f := withdrawal_facts now id i in
  execution_model f = vault_direct /\ mv_organization_id f = wd_organizationId i
  /\ request_id f = wd_requestId i /\ direction f = withdrawal /\ position_id f = wd_positionId i
  /\ mv_project_id f = Some (wd_projectId i)
  /\ idempotency_fingerprint f = wd_idempotencyFingerprint i /\ mv_environment f = wd_environment i
  /\ mv_id f = id /\ mv_signature f = Some (wd_signature i)
  /\ signed_transaction f = Some (wd_signedTransaction i).
Proof. unfold withdrawal_facts. by destruct (shareAccountClaimBindings _). Qed.
End Inserts.

(** ** The calls *)

Section Calls.
Variable text_le : string -> string -> bool.
Notation sound := (ledger_sound text_le).

(** What every call keeps. *)
Definition kept (l l' : EarnTables) : Prop := sound l' /\ grows (movements l) (movements l').

Lemma kept_same l l' : sound l' -> movements l' = movements l -> kept l l'.
Proof. intros H E. split; [done|]. rewrite E. apply grows_refl. Qed.

Lemma kept_refl l : sound l -> kept l l.
Proof. intros. by apply kept_same. Qed.

Lemma kept_trans a b c : kept a b -> kept b c -> kept a c.
Proof. intros [_ H1] [Hs H2]. split; [done|]. by eapply grows_trans. Qed.

Lemma find_elem {A} (f : A -> bool) l x : List.find f l = Some x -> x ∈ l /\ f x = true.
Proof. intros [H ?]%List.find_some. split; [by apply list_elem_of_In|done]. Qed.

Lemma find_none {A} (f : A -> bool) l x : List.find f l = None -> x ∈ l -> f x = false.
Proof. intros H Hx. apply (List.find_none _ _ H). by apply list_elem_of_In. Qed.

Lemma add_position_sound p l :
  sound l -> existsb (fun q => String.eqb (pos_id q) (pos_id p)) (positions l) = false ->
  share_ata_rent_funder p = None -> is_Some (activated_at p) ->
  sound (with_positions l (positions l ++ [p])).
Proof.
  intros [Hok Hfu Ha] Hn Hf Hact.
  assert (forall q, q ∈ positions l -> pos_id q <> pos_id p) as Hfresh.
  { intros q Hq E. rewrite <- not_true_iff_false, existsb_exists in Hn. destruct Hn.
    exists q. rewrite list_elem_of_In in Hq. by rewrite String.eqb_eq. }
  split; [by apply add_position_ok| |].
  - intros q [Hq| ->%list_elem_of_singleton]%elem_of_app Hne; [by apply Hfu|]. cbn. rewrite Hf.
    symmetry. apply projected_funder_none. intros m Hm E.
    pose proof (proj1 (Forall_forall _ _) (ok_claims _ Hok) m Hm) as (q & Hq & Hc)%Exists_exists.
    apply claims_position_id in Hc. apply (Hfresh q Hq). congruence.
  - intros m q Hm [Hq| ->%list_elem_of_singleton]%elem_of_app; [by apply Ha|done].
Qed.

Lemma claim_spec now id i l p l' :
  sound l -> claimVaultPosition now id i l = Ok (p, l') ->
  sound l' /\ movements l' = movements l /\ p ∈ positions l' /\ is_Some (activated_at p)
  /\ pos_organization_id p = di_organizationId i.
Proof.
  intros Hs. unfold claimVaultPosition.
  destruct (List.find _ (projects l)) as [pr|] eqn:Hp; [|done].
  destruct (List.find _ (custody_wallets l)) as [w|]; [|done].
  apply find_elem in Hp as [_ [[_ Ho%String.eqb_eq]%andb_true_iff _]%andb_true_iff].
  destruct (wallet_in_scope pr w); cbn [negb]; [|done]. set (claimed := mkPosition id _ _ _ _ _ _ _ _ _ _ _ _ _ _ _ _ _).
  destruct (List.find (same_claim claimed) (positions l)) as [held|] eqn:Hh.
  - apply find_elem in Hh as [Hh Hc]. destruct (_ && _); [|done]. intros [= <- <-].
    split; [|split; [done|split; [|split; [by eexists|]]]].
    + destruct Hs as [Hok Hfu Ha].
      destruct (update_position_holdings text_le None (pos_id held)
                  (refresh_claim now (di_label i)) l) as [H1 H2]; [by repeat split|by intros; eexists|done|done|].
      split; [|done|done]. apply update_position_ok; [done|]. intros q. by repeat split.
    + apply list_elem_of_fmap. exists held. by rewrite String.eqb_refl.
    + unfold same_claim in Hc. rewrite !andb_true_iff, String.eqb_eq in Hc.
      destruct Hc as [[[[[_ E] _] _] _] _]. cbn in *. congruence.
  - destruct (existsb _ (positions l)) eqn:Hx; [done|]. intros [= <- <-].
    split; [by apply add_position_sound|]. split; [done|].
    split; [apply elem_of_app; right; by apply list_elem_of_singleton|]. split; [by eexists|done].
Qed.

Lemma deposit_kept now pid mid i earlier l r l' :
  sound l -> createSignedVaultDepositIntent text_le now pid mid i earlier l = Ok (r, l') ->
  kept l l'.
Proof.
  intros Hs. unfold createSignedVaultDepositIntent.
  destruct (findVaultMovementByRequestId _ _ earlier) as [prior|].
  { destruct (assertMovementIsOwnReplay _ _ _); [|done]. cbn.
    destruct (requireMovementPosition l prior); [|done]. intros [= _ <-]. by apply kept_refl. }
  destruct (claimVaultPosition now pid i l) as [[p l1]|] eqn:Hc; [|done]. cbn.
  apply claim_spec in Hc as (Hs1 & Hm & Hp & Hact & Ho); [|done].
  destruct (insertVaultMovement now mid i (pos_id p) l1) as [[r1 l2]|] eqn:Hi; [|done]. cbn.
  pose proof (deposit_facts_spec now mid i (pos_id p)) as (E1 & E2 & E3 & E4 & E5 & _).
  apply (insert_vault_sound text_le now _ _ _ _ _ _ Hs1) in Hi;
    [destruct Hi as [[-> ->]|(-> & Hm2 & Hs2)]|..].
  - destruct (findVaultMovementByRequestId _ _ l1) as [w|]; [|done].
    destruct (assertMovementIsOwnReplay _ _ _); [|done]. cbn.
    destruct (requireMovementPosition l1 w); [|done]. intros [= _ <-]. by apply kept_same.
  - intros [= _ <-]. cbn [facts inserted] in Hs2. rewrite E5 in Hs2. split; [done|].
    cbn [movements projectShareAccountRentFunder update_position with_positions]. rewrite Hm2, Hm.
    apply grows_snoc.
  - apply inserted_sound. congruence.
  - done.
  - done.
  - intros _ q Hq E. cbn [facts inserted] in E. rewrite E5 in E.
    by rewrite (same_position_row l1 q p (sound_tables _ _ Hs1) Hq Hp E).
Qed.

Lemma resolveReplay_none i snapshot l :
  resolveReplay i snapshot l = Ok None ->
  findVaultMovementByRequestId (wd_organizationId i) (wd_requestId i) snapshot = None.
Proof.
  unfold resolveReplay. destruct (findVaultMovementByRequestId _ _ _); [|done].
  destruct (assertMovementIsOwnReplay _ _ _); [|done]. cbn. destruct (negb _); [done|].
  by destruct (requireMovementPosition _ _).
Qed.

Lemma withdrawal_kept now mid i earlier l r l' :
  sound l -> createSignedVaultWithdrawalIntent text_le now mid i earlier l = Ok (r, l') ->
  kept l l'.
Proof.
  intros Hs. unfold createSignedVaultWithdrawalIntent.
  destruct (resolveReplay i earlier l) as [[x|]|]; cbn; [| |done].
  { intros [= _ <-]. by apply kept_refl. }
  destruct (insertVaultWithdrawalMovement now mid i l) as [[r1 l2]|] eqn:Hi; [|done].
  cbn [result_bind].
  pose proof (withdrawal_facts_spec now mid i) as (E1 & E2 & E3 & E4 & E5 & _).
  apply (insert_vault_sound text_le now _ _ _ _ _ _ Hs) in Hi;
    [destruct Hi as [[-> ->]|(-> & Hm2 & Hs2)]|..].
  - destruct (resolveReplay i l l) as [[x|]|]; [|done|done]. intros [= _ <-]. by apply kept_refl.
  - destruct (requireMovementPosition _ _); [|done]. intros [= _ <-]. split; [done|].
    cbn [movements projectShareAccountRentFunder update_position with_positions]. rewrite Hm2.
    apply grows_snoc.
  - apply inserted_sound. congruence.
  - done.
  - done.
  - intros Hd. cbn [facts inserted] in Hd. congruence.
Qed.

(** *** Updates *)

(** What an update must do to a row. *)
Record row_step (m m' : EarnMovementRow) : Prop := mkRowStep {
  step_facts : facts m' = facts m;
  step_sound : movement_checks m' = true -> movement_sound m';
  step_later : later_movement m m';
  step_live : status_one_of (mv_status m') live_statuses = true ->
    status_one_of (mv_status m) live_statuses = true;
}.

(** What a successful update leaves: nothing matched, or one row was replaced, and
    every funder stands that the row's status does not bear on. *)
Definition updated (matches : EarnMovementRow -> bool) (f : EarnMovementRow -> EarnMovementRow)
    (l : EarnTables) (r : option EarnMovementRow) (l' : EarnTables) : Prop :=
  (r = None /\ l' = l)
  \/ exists m, m ∈ movements l /\ matches m = true /\ r = Some (f m)
       /\ tables_ok l' /\ grows (movements l) (movements l') /\ positions l' = positions l
       /\ f m ∈ movements l' /\ active_ok l'
       /\ forall except,
            (bool_decide (mv_status (f m) = mv_failed) = bool_decide (mv_status m = mv_failed)
             \/ creates_share_account (facts m) = false \/ except = Some (position_id (facts m))) ->
            funders_ok text_le except l'.

Lemma update_kept matches f l r l' :
  sound l ->
  (forall a b, a ∈ movements l -> b ∈ movements l -> matches a = true -> matches b = true -> a = b) ->
  (forall m, m ∈ movements l -> matches m = true -> row_step m (f m)) ->
  update_movement matches f l = Ok (r, l') -> updated matches f l r l'.
Proof.
  intros [Hok Hfu Ha] Hu Hstep Hup.
  apply update_movement_spec in Hup as [(-> & -> & _)|(m & Hm & Hmm & -> & Hc & Hd & ->)];
    [by left| |apply Hok|done].
  right. exists m. destruct (Hstep m Hm Hmm) as [Hf Hso Hla Hli].
  assert (Forall2 later_movement (movements l) (replace_row (mv_id (facts m)) (f m) (movements l))).
  { apply replace_row_rel; [apply Hok|done|intros; apply later_refl|done]. }
  split; [done|]. split; [done|]. split; [done|]. split; [by apply replace_ok; auto|].
  split; [by apply grows_rel|]. split; [done|]. split; [|split].
  - apply list_elem_of_fmap. exists m. by rewrite String.eqb_refl.
  - by apply (update_holdings text_le (Some (position_id (facts m))) l m (f m)); auto.
  - intros except Hcase. by apply (update_holdings text_le except l m (f m)).
Qed.

(** *** Advancing *)

Record transition_metadata (i : AdvanceVaultMovementInput) : Prop := mkMetadata {
  failure_given : given (adv_failureReason i) = true -> adv_toStatus i = mv_failed;
  failure_present : adv_toStatus i = mv_failed -> missing_text (adv_failureReason i) = false;
  settled_given : given (adv_settledAt i) = true -> adv_toStatus i = mv_finalized;
  settled_present : adv_toStatus i = mv_finalized -> missing_text (adv_settledAt i) = false;
  confirmed_given : given (adv_confirmedAt i) = true ->
    status_one_of (adv_toStatus i) [mv_confirmed; mv_finalized] = true;
  confirmed_present : status_one_of (adv_toStatus i) [mv_confirmed; mv_finalized] = true ->
    missing_text (adv_confirmedAt i) = false;
  shares_given : given (adv_sharesOut i) = true -> adv_toStatus i = mv_confirmed;
  shares_valid : forall s, adv_sharesOut i = Some (Some s) -> positive_amount s = true;
}.

Lemma objection_spec i : vault_transition_objection i = None <-> transition_metadata i.
Proof.
  unfold vault_transition_objection. split.
  - repeat match goal with
      |- context [if ?b then Some _ else _] => destruct b eqn:?; [by intros|]
    end. intros Hs.
    repeat match goal with
      H : _ && _ = false |- _ => apply andb_false_iff in H
    | H : _ \/ negb _ = false |- _ => rewrite negb_false_iff in H
    | H : context [bool_decide _ = true] |- _ => rewrite bool_decide_eq_true in H
    | H : context [bool_decide _ = false] |- _ => rewrite bool_decide_eq_false in H
    end.
    split; try intuition congruence.
    intros s E. rewrite E in Hs. by destruct (positive_amount s).
  - intros [F1 F2 S1 S2 C1 C2 H1 H2].
    repeat match goal with
      |- (if ?b then Some _ else _) = None =>
        replace b with false;
        [|symmetry; apply andb_false_iff; rewrite ?negb_false_iff, ?bool_decide_eq_true,
            ?bool_decide_eq_false]
    end.
    + destruct (adv_sharesOut i) as [[s|]|]; [|done..]. by rewrite (H2 s).
    + destruct (given (adv_sharesOut i)); auto.
    + destruct (status_one_of _ _); auto.
    + destruct (given (adv_confirmedAt i)); auto.
    + destruct (decide (adv_toStatus i = mv_finalized)); auto.
    + destruct (given (adv_settledAt i)); auto.
    + destruct (decide (adv_toStatus i = mv_failed)); auto.
    + destruct (given (adv_failureReason i)); auto.
Qed.

(** [eqb] of two truth values that a check makes equal. *)
Lemma metadata_spec m :
  is_vault m = true -> metadata_check m = true ->
  status_one_of (mv_status m) [mv_confirmed; mv_finalized] = not_blank (confirmed_at m)
  /\ bool_decide (mv_status m = mv_finalized) = not_blank (settled_at m)
  /\ bool_decide (mv_status m = mv_failed) = not_blank (mv_failure_reason m).
Proof.
  intros Hv. unfold metadata_check. rewrite Hv. cbn [negb orb].
  rewrite !andb_true_iff, !eqb_true_iff. tauto.
Qed.

Lemma checks_metadata m : movement_checks m = true -> metadata_check m = true.
Proof. unfold movement_checks. rewrite !andb_true_iff. tauto. Qed.

Lemma assigned_not_given c old : given c = false -> assigned c old = old.
Proof. unfold given, assigned. by destruct c. Qed.

Lemma vault_sources_live to s :
  s ∈ EARN_MOVEMENT_TRANSITIONS vault_direct to -> status_one_of s live_statuses = true.
Proof.
  rewrite status_one_of_spec. destruct to; cbn; rewrite ?elem_of_cons, ?elem_of_nil;
    unfold live_statuses; set_solver.
Qed.

Lemma sources_not_terminal e to s :
  s ∈ EARN_MOVEMENT_TRANSITIONS e to -> s ∉ EARN_TERMINAL_MOVEMENT_STATUSES e.
Proof. destruct e, to; cbn; set_solver. Qed.

Lemma advances_spec i sources m :
  advances_movement i sources m = true <->
  mv_id (facts m) = adv_movementId i /\ mv_organization_id (facts m) = adv_organizationId i
  /\ is_vault m = true /\ mv_status m ∈ sources.
Proof.
  unfold advances_movement.
  rewrite !andb_true_iff, !String.eqb_eq, status_one_of_spec. tauto.
Qed.

Lemma advance_row_sound now i m :
  transition_metadata i -> movement_sound m -> is_vault m = true ->
  movement_checks (advance_row now i m) = true -> movement_sound (advance_row now i m).
Proof.
  intros Hi (_ & Hs & _) Hv Hc. split; [done|].
  assert (is_vault (advance_row now i m) = true) as Hv' by done.
  split; [|by rewrite Hv']. intros _. destruct (Hs Hv) as (N1 & N2 & N3).
  pose proof (metadata_spec _ Hv' (checks_metadata _ Hc)) as (M1 & M2 & M3).
  split; [|split].
  - destruct (given (adv_confirmedAt i)) eqn:Eg.
    + left. rewrite <- M1. by apply confirmed_given.
    + unfold given in Eg. cbn. by destruct (adv_confirmedAt i).
  - destruct (given (adv_settledAt i)) eqn:Eg.
    + left. rewrite <- M2. by apply bool_decide_eq_true, settled_given.
    + cbn. by rewrite assigned_not_given.
  - destruct (given (adv_failureReason i)) eqn:Eg.
    + left. rewrite <- M3. by apply bool_decide_eq_true, failure_given.
    + cbn. by rewrite assigned_not_given.
Qed.

Lemma advance_row_step now i m :
  transition_metadata i -> movement_sound m -> is_vault m = true ->
  mv_status m ∈ EARN_MOVEMENT_TRANSITIONS vault_direct (adv_toStatus i) ->
  row_step m (advance_row now i m).
Proof.
  intros Hi Hs Hv Hsrc.
  assert (execution_model (facts m) = vault_direct) as He
    by (unfold is_vault in Hv; by apply bool_decide_eq_true in Hv).
  split; [done|by apply advance_row_sound| |intros _; by eapply vault_sources_live].
  split; [done| | | |].
  - rewrite He. by apply rtc_once.
  - rewrite He. intros Ht. by apply sources_not_terminal in Hsrc.
  - intros _ t Ht. cbn. rewrite Ht. by destruct (adv_confirmedAt i).
  - intros _ a Ha. cbn [advance_row amount_settled]. rewrite Ha.
    by destruct (status_one_of (adv_toStatus i) [mv_confirmed; mv_finalized]).
Qed.

Lemma allowed_sources e to sources :
  allowedSourceStatuses e to = Ok sources -> sources = EARN_MOVEMENT_TRANSITIONS e to.
Proof. unfold allowedSourceStatuses. destruct (EARN_MOVEMENT_TRANSITIONS e to); [done|congruence]. Qed.

Lemma advances_unique i sources l a b :
  tables_ok l -> a ∈ movements l -> b ∈ movements l ->
  advances_movement i sources a = true -> advances_movement i sources b = true -> a = b.
Proof.
  intros Hok Ha Hb (E & _)%advances_spec (E' & _)%advances_spec.
  apply (same_id_same_row (movements l)); [apply Hok|done|done|congruence].
Qed.

Lemma advance_update now i l r l' :
  sound l -> transition_metadata i ->
  let matches := advances_movement i (EARN_MOVEMENT_TRANSITIONS vault_direct (adv_toStatus i)) in
  update_movement matches (advance_row now i) l = Ok (r, l') ->
  updated matches (advance_row now i) l r l'.
Proof.
  intros Hs Hi. cbn zeta. apply update_kept; [done| |].
  - intros a b. apply advances_unique, Hs.
  - intros m Hm (_ & _ & Hv & Hst)%advances_spec. apply advance_row_step; [done| |done|done].
    by apply (proj1 (Forall_forall _ _) (ok_rows _ (sound_tables _ _ Hs)) m).
Qed.

Lemma failed_row_kept now i l m l' :
  sound l -> adv_toStatus i = mv_failed ->
  m ∈ movements l' -> mv_organization_id (facts m) = adv_organizationId i ->
  tables_ok l' -> active_ok l' -> grows (movements l) (movements l') ->
  funders_ok text_le (Some (position_id (facts m))) l' ->
  kept l (projectShareAccountRentFunder text_le now (position_id (facts m))
            (adv_organizationId i) (deactivate now (position_id (facts m)) l')).
Proof.
  intros Hs Ht Hm Ho Hok Ha Hg Hfu.
  destruct (deactivate_sound text_le (Some (position_id (facts m))) now (position_id (facts m)) l')
    as (H1 & H2 & H3); [done..|].
  split; [|done]. apply project_sound; [done..|]. intros p Hp E. rewrite <- Ho.
  apply claims_position_organization.
  by apply (movement_claims (deactivate now (position_id (facts m)) l')).
Qed.

Lemma advance_kept now i l r l' :
  sound l -> advanceVaultMovement text_le now i l = Ok (r, l') -> kept l l'.
Proof.
  intros Hs. unfold advanceVaultMovement, assertVaultTransitionMetadata.
  destruct (vault_transition_objection i) eqn:Ho; [done|]. apply objection_spec in Ho. cbn [result_bind].
  destruct (allowedSourceStatuses vault_direct (adv_toStatus i)) as [sources|] eqn:Hso; [|done].
  apply allowed_sources in Hso as ->. cbn [result_bind].
  set (matches := advances_movement i _). set (f := advance_row now i).
  assert (forall m, matches m = true -> mv_status m <> mv_failed
            /\ mv_organization_id (facts m) = adv_organizationId i) as Hmatch.
  { intros m (_ & Hor & _ & Hst)%advances_spec. split; [|done].
    intros E. apply sources_not_terminal in Hst. rewrite E in Hst. cbn in Hst. set_solver. }
  assert (forall m, bool_decide (adv_toStatus i = mv_failed) = false -> matches m = true ->
            bool_decide (mv_status (f m) = mv_failed) = bool_decide (mv_status m = mv_failed)) as Hnf.
  { intros m E Hm. destruct (Hmatch m Hm) as [H _]. cbn. rewrite E. symmetry.
    by apply bool_decide_eq_false. }
  destruct (bool_decide (adv_toStatus i = mv_submitted)) eqn:Esub.
  { intros [[-> ->]|(m & Hm & Hmm & -> & Hok & Hg & _ & _ & Ha & Hfu)]%advance_update;
      [by apply kept_refl| |done|done].
    split; [|done]. split; [done| |done]. apply Hfu. left. apply Hnf; [|done].
    apply bool_decide_eq_true in Esub as ->. done. }
  destruct (getMovementById _ _ l) as [candidate|]; [|intros [= _ <-]; by apply kept_refl].
  destruct (update_movement matches f l) as [[r1 l1]|] eqn:E; [|done]. cbn [result_bind].
  apply advance_update in E as [[-> ->]|(m & Hm & Hmm & -> & Hok & Hg & Hp & Hin & Ha & Hfu)];
    [| |done|done].
  { intros [= _ <-]. by apply kept_refl. }
  destruct (bool_decide (adv_toStatus i = mv_failed)) eqn:Ef.
  { intros [= _ <-]. apply bool_decide_eq_true in Ef. apply (failed_row_kept now i l (f m) l1);
      [done|done|done|exact (proj2 (Hmatch m Hmm))|done|done|done|]. apply Hfu. auto. }
  assert (sound l1) as Hs1 by (split; [done| |done]; apply Hfu; auto).
  destruct (bool_decide (direction (facts candidate) = deposit)); intros [= _ <-].
  - split; [by apply reactivate_sound|done].
  - by split.
Qed.

(** *** The queue *)

Lemma vault_in_spec ss m : vault_in ss m = true <-> is_vault m = true /\ mv_status m ∈ ss.
Proof. unfold vault_in. by rewrite andb_true_iff, status_one_of_spec. Qed.

Lemma claimed_rows_unsettled limit ms m :
  m ∈ claimed_rows text_le limit ms -> m ∈ ms /\ vault_in unsettled m = true.
Proof.
  unfold claimed_rows. rewrite !elem_of_app.
  intros [[[Hm H]%limited_elem|[Hm H]%limited_elem]|[Hm H]%limited_elem]; split; try done.
  - apply vault_in_spec in H as [Hv H]. apply vault_in_spec. split; [done|]. unfold unsettled. set_solver.
  - apply vault_in_spec in H as [Hv H]. apply vault_in_spec. split; [done|]. unfold unsettled. set_solver.
  - by apply andb_true_iff in H as [H _].
Qed.

Lemma has_id_spec ms claimed m :
  ForallOrdPairs compatible ms -> (forall x, x ∈ claimed -> x ∈ ms) -> m ∈ ms ->
  has_id claimed m = true <-> m ∈ claimed.
Proof.
  intros Hu Hsub Hm. unfold has_id. rewrite existsb_exists. setoid_rewrite String.eqb_eq. split.
  - intros (x & Hx & E). apply list_elem_of_In in Hx.
    by rewrite <- (same_id_same_row ms x m Hu (Hsub x Hx) Hm E).
  - intros H. exists m. by rewrite <- list_elem_of_In.
Qed.

(** Statements that only stamp rows with the time of an attempt. *)
Lemma touch_sound l (g : EarnMovementRow -> EarnMovementRow) :
  (forall m, g m = m \/ exists now, g m = touch_attempt now m) ->
  sound l -> sound (with_movements l (g <$> movements l)).
Proof.
  intros Hg [[Hr Hu Hc Hp] Hfu Ha].
  assert (forall m, facts (g m) = facts m /\ mv_status (g m) = mv_status m
            /\ (movement_sound m -> movement_sound (g m))) as Hsame
    by (intros m; by destruct (Hg m) as [->|[now ->]]).
  assert (forall m o, compatible m o -> compatible (g m) (g o)) as Hcomp
    by (intros m o; destruct (Hg m) as [->|[now ->]], (Hg o) as [->|[now' ->]]; done).
  split; [split| |]; cbn.
  - apply Forall_fmap. eapply Forall_impl; [exact Hr|]. intros m Hm. by apply Hsame.
  - clear -Hu Hcomp. induction Hu as [|m ms Hm Hms IH]; [constructor|]. rewrite fmap_cons.
    constructor; [|done]. apply Forall_fmap. eapply Forall_impl; [exact Hm|]. intros o. apply Hcomp.
  - apply Forall_fmap. eapply Forall_impl; [exact Hc|]. intros m Hm. cbn.
    eapply Exists_impl; [exact Hm|]. intros p. unfold claims_position.
    by destruct (Hsame m) as (-> & _).
  - done.
  - intros p Hpos Hne. cbn in *. rewrite (Hfu p Hpos Hne). apply projected_funder_rel.
    apply Forall2_fmap_r, Forall_Forall2_diag, Forall_forall. intros m _. cbn.
    destruct (Hsame m) as (E1 & E2 & _). split; [done|].
    unfold claims_share_account. by rewrite E1, E2.
  - intros m p (o & -> & Ho)%list_elem_of_fmap Hpos. destruct (Hsame o) as (-> & -> & _).
    by apply Ha.
Qed.

Lemma queue_kept now limit l r l' :
  sound l -> claimUnsettledVaultMovements text_le now limit l = Ok (r, l') -> kept l l'.
Proof.
  intros Hs. unfold claimUnsettledVaultMovements. destruct (_ || _); [done|].
  intros [= _ <-]. set (claimed := claimed_rows text_le limit (movements l)). split.
  - apply touch_sound; [|done]. intros m. destruct (has_id claimed m); eauto.
  - apply grows_rel, Forall2_fmap_r, Forall_Forall2_diag, Forall_forall. intros m Hm. cbn.
    destruct (has_id claimed m) eqn:E; [|apply later_refl].
    apply (has_id_spec (movements l)) in E; [|apply Hs|by intros x []%claimed_rows_unsettled|done].
    apply claimed_rows_unsettled in E as [_ [Hv Hst]%vault_in_spec].
    unfold is_vault in Hv. apply bool_decide_eq_true in Hv. split; try done.
    rewrite Hv. intros Ht. exfalso. revert Hst Ht. rewrite <- !status_one_of_spec.
    by destruct (mv_status m).
Qed.

(** *** Custodial movements *)

Lemma mint_kept id w l l' :
  sound l -> mintEarnPositionForProviderWallet id w l = Ok l' -> kept l l'.
Proof.
  intros Hs. unfold mintEarnPositionForProviderWallet. set (holds := fun p => _).
  set (l1 := match List.find _ _ with Some _ => _ | None => _ end).
  assert (kept l l1) as H.
  { unfold l1. destruct (List.find _ _) as [r|]; [|by apply kept_refl].
    destruct (existsb holds _ || _) eqn:E; [by apply kept_refl|].
    apply orb_false_iff in E as [_ E]. apply kept_same; [|done].
    apply add_position_sound; [done|done|done|by eexists]. }
  destruct (existsb holds (positions l1)); [|done]. by intros [= <-].
Qed.

Lemma insert_custodial_kept now id i l r l' :
  sound l -> insert_custodial now id i l = Ok (r, l') -> kept l l'.
Proof.
  intros Hs. unfold insert_custodial. destruct (List.find _ _) as [p|];
    [|intros [= _ <-]; by apply kept_refl].
  intros Hi. apply (insert_sound text_le) in Hi; [|done|..|done].
  - destruct Hi as [[-> ->]|(-> & -> & Hok & Ha & Hfu)]; [by apply kept_refl|].
    split; [by split|]. apply grows_snoc.
  - by apply inserted_sound.
  - by intros o _ _ (_ & Hv & _).
Qed.

Lemma custodial_kept now id pid id' i l r l' :
  sound l -> createCustodialMovement now id pid id' i l = Ok (r, l') -> kept l l'.
Proof.
  intros Hs. unfold createCustodialMovement.
  destruct (insert_custodial now id i l) as [[[m|] l1]|] eqn:E1; [|cbn [result_bind]|done].
  { intros [= _ <-]. by eapply insert_custodial_kept. }
  apply insert_custodial_kept in E1; [|done].
  destruct (mintEarnPositionForProviderWallet _ _ l1) as [l2|] eqn:E2; [|done].
  apply mint_kept in E2; [|apply E1]. cbn [result_bind].
  destruct (insert_custodial now id' i l2) as [[[m|] l3]|] eqn:E3; [|done..].
  intros [= _ <-]. apply insert_custodial_kept in E3; [|apply E2].
  exact (kept_trans _ _ _ E1 (kept_trans _ _ _ E2 E3)).
Qed.

Lemma distinct_references m o r :
  distinct_keys m o = true -> mv_provider (facts m) = mv_provider (facts o) ->
  provider_reference m = Some r -> provider_reference o <> Some r.
Proof.
  unfold distinct_keys. rewrite !andb_true_iff, !negb_true_iff. intros [[[_ _] H] _] E1 E2 E.
  rewrite E1, E2, E, String.eqb_refl, (bool_decide_eq_true_2 (Some r = Some r)) in H by done. done.
Qed.

Lemma pairs_unique {A} (R : A -> A -> Prop) l a b :
  ForallOrdPairs R l -> a ∈ l -> b ∈ l -> a = b \/ R a b \/ R b a.
Proof. intros Hu Ha Hb. apply (ForallOrdPairs_In Hu); by apply list_elem_of_In. Qed.

Lemma observes_unique i sources l a b :
  tables_ok l -> a ∈ movements l -> b ∈ movements l ->
  observes_movement i sources a = true -> observes_movement i sources b = true -> a = b.
Proof.
  intros Hok Ha Hb. unfold observes_movement. rewrite !andb_true_iff.
  intros [_ Sa] [_ Sb]. destruct (uc_selector i) as [id|provider reference]; cbn in Sa, Sb.
  - rewrite String.eqb_eq in Sa, Sb. apply (same_id_same_row (movements l)); [apply Hok|done..|congruence].
  - rewrite andb_true_iff, String.eqb_eq, bool_decide_eq_true in Sa, Sb.
    destruct Sa as [Pa Ra], Sb as [Pb Rb].
    destruct (pairs_unique _ _ a b (ok_unique _ Hok) Ha Hb) as [E|[[E _]|[E _]]]; [done| |].
    + by destruct (distinct_references _ _ reference E); [congruence|..].
    + by destruct (distinct_references _ _ reference E); [congruence|..].
Qed.

Lemma observe_row_step now i m :
  movement_sound m -> is_vault m = false ->
  mv_status m ∈ EARN_MOVEMENT_TRANSITIONS custodial (uc_toStatus i) ->
  row_step m (observe_row now i m).
Proof.
  intros (_ & _ & Hc) Hv Hsrc. specialize (Hc Hv).
  assert (execution_model (facts m) = custodial) as He
    by (unfold is_vault in Hv; destruct (execution_model (facts m)); done).
  split; [done| | |].
  - intros H. split; [done|]. split; [unfold is_vault in *; cbn; by rewrite Hv|done].
  - split; [done| | |by rewrite He..].
    + rewrite He. by apply rtc_once.
    + rewrite He. intros Ht. by apply sources_not_terminal in Hsrc.
  - cbn [observe_row mv_status]. by destruct (uc_toStatus i); try apply elem_of_nil in Hsrc.
Qed.

Lemma observe_kept now i l r l' :
  sound l -> updateCustodialMovementGuarded now i l = Ok (r, l') -> kept l l'.
Proof.
  intros Hs. unfold updateCustodialMovementGuarded.
  destruct (allowedSourceStatuses custodial (uc_toStatus i)) as [sources|] eqn:Hso; [|done].
  apply allowed_sources in Hso as ->. cbn [result_bind].
  assert (forall m, m ∈ movements l -> movement_sound m) as Hrow
    by (apply Forall_forall, Hs).
  intros Hup. apply update_kept in Hup; [|done|..].
  - destruct Hup as [[-> ->]|(m & Hm & Hmm & -> & Hok & Hg & _ & _ & Ha & Hfu)];
      [by apply kept_refl|]. split; [|done]. split; [done| |done]. apply Hfu. right. left.
    unfold observes_movement in Hmm. rewrite !andb_true_iff, negb_true_iff in Hmm.
    destruct Hmm as [[[_ Hv] _] _]. by apply (Hrow m Hm).
  - intros a b. apply observes_unique, Hs.
  - intros m Hm Hmm. unfold observes_movement in Hmm.
    rewrite !andb_true_iff, negb_true_iff, status_one_of_spec in Hmm.
    destruct Hmm as [[[_ Hv] Hst] _]. by apply observe_row_step; [apply Hrow|..].
Qed.

(** *** Histories *)

Lemma apply_earn_op_kept op l : sound l -> kept l (apply_earn_op text_le op l).
Proof.
  intros Hs. destruct op; cbn [apply_earn_op]; unfold tables_after;
    match goal with |- kept l (match ?r with _ => _ end) => destruct r as [x|] eqn:E end;
    try destruct x as [x l1]; try (by apply kept_refl).
  - by eapply deposit_kept.
  - by eapply withdrawal_kept.
  - by eapply advance_kept.
  - by eapply queue_kept.
  - by eapply custodial_kept.
  - by eapply observe_kept.
  - by eapply mint_kept.
Qed.

Lemma earn_history_kept ops l : sound l -> kept l (earn_history text_le ops l).
Proof.
  revert l. induction ops as [|op ops IH]; intros l Hs; [by apply kept_refl|].
  pose proof (apply_earn_op_kept op l Hs) as H. eapply kept_trans; [exact H|]. by apply IH, H.
Qed.
End Calls.

(** ** Tables without movements *)

Lemma empty_ledger_sound text_le prs cws pws :
  ledger_sound text_le (mkTables [] [] prs cws pws).
Proof. split; [split|..]; [by constructor..| |by intros p ?%elem_of_nil|by intros m p ?%elem_of_nil]. constructor. Qed.

(** A project, its wallet, and the life of one deposit. *)
Module EarnDemo.

Definition text_le (a b : string) : bool :=
  match String.compare a b with Gt => false | _ => true end.

Definition tables : EarnTables :=
  mkTables [] [] [mkProject "prj" "org" sandbox] [mkWallet "cw" (Some (mkScope "org" None)) None] [].

Definition deposit_intent : CreateSignedVaultDepositIntentInput :=
  mkDepositIntent "org" "prj" sandbox "kamino" "vault" "cw" "shares" "usdc" "USDC vault" "25" None
    "owner" "sig" "tx" 100 "req-1" "fp-1" None None (mkAttribution true (Some "sponsor")).

Definition withdrawal_intent : CreateSignedVaultWithdrawalIntentInput :=
  mkWithdrawalIntent "org" "prj" sandbox "kamino" "pos" "vault" "cw" "shares" "5" "owner" "sig-2"
    "tx-2" 110 "req-2" "fp-2" None None (mkAttribution false None).

Definition confirm : AdvanceVaultMovementInput :=
  mkAdvance "mv" "org" mv_confirmed (Some (Some "24.5")) None (Some (Some "t2")) None.

Definition fail : AdvanceVaultMovementInput :=
  mkAdvance "mv" "org" mv_failed None (Some (Some "expired")) None None.

Definition opened : EarnTables :=
  apply_earn_op text_le (OpDeposit "t1" "pos" "mv" deposit_intent tables) tables.

Definition confirmed : EarnTables := apply_earn_op text_le (OpAdvance "t2" confirm) opened.

Lemma tables_sound : ledger_sound text_le tables.
Proof. apply empty_ledger_sound. Qed.

Lemma opened_sound : ledger_sound text_le opened.
Proof. apply (apply_earn_op_kept text_le (OpDeposit "t1" "pos" "mv" deposit_intent tables)), tables_sound. Qed.

Lemma confirmed_sound : ledger_sound text_le confirmed.
Proof. apply (apply_earn_op_kept text_le (OpAdvance "t2" confirm)), opened_sound. Qed.

Example opened_movements : length (movements opened) = 1%nat.
Proof. vm_compute. reflexivity. Qed.

Example opened_funder : share_ata_rent_funder <$> positions opened = [Some "sponsor"].
Proof. vm_compute. reflexivity. Qed.

Example confirmed_statuses : mv_status <$> movements confirmed = [mv_confirmed].
Proof. vm_compute. reflexivity. Qed.

Example failed_holding :
  (fun p => (activated_at p, share_ata_rent_funder p))
    <$> positions (apply_earn_op text_le (OpAdvance "t2" fail) opened) = [(None, None)].
Proof. vm_compute. reflexivity. Qed.
End EarnDemo.

(** * Theorems *)

(** C11. Whatever calls the ledger serves, its tables stay sound: every movement
    meets the constraints of its row and its model, no two share an id, a signature,
    a provider reference or a vault request, each names a holding of its own
    organization, provider, vault and wallet, the rent funder of a holding is the one
    its newest movement that claims the share account names, and a holding with a
    live deposit is active. *)
Theorem earn_ledger_invariant text_le ops l :
  ledger_sound text_le l -> ledger_sound text_le (earn_history text_le ops l).
Proof. intros H. by apply (earn_history_kept text_le ops l H). Qed.

Lemma earn_ledger_invariant_witness :
  ledger_sound EarnDemo.text_le (earn_history EarnDemo.text_le
    [OpDeposit "t1" "pos" "mv" EarnDemo.deposit_intent EarnDemo.tables;
     OpAdvance "t2" EarnDemo.confirm;
     OpWithdrawal "t3" "mv-2" EarnDemo.withdrawal_intent EarnDemo.tables;
     OpClaim "t4" 64] EarnDemo.tables).
Proof. apply earn_ledger_invariant, EarnDemo.tables_sound. Defined.

(** C30. No history loses or rewrites a movement. The rows stay, in their order,
    with the facts they were recorded with; a status only ever moves along the
    transition matrix; a terminal row never changes again; and the commitment time
    and the settled amount of a vault movement, once written, stand. *)
Theorem movement_lifecycle text_le ops l :
  ledger_sound text_le l ->
  exists old new, movements (earn_history text_le ops l) = (old ++ new)%list
    /\ Forall2 later_movement (movements l) old.
Proof. intros H. apply (earn_history_kept text_le ops l H). Qed.

Lemma movement_lifecycle_witness :
  exists old new,
    movements (earn_history EarnDemo.text_le [OpAdvance "t2" EarnDemo.confirm] EarnDemo.opened)
      = (old ++ new)%list
    /\ Forall2 later_movement (movements EarnDemo.opened) old.
Proof. apply movement_lifecycle, EarnDemo.opened_sound. Defined.

Lemma committed_stays s s' :
  reachable vault_direct s s' -> s ∈ [mv_confirmed; mv_finalized] ->
  s' ∈ [mv_confirmed; mv_finalized].
Proof.
  induction 1 as [s|s s1 s' Ht _ IH]; [done|]. intros Hs. apply IH. revert Hs Ht.
  unfold transition. rewrite <- !status_one_of_spec. by destruct s, s1.
Qed.

(** A vault movement the chain has confirmed is never failed afterwards: in
    every later table its row is confirmed or finalized, with the same facts and the
    same commitment time. *)
Theorem committed_movement_stands text_le ops l m :
  ledger_sound text_le l -> m ∈ movements l -> execution_model (facts m) = vault_direct ->
  mv_status m ∈ [mv_confirmed; mv_finalized] ->
  exists m', m' ∈ movements (earn_history text_le ops l) /\ facts m' = facts m
    /\ mv_status m' ∈ [mv_confirmed; mv_finalized] /\ confirmed_at m' = confirmed_at m
    /\ is_Some (confirmed_at m').
Proof.
  intros Hs Hm Hv Hc.
  destruct (earn_history_kept text_le ops l Hs) as [_ (old & new & E & Hl)].
  apply list_elem_of_lookup_1 in Hm as [k Hk].
  destruct (Forall2_lookup_l _ _ _ _ _ Hl Hk) as (m' & Hk' & [Hf Hst _ Hco _]).
  apply list_elem_of_lookup_2 in Hk, Hk'. rewrite Hv in Hst.
  assert (is_Some (confirmed_at m)) as [t Ht].
  { pose proof (proj1 (Forall_forall _ _) (ok_rows _ (sound_tables _ _ Hs)) m Hk) as [H _].
    assert (is_vault m = true) as Hvm by (by apply bool_decide_eq_true).
    apply checks_metadata, (metadata_spec m Hvm) in H as [H _].
    apply status_one_of_spec in Hc. rewrite Hc in H. destruct (confirmed_at m); [done|done]. }
  exists m'. rewrite E, elem_of_app. split; [by left|]. split; [done|].
  split; [by eapply committed_stays|]. rewrite Ht, (Hco Hv t Ht). split; [done|by eexists].
Qed.

Lemma committed_movement_stands_witness :
  exists m', m' ∈ movements (earn_history EarnDemo.text_le [OpAdvance "t3" EarnDemo.fail]
                               EarnDemo.confirmed)
    /\ mv_status m' ∈ [mv_confirmed; mv_finalized] /\ is_Some (confirmed_at m').
Proof.
  destruct (movements EarnDemo.confirmed) as [|m rest] eqn:E; [vm_compute in E; discriminate|].
  destruct (committed_movement_stands EarnDemo.text_le [OpAdvance "t3" EarnDemo.fail]
              EarnDemo.confirmed m EarnDemo.confirmed_sound)
    as (m' & H1 & _ & H2 & _ & H3).
  - rewrite E. by left.
  - vm_compute in E. injection E as <- _. reflexivity.
  - vm_compute in E. injection E as <- _. by left.
  - by exists m'.
Defined.
