(* ===== verification/EarnMethods.v ===== *)
(** * Earn: what the methods of the movement ledger do

    On a sound ledger (EarnInvariant.v): the effect of an advance on every branch,
    the single recording of a vault request, and the share of each kind of movement
    in the reconciler's queue. *)
From Stdlib Require Import Ascii String ZArith Lia.
From stdpp Require Import base list strings sorting relations.
From S2P Require Import Prelude Text Rows PolicyTypes EarnLedger EarnInvariant.

Local Open Scope string_scope.
Local Open Scope Z_scope.
Local Open Scope sdp_scope.

(** ** The effect of an advance on the holdings *)

(** What a movement's advance does to a holding, given the movements it leaves. *)
Definition holding_effect (text_le : string -> string -> bool) (now : string)
    (to : EarnMovementStatus) (m : EarnMovementRow) (ms : list EarnMovementRow)
    (q : EarnPositionRow) : EarnPositionRow :=
  if negb (String.eqb (pos_id q) (position_id (facts m))) then q
  else if bool_decide (to = mv_submitted) then q
  else if bool_decide (to = mv_failed) then
    set_funder now (projected_funder text_le (pos_id q) ms)
      (if bool_decide (is_Some (activated_at q)) && negb (live_evidence (pos_id q) ms)
       then set_activation now None (closed_at q) q else q)
  else if bool_decide (direction (facts m) = deposit) then
    set_activation now (Some (default now (activated_at q))) None q
  else q.

(** ** The two intents *)

Inductive vault_intent :=
| DepositIntent (i : CreateSignedVaultDepositIntentInput)
| WithdrawalIntent (i : CreateSignedVaultWithdrawalIntentInput).

Definition intent_organization (v : vault_intent) : string :=
  match v with DepositIntent i => di_organizationId i | WithdrawalIntent i => wd_organizationId i end.

Definition intent_request (v : vault_intent) : string :=
  match v with DepositIntent i => di_requestId i | WithdrawalIntent i => wd_requestId i end.

Definition intent_signature (v : vault_intent) : string :=
  match v with DepositIntent i => di_signature i | WithdrawalIntent i => wd_signature i end.

Definition intent_transaction (v : vault_intent) : string :=
  match v with
  | DepositIntent i => di_signedTransaction i
  | WithdrawalIntent i => wd_signedTransaction i
  end.

Definition create_intent (text_le : string -> string -> bool) (now positionId movementId : string)
    (v : vault_intent) (earlier l : EarnTables) : result (IntentResult * EarnTables) :=
  match v with
  | DepositIntent i =>
      createSignedVaultDepositIntent text_le now positionId movementId i earlier l
  | WithdrawalIntent i => createSignedVaultWithdrawalIntent text_le now movementId i earlier l
  end.

(** The movement a request recorded is a replay of the intent. *)
Definition replays (v : vault_intent) (m : EarnMovementRow) : bool :=
  match v with
  | DepositIntent i =>
      bool_decide (mv_project_id (facts m) = Some (di_projectId i))
      && String.eqb (idempotency_fingerprint (facts m)) (di_idempotencyFingerprint i)
  | WithdrawalIntent i =>
      bool_decide (mv_project_id (facts m) = Some (wd_projectId i))
      && String.eqb (idempotency_fingerprint (facts m)) (wd_idempotencyFingerprint i)
      && bool_decide (direction (facts m) = withdrawal)
  end.

(** A table that was read at some point of the history that led to [l]. *)
Definition read_before (text_le : string -> string -> bool) (earlier l : EarnTables) : Prop :=
  ledger_sound text_le earlier /\ exists ops, l = earn_history text_le ops earlier.

(** * Lemmas *)

(** ** Blank text *)

Lemma drop_while_nil p l : drop_while p l = [] <-> Forall (fun c => p c = true) l.
Proof.
  induction l as [|c l IH]; [done|]. cbn [drop_while]. rewrite Forall_cons.
  destruct (p c) eqn:E; [rewrite IH; tauto|]. split; [done|]. by intros [? _].
Qed.

Lemma stripped_nil p l :
  drop_end_while p (drop_while p l) = [] <-> Forall (fun c => p c = true) l.
Proof.
  destruct (drop_while_decompose p l) as (pre & Hl & Hpre). split.
  - unfold drop_end_while. intros H. apply (f_equal (@rev ascii)) in H.
    rewrite rev_involutive in H. cbn [rev] in H. apply drop_while_nil in H.
    apply Forall_forall. intros c Hc. rewrite Hl in Hc. apply elem_of_app in Hc as [Hc|Hc].
    + apply Hpre. by apply list_elem_of_In.
    + apply (proj1 (Forall_forall _ _) H). apply list_elem_of_In. rewrite <- in_rev.
      by apply list_elem_of_In.
  - intros H%drop_while_nil. by rewrite H.
Qed.

(** Text that JavaScript's [trim] does not empty, SQL's does not either. *)
Lemma trimmed_not_blank s : bool_decide (trim (chars s) = []) = false -> not_blank (Some s) = true.
Proof.
  intros H%bool_decide_eq_false. cbn [not_blank]. apply negb_true_iff, String.eqb_neq. intros E.
  apply H. unfold btrim in E. apply (f_equal chars) in E. rewrite chars_text in E.
  apply stripped_nil. apply stripped_nil in E. eapply Forall_impl; [exact E|].
  by intros c <-%Ascii.eqb_eq.
Qed.

Lemma present_not_blank c : missing_text c = false -> exists s, c = Some (Some s) /\ not_blank (Some s) = true.
Proof. destruct c as [[s|]|]; [|done..]. intros H. exists s. split; [done|]. by apply trimmed_not_blank. Qed.

(** ** An advance breaks no constraint *)

Section AdvanceChecks.

Lemma model_shape_advance now i m :
  is_vault m = true -> model_shape (advance_row now i m) = model_shape m.
Proof. unfold model_shape, is_vault. cbn [advance_row facts fee_amount]. by intros ->. Qed.

Lemma metadata_advance now i m :
  transition_metadata i -> movement_sound m -> is_vault m = true ->
  mv_status m ∈ EARN_MOVEMENT_TRANSITIONS vault_direct (adv_toStatus i) ->
  metadata_check (advance_row now i m) = true.
Proof.
  intros Hi (Hc & Hn & _) Hv Hsrc. destruct (Hn Hv) as (N1 & N2 & N3).
  pose proof (metadata_spec _ Hv (checks_metadata _ Hc)) as (M1 & M2 & M3).
  assert (mv_status m <> mv_failed /\ mv_status m <> mv_finalized) as [Hf Hz].
  { split; intros E; apply sources_not_terminal in Hsrc; rewrite E in Hsrc; cbn in Hsrc; set_solver. }
  rewrite bool_decide_eq_false_2 in M2, M3 by done.
  unfold metadata_check. change (is_vault (advance_row now i m)) with (is_vault m). rewrite Hv.
  cbn [negb orb]. rewrite !andb_true_iff, !eqb_true_iff.
  cbn [advance_row mv_status confirmed_at settled_at mv_failure_reason]. split; [split|].
  - destruct (status_one_of (adv_toStatus i) [mv_confirmed; mv_finalized]) eqn:Ec.
    + destruct (present_not_blank _ (confirmed_present _ Hi Ec)) as (s & -> & Hs).
      destruct N1 as [N1|N1]; [|by rewrite N1].
      unfold coalesce. by destruct (confirmed_at m).
    + destruct (adv_confirmedAt i) eqn:Eg.
      * assert (given (adv_confirmedAt i) = true) as Hg by (by rewrite Eg).
        apply (confirmed_given _ Hi) in Hg. congruence.
      * rewrite <- M1. revert Hsrc Ec. rewrite <- status_one_of_spec.
        by destruct (adv_toStatus i), (mv_status m).
  - destruct (decide (adv_toStatus i = mv_finalized)) as [E|E].
    + rewrite bool_decide_eq_true_2 by done.
      destruct (present_not_blank _ (settled_present _ Hi E)) as (s & -> & Hs). done.
    + rewrite bool_decide_eq_false_2, assigned_not_given; [done| |done].
      destruct (given (adv_settledAt i)) eqn:Eg; [|done]. by apply (settled_given _ Hi) in Eg.
  - destruct (decide (adv_toStatus i = mv_failed)) as [E|E].
    + rewrite bool_decide_eq_true_2 by done.
      destruct (present_not_blank _ (failure_present _ Hi E)) as (s & -> & Hs). done.
    + rewrite bool_decide_eq_false_2, assigned_not_given; [done| |done].
      destruct (given (adv_failureReason i)) eqn:Eg; [|done]. by apply (failure_given _ Hi) in Eg.
Qed.

Lemma amounts_advance now i m :
  transition_metadata i -> amount_checks m = true -> is_vault m = true ->
  mv_status m ∈ EARN_MOVEMENT_TRANSITIONS vault_direct (adv_toStatus i) ->
  amount_checks (advance_row now i m) = true.
Proof.
  intros Hi Hc Hv Hsrc. unfold amount_checks in *.
  change (is_vault (advance_row now i m)) with (is_vault m). rewrite Hv in *.
  cbn [advance_row facts mv_status amount_settled fee_amount shares_out negb orb] in *.
  rewrite !andb_true_iff in *. destruct Hc as [[[[Hp Ha] Hf] [Hd Hmin]] Hs].
  assert (positive_amount (amount_requested (facts m)) = true ->
          length_within (amount_requested (facts m)) = true
          /\ DECIMAL_STRING (amount_requested (facts m))
             && NON_ZERO_DIGIT (amount_requested (facts m)) = true) as Hreq
    by (unfold positive_amount; rewrite !andb_true_iff; tauto).
  destruct (Hreq Hp) as [R1 R2]. repeat split; try done.
  - destruct (status_one_of (adv_toStatus i) [mv_confirmed; mv_finalized]); [|exact Ha].
    by destruct (amount_settled m).
  - destruct (status_one_of (adv_toStatus i) [mv_confirmed; mv_finalized]); [|exact Hd].
    by destruct (amount_settled m).
  - destruct (adv_sharesOut i) as [o|] eqn:E; cbn [assigned default from_option id].
    + assert (adv_toStatus i = mv_confirmed) as -> by (apply (shares_given _ Hi); by rewrite E).
      destruct o as [s|]; [|done]. apply andb_true_iff. split; [done|]. by apply (shares_valid _ Hi).
    + change (assigned None (shares_out m)) with (shares_out m).
      destruct (shares_out m); [|done]. apply andb_true_iff in Hs as [Hs1 Hs2].
      apply andb_true_iff. split; [|done]. revert Hsrc Hs1. rewrite <- status_one_of_spec.
      by destruct (adv_toStatus i), (mv_status m).
Qed.

Lemma checks_advance now i m :
  transition_metadata i -> movement_sound m -> is_vault m = true ->
  mv_status m ∈ EARN_MOVEMENT_TRANSITIONS vault_direct (adv_toStatus i) ->
  movement_checks (advance_row now i m) = true.
Proof.
  intros Hi Hs Hv Hsrc. pose proof (metadata_advance now i m Hi Hs Hv Hsrc) as Hmeta.
  destruct Hs as (Hc & _). unfold movement_checks in *. rewrite !andb_true_iff in *.
  destruct Hc as [[[[[[C1 C2] C3] C4] C5] C6] C7].
  assert (execution_model (facts m) = vault_direct) as He
    by (unfold is_vault in Hv; by apply bool_decide_eq_true in Hv).
  split; [split; [split; [split; [split; [split|]|]|]|]|]; try done.
  - cbn [advance_row facts mv_status]. rewrite He. revert Hsrc. rewrite <- status_one_of_spec.
    by destruct (adv_toStatus i), (mv_status m).
  - by rewrite model_shape_advance.
  - by apply amounts_advance.
Qed.
End AdvanceChecks.

(** ** Statements that find their row *)

Section Updates.

(** An update that keeps the keys of its rows and meets their checks goes through. *)
Lemma update_total matches f l :
  tables_ok l ->
  (forall m, m ∈ movements l -> matches m = true ->
     movement_checks (f m) = true /\ facts (f m) = facts m
     /\ provider_reference (f m) = provider_reference m) ->
  exists r l', update_movement matches f l = Ok (r, l').
Proof.
  intros Hok Hf. unfold update_movement.
  assert (forall m, In m (f <$> List.filter matches (movements l)) ->
            exists o, o ∈ movements l /\ m = f o /\ matches o = true) as Hin.
  { intros m (o & -> & Ho)%list_elem_of_In%list_elem_of_fmap.
    apply list_elem_of_In, filter_In in Ho as [Ho Hm]. exists o. by rewrite list_elem_of_In. }
  rewrite (proj2 (forallb_forall _ _)); cbn [negb].
  - rewrite (proj2 (forallb_forall _ _)); cbn [negb]; [by eexists _, _|].
    intros m (o & Ho & -> & Hm)%Hin. destruct (Hf o Ho Hm) as (_ & E1 & E2).
    apply forallb_forall. intros x Hx%list_elem_of_In.
    destruct (String.eqb_spec (mv_id (facts (f o))) (mv_id (facts x))) as [E|E]; [done|].
    cbn [orb]. rewrite E1 in E.
    replace (distinct_keys (f o) x) with (distinct_keys o x)
      by (unfold distinct_keys, is_vault; by rewrite E1, E2).
    destruct (pairs_unique _ _ o x (ok_unique _ Hok) Ho Hx) as [->|[[H _]|[H _]]];
      [done|done|by rewrite distinct_keys_sym].
  - intros m (o & Ho & -> & Hm)%Hin. by apply Hf.
Qed.

Lemma find_unique {A} (p : A -> bool) l x :
  x ∈ l -> p x = true -> (forall y, y ∈ l -> p y = true -> y = x) -> List.find p l = Some x.
Proof.
  intros Hx Hp Hu. destruct (List.find p l) as [y|] eqn:E.
  - apply find_elem in E as [Hy Hpy]. by rewrite (Hu y Hy Hpy).
  - rewrite (find_none _ _ _ E Hx) in Hp. done.
Qed.

Lemma find_nothing {A} (p : A -> bool) l : (forall y, y ∈ l -> p y = false) -> List.find p l = None.
Proof.
  intros H. destruct (List.find p l) as [y|] eqn:E; [|done].
  apply find_elem in E as [Hy Hp]. by rewrite H in Hp.
Qed.

Lemma advance_statement text_le now i l :
  ledger_sound text_le l -> transition_metadata i ->
  let matches := advances_movement i (EARN_MOVEMENT_TRANSITIONS vault_direct (adv_toStatus i)) in
  update_movement matches (advance_row now i) l =
  match List.find matches (movements l) with
  | None => Ok (None, l)
  | Some m =>
      Ok (Some (advance_row now i m),
          with_movements l (replace_row (mv_id (facts m)) (advance_row now i m) (movements l)))
  end.
Proof.
  intros Hs Hi matches. pose proof (sound_tables _ _ Hs) as Hok.
  destruct (update_total matches (advance_row now i) l Hok) as (r & l' & E).
  { intros m Hm (_ & _ & Hv & Hst)%advances_spec. split; [|done].
    apply checks_advance; [done| |done|done].
    by apply (proj1 (Forall_forall _ _) (ok_rows _ Hok) m). }
  rewrite E. apply update_movement_spec in E as [(-> & -> & Hn)|(m & Hm & Hmm & -> & _ & _ & ->)];
    [by rewrite find_nothing| |apply Hok|intros a b; by apply advances_unique].
  rewrite (find_unique _ _ m); [done..|]. intros y Hy Hyy.
  by apply (advances_unique i _ l _ _ Hok Hy Hm Hyy).
Qed.

Lemma fmap_ext_elem {A B} (f g : A -> B) (l : list A) : (forall x, x ∈ l -> f x = g x) -> f <$> l = g <$> l.
Proof. intros H. apply list_fmap_ext. intros i x Hx%list_elem_of_lookup_2. by apply H. Qed.

Lemma fmap_id_elem {A} (f : A -> A) (l : list A) : (forall x, x ∈ l -> f x = x) -> f <$> l = l.
Proof. intros H. rewrite (fmap_ext_elem f id l H). apply list_fmap_id. Qed.

(** The holdings of a movement's id belong to its organization. *)
Lemma holding_organization text_le l m q :
  ledger_sound text_le l -> m ∈ movements l -> q ∈ positions l -> pos_id q = position_id (facts m) ->
  pos_organization_id q = mv_organization_id (facts m).
Proof.
  intros Hs Hm Hq E. apply claims_position_organization.
  by apply (movement_claims l); [apply Hs|..].
Qed.

Lemma failed_holdings text_le now m l ms :
  ledger_sound text_le l -> m ∈ movements l ->
  let position := position_id (facts m) in
  projectShareAccountRentFunder text_le now position (mv_organization_id (facts m))
    (deactivate now position (with_movements l ms))
  = with_positions (with_movements l ms) (holding_effect text_le now mv_failed m ms <$> positions l).
Proof.
  intros Hs Hm position. unfold projectShareAccountRentFunder, deactivate, update_position.
  cbn [with_positions with_movements movements positions projects custody_wallets provider_wallets].
  unfold with_positions.
  f_equal. rewrite <- list_fmap_compose. apply fmap_ext_elem. intros q Hq. cbn [compose].
  unfold holding_effect. fold position. destruct (String.eqb_spec (pos_id q) position) as [E|E];
    cbn [negb]; [|by rewrite (proj2 (String.eqb_neq _ _) E)].
  rewrite (bool_decide_eq_false_2 (mv_failed = mv_submitted)) by done.
  rewrite (bool_decide_eq_true_2 (mv_failed = mv_failed)) by done. rewrite <- E.
  pose proof (holding_organization _ _ _ _ Hs Hm Hq E) as Ho.
  destruct (bool_decide (is_Some (activated_at q)) && _);
    cbn [set_activation pos_id pos_organization_id]; by rewrite String.eqb_refl, Ho, String.eqb_refl.
Qed.

Lemma reactivated_holdings text_le now to m l ms :
  ledger_sound text_le l -> m ∈ movements l -> to <> mv_submitted -> to <> mv_failed ->
  direction (facts m) = deposit ->
  reactivate now (position_id (facts m)) (mv_organization_id (facts m)) (with_movements l ms)
  = with_positions (with_movements l ms) (holding_effect text_le now to m ms <$> positions l).
Proof.
  intros Hs Hm H1 H2 Hd. unfold reactivate, update_position, with_positions. f_equal.
  apply fmap_ext_elem. intros q Hq. unfold holding_effect.
  rewrite !(bool_decide_eq_false_2 _ H1), !(bool_decide_eq_false_2 _ H2), (bool_decide_eq_true_2 _ Hd).
  destruct (String.eqb_spec (pos_id q) (position_id (facts m))) as [E|E]; [|done]. cbn [negb].
  by rewrite (holding_organization _ _ _ _ Hs Hm Hq E), String.eqb_refl.
Qed.

Lemma untouched_holdings text_le now to m l ms :
  to = mv_submitted \/ (to <> mv_failed /\ direction (facts m) <> deposit) ->
  with_movements l ms
  = with_positions (with_movements l ms) (holding_effect text_le now to m ms <$> positions l).
Proof.
  intros H. unfold with_positions. cbn [positions with_movements].
  rewrite fmap_id_elem; [done|]. intros q _. unfold holding_effect. destruct (negb _); [done|].
  destruct H as [->|[H1 H2]]; [done|]. rewrite (bool_decide_eq_false_2 _ H1), (bool_decide_eq_false_2 _ H2).
  by destruct (bool_decide _).
Qed.
End Updates.

(** ** Requests *)

Section Requests.
Variable text_le : string -> string -> bool.
Notation sound := (ledger_sound text_le).

Lemma same_request_spec o q m :
  same_vault_request o q m = true <->
  mv_organization_id (facts m) = o /\ request_id (facts m) = q /\ is_vault m = true.
Proof. unfold same_vault_request. rewrite !andb_true_iff, !String.eqb_eq. tauto. Qed.

Lemma request_unique l o q a b :
  sound l -> a ∈ movements l -> b ∈ movements l ->
  same_vault_request o q a = true -> same_vault_request o q b = true -> a = b.
Proof.
  intros Hs Ha Hb (O1 & R1 & V1)%same_request_spec (O2 & R2 & V2)%same_request_spec.
  destruct (pairs_unique _ _ a b (ok_unique _ (sound_tables _ _ Hs)) Ha Hb) as [E|[[_ H]|[_ H]]];
    [done|destruct H; repeat split; congruence..].
Qed.

Lemma find_request_spec l o q m :
  sound l -> m ∈ movements l -> same_vault_request o q m = true ->
  findVaultMovementByRequestId o q l = Some m.
Proof.
  intros Hs Hm Hq. apply find_unique; [done..|]. intros y Hy Hyq. by apply (request_unique l o q).
Qed.

Lemma grows_same_request ms ms' o q m :
  grows ms ms' -> m ∈ ms -> same_vault_request o q m = true ->
  exists m', m' ∈ ms' /\ facts m' = facts m /\ same_vault_request o q m' = true.
Proof.
  intros (old & new & -> & Hl) Hm Hq. apply list_elem_of_lookup_1 in Hm as [k Hk].
  destruct (Forall2_lookup_l _ _ _ _ _ Hl Hk) as (m' & Hk' & Hla).
  exists m'. apply list_elem_of_lookup_2 in Hk'. rewrite elem_of_app. split; [by left|].
  pose proof (later_facts _ _ Hla) as E. split; [done|]. unfold same_vault_request, is_vault in *.
  by rewrite E.
Qed.

Lemma read_before_sound earlier l :
  read_before text_le earlier l -> sound earlier /\ sound l /\ grows (movements earlier) (movements l).
Proof. intros [He [ops ->]]. split; [done|]. by apply (earn_history_kept text_le ops earlier He). Qed.

(** Every movement's holding is there to be returned. *)
Lemma movement_position l m :
  sound l -> m ∈ movements l ->
  exists p, requireMovementPosition l m = Ok p /\ p ∈ positions l /\ claims_position m p = true.
Proof.
  intros Hs Hm. pose proof (sound_tables _ _ Hs) as Hok.
  pose proof (proj1 (Forall_forall _ _) (ok_claims _ Hok) m Hm) as (p & Hp & Hc)%Exists_exists.
  exists p. split; [|done]. unfold requireMovementPosition, getPositionById.
  rewrite (find_unique _ _ p); [done|done| |].
  - unfold claims_position in Hc. rewrite !andb_true_iff, !String.eqb_eq, bool_decide_eq_true in Hc.
    destruct Hc as [[[[-> ->] ->] _] _]. by rewrite !String.eqb_refl, bool_decide_eq_true_2.
  - intros y Hy [[Ey%String.eqb_eq _]%andb_true_iff _]%andb_true_iff.
    apply (same_position_row l); [done..|]. rewrite Ey. by apply claims_position_id.
Qed.

Lemma own_replay_spec m project fingerprint :
  assertMovementIsOwnReplay m project fingerprint
  = if bool_decide (mv_project_id (facts m) = Some project)
       && String.eqb (idempotency_fingerprint (facts m)) fingerprint
    then Ok tt
    else Err (conflict "Idempotency key already used with different request payload").
Proof.
  unfold assertMovementIsOwnReplay.
  destruct (bool_decide (mv_project_id (facts m) = Some project)),
    (String.eqb (idempotency_fingerprint (facts m)) fingerprint); reflexivity.
Qed.

Lemma resolveReplay_spec i snapshot l :
  resolveReplay i snapshot l =
  match findVaultMovementByRequestId (wd_organizationId i) (wd_requestId i) snapshot with
  | None => Ok None
  | Some m =>
      if replays (WithdrawalIntent i) m then
        let? position := requireMovementPosition l m in Ok (Some (mkIntentResult position m true))
      else Err (conflict "Idempotency key already used with different request payload")
  end.
Proof.
  unfold resolveReplay. destruct (findVaultMovementByRequestId _ _ _) as [m|]; [|done].
  rewrite own_replay_spec. cbn [replays].
  destruct (bool_decide (mv_project_id _ = _)), (String.eqb _ _), (bool_decide (direction _ = _));
    reflexivity.
Qed.

(** What an intent that returns has done. *)
Definition intent_done (v : vault_intent) (l : EarnTables) (r : IntentResult) (l' : EarnTables)
    : Prop :=
  let m := result_movement r in
  same_vault_request (intent_organization v) (intent_request v) m = true /\ replays v m = true
  /\ if replayed r then
       movements l' = movements l /\ exists o, o ∈ movements l /\ facts o = facts m
     else
       movements l' = (movements l ++ [m])%list /\ mv_status m = mv_requested
       /\ mv_signature (facts m) = Some (intent_signature v)
       /\ signed_transaction (facts m) = Some (intent_transaction v)
       /\ forall o, o ∈ movements l ->
            same_vault_request (intent_organization v) (intent_request v) o = false.

Lemma insertion_outcome o q m l r l' :
  insert_movement (same_vault_request o q) m l = Ok (r, l') ->
  (r = None /\ l' = l)
  \/ (r = Some m /\ movements l' = (movements l ++ [m])%list
      /\ forall x, x ∈ movements l -> same_vault_request o q x = false).
Proof.
  unfold insert_movement. destruct (movement_checks m); [|done]. cbn [negb].
  destruct (existsb (same_vault_request o q) (movements l)) eqn:E; [intros [= <- <-]; by left|].
  destruct (forallb (distinct_keys m) (movements l)); [|done].
  destruct (existsb (claims_position m) (positions l)); [|done]. cbn [negb].
  intros [= <- <-]. right. split; [done|]. split; [done|]. intros x Hx.
  destruct (same_vault_request o q x) eqn:Ex; [|done].
  rewrite <- not_true_iff_false, existsb_exists in E. destruct E. exists x.
  by rewrite <- list_elem_of_In.
Qed.

Lemma found_request o q l m :
  findVaultMovementByRequestId o q l = Some m -> m ∈ movements l /\ same_vault_request o q m = true.
Proof. apply find_elem. Qed.

Lemma deposit_done now pid mid i earlier l r l' :
  read_before text_le earlier l ->
  createSignedVaultDepositIntent text_le now pid mid i earlier l = Ok (r, l') ->
  intent_done (DepositIntent i) l r l'.
Proof.
  intros (He & Hs & Hg)%read_before_sound. unfold createSignedVaultDepositIntent, intent_done.
  destruct (findVaultMovementByRequestId _ _ earlier) as [m|] eqn:Hf.
  { apply found_request in Hf as [Hm Hq]. rewrite own_replay_spec.
    destruct (bool_decide _ && _) eqn:Er; [|done]. cbn [result_bind].
    destruct (requireMovementPosition l m); [|done]. intros [= <- <-].
    split; [done|]. split; [done|]. split; [done|].
    destruct (grows_same_request _ _ _ _ m Hg Hm Hq) as (m' & H1 & H2 & _). by exists m'. }
  destruct (claimVaultPosition now pid i l) as [[p l1]|] eqn:Hc; [|done]. cbn [result_bind].
  apply (claim_spec text_le) in Hc as (_ & Hms & _); [|done].
  destruct (insertVaultMovement now mid i (pos_id p) l1) as [[r1 l2]|] eqn:Hi; [|done].
  cbn [result_bind]. apply insertion_outcome in Hi as [[-> ->]|(-> & Hm2 & Hn)].
  - destruct (findVaultMovementByRequestId _ _ l1) as [m|] eqn:Hw; [|done].
    apply found_request in Hw as [Hm Hq]. rewrite own_replay_spec.
    destruct (bool_decide _ && _) eqn:Er; [|done]. cbn [result_bind].
    destruct (requireMovementPosition l1 m); [|done]. intros [= <- <-]. rewrite Hms in *.
    split; [done|]. split; [done|]. split; [done|]. by exists m.
  - intros [= <- <-]. rewrite Hms in *.
    pose proof (deposit_facts_spec now mid i (pos_id p)) as (E1 & E2 & E3 & _ & _ & E6 & E7 & _ & _ & E8 & E9).
    cbn [result_movement replayed replays inserted facts].
    split; [apply same_request_spec; split; [done|]; split; [done|]; by apply bool_decide_eq_true|].
    split; [by rewrite E6, E7, String.eqb_refl, bool_decide_eq_true_2|]. done.
Qed.

Lemma withdrawal_done now mid i earlier l r l' :
  read_before text_le earlier l ->
  createSignedVaultWithdrawalIntent text_le now mid i earlier l = Ok (r, l') ->
  intent_done (WithdrawalIntent i) l r l'.
Proof.
  intros (He & Hs & Hg)%read_before_sound. unfold createSignedVaultWithdrawalIntent, intent_done.
  rewrite !resolveReplay_spec.
  destruct (findVaultMovementByRequestId _ _ earlier) as [m|] eqn:Hf.
  { apply found_request in Hf as [Hm Hq]. destruct (replays _ m) eqn:Er; [|done].
    destruct (requireMovementPosition l m); [|done]. intros [= <- <-].
    split; [done|]. split; [done|]. split; [done|].
    destruct (grows_same_request _ _ _ _ m Hg Hm Hq) as (m' & H1 & H2 & _). by exists m'. }
  cbn [result_bind].
  destruct (insertVaultWithdrawalMovement now mid i l) as [[r1 l2]|] eqn:Hi; [|done].
  cbn [result_bind]. apply insertion_outcome in Hi as [[-> ->]|(-> & Hm2 & Hn)].
  - rewrite resolveReplay_spec.
    destruct (findVaultMovementByRequestId _ _ l) as [m|] eqn:Hw; [|done].
    apply found_request in Hw as [Hm Hq]. destruct (replays _ m) eqn:Er; [|done].
    destruct (requireMovementPosition l m); [|done]. intros [= <- <-].
    split; [done|]. split; [done|]. split; [done|]. by exists m.
  - destruct (requireMovementPosition _ _); [|done]. intros [= <- <-].
    pose proof (withdrawal_facts_spec now mid i) as (E1 & E2 & E3 & E4 & _ & E6 & E7 & _ & _ & E8 & E9).
    cbn [result_movement replayed replays inserted facts].
    split; [apply same_request_spec; split; [done|]; split; [done|]; by apply bool_decide_eq_true|].
    split; [by rewrite E4, E6, E7, String.eqb_refl, !bool_decide_eq_true_2|]. done.
Qed.

Lemma create_intent_done now pid mid v earlier l r l' :
  read_before text_le earlier l -> create_intent text_le now pid mid v earlier l = Ok (r, l') ->
  intent_done v l r l'.
Proof. destruct v; [apply deposit_done|apply withdrawal_done]. Qed.

Lemma create_intent_kept now pid mid v earlier l r l' :
  sound l -> create_intent text_le now pid mid v earlier l = Ok (r, l') -> kept text_le l l'.
Proof. destruct v; [apply deposit_kept|apply withdrawal_kept]. Qed.
End Requests.

(** [advanceVaultMovement] on every branch. *)
Lemma advance_run text_le now i l :
  ledger_sound text_le l ->
  advanceVaultMovement text_le now i l =
  match vault_transition_objection i with
  | Some message => Err (PlainError message)
  | None =>
      match allowedSourceStatuses vault_direct (adv_toStatus i) with
      | Err e => Err e
      | Ok sources =>
          match List.find (advances_movement i sources) (movements l) with
          | None => Ok (None, l)
          | Some m =>
              let ms := replace_row (mv_id (facts m)) (advance_row now i m) (movements l) in
              Ok (Some (advance_row now i m),
                  with_positions (with_movements l ms)
                    (holding_effect text_le now (adv_toStatus i) m ms <$> positions l))
          end
      end
  end.
Proof.
  intros Hs. unfold advanceVaultMovement, assertVaultTransitionMetadata.
  destruct (vault_transition_objection i) eqn:Ho; [done|]. apply objection_spec in Ho. cbn [result_bind].
  destruct (allowedSourceStatuses vault_direct (adv_toStatus i)) as [sources|] eqn:Hso; [|done].
  apply allowed_sources in Hso as ->. cbn [result_bind].
  rewrite (advance_statement text_le) by done. set (matches := advances_movement i _).
  destruct (bool_decide (adv_toStatus i = mv_submitted)) eqn:Esub.
  { apply bool_decide_eq_true in Esub. destruct (List.find matches (movements l)); [|done].
    by rewrite (untouched_holdings text_le now (adv_toStatus i) e) at 1 by auto. }
  apply bool_decide_eq_false in Esub.
  destruct (List.find matches (movements l)) as [m|] eqn:Hm; cbn [result_bind];
    [|by destruct (getMovementById _ _ l)].
  apply find_elem in Hm as [Hm (Hid & Horg & _)%advances_spec].
  unfold getMovementById. rewrite (find_unique _ _ m); [|done| |].
  2:{ by rewrite Hid, Horg, !String.eqb_refl. }
  2:{ intros y Hy [Ey%String.eqb_eq _]%andb_true_iff.
      apply (same_id_same_row (movements l)); [apply Hs|done..|congruence]. }
  change (facts (advance_row now i m)) with (facts m). rewrite <- Horg.
  destruct (bool_decide (adv_toStatus i = mv_failed)) eqn:Ef.
  { apply bool_decide_eq_true in Ef. rewrite Ef. by rewrite (failed_holdings text_le now m l). }
  apply bool_decide_eq_false in Ef.
  destruct (bool_decide (direction (facts m) = deposit)) eqn:Ed.
  - apply bool_decide_eq_true in Ed. by rewrite (reactivated_holdings text_le now (adv_toStatus i)).
  - apply bool_decide_eq_false in Ed.
    by rewrite (untouched_holdings text_le now (adv_toStatus i) m) at 1 by auto.
Qed.

(** ** The queue *)

Section Queue.
Variable text_le : string -> string -> bool.

(** Lists of rows without repetition, compared by length. *)
Lemma sound_nodup l : tables_ok l -> NoDup (movements l).
Proof.
  intros [_ Hu _ _]. induction Hu as [|m ms Hm _ IH]; [constructor|]. constructor; [|done].
  intros Hin. rewrite Forall_forall in Hm. destruct (Hm m Hin) as [H _].
  by apply distinct_ids in H.
Qed.

Lemma quotas limit : 1 <= limit ->
  0 <= confirmedQuota limit /\ 0 <= blockhashBoundQuota limit
  /\ blockhashBoundQuota limit + confirmedQuota limit = limit.
Proof.
  intros H. unfold blockhashBoundQuota, confirmedQuota. destruct (Z.ltb_spec 1 limit); [|lia].
  assert (limit / 4 <= limit) by (apply Z.div_le_upper_bound; lia). lia.
Qed.

Lemma reserved_nodup (P Q : EarnMovementRow -> bool) le n k ms :
  NoDup ms -> (forall m, P m = true -> Q m = true -> False) ->
  NoDup (limit_rows n (order_by le (List.filter P ms))
         ++ limit_rows k (order_by le (List.filter Q ms))).
Proof.
  intros Hn Hd. apply NoDup_app. split; [by apply limited_nodup|]. split; [|by apply limited_nodup].
  intros m [_ Hp]%limited_elem [_ Hq]%limited_elem. by apply (Hd m).
Qed.

Lemma vault_in_disjoint m :
  vault_in [mv_requested; mv_submitted] m = true -> vault_in [mv_confirmed] m = true -> False.
Proof. rewrite !vault_in_spec, <- !status_one_of_spec. intros [_ H1] [_ H2]. by destruct (mv_status m). Qed.

(** The claimed rows are distinct, and as many as the limit and the backlog allow. *)
Lemma claimed_rows_length limit l :
  tables_ok l -> 1 <= limit ->
  let claimed := claimed_rows text_le limit (movements l) in
  NoDup claimed
  /\ Z.of_nat (length claimed)
     = Z.min limit (Z.of_nat (length (List.filter (vault_in unsettled) (movements l)))).
Proof.
  intros Hok Hlim. pose proof (sound_nodup l Hok) as Hn. destruct (quotas limit Hlim) as (Q1 & Q2 & Q3).
  cbn zeta. unfold claimed_rows. set (ms := movements l) in *.
  set (bb := limit_rows (blockhashBoundQuota limit) _). set (cf := limit_rows (confirmedQuota limit) _).
  set (res := (bb ++ cf)%list). set (left_ := fun m => vault_in unsettled m && negb (has_id res m)).
  assert (NoDup res) as Hres by (by apply reserved_nodup; [|apply vault_in_disjoint]).
  assert (forall m, m ∈ res -> m ∈ ms /\ vault_in unsettled m = true) as Hsub.
  { intros m Hm. apply (claimed_rows_unsettled text_le limit ms). unfold claimed_rows.
    apply elem_of_app. by left. }
  assert (forall m, m ∈ ms -> has_id res m = true <-> m ∈ res) as Hid.
  { intros m Hm. apply (has_id_spec ms); [apply Hok| |done]. intros x Hx. by apply Hsub. }
  assert (res ++ List.filter left_ ms ≡ₚ List.filter (vault_in unsettled) ms) as Hperm.
  { apply NoDup_Permutation; [|by apply filter_nodup|].
    - apply NoDup_app. split; [done|]. split; [|by apply filter_nodup].
      intros m Hm [Hmm [_ Hl%negb_true_iff]%andb_true_iff]%filter_elem.
      apply (Hid m Hmm) in Hm. congruence.
    - intros m. rewrite elem_of_app, !filter_elem. unfold left_. rewrite andb_true_iff, negb_true_iff.
      split; [intros [H%Hsub|(? & ? & _)]; [done|done]|]. intros [Hm Hu].
      destruct (has_id res m) eqn:E; [left; by apply Hid|by right]. }
  assert (Z.of_nat (length res) <= limit) as Hle.
  { unfold res, bb, cf. rewrite length_app, Nat2Z.inj_add, !limited_length by lia. lia. }
  apply Permutation_length in Hperm. rewrite length_app in Hperm. split.
  - apply NoDup_app. split; [done|]. split; [|by apply limited_nodup].
    intros m Hm [Hmm [_ Hl%negb_true_iff]%andb_true_iff]%limited_elem.
    apply (Hid m Hmm) in Hm. congruence.
  - rewrite length_app, Nat2Z.inj_add, limited_length by lia. rewrite <- Hperm. fold left_. lia.
Qed.

Lemma claimed_permutation limit l :
  tables_ok l -> 1 <= limit ->
  let claimed := claimed_rows text_le limit (movements l) in
  List.filter (has_id claimed) (movements l) ≡ₚ claimed.
Proof.
  intros Hok Hlim claimed. destruct (claimed_rows_length limit l Hok Hlim) as [Hn _].
  assert (forall m, m ∈ claimed -> m ∈ movements l) as Hsub by (by intros m []%claimed_rows_unsettled).
  apply NoDup_Permutation; [by apply filter_nodup, sound_nodup|done|]. intros m.
  rewrite filter_elem. split.
  - intros [Hm H]. by apply (has_id_spec (movements l)) in H; [|apply Hok|..].
  - intros H. pose proof (Hsub m H). split; [done|].
    by apply (has_id_spec (movements l)); [apply Hok|..].
Qed.

(** At least the rows a reserved part holds are claimed. *)
Lemma filter_touch p now ms :
  (forall m, p (touch_attempt now m) = p m) ->
  length (List.filter p (touch_attempt now <$> ms)) = length (List.filter p ms).
Proof.
  intros Hp. induction ms as [|m ms IH]; [done|]. rewrite fmap_cons. cbn [List.filter].
  rewrite Hp. destruct (p m); cbn [length]; congruence.
Qed.

Lemma filter_true {A} (p : A -> bool) l : (forall x, x ∈ l -> p x = true) -> List.filter p l = l.
Proof.
  induction l as [|x l IH]; intros H; [done|]. cbn [List.filter]. rewrite H by (by left).
  f_equal. apply IH. intros y Hy. apply H. by right.
Qed.

Lemma filter_length_perm {A} (p : A -> bool) l l' :
  l ≡ₚ l' -> length (List.filter p l) = length (List.filter p l').
Proof.
  induction 1 as [|x l l' _ IH|x y l|l1 l2 l3 _ IH1 _ IH2]; [done| | |congruence].
  - cbn [List.filter]. destruct (p x); cbn [length]; congruence.
  - cbn [List.filter]. by destruct (p x), (p y).
Qed.
End Queue.

(** * Theorems *)

(** [advanceVaultMovement] on every branch, over a sound ledger. An input whose
    fields do not belong to its target, or a target the matrix does not carry, throws
    before any statement; a movement that is not the organization's, not a vault one,
    or not in a legal source status, is left alone and answered with nothing; and
    otherwise the one row moves, no constraint of the tables is violated, and its
    holding alone follows: a failure drops the activation nothing live supports and
    re-projects the rent funder, a committed deposit reopens the holding. *)
Theorem advanceVaultMovement_spec text_le now i l :
  ledger_sound text_le l ->
  advanceVaultMovement text_le now i l =
  match vault_transition_objection i with
  | Some message => Err (PlainError message)
  | None =>
      match allowedSourceStatuses vault_direct (adv_toStatus i) with
      | Err e => Err e
      | Ok sources =>
          match List.find (advances_movement i sources) (movements l) with
          | None => Ok (None, l)
          | Some m =>
              let ms := replace_row (mv_id (facts m)) (advance_row now i m) (movements l) in
              Ok (Some (advance_row now i m),
                  with_positions (with_movements l ms)
                    (holding_effect text_le now (adv_toStatus i) m ms <$> positions l))
          end
      end
  end.
Proof. apply advance_run. Qed.

Lemma advanceVaultMovement_spec_witness :
  exists l', advanceVaultMovement EarnDemo.text_le "t9" EarnDemo.fail EarnDemo.opened
    = Ok (Some (mkMovement (deposit_facts "t1" "mv" EarnDemo.deposit_intent "pos") mv_failed
                  (Some "expired") None None None None None None [] "t9" None), l')
    /\ activated_at <$> positions l' = [None].
Proof.
  eexists. split.
  - rewrite (advanceVaultMovement_spec EarnDemo.text_le "t9" EarnDemo.fail EarnDemo.opened
               EarnDemo.opened_sound). vm_compute. reflexivity.
  - vm_compute. reflexivity.
Defined.

(** C14. A vault request is recorded once. After an intent for a request returned,
    whatever calls follow, and however stale the tables a second intent for the same
    request first read, the second returns the movement of the first - the same id,
    the same signed transaction - marks it replayed, and records nothing. *)
Theorem vault_request_recorded_once text_le now1 pid1 mid1 v1 earlier1 l1 r1 l2 ops now2 pid2 mid2 v2
    earlier2 r2 l4 :
  read_before text_le earlier1 l1 ->
  create_intent text_le now1 pid1 mid1 v1 earlier1 l1 = Ok (r1, l2) ->
  read_before text_le earlier2 (earn_history text_le ops l2) ->
  intent_organization v2 = intent_organization v1 -> intent_request v2 = intent_request v1 ->
  create_intent text_le now2 pid2 mid2 v2 earlier2 (earn_history text_le ops l2) = Ok (r2, l4) ->
  replayed r2 = true
  /\ facts (result_movement r2) = facts (result_movement r1)
  /\ movements l4 = movements (earn_history text_le ops l2).
Proof.
  intros H1 C1 H2 Eo Eq C2. pose proof H1 as (_ & Hs1 & _)%read_before_sound.
  pose proof (create_intent_kept _ _ _ _ _ _ _ _ _ Hs1 C1) as [Hs2 _].
  destruct (earn_history_kept text_le ops l2 Hs2) as [Hs3 Hg].
  set (l3 := earn_history text_le ops l2) in *.
  apply create_intent_done in C1 as (Q1 & _ & D1); [|done].
  apply create_intent_done in C2 as (Q2 & _ & D2); [|done]. rewrite Eo, Eq in Q2, D2.
  set (o := intent_organization v1) in *. set (q := intent_request v1) in *.
  assert (exists m, m ∈ movements l2 /\ facts m = facts (result_movement r1)
            /\ same_vault_request o q m = true) as (m & Hm & Hf & Hq).
  { assert (forall m, facts m = facts (result_movement r1) -> same_vault_request o q m = true) as Hsame
      by (intros m E; unfold same_vault_request, is_vault in *; by rewrite E).
    destruct (replayed r1).
    - destruct D1 as [-> (m & Hm & E)]. exists m. auto.
    - destruct D1 as [-> _]. exists (result_movement r1). split; [|auto].
      apply elem_of_app. right. by apply list_elem_of_singleton. }
  destruct (grows_same_request _ _ _ _ m Hg Hm Hq) as (m3 & Hm3 & Hf3 & Hq3).
  destruct (replayed r2); [|destruct D2 as (_ & _ & _ & _ & D2); by rewrite D2 in Hq3].
  destruct D2 as [E4 (x & Hx & Ex)]. split; [done|]. split; [|done].
  assert (same_vault_request o q x = true) as Hqx
    by (unfold same_vault_request, is_vault in *; by rewrite Ex).
  rewrite <- Ex, <- Hf, <- Hf3. by rewrite (request_unique text_le l3 o q x m3).
Qed.

Lemma vault_request_recorded_once_witness :
  exists r2 l4,
    create_intent EarnDemo.text_le "t5" "pos-9" "mv-9" (DepositIntent EarnDemo.deposit_intent)
      EarnDemo.tables EarnDemo.confirmed = Ok (r2, l4)
    /\ replayed r2 = true /\ movements l4 = movements EarnDemo.confirmed.
Proof.
  destruct (create_intent EarnDemo.text_le "t1" "pos" "mv" (DepositIntent EarnDemo.deposit_intent)
              EarnDemo.tables EarnDemo.tables) as [[r1 l2]|] eqn:E1; [|vm_compute in E1; discriminate].
  assert (l2 = EarnDemo.opened) as -> by (vm_compute in E1; injection E1 as _ <-; reflexivity).
  destruct (create_intent EarnDemo.text_le "t5" "pos-9" "mv-9" (DepositIntent EarnDemo.deposit_intent)
              EarnDemo.tables EarnDemo.confirmed) as [[r2 l4]|] eqn:E2;
    [|vm_compute in E2; discriminate].
  exists r2, l4. split; [reflexivity|].
  destruct (vault_request_recorded_once EarnDemo.text_le _ _ _ _ _ _ _ _
      [OpAdvance "t2" EarnDemo.confirm] "t5" "pos-9" "mv-9"
      (DepositIntent EarnDemo.deposit_intent) EarnDemo.tables r2 l4
      (conj EarnDemo.tables_sound (ex_intro _ [] eq_refl)) E1) as (Hr & _ & Hm).
  - split; [exact EarnDemo.tables_sound|].
    exists [OpDeposit "t1" "pos" "mv" EarnDemo.deposit_intent EarnDemo.tables;
            OpAdvance "t2" EarnDemo.confirm]. reflexivity.
  - reflexivity.
  - reflexivity.
  - exact E2.
  - split; [exact Hr|exact Hm].
Defined.

(** What a repeated request is answered, when its movement is already in the
    tables it reads: the movement, with its holding and marked replayed, if the
    project, the fingerprint and, for a withdrawal, the direction are the recorded
    ones, and a conflict otherwise; nothing is written either way. *)
Theorem recorded_request_answer text_le now pid mid v l m :
  ledger_sound text_le l -> m ∈ movements l ->
  same_vault_request (intent_organization v) (intent_request v) m = true ->
  exists p, p ∈ positions l /\ claims_position m p = true
    /\ create_intent text_le now pid mid v l l =
       if replays v m then Ok (mkIntentResult p m true, l)
       else Err (conflict "Idempotency key already used with different request payload").
Proof.
  intros Hs Hm Hq. destruct (movement_position text_le l m Hs Hm) as (p & Hp & Hpos & Hc).
  exists p. split; [done|]. split; [done|].
  pose proof (find_request_spec text_le l _ _ m Hs Hm Hq) as Hf. destruct v as [i|i]; cbn in Hf.
  - cbn [create_intent replays]. unfold createSignedVaultDepositIntent. rewrite Hf, own_replay_spec.
    destruct (bool_decide _ && _); [|done]. cbn [result_bind]. by rewrite Hp.
  - cbn [create_intent]. unfold createSignedVaultWithdrawalIntent. rewrite resolveReplay_spec, Hf.
    destruct (replays _ m); [|done]. cbn [result_bind]. by rewrite Hp.
Qed.

Lemma recorded_request_answer_witness :
  exists p, create_intent EarnDemo.text_le "t5" "pos-9" "mv-9" (DepositIntent EarnDemo.deposit_intent)
      EarnDemo.opened EarnDemo.opened
    = Ok (mkIntentResult p
            (inserted "t1" (deposit_facts "t1" "mv" EarnDemo.deposit_intent "pos") []) true,
          EarnDemo.opened).
Proof.
  destruct (recorded_request_answer EarnDemo.text_le "t5" "pos-9" "mv-9"
      (DepositIntent EarnDemo.deposit_intent) EarnDemo.opened
      (inserted "t1" (deposit_facts "t1" "mv" EarnDemo.deposit_intent "pos") []))
    as (p & _ & _ & E).
  - exact EarnDemo.opened_sound.
  - vm_compute. left.
  - reflexivity.
  - exists p. exact E.
Defined.

(** The reconciler's claim, for every limit it accepts: it answers as many
    distinct unsettled vault movements as the limit and the backlog allow, each
    stamped with this attempt and nothing else changed; and neither class starves the
    other, the movements a blockhash still bounds and the confirmed ones each filling
    at least the part reserved for them. *)
Theorem queue_quotas text_le now limit l :
  ledger_sound text_le l -> 1 <= limit <= 256 ->
  exists rows l',
    claimUnsettledVaultMovements text_le now limit l = Ok (rows, l')
    /\ Z.of_nat (length rows)
       = Z.min limit (Z.of_nat (length (List.filter (vault_in unsettled) (movements l))))
    /\ (forall x, x ∈ rows -> exists m, m ∈ movements l /\ vault_in unsettled m = true
                                     /\ x = touch_attempt now m)
    /\ NoDup ((fun x => mv_id (facts x)) <$> rows)
    /\ Z.min (blockhashBoundQuota limit)
         (Z.of_nat (length (List.filter (vault_in [mv_requested; mv_submitted]) (movements l))))
       <= Z.of_nat (length (List.filter (vault_in [mv_requested; mv_submitted]) rows))
    /\ Z.min (confirmedQuota limit)
         (Z.of_nat (length (List.filter (vault_in [mv_confirmed]) (movements l))))
       <= Z.of_nat (length (List.filter (vault_in [mv_confirmed]) rows)).
Proof.
  intros Hs Hlim. pose proof (sound_tables _ _ Hs) as Hok.
  destruct (claimed_rows_length text_le limit l Hok) as [Hn Hlen]; [lia|].
  pose proof (claimed_permutation text_le limit l Hok ltac:(lia)) as Hperm.
  destruct (quotas limit) as (Q1 & Q2 & _); [lia|].
  unfold claimUnsettledVaultMovements.
  rewrite (proj2 (Z.ltb_ge limit 1)), (proj2 (Z.ltb_ge 256 limit)) by lia. cbn [orb].
  eexists _, _. split; [reflexivity|]. set (claimed := claimed_rows text_le limit (movements l)) in *.
  set (rows := order_by _ _).
  assert (rows ≡ₚ touch_attempt now <$> claimed) as Hrows.
  { unfold rows. rewrite order_by_perm. by apply fmap_Permutation. }
  assert (forall p n le, (forall m, p (touch_attempt now m) = p m) -> 0 <= n ->
      (exists a b, claimed = (a ++ limit_rows n (order_by le (List.filter p (movements l))) ++ b)%list) ->
      Z.min n (Z.of_nat (length (List.filter p (movements l))))
      <= Z.of_nat (length (List.filter p rows))) as Hpart.
  { intros p n le Hp Hpos (a & b & E). rewrite (filter_length_perm p _ _ Hrows).
    rewrite filter_touch, E, !List.filter_app, !length_app by done.
    rewrite (filter_true p (limit_rows _ _)) by (by intros x []%limited_elem).
    rewrite !Nat2Z.inj_add, limited_length by done. lia. }
  split; [by rewrite Hrows, length_fmap|]. split; [|split; [|split]].
  - intros x. rewrite Hrows. intros (m & -> & Hm)%list_elem_of_fmap.
    apply claimed_rows_unsettled in Hm as [Hm Hu]. by exists m.
  - rewrite Hrows, <- list_fmap_compose. apply NoDup_fmap_2_strong; [|done].
    intros a b [Ha _]%claimed_rows_unsettled [Hb _]%claimed_rows_unsettled E.
    by apply (same_id_same_row (movements l)); [apply Hok|..].
  - eapply Hpart; [done|done|]. eexists [], _. unfold claimed, claimed_rows.
    rewrite <- app_assoc. reflexivity.
  - eapply Hpart; [done|done|]. eexists _, _. unfold claimed, claimed_rows.
    rewrite <- app_assoc. reflexivity.
Qed.

Lemma queue_quotas_witness :
  exists rows l',
    claimUnsettledVaultMovements EarnDemo.text_le "t6" 4 EarnDemo.confirmed = Ok (rows, l')
    /\ length rows = 1%nat /\ confirmedQuota 4 = 1.
Proof.
  destruct (queue_quotas EarnDemo.text_le "t6" 4 EarnDemo.confirmed) as (rows & l' & E & Hl & _).
  - exact EarnDemo.confirmed_sound.
  - lia.
  - exists rows, l'. split; [exact E|]. split; [|reflexivity].
    replace (Z.min _ _) with 1 in Hl by (vm_compute; reflexivity). lia.
Defined.
