(* ===== verification/EarnExecution.v ===== *)
(** * Earn: executing a vault movement

    [apps/sdp-api/src/services/earn]: [vault-deadline.ts], [vault-sponsorship.ts],
    [vault-execution.service.ts] (checking, simulating, signing and broadcasting one
    transaction), [vault-intent-execution.service.ts], and the deposit and withdrawal
    services above them. A service is a [prog] whose calls are the ledger's methods,
    the provider's builder, custody, the paymaster, the chain and the clock; what
    Solana's kit computes is the class [VaultKit]. The steps of a [Promise.all] run in
    the order they are written, two plans are the same object when they are equal,
    logging is left out, and the wrapper a route passes as
    [runIntentTransaction] for an approved operation is not modelled. *)
From Stdlib Require Import Ascii String ZArith Lia.
From stdpp Require Import base list strings.
From S2P Require Import Prelude Text Amount PolicyTypes EarnLedger EarnInvariant Idempotency.

Local Open Scope string_scope.
Local Open Scope Z_scope.
Local Open Scope sdp_scope.

(** ** Plans *)

(** [CLUSTER_BY_SDP_ENVIRONMENT] *)
Definition earnClusterFor (e : SdpEnvironment) : SolanaCluster :=
  match e with sandbox => devnet | production => mainnet_beta end.

Record EarnVaultInstruction := mkInstruction {
  programAddress : string;
  accounts : list (string * Z);
  data : string;
}.

Record EarnVaultAssetIdentity := mkIdentity { depositTokenMint : string; shareMint : string }.

Record EarnVaultAcceptedAmounts := mkAccepted {
  acc_amount : option string;
  acc_minSharesOut : option string;
  acc_shares : option string;
}.

Record EarnVaultTransactionPlan := mkPlan {
  plan_cluster : SolanaCluster;
  instructions : list EarnVaultInstruction;
  lookupTables : list string;
  assetIdentity : EarnVaultAssetIdentity;
  accepted : option EarnVaultAcceptedAmounts;
  plan_createsShareAccount : bool;
}.

#[export] Instance instruction_eq_dec : EqDecision EarnVaultInstruction.
Proof. solve_decision. Defined.
#[export] Instance identity_eq_dec : EqDecision EarnVaultAssetIdentity.
Proof. solve_decision. Defined.
#[export] Instance accepted_eq_dec : EqDecision EarnVaultAcceptedAmounts.
Proof. solve_decision. Defined.
#[export] Instance plan_eq_dec : EqDecision EarnVaultTransactionPlan.
Proof. solve_decision. Defined.

(** ** Solana's kit *)

Abbreviation bytes := (list Z).

Record KitInstruction := mkKitInstruction {
  ki_program : string;
  ki_accounts : list (string * Z);
  ki_data : bytes;
}.

(** A message as [pipe] assembles it: its tables are those it is compressed with. *)
Record VaultMessage := mkMessage {
  feePayer : string;
  blockhash : string;
  message_height : Z;
  message_instructions : list KitInstruction;
  message_tables : list (string * list string);
  message_signers : list string;
}.

Record KitTransaction := mkTransaction {
  messageBytes : bytes;
  signatures : list (string * option bytes);
}.

(** What the code calls of [@solana/kit], and Node's base64. *)
Class VaultKit := mkVaultKit {
  assertIsAddress : string -> result unit;
  encodeTransaction : KitTransaction -> bytes;
  decodeTransaction : bytes -> result KitTransaction;
  getSignatureFromTransaction : KitTransaction -> result string;
  getBase64EncodedWireTransaction : KitTransaction -> string;
  to_base64 : bytes -> string;
  of_base64 : string -> bytes;
}.

(** [signatures[address] === null || signatures[address] === undefined] *)
Definition missing_signature (t : KitTransaction) (who : string) : bool :=
  match List.find (fun s => String.eqb (fst s) who) (signatures t) with
  | Some (_, Some _) => false
  | _ => true
  end.

(** [Buffer.from(s, "utf8")] of a string whose code units are below 256. *)
Definition utf8 (s : string) : bytes :=
  flat_map (fun c => let n := code c in if n <? 128 then [n] else [192 + n / 64; 128 + n mod 64])
    (chars s).

(** ** What the chain reports *)

(** [map] with a function that may throw: it stops at the first that does. *)
Section MapResult.
Context {A B : Type} (f : A -> result B).

Fixpoint map_result (l : list A) : result (list B) :=
  match l with
  | [] => Ok []
  | x :: rest => let? y := f x in let? ys := map_result rest in Ok (y :: ys)
  end.
End MapResult.

(** A value of a response, as [@solana/kit] decodes it: an object by its fields in
    order, a number that is an integer. *)
Inductive rpc_value :=
| RNull
| RBool (b : bool)
| RNumber (n : Z)
| RBigInt (n : Z)
| RString (s : string)
| RArray (items : list rpc_value)
| RObject (fields : list (string * rpc_value)).

Definition truthy_value (v : rpc_value) : bool :=
  match v with
  | RNull => false
  | RBool b => b
  | RNumber n | RBigInt n => negb (n =? 0)
  | RString s => negb (String.eqb s "")
  | RArray _ | RObject _ => true
  end.

(** [JSON.stringify], given what it makes of a bigint. *)
Fixpoint print_value (bigint : Z -> result string) (v : rpc_value) : result (list ascii) :=
  match v with
  | RNull => Ok (chars "null")
  | RBool b => Ok (chars (if b then "true" else "false"))
  | RNumber n => Ok (chars (z_text n))
  | RBigInt n => let? s := bigint n in Ok (chars s)
  | RString s => Ok (chars (json_string s))
  | RArray items =>
      let? printed := map_result (print_value bigint) items in
      Ok ("["%char :: join [","%char] printed ++ ["]"%char])%list
  | RObject fields =>
      let? printed := map_result (fun kv =>
        let? x := print_value bigint (snd kv) in
        Ok (chars (json_string (fst kv)) ++ ":"%char :: x)%list) fields in
      Ok ("{"%char :: join [","%char] printed ++ ["}"%char])%list
  end.

(** [JSON.stringify(value)] throws on a bigint; with the replacer that prints one as a
    string, it never throws. *)
Definition json_stringify (v : rpc_value) : result string :=
  let? printed := print_value
    (fun _ => Err (PlainError "Do not know how to serialize a BigInt")) v in Ok (text printed).

Definition json_stringify_bigint (v : rpc_value) : result string :=
  let? printed := print_value (fun n => Ok (json_string (z_text n))) v in Ok (text printed).

Inductive Commitment := processed | confirmed | finalized.

#[export] Instance Commitment_eq_dec : EqDecision Commitment.
Proof. solve_decision. Defined.

(** The fields of a signature's status the code reads. *)
Record SignatureStatusInfo := mkStatus {
  st_err : rpc_value;
  confirmationStatus : option Commitment;
}.

(** ** Calls *)

(** Who pays: the sponsor's address, or the wallet. *)
Inductive VaultFeeMode := sponsored (sponsor : string) | wallet_pays.

Record BuildVaultDepositInput := mkBuildDeposit {
  bd_providerReference : string;
  bd_owner : string;
  bd_amount : string;
  bd_minSharesOut : option string;
  bd_rentPayer : option string;
}.

Record BuildVaultWithdrawalInput := mkBuildWithdrawal {
  bw_providerReference : string;
  bw_owner : string;
  bw_shares : string;
  bw_rentPayer : option string;
  bw_rentRefundTo : option string;
}.

Inductive vault_call :=
| FindVaultMovementByRequestId (organizationId requestId : string)
| GetPositionById (organizationId : string) (environment : SdpEnvironment) (positionId : string)
| GetMovementById (movementId organizationId : string)
| CreateSignedVaultDepositIntent (i : CreateSignedVaultDepositIntentInput)
| CreateSignedVaultWithdrawalIntent (i : CreateSignedVaultWithdrawalIntentInput)
| AdvanceVaultMovement (i : AdvanceVaultMovementInput)
| CreateProjectSponsorship (organizationId projectId walletId : string)
| GetFeePayer
| SignAsFeePayer (transaction : bytes)
| BuildVaultDeposit (environment : SdpEnvironment) (i : BuildVaultDepositInput)
| BuildVaultWithdrawal (environment : SdpEnvironment) (i : BuildVaultWithdrawalInput)
| AssertClusterEndpoint (cluster : SolanaCluster) (rpcUrl : string)
| FetchLookupTables (rpcUrl : string) (tables : list string)
| GetRecentBlockhash (rpcUrl : string)
| CompileUnsigned (m : VaultMessage)
| SimulateTransaction (rpcUrl wire : string)
| CreateSigner (organizationId projectId walletId : string)
| SignMessage (signer : string) (partially : bool) (m : VaultMessage)
| SendTransaction (rpcUrl : string) (transaction : bytes)
| ClaimUnsettledVaultMovements (limit : Z)
| GetSignatureStatuses (rpcUrl : string) (signatures : list (option string))
| GetBlockHeight (rpcUrl : string)
| Now
| NowIso.

(** The verdict of a simulation: the error and the logs. *)
Record SimulationAnswer := mkSimulation { sim_err : rpc_value; sim_logs : list string }.

Definition vault_answer (c : vault_call) : Type :=
  match c with
  | FindVaultMovementByRequestId _ _ => option EarnMovementRow
  | GetPositionById _ _ _ => option EarnPositionRow
  | GetMovementById _ _ => option EarnMovementRow
  | CreateSignedVaultDepositIntent _ => IntentResult
  | CreateSignedVaultWithdrawalIntent _ => IntentResult
  | AdvanceVaultMovement _ => option EarnMovementRow
  | CreateProjectSponsorship _ _ _ => unit
  | GetFeePayer => string
  | SignAsFeePayer _ => bytes
  | BuildVaultDeposit _ _ => EarnVaultTransactionPlan
  | BuildVaultWithdrawal _ _ => EarnVaultTransactionPlan
  | AssertClusterEndpoint _ _ => unit
  | FetchLookupTables _ _ => list (string * list string)
  | GetRecentBlockhash _ => string * Z
  | CompileUnsigned _ => KitTransaction
  | SimulateTransaction _ _ => SimulationAnswer
  | CreateSigner _ _ _ => string
  | SignMessage _ _ _ => KitTransaction
  | SendTransaction _ _ => unit
  | ClaimUnsettledVaultMovements _ => list EarnMovementRow
  | GetSignatureStatuses _ _ => list (option SignatureStatusInfo)
  | GetBlockHeight _ => Z
  | Now => Z
  | NowIso => string
  end.

Abbreviation vault_prog := (prog vault_answer).
Abbreviation vault_event := (event vault_answer).

Definition ask (c : vault_call) : vault_prog (vault_answer c) := call c.

(** ** Configuration *)

(** What the services read of [Env]; [default_rpc_url] is what
    [resolveDefaultSolanaRpcUrl] answers. *)
Record Env := mkEnv {
  SOLANA_DEVNET_RPC_URL : option string;
  SOLANA_MAINNET_RPC_URL : option string;
  SOLANA_NETWORK : option SolanaCluster;
  default_rpc_url : option string;
  EARN_VAULT_FEE_SPONSORSHIP_ENABLED : option string;
}.

Definition resolveClusterRpcUrl (env : Env) (cluster : SolanaCluster) : string :=
  let perCluster := if bool_decide (cluster = devnet) then SOLANA_DEVNET_RPC_URL env
                    else SOLANA_MAINNET_RPC_URL env in
  let fallback :=
    if bool_decide (default devnet (SOLANA_NETWORK env) <> cluster) then ""
    else default "" (trimmed <$> default_rpc_url env) in
  match perCluster with
  | Some url => if String.eqb (trimmed url) "" then fallback else trimmed url
  | None => fallback
  end.

Definition EARN_VAULT_SPONSORSHIP_CLUSTERS : list SolanaCluster := [devnet].

Definition isEarnVaultSponsorshipEnabled (env : Env) (cluster : SolanaCluster) : bool :=
  existsb (fun c => bool_decide (c = cluster)) EARN_VAULT_SPONSORSHIP_CLUSTERS
  && isTruthyFlag (EARN_VAULT_FEE_SPONSORSHIP_ENABLED env).

(** ** The deadline *)

Definition VAULT_EXTERNAL_CALL_TIMEOUT_MS : Z := 20000.

Record VaultDeadline := mkDeadline { timeoutMs : Z; expiresAt : Z }.

Definition createVaultDeadline (timeout : Z) : vault_prog VaultDeadline :=
  if timeout <=? 0 then
    Throw (PlainError "Vault deadline must be a positive number of milliseconds")
  else let! now := ask Now in Ret (mkDeadline timeout (now + timeout)).

Definition timeoutError (d : VaultDeadline) (label : string) : jserr :=
  PlainError (label ++ " timed out after " ++ z_text (timeoutMs d) ++ "ms").

Definition assertActive (d : VaultDeadline) (label : string) : vault_prog unit :=
  let! now := ask Now in
  if expiresAt d - now <=? 0 then Throw (timeoutError d label) else Ret tt.

(** [deadline.run(label, operation)]: the second reading of the clock arms the timer.
    The answer of [c] is whichever settles first, so the timer's error is one of the
    answers the call may have. *)
Definition deadline_run (d : VaultDeadline) (label : string) (c : vault_call)
    : vault_prog (vault_answer c) :=
  assertActive d label ;;; ask Now ;;; ask c.

(** ** Sponsorship *)

Definition resolveVaultSponsorship (env : Env) (organizationId projectId walletId : string)
    (cluster : SolanaCluster) (deadline : VaultDeadline) : vault_prog VaultFeeMode :=
  if negb (isEarnVaultSponsorshipEnabled env cluster) then Ret wallet_pays
  else
    ask (CreateProjectSponsorship organizationId projectId walletId) ;;;
    let! sponsor := deadline_run deadline "Resolving the sponsored fee payer" GetFeePayer in
    Ret (sponsored sponsor).

Definition vaultRentPayer (fee : VaultFeeMode) : option string :=
  match fee with sponsored sponsor => Some sponsor | wallet_pays => None end.

Definition is_sponsored (fee : VaultFeeMode) : bool :=
  match fee with sponsored _ => true | wallet_pays => false end.

Record SignedVaultTransaction := mkSigned {
  signed_bytes : bytes;
  signed_signature : string;
  signed_lastValidBlockHeight : Z;
}.

Record PreparedVaultPlanExecution := mkPrepared {
  prepared_plan : EarnVaultTransactionPlan;
  prepared_tables : list (string * list string);
  prepared_blockhash : string;
  prepared_height : Z;
}.

Inductive SimulationVerdict :=
| simulation_ok (prepared : PreparedVaultPlanExecution)
| simulation_failed (error : string) (logs : list string).

Definition MEMO_PROGRAM_ADDRESS : string := "MemoSq4gqABAXKb96qnH8TysNcWxMyWCqXgDLGmfcHr".
Definition SOLANA_TRANSACTION_SIZE_LIMIT_BYTES : Z := 1232.

Definition assertVaultTransactionFits (b : bytes) (sponsored_ : bool) : result unit :=
  let n := Z.of_nat (length b) in
  if n <=? SOLANA_TRANSACTION_SIZE_LIMIT_BYTES then Ok tt
  else Err (PlainError ("Vault transaction is " ++ z_text n ++ " bytes; Solana allows at most "
         ++ z_text SOLANA_TRANSACTION_SIZE_LIMIT_BYTES
         ++ if sponsored_
            then ". Sponsorship adds 96 bytes (one signature slot plus one account key) "
                 ++ "that the provider did not know about when it sized this plan."
            else "")).

Definition assertExpectedPlan (plan : EarnVaultTransactionPlan) (cluster : SolanaCluster)
    (expected : EarnVaultAssetIdentity) : result unit :=
  if negb (bool_decide (plan_cluster plan = cluster)) then
    Err (PlainError ("Vault plan targets " ++ cluster_text (plan_cluster plan)
                     ++ ", not the expected " ++ cluster_text cluster ++ " cluster"))
  else if negb (String.eqb (depositTokenMint (assetIdentity plan)) (depositTokenMint expected)) then
    Err (PlainError ("Vault plan deposit token mint " ++ depositTokenMint (assetIdentity plan)
                     ++ " does not match the expected " ++ depositTokenMint expected))
  else if negb (String.eqb (shareMint (assetIdentity plan)) (shareMint expected)) then
    Err (PlainError ("Vault plan share mint " ++ shareMint (assetIdentity plan)
                     ++ " does not match the expected " ++ shareMint expected))
  else Ok tt.

Definition planInstructions (plan : EarnVaultTransactionPlan) : result (list EarnVaultInstruction) :=
  match instructions plan with
  | [] => Err (PlainError "Vault plan carried no instructions")
  | l => Ok l
  end.

(** [applyLookupTables] *)
Definition applyLookupTables (m : VaultMessage) (tables : list (string * list string))
    : VaultMessage :=
  match tables with
  | [] => m
  | _ => mkMessage (feePayer m) (blockhash m) (message_height m) (message_instructions m) tables
           (message_signers m)
  end.

Inductive VaultOperation := op_deposit | op_withdrawal.

Definition operation_text (o : VaultOperation) : string :=
  match o with op_deposit => "deposit" | op_withdrawal => "withdrawal" end.

Section Kit.
Context {K : VaultKit}.

Definition address (putative : string) : result string :=
  let? _ := assertIsAddress putative in Ok putative.

Definition toKitInstruction (i : EarnVaultInstruction) : result KitInstruction :=
  let? who := address (programAddress i) in
  let? refs := map_result (fun a => let? account := address (fst a) in Ok (account, snd a)) (accounts i) in
  Ok (mkKitInstruction who refs (of_base64 (data i))).

Definition appendVaultRequestMemo (plan : EarnVaultTransactionPlan) (kind requestId : string)
    : EarnVaultTransactionPlan :=
  let memo := mkInstruction MEMO_PROGRAM_ADDRESS []
                (to_base64 (utf8 ("sdp:earn:" ++ kind ++ ":" ++ requestId))) in
  mkPlan (plan_cluster plan) (instructions plan ++ [memo]) (lookupTables plan) (assetIdentity plan)
    (accepted plan) (plan_createsShareAccount plan).

Definition verifyVaultRpc (cluster : SolanaCluster) (deadline : VaultDeadline) (rpcUrl : string)
    : vault_prog unit :=
  deadline_run deadline ("Verifying the " ++ cluster_text cluster ++ " RPC endpoint")
    (AssertClusterEndpoint cluster rpcUrl).

Definition resolveLookupTables (deadline : VaultDeadline) (plan : EarnVaultTransactionPlan)
    (rpcUrl : string) : vault_prog (list (string * list string)) :=
  match lookupTables plan with
  | [] => Ret []
  | tables =>
      assertActive deadline "Fetching the vault lookup tables" ;;;
      ask Now ;;;
      let! tables := of_result (map_result address tables) in
      ask (FetchLookupTables rpcUrl tables)
  end.

Definition simulateVaultPlan (cluster : SolanaCluster) (deadline : VaultDeadline)
    (expected : EarnVaultAssetIdentity) (plan : EarnVaultTransactionPlan) (owner rpcUrl : string)
    (fee : VaultFeeMode) : vault_prog SimulationVerdict :=
  of_result (assertExpectedPlan plan cluster expected) ;;;
  match planInstructions plan with
  | Err e => Ret (simulation_failed
                    (match as_error e with Some _ => error_message e | None => "invalid vault plan" end) [])
  | Ok planned =>
      verifyVaultRpc cluster deadline rpcUrl ;;;
      let! tables := resolveLookupTables deadline plan rpcUrl in
      let! recent := deadline_run deadline "Fetching the vault simulation blockhash"
                       (GetRecentBlockhash rpcUrl) in
      let payer := match fee with sponsored sponsor => sponsor | wallet_pays => owner end in
      let! kit := of_result (map_result toKitInstruction planned) in
      let message := applyLookupTables (mkMessage payer (fst recent) (snd recent) kit [] []) tables in
      let! compiled := deadline_run deadline "Compiling the vault simulation"
                         (CompileUnsigned message) in
      let! verdict := deadline_run deadline "Simulating the vault transaction"
                        (SimulateTransaction rpcUrl (getBase64EncodedWireTransaction compiled)) in
      if truthy_value (sim_err verdict) then
        let! printed := of_result (json_stringify_bigint (sim_err verdict)) in
        Ret (simulation_failed printed (sim_logs verdict))
      else Ret (simulation_ok (mkPrepared plan tables (fst recent) (snd recent)))
  end.

(** The bytes of the complete transaction, signed by the owner, and by the sponsor
    when there is one. *)
Definition sign_complete (deadline : VaultDeadline) (owner : string) (fee : VaultFeeMode)
    (kit : list KitInstruction) (p : PreparedVaultPlanExecution) : vault_prog bytes :=
  let message payer :=
    let m := applyLookupTables
               (mkMessage payer (prepared_blockhash p) (prepared_height p) kit [] [])
               (prepared_tables p) in
    mkMessage (feePayer m) (blockhash m) (message_height m) (message_instructions m)
      (message_tables m) [owner] in
  match fee with
  | sponsored payer =>
      let! ownerSigned := deadline_run deadline "Signing the vault transaction"
                            (SignMessage owner true (message payer)) in
      let ownerSignedBytes := encodeTransaction ownerSigned in
      of_result (assertVaultTransactionFits ownerSignedBytes true) ;;;
      let! signedBytes := deadline_run deadline "Signing the sponsored vault fee"
                            (SignAsFeePayer ownerSignedBytes) in
      let! sponsorSigned := of_result (decodeTransaction signedBytes) in
      if negb (bool_decide (messageBytes sponsorSigned = messageBytes ownerSigned)) then
        Throw (PlainError "Sponsored vault transaction came back over a different message")
      else if missing_signature sponsorSigned payer then
        Throw (PlainError "Vault transaction is missing the sponsor fee-payer signature")
      else Ret signedBytes
  | wallet_pays =>
      let! signed := deadline_run deadline "Signing the vault transaction"
                       (SignMessage owner false (message owner)) in
      Ret (encodeTransaction signed)
  end.

Definition signVaultPlan (cluster : SolanaCluster) (deadline : VaultDeadline)
    (expected : EarnVaultAssetIdentity) (plan : EarnVaultTransactionPlan) (owner rpcUrl : string)
    (fee : VaultFeeMode) (prepared : option PreparedVaultPlanExecution)
    : vault_prog SignedVaultTransaction :=
  of_result (assertExpectedPlan plan cluster expected) ;;;
  let! planned := of_result (planInstructions plan) in
  let! kit := of_result (map_result toKitInstruction planned) in
  let! p :=
    match prepared with
    | Some p =>
        if negb (bool_decide (prepared_plan p = plan)) then
          Throw (PlainError "Vault execution preparation belongs to a different plan")
        else Ret p
    | None =>
        verifyVaultRpc cluster deadline rpcUrl ;;;
        let! tables := resolveLookupTables deadline plan rpcUrl in
        let! recent := deadline_run deadline "Fetching the vault transaction blockhash"
                         (GetRecentBlockhash rpcUrl) in
        Ret (mkPrepared plan tables (fst recent) (snd recent))
    end in
  let! signedBytes := sign_complete deadline owner fee kit p in
  of_result (assertVaultTransactionFits signedBytes (is_sponsored fee)) ;;;
  let! signed := of_result (decodeTransaction signedBytes) in
  if missing_signature signed owner then
    Throw (PlainError "Vault transaction is missing the custody-owner signature")
  else
    let! signature := of_result (getSignatureFromTransaction signed) in
    Ret (mkSigned signedBytes signature (prepared_height p)).

Definition broadcastVaultTransaction (cluster : SolanaCluster) (deadline : VaultDeadline)
    (b : bytes) (rpcUrl : string) : vault_prog unit :=
  verifyVaultRpc cluster deadline rpcUrl ;;;
  deadline_run deadline "Broadcasting the vault transaction" (SendTransaction rpcUrl b).

(** ** The tail both directions share *)

Record ExecuteSignedVaultIntentInput := mkExecute {
  ex_operation : VaultOperation;
  ex_organizationId : string;
  ex_projectId : string;
  ex_walletId : string;
  ex_walletPublicKey : string;
  ex_signerMismatchMessage : string;
  ex_cluster : SolanaCluster;
  ex_deadline : VaultDeadline;
  ex_expectedAssetIdentity : EarnVaultAssetIdentity;
  ex_plan : EarnVaultTransactionPlan;
  ex_rpcUrl : string;
  ex_fee : VaultFeeMode;
}.

Definition with_movement (r : IntentResult) (m : EarnMovementRow) : IntentResult :=
  mkIntentResult (result_position r) m (replayed r).

Definition submit_input (movementId organizationId : string) : AdvanceVaultMovementInput :=
  mkAdvance movementId organizationId mv_submitted None None None None.

(** Once the bytes are on the wire. *)
Definition record_submission (i : ExecuteSignedVaultIntentInput) (signed : SignedVaultTransaction)
    (r : IntentResult) : vault_prog IntentResult :=
  let id := mv_id (facts (result_movement r)) in
  let! advanced := ask (AdvanceVaultMovement (submit_input id (ex_organizationId i))) in
  match advanced with
  | Some m => Ret (with_movement r m)
  | None =>
      let! observed := ask (GetMovementById id (ex_organizationId i)) in
      let unverified := Throw (internalError ("Vault " ++ operation_text (ex_operation i)
        ++ " was broadcast but its ledger transition could not be verified")) in
      match observed with
      | Some m =>
          if bool_decide (mv_signature (facts m) = Some (signed_signature signed))
          then Ret (with_movement r m) else unverified
      | None => unverified
      end
  end.

Definition executeSignedVaultIntent (i : ExecuteSignedVaultIntentInput)
    (persist : SignedVaultTransaction -> vault_prog IntentResult) : vault_prog IntentResult :=
  let! owner := of_result (address (ex_walletPublicKey i)) in
  let! simulation := simulateVaultPlan (ex_cluster i) (ex_deadline i) (ex_expectedAssetIdentity i)
                       (ex_plan i) owner (ex_rpcUrl i) (ex_fee i) in
  match simulation with
  | simulation_failed error _ =>
      Throw (badRequest ("Vault " ++ operation_text (ex_operation i) ++ " simulation failed: "
                         ++ error))
  | simulation_ok prepared =>
      let! signer := deadline_run (ex_deadline i)
                       ("Resolving the vault " ++ operation_text (ex_operation i) ++ " signer")
                       (CreateSigner (ex_organizationId i) (ex_projectId i) (ex_walletId i)) in
      if negb (String.eqb signer (ex_walletPublicKey i)) then
        Throw (badRequest (ex_signerMismatchMessage i))
      else
        let! signed := signVaultPlan (ex_cluster i) (ex_deadline i) (ex_expectedAssetIdentity i)
                         (ex_plan i) signer (ex_rpcUrl i) (ex_fee i) (Some prepared) in
        let! r := persist signed in
        if replayed r then Ret r
        else
          let! sent := catch (broadcastVaultTransaction (ex_cluster i) (ex_deadline i)
                                (signed_bytes signed) (ex_rpcUrl i) ;;; Ret true)
                             (fun _ => Ret false) in
          if sent then record_submission i signed r else Ret r
  end.

(** ** Deposits *)

Record VaultDepositInput := mkVaultDeposit {
  vd_organizationId : string;
  vd_projectId : string;
  vd_environment : SdpEnvironment;
  vd_provider : string;
  vd_providerReference : string;
  vd_wallet_id : string;
  vd_wallet_publicKey : string;
  vd_tokenMint : string;
  vd_shareMint : string;
  vd_label : string;
  vd_amount : string;
  vd_requestId : string;
  vd_userId : option string;
  vd_apiKeyId : option string;
  vd_minSharesOut : option string;
}.

Definition earn_environment_text (e : SdpEnvironment) : string :=
  match e with sandbox => "sandbox" | production => "production" end.

Definition deposit_fingerprint (i : VaultDepositInput) : string :=
  buildEarnVaultDepositFingerprint
    (mkDepositFingerprint (earn_environment_text (vd_environment i)) (vd_provider i)
       (vd_providerReference i) (vd_wallet_id i) (vd_amount i) (vd_minSharesOut i)).

Definition replayDeposit (i : VaultDepositInput) (m : EarnMovementRow) : vault_prog IntentResult :=
  let! position := ask (GetPositionById (vd_organizationId i) (vd_environment i)
                          (position_id (facts m))) in
  match position with
  | Some p => Ret (mkIntentResult p m true)
  | None => Throw (internalError ("Replayed movement " ++ mv_id (facts m)
              ++ " references missing position " ++ position_id (facts m)))
  end.

(** [value !== undefined && compareDecimalAmounts(a, b) !== 0] *)
Definition amounts_differ (a b : string) : result bool :=
  let? c := SolanaAmount.compareDecimalAmounts a b in Ok (negb (c =? 0)).

(** The slippage floor the plan encodes; [None] when it encodes none. *)
Definition requireAcceptedPlan (plan : EarnVaultTransactionPlan) (i : VaultDepositInput)
    : result (option string) :=
  if negb (String.eqb (depositTokenMint (assetIdentity plan)) (vd_tokenMint i)) then
    Err (internalError
      "Vault builder deposit token mint does not match the admitted catalogue strategy")
  else if negb (String.eqb (shareMint (assetIdentity plan)) (vd_shareMint i)) then
    Err (internalError "Vault builder share mint does not match the admitted catalogue strategy")
  else
    let reported := a ← accepted plan; acc_amount a in
    if negb (truthy reported) then
      Err (internalError "Vault builder did not report the canonical amount encoded on chain")
    else
      let? off := amounts_differ (default "" reported) (vd_amount i) in
      if off then
        Err (internalError "Vault builder amount does not match the policy-approved request amount")
      else
        let floor := a ← accepted plan; acc_minSharesOut a in
        let mismatch := Err (internalError
          "Vault builder minSharesOut does not match the policy-approved slippage floor") in
        match vd_minSharesOut i, floor with
        | Some _, None =>
            Err (internalError "Vault builder omitted the canonical minSharesOut encoded on chain")
        | None, Some _ => mismatch
        | Some wanted, Some encoded =>
            let? off := amounts_differ encoded wanted in if off then mismatch else Ok floor
        | None, None => Ok floor
        end.

(** A build that refuses the amount is the caller's fault. *)
Definition build_error (e : jserr) : jserr :=
  match e with
  | CodedError cls code message _ =>
      if String.eqb cls "SdpKaminoError" && String.eqb code "INVALID_AMOUNT"
      then badRequest message else e
  | _ => e
  end.

Definition notImplemented (provider operation : string) : jserr :=
  CodedError "SdpEarnError" "NOT_IMPLEMENTED" (provider ++ " " ++ operation ++ " is not implemented yet")
    None.

Definition cluster_mismatch (plan cluster : SolanaCluster) : jserr :=
  internalError ("Vault builder returned a " ++ cluster_text plan ++ " plan for the configured "
                 ++ cluster_text cluster ++ " cluster").

Definition deposit_intent (i : VaultDepositInput) (plan : EarnVaultTransactionPlan)
    (floor : option string) (fee : VaultFeeMode) (signed : SignedVaultTransaction)
    : CreateSignedVaultDepositIntentInput :=
  mkDepositIntent (vd_organizationId i) (vd_projectId i) (vd_environment i) (vd_provider i)
    (vd_providerReference i) (vd_wallet_id i) (shareMint (assetIdentity plan))
    (depositTokenMint (assetIdentity plan)) (vd_label i) (vd_amount i) floor
    (vd_wallet_publicKey i) (signed_signature signed) (to_base64 (signed_bytes signed))
    (signed_lastValidBlockHeight signed) (vd_requestId i) (deposit_fingerprint i) (vd_userId i)
    (vd_apiKeyId i) (mkAttribution (plan_createsShareAccount plan) (vaultRentPayer fee)).

(** A deposit nobody has recorded yet. *)
Definition freshDeposit (env : Env) (i : VaultDepositInput) : vault_prog IntentResult :=
  let! deadline := createVaultDeadline VAULT_EXTERNAL_CALL_TIMEOUT_MS in
  if negb (String.eqb (vd_provider i) "kamino") then
    Throw (notImplemented (vd_provider i) "direct vault deposits")
  else
    let cluster := earnClusterFor (vd_environment i) in
    let rpcUrl := resolveClusterRpcUrl env cluster in
    let! fee := resolveVaultSponsorship env (vd_organizationId i) (vd_projectId i) (vd_wallet_id i)
                  cluster deadline in
    let! built := catch
      (ask (BuildVaultDeposit (vd_environment i)
         (mkBuildDeposit (vd_providerReference i) (vd_wallet_publicKey i) (vd_amount i)
            (vd_minSharesOut i) (vaultRentPayer fee))))
      (fun e => Throw (build_error e)) in
    let plan := appendVaultRequestMemo built "vault-deposit" (vd_requestId i) in
    if negb (bool_decide (plan_cluster plan = cluster)) then
      Throw (cluster_mismatch (plan_cluster plan) cluster)
    else
      let! floor := of_result (requireAcceptedPlan plan i) in
      executeSignedVaultIntent
        (mkExecute op_deposit (vd_organizationId i) (vd_projectId i) (vd_wallet_id i)
           (vd_wallet_publicKey i) "Resolved signing wallet does not match the deposit wallet"
           cluster deadline (mkIdentity (vd_tokenMint i) (vd_shareMint i)) plan rpcUrl fee)
        (fun signed => ask (CreateSignedVaultDepositIntent (deposit_intent i plan floor fee signed))).

Definition stored_fingerprint (m : EarnMovementRow) : option string :=
  Some (idempotency_fingerprint (facts m)).

Definition depositIntoVault (env : Env) (i : VaultDepositInput) : vault_prog IntentResult :=
  let fingerprint := deposit_fingerprint i in
  let! existing := ask (FindVaultMovementByRequestId (vd_organizationId i) (vd_requestId i)) in
  let! prior := of_result (resolveIdempotencyReplay stored_fingerprint existing fingerprint) in
  match prior with
  | Some m =>
      of_result (assertMovementIsOwnReplay m (vd_projectId i) fingerprint) ;;;
      replayDeposit i m
  | None => freshDeposit env i
  end.

(** ** Withdrawals *)

Record VaultWithdrawalInput := mkVaultWithdrawal {
  vw_organizationId : string;
  vw_projectId : string;
  vw_environment : SdpEnvironment;
  vw_provider : string;
  vw_positionId : string;
  vw_vaultAddress : string;
  vw_tokenMint : string;
  vw_shareMint : string;
  vw_wallet_id : string;
  vw_wallet_publicKey : string;
  vw_shares : string;
  vw_requestId : string;
  vw_userId : option string;
  vw_apiKeyId : option string;
}.

Definition withdrawal_fingerprint (i : VaultWithdrawalInput) : string :=
  buildEarnVaultWithdrawalFingerprint
    (mkWithdrawalFingerprint (earn_environment_text (vw_environment i)) (vw_provider i) (vw_positionId i)
       (vw_shares i)).

Definition replayWithdrawal (i : VaultWithdrawalInput) (m : EarnMovementRow)
    : vault_prog IntentResult :=
  if negb (bool_decide (direction (facts m) = withdrawal)) then
    Throw (internalError ("Replayed movement " ++ mv_id (facts m) ++ " is not a vault withdrawal"))
  else
    let! position := ask (GetPositionById (vw_organizationId i) (vw_environment i)
                            (position_id (facts m))) in
    let missing := Throw (internalError ("Replayed withdrawal " ++ mv_id (facts m)
                            ++ " references missing execution details")) in
    match position with
    | Some p => if truthy (mv_signature (facts m)) then Ret (mkIntentResult p m true) else missing
    | None => missing
    end.

Definition requireAcceptedWithdrawalPlan (plan : EarnVaultTransactionPlan)
    (i : VaultWithdrawalInput) : result unit :=
  if negb (String.eqb (depositTokenMint (assetIdentity plan)) (vw_tokenMint i)) then
    Err (internalError "Vault builder deposit token mint does not match the position being exited")
  else if negb (String.eqb (shareMint (assetIdentity plan)) (vw_shareMint i)) then
    Err (internalError "Vault builder share mint does not match the position being exited")
  else
    let reported := a ← accepted plan; acc_shares a in
    if negb (truthy reported) then
      Err (internalError "Vault builder did not report the canonical shares encoded on chain")
    else
      let? off := amounts_differ (default "" reported) (vw_shares i) in
      if off then Err (internalError "Vault builder shares do not match the requested withdrawal")
      else Ok tt.

Definition withdrawal_intent (i : VaultWithdrawalInput) (plan : EarnVaultTransactionPlan)
    (fee : VaultFeeMode) (signed : SignedVaultTransaction)
    : CreateSignedVaultWithdrawalIntentInput :=
  mkWithdrawalIntent (vw_organizationId i) (vw_projectId i) (vw_environment i) (vw_provider i)
    (vw_positionId i) (vw_vaultAddress i) (vw_wallet_id i) (vw_shareMint i) (vw_shares i)
    (vw_wallet_publicKey i) (signed_signature signed) (to_base64 (signed_bytes signed))
    (signed_lastValidBlockHeight signed) (vw_requestId i) (withdrawal_fingerprint i) (vw_userId i)
    (vw_apiKeyId i) (mkAttribution (plan_createsShareAccount plan) (vaultRentPayer fee)).

Definition freshWithdrawal (env : Env) (i : VaultWithdrawalInput) : vault_prog IntentResult :=
  let! deadline := createVaultDeadline VAULT_EXTERNAL_CALL_TIMEOUT_MS in
  if negb (String.eqb (vw_provider i) "kamino") then
    Throw (notImplemented (vw_provider i) "vault withdrawals")
  else
    let cluster := earnClusterFor (vw_environment i) in
    let rpcUrl := resolveClusterRpcUrl env cluster in
    let! fee := resolveVaultSponsorship env (vw_organizationId i) (vw_projectId i) (vw_wallet_id i)
                  cluster deadline in
    let! position := ask (GetPositionById (vw_organizationId i) (vw_environment i)
                            (vw_positionId i)) in
    match position with
    | None => Throw (internalError ("Vault withdrawal references missing position "
                                    ++ vw_positionId i))
    | Some held =>
        let! built := catch
          (ask (BuildVaultWithdrawal (vw_environment i)
             (mkBuildWithdrawal (vw_vaultAddress i) (vw_wallet_publicKey i) (vw_shares i)
                (vaultRentPayer fee) (share_ata_rent_funder held))))
          (fun e => Throw (build_error e)) in
        let plan := appendVaultRequestMemo built "vault-withdrawal" (vw_requestId i) in
        if negb (bool_decide (plan_cluster plan = cluster)) then
          Throw (cluster_mismatch (plan_cluster plan) cluster)
        else
          of_result (requireAcceptedWithdrawalPlan plan i) ;;;
          executeSignedVaultIntent
            (mkExecute op_withdrawal (vw_organizationId i) (vw_projectId i) (vw_wallet_id i)
               (vw_wallet_publicKey i) "Resolved signing wallet does not match the position's wallet"
               cluster deadline (mkIdentity (vw_tokenMint i) (vw_shareMint i)) plan rpcUrl fee)
            (fun signed => ask (CreateSignedVaultWithdrawalIntent
                                  (withdrawal_intent i plan fee signed)))
    end.

Definition withdrawFromVault (env : Env) (i : VaultWithdrawalInput) : vault_prog IntentResult :=
  let fingerprint := withdrawal_fingerprint i in
  let! existing := ask (FindVaultMovementByRequestId (vw_organizationId i) (vw_requestId i)) in
  let! prior := of_result (resolveIdempotencyReplay stored_fingerprint existing fingerprint) in
  match prior with
  | Some m =>
      of_result (assertMovementIsOwnReplay m (vw_projectId i) fingerprint) ;;;
      replayWithdrawal i m
  | None => freshWithdrawal env i
  end.
End Kit.

(** ** A kit, for the examples *)

Module KitDemo.

#[export] Instance kit : VaultKit := {|
  assertIsAddress := fun s => if String.eqb s "" then Err (PlainError "not an address") else Ok tt;
  encodeTransaction := messageBytes;
  decodeTransaction := fun b => Ok (mkTransaction b [("owner", Some [1]); ("sponsor", Some [2])]);
  getSignatureFromTransaction := fun _ => Ok "sig-tx";
  getBase64EncodedWireTransaction := fun _ => "wire";
  to_base64 := fun b => text (map (fun n => ascii_of_nat (Z.to_nat n)) b);
  of_base64 := fun s => map code (chars s);
|}.
End KitDemo.
