(* ===== verification/EarnSafety.v ===== *)
(** * Earn: every run of the tail both vault services share

    What [executeSignedVaultIntent] of EarnExecution.v does in every run, whatever the
    chain, the provider, custody and the database answer: the shape of its calls, and
    what was simulated and signed before the intent is recorded. *)
From Stdlib Require Import Ascii String ZArith Lia.
From stdpp Require Import base list strings.
From S2P Require Import Prelude Text Amount PolicyTypes EarnLedger EarnInvariant EarnMethods Idempotency EarnExecution.

Local Open Scope string_scope.
Local Open Scope Z_scope.
Local Open Scope list_scope.
Local Open Scope sdp_scope.

(** ** Reading a run *)

(** A call that neither records, nor advances, nor sends. *)
Definition preparing (c : vault_call) : Prop :=
  match c with
  | CreateSignedVaultDepositIntent _ | CreateSignedVaultWithdrawalIntent _
  | AdvanceVaultMovement _ | SendTransaction _ _ => False
  | _ => True
  end.

Definition prepares (tr : list vault_event) : Prop := Forall (fun e => preparing (ev_call e)) tr.

Definition intent_event (v : vault_intent) (r : result IntentResult) : vault_event :=
  match v with
  | DepositIntent i => Ev (R := vault_answer) (CreateSignedVaultDepositIntent i) r
  | WithdrawalIntent i => Ev (R := vault_answer) (CreateSignedVaultWithdrawalIntent i) r
  end.

Definition record_intent (v : vault_intent) : vault_prog IntentResult :=
  match v with
  | DepositIntent i => ask (CreateSignedVaultDepositIntent i)
  | WithdrawalIntent i => ask (CreateSignedVaultWithdrawalIntent i)
  end.

(** The transactions a run hands to the network. *)
Definition sends (tr : list vault_event) : list bytes :=
  flat_map (fun e => match ev_call e with SendTransaction _ b => [b] | _ => [] end) tr.

Definition answered_ok (c : vault_call) (a : vault_answer c) (tr : list vault_event) : Prop :=
  Ev c (Ok a) ∈ tr.

Definition with_signer (m : VaultMessage) (who : string) : VaultMessage :=
  mkMessage (feePayer m) (blockhash m) (message_height m) (message_instructions m)
    (message_tables m) [who].

Section Kit.
Context {K : VaultKit}.

(** The chain accepted a simulation of the message. *)
Definition simulated (m : VaultMessage) (tr : list vault_event) : Prop :=
  exists t url verdict, answered_ok (CompileUnsigned m) t tr
    /\ answered_ok (SimulateTransaction url (getBase64EncodedWireTransaction t)) verdict tr
    /\ truthy_value (sim_err verdict) = false.

(** The bytes are a complete transaction over the message custody signed, within the
    packet limit, with the owner's signature, the sponsor's when it pays, and the
    signature recorded for it. *)
Definition signed_over (owner : string) (fee : VaultFeeMode) (m : VaultMessage)
    (s : SignedVaultTransaction) (tr : list vault_event) : Prop :=
  exists t d,
    answered_ok (SignMessage owner (is_sponsored fee) (with_signer m owner)) t tr
    /\ decodeTransaction (signed_bytes s) = Ok d
    /\ missing_signature d owner = false
    /\ getSignatureFromTransaction d = Ok (signed_signature s)
    /\ Z.of_nat (length (signed_bytes s)) <= SOLANA_TRANSACTION_SIZE_LIMIT_BYTES
    /\ signed_lastValidBlockHeight s = message_height m
    /\ match fee with
       | wallet_pays => signed_bytes s = encodeTransaction t
       | sponsored sponsor =>
           answered_ok (SignAsFeePayer (encodeTransaction t)) (signed_bytes s) tr
           /\ messageBytes d = messageBytes t /\ missing_signature d sponsor = false
       end.

(** What was signed is what was simulated: one message, of the plan's instructions,
    paid by the sponsor or the owner. *)
Definition signed_as_simulated (i : ExecuteSignedVaultIntentInput) (s : SignedVaultTransaction)
    (tr : list vault_event) : Prop :=
  exists m kit,
    plan_cluster (ex_plan i) = ex_cluster i
    /\ map_result toKitInstruction (instructions (ex_plan i)) = Ok kit
    /\ message_instructions m = kit
    /\ simulated m tr
    /\ signed_over (ex_walletPublicKey i) (ex_fee i) m s tr
    /\ match ex_fee i with
       | sponsored sponsor => feePayer m = sponsor
       | wallet_pays => feePayer m = ex_walletPublicKey i
       end.

(** ** What a run does *)

Section Tail.
Context (i : ExecuteSignedVaultIntentInput) (s : SignedVaultTransaction) (r : IntentResult).

Definition advance_event (a : result (option EarnMovementRow)) : vault_event :=
  Ev (R := vault_answer)
    (AdvanceVaultMovement (submit_input (mv_id (facts (result_movement r))) (ex_organizationId i))) a.

Definition observe_event (a : result (option EarnMovementRow)) : vault_event :=
  Ev (R := vault_answer)
    (GetMovementById (mv_id (facts (result_movement r))) (ex_organizationId i)) a.

Definition send_event (a : result unit) : vault_event :=
  Ev (R := vault_answer) (SendTransaction (ex_rpcUrl i) (signed_bytes s)) a.

(** The bytes are on the wire. *)
Inductive submission : list vault_event -> result IntentResult -> Prop :=
| submission_recorded m : submission [advance_event (Ok (Some m))] (Ok (with_movement r m))
| submission_observed m :
    mv_signature (facts m) = Some (signed_signature s) ->
    submission [advance_event (Ok None); observe_event (Ok (Some m))] (Ok (with_movement r m))
| submission_failed e : submission [advance_event (Err e)] (Err e)
| submission_unread e : submission [advance_event (Ok None); observe_event (Err e)] (Err e)
| submission_unverified found e :
    (forall m, found = Some m -> mv_signature (facts m) <> Some (signed_signature s)) ->
    submission [advance_event (Ok None); observe_event (Ok found)] (Err e).

(** The intent is recorded. *)
Inductive delivery : list vault_event -> result IntentResult -> Prop :=
| delivery_replayed : replayed r = true -> delivery [] (Ok r)
| delivery_withheld tr : replayed r = false -> prepares tr -> delivery tr (Ok r)
| delivery_refused pre e :
    replayed r = false -> prepares pre -> delivery (pre ++ [send_event (Err e)]) (Ok r)
| delivery_sent pre post res :
    replayed r = false -> prepares pre -> submission post res ->
    delivery (pre ++ send_event (Ok tt) :: post) res.
End Tail.

Inductive executed (i : ExecuteSignedVaultIntentInput) (v : SignedVaultTransaction -> vault_intent)
    : list vault_event -> result IntentResult -> Prop :=
| executed_stopped tr e : prepares tr -> executed i v tr (Err e)
| executed_unrecorded pre s e :
    prepares pre -> signed_as_simulated i s pre ->
    executed i v (pre ++ [intent_event (v s) (Err e)]) (Err e)
| executed_recorded pre s r post res :
    prepares pre -> signed_as_simulated i s pre -> delivery i s r post res ->
    executed i v (pre ++ intent_event (v s) (Ok r) :: post) res.

End Kit.

(** * Lemmas *)

Lemma answered_here c a pre tr : answered_ok c a tr -> answered_ok c a (pre ++ tr).
Proof. unfold answered_ok. rewrite elem_of_app. by right. Qed.

Lemma answered_before c a tr post : answered_ok c a tr -> answered_ok c a (tr ++ post).
Proof. unfold answered_ok. rewrite elem_of_app. by left. Qed.

Ltac seen H :=
  first [exact H | apply answered_before; seen H | apply answered_here; seen H].

Section Signing.
Context {K : VaultKit}.

(** ** Preparing, simulating and signing *)

Lemma deadline_yields d label c : yields (deadline_run d label c) (fun tr a => answered_ok c a tr).
Proof.
  unfold deadline_run, assertActive, ask, answered_ok.
  apply yields_any. intros [] tr.
  apply yields_any. intros now tr'.
  apply yields_call. intros a. rewrite !elem_of_app. right. right. by left.
Qed.

Definition payer_of (fee : VaultFeeMode) (owner : string) : string :=
  match fee with sponsored sponsor => sponsor | wallet_pays => owner end.

Definition plan_message (payer : string) (kit : list KitInstruction)
    (p : PreparedVaultPlanExecution) : VaultMessage :=
  applyLookupTables (mkMessage payer (prepared_blockhash p) (prepared_height p) kit [] [])
    (prepared_tables p).

Lemma plan_message_fields payer kit p :
  feePayer (plan_message payer kit p) = payer
  /\ message_instructions (plan_message payer kit p) = kit
  /\ message_height (plan_message payer kit p) = prepared_height p.
Proof. unfold plan_message, applyLookupTables. by destruct (prepared_tables p). Qed.

Lemma planInstructions_ok plan l : planInstructions plan = Ok l -> l = instructions plan.
Proof. unfold planInstructions. destruct (instructions plan); [done|by intros [= <-]]. Qed.

Lemma expected_cluster plan cluster expected :
  assertExpectedPlan plan cluster expected = Ok tt -> plan_cluster plan = cluster.
Proof.
  unfold assertExpectedPlan. destruct (bool_decide (plan_cluster plan = cluster)) eqn:E; [|done].
  by apply bool_decide_eq_true in E.
Qed.

Lemma simulate_yields cluster d expected plan owner url fee :
  yields (simulateVaultPlan cluster d expected plan owner url fee) (fun tr v =>
    forall p, v = simulation_ok p ->
      prepared_plan p = plan /\ plan_cluster plan = cluster
      /\ exists kit, map_result toKitInstruction (instructions plan) = Ok kit
           /\ simulated (plan_message (payer_of fee owner) kit p) tr).
Proof.
  unfold simulateVaultPlan. apply yields_result. intros [] Hc%expected_cluster.
  destruct (planInstructions plan) as [planned|e] eqn:Ep;
    [|by apply yields_ret]. apply planInstructions_ok in Ep as ->.
  apply yields_any. intros [] tr1.
  apply yields_any. intros tables tr2.
  apply yields_any. intros recent tr3.
  apply yields_result. intros kit Hk.
  eapply yields_bind; [apply deadline_yields|]. intros compiled tr5 Hcomp.
  eapply yields_bind; [apply deadline_yields|]. intros verdict tr6 Hsim.
  destruct (truthy_value (sim_err verdict)) eqn:Ev.
  { apply yields_result. intros printed _. by apply yields_ret. }
  apply yields_ret; intros p [= <-].
  split; [done|]. split; [done|]. exists kit. split; [done|]. exists compiled, url, verdict.
  split; [seen Hcomp|]. split; [seen Hsim|done].
Qed.

Lemma fits_ok b sp : assertVaultTransactionFits b sp = Ok tt ->
  Z.of_nat (length b) <= SOLANA_TRANSACTION_SIZE_LIMIT_BYTES.
Proof. unfold assertVaultTransactionFits. by destruct (Z.leb_spec (Z.of_nat (length b)) SOLANA_TRANSACTION_SIZE_LIMIT_BYTES). Qed.

(** The bytes custody and the sponsor returned. *)
Definition completed (owner : string) (fee : VaultFeeMode) (m : VaultMessage) (b : bytes)
    (tr : list vault_event) : Prop :=
  exists t, answered_ok (SignMessage owner (is_sponsored fee) (with_signer m owner)) t tr
    /\ match fee with
       | wallet_pays => b = encodeTransaction t
       | sponsored sponsor =>
           answered_ok (SignAsFeePayer (encodeTransaction t)) b tr
           /\ exists d, decodeTransaction b = Ok d /\ messageBytes d = messageBytes t
                /\ missing_signature d sponsor = false
       end.

Lemma complete_yields d owner fee kit p :
  yields (sign_complete d owner fee kit p) (fun tr b =>
    completed owner fee (plan_message (payer_of fee owner) kit p) b tr).
Proof.
  unfold sign_complete. destruct fee as [sponsor|]; cbn [payer_of].
  - eapply yields_bind; [apply deadline_yields|]. intros t tr1 Ht.
    apply yields_any. intros [] tr2.
    eapply yields_bind; [apply deadline_yields|]. intros b tr3 Hb.
    apply yields_result. intros s Hs.
    destruct (bool_decide (messageBytes s = messageBytes t)) eqn:Em; cbn [negb];
      [|apply yields_throw]. apply bool_decide_eq_true in Em.
    destruct (missing_signature s sponsor) eqn:Emiss; [apply yields_throw|]. apply yields_ret.
    exists t. split; [seen Ht|]. split; [seen Hb|by exists s].
  - eapply yields_bind; [apply deadline_yields|]. intros t tr1 Ht. apply yields_ret.
    exists t. split; [seen Ht|done].
Qed.

Lemma sign_yields cluster d expected plan owner url fee p :
  yields (signVaultPlan cluster d expected plan owner url fee (Some p)) (fun tr s =>
    exists kit, map_result toKitInstruction (instructions plan) = Ok kit
      /\ signed_over owner fee (plan_message (payer_of fee owner) kit p) s tr).
Proof.
  unfold signVaultPlan. apply yields_any. intros [] tr0.
  apply yields_result. intros planned ->%planInstructions_ok.
  apply yields_result. intros kit Hk.
  eapply yields_bind with (Q1 := fun _ q => q = p).
  { destruct (negb _); [apply yields_throw|by apply yields_ret]. }
  intros q tr3 ->. eapply yields_bind; [apply complete_yields|]. intros b tr4 (t & Ht & Hfee).
  apply yields_result. intros [] Hfits%fits_ok.
  apply yields_result. intros x Hx.
  destruct (missing_signature x owner) eqn:Em; [apply yields_throw|].
  apply yields_result. intros sig Hsig.
  apply yields_ret. exists kit. split; [done|]. exists t, x.
  split; [seen Ht|].
  split; [done|]. split; [done|]. split; [done|]. split; [done|].
  split; [symmetry; apply plan_message_fields|].
  destruct fee as [sponsor|]; [|done]. destruct Hfee as [Hs (y & Hy & Hm & Hsig')].
  rewrite Hx in Hy. injection Hy as <-.
  split; [seen Hs|done].
Qed.

(** None of these records, advances or sends. *)
Lemma deadline_prepares d label c : preparing c -> calls_within preparing (deadline_run d label c).
Proof. intros H. unfold deadline_run, assertActive, ask. within_calls; try done. destruct (_ <=? _); within_calls. Qed.

Lemma tables_prepares d plan url : calls_within preparing (resolveLookupTables d plan url).
Proof.
  unfold resolveLookupTables, assertActive, ask.
  destruct (lookupTables plan); within_calls; try done.
  destruct (_ <=? _); within_calls.
Qed.

End Signing.

Ltac prepared :=
  repeat first
    [ apply within_ret | apply within_throw | apply within_of_result | apply tables_prepares
    | match goal with
      | |- calls_within _ (deadline_run ?d ?label ?c) => exact (deadline_prepares d label c I)
      | |- calls_within ?P (ask ?c) => exact (within_call P c I)
      end
    | apply within_bind; [|intros ?] ].

Section Runs.
Context {K : VaultKit}.

Lemma simulate_prepares cluster d expected plan owner url fee :
  calls_within preparing (simulateVaultPlan cluster d expected plan owner url fee).
Proof.
  unfold simulateVaultPlan, verifyVaultRpc. apply within_bind; [apply within_of_result|]. intros _.
  destruct (planInstructions plan); [|prepared]. prepared.
  match goal with |- context [truthy_value ?v] => destruct (truthy_value v) end; prepared.
Qed.

Lemma complete_prepares d owner fee kit p : calls_within preparing (sign_complete d owner fee kit p).
Proof.
  unfold sign_complete. destruct fee as [sponsor|]; prepared.
  destruct (negb _); [prepared|]. destruct (missing_signature _ _); prepared.
Qed.

Lemma sign_prepares cluster d expected plan owner url fee prepared :
  calls_within preparing (signVaultPlan cluster d expected plan owner url fee prepared).
Proof.
  unfold signVaultPlan, verifyVaultRpc. prepared.
  - destruct prepared; [destruct (negb _)|]; prepared.
  - apply complete_prepares.
  - destruct (missing_signature _ _); prepared.
Qed.

(** ** The shared tail *)

Lemma prepares_app pre tr : prepares pre -> prepares tr -> prepares (pre ++ tr).
Proof. apply Forall_app_2. Qed.

Lemma all_runs_prepared {A B} (m : vault_prog A) (f : A -> vault_prog B)
    (Y : list vault_event -> A -> Prop) (Q : list vault_event -> result B -> Prop) :
  yields m Y -> calls_within preparing m -> (forall tr e, prepares tr -> Q tr (Err e)) ->
  (forall tr a, prepares tr -> Y tr a -> all_runs (f a) (fun tr' res => Q (tr ++ tr') res)) ->
  all_runs (bind m f) Q.
Proof.
  intros Hy Hw Herr Hok. rewrite all_runs_bind.
  eapply all_runs_mono; [|exact (all_runs_and _ _ _ Hy Hw)].
  intros tr [a|e] [Ha Hp]; [apply Hok; [done|by apply Ha]|by apply Herr].
Qed.

Lemma yields_true {A} (m : vault_prog A) : yields m (fun _ _ => True).
Proof. eapply all_runs_mono; [|apply all_runs_true]. done. Qed.

Lemma submission_runs i s r : all_runs (record_submission i s r) (submission i s r).
Proof.
  unfold record_submission, ask, call. cbn [bind all_runs].
  intros [[m|]|e]; cbn [bind all_runs]; [constructor| |constructor].
  intros [[m|]|e]; cbn [bind all_runs]; [|by apply submission_unverified|constructor].
  destruct (bool_decide (mv_signature (facts m) = Some (signed_signature s))) eqn:E; cbn [all_runs].
  - apply submission_observed. by apply bool_decide_eq_true in E.
  - apply submission_unverified. intros ? [= <-]. by apply bool_decide_eq_false in E.
Qed.

Lemma simulated_before m tr post : simulated m tr -> simulated m (tr ++ post).
Proof. intros (t & url & v & Hc & Hs & Hv). exists t, url, v. split; [seen Hc|]. split; [seen Hs|done]. Qed.

Lemma signed_over_here owner fee m s pre tr :
  signed_over owner fee m s tr -> signed_over owner fee m s (pre ++ tr).
Proof.
  intros (t & d & Ht & H1 & H2 & H3 & H4 & H5 & H6). exists t, d. split; [seen Ht|].
  repeat (split; [done|]). destruct fee; [|done]. destruct H6 as [Hb H6]. split; [seen Hb|done].
Qed.

Lemma broadcast_runs i s :
  all_runs (broadcastVaultTransaction (ex_cluster i) (ex_deadline i) (signed_bytes s) (ex_rpcUrl i))
    (fun tr res => exists pre, prepares pre
       /\ match res with
          | Ok _ => tr = pre ++ [send_event i s (Ok tt)]
          | Err e => tr = pre \/ tr = pre ++ [send_event i s (Err e)]
          end).
Proof.
  unfold broadcastVaultTransaction, verifyVaultRpc.
  eapply all_runs_prepared; [apply yields_true|prepared| |].
  { intros tr e Hp. exists tr. split; [done|by left]. }
  intros tr [] Hp _. unfold deadline_run at 1.
  eapply all_runs_prepared; [apply yields_true|unfold assertActive| |].
  { prepared. destruct (_ <=? _); prepared. }
  { intros tr' e Hp'. exists (tr ++ tr'). split; [by apply prepares_app|by left]. }
  intros tr' [] Hp' _.
  eapply all_runs_prepared; [apply yields_true|exact (within_call preparing Now I)| |].
  { intros tr2 e Hp2. exists (tr ++ tr' ++ tr2). split; [repeat apply prepares_app; done|by left]. }
  intros tr2 now Hp2 _. unfold ask, call. cbn [all_runs].
  intros [[]|e]; cbn [all_runs]; exists (tr ++ tr' ++ tr2);
    (split; [repeat apply prepares_app; done|]); rewrite <- !app_assoc; auto.
Qed.

Lemma delivery_runs i s r :
  all_runs (if replayed r then Ret r
            else let! sent := catch (broadcastVaultTransaction (ex_cluster i) (ex_deadline i)
                                       (signed_bytes s) (ex_rpcUrl i) ;;; Ret true)
                                    (fun _ => Ret false) in
                 if sent then record_submission i s r else Ret r) (delivery i s r).
Proof.
  destruct (replayed r) eqn:Er; [by apply delivery_replayed|].
  rewrite all_runs_bind, all_runs_catch, all_runs_bind.
  eapply all_runs_mono; [|apply broadcast_runs].
  intros tr [[]|e] (pre & Hp & E); cbn [all_runs]; rewrite !app_nil_r.
  - subst tr. eapply all_runs_mono; [|apply submission_runs].
    intros post res Hs. rewrite <- app_assoc. by apply delivery_sent.
  - destruct E as [-> | ->]; [by apply delivery_withheld|by apply delivery_refused].
Qed.

Lemma executed_runs i v :
  all_runs (executeSignedVaultIntent i (fun s => record_intent (v s))) (executed i v).
Proof.
  unfold executeSignedVaultIntent.
  rewrite all_runs_bind. destruct (address (ex_walletPublicKey i)) as [owner|e] eqn:Eo;
    cbn [of_result all_runs app]; [|apply executed_stopped; constructor].
  assert (owner = ex_walletPublicKey i) as ->.
  { unfold address in Eo. destruct (assertIsAddress _); cbn in Eo; congruence. }
  eapply all_runs_prepared; [apply simulate_yields|apply simulate_prepares| |];
    [by intros; apply executed_stopped|].
  intros pre [p|e logs] Hp Hsim; [|cbn [all_runs]; rewrite app_nil_r; by apply executed_stopped].
  destruct (Hsim p eq_refl) as (Hplan & Hc & kit & Hk & Hs).
  eapply all_runs_prepared; [apply yields_true|prepared| |];
    [intros; apply executed_stopped; by apply prepares_app|].
  intros pre1 signer Hp1 _. destruct (String.eqb_spec signer (ex_walletPublicKey i)) as [->|]; cbn [negb];
    [|cbn [all_runs]; rewrite app_nil_r; apply executed_stopped; by apply prepares_app].
  eapply all_runs_prepared; [apply sign_yields|apply sign_prepares| |];
    [intros; apply executed_stopped; repeat apply prepares_app; done|].
  intros pre2 s Hp2 (kit' & Hk' & Hsigned). rewrite Hk in Hk'. injection Hk' as <-.
  assert (prepares (pre ++ pre1 ++ pre2)) as Hall by (repeat apply prepares_app; done).
  assert (signed_as_simulated i s (pre ++ pre1 ++ pre2)) as Hss.
  { exists (plan_message (payer_of (ex_fee i) (ex_walletPublicKey i)) kit p), kit.
    destruct (plan_message_fields (payer_of (ex_fee i) (ex_walletPublicKey i)) kit p) as (Hf & Hm & _).
    split; [done|]. split; [done|]. split; [done|]. split; [by apply simulated_before|].
    split; [by repeat apply signed_over_here|]. rewrite Hf. by destruct (ex_fee i). }
  rewrite all_runs_bind. unfold record_intent.
  destruct (v s) as [j|j] eqn:Ev; unfold ask, call; cbn [all_runs]; intros [r|e]; cbn [all_runs].
  1, 3: eapply all_runs_mono; [|apply delivery_runs]; intros tr res Hd;
    generalize (executed_recorded i v _ s r tr res Hall Hss Hd).
  3, 4: generalize (executed_unrecorded i v _ s e Hall Hss).
  all: rewrite Ev, <- !app_assoc; done.
Qed.
End Runs.
