(* ===== verification/EarnGuarantees.v ===== *)
(** * Earn: what the vault services guarantee

    Every run of the deposit and withdrawal services of EarnExecution.v: what they
    record, when they broadcast, what they answer; and those runs against the ledger
    of EarnLedger.v, with other calls between any two of theirs. *)
From Stdlib Require Import Ascii String ZArith Lia.
From stdpp Require Import base list strings.
From S2P Require Import Prelude Text Amount PolicyTypes EarnLedger EarnInvariant EarnMethods Idempotency EarnExecution EarnSafety.

Local Open Scope string_scope.
Local Open Scope Z_scope.
Local Open Scope list_scope.
Local Open Scope sdp_scope.

(** ** The two services *)

Inductive vault_request :=
| Deposit (i : VaultDepositInput)
| Withdraw (i : VaultWithdrawalInput).

Definition request_organization (q : vault_request) : string :=
  match q with Deposit i => vd_organizationId i | Withdraw i => vw_organizationId i end.

Definition request_project (q : vault_request) : string :=
  match q with Deposit i => vd_projectId i | Withdraw i => vw_projectId i end.

Definition request_key (q : vault_request) : string :=
  match q with Deposit i => vd_requestId i | Withdraw i => vw_requestId i end.

Definition request_fingerprint (q : vault_request) : string :=
  match q with Deposit i => deposit_fingerprint i | Withdraw i => withdrawal_fingerprint i end.

Definition request_environment (q : vault_request) : SdpEnvironment :=
  match q with Deposit i => vd_environment i | Withdraw i => vw_environment i end.

Definition find_event (q : vault_request) (a : result (option EarnMovementRow)) : vault_event :=
  Ev (R := vault_answer) (FindVaultMovementByRequestId (request_organization q) (request_key q)) a.

Definition position_event (q : vault_request) (m : EarnMovementRow)
    (a : result (option EarnPositionRow)) : vault_event :=
  Ev (R := vault_answer)
    (GetPositionById (request_organization q) (request_environment q) (position_id (facts m))) a.

(** The two strings denote one decimal amount. *)
Definition same_amount (a b : string) : Prop := SolanaAmount.compareDecimalAmounts a b = Ok 0.

(** The plan spends what the caller was approved to spend. *)
Definition deposit_agrees (i : VaultDepositInput) (plan : EarnVaultTransactionPlan)
    (floor : option string) : Prop :=
  assetIdentity plan = mkIdentity (vd_tokenMint i) (vd_shareMint i)
  /\ exists a amount, accepted plan = Some a /\ acc_amount a = Some amount
       /\ same_amount amount (vd_amount i) /\ acc_minSharesOut a = floor
       /\ match vd_minSharesOut i, floor with
          | Some wanted, Some encoded => same_amount encoded wanted
          | None, None => True
          | _, _ => False
          end.

Definition withdrawal_agrees (i : VaultWithdrawalInput) (plan : EarnVaultTransactionPlan) : Prop :=
  assetIdentity plan = mkIdentity (vw_tokenMint i) (vw_shareMint i)
  /\ exists a shares, accepted plan = Some a /\ acc_shares a = Some shares
       /\ same_amount shares (vw_shares i).

Section Kit.
Context {K : VaultKit}.

Definition serve (env : Env) (q : vault_request) : vault_prog IntentResult :=
  match q with Deposit i => depositIntoVault env i | Withdraw i => withdrawFromVault env i end.

(** What the builder was asked and answered, and what the service makes of it: the
    plan it executes and the intent it records for the signed bytes. *)
Inductive approved (env : Env) (pre : list vault_event) : vault_request ->
    ExecuteSignedVaultIntentInput -> (SignedVaultTransaction -> vault_intent) -> Prop :=
| approved_deposit i deadline fee built floor plan :
    answered_ok (BuildVaultDeposit (vd_environment i)
      (mkBuildDeposit (vd_providerReference i) (vd_wallet_publicKey i) (vd_amount i)
         (vd_minSharesOut i) (vaultRentPayer fee))) built pre ->
    plan = appendVaultRequestMemo built "vault-deposit" (vd_requestId i) ->
    deposit_agrees i plan floor ->
    approved env pre (Deposit i)
      (mkExecute op_deposit (vd_organizationId i) (vd_projectId i) (vd_wallet_id i)
         (vd_wallet_publicKey i) "Resolved signing wallet does not match the deposit wallet"
         (earnClusterFor (vd_environment i)) deadline (mkIdentity (vd_tokenMint i) (vd_shareMint i))
         plan (resolveClusterRpcUrl env (earnClusterFor (vd_environment i))) fee)
      (fun s => DepositIntent (deposit_intent i plan floor fee s))
| approved_withdrawal i deadline fee held built plan :
    answered_ok (GetPositionById (vw_organizationId i) (vw_environment i) (vw_positionId i))
      (Some held) pre ->
    answered_ok (BuildVaultWithdrawal (vw_environment i)
      (mkBuildWithdrawal (vw_vaultAddress i) (vw_wallet_publicKey i) (vw_shares i)
         (vaultRentPayer fee) (share_ata_rent_funder held))) built pre ->
    plan = appendVaultRequestMemo built "vault-withdrawal" (vw_requestId i) ->
    withdrawal_agrees i plan ->
    approved env pre (Withdraw i)
      (mkExecute op_withdrawal (vw_organizationId i) (vw_projectId i) (vw_wallet_id i)
         (vw_wallet_publicKey i) "Resolved signing wallet does not match the position's wallet"
         (earnClusterFor (vw_environment i)) deadline (mkIdentity (vw_tokenMint i) (vw_shareMint i))
         plan (resolveClusterRpcUrl env (earnClusterFor (vw_environment i))) fee)
      (fun s => WithdrawalIntent (withdrawal_intent i plan fee s)).

(** The runs of a service. *)
Inductive served (env : Env) (q : vault_request) : list vault_event -> result IntentResult -> Prop :=
| served_stopped tr e : prepares tr -> served env q tr (Err e)
| served_replayed m p :
    mv_project_id (facts m) = Some (request_project q) ->
    idempotency_fingerprint (facts m) = request_fingerprint q ->
    served env q [find_event q (Ok (Some m)); position_event q m (Ok (Some p))]
      (Ok (mkIntentResult p m true))
| served_executed pre i v tr res :
    find_event q (Ok None) ∈ pre -> prepares pre -> approved env pre q i v -> executed i v tr res ->
    served env q (pre ++ tr) res.

(** ** A run against the ledger *)

Section Ledger.
Variable text_le : string -> string -> bool.

(** One call of a run: the ledger's methods act on the tables, on a snapshot they read
    at some earlier point; a call that failed left them alone; the others never touch
    them. *)
Definition ledger_step (l : EarnTables) (e : vault_event) (l' : EarnTables) : Prop :=
  match ev_resp e with
  | Err _ => l' = l
  | Ok a =>
      match ev_call e as c return vault_answer c -> Prop with
      | CreateSignedVaultDepositIntent i => fun r =>
          exists now pid mid earlier, read_before text_le earlier l
            /\ create_intent text_le now pid mid (DepositIntent i) earlier l = Ok (r, l')
      | CreateSignedVaultWithdrawalIntent i => fun r =>
          exists now pid mid earlier, read_before text_le earlier l
            /\ create_intent text_le now pid mid (WithdrawalIntent i) earlier l = Ok (r, l')
      | AdvanceVaultMovement i => fun r => exists now, advanceVaultMovement text_le now i l = Ok (r, l')
      | ClaimUnsettledVaultMovements n => fun r =>
          exists now, claimUnsettledVaultMovements text_le now n l = Ok (r, l')
      | FindVaultMovementByRequestId organization request => fun r =>
          r = findVaultMovementByRequestId organization request l /\ l' = l
      | GetMovementById id organization => fun r => r = getMovementById id organization l /\ l' = l
      | GetPositionById organization environment id => fun r =>
          r = getPositionById organization environment id l /\ l' = l
      | _ => fun _ => l' = l
      end a
  end.

(** Other callers use the ledger before, between and after the calls of the run; a call
    whose answer was lost after it committed is one of theirs. *)
Fixpoint ledger_trace (l : EarnTables) (tr : list vault_event) (l' : EarnTables) : Prop :=
  exists ops,
    match tr with
    | [] => l' = earn_history text_le ops l
    | e :: rest => exists l1, ledger_step (earn_history text_le ops l) e l1 /\ ledger_trace l1 rest l'
    end.
End Ledger.

(** * Lemmas *)

(** ** The builder's report *)

Lemma amounts_differ_false a b : amounts_differ a b = Ok false <-> same_amount a b.
Proof.
  unfold amounts_differ, same_amount. destruct (SolanaAmount.compareDecimalAmounts a b) as [c|e];
    cbn [result_bind]; [|done].
  destruct (Z.eqb_spec c 0) as [->|Hc]; cbn [negb]; [done|]. split; [done|]. by intros [= ->].
Qed.

Lemma identity_eq x d s :
  depositTokenMint x = d -> shareMint x = s -> x = mkIdentity d s.
Proof. destruct x. by intros <- <-. Qed.

Lemma deposit_plan_agrees plan i floor :
  requireAcceptedPlan plan i = Ok floor -> deposit_agrees i plan floor.
Proof.
  unfold requireAcceptedPlan, deposit_agrees.
  destruct (String.eqb_spec (depositTokenMint (assetIdentity plan)) (vd_tokenMint i)) as [E1|]; [|done].
  destruct (String.eqb_spec (shareMint (assetIdentity plan)) (vd_shareMint i)) as [E2|]; [|done].
  cbn [negb]. destruct (accepted plan) as [a|]; cbn [mbind option_bind]; [|done].
  destruct (acc_amount a) as [amount|] eqn:Ea; [|done].
  destruct (truthy (Some amount)); cbn [negb from_option id]; [|done].
  destruct (amounts_differ amount (vd_amount i)) as [[]|] eqn:Ed; cbn [result_bind]; [done| |done].
  apply amounts_differ_false in Ed. intros H.
  split; [by apply identity_eq|]. exists a, amount. split; [done|]. split; [done|]. split; [done|].
  destruct (vd_minSharesOut i) as [wanted|], (acc_minSharesOut a) as [encoded|]; try done.
  - destruct (amounts_differ encoded wanted) as [[]|] eqn:Ew; cbn [result_bind] in H; try done.
    apply amounts_differ_false in Ew. by injection H as <-.
  - by injection H as <-.
Qed.

Lemma withdrawal_plan_agrees plan i :
  requireAcceptedWithdrawalPlan plan i = Ok tt -> withdrawal_agrees i plan.
Proof.
  unfold requireAcceptedWithdrawalPlan, withdrawal_agrees.
  destruct (String.eqb_spec (depositTokenMint (assetIdentity plan)) (vw_tokenMint i)) as [E1|]; [|done].
  destruct (String.eqb_spec (shareMint (assetIdentity plan)) (vw_shareMint i)) as [E2|]; [|done].
  cbn [negb]. destruct (accepted plan) as [a|]; cbn [mbind option_bind]; [|done].
  destruct (acc_shares a) as [shares|] eqn:Ea; [|done].
  destruct (truthy (Some shares)); cbn [negb from_option id]; [|done].
  destruct (amounts_differ shares (vw_shares i)) as [[]|] eqn:Ed; cbn [result_bind]; [done| |done].
  apply amounts_differ_false in Ed. intros _. split; [by apply identity_eq|]. by exists a, shares.
Qed.

(** ** Before the shared tail *)

Lemma deadline_created pre : calls_within preparing (createVaultDeadline pre).
Proof. unfold createVaultDeadline. destruct (_ <=? _); prepared. Qed.

Lemma sponsorship_prepares env o p w c d :
  calls_within preparing (resolveVaultSponsorship env o p w c d).
Proof. unfold resolveVaultSponsorship. destruct (negb _); prepared. Qed.

Lemma ask_yields c : yields (ask c) (fun tr a => answered_ok c a tr).
Proof. apply yields_call. intros a. unfold answered_ok. by left. Qed.

Lemma built_prepares c (h : jserr -> jserr) :
  preparing c -> calls_within preparing (catch (ask c) (fun e => Throw (h e))).
Proof. intros H. apply within_catch; [by apply within_call|]. intros. apply within_throw. Qed.

Lemma served_stops env q pre tr e :
  prepares pre -> prepares tr -> served env q (pre ++ tr) (Err e).
Proof. intros. by apply served_stopped, prepares_app. Qed.

Lemma recorded_runs env q pre i v :
  find_event q (Ok None) ∈ pre -> prepares pre -> approved env pre q i v ->
  all_runs (executeSignedVaultIntent i (fun s => record_intent (v s)))
    (fun tr res => served env q (pre ++ tr) res).
Proof.
  intros Hf Hp Ha. eapply all_runs_mono; [|apply executed_runs].
  intros tr res He. by eapply served_executed.
Qed.

(** A preparing step in front of the rest of a service. *)
Lemma service_step {A} env q pre (m : vault_prog A) (f : A -> vault_prog IntentResult)
    (Y : list vault_event -> A -> Prop) :
  prepares pre -> calls_within preparing m -> yields m Y ->
  (forall tr a, prepares (pre ++ tr) -> Y tr a ->
     all_runs (f a) (fun tr' res => served env q ((pre ++ tr) ++ tr') res)) ->
  all_runs (bind m f) (fun tr res => served env q (pre ++ tr) res).
Proof.
  intros Hp Hw Hy Hf. eapply all_runs_prepared; [exact Hy|exact Hw| |].
  - intros tr e Ht. by apply served_stops.
  - intros tr a Ht Ha. eapply all_runs_mono; [|apply Hf; [by apply prepares_app|done]].
    intros tr' res. by rewrite app_assoc.
Qed.

Lemma service_throw env q pre e :
  prepares pre -> all_runs (Throw e) (fun tr res => served env q (pre ++ tr) res).
Proof. intros H. cbn [all_runs]. rewrite app_nil_r. by apply served_stopped. Qed.

Lemma service_result {A} env q pre (r : result A) (f : A -> vault_prog IntentResult) :
  prepares pre ->
  (forall a, r = Ok a -> all_runs (f a) (fun tr res => served env q (pre ++ tr) res)) ->
  all_runs (bind (of_result r) f) (fun tr res => served env q (pre ++ tr) res).
Proof. intros Hp H. destruct r as [a|e]; [by apply H|by apply service_throw]. Qed.

Lemma fresh_deposit_runs env i pre :
  find_event (Deposit i) (Ok None) ∈ pre -> prepares pre ->
  all_runs (freshDeposit env i) (fun tr res => served env (Deposit i) (pre ++ tr) res).
Proof.
  intros Hf Hp. unfold freshDeposit.
  eapply service_step; [done|apply deadline_created|apply yields_true|]. intros tr1 deadline Hp1 _.
  destruct (negb (vd_provider i =? "kamino")%string); [by apply service_throw|].
  eapply service_step; [done|apply sponsorship_prepares|apply yields_true|]. intros tr2 fee Hp2 _.
  eapply service_step; [done|by apply built_prepares|apply yields_catch_throw, ask_yields|].
  intros tr3 built Hp3 Hb.
  destruct (negb _); [by apply service_throw|].
  apply service_result; [done|]. intros floor Hfloor%deposit_plan_agrees.
  eapply (recorded_runs _ _ _ _ (fun s => DepositIntent (deposit_intent i _ floor fee s)));
    [rewrite !elem_of_app; auto|done|].
  eapply approved_deposit; [|done|done]. seen Hb.
Qed.

Lemma fresh_withdrawal_runs env i pre :
  find_event (Withdraw i) (Ok None) ∈ pre -> prepares pre ->
  all_runs (freshWithdrawal env i) (fun tr res => served env (Withdraw i) (pre ++ tr) res).
Proof.
  intros Hf Hp. unfold freshWithdrawal.
  eapply service_step; [done|apply deadline_created|apply yields_true|]. intros tr1 deadline Hp1 _.
  destruct (negb (vw_provider i =? "kamino")%string); [by apply service_throw|].
  eapply service_step; [done|apply sponsorship_prepares|apply yields_true|]. intros tr2 fee Hp2 _.
  eapply service_step; [done|prepared|apply ask_yields|].
  intros tr3 [held|] Hp3 Hh; [|by apply service_throw].
  eapply service_step; [done|by apply built_prepares|apply yields_catch_throw, ask_yields|].
  intros tr4 built Hp4 Hb.
  destruct (negb _); [by apply service_throw|].
  apply service_result; [done|]. intros [] Hagree%withdrawal_plan_agrees.
  eapply (recorded_runs _ _ _ _ (fun s => WithdrawalIntent (withdrawal_intent i _ fee s)));
    [rewrite !elem_of_app; auto|done|].
  eapply approved_withdrawal; [|  |done|done]; [seen Hh|seen Hb].
Qed.

Lemma own_replay_fields m project fingerprint :
  assertMovementIsOwnReplay m project fingerprint = Ok tt ->
  mv_project_id (facts m) = Some project /\ idempotency_fingerprint (facts m) = fingerprint.
Proof.
  unfold assertMovementIsOwnReplay.
  destruct (bool_decide_reflect (mv_project_id (facts m) = Some project)) as [E1|]; [|done].
  by destruct (String.eqb_spec (idempotency_fingerprint (facts m)) fingerprint) as [E2|].
Qed.

Lemma replay_resolved m fingerprint prior :
  resolveIdempotencyReplay stored_fingerprint (Some m) fingerprint = Ok prior -> prior = Some m.
Proof. unfold resolveIdempotencyReplay, stored_fingerprint. destruct (String.eqb _ _); [by intros [= <-]|done]. Qed.

Lemma replay_deposit_runs env i m :
  let q := Deposit i in
  mv_project_id (facts m) = Some (request_project q) ->
  idempotency_fingerprint (facts m) = request_fingerprint q ->
  all_runs (replayDeposit i m) (fun tr res => served env q ([find_event q (Ok (Some m))] ++ tr) res).
Proof.
  intros q H1 H2. unfold replayDeposit, ask, call. cbn [bind all_runs].
  intros [[p|]|e]; cbn [bind all_runs app].
  - by apply (served_replayed env q).
  - apply served_stopped. by repeat constructor.
  - apply served_stopped. by repeat constructor.
Qed.

Lemma replay_withdrawal_runs env i m :
  let q := Withdraw i in
  mv_project_id (facts m) = Some (request_project q) ->
  idempotency_fingerprint (facts m) = request_fingerprint q ->
  all_runs (replayWithdrawal i m) (fun tr res => served env q ([find_event q (Ok (Some m))] ++ tr) res).
Proof.
  intros q H1 H2. unfold replayWithdrawal, ask, call.
  destruct (negb _); [apply service_throw; by repeat constructor|]. cbn [bind all_runs].
  intros [[p|]|e]; cbn [bind all_runs app].
  - destruct (truthy (mv_signature (facts m))); cbn [all_runs]; [by apply (served_replayed env q)|].
    apply served_stopped. by repeat constructor.
  - apply served_stopped. by repeat constructor.
  - apply served_stopped. by repeat constructor.
Qed.

Lemma found_runs env q m f g :
  (mv_project_id (facts m) = Some (request_project q) ->
   idempotency_fingerprint (facts m) = request_fingerprint q ->
   all_runs (f m) (fun tr res => served env q ([find_event q (Ok (Some m))] ++ tr) res)) ->
  all_runs
    (let! prior := of_result (resolveIdempotencyReplay stored_fingerprint (Some m)
                                (request_fingerprint q)) in
     match prior with
     | Some m => of_result (assertMovementIsOwnReplay m (request_project q) (request_fingerprint q)) ;;; f m
     | None => g
     end) (fun tr res => served env q ([find_event q (Ok (Some m))] ++ tr) res).
Proof.
  intros H. apply service_result; [by repeat constructor|]. intros prior ->%replay_resolved.
  apply service_result; [by repeat constructor|]. intros [] [H1 H2]%own_replay_fields. by apply H.
Qed.

Lemma served_runs env q : all_runs (serve env q) (served env q).
Proof.
  assert (forall a, prepares [find_event q a]) as Hp by (by repeat constructor).
  destruct q as [i|i]; cbn [serve]; unfold depositIntoVault, withdrawFromVault;
    rewrite all_runs_bind; unfold ask at 1, call at 1; cbn [all_runs];
    (intros [[m|]|e]; cbn [all_runs]; [| |by apply served_stopped, (Hp (Err e))]).
  - by apply (found_runs env (Deposit i)), replay_deposit_runs.
  - apply (fresh_deposit_runs env i [find_event (Deposit i) (Ok None)]); [by left|apply Hp].
  - by apply (found_runs env (Withdraw i)), replay_withdrawal_runs.
  - apply (fresh_withdrawal_runs env i [find_event (Withdraw i) (Ok None)]); [by left|apply Hp].
Qed.
End Kit.

(** ** Runs against the ledger *)

Section LedgerRuns.
Variable text_le : string -> string -> bool.
Abbreviation sound := (ledger_sound text_le).

Lemma history_kept ops l : sound l -> kept text_le l (earn_history text_le ops l).
Proof. intros H. by apply (earn_history_kept text_le ops l). Qed.

Lemma step_kept l e l' : sound l -> ledger_step text_le l e l' -> kept text_le l l'.
Proof.
  intros Hs. unfold ledger_step. destruct e as [c [a|err]]; cbn [ev_call ev_resp];
    [|intros ->; by apply kept_refl].
  destruct c; try (intros ->; by apply kept_refl); try (intros [_ ->]; by apply kept_refl).
  - intros (now & pid & mid & earlier & _ & H). by apply create_intent_kept in H.
  - intros (now & pid & mid & earlier & _ & H). by apply create_intent_kept in H.
  - intros [now H]. by apply advance_kept in H.
  - intros [now H]. by apply queue_kept in H.
Qed.

Lemma trace_kept tr : forall l l', sound l -> ledger_trace text_le l tr l' -> kept text_le l l'.
Proof.
  induction tr as [|e tr IH]; intros l l' Hs [ops H].
  - subst l'. by apply history_kept.
  - destruct H as (l1 & H1 & H2). pose proof (history_kept ops l Hs) as K0.
    pose proof (step_kept _ _ _ (proj1 K0) H1) as K1.
    pose proof (IH _ _ (proj1 K1) H2) as K2. by eapply kept_trans, kept_trans.
Qed.

Lemma trace_app tr1 tr2 : forall l l',
  ledger_trace text_le l (tr1 ++ tr2) l' ->
  exists lm, ledger_trace text_le l tr1 lm /\ ledger_trace text_le lm tr2 l'.
Proof.
  induction tr1 as [|e tr1 IH]; intros l l'.
  - intros H. exists l. split; [by exists []|done].
  - intros (ops & l1 & H1 & (lm & H2 & H3)%IH). exists lm. split; [|done]. exists ops, l1. auto.
Qed.

(** A row of the ledger with the facts of a movement. *)
Definition on_ledger (l : EarnTables) (f : MovementFacts) : Prop :=
  exists m, m ∈ movements l /\ facts m = f.

Lemma on_ledger_kept l l' f : kept text_le l l' -> on_ledger l f -> on_ledger l' f.
Proof.
  intros [_ (old & new & E & Hl)] (m & Hm & <-). apply list_elem_of_lookup_1 in Hm as [k Hk].
  destruct (Forall2_lookup_l _ _ _ _ _ Hl Hk) as (m' & Hk' & Hla).
  exists m'. apply list_elem_of_lookup_2 in Hk'. rewrite E, elem_of_app. split; [by left|].
  apply Hla.
Qed.

Lemma intent_on_ledger l v r l' :
  sound l -> ledger_step text_le l (intent_event v (Ok r)) l' ->
  on_ledger l' (facts (result_movement r))
  /\ same_vault_request (intent_organization v) (intent_request v) (result_movement r) = true
  /\ (replayed r = false ->
      signed_transaction (facts (result_movement r)) = Some (intent_transaction v)
      /\ mv_signature (facts (result_movement r)) = Some (intent_signature v)).
Proof.
  intros Hs H.
  assert (exists l1, intent_done v l1 r l') as (l1 & Hq & _ & Hd).
  { exists l. destruct v as [i|i]; destruct H as (now & pid & mid & earlier & H1 & H2);
      by eapply create_intent_done. }
  unfold on_ledger. destruct (replayed r).
  - destruct Hd as [-> Ho]. split; [done|]. by split.
  - destruct Hd as (-> & _ & Hsig & Htx & _). split; [|split; [done|by intros _]].
    exists (result_movement r). rewrite elem_of_app, list_elem_of_singleton. auto.
Qed.

Lemma advanced_on_ledger l i m l' :
  sound l -> ledger_step text_le l (Ev (R := vault_answer) (AdvanceVaultMovement i) (Ok (Some m))) l' ->
  exists x, x ∈ movements l /\ mv_id (facts x) = adv_movementId i /\ facts m = facts x.
Proof.
  intros Hs [now H]. revert H. unfold advanceVaultMovement, assertVaultTransitionMetadata.
  destruct (vault_transition_objection i) eqn:Ho; [done|]. apply objection_spec in Ho. cbn [result_bind].
  destruct (allowedSourceStatuses vault_direct (adv_toStatus i)) as [sources|] eqn:Hso; [|done].
  apply allowed_sources in Hso as ->. cbn [result_bind]. set (matches := advances_movement i _).
  assert (forall l1, update_movement matches (advance_row now i) l = Ok (Some m, l1) ->
            exists x, x ∈ movements l /\ mv_id (facts x) = adv_movementId i /\ facts m = facts x) as Hu.
  { intros l1 [[[=] _]|(x & Hx & Hxm & [= ->] & _)]%(advance_update text_le); [|done|done].
    exists x. apply advances_spec in Hxm as (E & _). auto. }
  destruct (bool_decide (adv_toStatus i = mv_submitted)); [apply Hu|].
  destruct (getMovementById _ _ l) as [candidate|]; [|done].
  destruct (update_movement matches (advance_row now i) l) as [[[x|] l1]|]; cbn [result_bind]; [|done..].
  repeat case_match; intros [= -> _]; by eapply Hu.
Qed.
End LedgerRuns.

(** ** The effects of a run *)

Section Effects.
Context {K : VaultKit}.

Lemma prepared_split P X pre e post :
  prepares P -> ~ preparing (ev_call e) -> P ++ X = pre ++ e :: post ->
  exists pre', pre = P ++ pre' /\ X = pre' ++ e :: post.
Proof.
  intros HP He. revert pre. induction HP as [|x P Hx HP IH]; intros pre E; [by exists pre|].
  destruct pre as [|y pre]; cbn [app] in E.
  - injection E as -> _. done.
  - injection E as -> (pre' & -> & ->)%IH. by exists pre'.
Qed.

Lemma intent_not_preparing w r : ~ preparing (ev_call (intent_event w r)).
Proof. destruct w; cbn; tauto. Qed.

(** The intent an event records, and what it was answered. *)
Definition recorded_by (e : vault_event) : option (vault_intent * result IntentResult) :=
  match e with
  | Ev (CreateSignedVaultDepositIntent i) r => Some (DepositIntent i, r)
  | Ev (CreateSignedVaultWithdrawalIntent i) r => Some (WithdrawalIntent i, r)
  | _ => None
  end.

Lemma recorded_by_intent w r : recorded_by (intent_event w r) = Some (w, r).
Proof. by destruct w. Qed.

Lemma intent_event_inj w r w' r' : intent_event w r = intent_event w' r' -> w = w' /\ r = r'.
Proof. intros E%(f_equal recorded_by). rewrite !recorded_by_intent in E. by injection E as -> ->. Qed.

(** The transaction an event sends, and what the network answered. *)
Definition sent_by (e : vault_event) : option (string * bytes * result unit) :=
  match e with
  | Ev (SendTransaction url b) a => Some (url, b, a)
  | _ => None
  end.

Lemma submission_effect i s r tr res pre e post :
  submission i s r tr res -> tr = pre ++ e :: post -> ~ preparing (ev_call e) ->
  (exists a, e = advance_event i r a) /\ pre = [] /\ prepares post.
Proof.
  intros H E He.
  assert (exists a rest, tr = advance_event i r a :: rest /\ prepares rest) as (a & rest & -> & Hr).
  { destruct H; by repeat econstructor. }
  destruct pre as [|x pre]; cbn [app] in E.
  - injection E as <- <-. split; [by exists a|done].
  - injection E as _ ->. by apply Forall_app in Hr as [_ [? _]%Forall_cons].
Qed.

Lemma delivery_effect i s r tr res pre e post :
  delivery i s r tr res -> tr = pre ++ e :: post -> ~ preparing (ev_call e) ->
  replayed r = false
  /\ ((exists err, e = send_event i s (Err err) /\ prepares pre /\ post = [] /\ res = Ok r)
      \/ (e = send_event i s (Ok tt) /\ prepares pre /\ submission i s r post res)
      \/ exists pre' a, e = advance_event i r a /\ pre = pre' ++ [send_event i s (Ok tt)]
           /\ prepares pre' /\ prepares post).
Proof.
  intros [|tr0 Hr Hp|P err Hr Hp|P X res0 Hr Hp Hs] E He.
  - by destruct pre.
  - subst tr0. by apply Forall_app in Hp as [_ [? _]%Forall_cons].
  - split; [done|]. left. apply prepared_split in E as (pre' & -> & E); [|done..].
    destruct pre' as [|x pre']; [|by destruct pre'].
    injection E as <- <-. exists err. by rewrite app_nil_r.
  - split; [done|]. right. apply prepared_split in E as (pre' & -> & E); [|done..].
    destruct pre' as [|x pre']; injection E as -> E.
    + left. rewrite app_nil_r. subst. done.
    + right. destruct (submission_effect _ _ _ _ _ _ _ _ Hs E He) as ([a ->] & -> & Hpost).
      exists P, a. auto.
Qed.

(** Everything a run does but prepare: one intent, and what its answer entails. *)
Lemma executed_effect i v tr res pre e post :
  executed i v tr res -> tr = pre ++ e :: post -> ~ preparing (ev_call e) ->
  exists pre0 s, prepares pre0 /\ signed_as_simulated i s pre0
    /\ ((pre = pre0 /\ exists err, e = intent_event (v s) (Err err) /\ post = [] /\ res = Err err)
        \/ (pre = pre0 /\ exists r, e = intent_event (v s) (Ok r) /\ delivery i s r post res)
        \/ exists r pre1, pre = pre0 ++ intent_event (v s) (Ok r) :: pre1
             /\ delivery i s r (pre1 ++ e :: post) res).
Proof.
  intros [tr0 err Hp|P s err Hp Hs|P s r X res0 Hp Hs Hd] E He.
  - subst tr0. by apply Forall_app in Hp as [_ [? _]%Forall_cons].
  - exists P, s. split; [done|]. split; [done|]. left.
    apply prepared_split in E as (pre' & -> & E); [|done..].
    destruct pre' as [|x pre']; [|by destruct pre'].
    injection E as <- <-. rewrite app_nil_r. split; [done|]. by exists err.
  - exists P, s. split; [done|]. split; [done|]. right.
    apply prepared_split in E as (pre' & -> & E); [|done..].
    destruct pre' as [|x pre']; injection E as <- ->.
    + left. rewrite app_nil_r. split; [done|]. by exists r.
    + right. by exists r, pre'.
Qed.

Lemma approved_before env pre post q i v : approved env pre q i v -> approved env (pre ++ post) q i v.
Proof.
  intros [j d fee built floor plan H1 H2 H3|j d fee held built plan H0 H1 H2 H3].
  - eapply approved_deposit; [seen H1|done..].
  - eapply approved_withdrawal; [seen H0|seen H1|done..].
Qed.

Lemma signed_as_simulated_here i s pre tr :
  signed_as_simulated i s tr -> signed_as_simulated i s (pre ++ tr).
Proof.
  intros (m & kit & H1 & H2 & H3 & H4 & H5 & H6). exists m, kit. repeat (split; [done|]).
  split; [|split; [by apply signed_over_here|done]].
  destruct H4 as (t & url & v & Hc & Hs & Hv). exists t, url, v.
  split; [seen Hc|]. split; [seen Hs|done].
Qed.

Lemma served_effect env q tr res pre e post :
  served env q tr res -> tr = pre ++ e :: post -> ~ preparing (ev_call e) ->
  exists pre0 i v s, prepares pre0 /\ approved env pre0 q i v /\ signed_as_simulated i s pre0
    /\ find_event q (Ok None) ∈ pre0
    /\ ((pre = pre0 /\ exists err, e = intent_event (v s) (Err err) /\ post = [] /\ res = Err err)
        \/ (pre = pre0 /\ exists r, e = intent_event (v s) (Ok r) /\ delivery i s r post res)
        \/ exists r pre1, pre = pre0 ++ intent_event (v s) (Ok r) :: pre1
             /\ delivery i s r (pre1 ++ e :: post) res).
Proof.
  intros [tr0 err Hp|m p H1 H2|P i v X res0 Hf Hp Ha Hx] E He.
  - subst tr0. by apply Forall_app in Hp as [_ [? _]%Forall_cons].
  - exfalso. apply He. assert (prepares (pre ++ e :: post)) as Hall by (rewrite <- E; by repeat constructor).
    by apply Forall_app in Hall as [_ [? _]%Forall_cons].
  - apply prepared_split in E as (pre' & -> & E); [|done..].
    destruct (executed_effect _ _ _ _ _ _ _ Hx E He) as (P' & s & Hp' & Hs & Hcase).
    exists (P ++ P'), i, v, s. split; [by apply prepares_app|]. split; [by apply approved_before|].
    split; [by apply signed_as_simulated_here|]. split; [rewrite elem_of_app; auto|].
    destruct Hcase as [[-> H]|[[-> H]|(r & pre1 & -> & H)]]; [by left|by right; left|].
    right. right. exists r, pre1. by rewrite app_assoc.
Qed.

(** The intent is of the request, and of the bytes signed. *)
Lemma approved_intent env pre q i v s :
  approved env pre q i v ->
  intent_organization (v s) = request_organization q /\ intent_request (v s) = request_key q
  /\ intent_transaction (v s) = to_base64 (signed_bytes s)
  /\ intent_signature (v s) = signed_signature s
  /\ ex_organizationId i = request_organization q
  /\ ex_rpcUrl i = resolveClusterRpcUrl env (earnClusterFor (request_environment q)).
Proof. by intros []. Qed.

Lemma prepares_sends tr : prepares tr -> sends tr = [].
Proof. induction 1 as [|[c a] tr Hc _ IH]; [done|]. unfold sends. cbn [flat_map]. by destruct c. Qed.

(** One transaction at most is handed to the network, after its intent was recorded. *)
Lemma served_send env q tr res pre url b a post :
  served env q tr res -> tr = pre ++ Ev (R := vault_answer) (SendTransaction url b) a :: post ->
  exists pre0 i v s r mid, prepares pre0 /\ approved env pre0 q i v /\ signed_as_simulated i s pre0
    /\ pre = pre0 ++ intent_event (v s) (Ok r) :: mid /\ prepares mid /\ replayed r = false
    /\ url = ex_rpcUrl i /\ b = signed_bytes s
    /\ match a with Err _ => post = [] /\ res = Ok r | Ok _ => submission i s r post res end.
Proof.
  intros H E. destruct (served_effect _ _ _ _ _ _ _ H E) as (P & i & v & s & Hp & Ha & Hs & _ & Hc);
    [cbn; tauto|]. exists P, i, v, s.
  destruct Hc as [(_ & err & Ee & _)|[(_ & r & Ee & _)|(r & mid & -> & Hd)]];
    [by destruct (v s)|by destruct (v s)|].
  eapply delivery_effect in Hd as (Hr & Hd); [|reflexivity|cbn; tauto].
  exists r, mid. do 3 (split; [done|]). split; [done|].
  destruct Hd as [(err & Ee & Hm & -> & ->)|[(Ee & Hm & Hsub)|(pre' & x & Ee & _)]]; [| |done];
    apply (f_equal sent_by) in Ee; injection Ee as -> -> ->; split_and!; done.
Qed.

Lemma served_intent env q tr res pre w r post :
  served env q tr res -> tr = pre ++ intent_event w r :: post ->
  exists i v s, prepares pre /\ approved env pre q i v /\ signed_as_simulated i s pre
    /\ find_event q (Ok None) ∈ pre /\ w = v s
    /\ match r with Err e => post = [] /\ res = Err e | Ok r => delivery i s r post res end.
Proof.
  intros H E. destruct (served_effect _ _ _ _ _ _ _ H E) as (P & i & v & s & Hp & Ha & Hs & Hf & Hc);
    [by apply intent_not_preparing|]. exists i, v, s.
  destruct Hc as [(-> & err & [-> ->]%intent_event_inj & -> & ->)
    |[(-> & r0 & [-> ->]%intent_event_inj & Hd)|(r0 & mid & -> & Hd)]].
  - by split_and!.
  - by split_and!.
  - eapply delivery_effect in Hd as (_ & Hd); [|reflexivity|by apply intent_not_preparing].
    destruct Hd as [(? & Ee & _)|[(Ee & _)|(? & ? & Ee & _)]]; by destruct w.
Qed.

Lemma served_success env q tr r :
  served env q tr (Ok r) ->
  (exists m p, tr = [find_event q (Ok (Some m)); position_event q m (Ok (Some p))]
     /\ r = mkIntentResult p m true)
  \/ exists pre i v s r0 post, tr = pre ++ intent_event (v s) (Ok r0) :: post
     /\ approved env pre q i v /\ delivery i s r0 post (Ok r).
Proof.
  intros H. remember (Ok r) as res eqn:Er. destruct H as [tr e Hp|m p H1 H2|P i v X res Hf Hp Ha Hx];
    [done|injection Er as <-; left; by exists m, p|].
  destruct Hx as [|P' s e|P' s r0 post res Hp' Hs Hd]; [done|done|]. subst res. right.
  exists (P ++ P'), i, v, s, r0, post. split; [by rewrite app_assoc|].
  split; [by apply approved_before|done].
Qed.

(** A delivery that returns answers the row it was given, or one the ledger answered. *)
Inductive answered_row (i : ExecuteSignedVaultIntentInput) (r : IntentResult) (post : list vault_event)
    : IntentResult -> Prop :=
| answered_recorded : answered_row i r post r
| answered_advanced m :
    advance_event i r (Ok (Some m)) ∈ post -> answered_row i r post (with_movement r m)
| answered_observed m :
    observe_event i r (Ok (Some m)) ∈ post -> answered_row i r post (with_movement r m).

Lemma delivery_answer i s r post res :
  delivery i s r post res -> forall r', res = Ok r' -> answered_row i r post r'.
Proof.
  intros [|tr Hr Hp|P err Hr Hp|P X res0 Hr Hp Hs] r' E; try (injection E as <-; constructor).
  destruct Hs; try done; injection E as <-.
  - apply answered_advanced. rewrite elem_of_app, !elem_of_cons. auto.
  - apply answered_observed. rewrite elem_of_app, !elem_of_cons. auto.
Qed.
End Effects.

(** ** What a run leaves on the ledger *)

Section OnLedger.
Context {K : VaultKit}.
Variable text_le : string -> string -> bool.
Abbreviation sound := (ledger_sound text_le).

(** The row of an id is one. *)
Lemma on_ledger_unique l f g : sound l -> on_ledger l f -> on_ledger l g -> mv_id f = mv_id g -> f = g.
Proof.
  intros Hs (a & Ha & <-) (b & Hb & <-) E.
  by rewrite (same_id_same_row (movements l) a b (ok_unique _ (sound_tables _ _ Hs)) Ha Hb E).
Qed.

(** An answer of the ledger to a later call of the run is a row of the ledger. *)
Lemma trace_elem l tr l' e :
  sound l -> ledger_trace text_le l tr l' -> e ∈ tr ->
  exists l1 l2, kept text_le l l1 /\ ledger_step text_le l1 e l2 /\ kept text_le l1 l2
    /\ kept text_le l2 l'.
Proof.
  intros Hs Ht (pre & post & ->)%list_elem_of_split.
  apply trace_app in Ht as (lm & H1 & (ops & l2 & H2 & H3)). pose proof (trace_kept _ _ _ _ Hs H1) as K1.
  pose proof (history_kept text_le ops lm (proj1 K1)) as K2.
  pose proof (step_kept text_le _ _ _ (proj1 K2) H2) as K3.
  pose proof (trace_kept text_le _ _ _ (proj1 K3) H3) as K4.
  exists (earn_history text_le ops lm), l2. split; [by eapply kept_trans|done].
Qed.

Lemma answered_facts i r post r' l l' :
  sound l -> on_ledger l (facts (result_movement r)) -> ledger_trace text_le l post l' ->
  answered_row i r post r' -> facts (result_movement r') = facts (result_movement r).
Proof.
  intros Hs Hr Ht [|m Hm|m Hm]; [done| |]; cbn [with_movement result_movement];
    destruct (trace_elem _ _ _ _ Hs Ht Hm) as (l1 & l2 & K1 & Hstep & _ & _);
    pose proof (on_ledger_kept text_le _ _ _ K1 Hr) as Hr1.
  - apply advanced_on_ledger in Hstep as (x & Hx & Hid & ->); [|apply K1].
    apply (on_ledger_unique l1); [apply K1|by exists x|done|done].
  - destruct Hstep as [E _]. symmetry in E. apply find_elem in E as [Hx [Hid%String.eqb_eq _]%andb_true_iff].
    apply (on_ledger_unique l1); [apply K1|by exists m|done|done].
Qed.
End OnLedger.

(** ** One deposit, from the request to the ledger *)

Module VaultDemo.

Import KitDemo.

Definition env : Env := mkEnv (Some " https://rpc ") None None None (Some "True").

Definition request : vault_request :=
  Deposit (mkVaultDeposit "org" "prj" sandbox "kamino" "vault" "cw" "owner" "usdc" "shares"
             "USDC vault" "25" "req-1" None None (Some "24.0")).

Definition plan : EarnVaultTransactionPlan :=
  mkPlan devnet [mkInstruction "kvault" [("owner", 3)] "deposit"] [] (mkIdentity "usdc" "shares")
    (Some (mkAccepted (Some "25.00") (Some "24") None)) true.

Definition intent_answer (v : vault_intent) (l : EarnTables) : result IntentResult * EarnTables :=
  match create_intent EarnDemo.text_le "t1" "pos" "mv" v l l with
  | Ok (r, l') => (Ok r, l')
  | Err e => (Err e, l)
  end.

Definition answer (c : vault_call) (l : EarnTables) : result (vault_answer c) * EarnTables :=
  match c return result (vault_answer c) * EarnTables with
  | FindVaultMovementByRequestId o q => (Ok (findVaultMovementByRequestId o q l), l)
  | GetPositionById o e p => (Ok (getPositionById o e p l), l)
  | GetMovementById m o => (Ok (getMovementById m o l), l)
  | CreateSignedVaultDepositIntent i => intent_answer (DepositIntent i) l
  | CreateSignedVaultWithdrawalIntent i => intent_answer (WithdrawalIntent i) l
  | AdvanceVaultMovement i =>
      match advanceVaultMovement EarnDemo.text_le "t2" i l with
      | Ok (r, l') => (Ok r, l')
      | Err e => (Err e, l)
      end
  | CreateProjectSponsorship _ _ _ => (Ok tt, l)
  | GetFeePayer => (Ok "sponsor", l)
  | SignAsFeePayer b => (Ok b, l)
  | BuildVaultDeposit _ _ => (Ok plan, l)
  | BuildVaultWithdrawal _ _ => (Err (PlainError "unexpected"), l)
  | AssertClusterEndpoint _ _ => (Ok tt, l)
  | FetchLookupTables _ _ => (Ok [], l)
  | GetRecentBlockhash _ => (Ok ("hash", 321), l)
  | CompileUnsigned _ => (Ok (mkTransaction [] []), l)
  | SimulateTransaction _ _ => (Ok (mkSimulation RNull []), l)
  | CreateSigner _ _ _ => (Ok "owner", l)
  | SignMessage who _ _ => (Ok (mkTransaction [84; 88] [(who, Some [1])]), l)
  | SendTransaction _ _ => (Ok tt, l)
  | ClaimUnsettledVaultMovements n =>
      match claimUnsettledVaultMovements EarnDemo.text_le "t3" n l with
      | Ok (r, l') => (Ok r, l')
      | Err e => (Err e, l)
      end
  | GetSignatureStatuses _ signatures => (Ok (map (fun _ => None) signatures), l)
  | GetBlockHeight _ => (Ok 400, l)
  | Now => (Ok 1000, l)
  | NowIso => (Ok "t4", l)
  end.

(** The demo environment answers as the ledger does. *)
Lemma answer_step c l r l' :
  ledger_sound EarnDemo.text_le l -> answer c l = (r, l') ->
  ledger_step EarnDemo.text_le l (Ev c r) l'.
Proof.
  intros Hs. assert (read_before EarnDemo.text_le l l) as Hr by (split; [done|by exists []]).
  unfold ledger_step. destruct c; cbn [answer ev_call ev_resp]; try (by intros [= <- <-]).
  - unfold intent_answer. destruct (create_intent _ _ _ _ _ l l) as [[x l1]|] eqn:E; intros [= <- <-];
      [by exists "t1", "pos", "mv", l|done].
  - unfold intent_answer. destruct (create_intent _ _ _ _ _ l l) as [[x l1]|] eqn:E; intros [= <- <-];
      [by exists "t1", "pos", "mv", l|done].
  - destruct (advanceVaultMovement _ _ i l) as [[x l1]|] eqn:E; intros [= <- <-]; [by exists "t2"|done].
  - destruct (claimUnsettledVaultMovements _ _ limit l) as [[x l1]|] eqn:E; intros [= <- <-]; [by exists "t3"|done].
Qed.

Lemma run_trace {A} (m : vault_prog A) : forall l tr res l',
  ledger_sound EarnDemo.text_le l -> run answer m l = (tr, res, l') ->
  ledger_trace EarnDemo.text_le l tr l'.
Proof.
  induction m as [a|e|c k IH]; intros l tr res l' Hs; cbn [run].
  - intros [= <- _ <-]. by exists [].
  - intros [= <- _ <-]. by exists [].
  - destruct (answer c l) as [r l1] eqn:Ea. apply answer_step in Ea; [|done].
    destruct (run answer (k r) l1) as [[tr1 res1] l2] eqn:Er. intros [= <- _ <-].
    exists [], l1. split; [done|]. eapply IH; [|exact Er]. by apply (step_kept _ _ _ _ Hs Ea).
Qed.

Definition demo : list vault_event * result IntentResult * EarnTables :=
  run answer (serve env request) EarnDemo.tables.

Definition trace : list vault_event := fst (fst demo).
Definition ledger : EarnTables := snd demo.

Lemma demo_trace : ledger_trace EarnDemo.text_le EarnDemo.tables trace ledger.
Proof.
  unfold trace, ledger. destruct demo as [[tr res] l'] eqn:E. cbn [fst snd].
  by apply (run_trace (serve env request) _ _ res); [apply EarnDemo.tables_sound|].
Qed.

(** The deposit is sent, once, and its movement is submitted. *)
Example demo_sends : sends trace = [[84; 88]].
Proof. vm_compute. reflexivity. Qed.

Example demo_rows :
  (fun m => (mv_status m, signed_transaction (facts m))) <$> movements ledger
  = [(mv_submitted, Some "TX")].
Proof. vm_compute. reflexivity. Qed.
End VaultDemo.

(** * Theorems *)

(** C12. A vault service records only what was approved and signed. In every run, when an
    intent is handed to the ledger, nothing was recorded or sent before it; the ledger
    had answered that the request was new; the plan is the builder's, asked for this
    request, followed by the request's memo, with the mints, the amount and the
    slippage floor the caller approved; its message, paid by the sponsor or the owner,
    passed a simulation; and the intent carries the bytes, within the packet limit,
    that custody, and the sponsor when it pays, signed over that same message. *)
Theorem recorded_intent_is_approved (K : VaultKit) env q :
  all_runs (serve env q) (fun tr _ =>
    forall pre w r post, tr = pre ++ intent_event w r :: post ->
      prepares pre /\ find_event q (Ok None) ∈ pre
      /\ exists i build s, approved env pre q i build /\ w = build s /\ signed_as_simulated i s pre).
Proof.
  eapply all_runs_mono; [|apply served_runs]. intros tr res H pre w r post E.
  destruct (served_intent _ _ _ _ _ _ _ _ H E) as (i & v & s & Hp & Ha & Hs & Hf & Hw & _).
  split; [done|]. split; [done|]. by exists i, v, s.
Qed.

(** A vault service broadcasts at most once, and never before recording. In every
    run, a transaction is sent to the cluster of the request's environment, after the
    ledger recorded an intent for this request that carries those very bytes and was
    not a replay; and no other transaction is sent, before or after, whatever failed. *)
Theorem broadcast_follows_record (K : VaultKit) env q :
  all_runs (serve env q) (fun tr _ =>
    forall pre url b a post, tr = pre ++ Ev (R := vault_answer) (SendTransaction url b) a :: post ->
      url = resolveClusterRpcUrl env (earnClusterFor (request_environment q))
      /\ sends pre = [] /\ sends post = []
      /\ exists w r, intent_event w (Ok r) ∈ pre /\ replayed r = false
           /\ intent_transaction w = to_base64 b
           /\ intent_organization w = request_organization q /\ intent_request w = request_key q).
Proof.
  eapply all_runs_mono; [|apply served_runs]. intros tr res H pre url b a post E.
  destruct (served_send _ _ _ _ _ _ _ _ _ H E)
    as (P & i & v & s & r & mid & Hp & Ha & _ & -> & Hm & Hr & -> & -> & Hpost).
  destruct (approved_intent env P q i v s Ha) as (H1 & H2 & H3 & _ & _ & H6).
  split; [done|]. split; [|split].
  - unfold sends. rewrite flat_map_app, prepares_sends by done. cbn [flat_map app].
    fold (sends mid). rewrite prepares_sends by done. by destruct (v s).
  - destruct a as [[]|err]; [|by destruct Hpost as [-> _]]. by destruct Hpost.
  - exists (v s), r. split; [rewrite elem_of_app, elem_of_cons; auto|]. done.
Qed.

(** What a recorded intent is worth. In every run, once the ledger answered an intent:
    a replay ends the run with that answer; otherwise nothing that fails before the
    network accepted the bytes fails the run - it returns the recorded movement, left
    for the reconciler - and the movement is advanced only to submitted, itself, and
    only after the network accepted them. *)
Theorem recorded_intent_is_answered (K : VaultKit) env q :
  all_runs (serve env q) (fun tr res =>
    forall pre w r post, tr = pre ++ intent_event w (Ok r) :: post ->
      if replayed r then post = [] /\ res = Ok r
      else
        ((forall url b, Ev (R := vault_answer) (SendTransaction url b) (Ok tt) ∉ post) -> res = Ok r)
        /\ forall i a before after,
             post = before ++ Ev (R := vault_answer) (AdvanceVaultMovement i) a :: after ->
             i = submit_input (mv_id (facts (result_movement r))) (request_organization q)
             /\ exists url b, Ev (R := vault_answer) (SendTransaction url b) (Ok tt) ∈ before
                  /\ intent_transaction w = to_base64 b).
Proof.
  eapply all_runs_mono; [|apply served_runs]. intros tr res H pre w r post E.
  destruct (served_intent _ _ _ _ _ _ _ _ H E) as (i & v & s & _ & Ha & _ & _ & -> & Hd).
  destruct (approved_intent env pre q i v s Ha) as (_ & _ & H3 & _ & H5 & _).
  destruct (replayed r) eqn:Er.
  { inversion Hd; subst; [done|congruence..]. }
  split.
  - intros Hno. destruct Hd as [| | |P X res0 Hr Hp Hs]; [done..|].
    destruct (Hno (ex_rpcUrl i) (signed_bytes s)). rewrite elem_of_app, elem_of_cons. auto.
  - intros j a before after Ep. destruct (delivery_effect _ _ _ _ _ _ _ _ Hd Ep) as (_ & Hc);
      [cbn; tauto|].
    destruct Hc as [(err & Ee & _)|[(Ee & _)|(pre' & x & Ee & -> & _)]]; [done..|].
    apply (f_equal ev_call) in Ee. injection Ee as ->. split; [by rewrite H5|].
    exists (ex_rpcUrl i), (signed_bytes s). split; [|done].
    rewrite elem_of_app, list_elem_of_singleton. auto.
Qed.

(** C8. No signed transaction reaches the network unless the ledger can account for it.
    Over a sound ledger that other callers use between any two calls of a run, and
    whose calls may fail, at the moment a run sends a transaction the ledger is sound
    and holds a movement of the request with that transaction and its signature; and
    whatever happens next, it holds it for ever. *)
Theorem broadcast_is_on_the_ledger (K : VaultKit) text_le env q l :
  ledger_sound text_le l ->
  all_runs (serve env q) (fun tr _ =>
    forall pre url b a post l1 ops,
      tr = pre ++ Ev (R := vault_answer) (SendTransaction url b) a :: post ->
      ledger_trace text_le l pre l1 ->
      ledger_sound text_le (earn_history text_le ops l1)
      /\ exists m, m ∈ movements (earn_history text_le ops l1)
           /\ signed_transaction (facts m) = Some (to_base64 b)
           /\ is_Some (mv_signature (facts m))
           /\ same_vault_request (request_organization q) (request_key q) m = true).
Proof.
  intros Hs. eapply all_runs_mono; [|apply served_runs].
  intros tr res H pre url b a post l1 ops E Ht.
  destruct (served_send _ _ _ _ _ _ _ _ _ H E)
    as (P & i & v & s & r & mid & Hp & Ha & _ & -> & Hm & Hr & -> & -> & _).
  destruct (approved_intent env P q i v s Ha) as (H1 & H2 & H3 & H4 & _).
  destruct (trace_elem text_le l _ l1 (intent_event (v s) (Ok r)) Hs Ht)
    as (la & lb & Ka & Hstep & Kb & Kc); [rewrite elem_of_app, elem_of_cons; auto|].
  apply intent_on_ledger in Hstep as (Hon & Hq & Hrec); [|apply Ka].
  destruct (Hrec Hr) as [Htx Hsig].
  assert (kept text_le lb (earn_history text_le ops l1)) as Kd
    by (eapply kept_trans; [exact Kc|apply history_kept, Kc]).
  split; [apply Kd|]. destruct (on_ledger_kept _ _ _ _ Kd Hon) as (m & Hin & Ef). exists m.
  rewrite H1, H2 in Hq. rewrite H3 in Htx. unfold same_vault_request, is_vault in *.
  rewrite Ef, Hsig. split_and!; [done..|by eexists|done].
Qed.

Lemma broadcast_is_on_the_ledger_witness :
  exists pre post l1,
    VaultDemo.trace
      = pre ++ Ev (R := vault_answer) (SendTransaction "https://rpc" [84; 88]) (Ok tt) :: post
    /\ ledger_trace EarnDemo.text_le EarnDemo.tables pre l1
    /\ exists m, m ∈ movements l1 /\ signed_transaction (facts m) = Some "TX".
Proof.
  pose proof (broadcast_is_on_the_ledger KitDemo.kit EarnDemo.text_le VaultDemo.env
                VaultDemo.request EarnDemo.tables EarnDemo.tables_sound) as H.
  apply (run_all_runs VaultDemo.answer _ EarnDemo.tables) in H. fold VaultDemo.demo in H.
  pose proof VaultDemo.demo_trace as Ht. unfold VaultDemo.trace in *.
  destruct VaultDemo.demo as [[tr res] l'] eqn:Ed. cbn [fst] in *.
  assert (tr = take 34 tr ++ Ev (R := vault_answer) (SendTransaction "https://rpc" [84; 88]) (Ok tt)
                 :: drop 35 tr) as E.
  { apply (f_equal (fun x => fst (fst x))) in Ed. cbn [fst] in Ed. subst tr. vm_compute. reflexivity. }
  rewrite E in Ht. apply trace_app in Ht as (l1 & Hpre & _).
  exists (take 34 tr), (drop 35 tr), l1. split; [exact E|]. split; [exact Hpre|].
  destruct (H _ _ _ _ _ l1 [] E Hpre) as (_ & m & Hm & Htx & _). exists m. split; [exact Hm|exact Htx].
Defined.

(** C32. A vault service answers with the ledger's movement. Over a sound ledger shared with
    other callers, a run that returns - a fresh movement, a replay, one that lost a race
    for the request or one whose submission another process recorded - returns a
    movement of the request that is on the ledger. *)
Theorem served_movement_is_on_the_ledger (K : VaultKit) text_le env q l :
  ledger_sound text_le l ->
  all_runs (serve env q) (fun tr res =>
    forall l' r, ledger_trace text_le l tr l' -> res = Ok r ->
      ledger_sound text_le l'
      /\ same_vault_request (request_organization q) (request_key q) (result_movement r) = true
      /\ exists m, m ∈ movements l' /\ facts m = facts (result_movement r)).
Proof.
  intros Hs. eapply all_runs_mono; [|apply served_runs]. intros tr res H l' r Ht ->.
  split; [apply (trace_kept text_le _ _ _ Hs Ht)|].
  apply served_success in H as [(m & p & -> & ->)|(pre & i & v & s & r0 & post & -> & Ha & Hd)].
  - destruct (trace_elem text_le l _ l' (find_event q (Ok (Some m))) Hs Ht)
      as (la & lb & Ka & [E ->] & _ & Kc); [by left|].
    symmetry in E. apply find_elem in E as [Hm Hq]. split; [done|].
    apply (on_ledger_kept text_le la); [done|]. by exists m.
  - destruct (approved_intent env pre q i v s Ha) as (H1 & H2 & _).
    apply trace_app in Ht as (lm & Hpre & (ops & l2 & Hstep & Hpost)).
    pose proof (trace_kept _ _ _ _ Hs Hpre) as K1.
    pose proof (history_kept text_le ops lm (proj1 K1)) as K2.
    apply intent_on_ledger in Hstep as Hi; [|apply K2]. destruct Hi as (Hon & Hq & _).
    pose proof (step_kept text_le _ _ _ (proj1 K2) Hstep) as K3.
    pose proof (answered_facts text_le i r0 post r l2 l' (proj1 K3) Hon Hpost
      (delivery_answer _ _ _ _ _ Hd r eq_refl)) as Ef.
    rewrite H1, H2 in Hq. unfold same_vault_request, is_vault in *. rewrite Ef. split; [done|].
    apply (on_ledger_kept text_le l2); [apply (trace_kept text_le _ _ _ (proj1 K3) Hpost)|done].
Qed.

Lemma served_movement_is_on_the_ledger_witness :
  exists r, snd (fst VaultDemo.demo) = Ok r
    /\ exists m, m ∈ movements VaultDemo.ledger /\ facts m = facts (result_movement r).
Proof.
  pose proof (served_movement_is_on_the_ledger KitDemo.kit EarnDemo.text_le VaultDemo.env
                VaultDemo.request EarnDemo.tables EarnDemo.tables_sound) as H.
  apply (run_all_runs VaultDemo.answer _ EarnDemo.tables) in H. fold VaultDemo.demo in H.
  pose proof VaultDemo.demo_trace as Ht. unfold VaultDemo.trace, VaultDemo.ledger in *.
  destruct VaultDemo.demo as [[tr res] l'] eqn:Ed. cbn [fst snd] in *.
  destruct res as [r|e]; [|apply (f_equal (fun x => snd (fst x))) in Ed; vm_compute in Ed; discriminate].
  exists r. split; [reflexivity|]. destruct (H l' r Ht eq_refl) as (_ & _ & Hm). exact Hm.
Defined.
