(* ===== verification/EarnReconcile.v ===== *)
(** * Earn: the vault reconciler

    [apps/sdp-api/src/services/jobs/reconcile-earn-vault-movements.ts]: the sweep that
    brings every recorded signed transaction to its outcome, as a program over the
    calls of EarnExecution.v, and what each of its writes rests on. Logging is left
    out. *)
From Stdlib Require Import Ascii String ZArith Lia.
From stdpp Require Import base list strings.
From S2P Require Import Prelude Text PolicyTypes EarnLedger EarnInvariant EarnMethods EarnExecution EarnSafety.

Local Open Scope string_scope.
Local Open Scope Z_scope.
Local Open Scope list_scope.
Local Open Scope sdp_scope.

Definition OUTBOX_BATCH_SIZE : Z := 256.

(** A [Map] from environments to their rows, in the order of first appearance. *)
Fixpoint push_row (m : EarnMovementRow) (groups : list (SdpEnvironment * list EarnMovementRow))
    : list (SdpEnvironment * list EarnMovementRow) :=
  match groups with
  | [] => [(mv_environment (facts m), [m])]
  | (e, rows) :: rest =>
      if bool_decide (e = mv_environment (facts m)) then (e, rows ++ [m]) :: rest
      else (e, rows) :: push_row m rest
  end.

Definition groupByEnvironment (ms : list EarnMovementRow)
    : list (SdpEnvironment * list EarnMovementRow) :=
  fold_left (fun groups m => push_row m groups) ms [].

Definition advanceTransaction (m : EarnMovementRow) (toStatus : EarnMovementStatus)
    (failureReason confirmedAt settledAt : option (option string)) : vault_prog unit :=
  ask (AdvanceVaultMovement (mkAdvance (mv_id (facts m)) (mv_organization_id (facts m)) toStatus None
         failureReason confirmedAt settledAt)) ;;; Ret tt.

Definition failMovement (m : EarnMovementRow) (reason : string) : vault_prog unit :=
  advanceTransaction m mv_failed (Some (Some reason)) None None.

Definition markSubmitted (m : EarnMovementRow) : vault_prog unit :=
  if negb (bool_decide (mv_status m = mv_requested)) then Ret tt
  else advanceTransaction m mv_submitted None None None.

Record chain_reading := mkChain {
  ch_cluster : SolanaCluster;
  ch_rpcUrl : string;
  currentBlockHeight : option Z;
}.

Section Kit.
Context {K : VaultKit}.

Definition reconcileMovement (m : EarnMovementRow) (status : option SignatureStatusInfo)
    (chain : chain_reading) : vault_prog unit :=
  match status with
  | Some s =>
      if truthy_value (st_err s) then
        let! reason := of_result (json_stringify (st_err s)) in failMovement m reason
      else
        match confirmationStatus s with
        | Some finalized =>
            let! observedAt := ask NowIso in
            advanceTransaction m mv_finalized None (Some (Some observedAt)) (Some (Some observedAt))
        | Some confirmed =>
            if bool_decide (mv_status m = mv_confirmed) then Ret tt
            else
              let! observedAt := ask NowIso in
              advanceTransaction m mv_confirmed None (Some (Some observedAt)) None
        | _ => markSubmitted m
        end
  | None =>
      if bool_decide (mv_status m = mv_confirmed) then Ret tt
      else
        match signed_transaction (facts m), last_valid_block_height (facts m) with
        | Some signedTransaction, Some lastValidBlockHeight =>
            match currentBlockHeight chain with
            | Some height =>
                if lastValidBlockHeight <? height then
                  failMovement m "Transaction blockhash expired before confirmation"
                else
                  let! deadline := createVaultDeadline VAULT_EXTERNAL_CALL_TIMEOUT_MS in
                  broadcastVaultTransaction (ch_cluster chain) deadline (of_base64 signedTransaction)
                    (ch_rpcUrl chain) ;;;
                  markSubmitted m
            | None => Ret tt
            end
        | _, _ => Throw (PlainError ("Earn vault movement " ++ mv_id (facts m)
                     ++ " is missing the signed transaction it must be reconciled from"))
        end
  end.

Definition isMissing (s : option SignatureStatusInfo) : bool :=
  match s with None => true | Some _ => false end.

(** [await read()], or [null] when it throws. *)
Definition or_null_on_error {A} (m : vault_prog A) : vault_prog (option A) :=
  catch (let! a := m in Ret (Some a)) (fun _ => Ret None).

Definition reconcileEnvironment (env : Env) (environment : SdpEnvironment)
    (rows : list EarnMovementRow) : vault_prog unit :=
  let cluster := earnClusterFor environment in
  let rpcUrl := resolveClusterRpcUrl env cluster in
  let! read := or_null_on_error
    (ask (AssertClusterEndpoint cluster rpcUrl) ;;;
     ask (GetSignatureStatuses rpcUrl (map (fun m => mv_signature (facts m)) rows))) in
  match read with
  | None => Ret tt
  | Some statuses =>
      let! height := if existsb isMissing statuses then or_null_on_error (ask (GetBlockHeight rpcUrl))
                     else Ret None in
      for_each (fun '(index, m) =>
        catch (reconcileMovement m (mjoin (statuses !! index)) (mkChain cluster rpcUrl height))
              (fun _ => Ret tt))
        (combine (seq 0 (length rows)) rows)
  end.

Definition reconcileEarnVaultMovements (env : Env) : vault_prog unit :=
  let! movements := ask (ClaimUnsettledVaultMovements OUTBOX_BATCH_SIZE) in
  for_each (fun '(environment, rows) => reconcileEnvironment env environment rows)
    (groupByEnvironment movements).

(** ** What a write rests on *)

(** What was read of a movement before a call: the batch it was claimed in, and the
    chain's answer about its signature. *)
Definition read_of (env : Env) (prior : list vault_event) (m : EarnMovementRow)
    (status : option SignatureStatusInfo) : Prop :=
  let url := resolveClusterRpcUrl env (earnClusterFor (mv_environment (facts m))) in
  exists rows signatures statuses k,
    Ev (R := vault_answer) (ClaimUnsettledVaultMovements OUTBOX_BATCH_SIZE) (Ok rows) ∈ prior
    /\ m ∈ rows
    /\ Ev (R := vault_answer) (GetSignatureStatuses url signatures) (Ok statuses) ∈ prior
    /\ signatures !! k = Some (mv_signature (facts m))
    /\ status = mjoin (statuses !! k).

(** The last height the movement's blockhash allows, against the height read. *)
Definition height_read (env : Env) (prior : list vault_event) (m : EarnMovementRow) (last height : Z)
    : Prop :=
  let url := resolveClusterRpcUrl env (earnClusterFor (mv_environment (facts m))) in
  last_valid_block_height (facts m) = Some last
  /\ Ev (R := vault_answer) (GetBlockHeight url) (Ok height) ∈ prior.

Definition no_error (s : SignatureStatusInfo) : Prop := truthy_value (st_err s) = false.

(** What each target rests on. *)
Inductive justified (env : Env) (prior : list vault_event) (m : EarnMovementRow)
    : option SignatureStatusInfo -> AdvanceVaultMovementInput -> Prop :=
| failed_on_chain s reason :
    truthy_value (st_err s) = true -> json_stringify (st_err s) = Ok reason ->
    justified env prior m (Some s)
      (mkAdvance (mv_id (facts m)) (mv_organization_id (facts m)) mv_failed None
         (Some (Some reason)) None None)
| blockhash_expired last height :
    mv_status m <> mv_confirmed -> height_read env prior m last height -> last < height ->
    justified env prior m None
      (mkAdvance (mv_id (facts m)) (mv_organization_id (facts m)) mv_failed None
         (Some (Some "Transaction blockhash expired before confirmation")) None None)
| finalized_on_chain s t :
    no_error s -> confirmationStatus s = Some finalized ->
    Ev (R := vault_answer) NowIso (Ok t) ∈ prior ->
    justified env prior m (Some s)
      (mkAdvance (mv_id (facts m)) (mv_organization_id (facts m)) mv_finalized None None
         (Some (Some t)) (Some (Some t)))
| confirmed_on_chain s t :
    no_error s -> confirmationStatus s = Some confirmed -> mv_status m <> mv_confirmed ->
    Ev (R := vault_answer) NowIso (Ok t) ∈ prior ->
    justified env prior m (Some s)
      (mkAdvance (mv_id (facts m)) (mv_organization_id (facts m)) mv_confirmed None None
         (Some (Some t)) None)
| seen_on_chain s :
    no_error s -> confirmationStatus s <> Some finalized -> confirmationStatus s <> Some confirmed ->
    mv_status m = mv_requested ->
    justified env prior m (Some s)
      (mkAdvance (mv_id (facts m)) (mv_organization_id (facts m)) mv_submitted None None None None)
| sent_again url b tx :
    mv_status m = mv_requested -> signed_transaction (facts m) = Some tx -> b = of_base64 tx ->
    Ev (R := vault_answer) (SendTransaction url b) (Ok tt) ∈ prior ->
    justified env prior m None
      (mkAdvance (mv_id (facts m)) (mv_organization_id (facts m)) mv_submitted None None None None).

(** An advance is of a claimed movement and rests on what was read of it; a transaction
    sent is the recorded one of a claimed movement the chain does not know, is not
    known to have landed, and whose blockhash can still land. *)
Definition accountable (env : Env) (prior : list vault_event) (e : vault_event) : Prop :=
  match ev_call e with
  | AdvanceVaultMovement i =>
      exists m status, read_of env prior m status /\ justified env prior m status i
  | SendTransaction url b =>
      exists m last height tx, read_of env prior m None /\ mv_status m <> mv_confirmed
        /\ url = resolveClusterRpcUrl env (earnClusterFor (mv_environment (facts m)))
        /\ signed_transaction (facts m) = Some tx /\ b = of_base64 tx
        /\ height_read env prior m last height /\ height <= last
  | CreateSignedVaultDepositIntent _ | CreateSignedVaultWithdrawalIntent _ => False
  | _ => True
  end.
End Kit.

(** * Lemmas *)

(** ** The writes of one movement *)

Section Accountable.
Context {K : VaultKit} (env : Env).

Lemma read_of_before prior tr m status : read_of env prior m status -> read_of env (prior ++ tr) m status.
Proof.
  intros (rows & sigs & statuses & k & H1 & H2 & H3 & H4 & H5).
  exists rows, sigs, statuses, k. rewrite !elem_of_app. auto.
Qed.

Lemma advance_guarded prior m status to failure confirmed_ settled :
  read_of env prior m status ->
  justified env prior m status
    (mkAdvance (mv_id (facts m)) (mv_organization_id (facts m)) to None failure confirmed_ settled) ->
  guarded (accountable env) prior (advanceTransaction m to failure confirmed_ settled).
Proof.
  intros Hr Hj. unfold advanceTransaction.
  apply guarded_any; [|intros; apply guarded_ret].
  apply guarded_call. intros r. by exists m, status.
Qed.

Lemma submitted_guarded prior m status :
  read_of env prior m status ->
  (mv_status m = mv_requested ->
     justified env prior m status
       (mkAdvance (mv_id (facts m)) (mv_organization_id (facts m)) mv_submitted None None None None)) ->
  guarded (accountable env) prior (markSubmitted m).
Proof.
  intros Hr Hj. unfold markSubmitted.
  destruct (bool_decide_reflect (mv_status m = mv_requested)) as [E|E]; cbn [negb];
    [|apply guarded_ret].
  by apply (advance_guarded _ _ status), Hj.
Qed.

Lemma ask_answers c : yields (ask c) (fun tr a => tr = [Ev (R := vault_answer) c (Ok a)]).
Proof. by apply yields_call. Qed.

Lemma ask_guarded prior c : preparing c -> guarded (accountable env) prior (ask c).
Proof. intros H. apply guarded_call. intros r. by destruct c. Qed.

Lemma observed_guarded prior m s to settled :
  read_of env prior m (Some s) ->
  (forall t, Ev (R := vault_answer) NowIso (Ok t) ∈ prior ++ [Ev (R := vault_answer) NowIso (Ok t)] ->
     justified env (prior ++ [Ev (R := vault_answer) NowIso (Ok t)]) m (Some s)
       (mkAdvance (mv_id (facts m)) (mv_organization_id (facts m)) to None None (Some (Some t))
          (settled t))) ->
  guarded (accountable env) prior
    (let! observedAt := ask NowIso in
     advanceTransaction m to None (Some (Some observedAt)) (settled observedAt)).
Proof.
  intros Hr Hj. eapply guarded_bind; [by apply ask_guarded|apply ask_answers|]. intros tr t ->.
  apply (advance_guarded _ _ (Some s)); [by apply read_of_before|]. apply Hj.
  rewrite elem_of_app, list_elem_of_singleton. by right.
Qed.

Lemma broadcast_yields cluster d b url :
  yields (broadcastVaultTransaction cluster d b url)
    (fun tr _ => Ev (R := vault_answer) (SendTransaction url b) (Ok tt) ∈ tr).
Proof.
  unfold broadcastVaultTransaction. apply yields_any. intros [] tr0.
  pose proof (deadline_yields d "Broadcasting the vault transaction" (SendTransaction url b)) as H.
  eapply yields_mono; [|exact H]. intros tr [] Hs. apply elem_of_app. by right.
Qed.

(** What the deadline wraps is sent only if what came before allows it. *)
Lemma broadcast_guarded prior cluster d b url :
  (forall prior', accountable env (prior ++ prior') (Ev (R := vault_answer) (SendTransaction url b) (Ok tt))) ->
  guarded (accountable env) prior (broadcastVaultTransaction cluster d b url).
Proof.
  intros Hsend. unfold broadcastVaultTransaction, verifyVaultRpc, deadline_run at 2, assertActive.
  assert (forall p (e : vault_event), preparing (ev_call e) -> accountable env p e) as Hprep
    by (by intros p [[] r]).
  apply guarded_any; [by apply (calls_unguarded _ preparing); [prepared|]|]. intros tr [].
  apply guarded_any.
  - apply (calls_unguarded _ preparing); [|by apply Hprep]. prepared. destruct (_ <=? _); prepared.
  - intros tr1 []. apply guarded_any; [by apply ask_guarded|]. intros tr2 now.
    apply (guarded_call (R := vault_answer) (accountable env) _ (SendTransaction url b)). intros r. rewrite <- !app_assoc. apply Hsend.
Qed.

Lemma no_error_spec s : truthy_value (st_err s) = false -> no_error s.
Proof. done. Qed.

Lemma movement_guarded prior m status chain :
  read_of env prior m status ->
  ch_rpcUrl chain = resolveClusterRpcUrl env (earnClusterFor (mv_environment (facts m))) ->
  (forall h, currentBlockHeight chain = Some h ->
     Ev (R := vault_answer) (GetBlockHeight (ch_rpcUrl chain)) (Ok h) ∈ prior) ->
  guarded (accountable env) prior (reconcileMovement m status chain).
Proof.
  intros Hr Hurl Hh. destruct chain as [cluster url height]. cbn [ch_rpcUrl currentBlockHeight ch_cluster] in *.
  subst url. destruct status as [s|]; cbn [reconcileMovement].
  - destruct (truthy_value (st_err s)) eqn:He.
    { destruct (json_stringify (st_err s)) as [reason|e] eqn:Ej; cbn [of_result bind];
        [|apply guarded_throw]. apply (advance_guarded _ _ (Some s)); [done|]. by apply failed_on_chain. }
    destruct (confirmationStatus s) as [[]|] eqn:Ec.
    + apply (submitted_guarded _ _ (Some s)); [done|]. intros. by apply seen_on_chain; rewrite ?Ec.
    + destruct (bool_decide_reflect (mv_status m = mv_confirmed)); [apply guarded_ret|].
      apply (observed_guarded prior m s mv_confirmed (fun _ => None)); [done|]. intros. by apply confirmed_on_chain.
    + apply (observed_guarded prior m s mv_finalized (fun t => Some (Some t))); [done|].
      intros. by apply finalized_on_chain.
    + apply (submitted_guarded _ _ (Some s)); [done|]. intros. by apply seen_on_chain; rewrite ?Ec.
  - destruct (bool_decide_reflect (mv_status m = mv_confirmed)) as [|Hc]; [apply guarded_ret|].
    destruct (signed_transaction (facts m)) as [tx|] eqn:Etx; [|apply guarded_throw].
    destruct (last_valid_block_height (facts m)) as [last|] eqn:El; [|apply guarded_throw].
    destruct height as [h|]; [|apply guarded_ret]. specialize (Hh h eq_refl).
    cbn [ch_rpcUrl currentBlockHeight ch_cluster].
    destruct (Z.ltb_spec last h) as [Hlt|Hge].
    { apply (advance_guarded _ _ None); [done|]. by apply (blockhash_expired _ _ _ last h). }
    apply guarded_any.
    { apply (calls_unguarded _ preparing); [|by intros p [[] r]]. unfold createVaultDeadline. prepared. }
    intros tr d. eapply guarded_bind.
    { apply broadcast_guarded. intros prior'. exists m, last, h, tx. rewrite <- app_assoc.
      split; [by apply read_of_before|]. split; [done|]. split; [done|]. split; [done|]. split; [done|].
      split; [|done]. split; [done|]. apply elem_of_app. by left. }
    { apply broadcast_yields. }
    intros tr1 [] Hs. apply (submitted_guarded _ _ None); [by repeat apply read_of_before|].
    intros. eapply sent_again; [done|done|done|]. rewrite !elem_of_app. by right.
Qed.

(** ** The sweep *)

Lemma push_row_elem m groups e rows x :
  (e, rows) ∈ push_row m groups -> x ∈ rows ->
  (x = m /\ e = mv_environment (facts m)) \/ exists rows', (e, rows') ∈ groups /\ x ∈ rows'.
Proof.
  induction groups as [|[e' rows'] groups IH]; cbn [push_row].
  - intros H%list_elem_of_singleton. injection H as -> ->. rewrite list_elem_of_singleton. by left.
  - destruct (bool_decide_reflect (e' = mv_environment (facts m))) as [E|E]; rewrite elem_of_cons.
    + intros [H|H] Hx; [injection H as -> ->|right; exists rows; rewrite elem_of_cons; auto].
      apply elem_of_app in Hx as [Hx|Hx%list_elem_of_singleton]; [|by left].
      right. exists rows'. rewrite elem_of_cons. auto.
    + intros [H|H] Hx; [injection H as -> ->; right; exists rows'; rewrite elem_of_cons; auto|].
      destruct (IH H Hx) as [?|(r & Hr & Hxr)]; [by left|]. right. exists r. rewrite elem_of_cons. auto.
Qed.

Lemma group_elem ms : forall groups e rows x,
  (e, rows) ∈ fold_left (fun groups m => push_row m groups) ms groups -> x ∈ rows ->
  (x ∈ ms /\ e = mv_environment (facts x)) \/ exists rows', (e, rows') ∈ groups /\ x ∈ rows'.
Proof.
  induction ms as [|m ms IH]; intros groups e rows x; cbn [fold_left]; [right; by exists rows|].
  intros H Hx. rewrite elem_of_cons. destruct (IH _ _ _ _ H Hx) as [[Hm He]|(r & Hr & Hxr)]; [auto|].
  destruct (push_row_elem _ _ _ _ _ Hr Hxr) as [[-> ->]|?]; auto.
Qed.

Lemma grouped_rows ms e rows x :
  (e, rows) ∈ groupByEnvironment ms -> x ∈ rows -> x ∈ ms /\ e = mv_environment (facts x).
Proof. intros H Hx. destruct (group_elem _ _ _ _ _ H Hx) as [?|(r & Hr%elem_of_nil & _)]; done. Qed.

Lemma indexed_from {A} (rows : list A) k x : forall i,
  (k, x) ∈ combine (seq i (length rows)) rows -> (i <= k)%nat /\ rows !! (k - i)%nat = Some x.
Proof.
  induction rows as [|y rows IH]; intros i; cbn [length seq combine]; [by intros ?%elem_of_nil|].
  rewrite elem_of_cons. intros [H|H].
  - injection H as -> ->. by rewrite Nat.sub_diag.
  - apply IH in H as [Hle H]. split; [lia|]. by replace (k - i)%nat with (S (k - S i)) by lia.
Qed.

Lemma indexed_row {A} (rows : list A) k x :
  (k, x) ∈ combine (seq 0 (length rows)) rows -> rows !! k = Some x.
Proof. intros [_ H]%indexed_from. by rewrite Nat.sub_0_r in H. Qed.

Lemma or_null_yields {A} (m : vault_prog A) (Q : list vault_event -> A -> Prop) :
  yields m Q -> yields (or_null_on_error m) (fun tr o => forall a, o = Some a -> Q tr a).
Proof.
  intros H. unfold yields, or_null_on_error. rewrite all_runs_catch, all_runs_bind.
  eapply all_runs_mono; [|exact H]. intros tr [a|e] Hq; cbn [all_runs]; [|by intros o [= <-] b].
  intros o [= <-] b [= <-]. rewrite app_nil_r. by apply Hq.
Qed.

Lemma or_null_guarded {A} prior (m : vault_prog A) :
  guarded (accountable env) prior m -> guarded (accountable env) prior (or_null_on_error m).
Proof.
  intros H. apply guarded_catch; [|intros; apply guarded_ret].
  apply guarded_any; [done|intros; apply guarded_ret].
Qed.

Lemma environment_guarded prior e rows claimed :
  Ev (R := vault_answer) (ClaimUnsettledVaultMovements OUTBOX_BATCH_SIZE) (Ok claimed) ∈ prior ->
  (forall m, m ∈ rows -> m ∈ claimed /\ e = mv_environment (facts m)) ->
  guarded (accountable env) prior (reconcileEnvironment env e rows).
Proof.
  intros Hclaim Hrows. unfold reconcileEnvironment.
  set (url := resolveClusterRpcUrl env (earnClusterFor e)).
  set (signatures := map (fun m => mv_signature (facts m)) rows).
  eapply guarded_bind with (Y := fun tr o => forall statuses, o = Some statuses ->
    Ev (R := vault_answer) (GetSignatureStatuses url signatures) (Ok statuses) ∈ tr).
  { apply or_null_guarded, guarded_any; [by apply ask_guarded|]. intros. by apply ask_guarded. }
  { apply or_null_yields, yields_any. intros [] tr.
    eapply yields_mono; [|apply ask_answers]. intros tr' statuses ->.
    rewrite elem_of_app, list_elem_of_singleton. by right. }
  intros tr [statuses|] Hs; [|apply guarded_ret]. specialize (Hs _ eq_refl).
  eapply guarded_bind with (Y := fun tr o => forall h, o = Some h ->
    Ev (R := vault_answer) (GetBlockHeight url) (Ok h) ∈ tr).
  { destruct (existsb isMissing statuses); [|apply guarded_ret].
    by apply or_null_guarded, ask_guarded. }
  { destruct (existsb isMissing statuses); [|by apply yields_ret]. apply or_null_yields.
    eapply yields_mono; [|apply ask_answers]. intros tr' h ->. by apply list_elem_of_singleton. }
  intros tr1 height Hh. apply guarded_for_each. intros [k m] tr2 Hm%indexed_row.
  apply guarded_catch; [|intros; apply guarded_ret].
  destruct (Hrows m) as [Hc ->]; [by eapply list_elem_of_lookup_2|].
  apply movement_guarded; [|done|].
  - exists claimed, signatures, statuses, k. rewrite !elem_of_app. split; [auto|]. split; [done|].
    split; [auto|]. split; [|done]. unfold signatures. rewrite list_lookup_fmap, Hm. done.
  - intros h E. rewrite !elem_of_app. left. right. by apply Hh.
Qed.

Lemma sweep_guarded : guarded (accountable env) [] (reconcileEarnVaultMovements env).
Proof.
  eapply guarded_bind; [by apply ask_guarded|apply ask_answers|]. intros tr claimed ->. cbn [app].
  apply guarded_for_each. intros [e rows] tr1 Hg.
  apply (environment_guarded _ e rows claimed); [rewrite elem_of_app, list_elem_of_singleton; by left|].
  intros m. by apply grouped_rows.
Qed.

(** The sweep survives everything but its claim. *)
Lemma all_runs_ok_for_each {A} (f : A -> vault_prog unit) xs :
  (forall x, x ∈ xs -> all_runs (f x) (fun _ res => res = Ok tt)) ->
  all_runs (for_each f xs) (fun _ res => res = Ok tt).
Proof.
  induction xs as [|x xs IH]; intros H; [done|]. cbn [for_each]. rewrite all_runs_bind.
  eapply all_runs_mono; [|apply H; by left]. intros tr res ->.
  eapply all_runs_mono; [|apply IH; intros; apply H; by right]. done.
Qed.

Lemma or_null_total {A} (m : vault_prog A) :
  all_runs (or_null_on_error m) (fun _ res => exists o, res = Ok o).
Proof.
  unfold or_null_on_error. rewrite all_runs_catch, all_runs_bind.
  eapply all_runs_mono; [|apply all_runs_true]. intros tr [a|e] _; cbn [all_runs]; by eexists.
Qed.

Lemma environment_total e rows :
  all_runs (reconcileEnvironment env e rows) (fun _ res => res = Ok tt).
Proof.
  unfold reconcileEnvironment. rewrite all_runs_bind.
  eapply all_runs_mono; [|apply or_null_total]. intros tr res [[statuses|] ->]; [|done].
  rewrite all_runs_bind. apply all_runs_mono with (Q1 := fun _ res => exists o, res = Ok o).
  - intros tr' res' [height ->]. eapply all_runs_mono; [|apply all_runs_ok_for_each].
    + intros tr2 res2 H. exact H.
    + intros [k m] _. rewrite all_runs_catch. eapply all_runs_mono; [|apply all_runs_true].
      by intros tr3 [[]|err] _.
  - destruct (existsb isMissing statuses); [apply or_null_total|]. cbn [all_runs]. by eexists.
Qed.
End Accountable.

(** ** Printing an error *)

Section Printing.

(** A bigint somewhere in the value. *)
Fixpoint has_bigint (v : rpc_value) : bool :=
  match v with
  | RBigInt _ => true
  | RArray items => existsb has_bigint items
  | RObject fields => existsb (fun kv => has_bigint (snd kv)) fields
  | _ => false
  end.

Lemma rpc_value_induction (P : rpc_value -> Prop) :
  P RNull -> (forall b, P (RBool b)) -> (forall n, P (RNumber n)) -> (forall n, P (RBigInt n)) ->
  (forall s, P (RString s)) -> (forall items, Forall P items -> P (RArray items)) ->
  (forall fields, Forall (fun kv => P (snd kv)) fields -> P (RObject fields)) -> forall v, P v.
Proof.
  intros H1 H2 H3 H4 H5 H6 H7. fix IH 1. intros [|b|n|n|s|items|fields]; [done|auto..| |].
  - apply H6. induction items; by constructor.
  - apply H7. induction fields; by constructor.
Qed.

Lemma map_result_ok {A B} (f : A -> result B) l :
  is_ok (map_result f l) = forallb (fun x => is_ok (f x)) l.
Proof.
  induction l as [|x l IH]; [done|]. cbn [map_result forallb]. rewrite <- IH.
  destruct (f x); [|done]. cbn [result_bind]. by destruct (map_result f l).
Qed.

Lemma forallb_negb {A} (p q : A -> bool) l :
  Forall (fun x => p x = negb (q x)) l -> forallb p l = negb (existsb q l).
Proof.
  induction 1 as [|x l Hx _ IH]; [done|]. cbn [forallb existsb]. by rewrite Hx, IH, negb_orb.
Qed.

Lemma is_ok_bind {A B} (r : result A) (f : A -> B) : is_ok (let? x := r in Ok (f x)) = is_ok r.
Proof. by destruct r. Qed.

(** Printing fails exactly when printing a bigint does and there is one. *)
Lemma print_value_ok bigint v :
  is_ok (print_value bigint v) = true \/ exists n, is_ok (bigint n) = false.
Proof.
  induction v as [|b|n|n|s|items IH|fields IH] using rpc_value_induction; try by left.
  - cbn [print_value]. rewrite is_ok_bind. destruct (is_ok (bigint n)) eqn:E; [by left|right; by exists n].
  - cbn [print_value]. rewrite is_ok_bind, map_result_ok.
    induction IH as [|x l [Hx|Hx] _ IH]; [by left| |by right]. cbn [forallb]. rewrite Hx. apply IH.
  - cbn [print_value]. rewrite is_ok_bind, map_result_ok.
    induction IH as [|x l [Hx|Hx] _ IH]; [by left| |by right]. cbn [forallb].
    rewrite is_ok_bind, Hx. apply IH.
Qed.

Lemma json_stringify_bigint_total v : is_ok (json_stringify_bigint v) = true.
Proof.
  unfold json_stringify_bigint. rewrite is_ok_bind.
  by destruct (print_value_ok (fun n => Ok (json_string (z_text n))) v) as [?|[n H]].
Qed.

Lemma json_stringify_ok v : is_ok (json_stringify v) = negb (has_bigint v).
Proof.
  unfold json_stringify. rewrite is_ok_bind. set (bigint := fun _ => _).
  induction v as [|b|n|n|s|items IH|fields IH] using rpc_value_induction; try done.
  - cbn [print_value has_bigint]. rewrite is_ok_bind, map_result_ok. by apply forallb_negb.
  - cbn [print_value has_bigint]. rewrite is_ok_bind, map_result_ok. apply forallb_negb.
    eapply Forall_impl; [exact IH|]. intros kv E. by rewrite is_ok_bind.
Qed.
End Printing.

(** * Theorems *)

(** C33. The reconciler writes only what the chain's answers justify. In every run it
    claims one batch; a claim that fails is the only failure of the run; and each
    advance it asks for, of a movement of the batch, rests on what was read of that
    movement's own signature, on its own cluster, earlier in the run: failed on the
    chain's error, or on no status and a height past its blockhash; finalized and
    confirmed on that status, with the time of the observation; submitted on any
    sighting, or on a re-broadcast that was accepted. It sends nothing but the recorded
    transaction of a movement without a status, never seen confirmed, whose blockhash
    the height read still allows; and it records no movement. *)
Theorem vault_reconcile_is_justified (K : VaultKit) env :
  all_runs (reconcileEarnVaultMovements env) (fun tr res =>
    (forall pre e post, tr = pre ++ e :: post -> accountable env pre e)
    /\ (res = Ok tt \/ exists e,
          tr = [Ev (R := vault_answer) (ClaimUnsettledVaultMovements OUTBOX_BATCH_SIZE) (Err e)]
          /\ res = Err e)).
Proof.
  apply all_runs_and; [exact (sweep_guarded env)|].
  intros [rows|e]; cbn [bind all_runs]; [|right; by exists e].
  eapply all_runs_mono; [|apply all_runs_ok_for_each]; [by intros tr res ->; left|].
  intros [e rs] _. apply environment_total.
Qed.

(** A failure the reconciler cannot print is never recorded. Whatever the movement and
    the height, a status whose error holds a bigint stops the movement's turn with a
    TypeError before any call: it is neither failed nor advanced, in this sweep or a
    later one that reads the same status; the printer the simulation uses for the same
    kind of value would have printed it. *)
Theorem bigint_error_is_never_recorded (K : VaultKit) m s chain :
  truthy_value (st_err s) = true -> has_bigint (st_err s) = true ->
  is_ok (json_stringify_bigint (st_err s)) = true
  /\ exists e, reconcileMovement m (Some s) chain = Throw e.
Proof.
  intros He Hb. split; [apply json_stringify_bigint_total|].
  pose proof (json_stringify_ok (st_err s)) as Hok. rewrite Hb in Hok.
  cbn [reconcileMovement]. rewrite He. destruct (json_stringify (st_err s)) as [|e]; [done|].
  by exists e.
Qed.

Lemma bigint_error_is_never_recorded_witness :
  let err := RObject [("InstructionError", RArray [RBigInt 0; RObject [("Custom", RBigInt 6001)]])] in
  exists e, reconcileMovement (K := KitDemo.kit)
      (inserted "t1" (deposit_facts "t1" "mv" EarnDemo.deposit_intent "pos") [])
      (Some (mkStatus err (Some finalized))) (mkChain devnet "https://rpc" (Some 400)) = Throw e.
Proof.
  intros err.
  destruct (bigint_error_is_never_recorded KitDemo.kit
    (inserted "t1" (deposit_facts "t1" "mv" EarnDemo.deposit_intent "pos") [])
    (mkStatus err (Some finalized)) (mkChain devnet "https://rpc" (Some 400)) eq_refl eq_refl) as [_ H].
  exact H.
Defined.
