(* ===== verification/EarnTick.v ===== *)
(** * Earn: one tick of the vault reconciler

    The sweep of EarnReconcile.v against a chain that answers and the ledger of
    EarnLedger.v: the status every claimed movement has afterwards. *)
From Stdlib Require Import Ascii String ZArith Lia.
From stdpp Require Import base list strings sets.
From S2P Require Import Prelude Text Rows PolicyTypes EarnLedger EarnInvariant EarnMethods EarnExecution EarnSafety EarnReconcile.

Local Open Scope string_scope.
Local Open Scope Z_scope.
Local Open Scope list_scope.
Local Open Scope sdp_scope.

(** What the chain says during a tick: the status of a signature, the height, which
    transactions it accepts, and the time of day. *)
Record chain_view := mkView {
  cv_status : option string -> option SignatureStatusInfo;
  cv_height : Z;
  cv_accepts : bytes -> bool;
  cv_time : string;
}.

Definition ledger_call {A} (r : result (A * EarnTables)) (l : EarnTables) : result A * EarnTables :=
  match r with Ok (a, l') => (Ok a, l') | Err e => (Err e, l) end.

Section Tick.
Variable text_le : string -> string -> bool.
Variable v : chain_view.

(** The ledger and a chain that can be reached; the clock never reaches a deadline. *)
Definition tick_answer (c : vault_call) (l : EarnTables) : result (vault_answer c) * EarnTables :=
  match c return result (vault_answer c) * EarnTables with
  | ClaimUnsettledVaultMovements n =>
      ledger_call (claimUnsettledVaultMovements text_le (cv_time v) n l) l
  | AdvanceVaultMovement i => ledger_call (advanceVaultMovement text_le (cv_time v) i l) l
  | AssertClusterEndpoint _ _ => (Ok tt, l)
  | GetSignatureStatuses _ signatures => (Ok (map (cv_status v) signatures), l)
  | GetBlockHeight _ => (Ok (cv_height v), l)
  | SendTransaction _ b =>
      (if cv_accepts v b then Ok tt else Err (PlainError "rejected"), l)
  | Now => (Ok 0, l)
  | NowIso => (Ok (cv_time v), l)
  | _ => (Err (PlainError "unreachable"), l)
  end.

Section Kit.
Context {K : VaultKit}.

Definition tick (env : Env) (l : EarnTables) : list vault_event * result unit * EarnTables :=
  run tick_answer (reconcileEarnVaultMovements env) l.

(** The status a movement has after the tick that claims it. *)
Definition outcome (m : EarnMovementRow) : EarnMovementStatus :=
  let st := mv_status m in
  let seen := if bool_decide (st = mv_requested) then mv_submitted else st in
  match cv_status v (mv_signature (facts m)) with
  | Some s =>
      if truthy_value (st_err s) then
        if is_ok (json_stringify (st_err s)) && status_one_of st [mv_requested; mv_submitted]
        then mv_failed else st
      else
        match confirmationStatus s with
        | Some finalized => mv_finalized
        | Some confirmed => mv_confirmed
        | _ => seen
        end
  | None =>
      if bool_decide (st = mv_confirmed) then st
      else if default 0 (last_valid_block_height (facts m)) <? cv_height v then mv_failed
      else if cv_accepts v (of_base64 (default "" (signed_transaction (facts m)))) then seen
      else st
  end.
End Kit.

(** * Lemmas *)

Abbreviation sound := (ledger_sound text_le).

(** One row took the status, and the others stayed. *)
Definition moved (l : EarnTables) (x : EarnMovementRow) (st : EarnMovementStatus) (l' : EarnTables)
    : Prop :=
  sound l'
  /\ (exists y, y ∈ movements l' /\ facts y = facts x /\ mv_status y = st)
  /\ forall o, o ∈ movements l -> mv_id (facts o) <> mv_id (facts x) -> o ∈ movements l'.

Lemma moved_refl l x st : sound l -> x ∈ movements l -> mv_status x = st -> moved l x st l.
Proof. intros Hs Hx E. split; [done|]. split; [by exists x|done]. Qed.

Lemma replace_row_other id m' ms o : o ∈ ms -> mv_id (facts o) <> id -> o ∈ replace_row id m' ms.
Proof.
  intros Ho Hne. apply list_elem_of_fmap. exists o. split; [|done].
  by rewrite (proj2 (String.eqb_neq _ _) Hne).
Qed.

Lemma replace_row_self m m' ms : m ∈ ms -> m' ∈ replace_row (mv_id (facts m)) m' ms.
Proof. intros Hm. apply list_elem_of_fmap. exists m. by rewrite String.eqb_refl. Qed.

(** An advance of a vault row, to a target its status may or may not reach. *)
Lemma advance_moves now i l x :
  sound l -> x ∈ movements l -> is_vault x = true ->
  adv_movementId i = mv_id (facts x) -> adv_organizationId i = mv_organization_id (facts x) ->
  vault_transition_objection i = None -> EARN_MOVEMENT_TRANSITIONS vault_direct (adv_toStatus i) <> [] ->
  exists r l', advanceVaultMovement text_le now i l = Ok (r, l')
    /\ moved l x (if status_one_of (mv_status x) (EARN_MOVEMENT_TRANSITIONS vault_direct (adv_toStatus i))
                  then adv_toStatus i else mv_status x) l'.
Proof.
  intros Hs Hx Hv Hid Horg Hobj Hne.
  assert (exists r l', advanceVaultMovement text_le now i l = Ok (r, l')
            /\ movements l' =
               if status_one_of (mv_status x) (EARN_MOVEMENT_TRANSITIONS vault_direct (adv_toStatus i))
               then replace_row (mv_id (facts x)) (advance_row now i x) (movements l)
               else movements l) as (r & l' & E & Hm).
  { rewrite advance_run, Hobj by done.
    set (sources := EARN_MOVEMENT_TRANSITIONS vault_direct (adv_toStatus i)) in *.
    replace (allowedSourceStatuses vault_direct (adv_toStatus i)) with (Ok sources)
      by (unfold allowedSourceStatuses; fold sources; by destruct sources).
    assert (forall y, y ∈ movements l -> advances_movement i sources y = true -> y = x) as Hu.
    { intros y Hy (Ey & _)%advances_spec. apply (same_id_same_row (movements l)); [apply Hs|done..|congruence]. }
    destruct (status_one_of (mv_status x) sources) eqn:Est.
    - rewrite (find_unique _ _ x Hx); [by eexists _, _| |done].
      apply advances_spec. by rewrite <- status_one_of_spec.
    - rewrite find_nothing; [by eexists _, _|]. intros y Hy.
      destruct (advances_movement i sources y) eqn:Ey; [|done]. rewrite (Hu y Hy Ey) in Ey.
      apply advances_spec in Ey as (_ & _ & _ & Hst%status_one_of_spec). congruence. }
  exists r, l'. split; [done|]. apply advance_kept in E as [Hs' _]; [|done]. split; [done|].
  destruct (status_one_of (mv_status x) _); rewrite Hm.
  - split; [exists (advance_row now i x); split; [by apply replace_row_self|done]|].
    intros o Ho Hne'. by apply replace_row_other.
  - split; [by exists x|done].
Qed.

(** A program leaves the row in a status, however it ends. *)
Definition leaves {A} (m : vault_prog A) (l : EarnTables) (x : EarnMovementRow)
    (st : EarnMovementStatus) : Prop :=
  exists tr res l', run tick_answer m l = (tr, res, l') /\ moved l x st l'.

Lemma leaves_ask {A} c a (f : vault_answer c -> vault_prog A) l x st :
  tick_answer c l = (Ok a, l) -> leaves (f a) l x st -> leaves (bind (ask c) f) l x st.
Proof.
  intros Ha (tr & res & l' & E & H). unfold leaves. unfold ask, call. cbn [bind run].
  rewrite Ha. cbn [bind]. rewrite E. by eexists _, _, _.
Qed.

Lemma leaves_unchanged {A} (m : vault_prog A) l x st tr res :
  sound l -> x ∈ movements l -> mv_status x = st -> run tick_answer m l = (tr, res, l) -> leaves m l x st.
Proof. intros Hs Hx Est E. exists tr, res, l. split; [done|]. by apply moved_refl. Qed.

Lemma leaves_ret {A} (a : A) l x st : sound l -> x ∈ movements l -> mv_status x = st -> leaves (Ret a) l x st.
Proof. intros. by eapply leaves_unchanged. Qed.

Lemma leaves_caught (m : vault_prog unit) l x st :
  leaves m l x st ->
  exists tr l', run tick_answer (catch m (fun _ => Ret tt)) l = (tr, Ok tt, l') /\ moved l x st l'.
Proof.
  intros (tr & res & l' & E & H). rewrite run_catch, E. destruct res as [[]|e]; cbn [run]; by eexists _, _.
Qed.

(** The row a claimed movement still is. *)
Definition current (l : EarnTables) (m x : EarnMovementRow) : Prop :=
  sound l /\ x ∈ movements l /\ facts x = facts m /\ mv_status x = mv_status m /\ is_vault m = true.

Lemma advance_leaves l m x to failure confirmed_ settled :
  current l m x ->
  vault_transition_objection (mkAdvance (mv_id (facts m)) (mv_organization_id (facts m)) to None
    failure confirmed_ settled) = None ->
  EARN_MOVEMENT_TRANSITIONS vault_direct to <> [] ->
  leaves (advanceTransaction m to failure confirmed_ settled) l x
    (if status_one_of (mv_status m) (EARN_MOVEMENT_TRANSITIONS vault_direct to) then to
     else mv_status m).
Proof.
  intros (Hs & Hx & Hf & Hst & Hv) Ho Hne.
  destruct (advance_moves (cv_time v) (mkAdvance (mv_id (facts m)) (mv_organization_id (facts m)) to None
    failure confirmed_ settled) l x) as (r & l' & E & H); [done|done|..|done|done|].
  { unfold is_vault in *. by rewrite Hf. }
  { by rewrite Hf. }
  { by rewrite Hf. }
  rewrite <- Hst. unfold leaves, advanceTransaction, ask, call. cbn [bind run tick_answer].
  rewrite E. cbn [ledger_call bind run]. by eexists _, _, _.
Qed.

Lemma submitted_leaves l m x :
  current l m x ->
  leaves (markSubmitted m) l x (if bool_decide (mv_status m = mv_requested) then mv_submitted else mv_status m).
Proof.
  intros Hc. unfold markSubmitted. destruct (bool_decide_reflect (mv_status m = mv_requested)) as [E|E]; cbn [negb].
  - pose proof (advance_leaves l m x mv_submitted None None None Hc eq_refl ltac:(done)) as H.
    by rewrite E in H.
  - destruct Hc as (? & ? & ? & ? & ?). by apply leaves_ret.
Qed.

Lemma ask_tick c l r : tick_answer c l = (r, l) -> exists tr, run tick_answer (ask c) l = (tr, r, l).
Proof. intros H. unfold ask, call. cbn [run]. rewrite H. destruct r; by eexists. Qed.

(** The clock of the view never reaches a deadline. *)
Lemma deadline_tick label c l r :
  tick_answer c l = (r, l) ->
  exists tr, run tick_answer (deadline_run (mkDeadline 20000 20000) label c) l = (tr, r, l).
Proof.
  intros (tr & E)%ask_tick. destruct (ask_tick Now l (Ok 0) eq_refl) as (tr0 & E0).
  unfold deadline_run, assertActive. rewrite !run_bind, E0.
  change (expiresAt (mkDeadline 20000 20000) - 0 <=? 0) with false. cbn [run].
  rewrite run_bind, E0, E. by eexists.
Qed.

Lemma broadcast_tick cluster b url l : exists tr,
  run tick_answer (broadcastVaultTransaction cluster (mkDeadline 20000 20000) b url) l
  = (tr, (if cv_accepts v b then Ok tt else Err (PlainError "rejected")), l).
Proof.
  unfold broadcastVaultTransaction, verifyVaultRpc. rewrite run_bind.
  destruct (deadline_tick ("Verifying the " ++ cluster_text cluster ++ " RPC endpoint")%string
    (AssertClusterEndpoint cluster url) l (Ok tt)) as (tr1 & E1); [done|].
  destruct (deadline_tick "Broadcasting the vault transaction" (SendTransaction url b) l
    (if cv_accepts v b then Ok tt else Err (PlainError "rejected"))) as (tr2 & E2); [done|].
  cbn [vault_answer] in E1, E2. rewrite E1, E2. by eexists.
Qed.

(** ** A printed error *)

Lemma not_space_not_missing c l :
  is_space c = false -> missing_text (Some (Some (text (c :: l)))) = false.
Proof.
  intros H. cbn [missing_text]. apply bool_decide_eq_false. rewrite chars_text. unfold trim.
  intros E%stripped_nil%Forall_cons. destruct E as [E _]. congruence.
Qed.

Lemma z_text_not_missing n : missing_text (Some (Some (z_text n))) = false.
Proof.
  unfold z_text. destruct (Z.ltb_spec n 0); [by apply not_space_not_missing|].
  pose proof (to_digits_all n ltac:(lia)) as Hd. destruct (to_digits n) as [|c l] eqn:E.
  - destruct (Z.eq_dec n 0) as [->|]; [done|].
    destruct (to_digits_head n) as (c & l & E' & _); [lia|]. congruence.
  - apply not_space_not_missing, digit_not_space. rewrite all_digits_cons in Hd.
    by apply andb_true_iff in Hd as [? _].
Qed.

(** The reason a failed transaction leaves is never blank. *)
Lemma printed_error_not_missing e reason :
  truthy_value e = true -> json_stringify e = Ok reason -> missing_text (Some (Some reason)) = false.
Proof.
  unfold json_stringify. destruct e as [|b|n|n|t|items|fields]; cbn [truthy_value print_value result_bind];
    try done.
  - intros ->. intros [= <-]. vm_compute. done.
  - intros _ [= <-]. change (chars (z_text n)) with (chars (z_text n)). rewrite text_chars.
    apply z_text_not_missing.
  - intros _ [= <-]. rewrite text_chars. unfold json_string. by apply not_space_not_missing.
  - intros _. destruct (map_result _ items); cbn [result_bind]; [|done]. intros [= <-].
    by apply not_space_not_missing.
  - intros _. destruct (map_result _ fields); cbn [result_bind]; [|done]. intros [= <-].
    by apply not_space_not_missing.
Qed.

(** ** One movement *)

Section Movement.
Context {K : VaultKit}.
Hypothesis time_present : missing_text (Some (Some (cv_time v))) = false.

Lemma observed_objection m to settled :
  (to = mv_confirmed /\ settled = None) \/ (to = mv_finalized /\ settled = Some (Some (cv_time v))) ->
  vault_transition_objection (mkAdvance (mv_id (facts m)) (mv_organization_id (facts m)) to None None
    (Some (Some (cv_time v))) settled) = None.
Proof.
  intros [[-> ->]|[-> ->]]; unfold vault_transition_objection;
    cbn [adv_toStatus adv_failureReason adv_settledAt adv_confirmedAt adv_sharesOut];
    rewrite !time_present; reflexivity.
Qed.

Lemma failure_objection m reason :
  missing_text (Some (Some reason)) = false ->
  vault_transition_objection (mkAdvance (mv_id (facts m)) (mv_organization_id (facts m)) mv_failed None
    (Some (Some reason)) None None) = None.
Proof.
  intros H. unfold vault_transition_objection.
  cbn [adv_toStatus adv_failureReason adv_settledAt adv_confirmedAt adv_sharesOut].
  rewrite H. reflexivity.
Qed.

Lemma fail_leaves l m x reason :
  current l m x -> missing_text (Some (Some reason)) = false ->
  leaves (failMovement m reason) l x
    (if status_one_of (mv_status m) [mv_requested; mv_submitted] then mv_failed else mv_status m).
Proof. intros Hc H. by apply (advance_leaves l m x mv_failed); [|apply failure_objection|]. Qed.

(** A claimed row: unsettled, and with what a vault movement always records. *)
Record claimed_row (m : EarnMovementRow) : Prop := mkClaimed {
  claimed_unsettled : mv_status m ∈ unsettled;
  claimed_bytes : is_Some (signed_transaction (facts m));
  claimed_height : is_Some (last_valid_block_height (facts m));
}.

Lemma movement_leaves l m x cluster url height :
  current l m x -> claimed_row m ->
  (cv_status v (mv_signature (facts m)) = None -> height = Some (cv_height v)) ->
  leaves (reconcileMovement m (cv_status v (mv_signature (facts m))) (mkChain cluster url height)) l x
    (outcome m).
Proof.
  intros Hc [Hu [tx Htx] [last Hlast]] Hh. pose proof Hc as (Hs & Hx & Hf & Hst & Hv).
  unfold outcome. rewrite Htx, Hlast. cbn [default from_option id].
  destruct (cv_status v (mv_signature (facts m))) as [s|] eqn:Ecv; cbn [reconcileMovement].
  - destruct (truthy_value (st_err s)) eqn:He.
    { destruct (json_stringify (st_err s)) as [reason|e] eqn:Ej; cbn [of_result bind is_ok andb].
      - apply fail_leaves; [done|]. by eapply printed_error_not_missing.
      - by eapply leaves_unchanged. }
    destruct (confirmationStatus s) as [[]|].
    + by apply submitted_leaves.
    + destruct (bool_decide_reflect (mv_status m = mv_confirmed)) as [E|E].
      { apply leaves_ret; [done|done|]. by rewrite Hst, E. }
      apply (leaves_ask NowIso (cv_time v)); [done|].
      pose proof (advance_leaves l m x mv_confirmed None (Some (Some (cv_time v))) None Hc
        (observed_objection m _ _ (or_introl (conj eq_refl eq_refl))) ltac:(done)) as H.
      replace (status_one_of (mv_status m) _) with true in H; [done|]. symmetry.
      apply status_one_of_spec. unfold unsettled in Hu. cbn. set_solver.
    + apply (leaves_ask NowIso (cv_time v)); [done|].
      pose proof (advance_leaves l m x mv_finalized None (Some (Some (cv_time v)))
        (Some (Some (cv_time v))) Hc
        (observed_objection m _ _ (or_intror (conj eq_refl eq_refl))) ltac:(done)) as H.
      replace (status_one_of (mv_status m) _) with true in H; [done|]. symmetry.
      apply status_one_of_spec. unfold unsettled in Hu. cbn. set_solver.
    + by apply submitted_leaves.
  - specialize (Hh eq_refl) as ->. destruct (bool_decide_reflect (mv_status m = mv_confirmed)) as [E|E].
    { by apply leaves_ret. }
    rewrite Htx, Hlast. cbn [currentBlockHeight ch_cluster ch_rpcUrl].
    destruct (last <? cv_height v).
    { pose proof (fail_leaves l m x "Transaction blockhash expired before confirmation" Hc eq_refl) as H.
      replace (status_one_of (mv_status m) _) with true in H; [done|]. symmetry.
      apply status_one_of_spec. unfold unsettled in Hu. set_solver. }
    unfold leaves. rewrite run_bind. unfold createVaultDeadline.
    change (VAULT_EXTERNAL_CALL_TIMEOUT_MS <=? 0) with false. cbn [negb]. rewrite run_bind.
    destruct (ask_tick Now l (Ok 0) eq_refl) as (tr0 & E0). rewrite E0. cbn [run].
    change (mkDeadline VAULT_EXTERNAL_CALL_TIMEOUT_MS (0 + VAULT_EXTERNAL_CALL_TIMEOUT_MS))
      with (mkDeadline 20000 20000). rewrite run_bind.
    destruct (broadcast_tick cluster (of_base64 tx) url l) as (tr1 & E1). rewrite E1.
    destruct (cv_accepts v (of_base64 tx)).
    + destruct (submitted_leaves l m x Hc) as (tr2 & res & l' & E2 & H). rewrite E2. by eexists _, _, _.
    + eexists _, _, _. split; [done|]. by apply moved_refl.
Qed.

(** ** All of them *)

Abbreviation row_ids ms := ((fun m => mv_id (facts m)) <$> ms).

Definition pending_in (l : EarnTables) (m : EarnMovementRow) : Prop :=
  claimed_row m /\ is_vault m = true
  /\ exists x, x ∈ movements l /\ facts x = facts m /\ mv_status x = mv_status m.

Definition settled_in (l : EarnTables) (m : EarnMovementRow) : Prop :=
  exists y, y ∈ movements l /\ facts y = facts m /\ mv_status y = outcome m.

(** A step brings its rows to their outcome and leaves the others. *)
Definition handles (m : vault_prog unit) (rows : list EarnMovementRow) (l : EarnTables) : Prop :=
  exists tr l', run tick_answer m l = (tr, Ok tt, l') /\ sound l'
    /\ (forall r, r ∈ rows -> settled_in l' r)
    /\ forall o, o ∈ movements l -> mv_id (facts o) ∉ row_ids rows -> o ∈ movements l'.

Lemma loop_handles {A} (f : A -> vault_prog unit) (rows : A -> list EarnMovementRow) xs : forall l,
  sound l -> NoDup (row_ids (flat_map rows xs)) ->
  (forall r, r ∈ flat_map rows xs -> pending_in l r) ->
  (forall x l, x ∈ xs -> sound l -> NoDup (row_ids (rows x)) ->
     (forall r, r ∈ rows x -> pending_in l r) -> handles (f x) (rows x) l) ->
  handles (for_each f xs) (flat_map rows xs) l.
Proof.
  induction xs as [|x xs IH]; intros l Hs Hnd Hp Hf.
  { exists [], l. split; [done|]. split; [done|]. split; [by intros r ?%elem_of_nil|done]. }
  cbn [flat_map] in *. rewrite fmap_app in Hnd. apply NoDup_app in Hnd as (Hn1 & Hdisj & Hn2).
  destruct (Hf x l) as (tr1 & l1 & E1 & Hs1 & Hset1 & Hkeep1); [by left|done|done| |].
  { intros r Hr. apply Hp, elem_of_app. by left. }
  destruct (IH l1) as (tr2 & l2 & E2 & Hs2 & Hset2 & Hkeep2); [done|done| | |].
  { intros r Hr. destruct (Hp r) as (H1 & H2 & y & Hy & Ey & Est); [apply elem_of_app; by right|].
    split; [done|]. split; [done|]. exists y. split; [|done]. apply Hkeep1; [done|]. rewrite Ey.
    intros Hin. apply (Hdisj _ Hin). apply list_elem_of_fmap. by exists r. }
  { intros y l0 Hy. apply Hf. by right. }
  exists (tr1 ++ tr2), l2. cbn [for_each]. rewrite run_bind, E1, E2. split; [done|]. split; [done|]. split.
  - intros r [Hr|Hr]%elem_of_app; [|by apply Hset2].
    destruct (Hset1 r Hr) as (y & Hy & Ey & Est). exists y. split; [|done]. apply Hkeep2; [done|].
    rewrite Ey. apply Hdisj, list_elem_of_fmap. by exists r.
  - intros o Ho. rewrite fmap_app, not_elem_of_app. intros [H1 H2]. by apply Hkeep2; [apply Hkeep1|].
Qed.

Lemma pending_current l m : sound l -> pending_in l m -> exists x, current l m x.
Proof. intros Hs (_ & Hv & x & Hx & Ef & Est). by exists x. Qed.

Lemma caught_handles l m cluster url height :
  sound l -> pending_in l m ->
  (cv_status v (mv_signature (facts m)) = None -> height = Some (cv_height v)) ->
  handles (catch (reconcileMovement m (cv_status v (mv_signature (facts m))) (mkChain cluster url height))
             (fun _ => Ret tt)) [m] l.
Proof.
  intros Hs Hp Hh. destruct (pending_current l m Hs Hp) as [x Hc].
  destruct (leaves_caught _ _ _ _ (movement_leaves l m x cluster url height Hc (proj1 Hp) Hh))
    as (tr & l' & E & Hs' & Hy & Hkeep).
  destruct Hc as (_ & _ & Ef & _). rewrite Ef in *.
  exists tr, l'. split; [done|]. split; [done|]. split.
  - intros r ->%list_elem_of_singleton. exact Hy.
  - intros o Ho Hne. apply Hkeep; [done|]. intros E'. apply Hne. rewrite E'. by left.
Qed.

Lemma indexed_rows_flat {A} (rows : list A) : forall i,
  flat_map (fun kx => [snd kx]) (combine (seq i (length rows)) rows) = rows.
Proof. induction rows as [|x rows IH]; intros i; [done|]. cbn. f_equal. apply IH. Qed.

Lemma or_null_tick {A} (m : vault_prog A) l tr a :
  run tick_answer m l = (tr, Ok a, l) ->
  exists tr', run tick_answer (or_null_on_error m) l = (tr', Ok (Some a), l).
Proof. intros E. unfold or_null_on_error. rewrite run_catch, run_bind, E. by eexists. Qed.

Lemma environment_handles env e rows l :
  sound l -> NoDup (row_ids rows) -> (forall r, r ∈ rows -> pending_in l r) ->
  handles (reconcileEnvironment env e rows) rows l.
Proof.
  intros Hs Hnd Hp. unfold reconcileEnvironment.
  set (url := resolveClusterRpcUrl env (earnClusterFor e)).
  set (statuses := map (cv_status v) (map (fun m => mv_signature (facts m)) rows)).
  assert (exists tr, run tick_answer (ask (AssertClusterEndpoint (earnClusterFor e) url) ;;;
            ask (GetSignatureStatuses url (map (fun m => mv_signature (facts m)) rows))) l
          = (tr, Ok statuses, l)) as [tr1 E1] by (by eexists).
  apply or_null_tick in E1 as [tr1' E1].
  set (height := if existsb isMissing statuses then Some (cv_height v) else None).
  assert (exists tr, run tick_answer (if existsb isMissing statuses
            then or_null_on_error (ask (GetBlockHeight url)) else Ret None) l = (tr, Ok height, l))
    as [tr2 E2].
  { unfold height. destruct (existsb isMissing statuses); [|by eexists].
    destruct (ask_tick (GetBlockHeight url) l (Ok (cv_height v)) eq_refl) as [tr E].
    by apply or_null_tick in E. }
  destruct (loop_handles (fun '(index, m) =>
      catch (reconcileMovement m (mjoin (statuses !! index)) (mkChain (earnClusterFor e) url height))
            (fun _ => Ret tt)) (fun kx => [snd kx]) (combine (seq 0 (length rows)) rows) l)
    as (tr3 & l' & E3 & H); rewrite ?indexed_rows_flat; [done|done|done| |].
  - intros [k m] l0 Hm%indexed_row Hs0 _ Hp0. cbn [snd] in *.
    assert (mjoin (statuses !! k) = cv_status v (mv_signature (facts m))) as ->.
    { unfold statuses. by rewrite !list_lookup_fmap, Hm. }
    apply caught_handles; [done|by apply Hp0, list_elem_of_singleton|].
    intros Hnone. unfold height. replace (existsb isMissing statuses) with true; [done|]. symmetry.
    apply existsb_exists. exists None. split; [|done]. unfold statuses. rewrite <- Hnone.
    apply list_elem_of_In, list_elem_of_fmap. exists (mv_signature (facts m)). split; [done|].
    apply list_elem_of_fmap. exists m. split; [done|]. by eapply list_elem_of_lookup_2.
  - exists (tr1' ++ tr2 ++ tr3), l'. rewrite indexed_rows_flat in H. split; [|done].
    rewrite run_bind, E1, run_bind, E2.
    exact (f_equal (fun r => let '(tr, res, s) := (let '(tr, res, s) := r in (tr2 ++ tr, res, s)) in
                          (tr1' ++ tr, res, s)) E3).
Qed.

(** ** The batch *)

Lemma push_row_perm m groups : flat_map snd (push_row m groups) ≡ₚ flat_map snd groups ++ [m].
Proof.
  induction groups as [|[e rows] groups IH]; cbn [push_row]; [done|].
  destruct (bool_decide (e = _)); cbn [flat_map snd].
  - rewrite <- !app_assoc. apply Permutation_app_head, Permutation_app_comm.
  - by rewrite IH, app_assoc.
Qed.

Lemma grouped_perm ms : flat_map snd (groupByEnvironment ms) ≡ₚ ms.
Proof.
  unfold groupByEnvironment.
  assert (forall groups, flat_map snd (fold_left (fun groups m => push_row m groups) ms groups)
            ≡ₚ flat_map snd groups ++ ms) as H.
  { induction ms as [|m ms IH]; intros groups; cbn [fold_left]; [by rewrite app_nil_r|].
    rewrite IH, push_row_perm, <- app_assoc. done. }
  apply H.
Qed.

Lemma vault_row_recorded m :
  movement_sound m -> is_vault m = true ->
  is_Some (signed_transaction (facts m)) /\ is_Some (last_valid_block_height (facts m)).
Proof.
  intros (Hc & _) Hv. unfold movement_checks in Hc. rewrite !andb_true_iff in Hc.
  assert (model_shape m = true) as Hshape by tauto. clear Hc. unfold model_shape in Hshape. rewrite Hv in Hshape.
  rewrite !andb_true_iff, !bool_decide_eq_true in Hshape. tauto.
Qed.

(** What the claim hands to the sweep. *)
Lemma claim_tick l :
  sound l ->
  exists rows l1, claimUnsettledVaultMovements text_le (cv_time v) OUTBOX_BATCH_SIZE l = Ok (rows, l1)
    /\ sound l1 /\ NoDup (row_ids rows) /\ (forall r, r ∈ rows -> pending_in l1 r).
Proof.
  intros Hs. destruct (claimUnsettledVaultMovements text_le (cv_time v) OUTBOX_BATCH_SIZE l)
    as [[rows l1]|] eqn:E; [|done]. exists rows, l1. split; [done|].
  pose proof (proj1 (queue_kept _ _ _ _ _ _ Hs E)) as Hs1. split; [done|].
  pose proof (sound_tables _ _ Hs) as Hok. unfold claimUnsettledVaultMovements in E.
  change ((OUTBOX_BATCH_SIZE <? 1) || (256 <? OUTBOX_BATCH_SIZE)) with false in E. cbv iota zeta in E.
  set (claimed := claimed_rows text_le OUTBOX_BATCH_SIZE (movements l)) in *. injection E as <- <-.
  assert (forall r, r ∈ order_by (confirmed_last (created_le text_le))
            (touch_attempt (cv_time v) <$> List.filter (has_id claimed) (movements l)) ->
          exists m, m ∈ movements l /\ has_id claimed m = true /\ r = touch_attempt (cv_time v) m) as Hin.
  { intros r. rewrite order_by_perm. intros (m & -> & Hm)%list_elem_of_fmap.
    apply filter_elem in Hm as [Hm Hid]. by exists m. }
  split.
  - rewrite order_by_perm, <- list_fmap_compose. apply NoDup_fmap_2_strong; [|by apply filter_nodup, sound_nodup].
    intros a b [Ha _]%filter_elem [Hb _]%filter_elem Eab.
    by apply (same_id_same_row (movements l)); [apply Hok|..].
  - intros r (m & Hm & Hid & ->)%Hin.
    assert (m ∈ claimed) as Hc.
    { apply (has_id_spec (movements l)) in Hid; [done|apply Hok| |done]. by intros x []%claimed_rows_unsettled. }
    apply claimed_rows_unsettled in Hc as [_ [Hv Hst]%vault_in_spec].
    destruct (vault_row_recorded m) as [Htx Hlast]; [|done|].
    { by apply (proj1 (Forall_forall _ _) (ok_rows _ Hok) m). }
    split; [by split|]. split; [done|]. exists (touch_attempt (cv_time v) m). split; [|done].
    cbn [with_movements movements]. apply list_elem_of_fmap. exists m. by rewrite Hid.
Qed.

Lemma tick_spec env l :
  sound l ->
  exists rows l1 tr l', claimUnsettledVaultMovements text_le (cv_time v) OUTBOX_BATCH_SIZE l = Ok (rows, l1)
    /\ tick env l = (tr, Ok tt, l') /\ sound l' /\ (forall r, r ∈ rows -> settled_in l' r)
    /\ forall o, o ∈ movements l1 -> mv_id (facts o) ∉ row_ids rows -> o ∈ movements l'.
Proof.
  intros Hs. destruct (claim_tick l Hs) as (rows & l1 & E & Hs1 & Hnd & Hp).
  pose proof (grouped_perm rows) as Hperm.
  destruct (loop_handles (fun g => reconcileEnvironment env (fst g) (snd g)) snd (groupByEnvironment rows) l1)
    as (tr & l' & E' & Hs' & Hset & Hkeep); [done|by rewrite Hperm|intros r; rewrite Hperm; apply Hp| |].
  { intros [e rs] l0 _ Hs0 Hnd0 Hp0. by apply environment_handles. }
  exists rows, l1, (Ev (R := vault_answer) (ClaimUnsettledVaultMovements OUTBOX_BATCH_SIZE) (Ok rows) :: tr), l'.
  split; [done|]. split; [|split; [done|split]].
  - unfold tick, reconcileEarnVaultMovements. rewrite run_bind. unfold ask, call. cbn [run tick_answer].
    rewrite E. cbn [ledger_call run].
    replace (for_each (fun '(environment, rows) => reconcileEnvironment env environment rows)
               (groupByEnvironment rows))
      with (for_each (fun g => reconcileEnvironment env (fst g) (snd g)) (groupByEnvironment rows)).
    + by rewrite E'.
    + clear. induction (groupByEnvironment rows) as [|[e rs] gs IH]; [done|]. cbn [for_each fst snd]. by rewrite IH.
  - intros r Hr. apply Hset. by rewrite Hperm.
  - intros o Ho Hne. apply Hkeep; [done|]. by rewrite Hperm.
Qed.
End Movement.
End Tick.

(** ** A sandbox deposit and two chains *)

Module TickDemo.
Import KitDemo.

Definition env : Env := mkEnv (Some "https://rpc") None None None None.

(** The chain has finalized every transaction. *)
Definition settled_chain : chain_view :=
  mkView (fun _ => Some (mkStatus RNull (Some finalized))) 90 (fun _ => true) "t5".

(** A chain that moves while the sweep reads it: the transaction is finalized just
    after its status was read, and the height passes its blockhash before it is. *)
Definition moving_answer (c : vault_call) (s : EarnTables * bool)
    : result (vault_answer c) * (EarnTables * bool) :=
  let '(l, landed) := s in
  let status := if landed then Some (mkStatus RNull (Some finalized)) else None in
  let view := mkView (fun _ => status) 101 (fun _ => true) "t5" in
  let '(r, l') := tick_answer EarnDemo.text_le view c l in
  (r, (l', match c with GetSignatureStatuses _ _ => true | _ => landed end)).

(** The movement that landed is failed, and a later sweep leaves it failed. *)
Example late_landing_is_failed :
  let '(_, _, s) := run moving_answer (reconcileEarnVaultMovements env) (EarnDemo.opened, false) in
  let '(_, _, (l, landed)) := run moving_answer (reconcileEarnVaultMovements env) s in
  (landed, mv_status <$> movements l) = (true, [mv_failed]).
Proof. vm_compute. reflexivity. Qed.
End TickDemo.

(** * Theorems *)

(** C15. One tick settles what it claims. Over a sound ledger and a chain that answers, the
    sweep ends without an error on a sound ledger; every movement of the batch it
    claimed has the status the chain's answer dictates - failed with a printable error,
    finalized, confirmed, submitted when it was seen or its bytes were accepted again,
    failed once the height passed its blockhash unseen, never going back from
    confirmed - with its facts untouched; and every other movement is as the claim
    left it. *)
Theorem tick_settles (K : VaultKit) text_le v env l :
  ledger_sound text_le l -> missing_text (Some (Some (cv_time v))) = false ->
  exists rows l1 tr l',
    claimUnsettledVaultMovements text_le (cv_time v) OUTBOX_BATCH_SIZE l = Ok (rows, l1)
    /\ tick text_le v env l = (tr, Ok tt, l') /\ ledger_sound text_le l'
    /\ (forall m, m ∈ rows -> exists y, y ∈ movements l' /\ facts y = facts m
                                      /\ mv_status y = outcome v m)
    /\ forall o, o ∈ movements l1 -> mv_id (facts o) ∉ (mv_id ∘ facts) <$> rows -> o ∈ movements l'.
Proof. intros Hs Ht. exact (tick_spec text_le v Ht env l Hs). Qed.

Lemma tick_settles_witness :
  exists y, y ∈ movements (snd (tick EarnDemo.text_le TickDemo.settled_chain TickDemo.env EarnDemo.opened
                                 (K := KitDemo.kit)))
    /\ mv_status y = mv_finalized.
Proof.
  destruct (tick_settles KitDemo.kit EarnDemo.text_le TickDemo.settled_chain TickDemo.env EarnDemo.opened
              EarnDemo.opened_sound eq_refl) as (rows & l1 & tr & l' & Ec & Et & _ & H & _).
  rewrite Et. cbn [snd].
  assert (exists m, m ∈ rows /\ outcome (K := KitDemo.kit) TickDemo.settled_chain m = mv_finalized)
    as (m & Hm & Ho).
  { vm_compute in Ec. injection Ec as <- _. eexists. split; [left|reflexivity]. }
  destruct (H m Hm) as (y & Hy & _ & Hst). exists y. split; [exact Hy|]. rewrite Hst. exact Ho.
Defined.
