(* ===== verification/Pool.v ===== *)
(** * Programs that run at once

    Any number of programs of Prelude.v over one shared state: a step is one call of
    one of them, answered by the environment. Whatever the interleaving, what a
    program's runs guarantee of a call holds of that program's own calls so far. *)
From Stdlib Require Import Ascii String ZArith Lia.
From stdpp Require Import base list strings.
From S2P Require Import Prelude.

Local Open Scope list_scope.
Local Open Scope sdp_scope.

Section Pool.
Context {C : Type} {R : C -> Type} {S : Type}.

(** [answers s e s']: in state [s] the environment may answer as [e] says, leaving [s']. *)
Context (answers : S -> event R -> S -> Prop).

Abbreviation thread := (prog R unit).
Abbreviation log := (list (nat * event R)).

(** What the calls made so far, with the thread that made each, have led to. A thread
    that takes no more steps has crashed. *)
Inductive pool_run (s0 : S) (ps0 : list thread) : log -> S -> list thread -> Prop :=
| pool_start : pool_run s0 ps0 [] s0 ps0
| pool_call tr s ps i c k r s' :
    pool_run s0 ps0 tr s ps -> ps !! i = Some (Call c k) -> answers s (Ev c r) s' ->
    pool_run s0 ps0 (tr ++ [(i, Ev c r)]) s' (<[i := k r]> ps).

(** The calls of one thread. *)
Definition calls_of (i : nat) (tr : log) : list (event R) :=
  flat_map (fun '(j, e) => if decide (i = j) then [e] else []) tr.

(** The calls of a program up to where it stands. *)
Inductive steps {A} (m : prog R A) : list (event R) -> prog R A -> Prop :=
| steps_none : steps m [] m
| steps_call tr c k r : steps m tr (Call c k) -> steps m (tr ++ [Ev c r]) (k r).

(** *** Turns *)

(** A thread's turn: its next call, if it has one, answered by the handler of the turn. *)
Definition turn (i : nat) (h : forall c, S -> result (R c) * S) (x : log * S * list thread) : log * S * list thread :=
  let '(tr, s, ps) := x in
  match ps !! i with
  | Some (Call c k) => let '(r, s') := h c s in (tr ++ [(i, Ev c r)], s', <[i := k r]> ps)
  | _ => x
  end.

Definition take_turns (turns : list (nat * (forall c, S -> result (R c) * S))) (x : log * S * list thread)
    : log * S * list thread :=
  foldl (fun x t => turn t.1 t.2 x) x turns.

(** * Lemmas *)

Lemma steps_first {A} c (k : result (R c) -> prog R A) r tr m' :
  steps (k r) tr m' -> steps (Call c k) (Ev c r :: tr) m'.
Proof.
  induction 1 as [|tr c' k' r' _ IH]; [apply (steps_call (Call c k) [] c k r), steps_none|].
  rewrite app_comm_cons. by apply steps_call.
Qed.

(** Where a program stands its run can be completed. *)
Lemma steps_all_runs {A} (m : prog R A) Q tr m' :
  steps m tr m' -> all_runs m Q -> all_runs m' (fun tr' res => Q (tr ++ tr') res).
Proof.
  intros H. revert Q. induction H as [|tr c k r _ IH]; intros Q Hm; [done|].
  specialize (IH Q Hm r). eapply all_runs_mono; [|exact IH]. intros. by rewrite <- app_assoc.
Qed.

Lemma some_run {A} (m : prog R A) Q : all_runs m Q -> exists tr res, Q tr res.
Proof.
  revert Q. induction m as [a|e|c k IH]; intros Q H; [by eexists _, _..|].
  destruct (IH (Err (PlainError "")) _ (H _)) as (tr & res & Hq). by eexists _, _.
Qed.

Lemma steps_guarded {A} P (m : prog R A) tr m' :
  guarded P [] m -> steps m tr m' -> forall pre e post, tr = pre ++ e :: post -> P pre e.
Proof.
  intros Hg H pre e post ->. apply (steps_all_runs _ _ _ _ H), some_run in Hg.
  destruct Hg as (tr' & _ & Hg). apply (Hg pre e (post ++ tr')). by rewrite <- app_assoc.
Qed.

Lemma calls_of_app i tr1 tr2 : calls_of i (tr1 ++ tr2) = calls_of i tr1 ++ calls_of i tr2.
Proof. apply flat_map_app. Qed.

Lemma calls_of_elem i tr e : e ∈ calls_of i tr -> (i, e) ∈ tr.
Proof.
  unfold calls_of. rewrite list_elem_of_In, in_flat_map. intros ([j e'] & Hin & He).
  destruct (decide (i = j)) as [->|]; [|done]. destruct He as [->|[]]. by apply list_elem_of_In.
Qed.

Lemma calls_of_in i tr e : (i, e) ∈ tr -> e ∈ calls_of i tr.
Proof.
  intros H. apply list_elem_of_In, in_flat_map. exists (i, e).
  split; [by apply list_elem_of_In|]. rewrite decide_True by done. by left.
Qed.

Lemma pool_steps s0 ps0 tr s ps :
  pool_run s0 ps0 tr s ps ->
  forall i p, ps0 !! i = Some p -> exists p', ps !! i = Some p' /\ steps p (calls_of i tr) p'.
Proof.
  induction 1 as [|tr s ps i c k r s' _ IH Hi _]; intros j p Hp.
  - exists p. split; [done|]. apply steps_none.
  - destruct (IH j p Hp) as (p' & Hp' & Hs). rewrite calls_of_app.
    destruct (decide (j = i)) as [->|Hne].
    + exists (k r). rewrite list_lookup_insert_eq by (by eapply lookup_lt_Some). split; [done|].
      cbn. rewrite decide_True by done. cbn. apply steps_call. congruence.
    + exists p'. rewrite list_lookup_insert_ne by done. split; [done|].
      cbn. rewrite decide_False by done. cbn. by rewrite app_nil_r.
Qed.

Lemma pool_length s0 ps0 tr s ps : pool_run s0 ps0 tr s ps -> length ps = length ps0.
Proof. induction 1; [done|]. by rewrite length_insert. Qed.

(** A thread runs to its end without the others. *)
Lemma pool_run_one (h : forall c, S -> result (R c) * S) s0 ps0 tr s ps i m :
  (forall c s, answers s (Ev c (h c s).1) (h c s).2) ->
  pool_run s0 ps0 tr s ps -> ps !! i = Some m ->
  exists ps', pool_run s0 ps0 (tr ++ map (pair i) (run h m s).1.1) (run h m s).2 ps'
    /\ forall j, j <> i -> ps' !! j = ps !! j.
Proof.
  intros Hh. revert tr s ps. induction m as [a|e|c k IH]; intros tr s ps Hrun Hi; cbn [run].
  - exists ps. cbn. by rewrite app_nil_r.
  - exists ps. cbn. by rewrite app_nil_r.
  - pose proof (Hh c s) as Ha. destruct (h c s) as [r s1]. cbn [fst snd] in Ha.
    destruct (IH r (tr ++ [(i, Ev c r)]) s1 (<[i:=k r]> ps)) as (ps' & Hrun' & Hps).
    + by eapply pool_call.
    + apply list_lookup_insert_eq. by eapply lookup_lt_Some.
    + destruct (run h (k r) s1) as [[tr1 res1] s2]. cbn [fst snd map] in *.
      exists ps'. rewrite <- app_assoc in Hrun'. split; [done|].
      intros j Hj. rewrite Hps by done. by apply list_lookup_insert_ne.
Qed.

Lemma pool_turns s0 ps0 turns :
  Forall (fun t => forall c s, answers s (Ev c (t.2 c s).1) (t.2 c s).2) turns ->
  pool_run s0 ps0 (take_turns turns ([], s0, ps0)).1.1 (take_turns turns ([], s0, ps0)).1.2
    (take_turns turns ([], s0, ps0)).2.
Proof.
  unfold take_turns. intros H.
  enough (forall x, pool_run s0 ps0 x.1.1 x.1.2 x.2 ->
    let y := foldl (fun x t => turn t.1 t.2 x) x turns in pool_run s0 ps0 y.1.1 y.1.2 y.2) as E
    by (apply (E ([], s0, ps0)), pool_start).
  induction H as [|[i h] turns Hh _ IH]; intros [[tr s] ps] Hx; [exact Hx|]. cbn [foldl]. apply IH.
  cbn [turn fst snd] in *. destruct (ps !! i) as [[a|e|c k]|] eqn:Ei; [exact Hx..| |exact Hx].
  pose proof (Hh c s) as Ha. destruct (h c s) as [r s']. by eapply pool_call.
Qed.

(** A call is made only when the calls of its own thread before it allow it. *)
Lemma pool_guarded (P : list (event R) -> event R -> Prop) s0 ps0 tr s ps :
  Forall (guarded P []) ps0 -> pool_run s0 ps0 tr s ps ->
  forall pre i e post, tr = pre ++ (i, e) :: post -> P (calls_of i pre) e.
Proof.
  intros Hg Hrun pre i e post ->.
  assert (exists p, ps0 !! i = Some p) as [p Hp].
  { clear Hg. remember (pre ++ (i, e) :: post) as tr eqn:E. revert pre post E.
    induction Hrun as [|tr s ps j c k r s' Hrun IH Hj _]; intros pre post E; [by destruct pre|].
    destruct post as [|x post _] using rev_ind.
    - apply app_inj_tail in E as [_ E]. injection E as -> _.
      apply lookup_lt_is_Some_2. rewrite <- (pool_length _ _ _ _ _ Hrun). by eapply lookup_lt_Some.
    - rewrite app_comm_cons, app_assoc in E. apply app_inj_tail in E as [-> _]. by eapply IH. }
  destruct (pool_steps _ _ _ _ _ Hrun i p Hp) as (p' & _ & Hs).
  eapply steps_guarded; [|exact Hs|]; [by eapply Forall_lookup_1|].
  rewrite calls_of_app. cbn. by rewrite decide_True by done.
Qed.

(** A property of what happened so far and of the state, kept by every call the
    threads may make, holds in every reachable configuration. *)
Lemma pool_invariant (P : list (event R) -> event R -> Prop) (I : log -> S -> Prop) s0 ps0 :
  Forall (guarded P []) ps0 -> I [] s0 ->
  (forall tr s i e s', I tr s -> P (calls_of i tr) e -> answers s e s' -> I (tr ++ [(i, e)]) s') ->
  forall tr s ps, pool_run s0 ps0 tr s ps -> I tr s.
Proof.
  intros Hg H0 Hstep tr s ps Hrun. induction Hrun as [|tr s ps i c k r s' Hrun IH Hi Ha]; [done|].
  eapply Hstep; [exact IH| |exact Ha].
  eapply pool_guarded; [exact Hg|by eapply pool_call|done].
Qed.
End Pool.

(** ** Splits of a log *)

Lemma calls_of_split {C} {R : C -> Type} i (l : list (nat * event R)) b e a :
  calls_of i l = b ++ e :: a ->
  exists l1 l2, l = l1 ++ (i, e) :: l2 /\ calls_of i l1 = b /\ calls_of i l2 = a.
Proof.
  revert b. induction l as [|[j x] l IH]; intros b H; [by destruct b|]. cbn in H.
  destruct (decide (i = j)) as [<-|Hne]; cbn in H.
  - destruct b as [|y b]; injection H as -> H; [by exists [], l|].
    destruct (IH b H) as (l1 & l2 & -> & <- & <-). exists ((i, y) :: l1), l2.
    split; [done|]. cbn. by rewrite decide_True by done.
  - destruct (IH b H) as (l1 & l2 & -> & <- & <-). exists ((j, x) :: l1), l2.
    split; [done|]. cbn. by rewrite decide_False by done.
Qed.

(** An element is where it is. *)
Lemma same_place {A B} (f : A -> list B) l1 x l2 l1' y l2' k :
  l1 ++ x :: l2 = l1' ++ y :: l2' -> NoDup (flat_map f (l1 ++ x :: l2)) ->
  k ∈ f x -> k ∈ f y -> l1 = l1' /\ x = y /\ l2 = l2'.
Proof.
  revert l1'. induction l1 as [|z l1 IH]; intros [|z' l1'] E Hn Hx Hy; cbn in E.
  - by injection E as -> ->.
  - injection E as -> ->. exfalso. cbn in Hn. apply NoDup_app in Hn as (_ & Hn & _). apply (Hn k Hx).
    apply list_elem_of_In, in_flat_map. exists y. rewrite <- !list_elem_of_In.
    split; [apply elem_of_app; right; by left|done].
  - injection E as -> <-. exfalso. cbn in Hn. apply NoDup_app in Hn as (_ & Hn & _). apply (Hn k Hy).
    apply list_elem_of_In, in_flat_map. exists x. rewrite <- !list_elem_of_In.
    split; [apply elem_of_app; right; by left|done].
  - injection E as -> E. cbn in Hn. apply NoDup_app in Hn as (_ & _ & Hn).
    destruct (IH _ E Hn Hx Hy) as (-> & -> & ->). done.
Qed.

(** ** Counting over the threads *)

Lemma sum_bump (g h : nat -> nat) i n l :
  NoDup l -> i ∈ l -> (forall j, j <> i -> h j = g j) -> h i = (n + g i)%nat ->
  sum_list_with h l = (n + sum_list_with g l)%nat.
Proof.
  intros Hn Hi Ho He. induction Hn as [|j l Hj Hn IH]; [by apply elem_of_nil in Hi|]. cbn.
  apply elem_of_cons in Hi as [<-|Hi].
  - rewrite He. assert (sum_list_with h l = sum_list_with g l) as ->; [|lia].
    clear IH. induction l as [|k l IH]; [done|]. cbn. apply not_elem_of_cons in Hj as [Hk Hj].
    apply NoDup_cons in Hn as [_ Hn]. rewrite (Ho k) by done. by rewrite IH.
  - rewrite (Ho j) by (intros ->; done). rewrite IH by done. lia.
Qed.

(** What is counted in a log is counted in the calls of its threads. *)
Lemma calls_counted {C} {R : C -> Type} (f : event R -> bool) (tr : list (nat * event R)) l :
  NoDup l -> (forall i e, (i, e) ∈ tr -> i ∈ l) ->
  length (List.filter f (map snd tr)) = sum_list_with (fun i => length (List.filter f (calls_of i tr))) l.
Proof.
  intros Hn. induction tr as [|[i e] tr IH]; intros Hi.
  - cbn. clear Hn Hi. induction l as [|j l IH]; [done|]. cbn. exact IH.
  - symmetry. rewrite (sum_bump (fun i => length (List.filter f (calls_of i tr))) _ i (if f e then 1 else 0)%nat).
    + rewrite <- IH by (intros j y Hy; apply (Hi j y); by right). cbn. by destruct (f e).
    + done.
    + apply (Hi i e). by left.
    + intros j Hj. cbn. by rewrite decide_False.
    + cbn. rewrite decide_True by done. cbn. by destruct (f e).
Qed.

Lemma sum_le (g h : nat -> nat) l : (forall i, i ∈ l -> g i <= h i)%nat -> (sum_list_with g l <= sum_list_with h l)%nat.
Proof.
  induction l as [|j l IH]; intros H; [done|]. cbn. apply Nat.add_le_mono; [apply H; by left|].
  apply IH. intros i Hi. apply H. by right.
Qed.

Lemma pool_indices {C} {R : C -> Type} {S} (answers : S -> event R -> S -> Prop) s0 ps0 tr s ps :
  pool_run answers s0 ps0 tr s ps -> forall i e, (i, e) ∈ tr -> i ∈ seq 0 (length ps0).
Proof.
  induction 1 as [|tr s ps i c k r s' Hrun IH Hi _]; intros j e Hj; [by apply elem_of_nil in Hj|].
  apply elem_of_app in Hj as [Hj|Hj%list_elem_of_singleton]; [by eapply IH|]. injection Hj as -> _.
  apply elem_of_seq. rewrite <- (pool_length _ _ _ _ _ _ Hrun). apply lookup_lt_Some in Hi. lia.
Qed.
