(* ===== verification/RingsTypes.v ===== *)
(** * Helius Rings: the state machine and the intent of an operation

    [packages/sdp-helius-rings/src] ([constants.ts], [types.ts], [state-machine.ts],
    [errors.ts]) and, of [apps/sdp-api/src/services/helius-rings], [adapter-error.ts],
    [policy-envelope.ts] and the idempotency key of [service.ts]. *)
From Stdlib Require Import Ascii String ZArith Lia.
From stdpp Require Import base list strings relations.
From S2P Require Import Prelude Text PolicyTypes PolicyEnforce Idempotency.

Local Open Scope string_scope.
Local Open Scope Z_scope.
Local Open Scope sdp_scope.

(** ** Constants *)

Inductive OperationState :=
| op_draft | op_preparing | op_approval_required | op_proving | op_ready_to_sign
| op_submitted | op_indexing | op_completed | op_failed.

Inductive OpType :=
| shield | transfer_registered | transfer_anonymous | withdraw | merge
| timelock_create | timelock_settle | zone_create.

Inductive FailureCode :=
| policy_denied | approval_rejected | proof_failed | signer_failed | submit_failed
| indexing_timeout | gateway_unavailable | invalid_input | insufficient_balance.

Inductive TransferMode := registered | anonymous.
Inductive MaterialTag := simulated | live.
Inductive WalletStatus := wallet_pending | wallet_ready | wallet_paused.

#[export] Instance OperationState_eq_dec : EqDecision OperationState.
Proof. solve_decision. Defined.
#[export] Instance OpType_eq_dec : EqDecision OpType.
Proof. solve_decision. Defined.
#[export] Instance FailureCode_eq_dec : EqDecision FailureCode.
Proof. solve_decision. Defined.
#[export] Instance TransferMode_eq_dec : EqDecision TransferMode.
Proof. solve_decision. Defined.
#[export] Instance MaterialTag_eq_dec : EqDecision MaterialTag.
Proof. solve_decision. Defined.
#[export] Instance WalletStatus_eq_dec : EqDecision WalletStatus.
Proof. solve_decision. Defined.

Definition state_text (s : OperationState) : string :=
  match s with
  | op_draft => "draft" | op_preparing => "preparing"
  | op_approval_required => "approval_required" | op_proving => "proving"
  | op_ready_to_sign => "ready_to_sign" | op_submitted => "submitted"
  | op_indexing => "indexing" | op_completed => "completed" | op_failed => "failed"
  end.

Definition op_type_text (t : OpType) : string :=
  match t with
  | shield => "shield" | transfer_registered => "transfer_registered"
  | transfer_anonymous => "transfer_anonymous" | withdraw => "withdraw" | merge => "merge"
  | timelock_create => "timelock_create" | timelock_settle => "timelock_settle"
  | zone_create => "zone_create"
  end.

Definition failure_code_text (c : FailureCode) : string :=
  match c with
  | policy_denied => "policy_denied" | approval_rejected => "approval_rejected"
  | proof_failed => "proof_failed" | signer_failed => "signer_failed"
  | submit_failed => "submit_failed" | indexing_timeout => "indexing_timeout"
  | gateway_unavailable => "gateway_unavailable" | invalid_input => "invalid_input"
  | insufficient_balance => "insufficient_balance"
  end.

Definition transfer_mode_text (m : TransferMode) : string :=
  match m with registered => "registered" | anonymous => "anonymous" end.

Definition material_tag_text (m : MaterialTag) : string :=
  match m with simulated => "simulated" | live => "live" end.

(** ** The state machine *)

Inductive TransitionGuard :=
| policy_ok | approved | proof_received | signed | guard_submitted | indexed.

#[export] Instance TransitionGuard_eq_dec : EqDecision TransitionGuard.
Proof. solve_decision. Defined.

Record FailEdge := mkFailEdge { edge_code : FailureCode; edge_retryable : bool }.

Record Transition := mkTransition {
  from_state : OperationState;
  to_state : OperationState;
  guard : option TransitionGuard;
  onFail : option FailEdge;
}.

Definition TRANSITIONS : list Transition :=
  [mkTransition op_draft op_preparing None None;
   mkTransition op_preparing op_approval_required (Some policy_ok) (Some (mkFailEdge policy_denied false));
   mkTransition op_approval_required op_proving (Some approved) (Some (mkFailEdge approval_rejected false));
   mkTransition op_proving op_ready_to_sign (Some proof_received) (Some (mkFailEdge proof_failed true));
   mkTransition op_ready_to_sign op_submitted (Some signed) (Some (mkFailEdge signer_failed true));
   mkTransition op_submitted op_indexing (Some guard_submitted) (Some (mkFailEdge submit_failed true));
   mkTransition op_indexing op_completed (Some indexed) (Some (mkFailEdge indexing_timeout true))].

Definition nextState (current : OperationState) (g : option TransitionGuard)
    : option OperationState :=
  to_state <$> List.find (fun t => bool_decide (from_state t = current) && bool_decide (guard t = g))
    TRANSITIONS.

Definition failEdgeFor (current : OperationState) : option FailEdge :=
  mbind onFail (List.find (fun t => bool_decide (from_state t = current) && bool_decide (is_Some (onFail t)))
    TRANSITIONS).

(** ** The intent *)

Record OperationAsset := mkAsset { asset_mint : string; asset_amountRaw : string }.
Record OperationTimelock := mkTimelock { unlockAt : string; beneficiary : string }.

Record PrivateOperationInput := mkOperationInput {
  in_walletId : string;
  in_opType : OpType;
  in_asset : option OperationAsset;
  in_from : option string;
  in_to : option string;
  in_zoneId : option string;
  in_transferMode : option TransferMode;
  in_timelock : option OperationTimelock;
  clientNonce : string;
}.

#[export] Instance OperationAsset_eq_dec : EqDecision OperationAsset.
Proof. solve_decision. Defined.
#[export] Instance OperationTimelock_eq_dec : EqDecision OperationTimelock.
Proof. solve_decision. Defined.
#[export] Instance PrivateOperationInput_eq_dec : EqDecision PrivateOperationInput.
Proof. solve_decision. Defined.

(** The object [computeIntentKey] stringifies. *)
Definition intent_canonical (i : PrivateOperationInput) : payload :=
  VObject
    [("walletId", VString (in_walletId i));
     ("opType", VString (op_type_text (in_opType i)));
     ("asset", match in_asset i with
               | Some a => VObject [("mint", VString (asset_mint a)); ("amountRaw", VString (asset_amountRaw a))]
               | None => VNull
               end);
     ("from", nullable (in_from i));
     ("to", nullable (in_to i));
     ("zoneId", nullable (in_zoneId i));
     ("transferMode", nullable (transfer_mode_text <$> in_transferMode i));
     ("timelock", match in_timelock i with
                  | Some t => VObject [("unlockAt", VString (unlockAt t)); ("beneficiary", VString (beneficiary t))]
                  | None => VNull
                  end);
     ("clientNonce", VString (clientNonce i))].

Definition computeIntentKey (sha256 : list ascii -> list Z) (i : PrivateOperationInput) : string :=
  "sha256:" ++ text (hex_digest sha256 (stringify (intent_canonical i))).

(** ** Failures of the adapters *)

Definition RingsAdapterError (code : FailureCode) (message : string) (retryable : bool) : jserr :=
  RetryableError "RingsAdapterError" (failure_code_text code) message retryable.

Definition HeliusRingsError (code message : string) : jserr :=
  CodedError "HeliusRingsError" code message None.

(** [error instanceof RingsAdapterError], with what it carries: its code is one of two. *)
Definition adapter_error (e : jserr) : option (FailureCode * string * bool) :=
  match e with
  | RetryableError class code message retryable =>
      if negb (String.eqb class "RingsAdapterError") then None
      else if String.eqb code "signer_failed" then Some (signer_failed, message, retryable)
      else if String.eqb code "submit_failed" then Some (submit_failed, message, retryable)
      else None
  | _ => None
  end.

(** ** The policy envelope *)

Definition ringsEnvelopeKind (t : OpType) : WalletOperationType :=
  match t with
  | shield => rings_shield | transfer_registered => rings_transfer_registered
  | transfer_anonymous => rings_transfer_anonymous | withdraw => rings_withdraw
  | merge => rings_merge | timelock_create => rings_timelock_create
  | timelock_settle => rings_timelock_settle | zone_create => rings_zone_create
  end.

Record BuildRingsWalletOperationInput := mkEnvelopeInput {
  env_organizationId : string;
  env_projectId : string;
  env_custodyWalletId : option string;
  env_sdpWalletId : string;
  env_apiKeyId : option string;
  env_actor : option WalletOperationActor;
  env_operation : PrivateOperationInput;
  env_operationId : string;
  env_intentKey : string;
}.

Definition json_nullable (o : option string) : json :=
  match o with Some s => JString s | None => JNull end.

Definition buildRingsWalletOperationInput (i : BuildRingsWalletOperationInput)
    : CreateWalletOperationInput :=
  let operation := env_operation i in
  mkCreateOperation
    (mkCandidate (env_organizationId i) (Some (env_projectId i)) (env_custodyWalletId i)
       (env_sdpWalletId i) (env_apiKeyId i) (env_actor i)
       (match env_apiKeyId i, env_actor i with None, None => "system" | _, _ => "api" end)
       transfer (ringsEnvelopeKind (in_opType operation))
       (asset_mint <$> in_asset operation) (asset_amountRaw <$> in_asset operation) (in_to operation)
       [("ringsOperationId", JString (env_operationId i));
        ("ringsWalletId", JString (in_walletId operation));
        ("transferMode", json_nullable (transfer_mode_text <$> in_transferMode operation));
        ("zoneId", json_nullable (in_zoneId operation))]
       [])
    []
    [("opType", JString (op_type_text (in_opType operation)));
     ("intentKey", JString (env_intentKey i));
     ("timelock", match in_timelock operation with
                  | Some t => JObject [("unlockAt", JString (unlockAt t)); ("beneficiary", JString (beneficiary t))]
                  | None => JNull
                  end)]
    (Some (env_intentKey i)) None.

(** * Lemmas *)

(** ** Steps of the machine *)

(** How far along the happy path a state is; a failed operation has left it. *)
Definition rank (s : OperationState) : Z :=
  match s with
  | op_draft => 0 | op_preparing => 1 | op_approval_required => 2 | op_proving => 3
  | op_ready_to_sign => 4 | op_submitted => 5 | op_indexing => 6 | op_completed => 7
  | op_failed => -1
  end.

Definition terminal (s : OperationState) : bool := bool_decide (s = op_completed \/ s = op_failed).

Lemma nextState_step s g s' :
  nextState s g = Some s' -> rank s' = rank s + 1 /\ 0 <= rank s /\ s' <> op_failed /\ terminal s = false.
Proof.
  destruct s, g as [[]|]; intros H; vm_compute in H; try discriminate; injection H as <-; cbn;
    (split; [lia|split; [lia|done]]).
Qed.

(** A state that is not terminal is left by one guard, and by one failure. *)
Lemma nextState_total s : terminal s = false <-> exists g s', nextState s g = Some s'.
Proof.
  split; [|by intros (g & s' & (_ & _ & _ & H)%nextState_step)].
  destruct s; try done; intros _; [exists None|exists (Some policy_ok)|exists (Some approved)
    |exists (Some proof_received)|exists (Some signed)|exists (Some guard_submitted)|exists (Some indexed)];
    by eexists.
Qed.

Lemma failEdge_total s : failEdgeFor s = None <-> s = op_draft \/ terminal s = true.
Proof. destruct s; vm_compute; naive_solver. Qed.

(** ** Texts *)

Lemma op_type_text_inj t t' : op_type_text t = op_type_text t' -> t = t'.
Proof. by destruct t, t'. Qed.

Lemma transfer_mode_text_inj m m' : transfer_mode_text m = transfer_mode_text m' -> m = m'.
Proof. by destruct m, m'. Qed.

Lemma adapter_error_of c m b :
  c = signer_failed \/ c = submit_failed -> adapter_error (RingsAdapterError c m b) = Some (c, m, b).
Proof. by intros [-> | ->]. Qed.

Lemma adapter_error_code e c m b : adapter_error e = Some (c, m, b) -> c = signer_failed \/ c = submit_failed.
Proof.
  destruct e as [| |class code message retryable| |]; try done. unfold adapter_error.
  destruct (negb _); [done|]. destruct (String.eqb code "signer_failed"); [intros [= <- _ _]; by left|].
  destruct (String.eqb code "submit_failed"); [intros [= <- _ _]; by right|done].
Qed.

(** ** Objects of objects

    The text of a value made of strings, nulls and objects is not a proper prefix of
    another's, so what is written is read back. *)
Section Textual.

Fixpoint textual (v : payload) : bool :=
  match v with
  | VNull | VString _ => true
  | VObject fields => forallb (fun '(_, x) => textual x) fields
  | _ => false
  end.

Definition member_text (f : string * payload) : list ascii :=
  (chars (json_string (fst f)) ++ ":"%char :: stringify (snd f))%list.

Lemma textual_object fs :
  textual (VObject fs) = true ->
  stringify (VObject fs) = ("{"%char :: join [","%char] (map member_text fs) ++ ["}"%char])%list.
Proof.
  intros H. cbn [stringify]. do 2 f_equal. f_equal. cbn [textual] in H.
  induction fs as [|[k v] fs IH]; [done|]. cbn [forallb flat_map map] in *.
  apply andb_true_iff in H as [Hv H]. rewrite IH by done. by destruct v.
Qed.

(** Objects whose members are told apart are told apart. *)
Lemma members_inj fs fs' r r' :
  Forall (fun f => forall v' q q', textual v' = true ->
            (stringify (snd f) ++ q = stringify v' ++ q')%list -> snd f = v' /\ q = q') fs ->
  forallb (fun '(_, x) => textual x) fs' = true ->
  (join [","%char] (map member_text fs) ++ "}"%char :: r
   = join [","%char] (map member_text fs') ++ "}"%char :: r')%list ->
  fs = fs' /\ r = r'.
Proof.
  assert (forall f f' q q', (forall v' q q', textual v' = true ->
            (stringify (snd f) ++ q = stringify v' ++ q')%list -> snd f = v' /\ q = q') ->
          textual (snd f') = true -> (member_text f ++ q = member_text f' ++ q')%list -> f = f' /\ q = q')
    as Hone.
  { intros [k v] [k' v'] q q' Hf Ht E. unfold member_text in E. cbn [fst snd] in *.
    rewrite <- !app_assoc in E. apply json_string_inj in E as [-> [= E]].
    by apply Hf in E as [-> ->]. }
  destruct fs as [|f fs], fs' as [|f' fs']; cbn [map]; rewrite ?join_cons.
  - intros _ _ [= ->]. done.
  - intros _ _ E. rewrite <- app_assoc in E. by cbn in E.
  - intros _ _ E. rewrite <- app_assoc in E. by cbn in E.
  - intros [Hf Hfs]%Forall_cons Ht E. rewrite <- !app_assoc in E. cbn [forallb] in Ht.
    destruct f' as [k' v'], (andb_prop _ _ Ht) as [Hv Ht'].
    apply (Hone f (k', v')) in E as [-> E]; [|done..]. clear Hf Hv Ht.
    assert (fs = fs' /\ r = r') as [-> ->]; [|done].
    revert fs' Ht' E. induction Hfs as [|g fs Hg _ IH]; intros [|[k v] fs']; cbn [map flat_map app forallb].
    + by intros _ [= ->].
    + done.
    + done.
    + intros [Hv Ht]%andb_prop E. apply (f_equal (@tl ascii)) in E. cbn [tl] in E.
      rewrite <- !app_assoc in E. apply (Hone g (k, v)) in E as [-> E]; [|done..].
      by apply IH in E as [-> ->].
Qed.

Fixpoint textual_inj (v : payload) :
  textual v = true -> forall v' q q', textual v' = true ->
  (stringify v ++ q = stringify v' ++ q')%list -> v = v' /\ q = q'.
Proof.
  destruct v as [| | | |s| | |fs]; try done; intros Hv v' q q' Hv'.
  - destruct v' as [| | | |s'| | |fs']; try done. by intros [= ->].
  - destruct v' as [| | | |s'| | |fs']; try done.
    intros E. by apply json_string_inj in E as [-> ->].
  - destruct v' as [| | | |s'| | |fs']; try done. rewrite (textual_object fs Hv).
    rewrite (textual_object fs' Hv'). cbn [app]. intros [= E]. rewrite <- !app_assoc in E. cbn [app] in E.
    apply members_inj in E as [-> ->]; [done| |done]. clear -Hv textual_inj.
    induction fs as [|[k v] fs IH]; [constructor|]. cbn [textual forallb] in Hv.
    apply andb_prop in Hv as [Hv Hfs]. constructor; [exact (textual_inj v Hv)|by apply IH].
Qed.
End Textual.

(** ** The text of an intent *)

Lemma nullable_inj o o' : nullable o = nullable o' -> o = o'.
Proof. destruct o, o'; cbn; congruence. Qed.

Lemma nullable_textual o : textual (nullable o) = true.
Proof. by destruct o. Qed.

Lemma intent_textual i : textual (intent_canonical i) = true.
Proof.
  unfold intent_canonical. cbn [textual forallb]. rewrite !nullable_textual.
  by destruct (in_asset i), (in_timelock i).
Qed.

Lemma intent_canonical_inj i j : intent_canonical i = intent_canonical j -> i = j.
Proof.
  destruct i as [w t a f o z m l n], j as [w' t' a' f' o' z' m' l' n']. unfold intent_canonical. cbn.
  intros [= -> Ht Ha Hf Ho Hz Hm Hl ->].
  apply op_type_text_inj in Ht as ->. apply nullable_inj in Hf as ->, Ho as ->, Hz as ->, Hm.
  assert (m = m') as ->. { destruct m as [m|], m' as [m'|]; try done. injection Hm as Hm.
    by apply transfer_mode_text_inj in Hm as ->. }
  assert (a = a') as ->. { destruct a as [[]|], a' as [[]|]; try done. by injection Ha as -> ->. }
  by assert (l = l') as -> by (destruct l as [[]|], l' as [[]|]; try done; by injection Hl as -> ->).
Qed.

Lemma intent_text_inj i j :
  stringify (intent_canonical i) = stringify (intent_canonical j) -> i = j.
Proof.
  intros E. apply intent_canonical_inj.
  apply (textual_inj _ (intent_textual i) _ [] [] (intent_textual j)). by rewrite !app_nil_r.
Qed.

Lemma hex_digit_inj a b : 0 <= a < 16 -> 0 <= b < 16 -> hex_digit a = hex_digit b -> a = b.
Proof.
  assert (Forall (fun n => hex_nibble (hex_digit n) = n) (map Z.of_nat (seq 0 16))) as H
    by (vm_compute; repeat constructor).
  rewrite Forall_forall in H. intros Ha Hb.
  assert (forall n, 0 <= n < 16 -> hex_nibble (hex_digit n) = n) as Hn.
  { intros n Hn. apply H, list_elem_of_In, in_map_iff. exists (Z.to_nat n). split; [lia|].
    apply in_seq. lia. }
  intros E. by rewrite <- (Hn a Ha), E, (Hn b Hb).
Qed.

Lemma hex_bytes_inj bs bs' :
  Forall (fun b => 0 <= b < 256) bs -> Forall (fun b => 0 <= b < 256) bs' ->
  flat_map (fun b => [hex_digit (b / 16); hex_digit (b mod 16)]) bs
  = flat_map (fun b => [hex_digit (b / 16); hex_digit (b mod 16)]) bs' -> bs = bs'.
Proof.
  intros H. revert bs'. induction H as [|b bs Hb _ IH]; intros [|b' bs']; try done.
  intros [Hb' H']%Forall_cons. cbn [flat_map app]. intros [= E1 E2 E].
  assert (forall n, 0 <= n < 256 -> 0 <= n / 16 < 16 /\ 0 <= n mod 16 < 16) as Hr.
  { intros n Hn. split; [split; [by apply Z.div_pos; lia|by apply Z.div_lt_upper_bound; lia]|].
    by apply Z.mod_pos_bound. }
  apply hex_digit_inj in E1; [|by apply Hr..]. apply hex_digit_inj in E2; [|by apply Hr..].
  rewrite (IH bs') by done. f_equal. rewrite (Z.div_mod b 16), (Z.div_mod b' 16) by lia. congruence.
Qed.

(** * Theorems *)

(** Two requests have one intent key exactly when they are the same request, every
    field of the operation and the nonce included, where the digest is bytes and tells
    their texts apart. *)
Theorem intent_key_identifies sha256 i j :
  (forall l, Forall (fun b => 0 <= b < 256) (sha256 l)) ->
  (sha256 (stringify (intent_canonical i)) = sha256 (stringify (intent_canonical j)) ->
     stringify (intent_canonical i) = stringify (intent_canonical j)) ->
  computeIntentKey sha256 i = computeIntentKey sha256 j <-> i = j.
Proof.
  intros Hb Hc. split; [|by intros ->]. unfold computeIntentKey, hex_digest. intros E.
  apply append_inj_l, (f_equal chars) in E. rewrite !chars_text in E.
  by apply hex_bytes_inj, Hc, intent_text_inj in E.
Qed.

(** A digest of 32 bytes. *)
Lemma intent_key_identifies_witness :
  let asset raw := Some (mkAsset "So11111111111111111111111111111111111111112" raw) in
  let request raw := mkOperationInput "wallet" shield (asset raw) None (Some "to") None None None "nonce" in
  let sha256 l := map (fun b => (b + Z.of_nat (length l)) mod 256)
                    (map code (firstn 32 (skipn (length l - 60) l))) in
  computeIntentKey sha256 (request "10") = computeIntentKey sha256 (request "10")
  /\ computeIntentKey sha256 (request "10") <> computeIntentKey sha256 (request "100").
Proof.
  intros asset request sha256.
  assert (forall l, Forall (fun b => 0 <= b < 256) (sha256 l)) as Hb.
  { intros l. apply Forall_map, Forall_forall. intros b _. by apply Z.mod_pos_bound. }
  split.
  - apply (intent_key_identifies sha256 (request "10") (request "10") Hb); [done|done].
  - intros E. apply (intent_key_identifies sha256 (request "10") (request "100") Hb) in E; [discriminate|].
    vm_compute. discriminate.
Defined.
