(* ===== verification/RingsRedaction.v ===== *)
(** * Helius Rings: what an event may carry

    [redactHeliusRingsEventPayload] of
    [apps/sdp-api/src/db/repositories/helius-rings-event.repository.ts], with the keys of
    [apps/sdp-api/src/runtime/log-redaction.ts]. A payload is a graph of objects and
    arrays in a heap, which may share nodes and have cycles; what is written is a tree.
    A key is never [__proto__]. *)
From Stdlib Require Import Ascii String ZArith Lia.
From stdpp Require Import base list strings sets.
From S2P Require Import Prelude PolicyTypes.

Local Open Scope string_scope.
Local Open Scope list_scope.

Definition REDACTION_CENSOR : string := "[REDACTED]".

Definition REDACTED_LEAF_FIELDS : list string := ["viewingKey"; "nullifierKey"; "ringsMetadata"].

Definition CENSORED_KEYS : list string := REDACTED_LEAF_FIELDS ++ ["material"; "ciphertext"].

Definition CENSORED_PROOF_KEYS : list string := ["ref"; "internal"].

Definition has_key (keys : list string) (key : string) : bool := existsb (String.eqb key) keys.

Definition shouldCensor (key : string) (parentKey : option string) : bool :=
  has_key CENSORED_KEYS key || (bool_decide (parentKey = Some "proof") && has_key CENSORED_PROOF_KEYS key).

(** ** Values and the objects they refer to *)

Inductive js_value :=
| PNull
| PBool (b : bool)
| PNumber (n : Z)
| PString (s : string)
| PRef (address : nat).

Inductive js_node :=
| NArray (items : list js_value)
| NObject (entries : list (string * js_value)).

Abbreviation js_heap := (list js_node).

Definition primitive (v : js_value) : json :=
  match v with
  | PBool b => JBool b
  | PNumber n => JNumber n
  | PString s => JString s
  | PNull | PRef _ => JNull
  end.

(** The entries of the object a value refers to: [entry !== null && typeof entry ===
    "object" && !Array.isArray(entry)]. *)
Definition object_entries (h : js_heap) (v : js_value) : option (list (string * js_value)) :=
  match v with
  | PRef a => match h !! a with Some (NObject es) => Some es | _ => None end
  | _ => None
  end.

Abbreviation seen_set := (list nat).

(** Left to right over the members, each seeing what those before it have seen. *)
Section Members.
Context {A B : Type} (f : A -> seen_set -> option (B * seen_set)).

Fixpoint map_seen (l : list A) (seen : seen_set) : option (list B * seen_set) :=
  match l with
  | [] => Some ([], seen)
  | x :: rest =>
      '(y, seen1) ← f x seen; '(ys, seen2) ← map_seen rest seen1; Some (y :: ys, seen2)
  end.
End Members.

(** The two loops over entries, given the recursive call. *)
Section Entries.
Context (h : js_heap) (self : js_value -> seen_set -> option (json * seen_set)).

Definition redact_proof_entry (e : string * js_value) (seen : seen_set)
    : option (string * json * seen_set) :=
  let '(proofKey, proofEntry) := e in
  if shouldCensor proofKey (Some "proof") then Some ((proofKey, JString REDACTION_CENSOR), seen)
  else '(y, seen') ← self proofEntry seen; Some ((proofKey, y), seen').

Definition redact_entry (e : string * js_value) (seen : seen_set)
    : option (string * json * seen_set) :=
  let '(key, entry) := e in
  if shouldCensor key None then Some ((key, JString REDACTION_CENSOR), seen)
  else
    match (if String.eqb key "proof" then object_entries h entry else None) with
    | Some proof =>
        '(inner, seen') ← map_seen redact_proof_entry proof seen; Some ((key, JObject inner), seen')
    | None => '(y, seen') ← self entry seen; Some ((key, y), seen')
    end.
End Entries.

(** One unit of fuel for each level of the recursion. *)
Fixpoint redact (fuel : nat) (h : js_heap) (v : js_value) (seen : seen_set)
    : option (json * seen_set) :=
  match fuel with
  | O => None
  | S fuel =>
      match v with
      | PRef a =>
          if bool_decide (a ∈ seen) then Some (JString "[Circular]", seen)
          else
            let seen := a :: seen in
            match h !! a with
            | None => None
            | Some (NArray items) =>
                '(ys, seen') ← map_seen (redact fuel h) items seen; Some (JArray ys, seen')
            | Some (NObject entries) =>
                '(fields, seen') ← map_seen (redact_entry h (redact fuel h)) entries seen;
                Some (JObject fields, seen')
            end
      | _ => Some (primitive v, seen)
      end
  end.

(** One level more than there are nodes. *)
Definition redactHeliusRingsEventPayload (h : js_heap) (v : js_value) : option json :=
  fst <$> redact (S (length h)) h v [].

(** ** What a redacted payload is *)

(** Every address of the graph is of a node. *)
Definition value_ok (h : js_heap) (v : js_value) : Prop :=
  match v with PRef a => a < length h | _ => True end.

Definition node_values (n : js_node) : list js_value :=
  match n with NArray items => items | NObject entries => map snd entries end.

Definition heap_ok (h : js_heap) : Prop := Forall (fun n => Forall (value_ok h) (node_values n)) h.

Definition is_censor (j : json) : bool :=
  match j with JString s => String.eqb s "[REDACTED]" | _ => false end.

(** The secrets a payload may carry, and those in the object under a [proof]. *)
Definition secret_keys : list string := ["viewingKey"; "nullifierKey"; "ringsMetadata"; "material"; "ciphertext"].

Definition proof_secrets : list string := ["ref"; "internal"].

(** At any depth, only the censor stands under a key of a secret; [proofs]: nor anything
    else under one of the secrets of a proof, in any object under a [proof]. *)
Fixpoint hides (proofs in_proof : bool) (j : json) : bool :=
  match j with
  | JArray items => forallb (hides proofs false) items
  | JObject fields =>
      forallb (fun '(key, x) =>
        if bool_decide (key ∈ secret_keys) || (proofs && in_proof && bool_decide (key ∈ proof_secrets)) then is_censor x
        else hides proofs (bool_decide (key = "proof")) x) fields
  | _ => true
  end.

(** No object under a [proof] has an object under a [proof] of its own. *)
Definition proofs_apart (h : js_heap) : Prop :=
  forall outer a inner x, NObject outer ∈ h -> ("proof", PRef a) ∈ outer -> h !! a = Some (NObject inner) ->
    ("proof", x) ∈ inner -> object_entries h x = None.

(** The redaction of a tree. *)
Fixpoint redacted (j : json) : json :=
  match j with
  | JArray items => JArray (map redacted items)
  | JObject fields =>
      JObject (map (fun '(key, entry) =>
        (key,
         if shouldCensor key None then JString REDACTION_CENSOR
         else
           match entry with
           | JObject proof =>
               if String.eqb key "proof" then
                 JObject (map (fun '(proofKey, x) =>
                   (proofKey, if shouldCensor proofKey (Some "proof") then JString REDACTION_CENSOR
                              else redacted x)) proof)
               else redacted entry
           | _ => redacted entry
           end)) fields)
  | _ => j
  end.

(** A value of the heap that is a tree: no node is reached twice. *)
Inductive tree_at (h : js_heap) : js_value -> json -> list nat -> Prop :=
| tree_primitive v : (forall a, v <> PRef a) -> tree_at h v (primitive v) []
| tree_array a items js addresses :
    h !! a = Some (NArray items) -> trees_at h items js addresses ->
    tree_at h (PRef a) (JArray js) (a :: addresses)
| tree_object a entries js addresses :
    h !! a = Some (NObject entries) -> trees_at h (map snd entries) js addresses ->
    tree_at h (PRef a) (JObject (combine (map fst entries) js)) (a :: addresses)
with trees_at (h : js_heap) : list js_value -> list json -> list nat -> Prop :=
| trees_nil : trees_at h [] [] []
| trees_cons v vs j js l ls :
    tree_at h v j l -> trees_at h vs js ls -> trees_at h (v :: vs) (j :: js) (l ++ ls).

(** * Lemmas *)

(** ** Nodes not reached yet *)

Definition unseen (h : js_heap) (seen : seen_set) : nat :=
  length (List.filter (fun a => negb (bool_decide (a ∈ seen))) (seq 0 (length h))).

Lemma filter_length_le {A} (p q : A -> bool) l :
  (forall x, x ∈ l -> p x = true -> q x = true) -> length (List.filter p l) <= length (List.filter q l).
Proof.
  induction l as [|x l IH]; intros H; [done|]. cbn [List.filter].
  assert (length (List.filter p l) <= length (List.filter q l)) by (apply IH; intros y Hy Hp; apply H; [by right|done]).
  specialize (H x ltac:(by left)). destruct (p x), (q x); cbn; try lia.
Qed.

Lemma unseen_le h seen seen' : seen ⊆ seen' -> unseen h seen' <= unseen h seen.
Proof.
  intros H. apply filter_length_le. intros a _. rewrite !negb_true_iff, !bool_decide_eq_false. auto.
Qed.

Lemma unseen_lt h seen a : a < length h -> a ∉ seen -> unseen h (a :: seen) < unseen h seen.
Proof.
  intros Ha Hs. unfold unseen.
  replace (length h) with (a + S (length h - S a)) by lia.
  rewrite seq_app, !List.filter_app, !length_app. cbn [plus seq List.filter].
  rewrite (bool_decide_eq_true_2 (a ∈ a :: seen)) by by left.
  rewrite (bool_decide_eq_false_2 (a ∈ seen)) by done. cbn [negb length].
  assert (forall l, length (List.filter (fun b => negb (bool_decide (b ∈ a :: seen))) l)
                    <= length (List.filter (fun b => negb (bool_decide (b ∈ seen))) l)) as Hle.
  { intros l. apply filter_length_le. intros b _. rewrite !negb_true_iff, !bool_decide_eq_false.
    intros Hb Hin. apply Hb. by right. }
  pose proof (Hle (seq 0 a)).
  pose proof (Hle (seq (S a) (length h - S a))).
  lia.
Qed.

(** ** The walk *)

(** A step that ends, sees more, and writes what is expected of it. *)
Definition good {B} (h : js_heap) (fuel : nat) (Q : B -> Prop) (f : seen_set -> option (B * seen_set))
    : Prop :=
  forall seen, unseen h seen < fuel -> exists y seen', f seen = Some (y, seen') /\ seen ⊆ seen' /\ Q y.

Lemma good_member {A B} h fuel (Q : B -> Prop) (f : A -> seen_set -> option (B * seen_set)) l :
  Forall (fun x => good h fuel Q (f x)) l ->
  good h fuel (fun ys => Forall Q ys) (map_seen f l).
Proof.
  induction 1 as [|x l Hx _ IH]; intros seen Hs; cbn [map_seen]; [by exists [], seen|].
  destruct (Hx seen Hs) as (y & s1 & -> & Hsub & Hy). cbn.
  destruct (IH s1) as (ys & s2 & -> & Hsub' & Hys). { pose proof (unseen_le h _ _ Hsub). lia. }
  cbn. exists (y :: ys), s2. split; [done|]. split; [set_solver|by constructor].
Qed.

Lemma good_pair {A B} h fuel (Q : A -> Prop) (P : B -> Prop) (f : seen_set -> option (A * seen_set)) (g : A -> B) :
  good h fuel Q f -> (forall a, Q a -> P (g a)) ->
  good h fuel P (fun seen => '(y, seen') ← f seen; Some (g y, seen')) .
Proof.
  intros Hf Hg seen Hs. destruct (Hf seen Hs) as (y & s' & -> & Hsub & Hy). cbn.
  exists (g y), s'. auto.
Qed.

(** A written member of an object, itself the object of a proof or not. *)
Definition member_hides (proofs in_proof : bool) (f : string * json) : Prop :=
  (if bool_decide (f.1 ∈ secret_keys) || (proofs && in_proof && bool_decide (f.1 ∈ proof_secrets)) then is_censor f.2
   else hides proofs (bool_decide (f.1 = "proof")) f.2) = true.

Lemma hides_object proofs in_proof fields :
  Forall (member_hides proofs in_proof) fields -> hides proofs in_proof (JObject fields) = true.
Proof.
  intros H. cbn [hides]. apply forallb_forall. intros [key x] Hx.
  rewrite Forall_forall in H. by apply (H (key, x)), list_elem_of_In.
Qed.

(** Of a value that is not an object, and without the proofs, both readings agree. *)
Lemma hides_any proofs in_proof j :
  hides proofs false j = true -> proofs = false \/ (forall fields, j <> JObject fields) -> hides proofs in_proof j = true.
Proof.
  destruct j as [| | | | |fields]; intros H [->|Hne]; try done. by destruct (Hne fields).
Qed.

(** The code censors the secrets and no [proof]. *)
Lemma has_key_elem keys key : has_key keys key = bool_decide (key ∈ keys).
Proof.
  apply eq_true_iff_eq. rewrite bool_decide_eq_true, list_elem_of_In. unfold has_key. rewrite existsb_exists. split.
  - by intros (k & Hk & ->%String.eqb_eq).
  - intros Hk. exists key. by rewrite String.eqb_refl.
Qed.

Lemma secret_censored key parent : key ∈ secret_keys -> shouldCensor key parent = true.
Proof.
  intros H. unfold shouldCensor. rewrite has_key_elem, bool_decide_eq_true_2; [done|]. exact H.
Qed.

Lemma proof_secret_censored key : key ∈ proof_secrets -> shouldCensor key (Some "proof") = true.
Proof.
  intros H. unfold shouldCensor. rewrite (has_key_elem CENSORED_PROOF_KEYS), bool_decide_eq_true_2 by done.
  by rewrite (bool_decide_eq_true_2 (key ∈ _) H), orb_true_r.
Qed.

Lemma good_censor h fuel proofs in_proof key parent :
  shouldCensor key parent = true -> key <> "proof" ->
  good h fuel (member_hides proofs in_proof) (fun seen => Some ((key, JString REDACTION_CENSOR), seen)).
Proof.
  intros Hc Hk seen _. exists (key, JString REDACTION_CENSOR), seen. split; [done|]. split; [done|].
  unfold member_hides. cbn [fst snd]. by destruct (_ || _).
Qed.

Lemma kept_member proofs in_proof key j parent :
  shouldCensor key parent = false -> (in_proof = true -> parent = Some "proof") ->
  hides proofs (bool_decide (key = "proof")) j = true -> member_hides proofs in_proof (key, j).
Proof.
  intros Hc Hp Hj. unfold member_hides. cbn [fst snd].
  rewrite bool_decide_eq_false_2 by (intros H; by rewrite secret_censored in Hc). cbn [orb].
  destruct proofs, in_proof; cbn [andb]; try exact Hj. rewrite bool_decide_eq_false_2; [done|].
  intros H. rewrite (Hp eq_refl) in Hc. by rewrite proof_secret_censored in Hc.
Qed.

Section Level.
Context (h : js_heap) (fuel : nat) (proofs : bool).
Hypothesis Happart : proofs = true -> proofs_apart h.
Hypothesis Hbelow : forall v, value_ok h v -> good h fuel (fun j => hides proofs false j = true) (redact fuel h v).

(** What is not an object is no object when it is written. *)
Lemma redact_not_object v seen j seen' :
  redact fuel h v seen = Some (j, seen') -> object_entries h v = None ->
  forall fields, j <> JObject fields.
Proof.
  destruct fuel as [|fuel']; [done|]. destruct v as [| | | |a]; cbn [redact object_entries];
    try (by intros [= <- _]).
  case_bool_decide; [by intros [= <- _]|]. destruct (h !! a) as [[items|]|]; [|done..].
  destruct (map_seen _ items _) as [[js s]|]; cbn; [|done]. by intros [= <- _].
Qed.

(** A member that is kept and walked: under a [proof] it is no object, or proofs do not
    matter. *)
Lemma walked_good in_proof key entry parent :
  value_ok h entry -> shouldCensor key parent = false -> (in_proof = true -> parent = Some "proof") ->
  (key = "proof" -> proofs = false \/ object_entries h entry = None) ->
  good h fuel (member_hides proofs in_proof) (fun seen => '(y, seen') ← redact fuel h entry seen; Some ((key, y), seen')).
Proof.
  intros Hv Hc Hp Hk seen Hs. destruct (Hbelow entry Hv seen Hs) as (j & s' & E & Hsub & Hj).
  rewrite E. cbn. exists (key, j), s'. split; [done|]. split; [done|]. eapply kept_member; [done..|].
  destruct (bool_decide_reflect (key = "proof")) as [Ek|]; [|done]. apply hides_any; [done|].
  destruct (Hk Ek) as [->|Ho]; [by left|right]. by eapply redact_not_object.
Qed.

Lemma proof_good proof :
  Forall (value_ok h) (map snd proof) ->
  (forall x, ("proof", x) ∈ proof -> proofs = false \/ object_entries h x = None) ->
  good h fuel (member_hides proofs false) (fun seen =>
    '(inner, seen') ← map_seen (redact_proof_entry (redact fuel h)) proof seen;
    Some (("proof", JObject inner), seen')).
Proof.
  intros Hv Ha. eapply good_pair; [apply (good_member h fuel (member_hides proofs true))|].
  - rewrite Forall_map in Hv. rewrite Forall_forall in Hv |- *. intros [k v] Hin. specialize (Hv _ Hin). cbn in Hv.
    unfold redact_proof_entry. destruct (shouldCensor k (Some "proof")) eqn:E.
    + eapply good_censor; [exact E|]. by intros ->.
    + eapply walked_good; [done|exact E|done|]. intros ->. by apply Ha.
  - intros inner Hi. apply (kept_member _ _ _ _ None); [done..|]. by apply hides_object.
Qed.

Lemma entry_good es e :
  heap_ok h -> NObject es ∈ h -> e ∈ es -> value_ok h e.2 -> good h fuel (member_hides proofs false) (redact_entry h (redact fuel h) e).
Proof.
  destruct e as [key entry]. cbn [snd]. intros Hh Hes He Hv. unfold redact_entry.
  destruct (shouldCensor key None) eqn:Hc; [eapply good_censor; [exact Hc|by intros ->]|].
  destruct (String.eqb_spec key "proof") as [->|Hk]; [destruct (object_entries h entry) as [proof|] eqn:Ho|].
  - destruct entry as [| | | |a]; try done. cbn in Ho.
    destruct (h !! a) as [[|inner]|] eqn:Ea; try done. injection Ho as ->. apply proof_good.
    + exact (Forall_lookup_1 _ _ _ _ Hh Ea).
    + intros x Hx. destruct proofs; [right|by left]. by eapply (Happart eq_refl es a proof).
  - eapply walked_good; [done|exact Hc|done|by right].
  - eapply walked_good; [done|exact Hc|done|done].
Qed.
End Level.

(** With more fuel than there are nodes to reach, the walk ends and leaves no secret. *)
Lemma redact_good h proofs : heap_ok h -> (proofs = true -> proofs_apart h) -> forall fuel v, value_ok h v ->
  good h fuel (fun j => hides proofs false j = true) (redact fuel h v).
Proof.
  intros Hh Ha'. induction fuel as [|fuel IH]; intros v Hv seen Hs; [lia|].
  destruct v as [| | | |a]; cbn [redact]; try (by eexists _, seen).
  destruct (bool_decide_reflect (a ∈ seen)) as [|Ha]; [by eexists _, seen|].
  destruct (h !! a) as [n|] eqn:En; [|by apply lookup_ge_None in En; cbn in Hv; lia].
  pose proof (Forall_lookup_1 _ _ _ _ Hh En) as Hn.
  pose proof (unseen_lt h seen a Hv Ha) as Hlt.
  assert (forall {B} (Q : B -> Prop) f, good h fuel Q f -> exists y seen',
            f (a :: seen) = Some (y, seen') /\ seen ⊆ seen' /\ Q y) as Hdown.
  { intros B Q f Hf. destruct (Hf (a :: seen)) as (y & s' & E & Hsub & Hy); [lia|].
    exists y, s'. split; [done|]. split; [set_solver|done]. }
  destruct n as [items|entries]; cbn [node_values] in Hn.
  - destruct (Hdown _ _ _ (good_member h fuel _ _ items (Forall_impl _ _ _ Hn IH)))
      as (js & s' & E & Hsub & Hjs).
    rewrite E. cbn. exists (JArray js), s'. split; [done|]. split; [done|].
    cbn [hides]. apply forallb_forall. intros j Hj. rewrite Forall_forall in Hjs.
    by apply Hjs, list_elem_of_In.
  - rewrite Forall_map in Hn. destruct (Hdown _ _ _ (good_member h fuel (member_hides proofs false) (redact_entry h (redact fuel h)) entries
      (proj2 (Forall_forall _ _) (fun e He => entry_good h fuel proofs Ha' IH entries e Hh
         (list_elem_of_lookup_2 _ _ _ En) He (proj1 (Forall_forall _ _) Hn e He))))) as (fields & s' & E & Hsub & Hf).
    rewrite E. cbn. exists (JObject fields), s'. split; [done|]. split; [done|]. by apply hides_object.
Qed.

(** ** Trees *)

Scheme tree_at_mut := Minimality for tree_at Sort Prop
  with trees_at_mut := Minimality for trees_at Sort Prop.

Definition redacted_proof_member (f : string * json) : string * json :=
  (f.1, if shouldCensor f.1 (Some "proof") then JString REDACTION_CENSOR else redacted f.2).

Definition redacted_member (f : string * json) : string * json :=
  (f.1,
   if shouldCensor f.1 None then JString REDACTION_CENSOR
   else
     match f.2 with
     | JObject proof =>
         if String.eqb f.1 "proof" then JObject (map redacted_proof_member proof) else redacted f.2
     | _ => redacted f.2
     end).

Lemma redacted_object fields : redacted (JObject fields) = JObject (map redacted_member fields).
Proof.
  cbn [redacted]. f_equal. apply map_ext. intros [key entry]. unfold redacted_member. cbn [fst snd].
  f_equal. destruct (shouldCensor key None); [done|]. destruct entry as [| | | | |proof]; try done.
  destruct (String.eqb key "proof"); [|done]. f_equal. apply map_ext. by intros [k x].
Qed.

Section TreeLevel.
Context (h : js_heap).

(** A step over a part of the tree: it writes [y] and sees no node outside the part. *)
Definition walks {B} (fuel : nat) (part : list nat) (f : seen_set -> option (B * seen_set)) (y : B) : Prop :=
  forall seen, unseen h seen < fuel -> (forall a, a ∈ part -> a ∉ seen) -> NoDup part ->
    exists seen', f seen = Some (y, seen') /\ seen ⊆ seen' /\ seen' ⊆ part ++ seen.

Lemma walks_pair {A B} fuel part (f : seen_set -> option (A * seen_set)) (g : A -> B) y :
  walks fuel part f y -> walks fuel part (fun seen => '(y, seen') ← f seen; Some (g y, seen')) (g y).
Proof.
  intros Hf seen H1 H2 H3. destruct (Hf seen H1 H2 H3) as (s' & -> & Hs). cbn. by exists s'.
Qed.

Lemma walks_skip {B} fuel part (y : B) : walks fuel part (fun seen => Some (y, seen)) y.
Proof. intros seen _ _ _. exists seen. split; [done|]. split; [done|set_solver]. Qed.

Lemma walks_more {B} fuel part part' (f : seen_set -> option (B * seen_set)) y :
  walks fuel part f y -> part `sublist_of` part' -> walks fuel part' f y.
Proof.
  intros Hf Hsub seen H1 H2 H3.
  destruct (Hf seen) as (s' & E & Hs & Hs'); [done| |by eapply sublist_NoDup|].
  - intros a Ha. apply H2. by eapply elem_of_sublist.
  - exists s'. split; [done|]. split; [done|]. intros a Ha%Hs'.
    rewrite elem_of_app in Ha |- *. destruct Ha; [|by right]. left. by eapply elem_of_sublist.
Qed.

(** Members one after the other: the nodes of one are not those of the others. *)
Lemma walks_members {A B} fuel (value : A -> js_value) (f : A -> seen_set -> option (B * seen_set))
    (g : A -> json -> B) xs js ls :
  (forall x j l, x ∈ xs -> tree_at h (value x) j l -> walks fuel l (f x) (g x j)) ->
  trees_at h (map value xs) js ls ->
  walks fuel ls (map_seen f xs) (zip_with g xs js).
Proof.
  intros Hf. revert js ls. induction xs as [|x xs IH]; cbn [map]; intros js ls Ht; inversion Ht; subst.
  { cbn. apply walks_skip. }
  rename l into l0, ls0 into l1. intros seen Hu Hd (Hn1 & Hn2 & Hn3)%NoDup_app. cbn [map_seen zip_with].
  destruct (Hf x j l0 ltac:(by left) ltac:(done) seen Hu) as (s1 & -> & Hs & Hs'); [set_solver|done|].
  cbn. destruct (IH (fun y j l Hy => Hf y j l ltac:(by right)) _ _ ltac:(eassumption) s1)
    as (s2 & -> & Ht1 & Ht2).
  - pose proof (unseen_le h _ _ Hs). lia.
  - intros a Ha [Hin|Hin]%Hs'%elem_of_app; [by apply (Hn2 a)|apply (Hd a); set_solver].
  - done.
  - cbn. exists s2. split; [done|]. split; [set_solver|]. intros a [Ha|Ha%Hs']%Ht2%elem_of_app; set_solver.
Qed.
End TreeLevel.

Lemma tree_object_inv h a js l entries :
  h !! a = Some (NObject entries) -> tree_at h (PRef a) js l ->
  exists values addresses, js = JObject (combine (map fst entries) values) /\ l = a :: addresses
    /\ trees_at h (map snd entries) values addresses.
Proof.
  intros E H. inversion H as [v Hv| |b es vs ls Eb Ht]; subst; [by destruct (Hv a)|congruence|].
  rewrite E in Eb. injection Eb as ->. eauto.
Qed.

Lemma tree_not_object h v j l :
  tree_at h v j l -> object_entries h v = None -> forall fields, j <> JObject fields.
Proof.
  destruct 1 as [v Hv|a items js ls E|a entries js ls E]; intros Ho fields; [by destruct v|done|].
  cbn in Ho. by rewrite E in Ho.
Qed.

Lemma zip_members (F : string * json -> string * json) (entries : list (string * js_value)) js :
  zip_with (fun e j => F (e.1, j)) entries js = map F (combine (map fst entries) js).
Proof. revert js. induction entries as [|e es IH]; intros [|j js]; cbn; [done..|by rewrite IH]. Qed.

Section Walk.
Context (h : js_heap) (fuel : nat).
Hypothesis Hbelow : forall v j l, tree_at h v j l -> walks h fuel l (redact fuel h v) (redacted j).

Lemma walks_proof_entry e j l :
  tree_at h e.2 j l ->
  walks h fuel l (redact_proof_entry (redact fuel h) e) (redacted_proof_member (e.1, j)).
Proof.
  destruct e as [k v]. cbn [fst snd]. intros Ht. unfold redact_proof_entry, redacted_proof_member.
  cbn [fst snd]. destruct (shouldCensor k (Some "proof")); [apply walks_skip|].
  by apply walks_pair, Hbelow.
Qed.

Lemma walks_entry e j l :
  tree_at h e.2 j l -> walks h fuel l (redact_entry h (redact fuel h) e) (redacted_member (e.1, j)).
Proof.
  destruct e as [key entry]. cbn [fst snd]. intros Ht. unfold redact_entry, redacted_member.
  cbn [fst snd]. destruct (shouldCensor key None) eqn:Hc; [apply walks_skip|].
  assert ((forall fields, j <> JObject fields) \/ String.eqb key "proof" = false ->
    walks h fuel l (fun seen => '(y, seen') ← redact fuel h entry seen; Some ((key, y), seen'))
      (key, match j with
            | JObject proof => if String.eqb key "proof" then JObject (map redacted_proof_member proof) else redacted j
            | _ => redacted j
            end)) as Hplain.
  { intros Hj. replace (match j with JObject _ => _ | _ => _ end) with (redacted j).
    - by apply walks_pair, Hbelow.
    - destruct j as [| | | | |fields], Hj as [Hj|Hj]; try done; [by destruct (Hj fields)|by rewrite Hj]. }
  destruct (String.eqb key "proof") eqn:Hk; [destruct (object_entries h entry) as [proof|] eqn:Ho|].
  - destruct entry as [| | | |a]; try done. cbn in Ho.
    destruct (h !! a) as [[|es]|] eqn:Ea; try done. injection Ho as ->.
    destruct (tree_object_inv _ _ _ _ _ Ea Ht) as (values & addresses & -> & -> & Hvs).
    apply (walks_more h fuel addresses); [|by apply sublist_cons].
    apply (walks_pair h fuel addresses _ (fun inner => (key, JObject inner))).
    rewrite <- zip_members.
    apply (walks_members h fuel snd _ (fun e j => redacted_proof_member (e.1, j))); [|done].
    intros e j l _ He. by apply walks_proof_entry.
  - apply Hplain. left. by eapply tree_not_object.
  - apply Hplain. by right.
Qed.
End Walk.

(** The walk of a tree writes its redaction. *)
Lemma redact_walks h fuel : forall v j l, tree_at h v j l -> walks h fuel l (redact fuel h v) (redacted j).
Proof.
  induction fuel as [|fuel IH]; intros v j l Ht; [intros seen Hu; lia|].
  destruct Ht as [v Hv|a items js ls E Hts|a entries js ls E Hts].
  - destruct v as [| | | |a]; try apply walks_skip. by destruct (Hv a).
  - intros seen Hu Hd [Hn Hnd]%NoDup_cons. cbn [redact]. rewrite bool_decide_eq_false_2, E by (apply Hd; by left).
    pose proof (unseen_lt h seen a (lookup_lt_Some _ _ _ E) (Hd a ltac:(by left))) as Hlt.
    rewrite <- (map_id items) in Hts.
    destruct (walks_members h fuel id (redact fuel h) (fun _ j => redacted j) items js ls
      (fun x j l _ H => IH x j l H) Hts (a :: seen)) as (s' & -> & H1 & H2).
    { lia. } { intros b Hb [->|Hin]%elem_of_cons; [done|]. apply (Hd b); [by right|done]. } { done. }
    cbn. exists s'. split; [|set_solver]. do 2 f_equal. cbn [redacted]. f_equal.
    rewrite map_id in Hts. clear -Hts. revert js ls Hts. induction items as [|x items IH]; intros js ls Hts;
      inversion Hts; subst; [done|]. cbn. f_equal. by eapply IH.
  - intros seen Hu Hd [Hn Hnd]%NoDup_cons. cbn [redact]. rewrite bool_decide_eq_false_2, E by (apply Hd; by left).
    pose proof (unseen_lt h seen a (lookup_lt_Some _ _ _ E) (Hd a ltac:(by left))) as Hlt.
    destruct (walks_members h fuel snd (redact_entry h (redact fuel h)) (fun e j => redacted_member (e.1, j))
      entries js ls (fun e j l _ H => walks_entry h fuel IH e j l H) Hts (a :: seen)) as (s' & -> & H1 & H2).
    { lia. } { intros b Hb [->|Hin]%elem_of_cons; [done|]. apply (Hd b); [by right|done]. } { done. }
    cbn -[redacted]. exists s'. split; [|set_solver]. by rewrite redacted_object, zip_members.
Qed.

(** * Theorems *)

(** C36. The redaction ends on every graph, cyclic or not: one level more than there are
    nodes is enough, whatever refers to what. Nothing it writes holds a viewing key, a
    nullifier key, gateway metadata, key material or a sealed blob at any depth, proofs
    inside proofs too; nor, when no proof of the graph has a proof of its own, the
    reference or the internals of a proof at any depth. *)
Theorem redaction_ends_clean h v :
  heap_ok h -> value_ok h v ->
  exists j, redactHeliusRingsEventPayload h v = Some j /\ hides false false j = true
    /\ (proofs_apart h -> hides true false j = true).
Proof.
  intros Hh Hv.
  assert (unseen h [] < S (length h)) as Hu.
  { unfold unseen. pose proof (List.filter_length_le (fun a => negb (bool_decide (a ∈ []))) (seq 0 (length h))) as H.
    rewrite length_seq in H. lia. }
  destruct (redact_good h false Hh ltac:(done) (S (length h)) v Hv [] Hu) as (j & s & E & _ & Hj).
  exists j. unfold redactHeliusRingsEventPayload. rewrite E. split_and!; [done|done|]. intros Ha.
  destruct (redact_good h true Hh (fun _ => Ha) (S (length h)) v Hv [] Hu) as (j' & s' & E' & _ & Hj').
  by simplify_eq.
Qed.

(** Of a tree the redaction keeps everything else: the seen set only matters to what
    is shared. *)
Theorem redaction_of_tree h v j l :
  tree_at h v j l -> NoDup l -> redactHeliusRingsEventPayload h v = Some (redacted j).
Proof.
  intros Ht Hn. destruct (redact_walks h (S (length h)) v j l Ht []) as (s & E & _); [|set_solver|done|].
  - unfold unseen. pose proof (List.filter_length_le (fun a => negb (bool_decide (a ∈ []))) (seq 0 (length h))) as H.
    rewrite length_seq in H. lia.
  - unfold redactHeliusRingsEventPayload. by rewrite E.
Qed.

(** ** Concrete payloads *)

(** [payload.self = payload], beside a key of the wallet. *)
Definition cyclic_payload : js_heap :=
  [NObject [("viewingKey", PString "vk"); ("self", PRef 0); ("proof", PRef 1)];
   NObject [("ref", PString "handle"); ("source", PString "live")]].

Lemma redaction_ends_clean_witness :
  exists j, redactHeliusRingsEventPayload cyclic_payload (PRef 0) = Some j /\ hides true false j = true.
Proof.
  destruct (redaction_ends_clean cyclic_payload (PRef 0)) as (j & E & _ & H); [repeat constructor|cbn; lia|].
  exists j. split; [exact E|]. apply H. intros outer a inner x Ho Ha Ea Hx.
  assert (a = 1) as ->.
  { unfold cyclic_payload in Ho. apply list_elem_of_In in Ho, Ha. cbn in Ho.
    destruct Ho as [[= <-]|[[= <-]|[]]]; cbn in Ha; intuition congruence. }
  injection Ea as <-. apply list_elem_of_In in Hx. cbn in Hx. intuition congruence.
Defined.

Example cyclic_redacted :
  redactHeliusRingsEventPayload cyclic_payload (PRef 0)
  = Some (JObject [("viewingKey", JString "[REDACTED]"); ("self", JString "[Circular]");
                   ("proof", JObject [("ref", JString "[REDACTED]"); ("source", JString "live")])]).
Proof. reflexivity. Qed.

(** A proof inside a proof keeps its handle: the object under the inner [proof] is
    visited as if nothing were above it. *)
Example nested_proof_is_kept :
  redactHeliusRingsEventPayload
    [NObject [("proof", PRef 1)]; NObject [("proof", PRef 2)]; NObject [("ref", PString "handle")]] (PRef 0)
  = Some (JObject [("proof", JObject [("proof", JObject [("ref", JString "handle")])])]).
Proof. reflexivity. Qed.

(** A node reached twice without a cycle is written once. *)
Example shared_node_is_lost :
  redactHeliusRingsEventPayload
    [NObject [("from", PRef 1); ("to", PRef 1)]; NObject [("mint", PString "m")]] (PRef 0)
  = Some (JObject [("from", JObject [("mint", JString "m")]); ("to", JString "[Circular]")]).
Proof. reflexivity. Qed.
