(* ===== verification/RingsLedger.v ===== *)
(** * Helius Rings: the ledger of operations

    [apps/sdp-api/src/db/repositories/helius-rings-operation.repository.postgres.ts], and
    of the wallet, zone, event and health repositories beside it the methods the service
    uses, over the tables of migration 0057. A method is a function from the tables to
    an answer and new tables; [now] is [sdp_iso_now()] and the id a generated one.
    Deletions, which no code of the module makes, are not modelled. Which constraint a
    refused statement names is left open when it breaks several. *)
From Stdlib Require Import Ascii String ZArith Lia.
From stdpp Require Import base list strings.
From S2P Require Import Prelude Text Dates Rows PolicyTypes RingsTypes RingsRedaction.

Local Open Scope string_scope.
Local Open Scope Z_scope.
Local Open Scope sdp_scope.

(** ** Rows *)

Record HeliusRingsTenant := mkTenant { tn_organizationId : string; tn_projectId : string }.

#[export] Instance tenant_eq_dec : EqDecision HeliusRingsTenant.
Proof. solve_decision. Defined.

(** The columns of an operation no statement changes. *)
Record OperationFacts := mkOperationFacts {
  ro_id : string;
  ro_tenant : HeliusRingsTenant;
  ro_wallet_id : string;
  ro_op_type : OpType;
  ro_asset_mint : option string;
  ro_amount_raw : option string;
  ro_from_addr : option string;
  ro_to_addr : option string;
  ro_zone_id : option string;
  ro_transfer_mode : option TransferMode;
  ro_intent_key : string;
  ro_retry_of : option string;
  ro_timelock_unlock_at : option string;
  ro_created_at : string;
}.

Record HeliusRingsOperationRow := mkOperation {
  op_facts : OperationFacts;
  op_state : OperationState;
  approval_request_id : option string;
  policy_evaluation_id : option string;
  proof_source : option MaterialTag;
  proof_ref : option string;
  outer_tx_signature : option string;
  photon_indexed_at : option string;
  failure_code : option FailureCode;
  failure_message : option string;
  retryable : option bool;
  op_updated_at : string;
}.

Record HeliusRingsTimelockRow := mkTimelockRow {
  tl_operation_id : string;
  tl_unlock_at : string;
  tl_released_at : option string;
  tl_beneficiary_addr : string;
}.

Record HeliusRingsWalletRow := mkWalletRow {
  wl_id : string;
  wl_tenant : HeliusRingsTenant;
  wl_sdp_wallet_id : string;
  wl_name : string;
  wl_status : WalletStatus;
  wl_shielded_address : option string;
  wl_sync_cursor : option string;
  wl_material_tag : MaterialTag;
  wl_created_at : string;
  wl_updated_at : string;
}.

Record HeliusRingsZoneRow := mkZoneRow {
  zn_id : string;
  zn_wallet_id : string;
  zn_name : string;
  zn_kind : string;
  zn_created_at : string;
}.

Record HeliusRingsEventRow := mkEventRow {
  ev_id : string;
  ev_operation_id : string;
  ev_kind : string;
  ev_payload : option json;
  ev_created_at : string;
}.

Inductive RuntimeHealthComponent := health_rpc | health_prover | health_photon | health_gateway.
Inductive RuntimeHealthStatus := green | amber | red.

#[export] Instance component_eq_dec : EqDecision RuntimeHealthComponent.
Proof. solve_decision. Defined.

Record HeliusRingsRuntimeHealthRow := mkHealthRow {
  hl_project_id : string;
  hl_component : RuntimeHealthComponent;
  hl_status : RuntimeHealthStatus;
  hl_observed_at : string;
  hl_detail : option (list (string * string));
}.

Inductive KeyKind := viewing | nullifier.

#[export] Instance key_kind_eq_dec : EqDecision KeyKind.
Proof. solve_decision. Defined.

Record HeliusRingsKeyRefRow := mkKeyRefRow {
  kr_id : string;
  kr_wallet_id : string;
  kr_kind : KeyKind;
  kr_ciphertext : string;
  kr_key_version : string;
  kr_material_tag : MaterialTag;
  kr_created_at : string;
}.

Record RingsTables := mkRings {
  operations : list HeliusRingsOperationRow;
  timelocks : list HeliusRingsTimelockRow;
  rings_wallets : list HeliusRingsWalletRow;
  zones : list HeliusRingsZoneRow;
  key_refs : list HeliusRingsKeyRefRow;
  rings_events : list HeliusRingsEventRow;
  health : list HeliusRingsRuntimeHealthRow;
}.

Definition with_operations (t : RingsTables) (os : list HeliusRingsOperationRow) : RingsTables :=
  mkRings os (timelocks t) (rings_wallets t) (zones t) (key_refs t) (rings_events t) (health t).

Definition with_timelocks (t : RingsTables) (ts : list HeliusRingsTimelockRow) : RingsTables :=
  mkRings (operations t) ts (rings_wallets t) (zones t) (key_refs t) (rings_events t) (health t).

Definition with_wallets (t : RingsTables) (ws : list HeliusRingsWalletRow) : RingsTables :=
  mkRings (operations t) (timelocks t) ws (zones t) (key_refs t) (rings_events t) (health t).

Definition with_zones (t : RingsTables) (zs : list HeliusRingsZoneRow) : RingsTables :=
  mkRings (operations t) (timelocks t) (rings_wallets t) zs (key_refs t) (rings_events t) (health t).

Definition with_key_refs (t : RingsTables) (ks : list HeliusRingsKeyRefRow) : RingsTables :=
  mkRings (operations t) (timelocks t) (rings_wallets t) (zones t) ks (rings_events t) (health t).

Definition with_events (t : RingsTables) (es : list HeliusRingsEventRow) : RingsTables :=
  mkRings (operations t) (timelocks t) (rings_wallets t) (zones t) (key_refs t) es (health t).

Definition with_health (t : RingsTables) (hs : list HeliusRingsRuntimeHealthRow) : RingsTables :=
  mkRings (operations t) (timelocks t) (rings_wallets t) (zones t) (key_refs t) (rings_events t) hs.

Definition row_id (r : HeliusRingsOperationRow) : string := ro_id (op_facts r).

(** ** Constraints *)

(** [helius_rings_operations_transfer_mode_check] *)
Definition transfer_mode_check (t : OpType) (m : option TransferMode) : bool :=
  match t, m with
  | transfer_registered, Some registered | transfer_anonymous, Some anonymous => true
  | transfer_registered, _ | transfer_anonymous, _ => false
  | _, None => true
  | _, Some _ => false
  end.

(** [helius_rings_operations_failure_check] *)
Definition failure_check (r : HeliusRingsOperationRow) : bool :=
  if bool_decide (op_state r = op_failed)
  then bool_decide (is_Some (failure_code r) /\ is_Some (failure_message r) /\ is_Some (retryable r))
  else bool_decide (failure_code r = None /\ failure_message r = None /\ retryable r = None).

Definition operation_checks (r : HeliusRingsOperationRow) : bool :=
  let f := op_facts r in
  transfer_mode_check (ro_op_type f) (ro_transfer_mode f)
  && failure_check r
  && negb (bool_decide (ro_retry_of f = Some (ro_id f)))
  && match ro_timelock_unlock_at f with Some s => iso_instant s | None => true end.


(** The rows an operation refers to: its wallet in its tenant, its zone in its wallet,
    the operation it retries. *)
Definition operation_references (t : RingsTables) (f : OperationFacts) : bool :=
  existsb (fun w => String.eqb (wl_id w) (ro_wallet_id f) && bool_decide (wl_tenant w = ro_tenant f))
    (rings_wallets t)
  && match ro_zone_id f with
     | Some z => existsb (fun zn => String.eqb (zn_id zn) z && String.eqb (zn_wallet_id zn) (ro_wallet_id f)) (zones t)
     | None => true
     end
  && match ro_retry_of f with
     | Some r => existsb (fun o => String.eqb (row_id o) r) (operations t)
     | None => true
     end.

(** ** Reserving an intent *)

Record ReserveHeliusRingsIntentInput := mkReserve {
  rv_tenant : HeliusRingsTenant;
  rv_walletId : string;
  rv_opType : OpType;
  rv_intentKey : string;
  rv_assetMint : option string;
  rv_amountRaw : option string;
  rv_fromAddr : option string;
  rv_toAddr : option string;
  rv_zoneId : option string;
  rv_transferMode : option TransferMode;
  rv_retryOfOperationId : option string;
  rv_timelock : option OperationTimelock;
}.

Definition reserved_row (now id : string) (i : ReserveHeliusRingsIntentInput) : HeliusRingsOperationRow :=
  mkOperation
    (mkOperationFacts id (rv_tenant i) (rv_walletId i) (rv_opType i) (rv_assetMint i) (rv_amountRaw i)
       (rv_fromAddr i) (rv_toAddr i) (rv_zoneId i) (rv_transferMode i) (rv_intentKey i)
       (rv_retryOfOperationId i) (unlockAt <$> rv_timelock i) now)
    op_draft None None None None None None None None None now.

(** [INSERT ... ON CONFLICT (intent_key) DO UPDATE SET updated_at = updated_at RETURNING *] *)
Definition insert_operation (r : HeliusRingsOperationRow) (t : RingsTables)
    : result (HeliusRingsOperationRow * RingsTables) :=
  if negb (operation_checks r) then Err (check_violation "helius_rings_operations")
  else
    match List.find (fun o => String.eqb (ro_intent_key (op_facts o)) (ro_intent_key (op_facts r)))
            (operations t) with
    | Some existing => Ok (existing, t)
    | None =>
        if existsb (fun o => String.eqb (row_id o) (row_id r)) (operations t)
        then Err (unique_violation "helius_rings_operations_pkey")
        else if negb (operation_references t (op_facts r))
        then Err (foreign_key_violation "helius_rings_operations")
        else Ok (r, with_operations t (operations t ++ [r]))
    end.

(** [INSERT INTO helius_rings_timelocks ... ON CONFLICT (operation_id) DO NOTHING] *)
Definition insert_timelock (operation_id : string) (l : OperationTimelock) (t : RingsTables)
    : result RingsTables :=
  if negb (iso_instant (unlockAt l)) then Err (check_violation "helius_rings_timelocks")
  else if existsb (fun x => String.eqb (tl_operation_id x) operation_id) (timelocks t) then Ok t
  else Ok (with_timelocks t
             (timelocks t ++ [mkTimelockRow operation_id (unlockAt l) None (beneficiary l)])).

Definition reserveIntent (now id : string) (i : ReserveHeliusRingsIntentInput) (t : RingsTables)
    : result (HeliusRingsOperationRow * bool * RingsTables) :=
  let? (operation, t1) := insert_operation (reserved_row now id i) t in
  let reserved := String.eqb (row_id operation) id in
  match rv_timelock i with
  | Some l =>
      if reserved then let? t2 := insert_timelock (row_id operation) l t1 in Ok (operation, reserved, t2)
      else Ok (operation, reserved, t1)
  | None => Ok (operation, reserved, t1)
  end.

(** ** Reads *)

Definition in_tenant (tenant : HeliusRingsTenant) (id : string) (o : HeliusRingsOperationRow) : bool :=
  String.eqb (row_id o) id && bool_decide (ro_tenant (op_facts o) = tenant).

Definition getOperationById (tenant : HeliusRingsTenant) (id : string) (t : RingsTables)
    : option HeliusRingsOperationRow :=
  List.find (in_tenant tenant id) (operations t).

Definition getOperationByIntentKey (tenant : HeliusRingsTenant) (key : string) (t : RingsTables)
    : option HeliusRingsOperationRow :=
  List.find (fun o => String.eqb (ro_intent_key (op_facts o)) key
                      && bool_decide (ro_tenant (op_facts o) = tenant)) (operations t).

Definition getTimelock (operation_id : string) (t : RingsTables) : option HeliusRingsTimelockRow :=
  List.find (fun x => String.eqb (tl_operation_id x) operation_id) (timelocks t).

Definition IN_FLIGHT_STATES : list OperationState :=
  [op_preparing; op_approval_required; op_proving; op_ready_to_sign; op_submitted; op_indexing].

(** Ordered reads, under the database's collation. *)
Section Collation.
Variable text_le : string -> string -> bool.

(** [a < b] *)
Definition text_lt (a b : string) : bool := text_le a b && negb (String.eqb a b).

Definition listInFlightOperations (staleBefore : string) (limit : Z) (t : RingsTables)
    : list HeliusRingsOperationRow :=
  limit_rows limit (order_by (fun a b => key_le text_le [op_updated_at a; row_id a] [op_updated_at b; row_id b])
    (List.filter (fun o => bool_decide (op_state o ∈ IN_FLIGHT_STATES) && text_lt (op_updated_at o) staleBefore)
       (operations t))).

Definition newest (os : list HeliusRingsOperationRow) : list HeliusRingsOperationRow :=
  order_by (fun a b => key_le text_le [ro_created_at (op_facts b); row_id b] [ro_created_at (op_facts a); row_id a]) os.

Definition listOperationsByWallet (tenant : HeliusRingsTenant) (wallet : string) (limit : Z) (t : RingsTables)
    : list HeliusRingsOperationRow :=
  limit_rows limit (newest (List.filter (fun o => String.eqb (ro_wallet_id (op_facts o)) wallet
                                                  && bool_decide (ro_tenant (op_facts o) = tenant)) (operations t))).

Definition listOperationsByProject (tenant : HeliusRingsTenant) (limit : Z) (t : RingsTables)
    : list HeliusRingsOperationRow :=
  limit_rows limit (newest (List.filter (fun o => bool_decide (ro_tenant (op_facts o) = tenant)) (operations t))).

Definition listReleasableTimelocks (asOf : string) (limit : Z) (t : RingsTables) : list HeliusRingsTimelockRow :=
  limit_rows limit (order_by (fun a b => key_le text_le [tl_unlock_at a; tl_operation_id a] [tl_unlock_at b; tl_operation_id b])
    (List.filter (fun x => bool_decide (tl_released_at x = None) && text_le (tl_unlock_at x) asOf) (timelocks t))).

(** [UPDATE ... SET released_at = ? WHERE operation_id = ? AND released_at IS NULL] *)
Definition releaseTimelock (operation_id releasedAt : string) (t : RingsTables)
    : result (option HeliusRingsTimelockRow * RingsTables) :=
  match List.find (fun x => String.eqb (tl_operation_id x) operation_id && bool_decide (tl_released_at x = None))
          (timelocks t) with
  | None => Ok (None, t)
  | Some x =>
      if negb (iso_instant releasedAt && text_le (tl_unlock_at x) releasedAt)
      then Err (check_violation "helius_rings_timelocks")
      else
        let x' := mkTimelockRow (tl_operation_id x) (tl_unlock_at x) (Some releasedAt) (tl_beneficiary_addr x) in
        Ok (Some x', with_timelocks t
              (map (fun y => if String.eqb (tl_operation_id y) operation_id then x' else y) (timelocks t)))
  end.
End Collation.

(** ** Compare-and-swap *)

(** The columns a transition sets on its way: absent, or the value they take. *)
Record HeliusRingsOperationTransitionPatch := mkPatch {
  pt_approvalRequestId : option (option string);
  pt_policyEvaluationId : option (option string);
  pt_proofSource : option (option MaterialTag);
  pt_proofRef : option (option string);
  pt_outerTxSignature : option (option string);
  pt_photonIndexedAt : option (option string);
}.

Definition empty_patch : HeliusRingsOperationTransitionPatch := mkPatch None None None None None None.

Record TransitionHeliusRingsOperationInput := mkTransitionInput {
  tr_tenant : HeliusRingsTenant;
  tr_id : string;
  tr_expectedState : OperationState;
  tr_nextState : OperationState;
  tr_patch : HeliusRingsOperationTransitionPatch;
}.

Definition transition_row (now : string) (i : TransitionHeliusRingsOperationInput)
    (r : HeliusRingsOperationRow) : HeliusRingsOperationRow :=
  let p := tr_patch i in
  mkOperation (op_facts r) (tr_nextState i)
    (default (approval_request_id r) (pt_approvalRequestId p))
    (default (policy_evaluation_id r) (pt_policyEvaluationId p))
    (default (proof_source r) (pt_proofSource p))
    (default (proof_ref r) (pt_proofRef p))
    (default (outer_tx_signature r) (pt_outerTxSignature p))
    (default (photon_indexed_at r) (pt_photonIndexedAt p))
    (failure_code r) (failure_message r) (retryable r) now.

Record FailHeliusRingsOperationInput := mkFailInput {
  fl_tenant : HeliusRingsTenant;
  fl_id : string;
  fl_expectedState : OperationState;
  fl_code : FailureCode;
  fl_message : string;
  fl_retryable : bool;
}.

Definition failed_row (now : string) (i : FailHeliusRingsOperationInput) (r : HeliusRingsOperationRow)
    : HeliusRingsOperationRow :=
  mkOperation (op_facts r) op_failed (approval_request_id r) (policy_evaluation_id r) (proof_source r)
    (proof_ref r) (outer_tx_signature r) (photon_indexed_at r) (Some (fl_code i)) (Some (fl_message i))
    (Some (fl_retryable i)) now.

Definition replace_operation (id : string) (r : HeliusRingsOperationRow) (os : list HeliusRingsOperationRow)
    : list HeliusRingsOperationRow :=
  map (fun o => if String.eqb (row_id o) id then r else o) os.

(** [SELECT state ... FOR UPDATE], the comparison, and [UPDATE ... RETURNING *]. *)
Definition swap_operation (tenant : HeliusRingsTenant) (id : string) (expected : OperationState)
    (f : HeliusRingsOperationRow -> HeliusRingsOperationRow) (t : RingsTables)
    : result (option HeliusRingsOperationRow * RingsTables) :=
  match getOperationById tenant id t with
  | None => Ok (None, t)
  | Some r =>
      if negb (bool_decide (op_state r = expected)) then Ok (None, t)
      else if negb (operation_checks (f r)) then Err (check_violation "helius_rings_operations")
      else Ok (Some (f r), with_operations t (replace_operation id (f r) (operations t)))
  end.

Definition transitionState (now : string) (i : TransitionHeliusRingsOperationInput) (t : RingsTables)
    : result (option HeliusRingsOperationRow * RingsTables) :=
  swap_operation (tr_tenant i) (tr_id i) (tr_expectedState i) (transition_row now i) t.

Definition failOperation (now : string) (i : FailHeliusRingsOperationInput) (t : RingsTables)
    : result (option HeliusRingsOperationRow * RingsTables) :=
  swap_operation (fl_tenant i) (fl_id i) (fl_expectedState i) (failed_row now i) t.

(** ** Events *)

Record AppendHeliusRingsEventInput := mkAppend {
  ap_operationId : string;
  ap_kind : string;
  ap_payload : option json;
}.

(** [helius_rings_events_payload_is_object_check] *)
Definition is_object (j : json) : bool := match j with JObject _ => true | _ => false end.

Definition appendEvent (now id : string) (i : AppendHeliusRingsEventInput) (t : RingsTables)
    : result (HeliusRingsEventRow * RingsTables) :=
  let row := mkEventRow id (ap_operationId i) (ap_kind i) (redacted <$> ap_payload i) now in
  if negb (match ev_payload row with Some j => is_object j | None => true end)
  then Err (check_violation "helius_rings_events")
  else if existsb (fun e => String.eqb (ev_id e) id) (rings_events t)
  then Err (unique_violation "helius_rings_events_pkey")
  else if negb (existsb (fun o => String.eqb (row_id o) (ap_operationId i)) (operations t))
  then Err (foreign_key_violation "helius_rings_events")
  else Ok (row, with_events t (rings_events t ++ [row])).

(** ** Wallets *)

Definition getWalletById (tenant : HeliusRingsTenant) (id : string) (t : RingsTables)
    : option HeliusRingsWalletRow :=
  List.find (fun w => String.eqb (wl_id w) id && bool_decide (wl_tenant w = tenant)) (rings_wallets t).

Record CreateHeliusRingsWalletInput := mkCreateWallet {
  cw_tenant : HeliusRingsTenant;
  cw_sdpWalletId : string;
  cw_name : string;
  cw_materialTag : MaterialTag;
}.

(** [INSERT ... ON CONFLICT (project_id, sdp_wallet_id) DO UPDATE ... RETURNING *] *)
Definition createWallet (now id : string) (i : CreateHeliusRingsWalletInput) (t : RingsTables)
    : result (HeliusRingsWalletRow * RingsTables) :=
  match List.find (fun w => String.eqb (tn_projectId (wl_tenant w)) (tn_projectId (cw_tenant i))
                            && String.eqb (wl_sdp_wallet_id w) (cw_sdpWalletId i)) (rings_wallets t) with
  | Some existing => Ok (existing, t)
  | None =>
      if existsb (fun w => String.eqb (wl_id w) id) (rings_wallets t)
      then Err (unique_violation "helius_rings_wallets_pkey")
      else
        let w := mkWalletRow id (cw_tenant i) (cw_sdpWalletId i) (cw_name i) wallet_pending None None
                   (cw_materialTag i) now now in
        Ok (w, with_wallets t (rings_wallets t ++ [w]))
  end.

Record MarkHeliusRingsWalletProvisionedInput := mkProvisioned {
  mp_tenant : HeliusRingsTenant;
  mp_id : string;
  mp_shieldedAddress : string;
  mp_materialTag : MaterialTag;
  mp_expectedStatus : WalletStatus;
}.

Definition markProvisioned (now : string) (i : MarkHeliusRingsWalletProvisionedInput) (t : RingsTables)
    : result (option HeliusRingsWalletRow * RingsTables) :=
  match List.find (fun w => String.eqb (wl_id w) (mp_id i) && bool_decide (wl_tenant w = mp_tenant i)
                            && bool_decide (wl_status w = mp_expectedStatus i)) (rings_wallets t) with
  | None => Ok (None, t)
  | Some w =>
      let w' := mkWalletRow (wl_id w) (wl_tenant w) (wl_sdp_wallet_id w) (wl_name w) wallet_ready
                  (Some (mp_shieldedAddress i)) (wl_sync_cursor w) (mp_materialTag i) (wl_created_at w) now in
      Ok (Some w', with_wallets t
            (map (fun x => if String.eqb (wl_id x) (mp_id i) then w' else x) (rings_wallets t)))
  end.

Definition getWalletBySdpWalletId (tenant : HeliusRingsTenant) (sdpWalletId : string) (t : RingsTables)
    : option HeliusRingsWalletRow :=
  List.find (fun w => String.eqb (wl_sdp_wallet_id w) sdpWalletId && bool_decide (wl_tenant w = tenant))
    (rings_wallets t).

Definition listWallets (text_le : string -> string -> bool) (tenant : HeliusRingsTenant) (limit : Z)
    (t : RingsTables) : list HeliusRingsWalletRow :=
  limit_rows limit (order_by (fun a b => key_le text_le [wl_created_at b; wl_id b] [wl_created_at a; wl_id a])
    (List.filter (fun w => bool_decide (wl_tenant w = tenant)) (rings_wallets t))).

(** [UPDATE helius_rings_wallets SET f WHERE id = ? AND tenant RETURNING *] *)
Definition update_wallet (tenant : HeliusRingsTenant) (id : string)
    (f : HeliusRingsWalletRow -> HeliusRingsWalletRow) (t : RingsTables)
    : option HeliusRingsWalletRow * RingsTables :=
  match getWalletById tenant id t with
  | None => (None, t)
  | Some w =>
      (Some (f w), with_wallets t (map (fun x => if String.eqb (wl_id x) id then f w else x) (rings_wallets t)))
  end.

Definition updateStatus (now : string) (tenant : HeliusRingsTenant) (id : string) (status : WalletStatus)
    (t : RingsTables) : option HeliusRingsWalletRow * RingsTables :=
  update_wallet tenant id (fun w =>
    mkWalletRow (wl_id w) (wl_tenant w) (wl_sdp_wallet_id w) (wl_name w) status (wl_shielded_address w)
      (wl_sync_cursor w) (wl_material_tag w) (wl_created_at w) now) t.

Definition updateSyncCursor (now : string) (tenant : HeliusRingsTenant) (id : string)
    (syncCursor : option string) (t : RingsTables) : option HeliusRingsWalletRow * RingsTables :=
  update_wallet tenant id (fun w =>
    mkWalletRow (wl_id w) (wl_tenant w) (wl_sdp_wallet_id w) (wl_name w) (wl_status w) (wl_shielded_address w)
      syncCursor (wl_material_tag w) (wl_created_at w) now) t.

(** ** Zones and key material

    Both are keyed by their wallet and a second column; a replay returns the row that is
    there and writes nothing. *)

Definition wallet_exists (id : string) (t : RingsTables) : bool :=
  existsb (fun w => String.eqb (wl_id w) id) (rings_wallets t).

Definition createZone (now id walletId name kind : string) (t : RingsTables)
    : result (HeliusRingsZoneRow * RingsTables) :=
  if negb (bool_decide (kind ∈ ["treasury"; "public"])) then Err (check_violation "helius_rings_zones")
  else
    match List.find (fun z => String.eqb (zn_wallet_id z) walletId && String.eqb (zn_name z) name) (zones t) with
    | Some existing => Ok (existing, t)
    | None =>
        if existsb (fun z => String.eqb (zn_id z) id) (zones t) then Err (unique_violation "helius_rings_zones_pkey")
        else if negb (wallet_exists walletId t) then Err (foreign_key_violation "helius_rings_zones")
        else let z := mkZoneRow id walletId name kind now in Ok (z, with_zones t (zones t ++ [z]))
    end.

Definition getZoneById (id walletId : string) (t : RingsTables) : option HeliusRingsZoneRow :=
  List.find (fun z => String.eqb (zn_id z) id && String.eqb (zn_wallet_id z) walletId) (zones t).

Definition listZonesByWallet (text_le : string -> string -> bool) (walletId : string) (t : RingsTables)
    : list HeliusRingsZoneRow :=
  order_by (fun a b => key_le text_le [zn_created_at b; zn_id b] [zn_created_at a; zn_id a])
    (List.filter (fun z => String.eqb (zn_wallet_id z) walletId) (zones t)).

Record CreateHeliusRingsKeyRefInput := mkCreateKeyRef {
  ck_walletId : string;
  ck_kind : KeyKind;
  ck_ciphertext : string;
  ck_keyVersion : string;
  ck_materialTag : MaterialTag;
}.

Definition getKeyRef (walletId : string) (kind : KeyKind) (t : RingsTables) : option HeliusRingsKeyRefRow :=
  List.find (fun k => String.eqb (kr_wallet_id k) walletId && bool_decide (kr_kind k = kind)) (key_refs t).

Definition createKeyRef (now id : string) (i : CreateHeliusRingsKeyRefInput) (t : RingsTables)
    : result (HeliusRingsKeyRefRow * RingsTables) :=
  match getKeyRef (ck_walletId i) (ck_kind i) t with
  | Some existing => Ok (existing, t)
  | None =>
      if existsb (fun k => String.eqb (kr_id k) id) (key_refs t)
      then Err (unique_violation "helius_rings_key_refs_pkey")
      else if negb (wallet_exists (ck_walletId i) t) then Err (foreign_key_violation "helius_rings_key_refs")
      else
        let k := mkKeyRefRow id (ck_walletId i) (ck_kind i) (ck_ciphertext i) (ck_keyVersion i)
                   (ck_materialTag i) now in
        Ok (k, with_key_refs t (key_refs t ++ [k]))
  end.

(** [ORDER BY kind ASC] *)
Definition listKeyRefsByWallet (walletId : string) (t : RingsTables) : list HeliusRingsKeyRefRow :=
  let at_ kind := List.filter (fun k => String.eqb (kr_wallet_id k) walletId && bool_decide (kr_kind k = kind))
                    (key_refs t) in
  (at_ nullifier ++ at_ viewing)%list.

(** ** Health *)

Definition component_text (c : RuntimeHealthComponent) : string :=
  match c with
  | health_rpc => "rpc" | health_prover => "prover" | health_photon => "photon"
  | health_gateway => "gateway"
  end.

Record RecordHeliusRingsHealthInput := mkRecordHealth {
  rh_projectId : string;
  rh_component : RuntimeHealthComponent;
  rh_status : RuntimeHealthStatus;
  rh_detail : option (list (string * string));
}.

Definition of_component (project : string) (c : RuntimeHealthComponent) (h : HeliusRingsRuntimeHealthRow)
    : bool :=
  String.eqb (hl_project_id h) project && bool_decide (hl_component h = c).

(** [INSERT ... ON CONFLICT (project_id, component) DO UPDATE SET ...] *)
Definition recordHealth (now : string) (i : RecordHeliusRingsHealthInput) (t : RingsTables)
    : HeliusRingsRuntimeHealthRow * RingsTables :=
  let row := mkHealthRow (rh_projectId i) (rh_component i) (rh_status i) now (rh_detail i) in
  let same := of_component (rh_projectId i) (rh_component i) in
  (row, with_health t
     (if existsb same (health t) then map (fun h => if same h then row else h) (health t)
      else health t ++ [row])).

(** [ORDER BY component ASC] *)
Definition listHealthByProject (project : string) (t : RingsTables) : list HeliusRingsRuntimeHealthRow :=
  let at_ c := List.filter (of_component project c) (health t) in
  (at_ health_gateway ++ at_ health_photon ++ at_ health_prover ++ at_ health_rpc)%list.

Record RuntimeHealth := mkHealth {
  rpc_health : RuntimeHealthStatus;
  prover_health : RuntimeHealthStatus;
  photon_health : RuntimeHealthStatus;
  gateway_health : RuntimeHealthStatus;
  health_detail : option (list (string * string));
}.

(** A [Map] keeps the last row of a component; the keys of the details are prefixed. *)
Definition mapHeliusRingsHealthRows (rows : list HeliusRingsRuntimeHealthRow) : RuntimeHealth :=
  let byComponent c := List.find (fun h => bool_decide (hl_component h = c)) (rev rows) in
  let status c := match byComponent c with Some h => hl_status h | None => red end in
  let detail := flat_map (fun h =>
    map (fun '(key, value) => (component_text (hl_component h) ++ "." ++ key, value))
      (default [] (hl_detail h))) rows in
  mkHealth (status health_rpc) (status health_prover) (status health_photon) (status health_gateway)
    (match detail with [] => None | _ => Some detail end).

(** * Lemmas *)

(** The material a wallet's key was first sealed with is what every later call answers,
    whatever it brings, and nothing is written over it. *)
Lemma createKeyRef_first now id i t k t' :
  createKeyRef now id i t = Ok (k, t') ->
  getKeyRef (ck_walletId i) (ck_kind i) t' = Some k
  /\ forall now2 id2 i2, ck_walletId i2 = ck_walletId i -> ck_kind i2 = ck_kind i ->
       createKeyRef now2 id2 i2 t' = Ok (k, t').
Proof.
  intros H. enough (getKeyRef (ck_walletId i) (ck_kind i) t' = Some k) as E.
  { split; [done|]. intros now2 id2 i2 Hw Hk. unfold createKeyRef. by rewrite Hw, Hk, E. }
  unfold createKeyRef in H. destruct (getKeyRef _ _ t) as [e|] eqn:E; [by injection H as <- <-|].
  destruct (existsb _ _); [done|]. destruct (negb _); [done|]. injection H as <- <-.
  unfold getKeyRef in *. cbn [with_key_refs key_refs].
  induction (key_refs t) as [|x l IH]; cbn in *.
  - by rewrite String.eqb_refl, bool_decide_eq_true_2.
  - destruct (_ && _); [done|]. by apply IH.
Qed.
