(* ===== verification/RingsService.v ===== *)
(** * Helius Rings: the service

    [apps/sdp-api/src/services/helius-rings]: [service.ts], [signer-adapter.ts] and
    [rpc-adapter.ts], as programs over the repositories' methods (RingsLedger.v), the
    policy store's (PolicyEnforce.v), the gateway's port, custody, the RPC node and the
    approval requests. The dependency [enforcePolicy] is a parameter, which
    [production_policy] instantiates as the constructor does. Only the part of a
    gateway's answer the service reads is kept, and a call that broadcasts is a call
    like another: it may be refused after the node took the transaction. *)
From Stdlib Require Import Ascii String ZArith Lia.
From stdpp Require Import base list strings.
From S2P Require Import Prelude Text PolicyTypes PolicyEnforce PolicyService RingsTypes RingsRedaction RingsLedger.

Local Open Scope string_scope.
Local Open Scope Z_scope.
Local Open Scope sdp_scope.

(** ** Solana's kit *)

Abbreviation wire := (list Z).

Record OuterTransaction := mkOuter {
  outer_message : wire;
  outer_signatures : list (string * option wire);
}.

(** [getBase64Codec], the transaction codecs, [getSignatureFromTransaction]. *)
Class RingsKit := mkRingsKit {
  base64_encode : string -> result wire;
  base64_decode : wire -> string;
  outer_encode : OuterTransaction -> wire;
  outer_decode : wire -> result OuterTransaction;
  outer_signature : OuterTransaction -> result string;
}.

(** How a [TransactionSigner] signs: the type guards the adapter asks in order. *)
Inductive signer_kind := modifying_signer | partial_signer | other_signer.

(** ** The domain view of an operation *)

Record ProofArtifact := mkProof { pr_source : MaterialTag; pr_ref : string }.

Record OperationFailure := mkFailure { fail_code : FailureCode; fail_message : string; fail_retryable : bool }.

Record OperationEvent := mkOperationEvent {
  oe_kind : string;
  oe_createdAt : string;
  oe_payload : option json;
}.

Record PrivateOperation := mkPrivateOperation {
  po_id : string;
  po_walletId : string;
  po_opType : OpType;
  po_state : OperationState;
  po_approvalRequestId : option string;
  po_policyEvaluationId : option string;
  po_proof : option ProofArtifact;
  po_outerTxSignature : option string;
  po_photonIndexedAt : option string;
  po_failure : option OperationFailure;
  po_input : PrivateOperationInput;
  po_intentKey : string;
  po_events : list OperationEvent;
  po_createdAt : string;
  po_updatedAt : string;
}.

(** [value ? value : undefined] of a string column. *)
Definition present (o : option string) : option string := if truthy o then o else None.

(** The asset of a row whose two columns are truthy. *)
Definition row_asset (r : HeliusRingsOperationRow) : option OperationAsset :=
  match present (ro_asset_mint (op_facts r)), present (ro_amount_raw (op_facts r)) with
  | Some mint, Some amount => Some (mkAsset mint amount)
  | _, _ => None
  end.

Definition toPrivateOperation (r : HeliusRingsOperationRow) (events : list OperationEvent)
    : PrivateOperation :=
  let f := op_facts r in
  mkPrivateOperation (ro_id f) (ro_wallet_id f) (ro_op_type f) (op_state r) (approval_request_id r)
    (policy_evaluation_id r) None (outer_tx_signature r) (photon_indexed_at r)
    (match failure_code r, failure_message r, retryable r with
     | Some c, Some m, Some b => Some (mkFailure c m b)
     | _, _, _ => None
     end)
    (mkOperationInput (ro_wallet_id f) (ro_op_type f) (row_asset r) (ro_from_addr f) (ro_to_addr f)
       (ro_zone_id f) (ro_transfer_mode f) None "")
    (ro_intent_key f) events (ro_created_at f) (op_updated_at r).

Record PrivateWallet := mkPrivateWallet {
  pw_id : string;
  pw_sdpWalletId : string;
  pw_name : string;
  pw_shieldedAddress : option string;
  pw_status : WalletStatus;
  pw_syncCursor : option string;
  pw_materialTag : MaterialTag;
}.

(** The network of a wallet is always devnet. *)
Definition mapHeliusRingsWalletRow (w : HeliusRingsWalletRow) : PrivateWallet :=
  mkPrivateWallet (wl_id w) (wl_sdp_wallet_id w) (wl_name w) (wl_shielded_address w) (wl_status w)
    (wl_sync_cursor w) (wl_material_tag w).

Definition mapHeliusRingsEventRow (e : HeliusRingsEventRow) : OperationEvent :=
  mkOperationEvent (ev_kind e) (ev_created_at e) (ev_payload e).

(** ** Calls *)

Record BuildOperationResult := mkBuilt { outerUnsignedTxBase64 : string; ringsMetadata : string }.
Record VerifyIndexedResult := mkIndexed { indexedAt : string; photonRef : string }.
Record ProvisionIdentityResult := mkIdentity { shieldedAddress : string; keyRefs : list MaterialTag }.

Inductive rings_call :=
| CreateWallet (i : CreateHeliusRingsWalletInput)
| GetWalletById (tenant : HeliusRingsTenant) (id : string)
| MarkProvisioned (i : MarkHeliusRingsWalletProvisionedInput)
| ReserveIntent (i : ReserveHeliusRingsIntentInput)
| GetOperationById (tenant : HeliusRingsTenant) (id : string)
| TransitionState (i : TransitionHeliusRingsOperationInput)
| FailOperation (i : FailHeliusRingsOperationInput)
| GetTimelock (operationId : string)
| ListInFlightOperations (staleBefore : string) (limit : Z)
| AppendEvent (i : AppendHeliusRingsEventInput)
| ListEvents (operationId : string)
| RecordHealth (i : RecordHeliusRingsHealthInput)
| ListHealthByProject (projectId : string)
| PolicyStore (c : store_call)
| GetApprovalRequestDetail (tenant : HeliusRingsTenant) (approvalRequestId : string)
| ProvisionIdentity (walletId sdpAddress : string)
| BuildOperation (operation : PrivateOperation)
| RequestProof (operationId ringsMetadata : string)
| VerifyIndexed (signature : string)
| ProbeHealth
| CreateOrgSigner (tenant : HeliusRingsTenant)
| ModifyAndSign (transaction : OuterTransaction)
| SignTransactions (transaction : OuterTransaction)
| CreateRpc
| SendTransaction (bytes : wire)
| NowInstant
| NowMs.

Definition rings_answer (c : rings_call) : Type :=
  match c with
  | CreateWallet _ => option HeliusRingsWalletRow
  | GetWalletById _ _ => option HeliusRingsWalletRow
  | MarkProvisioned _ => option HeliusRingsWalletRow
  | ReserveIntent _ => HeliusRingsOperationRow * bool
  | GetOperationById _ _ => option HeliusRingsOperationRow
  | TransitionState _ => option HeliusRingsOperationRow
  | FailOperation _ => option HeliusRingsOperationRow
  | GetTimelock _ => option HeliusRingsTimelockRow
  | ListInFlightOperations _ _ => list HeliusRingsOperationRow
  | AppendEvent _ => HeliusRingsEventRow
  | ListEvents _ => list HeliusRingsEventRow
  | RecordHealth _ => HeliusRingsRuntimeHealthRow
  | ListHealthByProject _ => list HeliusRingsRuntimeHealthRow
  | PolicyStore c => store_response c
  | GetApprovalRequestDetail _ _ => option ApprovalRequestStatus
  | ProvisionIdentity _ _ => ProvisionIdentityResult
  | BuildOperation _ => BuildOperationResult
  | RequestProof _ _ => ProofArtifact
  | VerifyIndexed _ => option VerifyIndexedResult
  | ProbeHealth => RuntimeHealth
  | CreateOrgSigner _ => signer_kind
  | ModifyAndSign _ => OuterTransaction
  | SignTransactions _ => list (string * option wire)
  | CreateRpc => unit
  | SendTransaction _ => string
  | NowInstant => string
  | NowMs => Z
  end.

Abbreviation rings_event := (event rings_answer).
Abbreviation rings_prog := (prog rings_answer).

Definition rings_ev (c : rings_call) (r : result (rings_answer c)) : rings_event := Ev c r.

Definition ask (c : rings_call) : rings_prog (rings_answer c) := call c.

(** The policy engine's calls, among the service's. *)
Fixpoint with_store {A} (m : store_prog A) : rings_prog A :=
  match m with
  | Ret a => Ret a
  | Throw e => Throw e
  | Call c k => Call (R := rings_answer) (PolicyStore c) (fun r => with_store (k r))
  end.

(** [enforceWalletOperationPolicy] of [services/policy/enforcement.service.ts], under the
    tenant's scope. *)
Definition production_policy (tenant : HeliusRingsTenant) (input : CreateWalletOperationInput)
    : rings_prog (WalletOperationEnvelope * PolicyEvaluation) :=
  let! scope := of_result (createTenantScope (tn_organizationId tenant) (Some (tn_projectId tenant))) in
  with_store (PolicyService.enforceWalletOperationPolicy scope input).

(** ** The adapters *)

Section Adapters.
Context {K : RingsKit}.

(** [NON_RETRYABLE_SIGNING_CODES] *)
Definition NON_RETRYABLE_SIGNING_CODES : list string :=
  ["PROVIDER_NOT_CONFIGURED"; "WALLET_NOT_FOUND"; "NOT_FOUND"; "INVALID_REQUEST"; "APPROVAL_REJECTED"].

Definition toSignerFailure (error : jserr) : jserr :=
  match error with
  | RetryableError "RingsAdapterError" _ _ _ => error
  | CodedError "SigningError" code message _ =>
      RingsAdapterError signer_failed message
        (negb (bool_decide (code ∈ NON_RETRYABLE_SIGNING_CODES)))
  | _ => RingsAdapterError signer_failed "custody signing failed" true
  end.

(** [{...transaction.signatures, ...signatures}]: an address keeps its place. *)
Definition merge_signature (ss : list (string * option wire)) (s : string * option wire)
    : list (string * option wire) :=
  if existsb (fun x => String.eqb x.1 s.1) ss
  then map (fun x => if String.eqb x.1 s.1 then s else x) ss
  else (ss ++ [s])%list.

Definition signRingsOuterTransaction (tenant : HeliusRingsTenant) (unsignedTxBase64 : string)
    : rings_prog string :=
  let! signer := catch (ask (CreateOrgSigner tenant)) (fun error => Throw (toSignerFailure error)) in
  let! transaction := of_result (let? b := base64_encode unsignedTxBase64 in outer_decode b) in
  let! signedTransaction := catch
    match signer with
    | modifying_signer => ask (ModifyAndSign transaction)
    | partial_signer =>
        let! signatures := ask (SignTransactions transaction) in
        Ret (mkOuter (outer_message transaction)
               (fold_left merge_signature signatures (outer_signatures transaction)))
    | other_signer =>
        Throw (RingsAdapterError signer_failed "custody signer cannot sign compiled transactions" false)
    end
    (fun error => Throw (toSignerFailure error)) in
  Ret (base64_decode (outer_encode signedTransaction)).

Definition submitRingsOuterTransaction (signedTxBase64 : string) : rings_prog string :=
  ask CreateRpc ;;;
  let! signedBytes := of_result (base64_encode signedTxBase64) in
  catch (ask (SendTransaction signedBytes))
    (fun error => Throw (RingsAdapterError submit_failed
       (match as_error error with
        | Some e => error_message e
        | None => "transaction submission failed"
        end) true)).

(** [getSignatureFromTransaction(getTransactionDecoder().decode(getBase64Codec().encode(signed)))] *)
Definition signature_of (signed : string) : result string :=
  let? b := base64_encode signed in let? t := outer_decode b in outer_signature t.
End Adapters.

(** ** The service *)

Definition RINGS_MAX_RETRY_DEPTH : Z := 5.

Record HeliusRingsActor := mkActorContext {
  ctx_apiKeyId : option string;
  ctx_actor : option WalletOperationActor;
  ctx_custodyWalletId : option string;
}.

Definition EXECUTABLE_STATES : list OperationState := [op_approval_required; op_submitted; op_indexing].

(** The guard of the constructor. *)
Definition assertDevnet (SOLANA_NETWORK : option string) : result unit :=
  if String.eqb (default "devnet" SOLANA_NETWORK) "devnet" then Ok tt
  else Err (AppError "SERVICE_UNAVAILABLE" "Helius Rings is devnet-only").

Section Service.
Context {K : RingsKit}.
Variable sha256 : list ascii -> list Z.
Variable enforcePolicy : HeliusRingsTenant -> CreateWalletOperationInput
  -> rings_prog (WalletOperationEnvelope * PolicyEvaluation).
Variable tenant : HeliusRingsTenant.

(** The default of the dependency [getApprovalStatus]. *)
Definition getApprovalStatus (approvalRequestId : string) : rings_prog (option ApprovalRequestStatus) :=
  let! _ := of_result (createTenantScope (tn_organizationId tenant) (Some (tn_projectId tenant))) in
  ask (GetApprovalRequestDetail tenant approvalRequestId).

Definition requireWallet (walletId : string) : rings_prog HeliusRingsWalletRow :=
  let! wallet := ask (GetWalletById tenant walletId) in
  match wallet with
  | Some w => Ret w
  | None => Throw (AppError "NOT_FOUND" "rings wallet not found")
  end.

Definition requireOperation (operationId : string) : rings_prog HeliusRingsOperationRow :=
  let! operation := ask (GetOperationById tenant operationId) in
  match operation with
  | Some r => Ret r
  | None => Throw (AppError "NOT_FOUND" "rings operation not found")
  end.

Definition append (operationId kind : string) (payload : option json) : rings_prog unit :=
  ask (AppendEvent (mkAppend operationId kind payload)) ;;; Ret tt.

Definition transition (operationId : string) (expectedState : OperationState)
    (g : option TransitionGuard) (patch : HeliusRingsOperationTransitionPatch)
    : rings_prog (option HeliusRingsOperationRow) :=
  match nextState expectedState g with
  | None => Ret None
  | Some to =>
      let! row := ask (TransitionState (mkTransitionInput tenant operationId expectedState to patch)) in
      match row with
      | Some r =>
          append operationId "state.transitioned"
            (Some (JObject [("from", JString (state_text expectedState)); ("to", JString (state_text to))])) ;;;
          Ret (Some r)
      | None => Ret None
      end
  end.

Definition fail (operationId : string) (expectedState : OperationState) (code : FailureCode)
    (message : string) (retry : bool) : rings_prog (option HeliusRingsOperationRow) :=
  let! row := ask (FailOperation (mkFailInput tenant operationId expectedState code message retry)) in
  match row with
  | Some r =>
      append operationId "operation.failed"
        (Some (JObject [("code", JString (failure_code_text code)); ("retryable", JBool retry)])) ;;;
      Ret (Some r)
  | None => Ret None
  end.

(** [row ?? (await this.requireOperation(id))] *)
Definition or_current (row : option HeliusRingsOperationRow) (operationId : string)
    : rings_prog HeliusRingsOperationRow :=
  match row with Some r => Ret r | None => requireOperation operationId end.

(** The failure an error that reached the pipeline is recorded as. *)
Definition port_failure (error : jserr) : FailureCode * string * bool :=
  match adapter_error error with
  | Some failure => failure
  | None =>
      (gateway_unavailable,
       match as_error error with Some e => error_message e | None => "rings gateway failed" end, true)
  end.

Definition failFromPortError (operation : HeliusRingsOperationRow) (error : jserr)
    : rings_prog HeliusRingsOperationRow :=
  let '(code, message, retry) := port_failure error in
  let! failed := fail (row_id operation) (op_state operation) code message retry in
  or_current failed (row_id operation).

(** A stretch of the pipeline's [try] block, in which [current] is this row. *)
Definition attempt {A} (current : HeliusRingsOperationRow) (m : rings_prog A)
    : rings_prog (HeliusRingsOperationRow + A) :=
  catch (let! a := m in Ret (inr a))
        (fun error => let! failed := failFromPortError current error in Ret (inl failed)).

(** [proving]: build the transaction and ask for the proof. *)
Definition prove (current : HeliusRingsOperationRow)
    : rings_prog (BuildOperationResult * ProofArtifact * option HeliusRingsOperationRow) :=
  let! built := ask (BuildOperation (toPrivateOperation current [])) in
  let! proof := ask (RequestProof (row_id current) (ringsMetadata built)) in
  let! ready := transition (row_id current) op_proving (Some proof_received)
    (mkPatch None None (Some (Some (pr_source proof))) (Some (Some (pr_ref proof))) None None) in
  Ret ((built, proof, ready) : BuildOperationResult * ProofArtifact * option HeliusRingsOperationRow).

(** [ready_to_sign]: sign, and record the signature before anything is sent. *)
Definition sign (current : HeliusRingsOperationRow) (built : BuildOperationResult) (proof : ProofArtifact)
    : rings_prog (string * string * option HeliusRingsOperationRow) :=
  append (row_id current) "proof.received"
    (Some (JObject [("source", JString (material_tag_text (pr_source proof)))])) ;;;
  let! signed_ := signRingsOuterTransaction tenant (outerUnsignedTxBase64 built) in
  let! signature := match signature_of signed_ with
    | Ok s => Ret s
    | Err _ => Throw (RingsAdapterError signer_failed "signer returned undecodable bytes" false)
    end in
  let! submitted := transition (row_id current) op_ready_to_sign (Some signed)
    (mkPatch None None None None (Some (Some signature)) None) in
  Ret (signed_, signature, submitted).

(** [submitted]: broadcast, then hand over to the indexer. *)
Definition broadcast (current : HeliusRingsOperationRow) (signed_ signature : string)
    : rings_prog HeliusRingsOperationRow :=
  let! _ := submitRingsOuterTransaction signed_ in
  append (row_id current) "transaction.submitted" (Some (JObject [("signature", JString signature)])) ;;;
  let! indexing := transition (row_id current) op_submitted (Some guard_submitted) empty_patch in
  or_current indexing (row_id current).

(** The [return this.requireOperation(...)] of a lost swap is not awaited, so what it
    throws is not caught; the last one is. *)
Definition runPipeline (operation : HeliusRingsOperationRow) : rings_prog HeliusRingsOperationRow :=
  let! proved := attempt operation (prove operation) in
  match proved with
  | inl failed => Ret failed
  | inr (_, _, None) => requireOperation (row_id operation)
  | inr (built, proof, Some ready) =>
      let! signing := attempt ready (sign ready built proof) in
      match signing with
      | inl failed => Ret failed
      | inr (_, _, None) => requireOperation (row_id ready)
      | inr (signed_, signature, Some submitted) =>
          let! sent := attempt submitted (broadcast submitted signed_ signature) in
          match sent with inl r | inr r => Ret r end
      end
  end.

(** ** Preparing *)

Definition reserve_input (wallet : HeliusRingsWalletRow) (input : PrivateOperationInput)
    (retryOfOperationId : option string) : ReserveHeliusRingsIntentInput :=
  mkReserve tenant (wl_id wallet) (in_opType input) (computeIntentKey sha256 input)
    (asset_mint <$> in_asset input) (asset_amountRaw <$> in_asset input) (in_from input) (in_to input)
    (in_zoneId input) (in_transferMode input) retryOfOperationId (in_timelock input).

Definition view (r : HeliusRingsOperationRow) : PrivateOperation := toPrivateOperation r [].

Definition fail_view (operationId : string) (expectedState : OperationState) (code : FailureCode)
    (message : string) (retry : bool) : rings_prog PrivateOperation :=
  let! failed := fail operationId expectedState code message retry in
  let! r := or_current failed operationId in
  Ret (view r).

Definition current_view (operationId : string) : rings_prog PrivateOperation :=
  let! r := requireOperation operationId in Ret (view r).

Definition envelope_input (context : HeliusRingsActor) (wallet : HeliusRingsWalletRow)
    (input : PrivateOperationInput) (operationId : string) : CreateWalletOperationInput :=
  buildRingsWalletOperationInput
    (mkEnvelopeInput (tn_organizationId tenant) (tn_projectId tenant) (ctx_custodyWalletId context)
       (wl_sdp_wallet_id wallet) (ctx_apiKeyId context) (ctx_actor context) input operationId
       (computeIntentKey sha256 input)).

(** From [preparing] on. *)
Definition decide_operation (operationId : string) (evaluation : PolicyEvaluation)
    : rings_prog PrivateOperation :=
  let d := row_input evaluation in
  append operationId "policy.evaluated"
    (Some (JObject [("decision", JString (decision_text (record_decision d)));
                    ("policyEvaluationId", JString (PolicyEnforce.row_id evaluation))])) ;;;
  if bool_decide (record_decision d = deny) then
    fail_view operationId op_preparing policy_denied (record_reason d) false
  else
    let! paused := transition operationId op_preparing (Some policy_ok)
      (mkPatch (Some (record_approvalRequestId d)) (Some (Some (PolicyEnforce.row_id evaluation)))
         None None None None) in
    match paused with
    | None => current_view operationId
    | Some paused =>
        if record_requiresApproval d then
          append operationId "approval.requested"
            (Some (JObject [("approvalRequestId", json_nullable (record_approvalRequestId d))])) ;;;
          Ret (view paused)
        else
          let! proving := transition operationId op_approval_required (Some approved) empty_patch in
          match proving with
          | None => current_view operationId
          | Some proving => let! r := runPipeline proving in Ret (view r)
          end
    end.

Definition prepareOperation (input : PrivateOperationInput) (context : HeliusRingsActor)
    (retryOfOperationId : option string) : rings_prog PrivateOperation :=
  let! wallet := requireWallet (in_walletId input) in
  let! (operation, reserved) := ask (ReserveIntent (reserve_input wallet input retryOfOperationId)) in
  if negb reserved then Ret (view operation)
  else
    let id := row_id operation in
    append id (if truthy retryOfOperationId then "operation.retried" else "operation.created")
      (match present retryOfOperationId with
       | Some r => Some (JObject [("retryOfOperationId", JString r)])
       | None => None
       end) ;;;
    let! preparing := transition id op_draft None empty_patch in
    match preparing with
    | None => current_view id
    | Some _ =>
        let! enforced := catch
          (let! e := enforcePolicy tenant (envelope_input context wallet input id) in Ret (inr e))
          (fun error => Ret (inl error)) in
        match enforced with
        | inl error =>
            fail_view id op_preparing invalid_input
              (match as_error error with Some e => error_message e | None => "policy evaluation failed" end) true
        | inr (_, evaluation) => decide_operation id evaluation
        end
    end.

(** ** Executing *)

Definition executeApproval (operation : HeliusRingsOperationRow) : rings_prog PrivateOperation :=
  let id := row_id operation in
  match present (approval_request_id operation) with
  | None => fail_view id op_approval_required invalid_input "approval_required without an approval request" false
  | Some request =>
      let! status := getApprovalStatus request in
      match status with
      | Some request_rejected =>
          fail_view id op_approval_required approval_rejected "approval request was rejected" false
      | Some request_canceled =>
          fail_view id op_approval_required approval_rejected "approval request was canceled" false
      | Some request_expired =>
          fail_view id op_approval_required approval_rejected "approval request was expired" false
      | Some request_approved =>
          append id "approval.granted" None ;;;
          let! proving := transition id op_approval_required (Some approved) empty_patch in
          match proving with
          | None => current_view id
          | Some proving => let! r := runPipeline proving in Ret (view r)
          end
      | _ => Ret (view operation)
      end
  end.

(** [indexing]: the port is asked; what it throws, or what recording its answer throws,
    takes the fail edge. *)
Definition executeIndexing (operation : HeliusRingsOperationRow) : rings_prog PrivateOperation :=
  let id := row_id operation in
  match present (outer_tx_signature operation) with
  | None => fail_view id op_indexing invalid_input "indexing without a submitted signature" false
  | Some signature =>
      let! polled := attempt operation
        (let! indexed_ := ask (VerifyIndexed signature) in
         match indexed_ with
         | None => Ret operation
         | Some found =>
             let! completed := transition id op_indexing (Some indexed)
               (mkPatch None None None None None (Some (Some (indexedAt found)))) in
             match completed with
             | Some r =>
                 append id "operation.completed" (Some (JObject [("photonRef", JString (photonRef found))])) ;;;
                 Ret r
             | None => requireOperation id
             end
         end) in
      match polled with inl r | inr r => Ret (view r) end
  end.

Definition executeOperation (operationId : string) : rings_prog PrivateOperation :=
  let! operation := requireOperation operationId in
  if negb (bool_decide (op_state operation ∈ EXECUTABLE_STATES)) then Ret (view operation)
  else if bool_decide (op_state operation = op_approval_required) then executeApproval operation
  else if bool_decide (op_state operation = op_submitted) then
    let! resumed := transition (row_id operation) op_submitted (Some guard_submitted) empty_patch in
    match resumed with
    | None => current_view (row_id operation)
    | Some operation => executeIndexing operation
    end
  else executeIndexing operation.

(** ** Retrying *)

(** The walk toward the original operation, and the depth it finds. *)
Fixpoint retryDepth (fuel : nat) (depth : Z) (ancestorId : option string) : rings_prog Z :=
  if truthy ancestorId && (depth <? RINGS_MAX_RETRY_DEPTH + 1) then
    match fuel with
    | O => Throw (NonError "out of fuel")
    | S fuel =>
        let! ancestor := ask (GetOperationById tenant (default "" ancestorId)) in
        retryDepth fuel (depth + 1) (mbind (fun r => ro_retry_of (op_facts r)) ancestor)
    end
  else Ret depth.

Definition assertRetryDepth (operation : HeliusRingsOperationRow) : rings_prog unit :=
  let! depth := retryDepth (Z.to_nat RINGS_MAX_RETRY_DEPTH) 1 (ro_retry_of (op_facts operation)) in
  if RINGS_MAX_RETRY_DEPTH <? depth + 1
  then Throw (AppError "CONFLICT" "retry limit reached (5); inspect the failure instead of retrying")
  else Ret tt.

Definition retry_intent (failed : HeliusRingsOperationRow) (timelock : option HeliusRingsTimelockRow)
    (nonce : string) : PrivateOperationInput :=
  let f := op_facts failed in
  mkOperationInput (ro_wallet_id f) (ro_op_type f) (row_asset failed) (ro_from_addr f) (ro_to_addr f)
    (ro_zone_id f) (ro_transfer_mode f)
    ((fun t => mkTimelock (tl_unlock_at t) (tl_beneficiary_addr t)) <$> timelock) nonce.

Definition retryOperation (operationId nonce : string) (context : HeliusRingsActor)
    : rings_prog PrivateOperation :=
  let! failed := requireOperation operationId in
  if negb (bool_decide (op_state failed = op_failed)) then
    Throw (conflict "only a failed operation can be retried")
  else if negb (bool_decide (retryable failed = Some true)) then
    Throw (conflict "operation failure is not retryable")
  else
    assertRetryDepth failed ;;;
    let! timelock := if truthy (ro_timelock_unlock_at (op_facts failed))
                     then ask (GetTimelock (row_id failed)) else Ret None in
    prepareOperation (retry_intent failed timelock nonce) context (Some (row_id failed)).

(** ** Reading, health and wallets *)

Definition getOperation (operationId : string) : rings_prog PrivateOperation := current_view operationId.

Definition getOperationWithEvents (operationId : string) : rings_prog PrivateOperation :=
  let! row := requireOperation operationId in
  let! events := ask (ListEvents (row_id row)) in
  Ret (toPrivateOperation row (map mapHeliusRingsEventRow events)).

Definition record_health (component : RuntimeHealthComponent) (status : RuntimeHealthStatus)
    (detail : option (list (string * string))) : rings_prog unit :=
  ask (RecordHealth (mkRecordHealth (tn_projectId tenant) component status detail)) ;;; Ret tt.

(** [Promise.all]: every call is made, then the first failure is thrown. *)
Fixpoint all_settled (ms : list (rings_prog unit)) : rings_prog unit :=
  match ms with
  | [] => Ret tt
  | m :: rest =>
      let! failure := catch (let! _ := m in Ret None) (fun error => Ret (Some error)) in
      let! _ := all_settled rest in
      match failure with Some error => Throw error | None => Ret tt end
  end.

Definition probeHealth : rings_prog RuntimeHealth :=
  catch
    (let! h := ask ProbeHealth in
     all_settled
       [record_health health_rpc (rpc_health h) None;
        record_health health_prover (prover_health h) None;
        record_health health_photon (photon_health h) None;
        record_health health_gateway (gateway_health h) None])
    (fun error =>
       record_health health_gateway red
         (Some [("reason", match error with
                           | CodedError "HeliusRingsError" _ message _ => message
                           | _ => "gateway probe failed"
                           end)])) ;;;
  let! rows := ask (ListHealthByProject (tn_projectId tenant)) in
  Ret (mapHeliusRingsHealthRows rows).

Definition provisionPrivateWallet (sdpWalletId sdpAddress name : string) : rings_prog PrivateWallet :=
  let! wallet := ask (CreateWallet (mkCreateWallet tenant sdpWalletId name simulated)) in
  match wallet with
  | None => Throw (internalError "rings wallet reservation returned no row")
  | Some wallet =>
      if negb (bool_decide (wl_status wallet = wallet_pending)) then Ret (mapHeliusRingsWalletRow wallet)
      else
        let! identity := ask (ProvisionIdentity (wl_id wallet) sdpAddress) in
        let materialTag := if forallb (fun tag => bool_decide (tag = live)) (keyRefs identity)
                           then live else simulated in
        let! provisioned := ask (MarkProvisioned (mkProvisioned tenant (wl_id wallet)
                                   (shieldedAddress identity) materialTag wallet_pending)) in
        match provisioned with
        | Some w => Ret (mapHeliusRingsWalletRow w)
        | None => let! w := requireWallet (wl_id wallet) in Ret (mapHeliusRingsWalletRow w)
        end
  end.
End Service.
