(* ===== verification/RingsPoll.v ===== *)
(** * Helius Rings: the indexing poll and the requests

    [apps/sdp-api/src/services/jobs/poll-rings-indexing.ts], the flag of
    [lib/feature-flags.ts] that gates it. The service of a row is the one of RingsService.v. Then what is asked
    of the service, as the programs that run at once in RingsGuarantees.v. *)
From Stdlib Require Import Ascii String ZArith Lia.
From stdpp Require Import base list strings.
From S2P Require Import Prelude Text Dates PolicyTypes PolicyEnforce RingsTypes RingsLedger RingsService.

Local Open Scope string_scope.
Local Open Scope Z_scope.
Local Open Scope list_scope.
Local Open Scope sdp_scope.

(** ** The flag *)

Record RingsEnv := mkRingsEnv {
  HELIUS_RINGS_ENABLED : option string;
  HELIUS_RINGS_ADAPTER : option string;
  SOLANA_NETWORK : option string;
}.

Definition isHeliusRingsEnabled (env : RingsEnv) : bool := isTruthyFlag (HELIUS_RINGS_ENABLED env).

Definition isRingsIndexingPollEnabled (env : RingsEnv) : bool :=
  isHeliusRingsEnabled env && bool_decide (HELIUS_RINGS_ADAPTER env = Some "http").

(** ** The sweep *)

Definition RINGS_INDEXING_TIMEOUT_MS : Z := 30 * 60 * 1000.
Definition MAX_PER_RUN : Z := 100.

(** [Date.parse(operation.updated_at) < timeoutCutoff] *)
Definition timed_out (timeoutCutoff : Z) (r : HeliusRingsOperationRow) : bool :=
  match Date_parse (op_updated_at r) with Some at_ => at_ <? timeoutCutoff | None => false end.

Definition timeout_failure (r : HeliusRingsOperationRow) : FailHeliusRingsOperationInput :=
  mkFailInput (ro_tenant (op_facts r)) (row_id r) op_indexing indexing_timeout
    "Photon did not index the transaction within the budget" true.

Definition failIndexingTimeout (r : HeliusRingsOperationRow) : rings_prog unit :=
  ask (FailOperation (timeout_failure r)) ;;; Ret tt.

Section Poll.
Context {K : RingsKit}.

(** The body of the [try] block. *)
Definition poll_one (env : RingsEnv) (timeoutCutoff : Z) (r : HeliusRingsOperationRow) : rings_prog unit :=
  if bool_decide (op_state r = op_indexing) && timed_out timeoutCutoff r then failIndexingTimeout r
  else
    of_result (assertDevnet (SOLANA_NETWORK env)) ;;;
    executeOperation (ro_tenant (op_facts r)) (row_id r) ;;;
    Ret tt.

(** One turn of the loop: a warning is logged of what the block throws. *)
Definition poll_turn (env : RingsEnv) (timeoutCutoff : Z) (r : HeliusRingsOperationRow) : rings_prog unit :=
  if negb (bool_decide (op_state r = op_indexing)) && negb (bool_decide (op_state r = op_submitted)) then Ret tt
  else catch (poll_one env timeoutCutoff r) (fun _ => Ret tt).

Definition pollRingsIndexing (env : RingsEnv) : rings_prog unit :=
  if negb (isRingsIndexingPollEnabled env) then Ret tt
  else
    let! staleBefore := ask NowInstant in
    let! inFlight := ask (ListInFlightOperations staleBefore MAX_PER_RUN) in
    let! now := ask NowMs in
    for_each (poll_turn env (now - RINGS_INDEXING_TIMEOUT_MS)) inFlight.
End Poll.

(** ** Requests *)

Inductive rings_request :=
| PrepareRequest (tenant : HeliusRingsTenant) (input : PrivateOperationInput) (context : HeliusRingsActor)
| ExecuteRequest (tenant : HeliusRingsTenant) (id : string)
| RetryRequest (tenant : HeliusRingsTenant) (id nonce : string) (context : HeliusRingsActor)
| ReadRequest (tenant : HeliusRingsTenant) (id : string)
| HealthRequest (tenant : HeliusRingsTenant)
| ProvisionRequest (tenant : HeliusRingsTenant) (sdpWalletId sdpAddress name : string)
| PollTick.

Section Requests.
Context {K : RingsKit} (sha256 : list ascii -> list Z) (env : RingsEnv).

(** The service is built for the request, under the devnet guard. *)
Definition serve (r : rings_request) : rings_prog unit :=
  let served {A} (m : rings_prog A) : rings_prog unit :=
    of_result (assertDevnet (SOLANA_NETWORK env)) ;;; m ;;; Ret tt in
  match r with
  | PrepareRequest tenant input context =>
      served (prepareOperation sha256 production_policy tenant input context None)
  | ExecuteRequest tenant id => served (executeOperation tenant id)
  | RetryRequest tenant id nonce context =>
      served (retryOperation sha256 production_policy tenant id nonce context)
  | ReadRequest tenant id => served (getOperationWithEvents tenant id)
  | HealthRequest tenant => served (probeHealth tenant)
  | ProvisionRequest tenant sdpWalletId sdpAddress name =>
      served (provisionPrivateWallet tenant sdpWalletId sdpAddress name)
  | PollTick => pollRingsIndexing env
  end.
End Requests.

Abbreviation rings_log := (list (nat * rings_event)).

(** The transactions sent, in order. *)
Definition broadcasts (tr : rings_log) : list wire :=
  flat_map (fun x => match ev_call x.2 with SendTransaction b => [b] | _ => [] end) tr.

(** * Lemmas *)

Example flag_spellings :
  map isTruthyFlag [Some " TRUE "; Some "on"; Some "0"; Some ""; None] = [true; true; false; false; false].
Proof. vm_compute. reflexivity. Qed.

(** A loop whose turns never throw, and what each turn does. *)
Lemma for_each_all {C} {R : C -> Type} {A} (f : A -> prog R unit) (V : list (event R) -> A -> Prop) xs :
  (forall tr tr' x, (forall e, e ∈ tr -> e ∈ tr') -> V tr x -> V tr' x) ->
  (forall x, x ∈ xs -> all_runs (f x) (fun tr res => res = Ok tt /\ V tr x)) ->
  all_runs (for_each f xs) (fun tr res => res = Ok tt /\ forall x, x ∈ xs -> V tr x).
Proof.
  intros Hmono. induction xs as [|x xs IH]; intros H; cbn [for_each].
  - split; [done|]. intros x Hx. by apply elem_of_nil in Hx.
  - apply all_runs_bind. eapply all_runs_mono; [|apply H; by left].
    intros tr res [-> Hx]. eapply all_runs_mono; [|apply IH; intros y Hy; apply H; by right].
    intros tr' res' [-> Hxs]. split; [done|]. intros y [->|Hy]%elem_of_cons.
    + eapply Hmono; [|exact Hx]. intros e He. apply elem_of_app. by left.
    + eapply Hmono; [|by apply Hxs]. intros e He. apply elem_of_app. by right.
Qed.

Section Visits.
Context {K : RingsKit} (env : RingsEnv).

(** What the sweep owes an operation it listed: the timeout, or a new look at it. *)
Definition visited (cutoff : Z) (tr : list rings_event) (r : HeliusRingsOperationRow) : Prop :=
  op_state r ∈ [op_submitted; op_indexing] ->
  if bool_decide (op_state r = op_indexing) && timed_out cutoff r
  then exists a, rings_ev (FailOperation (timeout_failure r)) a ∈ tr
  else exists a, rings_ev (GetOperationById (ro_tenant (op_facts r)) (row_id r)) a ∈ tr.

Lemma visited_mono cutoff tr tr' r :
  (forall e, e ∈ tr -> e ∈ tr') -> visited cutoff tr r -> visited cutoff tr' r.
Proof.
  intros Hsub H Hst. specialize (H Hst). destruct (_ && _); destruct H as [a Ha]; exists a; auto.
Qed.

Lemma poll_turn_visits cutoff r :
  assertDevnet (SOLANA_NETWORK env) = Ok tt ->
  all_runs (poll_turn env cutoff r) (fun tr res => res = Ok tt /\ visited cutoff tr r).
Proof.
  intros Hd. unfold poll_turn, visited.
  destruct (bool_decide_reflect (op_state r = op_indexing)) as [Hi|Hi]; cbn [negb andb].
  2: destruct (bool_decide_reflect (op_state r = op_submitted)) as [Hs|Hs]; cbn [negb andb].
  3: { split; [done|]. rewrite !elem_of_cons, elem_of_nil. tauto. }
  all: apply all_runs_catch; unfold poll_one; rewrite Hd.
  - rewrite bool_decide_eq_true_2 by done. cbn [andb]. destruct (timed_out cutoff r).
    + unfold failIndexingTimeout, ask, call. cbn [bind all_runs]. intros [a|e]; cbn [bind all_runs];
        (split; [done|]; intros _; eexists; by left).
    + cbn [of_result bind]. unfold executeOperation, requireOperation, ask, call. cbn [bind all_runs]. intros a.
      eapply all_runs_mono; [|apply all_runs_true]. intros tr [[]|e] _; cbn [all_runs];
        (split; [done|]; intros _; eexists; by left).
  - rewrite bool_decide_eq_false_2 by done. cbn [andb of_result bind].
    unfold executeOperation, requireOperation, ask, call. cbn [bind all_runs]. intros a.
    eapply all_runs_mono; [|apply all_runs_true]. intros tr [[]|e] _; cbn [all_runs];
      (split; [done|]; intros _; eexists; by left).
Qed.

(** Whatever is answered to its calls, a sweep either fails because its clock or its
    list did, before it looked at anything, or ends without an error having visited every
    submitted or indexing operation of the list: one that fails does not starve the
    rest. *)
Theorem poll_visits_every_operation :
  isRingsIndexingPollEnabled env = true -> assertDevnet (SOLANA_NETWORK env) = Ok tt ->
  all_runs (pollRingsIndexing env) (fun tr res =>
    (exists pre c e, tr = pre ++ [rings_ev c (Err e)] /\ (length pre < 3)%nat /\ res = Err e)
    \/ exists before rows now rest,
         tr = rings_ev NowInstant (Ok before)
              :: rings_ev (ListInFlightOperations before MAX_PER_RUN) (Ok rows)
              :: rings_ev NowMs (Ok now) :: rest
         /\ res = Ok tt /\ forall r, r ∈ rows -> visited (now - RINGS_INDEXING_TIMEOUT_MS) rest r).
Proof.
  intros He Hd. unfold pollRingsIndexing. rewrite He. cbn [negb]. unfold ask, call. cbn [bind all_runs].
  intros [before|e]; cbn [bind all_runs]; [|left; by exists [], NowInstant, e; split; [|split; [cbn; lia|]]].
  intros [rows|e]; cbn [bind all_runs].
  2: { left. exists [rings_ev NowInstant (Ok before)], (ListInFlightOperations before MAX_PER_RUN), e.
       split; [done|split; [cbn; lia|done]]. }
  intros [now|e]; cbn [bind all_runs].
  2: { left. exists [rings_ev NowInstant (Ok before); rings_ev (ListInFlightOperations before MAX_PER_RUN) (Ok rows)],
         NowMs, e. split; [done|split; [cbn; lia|done]]. }
  eapply all_runs_mono; [|apply (for_each_all _ (fun tr r => visited (now - RINGS_INDEXING_TIMEOUT_MS) tr r));
    [intros; by eapply visited_mono|intros r _; by apply poll_turn_visits]].
  intros tr res [-> H]. right. by exists before, rows, now, tr.
Qed.

(** A sweep that finds the flag off makes no call. *)
Lemma poll_dormant :
  isRingsIndexingPollEnabled env = false -> pollRingsIndexing env = Ret tt.
Proof. intros H. unfold pollRingsIndexing. by rewrite H. Qed.

(** An operation that stopped in [draft], [preparing], [proving] or [ready_to_sign], or
    that ended, is answered as it is, by one read; the sweep passes it over. *)
Lemma stranded_operations tenant id cutoff :
  exists k, executeOperation tenant id = Call (GetOperationById tenant id) k
    /\ forall r, op_state r ∈ [op_draft; op_preparing; op_proving; op_ready_to_sign; op_completed; op_failed] ->
         k (Ok (Some r)) = Ret (view r) /\ poll_turn env cutoff r = Ret tt.
Proof.
  eexists. split; [reflexivity|]. intros r Hr. rewrite !elem_of_cons, elem_of_nil in Hr.
  unfold poll_turn, EXECUTABLE_STATES.
  destruct Hr as [E|[E|[E|[E|[E|[E|[]]]]]]]; cbn [bind]; rewrite E; done.
Qed.
End Visits.

Lemma poll_visits_every_operation_witness :
  let K := mkRingsKit (fun s => Ok (map code (chars s))) (fun _ => "") outer_message (fun w => Ok (mkOuter w []))
             (fun _ => Ok "signature") in
  let env := mkRingsEnv (Some " On ") (Some "http") (Some "devnet") in
  all_runs (pollRingsIndexing env) (fun tr res =>
    (exists pre c e, tr = pre ++ [rings_ev c (Err e)] /\ (length pre < 3)%nat /\ res = Err e)
    \/ exists before rows now rest,
         tr = rings_ev NowInstant (Ok before)
              :: rings_ev (ListInFlightOperations before MAX_PER_RUN) (Ok rows)
              :: rings_ev NowMs (Ok now) :: rest
         /\ res = Ok tt /\ forall r, r ∈ rows -> visited (now - RINGS_INDEXING_TIMEOUT_MS) rest r).
Proof. intros K env. apply (poll_visits_every_operation env); vm_compute; reflexivity. Defined.
