(* ===== verification/RingsInvariant.v ===== *)
(** * Helius Rings: the invariant of the ledger

    How the tables of RingsLedger.v answer the calls of RingsService.v, what the calls
    the service makes keep true of them, and the one direction in which an operation
    moves. *)
From Stdlib Require Import Ascii String ZArith Lia.
From stdpp Require Import base list strings sets.
From S2P Require Import Prelude Text Rows PolicyTypes RingsTypes RingsRedaction RingsLedger RingsService.

Local Open Scope string_scope.
Local Open Scope Z_scope.
Local Open Scope list_scope.
Local Open Scope sdp_scope.

(** ** The ledger's side of a call *)

(** A generated id is one no row has. *)
Definition fresh_id (id : string) (t : RingsTables) : Prop :=
  id ∉ (row_id <$> operations t) /\ id ∉ (ev_id <$> rings_events t) /\ id ∉ (wl_id <$> rings_wallets t).

Definition answer_of {A B} (f : A -> B) (t : RingsTables) (r : result (A * RingsTables))
    : result B * RingsTables :=
  match r with Ok (a, t') => (Ok (f a), t') | Err e => (Err e, t) end.

Section Perform.
Variable text_le : string -> string -> bool.

(** What the tables answer, when the call is one of theirs. *)
Definition perform (now id : string) (c : rings_call) (t : RingsTables)
    : option (result (rings_answer c) * RingsTables) :=
  match c return option (result (rings_answer c) * RingsTables) with
  | CreateWallet i => Some (answer_of Some t (createWallet now id i t))
  | GetWalletById tenant wallet => Some (Ok (getWalletById tenant wallet t), t)
  | MarkProvisioned i => Some (answer_of (fun x => x) t (markProvisioned now i t))
  | ReserveIntent i => Some (answer_of (fun x => x) t (reserveIntent now id i t))
  | GetOperationById tenant operation => Some (Ok (getOperationById tenant operation t), t)
  | TransitionState i => Some (answer_of (fun x => x) t (transitionState now i t))
  | FailOperation i => Some (answer_of (fun x => x) t (failOperation now i t))
  | GetTimelock operation => Some (Ok (getTimelock operation t), t)
  | ListInFlightOperations before limit => Some (Ok (listInFlightOperations text_le before limit t), t)
  | AppendEvent i => Some (answer_of (fun x => x) t (appendEvent now id i t))
  | ListEvents operation =>
      Some (Ok (limit_rows 200 (order_by (fun a b => key_le text_le [ev_created_at a; ev_id a] [ev_created_at b; ev_id b])
                  (List.filter (fun e => String.eqb (ev_operation_id e) operation) (rings_events t)))), t)
  | RecordHealth i => let '(row, t') := recordHealth now i t in Some (Ok row, t')
  | ListHealthByProject project => Some (Ok (listHealthByProject project t), t)
  | _ => None
  end.

(** The tables answer, or the answer is lost, or the call; what is not theirs is
    answered by anyone in any way. *)
Inductive rings_answers (t : RingsTables) : rings_event -> RingsTables -> Prop :=
| answered_elsewhere c r : (forall now id, perform now id c t = None) -> rings_answers t (rings_ev c r) t
| answered_here c now id r t' :
    fresh_id id t -> perform now id c t = Some (r, t') -> rings_answers t (rings_ev c r) t'
| answer_lost c now id r t' e :
    fresh_id id t -> perform now id c t = Some (r, t') -> rings_answers t (rings_ev c (Err e)) t'
| call_lost c e : rings_answers t (rings_ev c (Err e)) t.
End Perform.

(** ** The invariant *)

(** What the columns of a row say at its state. *)
Record row_sound (r : HeliusRingsOperationRow) : Prop := mkRowSound {
  row_checked : operation_checks r = true;
  row_undecided : 0 <= rank (op_state r) < 2 -> policy_evaluation_id r = None /\ approval_request_id r = None;
  row_decided : 2 <= rank (op_state r) -> is_Some (policy_evaluation_id r);
  row_unsigned : 0 <= rank (op_state r) < 5 -> outer_tx_signature r = None;
  row_signed : 5 <= rank (op_state r) -> is_Some (outer_tx_signature r);
  row_indexed : op_state r = op_completed <-> is_Some (photon_indexed_at r);
}.

(** A retry comes after what it retries. *)
Definition retries_earlier (os : list HeliusRingsOperationRow) : Prop :=
  forall pre r post x, os = pre ++ r :: post -> ro_retry_of (op_facts r) = Some x ->
    exists o, o ∈ pre /\ row_id o = x.

Record rings_sound (t : RingsTables) : Prop := mkRingsSound {
  sound_rows : Forall row_sound (operations t);
  sound_ids : NoDup (row_id <$> operations t);
  sound_intents : NoDup ((fun r => ro_intent_key (op_facts r)) <$> operations t);
  sound_retries : retries_earlier (operations t);
}.

(** ** The direction of an operation *)

Definition progress (s s' : OperationState) : Prop :=
  s = s' \/ (terminal s = false /\ (s' = op_failed \/ rank s < rank s')).

Record later_row (r r' : HeliusRingsOperationRow) : Prop := mkLaterRow {
  later_op_facts : op_facts r' = op_facts r;
  later_state : progress (op_state r) (op_state r');
  later_signature : forall s, outer_tx_signature r = Some s -> outer_tx_signature r' = Some s;
  later_evaluation : forall e, policy_evaluation_id r = Some e ->
    policy_evaluation_id r' = Some e /\ approval_request_id r' = approval_request_id r;
  later_terminal : terminal (op_state r) = true -> r' = r;
}.

(** Every operation of the one table is, later, in the other. *)
Definition later_rings (t t' : RingsTables) : Prop :=
  forall r, r ∈ operations t -> exists r', r' ∈ operations t' /\ later_row r r'.

(** ** The calls the service makes *)

Definition patch_of_state (s : OperationState) (p : HeliusRingsOperationTransitionPatch) : Prop :=
  match s with
  | op_preparing => exists a e, p = mkPatch (Some a) (Some (Some e)) None None None None
  | op_proving => exists s r, p = mkPatch None None (Some (Some s)) (Some (Some r)) None None
  | op_ready_to_sign => exists sig, p = mkPatch None None None None (Some (Some sig)) None
  | op_indexing => exists at_, p = mkPatch None None None None None (Some (Some at_))
  | _ => p = empty_patch
  end.

Definition legal_call (c : rings_call) : Prop :=
  match c with
  | TransitionState i =>
      (exists g, nextState (tr_expectedState i) g = Some (tr_nextState i))
      /\ patch_of_state (tr_expectedState i) (tr_patch i)
  | FailOperation i => fl_expectedState i ∈ IN_FLIGHT_STATES
  | _ => True
  end.

(** * Lemmas *)

(** ** Order *)

Lemma progress_trans s1 s2 s3 : progress s1 s2 -> progress s2 s3 -> progress s1 s3.
Proof.
  intros [->|[H1 H2]] [<-|[H3 H4]]; [by left|by right|by right|]. right. split; [done|].
  destruct H2 as [->|H2]; [done|]. destruct H4 as [->|H4]; [by left|right; lia].
Qed.

Lemma later_operation_refl r : later_row r r.
Proof. by constructor; [|left|..]. Qed.

Lemma later_operation_trans r1 r2 r3 : later_row r1 r2 -> later_row r2 r3 -> later_row r1 r3.
Proof.
  intros [Hf1 Hs1 Hg1 He1 Ht1] [Hf2 Hs2 Hg2 He2 Ht2]. constructor.
  - congruence.
  - by eapply progress_trans.
  - auto.
  - intros e H. destruct (He1 e H) as [H1 ?], (He2 e H1) as [? ?]. split; [done|congruence].
  - intros H. pose proof (Ht1 H) as ->. by apply Ht2.
Qed.

Lemma later_rings_refl t : later_rings t t.
Proof. intros r Hr. exists r. split; [done|apply later_operation_refl]. Qed.

Lemma later_rings_trans t1 t2 t3 : later_rings t1 t2 -> later_rings t2 t3 -> later_rings t1 t3.
Proof.
  intros H1 H2 r Hr. destruct (H1 r Hr) as (r2 & Hr2 & L1). destruct (H2 r2 Hr2) as (r3 & Hr3 & L2).
  exists r3. split; [done|by eapply later_operation_trans].
Qed.

Lemma later_same_operations t t' : operations t' = operations t -> later_rings t t'.
Proof. intros E r Hr. exists r. rewrite E. split; [done|apply later_operation_refl]. Qed.

Lemma sound_same_operations t t' : operations t' = operations t -> rings_sound t -> rings_sound t'.
Proof. intros E [H1 H2 H3 H4]. by constructor; rewrite E. Qed.

(** ** Rows by their ids *)

Lemma same_operation t r r' :
  rings_sound t -> r ∈ operations t -> r' ∈ operations t -> row_id r = row_id r' -> r = r'.
Proof.
  intros [_ H _ _] Hr Hr' E. apply list_elem_of_lookup in Hr as [i Hi], Hr' as [j Hj].
  assert (i = j) as ->; [|congruence].
  eapply (NoDup_lookup _ i j (row_id r)); [exact H| |]; rewrite list_lookup_fmap.
  - by rewrite Hi.
  - by rewrite Hj, E.
Qed.

Lemma getOperationById_spec tenant id t r :
  getOperationById tenant id t = Some r ->
  r ∈ operations t /\ row_id r = id /\ ro_tenant (op_facts r) = tenant.
Proof.
  intros [Hin H]%find_some. unfold in_tenant in H. apply andb_true_iff in H as [H1 H2].
  apply String.eqb_eq in H1. apply bool_decide_eq_true in H2. by rewrite list_elem_of_In.
Qed.

Lemma replace_elem id r os x :
  x ∈ replace_operation id r os -> x = r \/ (x ∈ os /\ row_id x <> id).
Proof.
  unfold replace_operation. intros (y & -> & Hy)%list_elem_of_fmap.
  destruct (String.eqb_spec (row_id y) id); [by left|by right].
Qed.

Lemma replace_same id r os x : x ∈ os -> row_id x <> id -> x ∈ replace_operation id r os.
Proof.
  intros Hx Hne. apply list_elem_of_fmap. exists x. by rewrite (proj2 (String.eqb_neq _ _) Hne).
Qed.

Lemma replace_here r r' os : r ∈ os -> r' ∈ replace_operation (row_id r) r' os.
Proof. intros Hr. apply list_elem_of_fmap. exists r. by rewrite String.eqb_refl. Qed.

(** A replacement with the same facts changes no column of the others' constraints. *)
Lemma replace_facts {A} (f : OperationFacts -> A) r r' t :
  rings_sound t -> r ∈ operations t -> op_facts r' = op_facts r ->
  (fun o => f (op_facts o)) <$> replace_operation (row_id r) r' (operations t)
  = (fun o => f (op_facts o)) <$> operations t.
Proof.
  intros Hs Hr E. unfold replace_operation. rewrite <- list_fmap_compose. apply list_fmap_ext.
  intros i o Ho. cbn. destruct (String.eqb_spec (row_id o) (row_id r)) as [Eo|]; [|done].
  rewrite E. f_equal. f_equal. symmetry. by eapply same_operation; [|eapply list_elem_of_lookup_2|..].
Qed.

Lemma replace_sound r r' t :
  rings_sound t -> r ∈ operations t -> op_facts r' = op_facts r -> row_sound r' ->
  rings_sound (with_operations t (replace_operation (row_id r) r' (operations t))).
Proof.
  intros Hs Hr E Hr'. pose proof Hs as [H1 H2 H3 H4]. constructor; cbn [operations with_operations].
  - apply Forall_forall. intros x [->|[Hx _]]%replace_elem; [done|]. rewrite Forall_forall in H1. auto.
  - unfold row_id. change (NoDup ((fun o => ro_id (op_facts o)) <$>
      replace_operation (row_id r) r' (operations t))). by rewrite (replace_facts ro_id r).
  - by rewrite (replace_facts ro_intent_key r).
  - intros pre x post y Ex Hy. unfold replace_operation in Ex.
    apply map_eq_app in Ex as (pre0 & rest & Eo & <- & Ex).
    destruct rest as [|x0 post0]; [done|]. cbn in Ex. injection Ex as <- <-.
    assert (op_facts (if String.eqb (row_id x0) (row_id r) then r' else x0) = op_facts x0) as Ef.
    { destruct (String.eqb_spec (row_id x0) (row_id r)) as [Eid|]; [|done].
      rewrite E. f_equal. symmetry. eapply same_operation; [done| |done|done].
      rewrite Eo. apply elem_of_app. right. by left. }
    rewrite Ef in Hy. destruct (H4 pre0 x0 post0 y Eo Hy) as (o & Ho & Hid).
    eexists. split; [apply list_elem_of_fmap; by exists o|]. cbn.
    destruct (String.eqb_spec (row_id o) (row_id r)) as [Eid|]; [|done].
    unfold row_id in *. rewrite E. congruence.
Qed.

Lemma replace_later r r' t :
  rings_sound t -> r ∈ operations t -> later_row r r' ->
  later_rings t (with_operations t (replace_operation (row_id r) r' (operations t))).
Proof.
  intros Hs Hr L x Hx. cbn [operations with_operations].
  destruct (decide (row_id x = row_id r)) as [E|E].
  - pose proof (same_operation t x r Hs Hx Hr E) as ->. exists r'. split; [by apply replace_here|done].
  - exists x. split; [by apply replace_same|apply later_operation_refl].
Qed.

(** ** Compare-and-swap *)

(** A swap that took place. *)
Lemma swap_spec tenant id expected f t a t' :
  swap_operation tenant id expected f t = Ok (a, t') ->
  (a = None /\ t' = t)
  \/ exists r, getOperationById tenant id t = Some r /\ op_state r = expected /\ operation_checks (f r) = true
       /\ a = Some (f r) /\ t' = with_operations t (replace_operation id (f r) (operations t)).
Proof.
  unfold swap_operation. destruct (getOperationById tenant id t) as [r|]; [|intros [= <- <-]; by left].
  case_bool_decide as E; cbn [negb]; [|intros [= <- <-]; by left].
  destruct (operation_checks (f r)) eqn:Ec; cbn [negb]; [|done]. intros [= <- <-]. right. by exists r.
Qed.

Lemma swap_kept tenant id expected f t a t' :
  rings_sound t ->
  (forall r, row_sound r -> op_state r = expected -> operation_checks (f r) = true ->
     row_sound (f r) /\ later_row r (f r)) ->
  swap_operation tenant id expected f t = Ok (a, t') -> rings_sound t' /\ later_rings t t'.
Proof.
  intros Hs Hf [[_ ->]|(r & Hr & Hst & Hc & _ & ->)]%swap_spec; [split; [done|apply later_rings_refl]|].
  apply getOperationById_spec in Hr as (Hin & <- & _).
  assert (row_sound r) as Hrs. { destruct Hs as [H _ _ _]. rewrite Forall_forall in H. auto. }
  destruct (Hf r Hrs Hst Hc) as [Hrs' L]. split.
  - apply replace_sound; [done..| |done]. apply L.
  - by apply replace_later.
Qed.

(** A transition the machine allows, of a row in its state. *)
Lemma transition_kept now i r :
  legal_call (TransitionState i) -> row_sound r -> op_state r = tr_expectedState i ->
  operation_checks (transition_row now i r) = true ->
  row_sound (transition_row now i r) /\ later_row r (transition_row now i r).
Proof.
  intros [[g Hg] Hp] [Hc H1 H2 H3 H4 H5] Est Hc'. apply nextState_step in Hg as (Hr & H0 & _ & _).
  destruct i as [tenant id from to patch]. cbn [tr_expectedState tr_nextState tr_patch] in *. rewrite Est in *.
  destruct from, to; cbn in Hr, H0; try lia; clear Hr H0; cbn [patch_of_state rank] in *;
    repeat match goal with H : exists _, _ |- _ => destruct H as [? H] end; subst patch;
    (split; [constructor; [done|cbn; intros..]|constructor; cbn]); try lia; eauto with lia;
    try (rewrite Est; right; split; [done|right; cbn; lia]); try done.
  all: first [rewrite <- H5; by split | by rewrite Est
    | intros e He; destruct H1 as [H1 _]; [lia|congruence] | intros s Hs; rewrite H3 in Hs by lia; done
    | split; [by eexists|done]].
Qed.

(** A failure of a row in flight. *)
Lemma failure_kept now i r :
  legal_call (FailOperation i) -> row_sound r -> op_state r = fl_expectedState i ->
  operation_checks (failed_row now i r) = true ->
  row_sound (failed_row now i r) /\ later_row r (failed_row now i r).
Proof.
  intros Hl [Hc H1 H2 H3 H4 H5] Est Hc'. cbn in Hl. rewrite <- Est in Hl. split.
  - constructor; [done|cbn; intros; lia..|]. cbn. rewrite <- H5. split; [done|].
    intros E. rewrite E in Hl. by vm_compute in Hl; repeat (apply elem_of_cons in Hl as [Hl|Hl]; [done|]);
      apply elem_of_nil in Hl.
  - assert (terminal (op_state r) = false) as Ht.
    { revert Hl. unfold IN_FLIGHT_STATES. rewrite !elem_of_cons, elem_of_nil.
      by intros [->|[->|[->|[->|[->|[->|[]]]]]]]. }
    constructor; cbn; [done| |done|done|by rewrite Ht]. right. split; [done|by left].
Qed.

(** *** Reserving *)

Lemma insert_timelock_operations id l t t' :
  insert_timelock id l t = Ok t' -> operations t' = operations t.
Proof.
  unfold insert_timelock. destruct (negb _); [done|]. destruct (existsb _ _); by intros [= <-].
Qed.

(** What an insertion did. *)
Lemma insert_operation_spec r t o t' :
  insert_operation r t = Ok (o, t') ->
  operation_checks r = true
  /\ ((o ∈ operations t /\ ro_intent_key (op_facts o) = ro_intent_key (op_facts r) /\ t' = t)
      \/ (o = r /\ t' = with_operations t (operations t ++ [r]) /\ row_id r ∉ (row_id <$> operations t)
          /\ ro_intent_key (op_facts r) ∉ ((fun x => ro_intent_key (op_facts x)) <$> operations t)
          /\ operation_references t (op_facts r) = true)).
Proof.
  unfold insert_operation. destruct (operation_checks r); cbn [negb]; [|done].
  destruct (List.find _ (operations t)) as [x|] eqn:Ef.
  - intros [= <- <-]. split; [done|]. left. apply find_some in Ef as [Hin E%String.eqb_eq].
    by rewrite list_elem_of_In.
  - destruct (existsb _ _) eqn:Ee; [done|]. destruct (operation_references t (op_facts r)) eqn:Er; [|done].
    cbn [negb]. intros [= <- <-]. split; [done|]. right. split; [done|]. split; [done|]. split; [|split; [|done]].
    + intros (x & Ex & Hx)%list_elem_of_fmap. apply list_elem_of_In in Hx.
      assert (existsb (fun o => String.eqb (row_id o) (row_id r)) (operations t) = true) as H; [|congruence].
      apply existsb_exists. exists x. split; [done|]. rewrite <- Ex. apply String.eqb_refl.
    + intros (x & Ex & Hx)%list_elem_of_fmap. apply list_elem_of_In in Hx.
      eapply find_none in Ef; [|exact Hx]. cbn in Ef. rewrite <- Ex, String.eqb_refl in Ef. done.
Qed.

Lemma reserveIntent_spec now id i t o b t' :
  reserveIntent now id i t = Ok (o, b, t') ->
  b = String.eqb (row_id o) id
  /\ exists t1, insert_operation (reserved_row now id i) t = Ok (o, t1) /\ operations t' = operations t1.
Proof.
  unfold reserveIntent, result_bind. destruct (insert_operation _ t) as [[x t1]|]; [|done].
  destruct (rv_timelock i) as [l|]; [destruct (String.eqb (row_id x) id) eqn:E;
    [destruct (insert_timelock (row_id x) l t1) as [t2|] eqn:El; [|done]|]|].
  - intros [= <- <- <-]. split; [done|]. exists t1. split; [done|]. by apply insert_timelock_operations in El.
  - intros [= <- <- <-]. split; [done|]. by exists t1.
  - intros [= <- <- <-]. split; [done|]. by exists t1.
Qed.

Lemma reserved_row_sound now id i : operation_checks (reserved_row now id i) = true -> row_sound (reserved_row now id i).
Proof.
  intros H. constructor; cbn; try done; try lia.
Qed.

Lemma with_row_sound t r :
  rings_sound t -> row_sound r -> row_id r ∉ (row_id <$> operations t) ->
  ro_intent_key (op_facts r) ∉ ((fun x => ro_intent_key (op_facts x)) <$> operations t) ->
  operation_references t (op_facts r) = true ->
  rings_sound (with_operations t (operations t ++ [r])).
Proof.
  intros [H1 H2 H3 H4] Hr Hid Hk Href. constructor; cbn [operations with_operations].
  - apply Forall_app. split; [done|]. by constructor.
  - rewrite fmap_app. apply NoDup_app. split; [done|]. split; [|apply NoDup_singleton].
    intros x Hx ->%list_elem_of_singleton. done.
  - rewrite fmap_app. apply NoDup_app. split; [done|]. split; [|apply NoDup_singleton].
    intros x Hx ->%list_elem_of_singleton. done.
  - intros pre x post y E Hy. destruct post as [|z post _] using rev_ind.
    + apply app_inj_tail in E as [<- <-]. unfold operation_references in Href. rewrite Hy in Href.
      apply andb_true_iff in Href as [_ Href]. apply existsb_exists in Href as (o & Ho & E%String.eqb_eq).
      exists o. by rewrite list_elem_of_In.
    + rewrite app_comm_cons, app_assoc in E. apply app_inj_tail in E as [E _]. by eapply H4.
Qed.

Lemma reserve_kept now id i t a t' :
  rings_sound t -> reserveIntent now id i t = Ok (a, t') -> rings_sound t' /\ later_rings t t'.
Proof.
  intros Hs E. destruct a as [o b]. apply reserveIntent_spec in E as (_ & t1 & E & Eo).
  apply insert_operation_spec in E as [Hc [(_ & _ & ->)|(-> & -> & Hid & Hk & Href)]].
  - split; [by eapply sound_same_operations|by apply later_same_operations].
  - split.
    + eapply sound_same_operations; [exact Eo|]. apply with_row_sound; [done|by apply reserved_row_sound|done..].
    + eapply later_rings_trans; [|apply later_same_operations, Eo]. intros r Hr. exists r.
      split; [apply elem_of_app; by left|apply later_operation_refl].
Qed.

(** *** Every call *)

Section Steps.
Variable text_le : string -> string -> bool.

Lemma answer_of_ok {A B} (f : A -> B) t (m : result (A * RingsTables)) r t' (P : RingsTables -> Prop) :
  answer_of f t m = (r, t') -> P t -> (forall a t1, m = Ok (a, t1) -> P t1) -> P t'.
Proof. destruct m as [[a t1]|e]; cbn; intros [= <- <-] H1 H2; [by eapply H2|done]. Qed.

(** The calls that write operations; the others leave them. *)
Definition writes_operations (c : rings_call) : bool :=
  match c with ReserveIntent _ | TransitionState _ | FailOperation _ => true | _ => false end.

Lemma perform_same now id c t r t' :
  writes_operations c = false -> perform text_le now id c t = Some (r, t') -> operations t' = operations t.
Proof.
  intros Hw. destruct c; cbn [perform]; try done; try (by intros [= <- <-]).
  - intros [= E]. eapply (answer_of_ok _ _ _ _ _ (fun t' => operations t' = operations t) E); [done|].
    intros a t1. unfold createWallet. destruct (List.find _ _); [by intros [= <- <-]|].
    destruct (existsb _ _); [done|]. by intros [= <- <-].
  - intros [= E]. eapply (answer_of_ok _ _ _ _ _ (fun t' => operations t' = operations t) E); [done|].
    intros a t1. unfold markProvisioned. by destruct (List.find _ _); intros [= <- <-].
  - intros [= E]. eapply (answer_of_ok _ _ _ _ _ (fun t' => operations t' = operations t) E); [done|].
    intros a t1. unfold appendEvent. by repeat (destruct (negb _) || destruct (existsb _ _)); try done;
      intros [= <- <-].
Qed.

Lemma perform_kept now id c t r t' :
  rings_sound t -> legal_call c -> perform text_le now id c t = Some (r, t') ->
  rings_sound t' /\ later_rings t t'.
Proof.
  intros Hs Hl Hp. destruct (writes_operations c) eqn:Hw.
  2: { apply perform_same in Hp; [|done].
       split; [by eapply sound_same_operations|by apply later_same_operations]. }
  assert (rings_sound t /\ later_rings t t) as Hrefl by (split; [done|apply later_rings_refl]).
  destruct c; try done; injection Hp as E;
    eapply (answer_of_ok _ _ _ _ _ (fun t' => rings_sound t' /\ later_rings t t') E); try done; intros a t1.
  - by apply reserve_kept.
  - apply swap_kept; [done|]. intros. by apply transition_kept.
  - apply swap_kept; [done|]. intros. by apply failure_kept.
Qed.

(** Whatever is answered to a call the service makes, the tables stay sound and only
    move on. *)
Lemma rings_step_kept t e t' :
  rings_sound t -> legal_call (ev_call e) -> rings_answers text_le t e t' ->
  rings_sound t' /\ later_rings t t'.
Proof.
  intros Hs Hl Ha. destruct Ha as [c r Hn|c now id r t' Hf Hp|c now id r t' err Hf Hp|c err];
    [split; [done|apply later_rings_refl]|by eapply perform_kept..|split; [done|apply later_rings_refl]].
Qed.
End Steps.
