(* ===== verification/RingsSafety.v ===== *)
(** * Helius Rings: what each call of the service rests on

    Every run of the programs of RingsService.v, whatever is answered: a write of an
    operation, and a broadcast, is made only after the answers that justify it; a
    failure has the code, the message and the retry flag of what the run met last. The
    policy engine is known by the interface [EnforcesPolicy]. *)
From Stdlib Require Import Ascii String ZArith Lia.
From stdpp Require Import base list strings.
From S2P Require Import Prelude Text Dates PolicyTypes PolicyEnforce PolicyService RingsTypes RingsRedaction RingsLedger RingsService RingsPoll RingsInvariant.

Local Open Scope string_scope.
Local Open Scope Z_scope.
Local Open Scope list_scope.
Local Open Scope sdp_scope.

(** ** The interface of the policy engine *)

Definition is_policy_call (c : rings_call) : Prop := exists s, c = PolicyStore s.

(** What an enforcement that returned has established, what one that throws has met, and
    that it only asks the policy store. *)
Class EnforcesPolicy (enforcePolicy : HeliusRingsTenant -> CreateWalletOperationInput
                        -> rings_prog (WalletOperationEnvelope * PolicyEvaluation)) := {
  verdict : CreateWalletOperationInput -> PolicyEvaluation -> list rings_event -> Prop;
  verdict_mono input evaluation tr tr' :
    (forall e, e ∈ tr -> e ∈ tr') -> verdict input evaluation tr -> verdict input evaluation tr';
  verdict_yields tenant input :
    yields (enforcePolicy tenant input) (fun tr r => verdict input r.2 tr);
  verdict_calls tenant input : calls_within is_policy_call (enforcePolicy tenant input);
  objection : HeliusRingsTenant -> CreateWalletOperationInput -> jserr -> list rings_event -> Prop;
  objection_met tenant input :
    all_runs (enforcePolicy tenant input) (fun tr res => forall e, res = Err e -> objection tenant input e tr);
}.

(** ** Evidence *)

Definition answered_with (c : rings_call) (a : rings_answer c) (prior : list rings_event) : Prop :=
  rings_ev c (Ok a) ∈ prior.

Definition unsent (prior : list rings_event) : Prop :=
  Forall (fun e => match ev_call e with SendTransaction _ => False | _ => True end) prior.

(** A row a run has been given, in flight as far as the call that gave it says. *)
Definition given_row (prior : list rings_event) (r : HeliusRingsOperationRow) : Prop :=
  (exists tenant id, answered_with (GetOperationById tenant id) (Some r) prior
     /\ op_state r ∈ IN_FLIGHT_STATES)
  \/ (exists i, answered_with (TransitionState i) (Some r) prior /\ tr_nextState i ∈ IN_FLIGHT_STATES).

Definition signing_transition (tenant : HeliusRingsTenant) (id signature : string)
    : TransitionHeliusRingsOperationInput :=
  mkTransitionInput tenant id op_ready_to_sign op_submitted
    (mkPatch None None None None (Some (Some signature)) None).

Definition decision_patch (evaluation : PolicyEvaluation) : HeliusRingsOperationTransitionPatch :=
  mkPatch (Some (record_approvalRequestId (row_input evaluation)))
    (Some (Some (PolicyEnforce.row_id evaluation))) None None None None.

Definition decision_transition (tenant : HeliusRingsTenant) (id : string) (evaluation : PolicyEvaluation)
    : TransitionHeliusRingsOperationInput :=
  mkTransitionInput tenant id op_preparing op_approval_required (decision_patch evaluation).

Section Evidence.
Context {K : RingsKit} (sha256 : list ascii -> list Z)
  (enforcePolicy : HeliusRingsTenant -> CreateWalletOperationInput
     -> rings_prog (WalletOperationEnvelope * PolicyEvaluation))
  {P : EnforcesPolicy enforcePolicy}.

(** The policy was put the operation as it was reserved. *)
Definition enforced (prior : list rings_event) (tenant : HeliusRingsTenant) (id : string)
    (evaluation : PolicyEvaluation) : Prop :=
  exists context wallet input retried operation,
    answered_with (ReserveIntent (reserve_input sha256 tenant wallet input retried)) (operation, true) prior
    /\ row_id operation = id
    /\ verdict (envelope_input sha256 tenant context wallet input id) evaluation prior.

(** A reviewer approved what this operation waits for. *)
Definition reviewed (prior : list rings_event) (tenant : HeliusRingsTenant) (id : string) : Prop :=
  exists asked r request,
    answered_with (GetOperationById tenant asked) (Some r) prior /\ row_id r = id
    /\ op_state r = op_approval_required /\ present (approval_request_id r) = Some request
    /\ answered_with (GetApprovalRequestDetail tenant request) (Some request_approved) prior.

(** Custody signed this transaction. *)
Definition signed_by_custody (prior : list rings_event) (unsigned signed_ : string) : Prop :=
  exists bytes transaction signedTransaction,
    base64_encode unsigned = Ok bytes /\ outer_decode bytes = Ok transaction
    /\ (answered_with (ModifyAndSign transaction) signedTransaction prior
        \/ exists signatures, answered_with (SignTransactions transaction) signatures prior
             /\ signedTransaction = mkOuter (outer_message transaction)
                  (fold_left merge_signature signatures (outer_signatures transaction)))
    /\ signed_ = base64_decode (outer_encode signedTransaction).

(** Custody signed the transaction the gateway built for this operation. *)
Definition custody_signed (prior : list rings_event) (id signed_ signature : string) : Prop :=
  exists current built i ready,
    answered_with (BuildOperation (toPrivateOperation current [])) built prior
    /\ answered_with (TransitionState i) (Some ready) prior /\ tr_id i = row_id current /\ row_id ready = id
    /\ signed_by_custody prior (outerUnsignedTxBase64 built) signed_
    /\ signature_of signed_ = Ok signature.

Inductive transition_backed (prior : list rings_event) : TransitionHeliusRingsOperationInput -> Prop :=
| backed_reserved tenant id input operation :
    answered_with (ReserveIntent input) (operation, true) prior -> row_id operation = id ->
    transition_backed prior (mkTransitionInput tenant id op_draft op_preparing empty_patch)
| backed_decided tenant id evaluation :
    enforced prior tenant id evaluation -> record_decision (row_input evaluation) <> deny ->
    transition_backed prior (decision_transition tenant id evaluation)
| backed_allowed tenant id evaluation r :
    enforced prior tenant id evaluation -> record_decision (row_input evaluation) <> deny ->
    record_requiresApproval (row_input evaluation) = false ->
    answered_with (TransitionState (decision_transition tenant id evaluation)) (Some r) prior ->
    transition_backed prior (mkTransitionInput tenant id op_approval_required op_proving empty_patch)
| backed_reviewed tenant id :
    reviewed prior tenant id ->
    transition_backed prior (mkTransitionInput tenant id op_approval_required op_proving empty_patch)
| backed_proved tenant id metadata proof :
    answered_with (RequestProof id metadata) proof prior ->
    transition_backed prior (mkTransitionInput tenant id op_proving op_ready_to_sign
      (mkPatch None None (Some (Some (pr_source proof))) (Some (Some (pr_ref proof))) None None))
| backed_signed tenant id signed_ signature :
    custody_signed prior id signed_ signature ->
    transition_backed prior (signing_transition tenant id signature)
| backed_sent tenant id i r signed_ signature b a :
    answered_with (TransitionState i) (Some r) prior -> row_id r = id ->
    pt_outerTxSignature (tr_patch i) = Some (Some signature) ->
    signature_of signed_ = Ok signature -> base64_encode signed_ = Ok b ->
    answered_with (SendTransaction b) a prior ->
    transition_backed prior (mkTransitionInput tenant id op_submitted op_indexing empty_patch)
| backed_resumed tenant id asked r :
    answered_with (GetOperationById tenant asked) (Some r) prior -> row_id r = id -> op_state r = op_submitted ->
    transition_backed prior (mkTransitionInput tenant id op_submitted op_indexing empty_patch)
| backed_indexed tenant id r signature found :
    given_row prior r -> row_id r = id -> outer_tx_signature r = Some signature ->
    answered_with (VerifyIndexed signature) (Some found) prior ->
    transition_backed prior (mkTransitionInput tenant id op_indexing op_completed
      (mkPatch None None None None None (Some (Some (indexedAt found))))).

(** ** Errors, and what they are recorded as *)

(** An error that reached the pipeline: an adapter's says what it is, another is a failure
    of the gateway. *)
Inductive described : jserr -> FailureCode * string * bool -> Prop :=
| described_adapter c m b :
    c ∈ [signer_failed; submit_failed] ->
    described (RetryableError "RingsAdapterError" (failure_code_text c) m b) (c, m, b)
| described_error e :
    (forall c m b, c ∈ [signer_failed; submit_failed] -> e <> RetryableError "RingsAdapterError" (failure_code_text c) m b) ->
    (forall text, e <> NonError text) ->
    described e (gateway_unavailable, error_message e, true)
| described_thrown text : described (NonError text) (gateway_unavailable, "rings gateway failed", true).

(** What custody refused with: its own error says whether a retry may succeed. *)
Inductive custody_refusal : jserr -> FailureCode * string * bool -> Prop :=
| refusal_adapter code m b o :
    described (RetryableError "RingsAdapterError" code m b) o ->
    custody_refusal (RetryableError "RingsAdapterError" code m b) o
| refusal_final code m cause :
    code ∈ ["PROVIDER_NOT_CONFIGURED"; "WALLET_NOT_FOUND"; "NOT_FOUND"; "INVALID_REQUEST"; "APPROVAL_REJECTED"] ->
    custody_refusal (CodedError "SigningError" code m cause) (signer_failed, m, false)
| refusal_transient code m cause :
    code ∉ ["PROVIDER_NOT_CONFIGURED"; "WALLET_NOT_FOUND"; "NOT_FOUND"; "INVALID_REQUEST"; "APPROVAL_REJECTED"] ->
    custody_refusal (CodedError "SigningError" code m cause) (signer_failed, m, true)
| refusal_other e :
    (forall code m b, e <> RetryableError "RingsAdapterError" code m b) ->
    (forall code m cause, e <> CodedError "SigningError" code m cause) ->
    custody_refusal e (signer_failed, "custody signing failed", true).

Definition custody_call (c : rings_call) : Prop :=
  match c with CreateOrgSigner _ | ModifyAndSign _ | SignTransactions _ => True | _ => False end.

Definition is_sending (c : rings_call) : Prop :=
  match c with SendTransaction _ => True | _ => False end.

(** What the answer of a run's last call makes a stage of the pipeline fail with: the error
    it was answered, or bytes that cannot be read, or a row that is not there. *)
Inductive faulted (before : list rings_event) : rings_event -> FailureCode * string * bool -> Prop :=
| fault_answer c e o :
    ~ custody_call c -> ~ is_sending c -> described e o -> faulted before (rings_ev c (Err e)) o
| fault_custody c e o : custody_call c -> custody_refusal e o -> faulted before (rings_ev c (Err e)) o
| fault_send b e :
    faulted before (rings_ev (SendTransaction b) (Err e))
      (submit_failed,
       match e with NonError _ => "transaction submission failed" | _ => error_message e end, true)
| fault_signer tenant :
    faulted before (rings_ev (CreateOrgSigner tenant) (Ok other_signer))
      (signer_failed, "custody signer cannot sign compiled transactions", false)
| fault_unreadable tenant kind operation built e o :
    answered_with (BuildOperation operation) built before ->
    (base64_encode (outerUnsignedTxBase64 built) = Err e
     \/ exists b, base64_encode (outerUnsignedTxBase64 built) = Ok b /\ outer_decode b = Err e) ->
    described e o ->
    faulted before (rings_ev (CreateOrgSigner tenant) (Ok kind)) o
| fault_undecodable c a unsigned signed_ e :
    custody_call c -> signed_by_custody (before ++ [rings_ev c (Ok a)]) unsigned signed_ ->
    signature_of signed_ = Err e ->
    faulted before (rings_ev c (Ok a)) (signer_failed, "signer returned undecodable bytes", false)
| fault_missing tenant id :
    faulted before (rings_ev (GetOperationById tenant id) (Ok None))
      (gateway_unavailable, "rings operation not found", true).

Definition port_fault (prior : list rings_event) (o : FailureCode * string * bool) : Prop :=
  exists before last, prior = before ++ [last] /\ faulted before last o.

(** What the enforcement of the policy for this operation has just thrown. *)
Definition policy_objection (prior : list rings_event) (tenant : HeliusRingsTenant) (id : string) (error : jserr) : Prop :=
  exists before calls context wallet input retried operation,
    prior = before ++ calls
    /\ answered_with (ReserveIntent (reserve_input sha256 tenant wallet input retried)) (operation, true) before
    /\ row_id operation = id
    /\ objection tenant (envelope_input sha256 tenant context wallet input id) error calls.

(** What a review came to, when not to an approval. *)
Inductive review_ended : ApprovalRequestStatus -> string -> Prop :=
| review_rejected : review_ended request_rejected "approval request was rejected"
| review_canceled : review_ended request_canceled "approval request was canceled"
| review_expired : review_ended request_expired "approval request was expired".

(** Why a failure is recorded, with its code, its message and whether a retry may follow. *)
Inductive failure_backed (prior : list rings_event) : FailHeliusRingsOperationInput -> Prop :=
| failed_denied tenant id evaluation :
    enforced prior tenant id evaluation -> record_decision (row_input evaluation) = deny ->
    failure_backed prior (mkFailInput tenant id op_preparing policy_denied (record_reason (row_input evaluation)) false)
| failed_policy tenant id error :
    policy_objection prior tenant id error ->
    failure_backed prior (mkFailInput tenant id op_preparing invalid_input
      (match error with NonError _ => "policy evaluation failed" | _ => error_message error end) true)
| failed_review tenant asked r request status message :
    answered_with (GetOperationById tenant asked) (Some r) prior ->
    op_state r = op_approval_required -> present (approval_request_id r) = Some request ->
    answered_with (GetApprovalRequestDetail tenant request) (Some status) prior ->
    review_ended status message ->
    failure_backed prior (mkFailInput tenant (row_id r) op_approval_required approval_rejected message false)
| failed_no_request tenant asked r :
    answered_with (GetOperationById tenant asked) (Some r) prior ->
    op_state r = op_approval_required -> present (approval_request_id r) = None ->
    failure_backed prior (mkFailInput tenant (row_id r) op_approval_required invalid_input
      "approval_required without an approval request" false)
| failed_no_signature tenant r :
    given_row prior r -> present (outer_tx_signature r) = None ->
    failure_backed prior (mkFailInput tenant (row_id r) op_indexing invalid_input
      "indexing without a submitted signature" false)
| failed_port tenant r code message retry :
    given_row prior r -> port_fault prior (code, message, retry) ->
    failure_backed prior (mkFailInput tenant (row_id r) (op_state r) code message retry)
| failed_timeout before limit rows r now updated :
    answered_with (ListInFlightOperations before limit) rows prior -> r ∈ rows ->
    answered_with NowMs now prior -> op_state r = op_indexing ->
    Date_parse (op_updated_at r) = Some updated -> updated < now - 30 * 60 * 1000 ->
    failure_backed prior (mkFailInput (ro_tenant (op_facts r)) (row_id r) op_indexing indexing_timeout
      "Photon did not index the transaction within the budget" true).

(** The transaction sent is one custody signed, whose signature this run has recorded,
    and nothing was sent since. *)
Definition send_backed (prior : list rings_event) (b : wire) : Prop :=
  exists tenant id r signed_ signature before after,
    prior = before ++ rings_ev (TransitionState (signing_transition tenant id signature)) (Ok (Some r)) :: after
    /\ unsent after /\ custody_signed prior id signed_ signature /\ base64_encode signed_ = Ok b.

(** The rows the walk of a retry reads, in the order it reads them: the chain of
    ancestors, until it ends. *)
Inductive lineage_read (tenant : HeliusRingsTenant) : list rings_event -> option string -> Z -> Prop :=
| lineage_end tr o : truthy o = false -> lineage_read tenant tr o 0
| lineage_missing before after x :
    truthy (Some x) = true ->
    lineage_read tenant (before ++ rings_ev (GetOperationById tenant x) (Ok None) :: after) (Some x) 1
| lineage_step before after x r n :
    truthy (Some x) = true -> lineage_read tenant after (ro_retry_of (op_facts r)) n ->
    lineage_read tenant (before ++ rings_ev (GetOperationById tenant x) (Ok (Some r)) :: after) (Some x) (n + 1).

(** A retry is of a failed operation whose failure allows it, with fewer than five in
    its chain. *)
Definition retry_backed (prior : list rings_event) (i : ReserveHeliusRingsIntentInput) : Prop :=
  match rv_retryOfOperationId i with
  | None => True
  | Some x =>
      exists asked r n before after,
        prior = before ++ rings_ev (GetOperationById (rv_tenant i) asked) (Ok (Some r)) :: after
        /\ row_id r = x /\ op_state r = op_failed /\ retryable r = Some true
        /\ lineage_read (rv_tenant i) after (ro_retry_of (op_facts r)) n
        /\ 1 + n + 1 <= RINGS_MAX_RETRY_DEPTH
  end.

Definition backed (prior : list rings_event) (e : rings_event) : Prop :=
  match ev_call e with
  | TransitionState i => transition_backed prior i
  | FailOperation i => failure_backed prior i
  | SendTransaction b => send_backed prior b
  | ReserveIntent i => retry_backed prior i
  | _ => True
  end.
End Evidence.

(** * Lemmas *)

Lemma yields_and {C} {R : C -> Type} {A} (m : prog R A) (Q1 Q2 : list (event R) -> A -> Prop) :
  yields m Q1 -> yields m Q2 -> yields m (fun tr a => Q1 tr a /\ Q2 tr a).
Proof.
  intros H1 H2. eapply all_runs_mono; [|exact (all_runs_and _ _ _ H1 H2)].
  intros tr res [Hq1 Hq2] a E. auto.
Qed.

Lemma yields_within {C} {R : C -> Type} {A} (P : C -> Prop) (m : prog R A) :
  calls_within P m -> yields m (fun tr _ => Forall (fun e => P (ev_call e)) tr).
Proof. intros H. eapply all_runs_mono; [|exact H]. done. Qed.

Lemma answered_mono c a prior tr : answered_with c a prior -> answered_with c a (prior ++ tr).
Proof. intros H. apply elem_of_app. by left. Qed.

Lemma answered_now c a prior tr : answered_with c a tr -> answered_with c a (prior ++ tr).
Proof. intros H. apply elem_of_app. by right. Qed.

Lemma given_mono prior tr r : given_row prior r -> given_row (prior ++ tr) r.
Proof.
  intros [(tenant & id & H & Hs)|(i & H & Hs)]; [left; exists tenant, id|right; exists i];
    (split; [by apply answered_mono|done]).
Qed.

Lemma unsent_app prior tr : unsent prior -> unsent tr -> unsent (prior ++ tr).
Proof. apply Forall_app_2. Qed.

(** A state in flight, by name. *)
Ltac in_flight := cbn; unfold IN_FLIGHT_STATES; rewrite ?elem_of_cons; tauto.

Create HintDb rings.
#[export] Hint Resolve answered_mono answered_now given_mono unsent_app : rings.

(** A call that is neither a write of an operation nor a broadcast. *)
Definition harmless (c : rings_call) : Prop :=
  match c with
  | TransitionState _ | FailOperation _ | SendTransaction _ | ReserveIntent _ => False
  | _ => True
  end.

(** Anything but a broadcast. *)
Definition not_sending (c : rings_call) : Prop :=
  match c with SendTransaction _ => False | _ => True end.

Lemma rings_ask_yields c : yields (ask c) (fun tr a => answered_with c a tr).
Proof. apply yields_call. intros a. apply list_elem_of_singleton. done. Qed.

Section Programs.
Context {K : RingsKit} (sha256 : list ascii -> list Z)
  (enforcePolicy : HeliusRingsTenant -> CreateWalletOperationInput
     -> rings_prog (WalletOperationEnvelope * PolicyEvaluation))
  {P : EnforcesPolicy enforcePolicy} (tenant : HeliusRingsTenant).

Abbreviation backed := (backed sha256 enforcePolicy).
Abbreviation safe prior m := (guarded backed prior m).

Lemma harmless_backed prior (e : rings_event) : harmless (ev_call e) -> backed prior e.
Proof. destruct e as [[] r]; done. Qed.

Lemma safe_harmless {A} prior (m : rings_prog A) : calls_within harmless m -> safe prior m.
Proof. intros H. by eapply calls_unguarded; [|intros; apply harmless_backed]. Qed.

Lemma harmless_unsending {A} (m : rings_prog A) : calls_within harmless m -> calls_within not_sending m.
Proof.
  intros H. eapply all_runs_mono; [|exact H]. intros tr res Ht.
  eapply Forall_impl; [exact Ht|]. intros [c r]. by destruct c.
Qed.

Lemma safe_ask prior c : harmless c -> safe prior (ask c).
Proof. intros H. by apply safe_harmless, within_call. Qed.

Lemma append_harmless id kind payload : calls_within harmless (append id kind payload).
Proof. unfold append, ask. within_calls. done. Qed.

Lemma require_harmless id : calls_within harmless (requireOperation tenant id).
Proof. unfold requireOperation, ask. within_calls; [done|]. by destruct a; within_calls. Qed.

(** *** Swaps *)

Lemma transition_safe prior id from g patch :
  (forall to, nextState from g = Some to ->
     transition_backed sha256 enforcePolicy prior (mkTransitionInput tenant id from to patch)) ->
  safe prior (transition tenant id from g patch).
Proof.
  intros H. unfold transition. destruct (nextState from g) as [to|]; [|apply guarded_ret].
  apply guarded_any; [apply guarded_call; intros r; by apply H|]. intros tr [r|]; [|apply guarded_ret].
  apply guarded_any; [apply safe_harmless, append_harmless|intros; apply guarded_ret].
Qed.

Lemma transition_yields id from g patch :
  yields (transition tenant id from g patch) (fun tr a => forall r, a = Some r ->
    exists to, nextState from g = Some to
      /\ answered_with (TransitionState (mkTransitionInput tenant id from to patch)) (Some r) tr).
Proof.
  unfold transition. destruct (nextState from g) as [to|]; [|by apply yields_ret].
  eapply yields_bind; [apply rings_ask_yields|]. intros [r|] tr H; [|by apply yields_ret].
  apply yields_any. intros [] tr'. apply yields_ret. intros r' [= <-]. exists to.
  split; [done|]. by apply answered_mono.
Qed.

Lemma transition_unsending id from g patch : calls_within not_sending (transition tenant id from g patch).
Proof.
  unfold transition, append, ask. destruct (nextState from g); within_calls; try done.
  destruct a; within_calls; done.
Qed.

Lemma fail_safe prior id from code message retry :
  failure_backed sha256 enforcePolicy prior (mkFailInput tenant id from code message retry) ->
  safe prior (fail tenant id from code message retry).
Proof.
  intros H. unfold fail. apply guarded_any; [by apply guarded_call|]. intros tr [r|]; [|apply guarded_ret].
  apply guarded_any; [apply safe_harmless, append_harmless|intros; apply guarded_ret].
Qed.

Lemma or_current_safe prior row id : safe prior (or_current tenant row id).
Proof. destruct row; [apply guarded_ret|apply safe_harmless, require_harmless]. Qed.

Lemma current_view_safe prior id : safe prior (current_view tenant id).
Proof. apply guarded_any; [apply safe_harmless, require_harmless|intros; apply guarded_ret]. Qed.

Lemma fail_view_safe prior id from code message retry :
  failure_backed sha256 enforcePolicy prior (mkFailInput tenant id from code message retry) ->
  safe prior (fail_view tenant id from code message retry).
Proof.
  intros H. unfold fail_view. apply guarded_any; [by apply fail_safe|]. intros tr failed.
  apply guarded_any; [apply or_current_safe|intros; apply guarded_ret].
Qed.

Lemma attempt_yields {A} r (m : rings_prog A) Q :
  yields m Q -> yields (attempt tenant r m) (fun tr x => forall a, x = inr a -> Q tr a).
Proof.
  intros H. unfold attempt, yields. rewrite all_runs_catch, all_runs_bind.
  eapply all_runs_mono; [|exact H]. intros tr [a|e] Hq; cbn [all_runs].
  - intros x [= <-] b [= <-]. rewrite app_nil_r. by apply Hq.
  - rewrite all_runs_bind. eapply all_runs_mono; [|apply all_runs_true].
    intros tr' [f|e'] _; cbn [all_runs]; [|done]. by intros x [= <-] b.
Qed.

Lemma failFromPortError_unsending r error : calls_within not_sending (failFromPortError tenant r error).
Proof.
  unfold failFromPortError, fail, or_current, requireOperation, append, ask.
  destruct (port_failure error) as [[code message] retry]. within_calls; try done.
  - destruct a; within_calls; done.
  - destruct a; within_calls; try done. destruct a; within_calls.
Qed.

Lemma attempt_unsending {A} r (m : rings_prog A) :
  calls_within not_sending m -> calls_within not_sending (attempt tenant r m).
Proof.
  intros H. unfold attempt. within_calls; [done|]. apply failFromPortError_unsending.
Qed.

(** *** The pipeline *)

Lemma prove_safe prior r : safe prior (prove tenant r).
Proof.
  unfold prove. eapply guarded_any; [by apply safe_ask|]. intros tr built.
  eapply guarded_bind; [by apply safe_ask|apply rings_ask_yields|]. intros tr1 proof Hp.
  apply guarded_any; [|intros; apply guarded_ret]. apply transition_safe. intros to [= <-].
  eapply backed_proved. by apply answered_now.
Qed.

Lemma prove_yields r :
  yields (prove tenant r) (fun tr x =>
    answered_with (BuildOperation (toPrivateOperation r [])) x.1.1 tr
    /\ forall r', x.2 = Some r' -> exists i, answered_with (TransitionState i) (Some r') tr
         /\ tr_id i = row_id r /\ tr_nextState i ∈ IN_FLIGHT_STATES).
Proof.
  unfold prove. eapply yields_bind; [apply rings_ask_yields|]. intros built tr Hb.
  apply yields_any. intros proof tr1. eapply yields_bind; [apply transition_yields|].
  intros row tr2 Hr. apply yields_ret. cbn [fst snd]. split; [by apply answered_mono|].
  intros r' E. destruct (Hr r' E) as (to & Hto & Ha). injection Hto as <-.
  apply (answered_now _ _ tr1), (answered_now _ _ tr) in Ha.
  eexists. rewrite app_nil_r. split; [exact Ha|]. split; [done|].
  in_flight.
Qed.

Lemma signing_harmless unsigned : calls_within harmless (signRingsOuterTransaction tenant unsigned).
Proof.
  unfold signRingsOuterTransaction, ask. within_calls; try done. destruct a; within_calls; done.
Qed.

Lemma signing_yields unsigned :
  yields (signRingsOuterTransaction tenant unsigned) (fun tr => signed_by_custody tr unsigned).
Proof.
  unfold signRingsOuterTransaction. apply yields_any. intros signer tr.
  apply yields_result. intros transaction Ht. unfold result_bind in Ht.
  destruct (base64_encode unsigned) as [bytes|] eqn:Eb; [|done].
  eapply yields_bind with (Q1 := fun tr1 t => answered_with (ModifyAndSign transaction) t tr1
    \/ exists signatures, answered_with (SignTransactions transaction) signatures tr1
         /\ t = mkOuter (outer_message transaction)
                  (fold_left merge_signature signatures (outer_signatures transaction))).
  - apply yields_catch_throw. destruct signer.
    + eapply yields_mono; [|apply rings_ask_yields]. intros tr1 t H. by left.
    + eapply yields_bind; [apply rings_ask_yields|]. intros ss tr1 H. apply yields_ret. right. exists ss.
      split; [by apply answered_mono|done].
    + apply yields_throw.
  - intros t tr1 H. apply yields_ret. exists bytes, transaction, t. split; [done|]. split; [done|].
    split; [|done]. rewrite app_nil_r. destruct H as [H|(ss & H & E)]; [left|right; exists ss];
      [by apply answered_now|split; [by apply answered_now|done]].
Qed.

Lemma signed_mono prior tr unsigned signed_ :
  signed_by_custody tr unsigned signed_ -> signed_by_custody (prior ++ tr) unsigned signed_.
Proof.
  intros (bytes & tx & stx & H1 & H2 & H3 & H4). exists bytes, tx, stx. do 2 (split; [done|]). split; [|done].
  destruct H3 as [H|(ss & H & E)]; [left|right; exists ss]; [|split; [|done]]; by apply answered_now.
Qed.

Lemma signed_mono_l prior tr unsigned signed_ :
  signed_by_custody prior unsigned signed_ -> signed_by_custody (prior ++ tr) unsigned signed_.
Proof.
  intros (bytes & tx & stx & H1 & H2 & H3 & H4). exists bytes, tx, stx. do 2 (split; [done|]). split; [|done].
  destruct H3 as [H|(ss & H & E)]; [left|right; exists ss]; [|split; [|done]]; by apply answered_mono.
Qed.

Lemma custody_mono prior tr id signed_ signature :
  custody_signed prior id signed_ signature -> custody_signed (prior ++ tr) id signed_ signature.
Proof.
  intros (current & built & i & ready & H1 & H2 & H3 & H4 & H5 & H6). exists current, built, i, ready.
  split; [by apply answered_mono|]. split; [by apply answered_mono|]. do 2 (split; [done|]).
  split; [by apply signed_mono_l|done].
Qed.

Lemma sign_safe prior r built proof (current : HeliusRingsOperationRow) i :
  answered_with (BuildOperation (toPrivateOperation current [])) built prior ->
  answered_with (TransitionState i) (Some r) prior -> tr_id i = row_id current ->
  safe prior (sign tenant r built proof).
Proof.
  intros Hb Hi Hid. unfold sign. apply guarded_any; [apply safe_harmless, append_harmless|]. intros tr [].
  eapply guarded_bind; [apply safe_harmless, signing_harmless|apply signing_yields|].
  intros tr1 signed_ Hs. destruct (signature_of signed_) as [sig|] eqn:Es; [|apply guarded_throw].
  cbn [bind]. apply guarded_any; [|intros; apply guarded_ret]. apply transition_safe. intros to [= <-].
  apply (backed_signed _ _ _ _ _ signed_). exists current, built, i, r.
  split; [by eauto with rings|]. split; [by eauto with rings|]. do 2 (split; [done|]). split; [|done].
  by apply signed_mono.
Qed.

Lemma outer_sign_yields r built proof :
  yields (sign tenant r built proof) (fun tr x =>
    signature_of x.1.1 = Ok x.1.2 /\ signed_by_custody tr (outerUnsignedTxBase64 built) x.1.1
    /\ forall r', x.2 = Some r' ->
         answered_with (TransitionState (signing_transition tenant (row_id r) x.1.2)) (Some r') tr).
Proof.
  unfold sign. apply yields_any. intros [] tr.
  eapply yields_bind; [apply signing_yields|]. intros signed_ tr1 Hs.
  destruct (signature_of signed_) as [sig|] eqn:Es; [|apply yields_throw]. cbn [bind].
  eapply yields_bind; [apply transition_yields|]. intros row tr2 Hr. apply yields_ret. cbn [fst snd].
  rewrite app_nil_r. split; [done|]. split; [by apply signed_mono, signed_mono_l|].
  intros r' E. destruct (Hr r' E) as (to & Hto & Ha). injection Hto as <-. by do 2 apply answered_now.
Qed.

Lemma submitting_yields signed_ :
  yields (submitRingsOuterTransaction signed_) (fun tr a => exists b, base64_encode signed_ = Ok b
    /\ answered_with (SendTransaction b) a tr).
Proof.
  unfold submitRingsOuterTransaction. apply yields_any. intros [] tr.
  apply yields_result. intros b Eb. apply yields_catch_throw.
  eapply yields_mono; [|apply rings_ask_yields]. intros tr1 a H. exists b. split; [done|]. by apply answered_now.
Qed.

Lemma broadcast_safe prior before after r id signed_ sig :
  prior = before ++ rings_ev (TransitionState (signing_transition tenant id sig)) (Ok (Some r)) :: after ->
  unsent after -> custody_signed prior id signed_ sig ->
  safe prior (broadcast tenant r signed_ sig).
Proof.
  intros Ep Hu Hs. pose proof Hs as (? & ? & ? & ? & _ & _ & _ & _ & _ & Hsig).
  unfold broadcast. eapply guarded_bind; [|apply submitting_yields|].
  - unfold submitRingsOuterTransaction. eapply guarded_bind; [by apply safe_ask| |].
    { apply (yields_within not_sending). by apply within_call. }
    intros tr [] Hn. destruct (base64_encode signed_) as [b|] eqn:Eb; cbn [of_result bind]; [|apply guarded_throw].
    apply guarded_catch; [|intros; apply guarded_throw].
    apply (guarded_call (R := rings_answer) _ _ (SendTransaction b)). intros a.
    exists tenant, id, r, signed_, sig, before, (after ++ tr).
    split; [by rewrite Ep, <- app_assoc|]. split; [by apply unsent_app|]. split; [by apply custody_mono|done].
  - intros tr a (b & Eb & Hb). apply guarded_any; [apply safe_harmless, append_harmless|]. intros tr1 [].
    apply guarded_any; [|intros; apply or_current_safe]. apply transition_safe. intros to [= <-].
    eapply (backed_sent _ _ _ _ _ (signing_transition tenant id sig) r signed_ sig b a); eauto with rings.
    do 2 apply answered_mono. rewrite Ep. apply elem_of_app. right. by left.
Qed.

Lemma prove_unsending r : calls_within not_sending (prove tenant r).
Proof.
  unfold prove. do 2 (apply within_bind; [by apply within_call|intro]).
  apply within_bind; [apply transition_unsending|intro; apply within_ret].
Qed.

Lemma sign_unsending r built proof : calls_within not_sending (sign tenant r built proof).
Proof.
  unfold sign. apply within_bind; [apply harmless_unsending, append_harmless|intros []].
  apply within_bind; [apply harmless_unsending, signing_harmless|intros signed_].
  apply within_bind; [by destruct (signature_of signed_); within_calls|intros sig].
  apply within_bind; [apply transition_unsending|intro; apply within_ret].
Qed.

(** *** What a stage fails with *)

Lemma described_port e : described e (port_failure e).
Proof.
  unfold port_failure. destruct (adapter_error e) as [[[c m] b]|] eqn:E.
  - destruct e as [| |class code message retryable| |]; try done. unfold adapter_error in E.
    destruct (String.eqb_spec class "RingsAdapterError") as [->|]; [|done]. cbn [negb] in E.
    destruct (String.eqb_spec code "signer_failed") as [->|]; [injection E as <- <- <-; apply (described_adapter signer_failed); by left|].
    destruct (String.eqb_spec code "submit_failed") as [->|]; [|done].
    injection E as <- <- <-. apply (described_adapter submit_failed). right. by left.
  - destruct (as_error e) as [x|] eqn:Ex; [|destruct e; try done; apply described_thrown].
    assert (x = e) as -> by (destruct e; by inversion Ex). apply described_error.
    + intros c m b Hc ->. rewrite elem_of_cons, list_elem_of_singleton in Hc. by destruct Hc as [-> | ->].
    + by intros text ->.
Qed.

Lemma signer_failure_class e :
  (exists code m b, e = RetryableError "RingsAdapterError" code m b /\ toSignerFailure e = e)
  \/ (exists code m cause, e = CodedError "SigningError" code m cause
       /\ toSignerFailure e = RingsAdapterError signer_failed m (negb (bool_decide (code ∈ NON_RETRYABLE_SIGNING_CODES))))
  \/ ((forall code m b, e <> RetryableError "RingsAdapterError" code m b)
      /\ (forall code m cause, e <> CodedError "SigningError" code m cause)
      /\ toSignerFailure e = RingsAdapterError signer_failed "custody signing failed" true).
Proof.
  destruct e as [m|class code m cause|class code m b|es m|t]; try (right; right; by split_and!).
  - destruct (string_dec class "SigningError") as [->|Hn]; [right; left; by eexists _, _, _|right; right].
    split; [done|]. split; [congruence|]. unfold toSignerFailure.
    repeat match goal with |- context [match ?x with _ => _ end] => is_var x; destruct x end; done.
  - destruct (string_dec class "RingsAdapterError") as [->|Hn]; [left; by eexists _, _, _|right; right].
    split; [congruence|]. split; [done|]. unfold toSignerFailure.
    repeat match goal with |- context [match ?x with _ => _ end] => is_var x; destruct x end; done.
Qed.

Lemma custody_refusal_port e : custody_refusal e (port_failure (toSignerFailure e)).
Proof.
  destruct (signer_failure_class e) as [(code & m & b & -> & ->)|[(code & m & cause & -> & ->)|(H1 & H2 & ->)]].
  - apply refusal_adapter, described_port.
  - unfold port_failure. rewrite adapter_error_of by (by left). unfold NON_RETRYABLE_SIGNING_CODES.
    case_bool_decide; [by apply refusal_final|by apply refusal_transient].
  - by apply refusal_other.
Qed.

Lemma fault_last prior last o : faulted prior last o -> port_fault (prior ++ [last]) o.
Proof. intros H. by exists prior, last. Qed.

Lemma fault_next prior x last o : faulted (prior ++ [x]) last o -> port_fault (prior ++ [x; last]) o.
Proof. intros H. exists (prior ++ [x]), last. by rewrite <- app_assoc. Qed.

(** Whatever a program throws, the answer of its last call explains. *)
Definition faulty {A} (prior : list rings_event) (m : rings_prog A) : Prop :=
  all_runs m (fun tr res => forall e, res = Err e -> port_fault (prior ++ tr) (port_failure e)).

Lemma faulty_ret {A} prior (a : A) : faulty prior (Ret a).
Proof. intros e. discriminate. Qed.

Lemma faulty_bind {A B} prior (m : rings_prog A) (f : A -> rings_prog B) Y :
  faulty prior m -> yields m Y -> (forall tr a, Y tr a -> faulty (prior ++ tr) (f a)) -> faulty prior (bind m f).
Proof.
  intros Hm Hy Hf. unfold faulty. rewrite all_runs_bind.
  eapply all_runs_mono; [|exact (all_runs_and _ _ _ Hm Hy)]. intros tr [a|e] [H1 H2].
  - eapply all_runs_mono; [|exact (Hf tr a (H2 a eq_refl))]. intros tr' res H e E. rewrite app_assoc. by apply H.
  - intros e' [= <-]. by apply H1.
Qed.

Lemma faulty_any {A B} prior (m : rings_prog A) (f : A -> rings_prog B) :
  faulty prior m -> (forall tr a, faulty (prior ++ tr) (f a)) -> faulty prior (bind m f).
Proof.
  intros Hm Hf. apply (faulty_bind prior m f (fun _ _ => True)); [done| |auto].
  eapply all_runs_mono; [|apply all_runs_true]. done.
Qed.

Lemma faulty_ask prior c : ~ custody_call c -> ~ is_sending c -> faulty prior (ask c).
Proof.
  intros Hc Hs [a|e]; cbn; [discriminate|]. intros e' [= <-]. apply fault_last. apply fault_answer; [done..|].
  apply described_port.
Qed.

Lemma faulty_append prior id kind payload : faulty prior (append id kind payload).
Proof. apply faulty_any; [apply faulty_ask; intros []|intros; apply faulty_ret]. Qed.

Lemma faulty_transition prior id from g patch : faulty prior (transition tenant id from g patch).
Proof.
  unfold transition. destruct (nextState from g); [|apply faulty_ret].
  apply faulty_any; [apply faulty_ask; intros []|]. intros tr [r|]; [|apply faulty_ret].
  apply faulty_any; [apply faulty_append|intros; apply faulty_ret].
Qed.

Lemma faulty_require prior id : faulty prior (requireOperation tenant id).
Proof.
  unfold requireOperation, ask, call. intros [[r|]|e]; cbn [bind all_runs]; [discriminate|..];
    intros e' [= <-]; apply fault_last; [apply fault_missing|].
  apply fault_answer; [intros []..|apply described_port].
Qed.

Lemma faulty_prove prior r : faulty prior (prove tenant r).
Proof.
  unfold prove. do 2 (apply faulty_any; [apply faulty_ask; intros []|intros ? ?]).
  apply faulty_any; [apply faulty_transition|intros; apply faulty_ret].
Qed.

Lemma faulty_signing prior operation built :
  answered_with (BuildOperation operation) built prior ->
  faulty prior (signRingsOuterTransaction tenant (outerUnsignedTxBase64 built)).
Proof.
  intros Hb. unfold signRingsOuterTransaction, ask, call. intros [kind|e]; cbn [bind catch all_runs].
  2: { intros e' [= <-]. apply fault_last, fault_custody; [done|apply custody_refusal_port]. }
  destruct (let? b := base64_encode (outerUnsignedTxBase64 built) in outer_decode b) as [t|e] eqn:Et; cbn [of_result bind all_runs].
  2: { intros e' [= <-]. apply fault_last. eapply fault_unreadable; [exact Hb| |apply described_port].
       unfold result_bind in Et. destruct (base64_encode _) as [b|e1]; [right; by exists b|left; congruence]. }
  destruct kind; cbn [bind catch all_runs].
  - intros [a|e]; cbn [bind catch all_runs]; [discriminate|]. intros e' [= <-].
    apply fault_next, fault_custody; [done|apply custody_refusal_port].
  - intros [a|e]; cbn [bind catch all_runs]; [discriminate|]. intros e' [= <-].
    apply fault_next, fault_custody; [done|apply custody_refusal_port].
  - intros e' [= <-]. apply fault_last. apply fault_signer.
Qed.

(** A transaction that is signed is custody's last answer. *)
Lemma signing_ends unsigned :
  yields (signRingsOuterTransaction tenant unsigned) (fun tr _ =>
    exists before c a, tr = before ++ [rings_ev c (Ok a)] /\ custody_call c).
Proof.
  unfold signRingsOuterTransaction, ask, call. intros [kind|e]; cbn [bind catch all_runs]; [|discriminate].
  destruct (let? b := base64_encode unsigned in outer_decode b) as [t|e]; cbn [of_result bind all_runs]; [|discriminate].
  destruct kind; cbn [bind catch all_runs]; [| |discriminate];
    intros [a|e]; cbn [bind catch all_runs]; try discriminate; intros s _; by eexists [_], _, a.
Qed.

Lemma faulty_sign prior operation r built proof :
  answered_with (BuildOperation operation) built prior -> faulty prior (sign tenant r built proof).
Proof.
  intros Hb. unfold sign. apply faulty_any; [apply faulty_append|]. intros tr [].
  eapply faulty_bind; [by eapply faulty_signing, answered_mono|apply yields_and; [apply signing_yields|apply signing_ends]|].
  intros tr1 signed_ [Hs (before & c & a & -> & Hc)]. destruct (signature_of signed_) as [sig|e] eqn:Es; cbn [bind].
  - apply faulty_any; [apply faulty_transition|intros; apply faulty_ret].
  - intros e' [= <-]. rewrite app_nil_r, app_assoc. apply fault_last. eapply fault_undecodable; [done| |exact Es].
    rewrite <- app_assoc. by apply signed_mono.
Qed.

Lemma faulty_broadcast prior r signed_ sig b :
  base64_encode signed_ = Ok b -> faulty prior (broadcast tenant r signed_ sig).
Proof.
  intros Eb. unfold broadcast. apply faulty_any.
  { unfold submitRingsOuterTransaction. apply faulty_any; [apply faulty_ask; intros []|]. intros tr [].
    rewrite Eb. cbn [of_result bind]. unfold ask, call. intros [a|e]; cbn [catch all_runs]; [discriminate|].
    intros e' [= <-]. unfold port_failure. rewrite adapter_error_of by (by right).
    replace (match as_error e with Some e0 => error_message e0 | None => "transaction submission failed" end)
      with (match e with NonError _ => "transaction submission failed" | _ => error_message e end) by (by destruct e).
    apply fault_last, fault_send. }
  intros tr a. apply faulty_any; [apply faulty_append|]. intros tr1 [].
  apply faulty_any; [apply faulty_transition|]. intros tr2 [x|]; [apply faulty_ret|apply faulty_require].
Qed.

Lemma guarded_catch_knowing {A} prior (m : rings_prog A) h (Q : list rings_event -> jserr -> Prop) :
  safe prior m -> all_runs m (fun tr res => forall e, res = Err e -> Q tr e) ->
  (forall tr e, Q tr e -> safe (prior ++ tr) (h e)) -> safe prior (catch m h).
Proof.
  intros Hm Hq Hf. unfold guarded. rewrite all_runs_catch.
  eapply all_runs_mono; [|exact (all_runs_and _ _ _ Hm Hq)]. intros tr [a|e] [H1 H2]; [exact H1|].
  eapply all_runs_mono; [|exact (Hf tr e (H2 e eq_refl))]. intros tr' res H3. by apply guarded_split.
Qed.

Lemma failFromPortError_safe prior r error :
  given_row prior r -> port_fault prior (port_failure error) -> safe prior (failFromPortError tenant r error).
Proof.
  intros Hr Hf. unfold failFromPortError. destruct (port_failure error) as [[code message] retry] eqn:E.
  apply guarded_any; [apply fail_safe; by eapply failed_port|intros; apply or_current_safe].
Qed.

Lemma attempt_safe {A} prior r (m : rings_prog A) :
  given_row prior r -> safe prior m -> faulty prior m -> safe prior (attempt tenant r m).
Proof.
  intros Hr Hm Hf. unfold attempt.
  apply (guarded_catch_knowing _ _ _ (fun tr e => port_fault (prior ++ tr) (port_failure e))).
  - apply guarded_any; [done|intros; apply guarded_ret].
  - apply (faulty_any prior m); [done|intros; apply faulty_ret].
  - intros tr e He. apply guarded_any; [apply failFromPortError_safe; [by apply given_mono|done]|intros; apply guarded_ret].
Qed.

Lemma runPipeline_safe prior r : given_row prior r -> safe prior (runPipeline tenant r).
Proof.
  intros Hr. unfold runPipeline. eapply guarded_bind;
    [apply attempt_safe; [done|apply prove_safe|apply faulty_prove]|apply attempt_yields, prove_yields|].
  intros tr [failed|[[built proof] [ready|]]] Hy; [apply guarded_ret| |apply safe_harmless, require_harmless].
  destruct (Hy _ eq_refl) as (Hb & Ht). destruct (Ht _ eq_refl) as (i & Hi & Hid & Hfl). cbn [fst snd] in *.
  apply (answered_now _ _ prior) in Hb, Hi. set (sofar := prior ++ tr) in *.
  assert (given_row sofar ready) as Hready by (right; by exists i).
  eapply guarded_bind.
  { apply attempt_safe; [done|by eapply sign_safe|by eapply faulty_sign]. }
  { apply yields_and; [apply attempt_yields, outer_sign_yields|apply yields_within, attempt_unsending].
    apply sign_unsending. }
  intros tr1 [failed|[[signed_ sig] [submitted|]]] [Hy1 Hn1]; [apply guarded_ret| |apply safe_harmless, require_harmless].
  destruct (Hy1 _ eq_refl) as (Hs & Hc & Ht1). cbn [fst snd] in *. specialize (Ht1 _ eq_refl).
  apply guarded_any; [|intros tr2 [x|x]; apply guarded_ret].
  assert (exists b, base64_encode signed_ = Ok b) as [b Eb].
  { unfold signature_of, result_bind in Hs. destruct (base64_encode signed_) as [b|]; [by exists b|done]. }
  apply attempt_safe; [| |by eapply faulty_broadcast].
  - right. eexists. split; [by apply answered_now|]. in_flight.
  - apply list_elem_of_split in Ht1 as (l1 & l2 & ->). apply Forall_app in Hn1 as [_ [_ Hn1]%Forall_cons].
    eapply (broadcast_safe _ (sofar ++ l1) l2 _ (row_id ready)); [by rewrite <- app_assoc|done|].
    exists r, built, i, ready. split; [by apply answered_mono|]. split; [by apply answered_mono|].
    do 2 (split; [done|]). split; [|done]. by apply signed_mono.
Qed.

(** *** Preparing *)

Lemma caught_yields {A} (m : rings_prog A) Q :
  all_runs m Q ->
  yields (catch (let! a := m in Ret (inr a)) (fun e => Ret (inl e)))
    (fun tr (x : jserr + A) => Q tr (match x with inr a => Ok a | inl e => Err e end)).
Proof.
  intros H. unfold yields. rewrite all_runs_catch, all_runs_bind.
  eapply all_runs_mono; [|exact H]. intros tr [a|e] Hq; cbn [all_runs].
  - intros x [= <-]. by rewrite app_nil_r.
  - intros x [= <-]. by rewrite app_nil_r.
Qed.

(** [error instanceof Error ? error.message : other] *)
Lemma message_of error other :
  match as_error error with Some e => error_message e | None => other end
  = match error with NonError _ => other | _ => error_message error end.
Proof. by destruct error. Qed.

Lemma policy_harmless c : is_policy_call c -> harmless c.
Proof. by intros [s ->]. Qed.

Lemma calls_weaken {A} (Q1 Q2 : rings_call -> Prop) (m : rings_prog A) :
  (forall c, Q1 c -> Q2 c) -> calls_within Q1 m -> calls_within Q2 m.
Proof.
  intros H. apply all_runs_mono. intros tr res Ht. eapply Forall_impl; [exact Ht|]. auto.
Qed.

Lemma enforce_harmless input : calls_within harmless
  (catch (let! e := enforcePolicy tenant input in Ret (inr e)) (fun error => Ret (inl error))).
Proof.
  apply within_catch; [|intros; apply within_ret].
  apply within_bind; [|intros; apply within_ret].
  eapply calls_weaken; [apply policy_harmless|apply verdict_calls].
Qed.

Lemma enforced_mono prior tr id evaluation :
  enforced sha256 enforcePolicy prior tenant id evaluation ->
  enforced sha256 enforcePolicy (prior ++ tr) tenant id evaluation.
Proof.
  intros (context & wallet & input & retried & operation & H & Hid & Hv).
  exists context, wallet, input, retried, operation. split; [by apply answered_mono|]. split; [done|].
  eapply verdict_mono; [|exact Hv]. intros e He. apply elem_of_app. by left.
Qed.

(** A swap, then the pipeline when it is won. *)
Lemma then_pipeline_safe prior id from g patch to :
  nextState from g = Some to -> to ∈ IN_FLIGHT_STATES ->
  transition_backed sha256 enforcePolicy prior (mkTransitionInput tenant id from to patch) ->
  safe prior (let! proving := transition tenant id from g patch in
              match proving with
              | None => current_view tenant id
              | Some proving => let! r := runPipeline tenant proving in Ret (view r)
              end).
Proof.
  intros Hto Hfl Hb. eapply guarded_bind; [|apply transition_yields|].
  - apply transition_safe. intros to' E. by rewrite Hto in E; injection E as <-.
  - intros tr [r|] Hy; [|apply current_view_safe]. destruct (Hy r eq_refl) as (to' & E & Ha).
    rewrite Hto in E. injection E as <-.
    apply guarded_any; [|intros; apply guarded_ret]. apply runPipeline_safe.
    right. eexists. split; [by apply answered_now|done].
Qed.

Lemma decide_safe prior id evaluation :
  enforced sha256 enforcePolicy prior tenant id evaluation ->
  safe prior (decide_operation tenant id evaluation).
Proof.
  intros He. unfold decide_operation.
  apply guarded_any; [apply safe_harmless, append_harmless|].
  intros tr []. apply (enforced_mono _ tr) in He.
  destruct (bool_decide_reflect (record_decision (row_input evaluation) = deny)) as [Hd|Hd].
  { by apply fail_view_safe, failed_denied. }
  eapply guarded_bind; [|apply transition_yields|].
  - apply transition_safe. intros to [= <-]. by apply backed_decided.
  - intros tr1 [paused|] Hy; [|apply current_view_safe].
    destruct (Hy paused eq_refl) as (to & E & Ha). injection E as <-.
    destruct (record_requiresApproval (row_input evaluation)) eqn:Er.
    + apply guarded_any; [apply safe_harmless, append_harmless|intros; apply guarded_ret].
    + eapply then_pipeline_safe; [done|in_flight|].
      eapply (backed_allowed _ _ _ _ _ evaluation paused); [by apply enforced_mono|done..|].
      by apply answered_now.
Qed.

Lemma prepare_safe prior input context retried :
  (forall tr wallet, retry_backed (prior ++ tr) (reserve_input sha256 tenant wallet input retried)) ->
  safe prior (prepareOperation sha256 enforcePolicy tenant input context retried).
Proof.
  intros Hretry. unfold prepareOperation.
  apply guarded_any.
  { apply safe_harmless. unfold requireWallet, ask. within_calls; [done|]. by destruct a; within_calls. }
  intros tr wallet.
  eapply guarded_bind; [apply guarded_call; intros r; apply Hretry|apply rings_ask_yields|].
  intros tr1 [operation reserved] Hr. destruct reserved; cbn [negb]; [|apply guarded_ret].
  set (id := row_id operation).
  apply guarded_any; [apply safe_harmless, append_harmless|]. intros tr2 []. apply guarded_any.
  { apply transition_safe. intros to [= <-]. eapply (backed_reserved _ _ _ _ id _ operation); [|done].
    apply answered_mono. by apply answered_now. }
  intros tr3 [preparing|]; [|apply current_view_safe].
  eapply guarded_bind; [apply safe_harmless, enforce_harmless|apply caught_yields, (all_runs_and _ _ _ (verdict_yields tenant _) (objection_met tenant _))|].
  intros tr4 [error|[envelope evaluation]] Hv.
  - rewrite (message_of error "policy evaluation failed"). apply fail_view_safe, failed_policy.
    exists (((prior ++ tr) ++ tr1) ++ tr2 ++ tr3), tr4, context, wallet, input, retried, operation.
    split; [by rewrite !app_assoc|]. split; [apply answered_mono; by apply answered_now|].
    split; [done|]. exact (proj2 Hv _ eq_refl).
  - apply decide_safe. exists context, wallet, input, retried, operation. split; [|split; [done|]].
    + do 3 apply answered_mono. by apply answered_now.
    + eapply verdict_mono; [|exact (proj1 Hv _ eq_refl)]. intros e He. apply elem_of_app. by right.
Qed.

(** *** Executing *)

Lemma executeApproval_safe prior asked r :
  answered_with (GetOperationById tenant asked) (Some r) prior -> op_state r = op_approval_required ->
  safe prior (executeApproval tenant r).
Proof.
  intros Hr Hst. unfold executeApproval.
  destruct (present (approval_request_id r)) as [request|] eqn:Ep.
  2: { apply fail_view_safe. by eapply failed_no_request. }
  eapply guarded_bind.
  { apply safe_harmless. unfold getApprovalStatus, ask. within_calls. done. }
  { unfold getApprovalStatus. apply yields_result. intros scope _. apply rings_ask_yields. }
  intros tr status Ha.
  assert (forall s message, status = Some s -> review_ended s message ->
    safe (prior ++ tr) (fail_view tenant (row_id r) op_approval_required approval_rejected message false)) as Hfail.
  { intros s message -> Hs. apply fail_view_safe. eapply (failed_review _ _ _ _ asked r request s); [|done..| |done].
    - by apply answered_mono.
    - by apply answered_now. }
  destruct status as [[]|]; try apply guarded_ret; try (eapply Hfail; [done|]; constructor).
  apply guarded_any; [apply safe_harmless, append_harmless|].
  intros tr1 []. eapply then_pipeline_safe; [done|in_flight|].
  apply backed_reviewed. exists asked, r, request. split; [by do 2 apply answered_mono|].
  do 3 (split; [done|]). apply answered_mono. by apply answered_now.
Qed.

Lemma executeIndexing_safe prior r : given_row prior r -> safe prior (executeIndexing tenant r).
Proof.
  intros Hr. unfold executeIndexing. destruct (present (outer_tx_signature r)) as [sig|] eqn:Ep.
  2: { apply fail_view_safe. by eapply failed_no_signature. }
  apply guarded_any; [|intros tr [x|x]; apply guarded_ret].
  apply attempt_safe; [done| |].
  2: { apply faulty_any; [apply faulty_ask; intros []|]. intros tr [found|]; [|apply faulty_ret].
       apply faulty_any; [apply faulty_transition|]. intros tr1 [completed|]; [|apply faulty_require].
       apply faulty_any; [apply faulty_append|intros; apply faulty_ret]. }
  eapply guarded_bind; [by apply safe_ask|apply rings_ask_yields|].
  intros tr [found|] Hf; [|apply guarded_ret].
  apply guarded_any.
  - apply transition_safe. intros to [= <-].
    apply (backed_indexed _ _ _ _ _ r sig found); [by apply given_mono|done| |by apply answered_now].
    revert Ep. unfold present. destruct (outer_tx_signature r) as [s|]; [|done].
    destruct (truthy (Some s)); [|done]. by intros [= ->].
  - intros tr1 [completed|]; [|apply safe_harmless, require_harmless].
    apply guarded_any; [apply safe_harmless, append_harmless|intros; apply guarded_ret].
Qed.

Lemma require_yields id :
  yields (requireOperation tenant id) (fun tr r => answered_with (GetOperationById tenant id) (Some r) tr).
Proof.
  unfold requireOperation. eapply yields_bind; [apply rings_ask_yields|].
  intros [r|] tr H; [apply yields_ret; by apply answered_mono|apply yields_throw].
Qed.

Lemma execute_safe prior id : safe prior (executeOperation tenant id).
Proof.
  unfold executeOperation.
  eapply guarded_bind; [apply safe_harmless, require_harmless|apply require_yields|].
  intros tr r Hr. apply (answered_now _ _ prior) in Hr.
  destruct (bool_decide_reflect (op_state r ∈ EXECUTABLE_STATES)) as [He|He]; cbn [negb]; [|apply guarded_ret].
  case_bool_decide as Ha; [by eapply executeApproval_safe|].
  case_bool_decide as Hs.
  - eapply guarded_bind; [|apply transition_yields|].
    + apply transition_safe. intros to [= <-]. by eapply backed_resumed.
    + intros tr1 [resumed|] Hy; [|apply current_view_safe].
      destruct (Hy resumed eq_refl) as (to & E & Hw). injection E as <-.
      apply executeIndexing_safe. right. eexists. split; [by apply answered_now|in_flight].
  - apply executeIndexing_safe. left. exists tenant, id. split; [done|].
    unfold EXECUTABLE_STATES in He. rewrite !elem_of_cons in He. destruct He as [He|[He|[He|He]]]; try done.
    + rewrite He. in_flight.
    + by apply elem_of_nil in He.
Qed.

(** *** Retrying *)

Lemma lineage_grows tn tr pre post o n :
  lineage_read tn tr o n -> lineage_read tn (pre ++ tr ++ post) o n.
Proof.
  intros H. revert pre post. induction H as [tr o H|before after x H|before after x r n H _ IH]; intros pre post.
  - by apply lineage_end.
  - rewrite <- app_assoc, app_assoc. by apply lineage_missing.
  - rewrite <- app_assoc, app_assoc. cbn [app]. apply lineage_step; [done|]. exact (IH [] post).
Qed.

(** The walk stops by itself: it reads at most five ancestors, whatever they are. *)
Lemma retryDepth_yields fuel depth o :
  depth + Z.of_nat fuel = RINGS_MAX_RETRY_DEPTH + 1 ->
  all_runs (retryDepth tenant fuel depth o) (fun tr res =>
    (length tr <= fuel)%nat
    /\ match res with
       | Ok d => depth <= d <= RINGS_MAX_RETRY_DEPTH + 1
                 /\ (d <= RINGS_MAX_RETRY_DEPTH -> lineage_read tenant tr o (d - depth))
       | Err e => exists x, rings_ev (GetOperationById tenant x) (Err e) ∈ tr
       end).
Proof.
  revert depth o. induction fuel as [|fuel IH]; intros depth o Hd; cbn [retryDepth].
  - rewrite (proj2 (Z.ltb_ge _ _)) by lia. rewrite andb_false_r. cbn. split; [lia|]. split; [lia|]. intros H. lia.
  - destruct (truthy o) eqn:Eo; cbn [andb].
    2: { cbn. split; [lia|]. split; [unfold RINGS_MAX_RETRY_DEPTH in *; lia|]. intros _.
         rewrite Z.sub_diag. by apply lineage_end. }
    rewrite (proj2 (Z.ltb_lt _ _)) by lia. destruct o as [x|]; [|done]. cbn [default].
    unfold ask, call. cbn [bind all_runs]. intros [ancestor|e]; cbn [bind all_runs].
    2: { split; [cbn; lia|]. exists x. by left. }
    eapply all_runs_mono; [|apply (IH (depth + 1)); lia].
    intros tr res [Hlen H]. split; [cbn; lia|]. destruct res as [d|e].
    + destruct H as [Hb Hl]. split; [lia|]. intros Hle. specialize (Hl Hle).
      destruct ancestor as [a|]; cbn [mbind option_bind] in Hl.
      * replace (d - depth) with (d - (depth + 1) + 1) by lia. by apply (lineage_step _ [] tr).
      * inversion Hl as [tr' o' Ho E1 E2| |]. replace (d - depth) with 1 by lia. by apply (lineage_missing _ [] tr).
    + destruct H as (y & Hy). exists y. by right.
Qed.

Lemma assertRetryDepth_yields r :
  yields (assertRetryDepth tenant r) (fun tr _ =>
    exists n, lineage_read tenant tr (ro_retry_of (op_facts r)) n /\ 1 + n + 1 <= RINGS_MAX_RETRY_DEPTH).
Proof.
  unfold assertRetryDepth, yields. rewrite all_runs_bind.
  eapply all_runs_mono; [|apply (retryDepth_yields (Z.to_nat RINGS_MAX_RETRY_DEPTH) 1); reflexivity].
  intros tr [d|e] [_ H]; [|done]. destruct (Z.ltb_spec RINGS_MAX_RETRY_DEPTH (d + 1)) as [Hd|Hd]; cbn [all_runs]; [done|].
  intros [] _. rewrite app_nil_r. exists (d - 1). destruct H as [_ H]. split; [apply H; lia|lia].
Qed.

Lemma assertRetryDepth_harmless r : calls_within harmless (assertRetryDepth tenant r).
Proof.
  unfold assertRetryDepth. apply within_bind; [|intros d; destruct (_ <? _); within_calls].
  generalize 1, (ro_retry_of (op_facts r)). generalize (Z.to_nat RINGS_MAX_RETRY_DEPTH).
  induction n as [|n IH]; intros d o; cbn [retryDepth]; destruct (_ && _); try apply within_ret; try apply within_throw.
  apply within_bind; [by apply within_call|intros a; apply IH].
Qed.

Lemma retry_safe prior id nonce context :
  safe prior (retryOperation sha256 enforcePolicy tenant id nonce context).
Proof.
  unfold retryOperation.
  eapply guarded_bind; [apply safe_harmless, require_harmless|apply require_yields|].
  intros tr r Hr. apply list_elem_of_split in Hr as (l1 & l2 & ->).
  destruct (bool_decide_reflect (op_state r = op_failed)) as [Hf|]; cbn [negb]; [|apply guarded_throw].
  destruct (bool_decide_reflect (retryable r = Some true)) as [Ht|]; cbn [negb]; [|apply guarded_throw].
  eapply guarded_bind; [apply safe_harmless, assertRetryDepth_harmless|apply assertRetryDepth_yields|].
  intros tr1 [] (n & Hl & Hle). apply guarded_any.
  { apply safe_harmless. destruct (truthy _); [by apply within_call|apply within_ret]. }
  intros tr2 timelock. apply prepare_safe. intros tr3 wallet.
  exists id, r, n, (prior ++ l1), (l2 ++ tr1 ++ (tr2 ++ tr3)). cbn [rv_tenant reserve_input].
  split; [by list_simplifier|]. do 3 (split; [done|]).
  split; [by apply lineage_grows|done].
Qed.

(** *** The rest *)

Lemma probe_safe prior : safe prior (probeHealth tenant).
Proof.
  apply safe_harmless. unfold probeHealth, record_health, ask. cbn [all_settled].
  repeat (within_calls; try done; match goal with |- context [match ?x with _ => _ end] => destruct x end).
Qed.

Lemma reading_safe prior id : safe prior (getOperationWithEvents tenant id).
Proof.
  apply safe_harmless. unfold getOperationWithEvents. apply within_bind; [apply require_harmless|].
  intros r. apply within_bind; [by apply within_call|intros; apply within_ret].
Qed.

Lemma provision_safe prior sdpWalletId sdpAddress name :
  safe prior (provisionPrivateWallet tenant sdpWalletId sdpAddress name).
Proof.
  apply safe_harmless. unfold provisionPrivateWallet, requireWallet, ask. within_calls; try done.
  destruct a as [w|]; [|within_calls]. destruct (negb _); within_calls; try done.
  destruct a0; within_calls; try done. destruct a0; within_calls.
Qed.
End Programs.

Section Polling.
Context {K : RingsKit} (sha256 : list ascii -> list Z)
  (enforcePolicy : HeliusRingsTenant -> CreateWalletOperationInput
     -> rings_prog (WalletOperationEnvelope * PolicyEvaluation))
  {P : EnforcesPolicy enforcePolicy}.

Abbreviation safe prior m := (guarded (backed sha256 enforcePolicy) prior m).

Lemma poll_turn_safe prior env cutoff before limit rows r now :
  answered_with (ListInFlightOperations before limit) rows prior -> r ∈ rows ->
  answered_with NowMs now prior -> cutoff = now - RINGS_INDEXING_TIMEOUT_MS ->
  safe prior (poll_turn env cutoff r).
Proof.
  intros Hl Hr Hn ->. unfold poll_turn. destruct (negb _ && negb _); [apply guarded_ret|].
  apply guarded_catch; [|intros; apply guarded_ret]. unfold poll_one.
  destruct (bool_decide_reflect (op_state r = op_indexing)) as [Hi|]; cbn [andb].
  1: destruct (timed_out _ r) eqn:Ht.
  { apply guarded_any; [|intros; apply guarded_ret]. apply guarded_call. intros a.
    unfold timed_out in Ht. destruct (Date_parse (op_updated_at r)) as [u|] eqn:Eu; [|done]. apply Z.ltb_lt in Ht.
    by eapply failed_timeout. }
  all: apply guarded_any; [apply guarded_of_result|intros tr []];
    apply guarded_any; [apply execute_safe|intros; apply guarded_ret].
Qed.

Lemma guarded_each {A} (f : A -> rings_prog unit) xs prior :
  (forall x tr, x ∈ xs -> safe (prior ++ tr) (f x)) -> safe prior (for_each f xs).
Proof.
  revert prior. induction xs as [|x xs IH]; intros prior H; cbn [for_each]; [apply guarded_ret|].
  apply guarded_any.
  - rewrite <- (app_nil_r prior). apply H. by left.
  - intros tr []. apply IH. intros y tr' Hy. rewrite <- app_assoc. apply H. by right.
Qed.

Lemma poll_safe prior env : safe prior (pollRingsIndexing env).
Proof.
  unfold pollRingsIndexing. destruct (negb _); [apply guarded_ret|].
  apply guarded_any; [by apply (safe_ask sha256 enforcePolicy)|]. intros tr before.
  eapply guarded_bind; [by apply safe_ask|apply rings_ask_yields|]. intros tr1 rows Hl.
  eapply guarded_bind; [by apply safe_ask|apply rings_ask_yields|]. intros tr2 now Hn.
  apply guarded_each. intros r tr3 Hr. eapply poll_turn_safe; [|exact Hr| |done].
  - do 2 apply answered_mono. by apply answered_now.
  - apply answered_mono. by apply answered_now.
Qed.
End Polling.
