(* ===== verification/RingsPolicy.v ===== *)
(** * Helius Rings under the policy engine of production

    [production_policy] (RingsService.v), the service's default for [enforcePolicy],
    behind the interface [EnforcesPolicy] of RingsSafety.v: what an enforcement that
    returned has established, what one that throws has met, and that the service stops
    at a refusal and fails the operation. *)
From Stdlib Require Import Ascii String ZArith Lia.
From stdpp Require Import base list strings sets.
From S2P Require Import Prelude Text PolicyTypes PolicyEvaluate PolicyEnforce PolicyService.
From S2P Require Import RingsTypes RingsRedaction RingsLedger RingsService RingsInvariant.
From S2P Require Import RingsSafety.

Local Open Scope string_scope.
Local Open Scope Z_scope.
Local Open Scope list_scope.
Local Open Scope sdp_scope.

Definition store_ev (e : store_event) : rings_event := rings_ev (PolicyStore (ev_call e)) (ev_resp e).

(** The engine evaluated this operation, its evaluation was recorded, and the row the
    store returned allows it. *)
Definition production_verdict (input : CreateWalletOperationInput) (evaluation : PolicyEvaluation)
    (tr : list rings_event) : Prop :=
  record_decision (row_input evaluation) = allow
  /\ exists operation policies approval,
       (forall e, e ∈ written_before input operation policies approval -> store_ev e ∈ tr)
       /\ answered_with (PolicyStore (recordPolicyEvaluation
            (createPolicyEvaluationInput (enforced_result input operation policies) approval))) evaluation tr.

(** What the caller is told of a decision that is not to allow. *)
Inductive decision_error : PolicyDecision -> jserr -> Prop :=
| told_not_evaluated : decision_error not_evaluated (AppError "FORBIDDEN" "Wallet operation was not evaluated by policy")
| told_denied : decision_error deny (AppError "FORBIDDEN" "Wallet operation denied by policy")
| told_pending d :
    d <> allow -> d <> deny -> d <> not_evaluated ->
    decision_error d (AppError "SIGNING_PENDING" "Wallet operation requires policy approval").

(** Why an enforcement throws: the operation is not of the tenant; the evaluation the store
    recorded of it does not allow it; or a call of the store failed, or an approval request
    was no longer pending, and the write was compensated. *)
Inductive production_objection (input : CreateWalletOperationInput) : jserr -> list rings_event -> Prop :=
| objection_tenant message :
    message ∈ ["Tenant organizationId is required"; "Tenant projectId cannot be empty";
               "enforceWalletOperationPolicy cannot override the repository organization scope";
               "enforceWalletOperationPolicy cannot override the repository project scope"] ->
    production_objection input (CodedError "TenantScopeViolationError" "" message None) []
| objection_decision evaluation e operation policies approval tr :
    decision_error (record_decision (row_input evaluation)) e ->
    (forall e, e ∈ written_before input operation policies approval -> store_ev e ∈ tr) ->
    answered_with (PolicyStore (recordPolicyEvaluation
      (createPolicyEvaluationInput (enforced_result input operation policies) approval))) evaluation tr ->
    production_objection input e tr
| objection_failure e tr : compensated_failure tr e -> production_objection input e (map store_ev tr).

(** A recorded evaluation whose decision is not to allow. *)
Definition refuses (e : rings_event) : Prop :=
  match ev_call e as c return result (rings_answer c) -> Prop with
  | PolicyStore (recordPolicyEvaluation _) => fun a =>
      match a with Ok row => record_decision (row_input row) <> allow | Err _ => False end
  | _ => fun _ => False
  end (ev_resp e).

Definition refused (tr : list rings_event) : Prop := Exists refuses tr.

(** What may follow a refusal: the policy store's own calls, the failure of this operation
    as it waits for its policy, and its record. *)
Definition stops (tenant : HeliusRingsTenant) (id : string) (e : rings_event) : Prop :=
  match ev_call e with
  | PolicyStore _ => True
  | FailOperation i => fl_tenant i = tenant /\ fl_id i = id /\ fl_expectedState i = op_preparing
  | AppendEvent i => ap_operationId i = id
  | GetOperationById tenant' id' => tenant' = tenant /\ id' = id
  | _ => False
  end.

(** Failing the operation as an invalid input that may be retried. *)
Definition fails_retryably (tenant : HeliusRingsTenant) (id : string) (e : rings_event) : Prop :=
  exists message, ev_call e = FailOperation (mkFailInput tenant id op_preparing invalid_input message true).

(** A call made before the policy is asked. *)
Definition early (c : rings_call) : Prop :=
  match c with
  | PolicyStore _ | FailOperation _ => False
  | TransitionState i => tr_expectedState i = op_draft
  | _ => True
  end.

(** A call that is not one of the policy engine's. *)
Definition elsewhere (c : rings_call) : Prop :=
  match c with PolicyStore _ => False | _ => True end.

(** * Lemmas *)

(** ** The policy engine *)

Lemma all_runs_with_store {A} (m : store_prog A) (Q : list rings_event -> result A -> Prop) :
  all_runs m (fun tr res => Q (map store_ev tr) res) -> all_runs (with_store m) Q.
Proof.
  revert Q. induction m as [a|e|c k IH]; intros Q; cbn [with_store all_runs map]; [done..|].
  intros H r. apply IH. exact (H r).
Qed.

Lemma enforcement_recorded input :
  yields (PolicyEnforce.enforceWalletOperationPolicy input) (fun tr r =>
    Forall (fun e => match ev_call e as c return result (store_response c) -> Prop with
                     | recordPolicyEvaluation _ => fun a => match a with Ok row => row = r.2 | Err _ => True end
                     | _ => fun _ => True
                     end (ev_resp e)) tr).
Proof.
  eapply all_runs_mono; [|exact (enforce_writes input)].
  intros tr res H [updated row] E. destruct (H updated row E) as (o & p & a & answer & -> & _).
  unfold written_before. destruct a; by repeat constructor.
Qed.

Lemma production_yields scope input :
  yields (PolicyService.enforceWalletOperationPolicy scope input) (fun tr r =>
    production_verdict input r.2 (map store_ev tr)).
Proof.
  eapply all_runs_mono; [|exact (enforce_policy_allows scope input)].
  intros tr res H [operation row] E. destruct (H _ E) as (Hd & o & p & a & Hw & He). split; [done|].
  exists o, p, a. split.
  - intros e Hin. by apply list_elem_of_fmap_2, Hw.
  - exact (list_elem_of_fmap_2 store_ev _ _ He).
Qed.

(** What production's enforcement throws. *)
Lemma decision_errors operation evaluation :
  record_decision (row_input evaluation) <> allow ->
  decision_error (record_decision (row_input evaluation)) (walletOperationPolicyDecisionError operation evaluation).
Proof. unfold walletOperationPolicyDecisionError. destruct (record_decision _); intros H; by constructor. Qed.

Lemma scope_error organization project e :
  createTenantScope organization project = Err e ->
  exists message, e = CodedError "TenantScopeViolationError" "" message None
    /\ message ∈ ["Tenant organizationId is required"; "Tenant projectId cannot be empty"].
Proof.
  unfold createTenantScope. destruct (String.eqb _ _); [intros [= <-]|destruct (_ && _); [intros [= <-]|done]];
    (eexists; split; [reflexivity|]); rewrite !elem_of_cons; tauto.
Qed.

Lemma claim_error scope organization project e :
  assertTenantClaim scope organization project "enforceWalletOperationPolicy" = Err e ->
  exists message, e = CodedError "TenantScopeViolationError" "" message None
    /\ message ∈ ["enforceWalletOperationPolicy cannot override the repository organization scope";
                  "enforceWalletOperationPolicy cannot override the repository project scope"].
Proof.
  unfold assertTenantClaim. destruct (negb _); [intros [= <-]|destruct (negb _); [intros [= <-]|done]];
    (eexists; split; [reflexivity|]); rewrite !elem_of_cons; tauto.
Qed.

Lemma enforcement_objects input :
  all_runs (PolicyService.enforce input) (fun tr res => forall e, res = Err e -> production_objection input e (map store_ev tr)).
Proof.
  unfold PolicyService.enforce. apply all_runs_bind.
  eapply all_runs_mono; [|exact (all_runs_and _ _ _ (enforce_failure_compensated input) (enforcement_yields input))].
  intros tr [[updated row]|e] [Hf Hy].
  - destruct (Hy _ eq_refl) as (o & p & a & Hw & He). cbn [fst snd] in *.
    destruct (bool_decide_reflect (record_decision (row_input row) = allow)) as [Hd|Hd]; cbn [all_runs]; [done|].
    rewrite app_nil_r. intros e [= <-]. apply (objection_decision _ row _ o p a).
    + by apply decision_errors.
    + intros e He'. by apply list_elem_of_fmap_2, Hw.
    + exact (list_elem_of_fmap_2 store_ev _ _ He).
  - intros e' [= <-]. apply objection_failure. by apply Hf.
Qed.

Lemma production_objects tenant input :
  all_runs (production_policy tenant input) (fun tr res => forall e, res = Err e -> production_objection input e tr).
Proof.
  unfold production_policy. destruct (createTenantScope _ _) as [scope|e] eqn:Es; cbn [of_result bind].
  2: { intros e' [= <-]. apply scope_error in Es as (m & -> & Hm). apply objection_tenant.
       rewrite !elem_of_cons in *. set_solver. }
  apply all_runs_with_store. unfold PolicyService.enforceWalletOperationPolicy.
  destruct (assertTenantClaim _ _ _ _) as [[]|e] eqn:Ea; cbn [of_result bind]; [apply enforcement_objects|].
  intros e' [= <-]. apply claim_error in Ea as (m & -> & Hm). apply objection_tenant. set_solver.
Qed.

#[export] Instance production_enforces : EnforcesPolicy production_policy.
Proof.
  refine {| verdict := production_verdict; objection := fun _ => production_objection |}.
  - intros input evaluation tr tr' Hsub (Ha & o & p & a & Hw & He). split; [done|].
    exists o, p, a. split; [intros e' He'; by apply Hsub, Hw|by apply Hsub].
  - intros tenant input. unfold production_policy. apply yields_result. intros scope _.
    apply all_runs_with_store. exact (production_yields scope input).
  - intros tenant input. unfold production_policy. apply within_bind; [apply within_of_result|].
    intros scope. apply all_runs_with_store. eapply all_runs_mono; [|apply all_runs_true].
    intros tr res _. apply Forall_map, Forall_forall. intros e _. by eexists.
  - apply production_objects.
Defined.

(** ** What becomes of a refusal *)

Lemma all_runs_weaken {C} {R : C -> Type} {A B} (P : C -> Prop) (m : prog R A) (f : A -> prog R B) Q :
  calls_within P m ->
  (forall tr e, Forall (fun x => P (ev_call x)) tr -> Q tr (Err e)) ->
  (forall tr a, Forall (fun x => P (ev_call x)) tr -> all_runs (f a) (fun tr' res => Q (tr ++ tr') res)) ->
  all_runs (bind m f) Q.
Proof.
  intros Hm He Ha. apply all_runs_bind. eapply all_runs_mono; [|exact Hm].
  intros tr [a|e] H; [by apply Ha|by apply He].
Qed.

Section Refusals.
Context {K : RingsKit} (sha256 : list ascii -> list Z) (tenant : HeliusRingsTenant).

Lemma decide_elsewhere id evaluation : calls_within elsewhere (decide_operation tenant id evaluation).
Proof.
  unfold decide_operation, runPipeline, attempt, prove, sign, broadcast, signRingsOuterTransaction,
    submitRingsOuterTransaction, failFromPortError, fail_view, current_view, or_current, requireOperation,
    transition, fail, append, ask.
  repeat (within_calls; try done; match goal with |- context [match ?x with _ => _ end] => destruct x end).
Qed.

Lemma elsewhere_unrefused tr : Forall (fun e => elsewhere (ev_call e)) tr -> ~ refused tr.
Proof.
  intros H Hr. apply Exists_exists in Hr as (e & Hin & He). rewrite Forall_forall in H.
  specialize (H e Hin). unfold refuses in He. destruct e as [[] a]; done.
Qed.

Lemma early_unrefused tr : Forall (fun e => early (ev_call e)) tr -> ~ refused tr.
Proof.
  intros H. apply elsewhere_unrefused. eapply Forall_impl; [exact H|]. intros [c a]. by destruct c.
Qed.

(** Enforcement that returns has recorded no refusal. *)
Lemma enforcement_unrefused input : yields (production_policy tenant input) (fun tr _ => ~ refused tr).
Proof.
  unfold production_policy. apply yields_result. intros scope _. apply all_runs_with_store.
  change (yields (PolicyService.enforceWalletOperationPolicy scope input) (fun tr _ => ~ refused (map store_ev tr))).
  apply yields_result. intros [] _. unfold enforce.
  eapply yields_bind; [apply enforcement_recorded|]. intros [updated row] tr Hrec. cbn [snd] in *.
  destruct (bool_decide_reflect (record_decision (row_input row) = allow)) as [Hd|Hd]; [|apply yields_throw].
  apply yields_ret. rewrite app_nil_r. intros Hr. apply Exists_exists in Hr as (e & Hin & He).
  apply list_elem_of_fmap in Hin as (x & -> & Hx). rewrite Forall_forall in Hrec. specialize (Hrec x Hx).
  destruct x as [[] [a|a]]; try done. cbn in Hrec, He. by subst a.
Qed.

Lemma require_wallet_early id : calls_within early (requireWallet tenant id).
Proof. unfold requireWallet, ask. within_calls; [done|]. by destruct a; within_calls. Qed.

Lemma append_early id kind payload : calls_within early (append id kind payload).
Proof. unfold append, ask. by within_calls. Qed.

Lemma start_early id : calls_within early (transition tenant id op_draft None empty_patch).
Proof. unfold transition, append, ask. cbn [nextState]. within_calls; [done|]. by destruct a; within_calls. Qed.

(** Failing the operation, whatever is answered. *)
Lemma fail_view_stops id message :
  all_runs (fail_view tenant id op_preparing invalid_input message true) (fun tr _ =>
    Forall (fun e => stops tenant id e /\ elsewhere (ev_call e)) tr /\ Exists (fails_retryably tenant id) tr).
Proof.
  unfold fail_view, fail, or_current, requireOperation, append, ask, call.
  cbn [bind all_runs]. intros [[r|]|e]; cbn [bind all_runs]; [intros [a|e]; cbn [bind all_runs]|intros [[r|]|e]; cbn [bind all_runs]|];
    (split; [by repeat constructor|left; by eexists]).
Qed.

(** What holds of the calls of a run after a refusal. *)
Definition stopped (tr : list rings_event) : Prop :=
  forall before e after, tr = before ++ e :: after -> refuses e ->
    exists i operation, answered_with (ReserveIntent i) (operation, true) before /\ rv_tenant i = tenant
      /\ Forall (stops tenant (row_id operation)) after /\ Exists (fails_retryably tenant (row_id operation)) after.

Lemma unrefused_stopped tr : ~ refused tr -> stopped tr.
Proof. intros H before e after -> He. destruct H. apply Exists_app. right. by left. Qed.

Abbreviation all_early tr := (Forall (fun e => early (ev_call e)) tr).

Lemma early_first {A B} (m : rings_prog A) (f : A -> rings_prog B) pre :
  calls_within early m -> all_early pre ->
  (forall tr a, all_early tr -> all_runs (f a) (fun tr' _ => stopped ((pre ++ tr) ++ tr'))) ->
  all_runs (bind m f) (fun tr _ => stopped (pre ++ tr)).
Proof.
  intros Hm Hp Hf. apply (all_runs_weaken early); [done| |].
  - intros tr e H. apply unrefused_stopped, early_unrefused. by apply Forall_app_2.
  - intros tr a H. eapply all_runs_mono; [|by apply (Hf tr a)]. intros tr' res Hk. by rewrite app_assoc.
Qed.

Lemma early_only {A} (m : rings_prog A) pre :
  calls_within early m -> all_early pre -> all_runs m (fun tr _ => stopped (pre ++ tr)).
Proof.
  intros Hm Hp. eapply all_runs_mono; [|exact Hm]. intros tr res H.
  apply unrefused_stopped, early_unrefused. by apply Forall_app_2.
Qed.

Lemma current_view_early id : calls_within early (current_view tenant id).
Proof. unfold current_view, requireOperation, ask. within_calls; [done|]. destruct a; within_calls. Qed.

Lemma not_refused_app tr1 tr2 : ~ refused tr1 -> ~ refused tr2 -> ~ refused (tr1 ++ tr2).
Proof. intros H1 H2 [H|H]%Exists_app; auto. Qed.

Lemma refuses_policy e : refuses e -> elsewhere (ev_call e) -> False.
Proof. destruct e as [c a]. by destruct c. Qed.

Lemma refusal_place pre calls post i operation :
  ~ refused pre -> answered_with (ReserveIntent i) (operation, true) pre -> rv_tenant i = tenant ->
  Forall (fun e => is_policy_call (ev_call e)) calls ->
  Forall (fun e => stops tenant (row_id operation) e /\ elsewhere (ev_call e)) post ->
  Exists (fails_retryably tenant (row_id operation)) post ->
  stopped (pre ++ calls ++ post).
Proof.
  intros Hpre Ha Ht Hc Hp Hf before e after E He. exists i, operation.
  assert (exists k, before = pre ++ k /\ calls ++ post = k ++ e :: after) as (k & -> & E2).
  { apply app_eq_inv in E as [(k & Ek & E)|(k & -> & E)]; [|by exists k]. destruct k as [|x k].
    - exists []. rewrite app_nil_r in Ek. by rewrite app_nil_r.
    - injection E as <- _. destruct Hpre. rewrite Ek. apply Exists_app. right. by left. }
  split; [by apply answered_mono|]. split; [done|].
  assert (forall x, x ∈ post -> ~ refuses x) as Hnot.
  { intros x Hx Hr. rewrite Forall_forall in Hp. by eapply refuses_policy, Hp. }
  apply app_eq_inv in E2 as [(l & -> & E2)|(l & -> & ->)].
  2: { destruct (Hnot e); [apply elem_of_app; right; by left|done]. }
  destruct l as [|x l]; cbn in E2; [destruct (Hnot e); [rewrite <- E2; by left|done]|]. injection E2 as <- ->.
  apply Forall_app in Hc as [_ [_ Hc]%Forall_cons]. split; [|apply Exists_app; by right].
  apply Forall_app_2; [|eapply Forall_impl; [exact Hp|]; by intros x [? _]].
  eapply Forall_impl; [exact Hc|]. intros [c a] [s Es]. cbn in Es. by subst c.
Qed.

(** From enforcement on, after calls that are no policy's. *)
Lemma refusal_after pre id input i operation :
  all_early pre -> answered_with (ReserveIntent i) (operation, true) pre -> rv_tenant i = tenant -> row_id operation = id ->
  all_runs (let! enforced := catch
              (let! e := production_policy tenant input in Ret (inr e)) (fun error => Ret (inl error)) in
            match enforced with
            | inl error =>
                fail_view tenant id op_preparing invalid_input
                  (match as_error error with Some e => error_message e | None => "policy evaluation failed" end) true
            | inr (_, evaluation) => decide_operation tenant id evaluation
            end) (fun tr _ => stopped (pre ++ tr)).
Proof.
  intros Hpre Ha Ht <-. apply all_runs_bind, all_runs_catch, all_runs_bind.
  eapply all_runs_mono; [|exact (all_runs_and _ _ _ (enforcement_unrefused _) (verdict_calls tenant _))].
  intros tr [[envelope evaluation]|e] [Hy Hc]; cbn [all_runs]; rewrite ?app_nil_r.
  - eapply all_runs_mono; [|apply decide_elsewhere]. intros tr' res H. apply unrefused_stopped.
    apply not_refused_app; [by apply early_unrefused|]. rewrite ?app_nil_r.
    apply not_refused_app; [by eapply Hy|by apply elsewhere_unrefused].
  - eapply all_runs_mono; [|apply fail_view_stops]. intros tr' res [Hs Hf].
    eapply (refusal_place pre tr tr'); [by apply early_unrefused|exact Ha|done|exact Hc|exact Hs|exact Hf].
Qed.

(** A run in which the policy's recorded decision is not to allow fails the operation it
    reserved as an invalid input that may be retried, and does nothing else. *)
Lemma refusal_is_recorded_as_retryable input context retried :
  all_runs (prepareOperation sha256 production_policy tenant input context retried) (fun tr _ => stopped tr).
Proof.
  change (all_runs (prepareOperation sha256 production_policy tenant input context retried)
    (fun tr _ => stopped ([] ++ tr))). unfold prepareOperation.
  apply early_first; [apply require_wallet_early|constructor|]. intros tr0 wallet H0.
  apply all_runs_bind. cbn [ask call all_runs]. intros [[operation reserved]|e]; cbn [all_runs].
  2: { apply unrefused_stopped, early_unrefused. by apply Forall_app_2; [|repeat constructor]. }
  set (tr1 := [rings_ev (ReserveIntent (reserve_input sha256 tenant wallet input retried)) (Ok (operation, reserved))]).
  assert (all_early (([] ++ tr0) ++ tr1)) as H1 by (apply Forall_app_2; [done|by repeat constructor]).
  apply (all_runs_mono _ (fun tr _ => stopped ((([] ++ tr0) ++ tr1) ++ tr))).
  { intros tr res H. by rewrite <- (app_assoc _ tr1 tr) in H. }
  destruct reserved; cbn [negb]; [|apply early_only; [apply within_ret|done]].
  apply early_first; [apply append_early|done|]. intros tr2 [] H2.
  apply early_first; [apply start_early|by apply Forall_app_2|]. intros tr3 [preparing|] H3.
  - apply (refusal_after _ _ _ (reserve_input sha256 tenant wallet input retried) operation).
    + by do 2 (apply Forall_app_2; [|done]).
    + do 2 apply answered_mono. apply elem_of_app. right. by left.
    + done.
    + done.
  - apply early_only; [apply current_view_early|by do 2 (apply Forall_app_2; [|done])].
Qed.

End Refusals.
