(* ===== verification/RingsScenario.v ===== *)
(** * Helius Rings: a concrete environment

    A codec, a policy store, a gateway, custody and a node that answer, with the tables
    of RingsLedger.v, so that runs of the service can be computed. [faults] says which
    calls are lost. *)
From Stdlib Require Import Ascii String ZArith Lia.
From stdpp Require Import base list strings sets.
From S2P Require Import Prelude Text Rows PolicyTypes PolicyEvaluate PolicyEnforce PolicyService.
From S2P Require Import Pool RingsTypes RingsRedaction RingsLedger RingsService RingsPoll.
From S2P Require Import RingsInvariant.

Local Open Scope string_scope.
Local Open Scope Z_scope.
Local Open Scope list_scope.
Local Open Scope sdp_scope.

(** ** Answers *)

Definition of_bytes (w : wire) : string := text (map (fun b => ascii_of_nat (Z.to_nat b)) w).

(** Texts and transactions are their own bytes, and a transaction's signature is its
    text. *)
#[export] Instance demo_kit : RingsKit :=
  mkRingsKit (fun s => Ok (map code (chars s))) of_bytes outer_message (fun w => Ok (mkOuter w []))
    (fun t => Ok (of_bytes (outer_message t))).

Definition demo_sha256 (l : list ascii) : list Z := map code l.

Definition text_leb (a b : string) : bool := String.leb a b.

Definition demo_now : string := "2026-01-01T00:00:00.000Z".

(** An id longer than every id of the tables. *)
Definition demo_id (t : RingsTables) : string :=
  text (repeat "n"%char (S (list_max (String.length <$>
    (row_id <$> operations t) ++ (ev_id <$> rings_events t) ++ (wl_id <$> rings_wallets t))))).

(** Everything that is not a table. *)
Definition demo_answer (action : PolicyDefaultAction) (c : rings_call) : result (rings_answer c) :=
  match c return result (rings_answer c) with
  | PolicyStore c => default_store demo_now action c
  | GetApprovalRequestDetail _ _ => Ok (Some request_approved)
  | ProvisionIdentity _ _ => Ok (mkIdentity "shielded" [live])
  | BuildOperation o => Ok (mkBuilt (po_id o) "metadata")
  | RequestProof _ _ => Ok (mkProof live "proof-ref")
  | VerifyIndexed _ => Ok (Some (mkIndexed demo_now "photon"))
  | ProbeHealth => Ok (mkHealth green green green green None)
  | CreateOrgSigner _ => Ok modifying_signer
  | ModifyAndSign t => Ok t
  | SignTransactions _ => Ok []
  | CreateRpc => Ok tt
  | SendTransaction _ => Ok "accepted"
  | NowInstant => Ok "2026-01-02T00:00:00.000Z"
  | NowMs => Ok 1767312000000
  | _ => Err (NonError "not asked")
  end.

Definition demo (action : PolicyDefaultAction) (faults : rings_call -> bool) (c : rings_call) (t : RingsTables)
    : result (rings_answer c) * RingsTables :=
  if faults c then (Err (PlainError "lost"), t)
  else match perform text_leb demo_now (demo_id t) c t with
       | Some (r, t') => (r, t')
       | None => (demo_answer action c, t)
       end.

Definition no_faults (c : rings_call) : bool := false.

(** Losing the record that a transaction was submitted. *)
Definition submission_event_lost (c : rings_call) : bool :=
  match c with AppendEvent i => String.eqb (ap_kind i) "transaction.submitted" | _ => false end.

(** ** A tenant with a wallet *)

Definition demo_tenant : HeliusRingsTenant := mkTenant "org" "project".

Definition demo_tables : RingsTables :=
  mkRings [] []
    [mkWalletRow "wallet" demo_tenant "sdp-wallet" "Main" wallet_ready (Some "shielded") None live demo_now demo_now]
    [] [] [] [].

Definition demo_input : PrivateOperationInput :=
  mkOperationInput "wallet" shield (Some (mkAsset "mint" "10")) None None None None None "nonce".

Definition demo_actor : HeliusRingsActor := mkActorContext (Some "key") None (Some "custody").

Definition demo_env : RingsEnv := mkRingsEnv (Some "true") (Some "http") None.

(** ** A request, then a retry of it *)

Definition demo_prepare : rings_request := PrepareRequest demo_tenant demo_input demo_actor.

Definition demo_run (action : PolicyDefaultAction) (faults : rings_call -> bool) (r : rings_request) (t : RingsTables)
    : list rings_event * result unit * RingsTables :=
  run (demo action faults) (serve demo_sha256 demo_env r) t.

Definition demo_first : list rings_event * result unit * RingsTables :=
  demo_run default_allow submission_event_lost demo_prepare demo_tables.

Definition demo_requests : list rings_request :=
  [demo_prepare; RetryRequest demo_tenant "nnnnnnn" "again" demo_actor].

Definition demo_second : list rings_event * result unit * RingsTables :=
  demo_run default_allow no_faults (RetryRequest demo_tenant "nnnnnnn" "again" demo_actor) demo_first.2.

Definition demo_log : rings_log := map (pair 0%nat) demo_first.1.1 ++ map (pair 1%nat) demo_second.1.1.

Definition demo_end : RingsTables := demo_second.2.

(** The id the retry's operation is given. *)
Definition demo_retry : string := demo_id demo_first.2.

(** * Lemmas *)

Lemma text_length l : String.length (text l) = length l.
Proof. induction l as [|c l IH]; [done|exact (f_equal S IH)]. Qed.

Lemma demo_id_fresh t : fresh_id (demo_id t) t.
Proof.
  assert (demo_id t ∉ (row_id <$> operations t) ++ (ev_id <$> rings_events t) ++ (wl_id <$> rings_wallets t)) as H.
  { intros H. unfold demo_id in H. set (ids := _ ++ _ ++ _) in H.
    apply (list_elem_of_fmap_2 String.length), list_elem_of_In in H.
    pose proof (proj1 (list_max_le _ _) (Nat.le_refl (list_max (String.length <$> ids)))) as Hmax.
    rewrite Stdlib.Lists.List.Forall_forall in Hmax. specialize (Hmax _ H).
    rewrite text_length, repeat_length in Hmax. lia. }
  unfold fresh_id. rewrite !elem_of_app in H. tauto.
Qed.

(** The environment is one the tables allow. *)
Lemma demo_allowed action faults c t :
  rings_answers text_leb t (Ev c (demo action faults c t).1) (demo action faults c t).2.
Proof.
  unfold demo. destruct (faults c); [by apply call_lost|].
  destruct (perform text_leb demo_now (demo_id t) c t) as [[r t']|] eqn:E.
  - eapply answered_here; [apply demo_id_fresh|exact E].
  - apply answered_elsewhere. intros now id. by destruct c.
Qed.

Lemma demo_history :
  exists ps, pool_run (rings_answers text_leb) demo_tables (serve demo_sha256 demo_env <$> demo_requests) demo_log demo_end ps.
Proof.
  destruct (pool_run_one (rings_answers text_leb) (demo default_allow submission_event_lost) demo_tables
    (serve demo_sha256 demo_env <$> demo_requests) [] demo_tables _ 0 (serve demo_sha256 demo_env demo_prepare)
    (demo_allowed _ _) (pool_start _ _ _)) as (ps1 & H1 & Hps); [reflexivity|].
  destruct (pool_run_one (rings_answers text_leb) (demo default_allow no_faults) _ _ _ _ _
    1 (serve demo_sha256 demo_env (RetryRequest demo_tenant "nnnnnnn" "again" demo_actor))
    (demo_allowed _ _) H1) as (ps2 & H2 & _); [by rewrite Hps|].
  rewrite app_nil_l in H2. exists ps2. exact H2.
Qed.

(** A policy that denies, and one that asks for an approval: either way the operation is
    failed as an invalid input that may be retried. *)
Example refusals_are_retryable :
  (fun action => (fun r => (op_state r, failure_code r, failure_message r, retryable r)) <$>
     operations (demo_run action no_faults demo_prepare demo_tables).2) <$> [default_deny; default_approval_required]
  = [[(op_failed, Some invalid_input, Some "Wallet operation denied by policy", Some true)];
     [(op_failed, Some invalid_input, Some "Wallet operation requires policy approval", Some true)]].
Proof. vm_compute. reflexivity. Qed.
