(* ===== verification/RingsGuarantees.v ===== *)
(** * Helius Rings: what any mix of requests guarantees

    Any number of requests and polls at once, over the tables of RingsLedger.v, each run
    of RingsService.v and RingsPoll.v under the policy engine the service is built with.
    What each run's own calls rest on (RingsSafety.v) is read against the tables. *)
From Stdlib Require Import Ascii String ZArith Lia.
From stdpp Require Import base list strings sets.
From S2P Require Import Prelude Text Rows PolicyTypes PolicyEvaluate PolicyEnforce PolicyService.
From S2P Require Import Pool RingsTypes RingsRedaction RingsLedger RingsService RingsPoll.
From S2P Require Import RingsInvariant RingsSafety RingsPolicy RingsScenario.

Local Open Scope string_scope.
Local Open Scope Z_scope.
Local Open Scope list_scope.
Local Open Scope sdp_scope.

(** ** What a history shows *)

(** A row, as it is now or was before. *)
Definition live (r : HeliusRingsOperationRow) (t : RingsTables) : Prop :=
  exists r', r' ∈ operations t /\ later_row r r'.

(** What the rows a call was answered are. *)
Definition as_given (t : RingsTables) (e : rings_event) : Prop :=
  match ev_call e as c return result (rings_answer c) -> Prop with
  | TransitionState i => fun a => forall r, a = Ok (Some r) ->
      row_id r = tr_id i /\ op_state r = tr_nextState i /\ live r t
      /\ forall s, pt_outerTxSignature (tr_patch i) = Some s -> outer_tx_signature r = s
  | GetOperationById tenant id => fun a => forall r, a = Ok (Some r) ->
      row_id r = id /\ ro_tenant (op_facts r) = tenant /\ live r t
  | _ => fun _ => True
  end (ev_resp e).

(** The operation whose signature a call recorded. *)
Definition won (e : rings_event) : list string :=
  match ev_call e as c return result (rings_answer c) -> list string with
  | TransitionState i => fun a =>
      match a with
      | Ok (Some _) => if bool_decide (tr_nextState i = op_submitted) then [tr_id i] else []
      | _ => []
      end
  | _ => fun _ => []
  end (ev_resp e).

Definition winners (tr : rings_log) : list string := flat_map (fun x => won x.2) tr.

(** An operation beyond approval. *)
Definition started (r : HeliusRingsOperationRow) : Prop :=
  3 <= rank (op_state r) \/ is_Some (outer_tx_signature r).

Definition started_before (t : RingsTables) (id : string) : Prop :=
  exists r, r ∈ operations t /\ row_id r = id /\ started r.

Section History.
Context {K : RingsKit} (sha256 : list ascii -> list Z).

(** Calls of one run. *)
Definition of_run (pre : list rings_event) (tr : rings_log) : Prop :=
  exists j, forall e, e ∈ pre -> (j, e) ∈ tr.

(** A run was allowed to start this operation: by the policy alone, or by a reviewer. *)
Definition authorised (tr : rings_log) (id : string) : Prop :=
  exists pre tenant, of_run pre tr
    /\ (reviewed pre tenant id
        \/ exists evaluation, enforced sha256 production_policy pre tenant id evaluation
             /\ record_requiresApproval (row_input evaluation) = false).

(** The failure of a row is one a call recorded, with its reason. *)
Definition failure_recorded (tr : rings_log) (r : HeliusRingsOperationRow) : Prop :=
  exists pre i, of_run pre tr /\ failure_backed sha256 production_policy pre i
    /\ fl_id i = row_id r /\ failure_code r = Some (fl_code i)
    /\ failure_message r = Some (fl_message i) /\ retryable r = Some (fl_retryable i).

Record explained (s0 : RingsTables) (tr : rings_log) (s : RingsTables) : Prop := mkExplained {
  ex_sound : rings_sound s;
  ex_later : later_rings s0 s;
  ex_given : forall j e, (j, e) ∈ tr -> as_given s e;
  ex_winners : NoDup (winners tr);
  ex_authorised : forall r, r ∈ operations s -> started r ->
    authorised tr (row_id r) \/ started_before s0 (row_id r);
  ex_failures : forall r, r ∈ operations s -> op_state r = op_failed ->
    failure_recorded tr r \/ r ∈ operations s0;
}.

(** What is known of a transaction that was sent: custody signed it for the operation,
    whose row has its signature, and a run was allowed to start that operation. *)
Definition sent_for (s0 : RingsTables) (tr : rings_log) (s : RingsTables) (b : wire) (id : string) : Prop :=
  exists pre r signed_ signature,
    of_run pre tr /\ custody_signed pre id signed_ signature /\ base64_encode signed_ = Ok b
    /\ r ∈ operations s /\ row_id r = id /\ outer_tx_signature r = Some signature
    /\ (authorised tr id \/ started_before s0 id).
End History.

(** * Lemmas *)

(** ** Splits of a history *)

Lemma of_run_mono pre tr x : of_run pre tr -> of_run pre (tr ++ [x]).
Proof. intros [j H]. exists j. intros e He. apply elem_of_app. left. auto. Qed.

Lemma of_run_calls i tr : of_run (calls_of i tr) tr.
Proof. exists i. intros e. apply calls_of_elem. Qed.

Lemma winners_elem id tr : id ∈ winners tr -> exists j e, (j, e) ∈ tr /\ id ∈ won e.
Proof.
  unfold winners. rewrite list_elem_of_In, in_flat_map. intros ([j e] & Hin & H).
  exists j, e. by rewrite !list_elem_of_In.
Qed.

(** ** Rows *)

Lemma live_mono r t t' : live r t -> later_rings t t' -> live r t'.
Proof.
  intros (r1 & H1 & L1) H. destruct (H r1 H1) as (r2 & H2 & L2).
  exists r2. split; [done|by eapply later_operation_trans].
Qed.

Lemma as_given_later t t' e : as_given t e -> later_rings t t' -> as_given t' e.
Proof.
  unfold as_given. destruct e as [c a]; destruct c; cbn; try done.
  - intros H L r E. destruct (H r E) as (? & ? & ?). split; [done|]. split; [done|by eapply live_mono].
  - intros H L r E. destruct (H r E) as (? & ? & ? & ?). do 2 (split; [done|]). split; [by eapply live_mono|done].
Qed.

Section Steps.
Variable text_le : string -> string -> bool.

(** Where a row of the tables comes from. *)
Definition comes_from (t : RingsTables) (c : rings_call) (r' : HeliusRingsOperationRow) : Prop :=
  r' ∈ operations t
  \/ match c with
     | TransitionState i => exists now r, r ∈ operations t /\ row_id r = tr_id i
         /\ op_state r = tr_expectedState i /\ r' = transition_row now i r
     | FailOperation i => exists now r, r ∈ operations t /\ row_id r = fl_id i
         /\ op_state r = fl_expectedState i /\ r' = failed_row now i r
     | ReserveIntent i => exists now id, r' = reserved_row now id i
     | _ => False
     end.

Lemma perform_rows now id c t r t' :
  perform text_le now id c t = Some (r, t') ->
  forall x, x ∈ operations t' -> comes_from t c x.
Proof.
  intros Hp x Hx. destruct (writes_operations c) eqn:Hw.
  2: { apply perform_same in Hp; [|done]. left. by rewrite <- Hp. }
  revert x Hx. assert (forall x, x ∈ operations t -> comes_from t c x) as Hrefl by (intros; by left).
  destruct c; try done; injection Hp as E;
    eapply (answer_of_ok _ _ _ _ _ (fun t' => forall x, x ∈ operations t' -> _) E); try done; intros a t1.
  - destruct a as [o b]. intros (_ & t2 & Hi & Eo)%reserveIntent_spec x Hx. rewrite Eo in Hx.
    apply insert_operation_spec in Hi as [_ [(_ & _ & ->)|(_ & -> & _)]]; [by left|].
    cbn in Hx. apply elem_of_app in Hx as [Hx|Hx%list_elem_of_singleton]; [by left|right]. by exists now, id.
  - intros [[_ ->]|(r0 & Hr & Hs & _ & _ & ->)]%swap_spec x Hx; [by left|].
    apply getOperationById_spec in Hr as (Hin & Hid & _).
    apply replace_elem in Hx as [->|[Hx _]]; [right; by exists now, r0|by left].
  - intros [[_ ->]|(r0 & Hr & Hs & _ & _ & ->)]%swap_spec x Hx; [by left|].
    apply getOperationById_spec in Hr as (Hin & Hid & _).
    apply replace_elem in Hx as [->|[Hx _]]; [right; by exists now, r0|by left].
Qed.

Lemma step_rows t e t' : rings_answers text_le t e t' -> forall x, x ∈ operations t' -> comes_from t (ev_call e) x.
Proof.
  intros [c r Hn|c now id r t2 Hf Hp|c now id r t2 err Hf Hp|c err] x Hx;
    [by left|by eapply perform_rows..|by left].
Qed.

Lemma step_given t e t' : rings_answers text_le t e t' -> as_given t' e.
Proof.
  intros [c r Hn|c now id r t2 Hf Hp|c now id r t2 err Hf Hp|c err]; destruct c; try done.
  - by specialize (Hn "" "").
  - by specialize (Hn "" "").
  - injection Hp as <- <-. intros r' [= E]. apply getOperationById_spec in E as (H1 & H2 & H3).
    do 2 (split; [done|]). exists r'. split; [done|apply later_operation_refl].
  - injection Hp as E. unfold answer_of in E. cbn in E.
    destruct (transitionState now i t) as [[a t1]|] eqn:Es; injection E as <- <-; [|done].
    intros r' [= ->]. apply swap_spec in Es as [[? _]|(r0 & Hr & Hs & _ & [= ->] & ->)]; [done|].
    apply getOperationById_spec in Hr as (Hin & Hid & _). split; [done|]. split; [done|]. split.
    + exists (transition_row now i r0). split; [|apply later_operation_refl]. rewrite <- Hid. by apply replace_here.
    + intros s E. cbn. by rewrite E.
Qed.

(** Before a swap that was answered, the row was where the swap expected it. *)
Lemma step_swapped t i r t' :
  rings_answers text_le t (rings_ev (TransitionState i) (Ok (Some r))) t' ->
  exists r0, r0 ∈ operations t /\ row_id r0 = tr_id i /\ op_state r0 = tr_expectedState i.
Proof.
  intros H. remember (rings_ev (TransitionState i) (Ok (Some r))) as e eqn:Ee.
  assert (is_Some (match ev_call e as c return result (rings_answer c) -> _ with
                   | TransitionState j => fun a => match a with Ok (Some _) => Some (tr_id j, tr_expectedState j) | _ => None end
                   | _ => fun _ => None end (ev_resp e))) as Hsome by (rewrite Ee; by eexists).
  assert (match ev_call e as c return result (rings_answer c) -> _ with
          | TransitionState j => fun a => match a with Ok (Some _) => Some (tr_id j, tr_expectedState j) | _ => None end
          | _ => fun _ => None end (ev_resp e) = Some (tr_id i, tr_expectedState i)) as Hval by (by rewrite Ee).
  clear Ee. destruct H as [c a Hn|c now id a t2 Hf Hp|c now id a t2 err Hf Hp|c err]; destruct c; try done.
  - by specialize (Hn "" "").
  - cbn in Hval, Hp. injection Hp as E. unfold answer_of in E.
    destruct (transitionState now i0 t) as [[b t1]|] eqn:Es; injection E as <- <-; [|done].
    destruct b as [b|]; [|done]. injection Hval as <- <-.
    apply swap_spec in Es as [[? _]|(r0 & Hr & Hs & _)]; [done|].
    apply getOperationById_spec in Hr as (Hin & Hid & _). by exists r0.
Qed.
End Steps.

(** ** Every history is explained *)

Section Explained.
Context {K : RingsKit} (sha256 : list ascii -> list Z) (text_le : string -> string -> bool).

Abbreviation backed := (RingsSafety.backed sha256 production_policy).
Abbreviation explained := (explained sha256).

Lemma backed_transition_legal prior i :
  transition_backed sha256 production_policy prior i -> legal_call (TransitionState i).
Proof.
  intros []; split; try (cbn; unfold decision_patch; by eauto); try by exists None.
  all: first [by exists (Some policy_ok) | by exists (Some approved) | by exists (Some proof_received)
    | by exists (Some signed) | by exists (Some guard_submitted) | by exists (Some indexed)].
Qed.

Lemma given_in_flight t prior r :
  (forall e, e ∈ prior -> as_given t e) -> given_row prior r -> op_state r ∈ IN_FLIGHT_STATES.
Proof.
  intros Hg [(tenant & id & _ & H)|(i & Hi & H)]; [done|].
  destruct (Hg _ Hi _ eq_refl) as (_ & E & _). cbn in E. by rewrite E.
Qed.

Lemma backed_legal t prior e :
  (forall e, e ∈ prior -> as_given t e) -> backed prior e -> legal_call (ev_call e).
Proof.
  intros Hg. destruct e as [c a]; destruct c; try done.
  - apply backed_transition_legal.
  - intros H. cbn in H |- *. destruct H; try in_flight. by eapply given_in_flight.
Qed.

Lemma explained_start s0 : rings_sound s0 -> explained s0 [] s0.
Proof.
  intros H. constructor; [done|apply later_rings_refl|intros j e He; by apply elem_of_nil in He|constructor| |].
  - intros r Hr Hs. right. by exists r.
  - intros r Hr _. by right.
Qed.

(** The operation whose signature is recorded now has not had one recorded. *)
Lemma winner_is_new s0 tr s e s' id :
  explained s0 tr s -> legal_call (ev_call e) -> rings_answers text_le s e s' ->
  id ∈ won e -> id ∉ winners tr.
Proof.
  intros [Hs _ Hg _ _ _] Hl Ha Hid (j & e0 & Hin & H0)%winners_elem. specialize (Hg j e0 Hin).
  destruct e as [c a]; destruct c; cbn in Hid; try by apply elem_of_nil in Hid.
  destruct a as [[r|]|]; try by apply elem_of_nil in Hid.
  case_bool_decide as En; [|by apply elem_of_nil in Hid]. apply list_elem_of_singleton in Hid as ->.
  apply step_swapped in Ha as (r0 & Hr0 & Hid0 & Hst). destruct Hl as [[g Hgd] _]. rewrite En in Hgd.
  destruct e0 as [c a]; destruct c; cbn in H0; try by apply elem_of_nil in H0.
  destruct a as [[r1|]|]; try by apply elem_of_nil in H0.
  case_bool_decide as En0; [|by apply elem_of_nil in H0]. apply list_elem_of_singleton in H0.
  destruct (Hg r1 eq_refl) as (Hid1 & Hst1 & (r2 & Hr2 & L) & _).
  assert (r2 = r0) as ->.
  { eapply same_operation; [done..|]. unfold row_id. rewrite (later_op_facts _ _ L).
    unfold row_id in Hid1, Hid0. congruence. }
  apply nextState_step in Hgd as (Hrank & _). pose proof (later_state _ _ L) as Hp.
  rewrite Hst1, En0, Hst in Hp. destruct (tr_expectedState i), Hp as [?|[_ [?|?]]]; cbn in *; try done; lia.
Qed.

Lemma authorised_mono tr x id : authorised sha256 tr id -> authorised sha256 (tr ++ [x]) id.
Proof.
  intros (pre & tenant & Hp & H). exists pre, tenant. split; [by apply of_run_mono|done].
Qed.

Lemma recorded_mono tr x r : failure_recorded sha256 tr r -> failure_recorded sha256 (tr ++ [x]) r.
Proof.
  intros (pre & i & Hp & H). exists pre, i. split; [by apply of_run_mono|done].
Qed.

(** A swap that starts an operation follows an authorisation. *)
Lemma start_authorised prior i now r :
  transition_backed sha256 production_policy prior i ->
  op_state r = tr_expectedState i -> started (transition_row now i r) -> ~ started r ->
  reviewed prior (tr_tenant i) (tr_id i)
  \/ exists evaluation, enforced sha256 production_policy prior (tr_tenant i) (tr_id i) evaluation
       /\ record_requiresApproval (row_input evaluation) = false.
Proof.
  intros Hb Hst Hs Hn. unfold started in *. destruct Hb; cbn in *; rewrite Hst in Hn; cbn in Hn;
    first [exfalso; apply Hn; left; lia | left; by eauto | right; by eauto
          | destruct Hs as [Hs|Hs]; [lia|]; exfalso; apply Hn; by right].
Qed.

Lemma started_dec r : started r \/ ~ started r.
Proof.
  unfold started. destruct (outer_tx_signature r); [left; right; by eexists|].
  destruct (Z.le_gt_cases 3 (rank (op_state r))); [left; by left|right]. intros [?|[? ?]]; [lia|done].
Qed.

Lemma explained_step s0 tr s i e s' :
  explained s0 tr s -> backed (calls_of i tr) e -> rings_answers text_le s e s' ->
  explained s0 (tr ++ [(i, e)]) s'.
Proof.
  intros He Hb Ha. pose proof He as [Hs Hl Hg Hw Hau Hf].
  assert (legal_call (ev_call e)) as Hleg.
  { eapply backed_legal; [|exact Hb]. intros e' He'. eapply Hg. by apply calls_of_elem. }
  destruct (rings_step_kept text_le _ _ _ Hs Hleg Ha) as [Hs' Hl']. constructor.
  - done.
  - by eapply later_rings_trans.
  - intros j e' [H|H%list_elem_of_singleton]%elem_of_app; [eapply as_given_later; [by eapply Hg|done]|].
    injection H as -> ->. by eapply step_given.
  - unfold winners. rewrite flat_map_app. cbn. rewrite app_nil_r. apply NoDup_app. split; [done|]. split.
    + intros id Hid Hid'. by eapply winner_is_new.
    + destruct e as [c a]; destruct c; cbn; try constructor. destruct a as [[r|]|]; try constructor.
      case_bool_decide; [apply NoDup_singleton|constructor].
  - intros r Hr Hst. destruct (step_rows text_le _ _ _ Ha r Hr) as [Hold|Hnew].
    { destruct (Hau r Hold Hst); [left; by apply authorised_mono|by right]. }
    destruct e as [c a]; destruct c; cbn in Hnew; try done.
    + destruct Hnew as (now & id & ->). destruct Hst as [Hst|[? Hst]]; [cbn in Hst; lia|done].
    + destruct Hnew as (now & r0 & Hr0 & Hid & Hst0 & ->).
      destruct (started_dec r0) as [H0|H0].
      { destruct (Hau r0 Hr0 H0); [left; by apply authorised_mono|by right]. }
      left. exists (calls_of i tr), (tr_tenant i0). split; [apply of_run_mono, of_run_calls|].
      change (row_id (transition_row now i0 r0)) with (row_id r0). rewrite Hid.
      by eapply start_authorised.
    + destruct Hnew as (now & r0 & Hr0 & Hid & Hst0 & ->).
      assert (started r0) as H0. { destruct Hst as [Hst|Hst]; [cbn in Hst; lia|by right]. }
      destruct (Hau r0 Hr0 H0); [left; by apply authorised_mono|by right].
  - intros r Hr Hst. destruct (step_rows text_le _ _ _ Ha r Hr) as [Hold|Hnew].
    { destruct (Hf r Hold Hst); [left; by apply recorded_mono|by right]. }
    destruct e as [c a]; destruct c; cbn in Hnew; try done.
    + destruct Hnew as (now & id & ->). done.
    + destruct Hnew as (now & r0 & Hr0 & Hid & Hst0 & ->). destruct Hleg as [[g Hgd] _].
      by apply nextState_step in Hgd as (_ & _ & H0 & _).
    + destruct Hnew as (now & r0 & Hr0 & Hid & Hst0 & ->). left. exists (calls_of i tr), i0.
      split; [apply of_run_mono, of_run_calls|]. split; [exact Hb|]. by rewrite <- Hid.
Qed.
End Explained.

(** ** Every transaction sent *)

Lemma broadcasts_app tr1 tr2 : broadcasts (tr1 ++ tr2) = broadcasts tr1 ++ broadcasts tr2.
Proof. apply flat_map_app. Qed.

(** The signature the run recorded before it sent this. *)
Definition recorded_for {K : RingsKit} (prior : list rings_event) (b : wire) (id : string) : Prop :=
  exists tenant r signed_ signature before after,
    prior = before ++ rings_ev (TransitionState (signing_transition tenant id signature)) (Ok (Some r)) :: after
    /\ unsent after /\ custody_signed prior id signed_ signature /\ base64_encode signed_ = Ok b.

Lemma sends_distinct {K : RingsKit} pre j b a mid j' b' id :
  NoDup (winners (pre ++ (j, rings_ev (SendTransaction b) a) :: mid)) ->
  recorded_for (calls_of j pre) b id ->
  recorded_for (calls_of j' (pre ++ (j, rings_ev (SendTransaction b) a) :: mid)) b' id -> False.
Proof.
  intros Hn (tn1 & r1 & s1 & g1 & before1 & after1 & E1 & _) (tn2 & r2 & s2 & g2 & before2 & after2 & E2 & Hu & _).
  apply calls_of_split in E1 as (p1 & p2 & -> & _ & _), E2 as (q1 & q2 & E2 & _ & <-).
  rewrite <- app_assoc in E2, Hn. cbn in E2, Hn.
  destruct (same_place (fun x => won x.2) _ _ _ _ _ _ id E2 Hn) as (_ & E & <-); [by left..|].
  injection E as <- _ _. unfold unsent in Hu. rewrite calls_of_app in Hu. apply Forall_app in Hu as [_ Hu].
  cbn in Hu. rewrite decide_True in Hu by done. by inversion Hu.
Qed.

Section Broadcasts.
Context {K : RingsKit} (sha256 : list ascii -> list Z) (text_le : string -> string -> bool).

(** Each transaction sent so far belongs to an operation of its own. *)
Lemma broadcasts_recorded tr :
  NoDup (winners tr) ->
  (forall pre j e post, tr = pre ++ (j, e) :: post -> backed sha256 production_policy (calls_of j pre) e) ->
  exists ids, NoDup ids /\ Forall2 (fun b id => exists pre j a post,
    tr = pre ++ (j, rings_ev (SendTransaction b) a) :: post /\ recorded_for (calls_of j pre) b id) (broadcasts tr) ids.
Proof.
  induction tr as [|[j e] tr IH] using rev_ind; intros Hn Hb; [exists []; split; constructor|].
  destruct IH as (ids & Hids & Hall).
  { unfold winners in *. rewrite flat_map_app in Hn. by apply NoDup_app in Hn as [? _]. }
  { intros pre k x post ->. apply (Hb pre k x (post ++ [(j, e)])). by rewrite <- app_assoc. }
  assert (Forall2 (fun b id => exists pre k a post, tr ++ [(j, e)] = pre ++ (k, rings_ev (SendTransaction b) a) :: post
    /\ recorded_for (calls_of k pre) b id) (broadcasts tr) ids) as Hall'.
  { eapply Forall2_impl; [exact Hall|]. intros b id (pre & k & a & post & -> & H).
    exists pre, k, a, (post ++ [(j, e)]). by rewrite <- app_assoc. }
  rewrite broadcasts_app. destruct (ev_call e) eqn:Ec; unfold broadcasts at 2; cbn [flat_map snd]; rewrite Ec;
    try (rewrite app_nil_r; by exists ids).
  destruct e as [c a]. cbn in Ec. subst c.
  destruct (Hb tr j _ [] eq_refl) as (tn & id & r & sg & sig & before & after & E & Hu & Hc & Hbytes).
  assert (recorded_for (calls_of j tr) bytes id) as Hrec by (exists tn, r, sg, sig, before, after; done).
  exists (ids ++ [id]). split.
  - apply NoDup_app. split; [done|]. split; [|apply NoDup_singleton].
    intros x Hx ->%list_elem_of_singleton.
    apply list_elem_of_lookup in Hx as [n Hx]. eapply Forall2_lookup_r in Hall as (b & _ & H); [|exact Hx].
    destruct H as (pre & k & a0 & post & -> & H). eapply sends_distinct; [|exact H|exact Hrec].
    unfold winners in *. rewrite flat_map_app in Hn. by apply NoDup_app in Hn as [? _].
  - apply Forall2_app; [done|]. constructor; [|constructor]. by exists tr, j, a, [].
Qed.

Lemma recorded_sent s0 tr s pre j b a post id :
  explained sha256 s0 tr s -> tr = pre ++ (j, rings_ev (SendTransaction b) a) :: post ->
  recorded_for (calls_of j pre) b id -> sent_for sha256 s0 tr s b id.
Proof.
  intros [_ _ Hg _ Hau _] -> (tn & r & sg & sig & before & after & E & _ & Hc & Hb).
  assert ((j, rings_ev (TransitionState (signing_transition tn id sig)) (Ok (Some r))) ∈ pre) as Hin.
  { apply calls_of_elem. rewrite E. apply elem_of_app. right. by left. }
  destruct (Hg j _ (proj2 (elem_of_app _ _ _) (or_introl Hin)) r eq_refl) as (Hid & Hst & (r' & Hr' & L) & Hsig).
  assert (row_id r' = id) as Hid'. { unfold row_id in *. rewrite (later_op_facts _ _ L). exact Hid. }
  assert (outer_tx_signature r' = Some sig) as Hsig'. { by apply (later_signature _ _ L), Hsig. }
  exists (calls_of j pre), r', sg, sig. split.
  { exists j. intros e He. apply elem_of_app. left. by apply calls_of_elem. }
  do 5 (split; [done|]). rewrite <- Hid'. apply Hau; [done|]. right. by eexists.
Qed.
End Broadcasts.

(** ** Every request is safe *)

Section Guarantees.
Context {K : RingsKit} (sha256 : list ascii -> list Z) (text_le : string -> string -> bool) (env : RingsEnv).

Lemma serve_safe r : guarded (backed sha256 production_policy) [] (serve sha256 env r).
Proof.
  destruct r; cbn [serve];
    try (apply guarded_any; [apply guarded_of_result|intros tr []];
         apply guarded_any; [|intros; apply guarded_ret]).
  - by apply prepare_safe.
  - apply execute_safe.
  - apply retry_safe.
  - apply reading_safe.
  - apply probe_safe.
  - apply provision_safe.
  - apply poll_safe.
Qed.

Variable requests : list rings_request.

(** Some interleaving of the calls of the requests, answered as the tables allow, that
    brings the tables from one state to another. *)
Definition rings_history (s0 : RingsTables) (tr : rings_log) (s : RingsTables) : Prop :=
  exists ps, pool_run (rings_answers text_le) s0 (serve sha256 env <$> requests) tr s ps.

Lemma serve_all_safe : Forall (guarded (backed sha256 production_policy) []) (serve sha256 env <$> requests).
Proof. apply Forall_fmap, Forall_forall. intros r _. apply serve_safe. Qed.

Lemma history_explained s0 tr s :
  rings_sound s0 -> rings_history s0 tr s -> explained sha256 s0 tr s.
Proof.
  intros Hs [ps Hrun]. eapply (pool_invariant _ _ (explained sha256 s0)); [apply serve_all_safe|by apply explained_start| |exact Hrun].
  intros. by eapply explained_step.
Qed.

(** C16. Whatever requests and polls run at once, and however their calls interleave, fail
    or lose their answers, the ledger stays sound (the database's checks, a policy
    evaluation from proving on, a signature exactly from submission on, an index time
    exactly when completed, unique ids and intent keys), and no operation goes back,
    leaves a terminal state, loses a signature or changes what it was reserved with. *)
Theorem rings_ledger_kept s0 tr s :
  rings_sound s0 -> rings_history s0 tr s ->
  rings_sound s /\ later_rings s0 s.
Proof. intros Hs Hrun. by destruct (history_explained _ _ _ Hs Hrun). Qed.

(** C4. Every transaction that any run sends belongs to an operation of its own, so no
    operation's transaction is sent twice: custody signed those bytes for the operation,
    whose row has their signature, and the operation was started by the policy allowing
    it without an approval, or by a reviewer's approval, unless it was under way at the
    start. *)
Theorem rings_broadcast_once s0 tr s :
  rings_sound s0 -> rings_history s0 tr s ->
  exists ids, NoDup ids /\ Forall2 (sent_for sha256 s0 tr s) (broadcasts tr) ids.
Proof.
  intros Hs Hrun. pose proof (history_explained _ _ _ Hs Hrun) as He. destruct Hrun as [ps Hrun].
  destruct (broadcasts_recorded sha256 tr) as (ids & Hids & Hall).
  { by destruct He. }
  { intros pre j e post E. by eapply (pool_guarded (rings_answers text_le)); [apply serve_all_safe|exact Hrun|]. }
  exists ids. split; [done|]. eapply Forall2_impl; [exact Hall|].
  intros b id (pre & j & a & post & E & H). by eapply recorded_sent.
Qed.

End Guarantees.

(** ** A history with two requests *)

(** The first request's transaction is sent and the record of it is lost, so the
    operation fails as retryable and its retry sends another. *)
Example retry_after_broadcast_sends_again :
  (fun r => (row_id r, op_state r, failure_code r, retryable r, outer_tx_signature r, ro_retry_of (op_facts r)))
    <$> operations demo_end
  = [("nnnnnnn", op_failed, Some gateway_unavailable, Some true, Some "nnnnnnn", None);
     (demo_retry, op_indexing, None, None, Some demo_retry, Some "nnnnnnn")]
  /\ length (broadcasts demo_log) = 2%nat.
Proof. split; vm_compute; reflexivity. Qed.

Lemma demo_tables_sound : rings_sound demo_tables.
Proof. constructor; [constructor..|]. intros pre r post x E. by destruct pre. Qed.

Lemma rings_ledger_kept_witness : rings_sound demo_end /\ later_rings demo_tables demo_end.
Proof.
  exact (rings_ledger_kept demo_sha256 text_leb demo_env demo_requests _ _ _ demo_tables_sound demo_history).
Defined.

Lemma rings_broadcast_once_witness :
  exists ids, length ids = 2%nat /\ NoDup ids
    /\ Forall2 (sent_for demo_sha256 demo_tables demo_log demo_end) (broadcasts demo_log) ids.
Proof.
  destruct (rings_broadcast_once demo_sha256 text_leb demo_env demo_requests _ _ _ demo_tables_sound demo_history)
    as (ids & Hn & Hall).
  exists ids. split; [|by split]. apply Forall2_length in Hall. rewrite <- Hall. vm_compute. reflexivity.
Defined.

