(* ===== verification/RingsRetries.v ===== *)
(** * Helius Rings: how long a chain of retries grows

    A retry is reserved after a walk of its ancestors, one read at a time, while other
    requests reserve retries of their own ([assertRetryDepth] of RingsService.v). Here
    the walk's reads are followed through the tables of RingsLedger.v: the chain of
    every operation, in any history, stays within [RINGS_MAX_RETRY_DEPTH]. *)
From Stdlib Require Import Ascii String ZArith Lia.
From stdpp Require Import base list strings sets.
From S2P Require Import Prelude Text Rows PolicyTypes PolicyEvaluate PolicyService Pool RingsTypes.
From S2P Require Import RingsRedaction RingsLedger RingsService RingsPoll RingsInvariant.
From S2P Require Import RingsSafety RingsPolicy RingsScenario RingsGuarantees.

Local Open Scope string_scope.
Local Open Scope Z_scope.
Local Open Scope list_scope.
Local Open Scope sdp_scope.

(** The ancestors of an operation in its tenant: [n] of them, from the one it retries to
    one that retries nothing. *)
Inductive lineage (t : RingsTables) (tenant : HeliusRingsTenant) : option string -> Z -> Prop :=
| lineage_none o : truthy o = false -> lineage t tenant o 0
| lineage_of x r n :
    r ∈ operations t -> row_id r = x -> ro_tenant (op_facts r) = tenant ->
    lineage t tenant (ro_retry_of (op_facts r)) n -> lineage t tenant (Some x) (n + 1).

(** Every chain ends, and an operation and its ancestors are at most five. *)
Definition chains_bounded (t : RingsTables) : Prop :=
  forall r, r ∈ operations t -> exists n,
    lineage t (ro_tenant (op_facts r)) (ro_retry_of (op_facts r)) n /\ n + 1 <= RINGS_MAX_RETRY_DEPTH.

(** A read, by one of the runs, of an operation that retries [o]. *)
Definition read_child (tr : rings_log) (tenant : HeliusRingsTenant) (o : option string) : Prop :=
  exists j asked r, (j, rings_ev (GetOperationById tenant asked) (Ok (Some r))) ∈ tr
    /\ ro_retry_of (op_facts r) = o.

(** No ancestor of an operation that was read has been missed. *)
Definition none_missed (tr : rings_log) : Prop :=
  forall pre j tenant x post,
    tr = pre ++ (j, rings_ev (GetOperationById tenant x) (Ok None)) :: post -> truthy (Some x) = true ->
    ~ read_child pre tenant (Some x).

(** * Lemmas *)

Lemma lineage_later t t' tenant o n : later_rings t t' -> lineage t tenant o n -> lineage t' tenant o n.
Proof.
  intros L H. induction H as [o Ho|x r n Hr Hid Htn _ IH]; [by apply lineage_none|].
  destruct (L r Hr) as (r' & Hr' & Lr). pose proof (later_op_facts _ _ Lr) as Ef.
  eapply lineage_of; [exact Hr'|unfold row_id in *; congruence|congruence|]. by rewrite Ef.
Qed.

Lemma read_child_app tr tr' tenant o : read_child tr tenant o -> read_child (tr ++ tr') tenant o.
Proof. intros (j & a & r & H & E). exists j, a, r. split; [apply elem_of_app; by left|done]. Qed.

Section Bounded.
Context {K : RingsKit} (sha256 : list ascii -> list Z) (text_le : string -> string -> bool).

Abbreviation backed := (RingsSafety.backed sha256 production_policy).
Abbreviation explained := (RingsGuarantees.explained sha256).

(** A read that finds nothing is of a table without the row. *)
Lemma step_missing t tenant x t' :
  rings_answers text_le t (rings_ev (GetOperationById tenant x) (Ok None)) t' ->
  getOperationById tenant x t = None.
Proof.
  intros H. remember (rings_ev (GetOperationById tenant x) (Ok None)) as e eqn:Ee.
  set (missed e := match ev_call e as c return result (rings_answer c) -> option (HeliusRingsTenant * string) with
                   | GetOperationById tn y => fun a => match a with Ok None => Some (tn, y) | _ => None end
                   | _ => fun _ => None end (ev_resp e)).
  assert (missed e = Some (tenant, x)) as Hm by (by rewrite Ee).
  clear Ee. destruct H as [c a Hn|c now id a t2 Hf Hp|c now id a t2 err Hf Hp|c err]; destruct c; try done.
  - by specialize (Hn "" "").
  - injection Hp as <- <-. cbn in Hm. destruct (getOperationById _ _ t) eqn:E; [done|]. by injection Hm as <- <-.
Qed.

(** What a run read of a chain is the chain the tables have. *)
Lemma lineage_found t tr tenant j reads o n :
  (forall k e, (k, e) ∈ tr -> as_given t e) -> none_missed tr -> lineage_read tenant reads o n ->
  forall pre post, tr = pre ++ post -> calls_of j post = reads -> read_child pre tenant o -> lineage t tenant o n.
Proof.
  intros Hg Hm H. induction H as [reads o Ho|before after x Hx|before after x r n Hx _ IH];
    intros pre post E Ec Hc.
  - by apply lineage_none.
  - apply calls_of_split in Ec as (p1 & p2 & -> & _ & _). rewrite app_assoc in E.
    destruct (Hm _ _ _ _ _ E Hx). by apply read_child_app.
  - apply calls_of_split in Ec as (p1 & p2 & -> & _ & Ec).
    assert ((j, rings_ev (GetOperationById tenant x) (Ok (Some r))) ∈ tr) as Hin.
    { rewrite E. apply elem_of_app. right. apply elem_of_app. right. by left. }
    destruct (Hg _ _ Hin r eq_refl) as (Hid & Htn & r' & Hr' & L). pose proof (later_op_facts _ _ L) as Ef.
    eapply lineage_of; [exact Hr'|unfold row_id in *; congruence|congruence|]. rewrite Ef.
    eapply (IH (pre ++ p1 ++ [(j, rings_ev (GetOperationById tenant x) (Ok (Some r)))]) p2);
      [rewrite E; by list_simplifier|done|].
    exists j, x, r. split; [|done]. apply elem_of_app. right. apply elem_of_app. right. by left.
Qed.

Definition retries_kept (s0 : RingsTables) (tr : rings_log) (s : RingsTables) : Prop :=
  explained s0 tr s /\ chains_bounded s /\ none_missed tr.

Lemma missed_step s0 tr s i e s' :
  retries_kept s0 tr s -> rings_answers text_le s e s' -> none_missed (tr ++ [(i, e)]).
Proof.
  intros (He & Hc & Hm) Ha pre j tenant x post E Hx. destruct post as [|y post _] using rev_ind.
  2: { rewrite app_comm_cons, app_assoc in E. apply app_inj_tail in E as [E _]. by eapply Hm. }
  apply app_inj_tail in E as [<- E]. injection E as <- ->.
  intros (k & asked & r & Hin & Hof). apply step_missing in Ha.
  destruct (ex_given _ _ _ _ He _ _ Hin r eq_refl) as (_ & Htn & r' & Hr' & L). pose proof (later_op_facts _ _ L) as Ef.
  destruct (Hc r' Hr') as (n & Hl & _). rewrite Ef, Hof, Htn in Hl.
  inversion Hl as [o Ho|y p m Hp Hpid Hptn _]; [by rewrite Ho in Hx|]. subst y.
  pose proof (List.find_none _ _ Ha p (proj1 (list_elem_of_In _ _) Hp)) as Hf.
  unfold in_tenant in Hf. rewrite Hpid, String.eqb_refl, bool_decide_true in Hf by done. done.
Qed.

(** The row a reservation adds is within the bound. *)
Lemma reserved_bounded s0 tr s i now id input :
  retries_kept s0 tr s -> retry_backed (calls_of i tr) input ->
  exists n, lineage s (rv_tenant input) (rv_retryOfOperationId input) n /\ n + 1 <= RINGS_MAX_RETRY_DEPTH
    /\ ro_retry_of (op_facts (reserved_row now id input)) = rv_retryOfOperationId input.
Proof.
  intros (He & Hc & Hm) Hb. unfold retry_backed in Hb. cbn [reserved_row op_facts ro_retry_of].
  destruct (rv_retryOfOperationId input) as [x|].
  2: { exists 0. split; [by apply lineage_none|by split]. }
  destruct Hb as (asked & r & n & before & after & E & Hid & _ & _ & Hl & Hn).
  apply calls_of_split in E as (p1 & p2 & -> & _ & Ec).
  set (read := (i, rings_ev (GetOperationById (rv_tenant input) asked) (Ok (Some r)))) in *.
  assert (read ∈ p1 ++ read :: p2) as Hin by (apply elem_of_app; right; by left).
  destruct (ex_given _ _ _ _ He _ _ Hin r eq_refl) as (_ & Htn & r' & Hr' & L). pose proof (later_op_facts _ _ L) as Ef.
  exists (n + 1). split; [|split; [lia|done]].
  eapply lineage_of; [exact Hr'|unfold row_id in *; congruence|congruence|]. rewrite Ef.
  eapply lineage_found; [exact (ex_given _ _ _ _ He)|exact Hm|exact Hl| |exact Ec|].
  - by rewrite cons_middle, app_assoc.
  - exists i, asked, r. split; [|done]. apply elem_of_app. right. by left.
Qed.

Lemma retries_step s0 tr s i e s' :
  retries_kept s0 tr s -> backed (calls_of i tr) e -> rings_answers text_le s e s' ->
  retries_kept s0 (tr ++ [(i, e)]) s'.
Proof.
  intros Hk Hb Ha. pose proof Hk as (He & Hc & Hm).
  assert (explained s0 (tr ++ [(i, e)]) s') as He' by (by eapply explained_step).
  split; [done|]. split; [|by eapply missed_step].
  assert (legal_call (ev_call e)) as Hleg.
  { apply (backed_legal sha256 text_le s (calls_of i tr) e); [|exact Hb].
    intros x Hx. eapply (ex_given _ _ _ _ He). by apply calls_of_elem. }
  destruct (rings_step_kept text_le _ _ _ (ex_sound _ _ _ _ He) Hleg Ha) as [_ L].
  assert (forall r, r ∈ operations s -> exists n,
    lineage s' (ro_tenant (op_facts r)) (ro_retry_of (op_facts r)) n /\ n + 1 <= RINGS_MAX_RETRY_DEPTH) as Hold.
  { intros r Hr. destruct (Hc r Hr) as (n & Hl & Hn). exists n. split; [by eapply lineage_later|done]. }
  intros r Hr. destruct (step_rows text_le _ _ _ Ha r Hr) as [Hin|Hnew]; [auto|].
  destruct e as [c a]; destruct c; cbn in Hnew; try done.
  - destruct Hnew as (now & id & ->).
    destruct (reserved_bounded s0 tr s i now id i0 Hk Hb) as (n & Hl & Hn & E).
    exists n. split; [|done]. rewrite E. by eapply lineage_later.
  - destruct Hnew as (now & r0 & Hr0 & _ & _ & ->). exact (Hold r0 Hr0).
  - destruct Hnew as (now & r0 & Hr0 & _ & _ & ->). exact (Hold r0 Hr0).
Qed.
End Bounded.

Section Guarantee.
Context {K : RingsKit} (sha256 : list ascii -> list Z) (text_le : string -> string -> bool) (env : RingsEnv).
Variable requests : list rings_request.

(** C26. However many requests retry the same operations at once, every operation's chain
    of retries, followed through the tables in the operation's own tenant, ends, and the
    operation and its ancestors are at most [RINGS_MAX_RETRY_DEPTH], when this holds at
    the start: what the walk reads while others write is the chain the tables have. *)
Theorem rings_retries_bounded s0 tr s r :
  rings_sound s0 -> chains_bounded s0 ->
  rings_history sha256 text_le env requests s0 tr s -> r ∈ operations s ->
  exists n, lineage s (ro_tenant (op_facts r)) (ro_retry_of (op_facts r)) n /\ 0 <= n < RINGS_MAX_RETRY_DEPTH.
Proof.
  intros Hs Hc [ps Hrun] Hr.
  assert (retries_kept sha256 s0 tr s) as (_ & Hb & _).
  { eapply (pool_invariant _ _ (retries_kept sha256 s0)); [apply serve_all_safe| |
      intros; by eapply retries_step|exact Hrun].
    split; [by apply explained_start|]. split; [done|]. intros pre j tenant x post E. by destruct pre. }
  destruct (Hb r Hr) as (n & Hl & Hn). exists n. split; [done|]. split; [|lia].
  clear - Hl. induction Hl; lia.
Qed.
End Guarantee.

(** The retry of the scenario has one ancestor. *)
Lemma rings_retries_bounded_witness :
  exists r n, r ∈ operations demo_end /\ row_id r = demo_retry
    /\ lineage demo_end (ro_tenant (op_facts r)) (ro_retry_of (op_facts r)) n /\ 0 <= n < RINGS_MAX_RETRY_DEPTH.
Proof.
  assert (exists r, r ∈ operations demo_end /\ row_id r = demo_retry) as (r & Hin & Hid).
  { eexists. split; [apply (list_elem_of_lookup_2 _ 1%nat); vm_compute; reflexivity|vm_compute; reflexivity]. }
  assert (chains_bounded demo_tables) as Hc by (intros x Hx; by apply elem_of_nil in Hx).
  destruct (rings_retries_bounded demo_sha256 text_leb demo_env demo_requests _ _ _ r demo_tables_sound Hc demo_history Hin)
    as (n & Hn). exists r, n. by split.
Defined.
