(* ===== verification/History.v ===== *)
(** * Programs after a history

    A triple over the calls made so far: from a history, every call a program makes is
    allowed by the calls before it, and what it returns or throws is told of the history
    then. [guarded] of Prelude.v is what a triple from the empty history gives. *)
From Stdlib Require Import Ascii String ZArith Lia.
From stdpp Require Import base list strings.
From S2P Require Import Prelude Pool.

Local Open Scope list_scope.
Local Open Scope sdp_scope.

Section History.
Context {C : Type} {R : C -> Type}.

(** What each call may rest on. *)
Context (P : list (event R) -> event R -> Prop).

Abbreviation history := (list (event R)).

Fixpoint triple {A} (h : history) (m : prog R A) (Q : history -> result A -> Prop) : Prop :=
  match m with
  | Ret a => Q h (Ok a)
  | Throw e => Q h (Err e)
  | Call c k => forall r, P h (Ev c r) /\ triple (h ++ [Ev c r]) (k r) Q
  end.

(** Every call of a kind is allowed whatever came before. *)
Definition free (N : C -> Prop) : Prop := forall h e, N (ev_call e) -> P h e.

(** * Lemmas *)

Lemma triple_mono {A} h (m : prog R A) (Q1 Q2 : history -> result A -> Prop) :
  (forall h' r, Q1 h' r -> Q2 h' r) -> triple h m Q1 -> triple h m Q2.
Proof.
  intros H. revert h. induction m as [a|e|c k IH]; intros h; cbn; auto.
  intros Hk r. destruct (Hk r). split; [done|]. by apply IH.
Qed.

(** What holds of every run is known at its end. *)
Lemma triple_and {A} h (m : prog R A) (Q1 Q2 : history -> result A -> Prop) :
  triple h m Q1 -> all_runs m (fun tr r => Q2 (h ++ tr) r) -> triple h m (fun h' r => Q1 h' r /\ Q2 h' r).
Proof.
  revert h. induction m as [a|e|c k IH]; intros h; cbn; rewrite ?app_nil_r; auto.
  intros Hk Hq r. destruct (Hk r) as [Hp Ht]. split; [done|]. apply IH; [done|].
  eapply all_runs_mono; [|exact (Hq r)]. intros tr res. by rewrite <- app_assoc.
Qed.

Lemma triple_within {A} N h (m : prog R A) Q :
  free N -> calls_within N m ->
  all_runs m (fun tr r => Forall (fun e => N (ev_call e)) tr -> Q (h ++ tr) r) -> triple h m Q.
Proof.
  intros Hf. revert h. induction m as [a|e|c k IH]; intros h; cbn.
  - intros _ H. rewrite app_nil_r in H. by apply H.
  - intros _ H. rewrite app_nil_r in H. by apply H.
  - intros Hn Hq r. assert (N c /\ calls_within N (k r)) as [Hc Hk].
    { split.
      - destruct (some_run (k r) _ (Hn r)) as (tr & res & Ht). by inversion Ht.
      - eapply all_runs_mono; [|exact (Hn r)]. intros tr res Ht. by inversion Ht. }
    split; [by apply Hf|]. apply IH; [done|].
    eapply all_runs_mono; [|exact (Hq r)]. intros tr res H Ht. rewrite <- app_assoc. apply H. by constructor.
Qed.

Lemma triple_ret {A} h (a : A) (Q : history -> result A -> Prop) : Q h (Ok a) -> triple h (Ret a) Q.
Proof. done. Qed.

Lemma triple_throw {A} h e (Q : history -> result A -> Prop) : Q h (Err e) -> triple h (Throw e) Q.
Proof. done. Qed.

Lemma triple_of_result {A} h (r : result A) (Q : history -> result A -> Prop) : Q h r -> triple h (of_result r) Q.
Proof. by destruct r. Qed.

Lemma triple_call h c (Q : history -> result (R c) -> Prop) :
  (forall r, P h (Ev c r)) -> (forall r, Q (h ++ [Ev c r]) r) -> triple h (call c) Q.
Proof. intros Hp Hq r. split; [done|]. destruct r; apply Hq. Qed.

Lemma triple_bind {A B} h (m : prog R A) (f : A -> prog R B) Q1 Q2 :
  triple h m Q1 -> (forall h' a, Q1 h' (Ok a) -> triple h' (f a) Q2) -> (forall h' e, Q1 h' (Err e) -> Q2 h' (Err e)) ->
  triple h (bind m f) Q2.
Proof.
  intros H Hf He. revert h H. induction m as [a|e|c k IH]; intros h H; cbn in *; auto.
  intros r. destruct (H r). split; [done|]. by apply IH.
Qed.

Lemma triple_bind_inv {A B} h (m : prog R A) (f : A -> prog R B) Q :
  triple h (bind m f) Q ->
  triple h m (fun h' r => match r with Ok a => triple h' (f a) Q | Err e => Q h' (Err e) end).
Proof.
  revert h. induction m as [a|e|c k IH]; intros h H; cbn in *; [done..|].
  intros r. destruct (H r). split; [done|]. by apply IH.
Qed.

Lemma triple_catch {A} h (m : prog R A) g Q1 Q2 :
  triple h m Q1 -> (forall h' a, Q1 h' (Ok a) -> Q2 h' (Ok a)) -> (forall h' e, Q1 h' (Err e) -> triple h' (g e) Q2) ->
  triple h (catch m g) Q2.
Proof.
  intros H Hf He. revert h H. induction m as [a|e|c k IH]; intros h H; cbn in *; auto.
  intros r. destruct (H r). split; [done|]. by apply IH.
Qed.

Lemma triple_bind_call {A} h c (f : R c -> prog R A) Q :
  (forall r, P h (Ev c r)) -> (forall a, triple (h ++ [Ev c (Ok a)]) (f a) Q) ->
  (forall e, Q (h ++ [Ev c (Err e)]) (Err e)) -> triple h (bind (call c) f) Q.
Proof. intros Hp Ha He r. split; [done|]. destruct r; [apply Ha|apply He]. Qed.

Lemma triple_bind_result {A B} h (r : result A) (f : A -> prog R B) Q :
  (forall a, r = Ok a -> triple h (f a) Q) -> (forall e, r = Err e -> Q h (Err e)) -> triple h (bind (of_result r) f) Q.
Proof. destruct r; cbn; auto. Qed.

(** A triple from the empty history guards the calls. *)
Lemma triple_all_runs {A} h (m : prog R A) Q :
  triple h m Q -> all_runs m (fun tr r => (forall pre e post, tr = pre ++ e :: post -> P (h ++ pre) e) /\ Q (h ++ tr) r).
Proof.
  revert h. induction m as [a|e|c k IH]; intros h H; cbn in *.
  - rewrite app_nil_r. split; [|done]. intros pre e post E. by destruct pre.
  - rewrite app_nil_r. split; [|done]. intros pre e' post E. by destruct pre.
  - intros r. destruct (H r) as [Hp Ht]. eapply all_runs_mono; [|exact (IH r _ Ht)].
    cbn. intros tr res [Hg Hq]. rewrite <- app_assoc in Hq. split; [|done].
    intros [|x pre] e post E; cbn in E; [injection E as <- <-; by rewrite app_nil_r|].
    injection E as <- ->. specialize (Hg pre e post eq_refl). by rewrite <- app_assoc in Hg.
Qed.

Lemma triple_guarded {A} h (m : prog R A) Q : triple h m Q -> guarded P h m.
Proof. intros H. eapply all_runs_mono; [|exact (triple_all_runs _ _ _ H)]. intros tr r [Hg _]. exact Hg. Qed.

(** *** Programs that only go on from a history *)

Definition follows {A} (h : history) (m : prog R A) : Prop := triple h m (fun h' _ => h `prefix_of` h').

Lemma follows_ret {A} h (a : A) : follows h (Ret a).
Proof. by apply triple_ret. Qed.

Lemma follows_result {A} h (r : result A) : follows h (of_result r).
Proof. by apply triple_of_result. Qed.

Lemma follows_throw {A} h e : follows h (Throw (A := A) e).
Proof. by apply triple_throw. Qed.

Lemma follows_from {A} h h' (m : prog R A) :
  h `prefix_of` h' -> follows h' m -> triple h' m (fun h2 _ => h `prefix_of` h2).
Proof. intros Hp. apply triple_mono. intros h2 _ H. by etrans. Qed.

Lemma follows_bind {A B} h (m : prog R A) (f : A -> prog R B) :
  follows h m -> (forall h' a, h `prefix_of` h' -> follows h' (f a)) -> follows h (bind m f).
Proof. intros Hm Hf. eapply triple_bind; [exact Hm| |done]. intros h' a Hp. apply follows_from; auto. Qed.

Lemma follows_catch {A} h (m : prog R A) g :
  follows h m -> (forall h' e, h `prefix_of` h' -> follows h' (g e)) -> follows h (catch m g).
Proof. intros Hm Hg. eapply triple_catch; [exact Hm|done|]. intros h' e Hp. apply follows_from; auto. Qed.

Lemma follows_call h c : (forall r, P h (Ev c r)) -> follows h (call c).
Proof. intros H. by apply triple_call; [|intros r; apply prefix_app_r]. Qed.

Lemma follows_ask {A} h c (f : R c -> prog R A) :
  (forall r, P h (Ev c r)) -> (forall a, follows (h ++ [Ev c (Ok a)]) (f a)) -> follows h (bind (call c) f).
Proof.
  intros Hc Hf. apply triple_bind_call; [exact Hc| |intros e; by apply prefix_app_r].
  intros a. apply follows_from; [by apply prefix_app_r|apply Hf].
Qed.

Lemma follows_within {A} N h (m : prog R A) : free N -> calls_within N m -> follows h m.
Proof.
  intros Hf Hm. apply (triple_within N); [done|done|]. eapply all_runs_mono; [|apply all_runs_true].
  intros tr r _ _. by apply prefix_app_r.
Qed.

(** *** Programs that go on from a history to what they return *)

Definition leads {A} (h : history) (m : prog R A) (F : A -> history -> Prop) : Prop :=
  triple h m (fun h' r => h `prefix_of` h' /\ forall a, r = Ok a -> F a h').

Lemma leads_ret {A} h (a : A) (F : A -> history -> Prop) : F a h -> leads h (Ret a) F.
Proof. intros H. split; [done|]. by intros a' [= <-]. Qed.

Lemma leads_throw {A} h e (F : A -> history -> Prop) : leads h (Throw e) F.
Proof. by split. Qed.

Lemma leads_result {A} h (r : result A) (F : A -> history -> Prop) :
  (forall a, r = Ok a -> F a h) -> leads h (of_result r) F.
Proof. destruct r; intros H; by split. Qed.

Lemma leads_call h c : (forall r, P h (Ev c r)) -> leads h (call c) (fun a h' => Ev c (Ok a) ∈ h').
Proof.
  intros H. apply triple_call; [done|]. intros r. split; [by apply prefix_app_r|]. intros a ->.
  apply elem_of_app. right. by left.
Qed.

Lemma leads_bind {A B} h (m : prog R A) (f : A -> prog R B) F1 (F2 : B -> history -> Prop) :
  leads h m F1 -> (forall h' a, h `prefix_of` h' -> F1 a h' -> leads h' (f a) F2) -> leads h (bind m f) F2.
Proof.
  intros Hm Hf. eapply triple_bind; [exact Hm| |intros h' e [Hp _]; by split]. intros h' a [Hp Ha].
  eapply triple_mono; [|exact (Hf h' a Hp (Ha a eq_refl))]. intros h2 r [Hp2 Hr]. split; [by etrans|done].
Qed.

Lemma leads_bind_result {A B} h (r : result A) (f : A -> prog R B) (F : B -> history -> Prop) :
  (forall a, r = Ok a -> leads h (f a) F) -> leads h (bind (of_result r) f) F.
Proof. intros H. apply triple_bind_result; [exact H|by split]. Qed.

Lemma leads_catch {A} h (m : prog R A) g (F1 F2 : A -> history -> Prop) :
  leads h m F1 -> (forall h' a, h `prefix_of` h' -> F1 a h' -> F2 a h') ->
  (forall h' e, h `prefix_of` h' -> leads h' (g e) F2) -> leads h (catch m g) F2.
Proof.
  intros Hm Hf Hg. eapply triple_catch; [exact Hm| |].
  - intros h' a [Hp Ha]. split; [done|]. intros a' [= <-]. by apply Hf, Ha.
  - intros h' e [Hp _]. eapply triple_mono; [|exact (Hg h' e Hp)]. intros h2 r [Hp2 Hr]. split; [by etrans|done].
Qed.

Lemma leads_mono {A} h (m : prog R A) (F1 F2 : A -> history -> Prop) :
  (forall h' a, h `prefix_of` h' -> F1 a h' -> F2 a h') -> leads h m F1 -> leads h m F2.
Proof. intros H. apply triple_mono. intros h' r [Hp Hr]. split; [done|]. intros a E. by apply H, Hr. Qed.

Lemma leads_within {A} N h (m : prog R A) : free N -> calls_within N m -> leads h m (fun _ _ => True).
Proof. intros Hf Hm. eapply triple_mono; [|by apply (follows_within N)]. by intros h' r H. Qed.

Lemma triple_for_each {A} (I : history -> Prop) h (f : A -> prog R unit) xs (Q : history -> result unit -> Prop) :
  I h -> (forall h' x, x ∈ xs -> I h' -> triple h' (f x) (fun h'' r => match r with Ok _ => I h'' | Err e => Q h'' (Err e) end)) ->
  (forall h', I h' -> Q h' (Ok tt)) -> triple h (for_each f xs) Q.
Proof.
  revert h. induction xs as [|x xs IH]; intros h Hi Hf Hq; cbn; [by apply Hq|].
  eapply triple_bind; [apply Hf; [by left|done]| |auto].
  intros h' [] Hi'. apply IH; [done| |done]. intros h'' y Hy. apply Hf. by right.
Qed.
End History.
