(* ===== verification/WellKnownTokens.v ===== *)
(** * Well-known tokens

    [packages/sdp-types/src/well-known-tokens.ts]: the catalogue of tokens, the lookups
    by symbol and by mint, and the stored forms of a token a filter has to match. *)
From Stdlib Require Import Ascii String ZArith Lia.
From stdpp Require Import base list strings.
From S2P Require Import Prelude Text PolicyTypes.

Local Open Scope string_scope.
Local Open Scope Z_scope.
Local Open Scope list_scope.
Local Open Scope sdp_scope.

Inductive TokenProgramKind := spl_token | token_2022.
Inductive WellKnownTokenCategory := native | stablecoin | staked_sol | wrapped.

Definition SPL_TOKEN_PROGRAMS (k : TokenProgramKind) : string :=
  match k with
  | spl_token => "TokenkegQfeZyiNwAJbNbGKPFXCWuBvf9Ss623VQ5DA"
  | token_2022 => "TokenzQdBNbLqP5VEhdkAS6EPFLC1PHnBqCXEpPxuEb"
  end.

Record WellKnownTokenMint := mkMint { mint_address : string; mint_decimals : Z }.

Record WellKnownToken := mkToken {
  wk_symbol : string;
  wk_name : string;
  wk_isUsdStable : bool;
  wk_tokenProgram : TokenProgramKind;
  wk_category : WellKnownTokenCategory;
  wk_devnet : option WellKnownTokenMint;
  wk_mainnet : WellKnownTokenMint;
}.

Definition SOL_MINT : string := "So11111111111111111111111111111111111111112".

Definition WELL_KNOWN_TOKENS : list (string * WellKnownToken) :=
  [
    ("SOL", mkToken "SOL" "Solana" false spl_token native (Some (mkMint SOL_MINT 9))
       (mkMint SOL_MINT 9));
    ("USDC", mkToken "USDC" "USD Coin" true spl_token stablecoin (Some (mkMint "4zMMC9srt5Ri5X14GAgXhaHii3GnPAEERYPJgZJDncDU" 6))
       (mkMint "EPjFWdd5AufqSSqeM2qN1xzybapC8G4wEGGkZwyTDt1v" 6));
    ("USDT", mkToken "USDT" "Tether USD" true spl_token stablecoin None
       (mkMint "Es9vMFrzaCERmJfrF4H2FYD4KCoNkY11McCe8BenwNYB" 6));
    ("USDG", mkToken "USDG" "Global Dollar" true token_2022 stablecoin (Some (mkMint "4F6PM96JJxngmHnZLBh9n58RH4aTVNWvDs2nuwrT5BP7" 6))
       (mkMint "2u1tszSeqZ3qBWF3uNGPFc8TzMk2tdiwknnRMWGWjGWH" 6));
    ("PYUSD", mkToken "PYUSD" "PayPal USD" true token_2022 stablecoin (Some (mkMint "CXk2AMBfi3TwaEL2468s6zP8xq9NxTXjp9gjMgzeUynM" 6))
       (mkMint "2b1kV6DkPAnxd5ixfnxCpjxmKwqjjaYmCZfHsFu24GXo" 6));
    ("USDS", mkToken "USDS" "USDS" true spl_token stablecoin None
       (mkMint "USDSwr9ApdHk5bvJKMjzff41FfuX8bSxdKcR81vTwcA" 6));
    ("USDY", mkToken "USDY" "Ondo US Dollar Yield" false spl_token stablecoin None
       (mkMint "A1KLoBrKBde8Ty9qtNQUtq3C2ortoC3u7twggz7sEto6" 6));
    ("EURC", mkToken "EURC" "Euro Coin" false spl_token stablecoin (Some (mkMint "HzwqbKZw8HxMN6bF2yFZNrht3c2iXXzpKcFu7uBEDKtr" 6))
       (mkMint "HzwqbKZw8HxMN6bF2yFZNrht3c2iXXzpKcFu7uBEDKtr" 6));
    ("JITOSOL", mkToken "JitoSOL" "Jito Staked SOL" false spl_token staked_sol (Some (mkMint "J1toso1uCk3RLmjorhTtrVwY9HJ7X8V9yYac6Y7kGCPn" 9))
       (mkMint "J1toso1uCk3RLmjorhTtrVwY9HJ7X8V9yYac6Y7kGCPn" 9));
    ("MSOL", mkToken "mSOL" "Marinade Staked SOL" false spl_token staked_sol (Some (mkMint "mSoLzYCxHdYgdzU16g5QSh3i5K3z3KZK7ytfqcJm7So" 9))
       (mkMint "mSoLzYCxHdYgdzU16g5QSh3i5K3z3KZK7ytfqcJm7So" 9));
    ("BSOL", mkToken "bSOL" "BlazeStake Staked SOL" false spl_token staked_sol (Some (mkMint "bSo13r4TkiE4KumL71LsHTPpL2euBYLFx6h9HP3piy1" 9))
       (mkMint "bSo13r4TkiE4KumL71LsHTPpL2euBYLFx6h9HP3piy1" 9));
    ("INF", mkToken "INF" "Sanctum Infinity" false spl_token staked_sol None
       (mkMint "5oVNBeEEQvYi1cX3ir8Dx5n1P7pdxydbGF2X4TxVusJm" 9));
    ("CBBTC", mkToken "cbBTC" "Coinbase Wrapped BTC" false spl_token wrapped None
       (mkMint "cbbtcf3aa214zXHbiAZQwf4122FBYbraNdFqgw4iMij" 8));
    ("WBTC", mkToken "WBTC" "Wrapped BTC (Portal)" false spl_token wrapped None
       (mkMint "3NZ9JMVBmGAqocybic2c7LQCJScmgsAZ6vQqTDzcqmJh" 8))
  ].

(** [token.mints[cluster]] *)
Definition mint_on (t : WellKnownToken) (c : SolanaCluster) : option WellKnownTokenMint :=
  match c with devnet => wk_devnet t | mainnet_beta => Some (wk_mainnet t) end.

(** [Object.entries(mints)]: an entry is written with devnet first. *)
Definition mints (t : WellKnownToken) : list (SolanaCluster * WellKnownTokenMint) :=
  match wk_devnet t with Some m => [(devnet, m)] | None => [] end ++ [(mainnet_beta, wk_mainnet t)].

Record WellKnownTokenAtMint := mkAtMint {
  at_token : WellKnownToken;
  at_address : string;
  at_decimals : Z;
  at_clusters : list SolanaCluster;
}.

(** [new Map(entries).get(key)]: a later entry replaces an earlier one. *)
Fixpoint last_entry {A} (key : string) (l : list (string * A)) : option A :=
  match l with
  | [] => None
  | (k, a) :: rest =>
      match last_entry key rest with
      | Some b => Some b
      | None => if String.eqb k key then Some a else None
      end
  end.

(** [byAddress], the clusters of an address collected in order. *)
Fixpoint with_cluster (t : WellKnownToken) (c : SolanaCluster) (m : WellKnownTokenMint)
    (seen : list (string * WellKnownTokenAtMint)) : list (string * WellKnownTokenAtMint) :=
  match seen with
  | [] => [(mint_address m, mkAtMint t (mint_address m) (mint_decimals m) [c])]
  | (a, e) :: rest =>
      if String.eqb a (mint_address m)
      then (a, mkAtMint (at_token e) (at_address e) (at_decimals e) (at_clusters e ++ [c])) :: rest
      else (a, e) :: with_cluster t c m rest
  end.

Definition at_mints (t : WellKnownToken) : list (string * WellKnownTokenAtMint) :=
  foldl (fun seen '(c, m) => with_cluster t c m seen) [] (mints t).

Definition WELL_KNOWN_TOKEN_BY_MINT : list (string * WellKnownTokenAtMint) :=
  flat_map (fun e => at_mints e.2) WELL_KNOWN_TOKENS.

Definition token_by_mint (mint : string) : option WellKnownTokenAtMint := last_entry mint WELL_KNOWN_TOKEN_BY_MINT.

Definition GENESIS_HASH_BY_CLUSTER (c : SolanaCluster) : string :=
  match c with
  | mainnet_beta => "5eykt4UsFv8P8NJdTREpY1vzqKqZKvdpKuc147dw2N9d"
  | devnet => "EtWTRABZaYq6iMfeYKouRu166VU2xqa1wcaWoxPkrZBG"
  end.

Definition well_known (symbol : string) : option WellKnownToken := last_entry symbol WELL_KNOWN_TOKENS.

Definition isWellKnownTokenSymbol (value : string) : bool := bool_decide (is_Some (well_known value)).

Definition wellKnownMint (symbol : string) (c : SolanaCluster) : option string :=
  t ← well_known symbol; mint_address <$> mint_on t c.

Definition wellKnownDecimals (symbol : string) (c : SolanaCluster) : option Z :=
  t ← well_known symbol; mint_decimals <$> mint_on t c.

Definition WELL_KNOWN_TOKEN_BY_NAME : list (string * string) :=
  flat_map (fun e => [(to_lower e.1, e.1); (to_lower (wk_symbol e.2), e.1)]) WELL_KNOWN_TOKENS.

(** [new Set] with its order of insertion. *)
Definition add_alias (aliases : list string) (a : string) : list string :=
  if existsb (String.eqb a) aliases then aliases else aliases ++ [a].

(** The forms of an entry: its key, its symbol and its mints. *)
Definition entry_forms (e : string * WellKnownToken) : list string :=
  e.1 :: wk_symbol e.2 :: map (fun m => mint_address m.2) (mints e.2).

(** The entry a form names, by the key the catalogue has it under. *)
Definition named_entry (form : string) : option (string * WellKnownToken) :=
  let name := match token_by_mint form with Some at_ => wk_symbol (at_token at_) | None => form end in
  key ← last_entry (to_lower name) WELL_KNOWN_TOKEN_BY_NAME;
  (pair key) <$> well_known key.

Definition tokenFilterAliases (token : string) : list string :=
  let form := trimmed token in
  if String.eqb form "" then []
  else foldl add_alias [form] (match named_entry form with Some e => entry_forms e | None => [] end).

(** * Lemmas *)

Lemma forallb_elem {A} (p : A -> bool) l x : forallb p l = true -> x ∈ l -> p x = true.
Proof. rewrite forallb_forall, list_elem_of_In. auto. Qed.

Lemma existsb_string x (l : list string) : existsb (String.eqb x) l = true <-> x ∈ l.
Proof.
  rewrite existsb_exists, list_elem_of_In. split; [|intros H; exists x; by rewrite String.eqb_refl].
  by intros (y & H & ->%String.eqb_eq).
Qed.

Lemma add_alias_elem l a x : x ∈ add_alias l a <-> x ∈ l \/ x = a.
Proof.
  unfold add_alias. destruct (existsb (String.eqb a) l) eqn:E.
  - apply existsb_string in E. split; [by left|intros [?| ->]; done].
  - rewrite elem_of_app, list_elem_of_singleton. done.
Qed.

Lemma add_aliases_elem l al x : x ∈ foldl add_alias l al <-> x ∈ l \/ x ∈ al.
Proof.
  revert l. induction al as [|a al IH]; intros l; cbn [foldl].
  - split; [by left|intros [?|?%elem_of_nil]; done].
  - rewrite IH, add_alias_elem, elem_of_cons. tauto.
Qed.

(** What a filter by a form of one entry says of the forms of all entries. *)
Definition filters_forms (e : string * WellKnownToken) (form : string) : bool :=
  let aliases := tokenFilterAliases form in
  forallb (fun e' => forallb (fun form' => Bool.eqb (existsb (String.eqb form') aliases) (String.eqb e.1 e'.1))
                       (entry_forms e')) WELL_KNOWN_TOKENS.

Lemma catalogue_filters : forallb (fun e => forallb (filters_forms e) (entry_forms e)) WELL_KNOWN_TOKENS = true.
Proof. vm_compute. reflexivity. Qed.

Lemma catalogue_keys : NoDup (map fst WELL_KNOWN_TOKENS).
Proof. apply (bool_decide_unpack (NoDup (map fst WELL_KNOWN_TOKENS))). vm_compute. exact I. Qed.

(** A filter by any stored form of a catalogued token, its key, its symbol or one of
    its mints, matches exactly the stored forms of that token among those of the whole
    catalogue: rows written one way are not missed, and no other token's rows match. *)
Theorem token_filter_matches e e' form form' :
  e ∈ WELL_KNOWN_TOKENS -> e' ∈ WELL_KNOWN_TOKENS -> form ∈ entry_forms e -> form' ∈ entry_forms e' ->
  form' ∈ tokenFilterAliases form <-> e.1 = e'.1.
Proof.
  intros He He' Hf Hf'. pose proof (forallb_elem _ _ _ catalogue_filters He) as H. cbn beta in H.
  apply (forallb_elem _ _ form) in H; [|done]. unfold filters_forms in H.
  apply (forallb_elem _ _ e') in H; [|done]. apply (forallb_elem _ _ form') in H; [|done].
  apply Bool.eqb_prop in H. by rewrite <- existsb_string, H, String.eqb_eq.
Qed.

Lemma token_filter_matches_witness :
  "USDC" ∈ tokenFilterAliases "EPjFWdd5AufqSSqeM2qN1xzybapC8G4wEGGkZwyTDt1v".
Proof.
  set (usdc := ("USDC", mkToken "USDC" "USD Coin" true spl_token stablecoin
    (Some (mkMint "4zMMC9srt5Ri5X14GAgXhaHii3GnPAEERYPJgZJDncDU" 6)) (mkMint "EPjFWdd5AufqSSqeM2qN1xzybapC8G4wEGGkZwyTDt1v" 6))).
  assert (usdc ∈ WELL_KNOWN_TOKENS) as Hin by (apply (list_elem_of_lookup_2 _ 1); reflexivity).
  apply (token_filter_matches usdc usdc _ _ Hin Hin).
  - apply (list_elem_of_lookup_2 _ 3). reflexivity.
  - apply (list_elem_of_lookup_2 _ 0). reflexivity.
  - reflexivity.
Defined.
