(* ===== verification/PaymentOperation.v ===== *)
(** * Payments: tokens and amounts of a request

    [services/payment-operation.service.ts]: what a token names on the deployment's
    cluster and which amounts are positive. *)
From Stdlib Require Import Ascii String ZArith Lia.
From stdpp Require Import base list strings.
From S2P Require Import Prelude Text Amount PolicyTypes WellKnownTokens.

Local Open Scope string_scope.
Local Open Scope Z_scope.
Local Open Scope list_scope.
Local Open Scope sdp_scope.

(** [toUpperCase], of the letters a well-known symbol is made of. *)
Definition to_upper (s : string) : string :=
  text (map (fun c => if (97 <=? code c) && (code c <=? 122) then ascii_of_nat (Z.to_nat (code c - 32)) else c) (chars s)).

Definition isNativePaymentToken (token : string) : bool :=
  let normalized := trimmed token in
  String.eqb (to_upper normalized) "SOL" || String.eqb normalized SOL_MINT.

(** [isDecimalString] admits digits and one point, so a digit that is not zero makes
    the amount positive. *)
Definition assertPositivePaymentAmount (amount : string) : result string :=
  let normalized := trimmed amount in
  if negb (SolanaAmount.isDecimalString normalized) then Err (badRequest "Invalid amount format")
  else if existsb (fun c => negb (Ascii.eqb c ".") && negb (Ascii.eqb c "0")) (chars normalized) then Ok normalized
  else Err (badRequest "Transfer amount must be greater than zero").

Definition assertPaymentProjectScope (bodyProjectId authProjectId : option string) : result unit :=
  if negb (truthy bodyProjectId) then Ok tt
  else if negb (truthy authProjectId)
  then Err (badRequest "projectId overrides are not supported for org-scoped keys in payments endpoints")
  else if negb (bool_decide (bodyProjectId = authProjectId))
  then Err (badRequest "projectId does not match the authenticated API key scope")
  else Ok tt.

(** [BigInt(text)]: a decimal integer with an optional sign, a number of another base
    with its prefix, or nothing, spaces around it apart; [None] where it throws. *)
Fixpoint base_digits (base : Z) (l : list ascii) (acc : Z) : option Z :=
  match l with
  | [] => Some acc
  | c :: rest =>
      let d := if is_digit c then digit_value c
               else let c := code c in
                    if (97 <=? c) && (c <=? 102) then c - 87 else if (65 <=? c) && (c <=? 70) then c - 55 else 16 in
      if d <? base then base_digits base rest (acc * base + d) else None
  end.

Definition big_integer (value : string) : option Z :=
  let some base l := match l with [] => None | _ => base_digits base l 0 end in
  match chars (trimmed value) with
  | [] => Some 0
  | "0"%char :: ("x"%char | "X"%char) :: l => some 16 l
  | "0"%char :: ("o"%char | "O"%char) :: l => some 8 l
  | "0"%char :: ("b"%char | "B"%char) :: l => some 2 l
  | "-"%char :: l => Z.opp <$> some 10 l
  | "+"%char :: l => some 10 l
  | l => some 10 l
  end.

(** The canonical codec throws of what is out of its range. *)
Definition parseU64String (value fieldName : string) : result Z :=
  match big_integer value with
  | Some n => if (0 <=? n) && (n <=? 18446744073709551615) then Ok n
              else Err (badRequest (fieldName ++ " must fit in an unsigned 64-bit integer"))
  | None => Err (badRequest (fieldName ++ " must fit in an unsigned 64-bit integer"))
  end.

Definition parseI64String (value fieldName : string) : result Z :=
  match big_integer value with
  | Some n => if (-9223372036854775808 <=? n) && (n <=? 9223372036854775807) then Ok n
              else Err (badRequest (fieldName ++ " must fit in a signed 64-bit integer"))
  | None => Err (badRequest (fieldName ++ " must fit in a signed 64-bit integer"))
  end.

Section Cluster.
(** [getSolanaConfig(env).network] *)
Variable solana_config : result SolanaCluster.

Definition normalizePaymentToken (token : string) : result string :=
  if isNativePaymentToken token then Ok SOL_MINT
  else
    let symbol := to_upper (trimmed token) in
    if negb (isWellKnownTokenSymbol symbol) then Ok token
    else
      let? cluster := solana_config in
      match wellKnownMint symbol cluster with
      | Some mint => Ok mint
      | None => Err (badRequest (symbol ++ " is not available on " ++ cluster_text cluster))
      end.

Definition rampTransferTokenMint (cryptoToken : string) : result string :=
  let symbol := to_upper (trimmed cryptoToken) in
  if negb (isWellKnownTokenSymbol symbol) then Err (badRequest ("Unsupported ramp crypto token: " ++ cryptoToken))
  else
    let? cluster := solana_config in
    match wellKnownMint symbol cluster with
    | Some mint => Ok mint
    | None => Err (badRequest (symbol ++ " is not available on " ++ cluster_text cluster))
    end.
End Cluster.
