(* ===== verification/PaymentTables.v ===== *)
(** * Payments: transfers, subscriptions and their collections

    The tables of recurring payments as the modelled code reads and writes them:
    [payment_transfers] with its submission outbox (migrations 0001, 0008, 0025, 0061
    and 0066), [payment_subscription_plans], [payment_subscriptions] and
    [payment_subscription_collection_attempts] (0007, 0016), [payment_recurring_payments]
    its lifecycle attempts (0009, 0017, 0018) and its activation attempts (0015), and the methods of
    [db/repositories/payments.repository.postgres.ts],
    [payment-subscriptions.repository.postgres.ts] and
    [payment-recurring-payments.repository.postgres.ts] that the collection, the
    lifecycle and the tracker of transfers call. A method is one statement; its answer
    and the new tables are a function of the tables. *)
From Stdlib Require Import Ascii String ZArith Lia.
From stdpp Require Import base list strings.
From S2P Require Import Prelude Text Rows PolicyTypes.

Local Open Scope string_scope.
Local Open Scope Z_scope.
Local Open Scope list_scope.
Local Open Scope sdp_scope.

(** ** Rows *)

Record PayTenant := mkPayTenant { pay_organizationId : string; pay_projectId : string }.

#[export] Instance PayTenant_eq_dec : EqDecision PayTenant.
Proof. solve_decision. Defined.

Abbreviation json_object := (list (string * json)).

(** [a || b] of two [jsonb] objects. *)
Definition jsonb_concat (a b : json_object) : json_object :=
  List.filter (fun e => negb (existsb (fun e' => String.eqb e'.1 e.1) b)) a ++ b.

Definition json_member (key : string) (o : json_object) : option json :=
  snd <$> List.find (fun e => String.eqb e.1 key) o.

Inductive PaymentTransferStatus :=
| xs_pending | xs_processing | xs_confirmed | xs_finalized | xs_failed
| xs_awaiting_payment | xs_settling | xs_completed | xs_canceled | xs_expired.

#[export] Instance PaymentTransferStatus_eq_dec : EqDecision PaymentTransferStatus.
Proof. solve_decision. Defined.

Inductive PaymentTransferType :=
| xt_transfer | xt_transfer_confidential | xt_transfer_batch | xt_onramp | xt_offramp.

#[export] Instance PaymentTransferType_eq_dec : EqDecision PaymentTransferType.
Proof. solve_decision. Defined.

Inductive PaymentTransferDirection := inbound | outbound.

#[export] Instance PaymentTransferDirection_eq_dec : EqDecision PaymentTransferDirection.
Proof. solve_decision. Defined.

Definition WALLET_TRANSFER_TYPES : list PaymentTransferType :=
  [xt_transfer; xt_transfer_confidential; xt_transfer_batch].

(** The columns of a transfer no modelled statement changes. *)
Record TransferFacts := mkTransferFacts {
  xf_id : string;
  xf_organization_id : string;
  xf_project_id : option string;
  xf_wallet_id : string;
  xf_counterparty_id : option string;
  xf_source_address : option string;
  xf_destination_address : option string;
  xf_token : string;
  xf_memo : option string;
  xf_type : PaymentTransferType;
  xf_direction : PaymentTransferDirection;
  xf_provider : option string;
  xf_fiat_currency : option string;
  xf_ramps_memo : json_object;
  xf_initiated_by_key_id : option string;
  xf_idempotency_key : option string;
  xf_idempotency_fingerprint : option string;
  xf_created_at : string;
}.

Record PaymentTransferRow := mkTransfer {
  xf_facts : TransferFacts;
  xf_status : PaymentTransferStatus;
  xf_amount : option string;
  xf_fiat_amount : option string;
  xf_provider_reference : option string;
  xf_delivery_mode : option string;
  xf_provider_data : json_object;
  xf_signature : option string;
  xf_serialized_tx : option string;
  xf_signed_transaction : option string;
  xf_last_valid_block_height : option Z;
  xf_submission_started_at : option string;
  xf_slot : option Z;
  xf_block_time : option string;
  xf_fee : option Z;
  xf_error : option string;
  xf_confirmed_at : option string;
  xf_finalization_last_polled_at : option string;
  xf_updated_at : string;
}.

Definition transfer_id (r : PaymentTransferRow) : string := xf_id (xf_facts r).

Inductive CollectionAttemptStatus := ca_pending | ca_processing | ca_confirmed | ca_failed | ca_skipped.

#[export] Instance CollectionAttemptStatus_eq_dec : EqDecision CollectionAttemptStatus.
Proof. solve_decision. Defined.

(** What is collected: a due period of a subscription. *)
Record Cycle := mkCycle { cy_tenant : PayTenant; cy_subscription_id : string; cy_due_at : string }.

#[export] Instance Cycle_eq_dec : EqDecision Cycle.
Proof. solve_decision. Defined.

Record AttemptFacts := mkAttemptFacts {
  ca_id : string;
  ca_cycle : Cycle;
  ca_token : string;
  ca_amount : string;
  ca_created_at : string;
}.

Record PaymentSubscriptionCollectionAttemptRow := mkAttempt {
  ca_facts : AttemptFacts;
  ca_transfer_id : option string;
  ca_attempted_at : option string;
  ca_status : CollectionAttemptStatus;
  ca_signature : option string;
  ca_error : option string;
  ca_metadata : json_object;
  ca_updated_at : string;
}.

Definition attempt_id (r : PaymentSubscriptionCollectionAttemptRow) : string := ca_id (ca_facts r).
Definition attempt_cycle (r : PaymentSubscriptionCollectionAttemptRow) : Cycle := ca_cycle (ca_facts r).

Inductive PaymentSubscriptionStatus :=
| ss_pending_authorization | ss_active | ss_paused | ss_canceling | ss_canceled | ss_expired.

#[export] Instance PaymentSubscriptionStatus_eq_dec : EqDecision PaymentSubscriptionStatus.
Proof. solve_decision. Defined.

Record PaymentSubscriptionRow := mkSubscription {
  sb_id : string;
  sb_tenant : PayTenant;
  sb_plan_id : string;
  sb_counterparty_id : string;
  sb_subscriber_address : string;
  sb_subscriber_token_account : option string;
  sb_subscription_pda : option string;
  sb_subscription_authority_address : option string;
  sb_authorization_signature : option string;
  sb_status : PaymentSubscriptionStatus;
  sb_current_period_start_at : option string;
  sb_next_collection_due_at : option string;
  sb_cancel_at : option string;
  sb_canceled_at : option string;
  sb_created_by : option string;
  sb_created_at : string;
  sb_updated_at : string;
}.

Inductive PaymentSubscriptionPlanStatus := ps_draft | ps_active | ps_archived.

#[export] Instance PaymentSubscriptionPlanStatus_eq_dec : EqDecision PaymentSubscriptionPlanStatus.
Proof. solve_decision. Defined.

Record PaymentSubscriptionPlanRow := mkPlan {
  pl_id : string;
  pl_tenant : PayTenant;
  pl_owner_wallet_id : string;
  pl_owner_address : string;
  pl_token : string;
  pl_amount : string;
  pl_period_hours : Z;
  pl_program_plan_id : string;
  pl_plan_pda : option string;
  pl_destination_address : option string;
  pl_puller_wallet_id : option string;
  pl_puller_address : option string;
  pl_metadata_uri : option string;
  pl_status : PaymentSubscriptionPlanStatus;
  pl_created_by : option string;
  pl_created_at : string;
  pl_updated_at : string;
}.

Inductive PaymentRecurringPaymentStatus :=
| rs_pending_activation | rs_activating | rs_active | rs_updating | rs_canceling | rs_resuming
| rs_paused | rs_canceled | rs_expired.

#[export] Instance PaymentRecurringPaymentStatus_eq_dec : EqDecision PaymentRecurringPaymentStatus.
Proof. solve_decision. Defined.

Record PaymentRecurringPaymentRow := mkRecurring {
  rp_id : string;
  rp_tenant : PayTenant;
  rp_source_wallet_id : string;
  rp_source_address : string;
  rp_counterparty_id : string;
  rp_counterparty_account_id : string;
  rp_destination_address : string;
  rp_destination_token_account : option string;
  rp_token : string;
  rp_amount : string;
  rp_period_hours : Z;
  rp_first_collection_at : option string;
  rp_next_collection_due_at : option string;
  rp_plan_id : option string;
  rp_subscription_id : option string;
  rp_plan_pda : option string;
  rp_plan_created_at : option string;
  rp_plan_creation_signature : option string;
  rp_subscription_pda : option string;
  rp_subscription_authority_address : option string;
  rp_authorization_signature : option string;
  rp_status : PaymentRecurringPaymentStatus;
  rp_metadata_uri : option string;
  rp_created_by : option string;
  rp_created_at : string;
  rp_updated_at : string;
}.

Inductive LifecycleOperation := op_cancel | op_resume.

#[export] Instance LifecycleOperation_eq_dec : EqDecision LifecycleOperation.
Proof. solve_decision. Defined.

Inductive LifecycleAttemptStatus := la_processing | la_confirmed | la_failed.

#[export] Instance LifecycleAttemptStatus_eq_dec : EqDecision LifecycleAttemptStatus.
Proof. solve_decision. Defined.

Inductive LifecycleAttemptStage := stage_claim | stage_submit | stage_finalize.

Record LifecycleAttemptRow := mkLifecycleAttempt {
  la_id : string;
  la_tenant : PayTenant;
  la_recurring_payment_id : string;
  la_operation : LifecycleOperation;
  la_status : LifecycleAttemptStatus;
  la_stage : LifecycleAttemptStage;
  la_signature : option string;
  la_error : option string;
  la_metadata : json_object;
  la_created_at : string;
  la_updated_at : string;
}.

Inductive ActivationAttemptStatus := aa_processing | aa_confirmed | aa_failed.

#[export] Instance ActivationAttemptStatus_eq_dec : EqDecision ActivationAttemptStatus.
Proof. solve_decision. Defined.

Inductive ActivationAttemptStage := aa_claim | aa_create_plan | aa_authorize_subscription | aa_finalize.

#[export] Instance ActivationAttemptStage_eq_dec : EqDecision ActivationAttemptStage.
Proof. solve_decision. Defined.

Record ActivationAttemptRow := mkActivationAttempt {
  av_id : string;
  av_tenant : PayTenant;
  av_recurring_payment_id : string;
  av_status : ActivationAttemptStatus;
  av_stage : ActivationAttemptStage;
  av_plan_creation_signature : option string;
  av_authorization_signature : option string;
  av_error : option string;
  av_metadata : json_object;
  av_created_at : string;
  av_updated_at : string;
}.

Record PayTables := mkPay {
  transfers : list PaymentTransferRow;
  attempts : list PaymentSubscriptionCollectionAttemptRow;
  subscriptions : list PaymentSubscriptionRow;
  plans : list PaymentSubscriptionPlanRow;
  recurring : list PaymentRecurringPaymentRow;
  lifecycle_attempts : list LifecycleAttemptRow;
  activation_attempts : list ActivationAttemptRow;
}.

Definition with_transfers (t : PayTables) (l : list PaymentTransferRow) : PayTables :=
  mkPay l (attempts t) (subscriptions t) (plans t) (recurring t) (lifecycle_attempts t) (activation_attempts t).
Definition with_attempts (t : PayTables) (l : list PaymentSubscriptionCollectionAttemptRow) : PayTables :=
  mkPay (transfers t) l (subscriptions t) (plans t) (recurring t) (lifecycle_attempts t) (activation_attempts t).
Definition with_subscriptions (t : PayTables) (l : list PaymentSubscriptionRow) : PayTables :=
  mkPay (transfers t) (attempts t) l (plans t) (recurring t) (lifecycle_attempts t) (activation_attempts t).
Definition with_plans (t : PayTables) (l : list PaymentSubscriptionPlanRow) : PayTables :=
  mkPay (transfers t) (attempts t) (subscriptions t) l (recurring t) (lifecycle_attempts t) (activation_attempts t).
Definition with_recurring (t : PayTables) (l : list PaymentRecurringPaymentRow) : PayTables :=
  mkPay (transfers t) (attempts t) (subscriptions t) (plans t) l (lifecycle_attempts t) (activation_attempts t).
Definition with_lifecycle_attempts (t : PayTables) (l : list LifecycleAttemptRow) : PayTables :=
  mkPay (transfers t) (attempts t) (subscriptions t) (plans t) (recurring t) l (activation_attempts t).
Definition with_activation_attempts (t : PayTables) (l : list ActivationAttemptRow) : PayTables :=
  mkPay (transfers t) (attempts t) (subscriptions t) (plans t) (recurring t) (lifecycle_attempts t) l.

(** ** Statements *)

(** [CASE WHEN given THEN value ELSE column END] *)
Abbreviation patch := (option (option string)).

(** *** Transfers *)

Definition of_tenant (tenant : PayTenant) (f : TransferFacts) : bool :=
  String.eqb (xf_organization_id f) (pay_organizationId tenant)
  && bool_decide (xf_project_id f = Some (pay_projectId tenant)).

(** [payment_transfers_signed_outbox_*_check], [submission_started_check],
    [last_valid_block_height_check] *)
Definition transfer_checks (r : PaymentTransferRow) : bool :=
  Bool.eqb (bool_decide (xf_signed_transaction r = None)) (bool_decide (xf_last_valid_block_height r = None))
  && (bool_decide (xf_signed_transaction r = None) || bool_decide (is_Some (xf_signature r)))
  && (bool_decide (xf_submission_started_at r = None) || bool_decide (is_Some (xf_signed_transaction r)))
  && match xf_last_valid_block_height r with
     | Some h => (0 <=? h) && (h <=? 18446744073709551615)
     | None => true
     end.

(** [signature TEXT UNIQUE] *)
Definition transfer_signature_taken (r : PaymentTransferRow) (l : list PaymentTransferRow) : bool :=
  match xf_signature r with
  | Some s => existsb (fun x => negb (String.eqb (transfer_id x) (transfer_id r))
                                && bool_decide (xf_signature x = Some s)) l
  | None => false
  end.

Definition update_transfer (p : PaymentTransferRow -> bool) (f : PaymentTransferRow -> PaymentTransferRow)
    (t : PayTables) : result (option PaymentTransferRow * PayTables) :=
  match update_where p f (transfers t) with
  | (Some r, l) =>
      if negb (transfer_checks r) then Err (check_violation "payment_transfers")
      else if transfer_signature_taken r (transfers t) then Err (unique_violation "payment_transfers_signature_key")
      else Ok (Some r, with_transfers t l)
  | (None, _) => Ok (None, t)
  end.

Definition is_transfer (tenant : PayTenant) (id : string) (r : PaymentTransferRow) : bool :=
  String.eqb (transfer_id r) id && of_tenant tenant (xf_facts r).

Definition getTransferById (tenant : PayTenant) (id : string) (t : PayTables) : option PaymentTransferRow :=
  List.find (is_transfer tenant id) (transfers t).

(** The fields of [CreatePaymentTransferInput] that are columns as they are. *)
Record CreatePaymentTransferInput := mkCreateTransfer {
  ct_tenant : PayTenant;
  ct_walletId : string;
  ct_counterpartyId : option string;
  ct_sourceAddress : option string;
  ct_destinationAddress : option string;
  ct_token : string;
  ct_amount : option string;
  ct_memo : option string;
  ct_type : PaymentTransferType;
  ct_direction : PaymentTransferDirection;
  ct_status : PaymentTransferStatus;
  ct_provider : option string;
  ct_providerReference : option string;
  ct_deliveryMode : option string;
  ct_fiatCurrency : option string;
  ct_fiatAmount : option string;
  ct_providerData : json_object;
  ct_serializedTx : option string;
  ct_signature : option string;
  ct_slot : option Z;
  ct_initiatedByKeyId : option string;
}.

Definition created_transfer (now id : string) (i : CreatePaymentTransferInput) : PaymentTransferRow :=
  mkTransfer
    (mkTransferFacts id (pay_organizationId (ct_tenant i)) (Some (pay_projectId (ct_tenant i))) (ct_walletId i)
       (ct_counterpartyId i) (ct_sourceAddress i) (ct_destinationAddress i) (ct_token i) (ct_memo i) (ct_type i)
       (ct_direction i) (ct_provider i) (ct_fiatCurrency i) [] (ct_initiatedByKeyId i) None None now)
    (ct_status i) (ct_amount i) (ct_fiatAmount i) (ct_providerReference i) (ct_deliveryMode i) (ct_providerData i)
    (ct_signature i) (ct_serializedTx i) None None None (ct_slot i) None None None
    (if bool_decide (ct_status i = xs_confirmed) then Some now else None) None now.

(** [INSERT ... RETURNING *] under the generated id. *)
Definition createTransfer (now id : string) (i : CreatePaymentTransferInput) (t : PayTables)
    : result (PaymentTransferRow * PayTables) :=
  let r := created_transfer now id i in
  if existsb (fun x => String.eqb (transfer_id x) id) (transfers t)
  then Err (unique_violation "payment_transfers_pkey")
  else if transfer_signature_taken r (transfers t) then Err (unique_violation "payment_transfers_signature_key")
  else Ok (r, with_transfers t (transfers t ++ [r])).

(** [None] is [undefined], [Some None] is [null]. The tracker gives no tenant. *)
Record UpdatePaymentTransferInput := mkUpdateTransfer {
  ut_transferId : string;
  ut_tenant : option PayTenant;
  ut_expectedStatus : option PaymentTransferStatus;
  ut_status : option PaymentTransferStatus;
  ut_signature : patch;
  ut_serializedTx : patch;
  ut_slot : option (option Z);
  ut_blockTime : patch;
  ut_fee : option (option Z);
  ut_amount : patch;
  ut_fiatAmount : patch;
  ut_providerReference : patch;
  ut_deliveryMode : patch;
  ut_providerData : option json_object;
  ut_error : patch;
  ut_updatedAt : string;
}.

Definition updated_transfer (i : UpdatePaymentTransferInput) (r : PaymentTransferRow) : PaymentTransferRow :=
  mkTransfer (xf_facts r)
    (default (xf_status r) (ut_status i))
    (default (xf_amount r) (ut_amount i))
    (default (xf_fiat_amount r) (ut_fiatAmount i))
    (default (xf_provider_reference r) (ut_providerReference i))
    (default (xf_delivery_mode r) (ut_deliveryMode i))
    (match ut_providerData i with Some d => jsonb_concat (xf_provider_data r) d | None => xf_provider_data r end)
    (default (xf_signature r) (ut_signature i))
    (default (xf_serialized_tx r) (ut_serializedTx i))
    (xf_signed_transaction r) (xf_last_valid_block_height r) (xf_submission_started_at r)
    (default (xf_slot r) (ut_slot i))
    (default (xf_block_time r) (ut_blockTime i))
    (default (xf_fee r) (ut_fee i))
    (default (xf_error r) (ut_error i))
    (match ut_status i with
     | Some xs_confirmed | Some xs_finalized =>
         match xf_confirmed_at r with Some at_ => Some at_ | None => Some (ut_updatedAt i) end
     | _ => xf_confirmed_at r
     end)
    (xf_finalization_last_polled_at r) (ut_updatedAt i).

Definition updateTransfer (i : UpdatePaymentTransferInput) (t : PayTables)
    : result (option PaymentTransferRow * PayTables) :=
  update_transfer
    (fun r => String.eqb (transfer_id r) (ut_transferId i)
              && match ut_tenant i with Some tenant => of_tenant tenant (xf_facts r) | None => true end
              && match ut_expectedStatus i with Some s => bool_decide (xf_status r = s) | None => true end)
    (updated_transfer i) t.

Record PersistSignedTransferInput := mkPersistSigned {
  pg_tenant : PayTenant;
  pg_transferId : string;
  pg_signature : string;
  pg_signedTransaction : string;
  pg_lastValidBlockHeight : Z;
  pg_updatedAt : string;
}.

Definition unsigned (r : PaymentTransferRow) : bool :=
  bool_decide (xf_signature r = None) && bool_decide (xf_signed_transaction r = None)
  && bool_decide (xf_last_valid_block_height r = None) && bool_decide (xf_submission_started_at r = None).

Definition signed_row (i : PersistSignedTransferInput) (r : PaymentTransferRow) : PaymentTransferRow :=
  mkTransfer (xf_facts r) (xf_status r) (xf_amount r) (xf_fiat_amount r) (xf_provider_reference r)
    (xf_delivery_mode r) (xf_provider_data r) (Some (pg_signature i)) (xf_serialized_tx r)
    (Some (pg_signedTransaction i)) (Some (pg_lastValidBlockHeight i)) (xf_submission_started_at r) (xf_slot r)
    (xf_block_time r) (xf_fee r) (xf_error r) (xf_confirmed_at r) (xf_finalization_last_polled_at r)
    (pg_updatedAt i).

Definition persistSignedTransfer (i : PersistSignedTransferInput) (t : PayTables)
    : result (option PaymentTransferRow * PayTables) :=
  update_transfer
    (fun r => is_transfer (pg_tenant i) (pg_transferId i) r && bool_decide (xf_status r = xs_processing)
              && unsigned r)
    (signed_row i) t.

Definition started_row (startedAt : string) (r : PaymentTransferRow) : PaymentTransferRow :=
  mkTransfer (xf_facts r) (xf_status r) (xf_amount r) (xf_fiat_amount r) (xf_provider_reference r)
    (xf_delivery_mode r) (xf_provider_data r) (xf_signature r) (xf_serialized_tx r)
    (xf_signed_transaction r) (xf_last_valid_block_height r) (Some startedAt) (xf_slot r)
    (xf_block_time r) (xf_fee r) (xf_error r) (xf_confirmed_at r) (xf_finalization_last_polled_at r) startedAt.

Definition markTransferSubmissionStarted (tenant : PayTenant) (transferId startedAt : string) (t : PayTables)
    : result (option PaymentTransferRow * PayTables) :=
  update_transfer
    (fun r => is_transfer tenant transferId r && bool_decide (xf_status r = xs_processing)
              && bool_decide (is_Some (xf_signature r)) && bool_decide (is_Some (xf_signed_transaction r))
              && bool_decide (is_Some (xf_last_valid_block_height r))
              && bool_decide (xf_submission_started_at r = None))
    (started_row startedAt) t.

(** *** The tracker's reads and its advance *)

Section Collation.
(** The order of text under the database's collation. *)
Variable text_le : string -> string -> bool.

Definition text_before (a b : string) : bool := text_le a b && negb (String.eqb a b).

Record ListTransfersByStatusInput := mkListTransfers {
  lt_statuses : list PaymentTransferStatus;
  lt_types : list PaymentTransferType;
  lt_hasSignature : option bool;
  lt_updatedBefore : option string;
  lt_limit : Z;
}.

Definition listTransfersByStatus (i : ListTransfersByStatusInput) (t : PayTables) : list PaymentTransferRow :=
  limit_rows (lt_limit i)
    (order_by (fun a b => key_le text_le [xf_updated_at a; transfer_id a] [xf_updated_at b; transfer_id b])
       (List.filter (fun r =>
          bool_decide (xf_status r ∈ lt_statuses i)
          && (bool_decide (lt_types i = []) || bool_decide (xf_type (xf_facts r) ∈ lt_types i))
          && match lt_hasSignature i with
             | Some b => Bool.eqb b (bool_decide (is_Some (xf_signature r)))
             | None => true
             end
          && match lt_updatedBefore i with Some s => text_before (xf_updated_at r) s | None => true end)
        (transfers t))).

(** [NULLS FIRST] *)
Definition polled_le (a b : PaymentTransferRow) : bool :=
  match xf_finalization_last_polled_at a, xf_finalization_last_polled_at b with
  | None, Some _ => true
  | Some _, None => false
  | Some x, Some y => key_le text_le [x; transfer_id a] [y; transfer_id b]
  | None, None => text_le (transfer_id a) (transfer_id b)
  end.

Definition listConfirmedTransfersToPoll (confirmedAfter : string) (limit : Z) (t : PayTables)
    : list PaymentTransferRow :=
  limit_rows limit (order_by polled_le (List.filter (fun r =>
      bool_decide (xf_status r = xs_confirmed)
      && bool_decide (xf_type (xf_facts r) ∈ WALLET_TRANSFER_TYPES)
      && bool_decide (is_Some (xf_signature r))
      && match xf_confirmed_at r with Some at_ => text_before confirmedAfter at_ | None => false end)
    (transfers t))).
End Collation.

Record ConfirmedTransferPollVerdict := mkVerdict {
  vd_transferId : string;
  vd_organizationId : string;
  vd_finalized : bool;
  vd_slot : option Z;
}.

Definition polled_row (updatedAt : string) (v : ConfirmedTransferPollVerdict) (r : PaymentTransferRow)
    : PaymentTransferRow :=
  mkTransfer (xf_facts r) (if vd_finalized v then xs_finalized else xf_status r) (xf_amount r) (xf_fiat_amount r)
    (xf_provider_reference r) (xf_delivery_mode r) (xf_provider_data r) (xf_signature r) (xf_serialized_tx r)
    (xf_signed_transaction r) (xf_last_valid_block_height r) (xf_submission_started_at r)
    (if vd_finalized v then vd_slot v else xf_slot r) (xf_block_time r) (xf_fee r) (xf_error r)
    (xf_confirmed_at r) (Some updatedAt) (if vd_finalized v then updatedAt else xf_updated_at r).

Definition verdict_of (vs : list ConfirmedTransferPollVerdict) (r : PaymentTransferRow)
    : option ConfirmedTransferPollVerdict :=
  List.find (fun v => String.eqb (vd_transferId v) (transfer_id r)
                      && String.eqb (vd_organizationId v) (xf_organization_id (xf_facts r))) vs.

Definition advanceConfirmedTransfers (polled : list ConfirmedTransferPollVerdict) (updatedAt : string)
    (t : PayTables) : PayTables :=
  with_transfers t (map (fun r =>
    if bool_decide (xf_status r = xs_confirmed)
    then match verdict_of polled r with Some v => polled_row updatedAt v r | None => r end
    else r) (transfers t)).

(** *** Collection attempts *)

(** [idx_payment_subscription_attempts_active_due], of the attempts that hold a cycle. *)
Definition holds_cycle (s : CollectionAttemptStatus) : bool :=
  match s with ca_pending | ca_processing | ca_confirmed => true | _ => false end.

Definition attempt_conflicts (r x : PaymentSubscriptionCollectionAttemptRow) : bool :=
  String.eqb (attempt_id x) (attempt_id r)
  || (holds_cycle (ca_status x) && holds_cycle (ca_status r) && bool_decide (attempt_cycle x = attempt_cycle r))
  || match ca_signature r with Some s => bool_decide (ca_signature x = Some s) | None => false end.

Definition attempt_references (r : PaymentSubscriptionCollectionAttemptRow) (t : PayTables) : bool :=
  existsb (fun s => String.eqb (sb_id s) (cy_subscription_id (attempt_cycle r))) (subscriptions t)
  && match ca_transfer_id r with
     | Some x => existsb (fun y => String.eqb (transfer_id y) x) (transfers t)
     | None => true
     end.

Definition is_attempt (tenant : PayTenant) (id : string) (r : PaymentSubscriptionCollectionAttemptRow) : bool :=
  String.eqb (attempt_id r) id && bool_decide (cy_tenant (attempt_cycle r) = tenant).

Definition getCollectionAttemptById (tenant : PayTenant) (id : string) (t : PayTables)
    : option PaymentSubscriptionCollectionAttemptRow :=
  List.find (is_attempt tenant id) (attempts t).

(** [INSERT ... ON CONFLICT DO NOTHING], then the row under the given id. *)
Definition createCollectionAttempt (r : PaymentSubscriptionCollectionAttemptRow) (t : PayTables)
    : result (option PaymentSubscriptionCollectionAttemptRow * PayTables) :=
  let found t := getCollectionAttemptById (cy_tenant (attempt_cycle r)) (attempt_id r) t in
  if existsb (attempt_conflicts r) (attempts t) then Ok (found t, t)
  else if negb (attempt_references r t) then Err (foreign_key_violation "payment_subscription_collection_attempts")
  else let t' := with_attempts t (attempts t ++ [r]) in Ok (found t', t').

Record UpdateCollectionAttemptInput := mkUpdateAttempt {
  ua_attemptId : string;
  ua_tenant : PayTenant;
  ua_transferId : patch;
  ua_attemptedAt : patch;
  ua_status : option CollectionAttemptStatus;
  ua_signature : patch;
  ua_error : patch;
  ua_metadata : option json_object;
  ua_updatedAt : string;
}.

(** The statuses a requested status may be written over. *)
Definition attempt_may_become (from : CollectionAttemptStatus) (to : option CollectionAttemptStatus) : bool :=
  match to with
  | None => true
  | Some to =>
      bool_decide (to = from)
      || match to, from with
         | ca_processing, ca_pending => true
         | ca_confirmed, (ca_pending | ca_processing) => true
         | ca_failed, (ca_pending | ca_processing) => true
         | _, _ => false
         end
  end.

Definition updated_attempt (i : UpdateCollectionAttemptInput) (r : PaymentSubscriptionCollectionAttemptRow)
    : PaymentSubscriptionCollectionAttemptRow :=
  mkAttempt (ca_facts r)
    (default (ca_transfer_id r) (ua_transferId i)) (default (ca_attempted_at r) (ua_attemptedAt i))
    (default (ca_status r) (ua_status i)) (default (ca_signature r) (ua_signature i))
    (default (ca_error r) (ua_error i)) (default (ca_metadata r) (ua_metadata i)) (ua_updatedAt i).

(** An update whose row breaks no index and refers to a transfer there is. *)
Definition update_attempt (p : PaymentSubscriptionCollectionAttemptRow -> bool)
    (f : PaymentSubscriptionCollectionAttemptRow -> PaymentSubscriptionCollectionAttemptRow) (t : PayTables)
    : result (option PaymentSubscriptionCollectionAttemptRow * PayTables) :=
  match update_where p f (attempts t) with
  | (Some r, l) =>
      if existsb (attempt_conflicts r) (List.filter (fun x => negb (String.eqb (attempt_id x) (attempt_id r))) (attempts t))
      then Err (unique_violation "payment_subscription_collection_attempts")
      else if negb (attempt_references r t) then Err (foreign_key_violation "payment_subscription_collection_attempts")
      else Ok (Some r, with_attempts t l)
  | (None, _) => Ok (None, t)
  end.

Definition updateCollectionAttempt (i : UpdateCollectionAttemptInput) (t : PayTables)
    : result (option PaymentSubscriptionCollectionAttemptRow * PayTables) :=
  update_attempt (fun r => is_attempt (ua_tenant i) (ua_attemptId i) r && attempt_may_become (ca_status r) (ua_status i))
    (updated_attempt i) t.

(** [ORDER BY updated_at DESC LIMIT 1] *)
Definition getCollectionAttemptByDue (text_le : string -> string -> bool) (cycle : Cycle)
    (statuses : list CollectionAttemptStatus) (t : PayTables) : option PaymentSubscriptionCollectionAttemptRow :=
  head (order_by (fun a b => text_le (ca_updated_at b) (ca_updated_at a))
    (List.filter (fun r => bool_decide (attempt_cycle r = cycle) && bool_decide (ca_status r ∈ statuses)) (attempts t))).

(** *** Subscriptions and plans *)

Definition is_subscription (tenant : PayTenant) (id : string) (r : PaymentSubscriptionRow) : bool :=
  String.eqb (sb_id r) id && bool_decide (sb_tenant r = tenant).

Definition getSubscriptionById (tenant : PayTenant) (id : string) (t : PayTables) : option PaymentSubscriptionRow :=
  List.find (is_subscription tenant id) (subscriptions t).

Definition getPlanById (tenant : PayTenant) (id : string) (t : PayTables) : option PaymentSubscriptionPlanRow :=
  List.find (fun r => String.eqb (pl_id r) id && bool_decide (pl_tenant r = tenant)) (plans t).

Record UpdatePaymentSubscriptionInput := mkUpdateSubscription {
  us_subscriptionId : string;
  us_tenant : PayTenant;
  us_subscriberTokenAccount : patch;
  us_subscriptionPda : patch;
  us_subscriptionAuthorityAddress : patch;
  us_authorizationSignature : patch;
  us_status : option PaymentSubscriptionStatus;
  us_currentPeriodStartAt : patch;
  us_nextCollectionDueAt : patch;
  us_expectedNextCollectionDueAt : patch;
  us_expectedStatus : option PaymentSubscriptionStatus;
  us_cancelAt : patch;
  us_canceledAt : patch;
  us_updatedAt : string;
}.

Definition updated_subscription (i : UpdatePaymentSubscriptionInput) (r : PaymentSubscriptionRow)
    : PaymentSubscriptionRow :=
  mkSubscription (sb_id r) (sb_tenant r) (sb_plan_id r) (sb_counterparty_id r) (sb_subscriber_address r)
    (default (sb_subscriber_token_account r) (us_subscriberTokenAccount i))
    (default (sb_subscription_pda r) (us_subscriptionPda i))
    (default (sb_subscription_authority_address r) (us_subscriptionAuthorityAddress i))
    (default (sb_authorization_signature r) (us_authorizationSignature i))
    (default (sb_status r) (us_status i))
    (default (sb_current_period_start_at r) (us_currentPeriodStartAt i))
    (default (sb_next_collection_due_at r) (us_nextCollectionDueAt i))
    (default (sb_cancel_at r) (us_cancelAt i)) (default (sb_canceled_at r) (us_canceledAt i))
    (sb_created_by r) (sb_created_at r) (us_updatedAt i).

(** [idx_payment_subscriptions_subscription_pda] *)
Definition subscription_pda_taken (r : PaymentSubscriptionRow) (l : list PaymentSubscriptionRow) : bool :=
  match sb_subscription_pda r with
  | Some a => existsb (fun x => negb (String.eqb (sb_id x) (sb_id r)) && bool_decide (sb_subscription_pda x = Some a)) l
  | None => false
  end.

Definition updateSubscription (i : UpdatePaymentSubscriptionInput) (t : PayTables)
    : result (option PaymentSubscriptionRow * PayTables) :=
  match update_where (fun r =>
      is_subscription (us_tenant i) (us_subscriptionId i) r
      && match us_expectedNextCollectionDueAt i with
         | Some due => bool_decide (sb_next_collection_due_at r = due)
         | None => true
         end
      && match us_expectedStatus i with Some s => bool_decide (sb_status r = s) | None => true end)
    (updated_subscription i) (subscriptions t) with
  | (Some r, l) =>
      if subscription_pda_taken r (subscriptions t)
      then Err (unique_violation "idx_payment_subscriptions_subscription_pda")
      else Ok (Some r, with_subscriptions t l)
  | (None, _) => Ok (None, t)
  end.

(** *** Recurring payments *)

Definition is_recurring (tenant : PayTenant) (id : string) (r : PaymentRecurringPaymentRow) : bool :=
  String.eqb (rp_id r) id && bool_decide (rp_tenant r = tenant).

Definition getRecurringPaymentById (tenant : PayTenant) (id : string) (t : PayTables)
    : option PaymentRecurringPaymentRow :=
  List.find (is_recurring tenant id) (recurring t).

(** The columns the modelled statements write. *)
Definition with_schedule (status : PaymentRecurringPaymentStatus) (nextDue destinationTokenAccount : option string)
    (updatedAt : string) (r : PaymentRecurringPaymentRow) : PaymentRecurringPaymentRow :=
  mkRecurring (rp_id r) (rp_tenant r) (rp_source_wallet_id r) (rp_source_address r) (rp_counterparty_id r)
    (rp_counterparty_account_id r) (rp_destination_address r) destinationTokenAccount (rp_token r) (rp_amount r)
    (rp_period_hours r) (rp_first_collection_at r) nextDue (rp_plan_id r) (rp_subscription_id r) (rp_plan_pda r)
    (rp_plan_created_at r) (rp_plan_creation_signature r) (rp_subscription_pda r)
    (rp_subscription_authority_address r) (rp_authorization_signature r) status (rp_metadata_uri r)
    (rp_created_by r) (rp_created_at r) updatedAt.

Definition update_recurring (p : PaymentRecurringPaymentRow -> bool)
    (f : PaymentRecurringPaymentRow -> PaymentRecurringPaymentRow) (t : PayTables)
    : option PaymentRecurringPaymentRow * PayTables :=
  let '(r, l) := update_where p f (recurring t) in
  (r, match r with Some _ => with_recurring t l | None => t end).

Record UpdateRecurringPaymentCollectionInput := mkUpdateCollection {
  uc_recurringPaymentId : string;
  uc_tenant : PayTenant;
  uc_currentCollectionDueAt : string;
  uc_nextCollectionDueAt : string;
  uc_destinationTokenAccount : patch;
  uc_updatedAt : string;
}.

Definition updateRecurringPaymentCollection (i : UpdateRecurringPaymentCollectionInput) (t : PayTables)
    : option PaymentRecurringPaymentRow * PayTables :=
  update_recurring
    (fun r => is_recurring (uc_tenant i) (uc_recurringPaymentId i) r
              && bool_decide (rp_next_collection_due_at r = Some (uc_currentCollectionDueAt i))
              && bool_decide (rp_status r = rs_active))
    (fun r => with_schedule (rp_status r) (Some (uc_nextCollectionDueAt i))
                (default (rp_destination_token_account r) (uc_destinationTokenAccount i)) (uc_updatedAt i) r) t.

Definition updateRecurringPaymentDestinationTokenAccount (tenant : PayTenant)
    (recurringPaymentId destinationTokenAccount updatedAt : string) (t : PayTables)
    : option PaymentRecurringPaymentRow * PayTables :=
  update_recurring
    (fun r => is_recurring tenant recurringPaymentId r && bool_decide (rp_status r = rs_active))
    (fun r => with_schedule (rp_status r) (rp_next_collection_due_at r) (Some destinationTokenAccount) updatedAt r) t.

Definition with_status (status : PaymentRecurringPaymentStatus) (updatedAt : string)
    (r : PaymentRecurringPaymentRow) : PaymentRecurringPaymentRow :=
  with_schedule status (rp_next_collection_due_at r) (rp_destination_token_account r) updatedAt r.

Definition claimRecurringPaymentLifecycle (text_le : string -> string -> bool) (tenant : PayTenant)
    (recurringPaymentId : string) (operation : LifecycleOperation) (updatedAt : string) (staleBefore : option string)
    (t : PayTables) : option PaymentRecurringPaymentRow * PayTables :=
  let '(processingStatus, claimableStatus) :=
    match operation with op_cancel => (rs_canceling, rs_active) | op_resume => (rs_resuming, rs_canceled) end in
  update_recurring
    (fun r => is_recurring tenant recurringPaymentId r
              && (bool_decide (rp_status r = claimableStatus)
                  || (bool_decide (rp_status r = processingStatus)
                      && match staleBefore with Some s => text_le (rp_updated_at r) s | None => false end)))
    (with_status processingStatus updatedAt) t.

Definition updateRecurringPaymentLifecycle (tenant : PayTenant) (recurringPaymentId : string)
    (status expectedStatus : PaymentRecurringPaymentStatus) (updatedAt : string) (t : PayTables)
    : option PaymentRecurringPaymentRow * PayTables :=
  update_recurring
    (fun r => is_recurring tenant recurringPaymentId r && bool_decide (rp_status r = expectedStatus))
    (with_status status updatedAt) t.

(** *** Lifecycle attempts *)

Definition is_lifecycle_attempt (tenant : PayTenant) (id : string) (r : LifecycleAttemptRow) : bool :=
  String.eqb (la_id r) id && bool_decide (la_tenant r = tenant).

Definition createLifecycleAttempt (r : LifecycleAttemptRow) (t : PayTables)
    : result (option LifecycleAttemptRow * PayTables) :=
  if existsb (fun x => String.eqb (la_id x) (la_id r)) (lifecycle_attempts t)
  then Err (unique_violation "payment_recurring_payment_lifecycle_attempts_pkey")
  else if negb (existsb (fun x => String.eqb (rp_id x) (la_recurring_payment_id r)) (recurring t))
  then Err (foreign_key_violation "payment_recurring_payment_lifecycle_attempts")
  else
    let t' := with_lifecycle_attempts t (lifecycle_attempts t ++ [r]) in
    Ok (List.find (is_lifecycle_attempt (la_tenant r) (la_id r)) (lifecycle_attempts t'), t').

Record UpdateLifecycleAttemptInput := mkUpdateLifecycleAttempt {
  ul_attemptId : string;
  ul_tenant : PayTenant;
  ul_status : option LifecycleAttemptStatus;
  ul_stage : option LifecycleAttemptStage;
  ul_signature : patch;
  ul_error : patch;
  ul_metadata : option json_object;
  ul_updatedAt : string;
}.

Definition updateLifecycleAttempt (i : UpdateLifecycleAttemptInput) (t : PayTables)
    : result (LifecycleAttemptRow * PayTables) :=
  match update_where (is_lifecycle_attempt (ul_tenant i) (ul_attemptId i))
    (fun r => mkLifecycleAttempt (la_id r) (la_tenant r) (la_recurring_payment_id r) (la_operation r)
                (default (la_status r) (ul_status i)) (default (la_stage r) (ul_stage i))
                (default (la_signature r) (ul_signature i)) (default (la_error r) (ul_error i))
                (default (la_metadata r) (ul_metadata i)) (la_created_at r) (ul_updatedAt i))
    (lifecycle_attempts t) with
  | (Some r, l) => Ok (r, with_lifecycle_attempts t l)
  | (None, _) => Err (PlainError "Lifecycle attempt update did not match an existing attempt")
  end.

(** [ORDER BY created_at DESC, updated_at DESC, id DESC LIMIT 1] *)
Definition getLatestLifecycleAttempt (text_le : string -> string -> bool) (tenant : PayTenant)
    (recurringPaymentId : string) (operation : LifecycleOperation) (statuses : list LifecycleAttemptStatus)
    (t : PayTables) : option LifecycleAttemptRow :=
  head (order_by (fun a b => key_le text_le [la_created_at b; la_updated_at b; la_id b]
                               [la_created_at a; la_updated_at a; la_id a])
    (List.filter (fun r => bool_decide (la_tenant r = tenant)
                           && String.eqb (la_recurring_payment_id r) recurringPaymentId
                           && bool_decide (la_operation r = operation)
                           && (bool_decide (statuses = []) || bool_decide (la_status r ∈ statuses)))
       (lifecycle_attempts t))).
