(* ===== verification/ActivationTables.v ===== *)
(** * Payments: the statements of an activation

    What the activation of a recurring payment reads and writes of the tables of
    PaymentTables.v: the methods of [db/repositories/payment-recurring-payments.repository.postgres.ts]
    on a payment that is being activated and on its activation attempts (migrations 0009,
    0015 and 0022), and those of [payment-subscriptions.repository.postgres.ts] on its
    plan and its subscription (0007), with the calls an activation makes of them and of
    the chain. The row of the counterparty is there: the payment refers to it. *)
From Stdlib Require Import Ascii String ZArith Lia.
From stdpp Require Import base list strings.
From S2P Require Import Prelude Text Rows PolicyTypes PaymentTables.

Local Open Scope string_scope.
Local Open Scope Z_scope.
Local Open Scope list_scope.
Local Open Scope sdp_scope.

(** ** The payment *)

(** [staleBefore] is the text the age of an earlier claim is compared with. *)
Definition claimRecurringPaymentActivation (text_le : string -> string -> bool) (tenant : PayTenant)
    (recurringPaymentId updatedAt : string) (staleBefore : option string) (t : PayTables)
    : option PaymentRecurringPaymentRow * PayTables :=
  update_recurring
    (fun r => is_recurring tenant recurringPaymentId r
              && (bool_decide (rp_status r = rs_pending_activation)
                  || (bool_decide (rp_status r = rs_activating)
                      && match staleBefore with Some s => text_le (rp_updated_at r) s | None => false end)))
    (with_status rs_activating updatedAt) t.

Definition resetRecurringPaymentActivationIfNotActive (tenant : PayTenant) (recurringPaymentId updatedAt : string)
    (t : PayTables) : option PaymentRecurringPaymentRow * PayTables :=
  update_recurring
    (fun r => is_recurring tenant recurringPaymentId r && bool_decide (rp_status r = rs_activating))
    (with_status rs_pending_activation updatedAt) t.

Record UpdateRecurringPaymentActivationInput := mkUpdateActivation {
  un_recurringPaymentId : string;
  un_tenant : PayTenant;
  un_status : option PaymentRecurringPaymentStatus;
  un_planId : patch;
  un_subscriptionId : patch;
  un_planPda : patch;
  un_planCreatedAt : patch;
  un_planCreationSignature : patch;
  un_subscriptionPda : patch;
  un_subscriptionAuthorityAddress : patch;
  un_authorizationSignature : patch;
  un_nextCollectionDueAt : patch;
  un_destinationTokenAccount : patch;
  un_updatedAt : string;
}.

Definition activation_updated (i : UpdateRecurringPaymentActivationInput) (r : PaymentRecurringPaymentRow)
    : PaymentRecurringPaymentRow :=
  mkRecurring (rp_id r) (rp_tenant r) (rp_source_wallet_id r) (rp_source_address r) (rp_counterparty_id r)
    (rp_counterparty_account_id r) (rp_destination_address r)
    (default (rp_destination_token_account r) (un_destinationTokenAccount i)) (rp_token r) (rp_amount r)
    (rp_period_hours r) (rp_first_collection_at r)
    (default (rp_next_collection_due_at r) (un_nextCollectionDueAt i))
    (default (rp_plan_id r) (un_planId i)) (default (rp_subscription_id r) (un_subscriptionId i))
    (default (rp_plan_pda r) (un_planPda i)) (default (rp_plan_created_at r) (un_planCreatedAt i))
    (default (rp_plan_creation_signature r) (un_planCreationSignature i))
    (default (rp_subscription_pda r) (un_subscriptionPda i))
    (default (rp_subscription_authority_address r) (un_subscriptionAuthorityAddress i))
    (default (rp_authorization_signature r) (un_authorizationSignature i))
    (default (rp_status r) (un_status i)) (rp_metadata_uri r) (rp_created_by r) (rp_created_at r) (un_updatedAt i).

(** [FOREIGN KEY (plan_id)], [FOREIGN KEY (subscription_id)] *)
Definition recurring_references (r : PaymentRecurringPaymentRow) (t : PayTables) : bool :=
  match rp_plan_id r with Some x => existsb (fun p => String.eqb (pl_id p) x) (plans t) | None => true end
  && match rp_subscription_id r with
     | Some x => existsb (fun s => String.eqb (sb_id s) x) (subscriptions t)
     | None => true
     end.

(** The status is looked at unless it is to be [active]. *)
Definition updateRecurringPaymentActivation (i : UpdateRecurringPaymentActivationInput) (t : PayTables)
    : result (option PaymentRecurringPaymentRow * PayTables) :=
  match update_recurring
      (fun r => is_recurring (un_tenant i) (un_recurringPaymentId i) r
                && (bool_decide (rp_status r = rs_activating) || bool_decide (un_status i = Some rs_active)))
      (activation_updated i) t with
  | (Some r, t') =>
      if recurring_references r t then Ok (Some r, t')
      else Err (foreign_key_violation "payment_recurring_payments")
  | (None, t') => Ok (None, t')
  end.

(** ** Attempts *)

Definition is_activation_attempt (tenant : PayTenant) (id : string) (r : ActivationAttemptRow) : bool :=
  String.eqb (av_id r) id && bool_decide (av_tenant r = tenant).

Definition createActivationAttempt (r : ActivationAttemptRow) (t : PayTables)
    : result (option ActivationAttemptRow * PayTables) :=
  if existsb (fun x => String.eqb (av_id x) (av_id r)) (activation_attempts t)
  then Err (unique_violation "payment_recurring_payment_activation_attempts_pkey")
  else if negb (existsb (fun x => String.eqb (rp_id x) (av_recurring_payment_id r)) (recurring t))
  then Err (foreign_key_violation "payment_recurring_payment_activation_attempts")
  else
    let t' := with_activation_attempts t (activation_attempts t ++ [r]) in
    Ok (List.find (is_activation_attempt (av_tenant r) (av_id r)) (activation_attempts t'), t').

Record UpdateActivationAttemptInput := mkUpdateActivationAttempt {
  uv_attemptId : string;
  uv_tenant : PayTenant;
  uv_status : option ActivationAttemptStatus;
  uv_stage : option ActivationAttemptStage;
  uv_planCreationSignature : patch;
  uv_authorizationSignature : patch;
  uv_error : patch;
  uv_metadata : option json_object;
  uv_updatedAt : string;
}.

Definition updateActivationAttempt (i : UpdateActivationAttemptInput) (t : PayTables)
    : result (option ActivationAttemptRow * PayTables) :=
  match update_where (is_activation_attempt (uv_tenant i) (uv_attemptId i))
    (fun r => mkActivationAttempt (av_id r) (av_tenant r) (av_recurring_payment_id r)
                (default (av_status r) (uv_status i)) (default (av_stage r) (uv_stage i))
                (default (av_plan_creation_signature r) (uv_planCreationSignature i))
                (default (av_authorization_signature r) (uv_authorizationSignature i))
                (default (av_error r) (uv_error i)) (default (av_metadata r) (uv_metadata i))
                (av_created_at r) (uv_updatedAt i))
    (activation_attempts t) with
  | (Some r, l) => Ok (Some r, with_activation_attempts t l)
  | (None, _) => Err (PlainError "Activation attempt update did not match an existing attempt")
  end.

(** [ORDER BY created_at DESC, updated_at DESC, id DESC LIMIT 1] *)
Definition getLatestActivationAttempt (text_le : string -> string -> bool) (tenant : PayTenant)
    (recurringPaymentId : string) (statuses : list ActivationAttemptStatus) (t : PayTables)
    : option ActivationAttemptRow :=
  head (order_by (fun a b => key_le text_le [av_created_at b; av_updated_at b; av_id b]
                               [av_created_at a; av_updated_at a; av_id a])
    (List.filter (fun r => bool_decide (av_tenant r = tenant)
                           && String.eqb (av_recurring_payment_id r) recurringPaymentId
                           && (bool_decide (statuses = []) || bool_decide (av_status r ∈ statuses)))
       (activation_attempts t))).

(** ** Plans *)

Definition is_plan (tenant : PayTenant) (id : string) (r : PaymentSubscriptionPlanRow) : bool :=
  String.eqb (pl_id r) id && bool_decide (pl_tenant r = tenant).

(** [idx_payment_subscription_plans_plan_pda] *)
Definition plan_pda_taken (r : PaymentSubscriptionPlanRow) (l : list PaymentSubscriptionPlanRow) : bool :=
  match pl_plan_pda r with
  | Some a => existsb (fun x => negb (String.eqb (pl_id x) (pl_id r)) && bool_decide (pl_plan_pda x = Some a)) l
  | None => false
  end.

(** The keys of the table: [id], [idx_payment_subscription_plans_program_plan] and that
    of the address. *)
Definition plan_conflicts (r : PaymentSubscriptionPlanRow) (l : list PaymentSubscriptionPlanRow) : bool :=
  existsb (fun x => String.eqb (pl_id x) (pl_id r)
                    || (bool_decide (pl_tenant x = pl_tenant r)
                        && String.eqb (pl_program_plan_id x) (pl_program_plan_id r))) l
  || plan_pda_taken r l.

(** [INSERT ... ON CONFLICT DO NOTHING], then the row of that id. *)
Definition createPlan (r : PaymentSubscriptionPlanRow) (t : PayTables)
    : result (option PaymentSubscriptionPlanRow * PayTables) :=
  if pl_period_hours r <=? 0 then Err (check_violation "payment_subscription_plans_period_hours_positive")
  else
    let t' := if plan_conflicts r (plans t) then t else with_plans t (plans t ++ [r]) in
    Ok (getPlanById (pl_tenant r) (pl_id r) t', t').

Record UpdatePaymentSubscriptionPlanInput := mkUpdatePlan {
  up_planId : string;
  up_tenant : PayTenant;
  up_planPda : patch;
  up_destinationAddress : patch;
  up_pullerWalletId : patch;
  up_pullerAddress : patch;
  up_metadataUri : patch;
  up_status : option PaymentSubscriptionPlanStatus;
  up_updatedAt : string;
}.

Definition updated_plan (i : UpdatePaymentSubscriptionPlanInput) (r : PaymentSubscriptionPlanRow)
    : PaymentSubscriptionPlanRow :=
  mkPlan (pl_id r) (pl_tenant r) (pl_owner_wallet_id r) (pl_owner_address r) (pl_token r) (pl_amount r)
    (pl_period_hours r) (pl_program_plan_id r) (default (pl_plan_pda r) (up_planPda i))
    (default (pl_destination_address r) (up_destinationAddress i))
    (default (pl_puller_wallet_id r) (up_pullerWalletId i)) (default (pl_puller_address r) (up_pullerAddress i))
    (default (pl_metadata_uri r) (up_metadataUri i)) (default (pl_status r) (up_status i)) (pl_created_by r)
    (pl_created_at r) (up_updatedAt i).

Definition updatePlan (i : UpdatePaymentSubscriptionPlanInput) (t : PayTables)
    : result (option PaymentSubscriptionPlanRow * PayTables) :=
  match update_where (is_plan (up_tenant i) (up_planId i)) (updated_plan i) (plans t) with
  | (Some r, l) =>
      if plan_pda_taken r (plans t) then Err (unique_violation "idx_payment_subscription_plans_plan_pda")
      else Ok (Some r, with_plans t l)
  | (None, _) => Ok (None, t)
  end.

(** ** Subscriptions *)

(** The conflict target: [idx_payment_subscriptions_counterparty_plan]. *)
Definition same_subscription (r x : PaymentSubscriptionRow) : bool :=
  bool_decide (sb_tenant x = sb_tenant r) && String.eqb (sb_plan_id x) (sb_plan_id r)
  && String.eqb (sb_counterparty_id x) (sb_counterparty_id r).

(** [INSERT ... ON CONFLICT (organization_id, project_id, plan_id, counterparty_id) DO NOTHING],
    then the row of that id. *)
Definition createSubscription (r : PaymentSubscriptionRow) (t : PayTables)
    : result (option PaymentSubscriptionRow * PayTables) :=
  if existsb (same_subscription r) (subscriptions t)
  then Ok (getSubscriptionById (sb_tenant r) (sb_id r) t, t)
  else if existsb (fun x => String.eqb (sb_id x) (sb_id r)) (subscriptions t)
  then Err (unique_violation "payment_subscriptions_pkey")
  else if subscription_pda_taken r (subscriptions t)
  then Err (unique_violation "idx_payment_subscriptions_subscription_pda")
  else if negb (existsb (fun p => String.eqb (pl_id p) (sb_plan_id r)) (plans t))
  then Err (foreign_key_violation "payment_subscriptions")
  else
    let t' := with_subscriptions t (subscriptions t ++ [r]) in
    Ok (getSubscriptionById (sb_tenant r) (sb_id r) t', t').

Record ListSubscriptionsInput := mkListSubscriptions {
  ls_tenant : PayTenant;
  ls_planId : option string;
  ls_counterpartyId : option string;
  ls_subscriberAddress : option string;
  ls_limit : Z;
}.

(** A filter that is given and not empty. *)
Definition filter_holds (f : option string) (column : string) : bool :=
  match f with Some x => negb (truthy (Some x)) || String.eqb column x | None => true end.

(** The rows, the newest first; the filters an activation uses, with no offset. *)
Definition listSubscriptions (text_le : string -> string -> bool) (i : ListSubscriptionsInput) (t : PayTables)
    : list PaymentSubscriptionRow :=
  take (Z.to_nat (ls_limit i))
    (order_by (fun a b => text_le (sb_created_at b) (sb_created_at a))
       (List.filter (fun r => bool_decide (sb_tenant r = ls_tenant i)
                              && filter_holds (ls_planId i) (sb_plan_id r)
                              && filter_holds (ls_counterpartyId i) (sb_counterparty_id r)
                              && filter_holds (ls_subscriberAddress i) (sb_subscriber_address r))
          (subscriptions t))).

(** ** Calls *)

Inductive activation_call : Type :=
| ClaimActivation (tenant : PayTenant) (id updatedAt : string) (staleBefore : option string)
| ResetActivation (tenant : PayTenant) (id updatedAt : string)
| UpdateActivation (i : UpdateRecurringPaymentActivationInput)
| CreateActivationAttempt (r : ActivationAttemptRow)
| UpdateActivationAttempt (i : UpdateActivationAttemptInput)
| LatestActivationAttempt (tenant : PayTenant) (recurringPaymentId : string) (statuses : list ActivationAttemptStatus)
| CreatePlanRow (r : PaymentSubscriptionPlanRow)
| UpdatePlanRow (i : UpdatePaymentSubscriptionPlanInput)
| CreateSubscriptionRow (r : PaymentSubscriptionRow)
| UpdateSubscriptionRow (i : UpdatePaymentSubscriptionInput)
| ListSubscriptions (i : ListSubscriptionsInput)
| NewProgramPlanId
| FindPlanPda (owner : string) (planId : Z)
| FindSubscriptionAuthorityPda (tokenMint user : string)
| FindSubscriptionDelegationPda (planPda subscriber : string)
| FetchPlan (planPda : string)
| FetchSubscriptionAuthority (address : string).

(** [NewProgramPlanId] is [generateProgramPlanId]: a random number that is not zero, as
    text. What the chain has of a plan is when it was created, of an authority the id of
    its initialization. *)
Definition activation_answer (c : activation_call) : Type :=
  match c with
  | ClaimActivation _ _ _ _ | ResetActivation _ _ _ | UpdateActivation _ => option PaymentRecurringPaymentRow
  | CreateActivationAttempt _ | UpdateActivationAttempt _ | LatestActivationAttempt _ _ _ => option ActivationAttemptRow
  | CreatePlanRow _ | UpdatePlanRow _ => option PaymentSubscriptionPlanRow
  | CreateSubscriptionRow _ | UpdateSubscriptionRow _ => option PaymentSubscriptionRow
  | ListSubscriptions _ => list PaymentSubscriptionRow
  | NewProgramPlanId | FindPlanPda _ _ | FindSubscriptionAuthorityPda _ _ | FindSubscriptionDelegationPda _ _ => string
  | FetchPlan _ | FetchSubscriptionAuthority _ => option Z
  end.
