(* ===== verification/RecurringLifecycle.v ===== *)
(** * Recurring payments: the decisions of the lifecycle

    [packages/sdp-payments/src/recurring-payment-lifecycle.ts]: which operation may
    claim a recurring payment at which status, when one that stopped may be taken over,
    and how the due period of a collection follows from the last. Then the bounds of
    [services/payments/recurring-payment-config.ts]. *)
From Stdlib Require Import Ascii String ZArith Lia.
From stdpp Require Import base list strings.
From S2P Require Import Prelude Text Dates PaymentTables.

Local Open Scope string_scope.
Local Open Scope Z_scope.
Local Open Scope list_scope.
Local Open Scope sdp_scope.

Definition RECURRING_PAYMENT_OPERATION_STALE_AFTER_MS : Z := 15 * 60 * 1000.

Inductive RecurringPaymentTransition := already_final | claimable | recoverable | processing | invalid.

#[export] Instance RecurringPaymentTransition_eq_dec : EqDecision RecurringPaymentTransition.
Proof. solve_decision. Defined.

(** [new Date(s).getTime()], where [NaN] makes [toISOString] throw. *)
Definition shifted_instant (s : string) (ms : Z) : result string :=
  match Date_parse s with
  | Some t => toISOString (t + ms)
  | None => Err (PlainError "Invalid time value")
  end.

Definition getRecurringPaymentOperationStaleBefore (nowIso : string) : result string :=
  shifted_instant nowIso (- RECURRING_PAYMENT_OPERATION_STALE_AFTER_MS).

Definition isRecurringPaymentOperationStale (updatedAt nowIso : string) : result bool :=
  let? staleBefore := getRecurringPaymentOperationStaleBefore nowIso in
  Ok (match Date_parse updatedAt, Date_parse staleBefore with
      | Some u, Some s => u <=? s
      | _, _ => false
      end).

Record LifecycleStatuses := mkLifecycleStatuses {
  processingStatus : PaymentRecurringPaymentStatus;
  claimableStatus : PaymentRecurringPaymentStatus;
  finalStatus : PaymentRecurringPaymentStatus;
}.

Definition getRecurringPaymentLifecycleStatuses (operation : LifecycleOperation) : LifecycleStatuses :=
  match operation with
  | op_cancel => mkLifecycleStatuses rs_canceling rs_active rs_canceled
  | op_resume => mkLifecycleStatuses rs_resuming rs_canceled rs_active
  end.

(** [isRecurringPaymentOperationStale(input) ? "recoverable" : "processing"] *)
Definition taken_over (updatedAt nowIso : string) : result RecurringPaymentTransition :=
  let? stale := isRecurringPaymentOperationStale updatedAt nowIso in
  Ok (if stale then recoverable else processing).

Definition decideRecurringPaymentLifecycleTransition (operation : LifecycleOperation)
    (status : PaymentRecurringPaymentStatus) (updatedAt nowIso : string) : result RecurringPaymentTransition :=
  let s := getRecurringPaymentLifecycleStatuses operation in
  if bool_decide (status = finalStatus s) then Ok already_final
  else if bool_decide (status = processingStatus s) then taken_over updatedAt nowIso
  else Ok (if bool_decide (status = claimableStatus s) then claimable else invalid).

Definition decideRecurringPaymentActivationTransition (status : PaymentRecurringPaymentStatus)
    (updatedAt nowIso : string) : result RecurringPaymentTransition :=
  match status with
  | rs_active => Ok already_final
  | rs_activating => taken_over updatedAt nowIso
  | rs_pending_activation => Ok claimable
  | _ => Ok invalid
  end.

Definition decideRecurringPaymentUpdateTransition (status : PaymentRecurringPaymentStatus)
    (updatedAt nowIso : string) : result RecurringPaymentTransition :=
  match status with
  | rs_pending_activation | rs_active => Ok claimable
  | rs_updating => taken_over updatedAt nowIso
  | _ => Ok invalid
  end.

Definition nextRecurringPaymentCollectionDueAt (dueAt : string) (periodHours : Z) : result string :=
  shifted_instant dueAt (periodHours * 60 * 60 * 1000).

Definition hasRecurringPaymentAdvancedPastDueAt (nextDueAt : option string) (dueAt : string) : bool :=
  match (if truthy nextDueAt then nextDueAt ≫= Date_parse else None), Date_parse dueAt with
  | Some next, Some due => due <? next
  | _, _ => false
  end.

Definition isRecurringPaymentCollectionActive (status : PaymentRecurringPaymentStatus) : bool :=
  bool_decide (status = rs_active).

Inductive RecurringPaymentScheduleResolution :=
| scheduled (nextCollectionDueAt minimumDueAt : string) (clamped : bool)
| too_early (minimumDueAt : string).

(** [a < b] of two dates: false of an invalid one. *)
Definition date_before (a b : string) : bool :=
  match Date_parse a, Date_parse b with Some x, Some y => x <? y | _, _ => false end.

Definition resolveRecurringPaymentCollectionSchedule (requested : option string) (periodStartAt : string)
    (periodHours : Z) (clampToMinimum : bool) : result RecurringPaymentScheduleResolution :=
  let? minimumDueAt := nextRecurringPaymentCollectionDueAt periodStartAt periodHours in
  let requested := default minimumDueAt requested in
  Ok (if date_before requested minimumDueAt
      then if clampToMinimum then scheduled minimumDueAt minimumDueAt true else too_early minimumDueAt
      else scheduled requested minimumDueAt false).

(** ** The configuration *)

Definition DEFAULT_RECURRING_COLLECTION_RETRY_AFTER_MINUTES : Z := 30.

Fixpoint leading_digits (l : list ascii) : list ascii :=
  match l with
  | c :: rest => if is_digit c then c :: leading_digits rest else []
  | [] => []
  end.

(** [Number.parseInt(s, 10)], exact below 2^53; [None] is [NaN]. *)
Definition parse_int (s : string) : option Z :=
  let l := drop_while is_space (chars s) in
  let '(sign, l) :=
    match l with
    | "-"%char :: rest => (-1, rest)
    | "+"%char :: rest => (1, rest)
    | _ => (1, l)
    end in
  match leading_digits l with
  | [] => None
  | ds => Some (sign * of_digits ds)
  end.

Definition parsePositiveIntegerConfig (value : option string) (fallback : Z) : Z :=
  match value with
  | None => fallback
  | Some v =>
      if String.eqb (trimmed v) "" then fallback
      else match parse_int v with
           | Some parsed => if 0 <? parsed then parsed else fallback
           | None => fallback
           end
  end.

(** * Lemmas *)

Lemma config_positive value fallback : 0 < fallback -> 0 < parsePositiveIntegerConfig value fallback.
Proof.
  intros H. unfold parsePositiveIntegerConfig. destruct value as [v|]; [|done].
  destruct (String.eqb _ _); [done|]. destruct (parse_int v) as [n|]; [|done].
  destruct (Z.ltb_spec 0 n); done.
Qed.

Example config_spellings :
  map (fun v => parsePositiveIntegerConfig v 25) [Some " 40"; Some "12abc"; Some "-3"; Some "x"; Some "  "; None]
  = [40; 12; 25; 25; 25; 25].
Proof. reflexivity. Qed.

(** A schedule is never before the period that has been paid for. *)
Lemma schedule_not_early requested periodStartAt periodHours clamp next minimum clamped :
  resolveRecurringPaymentCollectionSchedule requested periodStartAt periodHours clamp
    = Ok (scheduled next minimum clamped) ->
  nextRecurringPaymentCollectionDueAt periodStartAt periodHours = Ok minimum /\ date_before next minimum = false.
Proof.
  unfold resolveRecurringPaymentCollectionSchedule.
  destruct (nextRecurringPaymentCollectionDueAt periodStartAt periodHours) as [m|]; cbn [result_bind]; [|done].
  destruct (date_before (default m requested) m) eqn:E; [destruct clamp|]; try done; intros [= <- <- <-]; [|done].
  split; [done|]. unfold date_before. destruct (Date_parse m); [apply Z.ltb_irrefl|done].
Qed.
