(* ===== verification/TransientRpc.v ===== *)
(** * Retrying a transient RPC failure

    [packages/sdp-rpc/src/transient.ts]: which failures look transient, and the loop
    that repeats an operation after one, a bounded number of times within a budget. *)
From Stdlib Require Import Ascii String ZArith Lia.
From stdpp Require Import base list strings.
From S2P Require Import Prelude Text.

Local Open Scope string_scope.
Local Open Scope Z_scope.
Local Open Scope list_scope.
Local Open Scope sdp_scope.

(** ** The patterns *)

Fixpoint is_prefix (p l : list ascii) : bool :=
  match p, l with
  | [], _ => true
  | x :: p', y :: l' => Ascii.eqb x y && is_prefix p' l'
  | _, _ => false
  end.

(** Some suffix of the text satisfies [p], which also sees the character before it. *)
Fixpoint at_some_place (p : option ascii -> list ascii -> bool) (before : option ascii) (l : list ascii) : bool :=
  p before l || match l with [] => false | c :: rest => at_some_place p (Some c) rest end.

(** [\w] *)
Definition is_word (c : ascii) : bool :=
  let n := code c in
  is_digit c || ((65 <=? n) && (n <=? 90)) || ((97 <=? n) && (n <=? 122)) || (n =? 95).

Definition word_edge (c : option ascii) : bool := match c with Some c => negb (is_word c) | None => true end.

(** [/\b(408|429|500|502|503|504)\b/] *)
Definition TRANSIENT_HTTP_STATUS (message : string) : bool :=
  at_some_place (fun before l =>
      word_edge before && word_edge (head (skipn 3 l))
      && existsb (fun s => is_prefix (chars s) l) ["408"; "429"; "500"; "502"; "503"; "504"])
    None (chars message).

(** [timed?\s*out], at the start of the text. *)
Definition times_out (l : list ascii) : bool :=
  is_prefix (chars "time") l
  && let rest := skipn 4 l in
     let rest := match rest with "d"%char :: rest' => rest' | _ => rest end in
     is_prefix (chars "out") (drop_while is_space rest).

(** The alternatives of the pattern, case aside; [socket hang ?up] is two. *)
Definition TRANSIENT_ERROR_TEXT (message : string) : bool :=
  at_some_place (fun _ l =>
      times_out l
      || existsb (fun s => is_prefix (chars s) l)
           ["service unavailable"; "too many requests"; "gateway timeout"; "unable to complete"; "bad gateway";
            "fetch failed"; "network error"; "socket hangup"; "socket hang up"; "connection reset";
            "connection refused"; "econnreset"; "econnrefused"; "etimedout"; "eai_again"])
    None (chars (to_lower message)).

Section Transient.
(** [TRANSIENT_SOLANA_RPC_CODES.some((code) => isSolanaError(error, code))] *)
Variable transient_code : jserr -> bool.

Definition isTransientRpcError (error : jserr) : bool :=
  TRANSIENT_HTTP_STATUS (error_message error) || TRANSIENT_ERROR_TEXT (error_message error)
  || transient_code error.

(** ** The loop *)

Definition TRANSIENT_RPC_RETRY_DELAYS_MS : list Z := [250; 750; 1500].
Definition TRANSIENT_RPC_RETRY_BUDGET_MS : Z := 45000.

Section Retry.
Context {C : Type} {R : C -> Type} (clock : prog R Z) {A S : Type}.

(** [operation] reads and writes a variable outside of it. *)
Variable operation : S -> prog R (result A * S).

Fixpoint retry_from (startedAt : Z) (delays : list Z) (s : S) : prog R A :=
  let! (answer, s) := operation s in
  match answer with
  | Ok a => Ret a
  | Err error =>
      match delays with
      | [] => Throw error
      | _ :: delays =>
          if negb (isTransientRpcError error) then Throw error
          else
            let! now := clock in
            if TRANSIENT_RPC_RETRY_BUDGET_MS <=? now - startedAt then Throw error
            else retry_from startedAt delays s
      end
  end.

Definition withTransientRpcRetry (s : S) : prog R A :=
  let! startedAt := clock in
  retry_from startedAt TRANSIENT_RPC_RETRY_DELAYS_MS s.
End Retry.
End Transient.

(** * Lemmas *)

Example transient_spellings :
  map (fun m => isTransientRpcError (fun _ => false) (PlainError m))
    ["HTTP 503 from gateway"; "error 5031"; "Request timed  out"; "Timeout waiting"; "TimeOut"; "Fetch failed";
     "socket hangup"; "blockhash not found"; "Custom program error: #500"]
  = [true; false; true; true; true; true; true; false; true].
Proof. vm_compute. reflexivity. Qed.
