(* ===== verification/RecurringTransactions.v ===== *)
(** * Recurring payments: the database transactions

    The four transactions of [services/payments/recurring-payments]: a collection's
    transfer is created and linked to its attempt, a failed collection is settled, a
    proved one is finalized ([collection.ts]), and a cancellation or resumption is
    finalized ([lifecycle.ts]). Each is all of its statements or an error and none. *)
From Stdlib Require Import Ascii String ZArith Lia.
From stdpp Require Import base list strings.
From S2P Require Import Prelude Text Dates Rows PolicyTypes PaymentTables RecurringLifecycle.

Local Open Scope string_scope.
Local Open Scope Z_scope.
Local Open Scope list_scope.
Local Open Scope sdp_scope.

(** ** The metadata of an attempt *)

(** [{...o, [key]: value}] *)
Definition set_member (key : string) (value : json) (o : json_object) : json_object :=
  if existsb (fun e => String.eqb e.1 key) o
  then map (fun e => if String.eqb e.1 key then (key, value) else e) o
  else o ++ [(key, value)].

Definition set_optional (key : string) (value : option string) (o : json_object) : json_object :=
  match value with Some v => set_member key (JString v) o | None => o end.

Inductive RecurringCollectionSource := manual | automated.

Definition source_text (s : RecurringCollectionSource) : string :=
  match s with manual => "manual" | automated => "automated" end.

Record CollectionMetadataInput := mkMetadataInput {
  md_metadata : json_object;
  md_recurringPaymentId : string;
  md_transferId : option string;
  md_collectionSource : option RecurringCollectionSource;
  md_initiatedByKeyId : option string;
  md_extra : json_object;
}.

Definition recurringCollectionMetadata (i : CollectionMetadataInput) : json_object :=
  let metadata := md_metadata i in
  let source :=
    match md_collectionSource i with
    | Some s => Some (source_text s)
    | None =>
        match json_member "collectionSource" metadata with
        | Some (JString s) => if String.eqb s "manual" || String.eqb s "automated" then Some s else None
        | _ => None
        end
    end in
  let initiatedByKeyId :=
    match md_initiatedByKeyId i with
    | Some k => Some k
    | None => match json_member "initiatedByKeyId" metadata with Some (JString k) => Some k | _ => None end
    end in
  foldl (fun o e => set_member e.1 e.2 o)
    (set_optional "initiatedByKeyId" (if truthy initiatedByKeyId then initiatedByKeyId else None)
       (set_optional "collectionSource" source
          (set_optional "transferId" (if truthy (md_transferId i) then md_transferId i else None)
             (set_member "recurringPaymentId" (JString (md_recurringPaymentId i)) metadata))))
    (md_extra i).

(** ** Linking a transfer to its attempt *)

Definition no_transfer_update (id : string) (tenant : PayTenant) (updatedAt : string) : UpdatePaymentTransferInput :=
  mkUpdateTransfer id (Some tenant) None None None None None None None None None None None None None updatedAt.

Definition attempt_update (id : string) (tenant : PayTenant) (transferId : patch)
    (status : option CollectionAttemptStatus) (signature error : patch) (metadata : option json_object)
    (updatedAt : string) : UpdateCollectionAttemptInput :=
  mkUpdateAttempt id tenant transferId None status signature error metadata updatedAt.

(** [now] and [id] are the database's clock and the generated id of the transfer. *)
Definition link_transfer (now id : string) (i : CreatePaymentTransferInput) (attemptId updatedAt : string)
    (t : PayTables) : result ((PaymentSubscriptionCollectionAttemptRow * PaymentTransferRow) * PayTables) :=
  let? (created, t) := createTransfer now id i t in
  let? (linked, t) :=
    updateCollectionAttempt
      (attempt_update attemptId (ct_tenant i) (Some (Some (transfer_id created))) (Some ca_processing) None None None
         updatedAt) t in
  match linked with
  | Some a =>
      if bool_decide (ca_transfer_id a = Some (transfer_id created)) then Ok ((a, created), t)
      else Err (internalError "Failed to link collection attempt to transfer")
  | None => Err (internalError "Failed to link collection attempt to transfer")
  end.

(** ** Settling a failed collection *)

Record SettleFailedInput := mkSettleFailed {
  sf_tenant : PayTenant;
  sf_recurringPaymentId : string;
  sf_attempt : PaymentSubscriptionCollectionAttemptRow;
  sf_transfer : option PaymentTransferRow;
  sf_submittedSignature : option string;
  sf_message : string;
  sf_metadata : json_object;
  sf_failedAt : string;
}.

Definition failed_transfer (i : SettleFailedInput) (r : PaymentTransferRow) : PaymentTransferRow :=
  mkTransfer (xf_facts r) xs_failed (xf_amount r) (xf_fiat_amount r) (xf_provider_reference r)
    (xf_delivery_mode r) (xf_provider_data r)
    (match sf_submittedSignature i with Some s => Some s | None => xf_signature r end) (xf_serialized_tx r)
    (xf_signed_transaction r) (xf_last_valid_block_height r) (xf_submission_started_at r) (xf_slot r)
    (xf_block_time r) (xf_fee r) (Some (sf_message i)) (xf_confirmed_at r)
    (xf_finalization_last_polled_at r) (sf_failedAt i).

(** What settles the attempt: the signature of a transfer that had been confirmed, or none. *)
Definition settle_transfer (is_signature : string -> bool) (i : SettleFailedInput) (t : PayTables)
    : result (option string * PayTables) :=
  match sf_transfer i with
  | None => Ok (None, t)
  | Some xfer =>
      let? (updated, t) :=
        update_transfer (fun r => is_transfer (sf_tenant i) (transfer_id xfer) r
            && bool_decide (xf_status r ∈ [xs_pending; xs_processing; xs_failed])) (failed_transfer i) t in
      match updated with
      | Some _ => Ok (None, t)
      | None =>
          match getTransferById (sf_tenant i) (transfer_id xfer) t with
          | Some current =>
              if negb (bool_decide (xf_status current = xs_confirmed))
              then Err (internalError "Failed to mark collection transfer failed")
              else
                let currentSignature :=
                  match xf_signature current with Some s => Some s | None => sf_submittedSignature i end in
                match currentSignature with
                | Some s =>
                    if negb (truthy (Some s))
                    then Err (internalError "Confirmed collection transfer is missing signature")
                    else if is_signature s then Ok (Some s, t)
                    else Err (internalError "Recurring payment collection has an invalid stored signature")
                | None => Err (internalError "Confirmed collection transfer is missing signature")
                end
          | None => Err (internalError "Failed to mark collection transfer failed")
          end
      end
  end.

Definition settled_attempt (i : SettleFailedInput) (confirmed : option string)
    (r : PaymentSubscriptionCollectionAttemptRow) : PaymentSubscriptionCollectionAttemptRow :=
  let signature := match confirmed with Some s => Some s | None => sf_submittedSignature i end in
  mkAttempt (ca_facts r)
    (match sf_transfer i with Some x => Some (transfer_id x) | None => ca_transfer_id r end) (ca_attempted_at r)
    (if confirmed then ca_confirmed else ca_failed)
    (match signature with Some s => Some s | None => ca_signature r end)
    (if confirmed then None else Some (sf_message i))
    (if confirmed
     then recurringCollectionMetadata
            (mkMetadataInput (ca_metadata (sf_attempt i)) (sf_recurringPaymentId i) (transfer_id <$> sf_transfer i)
               None None [])
     else sf_metadata i)
    (sf_failedAt i).

Definition settle_failed (is_signature : string -> bool) (i : SettleFailedInput) (t : PayTables)
    : result (unit * PayTables) :=
  let? (confirmed, t) := settle_transfer is_signature i t in
  let writable := if confirmed then [ca_pending; ca_processing; ca_confirmed]
                  else [ca_pending; ca_processing; ca_failed] in
  let? (updated, t) :=
    update_attempt (fun r => is_attempt (sf_tenant i) (attempt_id (sf_attempt i)) r
        && bool_decide (ca_status r ∈ writable)) (settled_attempt i confirmed) t in
  match updated with
  | Some _ => Ok (tt, t)
  | None => Err (internalError "Failed to mark collection attempt failed")
  end.

(** ** Finalizing a proved collection *)

Record VerifiedRecurringPaymentCollection := mkProof {
  pf_attemptId : string;
  pf_dueAt : string;
  pf_destinationTokenAccount : string;
  pf_signature : string;
  pf_transferId : string;
}.

Record FinalizeCollectionInput := mkFinalizeCollection {
  fz_tenant : PayTenant;
  fz_recurringPayment : PaymentRecurringPaymentRow;
  fz_subscription : PaymentSubscriptionRow;
  fz_attempt : PaymentSubscriptionCollectionAttemptRow;
  fz_transfer : PaymentTransferRow;
  fz_proof : VerifiedRecurringPaymentCollection;
  fz_nextDueAt : string;
  fz_finalizedAt : string;
}.

Record RecurringPaymentCollection := mkCollection {
  cl_recurringPayment : PaymentRecurringPaymentRow;
  cl_subscription : PaymentSubscriptionRow;
  cl_collectionAttempt : PaymentSubscriptionCollectionAttemptRow;
  cl_transfer : PaymentTransferRow;
}.

Definition finalize_transfer_update (i : FinalizeCollectionInput) : UpdatePaymentTransferInput :=
  let expected := xf_status (fz_transfer i) in
  mkUpdateTransfer (transfer_id (fz_transfer i)) (Some (fz_tenant i)) (Some expected)
    (Some (if bool_decide (expected = xs_finalized) then xs_finalized else xs_confirmed))
    (Some (Some (pf_signature (fz_proof i)))) None None None None None None None None None (Some None)
    (fz_finalizedAt i).

Definition finalize_attempt_update (i : FinalizeCollectionInput) : UpdateCollectionAttemptInput :=
  attempt_update (attempt_id (fz_attempt i)) (fz_tenant i) (Some (Some (transfer_id (fz_transfer i))))
    (Some ca_confirmed) (Some (Some (pf_signature (fz_proof i)))) (Some None)
    (Some (recurringCollectionMetadata
             (mkMetadataInput (ca_metadata (fz_attempt i)) (rp_id (fz_recurringPayment i))
                (Some (transfer_id (fz_transfer i))) None None [])))
    (fz_finalizedAt i).

Definition finalize_subscription_update (i : FinalizeCollectionInput) : UpdatePaymentSubscriptionInput :=
  let dueAt := pf_dueAt (fz_proof i) in
  mkUpdateSubscription (sb_id (fz_subscription i)) (fz_tenant i) None None None None None (Some (Some dueAt))
    (Some (Some (fz_nextDueAt i))) (Some (Some dueAt)) (Some ss_active) None None (fz_finalizedAt i).

Definition finalize_recurring_update (i : FinalizeCollectionInput) : UpdateRecurringPaymentCollectionInput :=
  mkUpdateCollection (rp_id (fz_recurringPayment i)) (fz_tenant i) (pf_dueAt (fz_proof i)) (fz_nextDueAt i)
    (Some (Some (pf_destinationTokenAccount (fz_proof i)))) (fz_finalizedAt i).

(** [updated ?? (await get())] *)
Definition or_read {A} (updated read : option A) : option A := match updated with Some a => Some a | None => read end.

Definition hasStoppedSubscriptionCollections (s : PaymentSubscriptionRow) : bool :=
  negb (bool_decide (sb_status s = ss_active)).

(** The rows after the writes say the collection is complete. *)
Definition collection_complete (i : FinalizeCollectionInput) (recurringUpdated subscriptionUpdated : bool)
    (c : RecurringPaymentCollection) : bool :=
  let proof := fz_proof i in
  let '(r, s, a, x) := (cl_recurringPayment c, cl_subscription c, cl_collectionAttempt c, cl_transfer c) in
  (recurringUpdated || negb (isRecurringPaymentCollectionActive (rp_status r))
   || hasRecurringPaymentAdvancedPastDueAt (rp_next_collection_due_at r) (pf_dueAt proof))
  && (subscriptionUpdated || hasStoppedSubscriptionCollections s
      || hasRecurringPaymentAdvancedPastDueAt (sb_next_collection_due_at s) (pf_dueAt proof))
  && bool_decide (ca_status a = ca_confirmed) && bool_decide (ca_signature a = Some (pf_signature proof))
  && String.eqb (attempt_id a) (pf_attemptId proof) && bool_decide (ca_transfer_id a = Some (pf_transferId proof))
  && bool_decide (xf_status x ∈ [xs_confirmed; xs_finalized]) && bool_decide (xf_signature x = Some (pf_signature proof))
  && String.eqb (transfer_id x) (pf_transferId proof).

Definition finalize_collection (i : FinalizeCollectionInput) (t : PayTables)
    : result (RecurringPaymentCollection * PayTables) :=
  let tenant := fz_tenant i in
  let? (updatedTransfer, t) := updateTransfer (finalize_transfer_update i) t in
  let transfer := or_read updatedTransfer (getTransferById tenant (transfer_id (fz_transfer i)) t) in
  let? (updatedAttempt, t) := updateCollectionAttempt (finalize_attempt_update i) t in
  let attempt := or_read updatedAttempt (getCollectionAttemptById tenant (attempt_id (fz_attempt i)) t) in
  let? (updatedSubscription, t) := updateSubscription (finalize_subscription_update i) t in
  let subscription := or_read updatedSubscription (getSubscriptionById tenant (sb_id (fz_subscription i)) t) in
  let '(updatedRecurringPayment, t) := updateRecurringPaymentCollection (finalize_recurring_update i) t in
  let recurringPayment :=
    or_read updatedRecurringPayment (getRecurringPaymentById tenant (rp_id (fz_recurringPayment i)) t) in
  match recurringPayment, subscription, attempt, transfer with
  | Some r, Some s, Some a, Some x =>
      let c := mkCollection r s a x in
      if collection_complete i (bool_decide (is_Some updatedRecurringPayment)) (bool_decide (is_Some updatedSubscription)) c
      then Ok (c, t)
      else Err (internalError "Failed to finalize recurring payment collection")
  | _, _, _, _ => Err (internalError "Failed to finalize recurring payment collection")
  end.

(** ** Finalizing a cancellation or a resumption *)

Record FinalizeLifecycleInput := mkFinalizeLifecycle {
  fl_lifecycle_tenant : PayTenant;
  fl_operation : LifecycleOperation;
  fl_recurringPayment : PaymentRecurringPaymentRow;
  fl_subscription : PaymentSubscriptionRow;
  fl_attempt : LifecycleAttemptRow;
  fl_signature : string;
  fl_finalizedAt : string;
}.

Definition final_subscription_status (operation : LifecycleOperation) : PaymentSubscriptionStatus :=
  match operation with op_cancel => ss_canceled | op_resume => ss_active end.

Definition lifecycle_update (id : string) (tenant : PayTenant) (status : option LifecycleAttemptStatus)
    (stage : option LifecycleAttemptStage) (signature error : patch) (updatedAt : string) : UpdateLifecycleAttemptInput :=
  mkUpdateLifecycleAttempt id tenant status stage signature error None updatedAt.

Definition finalize_lifecycle (i : FinalizeLifecycleInput) (t : PayTables)
    : result (PaymentRecurringPaymentRow * PayTables) :=
  let tenant := fl_lifecycle_tenant i in
  let at_ := fl_finalizedAt i in
  let s := getRecurringPaymentLifecycleStatuses (fl_operation i) in
  let subscriptionStatus := final_subscription_status (fl_operation i) in
  let cancelAt := match fl_operation i with op_cancel => Some at_ | op_resume => None end in
  let? (updatedSubscription, t) :=
    updateSubscription
      (mkUpdateSubscription (sb_id (fl_subscription i)) tenant None None None None (Some subscriptionStatus) None None
         None None (Some cancelAt) (Some cancelAt) at_) t in
  let '(updatedRecurringPayment, t) :=
    updateRecurringPaymentLifecycle tenant (rp_id (fl_recurringPayment i)) (finalStatus s) (processingStatus s) at_ t in
  let? (updatedAttempt, t) :=
    updateLifecycleAttempt
      (lifecycle_update (la_id (fl_attempt i)) tenant (Some la_confirmed) (Some stage_finalize)
         (Some (Some (fl_signature i))) (Some None) at_) t in
  match updatedSubscription, updatedRecurringPayment with
  | Some sub, Some r =>
      if bool_decide (sb_status sub = subscriptionStatus) && bool_decide (rp_status r = finalStatus s)
         && bool_decide (la_status updatedAttempt = la_confirmed)
         && bool_decide (la_signature updatedAttempt = Some (fl_signature i))
      then Ok (r, t)
      else Err (internalError "Failed to finalize recurring payment lifecycle")
  | _, _ => Err (internalError "Failed to finalize recurring payment lifecycle")
  end.
