(* ===== verification/PaymentCalls.v ===== *)
(** * Payments: what the services call

    The calls a recurring collection, a lifecycle operation and the tracker of transfers
    make, with their answers: the statements and transactions of PaymentTables.v and
    RecurringTransactions.v, those of an activation (ActivationTables.v), the clock, the RPC, custody, the sponsored fee payment of
    BudgetService.v and the policy engine's store. What the Solana kit computes is the
    class [PaymentKit]. *)
From Stdlib Require Import Ascii String ZArith Lia.
From stdpp Require Import base list strings.
From S2P Require Import Prelude Text PolicyTypes PolicyEnforce PolicyService BudgetTypes BudgetService.
From S2P Require Import PaymentTables ActivationTables RecurringLifecycle RecurringTransactions.

Local Open Scope string_scope.
Local Open Scope Z_scope.
Local Open Scope list_scope.
Local Open Scope sdp_scope.

(** ** The kit *)

(** The data of a [TransferSubscription] instruction. *)
Record TransferSubscriptionData := mkTransferData {
  td_is_transfer : bool;
  td_amount : Z;
  td_delegator : string;
  td_mint : string;
}.

Class PaymentKit := mkPaymentKit {
  (** [getBase64Decoder().decode(bytes)] *)
  base64_text : string -> string;
  (** [assertIsSignature] and [assertIsAddress] do not throw. *)
  is_signature : string -> bool;
  is_address : string -> bool;
  (** A preflight failure: its message, and whether it is the custom error 17. *)
  preflight_failure : jserr -> option (string * bool);
  (** One of [TRANSIENT_SOLANA_RPC_CODES]. *)
  transient_code : jserr -> bool;
  (** The decoder of the subscriptions program, of base58 data; [None] when it throws. *)
  decode_transfer : string -> option TransferSubscriptionData;
  SUBSCRIPTIONS_PROGRAM_ADDRESS : string;
}.

(** ** Values *)

Record CustodyWallet := mkCustodyWallet { cw_id : string; cw_walletId : string; cw_publicKey : string }.

Record ProjectRow := mkProject {
  pj_id : string;
  pj_organizationId : string;
  pj_active : bool;
  pj_environment : ProductEnvironment;
}.

Record ParsedInstruction := mkParsedInstruction {
  ix_programId : string;
  ix_accounts : option (list string);
  ix_data : option string;
}.

Record ParsedTransaction := mkParsedTransaction {
  pt_failed : bool;
  pt_instructions : list ParsedInstruction;
}.

(** What an instruction builder is given. *)
Inductive InstructionSpec :=
| CreateAta (payer ata owner mint tokenProgram : string)
| TransferSubscription (amount : Z) (caller delegator planPda receiverAta subscriptionPda tokenMint tokenProgram : string)
| CancelSubscription (planPda subscriber subscriptionPda : string)
| ResumeSubscription (expectedExpiresAtTs : Z) (planPda subscriber subscriptionPda tokenMint : string)
| CreatePlan (amount : Z) (destinations : list string) (endTs : Z) (metadataUri mint owner : string) (periodHours planId : Z)
    (pullers : list string) (tokenProgram : string)
| InitSubscriptionAuthority (owner payer tokenMint tokenProgram userAta : string)
| Subscribe (expectedAmount expectedCreatedAt expectedPeriodHours expectedSubscriptionAuthorityInitId : Z)
    (merchant payer : string) (planId : Z) (subscriber tokenMint : string).

Record PaymentMessage := mkMessage {
  msg_feePayer : string;
  msg_blockhash : string;
  msg_lastValidBlockHeight : Z;
  msg_instructions : list string;
  msg_signer : string;
}.

(** What [resolveSourceTokenAccountOrAta] answers. *)
Record SourceTokenAccount := mkSourceTokenAccount {
  sta_tokenAccount : string;
  sta_decimals : Z;
  sta_exists : bool;
}.

Inductive ConfirmationStatus := cs_processed | cs_confirmed | cs_finalized.

#[export] Instance ConfirmationStatus_eq_dec : EqDecision ConfirmationStatus.
Proof. solve_decision. Defined.

(** An RPC's answer about a signature; an error by its [JSON.stringify], which throws when
    there is a bigint in it. *)
Record SignatureStatus := mkSignatureStatus {
  sg_slot : Z;
  sg_confirmationStatus : option ConfirmationStatus;
  sg_err : option (result string);
}.

Record FailedCollectionEvent := mkFailedEvent {
  fe_tenant : PayTenant;
  fe_recurringPaymentId : string;
  fe_cycle : Cycle;
  fe_attemptId : string;
  fe_error : string;
}.

(** ** Calls *)

Inductive pay_call : Type :=
| GetTransfer (tenant : PayTenant) (id : string)
| UpdateTransfer (i : UpdatePaymentTransferInput)
| PersistSignedTransfer (i : PersistSignedTransferInput)
| MarkTransferStarted (tenant : PayTenant) (id startedAt : string)
| ListTransfers (i : ListTransfersByStatusInput)
| ListConfirmed (confirmedAfter : string) (limit : Z)
| AdvanceConfirmed (polled : list ConfirmedTransferPollVerdict) (updatedAt : string)
| SettleTransferBatch (id : string) (tenant : PayTenant) (status : PaymentTransferStatus) (error : option string)
    (slot : option Z) (updatedAt : string)
| GetAttemptByDue (cycle : Cycle) (statuses : list CollectionAttemptStatus)
| CreateAttempt (r : PaymentSubscriptionCollectionAttemptRow)
| UpdateAttempt (i : UpdateCollectionAttemptInput)
| GetSubscription (tenant : PayTenant) (id : string)
| GetPlan (tenant : PayTenant) (id : string)
| GetRecurring (tenant : PayTenant) (id : string)
| UpdateDestination (tenant : PayTenant) (id destinationTokenAccount updatedAt : string)
| UpdateRecurringLifecycle (tenant : PayTenant) (id : string) (status expected : PaymentRecurringPaymentStatus)
    (updatedAt : string)
| ClaimLifecycle (tenant : PayTenant) (id : string) (operation : LifecycleOperation) (updatedAt : string)
    (staleBefore : option string)
| GetLifecycleAttempt (tenant : PayTenant) (recurringPaymentId : string) (operation : LifecycleOperation)
    (statuses : list LifecycleAttemptStatus)
| CreateLifecycle (r : LifecycleAttemptRow)
| UpdateLifecycle (i : UpdateLifecycleAttemptInput)
| LinkTransfer (i : CreatePaymentTransferInput) (attemptId updatedAt : string)
| SettleFailed (i : SettleFailedInput)
| FinalizeCollection (i : FinalizeCollectionInput)
| FinalizeLifecycle (i : FinalizeLifecycleInput)
| ListStaleLifecycles (staleBefore : string) (limit : Z)
| ListRecoverableCollections (staleBefore : string) (limit : Z)
| ListDueCollections (dueBefore retryBefore : string) (limit : Z)
| FindPendingApproval (tenant : PayTenant) (recurringPaymentId collectionDueAt : string)
| NowIso
| NowMs
| NewUuid
| GetCustodyWallet (tenant : PayTenant) (walletId : string)
| GetProject (id : string)
| CreateOrgSigner (tenant : PayTenant) (walletId : string)
| PartiallySign (message : PaymentMessage)
| GetFeePayer (scope : SponsorshipScope)
| Sponsorship (scope : SponsorshipScope) (c : service_call)
| PolicyStore (c : store_call)
| MintTokenProgram (mint : string)
| MintDecimals (mint : string)
| ResolveSourceTokenAccount (owner mint tokenProgram : string)
| FindAta (owner tokenProgram mint : string)
| FindEventAuthority
| GetStatusByMint (tenant : PayTenant) (mint : string)
| FetchSubscriptionExpiry (subscriptionPda : string)
| BuildInstruction (spec : InstructionSpec)
| RecentBlockhash
| SendTransaction (bytes : string)
| ConfirmTransaction (signature : string)
| GetTransaction (signature : string)
| SignatureStatuses (signatures : list string) (searchTransactionHistory : bool)
| BlockHeight
| EmitCollectionFailed (e : FailedCollectionEvent)
| Activation (c : activation_call).

Definition pay_answer (c : pay_call) : Type :=
  match c with
  | GetTransfer _ _ | UpdateTransfer _ | PersistSignedTransfer _ | MarkTransferStarted _ _ _ => option PaymentTransferRow
  | ListTransfers _ | ListConfirmed _ _ => list PaymentTransferRow
  | GetAttemptByDue _ _ | CreateAttempt _ | UpdateAttempt _ => option PaymentSubscriptionCollectionAttemptRow
  | GetSubscription _ _ => option PaymentSubscriptionRow
  | GetPlan _ _ => option PaymentSubscriptionPlanRow
  | GetRecurring _ _ | UpdateDestination _ _ _ _ | UpdateRecurringLifecycle _ _ _ _ _ | ClaimLifecycle _ _ _ _ _ =>
      option PaymentRecurringPaymentRow
  | GetLifecycleAttempt _ _ _ _ | CreateLifecycle _ => option LifecycleAttemptRow
  | UpdateLifecycle _ => LifecycleAttemptRow
  | LinkTransfer _ _ _ => PaymentSubscriptionCollectionAttemptRow * PaymentTransferRow
  | FinalizeCollection _ => RecurringPaymentCollection
  | FinalizeLifecycle _ => PaymentRecurringPaymentRow
  | ListStaleLifecycles _ _ | ListRecoverableCollections _ _ | ListDueCollections _ _ _ =>
      list PaymentRecurringPaymentRow
  | FindPendingApproval _ _ _ | GetStatusByMint _ _ => option string
  | NowIso | NewUuid => string
  | NowMs | BlockHeight => Z
  | GetCustodyWallet _ _ => option CustodyWallet
  | GetProject _ => option ProjectRow
  | CreateOrgSigner _ _ | PartiallySign _ | GetFeePayer _ => string
  | Sponsorship _ c => service_response c
  | PolicyStore c => store_response c
  | MintTokenProgram _ | FindAta _ _ _ | FindEventAuthority | BuildInstruction _ | SendTransaction _ => string
  | MintDecimals _ => Z
  | ResolveSourceTokenAccount _ _ _ => SourceTokenAccount
  | FetchSubscriptionExpiry _ => option Z
  | RecentBlockhash => string * Z
  | ConfirmTransaction _ => bool
  | GetTransaction _ => option ParsedTransaction
  | SignatureStatuses _ _ => list (option SignatureStatus)
  | Activation c => activation_answer c
  | AdvanceConfirmed _ _ | SettleTransferBatch _ _ _ _ _ _ | SettleFailed _ | EmitCollectionFailed _ => unit
  end.

Abbreviation pay_event := (event pay_answer).
Abbreviation pay_prog := (prog pay_answer).

Definition pay_ev (c : pay_call) (r : result (pay_answer c)) : pay_event := Ev (R := pay_answer) c r.

Definition ask (c : pay_call) : pay_prog (pay_answer c) := call c.

(** The calls of the policy engine among the services'. *)
Fixpoint with_policy_store {A} (m : store_prog A) : pay_prog A :=
  match m with
  | Ret a => Ret a
  | Throw e => Throw e
  | Call c k => Call (R := pay_answer) (PolicyStore c) (fun r => with_policy_store (k r))
  end.

(** The call of a repository bound to a tenant ([bindRepositoryToTenant]). *)
Definition scoped (tenant : PayTenant) (repository : string) (c : pay_call) : pay_prog (pay_answer c) :=
  let! scope := of_result (createTenantScope (pay_organizationId tenant) (Some (pay_projectId tenant))) in
  of_result (assertTenantClaim scope (pay_organizationId tenant) (Some (pay_projectId tenant)) repository) ;;;
  ask c.

(** What a program answers, thrown or not. *)
Definition settled {A} (m : pay_prog A) : pay_prog (result A) :=
  catch (let! a := m in Ret (Ok a)) (fun e => Ret (Err e)).

Section Checks.
Context {K : PaymentKit}.

(** [packages/sdp-solana/src/address.ts] *)
Definition assertValidAddress (value fieldName : string) : result string :=
  if is_address value then Ok value
  else Err (PlainError ("Invalid Solana address for " ++ fieldName ++ ": " ++ value)).
End Checks.
