(* ===== verification/SignedSubmission.v ===== *)
(** * Payments: signed submissions

    [services/payments/signed-submission.ts] and the send of [recurring-payments/shared.ts]:
    a transaction is signed by the fee payer, persisted with its transfer, marked as
    started and only then sent. The sponsored fee payment is the one of BudgetService.v,
    whose calls of the lifecycle ([persistSigned], [markStarted], [hasStarted]) run the
    store of a transfer; a self-hosted deployment has the wrapper of
    [services/sponsorship.service.ts] instead. The variables of the store's closure are
    passed along, also beside an error. *)
From Stdlib Require Import Ascii String ZArith Lia.
From stdpp Require Import base list strings.
From S2P Require Import Prelude Text WellKnownTokens TransientRpc PolicyTypes BudgetTypes BudgetService.
From S2P Require Import PaymentTables RecurringLifecycle RecurringTransactions PaymentCalls.

Local Open Scope string_scope.
Local Open Scope Z_scope.
Local Open Scope list_scope.
Local Open Scope sdp_scope.

Definition ask := PaymentCalls.ask.

(** ** Errors *)

Definition isDefiniteSubmissionError (error : jserr) : bool :=
  match error with
  | CodedError "AppError" code _ _ => String.eqb code "TRANSACTION_FAILED" || String.eqb code "ACCOUNT_FROZEN"
  | _ => false
  end.

Definition is_app_error (code : string) (error : jserr) : bool :=
  match error with CodedError "AppError" c _ _ => String.eqb c code | _ => false end.

Section Submission.
Context {K : PaymentKit}.

Definition mapPreflightError (error : jserr) : option jserr :=
  (fun f : string * bool =>
     let '(message, frozen) := f in
     if frozen then AppError "ACCOUNT_FROZEN" message else AppError "TRANSACTION_FAILED" message)
  <$> preflight_failure error.

(** ** The store of a transfer *)

Inductive StartState := not_started | start_unknown | start_done.

#[export] Instance StartState_eq_dec : EqDecision StartState.
Proof. solve_decision. Defined.

Record StoreState := mkStore { store_row : option PaymentTransferRow; store_start : StartState }.

Definition fresh_store : StoreState := mkStore None not_started.

Definition submittedRow (st : StoreState) : option PaymentTransferRow :=
  match store_start st with not_started => None | _ => store_row st end.

(** The transfer a submission is for, and the last height its transaction can land at. *)
Record SubmissionTarget := mkTarget { tg_tenant : PayTenant; tg_transferId : string; tg_lastValidBlockHeight : Z }.

Section Store.
Variable target : SubmissionTarget.

Definition store_call (c : pay_call) : pay_prog (pay_answer c) :=
  scoped (tg_tenant target) "PaymentsRepository" c.

Definition persistSigned (submission : OwnedSignedSubmission) (st : StoreState) : pay_prog (result unit * StoreState) :=
  let! answer := settled (
    let! updatedAt := ask NowIso in
    store_call (PersistSignedTransfer
      (mkPersistSigned (tg_tenant target) (tg_transferId target) (submission_signature submission)
         (base64_text (submission_transaction submission)) (tg_lastValidBlockHeight target) updatedAt))) in
  Ret match answer with
      | Ok (Some row) => (Ok tt, mkStore (Some row) (store_start st))
      | Ok None =>
          (Err (internalError "Payment transfer signed submission was not persisted"), mkStore None (store_start st))
      | Err e => (Err e, st)
      end.

Definition markStarted (st : StoreState) : pay_prog (result unit * StoreState) :=
  let st := mkStore (store_row st) start_unknown in
  let! answer := settled (
    let! startedAt := ask NowIso in
    store_call (MarkTransferStarted (tg_tenant target) (tg_transferId target) startedAt)) in
  Ret match answer with
      | Ok (Some row) => (Ok tt, mkStore (Some row) start_done)
      | Ok None => (Err (internalError "Payment transfer submission was not started"), st)
      | Err e => (Err e, st)
      end.

Definition hasStarted (st : StoreState) : pay_prog (result bool * StoreState) :=
  let! answer := settled (store_call (GetTransfer (tg_tenant target) (tg_transferId target))) in
  Ret match answer with
      | Ok current =>
          let started := bool_decide (is_Some (current ≫= xf_submission_started_at)) in
          (Ok started, mkStore (match current with Some r => Some r | None => store_row st end)
                         (if started then start_done else not_started))
      | Err e => (Err e, st)
      end.

(** A program of the fee payment, with the store behind its lifecycle. *)
Fixpoint with_store {A} (scope : SponsorshipScope) (m : service_prog A) (st : StoreState)
    : pay_prog (result A * StoreState) :=
  match m with
  | Ret a => Ret (Ok a, st)
  | Throw e => Ret (Err e, st)
  | Call c k =>
      match c as c return (result (service_response c) -> service_prog A) -> pay_prog (result A * StoreState) with
      | PersistSigned submission => fun k =>
          let! (r, st) := persistSigned submission st in with_store scope (k r) st
      | MarkStarted => fun k => let! (r, st) := markStarted st in with_store scope (k r) st
      | HasStarted => fun k => let! (r, st) := hasStarted st in with_store scope (k r) st
      | c => fun k => Call (R := pay_answer) (Sponsorship scope c) (fun r => with_store scope (k r) st)
      end k
  end.
End Store.


(** ** The fee payment *)

(** What a process is deployed with. *)
Record Deployment := mkDeployment {
  dp_kit : Kit;
  dp_solana_network : string;
  dp_self_hosted : bool;
  dp_providerHasConfiguration : bool;
  dp_retryAfterMinutes : option string;
  dp_collectionBatchSize : option string;
  dp_cluster : result SolanaCluster;
}.

Variable dp : Deployment.

Definition requireScopeSegment (value label : string) : result string :=
  let normalized := trimmed value in
  if String.eqb normalized "" then Err (internalError (label ++ " is required")) else Ok normalized.

(** [createSponsorshipFeePayment]: the segments of [buildKoraUserId] are there. *)
Definition createSponsorshipFeePayment (scope : SponsorshipScope) : result SponsorshipScope :=
  let? _ := requireScopeSegment (environment_text (scope_environment scope)) "Sponsorship environment" in
  let? _ := requireScopeSegment (scope_organizationId scope) "Sponsorship organization id" in
  let? _ := match scope_projectId scope with
            | None => Ok ""
            | Some p => requireScopeSegment p "Sponsorship project id"
            end in
  let? _ := requireScopeSegment (actor_type scope) "Sponsorship actor type" in
  let? _ := requireScopeSegment (actor_id scope) "Sponsorship actor id" in
  Ok scope.

Definition createProjectSponsorshipFeePayment (tenant : PayTenant) (walletId : string) : pay_prog SponsorshipScope :=
  let! project := ask (GetProject (pay_projectId tenant)) in
  match project with
  | Some p =>
      if negb (String.eqb (pj_organizationId p) (pay_organizationId tenant)) || negb (pj_active p)
      then Throw (AppError "FORBIDDEN" "Sponsorship project is not active or accessible")
      else
        of_result (createSponsorshipFeePayment
          (mkScopeOf (pj_environment p) (pj_organizationId p) (Some (pj_id p)) "wallet" walletId))
  | None => Throw (AppError "FORBIDDEN" "Sponsorship project is not active or accessible")
  end.

(** A prepared submission; of a budgeted fee payment, what its release needs. *)
Record PreparedSubmission := mkPreparedSubmission {
  sp_signature : string;
  sp_signedTransaction : string;
  sp_release : option PreparedOwnedSubmission;
}.

(** [prepareOwnedSubmission] of [withOwnedSubmissionLifecycle]. *)
Definition prepare_self_hosted (target : SubmissionTarget) (scope : SponsorshipScope) (transaction : string)
    (st : StoreState) : pay_prog (result PreparedSubmission * StoreState) :=
  let! signed := settled (
    let! bytes := ask (Sponsorship scope (ProviderSignAsFeePayer transaction)) in
    of_result (getFullySignedSubmission (dp_kit dp) bytes)) in
  match signed with
  | Err e => Ret (Err e, st)
  | Ok submission =>
      let! (kept, st) := persistSigned target submission st in
      match kept with
      | Err e => Ret (Err e, st)
      | Ok _ =>
          let! (started, st) := markStarted target st in
          Ret match started with
              | Err e => (Err e, st)
              | Ok _ =>
                  (Ok (mkPreparedSubmission (submission_signature submission) (submission_transaction submission) None), st)
              end
      end
  end.

Definition prepare_budgeted (target : SubmissionTarget) (scope : SponsorshipScope) (transaction : string)
    (st : StoreState) : pay_prog (result PreparedSubmission * StoreState) :=
  let! (answer, st) :=
    with_store target scope
      (prepareOwnedSubmission (dp_kit dp) (dp_solana_network dp) scope (dp_providerHasConfiguration dp) transaction)
      st in
  Ret match answer with
      | Ok p => (Ok (mkPreparedSubmission (submission_signature (prepared p)) (submission_transaction (prepared p)) (Some p)), st)
      | Err e => (Err e, st)
      end.

Definition prepareOwned (target : SubmissionTarget) (scope : SponsorshipScope) (transaction : string)
    (st : StoreState) : pay_prog (result PreparedSubmission * StoreState) :=
  if dp_self_hosted dp then prepare_self_hosted target scope transaction st
  else prepare_budgeted target scope transaction st.

(** [releaseDefinitelyUnbroadcast], its own failure ignored. *)
Definition release_unbroadcast (target : SubmissionTarget) (scope : SponsorshipScope) (p : PreparedSubmission)
    (error : jserr) (st : StoreState) : pay_prog unit :=
  match sp_release p with
  | None => Ret tt
  | Some owned =>
      with_store target scope (releaseDefinitelyUnbroadcast (dp_solana_network dp) owned error) st ;;; Ret tt
  end.

(** ** Sending *)

(** One attempt; [saw] is whether an earlier one failed transiently. *)
Definition send_once (target : SubmissionTarget) (scope : SponsorshipScope) (p : PreparedSubmission)
    (st : StoreState) (saw : bool) : pay_prog (result string * bool) :=
  let! answer := settled (ask (SendTransaction (sp_signedTransaction p))) in
  match answer with
  | Ok signature => Ret (Ok signature, saw)
  | Err error =>
      match (if saw then None else mapPreflightError error) with
      | Some preflightError => release_unbroadcast target scope p error st ;;; Ret (Err preflightError, saw)
      | None =>
          let transient := isTransientRpcError transient_code error in
          if saw && negb transient
          then Ret (Err (PlainError "Solana RPC submission outcome is ambiguous after a transient failure"), saw)
          else Ret (Err error, saw || transient)
      end
  end.

Definition submitSignedPaymentTransaction (target : SubmissionTarget) (scope : SponsorshipScope) (transaction : string)
    (st : StoreState) : pay_prog (result string * StoreState) :=
  let! (answer, st) := prepareOwned target scope transaction st in
  match answer with
  | Err e => Ret (Err e, st)
  | Ok p =>
      let! submitted :=
        settled (withTransientRpcRetry transient_code (ask NowMs) (send_once target scope p st) false) in
      Ret match submitted with
          | Err e => (Err e, st)
          | Ok submittedSignature =>
              if negb (String.eqb submittedSignature (sp_signature p))
              then (Err (PlainError "Solana RPC returned a different transaction signature"), st)
              else (Ok (sp_signature p), st)
          end
  end.

(** ** Instructions of the subscriptions program *)

Record SubscriptionInstructions := mkInstructions {
  si_tenant : PayTenant;
  si_sourceWallet : CustodyWallet;
  si_sourceSigner : option string;
  si_instructions : list string;
  si_feePayer : option string;
}.

(** The transaction of the instructions, and the scope that pays for it. *)
Definition signed_message (i : SubscriptionInstructions) : pay_prog (SponsorshipScope * PaymentMessage * string) :=
  let wallet := si_sourceWallet i in
  let! signer : string := match si_sourceSigner i with
                 | Some s => Ret s
                 | None => ask (CreateOrgSigner (si_tenant i) (cw_walletId wallet))
                 end in
  if negb (String.eqb signer (cw_publicKey wallet))
  then Throw (badRequest "Resolved signing wallet does not match source wallet")
  else
    let! (blockhash, lastValidBlockHeight) := ask RecentBlockhash in
    let! scope := createProjectSponsorshipFeePayment (si_tenant i) (cw_walletId wallet) in
    let! feePayer := match si_feePayer i with Some p => Ret (p : string) | None => ask (GetFeePayer scope) end in
    let message := mkMessage feePayer blockhash lastValidBlockHeight (si_instructions i) signer in
    let! txBytes := (ask (PartiallySign message) : pay_prog string) in
    Ret (scope, message, txBytes).

(** [sendSubscriptionInstructions] with the store of a transfer. *)
Definition send_with_store (i : SubscriptionInstructions) (transferId : string) (st : StoreState)
    : pay_prog (result string * StoreState) :=
  let! signed := settled (signed_message i) in
  match signed with
  | Err e => Ret (Err e, st)
  | Ok (scope, message, txBytes) =>
      submitSignedPaymentTransaction (mkTarget (si_tenant i) transferId (msg_lastValidBlockHeight message)) scope
        txBytes st
  end.

(** [sendSubscriptionInstructions] without one. *)
Definition send_sponsored (i : SubscriptionInstructions) : pay_prog string :=
  let! (scope, _, txBytes) := signed_message i in
  if dp_self_hosted dp then ask (Sponsorship scope (ProviderSignAndSend txBytes))
  else
    let! (answer, _) :=
      with_store (mkTarget (si_tenant i) "" 0) scope
        (signAndSend (dp_kit dp) (dp_solana_network dp) scope (dp_providerHasConfiguration dp) txBytes) fresh_store in
    of_result answer.

Definition confirmSubscriptionSignature (signature message : string) : pay_prog unit :=
  let! failed := ask (ConfirmTransaction signature) in
  if failed : bool then Throw (AppError "TRANSACTION_FAILED" message) else Ret tt.

Definition activationErrorMessage (error : jserr) : string := error_message error.
End Submission.
