(* ===== verification/RecurringCollection.v ===== *)
(** * Recurring payments: a collection

    [services/payments/recurring-payments/collection.ts] and [policy.ts]: a due period
    is claimed by an attempt, put to the policy engine, linked to a transfer, sent
    through SignedSubmission.v, proved by the transaction on chain and finalized; an
    attempt that stopped on the way is recovered, settled as failed or left alone.

    A variable the handler of an error reads is passed to it where the code throws. The
    promises returned from a [try] without [await] are outside of it. *)
From Stdlib Require Import Ascii String ZArith Lia.
From stdpp Require Import base list strings.
From S2P Require Import Prelude Text Dates Amount PolicyTypes PolicyEnforce PolicyService BudgetTypes BudgetService.
From S2P Require Import PaymentTables RecurringLifecycle RecurringTransactions PaymentCalls SignedSubmission.

Local Open Scope string_scope.
Local Open Scope Z_scope.
Local Open Scope list_scope.
Local Open Scope sdp_scope.

(** ** The repositories *)

Definition ask := PaymentCalls.ask.

Definition payments (tenant : PayTenant) (c : pay_call) : pay_prog (pay_answer c) :=
  scoped tenant "PaymentsRepository" c.
Definition paymentSubscriptions (tenant : PayTenant) (c : pay_call) : pay_prog (pay_answer c) :=
  scoped tenant "PaymentSubscriptionsRepository" c.
Definition recurringPayments (tenant : PayTenant) (c : pay_call) : pay_prog (pay_answer c) :=
  scoped tenant "PaymentRecurringPaymentsRepository" c.

(** Statements on the database itself. *)
Definition database (c : pay_call) : pay_prog (pay_answer c) := ask c.

Definition with_signature (signature : string) (r : PaymentSubscriptionCollectionAttemptRow)
    : PaymentSubscriptionCollectionAttemptRow :=
  mkAttempt (ca_facts r) (ca_transfer_id r) (ca_attempted_at r) (ca_status r) (Some signature) (ca_error r)
    (ca_metadata r) (ca_updated_at r).

Definition signed_by (signature : string) (r : PaymentTransferRow) : PaymentTransferRow :=
  mkTransfer (xf_facts r) (xf_status r) (xf_amount r) (xf_fiat_amount r) (xf_provider_reference r)
    (xf_delivery_mode r) (xf_provider_data r) (Some signature) (xf_serialized_tx r) (xf_signed_transaction r)
    (xf_last_valid_block_height r) (xf_submission_started_at r) (xf_slot r) (xf_block_time r) (xf_fee r)
    (xf_error r) (xf_confirmed_at r) (xf_finalization_last_polled_at r) (xf_updated_at r).

Section Collection.
Context {K : PaymentKit}.
Variable dp : Deployment.

(** ** The proof on chain *)

Record ExpectedTransfer := mkExpected {
  ex_amountBaseUnits : Z;
  ex_sourceAddress : string;
  ex_subscriberTokenAccount : string;
  ex_subscriptionAuthorityAddress : string;
  ex_subscriptionPda : string;
  ex_planPda : string;
  ex_destinationTokenAccount : string;
  ex_token : string;
  ex_tokenProgram : string;
  ex_eventAuthority : string;
}.

Definition expected_accounts (e : ExpectedTransfer) : list string :=
  [ex_subscriptionPda e; ex_planPda e; ex_subscriptionAuthorityAddress e; ex_subscriberTokenAccount e;
   ex_destinationTokenAccount e; ex_sourceAddress e; ex_token e; ex_tokenProgram e; ex_eventAuthority e;
   SUBSCRIPTIONS_PROGRAM_ADDRESS].

Definition matchesRecurringTransferInstruction (e : ExpectedTransfer) (i : ParsedInstruction) : bool :=
  match ix_accounts i, ix_data i with
  | Some accounts, Some data =>
      String.eqb (ix_programId i) SUBSCRIPTIONS_PROGRAM_ADDRESS && (length accounts =? 10)%nat && truthy (Some data)
      && match decode_transfer data with
         | Some d =>
             td_is_transfer d && (td_amount d =? ex_amountBaseUnits e)
             && String.eqb (td_delegator d) (ex_sourceAddress e) && String.eqb (td_mint d) (ex_token e)
             && bool_decide (accounts = expected_accounts e)
         | None => false
         end
  | _, _ => false
  end.

Record VerifyInput := mkVerify {
  vf_recurringPayment : PaymentRecurringPaymentRow;
  vf_subscription : PaymentSubscriptionRow;
  vf_attempt : PaymentSubscriptionCollectionAttemptRow;
  vf_transfer : PaymentTransferRow;
  vf_signature : string;
  vf_dueAt : string;
  vf_destinationTokenAccount : string;
}.

Definition is_string (key value : string) (o : json_object) : bool :=
  match json_member key o with Some (JString s) => String.eqb s value | _ => false end.

Definition providerEvidenceMatches (i : VerifyInput) : bool :=
  let providerData := xf_provider_data (vf_transfer i) in
  is_string "recurringPaymentId" (rp_id (vf_recurringPayment i)) providerData
  && ((is_string "subscriptionId" (sb_id (vf_subscription i)) providerData
       && is_string "collectionDueAt" (vf_dueAt i) providerData)
      || (bool_decide (json_member "subscriptionId" providerData = None)
          && bool_decide (json_member "collectionDueAt" providerData = None))).

Definition persistedEvidenceMatches (i : VerifyInput) : bool :=
  let '(rp, a, x) := (vf_recurringPayment i, vf_attempt i, vf_transfer i) in
  let f := xf_facts x in
  String.eqb (cy_subscription_id (attempt_cycle a)) (sb_id (vf_subscription i))
  && bool_decide (ca_transfer_id a = Some (transfer_id x))
  && String.eqb (cy_due_at (attempt_cycle a)) (vf_dueAt i)
  && String.eqb (ca_token (ca_facts a)) (rp_token rp) && String.eqb (ca_amount (ca_facts a)) (rp_amount rp)
  && is_string "recurringPaymentId" (rp_id rp) (ca_metadata a)
  && String.eqb (xf_wallet_id f) (rp_source_wallet_id rp)
  && bool_decide (xf_counterparty_id f = Some (rp_counterparty_id rp))
  && bool_decide (xf_source_address f = Some (rp_source_address rp))
  && bool_decide (xf_destination_address f = Some (rp_destination_address rp))
  && String.eqb (xf_token f) (rp_token rp) && bool_decide (xf_amount x = Some (rp_amount rp))
  && bool_decide (xf_type f = xt_transfer) && bool_decide (xf_direction f = outbound)
  && providerEvidenceMatches i
  && (bool_decide (ca_signature a = None) || bool_decide (ca_signature a = Some (vf_signature i)))
  && bool_decide (xf_signature x = Some (vf_signature i)).

Definition valid_address (value fieldName : string) : pay_prog string := of_result (assertValidAddress value fieldName).

(** A string that is there and not empty. *)
Definition given (o : option string) : option string := if truthy o then o else None.

(** What the chain must show of the four addresses. *)
Definition prove_on_chain (i : VerifyInput) (planPda subscriptionPda authority tokenAccount : string)
    : pay_prog VerifiedRecurringPaymentCollection :=
  let rp := vf_recurringPayment i in
  let! mint := valid_address (rp_token rp) "token" in
  let! tokenProgram := ask (MintTokenProgram mint) in
  let! decimals := ask (MintDecimals mint) in
  let! amountBaseUnits := of_result (SolanaAmount.parseDecimalAmount (rp_amount rp) decimals) in
  let! confirmed := ask (GetTransaction (vf_signature i)) in
  match confirmed with
  | None =>
      Throw (AppError "SOLANA_RPC_ERROR"
        "Recurring payment collection is confirmed but not yet indexed; retry shortly")
  | Some tx =>
      if pt_failed tx then Throw (AppError "TRANSACTION_FAILED" "Recurring payment collection failed on-chain")
      else
        let! eventAuthority := ask FindEventAuthority in
        let e := mkExpected amountBaseUnits (rp_source_address rp) tokenAccount authority subscriptionPda planPda
                   (vf_destinationTokenAccount i) (rp_token rp) tokenProgram eventAuthority in
        if existsb (matchesRecurringTransferInstruction e) (pt_instructions tx)
        then Ret (mkProof (attempt_id (vf_attempt i)) (vf_dueAt i) (vf_destinationTokenAccount i) (vf_signature i)
                    (transfer_id (vf_transfer i)))
        else Throw (conflict "Confirmed transaction does not prove the expected recurring payment collection")
  end.

Definition verifyRecurringPaymentCollection (i : VerifyInput) : pay_prog VerifiedRecurringPaymentCollection :=
  if negb (persistedEvidenceMatches i)
  then Throw (conflict "Recurring payment collection evidence does not match the due payment")
  else
    match given (rp_plan_pda (vf_recurringPayment i)), given (rp_subscription_pda (vf_recurringPayment i)),
          given (sb_subscription_authority_address (vf_subscription i)),
          given (sb_subscriber_token_account (vf_subscription i)) with
    | Some planPda, Some subscriptionPda, Some authority, Some tokenAccount =>
        prove_on_chain i planPda subscriptionPda authority tokenAccount
    | _, _, _, _ => Throw (conflict "Recurring payment collection is missing verified addresses")
    end.

(** ** Settling a failure *)

Definition retryAfterMinutes : Z :=
  parsePositiveIntegerConfig (dp_retryAfterMinutes dp) DEFAULT_RECURRING_COLLECTION_RETRY_AFTER_MINUTES.

Definition collectionRetryMetadata (error : jserr) : pay_prog json_object :=
  let! now := ask NowMs in
  let! retryAfterAt := of_result (toISOString (now + retryAfterMinutes * 60 * 1000)) in
  Ret [("error", JString (activationErrorMessage error)); ("retryAfterAt", JString retryAfterAt)].

(** The attempt, the transfer and the signature a failure is about. *)
Record FailedCollection := mkFailed {
  fc_tenant : PayTenant;
  fc_recurringPaymentId : string;
  fc_attempt : PaymentSubscriptionCollectionAttemptRow;
  fc_transfer : option PaymentTransferRow;
  fc_submittedSignature : option string;
}.

Definition markRecurringPaymentCollectionFailedAtomically (f : FailedCollection) (error : jserr) : pay_prog unit :=
  let attempt := fc_attempt f in
  let message := activationErrorMessage error in
  let! failedAt := ask NowIso in
  let! extra := collectionRetryMetadata error in
  let metadata :=
    recurringCollectionMetadata
      (mkMetadataInput (ca_metadata attempt) (fc_recurringPaymentId f) (transfer_id <$> fc_transfer f) None None extra) in
  let! _ := database (SettleFailed (mkSettleFailed (fc_tenant f) (fc_recurringPaymentId f) attempt (fc_transfer f)
                                      (fc_submittedSignature f) message metadata failedAt)) in
  catch (ask (EmitCollectionFailed (mkFailedEvent (fc_tenant f) (fc_recurringPaymentId f) (attempt_cycle attempt)
                                      (attempt_id attempt) message)))
    (fun _ => Ret tt).

(** The row came back with the signature. *)
Definition journaled {A} (signature : A -> option string) (s : string) (r : result (option A)) : bool :=
  match r with Ok (Some row) => bool_decide (signature row = Some s) | _ => false end.

Definition attempt_signature_update (f : FailedCollection) (s updatedAt : string) : UpdateCollectionAttemptInput :=
  attempt_update (attempt_id (fc_attempt f)) (fc_tenant f)
    (match fc_transfer f with Some x => Some (Some (transfer_id x)) | None => None end) None (Some (Some s)) None None
    updatedAt.

(** An update of a transfer's signature and error alone. *)
Definition transfer_signature_update (id : string) (tenant : PayTenant) (s : string) (error : patch) (updatedAt : string)
    : UpdatePaymentTransferInput :=
  mkUpdateTransfer id (Some tenant) None None (Some (Some s)) None None None None None None None None None error updatedAt.

Definition journal_signature (f : FailedCollection) (s : string) : pay_prog unit :=
  let! updatedAt := ask NowIso in
  let! attemptResult :=
    settled (paymentSubscriptions (fc_tenant f) (UpdateAttempt (attempt_signature_update f s updatedAt))) in
  let! transferResult :=
    settled (match fc_transfer f with
             | Some x =>
                 payments (fc_tenant f)
                   (UpdateTransfer (transfer_signature_update (transfer_id x) (fc_tenant f) s None updatedAt))
             | None => Ret None
             end) in
  if negb (journaled ca_signature s attemptResult) && negb (journaled xf_signature s transferResult)
  then Throw (internalError "Failed to journal submitted recurring payment collection signature")
  else Ret tt.

Definition journalRecurringPaymentCollectionError (f : FailedCollection) (error : jserr) : pay_prog unit :=
  match given (fc_submittedSignature f) with
  | Some s =>
      if isDefiniteSubmissionError error then markRecurringPaymentCollectionFailedAtomically f error
      else journal_signature f s
  | None => markRecurringPaymentCollectionFailedAtomically f error
  end.

Definition safeJournalRecurringPaymentCollectionError (f : FailedCollection) (error : jserr) : pay_prog unit :=
  catch (journalRecurringPaymentCollectionError f error) (fun _ => Ret tt).

Definition validatedStoredCollectionSignature (signature : string) : result string :=
  if is_signature signature then Ok signature
  else Err (internalError "Recurring payment collection has an invalid stored signature").

(** ** Finalizing *)

Definition finalizeRecurringPaymentCollection (tenant : PayTenant) (recurringPayment : PaymentRecurringPaymentRow)
    (subscription : PaymentSubscriptionRow) (attempt : PaymentSubscriptionCollectionAttemptRow)
    (xfer : PaymentTransferRow) (proof : VerifiedRecurringPaymentCollection) : pay_prog RecurringPaymentCollection :=
  let! finalizedAt := ask NowIso in
  let! nextDueAt :=
    of_result (nextRecurringPaymentCollectionDueAt (pf_dueAt proof) (rp_period_hours recurringPayment)) in
  database (FinalizeCollection
    (mkFinalizeCollection tenant recurringPayment subscription attempt xfer proof nextDueAt finalizedAt)).

(** ** Recovering an attempt *)

Definition COLLECTION_STALE_AFTER_MS : Z := RECURRING_PAYMENT_OPERATION_STALE_AFTER_MS.

Definition isStaleCollectionAttempt (row : PaymentSubscriptionCollectionAttemptRow) : pay_prog bool :=
  match Date_parse (ca_updated_at row) with
  | Some updatedAt =>
      let! now := ask NowMs in
      Ret (updatedAt <=? now - COLLECTION_STALE_AFTER_MS)
  | None => Ret false
  end.

Definition already_processing : jserr := conflict "Recurring payment collection is already processing".

(** A fresh attempt is another run's; a stale one is settled as failed. *)
Definition settle_stale (f : FailedCollection) (message : string) : pay_prog unit :=
  let! isStale := isStaleCollectionAttempt (fc_attempt f) in
  if negb isStale then Throw already_processing
  else markRecurringPaymentCollectionFailedAtomically f (PlainError message).

(** What a collection or a recovery is of. *)
Record CollectionOf := mkCollectionOf {
  co_tenant : PayTenant;
  co_recurringPayment : PaymentRecurringPaymentRow;
  co_subscription : PaymentSubscriptionRow;
  co_dueAt : string;
}.

Definition failed_of (o : CollectionOf) (attempt : PaymentSubscriptionCollectionAttemptRow)
    (xfer : option PaymentTransferRow) (signature : option string) : FailedCollection :=
  mkFailed (co_tenant o) (rp_id (co_recurringPayment o)) attempt xfer signature.

Definition resolveDestinationTokenAccount (destinationAddress token : string) : pay_prog string :=
  let! destinationOwner := valid_address destinationAddress "destinationAddress" in
  let! mint := valid_address token "token" in
  let! tokenProgram := ask (MintTokenProgram mint) in
  ask (FindAta destinationOwner tokenProgram mint).

Definition cycle_of (o : CollectionOf) : Cycle := mkCycle (co_tenant o) (sb_id (co_subscription o)) (co_dueAt o).

(** The rows as they are now and the proof of the recovered signature. *)
Definition prove_recovered (o : CollectionOf) (attempt : PaymentSubscriptionCollectionAttemptRow)
    (xfer : PaymentTransferRow) (signature : string)
    : pay_prog (PaymentRecurringPaymentRow * PaymentSubscriptionRow * VerifiedRecurringPaymentCollection) :=
  let tenant := co_tenant o in
  let! current := recurringPayments tenant (GetRecurring tenant (rp_id (co_recurringPayment o))) in
  let rp := default (co_recurringPayment o) current in
  let! currentSubscription := paymentSubscriptions tenant (GetSubscription tenant (sb_id (co_subscription o))) in
  let subscription := default (co_subscription o) currentSubscription in
  let! destinationTokenAccount :=
    match given (rp_destination_token_account rp) with
    | Some a => valid_address a "destinationTokenAccount"
    | None => resolveDestinationTokenAccount (rp_destination_address rp) (rp_token rp)
    end in
  let! proof :=
    verifyRecurringPaymentCollection
      (mkVerify rp subscription attempt xfer signature (co_dueAt o) destinationTokenAccount) in
  Ret (rp, subscription, proof).

(** The proof of a recovered signature, its failure settled or journaled, and the period
    it advances. *)
Definition finalize_recovered (o : CollectionOf) (existing : PaymentSubscriptionCollectionAttemptRow)
    (xfer : PaymentTransferRow) (signature : string) : pay_prog (option RecurringPaymentCollection) :=
  let f := failed_of o existing (Some xfer) (Some signature) in
  let attempt := with_signature signature existing in
  let xfer := signed_by signature xfer in
  let! proved := settled (prove_recovered o attempt xfer signature) in
  match proved with
  | Ok (rp, subscription, proof) =>
      let! c := finalizeRecurringPaymentCollection (co_tenant o) rp subscription attempt xfer proof in
      Ret (Some c)
  | Err error =>
      if is_app_error "TRANSACTION_FAILED" error
      then markRecurringPaymentCollectionFailedAtomically f error ;;; Ret None
      else safeJournalRecurringPaymentCollectionError f error ;;; Throw error
  end.

(** A signed submission fails by the chain alone, or is proved. *)
Definition recover_signed (o : CollectionOf) (existing : PaymentSubscriptionCollectionAttemptRow)
    (xfer : PaymentTransferRow) (signature : string) : pay_prog (option RecurringPaymentCollection) :=
  let! confirmation :=
    settled (confirmSubscriptionSignature signature "Recurring payment collection failed on-chain") in
  match confirmation with
  | Err error =>
      if is_app_error "TRANSACTION_FAILED" error
      then markRecurringPaymentCollectionFailedAtomically (failed_of o existing (Some xfer) (Some signature)) error ;;;
           Ret None
      else finalize_recovered o existing xfer signature
  | Ok _ => finalize_recovered o existing xfer signature
  end.

(** The tracker found the signed transaction expired before it was sent. *)
Definition expired_before_broadcast (xfer : PaymentTransferRow) : bool :=
  bool_decide (xf_status xfer = xs_failed) && bool_decide (is_Some (xf_signed_transaction xfer))
  && bool_decide (is_Some (xf_last_valid_block_height xfer)) && bool_decide (xf_submission_started_at xfer = None).

Definition signatures_conflict (existing : PaymentSubscriptionCollectionAttemptRow) (xfer : PaymentTransferRow) : bool :=
  truthy (ca_signature existing) && truthy (xf_signature xfer) && negb (bool_decide (ca_signature existing = xf_signature xfer)).

Definition recover_linked (o : CollectionOf) (existing : PaymentSubscriptionCollectionAttemptRow)
    (xfer : PaymentTransferRow) : pay_prog (option RecurringPaymentCollection) :=
  if signatures_conflict existing xfer
  then Throw (conflict "Recurring payment collection signatures do not match")
  else
    let stored := match ca_signature existing with Some s => Some s | None => xf_signature xfer end in
    match given stored with
    | None =>
        settle_stale (failed_of o existing (Some xfer) None)
          "Recurring payment collection was interrupted before submission" ;;;
        Ret None
    | Some stored =>
        let! recoveredSignature := of_result (validatedStoredCollectionSignature stored) in
        if expired_before_broadcast xfer
        then
          settle_stale (failed_of o existing (Some xfer) (Some recoveredSignature))
            "Recurring payment collection was interrupted before broadcast" ;;;
          Ret None
        else recover_signed o existing xfer recoveredSignature
    end.

Definition recoverRecurringPaymentCollection (o : CollectionOf) : pay_prog (option RecurringPaymentCollection) :=
  let tenant := co_tenant o in
  let! existing := paymentSubscriptions tenant (GetAttemptByDue (cycle_of o) [ca_processing; ca_confirmed]) in
  match existing with
  | None => Ret None
  | Some existing =>
      match given (ca_transfer_id existing) with
      | None =>
          settle_stale (failed_of o existing None None)
            "Recurring payment collection was interrupted before transfer creation" ;;;
          Ret None
      | Some transferId =>
          let! xfer := payments tenant (GetTransfer tenant transferId) in
          match xfer with
          | None => Throw (internalError "Recurring payment collection transfer not found")
          | Some xfer => recover_linked o existing xfer
          end
      end
  end.

Definition recoverOrBlockLifecycleCollection (tenant : PayTenant) (rp : PaymentRecurringPaymentRow)
    : pay_prog (PaymentRecurringPaymentRow * option PaymentSubscriptionRow) :=
  match given (rp_subscription_id rp), given (rp_next_collection_due_at rp) with
  | Some subscriptionId, Some dueAt =>
      let! subscription := paymentSubscriptions tenant (GetSubscription tenant subscriptionId) in
      match subscription with
      | None => Ret (rp, None)
      | Some subscription =>
          let! recovered := recoverRecurringPaymentCollection (mkCollectionOf tenant rp subscription dueAt) in
          Ret match recovered with
              | Some c => (cl_recurringPayment c, Some (cl_subscription c))
              | None => (rp, Some subscription)
              end
      end
  | _, _ => Ret (rp, None)
  end.

(** ** Collecting *)

Record CollectInput := mkCollect {
  cc_tenant : PayTenant;
  cc_sourceWallet : CustodyWallet;
  cc_recurringPayment : PaymentRecurringPaymentRow;
  cc_initiatedByKeyId : option string;
  cc_collectionSource : option RecurringCollectionSource;
}.

Record RecurringPaymentCollectionResult := mkCollected {
  cd_recurringPayment : PaymentRecurringPaymentRow;
  cd_collectionAttempt : PaymentSubscriptionCollectionAttemptRow;
  cd_transfer : PaymentTransferRow;
}.

Definition result_of (c : RecurringPaymentCollection) : RecurringPaymentCollectionResult :=
  mkCollected (cl_recurringPayment c) (cl_collectionAttempt c) (cl_transfer c).

(** The handler of an error once there is an attempt; [st] is the store's when there is
    one. *)
Definition handleRecurringPaymentCollectionError (i : CollectInput)
    (attempt : PaymentSubscriptionCollectionAttemptRow) (xfer : option PaymentTransferRow)
    (st : StoreState) (submittedSignature : option string) (error : jserr) : pay_prog RecurringPaymentCollectionResult :=
  let tenant := cc_tenant i in
  let rp := cc_recurringPayment i in
  match submittedRow st with
  | Some row =>
      match (if isDefiniteSubmissionError error then None else given (xf_signature row)) with
      | Some stored =>
          let! signature := of_result (validatedStoredCollectionSignature stored) in
          let! _ := safeJournalRecurringPaymentCollectionError
                      (mkFailed tenant (rp_id rp) attempt (Some row) (Some signature)) error in
          if is_app_error "CONFLICT" error then Throw error
          else Ret (mkCollected rp (with_signature signature attempt) row)
      | None =>
          safeJournalRecurringPaymentCollectionError (mkFailed tenant (rp_id rp) attempt xfer submittedSignature) error ;;;
          Throw error
      end
  | None =>
      safeJournalRecurringPaymentCollectionError (mkFailed tenant (rp_id rp) attempt xfer submittedSignature) error ;;;
      Throw error
  end.

(** [policy.ts], of a collection: a decision that is still open is thrown again. *)
Definition collection_candidate (i : CollectInput) : PolicyCandidate :=
  let wallet := cc_sourceWallet i in
  let rp := cc_recurringPayment i in
  PolicyTypes.mkCandidate (pay_organizationId (cc_tenant i)) (Some (pay_projectId (cc_tenant i))) (Some (cw_id wallet))
    (cw_walletId wallet) (cc_initiatedByKeyId i)
    ((fun k => PolicyTypes.mkActor "api_key" (Some k) [("apiKeyId", JString k)]) <$> cc_initiatedByKeyId i)
    (match cc_initiatedByKeyId i with None => "system" | Some _ => "api" end)
    payment recurring_payment_collection (Some (rp_token rp)) (Some (rp_amount rp))
    (Some (rp_destination_address rp)) [("sourceAddress", JString (cw_publicKey wallet))] [].

Definition collection_payload (i : CollectInput) (subscriptionId dueAt : string) : json_object :=
  [("recurringPaymentId", JString (rp_id (cc_recurringPayment i))); ("subscriptionId", JString subscriptionId);
   ("collectionDueAt", JString dueAt)].

Definition enforceRecurringPaymentPolicy (i : CollectInput) (subscriptionId dueAt : string)
    : pay_prog (WalletOperationEnvelope * PolicyEvaluation) :=
  let tenant := cc_tenant i in
  let! scope := of_result (createTenantScope (pay_organizationId tenant) (Some (pay_projectId tenant))) in
  let! pending := database (FindPendingApproval tenant (rp_id (cc_recurringPayment i)) dueAt) in
  match pending with
  | Some _ => Throw (AppError "SIGNING_PENDING" "Wallet operation requires policy approval")
  | None =>
      with_policy_store (PolicyService.enforceWalletOperationPolicy scope
        (mkCreateOperation (collection_candidate i) [] (collection_payload i subscriptionId dueAt) None None))
  end.

(** The transfer of a collection. *)
Definition collection_transfer (i : CollectInput) (subscriptionId dueAt : string) : CreatePaymentTransferInput :=
  let rp := cc_recurringPayment i in
  let wallet := cc_sourceWallet i in
  mkCreateTransfer (cc_tenant i) (cw_walletId wallet) (Some (rp_counterparty_id rp)) (Some (cw_publicKey wallet))
    (Some (rp_destination_address rp)) (rp_token rp) (Some (rp_amount rp)) None xt_transfer outbound xs_processing None
    None None None None (collection_payload i subscriptionId dueAt) None None None (cc_initiatedByKeyId i).

Definition claimed_attempt (i : CollectInput) (id subscriptionId dueAt nowIso : string)
    : PaymentSubscriptionCollectionAttemptRow :=
  let rp := cc_recurringPayment i in
  mkAttempt
    (mkAttemptFacts ("psca_" ++ id) (mkCycle (cc_tenant i) subscriptionId dueAt) (rp_token rp) (rp_amount rp) nowIso)
    None (Some nowIso) ca_processing None None
    (recurringCollectionMetadata
       (mkMetadataInput [] (rp_id rp) None (cc_collectionSource i) (cc_initiatedByKeyId i) []))
    nowIso.

(** The instructions of a linked collection, and the recurring payment with the account
    it pays to. *)
Record CollectionPlan := mkCollectionPlan {
  pn_recurringPayment : PaymentRecurringPaymentRow;
  pn_receiverAta : string;
  pn_instructions : SubscriptionInstructions;
}.

Definition planCollection (i : CollectInput) (planPda subscriptionPda : string) : pay_prog CollectionPlan :=
  let tenant := cc_tenant i in
  let rp := cc_recurringPayment i in
  let wallet := cc_sourceWallet i in
  let! sourceOwner := valid_address (rp_source_address rp) "sourceAddress" in
  let! destinationOwner := valid_address (rp_destination_address rp) "destinationAddress" in
  let! mint := valid_address (rp_token rp) "token" in
  let! signer := ask (CreateOrgSigner tenant (cw_walletId wallet)) in
  if negb (String.eqb signer (cw_publicKey wallet))
  then Throw (badRequest "Resolved signing wallet does not match source wallet")
  else
    let! tokenProgram := ask (MintTokenProgram mint) in
    let! source := ask (ResolveSourceTokenAccount sourceOwner mint tokenProgram) in
    let! amountBaseUnits := of_result (SolanaAmount.parseDecimalAmount (rp_amount rp) (sta_decimals source)) in
    if amountBaseUnits <=? 0 then Throw (badRequest "Subscription amount must be greater than zero")
    else
      let! receiverAta := ask (FindAta destinationOwner tokenProgram mint) in
      let! planPda := valid_address planPda "planPda" in
      let! subscriptionPda := valid_address subscriptionPda "subscriptionPda" in
      let! scope := createProjectSponsorshipFeePayment tenant (cw_walletId wallet) in
      let! feePayer := ask (GetFeePayer scope) in
      let! create := ask (BuildInstruction (CreateAta feePayer receiverAta destinationOwner mint tokenProgram)) in
      let! collect :=
        ask (BuildInstruction (TransferSubscription amountBaseUnits signer sourceOwner planPda receiverAta
                                 subscriptionPda mint tokenProgram)) in
      let! updatedAt := ask NowIso in
      let! updated := recurringPayments tenant (UpdateDestination tenant (rp_id rp) receiverAta updatedAt) in
      match updated with
      | None => Throw (conflict "Recurring payment is no longer active")
      | Some current =>
          Ret (mkCollectionPlan current receiverAta
                 (mkInstructions tenant wallet (Some signer) [create; collect] (Some feePayer)))
      end.

(** What is proved of a sent collection; the period advances afterwards. *)
Definition prove_sent (i : CollectInput) (subscription : PaymentSubscriptionRow) (dueAt : string)
    (plan : CollectionPlan) (attempt : PaymentSubscriptionCollectionAttemptRow) (xfer : PaymentTransferRow)
    (signature : string) : pay_prog VerifiedRecurringPaymentCollection :=
  confirmSubscriptionSignature signature "Recurring payment collection failed on-chain" ;;;
  verifyRecurringPaymentCollection
    (mkVerify (pn_recurringPayment plan) subscription attempt xfer signature dueAt (pn_receiverAta plan)).

(** The signature is journaled on both rows, the transfer's at least. *)
Definition record_sent (i : CollectInput) (attempt : PaymentSubscriptionCollectionAttemptRow) (xfer : PaymentTransferRow)
    (signature : string)
    : pay_prog (result PaymentTransferRow * PaymentSubscriptionCollectionAttemptRow) :=
  let tenant := cc_tenant i in
  let! submittedAt := ask NowIso in
  let! updatedAttempt :=
    settled (paymentSubscriptions tenant (UpdateAttempt
      (attempt_update (attempt_id attempt) tenant None (Some ca_processing) (Some (Some signature)) (Some None) None
         submittedAt))) in
  match updatedAttempt with
  | Err e => Ret (Err e, attempt)
  | Ok updated =>
      let attempt := default attempt updated in
      let! updatedTransfer :=
        settled (payments tenant (UpdateTransfer
          (transfer_signature_update (transfer_id xfer) tenant signature (Some None) submittedAt))) in
      Ret match updatedTransfer with
          | Err e => (Err e, attempt)
          | Ok None => (Err (internalError "Failed to update collection transfer"), attempt)
          | Ok (Some row) => (Ok row, attempt)
          end
  end.

(** From the signature of a sent collection to its end. *)
Definition finish_sent (i : CollectInput) (subscription : PaymentSubscriptionRow) (dueAt : string)
    (plan : CollectionPlan) (attempt : PaymentSubscriptionCollectionAttemptRow) (xfer : PaymentTransferRow)
    (st : StoreState) (signature : string) : pay_prog RecurringPaymentCollectionResult :=
  let! (recorded, attempt) := record_sent i attempt xfer signature in
  match recorded with
  | Err e => handleRecurringPaymentCollectionError i attempt (Some xfer) st (Some signature) e
  | Ok xfer =>
      let! proved := settled (prove_sent i subscription dueAt plan attempt xfer signature) in
      match proved with
      | Err e => handleRecurringPaymentCollectionError i attempt (Some xfer) st (Some signature) e
      | Ok proof =>
          let! c := finalizeRecurringPaymentCollection (cc_tenant i) (cc_recurringPayment i) subscription attempt xfer
                      proof in
          Ret (result_of c)
      end
  end.

(** From a linked transfer to the end. *)
Definition send_linked (i : CollectInput) (subscription : PaymentSubscriptionRow) (dueAt planPda subscriptionPda : string)
    (attempt : PaymentSubscriptionCollectionAttemptRow) (xfer : PaymentTransferRow)
    : pay_prog RecurringPaymentCollectionResult :=
  let! planned := settled (planCollection i planPda subscriptionPda) in
  match planned with
  | Err e => handleRecurringPaymentCollectionError i attempt (Some xfer) fresh_store None e
  | Ok plan =>
      let! (sent, st) := send_with_store dp (pn_instructions plan) (transfer_id xfer) fresh_store in
      match sent with
      | Err e => handleRecurringPaymentCollectionError i attempt (Some xfer) st None e
      | Ok signature => finish_sent i subscription dueAt plan attempt xfer st signature
      end
  end.

(** The policy of a claimed attempt, then its transfer. *)
Definition allow_and_link (i : CollectInput) (subscriptionId dueAt attemptId : string)
    : pay_prog (PaymentSubscriptionCollectionAttemptRow * PaymentTransferRow) :=
  enforceRecurringPaymentPolicy i subscriptionId dueAt ;;;
  let! updatedAt := ask NowIso in
  payments (cc_tenant i) (LinkTransfer (collection_transfer i subscriptionId dueAt) attemptId updatedAt).

Definition collect_claimed (i : CollectInput) (subscription : PaymentSubscriptionRow) (dueAt planPda subscriptionPda : string)
    (attempt : PaymentSubscriptionCollectionAttemptRow) : pay_prog RecurringPaymentCollectionResult :=
  let! linked := settled (allow_and_link i (sb_id subscription) dueAt (attempt_id attempt)) in
  match linked with
  | Err e => handleRecurringPaymentCollectionError i attempt None fresh_store None e
  | Ok (attempt, xfer) => send_linked i subscription dueAt planPda subscriptionPda attempt xfer
  end.

(** Whether the period may be collected now. *)
Definition assert_collectable (i : CollectInput) (subscription : PaymentSubscriptionRow) (planId dueAt : string)
    : pay_prog unit :=
  let tenant := cc_tenant i in
  if negb (bool_decide (rp_status (cc_recurringPayment i) = rs_active))
  then Throw (conflict "Recurring payment must be active before collection")
  else
    let! now := ask NowMs in
    if match Date_parse dueAt with Some due => now <? due | None => false end
    then Throw (badRequest "Recurring payment collection is not due yet")
    else
      let! plan := paymentSubscriptions tenant (GetPlan tenant planId) in
      match plan with
      | None => Throw (AppError "NOT_FOUND" "Subscription plan not found")
      | Some plan =>
          if negb (bool_decide (pl_status plan = ps_active))
          then Throw (badRequest "Subscription plan must be active before collection")
          else if negb (bool_decide (sb_status subscription = ss_active))
          then Throw (badRequest "Subscription must be active before collection")
          else Ret tt
      end.

(** A period no attempt has to be recovered for. *)
Definition claim_and_collect (i : CollectInput) (o : CollectionOf) (planPda subscriptionPda nowIso : string)
    : pay_prog RecurringPaymentCollectionResult :=
  let tenant := cc_tenant i in
  let subscription := co_subscription o in
  let! id := ask NewUuid in
  let! attempt :=
    paymentSubscriptions tenant
      (CreateAttempt (claimed_attempt i id (sb_id subscription) (co_dueAt o) nowIso)) in
  match attempt with
  | Some attempt => collect_claimed i subscription (co_dueAt o) planPda subscriptionPda attempt
  | None =>
      let! recovered := recoverRecurringPaymentCollection o in
      match recovered with
      | Some c => Ret (result_of c)
      | None => Throw already_processing
      end
  end.

(** The records of a recurring payment a collection needs. *)
Record CollectionRecords := mkRecords {
  rc_planId : string;
  rc_subscriptionId : string;
  rc_planPda : string;
  rc_subscriptionPda : string;
  rc_dueAt : string;
}.

Definition collectionRecords (i : CollectInput) : result CollectionRecords :=
  let rp := cc_recurringPayment i in
  let wallet := cc_sourceWallet i in
  if negb (String.eqb (rp_source_wallet_id rp) (cw_walletId wallet))
  then Err (badRequest "Recurring payment source wallet does not match request")
  else if negb (String.eqb (rp_source_address rp) (cw_publicKey wallet))
  then Err (badRequest "Recurring payment source address does not match wallet")
  else
    match given (rp_plan_id rp), given (rp_subscription_id rp) with
    | Some planId, Some subscriptionId =>
        match given (rp_plan_pda rp), given (rp_subscription_pda rp) with
        | Some planPda, Some subscriptionPda =>
            match given (rp_next_collection_due_at rp) with
            | Some dueAt => Ok (mkRecords planId subscriptionId planPda subscriptionPda dueAt)
            | None => Err (conflict "Recurring payment has no due collection")
            end
        | _, _ => Err (conflict "Recurring payment is missing on-chain subscription records")
        end
    | _, _ => Err (conflict "Recurring payment is missing subscription records")
    end.

Definition collectRecurringPayment (i : CollectInput) : pay_prog RecurringPaymentCollectionResult :=
  let tenant := cc_tenant i in
  let! records := of_result (collectionRecords i) in
  let! nowIso := ask NowIso in
  let! subscription := paymentSubscriptions tenant (GetSubscription tenant (rc_subscriptionId records)) in
  match subscription with
  | None => Throw (AppError "NOT_FOUND" "Subscription not found")
  | Some subscription =>
      let o := mkCollectionOf tenant (cc_recurringPayment i) subscription (rc_dueAt records) in
      let! recovered := recoverRecurringPaymentCollection o in
      match recovered with
      | Some c => Ret (result_of c)
      | None =>
          assert_collectable i subscription (rc_planId records) (rc_dueAt records) ;;;
          claim_and_collect i o (rc_planPda records) (rc_subscriptionPda records) nowIso
      end
  end.
End Collection.
