(* ===== verification/RecurringOperations.v ===== *)
(** * Recurring payments: cancelling and resuming

    [services/payments/recurring-payments/lifecycle.ts]: a claimed recurring payment is
    canceled or resumed on chain and finalized; an operation that stopped after its
    transaction was sent is taken over with the signature it left. The transaction is
    sent by the paymaster ([signAndSend]), so it has no outbox. *)
From Stdlib Require Import Ascii String ZArith Lia.
From stdpp Require Import base list strings.
From S2P Require Import Prelude Text Dates WellKnownTokens PaymentOperation PolicyTypes BudgetTypes BudgetService.
From S2P Require Import PaymentTables RecurringLifecycle RecurringTransactions PaymentCalls SignedSubmission.
From S2P Require Import RecurringCollection.

Local Open Scope string_scope.
Local Open Scope Z_scope.
Local Open Scope list_scope.
Local Open Scope sdp_scope.

Definition ask := PaymentCalls.ask.

Definition operation_text (o : LifecycleOperation) : string :=
  match o with op_cancel => "cancel" | op_resume => "resume" end.

Definition done_text (o : LifecycleOperation) : string :=
  match o with op_cancel => "canceled" | op_resume => "resumed" end.

Definition lifecycleConfirmationMessage (o : LifecycleOperation) : string :=
  match o with
  | op_cancel => "Recurring payment cancellation failed on-chain"
  | op_resume => "Recurring payment resume failed on-chain"
  end.

Section Operations.
Context {K : PaymentKit}.
Variable dp : Deployment.

(** [shared.ts] *)
Definition RECURRING_PAYMENT_TOKEN_ERROR : string :=
  "Recurring payments support USD stablecoins and tokens issued in this project; native SOL is not supported".

Definition assertRecurringPaymentTokenMint (token : string) (tenant : PayTenant) : pay_prog string :=
  if isNativePaymentToken token then Throw (badRequest RECURRING_PAYMENT_TOKEN_ERROR)
  else
    let! normalized := of_result (normalizePaymentToken (dp_cluster dp) token) in
    let! mint := valid_address normalized "token" in
    match token_by_mint mint with
    | Some wellKnown =>
        let! cluster := of_result (dp_cluster dp) in
        if wk_isUsdStable (at_token wellKnown) && bool_decide (cluster ∈ at_clusters wellKnown) then Ret mint
        else Throw (badRequest RECURRING_PAYMENT_TOKEN_ERROR)
    | None =>
        let! status := scoped tenant "TokenRepository" (GetStatusByMint tenant mint) in
        if bool_decide (status = Some "active") then Ret mint else Throw (badRequest RECURRING_PAYMENT_TOKEN_ERROR)
    end.

(** What an operation is asked of. *)
Record OperationInput := mkOperation {
  oi_tenant : PayTenant;
  oi_sourceWallet : CustodyWallet;
  oi_recurringPayment : PaymentRecurringPaymentRow;
  oi_operation : LifecycleOperation;
}.

Definition operation_processing (o : LifecycleOperation) : jserr :=
  conflict ("Recurring payment " ++ operation_text o ++ " is already processing").

Definition assertLifecyclePreconditions (i : OperationInput) (rp : PaymentRecurringPaymentRow) (nowIso : string)
    : result unit :=
  if negb (String.eqb (rp_source_wallet_id rp) (cw_walletId (oi_sourceWallet i)))
  then Err (badRequest "Recurring payment source wallet does not match request")
  else if negb (String.eqb (rp_source_address rp) (cw_publicKey (oi_sourceWallet i)))
  then Err (badRequest "Recurring payment source address does not match wallet")
  else
    let? transition :=
      decideRecurringPaymentLifecycleTransition (oi_operation i) (rp_status rp) (rp_updated_at rp) nowIso in
    match transition with
    | already_final | claimable | recoverable => Ok tt
    | processing => Err (operation_processing (oi_operation i))
    | invalid =>
        Err (conflict ("Recurring payment cannot be " ++ done_text (oi_operation i) ++ " from this status"))
    end.

Definition is_final (i : OperationInput) (rp : PaymentRecurringPaymentRow) : bool :=
  bool_decide (rp_status rp = finalStatus (getRecurringPaymentLifecycleStatuses (oi_operation i))).

(** The claim is given back. *)
Definition reset_claim (i : OperationInput) (id updatedAt : string) : pay_prog unit :=
  let s := getRecurringPaymentLifecycleStatuses (oi_operation i) in
  recurringPayments (oi_tenant i)
    (UpdateRecurringLifecycle (oi_tenant i) id (claimableStatus s) (processingStatus s) updatedAt) ;;;
  Ret tt.

Definition getOrCreateLifecycleAttempt (i : OperationInput) (claimed : PaymentRecurringPaymentRow) (nowIso : string)
    : pay_prog LifecycleAttemptRow :=
  let tenant := oi_tenant i in
  let! current := recurringPayments tenant (GetLifecycleAttempt tenant (rp_id claimed) (oi_operation i) [la_processing]) in
  match current with
  | Some attempt => Ret attempt
  | None =>
      let! created := settled (
        let! id := ask NewUuid in
        recurringPayments tenant (CreateLifecycle
          (mkLifecycleAttempt ("prpl_" ++ id) tenant (rp_id claimed) (oi_operation i) la_processing stage_claim None
             None [] nowIso nowIso))) in
      match created with
      | Ok (Some attempt) => Ret attempt
      | Ok None =>
          let! updatedAt := ask NowIso in
          reset_claim i (rp_id claimed) updatedAt ;;;
          Throw (internalError "Failed to journal recurring payment lifecycle")
      | Err error =>
          let! updatedAt := ask NowIso in
          reset_claim i (rp_id claimed) updatedAt ;;;
          Throw error
      end
  end.

Definition update_stage (i : OperationInput) (attempt : LifecycleAttemptRow) (status : option LifecycleAttemptStatus)
    (stage : LifecycleAttemptStage) (signature error : patch) (updatedAt : string) : pay_prog LifecycleAttemptRow :=
  recurringPayments (oi_tenant i)
    (UpdateLifecycle (lifecycle_update (la_id attempt) (oi_tenant i) status (Some stage) signature error updatedAt)).

Definition recordLifecycleFailure (i : OperationInput) (attempt : LifecycleAttemptRow) (stage : LifecycleAttemptStage)
    (error : jserr) (failedAt : string) : pay_prog unit :=
  update_stage i attempt (Some la_failed) stage None (Some (Some (error_message error))) failedAt ;;;
  reset_claim i (la_recurring_payment_id attempt) failedAt.

Definition preserveRecoverableLifecycleAttempt (i : OperationInput) (attempt : LifecycleAttemptRow)
    (stage : LifecycleAttemptStage) (signature : string) (error : jserr) (failedAt : string) : pay_prog unit :=
  catch (update_stage i attempt None stage (Some (Some signature)) (Some (Some (error_message error))) failedAt ;;;
         Ret tt)
    (fun _ => Ret tt).

(** The handler of an error: a signature whose transaction did not fail is kept. *)
Definition operation_failed {A} (i : OperationInput) (attempt : LifecycleAttemptRow) (stage : LifecycleAttemptStage)
    (signature : option string) (error : jserr) : pay_prog A :=
  let! failedAt := ask NowIso in
  match (if is_app_error "TRANSACTION_FAILED" error then None else given signature) with
  | Some s => preserveRecoverableLifecycleAttempt i attempt stage s error failedAt ;;; Throw error
  | None => catch (recordLifecycleFailure i attempt stage error failedAt) (fun _ => Ret tt) ;;; Throw error
  end.

Definition buildLifecycleInstruction (o : LifecycleOperation) (planPda subscriber subscriptionPda tokenMint : string)
    : pay_prog string :=
  match o with
  | op_cancel => ask (BuildInstruction (CancelSubscription planPda subscriber subscriptionPda))
  | op_resume =>
      let! onChain := ask (FetchSubscriptionExpiry subscriptionPda) in
      match onChain with
      | None => Throw (conflict "Subscription was not found on-chain")
      | Some expiresAtTs =>
          ask (BuildInstruction (ResumeSubscription expiresAtTs planPda subscriber subscriptionPda tokenMint))
      end
  end.

(** What the operation's transaction is built from. *)
Record OperationPlan := mkOperationPlan {
  opn_subscription : PaymentSubscriptionRow;
  opn_signer : string;
  opn_tokenMint : string;
  opn_planPda : string;
  opn_subscriptionPda : string;
}.

(** The status an operation leaves and the one it reaches are these two, whichever it is. *)
Definition may_run (s : PaymentSubscriptionStatus) : bool :=
  bool_decide (s = ss_active) || bool_decide (s = ss_canceled).

Definition planOperation (i : OperationInput) (claimed : PaymentRecurringPaymentRow)
    (known : option PaymentSubscriptionRow) : pay_prog OperationPlan :=
  let tenant := oi_tenant i in
  match given (rp_plan_pda claimed), given (rp_subscription_id claimed), given (rp_subscription_pda claimed) with
  | Some planPda, Some subscriptionId, Some subscriptionPda =>
      let! subscription :=
        match known with
        | Some s =>
            if String.eqb (sb_id s) subscriptionId then Ret (Some s)
            else paymentSubscriptions tenant (GetSubscription tenant subscriptionId)
        | None => paymentSubscriptions tenant (GetSubscription tenant subscriptionId)
        end in
      match subscription with
      | None => Throw (AppError "NOT_FOUND" "Subscription not found")
      | Some subscription =>
          let! plan := paymentSubscriptions tenant (GetPlan tenant (sb_plan_id subscription)) in
          match plan with
          | None => Throw (AppError "NOT_FOUND" "Subscription plan not found")
          | Some plan =>
              let! mint := assertRecurringPaymentTokenMint (pl_token plan) tenant in
              let! tokenMint := valid_address mint "tokenMint" in
              if negb (may_run (sb_status subscription))
              then Throw (conflict ("Subscription cannot be " ++ done_text (oi_operation i) ++ " from this status"))
              else
                let! signer := ask (CreateOrgSigner tenant (cw_walletId (oi_sourceWallet i))) in
                if negb (String.eqb signer (cw_publicKey (oi_sourceWallet i)))
                then Throw (badRequest "Resolved signing wallet does not match source wallet")
                else
                  let! planPda := valid_address planPda "planPda" in
                  let! subscriptionPda := valid_address subscriptionPda "subscriptionPda" in
                  Ret (mkOperationPlan subscription signer tokenMint planPda subscriptionPda)
          end
      end
  | _, _, _ => Throw (conflict "Recurring payment is missing on-chain subscription records")
  end.

(** The transaction of the operation, sent. *)
Definition send_operation (i : OperationInput) (attempt : LifecycleAttemptRow) (plan : OperationPlan) : pay_prog string :=
  let! updatedAt := ask NowIso in
  update_stage i attempt None stage_submit None None updatedAt ;;;
  let! instruction :=
    buildLifecycleInstruction (oi_operation i) (opn_planPda plan) (opn_signer plan) (opn_subscriptionPda plan)
      (opn_tokenMint plan) in
  send_sponsored dp (mkInstructions (oi_tenant i) (oi_sourceWallet i) (Some (opn_signer plan)) [instruction] None).

Definition finalizeRecurringPaymentLifecycle (i : OperationInput) (claimed : PaymentRecurringPaymentRow)
    (subscription : PaymentSubscriptionRow) (attempt : LifecycleAttemptRow) (signature : string)
    : pay_prog PaymentRecurringPaymentRow :=
  let! finalizedAt := ask NowIso in
  database (FinalizeLifecycle
    (mkFinalizeLifecycle (oi_tenant i) (oi_operation i) claimed subscription attempt signature finalizedAt)).

(** From a signature to the end. *)
Definition finish_operation (i : OperationInput) (claimed : PaymentRecurringPaymentRow) (plan : OperationPlan)
    (attempt : LifecycleAttemptRow) (stage : LifecycleAttemptStage) (signature : string)
    : pay_prog PaymentRecurringPaymentRow :=
  let! confirmed :=
    settled (confirmSubscriptionSignature signature (lifecycleConfirmationMessage (oi_operation i))) in
  match confirmed with
  | Err error => operation_failed i attempt stage (Some signature) error
  | Ok _ => finalizeRecurringPaymentLifecycle i claimed (opn_subscription plan) attempt signature
  end.

Definition run_claimed (i : OperationInput) (claimed : PaymentRecurringPaymentRow)
    (known : option PaymentSubscriptionRow) (attempt : LifecycleAttemptRow) : pay_prog PaymentRecurringPaymentRow :=
  let! planned := settled (planOperation i claimed known) in
  match planned with
  | Err error => operation_failed i attempt (la_stage attempt) (la_signature attempt) error
  | Ok plan =>
      match given (la_signature attempt) with
      | Some signature => finish_operation i claimed plan attempt (la_stage attempt) signature
      | None =>
          let! sent := settled (send_operation i attempt plan) in
          match sent with
          | Err error => operation_failed i attempt stage_submit None error
          | Ok signature =>
              let! recorded := settled (
                let! updatedAt := ask NowIso in
                update_stage i attempt None stage_submit (Some (Some signature)) (Some None) updatedAt) in
              match recorded with
              | Err error => operation_failed i attempt stage_submit (Some signature) error
              | Ok attempt => finish_operation i claimed plan attempt stage_submit signature
              end
          end
      end
  end.

Definition runRecurringPaymentLifecycle (i : OperationInput) : pay_prog PaymentRecurringPaymentRow :=
  let tenant := oi_tenant i in
  let! nowIso := ask NowIso in
  of_result (assertLifecyclePreconditions i (oi_recurringPayment i) nowIso) ;;;
  if is_final i (oi_recurringPayment i) then Ret (oi_recurringPayment i)
  else
    let! (rp, known) :=
      match oi_operation i with
      | op_cancel => Ret (oi_recurringPayment i, None)
      | op_resume => recoverOrBlockLifecycleCollection dp tenant (oi_recurringPayment i)
      end in
    let! later := ask NowIso in
    of_result (assertLifecyclePreconditions i rp later) ;;;
    if is_final i rp then Ret rp
    else
      let! updatedAt := ask NowIso in
      let! staleBefore := of_result (getRecurringPaymentOperationStaleBefore nowIso) in
      let! claimed :=
        recurringPayments tenant (ClaimLifecycle tenant (rp_id rp) (oi_operation i) updatedAt (Some staleBefore)) in
      match claimed with
      | None => Throw (operation_processing (oi_operation i))
      | Some claimed =>
          let! attempt := getOrCreateLifecycleAttempt i claimed nowIso in
          run_claimed i claimed known attempt
      end.

Definition cancelRecurringPayment (tenant : PayTenant) (wallet : CustodyWallet) (rp : PaymentRecurringPaymentRow)
    : pay_prog PaymentRecurringPaymentRow :=
  if bool_decide (rp_status rp = rs_pending_activation)
  then
    let! updatedAt := ask NowIso in
    let! updated :=
      recurringPayments tenant
        (UpdateRecurringLifecycle tenant (rp_id rp) rs_canceled rs_pending_activation updatedAt) in
    match updated with
    | None => Throw (conflict "Recurring payment status changed before it could be canceled")
    | Some row => Ret row
    end
  else runRecurringPaymentLifecycle (mkOperation tenant wallet rp op_cancel).

Definition resumeRecurringPayment (tenant : PayTenant) (wallet : CustodyWallet) (rp : PaymentRecurringPaymentRow)
    : pay_prog PaymentRecurringPaymentRow :=
  runRecurringPaymentLifecycle (mkOperation tenant wallet rp op_resume).
End Operations.
