(* ===== verification/RecurringActivation.v ===== *)
(** * Recurring payments: activation

    [services/payments/recurring-payments/activation.ts]: a recurring payment is claimed,
    gets a plan and a subscription, has its plan created and its subscription authorized
    on chain by transactions the paymaster sends, and becomes active when the chain has
    both. What an earlier activation recorded is taken up where it stopped. *)
From Stdlib Require Import Ascii String ZArith Lia.
From stdpp Require Import base list strings.
From S2P Require Import Prelude Text Amount PaymentOperation PolicyTypes BudgetTypes BudgetService.
From S2P Require Import PaymentTables ActivationTables RecurringLifecycle PaymentCalls SignedSubmission RecurringCollection.

Local Open Scope string_scope.
Local Open Scope Z_scope.
Local Open Scope list_scope.
Local Open Scope sdp_scope.

(** What an activation is asked of. *)
Record ActivationInput := mkActivation {
  ai_tenant : PayTenant;
  ai_sourceWallet : CustodyWallet;
  ai_recurringPayment : PaymentRecurringPaymentRow;
  ai_createdBy : option string;
}.

(** An update of the payment that gives its pointers to the chain alone. *)
Definition no_activation_update (tenant : PayTenant) (id updatedAt : string) : UpdateRecurringPaymentActivationInput :=
  mkUpdateActivation id tenant None None None None None None None None None None None updatedAt.

Definition attempt_patch (tenant : PayTenant) (id : string) (status : option ActivationAttemptStatus)
    (stage : option ActivationAttemptStage) (plan authorization error : patch) (updatedAt : string)
    : UpdateActivationAttemptInput :=
  mkUpdateActivationAttempt id tenant status stage plan authorization error None updatedAt.

Definition or_else (a b : option string) : option string := match a with Some _ => a | None => b end.

Section Activate.
Context {K : PaymentKit}.
Variable dp : Deployment.

Definition ask := PaymentCalls.ask.

(** The calls of the two repositories, bound to the tenant. *)
Definition recurringRepo (tenant : PayTenant) (c : activation_call) : pay_prog (activation_answer c) :=
  recurringPayments tenant (Activation c).

Definition subscriptionsRepo (tenant : PayTenant) (c : activation_call) : pay_prog (activation_answer c) :=
  paymentSubscriptions tenant (Activation c).

Definition resetRecurringPaymentActivationUnlessAlreadyActive (tenant : PayTenant) (id updatedAt : string)
    : pay_prog unit :=
  recurringRepo tenant (ResetActivation tenant id updatedAt) ;;; Ret tt.

(** ** The rows of an activation *)

Definition getOrCreateActivationPlan (i : ActivationInput) (claimed : PaymentRecurringPaymentRow) (destination : string)
    : pay_prog PaymentSubscriptionPlanRow :=
  let tenant := ai_tenant i in
  let wallet := ai_sourceWallet i in
  let! existing :=
    match given (rp_plan_id claimed) with
    | Some planId => paymentSubscriptions tenant (GetPlan tenant planId)
    | None => Ret None
    end in
  match existing with
  | Some plan => Ret plan
  | None =>
      let! createdAt := ask NowIso in
      let! id := ask NewUuid in
      let! programPlanId := ask (Activation NewProgramPlanId) in
      let! plan :=
        subscriptionsRepo tenant (CreatePlanRow
          (mkPlan ("psp_" ++ id) tenant (cw_walletId wallet) (cw_publicKey wallet) (rp_token claimed)
             (rp_amount claimed) (rp_period_hours claimed) programPlanId None (Some destination)
             (Some (cw_walletId wallet)) (Some (cw_publicKey wallet)) (rp_metadata_uri claimed) ps_draft
             (ai_createdBy i) createdAt createdAt)) in
      match plan with
      | Some plan => Ret plan
      | None => Throw (internalError "Failed to create subscription plan")
      end
  end.

Definition getOrCreateActivationSubscription (i : ActivationInput) (claimed : PaymentRecurringPaymentRow)
    (planId : string) : pay_prog PaymentSubscriptionRow :=
  let tenant := ai_tenant i in
  let subscriberAddress := cw_publicKey (ai_sourceWallet i) in
  let! existing :=
    match given (rp_subscription_id claimed) with
    | Some subscriptionId => paymentSubscriptions tenant (GetSubscription tenant subscriptionId)
    | None => Ret None
    end in
  match existing with
  | Some subscription => Ret subscription
  | None =>
      let! createdAt := ask NowIso in
      let! id := ask NewUuid in
      let! created :=
        subscriptionsRepo tenant (CreateSubscriptionRow
          (mkSubscription ("psub_" ++ id) tenant planId (rp_counterparty_id claimed) subscriberAddress None None None
             None ss_pending_authorization None None None None (ai_createdBy i) createdAt createdAt)) in
      match created with
      | Some subscription => Ret subscription
      | None =>
          let! matched :=
            subscriptionsRepo tenant (ListSubscriptions
              (mkListSubscriptions tenant (Some planId) (Some (rp_counterparty_id claimed)) (Some subscriberAddress) 1)) in
          match matched : list PaymentSubscriptionRow with
          | subscription :: _ => Ret subscription
          | [] => Throw (internalError "Failed to create subscription")
          end
      end
  end.

(** ** Failure *)

Definition recordActivationFailure (i : ActivationInput) (attempt : ActivationAttemptRow)
    (claimed : PaymentRecurringPaymentRow) (stage : ActivationAttemptStage) (error : jserr) (failedAt : string)
    : pay_prog unit :=
  let tenant := ai_tenant i in
  recurringRepo tenant (UpdateActivationAttempt
    (attempt_patch tenant (av_id attempt) (Some aa_failed) (Some stage) None None
       (Some (Some (activationErrorMessage error))) failedAt)) ;;;
  (if is_app_error "TRANSACTION_FAILED" error
   then
     recurringRepo tenant (UpdateActivation
       (mkUpdateActivation (rp_id claimed) tenant None None None None None
          match stage with aa_create_plan => Some None | _ => None end None None
          match stage with aa_authorize_subscription | aa_finalize => Some None | _ => None end None None failedAt)) ;;;
     Ret tt
   else Ret tt) ;;;
  resetRecurringPaymentActivationUnlessAlreadyActive tenant (rp_id claimed) failedAt.

(** ** The claim *)

Definition activation_processing : jserr := conflict "Recurring payment activation is already processing".

Definition assertActivationPreconditions (i : ActivationInput) (nowIso : string) : result unit :=
  let rp := ai_recurringPayment i in
  if negb (String.eqb (rp_source_wallet_id rp) (cw_walletId (ai_sourceWallet i)))
  then Err (badRequest "Recurring payment source wallet does not match request")
  else if negb (String.eqb (rp_source_address rp) (cw_publicKey (ai_sourceWallet i)))
  then Err (badRequest "Recurring payment source address does not match wallet")
  else
    let? transition := decideRecurringPaymentActivationTransition (rp_status rp) (rp_updated_at rp) nowIso in
    match transition with
    | already_final | claimable | recoverable => Ok tt
    | processing => Err activation_processing
    | invalid => Err (conflict "Recurring payment cannot be activated from this status")
    end.

Definition journalActivationClaimConflict (i : ActivationInput) (nowIso : string) : pay_prog unit :=
  let tenant := ai_tenant i in
  let rp := ai_recurringPayment i in
  catch
    (let! id := ask NewUuid in
     let! updatedAt := ask NowIso in
     recurringRepo tenant (CreateActivationAttempt
       (mkActivationAttempt ("prpa_" ++ id) tenant (rp_id rp) aa_failed aa_claim (rp_plan_creation_signature rp)
          (rp_authorization_signature rp) (Some "Recurring payment activation is already processing") [] nowIso
          updatedAt)) ;;;
     Ret tt)
    (fun _ => Ret tt).

(** [try { m } catch (error) { reset; throw error }] *)
Definition or_reset {A} (i : ActivationInput) (claimed : PaymentRecurringPaymentRow) (m : pay_prog A) : pay_prog A :=
  catch m (fun error =>
    let! updatedAt := ask NowIso in
    resetRecurringPaymentActivationUnlessAlreadyActive (ai_tenant i) (rp_id claimed) updatedAt ;;;
    Throw error).

Definition createClaimedActivationAttempt (i : ActivationInput) (claimed : PaymentRecurringPaymentRow)
    (nowIso : string) (recoveringStaleActivation : bool) : pay_prog ActivationAttemptRow :=
  let tenant := ai_tenant i in
  let! existing :=
    if recoveringStaleActivation
    then or_reset i claimed (recurringRepo tenant (LatestActivationAttempt tenant (rp_id claimed) [aa_processing]))
    else Ret None in
  match existing with
  | Some existing =>
      or_reset i claimed (
        let! resumed :=
          recurringRepo tenant (UpdateActivationAttempt
            (attempt_patch tenant (av_id existing) None None
               (Some (or_else (rp_plan_creation_signature claimed) (av_plan_creation_signature existing)))
               (Some (or_else (rp_authorization_signature claimed) (av_authorization_signature existing)))
               (Some None) nowIso)) in
        Ret (default existing resumed))
  | None =>
      let! attempt := or_reset i claimed (
        let! id := ask NewUuid in
        recurringRepo tenant (CreateActivationAttempt
          (mkActivationAttempt ("prpa_" ++ id) tenant (rp_id claimed) aa_processing aa_create_plan
             (rp_plan_creation_signature claimed) (rp_authorization_signature claimed) None [] nowIso nowIso))) in
      match attempt with
      | Some attempt => Ret attempt
      | None =>
          let! updatedAt := ask NowIso in
          resetRecurringPaymentActivationUnlessAlreadyActive tenant (rp_id claimed) updatedAt ;;;
          Throw (internalError "Failed to journal recurring payment activation")
      end
  end.

Definition settleActiveActivationAttempt (i : ActivationInput) (nowIso : string) : pay_prog unit :=
  let tenant := ai_tenant i in
  let rp := ai_recurringPayment i in
  catch
    (let! attempt := recurringRepo tenant (LatestActivationAttempt tenant (rp_id rp) [aa_processing]) in
     match attempt with
     | None => Ret tt
     | Some attempt =>
         recurringRepo tenant (UpdateActivationAttempt
           (attempt_patch tenant (av_id attempt) (Some aa_confirmed) (Some aa_finalize)
              (Some (or_else (rp_plan_creation_signature rp) (av_plan_creation_signature attempt)))
              (Some (or_else (rp_authorization_signature rp) (av_authorization_signature attempt))) (Some None)
              nowIso)) ;;;
         Ret tt
     end)
    (fun _ => Ret tt).

(** ** What the chain has *)

Definition ACTIVATION_FAILED_ON_CHAIN : string := "Recurring payment activation failed on-chain".

(** A fetch, after the confirmation of a transaction of this run, or before that of an
    earlier one when there is nothing yet. *)
Definition fetch_confirmed {A} (signature : string) (thisRun : bool) (fetch : pay_prog (option A)) : pay_prog (option A) :=
  if thisRun then confirmSubscriptionSignature signature ACTIVATION_FAILED_ON_CHAIN ;;; fetch
  else
    let! existing := fetch in
    match existing with
    | Some a => Ret (Some a)
    | None => confirmSubscriptionSignature signature ACTIVATION_FAILED_ON_CHAIN ;;; fetch
    end.

Definition fetchConfirmedActivationPlan (planPda planCreationSignature : string) (createdPlanThisRun : bool)
    : pay_prog (option Z) :=
  fetch_confirmed planCreationSignature createdPlanThisRun (ask (Activation (FetchPlan planPda))).

(** A delegation that is there is some instant of expiry. *)
Definition fetchConfirmedSubscriptionDelegation (subscriptionPda authorizationSignature : string)
    (authorizedThisRun : bool) : pay_prog (option Z) :=
  fetch_confirmed authorizationSignature authorizedThisRun (ask (FetchSubscriptionExpiry subscriptionPda)).

(** ** The plan *)

(** What is known of an activation once its plan is on chain. *)
Record ActivationPlan := mkActivationPlan {
  ap_owner : string;
  ap_mint : string;
  ap_signer : string;
  ap_tokenProgram : string;
  ap_source : SourceTokenAccount;
  ap_amountBaseUnits : Z;
  ap_plan : PaymentSubscriptionPlanRow;
  ap_programPlanId : Z;
  ap_planPda : string;
  ap_planCreationSignature : string;
  ap_planCreatedAt : Z;
  ap_subscription : PaymentSubscriptionRow;
}.

Definition set_stage (i : ActivationInput) (attempt : ActivationAttemptRow) (stage : ActivationAttemptStage)
    (updatedAt : string) : pay_prog unit :=
  recurringRepo (ai_tenant i) (UpdateActivationAttempt
    (attempt_patch (ai_tenant i) (av_id attempt) None (Some stage) None None None updatedAt)) ;;;
  Ret tt.

(** The transaction that creates the plan, unless an earlier one is known; and whether
    this run sent it. *)
Definition create_plan (i : ActivationInput) (claimed : PaymentRecurringPaymentRow) (attempt : ActivationAttemptRow)
    (known : option string) (amount : Z) (destination mint owner signer tokenProgram : string) (programPlanId : Z)
    : pay_prog (string * bool) :=
  let tenant := ai_tenant i in
  match given known with
  | Some signature => Ret (signature, false)
  | None =>
      let! instruction :=
        ask (BuildInstruction (CreatePlan amount [destination] 0 (default "" (rp_metadata_uri claimed)) mint signer
               (rp_period_hours claimed) programPlanId [owner] tokenProgram)) in
      let! signature :=
        send_sponsored dp (mkInstructions tenant (ai_sourceWallet i) (Some signer) [instruction] None) in
      let! updatedAt := ask NowIso in
      recurringRepo tenant (UpdateActivation
        (mkUpdateActivation (rp_id claimed) tenant None None None None None (Some (Some signature)) None None None None
           None updatedAt)) ;;;
      recurringRepo tenant (UpdateActivationAttempt
        (attempt_patch tenant (av_id attempt) None None (Some (Some signature)) None None updatedAt)) ;;;
      Ret (signature, true)
  end.

Definition establish_plan (i : ActivationInput) (claimed : PaymentRecurringPaymentRow) (attempt : ActivationAttemptRow)
    : pay_prog ActivationPlan :=
  let tenant := ai_tenant i in
  let wallet := ai_sourceWallet i in
  let! owner := valid_address (rp_source_address claimed) "sourceAddress" in
  let! destination := valid_address (rp_destination_address claimed) "destinationAddress" in
  let! mint := valid_address (rp_token claimed) "token" in
  let! signer := ask (CreateOrgSigner tenant (cw_walletId wallet)) in
  if negb (String.eqb signer (cw_publicKey wallet))
  then Throw (badRequest "Resolved signing wallet does not match source wallet")
  else
    let! tokenProgram := ask (MintTokenProgram mint) in
    let! source := ask (ResolveSourceTokenAccount owner mint tokenProgram) in
    let! amount := of_result (SolanaAmount.parseDecimalAmount (rp_amount claimed) (sta_decimals source)) in
    if amount <=? 0 then Throw (badRequest "Subscription amount must be greater than zero")
    else
      let! plan := getOrCreateActivationPlan i claimed destination in
      let! programPlanId := of_result (parseU64String (pl_program_plan_id plan) "programPlanId") in
      let! planPda := ask (Activation (FindPlanPda owner programPlanId)) in
      let! planUpdatedAt := ask NowIso in
      subscriptionsRepo tenant (UpdatePlanRow
        (mkUpdatePlan (pl_id plan) tenant (Some (Some planPda)) None None None None None planUpdatedAt)) ;;;
      recurringRepo tenant (UpdateActivation
        (mkUpdateActivation (rp_id claimed) tenant None (Some (Some (pl_id plan))) None (Some (Some planPda)) None None
           None None None None None planUpdatedAt)) ;;;
      let! stageUpdatedAt := ask NowIso in
      set_stage i attempt aa_create_plan stageUpdatedAt ;;;
      let! (signature, createdPlanThisRun) :=
        create_plan i claimed attempt
          (or_else (rp_plan_creation_signature claimed) (av_plan_creation_signature attempt)) amount destination mint
          owner signer tokenProgram programPlanId in
      let! onChainPlan := fetchConfirmedActivationPlan planPda signature createdPlanThisRun in
      match onChainPlan with
      | None => Throw (AppError "TRANSACTION_FAILED" "Subscription plan was not found on-chain")
      | Some planCreatedAt =>
          let! activeAt := ask NowIso in
          subscriptionsRepo tenant (UpdatePlanRow
            (mkUpdatePlan (pl_id plan) tenant (Some (Some planPda)) None None None None (Some ps_active) activeAt)) ;;;
          let! updatedAt := ask NowIso in
          recurringRepo tenant (UpdateActivation
            (mkUpdateActivation (rp_id claimed) tenant None None None None (Some (Some (z_text planCreatedAt))) None None
               None None None None updatedAt)) ;;;
          let! subscription := getOrCreateActivationSubscription i claimed (pl_id plan) in
          Ret (mkActivationPlan owner mint signer tokenProgram source amount plan programPlanId planPda signature
                 planCreatedAt subscription)
      end.

(** ** The authorization *)

(** The id of the authority's initialization, once there are an authority and a source
    account: those that are missing are made by one transaction. *)
Definition prepareSubscriptionAuthorityForActivation (i : ActivationInput) (attempt : ActivationAttemptRow)
    (p : ActivationPlan) (authority : option Z) (authorityAddress feePayer : string) : pay_prog (option Z) :=
  let tenant := ai_tenant i in
  let account := sta_tokenAccount (ap_source p) in
  if bool_decide (is_Some authority) && sta_exists (ap_source p) then Ret authority
  else
    let! initAuthority :=
      match authority with
      | Some _ => Ret []
      | None =>
          let! instruction : string :=
            ask (BuildInstruction
              (InitSubscriptionAuthority (ap_signer p) feePayer (ap_mint p) (ap_tokenProgram p) account)) in
          Ret [instruction]
      end in
    let! createSourceAta :=
      if sta_exists (ap_source p) then Ret []
      else
        let! instruction : string :=
          ask (BuildInstruction (CreateAta feePayer account (ap_owner p) (ap_mint p) (ap_tokenProgram p))) in
        Ret [instruction] in
    let! initSignature :=
      send_sponsored dp (mkInstructions tenant (ai_sourceWallet i) (Some (ap_signer p))
        (createSourceAta ++ initAuthority) (Some feePayer)) in
    let! updatedAt := ask NowIso in
    recurringRepo tenant (UpdateActivationAttempt
      (mkUpdateActivationAttempt (av_id attempt) tenant None None None None None
         (Some [("authorizationSetupSignature", JString initSignature)]) updatedAt)) ;;;
    confirmSubscriptionSignature initSignature ACTIVATION_FAILED_ON_CHAIN ;;;
    match authority with
    | Some _ => Ret authority
    | None =>
        let! made := ask (Activation (FetchSubscriptionAuthority authorityAddress)) in
        match made with
        | Some initId => Ret (Some initId)
        | None => Throw (AppError "TRANSACTION_FAILED" "Subscription authority was not found on-chain")
        end
    end.

(** The transaction that authorizes the subscription, unless an earlier one is known; and
    whether this run sent it. *)
Definition authorize_subscription (i : ActivationInput) (claimed : PaymentRecurringPaymentRow)
    (attempt : ActivationAttemptRow) (known : option string) (p : ActivationPlan) (authorityAddress : string)
    : pay_prog (string * bool) :=
  let tenant := ai_tenant i in
  let wallet := ai_sourceWallet i in
  match given known with
  | Some signature => Ret (signature, false)
  | None =>
      let! authority := ask (Activation (FetchSubscriptionAuthority authorityAddress)) in
      let! scope := createProjectSponsorshipFeePayment tenant (cw_walletId wallet) in
      let! feePayer : string := ask (GetFeePayer scope) in
      let! authority := prepareSubscriptionAuthorityForActivation i attempt p authority authorityAddress feePayer in
      match authority with
      | None => Throw (AppError "TRANSACTION_FAILED" "Subscription authority was not found on-chain")
      | Some initId =>
          let! instruction :=
            ask (BuildInstruction
              (Subscribe (ap_amountBaseUnits p) (ap_planCreatedAt p) (rp_period_hours claimed) initId (ap_owner p)
                 feePayer (ap_programPlanId p) (ap_signer p) (ap_mint p))) in
          let! signature :=
            send_sponsored dp (mkInstructions tenant wallet (Some (ap_signer p)) [instruction] (Some feePayer)) in
          let! updatedAt := ask NowIso in
          recurringRepo tenant (UpdateActivation
            (mkUpdateActivation (rp_id claimed) tenant None None None None None None None None (Some (Some signature))
               None None updatedAt)) ;;;
          recurringRepo tenant (UpdateActivationAttempt
            (attempt_patch tenant (av_id attempt) None None None (Some (Some signature)) None updatedAt)) ;;;
          Ret (signature, true)
      end
  end.

(** What is known of an activation once its subscription is authorized. *)
Record ActivationSubscription := mkActivationSubscription {
  as_subscriptionPda : string;
  as_authorityAddress : string;
  as_authorizationSignature : string;
  as_authorizedThisRun : bool;
}.

Definition establish_subscription (i : ActivationInput) (claimed : PaymentRecurringPaymentRow)
    (attempt : ActivationAttemptRow) (p : ActivationPlan) : pay_prog ActivationSubscription :=
  let tenant := ai_tenant i in
  let subscriptionId := sb_id (ap_subscription p) in
  let! authorityAddress := ask (Activation (FindSubscriptionAuthorityPda (ap_mint p) (ap_owner p))) in
  let! subscriptionPda := ask (Activation (FindSubscriptionDelegationPda (ap_planPda p) (ap_owner p))) in
  let! updatedAt := ask NowIso in
  subscriptionsRepo tenant (UpdateSubscriptionRow
    (mkUpdateSubscription subscriptionId tenant (Some (Some (sta_tokenAccount (ap_source p))))
       (Some (Some subscriptionPda)) (Some (Some authorityAddress)) None None None None None None None None updatedAt)) ;;;
  recurringRepo tenant (UpdateActivation
    (mkUpdateActivation (rp_id claimed) tenant None None (Some (Some subscriptionId)) None None None
       (Some (Some subscriptionPda)) (Some (Some authorityAddress)) None None None updatedAt)) ;;;
  set_stage i attempt aa_authorize_subscription updatedAt ;;;
  let! (signature, authorizedThisRun) :=
    authorize_subscription i claimed attempt
      (or_else (rp_authorization_signature claimed) (av_authorization_signature attempt)) p authorityAddress in
  Ret (mkActivationSubscription subscriptionPda authorityAddress signature authorizedThisRun).

(** ** The end *)

Definition finalize_activation (i : ActivationInput) (claimed : PaymentRecurringPaymentRow)
    (attempt : ActivationAttemptRow) (p : ActivationPlan) (s : ActivationSubscription)
    : pay_prog PaymentRecurringPaymentRow :=
  let tenant := ai_tenant i in
  let subscriptionId := sb_id (ap_subscription p) in
  let! onChainSubscription :=
    fetchConfirmedSubscriptionDelegation (as_subscriptionPda s) (as_authorizationSignature s) (as_authorizedThisRun s) in
  match onChainSubscription with
  | None => Throw (AppError "TRANSACTION_FAILED" "Subscription authorization was not found on-chain")
  | Some _ =>
      let! activatedAt := ask NowIso in
      let! nextCollectionDueAt :=
        match rp_first_collection_at claimed with
        | Some first => Ret first
        | None => of_result (nextRecurringPaymentCollectionDueAt activatedAt (rp_period_hours claimed))
        end in
      subscriptionsRepo tenant (UpdateSubscriptionRow
        (mkUpdateSubscription subscriptionId tenant None None None (Some (Some (as_authorizationSignature s)))
           (Some ss_active) (Some (Some activatedAt)) (Some (Some nextCollectionDueAt)) None None None None activatedAt)) ;;;
      let! finalized :=
        recurringRepo tenant (UpdateActivation
          (mkUpdateActivation (rp_id claimed) tenant (Some rs_active) (Some (Some (pl_id (ap_plan p))))
             (Some (Some subscriptionId)) (Some (Some (ap_planPda p))) (Some (Some (z_text (ap_planCreatedAt p))))
             (Some (Some (ap_planCreationSignature p))) (Some (Some (as_subscriptionPda s)))
             (Some (Some (as_authorityAddress s))) (Some (Some (as_authorizationSignature s)))
             (Some (Some nextCollectionDueAt)) None activatedAt)) in
      match finalized with
      | None => Throw (internalError "Failed to finalize recurring payment activation")
      | Some finalized =>
          recurringRepo tenant (UpdateActivationAttempt
            (attempt_patch tenant (av_id attempt) (Some aa_confirmed) (Some aa_finalize)
               (Some (Some (ap_planCreationSignature p))) (Some (Some (as_authorizationSignature s))) (Some None)
               activatedAt)) ;;;
          Ret finalized
      end
  end.

(** ** Activation *)

(** The handler of an error, in the stage it came in. *)
Definition activation_failed {A} (i : ActivationInput) (claimed : PaymentRecurringPaymentRow)
    (attempt : ActivationAttemptRow) (stage : ActivationAttemptStage) (error : jserr) : pay_prog A :=
  let! failedAt := ask NowIso in
  catch (recordActivationFailure i attempt claimed stage error failedAt) (fun _ => Ret tt) ;;;
  Throw error.

Definition in_stage {A} (i : ActivationInput) (claimed : PaymentRecurringPaymentRow) (attempt : ActivationAttemptRow)
    (stage : ActivationAttemptStage) (m : pay_prog A) : pay_prog A :=
  catch m (activation_failed i claimed attempt stage).

Definition activate_claimed (i : ActivationInput) (claimed : PaymentRecurringPaymentRow)
    (attempt : ActivationAttemptRow) : pay_prog PaymentRecurringPaymentRow :=
  let! p := in_stage i claimed attempt aa_create_plan (establish_plan i claimed attempt) in
  let! s := in_stage i claimed attempt aa_authorize_subscription (establish_subscription i claimed attempt p) in
  in_stage i claimed attempt aa_finalize (finalize_activation i claimed attempt p s).

Definition activateRecurringPayment (i : ActivationInput) : pay_prog PaymentRecurringPaymentRow :=
  let tenant := ai_tenant i in
  let rp := ai_recurringPayment i in
  let! nowIso := ask NowIso in
  of_result (assertActivationPreconditions i nowIso) ;;;
  if bool_decide (rp_status rp = rs_active) then settleActiveActivationAttempt i nowIso ;;; Ret rp
  else
    let! staleBefore := of_result (getRecurringPaymentOperationStaleBefore nowIso) in
    let! claimed := recurringRepo tenant (ClaimActivation tenant (rp_id rp) nowIso (Some staleBefore)) in
    match claimed with
    | None => journalActivationClaimConflict i nowIso ;;; Throw activation_processing
    | Some claimed =>
        let! attempt := createClaimedActivationAttempt i claimed nowIso (bool_decide (rp_status rp = rs_activating)) in
        activate_claimed i claimed attempt
    end.
End Activate.
