(* ===== verification/RecurringJob.v ===== *)
(** * Recurring payments: the collection job

    [services/jobs/collect-recurring-payments.ts]: the queries that list what is stale,
    recoverable or due, and the pass over each list, whose rows fail one by one. *)
From Stdlib Require Import Ascii String ZArith Lia.
From stdpp Require Import base list strings sets.
From S2P Require Import Prelude Text Dates Rows PolicyTypes.
From S2P Require Import PaymentTables RecurringLifecycle RecurringTransactions PaymentCalls SignedSubmission.
From S2P Require Import RecurringCollection RecurringOperations RecurringActivation.

Local Open Scope string_scope.
Local Open Scope Z_scope.
Local Open Scope list_scope.
Local Open Scope sdp_scope.

Definition ask := PaymentCalls.ask.

(** ** The queries *)

Section Queries.
Variable text_le : string -> string -> bool.

Definition listStaleLifecycles (staleBefore : string) (limit : Z) (t : PayTables) : list PaymentRecurringPaymentRow :=
  limit_rows limit (order_by (fun a b => text_le (rp_updated_at a) (rp_updated_at b))
    (List.filter (fun r => bool_decide (rp_status r ∈ [rs_activating; rs_canceling; rs_resuming])
                           && text_le (rp_updated_at r) staleBefore) (recurring t))).

(** The attempts of a recurring payment's due period. *)
Definition due_attempts (t : PayTables) (r : PaymentRecurringPaymentRow)
    : list PaymentSubscriptionCollectionAttemptRow :=
  match rp_subscription_id r, rp_next_collection_due_at r with
  | Some s, Some due =>
      List.filter (fun a => bool_decide (attempt_cycle a = mkCycle (rp_tenant r) s due)) (attempts t)
  | _, _ => []
  end.

Definition recoverable_attempt (staleBefore : string) (r : PaymentRecurringPaymentRow)
    (a : PaymentSubscriptionCollectionAttemptRow) : bool :=
  match ca_status a with
  | ca_processing => text_le (ca_updated_at a) staleBefore
  | ca_confirmed => bool_decide (rp_status r = rs_active)
  | _ => false
  end.

(** [attempt_rank = 1]: the confirmed attempts first, then the oldest. *)
Definition best_attempt (staleBefore : string) (t : PayTables) (r : PaymentRecurringPaymentRow)
    : option PaymentSubscriptionCollectionAttemptRow :=
  head (order_by (fun a b =>
      match ca_status a, ca_status b with
      | ca_confirmed, ca_processing => true
      | ca_processing, ca_confirmed => false
      | _, _ => text_le (ca_updated_at a) (ca_updated_at b)
      end) (List.filter (recoverable_attempt staleBefore r) (due_attempts t r))).

Definition listRecoverableCollections (staleBefore : string) (limit : Z) (t : PayTables)
    : list PaymentRecurringPaymentRow :=
  map fst (limit_rows limit (order_by (fun a b => text_le (ca_updated_at a.2) (ca_updated_at b.2))
    (flat_map (fun r =>
       if bool_decide (rp_status r ∈ [rs_active; rs_canceling; rs_canceled])
       then match best_attempt staleBefore t r with Some a => [(r, a)] | None => [] end
       else []) (recurring t)))).

Definition blocks_due (retryBefore : string) (a : PaymentSubscriptionCollectionAttemptRow) : bool :=
  holds_cycle (ca_status a)
  || (bool_decide (ca_status a = ca_failed) && text_before text_le retryBefore (ca_updated_at a)).

Definition listDueCollections (dueBefore retryBefore : string) (limit : Z) (t : PayTables)
    : list PaymentRecurringPaymentRow :=
  limit_rows limit
    (order_by (fun a b => text_le (default "" (rp_next_collection_due_at a)) (default "" (rp_next_collection_due_at b)))
      (List.filter (fun r =>
         bool_decide (rp_status r = rs_active)
         && match rp_next_collection_due_at r with Some due => text_le due dueBefore | None => false end
         && negb (existsb (blocks_due retryBefore) (due_attempts t r))) (recurring t))).
End Queries.

(** ** The job *)

Record CollectDueRecurringPaymentsResult := mkCollectResult {
  jr_recovered : Z;
  jr_collected : Z;
  jr_failed : Z;
  jr_skipped : Z;
}.

Inductive RowOutcome := row_ok | row_failed | row_skipped.

(** The counter an [ok] of a pass adds to. *)
Inductive OkKey := recovered_key | collected_key.

Definition addOutcome (result : CollectDueRecurringPaymentsResult) (outcome : RowOutcome) (okKey : OkKey)
    : CollectDueRecurringPaymentsResult :=
  let '(r, c, f, s) := (jr_recovered result, jr_collected result, jr_failed result, jr_skipped result) in
  match outcome, okKey with
  | row_ok, recovered_key => mkCollectResult (r + 1) c f s
  | row_ok, collected_key => mkCollectResult r (c + 1) f s
  | row_skipped, _ => mkCollectResult r c f (s + 1)
  | row_failed, _ => mkCollectResult r c (f + 1) s
  end.

Definition DEFAULT_BATCH_SIZE : Z := 25.
Definition MAX_BATCH_SIZE : Z := 100.
Definition STALE_AFTER_MS : Z := 15 * 60 * 1000.

Section Job.
Context {K : PaymentKit}.
Variable dp : Deployment.

Definition batchSize : Z :=
  Z.min (parsePositiveIntegerConfig (dp_collectionBatchSize dp) DEFAULT_BATCH_SIZE) MAX_BATCH_SIZE.

Definition resolveSourceWallet (row : PaymentRecurringPaymentRow) : pay_prog (option CustodyWallet) :=
  let! wallet := ask (GetCustodyWallet (rp_tenant row) (rp_source_wallet_id row)) in
  Ret match wallet with
      | Some w => if String.eqb (cw_publicKey w) (rp_source_address row) then Some w else None
      | None => None
      end.

Definition shouldSkipCollectionError (error : jserr) : bool := is_app_error "CONFLICT" error.

(** The wallet of a row, then what is done with it; a failure is the row's alone. *)
Definition with_source_wallet (row : PaymentRecurringPaymentRow) (f : CustodyWallet -> pay_prog RowOutcome)
    : pay_prog RowOutcome :=
  catch
    (let! wallet := resolveSourceWallet row in
     match wallet with
     | None => Ret row_failed
     | Some wallet => f wallet
     end)
    (fun error => Ret (if shouldSkipCollectionError error then row_skipped else row_failed)).

Definition collectRow (row : PaymentRecurringPaymentRow) : pay_prog RowOutcome :=
  with_source_wallet row (fun wallet =>
    collectRecurringPayment dp (mkCollect (rp_tenant row) wallet row None (Some automated)) ;;; Ret row_ok).

Definition recoverLifecycleRow (row : PaymentRecurringPaymentRow) : pay_prog RowOutcome :=
  with_source_wallet row (fun wallet =>
    match rp_status row with
    | rs_activating =>
        activateRecurringPayment dp (mkActivation (rp_tenant row) wallet row (rp_created_by row)) ;;; Ret row_ok
    | rs_canceling => cancelRecurringPayment dp (rp_tenant row) wallet row ;;; Ret row_ok
    | rs_resuming => resumeRecurringPayment dp (rp_tenant row) wallet row ;;; Ret row_ok
    | _ => Ret row_skipped
    end).

(** A pass over a list. *)
Fixpoint rows_pass (f : PaymentRecurringPaymentRow -> pay_prog RowOutcome) (okKey : OkKey)
    (rows : list PaymentRecurringPaymentRow) (result : CollectDueRecurringPaymentsResult)
    : pay_prog CollectDueRecurringPaymentsResult :=
  match rows with
  | [] => Ret result
  | row :: rest =>
      let! outcome := f row in
      rows_pass f okKey rest (addOutcome result outcome okKey)
  end.

(** [now] is the time the job is started with. *)
Definition collectDueRecurringPayments (now : Z) : pay_prog CollectDueRecurringPaymentsResult :=
  let limit := batchSize in
  let! dueBefore := of_result (toISOString now) in
  let! staleBefore := of_result (toISOString (now - STALE_AFTER_MS)) in
  let! retryBefore := of_result (toISOString (now - retryAfterMinutes dp * 60 * 1000)) in
  let! staleLifecycles := ask (ListStaleLifecycles staleBefore limit) in
  let! result := rows_pass recoverLifecycleRow recovered_key staleLifecycles (mkCollectResult 0 0 0 0) in
  let! stopped := ask (ListRecoverableCollections staleBefore limit) in
  let! result := rows_pass collectRow recovered_key stopped result in
  let! due := ask (ListDueCollections dueBefore retryBefore limit) in
  rows_pass collectRow collected_key due result.
End Job.

(** * Lemmas *)

Definition outcomes (r : CollectDueRecurringPaymentsResult) : Z :=
  jr_recovered r + jr_collected r + jr_failed r + jr_skipped r.

Lemma outcome_counts r o k : outcomes (addOutcome r o k) = outcomes r + 1.
Proof. destruct r, o, k; unfold outcomes; cbn; lia. Qed.

(** A program that always returns. *)
Definition never_throws {A} (m : pay_prog A) : Prop := all_runs m (fun _ res => exists a, res = Ok a).

Lemma wallet_never_throws row f : never_throws (with_source_wallet row f).
Proof.
  unfold never_throws, with_source_wallet. rewrite all_runs_catch. eapply all_runs_mono; [|apply all_runs_true].
  intros tr [a|e] _; cbn; eauto.
Qed.

(** A pass returns, and counts each of its rows once. *)
Lemma pass_counts f k rows r :
  (forall row, never_throws (f row)) ->
  all_runs (rows_pass f k rows r) (fun _ res => exists r', res = Ok r' /\ outcomes r' = outcomes r + Z.of_nat (length rows)).
Proof.
  intros Hf. revert r. induction rows as [|row rows IH]; intros r; cbn [rows_pass length].
  - exists r. split; [done|lia].
  - apply all_runs_bind. eapply all_runs_mono; [|apply Hf]. intros tr res (o & ->).
    eapply all_runs_mono; [|apply IH]. intros tr' res (r' & -> & E). exists r'. split; [done|].
    rewrite E, outcome_counts. lia.
Qed.

Section Outcomes.
Context {K : PaymentKit}.
Variable dp : Deployment.

Definition instants (now : Z) : result (string * string * string) :=
  let? due := toISOString now in
  let? stale := toISOString (now - STALE_AFTER_MS) in
  let? retry := toISOString (now - retryAfterMinutes dp * 60 * 1000) in
  Ok (due, stale, retry).

Lemma collectRow_returns row : never_throws (collectRow dp row).
Proof. apply wallet_never_throws. Qed.

Lemma recoverRow_returns row : never_throws (recoverLifecycleRow dp row).
Proof. apply wallet_never_throws. Qed.

(** A listing, then the pass over what it answers: its rows are counted, or its error is
    thrown. *)
Lemma listing_counts c (rows_of : pay_answer c -> list PaymentRecurringPaymentRow) f k r
    (g : CollectDueRecurringPaymentsResult -> pay_prog CollectDueRecurringPaymentsResult) Q :
  (forall row, never_throws (f row)) ->
  (forall rows tr r', outcomes r' = outcomes r + Z.of_nat (length (rows_of rows)) ->
     all_runs (g r') (fun tr' res => Q ([pay_ev c (Ok rows)] ++ tr ++ tr') res)) ->
  (forall e, Q [pay_ev c (Err e)] (Err e)) ->
  all_runs (let! rows := ask c in let! r := rows_pass f k (rows_of rows) r in g r) Q.
Proof.
  intros Hf Hg He [rows|e]; [|apply He]. cbn [bind]. apply all_runs_bind.
  eapply all_runs_mono; [|apply pass_counts, Hf]. intros tr res (r' & -> & E).
  eapply all_runs_mono; [|exact (Hg rows tr r' E)]. done.
Qed.

(** A run of the job returns unless a listing fails or its clock is out of range: a
    row that fails, or a wallet that cannot be found, stops no other row, and every row
    of the three listings is counted once, as recovered, collected, failed or skipped. *)
Theorem job_counts_every_row now :
  all_runs (collectDueRecurringPayments dp now) (fun tr res =>
    match instants now with
    | Err e => res = Err e
    | Ok (due, stale, retry) =>
        match res with
        | Ok r => exists a b c,
            pay_ev (ListStaleLifecycles stale (batchSize dp)) (Ok a) ∈ tr
            /\ pay_ev (ListRecoverableCollections stale (batchSize dp)) (Ok b) ∈ tr
            /\ pay_ev (ListDueCollections due retry (batchSize dp)) (Ok c) ∈ tr
            /\ outcomes r = Z.of_nat (length a) + Z.of_nat (length b) + Z.of_nat (length c)
        | Err e =>
            exists listing, pay_ev listing (Err e) ∈ tr
              /\ (listing = ListStaleLifecycles stale (batchSize dp) \/ listing = ListRecoverableCollections stale (batchSize dp)
                  \/ listing = ListDueCollections due retry (batchSize dp))
        end
    end).
Proof.
  unfold collectDueRecurringPayments, instants.
  destruct (toISOString now) as [due|e]; cbn [of_result bind result_bind]; [|done].
  destruct (toISOString (now - STALE_AFTER_MS)) as [stale|e]; cbn [of_result bind result_bind]; [|done].
  destruct (toISOString (now - _)) as [retry|e]; cbn [of_result bind result_bind]; [|done].
  apply (listing_counts (ListStaleLifecycles _ _) id); [apply recoverRow_returns| |].
  2:{ intros e. eexists. split; [by left|]. by left. }
  intros a ta ra Ea. apply (listing_counts (ListRecoverableCollections _ _) id); [apply collectRow_returns| |].
  2:{ intros e. exists (ListRecoverableCollections stale (batchSize dp)). split; [set_solver|]. by right; left. }
  intros b tb rb Eb [c|e]; cbn [bind].
  - eapply all_runs_mono; [|apply pass_counts, collectRow_returns]. intros tc res (rc & -> & Ec). exists a, b, c.
    split; [set_solver|]. split; [set_solver|]. split; [set_solver|].
    rewrite Ec, Eb, Ea. unfold outcomes, id. cbn. lia.
  - exists (ListDueCollections due retry (batchSize dp)). split; [set_solver|]. by right; right.
Qed.
End Outcomes.
