(* ===== verification/TransferTracker.v ===== *)
(** * Payments: the tracker of transfers

    [services/jobs/track-pending-transfers.ts]: transfers that never got a signature are
    failed, signed ones are brought to what the chain says of them, and confirmed ones
    are polled until they are final. A batch is settled by the repository of batches. *)
From Stdlib Require Import Ascii String ZArith Lia.
From stdpp Require Import base list strings.
From S2P Require Import Prelude Text Dates TransientRpc PolicyTypes.
From S2P Require Import PaymentTables RecurringTransactions PaymentCalls SignedSubmission.

Local Open Scope string_scope.
Local Open Scope Z_scope.
Local Open Scope list_scope.
Local Open Scope sdp_scope.

Definition ask := PaymentCalls.ask.

Definition STUCK_PROCESSING_AFTER_MS : Z := 5 * 60 * 1000.
Definition MAX_SIGNATURES_PER_BATCH : Z := 256.
Definition CONFIRMED_FINALIZATION_WINDOW_MS : Z := 24 * 60 * 60 * 1000.

Section Tracker.
Context {K : PaymentKit}.

Definition hasValidStoredSignature (r : PaymentTransferRow) : bool :=
  match xf_signature r with Some s => is_signature s | None => false end.

Definition partitionByValidStoredSignature (rows : list PaymentTransferRow)
    : list PaymentTransferRow * list PaymentTransferRow :=
  (List.filter hasValidStoredSignature rows, List.filter (fun r => negb (hasValidStoredSignature r)) rows).

(** The signature of a row whose signature is valid. *)
Definition signature_of (r : PaymentTransferRow) : string := default "" (xf_signature r).

(** ** Terminal statuses *)

Definition terminal_update (r : PaymentTransferRow) (status : PaymentTransferStatus) (slot : option Z)
    (error : option string) (updatedAt : string) : UpdatePaymentTransferInput :=
  mkUpdateTransfer (transfer_id r) None (Some xs_processing) (Some status) None None (Some <$> slot) None None None None
    None None None (Some <$> error) updatedAt.

(** [slot] and [error] are given as the code gives them: [None] is [undefined]. *)
Definition updateTerminalTransfer (r : PaymentTransferRow) (status : PaymentTransferStatus) (slot : option Z)
    (error : option string) (updatedAt : string) : pay_prog unit :=
  if bool_decide (xf_type (xf_facts r) = xt_transfer_batch)
  then
    match xf_project_id (xf_facts r) with
    | None => Throw (internalError "Transfer batch transfer is missing a project")
    | Some project =>
        ask (SettleTransferBatch (transfer_id r) (mkPayTenant (xf_organization_id (xf_facts r)) project) status
               (if bool_decide (status = xs_failed) then error else None) slot updatedAt)
    end
  else ask (UpdateTransfer (terminal_update r status slot error updatedAt)) ;;; Ret tt.

(** The status a verdict of the chain brings a transfer to; [None] also of an error that
    cannot be printed, which is caught like a failed write. *)
Definition chain_verdict (status : option SignatureStatus) : option (PaymentTransferStatus * option Z * option string) :=
  match status with
  | None => Some (xs_failed, None, Some "Transaction not found on chain")
  | Some s =>
      match sg_err s, sg_confirmationStatus s with
      | Some (Ok err), _ => Some (xs_failed, Some (sg_slot s), Some err)
      | Some (Err _), _ => None
      | None, Some cs_finalized => Some (xs_finalized, Some (sg_slot s), None)
      | None, Some cs_confirmed => Some (xs_confirmed, Some (sg_slot s), None)
      | None, _ => None
      end
  end.

Definition applyOnChainVerdict (r : PaymentTransferRow) (status : option SignatureStatus) (nowIso : string)
    : pay_prog bool :=
  match chain_verdict status with
  | Some (to, slot, error) =>
      catch (updateTerminalTransfer r to slot error nowIso ;;; Ret true) (fun _ => Ret false)
  | None => Ret false
  end.

(** The row goes to the back of the queue. *)
Definition rotate (r : PaymentTransferRow) (nowIso : string) : pay_prog unit :=
  catch (ask (UpdateTransfer
           (mkUpdateTransfer (transfer_id r) None (Some xs_processing) None None None None None None None None None None
              None None nowIso)) ;;; Ret tt)
    (fun _ => Ret tt).

Definition keepStartedSubmissionForReconciliation (r : PaymentTransferRow) (nowIso : string) : pay_prog unit :=
  rotate r nowIso.

Definition hasSignedSubmission (r : PaymentTransferRow) : bool :=
  bool_decide (is_Some (xf_signed_transaction r)) && bool_decide (is_Some (xf_last_valid_block_height r)).

(** The verdict is applied, or the row kept. *)
Definition settle_or_keep (r : PaymentTransferRow) (status : option SignatureStatus) (nowIso : string) : pay_prog unit :=
  let! applied := applyOnChainVerdict r status nowIso in
  if applied : bool then Ret tt else keepStartedSubmissionForReconciliation r nowIso.

(** ** Transfers without a signature *)

Definition recoverStuckProcessingTransfers (now : Z) (nowIso : string) : pay_prog unit :=
  let! cutoff := of_result (toISOString (now - STUCK_PROCESSING_AFTER_MS)) in
  let! stuck :=
    ask (ListTransfers (mkListTransfers [xs_processing] WALLET_TRANSFER_TYPES (Some false) (Some cutoff)
                          MAX_SIGNATURES_PER_BATCH)) in
  for_each (fun r =>
    catch (updateTerminalTransfer r xs_failed None (Some "Transfer processing timed out") nowIso) (fun _ => Ret tt))
    stuck.

(** ** Signed transfers *)

(** [statuses[i] ?? null] beside each row. *)
Fixpoint with_statuses (rows : list PaymentTransferRow) (statuses : list (option SignatureStatus))
    : list (PaymentTransferRow * option SignatureStatus) :=
  match rows with
  | [] => []
  | r :: rest =>
      match statuses with
      | [] => (r, None) :: with_statuses rest []
      | s :: ss => (r, s) :: with_statuses rest ss
      end
  end.

Definition processed_only (s : SignatureStatus) : bool :=
  bool_decide (sg_err s = None) && bool_decide (sg_confirmationStatus s = Some cs_processed).

(** What the recent cache knows of a transfer. *)
Definition apply_recent (nowIso : string) (x : PaymentTransferRow * option SignatureStatus) : pay_prog unit :=
  let '(r, status) := x in
  match status with
  | None => Ret tt
  | Some s =>
      let! applied := applyOnChainVerdict r (Some s) nowIso in
      if applied : bool then Ret tt
      else if processed_only s && negb (hasSignedSubmission r) then Ret tt
      else keepStartedSubmissionForReconciliation r nowIso
  end.

(** A miss of a transfer without an outbox is final once it is old. *)
Definition expired_legacy (now : Z) (r : PaymentTransferRow) : bool :=
  negb (hasSignedSubmission r)
  && match Date_parse (xf_updated_at r) with
     | Some t => STUCK_PROCESSING_AFTER_MS <? now - t
     | None => false
     end.

Definition getArchivedStatuses (rows : list PaymentTransferRow)
    : pay_prog (option (list (PaymentTransferRow * option SignatureStatus))) :=
  match rows with
  | [] => Ret (Some [])
  | _ =>
      catch
        (let! statuses := ask (SignatureStatuses (map signature_of rows) true) in
         if negb (length statuses =? length rows)%nat
         then Throw (internalError "getSignatureStatuses returned statuses for another number of signatures")
         else Ret (Some (with_statuses rows statuses)))
        (fun _ => Ret None)
  end.

Definition past_height (height : Z) (r : PaymentTransferRow) : bool :=
  match xf_last_valid_block_height r with Some h => h <? height | None => false end.

Definition apply_archived (nowIso : string) (x : PaymentTransferRow * option SignatureStatus) : pay_prog unit :=
  let '(r, status) := x in
  match status with
  | None => keepStartedSubmissionForReconciliation r nowIso
  | Some s => settle_or_keep r (Some s) nowIso
  end.

Definition not_started_row (r : PaymentTransferRow) : bool := bool_decide (xf_submission_started_at r = None).

Definition reconcileSignedSubmissionCacheMisses (rows : list PaymentTransferRow) (nowIso : string) : pay_prog unit :=
  match rows with
  | [] => Ret tt
  | _ =>
      let! height :=
        settled (withTransientRpcRetry transient_code (ask NowMs)
                   (fun _ : unit => let! r := settled (ask BlockHeight) in Ret (r, tt)) tt) in
      match height with
      | Err _ => for_each (fun r => keepStartedSubmissionForReconciliation r nowIso) rows
      | Ok height =>
          let expired := List.filter (past_height height) rows in
          for_each (fun r => if not_started_row r then settle_or_keep r None nowIso else Ret tt) expired ;;;
          let candidates := List.filter (fun r => negb (not_started_row r)) expired in
          let! archived := getArchivedStatuses candidates in
          match archived with
          | None => for_each (fun r => keepStartedSubmissionForReconciliation r nowIso) candidates
          | Some statuses => for_each (apply_archived nowIso) statuses
          end
      end
  end.

Definition is_miss (x : PaymentTransferRow * option SignatureStatus) : bool := bool_decide (x.2 = None).

Definition syncProcessingTransfersOnChain (nowIso : string) : pay_prog unit :=
  let! rows :=
    ask (ListTransfers (mkListTransfers [xs_processing] WALLET_TRANSFER_TYPES (Some true) None
                          MAX_SIGNATURES_PER_BATCH)) in
  let '(valid, unsignable) := partitionByValidStoredSignature rows in
  for_each (fun r => rotate r nowIso) unsignable ;;;
  match valid with
  | [] => Ret tt
  | _ =>
      let! statuses := settled (ask (SignatureStatuses (map signature_of valid) false)) in
      match statuses with
      | Err _ => Ret tt
      | Ok statuses =>
          let known := with_statuses valid statuses in
          for_each (apply_recent nowIso) known ;;;
          let! now := ask NowMs in
          let misses := map fst (List.filter is_miss known) in
          for_each (fun r => settle_or_keep r None nowIso) (List.filter (expired_legacy now) misses) ;;;
          reconcileSignedSubmissionCacheMisses (List.filter hasSignedSubmission misses) nowIso
      end
  end.

(** ** Confirmed transfers *)

Definition unfinished (r : PaymentTransferRow) : ConfirmedTransferPollVerdict :=
  mkVerdict (transfer_id r) (xf_organization_id (xf_facts r)) false None.

Definition poll_verdict (x : PaymentTransferRow * option SignatureStatus) : ConfirmedTransferPollVerdict :=
  let '(r, status) := x in
  match status with
  | Some s =>
      if bool_decide (sg_err s = None) && bool_decide (sg_confirmationStatus s = Some cs_finalized)
      then mkVerdict (transfer_id r) (xf_organization_id (xf_facts r)) true (Some (sg_slot s))
      else unfinished r
  | None => unfinished r
  end.

Definition finalizeConfirmedTransfers (now : Z) (nowIso : string) : pay_prog unit :=
  let! windowFloor := of_result (toISOString (now - CONFIRMED_FINALIZATION_WINDOW_MS)) in
  let! rows := ask (ListConfirmed windowFloor MAX_SIGNATURES_PER_BATCH) in
  let '(valid, unsignable) := partitionByValidStoredSignature rows in
  (match unsignable with
   | [] => Ret tt
   | _ => ask (AdvanceConfirmed (map unfinished unsignable) nowIso)
   end) ;;;
  match valid with
  | [] => Ret tt
  | _ =>
      let! statuses := settled (ask (SignatureStatuses (map signature_of valid) true)) in
      match statuses with
      | Err _ => ask (AdvanceConfirmed (map unfinished valid) nowIso)
      | Ok statuses =>
          if negb (length statuses =? length valid)%nat
          then Throw (internalError "getSignatureStatuses returned statuses for another number of signatures")
          else ask (AdvanceConfirmed (map poll_verdict (with_statuses valid statuses)) nowIso)
      end
  end.

Definition trackPendingTransfers : pay_prog unit :=
  let! now := ask NowMs in
  let! nowIso := of_result (toISOString now) in
  recoverStuckProcessingTransfers now nowIso ;;;
  syncProcessingTransfersOnChain nowIso ;;;
  finalizeConfirmedTransfers now nowIso.
End Tracker.
