(* ===== verification/RecurringInvariant.v ===== *)
(** * Recurring payments: what the statements keep

    The calls of PaymentCalls.v that are statements, as functions of the tables; what
    the rows of a table may become; and the invariant of the tables: the rows of transfers
    keep their CHECKs, ids and signatures are unique, every attempt has its transfer and a
    due period has one attempt that holds it. *)
From Stdlib Require Import Ascii String ZArith Lia.
From stdpp Require Import base list strings.
From S2P Require Import Prelude Text Rows PolicyTypes.
From S2P Require Import PaymentTables ActivationTables RecurringLifecycle RecurringTransactions PaymentCalls SignedSubmission RecurringJob.

Local Open Scope string_scope.
Local Open Scope Z_scope.
Local Open Scope list_scope.
Local Open Scope sdp_scope.

(** ** The statements *)

(** A statement that fails leaves the tables. *)
Definition statement {A} (r : result (A * PayTables)) (t : PayTables) : result A * PayTables :=
  match r with Ok (a, t') => (Ok a, t') | Err e => (Err e, t) end.

(** The statements of an activation; the rest of its calls are no statements. *)
Definition perform_activation (text_le : string -> string -> bool) (c : activation_call) (t : PayTables)
    : option (result (activation_answer c) * PayTables) :=
  match c as c return option (result (activation_answer c) * PayTables) with
  | ClaimActivation tenant x at_ staleBefore =>
      let '(a, t') := claimRecurringPaymentActivation text_le tenant x at_ staleBefore t in Some (Ok a, t')
  | ResetActivation tenant x at_ =>
      let '(a, t') := resetRecurringPaymentActivationIfNotActive tenant x at_ t in Some (Ok a, t')
  | UpdateActivation i => Some (statement (updateRecurringPaymentActivation i t) t)
  | CreateActivationAttempt r => Some (statement (createActivationAttempt r t) t)
  | UpdateActivationAttempt i => Some (statement (updateActivationAttempt i t) t)
  | LatestActivationAttempt tenant x statuses => Some (Ok (getLatestActivationAttempt text_le tenant x statuses t), t)
  | CreatePlanRow r => Some (statement (createPlan r t) t)
  | UpdatePlanRow i => Some (statement (updatePlan i t) t)
  | CreateSubscriptionRow r => Some (statement (createSubscription r t) t)
  | UpdateSubscriptionRow i => Some (statement (updateSubscription i t) t)
  | ListSubscriptions i => Some (Ok (listSubscriptions text_le i t), t)
  | _ => None
  end.

Section Perform.
Context {K : PaymentKit}.
Variable text_le : string -> string -> bool.

(** [now] and [id] are what the database generates; [None] of a call that is no
    statement modelled. *)
Definition perform (now id : string) (c : pay_call) (t : PayTables) : option (result (pay_answer c) * PayTables) :=
  match c as c return option (result (pay_answer c) * PayTables) with
  | GetTransfer tenant x => Some (Ok (getTransferById tenant x t), t)
  | UpdateTransfer i => Some (statement (updateTransfer i t) t)
  | PersistSignedTransfer i => Some (statement (persistSignedTransfer i t) t)
  | MarkTransferStarted tenant x at_ => Some (statement (markTransferSubmissionStarted tenant x at_ t) t)
  | ListTransfers i => Some (Ok (listTransfersByStatus text_le i t), t)
  | ListConfirmed after limit => Some (Ok (listConfirmedTransfersToPoll text_le after limit t), t)
  | AdvanceConfirmed polled at_ => Some (Ok tt, advanceConfirmedTransfers polled at_ t)
  | GetAttemptByDue cycle statuses => Some (Ok (getCollectionAttemptByDue text_le cycle statuses t), t)
  | CreateAttempt r => Some (statement (createCollectionAttempt r t) t)
  | UpdateAttempt i => Some (statement (updateCollectionAttempt i t) t)
  | GetSubscription tenant x => Some (Ok (getSubscriptionById tenant x t), t)
  | GetPlan tenant x => Some (Ok (getPlanById tenant x t), t)
  | GetRecurring tenant x => Some (Ok (getRecurringPaymentById tenant x t), t)
  | UpdateDestination tenant x account at_ =>
      let '(a, t') := updateRecurringPaymentDestinationTokenAccount tenant x account at_ t in Some (Ok a, t')
  | UpdateRecurringLifecycle tenant x to from at_ =>
      let '(a, t') := updateRecurringPaymentLifecycle tenant x to from at_ t in Some (Ok a, t')
  | ClaimLifecycle tenant x op at_ staleBefore =>
      let '(a, t') := claimRecurringPaymentLifecycle text_le tenant x op at_ staleBefore t in Some (Ok a, t')
  | GetLifecycleAttempt tenant x op statuses => Some (Ok (getLatestLifecycleAttempt text_le tenant x op statuses t), t)
  | CreateLifecycle r => Some (statement (createLifecycleAttempt r t) t)
  | UpdateLifecycle i => Some (statement (updateLifecycleAttempt i t) t)
  | LinkTransfer i attemptId at_ => Some (statement (link_transfer now id i attemptId at_ t) t)
  | SettleFailed i => Some (statement (settle_failed is_signature i t) t)
  | FinalizeCollection i => Some (statement (finalize_collection i t) t)
  | FinalizeLifecycle i => Some (statement (finalize_lifecycle i t) t)
  | ListStaleLifecycles before limit => Some (Ok (listStaleLifecycles text_le before limit t), t)
  | ListRecoverableCollections before limit => Some (Ok (listRecoverableCollections text_le before limit t), t)
  | ListDueCollections due retry limit => Some (Ok (listDueCollections text_le due retry limit t), t)
  | Activation c => perform_activation text_le c t
  | _ => None
  end.
End Perform.

(** ** What rows may become *)

Record later_transfer (r r' : PaymentTransferRow) : Prop := mkLaterTransfer {
  later_xf_facts : xf_facts r' = xf_facts r;
  later_signed : forall b, xf_signed_transaction r = Some b -> xf_signed_transaction r' = Some b;
  later_height : forall h, xf_last_valid_block_height r = Some h -> xf_last_valid_block_height r' = Some h;
  later_started : is_Some (xf_submission_started_at r) -> is_Some (xf_submission_started_at r');
}.

(** The statuses an attempt may have after another. *)
Definition attempt_path (a b : CollectionAttemptStatus) : Prop :=
  a = b \/ match a, b with
           | ca_pending, (ca_processing | ca_confirmed | ca_failed) => True
           | ca_processing, (ca_confirmed | ca_failed) => True
           | _, _ => False
           end.

Record later_attempt (r r' : PaymentSubscriptionCollectionAttemptRow) : Prop := mkLaterAttempt {
  later_ca_facts : ca_facts r' = ca_facts r;
  later_ca_status : attempt_path (ca_status r) (ca_status r');
}.

Record later_pay (t t' : PayTables) : Prop := mkLaterPay {
  later_transfers : later_rows later_transfer (transfers t) (transfers t');
  later_attempts : later_rows later_attempt (attempts t) (attempts t');
}.

(** ** The invariant *)

(** What the CHECK constraints of the outbox say of a transfer: signed bytes and their
    last valid height come together, with a signature, before any start; the height is
    one of 64 bits. *)
Record outbox_kept (r : PaymentTransferRow) : Prop := mkOutboxKept {
  outbox_height : is_Some (xf_signed_transaction r) <-> is_Some (xf_last_valid_block_height r);
  outbox_signature : is_Some (xf_signed_transaction r) -> is_Some (xf_signature r);
  outbox_started : is_Some (xf_submission_started_at r) -> is_Some (xf_signed_transaction r);
  outbox_range : forall h, xf_last_valid_block_height r = Some h -> 0 <= h < 2 ^ 64;
}.

(** No two rows have one signature. *)
Definition own_signatures {A} (key : A -> string) (signature : A -> option string) (l : list A) : Prop :=
  forall a b s, a ∈ l -> b ∈ l -> signature a = Some s -> signature b = Some s -> key a = key b.

Record transfers_sound (l : list PaymentTransferRow) : Prop := mkTransfersSound {
  sound_ids : NoDup (transfer_id <$> l);
  sound_outbox : forall r, r ∈ l -> outbox_kept r;
  sound_signatures : own_signatures transfer_id xf_signature l;
}.

Record pay_sound (t : PayTables) : Prop := mkPaySound {
  sound_transfers : transfers_sound (transfers t);
  sound_attempt_ids : NoDup (attempt_id <$> attempts t);
  sound_one_live : forall a b, a ∈ attempts t -> b ∈ attempts t ->
    holds_cycle (ca_status a) = true -> holds_cycle (ca_status b) = true -> attempt_cycle a = attempt_cycle b ->
    attempt_id a = attempt_id b;
  sound_attempt_signatures : own_signatures attempt_id ca_signature (attempts t);
  sound_linked : forall a x, a ∈ attempts t -> ca_transfer_id a = Some x -> x ∈ transfer_id <$> transfers t;
}.

(** * Lemmas *)

Lemma later_transfer_refl r : later_transfer r r.
Proof. by constructor. Qed.

Lemma later_transfer_trans a b c : later_transfer a b -> later_transfer b c -> later_transfer a c.
Proof. intros [F1 S1 H1 T1] [F2 S2 H2 T2]. constructor; [congruence|auto..]. Qed.

Lemma attempt_path_trans a b c : attempt_path a b -> attempt_path b c -> attempt_path a c.
Proof. unfold attempt_path. destruct a, b, c; intuition congruence. Qed.

Lemma later_attempt_refl r : later_attempt r r.
Proof. constructor; [done|by left]. Qed.

Lemma later_attempt_trans a b c : later_attempt a b -> later_attempt b c -> later_attempt a c.
Proof. intros [F1 P1] [F2 P2]. constructor; [congruence|by eapply attempt_path_trans]. Qed.

Lemma later_attempt_id r r' : later_attempt r r' -> attempt_id r' = attempt_id r.
Proof. intros [F _]. unfold attempt_id. by rewrite F. Qed.

Lemma later_attempt_cycle r r' : later_attempt r r' -> attempt_cycle r' = attempt_cycle r.
Proof. intros [F _]. unfold attempt_cycle. by rewrite F. Qed.

Lemma later_transfer_id r r' : later_transfer r r' -> transfer_id r' = transfer_id r.
Proof. intros [F _ _ _]. unfold transfer_id. by rewrite F. Qed.

Lemma sound_transfer_ids t : pay_sound t -> NoDup (transfer_id <$> transfers t).
Proof. intros H. apply H. Qed.

Lemma later_pay_refl t : later_pay t t.
Proof. constructor; apply later_rows_refl; auto using later_transfer_refl, later_attempt_refl. Qed.

Lemma later_pay_trans t1 t2 t3 : later_pay t1 t2 -> later_pay t2 t3 -> later_pay t1 t3.
Proof.
  intros [A1 B1] [A2 B2].
  constructor; eapply later_rows_trans; eauto using later_transfer_trans, later_attempt_trans.
Qed.

Create HintDb sdp_pay.
#[export] Hint Resolve later_transfer_refl later_attempt_refl later_pay_refl : sdp_pay.

(** ** Statements keep the invariant *)

Definition keeps (t t' : PayTables) : Prop := pay_sound t -> pay_sound t' /\ later_pay t t'.

Lemma keeps_refl t : keeps t t.
Proof. split; [done|apply later_pay_refl]. Qed.

Lemma keeps_trans t1 t2 t3 : keeps t1 t2 -> keeps t2 t3 -> keeps t1 t3.
Proof. intros H1 H2 [H L1]%H1. destruct (H2 H) as [H' L2]. split; [done|by eapply later_pay_trans]. Qed.

(** Only rows of other tables changed. *)
Lemma keeps_same t t' : transfers t' = transfers t -> attempts t' = attempts t -> keeps t t'.
Proof.
  intros Ht Ha [H1 H2 H3 H4 H5]. split; constructor; rewrite ?Ht, ?Ha; try done; apply later_rows_refl; auto with sdp_pay.
Qed.

Lemma sound_with_transfers t l :
  pay_sound t -> transfers_sound l -> (forall x, x ∈ transfer_id <$> transfers t -> x ∈ transfer_id <$> l) ->
  pay_sound (with_transfers t l).
Proof. intros [_ H2 H3 H4 H5] H Hin. constructor; [done..|]. intros a x Ha Hx. apply Hin. by eapply H5. Qed.

(** The CHECK expressions and the unique index say what they are to keep. *)
Lemma transfer_checks_kept r : transfer_checks r = true -> outbox_kept r.
Proof.
  unfold transfer_checks. rewrite !andb_true_iff, !orb_true_iff, !bool_decide_eq_true, eqb_true_iff.
  intros [[[H1 H2] H3] H4]. constructor.
  - destruct (xf_signed_transaction r), (xf_last_valid_block_height r); cbn in H1; try done; split; by eexists.
  - intros [b E]. destruct H2 as [H2|H2]; [congruence|done].
  - intros [b E]. destruct H3 as [H3|H3]; [congruence|done].
  - intros h E. rewrite E in H4. apply andb_true_iff in H4. change (2 ^ 64) with 18446744073709551616. lia.
Qed.

Lemma transfer_signature_free r l x s :
  transfer_signature_taken r l = false -> x ∈ l -> xf_signature r = Some s -> xf_signature x = Some s ->
  transfer_id x = transfer_id r.
Proof.
  unfold transfer_signature_taken. intros H Hx Er Ex. rewrite Er in H.
  destruct (String.eqb_spec (transfer_id x) (transfer_id r)) as [|Hne]; [done|]. exfalso.
  rewrite <- not_true_iff_false in H. apply H, existsb_exists. exists x. split; [by apply list_elem_of_In|].
  rewrite (proj2 (String.eqb_neq _ _) Hne), bool_decide_eq_true_2 by done. done.
Qed.

(** A row beside the others, or in the place of one. *)
Lemma own_signatures_but {A} (key : A -> string) signature l l' (r : A) :
  own_signatures key signature l -> (forall x, x ∈ l' -> x = r \/ x ∈ l) ->
  (forall x s, x ∈ l -> x ∈ l' -> signature r = Some s -> signature x = Some s -> key x = key r) ->
  own_signatures key signature l'.
Proof.
  intros H Hin Hr a b s Ha Hb Ea Eb. destruct (Hin a Ha) as [->|Ha'], (Hin b Hb) as [->|Hb']; [done| | |by eapply H].
  - symmetry. by eapply Hr.
  - by eapply Hr.
Qed.

Lemma update_transfer_kept p f k t o t' :
  (forall r, p r = true -> transfer_id r = k /\ later_transfer r (f r)) -> update_transfer p f t = Ok (o, t') ->
  keeps t t'
  /\ attempts t' = attempts t
  /\ match o with
     | Some r' => (exists r, r ∈ transfers t /\ p r = true /\ r' = f r) /\ r' ∈ transfers t'
     | None => t' = t /\ forall r, r ∈ transfers t -> p r = false
     end.
Proof.
  intros Hf. unfold update_transfer. destruct (update_where p f (transfers t)) as [[r|] l] eqn:E.
  - destruct (transfer_checks r) eqn:Hc; [|done]. cbn [negb].
    destruct (transfer_signature_taken _ _) eqn:Hs; [done|]. intros [= <- <-].
    apply update_where_some in E as (-> & x & Hx & Hp & -> & Hin). split; [|by split; [|split; [exists x|]]].
    assert (transfer_id <$> map (fun x => if p x then f x else x) (transfers t) = transfer_id <$> transfers t) as Hids.
    { apply update_rows_key. intros r [_ Hr]%Hf. by apply later_transfer_id. }
    intros Hsound. pose proof (sound_transfer_ids _ Hsound) as Hnd. split.
    + assert (forall y, y ∈ map (fun x => if p x then f x else x) (transfers t) -> y = f x \/ y ∈ transfers t) as Hfrom.
      { intros y (z & Hz & ->)%update_rows_elem. destruct (p z) eqn:Ez; [left|by right].
        rewrite (same_key transfer_id (transfers t) z x); try done. destruct (Hf z Ez) as [-> _]. by destruct (Hf x Hp) as [-> _]. }
      apply sound_with_transfers; [done| |by rewrite Hids]. destruct Hsound as [[_ Ho Hg] _ _ _ _]. constructor.
      * by rewrite Hids.
      * intros y [->|Hy]%Hfrom; [by apply transfer_checks_kept|by apply Ho].
      * eapply (own_signatures_but _ _ _ _ (f x) Hg Hfrom). intros y s Hy _ Er Ey. by eapply transfer_signature_free.
    + constructor; cbn; [apply update_rows_later; [auto with sdp_pay|]; intros r Hr; by apply Hf|apply later_rows_refl; auto with sdp_pay].
  - intros [= <- <-]. split; [apply keeps_refl|]. split; [done|]. split; [done|].
    unfold update_where in E. injection E as E _. intros r Hr. destruct (p r) eqn:Hp; [|done].
    destruct (List.find p (transfers t)) eqn:Ef; [done|]. apply (find_none p) with (x := r) in Ef; [congruence|].
    by apply list_elem_of_In.
Qed.

Lemma no_conflict r l x :
  existsb (attempt_conflicts r) l = false -> x ∈ l -> attempt_conflicts r x = false.
Proof.
  intros H Hx. destruct (attempt_conflicts r x) eqn:E; [|done]. rewrite <- H. symmetry.
  apply existsb_exists. exists x. by rewrite <- list_elem_of_In.
Qed.

Lemma conflict_free_live r x :
  attempt_conflicts r x = false -> holds_cycle (ca_status x) = true -> holds_cycle (ca_status r) = true ->
  attempt_cycle x <> attempt_cycle r.
Proof.
  unfold attempt_conflicts. intros [[_ H]%orb_false_iff _]%orb_false_iff Hx Hr E.
  rewrite Hx, Hr, bool_decide_eq_true_2 in H by done. done.
Qed.

(** A row beside the others, none of which it conflicts with. *)
Lemma one_live_beside r l :
  (forall a b, a ∈ l -> b ∈ l -> holds_cycle (ca_status a) = true -> holds_cycle (ca_status b) = true ->
     attempt_cycle a = attempt_cycle b -> attempt_id a = attempt_id b) ->
  (forall x, x ∈ l -> attempt_conflicts r x = false) ->
  forall a b, a ∈ r :: l -> b ∈ r :: l -> holds_cycle (ca_status a) = true -> holds_cycle (ca_status b) = true ->
    attempt_cycle a = attempt_cycle b -> attempt_id a = attempt_id b.
Proof.
  intros Hl Hr a b [->|Ha]%elem_of_cons [->|Hb]%elem_of_cons Ha' Hb' E; [done| | |by apply Hl].
  - symmetry in E. by apply (conflict_free_live _ _ (Hr b Hb) Hb' Ha') in E.
  - by apply (conflict_free_live _ _ (Hr a Ha) Ha' Hb') in E.
Qed.

Lemma references_transfer r t x :
  attempt_references r t = true -> ca_transfer_id r = Some x -> x ∈ transfer_id <$> transfers t.
Proof.
  unfold attempt_references. intros [_ H]%andb_true_iff E. rewrite E in H. apply existsb_exists in H as (y & Hy & <-%String.eqb_eq).
  apply list_elem_of_fmap. exists y. by rewrite list_elem_of_In.
Qed.

Lemma update_attempt_kept p f k t o t' :
  (forall r, p r = true -> attempt_id r = k /\ later_attempt r (f r)) -> update_attempt p f t = Ok (o, t') ->
  keeps t t'
  /\ transfers t' = transfers t
  /\ (forall a, a ∈ attempts t' -> a ∈ attempts t \/ exists r, r ∈ attempts t /\ p r = true /\ a = f r)
  /\ match o with
     | Some r' => (exists r, r ∈ attempts t /\ p r = true /\ r' = f r) /\ r' ∈ attempts t'
     | None => t' = t
     end.
Proof.
  intros Hf. unfold update_attempt. destruct (update_where p f (attempts t)) as [[r|] l] eqn:E.
  2: { intros [= <- <-]. split; [apply keeps_refl|]. split; [done|]. split; [by left|done]. }
  destruct (existsb _ _) eqn:Hc; [done|]. destruct (attempt_references _ _) eqn:Hrefs; [|done]. cbn [negb]. intros [= <- <-].
  apply update_where_some in E as (-> & x & Hx & Hp & -> & Hin). destruct (Hf x Hp) as [Hk Hl].
  assert (forall a, a ∈ attempts (with_attempts t (map (fun x => if p x then f x else x) (attempts t))) ->
    a ∈ attempts t \/ exists r, r ∈ attempts t /\ p r = true /\ a = f r) as Hfrom.
  { intros a (y & Hy & ->)%update_rows_elem. destruct (p y) eqn:Ep; [right; by exists y|by left]. }
  split; [|split; [done|split; [exact Hfrom|split; [by exists x|done]]]].
  intros [H1 H2 H3 H4 H5].
  assert (forall y, y ∈ attempts t -> p y = true -> y = x) as Honly.
  { intros y Hy [Hky _]%Hf. eapply same_key; [exact H2|done..|]. congruence. }
  assert (forall y, y ∈ attempts t -> p y = false -> attempt_conflicts (f x) y = false) as Hothers.
  { intros y Hy Hpy. eapply no_conflict; [exact Hc|]. apply filter_elem. split; [done|].
    rewrite (later_attempt_id _ _ Hl). apply negb_true_iff.
    destruct (String.eqb_spec (attempt_id y) (attempt_id x)) as [Hid|]; [|done]. exfalso.
    assert (y = x) as -> by (by eapply same_key). congruence. }
  split.
  - constructor; [done| | | |].
    + cbn. rewrite update_rows_key; [done|]. intros r [_ Hr]%Hf. by apply later_attempt_id.
    + intros a b Ha Hb. eapply (one_live_beside (f x) (List.filter (fun y => negb (p y)) (attempts t))).
      * intros a' b' [Ha' _]%filter_elem [Hb' _]%filter_elem. by apply H3.
      * intros y [Hy Hpy]%filter_elem. apply negb_true_iff in Hpy. by apply Hothers.
      * apply update_rows_elem in Ha as (y & Hy & ->). destruct (p y) eqn:Ep.
        -- rewrite (Honly y) by done. by left.
        -- right. apply filter_elem. by rewrite Ep.
      * apply update_rows_elem in Hb as (y & Hy & ->). destruct (p y) eqn:Ep.
        -- rewrite (Honly y) by done. by left.
        -- right. apply filter_elem. by rewrite Ep.
    + eapply (own_signatures_but _ _ (List.filter (fun y => negb (p y)) (attempts t)) _ (f x)).
      * intros a b s [Ha _]%filter_elem [Hb _]%filter_elem. by apply H4.
      * intros y (z & Hz & ->)%update_rows_elem. destruct (p z) eqn:Ez; [left; by rewrite (Honly z)|right].
        apply filter_elem. by rewrite Ez.
      * intros y s [Hy Hpy%negb_true_iff]%filter_elem _ Er Ey. pose proof (Hothers y Hy Hpy) as Hno.
        unfold attempt_conflicts in Hno. rewrite Er in Hno. apply orb_false_iff in Hno as [_ Hno].
        by apply bool_decide_eq_false in Hno.
    + intros a y Ha Hy. destruct (Hfrom a Ha) as [Hold|(r & Hr & Hpr & ->)]; [by eapply H5|].
      rewrite (Honly r Hr Hpr) in Hy. by eapply references_transfer.
  - constructor; cbn; [apply later_rows_refl; auto with sdp_pay|].
    apply update_rows_later; [auto with sdp_pay|]. intros r Hr. by apply Hf.
Qed.

Ltac same_tables := apply keeps_same; reflexivity.

(** Destructs what a statement is made of. *)
Ltac statement_cases :=
  repeat first
    [ match goal with |- context [match ?x with _ => _ end] => destruct x eqn:? end
    | progress intros [= <- <-] | progress intros [= <-] ].

Lemma updateTransfer_kept i t o t' :
  updateTransfer i t = Ok (o, t') -> keeps t t' /\ attempts t' = attempts t.
Proof.
  intros H. apply (update_transfer_kept _ _ (ut_transferId i)) in H as (H & Ha & _); [done|].
  intros r [[->%String.eqb_eq _]%andb_true_iff _]%andb_true_iff. by split.
Qed.

Lemma unsigned_spec r : unsigned r = true -> xf_signed_transaction r = None /\ xf_last_valid_block_height r = None.
Proof. unfold unsigned. rewrite !andb_true_iff, !bool_decide_eq_true. tauto. Qed.

Lemma persistSigned_spec i t o t' :
  persistSignedTransfer i t = Ok (o, t') ->
  keeps t t' /\ attempts t' = attempts t
  /\ forall r', o = Some r' -> r' ∈ transfers t' /\ transfer_id r' = pg_transferId i
       /\ xf_signed_transaction r' = Some (pg_signedTransaction i) /\ xf_signature r' = Some (pg_signature i)
       /\ exists r, r ∈ transfers t /\ transfer_id r = pg_transferId i /\ xf_signed_transaction r = None.
Proof.
  intros H. apply (update_transfer_kept _ _ (pg_transferId i)) in H as (H & Ha & Ho).
  - do 2 (split; [done|]). intros r' ->. destruct Ho as ((r & Hr & Hp & ->) & Hin). split; [done|].
    apply andb_true_iff in Hp as [Hp Hu]. apply andb_true_iff in Hp as [Hp _]. apply andb_true_iff in Hp as [Hp _].
    apply String.eqb_eq in Hp. do 3 (split; [done|]). exists r. do 2 (split; [done|]). by apply unsigned_spec.
  - intros r Hp. apply andb_true_iff in Hp as [Hp Hu]. apply andb_true_iff in Hp as [Hp _].
    apply andb_true_iff in Hp as [Hp%String.eqb_eq _]. apply unsigned_spec in Hu as [Hu Hh].
    split; [done|]. constructor; [done| | |done]; [by rewrite Hu|by rewrite Hh].
Qed.

Lemma markStarted_spec tenant id at_ t o t' :
  markTransferSubmissionStarted tenant id at_ t = Ok (o, t') ->
  keeps t t' /\ attempts t' = attempts t
  /\ forall r', o = Some r' -> r' ∈ transfers t' /\ transfer_id r' = id /\ is_Some (xf_submission_started_at r')
       /\ is_Some (xf_signature r').
Proof.
  intros H. apply (update_transfer_kept _ _ id) in H as (H & Ha & Ho).
  - do 2 (split; [done|]). intros r' ->. destruct Ho as ((r & Hr & Hp & ->) & Hin). split; [done|].
    repeat (apply andb_true_iff in Hp as [Hp ?]). apply String.eqb_eq in Hp. split; [done|]. split; [by eexists|].
    match goal with H : bool_decide (is_Some (xf_signature r)) = true |- _ => by apply bool_decide_eq_true in H end.
  - intros r Hp. repeat (apply andb_true_iff in Hp as [Hp _]). apply String.eqb_eq in Hp.
    split; [done|]. constructor; [done|done|done|by eexists].
Qed.

Lemma polled_kept polled at_ t : keeps t (advanceConfirmedTransfers polled at_ t).
Proof.
  intros Hs. unfold advanceConfirmedTransfers.
  set (f := fun r => if bool_decide (xf_status r = xs_confirmed)
            then match verdict_of polled r with Some v => polled_row at_ v r | None => r end else r).
  assert (forall r, later_transfer r (f r)) as Hf.
  { intros r. unfold f. case_bool_decide; [destruct (verdict_of polled r)|]; auto with sdp_pay. by constructor. }
  assert (forall r, xf_signature (f r) = xf_signature r /\ (outbox_kept r -> outbox_kept (f r))) as Ho.
  { intros r. unfold f. case_bool_decide; [destruct (verdict_of polled r)|]; split; try done; by intros []. }
  assert (transfer_id <$> map f (transfers t) = transfer_id <$> transfers t) as Hids.
  { apply (update_rows_key (fun _ => true) f). intros r _. apply later_transfer_id, Hf. }
  split.
  - apply sound_with_transfers; [done| |by rewrite Hids]. destruct Hs as [[Hi Hc Hg] _ _ _ _].
    assert (forall y, y ∈ map f (transfers t) -> exists x, x ∈ transfers t /\ y = f x) as Hfrom.
    { intros y. rewrite list_elem_of_In, in_map_iff. intros (x & <- & Hx). exists x. by rewrite list_elem_of_In. }
    constructor; [by rewrite Hids|by intros y (x & Hx & ->)%Hfrom; apply Ho, Hc|].
    intros a b s (x & Hx & ->)%Hfrom (y & Hy & ->)%Hfrom. destruct (Ho x) as [-> _], (Ho y) as [-> _]. intros E1 E2.
    rewrite !(later_transfer_id _ _ (Hf _)). by eapply Hg.
  - constructor; cbn [transfers attempts with_transfers]; [|apply later_rows_refl; auto with sdp_pay].
    exact (update_rows_later (fun _ => true) f _ _ later_transfer_refl (fun r _ => Hf r)).
Qed.

Lemma createTransfer_spec now id i t r t' :
  createTransfer now id i t = Ok (r, t') ->
  keeps t t' /\ attempts t' = attempts t /\ r ∈ transfers t' /\ transfer_id r = id /\ id ∉ transfer_id <$> transfers t
  /\ xf_signed_transaction r = None.
Proof.
  unfold createTransfer. destruct (existsb _ _) eqn:Ef; [done|]. destruct (transfer_signature_taken _ _) eqn:Esg; [done|].
  intros [= <- <-]. apply fresh_key in Ef. split; [|cbn [attempts with_transfers transfers]; split_and!; try done].
  - intros Hs. split.
    + apply sound_with_transfers; [done| |intros x Hx; rewrite fmap_app; apply elem_of_app; by left].
      destruct Hs as [[Hi Hc Hg] _ _ _ _]. constructor.
      * rewrite fmap_app. apply NoDup_app. split; [done|].
        split; [|apply NoDup_singleton]. intros x Hx Hx'. apply list_elem_of_singleton in Hx' as ->. done.
      * intros r [Hr|Hr%list_elem_of_singleton]%elem_of_app; [by apply Hc|subst r].
        constructor; cbn; [split; by intros []|by intros []|by intros []|done].
      * eapply (own_signatures_but _ _ _ _ (created_transfer now id i) Hg).
        -- intros x [Hx|Hx%list_elem_of_singleton]%elem_of_app; [by right|by left].
        -- intros x s Hx _ Er Ex. by eapply transfer_signature_free.
    + constructor; cbn; [apply later_rows_app; auto with sdp_pay|apply later_rows_refl; auto with sdp_pay].
  - apply elem_of_app. right. by left.
Qed.

Lemma get_attempt_spec tenant id t r :
  getCollectionAttemptById tenant id t = Some r -> r ∈ attempts t /\ attempt_id r = id.
Proof.
  intros [Hin Hp]%find_some. apply andb_true_iff in Hp as [Hp _]. apply String.eqb_eq in Hp.
  by rewrite list_elem_of_In.
Qed.

Lemma createAttempt_spec r t o t' :
  createCollectionAttempt r t = Ok (o, t') ->
  keeps t t' /\ transfers t' = transfers t
  /\ (forall a, a ∈ attempts t' -> a ∈ attempts t \/ a = r)
  /\ forall a, o = Some a -> a ∈ attempts t' /\ attempt_id a = attempt_id r.
Proof.
  unfold createCollectionAttempt. destruct (existsb (attempt_conflicts r) (attempts t)) eqn:Hc.
  { intros [= <- <-]. split; [apply keeps_refl|]. split; [done|]. split; [by left|]. intros a. apply get_attempt_spec. }
  destruct (attempt_references r t) eqn:Hrefs; [|done]. cbn [negb]. intros [= <- <-].
  assert (forall a, a ∈ attempts t ++ [r] -> a ∈ attempts t \/ a = r) as Hfrom.
  { intros a [?|?%list_elem_of_singleton]%elem_of_app; auto. }
  split; [|split; [done|split; [exact Hfrom|intros a Ha; by apply get_attempt_spec in Ha]]].
  intros [H1 H2 H3 H4 H5]. split.
  - constructor; [done| | | |].
    + cbn. rewrite fmap_app. apply NoDup_app. split; [done|]. split; [|apply NoDup_singleton].
      intros x Hx Hx'. apply list_elem_of_singleton in Hx' as ->. apply list_elem_of_fmap in Hx as (y & Hid & Hy).
      pose proof (no_conflict _ _ _ Hc Hy) as H. unfold attempt_conflicts in H.
      by rewrite Hid, String.eqb_refl in H.
    + cbn. intros a b Ha Hb. eapply (one_live_beside r (attempts t)); [done|intros; by eapply no_conflict| |].
      * destruct (Hfrom a Ha) as [?| ->]; [by right|by left].
      * destruct (Hfrom b Hb) as [?| ->]; [by right|by left].
    + eapply (own_signatures_but _ _ _ _ r H4); [intros x Hx; destruct (Hfrom x Hx); [by right|by left]|].
      intros x s Hx _ Er Ex. pose proof (no_conflict _ _ _ Hc Hx) as Hno. unfold attempt_conflicts in Hno.
      rewrite Er in Hno. apply orb_false_iff in Hno as [_ Hno]. by apply bool_decide_eq_false in Hno.
    + intros a x Ha Hx. destruct (Hfrom a Ha) as [Hold| ->]; [by eapply H5|by eapply references_transfer].
  - constructor; cbn; [apply later_rows_refl|apply later_rows_app]; auto with sdp_pay.
Qed.

Lemma is_attempt_id tenant id r : is_attempt tenant id r = true -> attempt_id r = id.
Proof. unfold is_attempt. intros [H _]%andb_true_iff. by apply String.eqb_eq in H. Qed.

Lemma may_become_path a to : attempt_may_become a to = true -> attempt_path a (default a to).
Proof.
  unfold attempt_may_become. destruct to as [b|]; [|by left]. cbn [default].
  intros [H%bool_decide_eq_true|H]%orb_true_iff; [by left|]. right. by destruct b, a.
Qed.

Lemma updateAttempt_spec i t o t' :
  updateCollectionAttempt i t = Ok (o, t') ->
  keeps t t' /\ transfers t' = transfers t
  /\ (forall a, a ∈ attempts t' -> a ∈ attempts t
        \/ exists r, r ∈ attempts t /\ attempt_id r = attempt_id a /\ attempt_path (ca_status r) (ca_status a)
             /\ ca_status a = default (ca_status r) (ua_status i))
  /\ forall a, o = Some a -> a ∈ attempts t' /\ attempt_id a = ua_attemptId i.
Proof.
  assert (forall r, is_attempt (ua_tenant i) (ua_attemptId i) r && attempt_may_become (ca_status r) (ua_status i) = true ->
    attempt_id r = ua_attemptId i /\ later_attempt r (updated_attempt i r)) as Hl.
  { intros r [H1%is_attempt_id H2%may_become_path]%andb_true_iff. by split. }
  intros H. eapply update_attempt_kept in H as (H & Ht & Hfrom & Ho); [|exact Hl].
  do 2 (split; [done|]). split.
  - intros a [Ha|(r & Hr & Hp & ->)]%Hfrom; [by left|right]. exists r. do 2 (split; [done|]).
    by destruct (Hl r Hp) as [_ [_ Hpath]].
  - intros a ->. destruct Ho as ((r & Hr & Hp & ->) & Hin). split; [done|]. by apply (Hl r Hp).
Qed.

(** ** The transactions *)

(** A row out of its period's way is as it was, or was put there by the call. *)
Definition failing (c : pay_call) (a : PaymentSubscriptionCollectionAttemptRow) : Prop :=
  match c with
  | SettleFailed i => attempt_id a = attempt_id (sf_attempt i)
  | CreateAttempt r => a = r
  | UpdateAttempt i => ua_status i = Some (ca_status a)
  | _ => False
  end.

Definition was_down (t : PayTables) (a : PaymentSubscriptionCollectionAttemptRow) : Prop :=
  exists a0, a0 ∈ attempts t /\ attempt_id a0 = attempt_id a /\ holds_cycle (ca_status a0) = false.

(** Each row that holds no period, after a call. *)
Definition down_after (c : pay_call) (t t' : PayTables) : Prop :=
  forall a, a ∈ attempts t' -> holds_cycle (ca_status a) = false -> was_down t a \/ failing c a.

Lemma down_same c t t' : attempts t' = attempts t -> down_after c t t'.
Proof. intros E a Ha Hd. rewrite E in Ha. left. by exists a. Qed.

Lemma was_down_trans t1 t2 a :
  (forall b, b ∈ attempts t2 -> holds_cycle (ca_status b) = false -> was_down t1 b) -> was_down t2 a -> was_down t1 a.
Proof.
  intros H (b & Hb & Hid & Hd). destruct (H b Hb Hd) as (c & Hc & Hid' & Hd'). exists c. split_and!; congruence.
Qed.

(** An attempt updated to a status that holds its period. *)
Lemma update_holding i t o t' :
  updateCollectionAttempt i t = Ok (o, t') ->
  match ua_status i with Some s => holds_cycle s = true | None => True end ->
  forall a, a ∈ attempts t' -> holds_cycle (ca_status a) = false -> was_down t a.
Proof.
  intros (_ & _ & Hfrom & _)%updateAttempt_spec Hs a Ha Hd.
  destruct (Hfrom a Ha) as [H|(r & Hr & Hid & _ & E)]; [by exists a|]. exists r. do 2 (split; [done|]).
  destruct (ua_status i); cbn in E; [rewrite E in Hd; congruence|by rewrite <- E].
Qed.

Lemma link_spec now id i attemptId at_ t a x t' :
  link_transfer now id i attemptId at_ t = Ok (a, x, t') ->
  keeps t t' /\ x ∈ transfers t' /\ a ∈ attempts t' /\ attempt_id a = attemptId /\ ca_transfer_id a = Some (transfer_id x)
  /\ transfer_id x ∉ transfer_id <$> transfers t
  /\ forall b, b ∈ attempts t' -> holds_cycle (ca_status b) = false -> was_down t b.
Proof.
  unfold link_transfer. destruct (createTransfer now id i t) as [[x0 t1]|] eqn:Ec; cbn [result_bind]; [|done].
  apply createTransfer_spec in Ec as (H1 & Ha1 & Hx & Hid & Hfresh & _).
  match goal with |- context [updateCollectionAttempt ?u t1] =>
    destruct (updateCollectionAttempt u t1) as [[o t2]|] eqn:Eu; cbn [result_bind]; [|done];
    pose proof (update_holding _ _ _ _ Eu eq_refl) as Hdown
  end.
  apply updateAttempt_spec in Eu as (H2 & Ht2 & _ & Ho). destruct o as [b|]; [|done].
  case_bool_decide as Etr; [|done]. intros [= -> -> ->]. destruct (Ho a eq_refl) as [Hin Haid].
  split; [by eapply keeps_trans|]. rewrite Ht2. do 4 (split; [done|]). split; [by rewrite Hid|].
  intros c Hc Hd. destruct (Hdown c Hc Hd) as (c0 & Hc0 & ? & ?). exists c0. by rewrite <- Ha1.
Qed.

Lemma settle_transfer_spec is_sig i t o t' :
  settle_transfer is_sig i t = Ok (o, t') -> keeps t t' /\ attempts t' = attempts t.
Proof.
  unfold settle_transfer. destruct (sf_transfer i) as [x|]; [|intros [= <- <-]; split; [apply keeps_refl|done]].
  destruct (update_transfer _ _ t) as [[u t1]|] eqn:Eu; cbn [result_bind]; [|done].
  apply (update_transfer_kept _ _ (transfer_id x)) in Eu as (H & Ha & _).
  2: { intros r [[->%String.eqb_eq _]%andb_true_iff _]%andb_true_iff. by split. }
  statement_cases; done.
Qed.

Lemma settle_spec is_sig i t u t' :
  settle_failed is_sig i t = Ok (u, t') -> keeps t t' /\ down_after (SettleFailed i) t t'.
Proof.
  unfold settle_failed. destruct (settle_transfer is_sig i t) as [[o t1]|] eqn:Es; cbn [result_bind]; [|done].
  apply settle_transfer_spec in Es as [H1 Ha1].
  destruct (update_attempt _ _ t1) as [[v t2]|] eqn:Eu; cbn [result_bind]; [|done].
  eapply update_attempt_kept in Eu as (H2 & _ & Hfrom & _).
  - destruct v; [|done]. intros [= _ <-]. split; [by eapply keeps_trans|]. intros a Ha Hd.
    destruct (Hfrom a Ha) as [Hold|(r & Hr & Hp & ->)]; [left; exists a; by rewrite <- Ha1|right].
    apply andb_true_iff in Hp as [Hp%is_attempt_id _]. exact Hp.
  - intros r [Hid%is_attempt_id Hw]%andb_true_iff. split; [exact Hid|]. constructor; [done|].
    unfold attempt_path. destruct o, (ca_status r); first [by left|by right|by vm_compute in Hw].
Qed.

Lemma updateSubscription_same i t o t' :
  updateSubscription i t = Ok (o, t') -> transfers t' = transfers t /\ attempts t' = attempts t.
Proof.
  unfold updateSubscription. destruct (update_where _ _ _) as [[r|] l]; [destruct (subscription_pda_taken _ _)|];
    try done; by intros [= <- <-].
Qed.

Lemma update_recurring_same p f t :
  transfers (update_recurring p f t).2 = transfers t /\ attempts (update_recurring p f t).2 = attempts t.
Proof. unfold update_recurring. by destruct (update_where p f (recurring t)) as [[r|] l]. Qed.

Lemma recurring_same p f t o t' :
  update_recurring p f t = (o, t') -> transfers t' = transfers t /\ attempts t' = attempts t.
Proof. intros E. pose proof (update_recurring_same p f t) as H. by rewrite E in H. Qed.

Lemma finalize_spec i t c t' :
  finalize_collection i t = Ok (c, t') -> keeps t t' /\ down_after (FinalizeCollection i) t t'.
Proof.
  unfold finalize_collection.
  destruct (updateTransfer _ t) as [[ox t1]|] eqn:Ex; cbn [result_bind]; [|done].
  apply updateTransfer_kept in Ex as [H1 Ha1].
  destruct (updateCollectionAttempt _ t1) as [[oa t2]|] eqn:Ea; cbn [result_bind]; [|done].
  pose proof (update_holding _ _ _ _ Ea eq_refl) as Hdown. apply updateAttempt_spec in Ea as (H2 & _).
  destruct (updateSubscription _ t2) as [[os t3]|] eqn:Es; cbn [result_bind]; [|done].
  apply updateSubscription_same in Es as [Hx3 Ha3].
  unfold updateRecurringPaymentCollection.
  match goal with |- context [update_recurring ?p ?f t3] =>
    pose proof (update_recurring_same p f t3) as [Hx4 Ha4]; destruct (update_recurring p f t3) as [orp t4] end.
  cbn [snd] in Hx4, Ha4. intros H. assert (t' = t4) as ->.
  { revert H. repeat (match goal with |- context [match ?x with _ => _ end] => destruct x end); congruence. }
  split.
  - eapply keeps_trans; [exact H1|]. eapply keeps_trans; [exact H2|]. apply keeps_same; congruence.
  - intros a Ha Hd. left. rewrite Ha4, Ha3 in Ha. destruct (Hdown a Ha Hd) as (a0 & Ha0 & ? & ?).
    exists a0. by rewrite <- Ha1.
Qed.

Lemma finalize_lifecycle_same i t r t' :
  finalize_lifecycle i t = Ok (r, t') -> transfers t' = transfers t /\ attempts t' = attempts t.
Proof.
  unfold finalize_lifecycle. destruct (updateSubscription _ t) as [[os t1]|] eqn:Es; cbn [result_bind]; [|done].
  apply updateSubscription_same in Es as [Hx1 Ha1]. unfold updateRecurringPaymentLifecycle.
  match goal with |- context [update_recurring ?p ?f t1] =>
    pose proof (update_recurring_same p f t1) as [Hx2 Ha2]; destruct (update_recurring p f t1) as [orp t2] end.
  cbn [snd] in *. unfold updateLifecycleAttempt. destruct (update_where _ _ _) as [[l|] ls]; cbn [result_bind]; [|done].
  intros H. assert (t' = with_lifecycle_attempts t2 ls) as ->.
  { revert H. repeat (match goal with |- context [match ?x with _ => _ end] => destruct x end); congruence. }
  cbn. split; congruence.
Qed.

(** ** A call *)

Lemma statement_ok {A} (s : result (A * PayTables)) t r t' (P : PayTables -> PayTables -> Prop) :
  statement s t = (r, t') -> (P t t) -> (forall a t1, s = Ok (a, t1) -> P t t1) -> P t t'.
Proof. unfold statement. destruct s as [[a t1]|e]; intros [= <- <-] H0 H1; [by eapply H1|done]. Qed.

(** A statement that answers what it found, with no error. *)
Lemma paired_ok {A} (x : A * PayTables) r t' :
  (let '(a, t1) := x in Some (Ok a, t1)) = Some (r, t') -> exists a, x = (a, t') /\ r = Ok a.
Proof. destruct x as [a t1]. intros [= <- <-]. by exists a. Qed.

Lemma claim_same text_le tenant x op at_ staleBefore t o t' :
  claimRecurringPaymentLifecycle text_le tenant x op at_ staleBefore t = (o, t') ->
  transfers t' = transfers t /\ attempts t' = attempts t.
Proof. unfold claimRecurringPaymentLifecycle. destruct op; apply recurring_same. Qed.

(** An activation leaves transfers and attempts alone. *)
Definition fixed (t t' : PayTables) : Prop := transfers t' = transfers t /\ attempts t' = attempts t.

Lemma activation_same text_le c t r t' : perform_activation text_le c t = Some (r, t') -> fixed t t'.
Proof.
  destruct c; try done; cbn [perform_activation]; try (by intros [= _ <-]).
  1-2: by intros (a & ?%recurring_same & _)%paired_ok.
  all: intros [= E]; eapply (statement_ok _ _ _ _ fixed E); [done|]; intros a t1.
  - unfold updateRecurringPaymentActivation. destruct (update_recurring _ _ _) as [[o|] t2] eqn:Eu;
      apply recurring_same in Eu; [destruct (recurring_references _ _)|]; by intros [= _ <-].
  - unfold createActivationAttempt. destruct (existsb _ _); [done|]. destruct (negb _); [done|]. by intros [= _ <-].
  - unfold updateActivationAttempt. destruct (update_where _ _ _) as [[o|] l]; [|done]. by intros [= _ <-].
  - unfold createPlan. destruct (_ <=? _); [done|]. destruct (plan_conflicts _ _); by intros [= _ <-].
  - unfold updatePlan. destruct (update_where _ _ _) as [[o|] l]; [destruct (plan_pda_taken _ _)|]; by intros [= _ <-].
  - unfold createSubscription. repeat (destruct (existsb _ _); [first [done|by intros [= _ <-]]|]).
    destruct (subscription_pda_taken _ _); [done|]. destruct (negb _); [done|]. by intros [= _ <-].
  - intros H. by apply updateSubscription_same in H.
Qed.

Section Calls.
Context {K : PaymentKit}.
Variable text_le : string -> string -> bool.

Definition call_kept (c : pay_call) (t t' : PayTables) : Prop := keeps t t' /\ down_after c t t'.

Lemma call_kept_refl c t : call_kept c t t.
Proof. split; [apply keeps_refl|by apply down_same]. Qed.

Lemma call_kept_attempts c t t' : keeps t t' -> attempts t' = attempts t -> call_kept c t t'.
Proof. intros H E. split; [done|by apply down_same]. Qed.

Lemma call_kept_same c t t' : transfers t' = transfers t -> attempts t' = attempts t -> call_kept c t t'.
Proof. intros H E. apply call_kept_attempts; [by apply keeps_same|done]. Qed.

Lemma createLifecycle_same r t o t' :
  createLifecycleAttempt r t = Ok (o, t') -> transfers t' = transfers t /\ attempts t' = attempts t.
Proof. unfold createLifecycleAttempt. destruct (existsb _ _); [done|]. destruct (negb _); [done|]. by intros [= <- <-]. Qed.

Lemma updateLifecycle_same i t o t' :
  updateLifecycleAttempt i t = Ok (o, t') -> transfers t' = transfers t /\ attempts t' = attempts t.
Proof. unfold updateLifecycleAttempt. destruct (update_where _ _ _) as [[r|] l]; [|done]. by intros [= <- <-]. Qed.

Lemma statement_kept now id c t r t' : perform text_le now id c t = Some (r, t') -> call_kept c t t'.
Proof.
  destruct c; try done; cbn [perform]; try (intros [= _ <-]; apply call_kept_refl).
  all: try (intros [= E]; eapply (statement_ok _ _ _ _ (call_kept _) E); [apply call_kept_refl|]; intros a t1).
  - intros [H Ha]%updateTransfer_kept. by apply call_kept_attempts.
  - intros (H & Ha & _)%persistSigned_spec. by apply call_kept_attempts.
  - intros (H & Ha & _)%markStarted_spec. by apply call_kept_attempts.
  - intros [= _ <-]. apply call_kept_attempts; [apply polled_kept|done].
  - intros (H & _ & Hfrom & _)%createAttempt_spec. split; [done|]. intros b Hb Hd.
    destruct (Hfrom b Hb) as [Hold| ->]; [left; by exists b|by right].
  - intros H. pose proof H as (Hk & _ & Hfrom & _)%updateAttempt_spec. split; [done|]. intros b Hb Hd.
    destruct (Hfrom b Hb) as [Hold|(r0 & Hr0 & Hid & _ & Es)]; [left; by exists b|].
    destruct (ua_status i) as [s|] eqn:Ei; cbn in Es; [right; cbn; by rewrite Ei, Es|].
    left. exists r0. by rewrite <- Es.
  - intros (a & [? ?]%recurring_same & _)%paired_ok. by apply call_kept_same.
  - intros (a & [? ?]%recurring_same & _)%paired_ok. by apply call_kept_same.
  - intros (a & [? ?]%claim_same & _)%paired_ok. by apply call_kept_same.
  - intros [? ?]%createLifecycle_same. by apply call_kept_same.
  - intros [? ?]%updateLifecycle_same. by apply call_kept_same.
  - destruct a as [a x]. intros (H & _ & _ & _ & _ & _ & Hd)%link_spec. split; [done|]. intros b Hb Hdn.
    left. by apply Hd.
  - intros [H Hd]%settle_spec. by split.
  - intros [H Hd]%finalize_spec. by split.
  - intros [? ?]%finalize_lifecycle_same. by apply call_kept_same.
  - intros [? ?]%activation_same. by apply call_kept_same.
Qed.

(** Whether a call is a statement is not a matter of the tables. *)
Lemma perform_none now id c t now' id' t' : perform text_le now id c t = None -> perform text_le now' id' c t' = None.
Proof.
  destruct c; try done; cbn [perform]; try (by match goal with |- (let '(_, _) := ?x in _) = _ -> _ => destruct x end).
  destruct c; try done; cbn [perform_activation];
    by match goal with |- (let '(_, _) := ?x in _) = _ -> _ => destruct x end.
Qed.

(** ** The environment *)

(** What the rest of the platform may do to the tables: nothing to the attempts, and
    no submission of a transfer is undone. Recurring payments, subscriptions and plans
    may change in any way, and batches of transfers be settled. *)
Definition others (t t' : PayTables) : Prop := keeps t t' /\ attempts t' = attempts t.

(** The environment answers a statement from the tables, or loses it or its answer; of
    anything else it may answer anything. *)
Inductive pay_answers : PayTables -> pay_event -> PayTables -> Prop :=
| answers_other t t' c r : (forall now id t, perform text_le now id c t = None) -> others t t' ->
    pay_answers t (pay_ev c r) t'
| answers_statement t t1 t' now id c r : others t t1 -> perform text_le now id c t1 = Some (r, t') ->
    pay_answers t (pay_ev c r) t'
| answers_unheard t t1 t' now id c r e : others t t1 -> perform text_le now id c t1 = Some (r, t') ->
    pay_answers t (pay_ev c (Err e)) t'
| answers_lost t t' c e : others t t' -> pay_answers t (pay_ev c (Err e)) t'.

Lemma others_refl t : others t t.
Proof. split; [apply keeps_refl|done]. Qed.

Lemma others_then c t t1 t' : others t t1 -> call_kept c t1 t' -> call_kept c t t'.
Proof.
  intros [H1 Ha] [H2 Hd]. split; [by eapply keeps_trans|]. intros b Hb Hdn.
  destruct (Hd b Hb Hdn) as [(b0 & Hb0 & ?)|]; [left; exists b0; by rewrite <- Ha|by right].
Qed.

Lemma answers_kept t e t' : pay_answers t e t' -> call_kept (ev_call e) t t'.
Proof.
  intros [u u' c r _ H|u u1 u' now id c r H Hp|u u1 u' now id c r err H Hp|u u' c err H]; cbn [ev_call pay_ev].
  - destruct H. by apply call_kept_attempts.
  - eapply others_then; [exact H|by eapply statement_kept].
  - eapply others_then; [exact H|by eapply statement_kept].
  - destruct H. by apply call_kept_attempts.
Qed.

(** ** What answers tell *)

Definition live_transfer (t : PayTables) (r : PaymentTransferRow) : Prop :=
  exists r', r' ∈ transfers t /\ later_transfer r r'.
Definition live_attempt (t : PayTables) (r : PaymentSubscriptionCollectionAttemptRow) : Prop :=
  exists r', r' ∈ attempts t /\ later_attempt r r'.

(** What the rows a call was answered are, now or later. *)
Definition as_given (t : PayTables) (e : pay_event) : Prop :=
  match ev_call e as c return result (pay_answer c) -> Prop with
  | PersistSignedTransfer i => fun a => forall r, a = Ok (Some r) ->
      live_transfer t r /\ transfer_id r = pg_transferId i /\ xf_signed_transaction r = Some (pg_signedTransaction i)
      /\ xf_signature r = Some (pg_signature i)
  | MarkTransferStarted _ id _ => fun a => forall r, a = Ok (Some r) ->
      live_transfer t r /\ transfer_id r = id /\ is_Some (xf_submission_started_at r)
  | LinkTransfer i attemptId _ => fun o => forall a x, o = Ok (a, x) ->
      live_transfer t x /\ live_attempt t a /\ attempt_id a = attemptId
  | CreateAttempt r => fun o => forall a, o = Ok (Some a) -> live_attempt t a /\ attempt_id a = attempt_id r
  | UpdateAttempt i => fun o => forall a, o = Ok (Some a) -> live_attempt t a /\ attempt_id a = ua_attemptId i
  | _ => fun _ => True
  end (ev_resp e).

Lemma live_transfer_later t t' r : live_transfer t r -> later_pay t t' -> live_transfer t' r.
Proof.
  intros (r1 & H1 & L1) [L _]. destruct (L _ H1) as (r2 & H2 & L2). exists r2.
  split; [done|by eapply later_transfer_trans].
Qed.

Lemma live_attempt_later t t' r : live_attempt t r -> later_pay t t' -> live_attempt t' r.
Proof.
  intros (r1 & H1 & L1) [_ L]. destruct (L _ H1) as (r2 & H2 & L2). exists r2.
  split; [done|by eapply later_attempt_trans].
Qed.

Lemma answered_later t t' e : as_given t e -> later_pay t t' -> as_given t' e.
Proof.
  intros H L. destruct e as [c a]; destruct c; cbn in *; try done; intros.
  all: repeat match goal with
    | H : forall r, ?a = Ok (Some r) -> _, E : ?a = Ok (Some ?r) |- _ => specialize (H r E)
    | H : forall a x, ?o = Ok (a, x) -> _, E : ?o = Ok (?a', ?x') |- _ => specialize (H a' x' E)
    | H : _ /\ _ |- _ => destruct H
    end.
  all: split_and?; eauto using live_transfer_later, live_attempt_later.
Qed.

Lemma here_transfer t r : r ∈ transfers t -> live_transfer t r.
Proof. intros H. exists r. split; [done|apply later_transfer_refl]. Qed.

Lemma here_attempt t r : r ∈ attempts t -> live_attempt t r.
Proof. intros H. exists r. split; [done|apply later_attempt_refl]. Qed.

Lemma answers_given t e t' : pay_answers t e t' -> as_given t' e.
Proof.
  intros [u u' c r Hn H|u u1 u' now id c r H Hp|u u1 u' now id c r err H Hp|u u' c err H]; destruct c; try done;
    try (by specialize (Hn "" "" u)); try (cbn; intros; discriminate).
  - cbn [perform] in Hp. injection Hp as E. unfold statement in E. destruct (persistSignedTransfer i u1) as [[o t2]|] eqn:Ep; injection E as <- <-; [|done].
    intros x [= ->]. destruct (persistSigned_spec _ _ _ _ Ep) as (_ & _ & Ho).
    destruct (Ho x eq_refl) as (? & ? & ? & ? & _). split; [by apply here_transfer|done].
  - cbn [perform] in Hp. injection Hp as E. unfold statement in E.
    destruct (markTransferSubmissionStarted tenant id0 startedAt u1) as [[o t2]|] eqn:Ep; injection E as <- <-; [|done].
    intros x [= ->]. destruct (markStarted_spec _ _ _ _ _ _ Ep) as (_ & _ & Ho).
    destruct (Ho x eq_refl) as (? & ? & ? & _). split; [by apply here_transfer|done].
  - cbn [perform] in Hp. injection Hp as E. unfold statement in E. destruct (createCollectionAttempt r0 u1) as [[o t2]|] eqn:Ep; injection E as <- <-; [|done].
    intros x [= ->]. destruct (createAttempt_spec _ _ _ _ Ep) as (_ & _ & _ & Ho).
    destruct (Ho x eq_refl). split; [by apply here_attempt|done].
  - cbn [perform] in Hp. injection Hp as E. unfold statement in E. destruct (updateCollectionAttempt i u1) as [[o t2]|] eqn:Ep; injection E as <- <-; [|done].
    intros x [= ->]. destruct (updateAttempt_spec _ _ _ _ Ep) as (_ & _ & _ & Ho).
    destruct (Ho x eq_refl). split; [by apply here_attempt|done].
  - cbn [perform] in Hp. injection Hp as E. unfold statement in E. destruct (link_transfer now id i attemptId updatedAt u1) as [[[a x] t2]|] eqn:Ep;
      injection E as <- <-; [|done].
    intros a' x' [= -> ->]. destruct (link_spec _ _ _ _ _ _ _ _ _ Ep) as (_ & Hx & Ha & Hid & _).
    split; [by apply here_transfer|]. split; [by apply here_attempt|done].
Qed.

(** ** What can be answered once *)

(** The transfer whose submission a call persisted, and the transfer a call created. *)
Definition persisted_of (e : pay_event) : list string :=
  match ev_call e as c return result (pay_answer c) -> list string with
  | PersistSignedTransfer i => fun a => match a with Ok (Some _) => [pg_transferId i] | _ => [] end
  | _ => fun _ => []
  end (ev_resp e).

Definition linked_of (e : pay_event) : list string :=
  match ev_call e as c return result (pay_answer c) -> list string with
  | LinkTransfer _ _ _ => fun o => match o with Ok (_, x) => [transfer_id x] | _ => [] end
  | _ => fun _ => []
  end (ev_resp e).

Lemma persists_unsigned t e t' id :
  pay_answers t e t' -> id ∈ persisted_of e ->
  forall r, pay_sound t -> r ∈ transfers t -> transfer_id r = id -> xf_signed_transaction r = None.
Proof.
  intros Ha Hid r Hs Hr Er. assert (forall t1, others t t1 -> exists r1, r1 ∈ transfers t1 /\ later_transfer r r1) as Hl.
  { intros t1 [Hk _]. destruct (Hk Hs) as [_ [L _]]. by apply L. }
  destruct Ha as [u u' c a Hn H|u u1 u' now i c a H Hp|u u1 u' now i c a err H Hp|u u' c err H]; destruct c;
    try (by apply elem_of_nil in Hid); try (by specialize (Hn "" "" u)).
  cbn [perform] in Hp. injection Hp as E. unfold statement in E. destruct (persistSignedTransfer i0 u1) as [[o t2]|] eqn:Ep; injection E as <- <-;
    [|by apply elem_of_nil in Hid].
  destruct o as [x|]; [|by apply elem_of_nil in Hid]. apply list_elem_of_singleton in Hid.
  destruct (persistSigned_spec _ _ _ _ Ep) as (_ & _ & Ho). destruct (Ho x eq_refl) as (_ & _ & _ & _ & r0 & Hr0 & Hid0 & Hs0).
  destruct (Hl u1 H) as (r1 & Hr1 & L). destruct H as [Hk _]. destruct (Hk Hs) as [Hs1 _].
  assert (r1 = r0) as ->.
  { eapply same_key; [apply (sound_transfer_ids _ Hs1)|done..|]. rewrite (later_transfer_id _ _ L). congruence. }
  destruct (xf_signed_transaction r) as [b|] eqn:Eb; [|done]. rewrite (later_signed _ _ L b Eb) in Hs0. done.
Qed.

Lemma links_fresh t e t' id :
  pay_answers t e t' -> id ∈ linked_of e -> forall r, pay_sound t -> r ∈ transfers t -> transfer_id r <> id.
Proof.
  intros Ha Hid r Hs Hr Er. assert (forall t1, others t t1 -> exists r1, r1 ∈ transfers t1 /\ later_transfer r r1) as Hl.
  { intros t1 [Hk _]. destruct (Hk Hs) as [_ [L _]]. by apply L. }
  destruct Ha as [u u' c a Hn H|u u1 u' now i c a H Hp|u u1 u' now i c a err H Hp|u u' c err H]; destruct c;
    try (by apply elem_of_nil in Hid); try (by specialize (Hn "" "" u)).
  cbn [perform] in Hp. injection Hp as E. unfold statement in E. destruct (link_transfer now i i0 attemptId updatedAt u1) as [[[b x] t2]|] eqn:Ep;
    injection E as <- <-; [|by apply elem_of_nil in Hid].
  apply list_elem_of_singleton in Hid. destruct (link_spec _ _ _ _ _ _ _ _ _ Ep) as (_ & _ & _ & _ & _ & Hf & _).
  destruct (Hl u1 H) as (r1 & Hr1 & L). apply Hf. apply list_elem_of_fmap. exists r1.
  split; [|done]. rewrite (later_transfer_id _ _ L). congruence.
Qed.
End Calls.
