(* ===== verification/RecurringRequests.v ===== *)
(** * Recurring payments: what may be asked of the platform

    Any number of requests at once: collections, cancellations, resumptions and
    activations of the API, runs of the job and of the tracker. A history is an interleaving of their calls
    answered as the tables allow. *)
From Stdlib Require Import Ascii String ZArith Lia.
From stdpp Require Import base list strings.
From S2P Require Import Prelude Text PolicyTypes Pool PaymentTables RecurringTransactions PaymentCalls SignedSubmission.
From S2P Require Import RecurringCollection RecurringOperations RecurringActivation RecurringJob TransferTracker RecurringInvariant.

Local Open Scope list_scope.
Local Open Scope sdp_scope.

Abbreviation pay_log := (list (nat * pay_event)).

(** What may be asked of the platform at any time. *)
Inductive pay_request :=
| collect_now (i : CollectInput)
| cancel_now (tenant : PayTenant) (wallet : CustodyWallet) (rp : PaymentRecurringPaymentRow)
| resume_now (tenant : PayTenant) (wallet : CustodyWallet) (rp : PaymentRecurringPaymentRow)
| activate_now (i : ActivationInput)
| collect_due (now : Z)
| track_transfers.

Section Requests.
Context {K : PaymentKit}.
Variable dp : Deployment.

Definition serve_payment (r : pay_request) : pay_prog unit :=
  match r with
  | collect_now i => collectRecurringPayment dp i ;;; Ret tt
  | cancel_now tenant wallet rp => cancelRecurringPayment dp tenant wallet rp ;;; Ret tt
  | resume_now tenant wallet rp => resumeRecurringPayment dp tenant wallet rp ;;; Ret tt
  | activate_now i => activateRecurringPayment dp i ;;; Ret tt
  | collect_due now => collectDueRecurringPayments dp now ;;; Ret tt
  | track_transfers => trackPendingTransfers
  end.

Variable text_le : string -> string -> bool.
Variable requests : list pay_request.

(** Some interleaving of the calls of the requests, answered as the tables allow, that
    brings the tables from one state to another. *)
Definition payment_history (s0 : PayTables) (tr : pay_log) (s : PayTables) : Prop :=
  exists ps, pool_run (pay_answers text_le) s0 (serve_payment <$> requests) tr s ps.
End Requests.
