(* ===== verification/RecurringScenario.v ===== *)
(** * Recurring payments: a concrete platform

    A kit, custody, a policy engine that allows, a node and a clock that answer, with the
    tables of PaymentTables.v, so that mixes of runs can be computed. A schedule says
    whose call is answered at which time. *)
From Stdlib Require Import Ascii String ZArith Lia.
From stdpp Require Import base list strings.
From S2P Require Import Prelude Text Dates PolicyTypes PolicyEnforce PolicyService BudgetTypes BudgetService.
From S2P Require Import Pool PaymentTables ActivationTables RecurringLifecycle RecurringTransactions PaymentCalls SignedSubmission.
From S2P Require Import RecurringCollection RecurringOperations RecurringJob RecurringInvariant RecurringRequests.

Local Open Scope string_scope.
Local Open Scope Z_scope.
Local Open Scope list_scope.
Local Open Scope sdp_scope.

(** ** The kit *)

(** A transaction is its own signature and its stored form; the one instruction there is
    moves ten units. *)
#[export] Instance demo_payment_kit : PaymentKit :=
  mkPaymentKit (fun bytes => bytes) (fun _ => true) (fun _ => true) (fun _ => None) (fun _ => false)
    (fun _ => Some (mkTransferData true 10 "payer" "mint")) "subscriptions".

Definition demo_sponsor_kit : Kit :=
  mkKit Ok (fun _ => Ok None) Ok (fun _ => true) (fun _ => Ok tt) (fun s => s) (fun s => s) (fun s => s) String.leb.

Definition demo_deployment : Deployment :=
  mkDeployment demo_sponsor_kit "devnet" true true None None (Err (PlainError "no cluster")).

(** ** A recurring payment that is due *)

Definition demo_tenant : PayTenant := mkPayTenant "org" "project".
Definition demo_due : string := "2026-01-01T00:00:00.000Z".

Definition demo_wallet : CustodyWallet := mkCustodyWallet "custody-wallet" "wallet" "payer".

Definition demo_subscription : PaymentSubscriptionRow :=
  mkSubscription "subscription" demo_tenant "plan" "counterparty" "payer" (Some "payer-account") (Some "subscription-pda")
    (Some "authority") None ss_active None (Some demo_due) None None None demo_due demo_due.

Definition demo_plan : PaymentSubscriptionPlanRow :=
  mkPlan "plan" demo_tenant "wallet" "payer" "mint" "10" 24 "1" (Some "plan-pda") (Some "payee") None None None ps_active
    None demo_due demo_due.

Definition demo_recurring : PaymentRecurringPaymentRow :=
  mkRecurring "recurring" demo_tenant "wallet" "payer" "counterparty" "account" "payee" None "mint" "10" 24 None
    (Some demo_due) (Some "plan") (Some "subscription") (Some "plan-pda") None None (Some "subscription-pda")
    (Some "authority") None rs_active None None demo_due demo_due.

Definition demo_tables : PayTables := mkPay [] [] [demo_subscription] [demo_plan] [demo_recurring] [] [].

Definition demo_collect : CollectInput := mkCollect demo_tenant demo_wallet demo_recurring None (Some manual).

(** ** Answers *)

Definition clock_text (now : Z) : string := match toISOString now with Ok s => s | Err _ => "" end.

(** Confirmation says a transaction failed before the time [until]. *)
Definition demo_answer (until now : Z) (c : pay_call) : result (pay_answer c) :=
  match c return result (pay_answer c) with
  | NowIso => toISOString now
  | NowMs => Ok now
  | NewUuid => Ok (clock_text now)
  | FindPendingApproval _ _ _ => Ok None
  | PolicyStore c => default_store (clock_text now) default_allow c
  | GetProject id => Ok (Some (mkProject id "org" true env_sandbox))
  | CreateOrgSigner _ _ => Ok "payer"
  | PartiallySign m => Ok ("signed " ++ msg_blockhash m)%string
  | GetFeePayer _ => Ok "fee-payer"
  | Sponsorship _ c =>
      match c return result (service_response c) with
      | ProviderSignAsFeePayer transaction => Ok transaction
      | ProviderSignAndSend transaction => Ok transaction
      | _ => Err (PlainError "not asked")
      end
  | MintTokenProgram _ => Ok "token-program"
  | MintDecimals _ => Ok 0
  | ResolveSourceTokenAccount owner _ _ => Ok (mkSourceTokenAccount (owner ++ "-account") 0 true)
  | FindAta owner _ _ => Ok (owner ++ "-account")%string
  | FindEventAuthority => Ok "event-authority"
  | BuildInstruction _ => Ok "instruction"
  | RecentBlockhash => Ok (clock_text now, 100)
  | SendTransaction bytes => Ok bytes
  | ConfirmTransaction _ => Ok (now <? until)
  | GetTransaction _ =>
      Ok (Some (mkParsedTransaction false
        [mkParsedInstruction "subscriptions"
           (Some ["subscription-pda"; "plan-pda"; "authority"; "payer-account"; "payee-account"; "payer"; "mint";
                  "token-program"; "event-authority"; "subscriptions"]) (Some "data")]))
  | EmitCollectionFailed _ => Ok tt
  | FetchSubscriptionExpiry _ => Ok (Some 0)
  | Activation c =>
      match c return result (activation_answer c) with
      | NewProgramPlanId => Ok "7"
      | FindPlanPda _ _ => Ok "new-plan-pda"
      | FindSubscriptionAuthorityPda _ _ => Ok "authority"
      | FindSubscriptionDelegationPda _ _ => Ok "new-subscription-pda"
      | FetchPlan _ => Ok (Some 1)
      | FetchSubscriptionAuthority _ => Ok (Some 2)
      | _ => Err (PlainError "not asked")
      end
  | _ => Err (PlainError "not asked")
  end.

Definition demo_handler (until now : Z) (c : pay_call) (t : PayTables) : result (pay_answer c) * PayTables :=
  match perform String.leb (clock_text now) ("xfr_" ++ clock_text now) c t with
  | Some (r, t') => (r, t')
  | None => (demo_answer until now c, t)
  end.

(** ** Schedules *)

(** A run's turns, a second apart. *)
Definition demo_turns (until : Z) (i : nat) (start : Z) (n : nat)
    : list (nat * (forall c, PayTables -> result (pay_answer c) * PayTables)) :=
  map (fun m => (i, demo_handler until (start + Z.of_nat m * 1000))) (seq 0 n).

Definition demo_serve : pay_request -> pay_prog unit := serve_payment demo_deployment.

Definition demo_outcome (requests : list pay_request)
    (turns : list (nat * (forall c, PayTables -> result (pay_answer c) * PayTables)))
    : pay_log * PayTables * list (pay_prog unit) :=
  take_turns turns ([], demo_tables, demo_serve <$> requests).

(** ** Two collections of one period *)

Definition demo_start : Z := 1767225600000.

Definition demo_two : list pay_request := [collect_now demo_collect; collect_now demo_collect].

(** A collection whose transaction fails on chain, then one that is made. *)
Definition demo_retried : list (nat * (forall c, PayTables -> result (pay_answer c) * PayTables)) :=
  demo_turns (demo_start + 100000) 0 demo_start 42 ++ demo_turns (demo_start + 100000) 1 (demo_start + 200000) 44.

(** A collection that stops for a while once its transfer is linked, is read as left
    alone by another, goes on to send its transaction, and is then settled as failed by
    the other, which claims the period and sends a transaction of its own. *)
Definition demo_overtaken : list (nat * (forall c, PayTables -> result (pay_answer c) * PayTables)) :=
  demo_turns 0 0 demo_start 14 ++ demo_turns 0 1 (demo_start + 1200000) 7
  ++ demo_turns 0 0 (demo_start + 1207000) 20 ++ demo_turns 0 1 (demo_start + 1227000) 43.

(** The call was answered, and not by saying that a transaction failed. *)
Definition untroubled (e : pay_event) : bool :=
  match ev_call e as c return result (pay_answer c) -> bool with
  | ConfirmTransaction _ => fun r => match r with Ok failed => negb failed | Err _ => false end
  | GetTransaction _ => fun r => match r with Ok (Some tx) => negb (pt_failed tx) | _ => false end
  | _ => fun r => match r with Ok _ => true | Err _ => false end
  end (ev_resp e).

(** * Lemmas *)

Lemma mix_allowed until now c t :
  pay_answers String.leb t (pay_ev c (demo_handler until now c t).1) (demo_handler until now c t).2.
Proof.
  unfold demo_handler. destruct (perform _ _ _ c t) as [[r t']|] eqn:E.
  - eapply answers_statement; [apply others_refl|exact E].
  - apply answers_other; [|apply others_refl]. intros now' id t'. by eapply perform_none.
Qed.

Lemma mix_turns_allowed until i start n :
  Forall (fun t => forall c s, pay_answers String.leb s (Ev c (t.2 c s).1) (t.2 c s).2) (demo_turns until i start n).
Proof. apply Forall_fmap, Forall_forall. intros m _ c s. apply mix_allowed. Qed.

Lemma mix_history requests turns :
  Forall (fun t => forall c s, pay_answers String.leb s (Ev c (t.2 c s).1) (t.2 c s).2) turns ->
  payment_history demo_deployment String.leb requests demo_tables
    (demo_outcome requests turns).1.1 (demo_outcome requests turns).1.2.
Proof. intros H. eexists. by apply pool_turns. Qed.

Lemma pay_tables_sound : pay_sound demo_tables.
Proof.
  constructor; [constructor; [constructor|by intros r ?%elem_of_nil|by intros a b s ?%elem_of_nil]|constructor|..];
    by intros a b ?%elem_of_nil || by intros a b s ?%elem_of_nil.
Qed.

Lemma retried_history :
  payment_history demo_deployment String.leb demo_two demo_tables
    (demo_outcome demo_two demo_retried).1.1 (demo_outcome demo_two demo_retried).1.2.
Proof. apply mix_history, Forall_app. split; apply mix_turns_allowed. Qed.

Lemma overtaken_history :
  payment_history demo_deployment String.leb demo_two demo_tables
    (demo_outcome demo_two demo_overtaken).1.1 (demo_outcome demo_two demo_overtaken).1.2.
Proof. apply mix_history. unfold demo_overtaken. rewrite !Forall_app. split_and!; apply mix_turns_allowed. Qed.

(** The period is paid in the end, by the second collection. *)
Example retried_in_the_end :
  ((fun a => (ca_status a, ca_signature a)) <$> attempts (demo_outcome demo_two demo_retried).1.2)
  = [(ca_failed, Some "signed 2026-01-01T00:00:24.000Z"); (ca_confirmed, Some "signed 2026-01-01T00:03:44.000Z")].
Proof. vm_compute. reflexivity. Qed.
