(* ===== verification/ActivationScenario.v ===== *)
(** * Recurring payments: an activation that is taken over

    On the platform of RecurringScenario.v: an activation alone, and one that stops for a
    while, is taken over by another that fails and gives the payment back, and goes on
    after the payment was canceled. *)
From Stdlib Require Import Ascii String ZArith Lia.
From stdpp Require Import base list strings.
From S2P Require Import Prelude Text Dates PolicyTypes.
From S2P Require Import Pool PaymentTables ActivationTables RecurringLifecycle RecurringTransactions PaymentCalls SignedSubmission.
From S2P Require Import RecurringCollection RecurringOperations RecurringActivation RecurringJob RecurringInvariant.
From S2P Require Import RecurringRequests RecurringScenario.

Local Open Scope string_scope.
Local Open Scope Z_scope.
Local Open Scope list_scope.
Local Open Scope sdp_scope.

Abbreviation handler := (forall c, PayTables -> result (pay_answer c) * PayTables).

(** A payment that was created and never activated, and what it is once it was claimed. *)
Definition draft (status : PaymentRecurringPaymentStatus) (updatedAt : string) : PaymentRecurringPaymentRow :=
  mkRecurring "recurring" demo_tenant "wallet" "payer" "counterparty" "account" "payee" None "mint" "10" 24 None
    None None None None None None None None None status None None demo_due updatedAt.

Definition draft_tables : PayTables := mkPay [] [] [] [] [draft rs_pending_activation demo_due] [] [].

Definition activate_as (status : PaymentRecurringPaymentStatus) (updatedAt : string) : pay_request :=
  activate_now (mkActivation demo_tenant demo_wallet (draft status updatedAt) None).

(** Custody that does not answer. *)
Definition without_custody (now : Z) : handler := fun c t =>
  match c as c return result (pay_answer c) * PayTables with
  | CreateOrgSigner _ _ => (Err (PlainError "custody is unavailable"), t)
  | c => demo_handler 0 now c t
  end.

Definition turns_of (h : Z -> handler) (i : nat) (start : Z) (n : nat) : list (nat * handler) :=
  map (fun m => (i, h (start + Z.of_nat m * 1000))) (seq 0 n).

Definition activation_outcome (requests : list pay_request) (turns : list (nat * handler))
    : pay_log * PayTables * list (pay_prog unit) :=
  take_turns turns ([], draft_tables, demo_serve <$> requests).

Definition status_after (requests : list pay_request) (turns : list (nat * handler)) : list PaymentRecurringPaymentStatus :=
  rp_status <$> recurring (activation_outcome requests turns).1.2.

(** An activation alone makes its payment active, with its plan and subscription. *)
Example activation_completes :
  let t := (activation_outcome [activate_as rs_pending_activation demo_due] (turns_of (demo_handler 0) 0 demo_start 60)).1.2 in
  (rp_status <$> recurring t, pl_status <$> plans t, sb_status <$> subscriptions t, av_status <$> activation_attempts t)
  = ([rs_active], [ps_active], [ss_active], [aa_confirmed]).
Proof. vm_compute. reflexivity. Qed.

(** An activation, one that takes it over, and a cancellation. *)
Definition taken_over_requests : list pay_request :=
  [activate_as rs_pending_activation demo_due; activate_as rs_activating demo_due;
   cancel_now demo_tenant demo_wallet (draft rs_pending_activation demo_due)].

Definition taken_over_turns : list (nat * handler) :=
  turns_of (demo_handler 0) 0 demo_start 6 ++ turns_of without_custody 1 (demo_start + 1200000) 8
  ++ turns_of (demo_handler 0) 2 (demo_start + 1300000) 2.

(** The activation that was taken over goes on. *)
Definition resumed_turns : list (nat * handler) :=
  taken_over_turns ++ turns_of (demo_handler 0) 0 (demo_start + 1400000) 60.

Lemma without_custody_allowed now c t :
  pay_answers String.leb t (pay_ev c (without_custody now c t).1) (without_custody now c t).2.
Proof.
  destruct c; try apply mix_allowed. apply answers_lost, others_refl.
Qed.

Lemma turns_allowed h i start n :
  (forall now c t, pay_answers String.leb t (pay_ev c (h now c t).1) (h now c t).2) ->
  Forall (fun t => forall c s, pay_answers String.leb s (Ev c (t.2 c s).1) (t.2 c s).2) (turns_of h i start n).
Proof. intros H. apply Forall_fmap, Forall_forall. intros m _ c s. apply H. Qed.

Lemma resumed_history :
  payment_history demo_deployment String.leb taken_over_requests draft_tables
    (activation_outcome taken_over_requests resumed_turns).1.1 (activation_outcome taken_over_requests resumed_turns).1.2.
Proof.
  eexists. apply pool_turns. unfold resumed_turns, taken_over_turns. rewrite !Forall_app.
  split_and!; apply turns_allowed; intros; first [apply mix_allowed|apply without_custody_allowed].
Qed.

(** The payment is canceled, and active again once the first activation has gone on: its
    last update looks at no status. *)
Example canceled_payment_is_activated :
  status_after taken_over_requests taken_over_turns = [rs_canceled]
  /\ status_after taken_over_requests resumed_turns = [rs_active].
Proof. split; vm_compute; reflexivity. Qed.
