(* ===== verification/RecurringClaims.v ===== *)
(** * Recurring payments: the ids of the attempts

    Only [createCollectionAttempt] adds an attempt, under the id it is given; with an id
    no attempt has, the row it answers is the one it was given. *)
From Stdlib Require Import Ascii String ZArith Lia.
From stdpp Require Import base list strings.
From S2P Require Import Prelude Text Rows PolicyTypes.
From S2P Require Import PaymentTables RecurringLifecycle RecurringTransactions PaymentCalls SignedSubmission RecurringJob.
From S2P Require Import RecurringInvariant.

Local Open Scope string_scope.
Local Open Scope Z_scope.
Local Open Scope list_scope.
Local Open Scope sdp_scope.

Definition attempt_ids (t : PayTables) : list string := attempt_id <$> attempts t.

(** The ids after a call. *)
Definition ids_after (c : pay_call) (t t' : PayTables) : Prop :=
  attempt_ids t' = attempt_ids t
  \/ match c with CreateAttempt r => attempt_ids t' = attempt_ids t ++ [attempt_id r] | _ => False end.

(** * Lemmas *)

Lemma update_attempt_ids p f t o t' :
  (forall r, attempt_id (f r) = attempt_id r) -> update_attempt p f t = Ok (o, t') -> attempt_ids t' = attempt_ids t.
Proof.
  intros Hf. unfold update_attempt. destruct (update_where p f (attempts t)) as [[r|] l] eqn:E.
  - destruct (existsb _ _); [done|]. destruct (negb _); [done|]. intros [= <- <-].
    apply update_where_some in E as (-> & _). unfold attempt_ids. cbn. apply update_rows_key. intros x _. apply Hf.
  - by intros [= <- <-].
Qed.

Lemma updateAttempt_ids i t o t' : updateCollectionAttempt i t = Ok (o, t') -> attempt_ids t' = attempt_ids t.
Proof. by apply update_attempt_ids. Qed.

Lemma same_ids t t' : attempts t' = attempts t -> attempt_ids t' = attempt_ids t.
Proof. unfold attempt_ids. by intros ->. Qed.

Lemma link_ids now id i attemptId at_ t a t' :
  link_transfer now id i attemptId at_ t = Ok (a, t') -> attempt_ids t' = attempt_ids t.
Proof.
  unfold link_transfer. destruct (createTransfer now id i t) as [[x t1]|] eqn:Ec; cbn [result_bind]; [|done].
  apply createTransfer_spec in Ec as (_ & Ha & _).
  destruct (updateCollectionAttempt _ t1) as [[o t2]|] eqn:Eu; cbn [result_bind]; [|done].
  apply updateAttempt_ids in Eu. intros H. assert (t' = t2) as -> by (destruct o; [case_bool_decide|]; congruence).
  rewrite Eu. by apply same_ids.
Qed.

Lemma settle_ids is_sig i t u t' : settle_failed is_sig i t = Ok (u, t') -> attempt_ids t' = attempt_ids t.
Proof.
  unfold settle_failed. destruct (settle_transfer is_sig i t) as [[o t1]|] eqn:Es; cbn [result_bind]; [|done].
  apply settle_transfer_spec in Es as [_ Ha].
  destruct (update_attempt _ _ t1) as [[v t2]|] eqn:Eu; cbn [result_bind]; [|done].
  apply update_attempt_ids in Eu; [|done]. intros H. assert (t' = t2) as -> by (destruct v; congruence).
  rewrite Eu. by apply same_ids.
Qed.

Lemma finalize_ids i t c t' : finalize_collection i t = Ok (c, t') -> attempt_ids t' = attempt_ids t.
Proof.
  unfold finalize_collection.
  destruct (updateTransfer _ t) as [[ox t1]|] eqn:Ex; cbn [result_bind]; [|done].
  apply updateTransfer_kept in Ex as [_ Ha1].
  destruct (updateCollectionAttempt _ t1) as [[oa t2]|] eqn:Ea; cbn [result_bind]; [|done].
  apply updateAttempt_ids in Ea.
  destruct (updateSubscription _ t2) as [[os t3]|] eqn:Es; cbn [result_bind]; [|done].
  apply updateSubscription_same in Es as [_ Ha3]. unfold updateRecurringPaymentCollection.
  match goal with |- context [update_recurring ?p ?f t3] =>
    pose proof (update_recurring_same p f t3) as [_ Ha4]; destruct (update_recurring p f t3) as [orp t4] end.
  cbn [snd] in Ha4. intros H. assert (t' = t4) as ->.
  { revert H. repeat (match goal with |- context [match ?x with _ => _ end] => destruct x end); congruence. }
  rewrite (same_ids t3 t4 Ha4), (same_ids t2 t3 Ha3), Ea. by apply same_ids.
Qed.

Lemma create_ids r t o t' :
  createCollectionAttempt r t = Ok (o, t') ->
  attempt_ids t' = attempt_ids t \/ attempt_ids t' = attempt_ids t ++ [attempt_id r].
Proof.
  unfold createCollectionAttempt. destruct (existsb _ _); [intros [= _ <-]; by left|].
  destruct (negb _); [done|]. intros [= _ <-]. right. unfold attempt_ids. cbn. by rewrite fmap_app.
Qed.

(** A new id's row is the one given. *)
Lemma create_new r t a t' :
  createCollectionAttempt r t = Ok (Some a, t') -> attempt_id r ∉ attempt_ids t -> a = r /\ r ∈ attempts t'.
Proof.
  unfold createCollectionAttempt. intros H Hn.
  assert (forall b l, List.find (is_attempt (cy_tenant (attempt_cycle r)) (attempt_id r)) l = Some b ->
    b ∈ l /\ attempt_id b = attempt_id r) as Hfind.
  { intros b l [Hb Hp%is_attempt_id]%find_some. by rewrite list_elem_of_In. }
  destruct (existsb _ _).
  - injection H as H <-. apply Hfind in H as [Ha Hid]. exfalso. apply Hn. rewrite <- Hid. by apply list_elem_of_fmap_2.
  - destruct (negb _); [done|]. injection H as H <-. apply Hfind in H as [Ha Hid]. cbn in Ha.
    assert (r ∈ attempts t ++ [r]) as Hr by (apply elem_of_app; right; by left). split; [|done].
    apply elem_of_app in Ha as [Ha|Ha%list_elem_of_singleton]; [|done].
    exfalso. apply Hn. rewrite <- Hid. by apply list_elem_of_fmap_2.
Qed.

Section Calls.
Context {K : PaymentKit}.
Variable text_le : string -> string -> bool.

Lemma ids_same c t t' : attempt_ids t' = attempt_ids t -> ids_after c t t'.
Proof. by left. Qed.

Lemma perform_ids now id c t r t' : perform text_le now id c t = Some (r, t') -> ids_after c t t'.
Proof.
  destruct c; try done; cbn [perform]; try (intros [= _ <-]; by left).
  all: try (intros [= E]; eapply (statement_ok _ _ _ _ (ids_after _) E); [by left|]; intros a t1).
  - intros [_ Ha]%updateTransfer_kept. by apply ids_same, same_ids.
  - intros (_ & Ha & _)%persistSigned_spec. by apply ids_same, same_ids.
  - intros (_ & Ha & _)%markStarted_spec. by apply ids_same, same_ids.
  - intros [H|H]%create_ids; [by left|by right].
  - intros H%updateAttempt_ids. by apply ids_same.
  - intros (a & [_ ?]%recurring_same & _)%paired_ok. by apply ids_same, same_ids.
  - intros (a & [_ ?]%recurring_same & _)%paired_ok. by apply ids_same, same_ids.
  - intros (a & [_ ?]%claim_same & _)%paired_ok. by apply ids_same, same_ids.
  - intros [_ ?]%createLifecycle_same. by apply ids_same, same_ids.
  - intros [_ ?]%updateLifecycle_same. by apply ids_same, same_ids.
  - intros H%link_ids. by apply ids_same.
  - intros H%settle_ids. by apply ids_same.
  - intros H%finalize_ids. by apply ids_same.
  - intros [_ ?]%finalize_lifecycle_same. by apply ids_same, same_ids.
  - intros [_ ?]%activation_same. by apply ids_same, same_ids.
Qed.

Lemma answers_ids t e t' : pay_answers text_le t e t' -> ids_after (ev_call e) t t'.
Proof.
  assert (forall t t1 t' c, others t t1 -> ids_after c t1 t' -> ids_after c t t') as Hthen.
  { clear. intros t t1 t' c [_ Ha%same_ids] [H|H]; [left; congruence|right]. destruct c; try done. congruence. }
  intros [u u' c r _ [_ H]|u u1 u' now id c r H Hp|u u1 u' now id c r err H Hp|u u' c err [_ H]]; cbn [ev_call pay_ev].
  - by apply ids_same, same_ids.
  - eapply Hthen; [exact H|by eapply perform_ids].
  - eapply Hthen; [exact H|by eapply perform_ids].
  - by apply ids_same, same_ids.
Qed.

Lemma answers_created t r a t' :
  pay_answers text_le t (pay_ev (CreateAttempt r) (Ok (Some a))) t' -> attempt_id r ∉ attempt_ids t ->
  r ∈ attempts t'.
Proof.
  intros H Hn. remember (pay_ev (CreateAttempt r) (Ok (Some a))) as e eqn:Ee.
  destruct H as [u u' c x Hno _|u u1 u' now id c x [_ Ho%same_ids] Hp|u u1 u' now id c x err _ _|u u' c err _].
  - assert (c = CreateAttempt r) as -> by (by injection Ee). by specialize (Hno "" "" u).
  - assert (c = CreateAttempt r) as -> by (by injection Ee). cbn [perform] in Hp. injection Hp as E.
    assert (x = Ok (Some a)) as -> by (apply (f_equal (fun e => match ev_call e as c return result (pay_answer c) -> option (result (option PaymentSubscriptionCollectionAttemptRow)) with
       | CreateAttempt _ => fun y => Some y | _ => fun _ => None end (ev_resp e))) in Ee; cbn in Ee; congruence).
    unfold statement in E. destruct (createCollectionAttempt r u1) as [[o t2]|] eqn:Ec; injection E as E1 E2; [|done].
    subst. by eapply create_new; [exact Ec|rewrite Ho].
  - apply (f_equal (fun e => match ev_call e as c return result (pay_answer c) -> bool with
       | CreateAttempt _ => fun y => match y with Ok _ => true | Err _ => false end | _ => fun _ => false end (ev_resp e))) in Ee.
    cbn in Ee. by destruct c.
  - apply (f_equal (fun e => match ev_call e as c return result (pay_answer c) -> bool with
       | CreateAttempt _ => fun y => match y with Ok _ => true | Err _ => false end | _ => fun _ => false end (ev_resp e))) in Ee.
    cbn in Ee. by destruct c.
Qed.
End Calls.
