(* ===== verification/RecurringEvidence.v ===== *)
(** * Recurring payments: the evidence of a call

    What the calls a collection made, with their answers, say: that an attempt is a
    run's own, that its policy allowed it, that a transfer was linked, signed and
    started, that the chain showed it failed or made. [backed] says which of these each
    call of a run must rest on; RecurringSubmission.v and RecurringSafety.v prove that
    it does. *)
From Stdlib Require Import Ascii String ZArith Lia.
From stdpp Require Import base list strings sets.
From S2P Require Import Prelude Text Dates Amount PolicyTypes PolicyEnforce PolicyService BudgetTypes BudgetService.
From S2P Require Import Pool History PaymentTables RecurringLifecycle RecurringTransactions PaymentCalls SignedSubmission.
From S2P Require Import RecurringCollection.

Local Open Scope string_scope.
Local Open Scope Z_scope.
Local Open Scope list_scope.
Local Open Scope sdp_scope.

(** ** Histories *)

Abbreviation pay_history := (list pay_event).

Definition told (c : pay_call) (a : pay_answer c) (h : pay_history) : Prop := pay_ev c (Ok a) ∈ h.

Definition is_create (e : pay_event) : Prop := match ev_call e with CreateAttempt _ => True | _ => False end.
Definition is_send (e : pay_event) : Prop := match ev_call e with SendTransaction _ => True | _ => False end.
Definition is_link (e : pay_event) : Prop := match ev_call e with LinkTransfer _ _ _ => True | _ => False end.
Definition is_settle (e : pay_event) : Prop := match ev_call e with SettleFailed _ => True | _ => False end.

(** What holds of the calls after an event. *)
Definition after_event (x : pay_event) (P : pay_history -> Prop) (h : pay_history) : Prop :=
  exists before after, h = before ++ x :: after /\ P after.

Definition never (P : pay_event -> Prop) (h : pay_history) : Prop := Forall (fun e => ~ P e) h.

(** What a run claims: the period of a collection, under an id. *)
Record Claim := mkClaim {
  cm_id : string;
  cm_input : CollectInput;
  cm_subscriptionId : string;
  cm_dueAt : string;
  cm_now : string;
}.

Definition claim_row (k : Claim) : PaymentSubscriptionCollectionAttemptRow :=
  claimed_attempt (cm_input k) (cm_id k) (cm_subscriptionId k) (cm_dueAt k) (cm_now k).

(** The id of a claim is given; everything the run does for the claim is after that. *)
Definition claim_event (k : Claim) : pay_event := pay_ev NewUuid (Ok (cm_id k)).

(** The attempt of a claim, as its run was last given it. *)
Inductive own_attempt (k : Claim) (h : pay_history) : PaymentSubscriptionCollectionAttemptRow -> Prop :=
| own_created a : told (CreateAttempt (claim_row k)) (Some a) h -> own_attempt k h a
| own_linked a i at_ a' x : own_attempt k h a -> told (LinkTransfer i (attempt_id a) at_) (a', x) h -> own_attempt k h a'
| own_updated a i a' : own_attempt k h a -> ua_attemptId i = attempt_id a -> told (UpdateAttempt i) (Some a') h ->
    own_attempt k h a'.

(** The policy engine allowed this collection. *)
Definition collection_allowed (k : Claim) (h : pay_history) : Prop :=
  exists evaluation tr,
    policy_allows
      (mkCreateOperation (collection_candidate (cm_input k)) []
         (collection_payload (cm_input k) (cm_subscriptionId k) (cm_dueAt k)) None None) evaluation tr
    /\ forall e, e ∈ tr -> pay_ev (PolicyStore (ev_call e)) (ev_resp e) ∈ h.

(** The transfer linked to the attempt of a claim. *)
Definition linked_by (k : Claim) (id : string) (h : pay_history) : Prop :=
  exists c at_ a a' x, own_attempt k h a /\ told (LinkTransfer c (attempt_id a) at_) (a', x) h /\ transfer_id x = id.

Definition started_here (id : string) (h : pay_history) : Prop :=
  exists tenant at_ r, told (MarkTransferStarted tenant id at_) (Some r) h.

(** The store of a transfer was given its row without a signature. *)
Inductive unsigned_row (id : string) (h : pay_history) : Prop :=
| unsigned_persisted i r : told (PersistSignedTransfer i) (Some r) h -> pg_transferId i = id ->
    given (xf_signature r) = None -> unsigned_row id h
| unsigned_started tenant at_ r : told (MarkTransferStarted tenant id at_) (Some r) h ->
    given (xf_signature r) = None -> unsigned_row id h
| unsigned_read tenant r : told (GetTransfer tenant id) (Some r) h -> given (xf_signature r) = None -> unsigned_row id h.

(** An attempt another run left, as this run read it. *)
Definition reading (cycle : Cycle) (a : PaymentSubscriptionCollectionAttemptRow) : pay_event :=
  pay_ev (GetAttemptByDue cycle [ca_processing; ca_confirmed]) (Ok (Some a)).

Definition read_transfer (a : PaymentSubscriptionCollectionAttemptRow) (x : PaymentTransferRow) (h : pay_history) : Prop :=
  exists tenant id, given (ca_transfer_id a) = Some id /\ told (GetTransfer tenant id) (Some x) h.

(** Nothing had happened to it for a quarter of an hour. *)
Definition left_alone (a : PaymentSubscriptionCollectionAttemptRow) (h : pay_history) : Prop :=
  exists now updatedAt, told NowMs now h /\ Date_parse (ca_updated_at a) = Some updatedAt
    /\ updatedAt <= now - 15 * 60 * 1000.

(** The signature an attempt and its transfer have. *)
Definition stored_signature (a : PaymentSubscriptionCollectionAttemptRow) (x : PaymentTransferRow) : option string :=
  given (match ca_signature a with Some s => Some s | None => xf_signature x end).

(** The store of a transfer was given it as failed, signed and never started. *)
Definition never_broadcast (x : PaymentTransferRow) : Prop :=
  xf_status x = xs_failed /\ is_Some (xf_signed_transaction x) /\ is_Some (xf_last_valid_block_height x)
  /\ xf_submission_started_at x = None.

(** The instructions of a claim: they pay the amount of its recurring payment, in the base
    units of the mint, from its source to the account of its destination, under its plan
    and subscription, after creating that account. *)
Definition planned_for (k : Claim) (instructions : list string) (h : pay_history) : Prop :=
  let rp := cc_recurringPayment (cm_input k) in
  exists tokenProgram source amount receiver feePayer planPda subscriptionPda create collect,
    instructions = [create; collect]
    /\ told (ResolveSourceTokenAccount (rp_source_address rp) (rp_token rp) tokenProgram) source h
    /\ DecimalSpec.denotes (rp_amount rp) amount (sta_decimals source) /\ 0 < amount
    /\ told (FindAta (rp_destination_address rp) tokenProgram (rp_token rp)) receiver h
    /\ rp_plan_pda rp = Some planPda /\ rp_subscription_pda rp = Some subscriptionPda
    /\ told (BuildInstruction (CreateAta feePayer receiver (rp_destination_address rp) (rp_token rp) tokenProgram)) create h
    /\ told (BuildInstruction (TransferSubscription amount (cw_publicKey (cc_sourceWallet (cm_input k)))
               (rp_source_address rp) planPda receiver subscriptionPda (rp_token rp) tokenProgram)) collect h.

(** The transaction of a claim whose policy allowed it since, of its instructions and signed
    by its wallet. *)
Definition built_for (k : Claim) (transaction : string) (h : pay_history) : Prop :=
  after_event (claim_event k) (collection_allowed k) h /\
  exists message, told (PartiallySign message) transaction h /\ planned_for k (msg_instructions message) h
    /\ msg_signer message = cw_publicKey (cc_sourceWallet (cm_input k)).

Section Evidence.
Context {K : PaymentKit}.
Variable dp : Deployment.

(** The fee payer signed the transaction of a claim, which became these bytes: a whole
    transaction under that signature. *)
Definition signed_for (k : Claim) (bytes signature : string) (h : pay_history) : Prop :=
  exists scope transaction,
    told (Sponsorship scope (ProviderSignAsFeePayer transaction)) bytes h
    /\ getFullySignedSubmission (dp_kit dp) bytes = Ok (mkSubmission bytes signature)
    /\ built_for k transaction h.

(** They were persisted with their signature. *)
Definition persisted_for (k : Claim) (id bytes : string) (h : pay_history) : Prop :=
  exists i r, told (PersistSignedTransfer i) (Some r) h /\ pg_transferId i = id
    /\ pg_signedTransaction i = base64_text bytes /\ signed_for k bytes (pg_signature i) h.

(** The fee payer signed these bytes, which are a whole transaction. *)
Definition fee_payer_signed (bytes signature : string) (h : pay_history) : Prop :=
  exists scope transaction,
    told (Sponsorship scope (ProviderSignAsFeePayer transaction)) bytes h
    /\ getFullySignedSubmission (dp_kit dp) bytes = Ok (mkSubmission bytes signature).

Definition persisted_here (id bytes : string) (h : pay_history) : Prop :=
  exists i r, told (PersistSignedTransfer i) (Some r) h /\ pg_transferId i = id
    /\ pg_signedTransaction i = base64_text bytes /\ fee_payer_signed bytes (pg_signature i) h.

(** The signature of the bytes persisted for the transfer of a claim. *)
Definition own_signature (k : Claim) (id s : string) (h : pay_history) : Prop :=
  exists bytes, persisted_for k id bytes h
    /\ getFullySignedSubmission (dp_kit dp) bytes = Ok (mkSubmission bytes s).

(** An error of the platform that says a transaction failed. *)
Definition says_failed (e : jserr) : Prop :=
  exists code message cause, e = CodedError "AppError" code message cause
    /\ (code = "TRANSACTION_FAILED" \/ code = "ACCOUNT_FROZEN").

(** The chain said of the transaction under this signature that it fails, or the node when
    it simulated its bytes; or a call was refused with an error that says so. *)
Inductive definite (s : string) (h : pay_history) : Prop :=
| definite_answer c e : pay_ev c (Err e) ∈ h -> says_failed e -> definite s h
| definite_preflight bytes e : pay_ev (SendTransaction bytes) (Err e) ∈ h -> is_Some (preflight_failure e) ->
    getFullySignedSubmission (dp_kit dp) bytes = Ok (mkSubmission bytes s) -> definite s h
| definite_status : told (ConfirmTransaction s) true h -> definite s h
| definite_transaction tx : told (GetTransaction s) (Some tx) h -> pt_failed tx = true -> definite s h.

(** An error that says a submission failed is one the chain or a call gave of it. *)
Definition honest (s : string) (e : jserr) (h : pay_history) : Prop :=
  isDefiniteSubmissionError e = true -> definite s h.

(** A transaction on chain moved the amount of this recurring payment from its source to
    the given account, under its plan and subscription. *)
Definition moved_on_chain (v : VerifyInput) (h : pay_history) : Prop :=
  exists tx e decimals,
    told (GetTransaction (vf_signature v)) (Some tx) h /\ pt_failed tx = false
    /\ existsb (matchesRecurringTransferInstruction e) (pt_instructions tx) = true
    /\ told (MintDecimals (rp_token (vf_recurringPayment v))) decimals h
    /\ SolanaAmount.parseDecimalAmount (rp_amount (vf_recurringPayment v)) decimals = Ok (ex_amountBaseUnits e)
    /\ ex_sourceAddress e = rp_source_address (vf_recurringPayment v)
    /\ ex_token e = rp_token (vf_recurringPayment v)
    /\ ex_destinationTokenAccount e = vf_destinationTokenAccount v
    /\ rp_plan_pda (vf_recurringPayment v) = Some (ex_planPda e)
    /\ rp_subscription_pda (vf_recurringPayment v) = Some (ex_subscriptionPda e)
    /\ sb_subscription_authority_address (vf_subscription v) = Some (ex_subscriptionAuthorityAddress e)
    /\ sb_subscriber_token_account (vf_subscription v) = Some (ex_subscriberTokenAccount e).

Definition proof_of (v : VerifyInput) : VerifiedRecurringPaymentCollection :=
  mkProof (attempt_id (vf_attempt v)) (vf_dueAt v) (vf_destinationTokenAccount v) (vf_signature v)
    (transfer_id (vf_transfer v)).

(** ** What each call rests on *)

(** A transfer is linked once for a claim, whose policy allowed it since. *)
Definition link_backed (h : pay_history) (c : CreatePaymentTransferInput) (attemptId : string) : Prop :=
  exists k a, own_attempt k h a /\ attemptId = attempt_id a
    /\ after_event (claim_event k) (never is_link) h /\ after_event (claim_event k) (collection_allowed k) h
    /\ c = collection_transfer (cm_input k) (cm_subscriptionId k) (cm_dueAt k).

Definition persist_backed (h : pay_history) (i : PersistSignedTransferInput) : Prop :=
  exists k bytes, linked_by k (pg_transferId i) h /\ signed_for k bytes (pg_signature i) h
    /\ pg_signedTransaction i = base64_text bytes.

(** What is sent is a linked transfer's whose signed bytes were persisted and whose
    submission was started, for a claim that was not given up. *)
Definition sending (k : Claim) (id bytes : string) (h : pay_history) : Prop :=
  linked_by k id h /\ persisted_here id bytes h /\ started_here id h /\ after_event (claim_event k) (never is_settle) h.

Definition send_backed (h : pay_history) (bytes : string) : Prop :=
  exists k id, sending k id bytes h /\ persisted_for k id bytes h.

(** Why an attempt whose transaction may have been sent is settled as failed: its own run
    knows that its transaction failed, or the store has no signature for its transfer;
    another run found it left alone before it was submitted, or that the transaction under
    its signature failed. *)
Inductive known_failed (h : pay_history) (a : PaymentSubscriptionCollectionAttemptRow) : Prop :=
| failed_definite k id s : own_attempt k h a -> linked_by k id h -> own_signature k id s h ->
    after_event (claim_event k) (definite s) h -> known_failed h a
| failed_unsigned k id : own_attempt k h a -> linked_by k id h -> after_event (claim_event k) (unsigned_row id) h ->
    known_failed h a
| failed_unlinked cycle : after_event (reading cycle a) (left_alone a) h -> given (ca_transfer_id a) = None ->
    known_failed h a
| failed_unsubmitted cycle x : after_event (reading cycle a) (fun t => read_transfer a x t /\ left_alone a t) h ->
    stored_signature a x = None -> known_failed h a
| failed_expired cycle x : after_event (reading cycle a) (fun t => read_transfer a x t /\ left_alone a t) h ->
    never_broadcast x -> known_failed h a
| failed_on_chain cycle x s : stored_signature a x = Some s ->
    after_event (reading cycle a) (fun t => read_transfer a x t /\ definite s t) h -> known_failed h a.

(** Or its own run has sent nothing. *)
Inductive settle_backed (h : pay_history) (a : PaymentSubscriptionCollectionAttemptRow) : Prop :=
| settled_unsent k : own_attempt k h a -> after_event (claim_event k) (never is_send) h -> settle_backed h a
| settled_failed : known_failed h a -> settle_backed h a.

(** A period advances on the proof of its own attempt and transfer, by one period. *)
Definition finalize_backed (h : pay_history) (i : FinalizeCollectionInput) : Prop :=
  exists v, fz_proof i = proof_of v /\ fz_attempt i = vf_attempt v /\ fz_transfer i = vf_transfer v
    /\ fz_subscription i = vf_subscription v
    /\ persistedEvidenceMatches v = true /\ moved_on_chain v h
    /\ nextRecurringPaymentCollectionDueAt (vf_dueAt v) (rp_period_hours (fz_recurringPayment i)) = Ok (fz_nextDueAt i).

Definition backed (h : pay_history) (e : pay_event) : Prop :=
  match ev_call e with
  | CreateAttempt r => exists k, r = claim_row k /\ after_event (claim_event k) (never is_create) h
  | UpdateAttempt i => ua_status i = None \/ ua_status i = Some ca_processing
  | LinkTransfer c attemptId _ => link_backed h c attemptId
  | PersistSignedTransfer i => persist_backed h i
  | MarkTransferStarted _ id _ => exists bytes, persisted_here id bytes h
  | SendTransaction bytes => send_backed h bytes
  | SettleFailed i => settle_backed h (sf_attempt i)
  | FinalizeCollection i => finalize_backed h i
  | _ => True
  end.

(** A call that rests on nothing. *)
Definition plain_call (c : pay_call) : Prop :=
  match c with
  | CreateAttempt _ | UpdateAttempt _ | LinkTransfer _ _ _ | PersistSignedTransfer _ | MarkTransferStarted _ _ _
  | SendTransaction _ | SettleFailed _ | FinalizeCollection _ => False
  | _ => True
  end.
End Evidence.

(** * Lemmas *)

(** ** Evidence stays *)

(** Evidence that more calls keep, wherever they are. *)
Class Monotone (P : pay_history -> Prop) : Prop := monotone : forall t t', t ⊆ t' -> P t -> P t'.

(** Evidence that calls made later keep. *)
Class Stays (P : pay_history -> Prop) : Prop := stays : forall h t, P h -> P (h ++ t).

#[export] Instance monotone_stays P : Monotone P -> Stays P.
Proof. intros H h t. apply H. set_solver. Qed.

#[export] Instance true_monotone : Monotone (fun _ => True).
Proof. done. Qed.

#[export] Instance told_monotone c (a : pay_answer c) : Monotone (told c a).
Proof. intros t t' H. apply H. Qed.

Lemma told_last c (a : pay_answer c) h : told c a (h ++ [pay_ev c (Ok a)]).
Proof. apply elem_of_app. right. by left. Qed.

#[export] Instance own_monotone k a : Monotone (fun h => own_attempt k h a).
Proof.
  intros t t' H. induction 1 as [a Ht|a i at_ a' x _ IH Ht|a i a' _ IH Hid Ht].
  - by apply own_created, H.
  - by eapply own_linked; [|apply H].
  - by eapply own_updated; [..|apply H].
Qed.

#[export] Instance allowed_monotone k : Monotone (collection_allowed k).
Proof. intros t t' H (ev & tr & Hp & Hin). exists ev, tr. split; [done|]. intros e He. apply H. auto. Qed.

#[export] Instance linked_monotone k id : Monotone (linked_by k id).
Proof.
  intros t t' H (c & at_ & a & a' & x & Ho & Ht & E). exists c, at_, a, a', x.
  split; [by eapply own_monotone|]. split; [by apply H|done].
Qed.

#[export] Instance started_monotone id : Monotone (started_here id).
Proof. intros t t' H (tn & at_ & r & Ht). exists tn, at_, r. by apply H. Qed.

#[export] Instance unsigned_monotone id : Monotone (unsigned_row id).
Proof.
  intros t t' H [i r Ht Ei E|tn at_ r Ht E|tn r Ht E];
    [by eapply unsigned_persisted; [apply H|..]|by eapply unsigned_started; [apply H|]|by eapply unsigned_read; [apply H|]].
Qed.

#[export] Instance read_transfer_monotone a x : Monotone (read_transfer a x).
Proof. intros t t' H (tn & id & E & Ht). exists tn, id. split; [done|by apply H]. Qed.

#[export] Instance left_alone_monotone a : Monotone (left_alone a).
Proof. intros t t' H (now & u & Ht & E). exists now, u. split; [by apply H|done]. Qed.

#[export] Instance both_monotone P Q : Monotone P -> Monotone Q -> Monotone (fun t => P t /\ Q t).
Proof. intros HP HQ t t' H [? ?]. split; [by eapply HP|by eapply HQ]. Qed.

#[export] Instance after_event_stays x P : Stays P -> Stays (after_event x P).
Proof. intros HP h t (b & a & -> & H). exists b, (a ++ t). split; [by rewrite <- app_assoc|by apply HP]. Qed.

Section Kit.
Context {K : PaymentKit}.
Variable dp : Deployment.

#[export] Instance planned_monotone k l : Monotone (planned_for k l).
Proof.
  intros t t' H (tp & src & n & r & f & p & sp & c & c' & E & H1 & H2 & H3 & H4 & H5 & H6 & H7 & H8).
  exists tp, src, n, r, f, p, sp, c, c'. split_and!; try done; by apply H.
Qed.

#[export] Instance built_stays k tx : Stays (built_for k tx).
Proof.
  intros h t (Ha & m & Hm & Hp & Hs). split; [by apply after_event_stays; [apply _|]|].
  exists m. split; [by apply elem_of_app; left|]. split; [by apply (stays (P := planned_for k _))|done].
Qed.

#[export] Instance signed_for_stays k b s : Stays (signed_for dp k b s).
Proof.
  intros h t (scope & tx & Ht & E & Hb). exists scope, tx. split; [by apply elem_of_app; left|]. split; [done|by apply built_stays].
Qed.

#[export] Instance persisted_for_stays k id b : Stays (persisted_for dp k id b).
Proof.
  intros h t (i & r & Ht & E & Eb & Hs). exists i, r. split; [by apply elem_of_app; left|]. do 2 (split; [done|]).
  by apply signed_for_stays.
Qed.

Lemma persisted_for_here k id b h : persisted_for dp k id b h -> persisted_here dp id b h.
Proof.
  intros (i & r & Ht & E & Eb & scope & tx & Hs & Hg & _). exists i, r. do 3 (split; [done|]). by exists scope, tx.
Qed.

#[export] Instance signed_monotone b s : Monotone (fee_payer_signed dp b s).
Proof. intros t t' H (scope & tx & Ht & E). exists scope, tx. split; [by apply H|done]. Qed.

#[export] Instance persisted_monotone id b : Monotone (persisted_here dp id b).
Proof.
  intros t t' H (i & r & Ht & E & Eb & Hs). exists i, r. split; [by apply H|]. do 2 (split; [done|]).
  by eapply signed_monotone.
Qed.

#[export] Instance own_signature_stays k id s : Stays (own_signature dp k id s).
Proof. intros h t (b & Hp & E). exists b. split; [by apply persisted_for_stays|done]. Qed.

(** The test of the code finds the errors that say so. *)
Lemma definite_error e : isDefiniteSubmissionError e = true <-> says_failed e.
Proof.
  unfold isDefiniteSubmissionError, says_failed. split.
  - repeat (case_match; try done). rewrite orb_true_iff, !String.eqb_eq. eauto 10.
  - intros (code & m & c & -> & [-> | ->]); done.
Qed.

#[export] Instance definite_monotone s : Monotone (definite dp s).
Proof.
  intros t t' H [c e Ht E|b e Ht E Eb|Ht|tx Ht E];
    [by eapply definite_answer; [apply H|]|by eapply definite_preflight; [apply H|..]|by eapply definite_status, H
    |by eapply definite_transaction; [apply H|]].
Qed.

#[export] Instance honest_monotone s e : Monotone (honest dp s e).
Proof. intros t t' H He D. eapply definite_monotone; [exact H|by apply He]. Qed.

#[export] Instance moved_monotone v : Monotone (moved_on_chain v).
Proof.
  intros t t' H (tx & e & d & H1 & H2 & H3 & H4 & H5). exists tx, e, d.
  split; [by apply H|]. do 2 (split; [done|]). split; [by apply H|done].
Qed.

Lemma plain_free : free (backed dp) plain_call.
Proof. intros h [c a] H. destruct c; done. Qed.
End Kit.

(** ** Histories that go on *)

(** What holds of the calls since a history. *)
Definition from (h0 : pay_history) (P : pay_history -> Prop) (h : pay_history) : Prop := exists t, h = h0 ++ t /\ P t.

#[export] Instance from_stays h0 P : Stays P -> Stays (from h0 P).
Proof. intros HP h t (t0 & -> & H). exists (t0 ++ t). split; [by rewrite app_assoc|by apply HP]. Qed.

Lemma stays_prefix P `{!Stays P} h h' : P h -> h `prefix_of` h' -> P h'.
Proof. intros H [t ->]. by apply stays. Qed.

Lemma from_earlier h0 h1 P `{!Monotone P} h : from h1 P h -> h0 `prefix_of` h1 -> from h0 P h.
Proof.
  intros (t & -> & H) [t0 ->]. exists (t0 ++ t). rewrite app_assoc. split; [done|].
  eapply monotone; [|exact H]. set_solver.
Qed.

Lemma from_prefix h0 P h : from h0 P h -> h0 `prefix_of` h.
Proof. intros (t & -> & _). by apply prefix_app_r. Qed.

Lemma from_same h0 P `{!Monotone P} h : from h0 P h -> P h.
Proof. intros (t & -> & H). eapply monotone; [|exact H]. set_solver. Qed.

(** Since the claim, whatever came between. *)
Lemma from_after x h0 P `{!Monotone P} h : from h0 P h -> after_event x (fun _ => True) h0 -> after_event x P h.
Proof.
  intros (t & -> & H) (b & a & -> & _). exists b, (a ++ t). rewrite <- app_assoc. split; [done|].
  eapply monotone; [|exact H]. set_solver.
Qed.

Lemma after_any x P h : after_event x P h -> after_event x (fun _ => True) h.
Proof. intros (b & a & -> & _). by exists b, a. Qed.

(** What the last call shows is shown after the event. *)
Lemma after_last x (P : pay_history -> Prop) h e :
  after_event x (fun _ => True) h -> (forall t, P (t ++ [e])) -> after_event x P (h ++ [e]).
Proof. intros (b & a & -> & _) H. exists b, (a ++ [e]). split; [by rewrite <- app_assoc|apply H]. Qed.

(** Since then nothing was sent, linked or settled. *)
Definition silent (e : pay_event) : Prop := ~ is_send e /\ ~ is_link e /\ ~ is_settle e.
Definition quietly (h h' : pay_history) : Prop := from h (Forall silent) h'.

Lemma quietly_refl h : quietly h h.
Proof. exists []. by rewrite app_nil_r. Qed.

Lemma quietly_trans h1 h2 h3 : quietly h1 h2 -> quietly h2 h3 -> quietly h1 h3.
Proof. intros (t1 & -> & H1) (t2 & -> & H2). exists (t1 ++ t2). rewrite app_assoc. split; [done|by apply Forall_app]. Qed.

Lemma plain_silent e : plain_call (ev_call e) -> silent e.
Proof. intros H. destruct e as [c a]. destruct c; try done; (split; [|split]); intros []. Qed.

Lemma quietly_plain h t : Forall (fun e => plain_call (ev_call e)) t -> quietly h (h ++ t).
Proof. intros H. exists t. split; [done|]. eapply Forall_impl; [exact H|]. apply plain_silent. Qed.

Lemma quietly_prefix h h' : quietly h h' -> h `prefix_of` h'.
Proof. apply from_prefix. Qed.

Lemma stays_quietly P `{!Stays P} h h' : P h -> quietly h h' -> P h'.
Proof. intros H Hq. eapply stays_prefix; [done|exact H|by apply quietly_prefix]. Qed.

Lemma never_quietly x (P : pay_event -> Prop) h h' :
  (forall e, silent e -> ~ P e) -> after_event x (never P) h -> quietly h h' -> after_event x (never P) h'.
Proof.
  intros HP (b & a & -> & H) (t & -> & Ht). exists b, (a ++ t). split; [by rewrite <- app_assoc|].
  apply Forall_app. split; [exact H|]. eapply Forall_impl; [exact Ht|exact HP].
Qed.

Lemma never_last x (P : pay_event -> Prop) h e :
  after_event x (never P) h -> ~ P e -> after_event x (never P) (h ++ [e]).
Proof.
  intros (b & a & -> & H) He. exists b, (a ++ [e]). split; [by rewrite <- app_assoc|].
  apply Forall_app. split; [done|by constructor].
Qed.

Lemma unsent_quietly x h h' : after_event x (never is_send) h -> quietly h h' -> after_event x (never is_send) h'.
Proof. apply never_quietly. by intros e []. Qed.
Lemma unlinked_quietly x h h' : after_event x (never is_link) h -> quietly h h' -> after_event x (never is_link) h'.
Proof. apply never_quietly. by intros e [? []]. Qed.
Lemma unsettled_quietly x h h' : after_event x (never is_settle) h -> quietly h h' -> after_event x (never is_settle) h'.
Proof. apply never_quietly. by intros e [? []]. Qed.

(** Since then nothing was settled. *)
Definition carefully (h h' : pay_history) : Prop := from h (never is_settle) h'.

Lemma carefully_refl h : carefully h h.
Proof. exists []. rewrite app_nil_r. split; [done|constructor]. Qed.

Lemma carefully_trans h1 h2 h3 : carefully h1 h2 -> carefully h2 h3 -> carefully h1 h3.
Proof. intros (t1 & -> & H1) (t2 & -> & H2). exists (t1 ++ t2). rewrite app_assoc. split; [done|by apply Forall_app]. Qed.

Lemma quietly_carefully h h' : quietly h h' -> carefully h h'.
Proof. intros (t & -> & H). exists t. split; [done|]. eapply Forall_impl; [exact H|]. by intros e (_ & _ & ?). Qed.

Lemma carefully_one h e : ~ is_settle e -> carefully h (h ++ [e]).
Proof. intros H. exists [e]. split; [done|]. by repeat constructor. Qed.

Lemma carefully_prefix h h' : carefully h h' -> h `prefix_of` h'.
Proof. apply from_prefix. Qed.

Lemma unsettled_carefully x h h' : after_event x (never is_settle) h -> carefully h h' -> after_event x (never is_settle) h'.
Proof.
  intros (b & a & -> & H) (t & -> & Ht). exists b, (a ++ t). split; [by rewrite <- app_assoc|by apply Forall_app].
Qed.

(** Proves that known calls are quiet. *)
Ltac quiet_calls :=
  rewrite <- ?app_assoc; eexists; (split; [reflexivity|]); repeat (constructor; [repeat split; intros []|]); constructor.

(** What is known stays known, given how the history went on. *)
Ltac keep Hq :=
  let known h k :=
    match goal with
    | H : ?T |- _ => let F := eval pattern h in T in match F with ?P _ => k P H end
    end in
  match type of Hq with
  | quietly ?h ?h' => known h ltac:(fun P H => exact (stays_quietly P h h' H Hq))
  | ?h `prefix_of` ?h' => known h ltac:(fun P H => exact (stays_prefix P h h' H Hq))
  end.

Section Plain.
Context {K : PaymentKit}.
Variable dp : Deployment.
Abbreviation triple := (triple (backed dp)).

(** A program of plain calls adds only plain calls. *)
Lemma plain_triple {A} h (m : pay_prog A) (Q : pay_history -> result A -> Prop) :
  calls_within plain_call m ->
  all_runs m (fun tr r => Forall (fun e => plain_call (ev_call e)) tr -> Q (h ++ tr) r) -> triple h m Q.
Proof. apply triple_within, plain_free. Qed.

Lemma plain_any {A} h (m : pay_prog A) (Q : pay_history -> result A -> Prop) :
  calls_within plain_call m ->
  (forall tr r, Forall (fun e => plain_call (ev_call e)) tr -> Q (h ++ tr) r) -> triple h m Q.
Proof.
  intros Hm HQ. apply plain_triple; [done|]. eapply all_runs_mono; [|apply all_runs_true]. intros tr r _. apply HQ.
Qed.

Lemma quiet_any {A} h (m : pay_prog A) : calls_within plain_call m -> triple h m (fun h' _ => quietly h h').
Proof. intros Hm. apply plain_any; [done|]. intros tr r. apply quietly_plain. Qed.

Lemma triple_ask {A} h c (f : pay_answer c -> pay_prog A) Q :
  plain_call c -> (forall a, triple (h ++ [pay_ev c (Ok a)]) (f a) Q) ->
  (forall e, Q (h ++ [pay_ev c (Err e)]) (Err e)) -> triple h (bind (PaymentCalls.ask c) f) Q.
Proof. intros Hc Ha He. apply triple_bind_call; [|done..]. intros r. by apply plain_free. Qed.

Lemma triple_settled {A} h (m : pay_prog A) (Q : pay_history -> result (result A) -> Prop) :
  triple h m (fun h' r => Q h' (Ok r)) -> triple h (settled m) Q.
Proof.
  intros H. unfold settled. eapply triple_catch with (Q1 := fun h' r => match r with Ok a => Q h' (Ok a) | Err e => Q h' (Ok (Err e)) end).
  - eapply triple_bind; [exact H| |]; intros h' x Hx; exact Hx.
  - by intros h' [a|e] Hx.
  - intros h' e Hx. exact Hx.
Qed.

Lemma triple_after_settled {A B} h (m : pay_prog A) (f : result A -> pay_prog B) Q1 Q2 :
  triple h m Q1 -> (forall h' r, Q1 h' r -> triple h' (f r) Q2) -> triple h (bind (settled m) f) Q2.
Proof.
  intros Hm Hf. eapply triple_bind with (Q1 := fun h' r => match r with Ok a => Q1 h' a | Err _ => False end).
  - by apply triple_settled.
  - intros h' a. apply Hf.
  - done.
Qed.

(** A call of a repository. *)
Lemma triple_scoped h tenant repository c (Q : pay_history -> result (pay_answer c) -> Prop) :
  (forall r, backed dp h (pay_ev c r)) -> (forall r, Q (h ++ [pay_ev c r]) r) ->
  (forall e, isDefiniteSubmissionError e = false -> Q h (Err e)) ->
  triple h (scoped tenant repository c) Q.
Proof.
  intros Hb Hq He. unfold scoped. apply triple_bind_result.
  - intros scope _. apply triple_bind_result; [intros [] _; by apply triple_call|].
    unfold assertTenantClaim. intros e. destruct (negb _); [intros [= <-]; by apply He|].
    destruct (negb _); [|done]. intros [= <-]. by apply He.
  - unfold createTenantScope. intros e. destruct (String.eqb _ _); [intros [= <-]; by apply He|].
    destruct (_ && _); [|done]. intros [= <-]. by apply He.
Qed.
End Plain.
