(* ===== verification/RecurringSubmission.v ===== *)
(** * Recurring payments: the signed submission

    The store of a transfer behind the sponsored fee payment: what a run of
    [prepareOwned] or [submitSignedPaymentTransaction] has established when it ends,
    whatever is answered. A transaction is sent only when its transfer was linked, its
    bytes persisted and its submission started in the same run. *)
From Stdlib Require Import Ascii String ZArith Lia.
From stdpp Require Import base list strings sets.
From S2P Require Import Prelude Text TransientRpc PolicyTypes PolicyEnforce PolicyService BudgetTypes BudgetService Pool History.
From S2P Require Import PaymentTables RecurringLifecycle RecurringTransactions PaymentCalls SignedSubmission.
From S2P Require Import RecurringCollection RecurringOperations RecurringEvidence.

Local Open Scope string_scope.
Local Open Scope Z_scope.
Local Open Scope list_scope.
Local Open Scope sdp_scope.

(** Calls that are neither of a store nor the paymaster's own send. *)
Definition persistless (c : service_call) : Prop :=
  match c with PersistSigned _ | MarkStarted => False | _ => True end.
Definition storeless (c : service_call) : Prop :=
  match c with PersistSigned _ | MarkStarted | HasStarted => False | _ => True end.

(** ** Programs of the fee payment *)

Ltac fee_calls :=
  repeat (within_calls; try done;
    match goal with
    | |- calls_within _ (BudgetService.ask ?c) => refine (within_call _ c _)
    | |- calls_within _ (lift _) => apply within_of_result
    | |- calls_within _ (if ?b then _ else _) => destruct b
    | |- calls_within _ (match ?x with _ => _ end) => destruct x
    end).

Ltac pay_calls :=
  unfold payments, paymentSubscriptions, recurringPayments, database, RecurringCollection.ask, SignedSubmission.ask,
    RecurringOperations.ask, scoped, settled, valid_address, PaymentCalls.ask;
  repeat (within_calls; try done;
    match goal with
    | |- calls_within _ (match ?x with _ => _ end) => destruct x
    | |- calls_within _ (let '(_, _) := ?x in _) => destruct x
    end).

Section Service.
Variable (kit : Kit) (network : string) (scope : SponsorshipScope) (hasConfiguration : bool).

Lemma unavailable_storeless {A} n m reason e : calls_within storeless (accountingUnavailable (A := A) n m reason e).
Proof. unfold accountingUnavailable, tripBreaker. fee_calls. Qed.

Lemma accounted_storeless {A} (m : service_prog A) n msg reason :
  calls_within storeless m -> calls_within storeless (accounted m n msg reason).
Proof. intros H. apply within_catch; [done|]. intros e. apply unavailable_storeless. Qed.

Lemma release_storeless c att reason : calls_within storeless (releaseDurable c att reason).
Proof. apply accounted_storeless. fee_calls. Qed.

Lemma resolve_storeless n : calls_within storeless (resolveEnabledPolicies scope n).
Proof. apply accounted_storeless. fee_calls. Qed.

Lemma deterministic_storeless r e b : calls_within storeless (releaseDeterministic network r e b).
Proof.
  unfold releaseDeterministic, tripBreaker. apply within_bind; [apply accounted_storeless; destruct b; fee_calls|].
  intros released. destruct (if released : bool then _ else _); [apply accounted_storeless; fee_calls|fee_calls].
Qed.

Lemma advanced_storeless r forward : calls_within storeless (durablyAdvanced r forward).
Proof. unfold durablyAdvanced. fee_calls. Qed.

Lemma persistDurable_storeless c op ps att : calls_within storeless (persistReservationDurable scope c op ps att).
Proof.
  unfold persistReservationDurable, adoptExisting. apply within_catch.
  - fee_calls.
  - intros e. destruct (isFeePaymentError e); [apply within_throw|apply unavailable_storeless].
Qed.

Lemma admitLoop_storeless fuel iteration c op att durable :
  calls_within storeless (admitLoop scope fuel iteration c op att durable).
Proof.
  revert iteration durable. induction fuel as [|fuel IH]; intros iteration durable; cbn [admitLoop]; unfold refuse.
  - destruct durable; [apply within_bind; [apply release_storeless|intros _]|]; apply within_throw.
  - apply within_bind; [apply resolve_storeless|intros ps]. apply within_bind.
    { unfold assertSponsorshipEnabled. destruct (forallb _ _); [apply within_ret|].
      apply within_bind; [destruct durable; [apply release_storeless|apply within_ret]|intros _; apply within_throw]. }
    intros _. apply within_bind; [destruct durable; [apply within_ret|apply persistDurable_storeless]|].
    intros [r|r|]; [|apply within_ret|apply within_throw].
    apply within_bind; [apply accounted_storeless; fee_calls|].
    intros []; try (apply within_bind; [apply release_storeless|intros _; apply within_throw]); [apply within_ret|].
    destruct (Nat.eqb iteration 0); [apply IH|].
    apply within_bind; [apply release_storeless|intros _; apply within_throw].
Qed.

Lemma admitted_storeless tx op : calls_within storeless (admitted_operation kit network scope hasConfiguration tx op).
Proof.
  unfold admitted_operation, prepareAdmission, readReservation, admitAgainstCurrentPolicy.
  apply within_bind; [fee_calls|]. intros c. apply within_bind; [apply accounted_storeless; fee_calls|].
  intros d. apply within_bind; [apply within_of_result|]. intros [r|]; [apply within_ret|apply admitLoop_storeless].
Qed.

Lemma ambiguous_storeless r e : calls_within storeless (markAmbiguous network r e).
Proof.
  unfold markAmbiguous. apply within_bind; [apply accounted_storeless; fee_calls|].
  intros []; [apply within_ret|apply unavailable_storeless].
Qed.

Lemma settled_signature_storeless {A} r (value : A) answer forward m reason :
  calls_within storeless (settled_signature network r value answer forward m reason).
Proof.
  unfold settled_signature, releaseDuplicateSignature. destruct (bool_decide _).
  - apply within_bind; [apply deterministic_storeless|intros; apply within_ret].
  - apply within_bind; [destruct (negb _); [apply advanced_storeless|apply within_ret]|].
    intros []; [apply within_ret|apply unavailable_storeless].
Qed.

Lemma signAndSend_storeless tx : calls_within storeless (signAndSend kit network scope hasConfiguration tx).
Proof.
  unfold signAndSend. apply within_bind; [apply admitted_storeless|]. intros r.
  destruct (if truthy _ then _ else _); [fee_calls|].
  apply within_bind.
  - apply within_catch; [fee_calls|]. intros e.
    apply within_bind; [destruct (isDeterministicProviderRejection e); [apply deterministic_storeless|apply ambiguous_storeless]|].
    intros; apply within_throw.
  - intros s. apply within_bind; [apply accounted_storeless; fee_calls|].
    intros a. apply settled_signature_storeless.
Qed.
End Service.

Section Kit.
Context {K : PaymentKit}.
Variable dp : Deployment.

Abbreviation triple := (triple (backed dp)).


(** ** What is known of a submission *)

(** A row the store has without a signature was given it. *)
Definition store_known (claim : Claim) (id : string) (h : pay_history) (st : StoreState) : Prop :=
  forall row, store_row st = Some row -> given (xf_signature row) = None ->
    after_event (claim_event claim) (unsigned_row id) h.

(** An error of the run that says the transaction failed is one it was given since the
    claim. *)
Definition honest_since (claim : Claim) (s : string) (h : pay_history) (e : jserr) : Prop :=
  after_event (claim_event claim) (honest dp s e) h.

(** How a submission ends: nothing was sent and it is an error, or its row is known, it
    answers its own signature, and an error that says it failed was given. *)
Definition submitted (claim : Claim) (id : string) (h h' : pay_history) (a : result string) (st : StoreState) : Prop :=
  h `prefix_of` h' /\ store_known claim id h' st
  /\ ((quietly h h' /\ exists e, a = Err e)
      \/ is_Some (submittedRow st) /\ exists s, own_signature dp claim id s h'
           /\ (forall v, a = Ok v -> v = s) /\ forall e, a = Err e -> honest_since claim s h' e).

(** The bytes of a submission are persisted, a whole transaction under its signature. *)
Definition persisted_whole (claim : Claim) (id bytes signature : string) (h : pay_history) : Prop :=
  persisted_for dp claim id bytes h
  /\ getFullySignedSubmission (dp_kit dp) bytes = Ok (mkSubmission bytes signature).

#[export] Instance persisted_whole_stays claim id b s : Stays (persisted_whole claim id b s).
Proof. intros h t [H1 H2]. split; [by apply persisted_for_stays|done]. Qed.

#[export] Instance store_known_stays claim id st : Stays (fun h => store_known claim id h st).
Proof. intros h t H row E G. apply (after_event_stays _ _ _). by eapply H. Qed.

(** ** The store of a transfer *)

Section Store.
Variable target : SubmissionTarget.
Let id := tg_transferId target.

(** The claim the submission is for. *)
Variable claim : Claim.

Abbreviation store_ok := (store_known claim id).

(** Its transfer is linked and it was not given up. *)
Definition ready (h : pay_history) : Prop := linked_by claim id h /\ after_event (claim_event claim) (never is_settle) h.

Lemma ready_quietly h h' : ready h -> quietly h h' -> ready h'.
Proof. intros [H1 H2] Hq. split; [exact (stays_quietly _ _ _ H1 Hq)|by eapply unsettled_quietly]. Qed.

Lemma ready_claim h : ready h -> after_event (claim_event claim) (fun _ => True) h.
Proof. intros [_ H]. by eapply after_any. Qed.

Lemma send_backed_carefully h h' b : send_backed dp h b -> carefully h h' -> send_backed dp h' b.
Proof.
  intros (k' & x & (L & P & St & U) & F) Hc. pose proof (carefully_prefix _ _ Hc) as Hp. exists k', x.
  split; [|keep Hp]. split; [keep Hp|]. split; [keep Hp|]. split; [keep Hp|]. by eapply unsettled_carefully.
Qed.

(** Bytes that may be sent, persisted under their signature. *)
Definition ours (h : pay_history) (b s : string) : Prop := send_backed dp h b /\ persisted_whole claim id b s h.

Lemma ours_carefully h h' b s : ours h b s -> carefully h h' -> ours h' b s.
Proof.
  intros [H1 H2] Hc. split; [by eapply send_backed_carefully|].
  pose proof (carefully_prefix _ _ Hc) as Hp. keep Hp.
Qed.

(** A call of the repository stamped by the clock. *)
Lemma clocked_call h {A} (f : string -> pay_prog A) (Q : pay_history -> result (result A) -> Prop) :
  (forall s, triple (h ++ [pay_ev NowIso (Ok s)]) (f s) (fun h' r => Q h' (Ok r))) ->
  (forall e, Q (h ++ [pay_ev NowIso (Err e)]) (Ok (Err e))) ->
  triple h (settled (let! s := ask NowIso in f s)) Q.
Proof. intros Hs He. apply triple_settled, triple_bind_call; [done|exact Hs|exact He]. Qed.

(** What a step of the store ends with. *)
Definition stored {A} (h : pay_history) (Q : pay_history -> result A -> StoreState -> Prop)
    (h' : pay_history) (r : result (result A * StoreState)) : Prop :=
  exists a st, r = Ok (a, st) /\ quietly h h' /\ store_ok h' st /\ Q h' a st.

Lemma persistSigned_triple h submission st :
  ready h -> signed_for dp claim (submission_transaction submission) (submission_signature submission) h ->
  store_ok h st ->
  triple h (persistSigned target submission st) (stored h (fun h' a st' => a = Ok tt ->
    persisted_for dp claim id (submission_transaction submission) h' /\ is_Some (store_row st'))).
Proof.
  intros Hl Hs Hst. unfold persistSigned.
  eapply triple_bind with (Q1 := fun h' r => exists a, r = Ok a /\ quietly h h' /\ match a with
    | Ok (Some row) => persisted_for dp claim id (submission_transaction submission) h'
        /\ (given (xf_signature row) = None -> after_event (claim_event claim) (unsigned_row id) h')
    | _ => True end).
  - apply clocked_call.
    + intros s. unfold store_call. eapply (triple_scoped dp _ _ _ (PersistSignedTransfer _)).
      * intros r. exists claim, (submission_transaction submission). split; [apply stays, Hl|].
        split; [by apply (stays (P := signed_for dp claim _ _))|done].
      * intros r. eexists. split; [done|]. split.
        { quiet_calls. }
        destruct r as [[row|]|]; try done. split.
        { eexists _, row. split; [apply told_last|]. do 2 (split; [done|]).
          do 2 apply (stays (P := signed_for dp claim _ _)). done. }
        intros G. apply after_last; [by apply stays, ready_claim|]. intros t. eapply unsigned_persisted; [apply told_last|done..].
      * intros e _. exists (Err e). split; [done|]. split; [quiet_calls|done].
    + intros e. exists (Err e). split; [done|]. split; [quiet_calls|done].
  - intros h' a (a' & [= <-] & Hq & Ha). apply triple_ret.
    destruct a as [[row|]|e]; eexists _, _; (split; [done|]); (split; [done|]); (split; [|done || idtac]).
    all: try (intros r Er; cbn in Er; discriminate).
    + intros r [= <-]. apply Ha.
    + intros _. split; [apply Ha|by eexists].
    + exact (stays_quietly _ _ _ Hst Hq).
  - by intros h' e (a & ? & _).
Qed.

Lemma markStarted_triple h b st :
  ready h -> persisted_for dp claim id b h -> store_ok h st ->
  triple h (markStarted target st) (stored h (fun h' a st' => a = Ok tt ->
    started_here id h' /\ is_Some (submittedRow st'))).
Proof.
  intros Hl Hp Hst. unfold markStarted.
  eapply triple_bind with (Q1 := fun h' r => exists a, r = Ok a /\ quietly h h' /\ match a with
    | Ok (Some row) => started_here id h'
        /\ (given (xf_signature row) = None -> after_event (claim_event claim) (unsigned_row id) h')
    | _ => True end).
  - apply clocked_call.
    + intros s. unfold store_call. eapply (triple_scoped dp _ _ _ (MarkTransferStarted _ _ _)).
      * intros r. exists b. eapply persisted_for_here. by apply (stays (P := persisted_for dp claim id b)).
      * intros r. eexists. split; [done|]. split; [quiet_calls|].
        destruct r as [[row|]|]; try done. split; [eexists _, _, row; apply told_last|].
        intros G. apply after_last; [by apply stays, ready_claim|]. intros t. eapply unsigned_started; [apply told_last|done].
      * intros e _. exists (Err e). split; [done|]. split; [quiet_calls|done].
    + intros e. exists (Err e). split; [done|]. split; [quiet_calls|done].
  - intros h' a (a' & [= <-] & Hq & Ha). apply triple_ret.
    destruct a as [[row|]|e]; eexists _, _; (split; [done|]); (split; [done|]); (split; [|done || idtac]).
    + intros r [= <-]. apply Ha.
    + intros _. split; [apply Ha|by eexists].
    + intros r Er. exact (stays_quietly _ _ _ Hst Hq r Er).
    + intros r Er. exact (stays_quietly _ _ _ Hst Hq r Er).
  - by intros h' e (a & ? & _).
Qed.

Lemma hasStarted_triple h st :
  ready h -> store_ok h st -> triple h (hasStarted target st) (stored h (fun _ _ _ => True)).
Proof.
  intros Hl Hst. unfold hasStarted.
  eapply triple_bind with (Q1 := fun h' r => exists a, r = Ok a /\ quietly h h' /\ match a with
    | Ok (Some row) => given (xf_signature row) = None -> after_event (claim_event claim) (unsigned_row id) h'
    | _ => True end).
  - apply triple_settled. unfold store_call. eapply (triple_scoped dp _ _ _ (GetTransfer _ _)).
    + done.
    + intros r. eexists. split; [done|]. split; [quiet_calls|].
      destruct r as [[row|]|]; try done. intros G. apply after_last; [by apply ready_claim|].
      intros t. eapply unsigned_read; [apply told_last|done].
    + intros e _. exists (Err e). split; [done|]. split; [apply quietly_refl|done].
  - intros h' a (a' & [= <-] & Hq & Ha). apply triple_ret.
    destruct a as [[row|]|e]; eexists _, _; (split; [done|]); (split; [done|]); (split; [|done]).
    + intros r [= <-]. exact Ha.
    + intros r Er. exact (stays_quietly _ _ _ Hst Hq r Er).
    + exact (stays_quietly _ _ _ Hst Hq).
  - by intros h' e (a & ? & _).
Qed.

(** ** Programs of the fee payment over the store *)

Variable scope : SponsorshipScope.

Abbreviation over := (with_store target scope).

(** From a history and a state of the store. *)
Definition store_triple {A} (h : pay_history) (m : service_prog A) (st : StoreState)
    (Q : pay_history -> result A -> StoreState -> Prop) : Prop :=
  triple h (over m st) (fun h' r => exists a st', r = Ok (a, st') /\ Q h' a st').

Lemma store_mono {A} h (m : service_prog A) st (Q1 Q2 : pay_history -> result A -> StoreState -> Prop) :
  (forall h' a st', Q1 h' a st' -> Q2 h' a st') -> store_triple h m st Q1 -> store_triple h m st Q2.
Proof.
  intros H. apply triple_mono. intros h' r (a & st' & E & Q). exists a, st'. split; [done|by apply H].
Qed.

(** The step a call of the fee payment is. *)
Definition store_do (c : service_call) (st : StoreState) : pay_prog (result (service_response c) * StoreState) :=
  match c as c return pay_prog (result (service_response c) * StoreState) with
  | PersistSigned submission => persistSigned target submission st
  | MarkStarted => markStarted target st
  | HasStarted => hasStarted target st
  | c => Call (R := pay_answer) (Sponsorship scope c) (fun r => Ret (r, st))
  end.

Lemma over_call {A} c (k : result (service_response c) -> service_prog A) st h Q :
  triple h (let! (r, st) := store_do c st in over (k r) st) Q <-> triple h (over (Call c k) st) Q.
Proof. by destruct c. Qed.

Lemma store_bind {A B} h (m : service_prog A) (f : A -> service_prog B) st Q1 Q2 :
  store_triple h m st Q1 ->
  (forall h' a st', Q1 h' (Ok a) st' -> store_triple h' (f a) st' Q2) ->
  (forall h' e st', Q1 h' (Err e) st' -> Q2 h' (Err e) st') ->
  store_triple h (bind m f) st Q2.
Proof.
  intros H Hf He. unfold store_triple in *. revert h st H. induction m as [a|e|c k IH]; intros h st H.
  - destruct H as (a' & st' & [= <- <-] & H). by apply Hf.
  - destruct H as (a' & st' & [= <- <-] & H). eexists _, _. split; [done|]. by apply He.
  - cbn [bind]. apply over_call. apply over_call, triple_bind_inv in H.
    eapply triple_bind; [exact H| |].
    + intros h' [r st'] Hk. by apply IH.
    + intros h' e (a & st' & ? & _). done.
Qed.

Lemma store_catch {A} h (m : service_prog A) (g : jserr -> service_prog A) st Q1 Q2 :
  store_triple h m st Q1 ->
  (forall h' a st', Q1 h' (Ok a) st' -> Q2 h' (Ok a) st') ->
  (forall h' e st', Q1 h' (Err e) st' -> store_triple h' (g e) st' Q2) ->
  store_triple h (catch m g) st Q2.
Proof.
  intros H Hf He. unfold store_triple in *. revert h st H. induction m as [a|e|c k IH]; intros h st H.
  - destruct H as (a' & st' & [= <- <-] & H). eexists _, _. split; [done|]. by apply Hf.
  - destruct H as (a' & st' & [= <- <-] & H). by apply He.
  - cbn [catch]. apply over_call. apply over_call, triple_bind_inv in H.
    eapply triple_bind; [exact H| |].
    + intros h' [r st'] Hk. by apply IH.
    + intros h' e (a & st' & ? & _). done.
Qed.

Lemma store_throw {A} h e st (Q : pay_history -> result A -> StoreState -> Prop) :
  Q h (Err e) st -> store_triple h (Throw e) st Q.
Proof. intros H. by eexists _, _. Qed.

Lemma store_ret {A} h a st (Q : pay_history -> result A -> StoreState -> Prop) :
  Q h (Ok a) st -> store_triple h (Ret a) st Q.
Proof. intros H. by eexists _, _. Qed.

(** The calls that leave the store. *)
Lemma storeless_triple {A} h (m : service_prog A) st Q :
  calls_within storeless m ->
  (forall h' a, quietly h h' -> Q h' a st) -> store_triple h m st Q.
Proof.
  unfold store_triple. revert h Q. induction m as [a|e|c k IH]; intros h Q Hm HQ.
  - eexists _, _. split; [done|]. apply HQ, quietly_refl.
  - eexists _, _. split; [done|]. apply HQ, quietly_refl.
  - assert (storeless c /\ forall r, calls_within storeless (k r)) as [Hc Hk].
    { split.
      - destruct (some_run _ _ (Hm (Err (PlainError "")))) as (tr & res & Ht). by inversion Ht.
      - intros r. eapply all_runs_mono; [|exact (Hm r)]. intros tr res Ht. by inversion Ht. }
    apply over_call. destruct c; try done; intros r; (split; [done|]); apply IH; try done; intros h' a Hq; apply HQ;
      (eapply quietly_trans; [|exact Hq]; quiet_calls).
Qed.

Lemma store_ask h c st Q :
  triple h (store_do c st) (fun h' r => exists a st', r = Ok (a, st') /\ Q h' a st') ->
  store_triple h (BudgetService.ask c) st Q.
Proof.
  intros H. unfold store_triple. apply over_call. eapply triple_bind; [exact H| |].
  - intros h' [r st'] Hr. by destruct r.
  - intros h' e (a & st' & ? & _). done.
Qed.

(** Since [h], and with a store that was given its row. *)
Definition after {A} (h : pay_history) (h' : pay_history) (_ : result A) (st : StoreState) : Prop :=
  quietly h h' /\ store_ok h' st.

Lemma storeless_after {A} h0 h (m : service_prog A) st :
  calls_within storeless m -> quietly h0 h -> store_ok h st -> store_triple h m st (after h0).
Proof.
  intros Hm Hq Hst. apply storeless_triple; [done|]. intros h' a Hq'.
  split; [by eapply quietly_trans|exact (stays_quietly _ _ _ Hst Hq')].
Qed.

Section Budgeted.
Variable hasConfiguration : bool.
Abbreviation kit := (dp_kit dp).
Abbreviation network := (dp_solana_network dp).

(** What a signed submission is known to be. *)
Definition kept (h : pay_history) (s : OwnedSignedSubmission) (st : StoreState) : Prop :=
  persisted_whole claim id (submission_transaction s) (submission_signature s) h /\ is_Some (store_row st).

Lemma kept_quietly h h' s st : kept h s st -> quietly h h' -> kept h' s st.
Proof. intros [H1 H2] Hq. split; [exact (stays_quietly _ _ _ H1 Hq)|done]. Qed.

Lemma signed_submission bytes s :
  getFullySignedSubmission kit bytes = Ok s ->
  submission_transaction s = bytes
  /\ getFullySignedSubmission kit bytes = Ok (mkSubmission bytes (submission_signature s)).
Proof.
  intros E. rewrite E. unfold getFullySignedSubmission in E.
  destruct (messageBytes kit bytes); [|done]. cbn in E. destruct (negb _); [done|].
  destruct (signatureOf kit bytes); [|done]. cbn in E. by injection E as <-.
Qed.

Lemma signOwned_triple h0 h tx r st :
  ready h -> built_for claim tx h -> quietly h0 h -> store_ok h st ->
  store_triple h (signOwned kit network scope tx r) st (fun h' a st' => after h0 h' a st'
    /\ forall s, a = Ok s -> kept h' s st').
Proof.
  intros Hl Hbuilt Hq Hst. unfold signOwned.
  eapply store_bind with (Q1 := fun h' a st' => after h h' a st' /\ st' = st
    /\ match a with Ok b => told (Sponsorship scope (ProviderSignAsFeePayer tx)) b h' | _ => True end).
  { apply (store_ask _ (ProviderSignAsFeePayer tx)). intros a. split; [done|]. eexists _, _. split; [done|].
    assert (quietly h (h ++ [pay_ev (Sponsorship scope (ProviderSignAsFeePayer tx)) a])) by quiet_calls.
    split; [split; [done|exact (stays_quietly _ _ _ Hst ltac:(eassumption))]|]. split; [done|].
    destruct a; [apply told_last|done]. }
  2:{ intros h' e st' [[Hq' Hs] [-> _]]. split; [split; [by eapply quietly_trans|done]|done]. }
  intros h1 bytes st1 [[Hq1 Hs1] [-> Hb]].
  destruct (getFullySignedSubmission kit bytes) as [s|e] eqn:Es; cbn [lift of_result bind];
    [|apply store_throw; split; [split; [by eapply quietly_trans|done]|done]].
  destruct (signed_submission _ _ Es) as [Et Es'].
  assert (signed_for dp claim (submission_transaction s) (submission_signature s) h1) as Hf.
  { rewrite Et. exists scope, tx. split; [done|]. split; [done|exact (stays_quietly _ _ _ Hbuilt Hq1)]. }
  eapply store_bind with (Q1 := fun h' a st' => quietly h1 h' /\ st' = st).
  { apply storeless_triple; [by apply within_call|done]. }
  2:{ intros h' e st' [Hq' ->]. split; [|done].
      split; [|exact (stays_quietly _ _ _ Hs1 Hq')]. eapply quietly_trans; [exact Hq|]. by eapply quietly_trans. }
  intros h2 answer st2 [Hq2 ->].
  assert (quietly h0 h2) as Hq02 by (eapply quietly_trans; [exact Hq|]; by eapply quietly_trans).
  assert (store_ok h2 st) as Hs2 by exact (stays_quietly _ _ _ Hs1 Hq2).
  destruct (negb _); [apply store_throw; split; [by split|done]|].
  assert (ready h2) as Hl2.
  { eapply ready_quietly; [exact Hl|]. by eapply quietly_trans. }
  eapply store_bind with (Q1 := fun h' a st' => after h0 h' a st' /\ (a = Ok tt -> kept h' s st')).
  { apply (store_ask _ (PersistSigned s)). eapply triple_mono; [|apply (persistSigned_triple h2 s st);
      [done|exact (stays_quietly _ _ _ Hf Hq2)|done]].
    intros h' a (a' & st' & -> & Hq' & Hs' & Hk). eexists _, _. split; [done|].
    split; [split; [by eapply quietly_trans|done]|]. intros E. destruct (Hk E) as [Hp Hr].
    split; [split; [done|by rewrite Et]|done]. }
  2:{ intros h' e st' [Ha _]. by split. }
  intros h3 [] st3 [[Hq3 Hs3] Hk]. specialize (Hk eq_refl).
  eapply store_bind with (Q1 := fun h' a st' => after h0 h' a st' /\ kept h' s st').
  { apply storeless_triple; [apply resolve_storeless|]. intros h' a Hq'. split.
    - split; [by eapply quietly_trans|exact (stays_quietly _ _ _ Hs3 Hq')].
    - by eapply kept_quietly. }
  2:{ intros h' e st' [Ha _]. by split. }
  intros h4 ps st4 [Ha Hk4]. destruct (existsb _ _); [apply store_throw; by split|].
  apply store_ret. split; [done|]. by intros s' [= <-].
Qed.

Lemma startFailed_triple {A} h0 h r e st :
  ready h -> quietly h0 h -> store_ok h st ->
  store_triple h (startFailed (A := A) network r e) st (fun h' a st' => after h0 h' a st' /\ exists e', a = Err e').
Proof.
  intros Hl Hq Hst. unfold startFailed.
  eapply store_bind with (Q1 := after h0); [|intros h1 started st1 [Hq1 Hs1]|intros h' e' st' Ha; split; [exact Ha|by eexists]].
  - eapply store_catch with (Q1 := after h0); [|by intros h' a st' Ha|intros h' e' st' Ha; by apply store_throw].
    apply (store_ask _ HasStarted). eapply triple_mono; [|by apply (hasStarted_triple h st)].
    intros h' a (a' & st' & -> & Hq' & Hs' & _). eexists _, _. split; [done|]. split; [by eapply quietly_trans|done].
  - eapply store_bind with (Q1 := after h0); [|intros h' [] st' Ha; apply store_throw; split; [exact Ha|by eexists]
                                             |intros h' e' st' Ha; split; [exact Ha|by eexists]].
    apply storeless_after; [|done..]. destruct (negb started); [apply deterministic_storeless|apply within_ret].
Qed.

Lemma prepareOwnedSubmission_triple h tx st :
  ready h -> built_for claim tx h -> store_ok h st ->
  store_triple h (prepareOwnedSubmission kit network scope hasConfiguration tx) st (fun h' a st' =>
    after h h' a st' /\ forall p, a = Ok p ->
      ours h' (submission_transaction (prepared p)) (submission_signature (prepared p)) /\ is_Some (submittedRow st')).
Proof.
  intros Hl Hbuilt Hst. unfold prepareOwnedSubmission.
  eapply store_bind with (Q1 := fun h' a st' => quietly h h' /\ st' = st).
  { apply storeless_triple; [apply admitted_storeless|done]. }
  2:{ intros h' e st' [Hq ->]. split; [|done]. split; [done|exact (stays_quietly _ _ _ Hst Hq)]. }
  intros h1 r st1 [Hq1 ->].
  assert (store_ok h1 st) as Hs1 by exact (stays_quietly _ _ _ Hst Hq1).
  assert (ready h1) as Hl1 by (by eapply ready_quietly).
  destruct (result_replay r); [apply store_throw; split; [by split|done]|].
  eapply store_bind with (Q1 := fun h' a st' => after h h' a st' /\ forall s, a = Ok s -> kept h' s st').
  { eapply store_catch; [apply (signOwned_triple h); [done|exact (stays_quietly _ _ _ Hbuilt Hq1)|done|done]|done|].
    intros h' e st' [[Hq' Hs'] _].
    eapply store_bind with (Q1 := after h); [apply storeless_after; [apply deterministic_storeless|done..]| |done].
    intros h2 [] st2 Ha. apply store_throw. by split. }
  2:{ intros h' e st' [Ha _]. by split. }
  intros h2 s st2 [[Hq2 Hs2] Hk]. specialize (Hk s eq_refl). destruct Hk as [Hp Hrow].
  eapply store_bind with (Q1 := fun h' a st' => after h h' a st' /\ (a = Ok tt ->
      ours h' (submission_transaction s) (submission_signature s) /\ is_Some (submittedRow st'))).
  { eapply store_catch with (Q1 := fun h' a st' => after h h' a st' /\ (a = Ok tt ->
      ours h' (submission_transaction s) (submission_signature s) /\ is_Some (submittedRow st'))); [|done|].
    - apply (store_ask _ MarkStarted). eapply triple_mono; [|eapply (markStarted_triple h2); [exact (ready_quietly _ _ Hl Hq2)|exact (proj1 Hp)|done]].
      intros h' a (a' & st' & -> & Hq' & Hs' & Ha). eexists _, _. split; [done|].
      split; [split; [by eapply quietly_trans|done]|]. intros E. destruct (Ha E) as [Hb Hr]. split; [|done].
      destruct (ready_quietly _ _ Hl (quietly_trans _ _ _ Hq2 Hq')) as [Hl' Hu].
      assert (persisted_whole claim id (submission_transaction s) (submission_signature s) h') as Hp' by keep Hq'.
      split; [|exact Hp']. destruct Hp' as [Hp' _].
      exists claim, id. split; [|done]. split; [done|]. split; [by eapply persisted_for_here|done].
    - intros h' e st' [[Hq' Hs'] _]. eapply store_mono; [|apply (startFailed_triple h); [exact (ready_quietly _ _ Hl Hq')|done..]].
      intros h3 a st3 [Ha [e' ->]]. by split. }
  2:{ intros h' e st' [Ha _]. by split. }
  intros h3 [] st3 [[Hq3 Hs3] Hb]. destruct (Hb eq_refl) as [Hb3 Hr3]. clear Hb.
  eapply store_bind with (Q1 := fun h' a st' => quietly h3 h' /\ st' = st3).
  { apply storeless_triple; [apply accounted_storeless; by apply within_call|done]. }
  2:{ intros h' e st' [Hq ->]. split; [|done]. split; [by eapply quietly_trans|exact (stays_quietly _ _ _ Hs3 Hq)]. }
  intros h4 answer st4 [Hq4 ->].
  eapply store_bind with (Q1 := fun h' a st' => quietly h3 h' /\ st' = st3).
  { apply storeless_triple; [destruct (negb _); [apply advanced_storeless|apply within_ret]|].
    intros h' a Hq'. split; [by eapply quietly_trans|done]. }
  2:{ intros h' e st' [Hq ->]. split; [|done]. split; [by eapply quietly_trans|exact (stays_quietly _ _ _ Hs3 Hq)]. }
  intros h5 advanced st5 [Hq5 ->].
  assert (after (A := PreparedOwnedSubmission) h h5 (Err (PlainError "")) st3) as [Hq05 Hs5].
  { split; [by eapply quietly_trans|exact (stays_quietly _ _ _ Hs3 Hq5)]. }
  destruct advanced.
  - apply store_ret. split; [by split|]. intros p [= <-]. split; [exact (ours_carefully _ _ _ _ Hb3 (quietly_carefully _ _ Hq5))|done].
  - unfold accountingUnavailable.
    eapply store_bind with (Q1 := after h); [|intros h' [] st' Ha; apply store_throw; by split|intros h' e st' Ha; by split].
    apply storeless_after; [unfold tripBreaker; fee_calls|done..].
Qed.
End Budgeted.

(** ** The submission *)

(** A prepared submission may be sent. *)
Definition prepared_well (h h' : pay_history) (a : result PreparedSubmission) (st : StoreState) : Prop :=
  after h h' a st /\ forall p, a = Ok p -> ours h' (sp_signedTransaction p) (sp_signature p) /\ is_Some (submittedRow st).

Lemma prepare_budgeted_triple h tx st :
  ready h -> built_for claim tx h -> store_ok h st ->
  triple h (prepare_budgeted dp target scope tx st) (fun h' r => exists a st', r = Ok (a, st') /\ prepared_well h h' a st').
Proof.
  intros Hl Hbuilt Hst. unfold prepare_budgeted. eapply triple_bind; [by apply prepareOwnedSubmission_triple| |].
  - intros h' x (a & st' & [= ->] & Ha & Hp). apply triple_ret. destruct a as [p|e]; eexists _, _; (split; [done|]).
    + split; [done|]. intros p' [= <-]. by apply Hp.
    + by split.
  - intros h' e (a & st' & ? & _). done.
Qed.

Lemma prepare_self_hosted_triple h tx st :
  ready h -> built_for claim tx h -> store_ok h st ->
  triple h (prepare_self_hosted dp target scope tx st) (fun h' r =>
    exists a st', r = Ok (a, st') /\ prepared_well h h' a st').
Proof.
  intros Hl Hbuilt Hst. unfold prepare_self_hosted.
  eapply triple_bind with (Q1 := fun h' r => exists a, r = Ok a /\ quietly h h' /\ forall s, a = Ok s ->
    signed_for dp claim (submission_transaction s) (submission_signature s) h'
    /\ getFullySignedSubmission (dp_kit dp) (submission_transaction s)
       = Ok (mkSubmission (submission_transaction s) (submission_signature s))); [| |by intros h' e (a & ? & _)].
  { apply triple_settled. eapply (triple_bind_call (backed dp) _ (Sponsorship _ (ProviderSignAsFeePayer _))); [done| |].
    - intros bytes. apply triple_of_result. eexists. split; [done|]. split; [quiet_calls|]. intros s Es.
      destruct (signed_submission _ _ Es) as [-> Es']. split; [|exact Es']. exists scope, tx. split; [apply told_last|]. split; [done|].
      by apply (stays (P := built_for claim tx)).
    - intros e. eexists. split; [done|]. split; [quiet_calls|done]. }
  intros h1 a (a' & [= <-] & Hq1 & Hs). assert (store_ok h1 st) as Hs1 by exact (stays_quietly _ _ _ Hst Hq1).
  assert (ready h1) as Hl1 by (by eapply ready_quietly).
  destruct a as [s|e]; [|eexists _, _; split; [done|]; split; [by split|done]]. destruct (Hs s eq_refl) as [Hsigned Hwhole].
  eapply triple_bind; [by apply persistSigned_triple| |by intros h' e (a & st' & ? & _)].
  intros h2 x (a & st2 & [= ->] & Hq2 & Hs2 & Hk). assert (quietly h h2) as Hq by (by eapply quietly_trans).
  destruct a as [[]|e]; [|eexists _, _; split; [done|]; split; [by split|done]]. destruct (Hk eq_refl) as [Hp _].
  eapply triple_bind; [eapply markStarted_triple; [exact (ready_quietly _ _ Hl Hq)|exact Hp|done]| |by intros h' e (a & st' & ? & _)].
  intros h3 x (a & st3 & [= ->] & Hq3 & Hs3 & Hk3). assert (quietly h h3) by (by eapply quietly_trans).
  apply triple_ret. destruct a as [[]|e]; eexists _, _; (split; [done|]); (split; [by split|]); [|done].
  intros p [= <-]. destruct (Hk3 eq_refl) as [Ht Hr]. split; [|done].
  destruct (ready_quietly h h3 Hl) as [Hl' Hu]; [done|].
  assert (persisted_for dp claim id (submission_transaction s) h3) as Hp3 by keep Hq3.
  split; [|split; [exact Hp3|exact Hwhole]]. exists claim, id. split; [|done]. split; [done|]. split; [by eapply persisted_for_here|done].
Qed.

Lemma prepareOwned_triple h tx st :
  ready h -> built_for claim tx h -> store_ok h st ->
  triple h (prepareOwned dp target scope tx st) (fun h' r => exists a st', r = Ok (a, st') /\ prepared_well h h' a st').
Proof.
  intros Hl Hbuilt Hst. unfold prepareOwned.
  destruct (dp_self_hosted dp); [by apply prepare_self_hosted_triple|by apply prepare_budgeted_triple].
Qed.

Lemma honest_last c e s h : honest dp s e (h ++ [pay_ev c (Err e)]).
Proof. intros D%definite_error. eapply definite_answer; [|exact D]. apply elem_of_app. right. by left. Qed.

Abbreviation since := (honest_since claim).

Lemma honest_since_last c e s h : after_event (claim_event claim) (fun _ => True) h -> since s (h ++ [pay_ev c (Err e)]) e.
Proof. intros H. apply after_last; [done|]. intros t. apply honest_last. Qed.

Lemma honest_since_false s h e :
  after_event (claim_event claim) (fun _ => True) h -> isDefiniteSubmissionError e = false -> since s h e.
Proof. intros (b & a & -> & _) E. exists b, a. split; [done|]. intros D. congruence. Qed.

Lemma release_unbroadcast_triple h p e st :
  triple h (release_unbroadcast dp target scope p e st) (fun h' r => r = Ok tt /\ quietly h h').
Proof.
  unfold release_unbroadcast. destruct (sp_release p) as [owned|]; [|by split; [|apply quietly_refl]].
  eapply triple_bind with (Q1 := fun h' r => (exists x, r = Ok x) /\ quietly h h'); [| |by intros h' e' [[? ?] _]].
  - eapply triple_mono; [|apply (storeless_triple h (releaseDefinitelyUnbroadcast _ owned e) st (fun h' _ _ => quietly h h'));
      [apply deterministic_storeless|done]].
    intros h' r (a & st' & -> & Hq). split; [by eexists|done].
  - intros h' x [_ Hq]. by apply triple_ret.
Qed.

Lemma preflight_mapped e pe : mapPreflightError e = Some pe -> is_Some (preflight_failure e).
Proof. unfold mapPreflightError. destruct (preflight_failure e); [by eexists|done]. Qed.

Lemma send_once_triple h p st saw :
  ready h -> ours h (sp_signedTransaction p) (sp_signature p) ->
  triple h (send_once dp target scope p st saw) (fun h' r => exists a saw', r = Ok (a, saw')
    /\ carefully h h' /\ forall e, a = Err e -> since (sp_signature p) h' e).
Proof.
  intros Hl%ready_claim [Hb [_ Hwhole]]. unfold send_once.
  eapply triple_bind with (Q1 := fun h' r => exists a, r = Ok a /\ h' = h ++ [pay_ev (SendTransaction (sp_signedTransaction p)) a]);
    [| |by intros h' e (a & ? & _)].
  { apply triple_settled, (triple_call _ _ (SendTransaction _)); [done|]. intros r. by eexists. }
  intros h1 a (a' & [= <-] & ->). set (h1 := h ++ _). assert (carefully h h1) as Hc by (apply carefully_one; intros []).
  destruct a as [s|e]; [by eexists _, _|].
  destruct (if saw then None else mapPreflightError e) as [pe|] eqn:Ep.
  - eapply triple_bind; [apply release_unbroadcast_triple| |by intros h' e' [? _]].
    intros h' [] [_ Hq]. apply triple_ret. eexists _, _. split; [done|].
    split; [eapply carefully_trans; [exact Hc|by apply quietly_carefully]|]. intros e' [= <-].
    refine (stays_quietly _ h1 _ _ Hq). apply after_last; [done|]. intros t _. destruct saw; [done|].
    eapply definite_preflight; [apply elem_of_app; right; by left|by eapply preflight_mapped|exact Hwhole].
  - destruct (saw && _); apply triple_ret; eexists _, _; (split; [done|]); (split; [exact Hc|]); intros e' [= <-].
    + apply honest_since_false; [by apply stays|done].
    + by apply honest_since_last.
Qed.

Lemma ready_carefully h h' : ready h -> carefully h h' -> ready h'.
Proof. intros [H1 H2] Hc. pose proof (carefully_prefix _ _ Hc) as Hp. split; [keep Hp|by eapply unsettled_carefully]. Qed.

Lemma retry_triple h p st delays saw started :
  ready h -> ours h (sp_signedTransaction p) (sp_signature p) ->
  triple h (retry_from transient_code (ask NowMs) (send_once dp target scope p st) started delays saw)
    (fun h' r => carefully h h' /\ forall e, r = Err e -> since (sp_signature p) h' e).
Proof.
  revert h saw. induction delays as [|d delays IH]; intros h saw Hl Hb; cbn [retry_from].
  all: eapply triple_bind; [by apply send_once_triple| |by intros h' e (a & s & ? & _)].
  all: intros h1 x (a & saw' & [= ->] & Hc & He); destruct a as [v|e]; [by split|]; specialize (He e eq_refl).
  - split; [done|]. by intros e' [= <-].
  - destruct (negb _); [split; [done|]; by intros e' [= <-]|].
    assert (ready h1) as Hl1 by (by eapply ready_carefully).
    assert (forall r, carefully h (h1 ++ [pay_ev NowMs r])) as Hclock.
    { intros r. eapply carefully_trans; [exact Hc|]. apply carefully_one. intros []. }
    eapply (triple_bind_call (backed dp) _ NowMs); [done| |].
    + intros now. destruct (_ <=? _).
      * split; [apply Hclock|]. intros e' [= <-]. by apply stays.
      * eapply triple_mono; [|apply IH; [exact (ready_carefully _ _ Hl (Hclock _))|exact (ours_carefully _ _ _ _ Hb (Hclock _))]].
        intros h' r [Hc' He']. split; [exact (carefully_trans _ _ _ (Hclock _) Hc')|done].
    + intros e'. split; [apply Hclock|]. intros e2 [= <-]. apply honest_since_last. by apply ready_claim.
Qed.

Lemma submit_triple h tx st :
  ready h -> built_for claim tx h -> store_ok h st ->
  triple h (submitSignedPaymentTransaction dp target scope tx st) (fun h' r =>
    exists a st', r = Ok (a, st') /\ submitted claim id h h' a st').
Proof.
  intros Hl Hbuilt Hst. unfold submitSignedPaymentTransaction.
  eapply triple_bind; [by apply prepareOwned_triple| |by intros h' e (a & st' & ? & _)].
  intros h1 x (a & st1 & [= ->] & [Hq Hs] & Hp). destruct a as [p|e].
  2:{ apply triple_ret. eexists _, _. split; [done|]. split; [by apply quietly_prefix|]. split; [done|]. left. by eauto. }
  destruct (Hp p eq_refl) as [Hb Hr]. assert (ready h1) as Hl1 by (by eapply ready_quietly).
  assert (forall r, carefully h1 (h1 ++ [pay_ev NowMs r])) as Hclock by (intros r; apply carefully_one; intros []).
  eapply triple_after_settled with (Q1 := fun h' r => carefully h1 h' /\ forall e, r = Err e -> since (sp_signature p) h' e).
  - unfold withTransientRpcRetry. eapply (triple_bind_call (backed dp) _ NowMs); [done| |].
    + intros started. eapply triple_mono; [|apply retry_triple; [exact (ready_carefully _ _ Hl1 (Hclock _))|exact (ours_carefully _ _ _ _ Hb (Hclock _))]].
      intros h' r [Hc He]. split; [exact (carefully_trans _ _ _ (Hclock _) Hc)|done].
    + intros e. split; [apply Hclock|]. intros e' [= <-]. apply honest_since_last. by apply ready_claim.
  - intros h2 a [Hc He]. apply triple_ret. pose proof (carefully_prefix _ _ Hc) as Hpre.
    assert (h `prefix_of` h2) by (etrans; [by apply quietly_prefix|done]).
    assert (store_ok h2 st1) by keep Hpre.
    assert (own_signature dp claim id (sp_signature p) h2) as Hown.
    { exists (sp_signedTransaction p). exact (stays_prefix (persisted_whole claim id _ _) _ _ (proj2 Hb) Hpre). }
    destruct a as [s|e]; [destruct (negb _)|]; eexists _, _; (split; [done|]); (do 2 (split; [done|])); right; (split; [done|]);
      exists (sp_signature p); (split; [done|]); (split; [by intros v [= <-]|]).
    + intros e [= <-]. apply honest_since_false; [|done]. eapply stays_prefix; [apply _|by apply (ready_claim h)|done].
    + done.
    + exact He.
Qed.

(** The paymaster's own send, without a store. *)
Lemma paymaster_triple h tx st :
  triple h (with_store target scope
    (signAndSend (dp_kit dp) (dp_solana_network dp) scope (dp_providerHasConfiguration dp) tx) st)
    (fun h' _ => quietly h h').
Proof.
  eapply triple_mono; [|apply (storeless_triple h _ st (fun h' _ _ => quietly h h')); [apply signAndSend_storeless|done]].
  by intros h' r (a & st' & _ & Hq).
Qed.
End Store.

(** ** Instructions *)

Lemma plain_ask c : plain_call c -> calls_within plain_call (PaymentCalls.ask c).
Proof. apply (within_call (R := pay_answer)). Qed.

Lemma fee_payment_plain tenant walletId : calls_within plain_call (createProjectSponsorshipFeePayment tenant walletId).
Proof. unfold createProjectSponsorshipFeePayment. pay_calls. Qed.

Lemma signed_message_plain i : calls_within plain_call (signed_message i).
Proof.
  unfold signed_message. apply within_bind; [pay_calls|]. intros signer. destruct (negb _); [pay_calls|].
  apply within_bind; [by apply (plain_ask RecentBlockhash)|]. intros [blockhash height].
  apply within_bind; [apply fee_payment_plain|]. intros scope. pay_calls.
Qed.

(** The message of a claim's instructions is signed by its wallet. *)
Lemma signed_message_triple claim h i :
  after_event (claim_event claim) (collection_allowed claim) h ->
  planned_for claim (si_instructions i) h -> cw_publicKey (si_sourceWallet i) = cw_publicKey (cc_sourceWallet (cm_input claim)) ->
  triple h (signed_message i) (fun h' r => quietly h h' /\ forall x, r = Ok x -> built_for claim x.2 h').
Proof.
  intros Ha Hp Hw. unfold signed_message, SignedSubmission.ask.
  eapply triple_bind; [apply quiet_any; pay_calls| |by intros h' e Hq]. intros h1 signer Hq1.
  destruct (String.eqb_spec signer (cw_publicKey (si_sourceWallet i))) as [->|]; cbn [negb]; [|by split].
  apply (triple_ask dp _ RecentBlockhash); [done| |intros e; split; [eapply quietly_trans; [exact Hq1|quiet_calls]|done]].
  intros [blockhash height]. set (h2 := h1 ++ _). assert (quietly h h2) as Hq2 by (eapply quietly_trans; [exact Hq1|unfold h2; quiet_calls]).
  eapply triple_bind; [apply quiet_any, fee_payment_plain| |intros h' e Hq; split; [by eapply quietly_trans|done]].
  intros h3 scope Hq3. eapply triple_bind; [apply quiet_any; pay_calls| |intros h' e Hq; split; [|done]; eapply quietly_trans; [|exact Hq]; by eapply quietly_trans].
  intros h4 feePayer Hq4. assert (quietly h h4) as Hq by (eapply quietly_trans; [|exact Hq4]; by eapply quietly_trans).
  apply (triple_ask dp _ (PartiallySign _)); [done| |intros e; split; [eapply quietly_trans; [exact Hq|quiet_calls]|done]].
  intros txBytes. apply triple_ret. split; [eapply quietly_trans; [exact Hq|quiet_calls]|]. intros x [= <-].
  split; [apply (stays (P := after_event _ (collection_allowed claim))); exact (stays_quietly _ _ _ Ha Hq)|].
  eexists. split; [apply told_last|]. split; [|exact Hw]. apply (stays (P := planned_for claim _)).
  exact (stays_quietly _ _ _ Hp Hq).
Qed.

Lemma send_with_store_triple claim h i transferId :
  after_event (claim_event claim) (collection_allowed claim) h ->
  planned_for claim (si_instructions i) h -> cw_publicKey (si_sourceWallet i) = cw_publicKey (cc_sourceWallet (cm_input claim)) ->
  linked_by claim transferId h -> after_event (claim_event claim) (never is_settle) h ->
  triple h (send_with_store dp i transferId fresh_store) (fun h' r =>
    exists a st', r = Ok (a, st') /\ submitted claim transferId h h' a st').
Proof.
  intros Ha Hpl Hw Hl Hu. unfold send_with_store.
  eapply triple_after_settled; [by apply (signed_message_triple claim)|]. intros h1 r [Hq Hbuilt].
  destruct r as [[[scope message] tx]|e].
  - set (target := mkTarget (si_tenant i) transferId (msg_lastValidBlockHeight message)).
    assert (ready target claim h1) as Hr.
    { split; [exact (stays_quietly (linked_by claim transferId) _ _ Hl Hq)|by eapply unsettled_quietly]. }
    eapply triple_mono; [|exact (submit_triple target claim scope h1 tx fresh_store Hr (Hbuilt _ eq_refl) (fun row E => ltac:(done)))].
    intros h' r (a & st' & -> & Hp & Hs' & Hc). eexists _, _. split; [done|]. split; [|split; [done|]].
    + etrans; [by apply quietly_prefix|done].
    + destruct Hc as [[Hq' He]|Hc]; [left|by right]. split; [exact (quietly_trans _ _ _ Hq Hq')|done].
  - apply triple_ret. eexists _, _. split; [done|]. split; [by apply quietly_prefix|]. split; [by intros row|]. left. by eauto.
Qed.

Lemma send_sponsored_triple h i : triple h (send_sponsored dp i) (fun h' _ => quietly h h').
Proof.
  unfold send_sponsored. eapply triple_bind; [apply quiet_any, signed_message_plain| |done].
  intros h1 [[scope message] tx] Hq. destruct (dp_self_hosted dp).
  - eapply triple_mono; [|apply quiet_any; by apply (plain_ask (Sponsorship scope (ProviderSignAndSend tx)))].
    intros h' r Hq'. by eapply quietly_trans.
  - eapply triple_bind; [apply paymaster_triple| |intros h' e Hq'; by eapply quietly_trans].
    intros h2 [answer st'] Hq2. apply triple_of_result. by eapply quietly_trans.
Qed.

(** ** Errors that say why *)

Section Errors.
Variable s : string.

(** An error of the program that says a submission failed was given to it. *)
Definition truthful {A} (m : pay_prog A) : Prop := all_runs m (fun tr r => forall e, r = Err e -> honest dp s e tr).

Lemma truthful_ret {A} (a : A) : truthful (Ret a).
Proof. by intros e. Qed.

Lemma truthful_throw {A} e : isDefiniteSubmissionError e = false -> truthful (Throw (A := A) e).
Proof. intros H e' [= <-] D. congruence. Qed.

Lemma truthful_of_result {A} (r : result A) :
  (forall e, r = Err e -> isDefiniteSubmissionError e = false) -> truthful (of_result r).
Proof. destruct r; [intros _; apply truthful_ret|]. intros H. by apply truthful_throw, H. Qed.

Lemma truthful_call c : truthful (call (R := pay_answer) c).
Proof. intros [a|e] e'; [done|]. intros [= <-] D. apply definite_error in D. eapply (definite_answer _ _ _ c); [by left|done]. Qed.

Lemma truthful_bind {A B} (m : pay_prog A) (f : A -> pay_prog B) :
  truthful m -> (forall a, truthful (f a)) -> truthful (bind m f).
Proof.
  intros Hm Hf. unfold truthful. rewrite all_runs_bind. eapply all_runs_mono; [|exact Hm].
  intros tr [a|e] H; [|intros e' [= <-]; by apply H].
  eapply all_runs_mono; [|apply Hf]. intros tr' r H' e E. eapply (monotone (P := honest dp s e)); [|exact (H' e E)]. set_solver.
Qed.

Lemma scope_errors organization project e :
  createTenantScope organization project = Err e -> isDefiniteSubmissionError e = false.
Proof.
  unfold createTenantScope. destruct (String.eqb _ _); [by intros [= <-]|].
  destruct (_ && _); [by intros [= <-]|done].
Qed.

Lemma claim_errors scope organization project operation e :
  assertTenantClaim scope organization project operation = Err e -> isDefiniteSubmissionError e = false.
Proof.
  unfold assertTenantClaim. destruct (negb _); [by intros [= <-]|]. destruct (negb _); [by intros [= <-]|done].
Qed.

Lemma truthful_scoped tenant repository c : truthful (scoped tenant repository c).
Proof.
  unfold scoped. apply truthful_bind; [apply truthful_of_result; intros e; apply scope_errors|].
  intros sc. apply truthful_bind; [apply truthful_of_result; intros e; apply claim_errors|].
  intros _. apply truthful_call.
Qed.

Lemma truthful_address value field : truthful (valid_address value field).
Proof.
  apply truthful_of_result. unfold assertValidAddress. intros e. destruct (is_address value); [done|]. by intros [= <-].
Qed.

Lemma truthful_confirm message : truthful (confirmSubscriptionSignature s message).
Proof.
  intros [[|]|e] e'; cbn; [|done|].
  - intros [= <-] _. eapply definite_status. by left.
  - intros [= <-] D. apply definite_error in D. eapply (definite_answer _ _ _ (ConfirmTransaction s)); [by left|done].
Qed.

(** A plain program whose errors were given to it. *)
Lemma truthful_triple {A} h (m : pay_prog A) :
  calls_within plain_call m -> truthful m ->
  triple h m (fun h' r => quietly h h' /\ forall e, r = Err e -> from h (honest dp s e) h').
Proof.
  intros Hm Ht. apply plain_triple; [done|]. eapply all_runs_mono; [|exact Ht].
  intros tr r He Hp. split; [by apply quietly_plain|]. intros e E. exists tr. split; [done|by apply He].
Qed.
End Errors.
End Kit.
