(* ===== verification/TrackerSafety.v ===== *)
(** * Payments: what the tracker rests on

    The calls the tracker makes need nothing of a collection (RecurringEvidence.v), and
    a verdict it writes is one the chain gave for the signature of the row it listed, or
    the expiry of a transfer that was never sent. *)
From Stdlib Require Import Ascii String ZArith Lia.
From stdpp Require Import base list strings.
From S2P Require Import Prelude Text Dates TransientRpc PolicyTypes BudgetTypes BudgetService.
From S2P Require Import History PaymentTables RecurringTransactions PaymentCalls SignedSubmission RecurringCollection.
From S2P Require Import TransferTracker RecurringEvidence RecurringSubmission.

Local Open Scope string_scope.
Local Open Scope Z_scope.
Local Open Scope list_scope.
Local Open Scope sdp_scope.

Section Tracker.
Context {K : PaymentKit}.

(** ** The evidence of a verdict *)

(** A row the run was given among the transfers in flight. *)
Definition listed (r : PaymentTransferRow) (h : pay_history) : Prop :=
  exists i rows, told (ListTransfers i) rows h /\ r ∈ rows /\ lt_statuses i = [xs_processing].

(** A row it was given among the confirmed ones. *)
Definition listed_confirmed (r : PaymentTransferRow) (h : pay_history) : Prop :=
  exists after limit rows, told (ListConfirmed after limit) rows h /\ r ∈ rows.

(** The chain said this of the transaction with a signature. *)
Definition chain_said (signature : string) (s : SignatureStatus) (h : pay_history) : Prop :=
  exists archive signatures statuses n, told (SignatureStatuses signatures archive) statuses h
    /\ signatures !! n = Some signature /\ statuses !! n = Some (Some s).

(** The node's recent transactions have none with a signature. *)
Definition unseen (signature : string) (h : pay_history) : Prop :=
  exists signatures statuses n, told (SignatureStatuses signatures false) statuses h
    /\ signatures !! n = Some signature /\ (statuses !! n = Some None \/ statuses !! n = None).

(** What the chain makes of a transfer. *)
Inductive chain_status (s : SignatureStatus) : PaymentTransferStatus -> Prop :=
| chain_failed : sg_err s <> None -> chain_status s xs_failed
| chain_confirmed : sg_err s = None -> sg_confirmationStatus s = Some cs_confirmed -> chain_status s xs_confirmed
| chain_finalized : sg_err s = None -> sg_confirmationStatus s = Some cs_finalized -> chain_status s xs_finalized.

(** Why the transfer of a row is given a status, with a slot or without: it was listed among
    those without a signature, unchanged for five minutes; the chain said so of its
    signature; its signature is unseen, it has no signed transaction, of before the
    outbox, and is five minutes old; or its signature is unseen, its signed transaction
    was never started, and the chain is past its last valid height. *)
Inductive verdict_for (h : pay_history) (r : PaymentTransferRow) : PaymentTransferStatus -> option Z -> Prop :=
| verdict_timed_out i rows now cutoff :
    told (ListTransfers i) rows h -> r ∈ rows -> lt_statuses i = [xs_processing] -> lt_hasSignature i = Some false ->
    told NowMs now h -> toISOString (now - 5 * 60 * 1000) = Ok cutoff -> lt_updatedBefore i = Some cutoff ->
    verdict_for h r xs_failed None
| verdict_chain signature s st :
    listed r h -> xf_signature r = Some signature -> chain_said signature s h -> chain_status s st ->
    verdict_for h r st (Some (sg_slot s))
| verdict_legacy signature now updated :
    listed r h -> xf_signature r = Some signature -> unseen signature h ->
    (xf_signed_transaction r = None \/ xf_last_valid_block_height r = None) ->
    told NowMs now h -> Date_parse (xf_updated_at r) = Some updated -> 5 * 60 * 1000 < now - updated ->
    verdict_for h r xs_failed None
| verdict_unsent signature last height :
    listed r h -> xf_signature r = Some signature -> unseen signature h ->
    xf_signed_transaction r <> None -> xf_last_valid_block_height r = Some last -> xf_submission_started_at r = None ->
    told BlockHeight height h -> last < height ->
    verdict_for h r xs_failed None.

(** A finality is the chain's, of a transfer listed as confirmed. *)
Definition finality_backed (h : pay_history) (v : ConfirmedTransferPollVerdict) : Prop :=
  exists r, listed_confirmed r h /\ transfer_id r = vd_transferId v
    /\ xf_organization_id (xf_facts r) = vd_organizationId v
    /\ (vd_finalized v = true -> exists signature s,
          xf_signature r = Some signature /\ chain_said signature s h /\ sg_err s = None
          /\ sg_confirmationStatus s = Some cs_finalized /\ vd_slot v = Some (sg_slot s)).

(** Statuses are written over [processing] alone, and for a reason; nothing else of a
    transfer's outbox is written. *)
Definition tracked (h : pay_history) (e : pay_event) : Prop :=
  match ev_call e with
  | UpdateTransfer i =>
      ut_expectedStatus i = Some xs_processing /\ ut_signature i = None /\ ut_amount i = None
      /\ forall st, ut_status i = Some st -> exists r slot,
           transfer_id r = ut_transferId i /\ verdict_for h r st slot /\ ut_slot i = Some <$> slot
  | SettleTransferBatch id tenant st _ slot _ => exists r project,
      transfer_id r = id /\ xf_project_id (xf_facts r) = Some project
      /\ tenant = mkPayTenant (xf_organization_id (xf_facts r)) project /\ verdict_for h r st slot
  | AdvanceConfirmed polled _ => Forall (finality_backed h) polled
  | NowMs | ListTransfers _ | ListConfirmed _ _ | SignatureStatuses _ _ | BlockHeight => True
  | _ => False
  end.

(** * Lemmas *)

(** ** Its calls are plain *)

Lemma verdict_plain r status nowIso : calls_within plain_call (applyOnChainVerdict r status nowIso).
Proof. unfold applyOnChainVerdict, updateTerminalTransfer, TransferTracker.ask. pay_calls. Qed.

Lemma rotate_plain r nowIso : calls_within plain_call (rotate r nowIso).
Proof. unfold rotate, TransferTracker.ask. pay_calls. Qed.

Lemma settle_or_keep_plain r status nowIso : calls_within plain_call (settle_or_keep r status nowIso).
Proof.
  unfold settle_or_keep. apply within_bind; [apply verdict_plain|]. intros []; [apply within_ret|apply rotate_plain].
Qed.

Lemma retry_plain {A} (operation : unit -> pay_prog (result A * unit)) :
  calls_within plain_call (operation tt) ->
  calls_within plain_call (withTransientRpcRetry transient_code (PaymentCalls.ask NowMs) operation tt).
Proof.
  intros H. unfold withTransientRpcRetry. apply within_bind; [by apply (plain_ask NowMs)|]. intros startedAt.
  generalize TRANSIENT_RPC_RETRY_DELAYS_MS. intros delays.
  induction delays as [|d delays IH]; cbn [retry_from]; (apply within_bind; [exact H|]); intros [[a|e] []];
    try apply within_ret; try apply within_throw.
  destruct (negb _); [apply within_throw|]. apply within_bind; [by apply (plain_ask NowMs)|].
  intros now. destruct (_ <=? _); [apply within_throw|exact IH].
Qed.

Lemma for_each_within {A} (f : A -> pay_prog unit) xs :
  (forall x, calls_within plain_call (f x)) -> calls_within plain_call (for_each f xs).
Proof. intros H. induction xs as [|x xs IH]; cbn [for_each]; [apply within_ret|]. apply within_bind; [apply H|intros _; exact IH]. Qed.

Lemma reconcile_plain rows nowIso : calls_within plain_call (reconcileSignedSubmissionCacheMisses rows nowIso).
Proof.
  unfold reconcileSignedSubmissionCacheMisses. destruct rows as [|r rows]; [apply within_ret|].
  apply within_bind.
  { unfold settled. apply within_catch; [|intros e; apply within_ret]. apply within_bind; [|intros a; apply within_ret].
    apply retry_plain. unfold TransferTracker.ask. pay_calls. }
  intros [height|e]; [|apply for_each_within; intros x; apply rotate_plain].
  apply within_bind; [apply for_each_within; intros x; destruct (not_started_row x); [apply settle_or_keep_plain|apply within_ret]|].
  intros _. apply within_bind; [unfold getArchivedStatuses, TransferTracker.ask; pay_calls|].
  intros [statuses|]; apply for_each_within; [|intros x; apply rotate_plain].
  intros [x [s|]]; cbn [apply_archived]; [apply settle_or_keep_plain|apply rotate_plain].
Qed.

Lemma tracker_plain : calls_within plain_call trackPendingTransfers.
Proof.
  unfold trackPendingTransfers. apply within_bind; [by apply (plain_ask NowMs)|]. intros now.
  apply within_bind; [apply within_of_result|]. intros nowIso. apply within_bind; [|intros _; apply within_bind; [|intros _]].
  - unfold recoverStuckProcessingTransfers. apply within_bind; [apply within_of_result|]. intros cutoff.
    apply within_bind; [by apply (plain_ask (ListTransfers _))|]. intros stuck. apply for_each_within. intros x.
    unfold updateTerminalTransfer, TransferTracker.ask. pay_calls.
  - unfold syncProcessingTransfersOnChain. apply within_bind; [by apply (plain_ask (ListTransfers _))|]. intros rows.
    destruct (partitionByValidStoredSignature rows) as [valid unsignable].
    apply within_bind; [apply for_each_within; intros x; apply rotate_plain|]. intros _.
    destruct valid as [|v valid]; [apply within_ret|].
    apply within_bind; [unfold TransferTracker.ask; pay_calls|]. intros [statuses|e]; [|apply within_ret].
    apply within_bind.
    { apply for_each_within. intros [x [status|]]; cbn [apply_recent]; [|apply within_ret].
      apply within_bind; [apply verdict_plain|]. intros []; [apply within_ret|].
      destruct (_ && _); [apply within_ret|apply rotate_plain]. }
    intros _. apply within_bind; [by apply (plain_ask NowMs)|]. intros now'.
    apply within_bind; [apply for_each_within; intros x; apply settle_or_keep_plain|]. intros _. apply reconcile_plain.
  - unfold finalizeConfirmedTransfers, TransferTracker.ask. apply within_bind; [apply within_of_result|]. intros floor.
    apply within_bind; [by apply (plain_ask (ListConfirmed _ _))|]. intros rows.
    destruct (partitionByValidStoredSignature rows) as [valid unsignable].
    apply within_bind; [pay_calls|]. intros _. destruct valid; pay_calls.
Qed.
(** ** Its verdicts are backed *)

#[local] Instance listed_monotone r : Monotone (listed r).
Proof. intros t t' H (i & rows & Ht & E). exists i, rows. split; [by apply H|done]. Qed.

#[local] Instance confirmed_monotone r : Monotone (listed_confirmed r).
Proof. intros t t' H (x & n & rows & Ht & E). exists x, n, rows. split; [by apply H|done]. Qed.

#[local] Instance chain_said_monotone x s : Monotone (chain_said x s).
Proof. intros t t' H (a & l & ss & n & Ht & E). exists a, l, ss, n. split; [by apply H|done]. Qed.

#[local] Instance unseen_monotone x : Monotone (unseen x).
Proof. intros t t' H (l & ss & n & Ht & E). exists l, ss, n. split; [by apply H|done]. Qed.

#[local] Instance verdict_monotone r st slot : Monotone (fun h => verdict_for h r st slot).
Proof.
  intros t t' H Hv. destruct Hv.
  - eapply verdict_timed_out; first [by apply H|done].
  - eapply verdict_chain; [by eapply listed_monotone|done|by eapply chain_said_monotone|done].
  - eapply verdict_legacy; [by eapply listed_monotone|done|by eapply unseen_monotone|done|by apply H|done..].
  - eapply verdict_unsent; [by eapply listed_monotone|done|by eapply unseen_monotone|done..|by apply H|done].
Qed.

(** What is known of a row that is judged: it was listed, and its signature is unseen; or the
    chain said something of it. *)
Definition missed (r : PaymentTransferRow) (h : pay_history) : Prop :=
  listed r h /\ exists signature, xf_signature r = Some signature /\ unseen signature h.

Definition judged (r : PaymentTransferRow) (s : SignatureStatus) (h : pay_history) : Prop :=
  listed r h /\ exists signature, xf_signature r = Some signature /\ chain_said signature s h.

#[local] Instance missed_monotone r : Monotone (missed r).
Proof.
  intros t t' H (Hl & x & E & Hu). split; [by eapply listed_monotone|]. exists x. split; [done|by eapply unseen_monotone].
Qed.

#[local] Instance judged_monotone r s : Monotone (judged r s).
Proof.
  intros t t' H (Hl & x & E & Hu). split; [by eapply listed_monotone|]. exists x. split; [done|by eapply chain_said_monotone].
Qed.

Lemma chain_verdict_status s st slot error :
  chain_verdict (Some s) = Some (st, slot, error) -> chain_status s st /\ slot = Some (sg_slot s).
Proof.
  unfold chain_verdict. destruct (sg_err s) as [[]|] eqn:E, (sg_confirmationStatus s) as [[]|] eqn:Ec; try done;
    intros [= <- <- <-]; (split; [|done]); first [apply chain_failed; by rewrite E|by apply chain_confirmed|by apply chain_finalized].
Qed.

(** Programs that keep to [tracked], from a history on. *)
Abbreviation keeps_track := (follows tracked).

Lemma track_call h c : (forall r, tracked h (pay_ev c r)) -> keeps_track h (TransferTracker.ask c).
Proof. exact (follows_call tracked h c). Qed.

Lemma track_ask {A} h c (f : pay_answer c -> pay_prog A) :
  (forall r, tracked h (pay_ev c r)) -> (forall a, keeps_track (h ++ [pay_ev c (Ok a)]) (f a)) ->
  keeps_track h (bind (TransferTracker.ask c) f).
Proof. exact (follows_ask tracked h c f). Qed.

Lemma track_settled {A B} h (m : pay_prog A) (f : result A -> pay_prog B) (Q : pay_history -> result A -> Prop) :
  triple tracked h m (fun h' r => h `prefix_of` h' /\ Q h' r) ->
  (forall h' r, h `prefix_of` h' -> Q h' r -> keeps_track h' (f r)) -> keeps_track h (bind (settled m) f).
Proof.
  intros Hm Hf.
  eapply triple_bind with (Q1 := fun h' r => match r with Ok a => h `prefix_of` h' /\ Q h' a | Err _ => False end).
  - unfold settled. eapply triple_catch with
      (Q1 := fun h' r => match r with Ok a => h `prefix_of` h' /\ Q h' a | Err e => h `prefix_of` h' /\ Q h' (Err e) end).
    + eapply triple_bind; [exact Hm| |]; intros h' x Hx; exact Hx.
    + by intros h' a Hx.
    + intros h' e Hx. exact Hx.
  - intros h' a [Hp Hq]. apply follows_from; auto.
  - done.
Qed.

Lemma track_each {A} h (f : A -> pay_prog unit) xs :
  (forall h' x, h `prefix_of` h' -> x ∈ xs -> keeps_track h' (f x)) -> keeps_track h (for_each f xs).
Proof.
  intros Hf. apply (triple_for_each tracked (fun h' => h `prefix_of` h')); [done| |done].
  intros h' x Hx Hp. eapply triple_mono; [|by apply Hf]. intros h2 [a|e] H; by etrans.
Qed.

(** A status that is backed may be written. *)
Lemma track_terminal h r st slot error at_ :
  verdict_for h r st slot -> keeps_track h (updateTerminalTransfer r st slot error at_).
Proof.
  intros H. unfold updateTerminalTransfer. destruct (bool_decide _).
  - destruct (xf_project_id _) as [project|] eqn:E; [|apply follows_throw]. apply track_call. intros a. by exists r, project.
  - apply follows_bind; [|intros; apply follows_ret]. apply track_call. intros a. do 3 (split; [done|]).
    intros st' [= <-]. by exists r, slot.
Qed.

Lemma track_verdict h r s at_ : judged r s h -> keeps_track h (applyOnChainVerdict r (Some s) at_).
Proof.
  intros (Hl & x & Ex & Hc). unfold applyOnChainVerdict.
  destruct (chain_verdict (Some s)) as [[[st slot] error]|] eqn:E; [|apply follows_ret].
  apply chain_verdict_status in E as [Hst ->].
  apply follows_catch; [|intros; apply follows_ret]. apply follows_bind; [|intros; apply follows_ret].
  apply track_terminal. by eapply verdict_chain.
Qed.

Lemma track_missing h r at_ : verdict_for h r xs_failed None -> keeps_track h (applyOnChainVerdict r None at_).
Proof.
  intros H. apply follows_catch; [|intros; apply follows_ret]. apply follows_bind; [|intros; apply follows_ret].
  by apply track_terminal.
Qed.

Lemma track_rotate h r at_ : keeps_track h (rotate r at_).
Proof.
  apply follows_catch; [|intros; apply follows_ret]. apply follows_bind; [|intros; apply follows_ret].
  apply track_call. intros a. by split.
Qed.

Lemma track_or_keep h r status at_ : keeps_track h (applyOnChainVerdict r status at_) -> keeps_track h (settle_or_keep r status at_).
Proof. intros H. apply follows_bind; [exact H|]. intros h' [] _; [apply follows_ret|apply track_rotate]. Qed.

Lemma track_rotate_all h rows at_ : keeps_track h (for_each (fun r => rotate r at_) rows).
Proof. apply track_each. intros. apply track_rotate. Qed.

Lemma with_statuses_elem rows statuses r o :
  (r, o) ∈ with_statuses rows statuses ->
  r ∈ rows /\ exists n, map signature_of rows !! n = Some (signature_of r)
    /\ (statuses !! n = Some o \/ statuses !! n = None /\ o = None).
Proof.
  revert statuses. induction rows as [|r0 rows IH]; intros statuses H; cbn [with_statuses] in H; [by apply elem_of_nil in H|].
  destruct statuses as [|s statuses]; apply elem_of_cons in H as [[= -> ->]|H];
    try (split; [by left|exists 0%nat; split; [done|by auto]]);
    destruct (IH _ H) as (Hr & n & E & Es); (split; [by right|]); exists (S n); (split; [exact E|]); [|done].
  right. split; [done|]. rewrite lookup_nil in Es. by destruct Es as [|[_ ?]].
Qed.

Lemma valid_signature rows valid unsignable r :
  partitionByValidStoredSignature rows = (valid, unsignable) -> r ∈ valid -> r ∈ rows /\ xf_signature r = Some (signature_of r).
Proof.
  intros [= <- _] (Hr & H)%list_elem_of_In%filter_In. split; [by apply list_elem_of_In|].
  unfold hasValidStoredSignature, signature_of in *. by destruct (xf_signature r).
Qed.

Lemma unsignable_rows rows valid unsignable r :
  partitionByValidStoredSignature rows = (valid, unsignable) -> r ∈ unsignable -> r ∈ rows.
Proof. intros [= _ <-] (Hr & _)%list_elem_of_In%filter_In. by apply list_elem_of_In. Qed.

Lemma statuses_said rows statuses archive r s h :
  told (SignatureStatuses (map signature_of rows) archive) statuses h -> (r, Some s) ∈ with_statuses rows statuses ->
  chain_said (signature_of r) s h.
Proof.
  intros Ht (_ & n & En & [Es|[_ ?]])%with_statuses_elem; [|done]. by exists archive, (map signature_of rows), statuses, n.
Qed.

Lemma statuses_unseen rows statuses r h :
  told (SignatureStatuses (map signature_of rows) false) statuses h -> (r, None) ∈ with_statuses rows statuses ->
  unseen (signature_of r) h.
Proof.
  intros Ht (_ & n & En & Es)%with_statuses_elem. exists (map signature_of rows), statuses, n.
  split; [done|]. split; [done|]. destruct Es as [Es|[Es _]]; [by left|by right].
Qed.

Lemma track_stuck h now at_ : told NowMs now h -> keeps_track h (recoverStuckProcessingTransfers now at_).
Proof.
  intros Hn. unfold recoverStuckProcessingTransfers. apply triple_bind_result; [|done]. intros cutoff Ec.
  apply track_ask; [done|]. intros stuck. apply track_each. intros h' r Hp Hr.
  apply follows_catch; [|intros; apply follows_ret]. apply track_terminal.
  refine (stays_prefix (fun h => verdict_for h r xs_failed None) _ _ _ Hp).
  eapply verdict_timed_out; [apply told_last|exact Hr|done|done|by apply (stays (P := told NowMs now))|exact Ec|done].
Qed.
Lemma retry_told h startedAt delays :
  triple tracked h
    (retry_from transient_code (PaymentCalls.ask NowMs)
       (fun _ : unit => let! r := settled (TransferTracker.ask BlockHeight) in Ret (r, tt)) startedAt delays tt)
    (fun h' r => h `prefix_of` h' /\ forall height, r = Ok height -> told BlockHeight height h').
Proof.
  revert h. induction delays as [|d delays IH]; intros h; cbn [retry_from]; intros [height|e]; cbn [settled catch bind].
  all: try (split; [exact I|]; cbn; split; [by apply prefix_app_r|]; first [intros ? [= <-]; apply told_last|done]).
  split; [done|]. cbn. destruct (negb _); [split; [by apply prefix_app_r|done]|]. intros [now|e']; (split; [done|]); cbn.
  - destruct (_ <=? _); [split; [rewrite <- app_assoc; by apply prefix_app_r|done]|].
    eapply triple_mono; [|apply IH]. intros h' r [Hp Ht]. split; [|exact Ht].
    etrans; [|exact Hp]. rewrite <- app_assoc. by apply prefix_app_r.
  - split; [rewrite <- app_assoc; by apply prefix_app_r|done].
Qed.

Lemma archived_told h rows :
  (forall r, r ∈ rows -> missed r h) ->
  triple tracked h (getArchivedStatuses rows) (fun h' r => h `prefix_of` h'
    /\ forall l, r = Ok (Some l) -> forall x s, (x, Some s) ∈ l -> judged x s h').
Proof.
  unfold getArchivedStatuses. destruct rows as [|r0 rows0].
  { intros _. apply triple_ret. split; [done|]. intros l [= <-] x s H. by apply elem_of_nil in H. }
  set (rows := r0 :: rows0). clearbody rows. intros Hrows.
  eapply triple_catch with (Q1 := fun h' r => h `prefix_of` h'
    /\ forall l, r = Ok (Some l) -> forall x s, (x, Some s) ∈ l -> judged x s h'); [|done|].
  - apply (triple_bind_call tracked _ (SignatureStatuses _ _)); [done| |].
    + intros statuses. destruct (negb _); [split; [by apply prefix_app_r|done]|]. split; [by apply prefix_app_r|].
      intros l [= <-] x s H. pose proof (statuses_said _ _ _ _ _ _ (told_last (SignatureStatuses (map signature_of rows) true) statuses h) H) as Hsaid.
      apply with_statuses_elem in H as [Hx _]. destruct (Hrows x Hx) as (Hl & sig & Es & _).
      split; [by apply stays|]. exists sig. split; [done|]. unfold signature_of in Hsaid. by rewrite Es in Hsaid.
    + intros e. split; [by apply prefix_app_r|done].
  - intros h' e [Hp _]. split; [exact Hp|done].
Qed.

Lemma track_reconcile h rows at_ :
  (forall r, r ∈ rows -> missed r h /\ hasSignedSubmission r = true) ->
  keeps_track h (reconcileSignedSubmissionCacheMisses rows at_).
Proof.
  intros Hrows. unfold reconcileSignedSubmissionCacheMisses. destruct rows as [|r0 rows0]; [apply follows_ret|].
  set (rows := r0 :: rows0) in *. clearbody rows.
  apply (track_settled _ _ _ (fun h' r => forall height, r = Ok height -> told BlockHeight height h')).
  { unfold withTransientRpcRetry. apply (triple_bind_call tracked _ NowMs); [done| |].
    - intros startedAt. eapply triple_mono; [|apply retry_told]. intros h' r [Hp Ht]. split; [|exact Ht].
      etrans; [|exact Hp]. by apply prefix_app_r.
    - intros e. split; [by apply prefix_app_r|done]. }
  intros h1 [height|e] Hp Hh; [|apply track_rotate_all]. specialize (Hh height eq_refl).
  assert (forall p r, r ∈ List.filter p rows -> missed r h1 /\ hasSignedSubmission r = true /\ p r = true) as Hin.
  { intros p r (Hr & Hpr)%list_elem_of_In%filter_In. apply list_elem_of_In in Hr. destruct (Hrows r Hr).
    split; [by eapply stays_prefix; [apply _| |]|done]. }
  apply follows_bind.
  { apply track_each. intros h2 r Hp2 Hr. destruct (not_started_row r) eqn:En; [|apply follows_ret].
    apply track_or_keep, track_missing. destruct (Hin _ _ Hr) as (Hm & Hs & Hpast).
    destruct (stays_prefix (missed r) _ _ Hm Hp2) as (Hl & x & Ex & Hu).
    unfold past_height in Hpast. unfold hasSignedSubmission in Hs. apply andb_prop in Hs as [Hs%bool_decide_eq_true _].
    destruct (xf_last_valid_block_height r) as [last|] eqn:El; [|done]. apply Z.ltb_lt in Hpast.
    apply bool_decide_eq_true in En.
    apply (verdict_unsent _ _ x last height); try done; [by destruct Hs as [? ->]|exact (stays_prefix _ _ _ Hh Hp2)]. }
  intros h2 [] Hp2. eapply triple_bind; [apply archived_told| |by intros h3 e [? _]].
  { intros r (Hr & _)%list_elem_of_In%filter_In. apply list_elem_of_In in Hr. destruct (Hin _ _ Hr) as [Hm _].
    exact (stays_prefix _ _ _ Hm Hp2). }
  intros h3 [statuses|] [Hp3 Hs]; (eapply follows_from; [exact Hp3|]); [|apply track_rotate_all].
  apply track_each. intros h4 [r [s|]] Hp4 Hr; cbn [apply_archived]; [|apply track_rotate].
  apply track_or_keep, track_verdict. exact (stays_prefix _ _ _ (Hs _ eq_refl r s Hr) Hp4).
Qed.

Lemma track_recent h at_ x : (forall s, x.2 = Some s -> judged x.1 s h) -> keeps_track h (apply_recent at_ x).
Proof.
  destruct x as [r [s|]]; intros H; cbn [apply_recent]; [|apply follows_ret].
  apply follows_bind; [apply track_verdict; by apply H|]. intros h' [] _; [apply follows_ret|].
  destruct (_ && _); [apply follows_ret|apply track_rotate].
Qed.

Lemma known_misses (known : list (PaymentTransferRow * option SignatureStatus)) r :
  r ∈ map fst (List.filter is_miss known) -> (r, None) ∈ known.
Proof.
  intros H. apply list_elem_of_In, in_map_iff in H as ([r' o] & <- & H). apply filter_In in H as [H E].
  apply bool_decide_eq_true in E. cbn in E. subst o. by apply list_elem_of_In.
Qed.

Lemma legacy_verdict now r h :
  missed r h -> told NowMs now h -> expired_legacy now r = true -> verdict_for h r xs_failed None.
Proof.
  intros (Hl & x & Ex & Hu) Hn [Hs Hd]%andb_prop. destruct (Date_parse (xf_updated_at r)) as [u|] eqn:Eu; [|done].
  apply Z.ltb_lt in Hd. apply (verdict_legacy _ _ x now u); try done.
  unfold hasSignedSubmission in Hs. destruct (xf_signed_transaction r), (xf_last_valid_block_height r); auto; done.
Qed.

Lemma track_sync h at_ : keeps_track h (syncProcessingTransfersOnChain at_).
Proof.
  unfold syncProcessingTransfersOnChain. apply track_ask; [done|]. intros rows.
  destruct (partitionByValidStoredSignature rows) as [valid unsignable] eqn:Epart.
  assert (forall r, r ∈ valid -> xf_signature r = Some (signature_of r) /\
    forall h', h ++ [pay_ev (ListTransfers (mkListTransfers [xs_processing] WALLET_TRANSFER_TYPES (Some true) None MAX_SIGNATURES_PER_BATCH)) (Ok rows)] `prefix_of` h' -> listed r h') as Hvalid.
  { intros r Hr. destruct (valid_signature _ _ _ _ Epart Hr) as [Hin Es]. split; [done|]. intros h' Hp.
    refine (stays_prefix (listed r) _ _ _ Hp). eexists _, rows. split; [apply told_last|done]. }
  apply follows_bind; [apply track_rotate_all|]. intros h1 [] Hp1. destruct valid as [|v0 valid0]; [apply follows_ret|].
  set (valid := v0 :: valid0) in *. clearbody valid.
  apply (track_settled _ _ _ (fun h' r => forall l, r = Ok l -> told (SignatureStatuses (map signature_of valid) false) l h')).
  { apply triple_call; [done|]. intros r. split; [by apply prefix_app_r|]. intros l ->. apply told_last. }
  intros h2 [statuses|e] Hp2 Ht; [|apply follows_ret]. specialize (Ht statuses eq_refl).
  assert (forall r s, (r, Some s) ∈ with_statuses valid statuses -> judged r s h2) as Hj.
  { intros r s Hr. pose proof (statuses_said _ _ _ _ _ _ Ht Hr) as Hsaid. apply with_statuses_elem in Hr as [Hr _].
    destruct (Hvalid r Hr) as [Es Hl]. split; [apply Hl; by etrans|by eexists]. }
  assert (forall r, (r, None) ∈ with_statuses valid statuses -> missed r h2) as Hm.
  { intros r Hr. pose proof (statuses_unseen _ _ _ _ Ht Hr) as Hsaid. apply with_statuses_elem in Hr as [Hr _].
    destruct (Hvalid r Hr) as [Es Hl]. split; [apply Hl; by etrans|by eexists]. }
  set (known := with_statuses valid statuses) in *. clearbody known.
  apply follows_bind.
  { apply track_each. intros h3 [r o] Hp Hx. apply track_recent. cbn. intros s ->.
    exact (stays_prefix (judged r s) _ _ (Hj _ _ Hx) Hp). }
  intros h3 [] Hp3. apply track_ask; [done|]. intros now.
  assert (h2 `prefix_of` h3 ++ [pay_ev NowMs (Ok now)]) as Hp3' by (etrans; [exact Hp3|by apply prefix_app_r]).
  apply follows_bind.
  { apply track_each. intros h4 r Hp4 Hr. apply track_or_keep, track_missing.
    apply list_elem_of_In, filter_In in Hr as [Hr Hx]. apply list_elem_of_In, known_misses in Hr.
    apply (legacy_verdict now); [|exact (stays_prefix _ _ _ (told_last NowMs now h3) Hp4)|done].
    apply (stays_prefix _ _ _ (Hm r Hr)). by etrans. }
  intros h4 [] Hp4. apply track_reconcile. intros r Hr. apply list_elem_of_In, filter_In in Hr as [Hr Hs].
  split; [|done]. apply list_elem_of_In, known_misses in Hr. apply (stays_prefix _ _ _ (Hm r Hr)). by etrans.
Qed.

Lemma unfinished_backed h rows : (forall r, r ∈ rows -> listed_confirmed r h) -> Forall (finality_backed h) (map unfinished rows).
Proof. intros H. apply Forall_fmap, Forall_forall. intros r Hr. exists r. split; [by apply H|]. by split_and!. Qed.

Lemma polled_backed h rows statuses :
  told (SignatureStatuses (map signature_of rows) true) statuses h ->
  (forall r, r ∈ rows -> listed_confirmed r h /\ xf_signature r = Some (signature_of r)) ->
  Forall (finality_backed h) (map poll_verdict (with_statuses rows statuses)).
Proof.
  intros Ht Hrows. apply Forall_fmap, Forall_forall. intros [r o] H. pose proof H as [Hr _]%with_statuses_elem.
  destruct (Hrows r Hr) as [Hl Es]. exists r. unfold poll_verdict, compose.
  destruct o as [s|]; [|by split_and!].
  destruct (bool_decide_reflect (sg_err s = None)) as [E1|]; [|by split_and!].
  destruct (bool_decide_reflect (sg_confirmationStatus s = Some cs_finalized)) as [E2|]; [|by split_and!]. cbn.
  split_and!; try done. intros _. exists (signature_of r), s. split; [done|]. split; [by eapply statuses_said|done].
Qed.

Lemma track_finalize h now at_ : keeps_track h (finalizeConfirmedTransfers now at_).
Proof.
  unfold finalizeConfirmedTransfers. apply triple_bind_result; [|done]. intros floor _. apply track_ask; [done|]. intros rows.
  set (h0 := h ++ _). destruct (partitionByValidStoredSignature rows) as [valid unsignable] eqn:Epart.
  assert (forall r h', r ∈ rows -> h0 `prefix_of` h' -> listed_confirmed r h') as Hl.
  { intros r h' Hr Hp. refine (stays_prefix (listed_confirmed r) _ _ _ Hp). eexists _, _, rows. split; [apply told_last|done]. }
  assert (forall rows' h', (forall r, r ∈ rows' -> r ∈ rows) -> h0 `prefix_of` h' -> Forall (finality_backed h') (map unfinished rows')) as Hun.
  { intros rows' h' Hsub Hp. apply unfinished_backed. intros r Hr. apply Hl; auto. }
  assert (forall r, r ∈ valid -> r ∈ rows /\ xf_signature r = Some (signature_of r)) as Hv by (intros r; by apply valid_signature with unsignable).
  apply follows_bind.
  { destruct unsignable; [apply follows_ret|apply track_call; intros r; apply Hun; [intros x; by eapply unsignable_rows|done]]. }
  intros h1 [] Hp1. destruct valid as [|v0 valid0]; [apply follows_ret|]. set (valid := v0 :: valid0) in *. clearbody valid.
  apply (track_settled _ _ _ (fun h' r => forall l, r = Ok l -> told (SignatureStatuses (map signature_of valid) true) l h')).
  { apply triple_call; [done|]. intros r. split; [by apply prefix_app_r|]. intros l ->. apply told_last. }
  intros h2 [statuses|e] Hp2 Ht; [|apply track_call; intros r; apply Hun; [by intros x [? _]%Hv|by etrans]].
  destruct (negb _); [apply follows_throw|]. apply track_call. intros r. apply polled_backed; [by apply Ht|].
  intros x Hx. destruct (Hv x Hx). split; [apply Hl; [done|by etrans]|done].
Qed.

(** C20. The tracker writes a status over [processing] alone, with its slot, and only one the
    chain gave for the signature of the row it was listed; it fails a transfer without the
    chain's word only when it was listed as unsigned for five minutes; is from before the
    outbox, its signature unseen and five minutes old; or was signed but never started, its
    signature unseen, and the chain past its last height. A finality it records is the
    chain's, for the signature of a row listed as confirmed. *)
Theorem tracker_verdicts_backed : guarded tracked [] trackPendingTransfers.
Proof.
  apply (triple_guarded tracked _ _ (fun h' _ => [] `prefix_of` h')). unfold trackPendingTransfers.
  apply track_ask; [done|]. intros now. apply triple_bind_result; [|done].
  intros nowIso _. apply follows_bind; [apply track_stuck, told_last|]. intros h1 [] _.
  apply follows_bind; [apply track_sync|]. intros h2 [] _. apply track_finalize.
Qed.
End Tracker.
