(* ===== verification/ActivationSafety.v ===== *)
(** * Recurring payments: what an activation rests on

    What custody is asked to sign for an activation are the terms of the payment it
    claimed, a plan only when none is known to have been created and an authorization
    only when none is known to have been sent; and the payment, its plan and its
    subscription become active only once the chain was read to have them. *)
From Stdlib Require Import Ascii String ZArith Lia.
From stdpp Require Import base list strings.
From S2P Require Import Prelude Text Amount PolicyTypes BudgetTypes BudgetService History.
From S2P Require Import PaymentTables ActivationTables RecurringLifecycle PaymentCalls SignedSubmission RecurringCollection.
From S2P Require Import RecurringActivation RecurringEvidence RecurringSubmission.

Local Open Scope string_scope.
Local Open Scope Z_scope.
Local Open Scope list_scope.
Local Open Scope sdp_scope.

Section Activation.
Context {K : PaymentKit}.
Variable i : ActivationInput.

(** ** The evidence *)

(** The row the run claimed. *)
Definition claimed_as (claimed : PaymentRecurringPaymentRow) (h : pay_history) : Prop :=
  exists at_ staleBefore,
    told (Activation (ClaimActivation (ai_tenant i) (rp_id (ai_recurringPayment i)) at_ staleBefore)) (Some claimed) h.

(** The attempt it keeps its journal in: a new one, or one that was left. *)
Inductive journaled (attempt : ActivationAttemptRow) (h : pay_history) : Prop :=
| journaled_new r : told (Activation (CreateActivationAttempt r)) (Some attempt) h -> journaled attempt h
| journaled_left tenant x statuses :
    told (Activation (LatestActivationAttempt tenant x statuses)) (Some attempt) h -> journaled attempt h
| journaled_resumed u : told (Activation (UpdateActivationAttempt u)) (Some attempt) h -> journaled attempt h.

(** The amount of the payment, in the units of its token's account. *)
Definition amount_of (claimed : PaymentRecurringPaymentRow) (amount : Z) (h : pay_history) : Prop :=
  exists tokenProgram source,
    told (ResolveSourceTokenAccount (rp_source_address claimed) (rp_token claimed) tokenProgram) source h
    /\ SolanaAmount.parseDecimalAmount (rp_amount claimed) (sta_decimals source) = Ok amount /\ 0 < amount.

(** A plan the chain was read to have. *)
Definition plan_on_chain (claimed : PaymentRecurringPaymentRow) (planId : Z) (planPda : string) (createdAt : Z)
    (h : pay_history) : Prop :=
  told (Activation (FindPlanPda (rp_source_address claimed) planId)) planPda h
  /\ told (Activation (FetchPlan planPda)) (Some createdAt) h.

(** What may be built for the payment; nothing was known of an earlier transaction. *)
Inductive agreed (claimed : PaymentRecurringPaymentRow) (attempt : ActivationAttemptRow) (h : pay_history)
    : InstructionSpec -> Prop :=
| agreed_plan amount planId tokenProgram :
    given (or_else (rp_plan_creation_signature claimed) (av_plan_creation_signature attempt)) = None ->
    amount_of claimed amount h ->
    agreed claimed attempt h
      (CreatePlan amount [rp_destination_address claimed] 0 (default "" (rp_metadata_uri claimed)) (rp_token claimed)
         (cw_publicKey (ai_sourceWallet i)) (rp_period_hours claimed) planId [rp_source_address claimed] tokenProgram)
| agreed_subscription amount planId planPda createdAt authority initId payer :
    given (or_else (rp_authorization_signature claimed) (av_authorization_signature attempt)) = None ->
    amount_of claimed amount h -> plan_on_chain claimed planId planPda createdAt h ->
    told (Activation (FetchSubscriptionAuthority authority)) (Some initId) h ->
    agreed claimed attempt h
      (Subscribe amount createdAt (rp_period_hours claimed) initId (rp_source_address claimed) payer planId
         (cw_publicKey (ai_sourceWallet i)) (rp_token claimed))
| agreed_authority payer tokenProgram account :
    agreed claimed attempt h
      (InitSubscriptionAuthority (cw_publicKey (ai_sourceWallet i)) payer (rp_token claimed) tokenProgram account)
| agreed_account payer account tokenProgram :
    agreed claimed attempt h (CreateAta payer account (rp_source_address claimed) (rp_token claimed) tokenProgram).

Definition built_of (claimed : PaymentRecurringPaymentRow) (attempt : ActivationAttemptRow) (x : string)
    (h : pay_history) : Prop :=
  exists spec, told (BuildInstruction spec) x h /\ agreed claimed attempt h spec.

Definition signs_terms (m : PaymentMessage) (h : pay_history) : Prop :=
  msg_signer m = cw_publicKey (ai_sourceWallet i)
  /\ exists claimed attempt, claimed_as claimed h /\ journaled attempt h
       /\ forall x, x ∈ msg_instructions m -> built_of claimed attempt x h.

(** A subscription the chain was read to have, to a plan of the payment. *)
Definition subscribed_on_chain (claimed : PaymentRecurringPaymentRow) (planPda subscriptionPda : string)
    (h : pay_history) : Prop :=
  exists expiresAt,
    told (Activation (FindSubscriptionDelegationPda planPda (rp_source_address claimed))) subscriptionPda h
    /\ told (FetchSubscriptionExpiry subscriptionPda) (Some expiresAt) h.

Definition activates_payment (u : UpdateRecurringPaymentActivationInput) (h : pay_history) : Prop :=
  exists claimed planId planPda createdAt subscriptionPda,
    claimed_as claimed h /\ un_recurringPaymentId u = rp_id claimed
    /\ plan_on_chain claimed planId planPda createdAt h /\ subscribed_on_chain claimed planPda subscriptionPda h
    /\ un_planPda u = Some (Some planPda) /\ un_planCreatedAt u = Some (Some (z_text createdAt))
    /\ un_subscriptionPda u = Some (Some subscriptionPda).

Definition activation_backed (h : pay_history) (e : pay_event) : Prop :=
  match ev_call e with
  | PartiallySign m => signs_terms m h
  | Activation (UpdateActivation u) => un_status u = Some rs_active -> activates_payment u h
  | Activation (UpdateSubscriptionRow u) =>
      us_status u = Some ss_active ->
      exists claimed planPda subscriptionPda, claimed_as claimed h /\ subscribed_on_chain claimed planPda subscriptionPda h
  | Activation (UpdatePlanRow u) =>
      up_status u = Some ps_active ->
      exists claimed planId planPda createdAt, claimed_as claimed h /\ plan_on_chain claimed planId planPda createdAt h
        /\ up_planPda u = Some (Some planPda)
  | _ => True
  end.

(** * Lemmas *)

#[local] Instance claimed_monotone claimed : Monotone (claimed_as claimed).
Proof. intros t t' H (at_ & s & Ht). exists at_, s. by apply H. Qed.

#[local] Instance journaled_monotone attempt : Monotone (journaled attempt).
Proof.
  intros t t' H [r Ht|tenant x s Ht|u Ht];
    [eapply journaled_new|eapply journaled_left|eapply journaled_resumed]; by apply H.
Qed.

#[local] Instance amount_monotone claimed amount : Monotone (amount_of claimed amount).
Proof. intros t t' H (p & s & Ht & ?). exists p, s. split; [by apply H|done]. Qed.

#[local] Instance plan_monotone claimed planId planPda createdAt : Monotone (plan_on_chain claimed planId planPda createdAt).
Proof. intros t t' H [H1 H2]. split; by apply H. Qed.

#[local] Instance agreed_monotone claimed attempt spec : Monotone (fun h => agreed claimed attempt h spec).
Proof.
  intros t t' H [amount planId tokenProgram G A|amount planId planPda createdAt authority initId payer G A C T| |];
    try by constructor.
  - apply agreed_plan; [done|by eapply amount_monotone].
  - eapply agreed_subscription; [done|by eapply amount_monotone|by eapply plan_monotone|by apply H].
Qed.

#[local] Instance built_monotone claimed attempt x : Monotone (built_of claimed attempt x).
Proof. intros t t' H (spec & Ht & Ha). exists spec. split; [by apply H|by eapply agreed_monotone]. Qed.

#[local] Instance subscribed_monotone claimed planPda subscriptionPda : Monotone (subscribed_on_chain claimed planPda subscriptionPda).
Proof. intros t t' H (x & H1 & H2). exists x. split; by apply H. Qed.

(** Evidence of an earlier history. *)
Ltac carried :=
  match goal with H : ?P ?h |- ?P ?h' =>
    refine (stays_prefix P h h' H _);
    repeat first [reflexivity | eassumption | etrans; [eassumption|]]
  end.

(** ** Calls that rest on nothing *)

Definition indifferent (c : pay_call) : Prop :=
  match c with
  | PartiallySign _ | Activation (UpdateActivation _ | UpdateSubscriptionRow _ | UpdatePlanRow _) => False
  | _ => True
  end.

Lemma indifferent_free : free activation_backed indifferent.
Proof. intros h [c a] H. destruct c; try done. by destruct c. Qed.

Abbreviation leads := (leads activation_backed).
Abbreviation goes h m := (leads h m (fun _ _ => True)).

Lemma goes_within {A} h (m : pay_prog A) : calls_within indifferent m -> goes h m.
Proof. apply leads_within, indifferent_free. Qed.

Lemma leads_ask h c : (forall r, activation_backed h (pay_ev c r)) -> leads h (PaymentCalls.ask c) (told c).
Proof. exact (leads_call activation_backed h c). Qed.

Lemma leads_step {A} h c (f : pay_answer c -> pay_prog A) F :
  (forall r, activation_backed h (pay_ev c r)) ->
  (forall h' a, h `prefix_of` h' -> told c a h' -> leads h' (f a) F) -> leads h (bind (PaymentCalls.ask c) f) F.
Proof. intros Hc Hf. eapply leads_bind; [by apply leads_ask|exact Hf]. Qed.

Lemma leads_scoped h tenant repository c :
  (forall r, activation_backed h (pay_ev c r)) -> leads h (scoped tenant repository c) (told c).
Proof.
  intros H. unfold scoped. apply leads_bind_result. intros s _. apply leads_bind_result. intros [] _. by apply leads_ask.
Qed.

Lemma leads_repo h c : (forall r, activation_backed h (pay_ev (Activation c) r)) ->
  leads h (recurringRepo (ai_tenant i) c) (told (Activation c)).
Proof. apply leads_scoped. Qed.

Lemma leads_subscriptions h c : (forall r, activation_backed h (pay_ev (Activation c) r)) ->
  leads h (subscriptionsRepo (ai_tenant i) c) (told (Activation c)).
Proof. apply leads_scoped. Qed.

Lemma leads_address {A} h value fieldName (f : string -> pay_prog A) F :
  leads h (f value) F -> leads h (bind (valid_address value fieldName) f) F.
Proof.
  intros H. unfold valid_address. apply leads_bind_result. intros a. unfold assertValidAddress.
  destruct (is_address value); [|done]. by intros [= <-].
Qed.

Ltac carelessly :=
  apply goes_within;
  unfold getOrCreateActivationPlan, getOrCreateActivationSubscription,
    resetRecurringPaymentActivationUnlessAlreadyActive, set_stage, recurringRepo, subscriptionsRepo,
    confirmSubscriptionSignature, RecurringActivation.ask; pay_calls.

(** A call whose answer is kept as evidence. *)
Tactic Notation "asks" ident(h') ident(a) ident(T) :=
  match goal with
  | |- leads _ (bind (RecurringActivation.ask ?c) _) _ => apply (leads_step _ c)
  | |- leads _ (bind (PaymentCalls.ask ?c) _) _ => apply (leads_step _ c)
  | |- leads _ (bind (recurringRepo _ ?c) _) _ => eapply leads_bind; [apply (leads_repo _ c)|]
  | |- leads _ (bind (subscriptionsRepo _ ?c) _) _ => eapply leads_bind; [apply (leads_subscriptions _ c)|]
  end;
  [intros ?; cbn; first [exact I|discriminate|idtac]|intros h' a ? T].

(** Calls whose answers are not. *)
Tactic Notation "goes_on" ident(h') ident(a) := eapply leads_bind; [by carelessly|intros h' a ? _].

(** ** Sending *)

Variable dp : Deployment.

Lemma with_store_careless {A} target scope (m : service_prog A) st :
  calls_within indifferent (with_store target scope m st).
Proof.
  revert st. induction m as [a|e|c k IH]; intros st; cbn [with_store]; [apply within_ret..|].
  destruct c; try (apply (within_step (R := pay_answer)); [done|intros r; apply IH]);
    (eapply within_bind; [|intros [r st']; apply IH]);
    unfold persistSigned, markStarted, hasStarted, SignedSubmission.store_call; pay_calls.
Qed.

Lemma fee_payment_careless walletId : calls_within indifferent (createProjectSponsorshipFeePayment (ai_tenant i) walletId).
Proof. unfold createProjectSponsorshipFeePayment. pay_calls. Qed.

Lemma send_leads h claimed attempt instructions feePayer :
  claimed_as claimed h -> journaled attempt h -> (forall x, x ∈ instructions -> built_of claimed attempt x h) ->
  goes h (send_sponsored dp
    (mkInstructions (ai_tenant i) (ai_sourceWallet i) (Some (cw_publicKey (ai_sourceWallet i))) instructions feePayer)).
Proof.
  intros Hc Hj Hb. unfold send_sponsored. eapply leads_bind with (F1 := fun _ _ => True).
  - unfold signed_message. cbn [si_sourceSigner si_sourceWallet si_tenant si_feePayer si_instructions bind].
    rewrite String.eqb_refl. cbn [negb]. goes_on h1 recent. destruct recent as [blockhash height].
    eapply leads_bind; [apply goes_within, fee_payment_careless|intros h2 scope Hp2 _].
    eapply leads_bind with (F1 := fun _ _ => True); [destruct feePayer; [by apply leads_ret|by carelessly]|intros h3 payer Hp3 _].
    apply (leads_step _ (PartiallySign _)); [|intros h4 txBytes Hp4 _; by apply leads_ret].
    intros r. split; [done|]. exists claimed, attempt. split; [carried|]. split; [carried|].
    intros x Hx. specialize (Hb x Hx). carried.
  - intros h1 [[scope message] txBytes] Hp _. destruct (dp_self_hosted dp); [by carelessly|].
    eapply leads_bind; [apply goes_within, with_store_careless|intros h2 [answer st] _ _]. by apply leads_result.
Qed.

(** ** The plan *)

Lemma fetch_leads {A} h signature thisRun (fetch : pay_prog (option A)) (F : A -> pay_history -> Prop) :
  (forall h', leads h' fetch (fun o h2 => forall a, o = Some a -> F a h2)) ->
  leads h (fetch_confirmed signature thisRun fetch) (fun o h2 => forall a, o = Some a -> F a h2).
Proof.
  intros H. unfold fetch_confirmed. destruct thisRun.
  - goes_on h1 confirmed. apply H.
  - eapply leads_bind; [apply H|intros h1 [a|] Hp Ha]; [by apply leads_ret|]. goes_on h2 confirmed. apply H.
Qed.

Record plan_facts (claimed : PaymentRecurringPaymentRow) (p : ActivationPlan) (h : pay_history) : Prop := mkPlanFacts {
  pf_owner : ap_owner p = rp_source_address claimed;
  pf_mint : ap_mint p = rp_token claimed;
  pf_signer : ap_signer p = cw_publicKey (ai_sourceWallet i);
  pf_amount : amount_of claimed (ap_amountBaseUnits p) h;
  pf_plan : plan_on_chain claimed (ap_programPlanId p) (ap_planPda p) (ap_planCreatedAt p) h;
}.

#[local] Instance facts_monotone claimed p : Monotone (plan_facts claimed p).
Proof. intros t t' H [? ? ? A P]. constructor; try done; [by eapply amount_monotone|by eapply plan_monotone]. Qed.

Section Claimed.
Variable claimed : PaymentRecurringPaymentRow.
Variable attempt : ActivationAttemptRow.

Lemma create_plan_leads h amount programPlanId tokenProgram :
  claimed_as claimed h -> journaled attempt h -> amount_of claimed amount h ->
  goes h (create_plan dp i claimed attempt
    (or_else (rp_plan_creation_signature claimed) (av_plan_creation_signature attempt)) amount
    (rp_destination_address claimed) (rp_token claimed) (rp_source_address claimed) (cw_publicKey (ai_sourceWallet i))
    tokenProgram programPlanId).
Proof.
  intros Hc Hj Ha. unfold create_plan. destruct (given _) eqn:G; [by apply leads_ret|]. asks h1 instruction Ht.
  eapply leads_bind; [apply (send_leads _ claimed attempt); [carried|carried|]|intros h2 signature Hp2 _].
  - intros x ->%list_elem_of_singleton. eexists. split; [eassumption|]. apply agreed_plan; [done|carried].
  - goes_on h3 updatedAt. asks h4 row Hr. asks h5 row' Hr'. by apply leads_ret.
Qed.

Lemma establish_plan_leads h :
  claimed_as claimed h -> journaled attempt h -> leads h (establish_plan dp i claimed attempt) (plan_facts claimed).
Proof.
  intros Hc Hj. unfold establish_plan. do 3 apply leads_address. goes_on h1 signer.
  destruct (negb (String.eqb signer _)) eqn:Es; [apply leads_throw|].
  apply Bool.negb_false_iff, String.eqb_eq in Es. subst signer.
  goes_on h2 tokenProgram. asks h3 source Hs. apply leads_bind_result. intros amount Ea.
  destruct (amount <=? 0) eqn:E0; [apply leads_throw|].
  assert (amount_of claimed amount h3) as Hamount by (exists tokenProgram, source; split_and!; [done|done|lia]).
  goes_on h4 plan. apply leads_bind_result. intros programPlanId _. asks h5 planPda Hpda. goes_on h6 planUpdatedAt.
  asks h7 planRow Hr7. asks h8 row Hr8. goes_on h9 stageUpdatedAt. goes_on h10 staged.
  eapply leads_bind; [apply create_plan_leads; carried|intros h11 [signature createdPlanThisRun] Hp11 _].
  eapply leads_bind.
  { apply (fetch_leads _ _ _ _ (fun createdAt => told (Activation (FetchPlan planPda)) (Some createdAt))).
    intros h'. eapply leads_mono; [|by apply (leads_ask _ (Activation (FetchPlan planPda)))]. intros h2' o _ Ho z ->. exact Ho. }
  intros h12 [planCreatedAt|] Hp12 Hfetch; [|apply leads_throw]. specialize (Hfetch _ eq_refl).
  assert (plan_on_chain claimed programPlanId planPda planCreatedAt h12) as Hplan by (split; [carried|done]).
  goes_on h13 activeAt. asks h14 planRow' Hr14.
  { intros _. exists claimed, programPlanId, planPda, planCreatedAt. split_and!; [carried|carried|done]. }
  goes_on h15 updatedAt. asks h16 row' Hr16. goes_on h17 subscription.
  apply leads_ret. constructor; try done; cbn; carried.
Qed.

(** ** The subscription *)

(** An instruction that is built unless there is no need of it. *)
Lemma build_unless {A} h (b : bool) spec (f : list string -> pay_prog A) F :
  agreed claimed attempt h spec ->
  (forall h' l, h `prefix_of` h' -> (forall x, x ∈ l -> built_of claimed attempt x h') -> leads h' (f l) F) ->
  leads h (bind (if b then Ret [] else let! instruction : string := RecurringActivation.ask (BuildInstruction spec) in
                                       Ret [instruction]) f) F.
Proof.
  intros Ha Hf. eapply leads_bind with (F1 := fun l h' => forall x, x ∈ l -> built_of claimed attempt x h'); [|exact Hf].
  destruct b; [apply leads_ret; intros x Hx; by apply elem_of_nil in Hx|].
  apply (leads_step _ (BuildInstruction spec)); [done|]. intros h' x Hp Ht. apply leads_ret.
  intros y ->%list_elem_of_singleton. exists spec. split; [done|].
  exact (stays_prefix (fun h => agreed claimed attempt h spec) _ _ Ha Hp).
Qed.

(** What the chain has of an authority. *)
Definition authority_read (authorityAddress : string) (o : option Z) (h : pay_history) : Prop :=
  forall initId, o = Some initId -> told (Activation (FetchSubscriptionAuthority authorityAddress)) (Some initId) h.

#[local] Instance authority_monotone authorityAddress o : Monotone (authority_read authorityAddress o).
Proof. intros t t' H Ha initId E. by apply H, Ha. Qed.

Lemma authority_leads h p authority authorityAddress feePayer :
  claimed_as claimed h -> journaled attempt h -> plan_facts claimed p h -> authority_read authorityAddress authority h ->
  leads h (prepareSubscriptionAuthorityForActivation dp i attempt p authority authorityAddress feePayer)
    (authority_read authorityAddress).
Proof.
  intros Hc Hj [Eo Em Es _ _] Hr. unfold prepareSubscriptionAuthorityForActivation. rewrite Eo, Em, Es.
  destruct (_ && _); [by apply leads_ret|].
  assert (forall (o : option Z) (m : pay_prog (list string)),
    match o with Some _ => Ret [] | None => m end = if bool_decide (is_Some o) then Ret [] else m) as Eif by by intros [].
  rewrite Eif. apply build_unless; [apply agreed_authority|]. intros h1 l1 Hp1 H1.
  apply build_unless; [apply agreed_account|]. intros h2 l2 Hp2 H2.
  eapply leads_bind; [apply (send_leads _ claimed attempt); [carried|carried|]|intros h3 initSignature Hp3 _].
  { intros x [Hx|Hx]%elem_of_app; [by apply H2|]. specialize (H1 x Hx). carried. }
  goes_on h4 updatedAt. goes_on h5 row. goes_on h6 confirmed.
  destruct authority as [initId|]; [apply leads_ret; carried|].
  asks h7 made Hm. destruct made as [initId|]; [|apply leads_throw]. apply leads_ret. by intros ? [= <-].
Qed.

Lemma authorize_leads h p authorityAddress :
  claimed_as claimed h -> journaled attempt h -> plan_facts claimed p h ->
  goes h (authorize_subscription dp i claimed attempt
    (or_else (rp_authorization_signature claimed) (av_authorization_signature attempt)) p authorityAddress).
Proof.
  intros Hc Hj Hf. unfold authorize_subscription. destruct (given _) eqn:G; [by apply leads_ret|].
  asks h1 authority Ha. eapply leads_bind; [apply goes_within, fee_payment_careless|intros h2 scope Hp2 _].
  goes_on h3 feePayer.
  eapply leads_bind; [apply authority_leads; [carried|carried|carried|]|intros h4 known Hp4 Hk].
  { intros initId ->. carried. }
  destruct known as [initId|]; [|apply leads_throw].
  assert (plan_facts claimed p h4) as Hf4 by carried. pose proof Hf4 as [Eo Em Es Hamount Hplan]. rewrite Eo, Em, Es.
  asks h5 instruction Hb. specialize (Hk _ eq_refl).
  eapply leads_bind; [apply (send_leads _ claimed attempt); [carried|carried|]|intros h6 signature Hp6 _].
  - intros x ->%list_elem_of_singleton. eexists. split; [exact Hb|].
    apply (agreed_subscription _ _ _ _ _ (ap_planPda p) _ authorityAddress); [done|carried|carried|carried].
  - goes_on h7 updatedAt. asks h8 row Hr. asks h9 row' Hr'. by apply leads_ret.
Qed.

Lemma establish_subscription_leads h p :
  claimed_as claimed h -> journaled attempt h -> plan_facts claimed p h ->
  leads h (establish_subscription dp i claimed attempt p) (fun s h' =>
    told (Activation (FindSubscriptionDelegationPda (ap_planPda p) (rp_source_address claimed))) (as_subscriptionPda s) h').
Proof.
  intros Hc Hj Hf. unfold establish_subscription. asks h1 authorityAddress Ha. asks h2 subscriptionPda Hs.
  goes_on h3 updatedAt. asks h4 subscriptionRow Hr4. asks h5 row Hr5. goes_on h6 staged.
  eapply leads_bind; [apply authorize_leads; carried|intros h7 [signature authorizedThisRun] Hp7 _].
  apply leads_ret. cbn. rewrite (pf_owner _ _ _ Hf) in Hs. carried.
Qed.

Lemma finalize_leads h p s :
  claimed_as claimed h -> plan_facts claimed p h ->
  told (Activation (FindSubscriptionDelegationPda (ap_planPda p) (rp_source_address claimed))) (as_subscriptionPda s) h ->
  goes h (finalize_activation i claimed attempt p s).
Proof.
  intros Hc Hf Hs. unfold finalize_activation. eapply leads_bind.
  { apply (fetch_leads _ _ _ _ (fun x => told (FetchSubscriptionExpiry (as_subscriptionPda s)) (Some x))).
    intros h'. eapply leads_mono; [|by apply (leads_ask _ (FetchSubscriptionExpiry (as_subscriptionPda s)))].
    intros h2' o _ Ho z ->. exact Ho. }
  intros h1 [expiresAt|] Hp1 Hfetch; [|apply leads_throw]. specialize (Hfetch _ eq_refl).
  assert (subscribed_on_chain claimed (ap_planPda p) (as_subscriptionPda s) h1) as Hon
    by (exists expiresAt; split; [carried|done]).
  goes_on h2 activatedAt. goes_on h3 nextCollectionDueAt. asks h4 subscriptionRow Hr4.
  { intros _. exists claimed, (ap_planPda p), (as_subscriptionPda s). split; carried. }
  asks h5 finalized Hr5.
  { intros _. destruct Hf as [_ _ _ _ Hplan].
    exists claimed, (ap_programPlanId p), (ap_planPda p), (ap_planCreatedAt p), (as_subscriptionPda s).
    split_and!; try done; carried. }
  destruct finalized; [|apply leads_throw]. asks h6 attemptRow Hr6. by apply leads_ret.
Qed.

(** ** Activation *)

Lemma stage_leads {A} h stage (m : pay_prog A) F :
  leads h m F -> leads h (in_stage i claimed attempt stage m) F.
Proof.
  intros H. eapply leads_catch; [exact H|done|]. intros h1 e Hp. unfold activation_failed. goes_on h2 failedAt.
  eapply leads_bind with (F1 := fun _ _ => True); [|intros; apply leads_throw].
  eapply leads_catch with (F1 := fun _ _ => True); [|done|by intros; apply leads_ret].
  unfold recordActivationFailure. asks h3 row Hr. eapply leads_bind with (F1 := fun _ _ => True).
  - destruct (is_app_error _ _); [|by apply leads_ret]. asks h4 row' Hr'. by apply leads_ret.
  - intros h5 [] _ _. by carelessly.
Qed.

Lemma activate_claimed_leads h :
  claimed_as claimed h -> journaled attempt h -> goes h (activate_claimed dp i claimed attempt).
Proof.
  intros Hc Hj. unfold activate_claimed.
  eapply leads_bind; [by apply stage_leads, establish_plan_leads|intros h1 p Hp1 Hf].
  eapply leads_bind; [apply stage_leads, establish_subscription_leads; carried|intros h2 s Hp2 Hs].
  apply stage_leads, finalize_leads; carried.
Qed.
End Claimed.

Lemma reset_leads {A} h claimed (m : pay_prog A) F : leads h m F -> leads h (or_reset i claimed m) F.
Proof.
  intros H. eapply leads_catch; [exact H|done|]. intros h1 e Hp. goes_on h2 updatedAt. goes_on h3 reset. apply leads_throw.
Qed.

Lemma attempt_leads h claimed nowIso stale : leads h (createClaimedActivationAttempt i claimed nowIso stale) journaled.
Proof.
  unfold createClaimedActivationAttempt.
  eapply leads_bind with (F1 := fun o h' => forall a, o = Some a -> journaled a h').
  { destruct stale; [|by apply leads_ret]. apply reset_leads.
    eapply leads_mono; [|apply (leads_repo _ (LatestActivationAttempt _ _ _)); done].
    intros h' o _ Ho a ->. by eapply journaled_left. }
  intros h1 [existing|] Hp1 Hex.
  - apply reset_leads. specialize (Hex _ eq_refl). asks h2 resumed Hr. apply leads_ret.
    destruct resumed as [a|]; [by eapply journaled_resumed|carried].
  - eapply leads_bind with (F1 := fun o h' => forall a, o = Some a -> journaled a h').
    { apply reset_leads. goes_on h2 id. eapply leads_mono; [|apply (leads_repo _ (CreateActivationAttempt _)); done].
      intros h' o _ Ho a ->. by eapply journaled_new. }
    intros h2 [a|] Hp2 Ha; [by apply leads_ret, Ha|]. goes_on h3 updatedAt. goes_on h4 reset. apply leads_throw.
Qed.

Lemma activate_leads h : goes h (activateRecurringPayment dp i).
Proof.
  unfold activateRecurringPayment. goes_on h1 nowIso. apply leads_bind_result. intros [] _. destruct (bool_decide _).
  - eapply leads_bind with (F1 := fun _ _ => True); [|intros; by apply leads_ret].
    unfold settleActiveActivationAttempt. by carelessly.
  - apply leads_bind_result. intros staleBefore _. asks h2 claimed Hc. destruct claimed as [claimed|].
    + eapply leads_bind; [apply attempt_leads|intros h3 attempt Hp3 Hj].
      apply activate_claimed_leads; [|done]. assert (claimed_as claimed h2) by (eexists _, _; exact Hc). carried.
    + eapply leads_bind with (F1 := fun _ _ => True); [|intros; apply leads_throw].
      unfold journalActivationClaimConflict. by carelessly.
Qed.

(** * The theorem *)

(** C28. In every run of an activation, whatever it is answered: custody is asked to sign
    only instructions on the terms of the payment the run claimed, a new plan only when
    the payment and the journal know of none and an authorization only when they know of
    none; and the payment, its plan and its subscription are made active only after the
    chain was read to have that plan and that subscription, at the addresses recorded. *)
Theorem activation_signs_claimed_terms : guarded activation_backed [] (activateRecurringPayment dp i).
Proof. exact (triple_guarded _ _ _ _ (activate_leads [])). Qed.
End Activation.
