(* ===== verification/RecurringSafety.v ===== *)
(** * Recurring payments: what each call of a collection rests on

    Every run of a collection, a recovery, an operation or the job, whatever is answered:
    a transfer is linked, signed, sent, settled as failed or finalized only after the
    calls that justify it ([backed] of RecurringEvidence.v). *)
From Stdlib Require Import Ascii String ZArith Lia.
From stdpp Require Import base list strings sets.
From S2P Require Import Prelude Text Dates Amount TransientRpc PolicyTypes PolicyEnforce PolicyService BudgetTypes BudgetService.
From S2P Require Import Pool History PaymentTables RecurringLifecycle RecurringTransactions PaymentCalls SignedSubmission.
From S2P Require Import RecurringCollection RecurringOperations RecurringActivation RecurringJob RecurringEvidence RecurringSubmission.

Local Open Scope string_scope.
Local Open Scope Z_scope.
Local Open Scope list_scope.
Local Open Scope sdp_scope.

(** A call is among those made. *)
Ltac in_calls := unfold told; rewrite ?elem_of_app, ?list_elem_of_singleton; tauto.

Section Safety.
Context {K : PaymentKit}.
Variable dp : Deployment.

Abbreviation triple := (triple (backed dp)).
Abbreviation anything := (fun _ _ => True).

(** Every call of a program is backed, whatever it is answered. *)
Abbreviation backs h m := (triple h m anything).

Lemma plain_backs {A} h (m : pay_prog A) : calls_within plain_call m -> backs h m.
Proof. intros H. eapply triple_mono; [|by apply quiet_any]. done. Qed.

Lemma backs_bind {A B} h (m : pay_prog A) (f : A -> pay_prog B) Q1 :
  triple h m Q1 -> (forall h' a, Q1 h' (Ok a) -> backs h' (f a)) -> backs h (bind m f).
Proof. intros H Hf. by eapply triple_bind. Qed.

Lemma backs_settled {A} h (m : pay_prog A) : backs h m -> triple h (settled m) anything.
Proof. exact (triple_settled dp h m anything). Qed.

Lemma backs_catch {A} h (m : pay_prog A) g Q1 :
  triple h m Q1 -> (forall h' e, Q1 h' (Err e) -> backs h' (g e)) -> backs h (catch m g).
Proof. intros H Hg. by eapply triple_catch. Qed.

(** ** Settling a failure *)

Lemma settle_quietly h h' a : settle_backed dp h a -> quietly h h' -> settle_backed dp h' a.
Proof.
  intros [k O S|[k id s O L W D|k id O L D|c L G|c x R N|c x R N|c x s W R]] Hq;
    [eapply settled_unsent|eapply settled_failed, failed_definite|eapply settled_failed, failed_unsigned
    |eapply settled_failed, failed_unlinked|eapply settled_failed, failed_unsubmitted
    |eapply settled_failed, failed_expired|eapply settled_failed, failed_on_chain];
    first [done | keep Hq | by eapply unsent_quietly].
Qed.

Lemma retry_metadata_plain error : calls_within plain_call (collectionRetryMetadata dp error).
Proof. unfold collectionRetryMetadata. pay_calls. Qed.

Lemma markFailed_triple h f error :
  settle_backed dp h (fc_attempt f) -> backs h (markRecurringPaymentCollectionFailedAtomically dp f error).
Proof.
  intros Hs. unfold markRecurringPaymentCollectionFailedAtomically.
  eapply backs_bind; [apply quiet_any; by apply (plain_ask NowIso)|]. intros h1 failedAt Hq1.
  eapply backs_bind; [apply quiet_any, retry_metadata_plain|]. intros h2 extra Hq2.
  eapply (triple_bind_call (backed dp) _ (SettleFailed _)); [| |done].
  - intros r. eapply settle_quietly; [exact Hs|]. exact (quietly_trans _ _ _ Hq1 Hq2).
  - intros []. apply plain_backs. pay_calls.
Qed.

Lemma journal_signature_triple h f s : backs h (journal_signature f s).
Proof.
  unfold journal_signature.
  eapply backs_bind; [apply quiet_any; by apply (plain_ask NowIso)|]. intros h1 updatedAt _.
  eapply backs_bind.
  - apply backs_settled. unfold paymentSubscriptions. apply triple_scoped; [|done..]. intros r. by left.
  - intros h2 a _. eapply backs_bind.
    + apply backs_settled. destruct (fc_transfer f); [|done]. apply plain_backs. pay_calls.
    + intros h3 b _. by destruct (_ && _).
Qed.

(** A failure is settled where there is no signature, or where the error is definite. *)
Lemma journal_triple h f error :
  (given (fc_submittedSignature f) = None \/ isDefiniteSubmissionError error = true -> settle_backed dp h (fc_attempt f)) ->
  backs h (safeJournalRecurringPaymentCollectionError dp f error).
Proof.
  intros Hs. unfold safeJournalRecurringPaymentCollectionError, journalRecurringPaymentCollectionError.
  eapply backs_catch; [|done]. destruct (given _) as [s|]; [|by apply markFailed_triple, Hs; left].
  destruct (isDefiniteSubmissionError error) eqn:E; [apply markFailed_triple, Hs; by right|].
  apply journal_signature_triple.
Qed.

(** ** The proof on chain *)

(** How a verification ends. *)
Definition verified (v : VerifyInput) (h h' : pay_history) (r : result VerifiedRecurringPaymentCollection) : Prop :=
  quietly h h'
  /\ match r with
     | Ok proof => proof = proof_of v /\ persistedEvidenceMatches v = true /\ moved_on_chain v h'
     | Err e => from h (honest dp (vf_signature v) e) h'
     end.

Lemma given_some o s : given o = Some s -> o = Some s.
Proof. unfold given. by destruct (truthy o). Qed.

Lemma amount_errors amount decimals e :
  SolanaAmount.parseDecimalAmount amount decimals = Err e -> isDefiniteSubmissionError e = false.
Proof.
  unfold SolanaAmount.parseDecimalAmount. repeat (case_match; try (intros; simplify_eq/=; done)).
Qed.

Lemma address_cases h value field {A} (f : string -> pay_prog A) Q :
  triple h (f value) Q -> (forall e, isDefiniteSubmissionError e = false -> Q h (Err e)) ->
  triple h (bind (valid_address value field) f) Q.
Proof.
  intros Ha He. unfold valid_address, assertValidAddress. destruct (is_address value); [done|]. by apply He.
Qed.

Lemma verified_error v h h' e : quietly h h' -> from h (honest dp (vf_signature v) e) h' -> verified v h h' (Err e).
Proof. by split. Qed.

Lemma verified_false v h h' e : quietly h h' -> isDefiniteSubmissionError e = false -> verified v h h' (Err e).
Proof. intros Hq He. apply verified_error; [done|]. destruct Hq as (t & -> & _). exists t. split; [done|]. intros D. congruence. Qed.

Ltac refused_answer :=
  apply verified_error; [quiet_calls|]; rewrite <- ?app_assoc; eexists; (split; [reflexivity|]); intros D;
  apply definite_error in D; eapply definite_answer; [|exact D]; in_calls.

Lemma prove_on_chain_triple h v planPda subscriptionPda authority tokenAccount :
  persistedEvidenceMatches v = true ->
  given (rp_plan_pda (vf_recurringPayment v)) = Some planPda ->
  given (rp_subscription_pda (vf_recurringPayment v)) = Some subscriptionPda ->
  given (sb_subscription_authority_address (vf_subscription v)) = Some authority ->
  given (sb_subscriber_token_account (vf_subscription v)) = Some tokenAccount ->
  triple h (prove_on_chain v planPda subscriptionPda authority tokenAccount) (verified v h).
Proof.
  intros Hm Hp%given_some Hs%given_some Ha%given_some Ht%given_some. unfold prove_on_chain.
  apply address_cases; [|intros e; apply verified_false, quietly_refl].
  apply (triple_ask dp _ (MintTokenProgram _)); [done|intros tokenProgram|intros e; refused_answer].
  apply (triple_ask dp _ (MintDecimals _)); [done|intros decimals|intros e; refused_answer].
  apply triple_bind_result; [intros amount Eamount|intros e Ee; apply verified_false; [quiet_calls|by eapply amount_errors]].
  apply (triple_ask dp _ (GetTransaction _)); [done|intros confirmed|intros e; refused_answer].
  destruct confirmed as [tx|]; [|apply verified_false; [quiet_calls|done]].
  destruct (pt_failed tx) eqn:Ef.
  { apply triple_throw, verified_error; [quiet_calls|]. rewrite <- ?app_assoc. eexists. split; [reflexivity|].
    intros _. eapply definite_transaction; [in_calls|done]. }
  apply (triple_ask dp _ FindEventAuthority); [done|intros eventAuthority|intros e; refused_answer].
  match goal with |- context [existsb (matchesRecurringTransferInstruction ?e) _] => set (expected := e) end.
  destruct (existsb _ _) eqn:Ex; [|apply verified_false; [quiet_calls|done]].
  apply triple_ret. split; [quiet_calls|]. split; [done|]. split; [done|].
  exists tx, expected, decimals. split_and!; try done; in_calls.
Qed.

Lemma verify_triple h v : triple h (verifyRecurringPaymentCollection v) (verified v h).
Proof.
  unfold verifyRecurringPaymentCollection. destruct (persistedEvidenceMatches v) eqn:Em; cbn [negb];
    [|apply verified_false; [apply quietly_refl|done]].
  repeat (case_match; [|apply verified_false; [apply quietly_refl|done]]).
  by apply prove_on_chain_triple.
Qed.

Lemma finalize_triple h tenant rp v :
  persistedEvidenceMatches v = true -> moved_on_chain v h ->
  backs h (finalizeRecurringPaymentCollection tenant rp (vf_subscription v) (vf_attempt v) (vf_transfer v) (proof_of v)).
Proof.
  intros Hm Hc. unfold finalizeRecurringPaymentCollection.
  apply (triple_ask dp _ NowIso); [done|intros finalizedAt|done].
  apply triple_bind_result; [intros next En|done]. apply (triple_call (backed dp) _ (FinalizeCollection _)); [|done].
  intros r. exists v. cbn. split_and!; try done. by apply (stays (P := moved_on_chain v)).
Qed.

(** ** Recovering an attempt *)

Lemma stale_triple h a :
  triple h (isStaleCollectionAttempt a) (fun h' r => quietly h h' /\ (r = Ok true -> from h (left_alone a) h')).
Proof.
  unfold isStaleCollectionAttempt. destruct (Date_parse (ca_updated_at a)) as [u|] eqn:E; [|by split; [apply quietly_refl|]].
  apply (triple_ask dp _ NowMs); [done|intros now|intros e; split; [quiet_calls|done]].
  split; [quiet_calls|]. intros [= Hle]. eexists. split; [reflexivity|]. exists now, u. split; [in_calls|].
  split; [done|]. by apply Z.leb_le.
Qed.

Lemma settle_stale_triple h f message :
  (forall h', quietly h h' -> from h (left_alone (fc_attempt f)) h' -> settle_backed dp h' (fc_attempt f)) ->
  backs h (settle_stale dp f message).
Proof.
  intros Hs. unfold settle_stale. eapply backs_bind; [apply stale_triple|].
  intros h1 isStale [Hq Hl]. destruct isStale; cbn [negb]; [|done]. by apply markFailed_triple, Hs, Hl.
Qed.

(** An attempt and its transfer as another run left them. *)
Definition left_over (a : PaymentSubscriptionCollectionAttemptRow) (x : PaymentTransferRow) (h : pay_history) : Prop :=
  exists cycle, after_event (reading cycle a) (read_transfer a x) h.

Lemma left_over_quietly h h' a x : left_over a x h -> quietly h h' -> left_over a x h'.
Proof. intros [cycle H] Hq. exists cycle. keep Hq. Qed.

(** Something more since. *)
Lemma after_and x (P Q : pay_history -> Prop) `{!Monotone P, !Monotone Q} h h' :
  after_event x P h -> from h Q h' -> after_event x (fun t => P t /\ Q t) h'.
Proof.
  intros (b & a & -> & H) (t & -> & Ht). exists b, (a ++ t). rewrite <- app_assoc. split; [done|].
  split; eapply monotone; [|exact H| |exact Ht]; set_solver.
Qed.

Lemma left_over_definite h h' a x s :
  left_over a x h -> stored_signature a x = Some s -> from h (definite dp s) h' -> settle_backed dp h' a.
Proof. intros [cycle H] Hx Hd. eapply settled_failed, failed_on_chain; [exact Hx|]. exact (after_and _ _ _ _ _ H Hd). Qed.

Lemma is_definite e : is_app_error "TRANSACTION_FAILED" e = true -> isDefiniteSubmissionError e = true.
Proof.
  unfold is_app_error, isDefiniteSubmissionError. destruct e; try done.
  repeat (case_match; try done). intros ->. done.
Qed.

Definition destination_of (rp : PaymentRecurringPaymentRow) : pay_prog string :=
  match given (rp_destination_token_account rp) with
  | Some a => valid_address a "destinationTokenAccount"
  | None => resolveDestinationTokenAccount (rp_destination_address rp) (rp_token rp)
  end.

Lemma destination_triple h rp s :
  triple h (destination_of rp) (fun h' r => quietly h h' /\ forall e, r = Err e -> from h (honest dp s e) h').
Proof.
  unfold destination_of, resolveDestinationTokenAccount. apply truthful_triple; [destruct (given _); pay_calls|].
  destruct (given _); [apply truthful_address|].
  do 2 (apply truthful_bind; [apply truthful_address|intros ?]).
  apply truthful_bind; [apply truthful_call|]. intros ?. apply truthful_call.
Qed.

Lemma scoped_triple h tenant repository c s : plain_call c ->
  triple h (scoped tenant repository c) (fun h' r => quietly h h' /\ forall e, r = Err e -> from h (honest dp s e) h').
Proof. intros Hc. apply truthful_triple; [pay_calls|apply truthful_scoped]. Qed.

(** How a part of a recovery ends. *)
Definition recovery {A} (s : string) (h : pay_history) (Q : pay_history -> A -> Prop) (h' : pay_history) (r : result A) : Prop :=
  quietly h h' /\ match r with Ok a => Q h' a | Err e => from h (honest dp s e) h' end.

Lemma recovery_bind {A B} s h0 h (m : pay_prog A) (f : A -> pay_prog B) Q :
  quietly h0 h -> triple h m (fun h' r => quietly h h' /\ forall e, r = Err e -> from h (honest dp s e) h') ->
  (forall h' a, quietly h0 h' -> triple h' (f a) (recovery s h0 Q)) -> triple h (bind m f) (recovery s h0 Q).
Proof.
  intros Hq Hm Hf. eapply triple_bind; [exact Hm| |].
  - intros h' a [Hq' _]. apply Hf. exact (quietly_trans _ _ _ Hq Hq').
  - intros h' e [Hq' He]. split; [exact (quietly_trans _ _ _ Hq Hq')|].
    eapply from_earlier; [apply _|by apply He|by apply quietly_prefix].
Qed.

Lemma prove_recovered_triple h o attempt xfer signature :
  triple h (prove_recovered o attempt xfer signature) (recovery signature h (fun h' x =>
    exists v, x.2 = proof_of v /\ vf_subscription v = x.1.2 /\ vf_attempt v = attempt /\ vf_transfer v = xfer
      /\ persistedEvidenceMatches v = true /\ moved_on_chain v h')).
Proof.
  unfold prove_recovered. apply recovery_bind; [apply quietly_refl|by apply scoped_triple|]. intros h1 current Hq1.
  apply recovery_bind; [done|by apply scoped_triple|]. intros h2 currentSubscription Hq2.
  apply recovery_bind; [done|apply destination_triple|]. intros h3 account Hq3.
  eapply triple_bind; [apply verify_triple| |].
  - intros h4 proof [Hq4 (-> & Hm & Hc)]. apply triple_ret. split; [exact (quietly_trans _ _ _ Hq3 Hq4)|].
    by eexists.
  - intros h' e [Hq He]. split; [exact (quietly_trans _ _ _ Hq3 Hq)|].
    eapply from_earlier; [apply _|exact He|by apply quietly_prefix].
Qed.

Lemma finalize_recovered_triple h o existing xfer signature :
  left_over existing xfer h -> stored_signature existing xfer = Some signature -> given (Some signature) = Some signature ->
  backs h (finalize_recovered dp o existing xfer signature).
Proof.
  intros Hl Hx Hg. unfold finalize_recovered.
  eapply triple_after_settled; [apply prove_recovered_triple|].
  intros h1 r [Hq Hr]. destruct r as [[[rp subscription] proof]|e].
  - destruct Hr as (v & Ep & Es & Ev & Ex & Hm & Hc). cbn [fst snd] in Ep, Es. rewrite Ep, <- Es, <- Ev, <- Ex.
    eapply backs_bind; [by apply finalize_triple|]. done.
  - assert (isDefiniteSubmissionError e = true -> settle_backed dp h1 existing) as Hd.
    { intros D. eapply left_over_definite; [exact Hl|exact Hx|]. destruct Hr as (t & -> & Ht). exists t. split; [done|by apply Ht]. }
    destruct (is_app_error _ e) eqn:E.
    + eapply backs_bind; [apply markFailed_triple, Hd; by apply is_definite|]. done.
    + eapply backs_bind; [apply journal_triple|done]. cbn. rewrite Hg. intros [?|D]; [done|by apply Hd].
Qed.

Lemma given_given s o : given o = Some s -> given (Some s) = Some s.
Proof. unfold given. destruct (truthy o) eqn:E; [|done]. intros ->. by rewrite E. Qed.

(** A confirmation, and what its error says. *)
Lemma confirm_triple h signature message :
  triple h (confirmSubscriptionSignature signature message) (fun h' r =>
    quietly h h' /\ forall e, r = Err e -> from h (honest dp signature e) h').
Proof. apply truthful_triple; [unfold confirmSubscriptionSignature; pay_calls|apply truthful_confirm]. Qed.

Lemma recover_signed_triple h o existing xfer signature :
  left_over existing xfer h -> stored_signature existing xfer = Some signature -> given (Some signature) = Some signature ->
  backs h (recover_signed dp o existing xfer signature).
Proof.
  intros Hl Hx Hg. unfold recover_signed. eapply triple_after_settled; [apply confirm_triple|].
  intros h1 r [Hq He]. pose proof (left_over_quietly _ _ _ _ Hl Hq) as Hl1.
  destruct r as [[]|e]; [by apply finalize_recovered_triple|].
  destruct (is_app_error _ e) eqn:E; [|by apply finalize_recovered_triple].
  eapply backs_bind; [apply markFailed_triple|done]. eapply left_over_definite; [exact Hl|exact Hx|].
  destruct (He e eq_refl) as (t & -> & Ht). exists t. split; [done|]. by apply Ht, is_definite.
Qed.

Lemma expired_never_broadcast x : expired_before_broadcast x = true -> never_broadcast x.
Proof. unfold expired_before_broadcast, never_broadcast. rewrite !andb_true_iff, !bool_decide_eq_true. tauto. Qed.

Lemma recover_linked_triple h o existing xfer :
  left_over existing xfer h -> backs h (recover_linked dp o existing xfer).
Proof.
  intros Hl. unfold recover_linked. destruct (signatures_conflict _ _); [done|].
  destruct (given _) as [stored|] eqn:Eg.
  - apply triple_bind_result; [|done]. unfold validatedStoredCollectionSignature. destruct (is_signature stored); [|done].
    intros s [= <-]. destruct (expired_before_broadcast xfer) eqn:Ex.
    + eapply backs_bind; [apply settle_stale_triple|done]. intros h' Hq Hs.
      destruct Hl as [cycle Hl]. eapply settled_failed, failed_expired; [exact (after_and _ _ _ _ _ Hl Hs)|].
      by apply expired_never_broadcast.
    + apply recover_signed_triple; [done|exact Eg|by eapply given_given].
  - eapply backs_bind; [apply settle_stale_triple|done]. intros h' Hq Hs.
    destruct Hl as [cycle Hl]. eapply settled_failed, failed_unsubmitted; [exact (after_and _ _ _ _ _ Hl Hs)|done].
Qed.

Lemma scoped_call {A} h tenant repository c (f : pay_answer c -> pay_prog A) Q :
  (forall r, backed dp h (pay_ev c r)) -> (forall a, triple (h ++ [pay_ev c (Ok a)]) (f a) Q) ->
  (forall h' e, Q h' (Err e)) -> triple h (bind (scoped tenant repository c) f) Q.
Proof.
  intros Hb Ha He. eapply triple_bind with (Q1 := fun h' r => forall a, r = Ok a -> h' = h ++ [pay_ev c (Ok a)]).
  - apply triple_scoped; [done| |done]. by intros r a ->.
  - intros h' a E. rewrite (E a eq_refl). apply Ha.
  - intros h' e _. apply He.
Qed.

Lemma recover_triple h o : backs h (recoverRecurringPaymentCollection dp o).
Proof.
  unfold recoverRecurringPaymentCollection, paymentSubscriptions, payments.
  apply scoped_call; [done| |done]. intros [existing|]; [|done].
  assert (forall t, after_event (reading (cycle_of o) existing) (fun _ => True) ((h ++ [reading (cycle_of o) existing]) ++ t))
    as Hr by (intros t; exists h, t; by rewrite <- app_assoc).
  destruct (given (ca_transfer_id existing)) as [transferId|] eqn:Et.
  - apply (scoped_call _ _ _ (GetTransfer _ _)); [done| |done]. intros [xfer|]; [|done].
    apply recover_linked_triple. exists (cycle_of o). apply after_last; [specialize (Hr []); by rewrite app_nil_r in Hr|].
    intros t. exists (co_tenant o), transferId. split; [done|apply told_last].
  - eapply backs_bind; [apply settle_stale_triple|done]. intros h' Hq (t & -> & Ht).
    eapply settled_failed, failed_unlinked; [|done]. exists h, t. split; [by rewrite <- app_assoc|exact Ht].
Qed.

Lemma recover_or_block_triple h tenant rp : backs h (recoverOrBlockLifecycleCollection dp tenant rp).
Proof.
  unfold recoverOrBlockLifecycleCollection, paymentSubscriptions.
  destruct (given _); [|done]. destruct (given _); [|done].
  apply scoped_call; [done| |done]. intros [subscription|]; [|done].
  eapply backs_bind; [apply recover_triple|]. by intros h' [c|] _.
Qed.

(** ** Collecting *)

(** Of a claim: its attempt, and that it was not given up. *)
Definition held (k : Claim) (a : PaymentSubscriptionCollectionAttemptRow) (h : pay_history) : Prop :=
  own_attempt k h a /\ after_event (claim_event k) (never is_settle) h.

Lemma held_quietly k a h h' : held k a h -> quietly h h' -> held k a h'.
Proof. intros [H1 H2] Hq. split; [keep Hq|by eapply unsettled_quietly]. Qed.

Lemma held_claim k a h : held k a h -> after_event (claim_event k) (fun _ => True) h.
Proof. intros [_ H]. by eapply after_any. Qed.

(** The handler's error is about a submission that was not sent, or one whose row the
    store has, and then says so if it is definite. *)
Definition handleable (k : Claim) (id : string) (h : pay_history) (st : StoreState) (e : jserr) : Prop :=
  store_known k id h st
  /\ (after_event (claim_event k) (never is_send) h
      \/ is_Some (submittedRow st) /\ linked_by k id h
         /\ exists s, own_signature dp k id s h /\ honest_since dp k s h e).

Lemma submitted_row st row : submittedRow st = Some row -> store_row st = Some row.
Proof. unfold submittedRow. by destruct (store_start st). Qed.

Lemma handle_triple k id h i attempt xfer st submittedSignature error :
  own_attempt k h attempt -> handleable k id h st error ->
  backs h (handleRecurringPaymentCollectionError dp i attempt xfer st submittedSignature error).
Proof.
  intros Ho [Hst Hc]. unfold handleRecurringPaymentCollectionError.
  destruct (submittedRow st) as [row|] eqn:Er.
  - assert (isDefiniteSubmissionError error = true -> settle_backed dp h attempt) as Hd.
    { intros D. destruct Hc as [Hs|(_ & Hl & s & Hw & b & a & -> & He)]; [by eapply settled_unsent|].
      eapply settled_failed, failed_definite; [exact Ho|exact Hl|exact Hw|]. exists b, a. split; [done|by apply He]. }
    destruct (isDefiniteSubmissionError error) eqn:D.
    + eapply backs_bind; [apply journal_triple|done]. intros _. by apply Hd.
    + destruct (given (xf_signature row)) as [stored|] eqn:Eg.
      * apply triple_bind_result; [|done]. unfold validatedStoredCollectionSignature. destruct (is_signature stored); [|done].
        intros s [= <-]. eapply backs_bind; [apply journal_triple|by intros h' _ _; destruct (is_app_error _ _)].
        cbn. rewrite (given_given _ _ Eg), D. by intros [?|?].
      * eapply backs_bind; [apply journal_triple|done]. intros _.
        destruct Hc as [Hs|(_ & Hl & _)]; [by eapply settled_unsent|].
        eapply settled_failed, failed_unsigned; [exact Ho|exact Hl|].
        by eapply Hst; [apply submitted_row|].
  - destruct Hc as [Hs|([r Hr] & _)]; [|done].
    eapply backs_bind; [apply journal_triple|done]. intros _. by eapply settled_unsent.
Qed.

(** ** The policy *)

Lemma policy_store_triple {A} h (m : store_prog A) (Q : pay_history -> result A -> Prop) :
  all_runs m (fun tr r => Q (h ++ map (fun e => pay_ev (PolicyStore (ev_call e)) (ev_resp e)) tr) r) ->
  triple h (with_policy_store m) Q.
Proof.
  revert h. induction m as [a|e|c k IH]; intros h; cbn [with_policy_store all_runs map]; rewrite ?app_nil_r; [done..|].
  intros H r. split; [done|]. apply IH. eapply all_runs_mono; [|exact (H r)].
  intros tr res Hq. by rewrite <- app_assoc.
Qed.

Lemma policy_calls_quiet h (tr : list store_event) :
  quietly h (h ++ map (fun e => pay_ev (PolicyStore (ev_call e)) (ev_resp e)) tr).
Proof. apply quietly_plain, Forall_map, Forall_forall. done. Qed.

Lemma enforce_triple h k :
  triple h (enforceRecurringPaymentPolicy (cm_input k) (cm_subscriptionId k) (cm_dueAt k)) (fun h' r =>
    quietly h h' /\ forall a, r = Ok a -> from h (collection_allowed k) h').
Proof.
  unfold enforceRecurringPaymentPolicy. apply triple_bind_result; [|intros e _; by split; [apply quietly_refl|]].
  intros scope _. unfold database, RecurringCollection.ask.
  apply (triple_ask dp _ (FindPendingApproval _ _ _)); [done| |intros e; split; [quiet_calls|done]].
  intros [p|]; [split; [quiet_calls|done]|]. apply policy_store_triple.
  eapply all_runs_mono; [|apply enforce_policy_allows]. intros tr r H.
  split; [eapply quietly_trans; [|apply policy_calls_quiet]; quiet_calls|].
  intros [operation evaluation] ->. rewrite <- app_assoc. eexists. split; [reflexivity|].
  exists evaluation, tr. split; [exact (H _ eq_refl)|].
  intros e He. apply elem_of_app. right. apply list_elem_of_fmap. by exists e.
Qed.

Lemma allow_and_link_triple h k a :
  held k a h -> after_event (claim_event k) (never is_send) h -> after_event (claim_event k) (never is_link) h ->
  triple h (allow_and_link (cm_input k) (cm_subscriptionId k) (cm_dueAt k) (attempt_id a)) (fun h' r =>
    held k a h' /\ after_event (claim_event k) (never is_send) h'
    /\ forall a' x, r = Ok (a', x) -> held k a' h' /\ linked_by k (transfer_id x) h'
      /\ after_event (claim_event k) (collection_allowed k) h').
Proof.
  intros Ho Hs Hl. unfold allow_and_link.
  assert (forall h', quietly h h' -> held k a h' /\ after_event (claim_event k) (never is_send) h') as Hquiet.
  { intros h' Hq. split; [by eapply held_quietly|by eapply unsent_quietly]. }
  eapply triple_bind; [apply enforce_triple| |].
  2:{ intros h' e [Hq _]. destruct (Hquiet _ Hq). by split_and!. }
  intros h1 r [Hq Hallowed]. specialize (Hallowed r eq_refl).
  apply (triple_ask dp _ NowIso); [done| |].
  2:{ intros e. destruct (Hquiet (h1 ++ [pay_ev NowIso (Err e)])); [|by split_and!].
      eapply quietly_trans; [exact Hq|quiet_calls]. }
  intros updatedAt. set (h2 := h1 ++ _).
  assert (quietly h h2) as Hq2 by (eapply quietly_trans; [exact Hq|unfold h2; quiet_calls]).
  assert (after_event (claim_event k) (collection_allowed k) h2) as Ha2.
  { refine (from_after _ _ _ _ (stays (P := from h (collection_allowed k)) _ _ Hallowed) (after_any _ _ _ Hl)). }
  destruct (Hquiet _ Hq2) as [[Ho2 Hu2] Hs2]. unfold payments. apply (triple_scoped dp _ _ _ (LinkTransfer _ _ _)).
  - intros r'. exists k, a. split_and!; try done; [by eapply unlinked_quietly].
  - intros r'. split_and!.
    + split; [by apply (stays (P := fun h => own_attempt k h a))|]. apply never_last; [exact Hu2|intros []].
    + apply never_last; [exact Hs2|intros []].
    + intros a' x ->. split; [split|split; [|by apply (stays (P := after_event _ (collection_allowed k)))]].
      * eapply own_linked; [by apply (stays (P := fun h => own_attempt k h a))|apply told_last].
      * apply never_last; [exact Hu2|intros []].
      * eexists _, _, a, a', x. split; [by apply (stays (P := fun h => own_attempt k h a))|].
        split; [apply told_last|done].
  - intros e _. by split_and!.
Qed.

(** ** Planning and sending *)

(** What a plan of a claim's collection is. *)
Lemma plan_triple h k planPda subscriptionPda :
  rp_plan_pda (cc_recurringPayment (cm_input k)) = Some planPda ->
  rp_subscription_pda (cc_recurringPayment (cm_input k)) = Some subscriptionPda ->
  triple h (planCollection (cm_input k) planPda subscriptionPda) (fun h' r => quietly h h' /\ forall plan, r = Ok plan ->
    planned_for k (si_instructions (pn_instructions plan)) h'
    /\ si_sourceWallet (pn_instructions plan) = cc_sourceWallet (cm_input k)).
Proof.
  intros Hplan Hsub.
  assert (forall h' (e : jserr), quietly h h' -> quietly h h' /\ forall plan : CollectionPlan, Err e = Ok plan ->
    planned_for k (si_instructions (pn_instructions plan)) h'
    /\ si_sourceWallet (pn_instructions plan) = cc_sourceWallet (cm_input k)) as Herr by done.
  assert (forall h' c (a : result (pay_answer c)), plain_call c -> quietly h h' -> quietly h (h' ++ [pay_ev c a])) as Hcall.
  { intros h' c a Hc Hq. eapply quietly_trans; [exact Hq|]. eexists. split; [reflexivity|]. constructor; [by apply plain_silent|constructor]. }
  unfold planCollection, RecurringCollection.ask.
  apply address_cases; [|intros e _; apply Herr, quietly_refl]. apply address_cases; [|intros e _; apply Herr, quietly_refl].
  apply address_cases; [|intros e _; apply Herr, quietly_refl].
  apply (triple_ask dp _ (CreateOrgSigner _ _)); [done| |intros e; apply Herr, Hcall; [done|apply quietly_refl]].
  intros signer. set (h1 := h ++ _). assert (quietly h h1) as Hq1 by (apply Hcall; [done|apply quietly_refl]).
  destruct (String.eqb_spec signer (cw_publicKey (cc_sourceWallet (cm_input k)))) as [->|]; cbn [negb]; [|by apply Herr].
  apply (triple_ask dp _ (MintTokenProgram _)); [done| |intros e; apply Herr, Hcall; done].
  intros tokenProgram. set (h2 := h1 ++ _). assert (quietly h h2) as Hq2 by by apply Hcall.
  apply (triple_ask dp _ (ResolveSourceTokenAccount _ _ _)); [done| |intros e; apply Herr, Hcall; done].
  intros source. set (h3 := h2 ++ _). assert (quietly h h3) as Hq3 by by apply Hcall.
  assert (told (ResolveSourceTokenAccount (rp_source_address (cc_recurringPayment (cm_input k)))
    (rp_token (cc_recurringPayment (cm_input k))) tokenProgram) source h3) as Hsource by apply told_last.
  apply triple_bind_result; [|intros e _; by apply Herr]. intros amount Hamount%parsed_denotes.
  destruct (Z.leb_spec amount 0) as [|Hpos]; [by apply Herr|].
  apply (triple_ask dp _ (FindAta _ _ _)); [done| |intros e; apply Herr, Hcall; done].
  intros receiver. set (h4 := h3 ++ _). assert (quietly h h4) as Hq4 by by apply Hcall.
  pose proof (told_last (FindAta (rp_destination_address (cc_recurringPayment (cm_input k))) tokenProgram
    (rp_token (cc_recurringPayment (cm_input k)))) receiver h3) as Hreceiver. fold h4 in Hreceiver.
  apply address_cases; [|intros e _; by apply Herr]. apply address_cases; [|intros e _; by apply Herr].
  eapply triple_bind; [apply quiet_any, fee_payment_plain| |intros h' e Hq; apply Herr; by eapply quietly_trans].
  intros h5 scope Hq45. assert (quietly h h5) as Hq5 by by eapply quietly_trans.
  apply (triple_ask dp _ (GetFeePayer _)); [done| |intros e; apply Herr, Hcall; done].
  intros feePayer. set (h6 := h5 ++ _). assert (quietly h h6) as Hq6 by by apply Hcall.
  apply (triple_ask dp _ (BuildInstruction (CreateAta _ _ _ _ _))); [done| |intros e; apply Herr, Hcall; done].
  intros create. set (h7 := h6 ++ _). assert (quietly h h7) as Hq7 by by apply Hcall.
  apply (triple_ask dp _ (BuildInstruction (TransferSubscription _ _ _ _ _ _ _ _))); [done| |intros e; apply Herr, Hcall; done].
  intros collect. set (h8 := h7 ++ _). assert (quietly h h8) as Hq8 by by apply Hcall.
  assert (planned_for k [create; collect] h8) as Hp.
  { assert (quietly h4 h8) as Hq48.
    { eapply quietly_trans; [exact Hq45|]. unfold h8, h7, h6. quiet_calls. }
    assert (h3 ⊆ h4 /\ h4 ⊆ h8 /\ h7 ⊆ h8) as (S34 & S48 & S78).
    { split; [unfold h4; set_solver|]. split; [|unfold h8; set_solver]. apply quietly_prefix in Hq48 as [t ->]. set_solver. }
    exists tokenProgram, source, amount, receiver, feePayer, planPda, subscriptionPda, create, collect.
    split_and!; try done.
    - by apply S48, S34.
    - by apply S48.
    - apply S78, told_last.
    - apply told_last. }
  apply (triple_ask dp _ NowIso); [done| |intros e; apply Herr, Hcall; done].
  intros updatedAt. set (h9 := h8 ++ _). assert (quietly h h9) as Hq9 by by apply Hcall.
  eapply triple_bind; [apply quiet_any; unfold recurringPayments; pay_calls| |intros h' e Hq; apply Herr; by eapply quietly_trans].
  intros h10 updated Hq10. assert (quietly h h10) as Hqa by by eapply quietly_trans.
  destruct updated as [current|]; [|by apply Herr]. apply triple_ret. split; [done|]. intros plan [= <-]. split; [|done].
  cbn [pn_instructions si_instructions]. refine (stays_quietly (planned_for k _) h8 h10 Hp _).
  eapply quietly_trans; [|exact Hq10]. unfold h9. quiet_calls.
Qed.

(** A settled call of a repository. *)
Lemma settled_scoped {A} s h tenant repository c (f : result (pay_answer c) -> pay_prog A) Q :
  (forall r, backed dp h (pay_ev c r)) ->
  (forall h' r, h `prefix_of` h' -> (forall e, r = Err e -> from h (honest dp s e) h') -> (forall a, r = Ok a -> told c a h') ->
     triple h' (f r) Q) ->
  triple h (bind (settled (scoped tenant repository c)) f) Q.
Proof.
  intros Hb Hf.
  eapply triple_after_settled with (Q1 := fun h' r => h `prefix_of` h' /\ (forall e, r = Err e -> from h (honest dp s e) h')
    /\ forall a, r = Ok a -> told c a h').
  - apply triple_scoped; [done| |].
    + intros r. split_and!; [by apply prefix_app_r| |]; intros x ->; [|apply told_last].
      exists [pay_ev c (Err x)]. split; [done|]. apply (honest_last dp c x s []).
    + intros e He. split_and!; [done| |done]. intros e' [= <-]. exists []. rewrite app_nil_r.
      split; [done|]. intros D. congruence.
  - intros h' r (Hp & He & Ht). by apply Hf.
Qed.

(** An attempt of a claim. *)
Definition mine (k : Claim) (a : PaymentSubscriptionCollectionAttemptRow) (h : pay_history) : Prop :=
  own_attempt k h a /\ after_event (claim_event k) (fun _ => True) h.

Lemma held_mine k a h : held k a h -> mine k a h.
Proof. intros [H1 H2]. split; [done|by eapply after_any]. Qed.

Lemma mine_prefix k a h h' : mine k a h -> h `prefix_of` h' -> mine k a h'.
Proof. intros [H1 H2] Hp. split; keep Hp. Qed.

Lemma record_sent_triple k h i attempt xfer signature :
  mine k attempt h ->
  triple h (record_sent i attempt xfer signature) (fun h' r => forall a attempt', r = Ok (a, attempt') ->
    h `prefix_of` h' /\ mine k attempt' h' /\ forall e, a = Err e -> from h (honest dp signature e) h').
Proof.
  intros Ho. unfold record_sent, paymentSubscriptions, payments.
  apply (triple_ask dp _ NowIso); [done| |done]. intros submittedAt. set (h1 := h ++ _).
  assert (h `prefix_of` h1) as Hc1 by (by apply prefix_app_r).
  apply (settled_scoped signature _ _ _ (UpdateAttempt _)); [intros r; by right|]. intros h2 r2 Hc12 He2 Ht2.
  assert (h `prefix_of` h2) as Hc2 by (by etrans).
  pose proof (mine_prefix _ _ _ _ Ho Hc2) as Ho2.
  destruct r2 as [updated|e].
  2:{ apply triple_ret. intros a attempt' [= <- <-]. do 2 (split; [done|]).
      intros e' [= <-]. eapply from_earlier; [apply _|by apply He2|done]. }
  assert (mine k (default attempt updated) h2) as Hnew.
  { destruct updated as [a|]; [|done]. destruct Ho2 as [Ho2 Hu2]. split; [|done].
    eapply own_updated; [exact Ho2| |by apply (Ht2 (Some a))]. done. }
  apply (settled_scoped signature _ _ _ (UpdateTransfer _)); [done|]. intros h3 r3 Hc23 He3 _.
  assert (h `prefix_of` h3) as Hc3 by (by etrans). pose proof (mine_prefix _ _ _ _ Hnew Hc23) as Ho3.
  apply triple_ret.
  destruct r3 as [[row|]|e]; intros a attempt' [= <- <-]; (split; [done|]); (split; [exact Ho3|]); [done| |].
  - intros e [= <-]. destruct Hc3 as [t ->]. exists t. by split.
  - intros e' [= <-]. eapply from_earlier; [apply _|by apply He3|done].
Qed.

Lemma prove_sent_triple h i subscription dueAt plan attempt xfer signature :
  triple h (prove_sent i subscription dueAt plan attempt xfer signature)
    (verified (mkVerify (pn_recurringPayment plan) subscription attempt xfer signature dueAt (pn_receiverAta plan)) h).
Proof.
  unfold prove_sent. eapply triple_bind; [apply confirm_triple| |].
  - intros h1 [] [Hq _]. eapply triple_mono; [|apply verify_triple]. intros h' r [Hq' Hr].
    split; [exact (quietly_trans _ _ _ Hq Hq')|]. destruct r; [done|].
    eapply from_earlier; [apply _|exact Hr|by apply quietly_prefix].
  - intros h' e [Hq He]. apply verified_error; [done|by apply He].
Qed.

Lemma finish_sent_triple k id h i subscription dueAt plan attempt xfer st signature :
  mine k attempt h -> store_known k id h st -> is_Some (submittedRow st) ->
  linked_by k id h -> own_signature dp k id signature h ->
  backs h (finish_sent dp i subscription dueAt plan attempt xfer st signature).
Proof.
  intros Ho Hst Hr Hl Hw. unfold finish_sent.
  eapply backs_bind; [by apply record_sent_triple|]. intros h1 [recorded attempt1] H1.
  destruct (H1 _ _ eq_refl) as (Hp1 & Ho1 & He1). clear H1.
  assert (store_known k id h1 st) as Hst1 by keep Hp1.
  assert (linked_by k id h1) as Hl1 by keep Hp1. assert (own_signature dp k id signature h1) as Hw1 by keep Hp1.
  destruct recorded as [xfer1|e].
  2:{ eapply handle_triple; [apply Ho1|]. split; [exact Hst1|]. right. do 2 (split; [done|]).
      exists signature. split; [done|]. eapply from_after; [apply _|by apply He1|apply Ho]. }
  eapply triple_after_settled; [apply prove_sent_triple|]. intros h2 r [Hq Hr2]. destruct r as [proof|e].
  - destruct Hr2 as (-> & Hm & Hc). eapply backs_bind; [exact (finalize_triple _ _ _ _ Hm Hc)|done].
  - destruct Ho1 as [Ho1 Hk1]. eapply handle_triple; [keep Hq|].
    split; [keep Hq|]. right. split; [done|]. split; [keep Hq|]. exists signature. split; [keep Hq|].
    eapply from_after; [apply _|exact Hr2|exact Hk1].
Qed.

Lemma fresh_store_ok k id h : store_known k id h fresh_store.
Proof. done. Qed.

(** The addresses the collection is given are those of its recurring payment. *)
Definition addresses_of_claim (k : Claim) (planPda subscriptionPda : string) : Prop :=
  rp_plan_pda (cc_recurringPayment (cm_input k)) = Some planPda
  /\ rp_subscription_pda (cc_recurringPayment (cm_input k)) = Some subscriptionPda.

Lemma send_linked_triple k h subscription dueAt planPda subscriptionPda attempt xfer :
  addresses_of_claim k planPda subscriptionPda -> held k attempt h -> after_event (claim_event k) (never is_send) h -> linked_by k (transfer_id xfer) h ->
  after_event (claim_event k) (collection_allowed k) h ->
  backs h (send_linked dp (cm_input k) subscription dueAt planPda subscriptionPda attempt xfer).
Proof.
  intros [Hpda Hsda] Ho Hs Hl Ha. unfold send_linked.
  eapply triple_after_settled; [by apply plan_triple|]. intros h1 planned [Hq1 Hplan].
  pose proof (held_quietly _ _ _ _ Ho Hq1) as Ho1. pose proof (unsent_quietly _ _ _ Hs Hq1) as Hs1.
  destruct planned as [plan|e].
  2:{ eapply (handle_triple _ (transfer_id xfer)); [apply Ho1|]. split; [apply fresh_store_ok|by left]. }
  destruct (Hplan plan eq_refl) as [Hpl Hw].
  eapply backs_bind; [apply (send_with_store_triple dp k h1); [exact (stays_quietly (after_event _ (collection_allowed k)) _ _ Ha Hq1)|exact Hpl|by rewrite Hw| |apply Ho1]|].
  { exact (stays_quietly (linked_by k _) _ _ Hl Hq1). }
  intros h2 x (a & st & [= ->] & Hp & Hst & Hc).
  pose proof (mine_prefix _ _ _ _ (held_mine _ _ _ Ho1) Hp) as Ho2.
  assert (linked_by k (transfer_id xfer) h2) as Hl2.
  { exact (stays_prefix (linked_by k _) _ _ (stays_quietly (linked_by k _) _ _ Hl Hq1) Hp). }
  destruct a as [signature|e].
  - destruct Hc as [[_ [e ?]]|(Hr & s & Hown & Ev & _)]; [done|]. rewrite (Ev _ eq_refl).
    eapply finish_sent_triple; [exact Ho2|exact Hst|exact Hr|exact Hl2|exact Hown].
  - eapply handle_triple; [apply Ho2|]. split; [exact Hst|].
    destruct Hc as [[Hq _]|(Hr & s & Hown & _ & He)]; [left; by eapply unsent_quietly|].
    right. split; [done|]. split; [exact Hl2|]. exists s. split; [done|by apply He].
Qed.

Lemma collect_claimed_triple k h subscription planPda subscriptionPda attempt :
  sb_id subscription = cm_subscriptionId k -> addresses_of_claim k planPda subscriptionPda -> held k attempt h ->
  after_event (claim_event k) (never is_send) h -> after_event (claim_event k) (never is_link) h ->
  backs h (collect_claimed dp (cm_input k) subscription (cm_dueAt k) planPda subscriptionPda attempt).
Proof.
  intros Es Hpdas Ho Hs Hl. unfold collect_claimed. rewrite Es.
  eapply triple_after_settled; [by apply allow_and_link_triple|].
  intros h1 r (Ho1 & Hs1 & Hr). destruct r as [[a x]|e].
  - destruct (Hr a x eq_refl) as (? & ? & ?). by eapply send_linked_triple.
  - eapply (handle_triple _ ""); [apply Ho1|]. split; [apply fresh_store_ok|by left].
Qed.

Lemma claim_triple h i o planPda subscriptionPda nowIso :
  rp_plan_pda (cc_recurringPayment i) = Some planPda -> rp_subscription_pda (cc_recurringPayment i) = Some subscriptionPda ->
  backs h (claim_and_collect dp i o planPda subscriptionPda nowIso).
Proof.
  intros Hpda Hsda. unfold claim_and_collect, paymentSubscriptions. apply (triple_ask dp _ NewUuid); [done|intros u|done].
  set (k := mkClaim u i (sb_id (co_subscription o)) (co_dueAt o) nowIso).
  assert (forall P, after_event (claim_event k) (never P) (h ++ [pay_ev NewUuid (Ok u)])) as Hk.
  { intros P. exists h, []. split; [done|constructor]. }
  apply (scoped_call _ _ _ (CreateAttempt _)); [| |done].
  { intros r. exists k. split; [done|apply Hk]. }
  intros [attempt|].
  - apply (collect_claimed_triple k); [done|by split| | |].
    + split; [apply own_created, told_last|]. apply never_last; [apply Hk|intros []].
    + apply never_last; [apply Hk|intros []].
    + apply never_last; [apply Hk|intros []].
  - eapply backs_bind; [apply recover_triple|]. by intros h' [c|] _.
Qed.

Lemma collectable_plain i subscription planId dueAt : calls_within plain_call (assert_collectable i subscription planId dueAt).
Proof. unfold assert_collectable. pay_calls. Qed.

Lemma records_addresses i records :
  collectionRecords i = Ok records ->
  rp_plan_pda (cc_recurringPayment i) = Some (rc_planPda records)
  /\ rp_subscription_pda (cc_recurringPayment i) = Some (rc_subscriptionPda records).
Proof.
  unfold collectionRecords. repeat (case_match; try done). intros [= <-]. cbn [rc_planPda rc_subscriptionPda].
  split; by apply given_some.
Qed.

Lemma collect_triple h i : backs h (collectRecurringPayment dp i).
Proof.
  unfold collectRecurringPayment, paymentSubscriptions. apply triple_bind_result; [intros records Hr|done].
  apply records_addresses in Hr as [Hpda Hsda].
  apply (triple_ask dp _ NowIso); [done|intros nowIso|done].
  apply scoped_call; [done| |done]. intros [subscription|]; [|done].
  eapply backs_bind; [apply recover_triple|]. intros h1 [c|] _; [done|].
  eapply backs_bind; [apply plain_backs, collectable_plain|]. intros h2 [] _. by apply claim_triple.
Qed.

(** ** Cancelling and resuming *)

Lemma operation_failed_plain {A} i attempt stage signature error :
  calls_within plain_call (operation_failed (A := A) i attempt stage signature error).
Proof.
  unfold operation_failed, preserveRecoverableLifecycleAttempt, recordLifecycleFailure, reset_claim, update_stage. pay_calls.
Qed.

Lemma attempt_plain i claimed nowIso : calls_within plain_call (getOrCreateLifecycleAttempt i claimed nowIso).
Proof. unfold getOrCreateLifecycleAttempt, reset_claim. pay_calls. Qed.

Lemma token_plain token tenant : calls_within plain_call (assertRecurringPaymentTokenMint dp token tenant).
Proof. unfold assertRecurringPaymentTokenMint. pay_calls. Qed.

Lemma subscription_plain tenant subscriptionId (known : option PaymentSubscriptionRow) :
  calls_within plain_call (match known with
    | Some s => if String.eqb (sb_id s) subscriptionId then Ret (Some s)
                else paymentSubscriptions tenant (GetSubscription tenant subscriptionId)
    | None => paymentSubscriptions tenant (GetSubscription tenant subscriptionId)
    end).
Proof. pay_calls. Qed.

Lemma plan_operation_plain i claimed known : calls_within plain_call (planOperation dp i claimed known).
Proof.
  unfold planOperation. repeat (case_match; [|apply within_throw]).
  apply within_bind; [apply subscription_plain|]. intros [subscription|]; [|apply within_throw].
  apply within_bind; [pay_calls|]. intros [plan|]; [|apply within_throw].
  apply within_bind; [apply token_plain|]. intros mint. pay_calls.
Qed.

Lemma send_operation_triple h i attempt plan : triple h (send_operation dp i attempt plan) (fun h' _ => quietly h h').
Proof.
  unfold send_operation.
  eapply triple_bind; [apply quiet_any; by apply (plain_ask NowIso)| |done]. intros h1 updatedAt Hq1.
  eapply triple_bind; [apply quiet_any; unfold update_stage; pay_calls| |intros h' e Hq; by exact (quietly_trans _ _ _ Hq1 Hq)].
  intros h2 row Hq2.
  eapply triple_bind; [apply quiet_any; unfold buildLifecycleInstruction; pay_calls| |].
  2:{ intros h' e Hq. exact (quietly_trans _ _ _ Hq1 (quietly_trans _ _ _ Hq2 Hq)). }
  intros h3 instruction Hq3. eapply triple_mono; [|apply send_sponsored_triple]. intros h' r Hq.
  exact (quietly_trans _ _ _ Hq1 (quietly_trans _ _ _ Hq2 (quietly_trans _ _ _ Hq3 Hq))).
Qed.

Lemma finish_operation_plain i claimed plan attempt stage signature :
  calls_within plain_call (finish_operation i claimed plan attempt stage signature).
Proof.
  unfold finish_operation, confirmSubscriptionSignature. apply within_bind; [pay_calls|].
  intros [r|e]; [|apply operation_failed_plain]. unfold finalizeRecurringPaymentLifecycle. pay_calls.
Qed.

Lemma run_claimed_triple h i claimed known attempt : backs h (run_claimed dp i claimed known attempt).
Proof.
  unfold run_claimed. eapply triple_after_settled; [apply plain_backs, plan_operation_plain|].
  intros h1 [plan|e] _; [|apply plain_backs, operation_failed_plain].
  destruct (given _); [apply plain_backs, finish_operation_plain|].
  eapply triple_after_settled; [apply send_operation_triple|].
  intros h2 [signature|e] _; [|apply plain_backs, operation_failed_plain].
  eapply triple_after_settled; [apply plain_backs; unfold update_stage; pay_calls|].
  intros h3 [row|e] _; apply plain_backs; [apply finish_operation_plain|apply operation_failed_plain].
Qed.

Lemma lifecycle_triple h i : backs h (runRecurringPaymentLifecycle dp i).
Proof.
  unfold runRecurringPaymentLifecycle. apply (triple_ask dp _ NowIso); [done|intros nowIso|done].
  apply triple_bind_result; [intros [] _|done]. destruct (is_final _ _); [done|].
  eapply backs_bind with (Q1 := anything); [destruct (oi_operation i); [done|apply recover_or_block_triple]|].
  intros h1 [rp known] _. apply (triple_ask dp _ NowIso); [done|intros later|done].
  apply triple_bind_result; [intros [] _|done]. destruct (is_final _ _); [done|].
  apply (triple_ask dp _ NowIso); [done|intros updatedAt|done].
  apply triple_bind_result; [intros staleBefore _|done]. unfold recurringPayments.
  apply (scoped_call _ _ _ (ClaimLifecycle _ _ _ _ _)); [done| |done]. intros [claimed|]; [|done].
  eapply backs_bind; [apply plain_backs, attempt_plain|]. intros h2 attempt _. apply run_claimed_triple.
Qed.

Lemma cancel_triple h tenant wallet rp : backs h (cancelRecurringPayment dp tenant wallet rp).
Proof.
  unfold cancelRecurringPayment. destruct (bool_decide _); [apply plain_backs; pay_calls|apply lifecycle_triple].
Qed.

(** ** Activating *)

Ltac activation_calls :=
  unfold resetRecurringPaymentActivationUnlessAlreadyActive, set_stage, recurringRepo, subscriptionsRepo,
    RecurringActivation.ask; pay_calls.

Lemma activation_failed_plain {A} i claimed attempt stage error :
  calls_within plain_call (activation_failed (A := A) i claimed attempt stage error).
Proof. unfold activation_failed, recordActivationFailure. activation_calls. Qed.

Lemma stage_triple {A} h i claimed attempt stage (m : pay_prog A) :
  backs h m -> backs h (in_stage i claimed attempt stage m).
Proof. intros H. eapply backs_catch; [exact H|]. intros h' e _. apply plain_backs, activation_failed_plain. Qed.

Lemma activation_attempt_plain i claimed nowIso stale :
  calls_within plain_call (createClaimedActivationAttempt i claimed nowIso stale).
Proof. unfold createClaimedActivationAttempt, or_reset. activation_calls. Qed.

Lemma activation_plan_plain i claimed destination :
  calls_within plain_call (getOrCreateActivationPlan i claimed destination).
Proof. unfold getOrCreateActivationPlan. activation_calls. Qed.

Lemma activation_subscription_plain i claimed planId :
  calls_within plain_call (getOrCreateActivationSubscription i claimed planId).
Proof. unfold getOrCreateActivationSubscription. activation_calls. Qed.

Lemma confirm_plain signature message : calls_within plain_call (confirmSubscriptionSignature signature message).
Proof. unfold confirmSubscriptionSignature. pay_calls. Qed.

Lemma fetch_plain {A} signature thisRun (fetch : pay_prog (option A)) :
  calls_within plain_call fetch -> calls_within plain_call (fetch_confirmed signature thisRun fetch).
Proof.
  intros H. unfold fetch_confirmed. destruct thisRun.
  - apply within_bind; [apply confirm_plain|done].
  - apply within_bind; [done|]. intros [a|]; [apply within_ret|]. apply within_bind; [apply confirm_plain|done].
Qed.

(** A step of an activation: calls that rest on nothing, or a transaction the paymaster
    sends. *)
Ltac activation_step :=
  eapply backs_bind;
  [first
    [ solve [apply plain_backs; first
        [ apply fee_payment_plain | apply activation_plan_plain | apply activation_subscription_plain | apply confirm_plain
        | apply fetch_plain; by apply plain_ask
        | activation_calls ]]
    | solve [eapply triple_mono; [|apply send_sponsored_triple]; done] ]
  |intros ? ? _].

Ltac activation_steps :=
  repeat first
    [ done
    | activation_step
    | case_match ].

Lemma create_plan_triple h i claimed attempt known amount destination mint owner signer tokenProgram programPlanId :
  backs h (create_plan dp i claimed attempt known amount destination mint owner signer tokenProgram programPlanId).
Proof. unfold create_plan. activation_steps. Qed.

Lemma establish_plan_triple h i claimed attempt : backs h (establish_plan dp i claimed attempt).
Proof.
  unfold establish_plan, fetchConfirmedActivationPlan. activation_steps.
  eapply backs_bind; [apply create_plan_triple|intros ? [? ?] _]. activation_steps.
Qed.

Lemma authority_triple h i attempt p authority authorityAddress feePayer :
  backs h (prepareSubscriptionAuthorityForActivation dp i attempt p authority authorityAddress feePayer).
Proof. unfold prepareSubscriptionAuthorityForActivation. activation_steps. Qed.

Lemma authorize_triple h i claimed attempt known p authorityAddress :
  backs h (authorize_subscription dp i claimed attempt known p authorityAddress).
Proof.
  unfold authorize_subscription. activation_steps.
  eapply backs_bind; [apply authority_triple|intros ? ? _]. activation_steps.
Qed.

Lemma establish_subscription_triple h i claimed attempt p : backs h (establish_subscription dp i claimed attempt p).
Proof.
  unfold establish_subscription. activation_steps.
  eapply backs_bind; [apply authorize_triple|intros ? [? ?] _]. done.
Qed.

Lemma finalize_activation_triple h i claimed attempt p s : backs h (finalize_activation i claimed attempt p s).
Proof. unfold finalize_activation, fetchConfirmedSubscriptionDelegation. activation_steps. Qed.

Lemma activate_triple h i : backs h (activateRecurringPayment dp i).
Proof.
  unfold activateRecurringPayment. activation_step. activation_step.
  destruct (bool_decide _).
  - eapply backs_bind; [|done]. apply plain_backs. unfold settleActiveActivationAttempt. activation_calls.
  - activation_step. activation_step. case_match.
    + eapply backs_bind; [apply plain_backs, activation_attempt_plain|intros ? attempt _]. unfold activate_claimed.
      eapply backs_bind; [apply stage_triple, establish_plan_triple|intros ? plan _].
      eapply backs_bind; [apply stage_triple, establish_subscription_triple|intros ? subscription _].
      apply stage_triple, finalize_activation_triple.
    + eapply backs_bind; [|done]. apply plain_backs. unfold journalActivationClaimConflict. activation_calls.
Qed.

(** ** The job *)

Lemma wallet_triple h row f : (forall h' wallet, backs h' (f wallet)) -> backs h (with_source_wallet row f).
Proof.
  intros Hf. unfold with_source_wallet. eapply backs_catch with (Q1 := anything); [|done].
  eapply backs_bind; [apply plain_backs; unfold resolveSourceWallet, RecurringJob.ask; pay_calls|].
  intros h1 [wallet|] _; [apply Hf|done].
Qed.

Lemma collect_row_triple h row : backs h (collectRow dp row).
Proof. apply wallet_triple. intros h' wallet. eapply backs_bind; [apply collect_triple|done]. Qed.

Lemma lifecycle_row_triple h row : backs h (recoverLifecycleRow dp row).
Proof.
  apply wallet_triple. intros h' wallet. destruct (rp_status row); try done.
  - eapply backs_bind; [apply activate_triple|done].
  - eapply backs_bind; [apply cancel_triple|done].
  - eapply backs_bind; [apply lifecycle_triple|done].
Qed.

Lemma pass_triple h f key rows r : (forall h' row, backs h' (f row)) -> backs h (rows_pass f key rows r).
Proof.
  intros Hf. revert h r. induction rows as [|row rows IH]; intros h r; cbn; [done|].
  eapply backs_bind; [apply Hf|]. intros h' outcome _. apply IH.
Qed.

Lemma job_triple h now : backs h (collectDueRecurringPayments dp now).
Proof.
  unfold collectDueRecurringPayments. do 3 (apply triple_bind_result; [intros ? _|done]).
  apply (triple_ask dp _ (ListStaleLifecycles _ _)); [done|intros stale|done].
  eapply backs_bind; [apply pass_triple, lifecycle_row_triple|]. intros h1 r1 _.
  apply (triple_ask dp _ (ListRecoverableCollections _ _)); [done|intros stopped|done].
  eapply backs_bind; [apply pass_triple, collect_row_triple|]. intros h2 r2 _.
  apply (triple_ask dp _ (ListDueCollections _ _ _)); [done|intros due|done].
  apply pass_triple, collect_row_triple.
Qed.
End Safety.
