(* ===== verification/RecurringGuarantees.v ===== *)
(** * Recurring payments: what any mix of runs guarantees

    Any number of collections, operations, jobs and trackers at once, over the tables of
    PaymentTables.v. What each run's own calls rest on (RecurringSafety.v) is read against
    the tables and the calls of the others. *)
From Stdlib Require Import Ascii String ZArith Lia.
From stdpp Require Import base list strings sets.
From S2P Require Import Prelude Rows Text Dates Amount TransientRpc PolicyTypes PolicyEnforce PolicyService BudgetTypes BudgetService.
From S2P Require Import Pool History PaymentTables RecurringLifecycle RecurringTransactions PaymentCalls SignedSubmission.
From S2P Require Import RecurringCollection RecurringOperations RecurringJob TransferTracker RecurringInvariant RecurringRequests RecurringScenario RecurringClaims.
From S2P Require Import RecurringEvidence RecurringSubmission TrackerSafety RecurringSafety.

Local Open Scope string_scope.
Local Open Scope Z_scope.
Local Open Scope list_scope.
Local Open Scope sdp_scope.

(** ** What a log shows *)

Definition uuid_of (e : pay_event) : list string :=
  match ev_call e as c return result (pay_answer c) -> list string with
  | NewUuid => fun a => match a with Ok u => [u] | Err _ => [] end
  | _ => fun _ => []
  end (ev_resp e).

(** What was sent: by which run, and the stored form of the bytes. *)
Definition sent_of {K : PaymentKit} (x : nat * pay_event) : list (nat * string) :=
  match ev_call x.2 with SendTransaction bytes => [(x.1, base64_text bytes)] | _ => [] end.

Definition uuids (tr : pay_log) : list string := flat_map (fun x => uuid_of x.2) tr.
Definition persisted_ids (tr : pay_log) : list string := flat_map (fun x => persisted_of x.2) tr.
Definition linked_ids (tr : pay_log) : list string := flat_map (fun x => linked_of x.2) tr.
Definition sends {K : PaymentKit} (tr : pay_log) : list (nat * string) := flat_map sent_of tr.

(** Generated ids are new. *)
Definition distinct_ids (s0 : PayTables) (tr : pay_log) : Prop :=
  NoDup (uuids tr) /\ forall u a, u ∈ uuids tr -> a ∈ attempts s0 -> attempt_id a <> ("psca_" ++ u)%string.

(** The period a claim is of. *)
Definition claim_cycle (k : Claim) : Cycle := attempt_cycle (claim_row k).
Definition claim_id (k : Claim) : string := attempt_id (claim_row k).

Section Log.
Context {K : PaymentKit}.
Variable dp : Deployment.

(** A run settled an attempt as failed, for a reason. *)
Definition settled_for (P : pay_history -> PaymentSubscriptionCollectionAttemptRow -> Prop) (tr : pay_log) (id : string) : Prop :=
  exists pre j i r post, tr = pre ++ (j, pay_ev (SettleFailed i) r) :: post
    /\ attempt_id (sf_attempt i) = id /\ P (calls_of j pre) (sf_attempt i).

Definition settled_in (tr : pay_log) (id : string) : Prop := settled_for (settle_backed dp) tr id.

(** An attempt of the run's own. *)
Definition own_settled (h : pay_history) (a : PaymentSubscriptionCollectionAttemptRow) : Prop :=
  exists k, own_attempt k h a /\ after_event (claim_event k) (never is_send) h.

(** A claim was given up because its transaction was known, or found, to have failed. *)
Definition given_up (tr : pay_log) (k : Claim) : Prop := settled_for (known_failed dp) tr (claim_id k).

(** A transaction was sent for the transfer of a claim. *)
Definition sent_for (tr : pay_log) (k : Claim) (id : string) : Prop :=
  exists pre j b r post, tr = pre ++ (j, pay_ev (SendTransaction b) r) :: post /\ sending dp k id b (calls_of j pre).

(** A send of a log is of a claim and a transfer: the run that makes it had, before it,
    linked the transfer to the attempt of the claim; had the policy allow that collection,
    built its transaction from its own fields, and had it signed by its wallet and by the
    fee payer; persisted those bytes as the transfer's with their signature; started the
    transfer; and not given the attempt up. *)
Definition sent_as (tr : pay_log) (x : nat * string) (k : Claim) (id : string) : Prop :=
  exists pre bytes r post, tr = pre ++ (x.1, pay_ev (SendTransaction bytes) r) :: post /\ x.2 = base64_text bytes
    /\ sending dp k id bytes (calls_of x.1 pre) /\ persisted_for dp k id bytes (calls_of x.1 pre).

(** The row of a transfer whose transaction was sent. *)
Definition on_record (s : PayTables) (id signedTransaction : string) : Prop :=
  exists r, r ∈ transfers s /\ transfer_id r = id /\ xf_signed_transaction r = Some signedTransaction
    /\ is_Some (xf_submission_started_at r).

Record explained (s0 : PayTables) (tr : pay_log) (s : PayTables) : Prop := mkExplained {
  ex_sound : pay_sound s;
  ex_later : later_pay s0 s;
  ex_given : forall j e, (j, e) ∈ tr -> as_given s e;
  ex_persisted : NoDup (persisted_ids tr);
  ex_linked : NoDup (linked_ids tr);
  ex_down : forall a, a ∈ attempts s -> holds_cycle (ca_status a) = false ->
    was_down s0 a \/ settled_in tr (attempt_id a);
}.
End Log.

(** * Lemmas *)

(** ** Every log is explained *)

Section Explained.
Context {K : PaymentKit}.
Variable dp : Deployment.
Variable text_le : string -> string -> bool.

Lemma settled_mono P tr x id : settled_for P tr id -> settled_for P (tr ++ [x]) id.
Proof.
  intros (pre & j & i & r & post & -> & E & H). exists pre, j, i, r, (post ++ [x]). split; [by rewrite <- app_assoc|done].
Qed.

Lemma payments_explained_start s0 : pay_sound s0 -> explained dp s0 [] s0.
Proof.
  intros H. constructor; [done|apply later_pay_refl|intros j e He; by apply elem_of_nil in He|constructor|constructor|].
  intros a Ha Hd. left. by exists a.
Qed.

(** The ids a call adds are new: the tables show those before. *)
Lemma new_ids (f : pay_event -> list string) (tr : pay_log) (i : nat) e :
  NoDup (flat_map (fun x : nat * pay_event => f x.2) tr) -> (length (f e) <= 1)%nat ->
  (forall id, id ∈ f e -> forall j e0, (j, e0) ∈ tr -> id ∉ f e0) ->
  NoDup (flat_map (fun x : nat * pay_event => f x.2) (tr ++ [(i, e)])).
Proof.
  intros Hn Hl Hnew. rewrite flat_map_app. cbn. rewrite app_nil_r. apply NoDup_app. split; [done|]. split.
  - intros id Hin Hid. apply list_elem_of_In, in_flat_map in Hin as ([j e0] & Hin & H0).
    apply list_elem_of_In in Hin, H0. by apply (Hnew id Hid j e0 Hin).
  - destruct (f e) as [|x [|y l]]; [constructor|apply NoDup_singleton|cbn in Hl; lia].
Qed.

Lemma persisted_given s e id : as_given s e -> id ∈ persisted_of e ->
  exists r, r ∈ transfers s /\ transfer_id r = id /\ is_Some (xf_signed_transaction r).
Proof.
  destruct e as [c a]; destruct c; cbn; try (intros _ H; by apply elem_of_nil in H).
  destruct a as [[r|]|]; try (intros _ H; by apply elem_of_nil in H).
  intros Hg ->%list_elem_of_singleton. destruct (Hg r eq_refl) as ((r' & Hr & L) & Hid & Hs & _).
  exists r'. split; [done|]. split; [rewrite (later_transfer_id _ _ L); exact Hid|].
  eexists. exact (later_signed _ _ L _ Hs).
Qed.

Lemma linked_given s e id : as_given s e -> id ∈ linked_of e -> exists r, r ∈ transfers s /\ transfer_id r = id.
Proof.
  destruct e as [c a]; destruct c; cbn; try (intros _ H; by apply elem_of_nil in H).
  destruct a as [[a x]|]; try (intros _ H; by apply elem_of_nil in H).
  intros Hg ->%list_elem_of_singleton. destruct (Hg a x eq_refl) as ((r & Hr & L) & _).
  exists r. split; [done|exact (later_transfer_id _ _ L)].
Qed.

Lemma failing_backed h c a r : failing c a -> holds_cycle (ca_status a) = false -> backed dp h (pay_ev c r) ->
  exists i, c = SettleFailed i /\ attempt_id (sf_attempt i) = attempt_id a /\ settle_backed dp h (sf_attempt i).
Proof.
  intros Hf Hd Hb. destruct c; try done; cbn in Hf.
  - subst a. destruct Hb as (k & -> & _). done.
  - destruct Hb as [E|E]; cbn in E; rewrite E in Hf; [done|]. injection Hf as Hf. by rewrite <- Hf in Hd.
  - by exists i.
Qed.

Lemma payments_explained_step s0 tr s i e s' :
  explained dp s0 tr s -> backed dp (calls_of i tr) e -> pay_answers text_le s e s' ->
  explained dp s0 (tr ++ [(i, e)]) s'.
Proof.
  intros [Hs Hl Hg Hp Hk Hd] Hb Ha. destruct (answers_kept _ _ _ _ Ha) as [Hkeep Hdown].
  destruct (Hkeep Hs) as [Hs' Hl']. constructor.
  - done.
  - by eapply later_pay_trans.
  - intros j e' [H|H%list_elem_of_singleton]%elem_of_app; [eapply answered_later; [by eapply Hg|done]|].
    injection H as -> ->. by eapply answers_given.
  - apply new_ids; [exact Hp| |].
    { destruct e as [c a]; destruct c; cbn; try lia. destruct a as [[r|]|]; cbn; lia. }
    intros id Hid j e0 H0 Hid0. destruct (persisted_given _ _ _ (Hg j e0 H0) Hid0) as (r & Hr & Er & [b Es]).
    by rewrite (persists_unsigned _ _ _ _ _ Ha Hid r Hs Hr Er) in Es.
  - apply new_ids; [exact Hk| |].
    { destruct e as [c a]; destruct c; cbn; try lia. destruct a as [[a x]|]; cbn; lia. }
    intros id Hid j e0 H0 Hid0. destruct (linked_given _ _ _ (Hg j e0 H0) Hid0) as (r & Hr & Er).
    exact (links_fresh _ _ _ _ _ Ha Hid r Hs Hr Er).
  - intros a Hin Hdn. destruct (Hdown a Hin Hdn) as [(a0 & Ha0 & Eid & Hdn0)|Hf].
    + rewrite <- Eid. destruct (Hd a0 Ha0 Hdn0) as [(a1 & H1 & E1 & D1)|H]; [left; exists a1; by rewrite E1|right].
      by apply settled_mono.
    + destruct e as [c r]. destruct (failing_backed _ _ _ _ Hf Hdn Hb) as (i0 & Ec & Eid & Hbk). cbn in Ec. subst c.
      right. exists tr, i, i0, r, []. split; [done|]. by split.
Qed.
End Explained.

(** ** Claims *)

Section Claims.
Context {K : PaymentKit}.
Variable dp : Deployment.

Lemma claim_id_of k : claim_id k = ("psca_" ++ cm_id k)%string.
Proof. done. Qed.

Lemma claim_ids k k' : claim_id k = claim_id k' -> cm_id k = cm_id k'.
Proof. unfold claim_id, attempt_id. cbn. by intros [= E]. Qed.

Lemma claim_events k k' : cm_id k = cm_id k' -> claim_event k = claim_event k'.
Proof. unfold claim_event. by intros ->. Qed.

(** All of the rows a run was given of its attempt have its id. *)
Lemma own_attempt_id (tr : pay_log) s (j : nat) k h a :
  (forall j e, (j, e) ∈ tr -> as_given s e) -> (forall e, e ∈ h -> (j, e) ∈ tr) -> own_attempt k h a ->
  attempt_id a = claim_id k.
Proof.
  intros Hg Hh. induction 1 as [a Ht|a i at_ a' x _ IH Ht|a i a' _ IH Hid Ht].
  - by destruct (Hg _ _ (Hh _ Ht) a eq_refl) as [_ H].
  - rewrite <- IH. by destruct (Hg _ _ (Hh _ Ht) a' x eq_refl) as (_ & _ & H).
  - rewrite <- IH, <- Hid. by destruct (Hg _ _ (Hh _ Ht) a' eq_refl) as [_ H].
Qed.

(** The id of a claim is given to one run, at one place. *)
Lemma claim_place (tr : pay_log) j k h1 P j' k' h2 P' pre post pre' post' :
  NoDup (uuids tr) -> cm_id k = cm_id k' ->
  tr = pre ++ post -> calls_of j pre = h1 -> after_event (claim_event k) P h1 ->
  tr = pre' ++ post' -> calls_of j' pre' = h2 -> after_event (claim_event k') P' h2 ->
  j = j' /\ exists b mid mid', pre = b ++ (j, claim_event k) :: mid /\ pre' = b ++ (j, claim_event k) :: mid'
    /\ P (calls_of j mid) /\ P' (calls_of j mid').
Proof.
  intros Hn Ek E1 <- (b1 & a1 & C1 & H1) E2 <- (b2 & a2 & C2 & H2).
  apply calls_of_split in C1 as (p1 & q1 & -> & _ & <-), C2 as (p2 & q2 & -> & _ & <-).
  rewrite (claim_events _ _ (eq_sym Ek)) in E2. rewrite <- app_assoc in E1, E2. cbn in E1, E2.
  rewrite E1 in Hn, E2.
  destruct (same_place (fun x => uuid_of x.2) p1 (j, claim_event k) (q1 ++ post) p2 (j', claim_event k) (q2 ++ post')
              (cm_id k) E2 Hn) as (-> & E & _); [by left..|].
  injection E as <-. split; [done|]. exists p2, q1, q2. by rewrite (claim_events _ _ (eq_sym Ek)).
Qed.

(** A log whose calls are backed. *)
Definition log_backed (tr : pay_log) : Prop :=
  forall pre j e post, tr = pre ++ (j, e) :: post -> backed dp (calls_of j pre) e.

Lemma log_backed_before tr tr' : log_backed (tr ++ tr') -> log_backed tr.
Proof. intros H pre j e post ->. apply (H pre j e (post ++ tr')). by rewrite <- app_assoc. Qed.

(** Of two places in a list, one is before the other or they are one. *)
Lemma two_places {A} (l1 l2 : list A) x y r1 r2 :
  l1 ++ x :: r1 = l2 ++ y :: r2 -> (x = y /\ l1 = l2) \/ x ∈ l2 \/ y ∈ l1.
Proof.
  revert l2. induction l1 as [|z l1 IH]; intros [|z' l2] E; cbn in E.
  - injection E as -> _. by left.
  - injection E as -> _. right. left. by left.
  - injection E as -> _. right. right. by left.
  - injection E as -> E. destruct (IH _ E) as [[-> ->]|[H|H]]; [by left|right; left; by right|right; right; by right].
Qed.

(** Of two calls made under one claim the earlier is among the later's. *)
Lemma same_claim tr k k' pre j e post pre' j' e' post' P P' :
  NoDup (uuids tr) -> cm_id k = cm_id k' ->
  tr = pre ++ (j, e) :: post -> after_event (claim_event k) (never P) (calls_of j pre) ->
  tr = pre' ++ (j', e') :: post' -> after_event (claim_event k') (never P') (calls_of j' pre') ->
  j = j' /\ ((e = e' /\ pre = pre') \/ ~ P' e \/ ~ P e').
Proof.
  intros Hn Ek E1 H1 E2 H2.
  destruct (claim_place tr j k _ _ j' k' _ _ pre _ pre' _ Hn Ek E1 eq_refl H1 E2 eq_refl H2)
    as (<- & b & m & m' & -> & -> & Hm & Hm').
  split; [done|]. rewrite E1, <- !app_assoc in E2. cbn in E2. apply app_inv_head in E2. injection E2 as E2.
  apply two_places in E2 as [[E ->]|[Hin|Hin]]; [injection E as ->; by left|right; left|right; right];
    apply calls_of_in in Hin; unfold never in *; rewrite Forall_forall in Hm, Hm'; auto.
Qed.

(** ** A claim has one transfer, sent before it is given up for a reason *)

Lemma link_place tr s k id j pre post :
  (forall j e, (j, e) ∈ tr -> as_given s e) -> log_backed tr -> tr = pre ++ post -> linked_by k id (calls_of j pre) ->
  exists p e q k', tr = p ++ (j, e) :: q /\ is_link e /\ id ∈ linked_of e /\ cm_id k' = cm_id k
    /\ after_event (claim_event k') (never is_link) (calls_of j p)
    /\ after_event (claim_event k') (collection_allowed k') (calls_of j p) /\ p `prefix_of` pre
    /\ linked_by k' id (calls_of j pre).
Proof.
  intros Hg Hb -> (c & at_ & a & a' & x & Ho & Ht & <-).
  assert (forall e, e ∈ calls_of j pre -> (j, e) ∈ pre ++ post) as Hin.
  { intros e He. apply elem_of_app. left. by apply calls_of_elem. }
  assert (exists b t, calls_of j pre = b ++ pay_ev (LinkTransfer c (attempt_id a) at_) (Ok (a', x)) :: t) as (b & t & E).
  { by apply list_elem_of_split. }
  apply calls_of_split in E as (p & q & -> & <- & _).
  destruct (Hb p j _ (q ++ post) (eq_sym (app_assoc _ _ _))) as (k' & a0 & Ho' & Eid & Hn & Hal & _).
  eexists p, _, (q ++ post), k'. rewrite <- app_assoc. split; [done|]. split; [done|]. split; [by left|].
  split; [|split; [done|split; [done|split; [by apply prefix_app_r|]]]].
  2:{ exists c, at_, a0, a', x. rewrite <- Eid. split; [|by split].
      refine (own_monotone k' a0 _ _ _ Ho'). rewrite calls_of_app. set_solver. }
  apply claim_ids. refine (eq_trans (eq_sym (own_attempt_id _ s j k' _ a0 Hg _ Ho')) _).
  - intros e He. apply Hin. apply calls_of_elem in He. apply calls_of_in, elem_of_app. by left.
  - rewrite <- Eid. exact (own_attempt_id _ s j k _ a Hg Hin Ho).
Qed.

Lemma one_transfer tr s k k' id id' j j' pre post pre' post' :
  NoDup (uuids tr) -> (forall j e, (j, e) ∈ tr -> as_given s e) -> log_backed tr -> cm_id k = cm_id k' ->
  tr = pre ++ post -> linked_by k id (calls_of j pre) ->
  tr = pre' ++ post' -> linked_by k' id' (calls_of j' pre') -> id = id'.
Proof.
  intros Hn Hg Hb Ek E1 L1 E2 L2.
  destruct (link_place _ _ _ _ _ _ _ Hg Hb E1 L1) as (p & e & q & k1 & F1 & I1 & M1 & C1 & A1 & _ & _).
  destruct (link_place _ _ _ _ _ _ _ Hg Hb E2 L2) as (p' & e' & q' & k2 & F2 & I2 & M2 & C2 & A2 & _ & _).
  destruct (same_claim tr k1 k2 _ _ _ _ _ _ _ _ _ _ Hn ltac:(congruence) F1 A1 F2 A2) as (_ & [[-> _]|[H|H]]); [|done..].
  destruct e' as [c a]; destruct c; try by apply elem_of_nil in M2.
  destruct a as [[? ?]|]; [|by apply elem_of_nil in M2].
  apply list_elem_of_singleton in M1, M2. congruence.
Qed.

(** A run that settles its own attempt before it sends has it never sent. *)
Lemma unsent_settled tr s k id pre j i r post k' :
  NoDup (uuids tr) -> (forall j e, (j, e) ∈ tr -> as_given s e) -> sent_for dp tr k id ->
  tr = pre ++ (j, pay_ev (SettleFailed i) r) :: post -> attempt_id (sf_attempt i) = claim_id k ->
  own_attempt k' (calls_of j pre) (sf_attempt i) -> after_event (claim_event k') (never is_send) (calls_of j pre) -> False.
Proof.
  intros Hn Hg (pre' & j' & b & r' & post' & E & (_ & _ & _ & Hu)) E' Eid Ho Hns.
  assert (cm_id k = cm_id k') as Ek.
  { apply claim_ids. rewrite <- Eid. refine (own_attempt_id tr s j k' _ _ Hg _ Ho).
    intros e He. rewrite E'. apply elem_of_app. left. by apply calls_of_elem. }
  destruct (same_claim tr k k' _ _ _ _ _ _ _ _ _ _ Hn Ek E Hu E' Hns) as (_ & [[? _]|[H|H]]); done.
Qed.

Lemma settled_sent tr s k id :
  NoDup (uuids tr) -> (forall j e, (j, e) ∈ tr -> as_given s e) ->
  sent_for dp tr k id -> settled_in dp tr (claim_id k) -> given_up dp tr k.
Proof.
  intros Hn Hg Hsent (pre & j & i & r & post & E & Eid & [k' Ho Hns|Hk]).
  - exfalso. by eapply unsent_settled.
  - by exists pre, j, i, r, post.
Qed.
End Claims.

(** ** The rows of the claims *)

Section Created.
Context {K : PaymentKit}.
Variable dp : Deployment.
Variable text_le : string -> string -> bool.

Record claims_kept (s0 : PayTables) (tr : pay_log) (s : PayTables) : Prop := mkClaimsKept {
  kept_ids : forall x, x ∈ attempt_ids s -> x ∈ attempt_ids s0
    \/ exists j r res, (j, pay_ev (CreateAttempt r) res) ∈ tr /\ attempt_id r = x;
  kept_rows : forall j k a, (j, pay_ev (CreateAttempt (claim_row k)) (Ok (Some a))) ∈ tr ->
    exists a', a' ∈ attempts s /\ ca_facts a' = ca_facts (claim_row k);
}.

Lemma distinct_before s0 tr x : distinct_ids s0 (tr ++ [x]) -> distinct_ids s0 tr.
Proof.
  unfold distinct_ids, uuids. rewrite flat_map_app. intros [Hn Hf]. split.
  - by apply NoDup_app in Hn as [? _].
  - intros u a Hu. apply Hf, elem_of_app. by left.
Qed.

Lemma claim_uuid tr j k P : after_event (claim_event k) P (calls_of j tr) -> cm_id k ∈ uuids tr.
Proof.
  intros (b & a & E & _). assert ((j, claim_event k) ∈ tr) as Hin.
  { apply calls_of_elem. rewrite E. apply elem_of_app. right. by left. }
  apply list_elem_of_In, in_flat_map. exists (j, claim_event k). split; [by apply list_elem_of_In|]. by left.
Qed.

(** The id of an attempt that is created is new. *)
Lemma created_new s0 tr s i k r :
  distinct_ids s0 (tr ++ [(i, pay_ev (CreateAttempt (claim_row k)) r)]) ->
  log_backed dp (tr ++ [(i, pay_ev (CreateAttempt (claim_row k)) r)]) -> claims_kept s0 tr s ->
  claim_id k ∉ attempt_ids s.
Proof.
  intros Hd Hb [Hids _] Hin. pose proof Hd as [Hn Hf].
  destruct (Hb tr i (pay_ev (CreateAttempt (claim_row k)) r) [] eq_refl) as (k0 & Erow & Hk).
  assert (cm_id k = cm_id k0) as Ek by (apply claim_ids; unfold claim_id; by rewrite Erow).
  destruct (Hids _ Hin) as [H0|(j & r0 & res & H0 & E0)].
  - apply list_elem_of_fmap in H0 as (a & Ea & Ha). apply (Hf (cm_id k0) a); [|done|].
    + unfold uuids. rewrite flat_map_app. apply elem_of_app. left. by eapply claim_uuid.
    + by rewrite <- Ea, claim_id_of, Ek.
  - apply list_elem_of_split in H0 as (p & q & E).
    destruct (Hb p j (pay_ev (CreateAttempt r0) res) (q ++ [(i, pay_ev (CreateAttempt (claim_row k)) r)])) as (k1 & -> & Hk1); [by rewrite E, <- app_assoc|].
    assert (cm_id k1 = cm_id k0) as Ek1 by (rewrite <- Ek; by apply claim_ids).
    assert (tr ++ [(i, pay_ev (CreateAttempt (claim_row k)) r)]
      = p ++ (j, pay_ev (CreateAttempt (claim_row k1)) res) :: q ++ [(i, pay_ev (CreateAttempt (claim_row k)) r)]) as F1
      by (by rewrite E, <- app_assoc).
    destruct (same_claim _ k1 k0 _ _ _ _ _ _ _ _ _ _ Hn Ek1 F1 Hk1 eq_refl Hk) as (_ & [[_ Ep]|[H|H]]); [|by apply H..].
    rewrite <- Ep in E. apply (f_equal length) in E. rewrite length_app in E. cbn in E. lia.
Qed.

Lemma claims_step s0 tr s i e s' :
  pay_sound s -> distinct_ids s0 (tr ++ [(i, e)]) -> log_backed dp (tr ++ [(i, e)]) ->
  claims_kept s0 tr s -> pay_answers text_le s e s' -> claims_kept s0 (tr ++ [(i, e)]) s'.
Proof.
  intros Hs Hd Hb Hc Ha. destruct (answers_kept _ _ _ _ Ha) as [Hkeep _]. destruct (Hkeep Hs) as [_ [_ Hl]].
  pose proof Hc as [Hids Hrows]. constructor.
  - assert (forall x, x ∈ attempt_ids s -> x ∈ attempt_ids s0
      \/ exists j r res, (j, pay_ev (CreateAttempt r) res) ∈ tr ++ [(i, e)] /\ attempt_id r = x) as Hold.
    { intros x Hx. destruct (Hids x Hx) as [?|(j & r & res & H & E)]; [by left|right].
      exists j, r, res. split; [apply elem_of_app; by left|done]. }
    intros x Hx. destruct (answers_ids _ _ _ _ Ha) as [E|E]; [apply Hold; by rewrite <- E|].
    destruct e as [c a]; destruct c; cbn in E; try done. rewrite E in Hx.
    apply elem_of_app in Hx as [Hx|Hx]; [by apply Hold|]. apply list_elem_of_singleton in Hx as ->. right.
    exists i, r, a. split; [apply elem_of_app; right; by left|done].
  - intros j k a [H|H%list_elem_of_singleton]%elem_of_app.
    + destruct (Hrows j k a H) as (a' & Ha' & Ef). destruct (Hl a' Ha') as (a2 & H2 & [F _]). exists a2. by rewrite F.
    + injection H as -> <-. exists (claim_row k). split; [|done]. eapply answers_created; [exact Ha|].
      by eapply created_new.
Qed.
End Created.

(** ** Every run is backed *)

Section Guarantees.
Context {K : PaymentKit}.
Variable dp : Deployment.
Variable text_le : string -> string -> bool.

Lemma serve_backed r : guarded (backed dp) [] (serve_payment dp r).
Proof.
  apply (triple_guarded (backed dp) _ _ (fun _ _ => True)).
  destruct r; cbn [serve_payment]; try (eapply backs_bind; [|done]).
  - apply collect_triple.
  - apply cancel_triple.
  - apply lifecycle_triple.
  - apply activate_triple.
  - apply job_triple.
  - apply plain_backs, tracker_plain.
Qed.

Variable requests : list pay_request.

Abbreviation payment_history := (payment_history dp text_le requests).
Abbreviation serve_payment := (serve_payment dp).

Lemma serve_all_backed : Forall (guarded (backed dp) []) (serve_payment <$> requests).
Proof. apply Forall_fmap, Forall_forall. intros r _. apply serve_backed. Qed.

Lemma payment_backed s0 tr s : payment_history s0 tr s -> log_backed dp tr.
Proof.
  intros [ps Hrun] pre j e post E.
  by eapply (pool_guarded (pay_answers text_le)); [apply serve_all_backed|exact Hrun|].
Qed.

Lemma payment_explained s0 tr s : pay_sound s0 -> payment_history s0 tr s -> explained dp s0 tr s.
Proof.
  intros Hs [ps Hrun]. eapply (pool_invariant _ _ (explained dp s0)); [apply serve_all_backed|by apply payments_explained_start| |exact Hrun].
  intros. by eapply payments_explained_step.
Qed.

Lemma payment_claims s0 tr s :
  pay_sound s0 -> payment_history s0 tr s -> distinct_ids s0 tr -> claims_kept s0 tr s.
Proof.
  intros Hs [ps Hrun]. induction Hrun as [|tr s ps i c k r s' Hrun IH Hi Ha]; intros Hd.
  - constructor; [intros x Hx; by left|]. intros j k a H. by apply elem_of_nil in H.
  - assert (payment_history s0 tr s) as Hh by (by exists ps).
    eapply claims_step; [|exact Hd| | |exact Ha].
    + by destruct (payment_explained _ _ _ Hs Hh).
    + eapply payment_backed. exists (<[i := k r]> ps). by eapply pool_call.
    + apply IH. by eapply distinct_before.
Qed.



(** ** What was sent *)

Lemma sends_elem tr x : x ∈ sends tr -> exists pre b r post,
  tr = pre ++ (x.1, pay_ev (SendTransaction b) r) :: post /\ x.2 = base64_text b.
Proof.
  unfold sends. rewrite list_elem_of_In, in_flat_map. intros ([j e] & Hin & Hx).
  apply list_elem_of_In, list_elem_of_split in Hin as (pre & post & ->).
  destruct e as [c r]; destruct c; try done. destruct Hx as [<-|[]]. by exists pre, bytes, r, post.
Qed.

(** The bytes of a transfer, persisted by the run that sends them. *)
Definition persisted_as (tr : pay_log) (x : nat * string) (id : string) : Prop :=
  exists i r, (x.1, pay_ev (PersistSignedTransfer i) (Ok (Some r))) ∈ tr /\ pg_transferId i = id /\ pg_signedTransaction i = x.2.

Lemma persisted_once tr x y id :
  NoDup (persisted_ids tr) -> persisted_as tr x id -> persisted_as tr y id -> x = y.
Proof.
  intros Hn (i & r & (l1 & l2 & E)%list_elem_of_split & Ei & Ex) (i' & r' & (m1 & m2 & E')%list_elem_of_split & Ei' & Ey).
  rewrite E in Hn, E'.
  destruct (same_place (fun z : nat * pay_event => persisted_of z.2) _ _ _ _ _ _ id E' Hn) as (_ & Ep & _);
    [rewrite <- Ei; by left|rewrite <- Ei'; by left|].
  injection Ep as E1 E2. subst i'. destruct x, y; cbn in *; congruence.
Qed.

Lemma choose_all {A B} (P : A -> B -> Prop) l : (forall x, x ∈ l -> exists y, P x y) -> exists l', Forall2 P l l'.
Proof.
  induction l as [|x l IH]; intros H; [by exists []|].
  destruct (H x) as [y Hy]; [by left|]. destruct IH as [l' Hl]; [intros z Hz; apply H; by right|].
  exists (y :: l'). by constructor.
Qed.

Lemma calls_prefix j (pre post : pay_log) : calls_of j pre `prefix_of` calls_of j (pre ++ post).
Proof. rewrite calls_of_app. by apply prefix_app_r. Qed.

Lemma sent_persisted tr x k id : sent_as dp tr x k id -> persisted_as tr x id.
Proof.
  intros (pre & b & r & post & -> & Ex & _ & (i & row & Ht & Ei & Eb & _)). exists i, row.
  split; [apply elem_of_app; left; by apply calls_of_elem|]. split; [done|congruence].
Qed.

Lemma sent_linked tr x k id : sent_as dp tr x k id -> exists pre post, tr = pre ++ post /\ linked_by k id (calls_of x.1 pre).
Proof. intros (pre & b & r & post & -> & _ & (L & _) & _). eauto. Qed.

Lemma sent_known s0 tr s x :
  pay_sound s0 -> payment_history s0 tr s -> x ∈ sends tr ->
  exists k id, sent_as dp tr x k id /\ on_record s id x.2.
Proof.
  intros Hs Hrun (pre & b & r & post & E & Ex)%sends_elem.
  destruct (payment_explained _ _ _ Hs Hrun) as [Hsd _ Hg _ _ _].
  destruct (payment_backed _ _ _ Hrun _ _ _ _ E) as (k & id & Hsend & Hp).
  exists k, id. split; [by exists pre, b, r, post|].
  destruct Hsend as (_ & _ & (tn & at_ & row' & Hst) & _). destruct Hp as (i & row & Ht & Ei & Eb & _).
  assert (forall c a, told c a (calls_of x.1 pre) -> (x.1, pay_ev c (Ok a)) ∈ tr) as Hin.
  { intros c a H. rewrite E. apply elem_of_app. left. by apply calls_of_elem. }
  destruct (Hg _ _ (Hin _ _ Ht) row eq_refl) as ((r1 & Hr1 & L1) & Hid1 & Hs1 & _).
  destruct (Hg _ _ (Hin _ _ Hst) row' eq_refl) as ((r2 & Hr2 & L2) & Hid2 & Hs2).
  pose proof (later_transfer_id _ _ L1) as I1. pose proof (later_transfer_id _ _ L2) as I2.
  assert (r1 = r2) as <- by (eapply same_key; [exact (sound_transfer_ids _ Hsd)|done..|congruence]).
  exists r1. split; [done|]. split; [congruence|]. split; [rewrite (later_signed _ _ L1 _ Hs1); congruence|].
  by apply (later_started _ _ L2).
Qed.


(** ** One payment of a period *)

Lemma own_created_row k h a : own_attempt k h a -> exists a0, told (CreateAttempt (claim_row k)) (Some a0) h.
Proof. induction 1; eauto. Qed.

Lemma sent_row s0 tr s k id :
  pay_sound s0 -> payment_history s0 tr s -> distinct_ids s0 tr -> sent_for dp tr k id ->
  exists a, a ∈ attempts s /\ ca_facts a = ca_facts (claim_row k).
Proof.
  intros Hs Hrun Hd (pre & j & b & r & post & E & (c & at_ & a & a' & x & Ho & _) & _).
  destruct (own_created_row _ _ _ Ho) as (a0 & Ht). destruct (payment_claims _ _ _ Hs Hrun Hd) as [_ Hrows].
  apply (Hrows j k a0). rewrite E. apply elem_of_app. left. by apply calls_of_elem.
Qed.

(** A sent claim that no longer holds its period was given up for a reason. *)
Lemma sent_down s0 tr s k id a :
  pay_sound s0 -> payment_history s0 tr s -> distinct_ids s0 tr -> sent_for dp tr k id ->
  a ∈ attempts s -> ca_facts a = ca_facts (claim_row k) -> holds_cycle (ca_status a) = false -> given_up dp tr k.
Proof.
  intros Hs Hrun Hd Hsent Ha Ef Hdn. destruct (payment_explained _ _ _ Hs Hrun) as [_ _ Hg _ _ Hdown].
  assert (attempt_id a = claim_id k) as Eid by (unfold claim_id, attempt_id; by rewrite Ef).
  eapply settled_sent; [apply Hd|exact Hg|exact Hsent|]. rewrite <- Eid.
  destruct (Hdown a Ha Hdn) as [(a0 & Ha0 & E0 & _)|H]; [|done]. exfalso.
  destruct Hsent as (pre & j & b & r & post & -> & (_ & _ & _ & Hu)). destruct Hd as [_ Hf].
  apply (Hf (cm_id k) a0); [|done|by rewrite E0, Eid].
  unfold uuids. rewrite flat_map_app. apply elem_of_app. left. by eapply claim_uuid.
Qed.

(** C13. No period is paid twice unless the first payment was given up for a reason: when
    transactions were sent for two transfers of one due period, one of the two attempts
    was settled as failed by its own run, which the chain, the node or the store had told
    that it failed, or by a run that found it left alone for a quarter of an hour before
    it was submitted, or failed. *)
Theorem payment_second_needs_failure s0 tr s k1 id1 k2 id2 :
  pay_sound s0 -> payment_history s0 tr s -> distinct_ids s0 tr ->
  sent_for dp tr k1 id1 -> sent_for dp tr k2 id2 -> claim_cycle k1 = claim_cycle k2 -> id1 <> id2 ->
  given_up dp tr k1 \/ given_up dp tr k2.
Proof.
  intros Hs Hrun Hd H1 H2 Ec Hne.
  destruct (sent_row _ _ _ _ _ Hs Hrun Hd H1) as (a1 & Ha1 & F1), (sent_row _ _ _ _ _ Hs Hrun Hd H2) as (a2 & Ha2 & F2).
  destruct (holds_cycle (ca_status a1)) eqn:D1; [|left; exact (sent_down _ _ _ _ _ _ Hs Hrun Hd H1 Ha1 F1 D1)].
  destruct (holds_cycle (ca_status a2)) eqn:D2; [|right; exact (sent_down _ _ _ _ _ _ Hs Hrun Hd H2 Ha2 F2 D2)].
  exfalso. apply Hne. destruct (payment_explained _ _ _ Hs Hrun) as [Hsd _ Hg _ _ _].
  assert (attempt_id a1 = attempt_id a2) as Eid.
  { apply (sound_one_live _ Hsd); try done. unfold claim_cycle, attempt_cycle in *. by rewrite F1, F2. }
  destruct H1 as (pre & j & b & r & post & E1 & (L1 & _)), H2 as (pre' & j' & b' & r' & post' & E2 & (L2 & _)).
  eapply (one_transfer dp); [apply Hd|exact Hg|exact (payment_backed _ _ _ Hrun)| |exact E1|exact L1|exact E2|exact L2].
  apply claim_ids. unfold claim_id, attempt_id in *. by rewrite <- F1, <- F2.
Qed.
End Guarantees.

(** ** Two runs over one period *)

Section Scenario.

(** The claim a run of the scenario makes: its id and its instant are the clock's. *)
Definition scenario_claim (id now : string) : Claim := mkClaim id demo_collect "subscription" demo_due now.

Definition retried_log : pay_log := (demo_outcome demo_two demo_retried).1.1.
Definition overtaken_log : pay_log := (demo_outcome demo_two demo_overtaken).1.1.

Ltac at_place n := apply (list_elem_of_lookup_2 _ n); vm_compute; reflexivity.

(** The collection that began its claim at a place of its run. *)
Ltac shows_sent o :=
  split_and!;
  [ eexists _, _, _, _, _; split; [apply own_created; at_place (1 + o)%nat|]; split; [at_place (8 + o)%nat|vm_compute; reflexivity]
  | eexists _, _; split; [at_place (24 + o)%nat|]; split_and!;
    [vm_compute; reflexivity|vm_compute; reflexivity|eexists _, _; split; [at_place (22 + o)%nat|vm_compute; reflexivity]]
  | eexists _, _, _; at_place (26 + o)%nat
  | eexists _, _; split; [symmetry; apply (take_drop_middle _ o); vm_compute; reflexivity
                         |vm_compute; repeat (constructor; [tauto|]); constructor] ].

Lemma sent_at tr k id j n b r :
  tr !! n = Some (j, pay_ev (SendTransaction b) r) -> sending demo_deployment k id b (calls_of j (take n tr)) ->
  sent_for demo_deployment tr k id.
Proof. intros H Hs. exists (take n tr), j, b, r, (drop (S n) tr). by rewrite take_drop_middle. Qed.

Lemma distinct_at_start tr : NoDup (uuids tr) -> distinct_ids demo_tables tr.
Proof. intros H. split; [done|]. intros u a _ Ha. by apply elem_of_nil in Ha. Qed.

Lemma retried_distinct : distinct_ids demo_tables retried_log.
Proof. apply distinct_at_start. apply (bool_decide_unpack _). vm_compute. exact I. Qed.

Lemma overtaken_distinct : distinct_ids demo_tables overtaken_log.
Proof. apply distinct_at_start. apply (bool_decide_unpack _). vm_compute. exact I. Qed.

Lemma retried_first :
  sent_for demo_deployment retried_log (scenario_claim "2026-01-01T00:00:05.000Z" "2026-01-01T00:00:00.000Z")
    "xfr_2026-01-01T00:00:13.000Z".
Proof. eapply (sent_at _ _ _ 0 33); [vm_compute; reflexivity|]. shows_sent 5%nat. Qed.

Lemma retried_second :
  sent_for demo_deployment retried_log (scenario_claim "2026-01-01T00:03:25.000Z" "2026-01-01T00:03:20.000Z")
    "xfr_2026-01-01T00:03:33.000Z".
Proof. eapply (sent_at _ _ _ 1 75); [vm_compute; reflexivity|]. shows_sent 5%nat. Qed.

Lemma overtaken_first :
  sent_for demo_deployment overtaken_log (scenario_claim "2026-01-01T00:00:05.000Z" "2026-01-01T00:00:00.000Z")
    "xfr_2026-01-01T00:00:13.000Z".
Proof. eapply (sent_at _ _ _ 0 40); [vm_compute; reflexivity|]. shows_sent 5%nat. Qed.

Lemma overtaken_second :
  sent_for demo_deployment overtaken_log (scenario_claim "2026-01-01T00:20:31.000Z" "2026-01-01T00:20:00.000Z")
    "xfr_2026-01-01T00:20:39.000Z".
Proof. eapply (sent_at _ _ _ 1 73); [vm_compute; reflexivity|]. shows_sent 11%nat. Qed.




Lemma payment_second_needs_failure_witness :
  exists k1 k2, given_up demo_deployment retried_log k1 \/ given_up demo_deployment retried_log k2.
Proof.
  exists (scenario_claim "2026-01-01T00:00:05.000Z" "2026-01-01T00:00:00.000Z"),
    (scenario_claim "2026-01-01T00:03:25.000Z" "2026-01-01T00:03:20.000Z").
  exact (payment_second_needs_failure demo_deployment String.leb demo_two demo_tables
    retried_log _ _ _ _ _ pay_tables_sound retried_history retried_distinct retried_first retried_second eq_refl
    ltac:(discriminate)).
Defined.

(** An attempt that is found left alone may still be going on: in [overtaken_log] a
    collection stops between the creation of its transfer and its transaction, another
    reads the attempt as left alone, the first goes on, has its signed bytes persisted
    and sends them, and the other then settles that attempt as failed, though its
    transfer is signed and started, and sends a transaction of its own for the same
    period. No call is lost, and nothing says that a transaction failed. *)
Theorem overtaken_collection_sends_twice :
  exists k1 id1 k2 id2 s,
    payment_history demo_deployment String.leb demo_two demo_tables overtaken_log s
    /\ distinct_ids demo_tables overtaken_log
    /\ sent_for demo_deployment overtaken_log k1 id1 /\ sent_for demo_deployment overtaken_log k2 id2
    /\ claim_cycle k1 = claim_cycle k2 /\ id1 <> id2 /\ forallb (fun x => untroubled x.2) overtaken_log = true.
Proof.
  eexists _, _, _, _, _. split; [exact overtaken_history|]. split; [exact overtaken_distinct|].
  split; [exact overtaken_first|]. split; [exact overtaken_second|]. split; [reflexivity|]. split; [discriminate|].
  vm_compute. reflexivity.
Qed.
End Scenario.
