(* ===== verification/Workers.v ===== *)
(** * Workers of one process

    Several programs of Prelude.v started together by one function and waited for
    together ([Promise.all]), sharing the variables of that function. Which of them goes
    on next is asked of the environment, as the runtime's event loop decides by what
    answers first; the shared variables are a state the calls on them read and write. *)
From Stdlib Require Import Ascii String ZArith Lia.
From stdpp Require Import base list strings.
From S2P Require Import Prelude.

Local Open Scope list_scope.
Local Open Scope sdp_scope.

(** Two lists of events taken in turns, with the events of a third kind between. *)
Inductive merges {E} (N : E -> Prop) : list E -> list E -> list E -> Prop :=
| merges_done : merges N [] [] []
| merges_left e l1 l2 l : merges N l1 l2 l -> merges N (e :: l1) l2 (e :: l)
| merges_right e l1 l2 l : merges N l1 l2 l -> merges N l1 (e :: l2) (e :: l)
| merges_neither e l1 l2 l : N e -> merges N l1 l2 l -> merges N l1 l2 (e :: l).

Section Workers.
Context {C : Type} {R : C -> Type}.

(** The call whose answer says who goes on: [true] for the first. *)
Context (turn : C) (first_goes : result (R turn) -> bool).

(** Both programs to their ends, call by call; it fails when one of them has failed. *)
Definition par2 : prog R unit -> prog R unit -> prog R unit :=
  fix left (p : prog R unit) : prog R unit -> prog R unit :=
    fix right (q : prog R unit) : prog R unit :=
      match p, q with
      | Call c k, Call d j =>
          Call turn (fun r => if first_goes r then Call c (fun x => left (k x) q)
                              else Call d (fun y => right (j y)))
      | Call c k, _ => Call c (fun x => left (k x) q)
      | _, Call d j => Call d (fun y => right (j y))
      | Throw e, _ => Throw e
      | Ret _, _ => q
      end.

(** [await Promise.all(workers)] *)
Definition par_all (workers : list (prog R unit)) : prog R unit := foldr par2 (Ret tt) workers.

Definition is_turn (e : event R) : Prop := ev_call e = turn.

(** The shared variables: what a call on them answers and leaves; [None] of another call. *)
Context {M : Type} (memory : forall c, M -> option (result (R c) * M)).

Fixpoint with_memory {A} (m : prog R A) (s : M) : prog R (A * M) :=
  match m with
  | Ret a => Ret (a, s)
  | Throw e => Throw e
  | Call c k =>
      match memory c s with
      | Some (r, s') => with_memory (k r) s'
      | None => Call c (fun r => with_memory (k r) s)
      end
  end.

(** [remembers s tr s' out]: in [tr] the calls on the shared variables are answered as the
    variables stand, from [s] to [s']; [out] are the other calls. *)
Inductive remembers : M -> list (event R) -> M -> list (event R) -> Prop :=
| remembers_done s : remembers s [] s []
| remembers_own s c r s' tr s'' out :
    memory c s = Some (r, s') -> remembers s' tr s'' out -> remembers s (Ev c r :: tr) s'' out
| remembers_other s c r tr s' out :
    memory c s = None -> remembers s tr s' out -> remembers s (Ev c r :: tr) s' (Ev c r :: out).

(** * Lemmas *)

Lemma par2_eq p q :
  par2 p q =
  match p, q with
  | Call c k, Call d j =>
      Call turn (fun r => if first_goes r then Call c (fun x => par2 (k x) q) else Call d (fun y => par2 p (j y)))
  | Call c k, _ => Call c (fun x => par2 (k x) q)
  | _, Call d j => Call d (fun y => par2 p (j y))
  | Throw e, _ => Throw e
  | Ret _, _ => q
  end.
Proof. by destruct p, q. Qed.

(** What a run of both programs is: a run of each, their calls taken in turns. *)
Definition joined (Q1 Q2 : list (event R) -> result unit -> Prop) (tr : list (event R)) (res : result unit) : Prop :=
  exists tr1 tr2 r1 r2, merges is_turn tr1 tr2 tr /\ Q1 tr1 r1 /\ Q2 tr2 r2
    /\ (res = Ok tt -> r1 = Ok tt /\ r2 = Ok tt).

Lemma joined_left Q1 Q2 e tr res :
  joined (fun tr1 => Q1 (e :: tr1)) Q2 tr res -> joined Q1 Q2 (e :: tr) res.
Proof.
  intros (tr1 & tr2 & r1 & r2 & Hm & H). exists (e :: tr1), tr2, r1, r2. split; [by apply merges_left|done].
Qed.

Lemma joined_right Q1 Q2 e tr res :
  joined Q1 (fun tr2 => Q2 (e :: tr2)) tr res -> joined Q1 Q2 (e :: tr) res.
Proof.
  intros (tr1 & tr2 & r1 & r2 & Hm & H). exists tr1, (e :: tr2), r1, r2. split; [by apply merges_right|done].
Qed.

Lemma joined_neither Q1 Q2 e tr res : is_turn e -> joined Q1 Q2 tr res -> joined Q1 Q2 (e :: tr) res.
Proof.
  intros He (tr1 & tr2 & r1 & r2 & Hm & H). exists tr1, tr2, r1, r2. split; [by apply merges_neither|done].
Qed.

Lemma par2_runs m1 m2 Q1 Q2 :
  all_runs m1 Q1 -> all_runs m2 Q2 -> all_runs (par2 m1 m2) (joined Q1 Q2).
Proof.
  revert m2 Q1 Q2. induction m1 as [a|e|c k IH1]; intros m2; induction m2 as [b|e'|d j IH2];
    intros Q1 Q2 H1 H2; rewrite par2_eq; cbn [all_runs] in *.
  1,2,4,5: eexists [], [], _, _; split; [apply merges_done|]; split; [exact H1|]; split; [exact H2|];
    intros E; try discriminate E; destruct a, b; done.
  1,2: intros r; eapply all_runs_mono; [|apply (IH2 r Q1 (fun tr => Q2 (Ev d r :: tr))); [exact H1|exact (H2 r)]];
    intros tr res; apply joined_right.
  1,2: intros r; eapply all_runs_mono; [|apply (IH1 r _ (fun tr => Q1 (Ev c r :: tr)) Q2); [exact (H1 r)|exact H2]];
    intros tr res; apply joined_left.
  intros t. destruct (first_goes t); cbn [all_runs]; intros r.
  - eapply all_runs_mono; [|apply (IH1 r _ (fun tr => Q1 (Ev c r :: tr)) Q2); [exact (H1 r)|exact H2]].
    intros tr res H. by apply joined_neither, joined_left.
  - eapply all_runs_mono; [|apply (IH2 r Q1 (fun tr => Q2 (Ev d r :: tr))); [exact H1|exact (H2 r)]].
    intros tr res H. by apply joined_neither, joined_right.
Qed.

(** A property that holds of the run of each worker, and of runs whose calls are taken in
    turns when it holds of both, holds of all of them together. *)
Lemma par_all_runs (Q : list (event R) -> result unit -> Prop) ws :
  Q [] (Ok tt) -> (forall tr res, joined Q Q tr res -> Q tr res) ->
  Forall (fun w => all_runs w Q) ws -> all_runs (par_all ws) Q.
Proof.
  intros H0 Hj. induction 1 as [|w ws Hw _ IH]; cbn [par_all foldr]; [done|].
  eapply all_runs_mono; [exact Hj|]. by apply par2_runs.
Qed.

Lemma with_memory_runs {A} (m : prog R A) s Q :
  all_runs m Q ->
  all_runs (with_memory m s) (fun out res => exists tr s' r, remembers s tr s' out /\ Q tr r
    /\ res = match r with Ok a => Ok (a, s') | Err e => Err e end).
Proof.
  revert s Q. induction m as [a|e|c k IH]; intros s Q H; cbn [with_memory all_runs] in *.
  - exists [], s, (Ok a). split; [constructor|done].
  - exists [], s, (Err e). split; [constructor|done].
  - destruct (memory c s) as [[r s']|] eqn:E.
    + eapply all_runs_mono; [|exact (IH r s' _ (H r))]. intros out res (tr & s'' & r' & Hr & Hq).
      exists (Ev c r :: tr), s'', r'. split; [by eapply remembers_own|done].
    + intros r. eapply all_runs_mono; [|exact (IH r s _ (H r))]. intros out res (tr & s'' & r' & Hr & Hq).
      exists (Ev c r :: tr), s'', r'. split; [by eapply remembers_other|done].
Qed.

(** *** Where an event of the whole stands in its part *)

Lemma merges_split (N : event R -> Prop) l1 l2 pre e post :
  merges N l1 l2 (pre ++ e :: post) ->
  exists pre1 post1 pre2 post2, merges N pre1 pre2 pre
    /\ ((l1 = pre1 ++ e :: post1 /\ l2 = pre2 ++ post2) \/ (l1 = pre1 ++ post1 /\ l2 = pre2 ++ e :: post2)
        \/ (N e /\ l1 = pre1 ++ post1 /\ l2 = pre2 ++ post2)).
Proof.
  remember (pre ++ e :: post) as l eqn:E. intros H. revert pre E.
  induction H as [|x l1 l2 l H IH|x l1 l2 l H IH|x l1 l2 l Hx H IH]; intros pre E; [by destruct pre|..];
    (destruct pre as [|y pre]; injection E as -> E; [subst l|]).
  - exists [], l1, [], l2. split; [constructor|]. by left.
  - destruct (IH pre E) as (p1 & q1 & p2 & q2 & Hm & [[-> ->]|[[-> ->]|(? & -> & ->)]]);
      exists (y :: p1), q1, p2, q2; (split; [by apply merges_left|]); cbn; auto.
  - exists [], l1, [], l2. split; [constructor|]. right. by left.
  - destruct (IH pre E) as (p1 & q1 & p2 & q2 & Hm & [[-> ->]|[[-> ->]|(? & -> & ->)]]);
      exists p1, q1, (y :: p2), q2; (split; [by apply merges_right|]); cbn; auto.
  - exists [], l1, [], l2. split; [constructor|]. right. right. done.
  - destruct (IH pre E) as (p1 & q1 & p2 & q2 & Hm & Hc);
      exists p1, q1, p2, q2; (split; [by apply merges_neither|done]).
Qed.

Lemma merges_elem (N : event R -> Prop) l1 l2 l e : merges N l1 l2 l -> e ∈ l -> e ∈ l1 \/ e ∈ l2 \/ N e.
Proof. induction 1; intros He; rewrite ?elem_of_cons in *; [by apply elem_of_nil in He|naive_solver..]. Qed.

Lemma merges_elem_l (N : event R -> Prop) l1 l2 l e : merges N l1 l2 l -> e ∈ l1 -> e ∈ l.
Proof. induction 1; rewrite ?elem_of_cons; naive_solver. Qed.

Lemma merges_elem_r (N : event R -> Prop) l1 l2 l e : merges N l1 l2 l -> e ∈ l2 -> e ∈ l.
Proof. induction 1; rewrite ?elem_of_cons; naive_solver. Qed.

Lemma merges_sum (N : event R -> Prop) (f : list (event R) -> nat) l1 l2 l :
  (forall e l, f (e :: l) = f [e] + f l)%nat -> f [] = O -> (forall e, N e -> f [e] = O) ->
  merges N l1 l2 l -> f l = (f l1 + f l2)%nat.
Proof.
  intros Hc H0 Hn. induction 1 as [|e l1 l2 l _ IH|e l1 l2 l _ IH|e l1 l2 l He _ IH]; [by rewrite H0|..].
  - rewrite (Hc e l), (Hc e l1), IH. lia.
  - rewrite (Hc e l), (Hc e l2), IH. lia.
  - rewrite (Hc e l), (Hn e He), IH. lia.
Qed.

Lemma remembers_split s tr s' pre e post :
  remembers s tr s' (pre ++ e :: post) ->
  exists tr1 s1 tr2, tr = tr1 ++ e :: tr2 /\ remembers s tr1 s1 pre.
Proof.
  remember (pre ++ e :: post) as out eqn:E. intros H. revert pre E.
  induction H as [s|s c r s' tr s'' out Hm H IH|s c r tr s' out Hm H IH]; intros pre E; [by destruct pre|..].
  - destruct (IH pre E) as (t1 & s1 & t2 & -> & Hr). exists (Ev c r :: t1), s1, t2. split; [done|].
    by eapply remembers_own.
  - destruct pre as [|y pre]; injection E as <- E.
    + exists [], s, tr. split; [done|constructor].
    + destruct (IH pre E) as (t1 & s1 & t2 & -> & Hr). exists (Ev c r :: t1), s1, t2. split; [done|].
      by eapply remembers_other.
Qed.

Lemma remembers_elem s tr s' out e : remembers s tr s' out -> e ∈ out -> e ∈ tr.
Proof. induction 1; rewrite ?elem_of_cons; naive_solver. Qed.

Lemma remembers_out s tr s' out c r :
  remembers s tr s' out -> Ev c r ∈ tr -> (forall s, memory c s = None) -> Ev c r ∈ out.
Proof.
  induction 1 as [|s c' r' s' tr s'' out Hm _ IH|s c' r' tr s' out Hm _ IH]; intros H Hn;
    [by apply elem_of_nil in H|..].
  - apply elem_of_cons in H as [E|H]; [|by apply IH]. exfalso. injection E as E _. subst c'. by rewrite Hn in Hm.
  - apply elem_of_cons in H as [E|H]; apply elem_of_cons; [by left|right; by apply IH].
Qed.
End Workers.
