(* ===== verification/TokenAmount.v ===== *)
(** * Token amounts as numbers

    [toNumberAmount] and [toMosaicAmount] of [packages/sdp-solana/src/amount.ts], which
    hand a decimal amount to an SDK as a JavaScript number, and the checks of
    [services/token-operation.service.ts] on a token and an amount. A number is the double
    nearest to a decimal fraction, ties to even; [toFixed] is the standard's. *)
From Stdlib Require Import Ascii String ZArith Lia.
From stdpp Require Import base list strings.
From S2P Require Import Prelude Text Amount.
Import SolanaAmount.

Local Open Scope string_scope.
Local Open Scope Z_scope.
Local Open Scope sdp_scope.

(** ** Doubles *)

(** [db_mantissa * 2 ^ db_exponent] *)
Record double := mkDouble { db_mantissa : Z; db_exponent : Z }.

(** The integer nearest to [p / q], ties to even. *)
Definition nearest_even (p q : Z) : Z :=
  let n := p / q in
  let r := p mod q in
  if 2 * r <? q then n else if q <? 2 * r then n + 1 else if Z.even n then n else n + 1.

(** [2 ^ e], over [2 ^ -e] when [e] is negative. *)
Definition pow2_up (e : Z) : Z := 2 ^ Z.max e 0.

(** [Number(text)] of a text that denotes [n / 10 ^ d], positive and of the normal range:
    the exponent gives the mantissa its 53 bits. *)
Definition number_of (n d : Z) : double :=
  if n <=? 0 then mkDouble 0 0
  else
    let q := 10 ^ d in
    let e := Z.log2 n - Z.log2 q - 52 in
    let e := if n * pow2_up (- e) <? 2 ^ 52 * (q * pow2_up e) then e - 1 else e in
    mkDouble (nearest_even (n * pow2_up (- e)) (q * pow2_up e)) e.

(** The decimal with [f] digits [toFixed(f)] prints, in units of its last digit: the
    nearest, the larger of two. *)
Definition fixed_units (x : double) (f : Z) : Z :=
  let p := db_mantissa x * pow2_up (db_exponent x) * 10 ^ f in
  let q := pow2_up (- db_exponent x) in
  (2 * p + q) / (2 * q).

Definition RangeError (message : string) : jserr := CodedError "RangeError" "" message None.

(** [parseDecimalAmount(amount.toFixed(decimals), decimals)]: from [10 ^ 21] on the text has
    an exponent. *)
Definition read_fixed (x : double) (decimals : Z) : result Z :=
  if 100 <? decimals then Err (RangeError "toFixed() digits argument must be between 0 and 100")
  else if 10 ^ 21 * pow2_up (- db_exponent x) <=? db_mantissa x * pow2_up (db_exponent x)
  then Err (AmountError "Invalid decimal amount")
  else Ok (fixed_units x decimals).

Definition toNumberAmount (value : string) : result double :=
  let decimals := decimalScale value in
  let? baseUnits := parseDecimalAmount value decimals in
  let? formatted := formatDecimalAmount baseUnits decimals in
  let? units := parseDecimalAmount formatted (decimalScale formatted) in
  let amount := number_of units (decimalScale formatted) in
  let? roundTrip := read_fixed amount decimals in
  if roundTrip =? baseUnits then Ok amount
  else Err (AmountError "Amount loses precision when converted to a number").

Definition toMosaicAmount (value : string) (decimals : Z) : result double :=
  let? baseUnits := parseDecimalAmount value decimals in
  if MAX_SAFE_BASE_UNITS <? baseUnits then Err (AmountError "Amount is too large for Mosaic minting")
  else let? formatted := formatDecimalAmount baseUnits decimals in toNumberAmount formatted.

(** ** Operations on a token *)

Inductive TokenStatus := token_pending | token_active | token_paused | token_revoked.

#[export] Instance TokenStatus_eq_dec : EqDecision TokenStatus.
Proof. solve_decision. Defined.

(** The fields of a [Token] the actions of a rule read. *)
Record Token := mkToken {
  tk_id : string;
  tk_organizationId : string;
  tk_projectId : string;
  tk_signingWalletId : option string;
  tk_mintAddress : option string;
  tk_mintAuthority : option string;
  tk_freezeAuthority : option string;
  tk_ablListAddress : option string;
  tk_symbol : string;
  tk_decimals : option Z;
  tk_template : string;
  tk_totalSupply : string;
  tk_maxSupply : option string;
  tk_isMintable : bool;
  tk_requiresAllowlist : bool;
  tk_status : TokenStatus;
}.

(** The decimals [parseDecimalAmount] is given: [null] is no integer, and refused like a
    negative number. *)
Definition token_decimals (token : Token) : Z := default (-1) (tk_decimals token).

Inductive TokenOperation := operation_mint | operation_burn | operation_force_burn | operation_seize.

Definition OPERATION_LABELS (o : TokenOperation) : string :=
  match o with
  | operation_mint => "mint"
  | operation_burn => "burn"
  | operation_force_burn => "force burn"
  | operation_seize => "seize"
  end.

Definition assertTokenAllowsOperation (token : Token) (operation : TokenOperation) : result unit :=
  match tk_status token with
  | token_paused => Err (AppError "TOKEN_PAUSED" ("Token is paused. Unpause it to " ++ OPERATION_LABELS operation ++ "."))
  | token_active => Ok tt
  | _ => Err (AppError "TOKEN_NOT_ACTIVE" ("Token must be active to " ++ OPERATION_LABELS operation ++ "."))
  end.

Definition assertTokenIsDeployed (token : Token) : result string :=
  match tk_mintAddress token with
  | Some mint => if String.eqb mint "" then Err (AppError "TOKEN_NOT_DEPLOYED" "Token has not been deployed to Solana") else Ok mint
  | None => Err (AppError "TOKEN_NOT_DEPLOYED" "Token has not been deployed to Solana")
  end.

Definition toInvalidTokenAmountError (message : string) : jserr := AppError "INVALID_TOKEN_AMOUNT" message.

(** [catch (error) { if (error instanceof AmountError) ... }] *)
Definition invalid_amount {A} (r : result A) : result A :=
  match r with
  | Err (CodedError "AmountError" _ m _) => Err (toInvalidTokenAmountError m)
  | r => r
  end.

(** [amountBaseUnits] and [mosaicAmount]. *)
Definition parsePositiveTokenAmount (amount : string) (decimals : Z) : result (Z * double) :=
  let? amountBaseUnits := invalid_amount (parseDecimalAmount amount decimals) in
  if amountBaseUnits <=? 0 then Err (toInvalidTokenAmountError "Amount must be greater than zero.")
  else
    let? mosaicAmount := invalid_amount (toMosaicAmount amount decimals) in
    Ok (amountBaseUnits, mosaicAmount).

Definition resolveMintOperationAmount (token : Token) (amount : string) : result (Z * string * double) :=
  let? _ := assertTokenAllowsOperation token operation_mint in
  let? mintAddress := assertTokenIsDeployed token in
  if negb (tk_isMintable token) then Err (AppError "TOKEN_NOT_MINTABLE" "Token is not mintable")
  else
    let? parsed := parsePositiveTokenAmount amount (token_decimals token) in
    let? _ :=
      (match tk_maxSupply token with
       | Some max =>
           if String.eqb max "" then Ok tt
           else
             let? currentSupply := parseDecimalAmount (tk_totalSupply token) (token_decimals token) in
             let? maxSupply := parseDecimalAmount max (token_decimals token) in
             if maxSupply <? currentSupply + parsed.1
             then Err (AppError "MAX_SUPPLY_EXCEEDED" "Mint amount would exceed maximum supply") else Ok tt
       | None => Ok tt
       end) in
    Ok (parsed.1, mintAddress, parsed.2).

(** ** The control list of a token *)

Inductive TokenAccessControlMode := mode_allowlist | mode_blocklist | mode_disabled.

Definition BLOCKLIST_TEMPLATES : list string := ["stablecoin"; "tokenized-security"].

Definition supportsBlocklistAccessControl (template : string) : bool := bool_decide (template ∈ BLOCKLIST_TEMPLATES).

Definition getTokenAccessControlMode (token : Token) : TokenAccessControlMode :=
  if tk_requiresAllowlist token then mode_allowlist
  else if supportsBlocklistAccessControl (tk_template token) then mode_blocklist
  else mode_disabled.

Definition assertDestinationAllowedByControlList (token : Token) (isOnControlList : bool) : result unit :=
  match getTokenAccessControlMode token, isOnControlList with
  | mode_allowlist, false => Err (AppError "NOT_ON_TOKEN_ALLOWLIST" "Destination address is not on the allowlist")
  | mode_blocklist, true => Err (AppError "ON_TOKEN_BLOCKLIST" "Destination address is on the denylist")
  | _, _ => Ok tt
  end.
