(* ===== verification/WorkflowTypes.v ===== *)
(** * Workflows: the vocabulary

    [packages/sdp-types/src/workflows.ts] and [packages/sdp-issuance/src/workflows]: the
    catalogs of triggers and actions, what unlocks an action for an asset
    ([capabilities/settings.ts]), the guard of a rule
    ([services/workflows/event-bus.ts]), the permission an action asks of a caller
    ([routes/issuance/handlers/workflow-authz.ts]) and the parameters an action reads
    ([services/workflows/actions/onchain.ts]). The types of actions and triggers are open
    text, as in the tables; a catalog is looked up by its own keys. *)
From Stdlib Require Import Ascii String ZArith Lia.
From stdpp Require Import base list strings.
From S2P Require Import Prelude Text PolicyTypes TransientRpc.

Local Open Scope string_scope.
Local Open Scope Z_scope.
Local Open Scope list_scope.
Local Open Scope sdp_scope.

(** ** The catalogs *)

Inductive WorkflowExecutionTier := tier_automated | tier_sensitive | tier_requires_approval.

#[export] Instance WorkflowExecutionTier_eq_dec : EqDecision WorkflowExecutionTier.
Proof. solve_decision. Defined.

Inductive ReviewMode := review_auto | review_manual.

#[export] Instance ReviewMode_eq_dec : EqDecision ReviewMode.
Proof. solve_decision. Defined.

Inductive WorkflowActionRequirement :=
| requires_token_transaction (action : string)
| requires_allowlist
| requires_base (action : string)
| requires_none.

Record WorkflowAction := mkWorkflowAction {
  requires : WorkflowActionRequirement;
  execution : WorkflowExecutionTier;
  idempotent : bool;
}.

Definition WORKFLOW_ACTION_TYPES : list string :=
  ["allowlist_add"; "allowlist_remove"; "send_webhook"; "notify"; "record"; "pause"; "unpause"; "freeze"; "unfreeze";
   "seize"; "force_burn"; "burn"; "mint"].

Definition WORKFLOW_ACTIONS : list (string * WorkflowAction) :=
  [("allowlist_add", mkWorkflowAction requires_allowlist tier_automated true);
   ("allowlist_remove", mkWorkflowAction requires_allowlist tier_automated true);
   ("send_webhook", mkWorkflowAction requires_none tier_automated false);
   ("notify", mkWorkflowAction requires_none tier_automated false);
   ("record", mkWorkflowAction requires_none tier_automated true);
   ("pause", mkWorkflowAction (requires_token_transaction "pause") tier_sensitive true);
   ("unpause", mkWorkflowAction (requires_token_transaction "unpause") tier_sensitive true);
   ("freeze", mkWorkflowAction (requires_token_transaction "freeze") tier_sensitive true);
   ("unfreeze", mkWorkflowAction (requires_token_transaction "unfreeze") tier_sensitive true);
   ("seize", mkWorkflowAction (requires_token_transaction "seize") tier_requires_approval false);
   ("force_burn", mkWorkflowAction (requires_token_transaction "force_burn") tier_requires_approval false);
   ("burn", mkWorkflowAction (requires_base "burn") tier_requires_approval false);
   ("mint", mkWorkflowAction (requires_base "mint") tier_requires_approval false)].

(** An own property of an object whose keys are distinct. *)
Fixpoint own {A} (key : string) (o : list (string * A)) : option A :=
  match o with
  | [] => None
  | (k, v) :: rest => if String.eqb k key then Some v else own key rest
  end.

Definition resolveWorkflowAction (type : string) : option WorkflowAction := own type WORKFLOW_ACTIONS.

(** [resolveWorkflowAction(type)?.execution] *)
Definition execution_tier (type : string) : option WorkflowExecutionTier := execution <$> resolveWorkflowAction type.

Definition requires_approval (type : string) : bool :=
  bool_decide (execution_tier type = Some tier_requires_approval).

Definition WORKFLOW_TRIGGER_TYPES : list string :=
  ["kyc_approved"; "kyc_rejected"; "onramp_settled"; "offramp_settled"; "recurring_payment_failed";
   "token_operation_completed"].

(** The fields a guard may compare, by trigger. *)
Definition WORKFLOW_TRIGGERS : list (string * list string) :=
  [("kyc_approved", ["provider"; "counterpartyKind"]);
   ("kyc_rejected", ["provider"; "counterpartyKind"]);
   ("onramp_settled", ["provider"; "fiatCurrency"; "cryptoToken"]);
   ("offramp_settled", ["provider"; "fiatCurrency"; "cryptoToken"]);
   ("recurring_payment_failed", ["attempt"]);
   ("token_operation_completed", ["operation"])].

Definition WORKFLOW_RULE_VERSION : Z := 1.

(** ** What unlocks an action *)

(** The actions an advanced setting unlocks. *)
Definition ADVANCED_SETTINGS : list (string * list string) :=
  [("pauseTransfers", ["pause"; "unpause"]);
   ("freezeAccounts", ["freeze"; "unfreeze"]);
   ("permanentDelegate", ["seize"; "force_burn"]);
   ("transferFee", ["update_authority"]);
   ("interestBearing", ["update_authority"]);
   ("scaledUiAmount", ["update_authority"]);
   ("transferHook", ["update_authority"]);
   ("nonTransferable", [])].

Definition LEGACY_SETTING_ALIASES : list (string * list string) :=
  [("freezeTransfers", ["pauseTransfers"; "freezeAccounts"])].

(** The keys of [expandLegacySettingKeys(selected)]; their values are not read here. *)
Definition expandLegacySettingKeys (selected : list string) : list string :=
  flat_map (fun key =>
    match own key LEGACY_SETTING_ALIASES with
    | None => [key]
    | Some targets => List.filter (fun target => negb (bool_decide (target ∈ selected))) targets
    end) selected.

Definition selectedSettingsUnlock (selectedSettings : list string) (action : string) : bool :=
  existsb (fun key =>
    match own key ADVANCED_SETTINGS with
    | None => false
    | Some actions => bool_decide (action ∈ actions)
    end) (expandLegacySettingKeys selectedSettings).

Inductive ActionSupportReason := unknown_action | no_allowlist | capability_disabled | not_mintable.

Definition reason_text (r : ActionSupportReason) : string :=
  match r with
  | unknown_action => "unknown_action"
  | no_allowlist => "no_allowlist"
  | capability_disabled => "capability_disabled"
  | not_mintable => "not_mintable"
  end.

(** [AssetGateContext] of [services/workflows/asset-gate.ts]; the category and the type of
    the asset are passed to the gate and not read by it. *)
Record AssetGateContext := mkGate {
  category : string;
  gate_type : string;
  selectedSettings : list string;
  hasAllowlist : bool;
  isMintable : bool;
}.

(** [None] is [{ ok: true }]. *)
Definition validateActionSupported (action : string) (gate : AssetGateContext) : option ActionSupportReason :=
  match resolveWorkflowAction action with
  | None => Some unknown_action
  | Some entry =>
      match requires entry with
      | requires_none => None
      | requires_base a => if String.eqb a "mint" && negb (isMintable gate) then Some not_mintable else None
      | requires_allowlist => if hasAllowlist gate then None else Some no_allowlist
      | requires_token_transaction a =>
          if selectedSettingsUnlock (selectedSettings gate) a then None else Some capability_disabled
      end
  end.

(** ** The guard of a rule *)

Inductive ConditionOp := op_eq | op_neq | op_in.

Record ConditionClause := mkClause {
  clause_field : string;
  clause_op : ConditionOp;
  clause_value : json;
}.

(** [WorkflowCondition]: its [all]. *)
Abbreviation WorkflowCondition := (list ConditionClause).

(** [String(value)] *)
Fixpoint js_string (v : json) : string :=
  match v with
  | JNull => "null"
  | JBool b => if b then "true" else "false"
  | JNumber n => z_text n
  | JString s => s
  | JArray items =>
      text (join [","%char] (List.map (fun i => match i with JNull => [] | _ => chars (js_string i) end) items))
  | JObject _ => "[object Object]"
  end.

(** [a === b]: an array or an object is no other value. *)
Definition strictly_equal (a b : json) : bool :=
  match a, b with
  | JNull, JNull => true
  | JBool x, JBool y => Bool.eqb x y
  | JNumber x, JNumber y => x =? y
  | JString x, JString y => String.eqb x y
  | _, _ => false
  end.

(** [s.toLowerCase()], within the modelled code units. *)
Definition lower_char (c : ascii) : ascii :=
  let n := code c in
  if ((65 <=? n) && (n <=? 90)) || ((192 <=? n) && (n <=? 222) && negb (n =? 215))
  then ascii_of_nat (Z.to_nat (n + 32)) else c.

Definition normal_value (v : json) : string := text (List.map lower_char (trim (chars (js_string v)))).

Definition sameValue (actual : option json) (expected : json) : bool :=
  match actual with
  | None => false
  | Some JNull => strictly_equal JNull expected
  | Some a => strictly_equal a expected || String.eqb (normal_value a) (normal_value expected)
  end.

Definition clause_holds (payload : json_record) (clause : ConditionClause) : bool :=
  let actual := own (clause_field clause) payload in
  match clause_op clause with
  | op_eq => sameValue actual (clause_value clause)
  | op_neq => negb (sameValue actual (clause_value clause))
  | op_in => match clause_value clause with
             | JArray options => existsb (sameValue actual) options
             | _ => false
             end
  end.

Definition evaluateCondition (condition : option WorkflowCondition) (payload : json_record) : bool :=
  match condition with
  | None => true
  | Some all => forallb (clause_holds payload) all
  end.

(** ** Who may author and decide *)

Definition permissionForWorkflowAction (actionType : string) : string :=
  if bool_decide (execution_tier actionType = Some tier_automated) then "tokens:write" else "tokens:admin".

Definition permits (permissions : list string) (actionType : string) : bool :=
  bool_decide ("*" ∈ permissions) || bool_decide (permissionForWorkflowAction actionType ∈ permissions).

Definition assertWorkflowActionPermitted (permissions : list string) (actionType : string) : result unit :=
  if permits permissions actionType then Ok tt
  else Err (AppError "INSUFFICIENT_PERMISSIONS" ("Required permissions: " ++ permissionForWorkflowAction actionType)).

(** ** The parameters of an action *)

(** [value.trim()] of a string that is not blank. *)
Definition filled (v : option json) : option string :=
  match v with
  | Some (JString s) => if String.eqb (trimmed s) "" then None else Some (trimmed s)
  | _ => None
  end.

Definition resolveParam (params : json_record) (key : string) : option string :=
  match own key params with
  | Some (JNumber n) => Some (z_text n)
  | v => filled v
  end.

Definition resolveTargetWallet (payload params : json_record) : option string :=
  match filled (own "wallet" params) with
  | Some w => Some w
  | None => filled (own "wallet" payload)
  end.

(** ** Labels *)

(** [s.replace(/\bkyc\b/gi, "KYC")]; [inside] when the code unit before is one of a word. *)
Fixpoint upper_kyc (inside : bool) (l : list ascii) : list ascii :=
  match l with
  | [] => []
  | a :: tail =>
      match tail with
      | b :: c :: rest =>
          if negb inside && String.eqb (to_lower (text [a; b; c])) "kyc"
             && match rest with d :: _ => negb (is_word d) | [] => true end
          then "K"%char :: "Y"%char :: "C"%char :: upper_kyc true rest
          else a :: upper_kyc (is_word a) tail
      | _ => l
      end
  end.

Definition upper_char (c : ascii) : ascii :=
  let n := code c in if (97 <=? n) && (n <=? 122) then ascii_of_nat (Z.to_nat (n - 32)) else c.

(** A trigger's or an action's key in words; the keys are ASCII. *)
Definition humanizeWorkflowKey (key : string) : string :=
  match trim (List.map (fun c => if Ascii.eqb c "_" then " "%char else c) (chars key)) with
  | [] => key
  | c :: rest => text (upper_kyc false (upper_char c :: rest))
  end.
