(* ===== verification/WorkflowTables.v ===== *)
(** * Workflows: the tables

    The rules ([asset_workflows], migration 0048), their executions
    ([workflow_executions], 0049), the queue of credentials to destroy
    ([workflow_action_secret_retirements], 0056), and of the token tables the recorded
    supply and the control list: the statements of
    [db/repositories/asset-workflow.repository.postgres.ts],
    [workflow-execution.repository.postgres.ts],
    [workflow-secret-retirement.repository.postgres.ts] and, of [services/token.service.ts],
    those the actions of a rule run. [now] is [sdp_iso_now()] or the caller's clock, and an
    id the generated one. Organizations, projects and tokens are not tables here: their
    foreign keys are not checked. *)
From Stdlib Require Import Ascii String ZArith Lia.
From stdpp Require Import base list strings.
From S2P Require Import Prelude Text Rows PolicyTypes WorkflowTypes.

Local Open Scope string_scope.
Local Open Scope Z_scope.
Local Open Scope list_scope.
Local Open Scope sdp_scope.

(** ** Rows *)

Record WfTenant := mkWfTenant { wt_organization : string; wt_project : string }.

#[export] Instance WfTenant_eq_dec : EqDecision WfTenant.
Proof. solve_decision. Defined.

Inductive CredentialSecretStorageBackend := gcp_secret_manager | encrypted_db | runtime_env.

#[export] Instance CredentialSecretStorageBackend_eq_dec : EqDecision CredentialSecretStorageBackend.
Proof. solve_decision. Defined.

Definition backend_text (b : CredentialSecretStorageBackend) : string :=
  match b with
  | gcp_secret_manager => "gcp_secret_manager"
  | encrypted_db => "encrypted_db"
  | runtime_env => "runtime_env"
  end.

Record StoredCredentialSecret := mkStored {
  storageBackend : CredentialSecretStorageBackend;
  secretRef : option string;
  secretVersionRef : option string;
  encryptedSecretPayload : option string;
  runtimeEnvFields : list (string * string);
}.

Record WorkflowRetryPolicy := mkRetryPolicy { maxAttempts : Z; retryAfterMinutes : Z }.

Record AssetWorkflowDefinition := mkDefinition {
  def_condition : option WorkflowCondition;
  def_action_type : string;
  def_params : json_record;
  def_retryPolicy : option WorkflowRetryPolicy;
  def_actionSecret : option StoredCredentialSecret;
}.

Record AssetWorkflowRow := mkRule {
  wr_id : string;
  wr_tenant : WfTenant;
  wr_token_id : string;
  wr_trigger_type : string;
  wr_action_type : string;
  wr_definition : AssetWorkflowDefinition;
  wr_version : Z;
  wr_enabled : bool;
  wr_review_mode : ReviewMode;
  wr_created_by : option string;
  wr_created_at : string;
  wr_updated_at : string;
  wr_deleted_at : option string;
}.

Inductive WorkflowExecutionStatus := we_awaiting_review | we_pending | we_processing | we_succeeded | we_failed | we_cancelled.

#[export] Instance WorkflowExecutionStatus_eq_dec : EqDecision WorkflowExecutionStatus.
Proof. solve_decision. Defined.

(** The columns of an execution no statement changes. *)
Record ExecutionFacts := mkExecutionFacts {
  wx_id : string;
  wx_tenant : WfTenant;
  wx_workflow_id : string;
  wx_token_id : string;
  wx_trigger_type : string;
  wx_action_type : string;
  wx_idempotency_key : string;
  wx_trigger_payload : json_record;
  wx_max_attempts : Z;
  wx_created_at : string;
}.

Record WorkflowExecutionRow := mkExecution {
  we_facts : ExecutionFacts;
  we_status : WorkflowExecutionStatus;
  we_result : json_record;
  we_attempt_count : Z;
  we_next_attempt_at : option string;
  we_locked_at : option string;
  we_error : option string;
  we_decided_by : option string;
  we_decided_at : option string;
  we_updated_at : string;
}.

Definition execution_id (r : WorkflowExecutionRow) : string := wx_id (we_facts r).
Definition execution_action (r : WorkflowExecutionRow) : string := wx_action_type (we_facts r).
Definition execution_tenant (r : WorkflowExecutionRow) : WfTenant := wx_tenant (we_facts r).

Record WorkflowSecretRetirementRow := mkRetirement {
  rt_id : string;
  rt_organization_id : string;
  rt_workflow_id : option string;
  rt_storage_backend : string;
  rt_secret_ref : option string;
  rt_secret_version_ref : string;
  rt_attempt_count : Z;
  rt_last_error : option string;
  rt_next_attempt_at : string;
  rt_created_at : string;
  rt_updated_at : string;
}.

(** Of [issued_tokens], what counts its supply, in base units. *)
Record TokenSupplyRow := mkSupply {
  ts_token_id : string;
  ts_organization : string;
  ts_project : option string;
  ts_total_supply_cached : option Z;
  ts_max_supply : option Z;
  ts_total_supply_updated_at : option string;
}.

Inductive AllowlistEntryStatus := al_pending | al_active | al_revoked.

#[export] Instance AllowlistEntryStatus_eq_dec : EqDecision AllowlistEntryStatus.
Proof. solve_decision. Defined.

Record TokenAllowlistEntry := mkAllowlistEntry {
  al_id : string;
  al_token_id : string;
  al_address : string;
  al_label : option string;
  al_status : AllowlistEntryStatus;
  al_added_by : string;
  al_created_at : string;
  al_revoked_at : option string;
}.

Record WorkflowTables := mkWorkflowTables {
  wf_rules : list AssetWorkflowRow;
  wf_executions : list WorkflowExecutionRow;
  wf_retirements : list WorkflowSecretRetirementRow;
  wf_supplies : list TokenSupplyRow;
  wf_allowlist : list TokenAllowlistEntry;
}.

Definition with_rules (t : WorkflowTables) (l : list AssetWorkflowRow) : WorkflowTables :=
  mkWorkflowTables l (wf_executions t) (wf_retirements t) (wf_supplies t) (wf_allowlist t).
Definition with_executions (t : WorkflowTables) (l : list WorkflowExecutionRow) : WorkflowTables :=
  mkWorkflowTables (wf_rules t) l (wf_retirements t) (wf_supplies t) (wf_allowlist t).
Definition with_retirements (t : WorkflowTables) (l : list WorkflowSecretRetirementRow) : WorkflowTables :=
  mkWorkflowTables (wf_rules t) (wf_executions t) l (wf_supplies t) (wf_allowlist t).
Definition with_supplies (t : WorkflowTables) (l : list TokenSupplyRow) : WorkflowTables :=
  mkWorkflowTables (wf_rules t) (wf_executions t) (wf_retirements t) l (wf_allowlist t).
Definition with_allowlist (t : WorkflowTables) (l : list TokenAllowlistEntry) : WorkflowTables :=
  mkWorkflowTables (wf_rules t) (wf_executions t) (wf_retirements t) (wf_supplies t) l.

(** ** Executions *)

Record CreateWorkflowExecutionInput := mkCreateExecution {
  ce_tenant : WfTenant;
  ce_workflowId : string;
  ce_tokenId : string;
  ce_triggerType : string;
  ce_actionType : string;
  (** [pending], or [awaiting_review] when it does not hold. *)
  ce_pending : bool;
  ce_idempotencyKey : string;
  ce_triggerPayload : json_record;
  ce_maxAttempts : Z;
}.

Definition new_execution (now id : string) (i : CreateWorkflowExecutionInput) : WorkflowExecutionRow :=
  mkExecution
    (mkExecutionFacts id (ce_tenant i) (ce_workflowId i) (ce_tokenId i) (ce_triggerType i) (ce_actionType i)
       (ce_idempotencyKey i) (ce_triggerPayload i) (ce_maxAttempts i) now)
    (if ce_pending i then we_pending else we_awaiting_review) [] 0 None None None None None now.

(** [idx_workflow_executions_idempotency] *)
Definition same_event (i : CreateWorkflowExecutionInput) (r : WorkflowExecutionRow) : bool :=
  String.eqb (wx_workflow_id (we_facts r)) (ce_workflowId i)
  && String.eqb (wx_idempotency_key (we_facts r)) (ce_idempotencyKey i).

Definition createExecution (now id : string) (i : CreateWorkflowExecutionInput) (t : WorkflowTables)
    : result (option WorkflowExecutionRow * WorkflowTables) :=
  if existsb (same_event i) (wf_executions t) then Ok (None, t)
  else if existsb (fun r => String.eqb (execution_id r) id) (wf_executions t) then Err (unique_violation "workflow_executions_pkey")
  else if negb (existsb (fun w => String.eqb (wr_id w) (ce_workflowId i)) (wf_rules t)) then
    Err (foreign_key_violation "workflow_executions")
  else Ok (Some (new_execution now id i), with_executions t (wf_executions t ++ [new_execution now id i])).

Definition of_tenant (tenant : WfTenant) (r : WorkflowExecutionRow) : bool := bool_decide (execution_tenant r = tenant).

Definition getExecutionById (id : string) (tenant : WfTenant) (t : WorkflowTables) : option WorkflowExecutionRow :=
  List.find (fun r => String.eqb (execution_id r) id && of_tenant tenant r) (wf_executions t).

(** The first row an update changed, and the rows. *)
Definition update_execution (p : WorkflowExecutionRow -> bool) (f : WorkflowExecutionRow -> WorkflowExecutionRow)
    (t : WorkflowTables) : option WorkflowExecutionRow * WorkflowTables :=
  let '(r, l) := update_where p f (wf_executions t) in (r, with_executions t l).

(** The status an update leaves, with what it does to the columns it names. *)
Definition settled_execution (now : string) (status : WorkflowExecutionStatus) (res : json_record) (attempts : Z)
    (next error : option string) (r : WorkflowExecutionRow) : WorkflowExecutionRow :=
  mkExecution (we_facts r) status res attempts next None error (we_decided_by r) (we_decided_at r) now.

Section Engine.
Variable text_le : string -> string -> bool.

(** The rows left [processing] by a run that died, oldest first. *)
Definition stale_ids (staleBefore : string) (limit : Z) (p : string -> bool) (t : WorkflowTables) : list string :=
  map execution_id (limit_rows limit
    (order_by (fun a b => text_le (default "" (we_locked_at a)) (default "" (we_locked_at b)))
      (List.filter (fun r =>
         bool_decide (we_status r = we_processing)
         && match we_locked_at r with Some at_ => text_le at_ staleBefore | None => false end
         && p (execution_action r)) (wf_executions t)))).

(** The first statement of [recoverStaleProcessing]. *)
Definition parkStaleProcessing (now staleBefore : string) (limit : Z) (parkActionTypes : list string) (t : WorkflowTables)
    : list WorkflowExecutionRow * WorkflowTables :=
  let ids := stale_ids staleBefore limit (fun a => bool_decide (a ∈ parkActionTypes)) t in
  let park r := settled_execution now we_failed (we_result r) (we_attempt_count r) None (Some "STALE_RECOVERED_NEEDS_REVIEW") r in
  let hit r := bool_decide (execution_id r ∈ ids) in
  (map park (List.filter hit (wf_executions t)),
   with_executions t (map (fun r => if hit r then park r else r) (wf_executions t))).

(** The second: a crashed run's attempt is refunded. *)
Definition requeueStaleProcessing (now staleBefore : string) (limit : Z) (parkActionTypes : list string) (t : WorkflowTables)
    : Z * WorkflowTables :=
  let ids := stale_ids staleBefore limit (fun a => negb (bool_decide (a ∈ parkActionTypes))) t in
  let requeue r := settled_execution now we_pending (we_result r) (Z.max (we_attempt_count r - 1) 0) (we_next_attempt_at r)
                     (we_error r) r in
  let hit r := bool_decide (execution_id r ∈ ids) in
  (Z.of_nat (length (List.filter hit (wf_executions t))),
   with_executions t (map (fun r => if hit r then requeue r else r) (wf_executions t))).

Definition listDueExecutions (dueBefore : string) (limit : Z) (t : WorkflowTables) : list WorkflowExecutionRow :=
  limit_rows limit
    (order_by (fun a b => text_le (wx_created_at (we_facts a)) (wx_created_at (we_facts b)))
      (List.filter (fun r =>
         bool_decide (we_status r = we_pending)
         && match we_next_attempt_at r with Some at_ => text_le at_ dueBefore | None => true end
         && (we_attempt_count r <? wx_max_attempts (we_facts r))) (wf_executions t))).
End Engine.

Definition has_status (s : WorkflowExecutionStatus) (r : WorkflowExecutionRow) : bool := bool_decide (we_status r = s).

Definition claimExecution (now id : string) (t : WorkflowTables) : option WorkflowExecutionRow * WorkflowTables :=
  update_execution (fun r => String.eqb (execution_id r) id && has_status we_pending r)
    (fun r => mkExecution (we_facts r) we_processing (we_result r) (we_attempt_count r + 1) (we_next_attempt_at r)
                (Some now) (we_error r) (we_decided_by r) (we_decided_at r) now) t.

Definition is_processing (id : string) (r : WorkflowExecutionRow) : bool :=
  String.eqb (execution_id r) id && has_status we_processing r.

Definition completeExecution (now id : string) (res : json_record) (t : WorkflowTables) : WorkflowTables :=
  (update_execution (is_processing id)
     (fun r => settled_execution now we_succeeded res (we_attempt_count r) None None r) t).2.

Definition failExecution (now id error : string) (res : option json_record) (t : WorkflowTables) : WorkflowTables :=
  (update_execution (is_processing id)
     (fun r => settled_execution now we_failed (default (we_result r) res) (we_attempt_count r) None (Some error) r) t).2.

Definition rescheduleExecution (now id error nextAttemptAt : string) (t : WorkflowTables) : WorkflowTables :=
  (update_execution (is_processing id)
     (fun r => settled_execution now we_pending (we_result r) (we_attempt_count r) (Some nextAttemptAt) (Some error) r) t).2.

Record WorkflowDecisionInput := mkDecision {
  dc_executionId : string;
  dc_tenant : WfTenant;
  dc_tokenId : string;
  dc_decidedBy : string;
}.

Definition decidable_row (i : WorkflowDecisionInput) (from : WorkflowExecutionStatus) (r : WorkflowExecutionRow) : bool :=
  String.eqb (execution_id r) (dc_executionId i) && of_tenant (dc_tenant i) r
  && String.eqb (wx_token_id (we_facts r)) (dc_tokenId i) && has_status from r.

Definition decide_execution (now : string) (i : WorkflowDecisionInput) (from to : WorkflowExecutionStatus) (t : WorkflowTables)
    : option WorkflowExecutionRow * WorkflowTables :=
  update_execution (decidable_row i from)
    (fun r => mkExecution (we_facts r) to (we_result r) 0 None None None (Some (dc_decidedBy i)) (Some now) now) t.

(** The three verbs of a human decision. *)
Inductive Verb := verb_approve | verb_retry | verb_cancel.

#[export] Instance Verb_eq_dec : EqDecision Verb.
Proof. solve_decision. Defined.

Definition verb_from (v : Verb) : WorkflowExecutionStatus :=
  match v with verb_retry => we_failed | _ => we_awaiting_review end.
Definition verb_to (v : Verb) : WorkflowExecutionStatus :=
  match v with verb_cancel => we_cancelled | _ => we_pending end.

Definition decideExecution (now : string) (v : Verb) (i : WorkflowDecisionInput) (t : WorkflowTables)
    : option WorkflowExecutionRow * WorkflowTables :=
  decide_execution now i (verb_from v) (verb_to v) t.

Definition open_of (workflowId : string) (tenant : WfTenant) (r : WorkflowExecutionRow) : bool :=
  String.eqb (wx_workflow_id (we_facts r)) workflowId && of_tenant tenant r
  && (has_status we_awaiting_review r || has_status we_pending r).

Definition cancelOpenExecutionsForWorkflow (now workflowId : string) (tenant : WfTenant) (t : WorkflowTables)
    : Z * WorkflowTables :=
  (Z.of_nat (length (List.filter (open_of workflowId tenant) (wf_executions t))),
   (update_execution (open_of workflowId tenant)
      (fun r => settled_execution now we_cancelled (we_result r) (we_attempt_count r) None (Some "RULE_WITHDRAWN") r) t).2).

(** ** Credentials to destroy *)

Record RecordWorkflowSecretRetirementInput := mkRecordRetirement {
  rr_organizationId : string;
  rr_workflowId : option string;
  rr_storageBackend : string;
  rr_secretRef : option string;
  rr_secretVersionRef : string;
  rr_error : string;
}.

Definition names_version (ref : string) (r : WorkflowSecretRetirementRow) : bool := String.eqb (rt_secret_version_ref r) ref.

Definition insertWorkflowSecretRetirement (now uuid : string) (i : RecordWorkflowSecretRetirementInput) (t : WorkflowTables)
    : result WorkflowTables :=
  let id := ("wf_secret_retirement_" ++ uuid)%string in
  if existsb (names_version (rr_secretVersionRef i)) (wf_retirements t) then
    Ok (with_retirements t
      (map (fun r => if names_version (rr_secretVersionRef i) r
                     then mkRetirement (rt_id r) (rt_organization_id r) (rt_workflow_id r) (rt_storage_backend r)
                            (rt_secret_ref r) (rt_secret_version_ref r) (rt_attempt_count r) (Some (rr_error i))
                            (rt_next_attempt_at r) (rt_created_at r) now
                     else r) (wf_retirements t)))
  else if existsb (fun r => String.eqb (rt_id r) id) (wf_retirements t) then
    Err (unique_violation "workflow_action_secret_retirements_pkey")
  else Ok (with_retirements t
    (wf_retirements t ++ [mkRetirement id (rr_organizationId i) (rr_workflowId i) (rr_storageBackend i) (rr_secretRef i)
                            (rr_secretVersionRef i) 0 (Some (rr_error i)) now now now])).

Definition deleteWorkflowSecretRetirement (secretVersionRef_ : string) (t : WorkflowTables) : WorkflowTables :=
  with_retirements t (List.filter (fun r => negb (names_version secretVersionRef_ r)) (wf_retirements t)).

Definition hasRetirement (secretVersionRef_ : string) (t : WorkflowTables) : bool :=
  existsb (names_version secretVersionRef_) (wf_retirements t).

Definition listDueRetirements (text_le : string -> string -> bool) (dueBefore : string) (limit : Z) (t : WorkflowTables)
    : list WorkflowSecretRetirementRow :=
  limit_rows limit (order_by (fun a b => text_le (rt_next_attempt_at a) (rt_next_attempt_at b))
    (List.filter (fun r => text_le (rt_next_attempt_at r) dueBefore) (wf_retirements t))).

Definition deleteRetirement (id : string) (t : WorkflowTables) : WorkflowTables :=
  with_retirements t (List.filter (fun r => negb (String.eqb (rt_id r) id)) (wf_retirements t)).

Definition rescheduleRetirement (now id error nextAttemptAt : string) (t : WorkflowTables) : WorkflowTables :=
  with_retirements t
    (map (fun r => if String.eqb (rt_id r) id
                   then mkRetirement (rt_id r) (rt_organization_id r) (rt_workflow_id r) (rt_storage_backend r)
                          (rt_secret_ref r) (rt_secret_version_ref r) (rt_attempt_count r + 1) (Some error)
                          nextAttemptAt (rt_created_at r) now
                   else r) (wf_retirements t)).

(** ** Rules *)

(** The version of a credential that lives outside the database. *)
Definition external_version (s : option StoredCredentialSecret) : option string :=
  match s with
  | Some stored =>
      if bool_decide (storageBackend stored = gcp_secret_manager) && truthy (secretVersionRef stored)
      then secretVersionRef stored else None
  | None => None
  end.

Definition clearQueuedSecret (stored : option StoredCredentialSecret) (t : WorkflowTables) : WorkflowTables :=
  match external_version stored with
  | Some ref => deleteWorkflowSecretRetirement ref t
  | None => t
  end.

Definition retirement_input (organizationId : string) (workflowId : option string) (stored : StoredCredentialSecret)
    (ref reason : string) : RecordWorkflowSecretRetirementInput :=
  mkRecordRetirement organizationId workflowId (backend_text (storageBackend stored)) (secretRef stored) ref reason.

Definition queueOrphanedSecret (now uuid organizationId workflowId : string) (retireSecret : option StoredCredentialSecret)
    (reason : string) (t : WorkflowTables) : result WorkflowTables :=
  match retireSecret, external_version retireSecret with
  | Some stored, Some ref =>
      insertWorkflowSecretRetirement now uuid (retirement_input organizationId (Some workflowId) stored ref reason) t
  | _, _ => Ok t
  end.

Record CreateAssetWorkflowInput := mkCreateRule {
  cw_id : string;
  cw_tenant : WfTenant;
  cw_tokenId : string;
  cw_triggerType : string;
  cw_actionType : string;
  cw_definition : AssetWorkflowDefinition;
  cw_version : Z;
  cw_reviewMode : ReviewMode;
  cw_enabled : option bool;
  cw_createdBy : option string;
  cw_clearRetirementFor : option StoredCredentialSecret;
}.

Definition new_rule (now : string) (i : CreateAssetWorkflowInput) : AssetWorkflowRow :=
  mkRule (cw_id i) (cw_tenant i) (cw_tokenId i) (cw_triggerType i) (cw_actionType i) (cw_definition i) (cw_version i)
    (default true (cw_enabled i)) (cw_reviewMode i) (cw_createdBy i) now now None.

Definition createWorkflow (now : string) (i : CreateAssetWorkflowInput) (t : WorkflowTables)
    : result (option AssetWorkflowRow * WorkflowTables) :=
  if existsb (fun r => String.eqb (wr_id r) (cw_id i)) (wf_rules t) then Err (unique_violation "asset_workflows_pkey")
  else Ok (Some (new_rule now i),
           clearQueuedSecret (cw_clearRetirementFor i) (with_rules t (wf_rules t ++ [new_rule now i]))).

Record UpdateAssetWorkflowInput := mkUpdateRule {
  uw_workflowId : string;
  uw_tenant : WfTenant;
  uw_definition : option AssetWorkflowDefinition;
  uw_reviewMode : option ReviewMode;
  uw_enabled : option bool;
  uw_rotateSecretTo : option StoredCredentialSecret;
}.

Definition rule_of (workflowId : string) (tenant : WfTenant) (r : AssetWorkflowRow) : bool :=
  String.eqb (wr_id r) workflowId && bool_decide (wr_tenant r = tenant).

Definition is_live (r : AssetWorkflowRow) : bool := bool_decide (wr_deleted_at r = None).

Definition with_secret (d : AssetWorkflowDefinition) (s : option StoredCredentialSecret) : AssetWorkflowDefinition :=
  mkDefinition (def_condition d) (def_action_type d) (def_params d) (def_retryPolicy d) s.

Definition rule_secret (r : AssetWorkflowRow) : option StoredCredentialSecret := def_actionSecret (wr_definition r).

Definition or_kept {A} (a b : option A) : option A := match a with Some x => Some x | None => b end.

Definition updated_rule (now : string) (i : UpdateAssetWorkflowInput) (definition : option AssetWorkflowDefinition)
    (r : AssetWorkflowRow) : AssetWorkflowRow :=
  mkRule (wr_id r) (wr_tenant r) (wr_token_id r) (wr_trigger_type r) (wr_action_type r)
    (default (wr_definition r) definition) (wr_version r) (default (wr_enabled r) (uw_enabled i))
    (default (wr_review_mode r) (uw_reviewMode i)) (wr_created_by r) (wr_created_at r) now (wr_deleted_at r).

(** One transaction: the row is read under lock. *)
Definition updateWorkflow (now uuid : string) (i : UpdateAssetWorkflowInput) (t : WorkflowTables)
    : result (option AssetWorkflowRow * WorkflowTables) :=
  let hit r := rule_of (uw_workflowId i) (uw_tenant i) r && is_live r in
  match List.find hit (wf_rules t) with
  | None => Ok (None, t)
  | Some locked =>
      let currentSecret := rule_secret locked in
      let definition := (fun d => with_secret d (or_kept (uw_rotateSecretTo i) currentSecret)) <$> uw_definition i in
      let '(row, l) := update_where hit (updated_rule now i definition) (wf_rules t) in
      let t := with_rules t l in
      match row, uw_rotateSecretTo i with
      | Some _, Some rotated =>
          let? t :=
            (if bool_decide ((s ← currentSecret; secretVersionRef s) = secretVersionRef rotated) then Ok t
             else queueOrphanedSecret now uuid (wt_organization (uw_tenant i)) (uw_workflowId i) currentSecret
                    "superseded by a key rotation" t) in
          Ok (row, clearQueuedSecret (Some rotated) t)
      | _, _ => Ok (row, t)
      end
  end.

Definition deleted_rule (now : string) (r : AssetWorkflowRow) : AssetWorkflowRow :=
  mkRule (wr_id r) (wr_tenant r) (wr_token_id r) (wr_trigger_type r) (wr_action_type r) (wr_definition r) (wr_version r)
    false (wr_review_mode r) (wr_created_by r) (wr_created_at r) now (Some now).

Definition deleteWorkflow (now uuid workflowId : string) (tenant : WfTenant) (t : WorkflowTables)
    : result (bool * WorkflowTables) :=
  match List.find (rule_of workflowId tenant) (wf_rules t) with
  | None => Ok (false, t)
  | Some locked =>
      let hit r := rule_of workflowId tenant r && is_live r in
      let? t' := queueOrphanedSecret now uuid (wt_organization tenant) workflowId (rule_secret locked)
                   "orphaned by a rule delete"
                   (with_rules t (map (fun r => if hit r then deleted_rule now r else r) (wf_rules t))) in
      Ok (existsb hit (wf_rules t), t')
  end.

Definition getWorkflowById (workflowId : string) (tenant : WfTenant) (includeDeleted : bool) (t : WorkflowTables)
    : option AssetWorkflowRow :=
  List.find (fun r => rule_of workflowId tenant r && (includeDeleted || is_live r)) (wf_rules t).

Definition listEnabledWorkflowsForTrigger (text_le : string -> string -> bool) (tenant : WfTenant) (triggerType : string)
    (tokenId : option string) (t : WorkflowTables) : list AssetWorkflowRow :=
  limit_rows 500 (order_by (fun a b => text_le (wr_created_at a) (wr_created_at b))
    (List.filter (fun r =>
       bool_decide (wr_tenant r = tenant) && String.eqb (wr_trigger_type r) triggerType && wr_enabled r && is_live r
       && match tokenId with Some k => String.eqb (wr_token_id r) k | None => true end) (wf_rules t))).

(** ** Supply *)

Definition token_of (tokenId : string) (tenant : WfTenant) (r : TokenSupplyRow) : bool :=
  String.eqb (ts_token_id r) tokenId && String.eqb (ts_organization r) (wt_organization tenant)
  && bool_decide (ts_project r = Some (wt_project tenant)).

Definition recorded_supply (r : TokenSupplyRow) : Z := default 0 (ts_total_supply_cached r).

Definition with_supply (now : string) (supply : Z) (r : TokenSupplyRow) : TokenSupplyRow :=
  mkSupply (ts_token_id r) (ts_organization r) (ts_project r) (Some supply) (ts_max_supply r) (Some now).

(** [now] is the caller's clock. *)
Definition reserveMintSupply (now tokenId : string) (tenant : WfTenant) (deltaBaseUnits : Z) (t : WorkflowTables)
    : option Z * WorkflowTables :=
  let '(r, l) := update_where (fun r => token_of tokenId tenant r
                    && match ts_max_supply r with
                       | None => true
                       | Some cap => recorded_supply r + deltaBaseUnits <=? cap
                       end)
                   (fun r => with_supply now (recorded_supply r + deltaBaseUnits) r) (wf_supplies t) in
  (recorded_supply <$> r, with_supplies t l).

(** [_applySupplyDelta(tokenId, delta, "subtract")] of a service without a tenant. *)
Definition subtractSupply (now tokenId : string) (deltaBaseUnits : Z) (t : WorkflowTables) : WorkflowTables :=
  with_supplies t (update_where (fun r => String.eqb (ts_token_id r) tokenId)
    (fun r => with_supply now (Z.max (recorded_supply r - deltaBaseUnits) 0) r) (wf_supplies t)).2.

(** ** The control list *)

Definition entry_of (tokenId address : string) (e : TokenAllowlistEntry) : bool :=
  String.eqb (al_token_id e) tokenId && String.eqb (al_address e) address.

Definition is_active_entry (e : TokenAllowlistEntry) : bool := bool_decide (al_status e = al_active).

Definition findAllowlistEntry (tokenId address : string) (t : WorkflowTables) : option TokenAllowlistEntry :=
  List.find (entry_of tokenId address) (wf_allowlist t).

Definition getActiveAllowlistEntryIdByAddress (tokenId address : string) (t : WorkflowTables) : option string :=
  al_id <$> List.find (fun e => entry_of tokenId address e && is_active_entry e) (wf_allowlist t).

Definition isAddressAllowed (tokenId address : string) (t : WorkflowTables) : bool :=
  bool_decide (is_Some (getActiveAllowlistEntryIdByAddress tokenId address t)).

(** The update of an entry that is there, by its id. *)
Definition reactivateAllowlistEntry (id : string) (label : option string) (addedBy : string) (t : WorkflowTables) : WorkflowTables :=
  with_allowlist t
    (map (fun e => if String.eqb (al_id e) id
                   then mkAllowlistEntry (al_id e) (al_token_id e) (al_address e) label al_active addedBy (al_created_at e) None
                   else e) (wf_allowlist t)).

Definition insertAllowlistEntry (now uuid tokenId address : string) (label : option string) (addedBy : string)
    (t : WorkflowTables) : result (TokenAllowlistEntry * WorkflowTables) :=
  let entry := mkAllowlistEntry ("tal_" ++ uuid) tokenId address label al_active addedBy now None in
  if existsb (fun e => entry_of tokenId address e || String.eqb (al_id e) (al_id entry)) (wf_allowlist t) then
    Err (unique_violation "token_allowlists")
  else Ok (entry, with_allowlist t (wf_allowlist t ++ [entry])).

(** [None] when no row was affected. *)
Definition revokeAllowlistEntry (now id : string) (t : WorkflowTables) : option unit * WorkflowTables :=
  let '(e, l) := update_where (fun e => String.eqb (al_id e) id)
    (fun e => mkAllowlistEntry (al_id e) (al_token_id e) (al_address e) (al_label e) al_revoked (al_added_by e)
                (al_created_at e) (Some now)) (wf_allowlist t) in
  ((fun _ => tt) <$> e, with_allowlist t l).

Definition deleteAllowlistEntry (id : string) (t : WorkflowTables) : option unit * WorkflowTables :=
  ((fun _ => tt) <$> List.find (fun e => String.eqb (al_id e) id) (wf_allowlist t),
   with_allowlist t (List.filter (fun e => negb (String.eqb (al_id e) id)) (wf_allowlist t))).
