(* ===== verification/WorkflowCalls.v ===== *)
(** * Workflows: what the engine, its actions and the routes call

    The calls with their answers: the statements of WorkflowTables.v, custody and the
    token SDK, the policy engine's store, the credential store, the network, mail, the
    clock; the turns of the workers of one run and the variables they share
    (Workers.v). What the platform outside the repository computes is [WorkflowKit]. *)
From Stdlib Require Import Ascii String ZArith Lia.
From stdpp Require Import base list strings.
From S2P Require Import Prelude Text Rows Workers PolicyTypes PolicyEnforce PolicyService TokenAmount WorkflowTypes WorkflowTables.

Local Open Scope string_scope.
Local Open Scope Z_scope.
Local Open Scope list_scope.
Local Open Scope sdp_scope.

(** ** The kit *)

Record ParsedUrl := mkUrl { url_href : string; url_protocol : string; url_hostname : string }.

Class WorkflowKit := mkWorkflowKit {
  (** [assertIsAddress] does not throw. *)
  is_address : string -> bool;
  (** [new URL(raw)]; [None] when it throws. *)
  parse_url : string -> option ParsedUrl;
  (** [new URL(location, base).toString()] *)
  resolve_url : string -> string -> option string;
  (** [JSON.stringify] of the body of a delivery, and its signature. *)
  json_text : json -> string;
  hmac_sha256_hex : string -> string -> string;
  (** [z.string().email()] *)
  is_email : string -> bool;
  (** The messages the token SDK throws. *)
  MINT_ALREADY_PAUSED_ERROR : string;
  MINT_NOT_PAUSED_ERROR : string;
}.

(** What the deployment's environment decides. *)
Record WorkflowDeployment := mkWorkflowDeployment {
  (** [createCredentialSecretStore(env, backend)]: the error it throws. *)
  wd_store : option CredentialSecretStorageBackend -> option jserr;
  wd_emailConfigured : bool;
  (** [env.KORA_RPC_URL] is set. *)
  wd_kora : bool;
}.

(** ** Values *)

(** [ActionExecutionResult] *)
Record ActionExecutionResult := mkActionResult {
  ar_succeeded : bool;
  ar_retryable : bool;
  ar_result : json_record;
  ar_error : option string;
}.

(** [OnchainContext]: the mosaic service of it signs with its signer. *)
Record OnchainContext := mkOnchain {
  oc_execution : WorkflowExecutionRow;
  oc_token : Token;
  oc_decimals : Z;
  oc_mintAddress : string;
  oc_signer : string;
  oc_signerWalletId : option string;
}.

(** A transaction of the SDK: what an action has the cluster do. *)
Inductive ChainOperation :=
| chain_mint (destination : string) (amount : double)
| chain_burn (source : string) (amount : double)
| chain_force_burn (source : string) (amount : double)
| chain_seize (source destination : string) (amount : double)
| chain_pause
| chain_unpause
| chain_freeze (tokenAccount : string)
| chain_thaw (tokenAccount : string).

(** The operations that cannot be undone. *)
Definition destructive (o : ChainOperation) : bool :=
  match o with
  | chain_mint _ _ | chain_burn _ _ | chain_force_burn _ _ | chain_seize _ _ _ => true
  | _ => false
  end.

Record ChainResult := mkChainResult { cr_signature : string; cr_slot : option Z }.

Record AssetProfile := mkProfile_ { ap_category : string; ap_type : string; ap_selected : list string }.

Record Recipient := mkRecipient { rc_userId : string; rc_email : option string }.

Record HttpResponse := mkResponse { hr_status : Z; hr_location : option string }.

(** A row of the token's ledger ([TokenService.createTransaction]). *)
Record TokenTransactionInput := mkTokenTransaction {
  tt_tokenId : string;
  tt_organizationId : string;
  tt_type : string;
  tt_params : json_record;
  tt_idempotencyKey : string;
  tt_idempotencyFingerprint : string;
}.

(** ** The variables of one run of the engine *)

Record RunWorkflowExecutionsResult := mkRunResult { rs_recovered : Z; rs_succeeded : Z; rs_failed : Z; rs_retried : Z }.

Inductive Outcome := out_succeeded | out_failed | out_retried.

Record TickMemory := mkTick {
  tick_queue : list WorkflowExecutionRow;
  tick_rules : list (string * option AssetWorkflowRow);
  tick_gates : list (string * option AssetGateContext);
  tick_result : RunWorkflowExecutionsResult;
}.

Inductive mem_call : Type :=
| ShiftQueue
| CachedRule (key : string)
| CacheRule (key : string) (rule : option AssetWorkflowRow)
| CachedGate (key : string)
| CacheGate (key : string) (gate : option AssetGateContext)
| Count (o : Outcome).

Definition mem_answer (c : mem_call) : Type :=
  match c with
  | ShiftQueue => option WorkflowExecutionRow
  | CachedRule _ => option (option AssetWorkflowRow)
  | CachedGate _ => option (option AssetGateContext)
  | CacheRule _ _ | CacheGate _ _ | Count _ => unit
  end.

Definition counted (o : Outcome) (r : RunWorkflowExecutionsResult) : RunWorkflowExecutionsResult :=
  match o with
  | out_succeeded => mkRunResult (rs_recovered r) (rs_succeeded r + 1) (rs_failed r) (rs_retried r)
  | out_failed => mkRunResult (rs_recovered r) (rs_succeeded r) (rs_failed r + 1) (rs_retried r)
  | out_retried => mkRunResult (rs_recovered r) (rs_succeeded r) (rs_failed r) (rs_retried r + 1)
  end.

Definition mem_step (c : mem_call) (m : TickMemory) : mem_answer c * TickMemory :=
  match c with
  | ShiftQueue =>
      (head (tick_queue m), mkTick (tail (tick_queue m)) (tick_rules m) (tick_gates m) (tick_result m))
  | CachedRule key => (own key (tick_rules m), m)
  | CacheRule key rule => (tt, mkTick (tick_queue m) ((key, rule) :: tick_rules m) (tick_gates m) (tick_result m))
  | CachedGate key => (own key (tick_gates m), m)
  | CacheGate key gate => (tt, mkTick (tick_queue m) (tick_rules m) ((key, gate) :: tick_gates m) (tick_result m))
  | Count o => (tt, mkTick (tick_queue m) (tick_rules m) (tick_gates m) (counted o (tick_result m)))
  end.

(** ** Calls *)

Inductive wf_call : Type :=
| CreateExecution (i : CreateWorkflowExecutionInput)
| GetExecution (id : string) (tenant : WfTenant)
| ParkStale (staleBefore : string) (limit : Z) (parkActionTypes : list string)
| RequeueStale (staleBefore : string) (limit : Z) (parkActionTypes : list string)
| ListDue (dueBefore : string) (limit : Z)
| ClaimExecution (id : string)
| CompleteExecution (id : string) (result : json_record)
| FailExecution (id error : string) (result : option json_record)
| RescheduleExecution (id error nextAttemptAt : string)
| DecideExecution (v : Verb) (i : WorkflowDecisionInput)
| CancelOpen (workflowId : string) (tenant : WfTenant)
| CreateRule (i : CreateAssetWorkflowInput)
| UpdateRule (i : UpdateAssetWorkflowInput)
| DeleteRule (workflowId : string) (tenant : WfTenant)
| GetRule (workflowId : string) (tenant : WfTenant) (includeDeleted : bool)
| ListEnabledRules (tenant : WfTenant) (triggerType : string) (tokenId : option string)
| RecordRetirement (i : RecordWorkflowSecretRetirementInput)
| DeleteRetirementByVersionRef (ref : string)
| HasRetirement (ref : string)
| ListDueRetirements (dueBefore : string) (limit : Z)
| DeleteRetirement (id : string)
| RescheduleRetirement (id error nextAttemptAt : string)
| ReserveMintSupply (tokenId : string) (tenant : WfTenant) (deltaBaseUnits : Z)
| SubtractSupply (tokenId : string) (deltaBaseUnits : Z)
| FindAllowlistEntry (tokenId address : string)
| ReactivateAllowlistEntry (id : string) (label : option string) (addedBy : string)
| InsertAllowlistEntry (tokenId address : string) (label : option string) (addedBy : string)
| RecordAllowlistStatus (id : string) (status : AllowlistEntryStatus)
| GetAllowlistEntry (id : string)
| ActiveAllowlistEntryId (tokenId address : string)
| RevokeAllowlistEntry (id : string)
| DeleteAllowlistEntry (id : string)
| AddressAllowed (tokenId address : string)
| GetToken (tokenId : string) (tenant : WfTenant)
| GetTokenById (tokenId : string)
| TokenInTenant (tokenId : string) (scope : TenantScope)
| ActiveAssetProfile (tokenId : string) (tenant : WfTenant)
| CreateOrgSigner (tenant : WfTenant) (walletId : option string)
| CustodyWalletByPublicKey (tenant : WfTenant) (publicKey : string)
| PolicyCustodyWallet (tenant : WfTenant) (walletId : string)
| PolicyStore (c : store_call)
| ResolveTokenAccount (wallet mint : string)
| TokenAccountFrozen (tokenAccount : string)
| PrepareMint (ctx : OnchainContext) (destination : string) (amount : double)
| SubmitChain (ctx : OnchainContext) (operation : ChainOperation)
| SetTokenStatus (tokenId : string) (status : TokenStatus)
| MirrorFreeze (tokenId account frozenBy reason : string)
| MirrorUnfreeze (tokenId account unfrozenBy : string)
| CreateTokenTransaction (i : TokenTransactionInput)
| ConfirmTokenTransaction (id signature : string) (slot : option Z)
| AddToList (signer list_ wallet : string)
| RemoveFromList (signer list_ wallet : string)
| IsWalletOnList (list_ wallet : string)
| WriteSecret (organizationId workflowId secret : string)
| ReadSecret (organizationId : string) (stored : StoredCredentialSecret)
| DestroyVersion (backend : option CredentialSecretStorageBackend) (ref : string)
| Pause_ (ms : Z)
| ListAudience (tenant : WfTenant) (members : bool)
| IsMemberEmail (organizationId email : string)
| CreateNotifications (execution : WorkflowExecutionRow) (userIds : list string) (title body : string) (customTitle : bool)
| SendEmail (to subject body : string)
| LookupHost (hostname : string)
| Fetch (url : string) (headers : list (string * string)) (body : string)
| AuditSystem (execution : WorkflowExecutionRow) (ok : bool) (extra : json_record)
| AuditDecision (verb : Verb) (execution : WorkflowExecutionRow)
| NowMs
| NewUuid
| Random
| Turn
| Mem (c : mem_call).

Definition wf_answer (c : wf_call) : Type :=
  match c with
  | CreateExecution _ | GetExecution _ _ | ClaimExecution _ | DecideExecution _ _ => option WorkflowExecutionRow
  | ParkStale _ _ _ | ListDue _ _ => list WorkflowExecutionRow
  | RequeueStale _ _ _ | CancelOpen _ _ | CreateNotifications _ _ _ _ _ | NowMs | Random => Z
  | CompleteExecution _ _ | FailExecution _ _ _ | RescheduleExecution _ _ _ => unit
  | CreateRule _ | UpdateRule _ | GetRule _ _ _ => option AssetWorkflowRow
  | DeleteRule _ _ => bool
  | ListEnabledRules _ _ _ => list AssetWorkflowRow
  | RecordRetirement _ | DeleteRetirementByVersionRef _ | DeleteRetirement _ | RescheduleRetirement _ _ _ => unit
  | HasRetirement _ => bool
  | ListDueRetirements _ _ => list WorkflowSecretRetirementRow
  | ReserveMintSupply _ _ _ => option Z
  | SubtractSupply _ _ => unit
  | FindAllowlistEntry _ _ | GetAllowlistEntry _ => option TokenAllowlistEntry
  | InsertAllowlistEntry _ _ _ _ => TokenAllowlistEntry
  | ReactivateAllowlistEntry _ _ _ | RecordAllowlistStatus _ _ => unit
  | ActiveAllowlistEntryId _ _ => option string
  | RevokeAllowlistEntry _ | DeleteAllowlistEntry _ => option unit
  | AddressAllowed _ _ | TokenInTenant _ _ => bool
  | GetToken _ _ | GetTokenById _ => option Token
  | ActiveAssetProfile _ _ => option AssetProfile
  | CreateOrgSigner _ _ | ResolveTokenAccount _ _ => string
  | CustodyWalletByPublicKey _ _ | PolicyCustodyWallet _ _ => option string
  | PolicyStore c => store_response c
  | TokenAccountFrozen _ | IsWalletOnList _ _ | IsMemberEmail _ _ => bool
  | SubmitChain _ _ => ChainResult
  | CreateTokenTransaction _ => string
  | WriteSecret _ _ _ => StoredCredentialSecret
  | ReadSecret _ _ => option json
  | ListAudience _ _ => list Recipient
  | LookupHost _ => list string
  | Fetch _ _ _ => HttpResponse
  | NewUuid => string
  | Turn => bool
  | Mem c => mem_answer c
  | PrepareMint _ _ _ | SetTokenStatus _ _ | MirrorFreeze _ _ _ _ | MirrorUnfreeze _ _ _ | ConfirmTokenTransaction _ _ _
  | AddToList _ _ _ | RemoveFromList _ _ _ | DestroyVersion _ _ | Pause_ _ | SendEmail _ _ _ | AuditSystem _ _ _
  | AuditDecision _ _ => unit
  end.

Abbreviation wf_event := (event wf_answer).
Abbreviation wf_prog := (prog wf_answer).

Definition wf_ev (c : wf_call) (r : result (wf_answer c)) : wf_event := Ev (R := wf_answer) c r.

Definition ask (c : wf_call) : wf_prog (wf_answer c) := call c.

(** What a program answers, thrown or not. *)
Definition settled {A} (m : wf_prog A) : wf_prog (result A) :=
  catch (let! a := m in Ret (Ok a)) (fun e => Ret (Err e)).

(** The calls of the policy engine among the others. *)
Fixpoint with_policy_store {A} (m : store_prog A) : wf_prog A :=
  match m with
  | Ret a => Ret a
  | Throw e => Throw e
  | Call c k => Call (R := wf_answer) (PolicyStore c) (fun r => with_policy_store (k r))
  end.

(** The shared variables of a run ([with_memory] of Workers.v). *)
Definition tick_memory (c : wf_call) (m : TickMemory) : option (result (wf_answer c) * TickMemory) :=
  match c as c return option (result (wf_answer c) * TickMemory) with
  | Mem mc => let '(a, m') := mem_step mc m in Some (Ok a, m')
  | _ => None
  end.

Definition first_goes (r : result (wf_answer Turn)) : bool := match r with Ok b => b | Err _ => true end.
