(* ===== verification/WorkflowAllowlist.v ===== *)
(** * Workflows: the allowlist of a token

    [services/allowlist-sync.ts] with the methods of [services/token.service.ts] it calls:
    an entry is written to the database and then put on the token's list on chain, or
    taken off the list and then revoked. Nothing of it throws: a wallet that is already
    listed, or already off, is a success. *)
From Stdlib Require Import Ascii String ZArith Lia.
From stdpp Require Import base list strings.
From S2P Require Import Prelude Text PolicyTypes TokenAmount WorkflowTypes WorkflowTables WorkflowCalls.

Local Open Scope string_scope.
Local Open Scope list_scope.
Local Open Scope sdp_scope.

(** [isPostgresUniqueViolation(error)] *)
Definition isPostgresUniqueViolation (e : jserr) : bool :=
  match e with CodedError "DatabaseError" "23505" _ _ => true | _ => false end.

Definition ALREADY_ALLOWLISTED : jserr := PlainError "ADDRESS_ALREADY_ALLOWLISTED".

Definition insertNewAllowlistEntry (tokenId address : string) (label : option string) (addedBy : string)
    : wf_prog TokenAllowlistEntry :=
  let! entry :=
    catch (ask (InsertAllowlistEntry tokenId address label addedBy))
      (fun error => Throw (if isPostgresUniqueViolation error then ALREADY_ALLOWLISTED else error)) in
  ask (RecordAllowlistStatus (al_id entry) (al_status entry)) ;;;
  Ret entry.

(** The entry, and whether it was a revoked one. *)
Definition addAllowlistEntry (tokenId address : string) (label : option string) (addedBy : string)
    : wf_prog (TokenAllowlistEntry * bool) :=
  let! existing := ask (FindAllowlistEntry tokenId address) in
  match existing with
  | Some existing =>
      if bool_decide (al_status existing = al_active) then Throw ALREADY_ALLOWLISTED
      else
        ask (ReactivateAllowlistEntry (al_id existing) label addedBy) ;;;
        ask (RecordAllowlistStatus (al_id existing) al_active) ;;;
        let! entry := ask (GetAllowlistEntry (al_id existing)) in
        match entry with
        | Some entry => Ret (entry, bool_decide (al_status existing = al_revoked))
        | None => Throw (PlainError "ALLOWLIST_ENTRY_NOT_FOUND")
        end
  | None =>
      let! entry := insertNewAllowlistEntry tokenId address label addedBy in
      Ret (entry, false)
  end.

(** [revokeAllowlistEntry], [deleteAllowlistEntry]: no row is an error. *)
Definition affected (m : wf_prog (option unit)) : wf_prog unit :=
  let! row := m in
  match row with
  | Some _ => Ret tt
  | None => Throw (PlainError "ALLOWLIST_ENTRY_NOT_FOUND")
  end.

Section Allowlist.
Context {K : WorkflowKit}.
Variable dp : WorkflowDeployment.

(** [packages/sdp-solana/src/address.ts] *)
Definition assertValidAddress (value fieldName : string) : result string :=
  if is_address value then Ok value
  else Err (PlainError ("Invalid Solana address for " ++ fieldName ++ ": " ++ value)).

(** [createMosaicService(env, signer, "sponsored")] of [services/issuance/mosaic]: no scope
    is given. *)
Definition createMosaicService : result unit :=
  if wd_kora dp then Err (PlainError "Sponsorship scope is required for Kora-backed issuance") else Ok tt.

Record SyncAllowlistInput := mkSyncAllowlist {
  sy_tenant : WfTenant;
  sy_tokenId : string;
  sy_walletAddress : string;
}.

Definition syncNewAllowlistEntryOnChain (tenant : WfTenant) (signingWalletId : option string) (entryId : string)
    (wasReactivated : bool) (list_ wallet : string) : wf_prog unit :=
  let! signer := ask (CreateOrgSigner tenant signingWalletId) in
  of_result createMosaicService ;;;
  catch (ask (AddToList signer list_ wallet))
    (fun error =>
       let! listed := ask (IsWalletOnList list_ wallet) in
       if listed then Ret tt
       else
         catch
           (if wasReactivated then affected (ask (RevokeAllowlistEntry entryId))
            else affected (ask (DeleteAllowlistEntry entryId)))
           (fun _ => Throw (AppError "INTERNAL_ERROR" "Failed to roll back control-list entry after sync error")) ;;;
         Throw error).

Inductive AllowlistSyncStatus :=
| sync_added (entryId : string) | sync_already_present | sync_removed | sync_already_absent | sync_failed (error : string).

(** The token's list, when it has one on chain. *)
Definition list_of (token : Token) : option string :=
  if truthy (tk_ablListAddress token) then tk_ablListAddress token else None.

Definition addAndSyncAllowlistEntry (i : SyncAllowlistInput) (label : option string) (addedBy : string)
    : wf_prog AllowlistSyncStatus :=
  let! token := ask (GetToken (sy_tokenId i) (sy_tenant i)) in
  match token with
  | None => Ret (sync_failed "TOKEN_NOT_FOUND")
  | Some token =>
      catch
        (let! added := addAllowlistEntry (sy_tokenId i) (sy_walletAddress i) label addedBy in
         match list_of token with
         | None => Ret (sync_added (al_id added.1))
         | Some abl =>
             let! list_ := of_result (assertValidAddress abl "ablListAddress") in
             let! wallet := of_result (assertValidAddress (sy_walletAddress i) "address") in
             syncNewAllowlistEntryOnChain (sy_tenant i) (tk_signingWalletId token) (al_id added.1) added.2 list_ wallet ;;;
             Ret (sync_added (al_id added.1))
         end)
        (fun error =>
           Ret match as_error error with
               | Some e => if String.eqb (error_message e) "ADDRESS_ALREADY_ALLOWLISTED" then sync_already_present
                           else sync_failed (error_message e)
               | None => sync_failed (error_message error)
               end)
  end.

Definition removeAllowlistEntryOnChain (tenant : WfTenant) (signingWalletId : option string) (list_ wallet : string)
    : wf_prog unit :=
  let! signer := ask (CreateOrgSigner tenant signingWalletId) in
  of_result createMosaicService ;;;
  catch (ask (RemoveFromList signer list_ wallet))
    (fun error =>
       let! listed := ask (IsWalletOnList list_ wallet) in
       if listed then Throw error else Ret tt).

Definition removeAndSyncAllowlistEntry (i : SyncAllowlistInput) : wf_prog AllowlistSyncStatus :=
  let! token := ask (GetToken (sy_tokenId i) (sy_tenant i)) in
  match token with
  | None => Ret (sync_failed "TOKEN_NOT_FOUND")
  | Some token =>
      catch
        (match list_of token with
         | None => Ret tt
         | Some abl =>
             let! list_ := of_result (assertValidAddress abl "ablListAddress") in
             let! wallet := of_result (assertValidAddress (sy_walletAddress i) "address") in
             removeAllowlistEntryOnChain (sy_tenant i) (tk_signingWalletId token) list_ wallet
         end ;;;
         let! entryId := ask (ActiveAllowlistEntryId (sy_tokenId i) (sy_walletAddress i)) in
         match entryId with
         | Some id =>
             if truthy (Some id) then affected (ask (RevokeAllowlistEntry id)) ;;; Ret sync_removed
             else Ret sync_already_absent
         | None => Ret sync_already_absent
         end)
        (fun error => Ret (sync_failed (error_message error)))
  end.
End Allowlist.
