(* ===== verification/WorkflowSecret.v ===== *)
(** * Workflows: the signing keys of rules

    [services/workflows/action-secret.ts], which writes, reads and retires the key a rule
    signs its deliveries with, and [services/jobs/retire-workflow-secrets.ts], which
    destroys what the requests could not. Logging is not a call. *)
From Stdlib Require Import Ascii String ZArith Lia.
From stdpp Require Import base list strings.
From S2P Require Import Prelude Text Dates PolicyTypes TransientRpc WorkflowTypes WorkflowTables WorkflowCalls.

Local Open Scope string_scope.
Local Open Scope Z_scope.
Local Open Scope list_scope.
Local Open Scope sdp_scope.

Definition is_store_error (e : jserr) : bool :=
  match e with CodedError "CredentialSecretStoreError" _ _ _ => true | _ => false end.

Definition QUEUE_ATTEMPTS : list Z := [1; 2; 3].
Definition QUEUE_BACKOFF_MS : Z := 50.

(** The attempts that are left; nothing waits after the last. *)
Fixpoint queue_from (attempts : list Z) (input : RecordWorkflowSecretRetirementInput) : wf_prog bool :=
  match attempts with
  | [] => Ret false
  | attempt :: rest =>
      let! r := settled (ask (RecordRetirement input)) in
      match r with
      | Ok _ => Ret true
      | Err _ =>
          match rest with
          | [] => Ret false
          | _ => ask (Pause_ (QUEUE_BACKOFF_MS * attempt)) ;;; queue_from rest input
          end
      end
  end.

Definition queueRetirement (input : RecordWorkflowSecretRetirementInput) : wf_prog bool := queue_from QUEUE_ATTEMPTS input.

Section Secret.
Variable dp : WorkflowDeployment.

Definition storeActionSecret (orgId workflowId secret : string) : wf_prog (option StoredCredentialSecret) :=
  match wd_store dp None with
  | Some _ => Ret None
  | None =>
      catch (let! stored := ask (WriteSecret orgId workflowId secret) in Ret (Some stored))
        (fun error => if is_store_error error then Ret None else Throw error)
  end.

Definition queuePendingActionSecret (orgId workflowId : string) (stored : option StoredCredentialSecret) : wf_prog unit :=
  match stored, external_version stored with
  | Some s, Some ref =>
      queueRetirement (retirement_input orgId (Some workflowId) s ref "written for a rule that has not committed yet") ;;;
      Ret tt
  | _, _ => Ret tt
  end.

(** Whether the version is queued after all is logged. *)
Definition recordFailedRetirement (orgId workflowId : string) (stored : StoredCredentialSecret) (ref : string) (cause : jserr)
    : wf_prog unit :=
  let! refreshed := queueRetirement (retirement_input orgId (Some workflowId) stored ref (error_message cause)) in
  if refreshed then Ret tt else catch (ask (HasRetirement ref)) (fun _ => Ret false) ;;; Ret tt.

Definition destroyActionSecret (orgId workflowId : string) (stored : option StoredCredentialSecret) : wf_prog unit :=
  match stored, external_version stored with
  | Some s, Some ref =>
      let! r := settled (match wd_store dp None with
                         | Some e => Throw e
                         | None => ask (DestroyVersion None ref)
                         end) in
      match r with
      | Err error => recordFailedRetirement orgId workflowId s ref error
      | Ok _ => catch (ask (DeleteRetirementByVersionRef ref)) (fun _ => Ret tt)
      end
  | _, _ => Ret tt
  end.

(** [None] when there is a key and it cannot be read. *)
Definition readActionSecret (orgId : string) (stored : option StoredCredentialSecret) : wf_prog (option (option string)) :=
  match stored with
  | None => Ret (Some None)
  | Some s =>
      match wd_store dp None with
      | Some _ => Ret None
      | None =>
          catch
            (let! value := ask (ReadSecret orgId s) in
             Ret match value with
                 | Some (JString v) => if String.eqb v "" then None else Some (Some v)
                 | _ => None
                 end)
            (fun _ => Ret None)
      end
  end.

(** ** The sweeper *)

Definition RETIREMENT_BATCH_SIZE : Z := 25.
Definition BASE_RETRY_MINUTES : Z := 5.
Definition MAX_RETRY_MINUTES : Z := 6 * 60.

Definition retirement_delay_minutes (attemptCount : Z) : Z :=
  Z.min (BASE_RETRY_MINUTES * 2 ^ attemptCount) MAX_RETRY_MINUTES.

(** [nextAttemptIso(now, attemptCount)] *)
Definition nextRetirementIso (nowMs attemptCount : Z) : result string :=
  toISOString (nowMs + retirement_delay_minutes attemptCount * 60 * 1000).

Definition holds_text (needle s : string) : bool :=
  at_some_place (fun _ l => is_prefix (chars needle) l) None (chars s).

Definition isAlreadyDestroyed (e : jserr) : bool :=
  match as_error e with Some e => holds_text "FAILED_PRECONDITION" (error_message e) | None => false end.

Definition known_backend (value : string) : option CredentialSecretStorageBackend :=
  if String.eqb value "gcp_secret_manager" then Some gcp_secret_manager
  else if String.eqb value "encrypted_db" then Some encrypted_db
  else if String.eqb value "runtime_env" then Some runtime_env
  else None.

(** [storeForBackend]: the store of the backend of the row, built as often as it is asked
    for: building one has no effect. *)
Definition storeForBackend (backend : string) : result CredentialSecretStorageBackend :=
  match known_backend backend with
  | Some b => match wd_store dp (Some b) with None => Ok b | Some e => Err e end
  | None => Err (PlainError ("Unknown credential storage backend: " ++ backend))
  end.

Record RetireWorkflowSecretsResult := mkRetired { retired : Z; retire_failed : Z }.

Definition retire_row (nowMs : Z) (row : WorkflowSecretRetirementRow) (r : RetireWorkflowSecretsResult)
    : wf_prog RetireWorkflowSecretsResult :=
  let done := mkRetired (retired r + 1) (retire_failed r) in
  let! a := settled
    (let! backend := of_result (storeForBackend (rt_storage_backend row)) in
     ask (DestroyVersion (Some backend) (rt_secret_version_ref row)) ;;;
     ask (DeleteRetirement (rt_id row))) in
  match a with
  | Ok _ => Ret done
  | Err error =>
      if isAlreadyDestroyed error then ask (DeleteRetirement (rt_id row)) ;;; Ret done
      else
        let! next := of_result (nextRetirementIso nowMs (rt_attempt_count row + 1)) in
        ask (RescheduleRetirement (rt_id row) (error_message error) next) ;;;
        Ret (mkRetired (retired r) (retire_failed r + 1))
  end.

Fixpoint retire_rows (nowMs : Z) (due : list WorkflowSecretRetirementRow) (r : RetireWorkflowSecretsResult)
    : wf_prog RetireWorkflowSecretsResult :=
  match due with
  | [] => Ret r
  | row :: rest => let! r := retire_row nowMs row r in retire_rows nowMs rest r
  end.

Definition retireOrphanedActionSecrets : wf_prog RetireWorkflowSecretsResult :=
  let! nowMs := ask NowMs in
  let! now := of_result (toISOString nowMs) in
  let! due := ask (ListDueRetirements now RETIREMENT_BATCH_SIZE) in
  retire_rows nowMs due (mkRetired 0 0).
End Secret.
