(* ===== verification/WorkflowOnchain.v ===== *)
(** * Workflows: the actions on a token

    [services/workflows/actions]: the preamble every action on chain shares
    ([onchain.ts]), the checks before a submission ([preflight.ts]), the operations on
    supply ([supply.ts]), on a token and its accounts ([lifecycle.ts]), the entry of the
    token's ledger ([record-transaction.ts]) and the actions on the control list
    ([allowlist.ts], [allowlist-remove.ts]). *)
From Stdlib Require Import Ascii String ZArith Lia.
From stdpp Require Import base list strings.
From S2P Require Import Prelude Text Amount PolicyTypes PolicyEnforce PolicyService TokenAmount WorkflowTypes WorkflowTables WorkflowCalls WorkflowAllowlist.

Local Open Scope string_scope.
Local Open Scope Z_scope.
Local Open Scope list_scope.
Local Open Scope sdp_scope.

(** ** Results *)

Definition permanentFail (error : string) : ActionExecutionResult := mkActionResult false false [] (Some error).
Definition transientFail (error : string) : ActionExecutionResult := mkActionResult false true [] (Some error).
Definition succeeded (res : json_record) : ActionExecutionResult := mkActionResult true false res None.

(** [ActionContext] *)
Record ActionContext := mkActionContext {
  ac_params : json_record;
  ac_actionSecret : option StoredCredentialSecret;
}.

(** A step that may settle the action: its [result] is returned at once. *)
Definition step {A B} (m : wf_prog (ActionExecutionResult + A)) (k : A -> wf_prog (ActionExecutionResult + B))
    : wf_prog (ActionExecutionResult + B) :=
  let! r := m in
  match r with
  | inl settled => Ret (inl settled)
  | inr a => k a
  end.

(** What an action made of such steps answers. *)
Definition answer_of (m : wf_prog (ActionExecutionResult + ActionExecutionResult)) : wf_prog ActionExecutionResult :=
  let! r := m in Ret (match r with inl a | inr a => a end).

(** A value an action needs, or the permanent failure without it. *)
Definition need {A} (o : option A) (error : string) : wf_prog (ActionExecutionResult + A) :=
  Ret (match o with Some a => inr a | None => inl (permanentFail error) end).

Definition failing {A} (m : wf_prog A) : wf_prog (ActionExecutionResult + A) :=
  let! r := settled m in
  Ret (match r with Ok a => inr a | Err e => inl (permanentFail (error_message e)) end).

Inductive RequiredAuthority := authority_mint | authority_freeze.

Definition authority_text (a : RequiredAuthority) : string :=
  match a with authority_mint => "mint" | authority_freeze => "freeze" end.

Section Actions.
Context {K : WorkflowKit}.
Variable dp : WorkflowDeployment.

Definition safeAddress (value label : string) : option string :=
  match assertValidAddress value label with Ok a => Some a | Err _ => None end.

(** ** [onchain.ts] *)

Definition lookupCustodyWallet (execution : WorkflowExecutionRow) (publicKey : string) : wf_prog (option string) :=
  catch (ask (CustodyWalletByPublicKey (execution_tenant execution) publicKey)) (fun _ => Ret None).

(** [build] *)
Definition build_signer (execution : WorkflowExecutionRow) (walletId : option string)
    : wf_prog (ActionExecutionResult + string) :=
  let! r := settled (ask (CreateOrgSigner (execution_tenant execution) walletId)) in
  Ret (match r with
       | Ok signer => inr signer
       | Err e => inl (permanentFail ("SIGNER_UNAVAILABLE:" ++ error_message e))
       end).

(** The address that signs, and the custody wallet of its key. *)
Definition resolveSignerForAuthority (execution : WorkflowExecutionRow) (token : Token) (requires_ : option RequiredAuthority)
    : wf_prog (ActionExecutionResult + (string * option string)) :=
  step (build_signer execution (tk_signingWalletId token)) (fun preferred =>
  let required :=
    match requires_ with Some authority_mint => tk_mintAuthority token | _ => tk_freezeAuthority token end in
  match requires_, required with
  | Some authority, Some required =>
      if String.eqb required "" || String.eqb preferred required then
        let! walletId :=
          (match tk_signingWalletId token with
           | Some id => Ret (Some id)
           | None => lookupCustodyWallet execution preferred
           end) in
        Ret (inr (preferred, walletId))
      else
        let! wallet := lookupCustodyWallet execution required in
        step (need wallet ("AUTHORITY_NOT_IN_CUSTODY:" ++ authority_text authority)) (fun walletId =>
        step (build_signer execution (Some walletId)) (fun signer =>
        Ret (if String.eqb signer required then inr (signer, Some walletId)
             else inl (permanentFail ("AUTHORITY_MISMATCH:" ++ authority_text authority)))))
  | _, _ =>
      let! walletId :=
        (match tk_signingWalletId token with
         | Some id => Ret (Some id)
         | None => lookupCustodyWallet execution preferred
         end) in
      Ret (inr (preferred, walletId))
  end).

Definition prepareOnchain (execution : WorkflowExecutionRow) (requires_ : option RequiredAuthority)
    : wf_prog (ActionExecutionResult + OnchainContext) :=
  let! token := ask (GetToken (wx_token_id (we_facts execution)) (execution_tenant execution)) in
  step (need token "TOKEN_NOT_FOUND") (fun token =>
  step (need (if truthy (tk_mintAddress token) then tk_mintAddress token else None) "TOKEN_NOT_DEPLOYED") (fun mint =>
  step (need (tk_decimals token) "TOKEN_DECIMALS_UNKNOWN") (fun decimals =>
  step (resolveSignerForAuthority execution token requires_) (fun resolved =>
  of_result (createMosaicService dp) ;;;
  let! mintAddress := of_result (assertValidAddress mint "mintAddress") in
  Ret (inr (mkOnchain execution token decimals mintAddress resolved.1 resolved.2)))))).

Definition target_of (execution : WorkflowExecutionRow) (action : ActionContext) : option string :=
  resolveTargetWallet (wx_trigger_payload (we_facts execution)) (ac_params action).

Definition param (action : ActionContext) (key : string) : option string := resolveParam (ac_params action) key.

(** ** [preflight.ts] *)

Definition preflightMintAmount (ctx : OnchainContext) (amount : string) : ActionExecutionResult + double :=
  match resolveMintOperationAmount (oc_token ctx) amount with
  | Ok (_, _, mosaicAmount) => inr mosaicAmount
  | Err e => inl (permanentFail (error_message e))
  end.

Definition preflightDestinationAllowed (ctx : OnchainContext) (destination : string) : wf_prog (ActionExecutionResult + unit) :=
  failing
    (let! isOnControlList := ask (AddressAllowed (tk_id (oc_token ctx)) destination) in
     of_result (assertDestinationAllowedByControlList (oc_token ctx) isOnControlList)).

Definition text_or_null (s : option string) : json := match s with Some s => JString s | None => JNull end.

(** The operation put to the policy of the wallet that signs. *)
Definition policy_input (ctx : OnchainContext) (custodyWalletId : option string) (walletId : string)
    (operationType : WalletOperationType) (amount destination : option string) : CreateWalletOperationInput :=
  let x := oc_execution ctx in
  let token := oc_token ctx in
  let id := execution_id x in
  mkCreateOperation
    (PolicyTypes.mkCandidate (wt_organization (execution_tenant x)) (Some (wt_project (execution_tenant x))) custodyWalletId
       walletId None (Some (PolicyTypes.mkActor "workflow" (Some id) [("workflowExecutionId", JString id)])) "api"
       issuance operationType (Some (tk_symbol token)) amount destination
       [("tokenId", JString (tk_id token)); ("tokenSymbol", JString (tk_symbol token));
        ("mintAddress", text_or_null (tk_mintAddress token));
        ("workflowId", JString (wx_workflow_id (we_facts x))); ("workflowExecutionId", JString id)] [])
    [] [("tokenId", JString (tk_id token)); ("mintAddress", text_or_null (tk_mintAddress token));
        ("workflowExecutionId", JString id)]
    (Some id) None.

Definition preflightWalletPolicy (ctx : OnchainContext) (operationType : WalletOperationType)
    (amount destination : option string) : wf_prog (ActionExecutionResult + unit) :=
  let tenant := execution_tenant (oc_execution ctx) in
  match oc_signerWalletId ctx with
  | Some walletId =>
      if String.eqb walletId "" then Ret (inr tt)
      else
        failing
          (let! policyWallet := ask (PolicyCustodyWallet tenant walletId) in
           let! scope := of_result (createTenantScope (wt_organization tenant) (Some (wt_project tenant))) in
           with_policy_store (PolicyService.enforceWalletOperationPolicy scope
             (policy_input ctx policyWallet walletId operationType amount destination)) ;;;
           Ret tt)
  | None => Ret (inr tt)
  end.

(** ** [record-transaction.ts] *)

Definition recordWorkflowTransaction (execution : WorkflowExecutionRow) (type : string) (params : json_record)
    (signature : string) (slot : option Z) : wf_prog bool :=
  let x := we_facts execution in
  catch
    (let! transaction := ask (CreateTokenTransaction (mkTokenTransaction (wx_token_id x) (wt_organization (wx_tenant x)) type
       (params ++ [("workflowId", JString (wx_workflow_id x)); ("workflowExecutionId", JString (wx_id x));
                   ("triggerType", JString (wx_trigger_type x))])
       ("workflow:" ++ wx_id x)%string (type ++ ":" ++ signature)%string)) in
     ask (ConfirmTokenTransaction transaction signature slot) ;;;
     Ret true)
    (fun _ => Ret false).

(** [...(ok ? {} : { [key]: true })] *)
Definition flag_unless (ok : bool) (key : string) : json_record := if ok then [] else [(key, JBool true)].

(** ** [supply.ts] *)

Definition mirrorSupply (tokenId amountStr : string) : wf_prog bool :=
  catch
    (let! token := ask (GetTokenById tokenId) in
     match token with
     | None => Throw (PlainError "TOKEN_NOT_FOUND")
     | Some token =>
         let! deltaBaseUnits := of_result (SolanaAmount.parseDecimalAmount amountStr (token_decimals token)) in
         ask (SubtractSupply tokenId deltaBaseUnits) ;;;
         Ret true
     end)
    (fun _ => Ret false).

(** [String(result.slot)] *)
Definition slot_text (slot : option Z) : string := match slot with Some n => z_text n | None => "undefined" end.

Definition supplySucceeded (execution : WorkflowExecutionRow) (result : ChainResult) (mirrored : bool) (type : string)
    (params : json_record) : wf_prog ActionExecutionResult :=
  let! recorded := recordWorkflowTransaction execution type params (cr_signature result) (cr_slot result) in
  Ret (succeeded ([("signature", JString (cr_signature result)); ("slot", JString (slot_text (cr_slot result)))]
                  ++ flag_unless mirrored "mirrorFailed" ++ flag_unless recorded "ledgerFailed")).

(** [amountStr], [amountBaseUnits] and [mosaicAmount]. *)
Definition parseAmount (action : ActionContext) (decimals : Z) : option (string * Z * double) :=
  match param action "amount" with
  | Some amountStr =>
      match parsePositiveTokenAmount amountStr decimals with
      | Ok (amountBaseUnits, mosaicAmount) => Some (amountStr, amountBaseUnits, mosaicAmount)
      | Err _ => None
      end
  | None => None
  end.

Definition chain (ctx : OnchainContext) (o : ChainOperation) : wf_prog ChainResult := ask (SubmitChain ctx o).

Definition reserve_mint (ctx : OnchainContext) (amountBaseUnits : Z) : wf_prog unit :=
  let tenant := execution_tenant (oc_execution ctx) in
  let! _ := of_result (createTenantScope (wt_organization tenant) (Some (wt_project tenant))) in
  let! reserved := ask (ReserveMintSupply (tk_id (oc_token ctx)) tenant amountBaseUnits) in
  match reserved with
  | Some _ => Ret tt
  | None => Throw (AppError "MAX_SUPPLY_EXCEEDED" "Mint amount would exceed maximum supply")
  end.

(** [mosaic.mintTo(options, onBeforeSubmit)], of [packages/sdp-issuance/src/mosaic/service.ts]:
    the hook runs once the transaction is signed. *)
Definition mintTo (ctx : OnchainContext) (destination : string) (amountBaseUnits : Z) (amount : double) : wf_prog ChainResult :=
  ask (PrepareMint ctx destination amount) ;;;
  reserve_mint ctx amountBaseUnits ;;;
  chain ctx (chain_mint destination amount).

Definition runMint (execution : WorkflowExecutionRow) (action : ActionContext) : wf_prog ActionExecutionResult :=
  answer_of (
  step (prepareOnchain execution (Some authority_mint)) (fun ctx =>
  step (need (target_of execution action) "MISSING_PARAM:wallet") (fun destRaw =>
  step (need (safeAddress destRaw "destination") "INVALID_ADDRESS:wallet") (fun destination =>
  step (need (parseAmount action (oc_decimals ctx)) "MISSING_OR_INVALID_PARAM:amount") (fun '(amountStr, amountBaseUnits, mosaicAmount) =>
  step (Ret (preflightMintAmount ctx amountStr)) (fun _ =>
  step (preflightDestinationAllowed ctx destination) (fun _ =>
  step (preflightWalletPolicy ctx issuance_mint_execute (Some amountStr) (Some destination)) (fun _ =>
  step (failing (mintTo ctx destination amountBaseUnits mosaicAmount)) (fun result =>
  let! a := supplySucceeded execution result true "mint"
              [("destination", JString destination); ("amount", JString amountStr)] in
  Ret (inr a)))))))))).

Definition runBurn (execution : WorkflowExecutionRow) (action : ActionContext) : wf_prog ActionExecutionResult :=
  answer_of (
  step (prepareOnchain execution None) (fun ctx =>
  step (need (parseAmount action (oc_decimals ctx)) "MISSING_OR_INVALID_PARAM:amount") (fun '(amountStr, _, mosaicAmount) =>
  step (preflightWalletPolicy ctx issuance_burn_execute (Some amountStr) None) (fun _ =>
  step (failing (let! source := ask (ResolveTokenAccount (oc_signer ctx) (oc_mintAddress ctx)) in
                 chain ctx (chain_burn source mosaicAmount))) (fun result =>
  let! mirrored := mirrorSupply (tk_id (oc_token ctx)) amountStr in
  let! a := supplySucceeded execution result mirrored "burn" [("amount", JString amountStr)] in
  Ret (inr a)))))).

(** The holder an action takes from: its [source], or the wallet of the event. *)
Definition source_of (execution : WorkflowExecutionRow) (action : ActionContext) : option string :=
  match param action "source" with
  | Some s => Some s
  | None => target_of execution action
  end.

Definition runForceBurn (execution : WorkflowExecutionRow) (action : ActionContext) : wf_prog ActionExecutionResult :=
  answer_of (
  step (prepareOnchain execution None) (fun ctx =>
  step (need (source_of execution action) "MISSING_PARAM:source") (fun sourceRaw =>
  step (need (safeAddress sourceRaw "source") "INVALID_ADDRESS:source") (fun source =>
  step (need (parseAmount action (oc_decimals ctx)) "MISSING_OR_INVALID_PARAM:amount") (fun '(amountStr, _, mosaicAmount) =>
  step (preflightWalletPolicy ctx issuance_force_burn_execute (Some amountStr) None) (fun _ =>
  step (failing (chain ctx (chain_force_burn source mosaicAmount))) (fun result =>
  let! mirrored := mirrorSupply (tk_id (oc_token ctx)) amountStr in
  let! a := supplySucceeded execution result mirrored "force_burn"
              [("source", JString source); ("amount", JString amountStr)] in
  Ret (inr a)))))))).

Definition runSeize (execution : WorkflowExecutionRow) (action : ActionContext) : wf_prog ActionExecutionResult :=
  answer_of (
  step (prepareOnchain execution None) (fun ctx =>
  step (need (source_of execution action) "MISSING_PARAM:source") (fun sourceRaw =>
  step (need (param action "destination") "MISSING_PARAM:destination") (fun destRaw =>
  step (need (source ← safeAddress sourceRaw "source"; destination ← safeAddress destRaw "destination"; Some (source, destination))
          "INVALID_ADDRESS:source_or_destination") (fun '(source, destination) =>
  step (need (parseAmount action (oc_decimals ctx)) "MISSING_OR_INVALID_PARAM:amount") (fun '(amountStr, _, mosaicAmount) =>
  step (preflightDestinationAllowed ctx destination) (fun _ =>
  step (preflightWalletPolicy ctx issuance_seize_execute (Some amountStr) (Some destination)) (fun _ =>
  step (failing
    (let! result := chain ctx (chain_seize source destination mosaicAmount) in
     let! recorded := recordWorkflowTransaction execution "seize"
       [("source", JString source); ("destination", JString destination); ("amount", JString amountStr)]
       (cr_signature result) (cr_slot result) in
     Ret (succeeded ([("signature", JString (cr_signature result)); ("slot", JString (slot_text (cr_slot result)))]
                     ++ flag_unless recorded "ledgerFailed")))) (fun a =>
  Ret (inr a)))))))))).
End Actions.

(** ** [lifecycle.ts]

    Each action converges: a token or an account already in the state asked for is a
    success. *)

Section Lifecycle.
Context {K : WorkflowKit}.
Variable dp : WorkflowDeployment.

Definition lifecycleSucceeded (execution : WorkflowExecutionRow) (result : ChainResult) (type : string)
    (params : json_record) (mirrored : bool) : wf_prog ActionExecutionResult :=
  let! recorded := recordWorkflowTransaction execution type params (cr_signature result) (cr_slot result) in
  Ret (succeeded ([("signature", JString (cr_signature result))]
                  ++ match cr_slot result with None => [] | Some n => [("slot", JString (z_text n))] end
                  ++ params ++ flag_unless mirrored "mirrorFailed" ++ flag_unless recorded "ledgerFailed")).

(** [error instanceof Error && error.message === expected] *)
Definition says (e : jserr) (expected : string) : bool :=
  match as_error e with Some e => String.eqb (error_message e) expected | None => false end.

(** [runPause] and [runUnpause]: the operation, the status it leaves, the message of a
    token already there, and the flag that says so. *)
Definition converge_status (operation : ChainOperation) (status : TokenStatus) (already flag type : string)
    (execution : WorkflowExecutionRow) : wf_prog ActionExecutionResult :=
  answer_of (
  step (prepareOnchain dp execution None) (fun ctx =>
  let id := tk_id (oc_token ctx) in
  let! r := settled (let! result := chain ctx operation in ask (SetTokenStatus id status) ;;; Ret result) in
  match r with
  | Ok result => let! a := lifecycleSucceeded execution result type [] true in Ret (inr a)
  | Err error =>
      if says error already then ask (SetTokenStatus id status) ;;; Ret (inr (succeeded [(flag, JBool true)]))
      else Ret (inl (transientFail (error_message error)))
  end)).

Definition runPause (execution : WorkflowExecutionRow) : wf_prog ActionExecutionResult :=
  converge_status chain_pause token_paused MINT_ALREADY_PAUSED_ERROR "alreadyPaused" "pause" execution.

Definition runUnpause (execution : WorkflowExecutionRow) : wf_prog ActionExecutionResult :=
  converge_status chain_unpause token_active MINT_NOT_PAUSED_ERROR "alreadyActive" "unpause" execution.

Definition workflow_actor (execution : WorkflowExecutionRow) : string :=
  ("workflow:" ++ wx_workflow_id (we_facts execution))%string.

(** A write of the mirror: whether it was made. *)
Definition mirrored (m : wf_prog unit) : wf_prog bool := catch (m ;;; Ret true) (fun _ => Ret false).

Definition mirrorFreeze (execution : WorkflowExecutionRow) (tokenAccount : string) : wf_prog bool :=
  let x := we_facts execution in
  mirrored (ask (MirrorFreeze (wx_token_id x) tokenAccount (workflow_actor execution)
                   ("Workflow: " ++ humanizeWorkflowKey (wx_trigger_type x)))).

Definition mirrorUnfreeze (execution : WorkflowExecutionRow) (tokenAccount : string) : wf_prog bool :=
  mirrored (ask (MirrorUnfreeze (wx_token_id (we_facts execution)) tokenAccount (workflow_actor execution))).

(** [runFreeze] when [freezing], else [runUnfreeze]. *)
Definition converge_account (freezing : bool) (execution : WorkflowExecutionRow) (action : ActionContext)
    : wf_prog ActionExecutionResult :=
  answer_of (
  step (prepareOnchain dp execution (Some authority_freeze)) (fun ctx =>
  step (need (target_of execution action) "MISSING_PARAM:wallet") (fun targetRaw =>
  step (need (safeAddress targetRaw "wallet") "INVALID_ADDRESS:wallet") (fun wallet =>
  catch
    (let! tokenAccount := ask (ResolveTokenAccount wallet (oc_mintAddress ctx)) in
     let! frozen := ask (TokenAccountFrozen tokenAccount) in
     if Bool.eqb frozen freezing then
       Ret (inr (succeeded [(if freezing then "alreadyFrozen" else "alreadyThawed", JBool true);
                            ("tokenAccount", JString tokenAccount)]))
     else
       let! result := chain ctx (if freezing then chain_freeze tokenAccount else chain_thaw tokenAccount) in
       let! mirror :=
         (if freezing then mirrorFreeze execution tokenAccount else mirrorUnfreeze execution tokenAccount) in
       let! a := lifecycleSucceeded execution result (if freezing then "freeze" else "unfreeze")
                   [("tokenAccount", JString tokenAccount)] mirror in
       Ret (inr a))
    (fun error => Ret (inl (transientFail (error_message error)))))))).

Definition runFreeze := converge_account true.
Definition runUnfreeze := converge_account false.

(** ** The control list *)

Definition allowlist_json (r : AllowlistSyncStatus) : json :=
  JObject match r with
          | sync_added entryId => [("status", JString "added"); ("entryId", JString entryId)]
          | sync_already_present => [("status", JString "already_present")]
          | sync_removed => [("status", JString "removed")]
          | sync_already_absent => [("status", JString "already_absent")]
          | sync_failed error => [("status", JString "failed"); ("error", JString error)]
          end.

Definition allowlist_answer (r : AllowlistSyncStatus) : ActionExecutionResult :=
  let res := [("allowlist", allowlist_json r)] in
  match r with
  | sync_failed error => mkActionResult false (negb (String.eqb error "TOKEN_NOT_FOUND")) res (Some error)
  | _ => succeeded res
  end.

Definition sync_input (execution : WorkflowExecutionRow) (wallet : string) : SyncAllowlistInput :=
  mkSyncAllowlist (execution_tenant execution) (wx_token_id (we_facts execution)) wallet.

Definition runAllowlistAdd (execution : WorkflowExecutionRow) (action : ActionContext) : wf_prog ActionExecutionResult :=
  match target_of execution action with
  | None => Ret (permanentFail "MISSING_PARAM:wallet")
  | Some wallet =>
      let label := default ("Auto: " ++ humanizeWorkflowKey (wx_trigger_type (we_facts execution)))%string (param action "label") in
      let! r := addAndSyncAllowlistEntry dp (sync_input execution wallet) (Some label) (workflow_actor execution) in
      Ret (allowlist_answer r)
  end.

Definition runAllowlistRemove (execution : WorkflowExecutionRow) (action : ActionContext) : wf_prog ActionExecutionResult :=
  match target_of execution action with
  | None => Ret (permanentFail "MISSING_PARAM:wallet")
  | Some wallet =>
      let! r := removeAndSyncAllowlistEntry dp (sync_input execution wallet) in
      Ret (allowlist_answer r)
  end.
End Lifecycle.
