(* ===== verification/WorkflowDelivery.v ===== *)
(** * Workflows: deliveries

    [services/workflows/webhook-url.ts], which decides what addresses a delivery may go
    to; [actions/webhook.ts], the delivery; [actions/notify.ts], notifications and mail.
    What is inside is stated by networks, groups and names, without the code's tests. *)
From Stdlib Require Import Ascii String ZArith Lia.
From stdpp Require Import base list strings.
From S2P Require Import Prelude Text Pool History PolicyTypes IpAllowlist TransientRpc TokenAmount WorkflowTypes WorkflowTables WorkflowCalls WorkflowSecret WorkflowOnchain.

Local Open Scope string_scope.
Local Open Scope Z_scope.
Local Open Scope list_scope.
Local Open Scope sdp_scope.

(** ** Private addresses *)

(** The digits of a radix; [None] of a text that is empty or has another. *)
Definition radix_digit (radix : Z) (c : ascii) : option Z :=
  let n := code c in
  let v := if is_digit c then n - 48 else if (97 <=? n) && (n <=? 102) then n - 87
           else if (65 <=? n) && (n <=? 70) then n - 55 else radix in
  if v <? radix then Some v else None.

Definition radix_number (radix : Z) (l : list ascii) : option Z :=
  match l with
  | [] => None
  | _ => foldl (fun acc c => a ← acc; d ← radix_digit radix c; Some (a * radix + d)) (Some 0) l
  end.

(** [10] to the exponent of a literal, [0] when it has none. *)
Definition exponent_of (l : list ascii) : option Z :=
  match l with
  | [] => Some 0
  | c :: rest =>
      if Ascii.eqb c "e" || Ascii.eqb c "E" then
        match rest with
        | "-"%char :: ds => Z.opp <$> radix_number 10 ds
        | "+"%char :: ds => radix_number 10 ds
        | ds => radix_number 10 ds
        end
      else None
  end.

Fixpoint leading_digits (l : list ascii) : list ascii * list ascii :=
  match l with
  | c :: rest => if is_digit c then let '(ds, l') := leading_digits rest in (c :: ds, l') else ([], l)
  | [] => ([], [])
  end.

(** [n * 10 ^ e] as the nearest double, when that is an integer. *)
Definition integer_of (n e : Z) : option Z :=
  let up := n * 10 ^ Z.max e 0 in
  let down := Z.max (- e) 0 in
  if up * 2 ^ 1075 <=? 10 ^ down then Some 0
  else
    let x := number_of up down in
    let p := db_mantissa x * pow2_up (db_exponent x) in
    let q := pow2_up (- db_exponent x) in
    if p mod q =? 0 then Some (p / q) else None.

(** [Number(text)], of a text without a dot, when it is an integer. *)
Definition Number_integer (l : list ascii) : option Z :=
  match trim l with
  | [] => Some 0
  | "0"%char :: x :: rest =>
      if Ascii.eqb x "x" || Ascii.eqb x "X" then radix_number 16 rest
      else if Ascii.eqb x "o" || Ascii.eqb x "O" then radix_number 8 rest
      else if Ascii.eqb x "b" || Ascii.eqb x "B" then radix_number 2 rest
      else let '(ds, tail) := leading_digits (x :: rest) in e ← exponent_of tail; integer_of (of_digits ds) e
  | "-"%char :: rest =>
      let '(ds, tail) := leading_digits rest in
      n ← radix_number 10 ds; e ← exponent_of tail; Z.opp <$> integer_of n e
  | "+"%char :: rest =>
      let '(ds, tail) := leading_digits rest in n ← radix_number 10 ds; e ← exponent_of tail; integer_of n e
  | rest => let '(ds, tail) := leading_digits rest in n ← radix_number 10 ds; e ← exponent_of tail; integer_of n e
  end.

Definition octet (part : list ascii) : option Z :=
  n ← Number_integer part; if (0 <=? n) && (n <=? 255) then Some n else None.

Definition private_octets (a b : Z) : bool :=
  (a =? 0) || (a =? 10) || (a =? 127) || ((a =? 169) && (b =? 254)) || ((a =? 172) && (16 <=? b) && (b <=? 31))
  || ((a =? 192) && (b =? 168)) || ((a =? 192) && (b =? 0)) || ((a =? 198) && ((b =? 18) || (b =? 19)))
  || ((a =? 100) && (64 <=? b) && (b <=? 127)) || (224 <=? a).

Definition isPrivateIpv4 (address : list ascii) : bool :=
  match List.map octet (split_on "." address) with
  | [Some a; Some b; Some _; Some _] => private_octets a b
  | _ => false
  end.

(** [^::(?:ffff:)?(\d+\.\d+\.\d+\.\d+)$] *)
Definition mapped_ipv4 (value : list ascii) : option (list ascii) :=
  if is_prefix (chars "::") value then
    let rest := skipn 2 value in
    let v4 := if is_prefix (chars "ffff:") rest then skipn 5 rest else rest in
    match split_on "." v4 with
    | [a; b; c; d] =>
        if forallb (fun p => all_digits p && negb (bool_decide (p = []))) [a; b; c; d] then Some v4 else None
    | _ => None
    end
  else None.

Definition drop_first (c : ascii) (l : list ascii) : list ascii :=
  match l with x :: rest => if Ascii.eqb x c then rest else l | [] => [] end.

Definition drop_last (c : ascii) (l : list ascii) : list ascii := rev (drop_first c (rev l)).

(** [value.replace(/^\[|\]$/g, "")] *)
Definition unbracketed (l : list ascii) : list ascii := drop_last "]" (drop_first "[" l).

Definition isPrivateIpv6 (address : list ascii) : bool :=
  let value := unbracketed (List.map lower_char address) in
  match mapped_ipv4 value with
  | Some v4 => isPrivateIpv4 v4
  | None =>
      String.eqb (text value) "::" || String.eqb (text value) "::1"
      || existsb (fun p => is_prefix (chars p) value) ["fc"; "fd"; "fe8"; "fe9"; "fea"; "feb"; "ff"]
  end.

Definition isPrivateAddress (address : list ascii) : bool :=
  if bool_decide (":"%char ∈ address) then isPrivateIpv6 address else isPrivateIpv4 address.

Definition BLOCKED_HOST_SUFFIXES : list string := [".internal"; ".local"; ".localhost"].
Definition BLOCKED_HOSTS : list string := ["localhost"; "metadata"; "metadata.google.internal"].

Definition ends_with (suffix : string) (l : list ascii) : bool := is_prefix (rev (chars suffix)) (rev l).

Definition isBlockedHostname (hostname : list ascii) : bool :=
  let host := drop_last "." (List.map lower_char hostname) in
  bool_decide (text host ∈ BLOCKED_HOSTS) || existsb (fun s => ends_with s host) BLOCKED_HOST_SUFFIXES
  || (negb (bool_decide ("."%char ∈ host)) && negb (isPrivateAddress host)).

Inductive WebhookUrlRejection := INVALID_URL | INSECURE_SCHEME | PRIVATE_HOST | UNRESOLVABLE_HOST.

Definition rejection_text (r : WebhookUrlRejection) : string :=
  match r with
  | INVALID_URL => "INVALID_URL"
  | INSECURE_SCHEME => "INSECURE_SCHEME"
  | PRIVATE_HOST => "PRIVATE_HOST"
  | UNRESOLVABLE_HOST => "UNRESOLVABLE_HOST"
  end.

Section Delivery.
Context {K : WorkflowKit}.
Variable dp : WorkflowDeployment.

Definition host_of (url : ParsedUrl) : list ascii := unbracketed (chars (url_hostname url)).

Definition checkWebhookUrlSyntax (raw : string) : WebhookUrlRejection + ParsedUrl :=
  match parse_url raw with
  | None => inl INVALID_URL
  | Some url =>
      if negb (String.eqb (url_protocol url) "https:") then inl INSECURE_SCHEME
      else if isPrivateAddress (host_of url) || isBlockedHostname (host_of url) then inl PRIVATE_HOST
      else inr url
  end.

Definition resolveWebhookUrl (raw : string) : wf_prog (WebhookUrlRejection + ParsedUrl) :=
  match checkWebhookUrlSyntax raw with
  | inl reason => Ret (inl reason)
  | inr url =>
      if isPrivateAddress (host_of url) then Ret (inl PRIVATE_HOST)
      else
        let! resolved := settled (ask (LookupHost (text (host_of url)))) in
        Ret match resolved with
            | Err _ => inl UNRESOLVABLE_HOST
            | Ok [] => inl UNRESOLVABLE_HOST
            | Ok addresses => if existsb (fun a => isPrivateAddress (chars a)) addresses then inl PRIVATE_HOST else inr url
            end
  end.

(** ** A delivery *)

Definition MAX_REDIRECTS : nat := 1.

(** [hops] are left after this one. *)
Fixpoint deliver (hops : nat) (current : string) (headers : list (string * string)) (body : string)
    : wf_prog (ActionExecutionResult + HttpResponse) :=
  let! checked := resolveWebhookUrl current in
  match checked with
  | inl reason => Ret (inl (permanentFail ("BLOCKED_URL:" ++ rejection_text reason)))
  | inr url =>
      let! response := ask (Fetch (url_href url) headers body) in
      if (hr_status response <? 300) || (400 <=? hr_status response) then Ret (inr response)
      else if negb (truthy (hr_location response)) then Ret (inr response)
      else
        match resolve_url (default "" (hr_location response)) (url_href url) with
        | None => Throw (CodedError "TypeError" "" "Invalid URL" None)
        | Some next =>
            match hops with
            | O => Ret (inl (permanentFail "TOO_MANY_REDIRECTS"))
            | S hops => deliver hops next headers body
            end
        end
  end.

Definition webhook_body (execution : WorkflowExecutionRow) : json :=
  let x := we_facts execution in
  JObject [("type", JString (wx_trigger_type x)); ("tokenId", JString (wx_token_id x));
           ("workflowId", JString (wx_workflow_id x)); ("executionId", JString (wx_id x));
           ("payload", JObject (wx_trigger_payload x))].

Definition webhook_headers (secret : option string) (body : string) : list (string * string) :=
  [("content-type", "application/json"); ("user-agent", "SDP-Workflows/1")]
  ++ match secret with
     | Some s => if String.eqb s "" then [] else [("x-sdp-signature-256", ("sha256=" ++ hmac_sha256_hex s body)%string)]
     | None => []
     end.

Definition delivery_answer (response : HttpResponse) : ActionExecutionResult :=
  let status := hr_status response in
  let failure := ("HTTP_" ++ z_text status)%string in
  if (200 <=? status) && (status <=? 299) then succeeded [("status", JNumber status)]
  else if (500 <=? status) || (status =? 408) || (status =? 429) then transientFail failure
  else permanentFail failure.

Definition runSendWebhook (execution : WorkflowExecutionRow) (action : ActionContext) : wf_prog ActionExecutionResult :=
  match param action "url" with
  | None => Ret (permanentFail "MISSING_PARAM:url")
  | Some url =>
      let! stored := readActionSecret dp (wt_organization (execution_tenant execution)) (ac_actionSecret action) in
      match stored with
      | None => Ret (transientFail "SECRET_UNREADABLE")
      | Some key =>
          let secret := match key with Some s => Some s | None => param action "secret" end in
          let body := json_text (webhook_body execution) in
          let! delivery := settled (deliver MAX_REDIRECTS url (webhook_headers secret body) body) in
          Ret match delivery with
              | Ok (inl a) => a
              | Ok (inr response) => delivery_answer response
              | Err error => transientFail (error_message error)
              end
      end
  end.

(** ** Notifications *)

(** [/\b4\d\d\b|invalid|rejected/i] *)
Definition rejected_mail (message : string) : bool :=
  at_some_place (fun before l =>
    match l with
    | a :: b :: c :: rest => Ascii.eqb a "4" && is_digit b && is_digit c && word_edge before && word_edge (head rest)
    | _ => false
    end) None (chars message)
  || at_some_place (fun _ l => is_prefix (chars "invalid") l || is_prefix (chars "rejected") l) None (chars (to_lower message)).

(** The mails of a notification, sent at once: how many were accepted. *)
Fixpoint send_all (emails : list string) (title body : string) : wf_prog Z :=
  match emails with
  | [] => Ret 0
  | to :: rest =>
      let! sent := settled (ask (SendEmail to title body)) in
      let! n := send_all rest title body in
      Ret (if is_ok sent then n + 1 else n)
  end.

(** The addresses there are. *)
Definition addresses_of (recipients : list Recipient) : list string :=
  omap (fun r => if truthy (rc_email r) then rc_email r else None) recipients.

Definition notify_address (execution : WorkflowExecutionRow) (email title body : string) : wf_prog ActionExecutionResult :=
  if negb (wd_emailConfigured dp) then Ret (permanentFail "EMAIL_NOT_CONFIGURED")
  else
    let! member := ask (IsMemberEmail (wt_organization (execution_tenant execution)) email) in
    if negb member then Ret (permanentFail "EMAIL_NOT_ORG_MEMBER")
    else
      let! sent := settled (ask (SendEmail email title body)) in
      Ret match sent with
          | Ok _ => succeeded [("emailedTo", JNumber 1)]
          | Err error =>
              let message := error_message error in
              if rejected_mail message then permanentFail message else transientFail message
          end.

Definition notify_audience (execution : WorkflowExecutionRow) (members : bool) (title body : string) (customTitle : bool)
    : wf_prog ActionExecutionResult :=
  let! recipients := ask (ListAudience (execution_tenant execution) members) in
  match recipients with
  | [] => Ret (permanentFail "NO_RECIPIENTS_RESOLVED")
  | _ =>
      let! inserted := ask (CreateNotifications execution (List.map rc_userId recipients) title body customTitle) in
      let! emailed := (if wd_emailConfigured dp then send_all (addresses_of recipients) title body else Ret 0) in
      Ret (succeeded [("notified", JNumber (Z.of_nat (length recipients))); ("inserted", JNumber inserted);
                      ("emailed", JNumber emailed)])
  end.

Definition runNotify (execution : WorkflowExecutionRow) (action : ActionContext) : wf_prog ActionExecutionResult :=
  let label := humanizeWorkflowKey (wx_trigger_type (we_facts execution)) in
  let title := default ("Automation ran: " ++ label)%string (param action "title") in
  let body :=
    default ("A " ++ label ++ " event triggered an automation on this asset.")%string (param action "message") in
  match param action "email" with
  | Some email => notify_address execution email title body
  | None =>
      notify_audience execution (bool_decide (param action "audience" = Some "members")) title body
        (bool_decide (is_Some (param action "title")))
  end.
End Delivery.

(** ** What may not be fetched

    The reserved addresses and the names of hosts inside the cluster, without the code's
    own tests. *)

(** The reserved networks the comments of [isPrivateIpv4] name, as an address and the
    length of its prefix: this network, the private ones, loopback, link-local, IETF
    protocol assignments, benchmarking, carrier-grade NAT, multicast and above. *)
Definition PRIVATE_NETWORKS : list (list Z * Z) :=
  [([0; 0; 0; 0], 8); ([10; 0; 0; 0], 8); ([127; 0; 0; 0], 8); ([169; 254; 0; 0], 16); ([172; 16; 0; 0], 12);
   ([192; 168; 0; 0], 16); ([192; 0; 0; 0], 24); ([198; 18; 0; 0], 15); ([100; 64; 0; 0], 10); ([224; 0; 0; 0], 3)].

Definition ipv4_number (octets : list Z) : Z := foldl (fun acc o => acc * 256 + o) 0 octets.

Definition in_network (network : list Z) (prefix : Z) (address : list Z) : bool :=
  Z.shiftr (ipv4_number address) (32 - prefix) =? Z.shiftr (ipv4_number network) (32 - prefix).

Definition in_some_network (address : list Z) : bool :=
  existsb (fun '(network, prefix) => in_network network prefix address) PRIVATE_NETWORKS.

Definition dotted (octets : list Z) : list ascii := join ["."%char] (List.map to_digits octets).

Definition octets4 (octets : list Z) : Prop := Forall (fun n => 0 <= n < 256) octets /\ length octets = 4%nat.

(** Unique local, link-local and multicast, by the first group of sixteen bits. *)
Definition internal_group (n : Z) : Prop :=
  n / 2 ^ 9 = 0xfc00 / 2 ^ 9 \/ n / 2 ^ 6 = 0xfe80 / 2 ^ 6 \/ n / 2 ^ 8 = 0xff00 / 2 ^ 8.

(** The texts of the addresses inside: version 4 in dotted decimal, alone or tunnelled
    as [::] or [::ffff:]; version 6 unspecified, loopback, or by its first group. *)
Inductive internal_address : list ascii -> Prop :=
| internal_v4 o : octets4 o -> in_some_network o = true -> internal_address (dotted o)
| internal_compatible o : octets4 o -> in_some_network o = true -> internal_address (chars "::" ++ dotted o)
| internal_mapped o : octets4 o -> in_some_network o = true -> internal_address (chars "::ffff:" ++ dotted o)
| internal_unspecified : internal_address (chars "::")
| internal_loopback : internal_address (chars "::1")
| internal_v6 a b c d rest n :
    radix_number 16 [a; b; c; d] = Some n -> internal_group n -> internal_address (a :: b :: c :: d :: ":"%char :: rest).

(** A name inside the cluster: one label, or under a suffix that is not of the public
    name space. *)
Definition internal_name (name : list ascii) : Prop :=
  ("."%char ∉ name)
  \/ exists label, name = label ++ chars ".internal" \/ name = label ++ chars ".local" \/ name = label ++ chars ".localhost".

(** In any case of letters, with or without the dot of the root at its end. *)
Definition internal_host (host : list ascii) : Prop :=
  internal_name (List.map lower_char host)
  \/ exists name, List.map lower_char host = name ++ chars "." /\ (":"%char ∉ name) /\ internal_name name.

(** * Lemmas *)

(** ** Which addresses are private *)

Lemma octet_digits n : 0 <= n < 256 -> octet (to_digits n) = Some n.
Proof.
  intros H. pose proof (forall_below (fun n => match octet (to_digits n) with Some m => m =? n | None => false end) 256
    n ltac:(vm_compute; reflexivity) ltac:(lia)) as E. cbv beta in E.
  destruct (octet (to_digits n)) as [m|]; [|done]. f_equal. lia.
Qed.

Lemma decimal_digits_nonempty n : 0 <= n -> to_digits n <> [].
Proof.
  intros H. destruct (decide (n = 0)) as [->|Hn]; [by rewrite to_digits_zero|].
  by destruct (to_digits_head n ltac:(lia)) as (c & l & -> & _).
Qed.

Lemma dotted_groups l : Forall (fun n => 0 <= n < 256) l -> l <> [] -> split_on "." (dotted l) = List.map to_digits l.
Proof.
  intros H Hl. apply split_on_join_parts; [by destruct l|]. apply Forall_fmap. eapply Forall_impl; [exact H|].
  intros n Hn. cbv beta in Hn |- *. intros c Hc ->.
  exact (digits_no_dot (to_digits n) (to_digits_all n (proj1 Hn)) _ Hc eq_refl).
Qed.

Lemma dotted_no_colon l : Forall (fun n => 0 <= n < 256) l -> ":"%char ∉ dotted l.
Proof.
  intros H. unfold dotted. intros Hin. apply list_elem_of_In in Hin. revert Hin.
  induction H as [|n l Hn H IH]; [done|]. cbn [List.map join].
  assert (~ In ":"%char (to_digits n)) as Hd.
  { intros Hc. pose proof (proj1 (all_digits_In _) (to_digits_all n (proj1 Hn)) _ Hc). done. }
  destruct l as [|n' l]; [done|]. cbn [List.map] in *. rewrite !in_app_iff. intros [Hc|[[Hc|[]]|Hc]]; by auto.
Qed.

(** *** The tests of the code find what is inside *)

Ltac each_char c := destruct c as [[] [] [] [] [] [] [] []].

Lemma lower_char_idem c : lower_char (lower_char c) = lower_char c.
Proof. each_char c; reflexivity. Qed.

Lemma lower_idem l : List.map lower_char (List.map lower_char l) = List.map lower_char l.
Proof. rewrite map_map. apply map_ext, lower_char_idem. Qed.

Lemma lower_colon l : ":"%char ∈ List.map lower_char l <-> ":"%char ∈ l.
Proof.
  rewrite !list_elem_of_In, in_map_iff. split.
  - intros (c & E & Hc). assert (c = ":"%char) as <-; [|done]. revert E. each_char c; by vm_compute.
  - intros H. by exists ":"%char.
Qed.

Lemma is_prefix_app p l : is_prefix p (p ++ l) = true.
Proof. induction p as [|c p IH]; [done|]. cbn. by rewrite Ascii.eqb_refl. Qed.

Lemma is_prefix_incl p l c : is_prefix p l = true -> c ∈ p -> c ∈ l.
Proof.
  revert l. induction p as [|x p IH]; intros [|y l]; try done; [by intros _ ?%elem_of_nil|]. cbn.
  rewrite andb_true_iff, Ascii.eqb_eq. intros [-> H] Hc. apply elem_of_cons in Hc as [->|Hc]; [by left|].
  right. by eapply IH.
Qed.

Lemma drop_first_absent c l : c ∉ l -> drop_first c l = l.
Proof. destruct l as [|x l]; [done|]. intros H. cbn. destruct (Ascii.eqb_spec x c) as [->|]; [|done]. destruct H. by left. Qed.

Lemma drop_last_absent c l : c ∉ l -> drop_last c l = l.
Proof.
  intros H. unfold drop_last. rewrite drop_first_absent, rev_involutive; [done|].
  by rewrite list_elem_of_In, <- in_rev, <- list_elem_of_In.
Qed.

Lemma drop_last_other c l x : x <> c -> drop_last c (l ++ [x]) = l ++ [x].
Proof.
  intros H. unfold drop_last. rewrite rev_unit. cbn. destruct (Ascii.eqb_spec x c) as [|_]; [done|].
  cbn. by rewrite rev_involutive.
Qed.

Lemma drop_last_same c l : drop_last c (l ++ [c]) = l.
Proof. unfold drop_last. rewrite rev_unit. cbn. by rewrite Ascii.eqb_refl, rev_involutive. Qed.

Lemma drop_last_after c p x l : x <> c -> exists l', drop_last c (p ++ x :: l) = p ++ x :: l'.
Proof.
  intros H. destruct (rev_ind (fun l => l = [] \/ exists l0 y, l = l0 ++ [y]) ltac:(by left)
    ltac:(intros y l0 _; right; by exists l0, y) l) as [->|(l0 & y & ->)].
  - exists []. by apply drop_last_other.
  - replace (p ++ x :: l0 ++ [y]) with ((p ++ x :: l0) ++ [y]) by (by rewrite <- app_assoc).
    destruct (decide (y = c)) as [->|Hy]; [exists l0; by apply drop_last_same|].
    exists (l0 ++ [y]). rewrite drop_last_other by done. by rewrite <- app_assoc.
Qed.

(** The characters of a dotted address are digits and dots. *)
Lemma dotted_chars o c : Forall (fun n => 0 <= n < 256) o -> c ∈ dotted o -> is_digit c = true \/ c = "."%char.
Proof.
  intros H. unfold dotted. rewrite list_elem_of_In. induction H as [|n l Hn H IH]; [done|]. cbn [List.map join].
  assert (In c (to_digits n) -> is_digit c = true) as Hd
    by (intros Hc; exact (proj1 (all_digits_In _) (to_digits_all n (proj1 Hn)) _ Hc)).
  destruct l as [|n' l]; [by auto|]. cbn [List.map] in *. rewrite !in_app_iff. intros [Hc|[[Hc|[]]|Hc]]; by auto.
Qed.

Lemma dotted_absent o c : Forall (fun n => 0 <= n < 256) o -> is_digit c = false -> c <> "."%char -> c ∉ dotted o.
Proof. intros H Hd Hc Hin. destruct (dotted_chars o c H Hin); congruence. Qed.

Lemma lower_dotted o : Forall (fun n => 0 <= n < 256) o -> List.map lower_char (dotted o) = dotted o.
Proof.
  intros H. rewrite <- (map_id (dotted o)) at 2. apply map_ext_in. intros c Hc. apply list_elem_of_In in Hc.
  destruct (dotted_chars o c H Hc) as [Hd| ->]; [|done]. revert Hd. each_char c; by vm_compute.
Qed.

(** A tunnelled address is read as the one of version 4 it has inside. *)
Lemma tunnelled_address p o :
  octets4 o -> p = chars "::" \/ p = chars "::ffff:" -> isPrivateAddress (p ++ dotted o) = isPrivateIpv4 (dotted o).
Proof.
  intros [H Hl] Hp. unfold isPrivateAddress. rewrite bool_decide_true by (destruct Hp as [-> | ->]; by left).
  assert (unbracketed (List.map lower_char (p ++ dotted o)) = p ++ dotted o) as E.
  { rewrite map_app, lower_dotted by done. replace (List.map lower_char p) with p by (by destruct Hp as [-> | ->]).
    unfold unbracketed. rewrite drop_first_absent.
    - apply drop_last_absent. rewrite elem_of_app. intros [Hc|Hc]; [|by apply dotted_absent in Hc].
      revert Hc. rewrite list_elem_of_In. by destruct Hp as [-> | ->]; cbn; intuition discriminate.
    - rewrite elem_of_app. intros [Hc|Hc]; [|by apply dotted_absent in Hc].
      revert Hc. rewrite list_elem_of_In. by destruct Hp as [-> | ->]; cbn; intuition discriminate. }
  unfold isPrivateIpv6. rewrite E. assert (mapped_ipv4 (p ++ dotted o) = Some (dotted o)) as ->; [|done].
  assert (is_prefix (chars "ffff:") (dotted o) = false) as Hn.
  { destruct (is_prefix (chars "ffff:") (dotted o)) eqn:Ep; [|done].
    by destruct (dotted_absent o "f"%char H eq_refl ltac:(done) (is_prefix_incl _ _ "f"%char Ep ltac:(by left))). }
  assert (forall v, v = dotted o -> match split_on "." v with
     | [a; b; c; d] => if forallb (fun q => all_digits q && negb (bool_decide (q = []))) [a; b; c; d] then Some v else None
     | _ => None end = Some (dotted o)) as Hs.
  { intros v ->. destruct o as [|a [|b [|c [|d [|]]]]]; try discriminate Hl. rewrite dotted_groups by done. cbn [List.map].
    rewrite (proj2 (forallb_forall _ _)); [done|]. intros q Hq. rewrite Forall_forall in H.
    assert (exists n, 0 <= n < 256 /\ q = to_digits n) as (n & Hr & ->).
    { assert (In q (List.map to_digits [a; b; c; d])) as Hq' by exact Hq. apply in_map_iff in Hq' as (n & <- & Hin).
      exists n. split; [apply H; by apply list_elem_of_In|done]. }
    rewrite (to_digits_all n) by lia. by rewrite bool_decide_eq_false_2 by by (apply decimal_digits_nonempty; lia). }
  destruct Hp as [-> | ->]; unfold mapped_ipv4.
  - change (is_prefix (chars "::") (chars "::" ++ dotted o)) with true. cbv iota zeta.
    change (skipn 2 (chars "::" ++ dotted o)) with (dotted o). rewrite Hn. by apply Hs.
  - change (is_prefix (chars "::") (chars "::ffff:" ++ dotted o)) with true. cbv iota zeta.
    change (skipn 2 (chars "::ffff:" ++ dotted o)) with (chars "ffff:" ++ dotted o). rewrite is_prefix_app.
    change (skipn 5 (chars "ffff:" ++ dotted o)) with (dotted o). by apply Hs.
Qed.

Lemma hex_digit_lower c v : radix_digit 16 c = Some v ->
  0 <= v < 16 /\ lower_char c = nth (Z.to_nat v) (chars "0123456789abcdef") "0"%char
  /\ lower_char c <> "["%char /\ lower_char c <> ":"%char.
Proof. each_char c; vm_compute; intros E; try discriminate E; injection E as <-; by split_and!. Qed.

Lemma v6_group_private a b c d rest n :
  radix_number 16 [a; b; c; d] = Some n -> internal_group n -> isPrivateIpv6 (a :: b :: c :: d :: ":"%char :: rest) = true.
Proof.
  unfold radix_number. cbn [foldl]. destruct (radix_digit 16 a) as [va|] eqn:Ea; [|done].
  destruct (radix_digit 16 b) as [vb|] eqn:Eb; [|done]. destruct (radix_digit 16 c) as [vc|] eqn:Ec; [|done].
  destruct (radix_digit 16 d) as [vd|] eqn:Ed; [|done]. cbn. intros [= <-] Hg.
  apply hex_digit_lower in Ea as (Ha & La & Na & Na'), Eb as (Hb & Lb & _), Ec as (Hc & Lc & _), Ed as (Hd & Ld & _).
  unfold isPrivateIpv6, unbracketed. cbn [List.map drop_first]. change (lower_char ":") with ":"%char.
  rewrite (proj2 (Ascii.eqb_neq _ _) Na).
  destruct (drop_last_after "]" [lower_char a; lower_char b; lower_char c; lower_char d] ":" (List.map lower_char rest) ltac:(done))
    as (l & El). cbn [app] in El. rewrite El. unfold mapped_ipv4. cbn [chars String.list_ascii_of_string is_prefix].
  rewrite (proj2 (Ascii.eqb_neq ":" (lower_char a)) (not_eq_sym Na')). cbn [andb].
  apply orb_true_iff. right. rewrite La, Lb, Lc.
  assert ((va = 15 /\ (vb = 12 \/ vb = 13)) \/ (va = 15 /\ vb = 14 /\ 8 <= vc < 12) \/ (va = 15 /\ vb = 15)) as Hcase.
  { unfold internal_group in Hg. cbn in Hg. Z.to_euclidean_division_equations; lia. }
  destruct Hcase as [(-> & [-> | ->])|[(-> & -> & Hc')|(-> & ->)]]; try reflexivity.
  assert (vc = 8 \/ vc = 9 \/ vc = 10 \/ vc = 11) as [-> |[-> |[-> | ->]]] by lia; reflexivity.
Qed.

Lemma high_bits a b c d k :
  0 <= a < 256 -> 0 <= b < 256 -> 0 <= c < 256 -> 0 <= d < 256 -> 0 <= k <= 16 ->
  Z.shiftr (ipv4_number [a; b; c; d]) (16 + k) = (a * 256 + b) / 2 ^ k.
Proof.
  intros Ha Hb Hc Hd Hk. rewrite Z.shiftr_div_pow2 by lia. rewrite Z.pow_add_r by lia.
  rewrite <- Z.div_div by (try apply Z.pow_nonzero; lia || (apply Z.pow_pos_nonneg; lia)). f_equal.
  cbn. symmetry. apply (Z.div_unique _ _ _ (c * 256 + d)); lia.
Qed.

(** Two numbers of two octets have the same high bits when the first octets are equal and the
    second ones agree in theirs. *)
Lemma same_high_bits a b p q k :
  0 <= b < 256 -> 0 <= q < 256 -> 0 <= k <= 8 ->
  ((a * 256 + b) / 2 ^ k =? (p * 256 + q) / 2 ^ k) = (a =? p) && (b / 2 ^ k =? q / 2 ^ k).
Proof.
  intros Hb Hq Hk. pose proof (Z.pow_pos_nonneg 2 k ltac:(lia) ltac:(lia)) as Hp.
  assert (256 = 2 ^ (8 - k) * 2 ^ k) as Ew by (rewrite <- Z.pow_add_r by lia; by replace (8 - k + k) with 8 by lia).
  assert (forall x y, (x * 256 + y) / 2 ^ k = x * 2 ^ (8 - k) + y / 2 ^ k) as Ed.
  { intros x y. rewrite Ew, Z.mul_assoc, Z.add_comm, Z.div_add by lia. lia. }
  assert (forall y, 0 <= y < 256 -> 0 <= y / 2 ^ k < 2 ^ (8 - k)) as Hy.
  { intros y ?. split; [apply Z.div_pos|apply Z.div_lt_upper_bound]; lia. }
  rewrite !Ed. pose proof (Hy b Hb). pose proof (Hy q Hq).
  apply eq_true_iff_eq. rewrite andb_true_iff, !Z.eqb_eq. split; [|by intros [-> ->]].
  intros E. assert (a = p) as -> by nia. split; [done|lia].
Qed.

Ltac by_cases_on_tests :=
  apply eq_true_iff_eq; rewrite ?orb_true_iff, ?andb_true_iff, ?Z.eqb_eq, ?Z.leb_le; Z.to_euclidean_division_equations; lia.

(** The network of twenty-four bits is inside the one of sixteen. *)
Lemma protocol_assignments a b c d :
  0 <= a < 256 -> 0 <= b < 256 -> 0 <= c < 256 -> 0 <= d < 256 ->
  (Z.shiftr (ipv4_number [a; b; c; d]) (32 - 24) =? Z.shiftr (ipv4_number [192; 0; 0; 0]) (32 - 24))
  = (a =? 192) && (b =? 0) && (c =? 0).
Proof.
  intros Ha Hb Hc Hd. change (32 - 24) with 8. rewrite !Z.shiftr_div_pow2 by lia. change (2 ^ 8) with 256.
  change (ipv4_number [192; 0; 0; 0] / 256) with (192 * 256 * 256). cbn.
  rewrite (Z.div_add_l (((0 * 256 + a) * 256 + b) * 256 + c) 256 d), (Z.div_small d) by lia.
  apply eq_true_iff_eq. rewrite !andb_true_iff, !Z.eqb_eq. lia.
Qed.

(** The test by octets is the membership in the reserved networks, and in the network of
    sixteen bits around the IETF protocol assignments. *)
Lemma private_v4 a b c d :
  0 <= a < 256 -> 0 <= b < 256 -> 0 <= c < 256 -> 0 <= d < 256 ->
  isPrivateIpv4 (dotted [a; b; c; d]) = in_some_network [a; b; c; d] || in_network [192; 0; 0; 0] 16 [a; b; c; d].
Proof.
  intros Ha Hb Hc Hd. assert (Forall (fun n => 0 <= n < 256) [a; b; c; d]) as Hl by by repeat (apply Forall_cons; split).
  unfold isPrivateIpv4. rewrite dotted_groups by done. cbn [List.map]. rewrite !octet_digits by done.
  unfold in_some_network, in_network, PRIVATE_NETWORKS, existsb.
  change (32 - 8) with (16 + 8). change (32 - 16) with (16 + 0). change (32 - 12) with (16 + 4).
  change (32 - 15) with (16 + 1). change (32 - 10) with (16 + 6). change (32 - 3) with (16 + 13).
  rewrite !high_bits by lia.
  rewrite !(same_high_bits a b) by lia.
  assert ((a * 256 + b) / 2 ^ 13 = a / 32) as ->.
  { change (2 ^ 13) with (256 * 32). rewrite <- Z.div_div, Z.div_add_l, (Z.div_small b) by lia. f_equal. lia. }
  clear Hl. change (2 ^ 8) with 256. change (2 ^ 0) with 1. change (2 ^ 4) with 16. change (2 ^ 1) with 2.
  change (2 ^ 6) with 64. rewrite !Z.div_1_r, (Z.div_small b 256) by lia. change (0 / 256) with 0.
  change (16 / 16) with 1. change (18 / 2) with 9. change (64 / 64) with 1. change ((224 * 256 + 0) / 2 ^ 13) with 7.
  rewrite (protocol_assignments a b c d) by lia.
  assert ((b / 16 =? 1) = (16 <=? b) && (b <=? 31)) as -> by by_cases_on_tests.
  assert ((b / 2 =? 9) = (b =? 18) || (b =? 19)) as -> by by_cases_on_tests.
  assert ((b / 64 =? 1) = (64 <=? b) && (b <=? 127)) as -> by by_cases_on_tests.
  assert ((a / 32 =? 7) = (224 <=? a)) as -> by by_cases_on_tests.
  unfold private_octets. rewrite Z.eqb_refl, orb_false_r, !andb_true_r.
  assert ((a * 256 + b =? 192 * 256 + 0) = (a =? 192) && (b =? 0)) as -> by by_cases_on_tests.
  clear. destruct (a =? 192), (b =? 0), (c =? 0); rewrite ?andb_true_r, ?andb_false_r, ?orb_true_r, ?orb_false_r; lia.
Qed.

(** C38. For every IPv4 address in dotted decimal form, the check by octets says private
    exactly when the address, as a number, lies in one of the reserved networks or in
    192.0.0.0/16, which is the whole of what it refuses beyond them. *)
Theorem private_addresses_are_networks a b c d :
  0 <= a < 256 -> 0 <= b < 256 -> 0 <= c < 256 -> 0 <= d < 256 ->
  isPrivateAddress (dotted [a; b; c; d]) = in_some_network [a; b; c; d] || in_network [192; 0; 0; 0] 16 [a; b; c; d].
Proof.
  intros Ha Hb Hc Hd. unfold isPrivateAddress. rewrite bool_decide_false; [by apply private_v4|].
  apply dotted_no_colon. by repeat (apply Forall_cons; split).
Qed.

Lemma private_addresses_are_networks_witness :
  isPrivateAddress (chars "169.254.169.254") = true /\ isPrivateAddress (chars "93.184.216.34") = false
  /\ isPrivateAddress (chars "192.0.78.24") = true /\ in_some_network [192; 0; 78; 24] = false.
Proof.
  split; [apply (private_addresses_are_networks 169 254 169 254); lia|].
  split; [apply (private_addresses_are_networks 93 184 216 34); lia|].
  split; [apply (private_addresses_are_networks 192 0 78 24); lia|reflexivity].
Defined.

(** Every address inside is told from the public ones. *)
Lemma internal_address_private address : internal_address address -> isPrivateAddress address = true.
Proof.
  assert (forall o, octets4 o -> in_some_network o = true -> isPrivateIpv4 (dotted o) = true) as H4.
  { intros [|a [|b [|c [|d [|]]]]] [H Hl]; try discriminate Hl.
    apply Forall_cons in H as [Ha H], H as [Hb H], H as [Hc H], H as [Hd _].
    intros Ho. rewrite private_v4 by done. by rewrite Ho. }
  destruct 1 as [o Ho Hn|o Ho Hn|o Ho Hn| | |a b c d rest n Hg Hn].
  - unfold isPrivateAddress. rewrite bool_decide_false by (apply dotted_no_colon, Ho). by apply H4.
  - rewrite tunnelled_address; auto.
  - rewrite tunnelled_address; auto.
  - reflexivity.
  - reflexivity.
  - unfold isPrivateAddress. rewrite bool_decide_true by (do 4 right; by left). by eapply v6_group_private.
Qed.

Lemma split_no_dot l : "."%char ∉ l -> isPrivateIpv4 l = false.
Proof.
  intros H. unfold isPrivateIpv4. rewrite split_on_none; [cbn; by destruct (octet l)|].
  intros c Hc ->. apply H. by apply list_elem_of_In.
Qed.

Lemma internal_name_blocked host :
  internal_name host -> ("."%char ∉ host -> isPrivateAddress host = false) ->
  bool_decide (text host ∈ BLOCKED_HOSTS) || existsb (fun s => ends_with s host) BLOCKED_HOST_SUFFIXES
    || (negb (bool_decide ("."%char ∈ host)) && negb (isPrivateAddress host)) = true.
Proof.
  intros [Hd|(label & Hs)] Hp.
  - rewrite (Hp Hd), (bool_decide_eq_false_2 _ Hd). by rewrite orb_true_r.
  - apply orb_true_iff. left. apply orb_true_iff. right. apply existsb_exists. unfold ends_with, BLOCKED_HOST_SUFFIXES.
    destruct Hs as [-> |[-> | ->]];
      [exists ".internal"|exists ".local"|exists ".localhost"]; (split; [cbn; tauto|]); rewrite rev_app_distr; apply is_prefix_app.
Qed.

Lemma no_trailing_dot name : internal_name name -> drop_last "." name = name.
Proof.
  intros [Hd|(label & Hs)]; [by apply drop_last_absent|].
  assert (exists l x, name = l ++ [x] /\ x <> "."%char) as (l & x & -> & Hx); [|by apply drop_last_other].
  destruct Hs as [-> |[-> | ->]];
    [exists (label ++ chars ".interna"), "l"%char|exists (label ++ chars ".loca"), "l"%char|exists (label ++ chars ".localhos"), "t"%char];
    (split; [by rewrite <- app_assoc|done]).
Qed.

(** A host inside is blocked, however its name is written. *)
Lemma internal_host_blocked host :
  internal_host host -> isPrivateAddress host = false -> isBlockedHostname host = true.
Proof.
  unfold isBlockedHostname. cbv zeta. intros [Hn|(name & E & Hc & Hn)] Hp.
  - rewrite no_trailing_dot by done. apply internal_name_blocked; [done|]. intros Hd.
    revert Hp. unfold isPrivateAddress, isPrivateIpv6. rewrite lower_idem.
    destruct (decide (":"%char ∈ host)) as [Hc|Hc].
    + by rewrite !bool_decide_true by (done || by apply lower_colon).
    + rewrite !bool_decide_false by (done || by rewrite lower_colon). intros _. by apply split_no_dot.
  - rewrite E, drop_last_same. apply internal_name_blocked; [done|]. intros Hd.
    unfold isPrivateAddress. rewrite bool_decide_false by done. by apply split_no_dot.
Qed.

(** ** Where deliveries go *)

Section DeliveryFacts.
Context {K : WorkflowKit}.
Variable dp : WorkflowDeployment.

(** A URL that may be fetched: https, of a host that is neither an address nor a name
    inside, and whose addresses were just looked up and are none of them inside. *)
Definition public_target (ctx : list wf_event) (url : string) : Prop :=
  exists raw u addresses,
    parse_url raw = Some u /\ url = url_href u /\ url_protocol u = "https:"
    /\ ~ internal_address (host_of u) /\ ~ internal_host (host_of u)
    /\ wf_ev (LookupHost (text (host_of u))) (Ok addresses) ∈ ctx /\ addresses <> []
    /\ forall a, a ∈ addresses -> ~ internal_address (chars a).

(** Signed with the stored key of the rule, when it has one. *)
Definition signed_by_key (orgId : string) (stored : option StoredCredentialSecret) (ctx : list wf_event)
    (headers : list (string * string)) (body : string) : Prop :=
  forall s, stored = Some s ->
    exists key, key <> "" /\ wf_ev (ReadSecret orgId s) (Ok (Some (JString key))) ∈ ctx
      /\ ("x-sdp-signature-256", ("sha256=" ++ hmac_sha256_hex key body)%string) ∈ headers.

Definition safe_fetch (orgId : string) (stored : option StoredCredentialSecret) (ctx : list wf_event) (e : wf_event) : Prop :=
  match ev_call e with
  | Fetch url headers body => public_target ctx url /\ signed_by_key orgId stored ctx headers body
  | _ => True
  end.

Section Fetches.
Variables (orgId : string) (stored : option StoredCredentialSecret).

Abbreviation allows := (triple (safe_fetch orgId stored)).

Lemma syntax_ok raw u :
  checkWebhookUrlSyntax raw = inr u ->
  parse_url raw = Some u /\ url_protocol u = "https:"
  /\ isPrivateAddress (host_of u) = false /\ ~ internal_host (host_of u).
Proof.
  unfold checkWebhookUrlSyntax. destruct (parse_url raw) as [u'|]; [|done].
  destruct (String.eqb_spec (url_protocol u') "https:") as [Ep|]; [|done]. cbn [negb].
  destruct (isPrivateAddress (host_of u') || isBlockedHostname (host_of u')) eqn:Eh; [done|]. intros [= <-].
  apply orb_false_iff in Eh as [Ei Eb]. split_and!; try done.
  intros Hi. by rewrite internal_host_blocked in Eb.
Qed.

Lemma resolve_allows h raw :
  allows h (resolveWebhookUrl raw) (fun h' r => h `prefix_of` h' /\ forall u, r = Ok (inr u) -> public_target h' (url_href u)).
Proof.
  unfold resolveWebhookUrl. destruct (checkWebhookUrlSyntax raw) as [reason|u] eqn:Es; [by apply triple_ret|].
  apply syntax_ok in Es as (Ep & Es & Eh & Eb). rewrite Eh. intros a. split; [done|].
  destruct a as [addresses|e]; cbn [catch bind call].
  - destruct addresses as [|a l]; [apply triple_ret; split; [by apply prefix_app_r|done]|].
    apply triple_ret. split; [by apply prefix_app_r|]. intros u' E. injection E as E.
    destruct (existsb (fun a0 => isPrivateAddress (chars a0)) (a :: l)) eqn:Ex; [cbn in Ex, E; by rewrite Ex in E|].
    cbn in Ex, E. rewrite Ex in E. injection E as <-. exists raw, u, (a :: l). split_and!; try done.
    + intros Hi. by rewrite internal_address_private in Eh.
    + apply elem_of_app. right. by left.
    + intros b Hb Hi. apply internal_address_private in Hi as E'.
      assert (existsb (fun a0 => isPrivateAddress (chars a0)) (a :: l) = true) as Et; [|cbn in Et; congruence].
      apply existsb_exists. exists b. split; [by apply list_elem_of_In|done].
  - apply triple_ret. split; [by apply prefix_app_r|done].
Qed.

Lemma deliver_allows hops h current headers body :
  (forall h', h `prefix_of` h' -> signed_by_key orgId stored h' headers body) ->
  allows h (deliver hops current headers body) (fun _ _ => True).
Proof.
  revert h current. induction hops as [|hops IH]; intros h current Hs; cbn [deliver];
    (eapply triple_bind; [apply resolve_allows| |done]; intros h1 [reason|u] [Hp Hu]; [done|];
     specialize (Hu u eq_refl); apply triple_bind_call; [intros r; split; [done|by apply Hs]| |done]; intros response;
     destruct (_ || _); [done|]; destruct (negb _); [done|]; destruct (resolve_url _ _); [|done]); [done|].
  apply IH. intros h' Hp'. apply Hs. etrans; [exact Hp|]. etrans; [by apply prefix_app_r|exact Hp'].
Qed.

Lemma signed_later ctx h headers body : signed_by_key orgId stored ctx headers body -> ctx `prefix_of` h ->
  signed_by_key orgId stored h headers body.
Proof.
  intros H [k ->] s Es. destruct (H s Es) as (key & Hk & Hr & Hh). exists key. split_and!; try done.
  apply elem_of_app. by left.
Qed.

Lemma read_allows h :
  allows h (readActionSecret dp orgId stored)
    (fun h' r => h `prefix_of` h' /\ forall key, r = Ok (Some key) ->
       match stored with
       | None => key = None
       | Some s => exists k, key = Some k /\ k <> "" /\ wf_ev (ReadSecret orgId s) (Ok (Some (JString k))) ∈ h'
       end).
Proof.
  unfold readActionSecret. destruct stored as [s|]; [|apply triple_ret; split; [done|by intros key [= <-]]].
  destruct (wd_store dp None); [by apply triple_ret|]. intros a. split; [done|].
  assert (forall P : Prop, P -> h `prefix_of` h ++ [wf_ev (ReadSecret orgId s) a] /\ P) as Hp
    by (intros P HP; split; [by apply prefix_app_r|done]).
  destruct a as [[v|]|e]; cbn [catch bind call]; apply triple_ret; apply Hp; try done.
  intros key E. injection E as E. destruct v as [| | |v| |]; try done. destruct (String.eqb_spec v "") as [|Hv]; [done|].
  injection E as <-. exists v. split_and!; try done. apply elem_of_app. right. by left.
Qed.
End Fetches.

End DeliveryFacts.

(** A literal of version 6 has no dot, so the rule for names of one label refuses it, a
    public one too. *)
Example public_ipv6_literal_refused :
  isPrivateAddress (chars "2606:4700:4700::1111") = false /\ isBlockedHostname (chars "2606:4700:4700::1111") = true.
Proof. vm_compute. split; reflexivity. Qed.
