(* ===== verification/WorkflowEngine.v ===== *)
(** * Workflows: the engine

    [services/workflows/event-bus.ts], which turns an event into executions;
    [actions/index.ts], [services/workflows/asset-gate.ts] and
    [services/jobs/run-workflow-executions.ts], the run of every minute that claims what
    is due and runs it, with five workers that share the variables of the run. The clock
    is read once, at the start. *)
From Stdlib Require Import Ascii String ZArith Lia.
From stdpp Require Import base list strings.
From S2P Require Import Prelude Text Dates Workers PolicyTypes PolicyService TokenAmount WorkflowTypes WorkflowTables WorkflowCalls WorkflowAllowlist WorkflowSecret WorkflowOnchain WorkflowDelivery.

Local Open Scope string_scope.
Local Open Scope Z_scope.
Local Open Scope list_scope.
Local Open Scope sdp_scope.

(** ** Events *)

Record WorkflowEvent := mkWorkflowEvent {
  ev_type : string;
  ev_tenant : WfTenant;
  ev_eventKey : string;
  ev_tokenId : option string;
  ev_payload : json_record;
}.

Definition DEFAULT_MAX_ATTEMPTS : Z := 5.

(** What a matching rule enqueues. *)
Definition execution_input (event : WorkflowEvent) (rule : AssetWorkflowRow) : CreateWorkflowExecutionInput :=
  mkCreateExecution (ev_tenant event) (wr_id rule) (wr_token_id rule) (wr_trigger_type rule) (wr_action_type rule)
    (negb (bool_decide (wr_review_mode rule = review_manual) || requires_approval (wr_action_type rule)))
    (ev_eventKey event) (ev_payload event)
    (match def_retryPolicy (wr_definition rule) with Some p => maxAttempts p | None => DEFAULT_MAX_ATTEMPTS end).

Fixpoint dispatch_rules (event : WorkflowEvent) (rules : list AssetWorkflowRow) (enqueued : Z) : wf_prog Z :=
  match rules with
  | [] => Ret enqueued
  | rule :: rest =>
      if evaluateCondition (def_condition (wr_definition rule)) (ev_payload event) then
        let! created := ask (CreateExecution (execution_input event rule)) in
        dispatch_rules event rest (match created with Some _ => enqueued + 1 | None => enqueued end)
      else dispatch_rules event rest enqueued
  end.

Definition dispatchWorkflowEvent (event : WorkflowEvent) : wf_prog Z :=
  let! rules := ask (ListEnabledRules (ev_tenant event) (ev_type event) (ev_tokenId event)) in
  dispatch_rules event rules 0.

(** ** The gate of an asset *)

Definition resolveAssetGateContext (tenant : WfTenant) (tokenId : string) : wf_prog (option AssetGateContext) :=
  let! _ := of_result (createTenantScope (wt_organization tenant) (Some (wt_project tenant))) in
  let! token := ask (GetToken tokenId tenant) in
  match token with
  | None => Ret None
  | Some token =>
      let! profile := ask (ActiveAssetProfile tokenId tenant) in
      Ret (Some (mkGate
        (match profile with Some p => ap_category p | None => "generic" end)
        (match profile with Some p => ap_type p | None => "generic" end)
        (match profile with Some p => ap_selected p | None => [] end)
        (truthy (tk_ablListAddress token))
        (tk_isMintable token && truthy (tk_mintAuthority token))))
  end.

(** ** The run *)

Definition BATCH_SIZE : Z := 25.
Definition STALE_AFTER_MS : Z := 3 * 60 * 1000.
Definition DEFAULT_RETRY_AFTER_MINUTES : Z := 5.
Definition MAX_RETRY_DELAY_MINUTES : Z := 6 * 60.
Definition CONCURRENCY : nat := 5.

Definition APPROVAL_GATED_ACTIONS : list string := List.filter requires_approval WORKFLOW_ACTION_TYPES.

Record Guarded := mkGuarded {
  gd_params : json_record;
  gd_actionSecret : option StoredCredentialSecret;
  gd_retryAfterMinutes : Z;
}.

Definition tenantCacheKey (execution : WorkflowExecutionRow) (id : string) : string :=
  (wt_organization (execution_tenant execution) ++ ":" ++ wt_project (execution_tenant execution) ++ ":" ++ id)%string.

Definition mem (c : mem_call) : wf_prog (mem_answer c) := ask (Mem c).

Definition loadRule (execution : WorkflowExecutionRow) : wf_prog (option AssetWorkflowRow) :=
  let id := wx_workflow_id (we_facts execution) in
  let key := tenantCacheKey execution id in
  let! cached := mem (CachedRule key) in
  match cached with
  | Some rule => Ret rule
  | None =>
      let! rule := ask (GetRule id (execution_tenant execution) false) in
      mem (CacheRule key rule) ;;;
      Ret rule
  end.

Definition loadGate (execution : WorkflowExecutionRow) : wf_prog (option AssetGateContext) :=
  let id := wx_token_id (we_facts execution) in
  let key := tenantCacheKey execution id in
  let! cached := mem (CachedGate key) in
  match cached with
  | Some gate => Ret gate
  | None =>
      let! gate := resolveAssetGateContext (execution_tenant execution) id in
      mem (CacheGate key gate) ;;;
      Ret gate
  end.

(** The rule's parameters, or why the execution may not run. *)
Definition guardExecution (execution : WorkflowExecutionRow) : wf_prog (string + Guarded) :=
  let! rule := loadRule execution in
  match rule with
  | None => Ret (inl "RULE_NOT_FOUND")
  | Some rule =>
      if negb (wr_enabled rule) then Ret (inl "RULE_DISABLED")
      else
        let! gate := loadGate execution in
        match gate with
        | None => Ret (inl "ASSET_CONTEXT_UNAVAILABLE")
        | Some gate =>
            match validateActionSupported (execution_action execution) gate with
            | Some reason => Ret (inl ("CAPABILITY_REVOKED:" ++ reason_text reason)%string)
            | None =>
                let d := wr_definition rule in
                Ret (inr (mkGuarded (def_params d) (def_actionSecret d)
                  (match def_retryPolicy d with Some p => retryAfterMinutes p | None => DEFAULT_RETRY_AFTER_MINUTES end)))
            end
        end
  end.

(** The delay of an attempt in milliseconds, [random] being [random / 2 ^ 53]: its
    arithmetic is exact here, and rounded to a double at each step there. *)
Definition retry_delay_ms (baseMinutes attemptCount random : Z) : Z :=
  let minutes := Z.min (baseMinutes * 2 ^ Z.max (attemptCount - 1) 0) MAX_RETRY_DELAY_MINUTES in
  minutes * 60000 * (8 * 2 ^ 53 + 4 * random) / (10 * 2 ^ 53).

Definition nextAttemptIso (nowMs baseMinutes attemptCount : Z) : wf_prog string :=
  let! random := ask Random in
  of_result (toISOString (nowMs + retry_delay_ms baseMinutes attemptCount random)).

(** Never throws. *)
Definition auditTerminal (row : WorkflowExecutionRow) (ok : bool) (extra : json_record) : wf_prog unit :=
  catch (ask (AuditSystem row ok extra)) (fun _ => Ret tt).

Section Engine.
Context {K : WorkflowKit}.
Variable dp : WorkflowDeployment.

Definition dispatchWorkflowAction (execution : WorkflowExecutionRow) (ctx : ActionContext) : wf_prog ActionExecutionResult :=
  let type := execution_action execution in
  if String.eqb type "allowlist_add" then runAllowlistAdd dp execution ctx
  else if String.eqb type "allowlist_remove" then runAllowlistRemove dp execution ctx
  else if String.eqb type "pause" then runPause dp execution
  else if String.eqb type "unpause" then runUnpause dp execution
  else if String.eqb type "freeze" then runFreeze dp execution ctx
  else if String.eqb type "unfreeze" then runUnfreeze dp execution ctx
  else if String.eqb type "mint" then runMint dp execution ctx
  else if String.eqb type "burn" then runBurn dp execution ctx
  else if String.eqb type "force_burn" then runForceBurn dp execution ctx
  else if String.eqb type "seize" then runSeize dp execution ctx
  else if String.eqb type "send_webhook" then runSendWebhook dp execution ctx
  else if String.eqb type "notify" then runNotify dp execution ctx
  else if String.eqb type "record" then Ret (succeeded [("recorded", JBool true)])
  else Ret (permanentFail ("ACTION_NOT_IMPLEMENTED:" ++ type)).

Definition settle_failed (claimed : WorkflowExecutionRow) (error : string) (res : option json_record) : wf_prog unit :=
  ask (FailExecution (execution_id claimed) error res) ;;;
  auditTerminal claimed false [("reason", JString error)] ;;;
  mem (Count out_failed).

Definition settle_retried (nowMs : Z) (claimed : WorkflowExecutionRow) (error : string) (retryAfter : Z) : wf_prog unit :=
  let! next := nextAttemptIso nowMs retryAfter (we_attempt_count claimed) in
  ask (RescheduleExecution (execution_id claimed) error next) ;;;
  mem (Count out_retried).

Definition exhausted (claimed : WorkflowExecutionRow) : bool := wx_max_attempts (we_facts claimed) <=? we_attempt_count claimed.

Definition settle_outcome (nowMs : Z) (claimed : WorkflowExecutionRow) (retryAfter : Z) (outcome : ActionExecutionResult)
    : wf_prog unit :=
  let error := default "action failed" (ar_error outcome) in
  if ar_succeeded outcome then
    ask (CompleteExecution (execution_id claimed) (ar_result outcome)) ;;;
    auditTerminal claimed true [("result", JObject (ar_result outcome))] ;;;
    mem (Count out_succeeded)
  else if requires_approval (execution_action claimed) || negb (ar_retryable outcome) || exhausted claimed then
    settle_failed claimed error (Some (ar_result outcome))
  else settle_retried nowMs claimed error retryAfter.

(** The handler of what the run of a claimed execution throws. *)
Definition settle_thrown (nowMs : Z) (claimed : WorkflowExecutionRow) (retryAfter : Z) (error : jserr) : wf_prog unit :=
  if requires_approval (execution_action claimed) || exhausted claimed then settle_failed claimed (error_message error) None
  else settle_retried nowMs claimed (error_message error) retryAfter.

(** The pacing of the rule is known to the handler from the guard on. *)
Definition run_claimed (nowMs : Z) (claimed : WorkflowExecutionRow) : wf_prog unit :=
  let! guard := settled (guardExecution claimed) in
  match guard with
  | Err error => settle_thrown nowMs claimed DEFAULT_RETRY_AFTER_MINUTES error
  | Ok (inl reason) =>
      catch (settle_failed claimed reason None) (settle_thrown nowMs claimed DEFAULT_RETRY_AFTER_MINUTES)
  | Ok (inr guard) =>
      let retryAfter := gd_retryAfterMinutes guard in
      catch
        (let! outcome := dispatchWorkflowAction claimed (mkActionContext (gd_params guard) (gd_actionSecret guard)) in
         settle_outcome nowMs claimed retryAfter outcome)
        (settle_thrown nowMs claimed retryAfter)
  end.

Definition processDueExecution (nowMs : Z) (row : WorkflowExecutionRow) : wf_prog unit :=
  let! claimed := ask (ClaimExecution (execution_id row)) in
  match claimed with
  | None => Ret tt
  | Some claimed => run_claimed nowMs claimed
  end.

(** One worker: [rows] bounds how many rows it can find in the queue. *)
Fixpoint worker (rows : nat) (nowMs : Z) : wf_prog unit :=
  match rows with
  | O => Ret tt
  | S rows =>
      let! row := mem ShiftQueue in
      match row with
      | None => Ret tt
      | Some row => processDueExecution nowMs row ;;; worker rows nowMs
      end
  end.

Definition run_queue (nowMs : Z) (due : list WorkflowExecutionRow) (result : RunWorkflowExecutionsResult)
    : wf_prog RunWorkflowExecutionsResult :=
  let n := length due in
  let! r := with_memory tick_memory
              (par_all Turn first_goes (repeat (worker (S n) nowMs) (Nat.min CONCURRENCY n)))
              (mkTick due [] [] result) in
  Ret (tick_result r.2).

Fixpoint audit_parked (parked : list WorkflowExecutionRow) (failed : Z) : wf_prog Z :=
  match parked with
  | [] => Ret failed
  | row :: rest =>
      auditTerminal row false [("reason", JString "STALE_RECOVERED_NEEDS_REVIEW")] ;;;
      audit_parked rest (failed + 1)
  end.

Definition runDueWorkflowExecutions : wf_prog RunWorkflowExecutionsResult :=
  let! nowMs := ask NowMs in
  let! nowIso := of_result (toISOString nowMs) in
  let! staleBefore := of_result (toISOString (nowMs - STALE_AFTER_MS)) in
  let! parked := ask (ParkStale staleBefore BATCH_SIZE APPROVAL_GATED_ACTIONS) in
  let! recovered := ask (RequeueStale staleBefore BATCH_SIZE APPROVAL_GATED_ACTIONS) in
  let! failed := audit_parked parked 0 in
  let! due := ask (ListDue nowIso BATCH_SIZE) in
  run_queue nowMs due (mkRunResult recovered 0 failed 0).
End Engine.
