(* ===== verification/WorkflowRoutes.v ===== *)
(** * Workflows: the routes

    [routes/issuance/handlers/workflow-params.ts], what the parameters of an action may
    be; [workflows.ts], which creates, edits and deletes rules with their keys;
    [workflow-executions.ts], the three decisions on an execution. A body is one its
    schema accepts. The tier of a permission is [WorkflowTypes.permissionForWorkflowAction]. *)
From Stdlib Require Import Ascii String ZArith Lia.
From stdpp Require Import base list strings.
From S2P Require Import Prelude Text PolicyTypes TransientRpc WorkflowTypes WorkflowTables WorkflowCalls WorkflowAllowlist WorkflowSecret WorkflowDelivery WorkflowEngine.

Local Open Scope string_scope.
Local Open Scope Z_scope.
Local Open Scope list_scope.
Local Open Scope sdp_scope.

(** ** Parameters *)

Definition matches_any (words : list string) (l : list ascii) : bool := existsb (fun w => is_prefix (chars w) l) words.

(** [/secret|token|password|api[-_]?key/i] *)
Definition isSecretParamKey (key : string) : bool :=
  at_some_place (fun _ l => matches_any ["secret"; "token"; "password"; "apikey"; "api-key"; "api_key"] l)
    None (chars (to_lower key)).

Definition redactActionParams (params : json_record) : json_record * bool :=
  (List.filter (fun p => negb (isSecretParamKey p.1)) params, existsb (fun p => isSecretParamKey p.1) params).

(** [/^\d+(\.\d+)?$/], and [Number(value) > 0]. *)
Definition valid_amount (value : string) : bool :=
  let digits (l : list ascii) := all_digits l && negb (bool_decide (l = [])) in
  match split_on "." (chars value) with
  | [whole] => digits whole && (0 <? of_digits whole)
  | [whole; fraction] =>
      digits whole && digits fraction
      && (10 ^ Z.of_nat (length fraction) <? of_digits (whole ++ fraction) * 2 ^ 1075)
  | _ => false
  end.

(** [asString.pipe(...)] *)
Definition as_string (p : string -> bool) (v : json) : bool :=
  match v with JString s => p s | JNumber n => p (z_text n) | _ => false end.

Definition a_string (p : string -> bool) (v : json) : bool := match v with JString s => p s | _ => false end.

Definition at_most (n : Z) (s : string) : bool := Z.of_nat (String.length s) <=? n.

(** A property of a strict object: its key, whether it must be there, its check. *)
Record ParamSchema := mkParam { ps_key : string; ps_required : bool; ps_check : json -> bool }.

Section Params.
Context {K : WorkflowKit}.

Definition address_ (label : string) (required : bool) : ParamSchema := mkParam label required (a_string is_address).
Definition webhookUrl (raw : string) : bool := match checkWebhookUrlSyntax raw with inr _ => true | inl _ => false end.
Definition amount_ : ParamSchema := mkParam "amount" true (as_string valid_amount).
Definition text_ (key : string) (n : Z) : ParamSchema := mkParam key false (a_string (at_most n)).

Definition ACTION_PARAM_SCHEMAS : list (string * list ParamSchema) :=
  [("allowlist_add", [address_ "wallet" false; text_ "label" 120]);
   ("allowlist_remove", [address_ "wallet" false]);
   ("send_webhook", [mkParam "url" true (as_string webhookUrl);
                     mkParam "secret" false (a_string (fun s => (8 <=? Z.of_nat (String.length s)) && at_most 200 s))]);
   ("notify", [mkParam "audience" false (a_string (fun s => String.eqb s "admins" || String.eqb s "members"));
               mkParam "email" false (a_string (fun s => is_email s && at_most 254 s));
               text_ "title" 200; text_ "message" 2000]);
   ("record", [text_ "note" 1000]);
   ("pause", []);
   ("unpause", []);
   ("freeze", [address_ "wallet" false]);
   ("unfreeze", [address_ "wallet" false]);
   ("mint", [address_ "wallet" false; amount_]);
   ("burn", [amount_]);
   ("force_burn", [address_ "source" false; amount_]);
   ("seize", [address_ "source" false; address_ "destination" true; amount_])].

Definition validateActionParams (actionType : string) (params : json_record) : bool :=
  match own actionType ACTION_PARAM_SCHEMAS with
  | None => false
  | Some schema =>
      forallb (fun p => existsb (fun s => String.eqb (ps_key s) p.1) schema) params
      && forallb (fun s => match own (ps_key s) params with
                           | Some v => ps_check s v
                           | None => negb (ps_required s)
                           end) schema
  end.
End Params.

(** The params to persist, and the last credential among them. *)
Definition splitOutSecret (params : json_record) : json_record * option string :=
  (List.filter (fun p => negb (isSecretParamKey p.1)) params,
   js_string <$> (snd <$> last (List.filter (fun p => isSecretParamKey p.1) params))).

(** ** Callers *)

Record WorkflowAuth := mkWorkflowAuth { wa_id : string; wa_tenant : WfTenant; wa_permissions : list string }.

Definition notFound (resource : string) : jserr := AppError "NOT_FOUND" (resource ++ " not found").

Definition permitted_action (auth : WorkflowAuth) (actionType : string) : result unit :=
  assertWorkflowActionPermitted (wa_permissions auth) actionType.

(** ** Rules *)

Record WorkflowBody := mkWorkflowBody {
  (** [Some None] is [null]. *)
  wb_condition : option (option WorkflowCondition);
  wb_actionParams : option json_record;
  wb_reviewMode : option ReviewMode;
  wb_retryPolicy : option WorkflowRetryPolicy;
  wb_enabled : option bool;
}.

Definition body_condition (b : WorkflowBody) : option WorkflowCondition := default None (wb_condition b).

Definition assertGuardFieldsKnown (triggerType : string) (condition : option WorkflowCondition) : result unit :=
  let allowed := default [] (own triggerType WORKFLOW_TRIGGERS) in
  let unknown := List.filter (fun f => negb (bool_decide (f ∈ allowed))) (List.map clause_field (default [] condition)) in
  match unknown with
  | [] => Ok tt
  | _ => Err (badRequest ("Unknown condition field(s) for " ++ triggerType ++ ": "
                          ++ text (join (chars ", ") (List.map chars unknown))))
  end.

Definition defaultReviewMode (actionType : string) : ReviewMode :=
  if bool_decide (execution_tier actionType = Some tier_automated) then review_auto else review_manual.

Definition assertReviewModeCompatible (actionType : string) (reviewMode : option ReviewMode) : result unit :=
  if bool_decide (reviewMode = Some review_auto) && requires_approval actionType
  then Err (badRequest ("Action " ++ actionType ++ " always requires manual review")) else Ok tt.

Record WorkflowResponse := mkWorkflowResponse { rp_workflow : AssetWorkflowRow; rp_hasSecret : bool }.

Definition toWorkflowResponse (row : AssetWorkflowRow) : WorkflowResponse :=
  let d := wr_definition row in
  let '(params, hasSecret) := redactActionParams (def_params d) in
  mkWorkflowResponse
    (mkRule (wr_id row) (wr_tenant row) (wr_token_id row) (wr_trigger_type row) (wr_action_type row)
       (mkDefinition (def_condition d) (def_action_type d) params (def_retryPolicy d) None) (wr_version row) (wr_enabled row)
       (wr_review_mode row) (wr_created_by row) (wr_created_at row) (wr_updated_at row) (wr_deleted_at row))
    (hasSecret || bool_decide (is_Some (def_actionSecret d))).

Section Rules.
Context {K : WorkflowKit}.
Variable dp : WorkflowDeployment.
Variable auth : WorkflowAuth.

Let tenant := wa_tenant auth.
Let orgId := wt_organization (wa_tenant auth).

Definition assertActionParamsValid (actionType : string) (params : json_record) : result unit :=
  if validateActionParams actionType params then Ok tt else Err (badRequest "Invalid action parameters").

Definition storeActionSecretOrRefuse (workflowId secret : string) : wf_prog StoredCredentialSecret :=
  let! stored := storeActionSecret dp orgId workflowId secret in
  match stored with
  | Some s => Ret s
  | None => Throw (badRequest "Signing secrets require a configured credential secret store on this deployment")
  end.

(** The key a request writes, with its destruction queued. *)
Definition written_secret (workflowId : string) (secret : option string) : wf_prog (option StoredCredentialSecret) :=
  if truthy secret then
    let! s := storeActionSecretOrRefuse workflowId (default "" secret) in
    queuePendingActionSecret orgId workflowId (Some s) ;;;
    Ret (Some s)
  else Ret None.

(** A row is written, or the key written for it is destroyed. *)
Definition or_destroy (workflowId : string) (written : option StoredCredentialSecret) (m : wf_prog (option AssetWorkflowRow))
    (missing : jserr) : wf_prog AssetWorkflowRow :=
  let! row := catch m (fun error => destroyActionSecret dp orgId workflowId written ;;; Throw error) in
  match row with
  | Some row => Ret row
  | None => destroyActionSecret dp orgId workflowId written ;;; Throw missing
  end.

Definition createWorkflow (tokenId triggerType actionType : string) (body : WorkflowBody) : wf_prog WorkflowResponse :=
  of_result (permitted_action auth actionType) ;;;
  of_result (assertReviewModeCompatible actionType (wb_reviewMode body)) ;;;
  let actionParams := default [] (wb_actionParams body) in
  of_result (assertActionParamsValid actionType actionParams) ;;;
  of_result (assertGuardFieldsKnown triggerType (body_condition body)) ;;;
  let! gate := resolveAssetGateContext tenant tokenId in
  match gate with
  | None => Throw (notFound "Token")
  | Some gate =>
      match validateActionSupported actionType gate with
      | Some _ => Throw (badRequest "Action not supported for this asset")
      | None =>
          let '(storableParams, secret) := splitOutSecret actionParams in
          let! uuid := ask NewUuid in
          let workflowId := ("asset_workflow_" ++ uuid)%string in
          let! actionSecret := written_secret workflowId secret in
          let definition :=
            mkDefinition (body_condition body) actionType storableParams
              (Some (default (mkRetryPolicy 5 5) (wb_retryPolicy body))) actionSecret in
          let! workflow :=
            or_destroy workflowId actionSecret
              (ask (CreateRule (mkCreateRule workflowId tenant tokenId triggerType actionType definition
                 WORKFLOW_RULE_VERSION (default (defaultReviewMode actionType) (wb_reviewMode body)) (wb_enabled body)
                 (Some (wa_id auth)) actionSecret)))
              (badRequest "Failed to create workflow") in
          Ret (toWorkflowResponse workflow)
      end
  end.

(** The definition an edit leaves; [None] when it names no part of it. *)
Definition edited_definition (existing : AssetWorkflowRow) (body : WorkflowBody) (params : json_record)
    (actionSecret : option StoredCredentialSecret) : option AssetWorkflowDefinition :=
  let d := wr_definition existing in
  if bool_decide (is_Some (wb_condition body)) || bool_decide (is_Some (wb_actionParams body))
     || bool_decide (is_Some (wb_retryPolicy body)) then
    Some (mkDefinition (default (def_condition d) (wb_condition body)) (wr_action_type existing) params
            (match wb_retryPolicy body with Some p => Some p | None => def_retryPolicy d end) actionSecret)
  else None.

Definition destroy_superseded (workflowId : string) (previous written : option StoredCredentialSecret) : wf_prog unit :=
  let ref s := s ≫= secretVersionRef in
  if bool_decide (is_Some written) && truthy (ref previous) && negb (bool_decide (ref previous = ref written))
  then destroyActionSecret dp orgId workflowId previous else Ret tt.

Definition updateWorkflow (tokenId workflowId : string) (body : WorkflowBody) : wf_prog WorkflowResponse :=
  let! existing := ask (GetRule workflowId tenant false) in
  match existing with
  | Some existing =>
      if negb (String.eqb (wr_token_id existing) tokenId) then Throw (notFound "Workflow")
      else
        of_result (permitted_action auth (wr_action_type existing)) ;;;
        of_result (assertReviewModeCompatible (wr_action_type existing) (wb_reviewMode body)) ;;;
        let d := wr_definition existing in
        let! split :=
          (match wb_actionParams body with
           | None => Ret (def_params d, None)
           | Some params =>
               of_result (assertActionParamsValid (wr_action_type existing) params) ;;; Ret (splitOutSecret params)
           end) in
        (match wb_condition body with
         | None => Ret tt
         | Some condition => of_result (assertGuardFieldsKnown (wr_trigger_type existing) condition)
         end) ;;;
        let previousSecret := def_actionSecret d in
        let! written := written_secret workflowId split.2 in
        let actionSecret := match written with Some s => Some s | None => previousSecret end in
        let! workflow :=
          or_destroy workflowId written
            (ask (UpdateRule (mkUpdateRule workflowId tenant (edited_definition existing body split.1 actionSecret)
                                (wb_reviewMode body) (wb_enabled body) written)))
            (notFound "Workflow") in
        destroy_superseded workflowId previousSecret written ;;;
        (if bool_decide (wb_enabled body = Some false) then ask (CancelOpen workflowId tenant) ;;; Ret tt else Ret tt) ;;;
        Ret (toWorkflowResponse workflow)
  | None => Throw (notFound "Workflow")
  end.

(** How many executions it withdrew. *)
Definition deleteWorkflow (tokenId workflowId : string) : wf_prog Z :=
  let! existing := ask (GetRule workflowId tenant true) in
  match existing with
  | Some existing =>
      if negb (String.eqb (wr_token_id existing) tokenId) then Throw (notFound "Workflow")
      else
        of_result (permitted_action auth (wr_action_type existing)) ;;;
        let! removed := ask (DeleteRule workflowId tenant) in
        (if removed || negb (is_live existing)
         then destroyActionSecret dp orgId workflowId (rule_secret existing) else Ret tt) ;;;
        ask (CancelOpen workflowId tenant)
  | None => Throw (notFound "Workflow")
  end.
End Rules.

(** ** Decisions *)

(** What a verb answers when the row is no longer in the state it decides. *)
Definition undecidable (v : Verb) : jserr :=
  match v with
  | verb_retry => notFound "Retryable execution"
  | _ => notFound "Execution awaiting review"
  end.

Definition loadDecidableExecution (auth : WorkflowAuth) (tokenId executionId : string) : wf_prog WorkflowExecutionRow :=
  let! execution := ask (GetExecution executionId (wa_tenant auth)) in
  match execution with
  | Some execution =>
      if String.eqb (wx_token_id (we_facts execution)) tokenId then
        of_result (permitted_action auth (execution_action execution)) ;;;
        Ret execution
      else Throw (notFound "Execution")
  | None => Throw (notFound "Execution")
  end.

(** [approveWorkflowExecution], [retryWorkflowExecution] and [cancelWorkflowExecution]. *)
Definition decideWorkflowExecution (v : Verb) (auth : WorkflowAuth) (tokenId executionId : string)
    : wf_prog WorkflowExecutionRow :=
  let! held := loadDecidableExecution auth tokenId executionId in
  let! execution := ask (DecideExecution v (mkDecision (execution_id held) (execution_tenant held)
                           (wx_token_id (we_facts held)) (wa_id auth))) in
  match execution with
  | None => Throw (undecidable v)
  | Some execution => ask (AuditDecision v execution) ;;; Ret execution
  end.

(** The keys of a payload and of a result a caller is shown. *)
Definition PAYLOAD_FIELDS : list string :=
  ["wallet"; "source"; "destination"; "amount"; "operation"; "provider"; "counterpartyKind"; "fiatCurrency"; "cryptoToken"; "attempt"].
Definition RESULT_FIELDS : list string :=
  ["signature"; "status"; "notified"; "emailed"; "alreadyFrozen"; "alreadyThawed"; "mirrorFailed"].

Definition project (source : json_record) (fields : list string) : json_record :=
  omap (fun f => (fun v => (f, v)) <$> own f source) fields.

Definition toExecutionResponse (row : WorkflowExecutionRow) : WorkflowExecutionRow :=
  let x := we_facts row in
  mkExecution
    (mkExecutionFacts (wx_id x) (wx_tenant x) (wx_workflow_id x) (wx_token_id x) (wx_trigger_type x) (wx_action_type x)
       (wx_idempotency_key x) (project (wx_trigger_payload x) PAYLOAD_FIELDS) (wx_max_attempts x) (wx_created_at x))
    (we_status row) (project (we_result row) RESULT_FIELDS) (we_attempt_count row) (we_next_attempt_at row)
    (we_locked_at row) (we_error row) (we_decided_by row) (we_decided_at row) (we_updated_at row).
