(* ===== verification/WorkflowInvariant.v ===== *)
(** * Workflows: what the statements keep

    The calls of WorkflowCalls.v that are statements, as functions of the tables; what an
    execution may become; the invariant of the ledger of executions (ids are unique, and a
    rule has one execution for an event); and what may be asked of the platform at once. *)
From Stdlib Require Import Ascii String ZArith Lia.
From stdpp Require Import base list strings.
From S2P Require Import Prelude Text Rows Pool PolicyTypes WorkflowTypes WorkflowRoutes WorkflowTables WorkflowCalls WorkflowSecret WorkflowEngine.

Local Open Scope string_scope.
Local Open Scope Z_scope.
Local Open Scope list_scope.
Local Open Scope sdp_scope.

(** ** The statements *)

(** A statement that fails leaves the tables. *)
Definition performed {A} (r : result (A * WorkflowTables)) (t : WorkflowTables) : result A * WorkflowTables :=
  match r with Ok (a, t') => (Ok a, t') | Err e => (Err e, t) end.

Definition answered {A} (x : A * WorkflowTables) : result A * WorkflowTables := (Ok x.1, x.2).

Section Perform.
Variable text_le : string -> string -> bool.

(** The statements on rules and on the credentials to destroy. *)
Definition perform_rule (now uuid : string) (c : wf_call) (t : WorkflowTables)
    : option (result (wf_answer c) * WorkflowTables) :=
  match c as c return option (result (wf_answer c) * WorkflowTables) with
  | CreateRule i => Some (performed (createWorkflow now i t) t)
  | UpdateRule i => Some (performed (updateWorkflow now uuid i t) t)
  | DeleteRule workflowId tenant => Some (performed (deleteWorkflow now uuid workflowId tenant t) t)
  | GetRule workflowId tenant includeDeleted => Some (Ok (getWorkflowById workflowId tenant includeDeleted t), t)
  | ListEnabledRules tenant triggerType tokenId =>
      Some (Ok (listEnabledWorkflowsForTrigger text_le tenant triggerType tokenId t), t)
  | RecordRetirement i =>
      Some (performed (let? t' := insertWorkflowSecretRetirement now uuid i t in Ok (tt, t')) t)
  | DeleteRetirementByVersionRef ref => Some (Ok tt, deleteWorkflowSecretRetirement ref t)
  | HasRetirement ref => Some (Ok (hasRetirement ref t), t)
  | ListDueRetirements dueBefore limit => Some (Ok (listDueRetirements text_le dueBefore limit t), t)
  | DeleteRetirement id => Some (Ok tt, deleteRetirement id t)
  | RescheduleRetirement id error at_ => Some (Ok tt, rescheduleRetirement now id error at_ t)
  | _ => None
  end.

(** The statements on tokens. *)
Definition perform_token (now uuid : string) (c : wf_call) (t : WorkflowTables)
    : option (result (wf_answer c) * WorkflowTables) :=
  match c as c return option (result (wf_answer c) * WorkflowTables) with
  | ReserveMintSupply tokenId tenant delta => Some (answered (reserveMintSupply now tokenId tenant delta t))
  | SubtractSupply tokenId delta => Some (Ok tt, subtractSupply now tokenId delta t)
  | FindAllowlistEntry tokenId address => Some (Ok (findAllowlistEntry tokenId address t), t)
  | ReactivateAllowlistEntry id label addedBy => Some (Ok tt, reactivateAllowlistEntry id label addedBy t)
  | InsertAllowlistEntry tokenId address label addedBy =>
      Some (performed (insertAllowlistEntry now uuid tokenId address label addedBy t) t)
  | ActiveAllowlistEntryId tokenId address => Some (Ok (getActiveAllowlistEntryIdByAddress tokenId address t), t)
  | RevokeAllowlistEntry id => Some (answered (revokeAllowlistEntry now id t))
  | DeleteAllowlistEntry id => Some (answered (deleteAllowlistEntry id t))
  | AddressAllowed tokenId address => Some (Ok (isAddressAllowed tokenId address t), t)
  | _ => None
  end.

(** [now] and [uuid] are what the database and the repositories generate; [None] of a call
    that is no statement modelled. *)
Definition perform (now uuid : string) (c : wf_call) (t : WorkflowTables) : option (result (wf_answer c) * WorkflowTables) :=
  match c as c return option (result (wf_answer c) * WorkflowTables) with
  | CreateExecution i => Some (performed (createExecution now ("workflow_execution_" ++ uuid) i t) t)
  | GetExecution id tenant => Some (Ok (getExecutionById id tenant t), t)
  | ParkStale before limit types => Some (answered (parkStaleProcessing text_le now before limit types t))
  | RequeueStale before limit types => Some (answered (requeueStaleProcessing text_le now before limit types t))
  | ListDue before limit => Some (Ok (listDueExecutions text_le before limit t), t)
  | ClaimExecution id => Some (answered (claimExecution now id t))
  | CompleteExecution id res => Some (Ok tt, completeExecution now id res t)
  | FailExecution id error res => Some (Ok tt, failExecution now id error res t)
  | RescheduleExecution id error at_ => Some (Ok tt, rescheduleExecution now id error at_ t)
  | DecideExecution v i => Some (answered (decideExecution now v i t))
  | CancelOpen workflowId tenant => Some (answered (cancelOpenExecutionsForWorkflow now workflowId tenant t))
  | c => match perform_rule now uuid c t with
         | Some r => Some r
         | None => perform_token now uuid c t
         end
  end.
End Perform.

(** ** What an execution may become *)

Definition ended (s : WorkflowExecutionStatus) : bool := bool_decide (s = we_succeeded) || bool_decide (s = we_cancelled).

(** An ended execution stays as it ended; none comes back to be reviewed. *)
Definition execution_path (a b : WorkflowExecutionStatus) : Prop := a = b \/ (ended a = false /\ b <> we_awaiting_review).

Record later_execution (r r' : WorkflowExecutionRow) : Prop := mkLaterExecution {
  later_facts : we_facts r' = we_facts r;
  later_path : execution_path (we_status r) (we_status r');
}.

(** The rule and the event an execution is for. *)
Definition execution_event (r : WorkflowExecutionRow) : string * string :=
  (wx_workflow_id (we_facts r), wx_idempotency_key (we_facts r)).

Record executions_sound (l : list WorkflowExecutionRow) : Prop := mkExecutionsSound {
  sound_ids : NoDup (execution_id <$> l);
  sound_events : NoDup (execution_event <$> l);
}.

(** From one set of executions to another: each is there, and what is new is new. *)
Definition executions_kept (l l' : list WorkflowExecutionRow) : Prop :=
  (executions_sound l -> executions_sound l') /\ later_rows later_execution l l'.

(** How many executions with this id wait to run an action that a person must decide. *)
Definition waits (x : string) (r : WorkflowExecutionRow) : bool :=
  String.eqb (execution_id r) x && has_status we_pending r && requires_approval (execution_action r).

Definition waiting (x : string) (l : list WorkflowExecutionRow) : nat := length (List.filter (waits x) l).

(** * Lemmas *)

Lemma execution_path_trans a b c : execution_path a b -> execution_path b c -> execution_path a c.
Proof. intros [->|[Ha Hb]] [->|[Hb' Hc]]; [by left|by right..]. Qed.

Lemma later_execution_refl r : later_execution r r.
Proof. split; [done|by left]. Qed.

Lemma later_execution_trans a b c : later_execution a b -> later_execution b c -> later_execution a c.
Proof. intros [F1 P1] [F2 P2]. split; [congruence|by eapply execution_path_trans]. Qed.

Lemma executions_kept_refl l : executions_kept l l.
Proof. split; [done|]. apply later_rows_refl, later_execution_refl. Qed.

Lemma executions_kept_trans l1 l2 l3 : executions_kept l1 l2 -> executions_kept l2 l3 -> executions_kept l1 l3.
Proof.
  intros [S1 L1] [S2 L2]. split; [auto|]. eapply later_rows_trans; [|done..]. apply later_execution_trans.
Qed.

Lemma facts_sound (f : WorkflowExecutionRow -> WorkflowExecutionRow) l :
  (forall r, we_facts (f r) = we_facts r) -> executions_sound l -> executions_sound (map f l).
Proof.
  intros Hf [H1 H2]. assert (forall B (k : ExecutionFacts -> B), (fun r => k (we_facts r)) <$> map f l = (fun r => k (we_facts r)) <$> l) as E.
  { intros B k. rewrite <- list_fmap_compose. apply list_fmap_ext. intros i r _. cbn. by rewrite Hf. }
  pose proof (E _ wx_id : execution_id <$> map f l = execution_id <$> l) as E1.
  pose proof (E _ (fun x => (wx_workflow_id x, wx_idempotency_key x))
              : execution_event <$> map f l = execution_event <$> l) as E2.
  by split; rewrite ?E1, ?E2.
Qed.

(** A statement that changes the status of rows as they may change. *)
Lemma mapped_kept (f : WorkflowExecutionRow -> WorkflowExecutionRow) l :
  (forall r, later_execution r (f r)) -> executions_kept l (map f l).
Proof.
  intros Hf. split; [apply facts_sound; intros r; apply Hf|].
  intros r Hr. exists (f r). split; [|done]. apply list_elem_of_In, in_map. by apply list_elem_of_In.
Qed.

Lemma waits_spec x r : waits x r = true <-> execution_id r = x /\ we_status r = we_pending /\ requires_approval (execution_action r) = true.
Proof. unfold waits, has_status. rewrite !andb_true_iff, String.eqb_eq, bool_decide_eq_true. tauto. Qed.

Lemma waiting_map (f : WorkflowExecutionRow -> WorkflowExecutionRow) x l :
  (forall r, r ∈ l -> waits x (f r) = true -> waits x r = true) -> (waiting x (map f l) <= waiting x l)%nat.
Proof.
  unfold waiting. induction l as [|r l IH]; intros H; [done|]. cbn [map List.filter].
  assert (length (List.filter (waits x) (map f l)) <= length (List.filter (waits x) l))%nat
    by (apply IH; intros r' Hr'; apply H; by right).
  destruct (waits x (f r)) eqn:E; [rewrite (H r) by (by left || done)|destruct (waits x r)]; cbn; lia.
Qed.

Lemma waiting_le x l : executions_sound l -> (waiting x l <= 1)%nat.
Proof.
  intros [Hn _]. unfold waiting. induction l as [|r l IH]; [cbn; lia|]. cbn [fmap list_fmap] in Hn.
  apply NoDup_cons in Hn as [Hr Hn]. cbn [List.filter]. specialize (IH Hn). destruct (waits x r) eqn:E; [|done].
  apply waits_spec in E as (<- & _ & _). cbn [length].
  assert (List.filter (waits (execution_id r)) l = []) as ->; [|cbn; lia].
  destruct (List.filter (waits (execution_id r)) l) as [|y l'] eqn:Ef; [done|]. exfalso. apply Hr.
  assert (y ∈ List.filter (waits (execution_id r)) l) as [Hy (<- & _)%waits_spec]%filter_elem by (rewrite Ef; by left).
  apply list_elem_of_fmap. by exists y.
Qed.

Lemma waiting_none x l : (forall r, r ∈ l -> waits x r = false) -> waiting x l = O.
Proof.
  intros H. unfold waiting. destruct (List.filter (waits x) l) as [|y l'] eqn:Ef; [done|].
  assert (y ∈ List.filter (waits x) l) as [Hy E]%filter_elem by (rewrite Ef; by left). by rewrite H in E.
Qed.

Lemma waiting_some x l r : r ∈ l -> waits x r = true -> (1 <= waiting x l)%nat.
Proof.
  intros Hr E. unfold waiting. destruct (List.filter (waits x) l) as [|y l'] eqn:Ef; [|cbn; lia].
  assert (r ∈ List.filter (waits x) l) as H by (by apply filter_elem). rewrite Ef in H. by apply elem_of_nil in H.
Qed.

Lemma waiting_app x l1 l2 : waiting x (l1 ++ l2) = (waiting x l1 + waiting x l2)%nat.
Proof. unfold waiting. by rewrite List.filter_app, length_app. Qed.

(** ** The statements on executions *)

(** What a statement did to the executions. *)
Definition executions_step (P : list WorkflowExecutionRow -> list WorkflowExecutionRow -> Prop) (t t' : WorkflowTables) : Prop :=
  P (wf_executions t) (wf_executions t').

Lemma update_execution_eq p f t o t' :
  update_execution p f t = (o, t') ->
  wf_executions t' = map (fun r => if p r then f r else r) (wf_executions t)
  /\ forall r, o = Some r -> exists r0, r0 ∈ wf_executions t /\ p r0 = true /\ r = f r0 /\ r ∈ wf_executions t'.
Proof.
  unfold update_execution. destruct (update_where p f (wf_executions t)) as [o' l] eqn:E. intros [= <- <-].
  cbn [wf_executions with_executions]. split; [by unfold update_where in E; injection E as _ <-|].
  intros r ->. by apply update_where_some in E as (_ & ?).
Qed.

Lemma if_later p (f : WorkflowExecutionRow -> WorkflowExecutionRow) r :
  (forall r, p r = true -> later_execution r (f r)) -> later_execution r (if p r then f r else r).
Proof. intros H. destruct (p r) eqn:E; [by apply H|apply later_execution_refl]. Qed.

Lemma update_executions_kept p f t :
  (forall r, p r = true -> later_execution r (f r)) ->
  executions_kept (wf_executions t) (wf_executions (update_execution p f t).2).
Proof.
  intros H. destruct (update_execution p f t) as [o t'] eqn:E. apply update_execution_eq in E as [E _].
  cbn [snd]. rewrite E. apply mapped_kept. intros r. by apply if_later.
Qed.

Lemma has_status_spec s r : has_status s r = true <-> we_status r = s.
Proof. apply bool_decide_eq_true. Qed.

Lemma processing_later now id s res n next error r :
  s <> we_awaiting_review -> is_processing id r = true ->
  later_execution r (settled_execution now s (res r) (n r) next error r).
Proof.
  intros Hs [_ Hp%has_status_spec]%andb_true_iff. split; [done|]. right. by rewrite Hp.
Qed.

Lemma claim_later now id r :
  String.eqb (execution_id r) id && has_status we_pending r = true ->
  later_execution r (mkExecution (we_facts r) we_processing (we_result r) (we_attempt_count r + 1) (we_next_attempt_at r)
                       (Some now) (we_error r) (we_decided_by r) (we_decided_at r) now).
Proof. intros [_ Hp%has_status_spec]%andb_true_iff. split; [done|]. right. by rewrite Hp. Qed.

Lemma decidable_spec i from r :
  decidable_row i from r = true ->
  execution_id r = dc_executionId i /\ execution_tenant r = dc_tenant i /\ wx_token_id (we_facts r) = dc_tokenId i
  /\ we_status r = from.
Proof.
  unfold decidable_row, of_tenant. rewrite !andb_true_iff, !String.eqb_eq, has_status_spec, bool_decide_eq_true. tauto.
Qed.

Lemma decide_later now v i r :
  decidable_row i (verb_from v) r = true ->
  later_execution r (mkExecution (we_facts r) (verb_to v) (we_result r) 0 None None None (Some (dc_decidedBy i)) (Some now) now).
Proof. intros (_ & _ & _ & Hs)%decidable_spec. split; [done|]. right. rewrite Hs. by destruct v. Qed.

Lemma open_later now workflowId tenant r :
  open_of workflowId tenant r = true ->
  later_execution r (settled_execution now we_cancelled (we_result r) (we_attempt_count r) None (Some "RULE_WITHDRAWN") r).
Proof.
  intros [_ Hs]%andb_true_iff. split; [done|]. right. split; [|done]. rewrite orb_true_iff, !has_status_spec in Hs.
  by destruct Hs as [-> | ->].
Qed.

(** A row with an id of [stale_ids] is one of those rows. *)
Lemma stale_ids_spec text_le before limit p t r :
  executions_sound (wf_executions t) -> r ∈ wf_executions t -> execution_id r ∈ stale_ids text_le before limit p t ->
  we_status r = we_processing /\ p (execution_action r) = true.
Proof.
  intros [Hn _] Hr (r' & Hid & Hr')%list_elem_of_fmap. apply limited_elem in Hr' as [Hr' E].
  assert (r' = r) as -> by (eapply same_key; [exact Hn|done..]).
  rewrite !andb_true_iff, bool_decide_eq_true in E. tauto.
Qed.

(** ** A call *)

Lemma performed_ok {A} (s : result (A * WorkflowTables)) t r t' (P : WorkflowTables -> Prop) :
  performed s t = (r, t') -> P t -> (forall a t1, s = Ok (a, t1) -> P t1) -> P t'.
Proof. unfold performed. destruct s as [[a t1]|e]; intros [= <- <-] H0 H1; [by eapply H1|done]. Qed.

Definition same_executions (t t' : WorkflowTables) : Prop := wf_executions t' = wf_executions t.

Definition same_supplies (t t' : WorkflowTables) : Prop := wf_supplies t' = wf_supplies t.

Definition same_work (t t' : WorkflowTables) : Prop := same_executions t t' /\ same_supplies t t'.

Lemma retirement_same now uuid i t t' : insertWorkflowSecretRetirement now uuid i t = Ok t' -> same_work t t'.
Proof.
  unfold insertWorkflowSecretRetirement.
  destruct (existsb _ _); [by intros [= <-]|]. destruct (existsb _ _); [done|]. by intros [= <-].
Qed.

Lemma cleared_same stored t : same_work t (clearQueuedSecret stored t).
Proof. unfold clearQueuedSecret. by destruct (external_version stored). Qed.

Lemma orphaned_same now uuid org w s reason t t' : queueOrphanedSecret now uuid org w s reason t = Ok t' -> same_work t t'.
Proof.
  unfold queueOrphanedSecret. destruct s as [s|]; [|by intros [= <-]].
  destruct (external_version _); [|by intros [= <-]]. apply retirement_same.
Qed.

Lemma create_rule_same now i t a t' : createWorkflow now i t = Ok (a, t') -> same_work t t'.
Proof. unfold createWorkflow. destruct (existsb _ _); [done|]. intros [= _ <-]. apply (cleared_same _ (with_rules t _)). Qed.

Lemma update_rule_same now uuid i t a t' : updateWorkflow now uuid i t = Ok (a, t') -> same_work t t'.
Proof.
  unfold updateWorkflow. destruct (List.find _ _) as [locked|]; [|by intros [= _ <-]].
  destruct (update_where _ _ _) as [[row|] l]; destruct (uw_rotateSecretTo i) as [rotated|]; try by intros [= _ <-].
  unfold result_bind. case_bool_decide; [intros [= _ <-]; apply (cleared_same _ (with_rules t l))|].
  destruct (queueOrphanedSecret _ _ _ _ _ _ _) as [t2|] eqn:E; [|done]. intros [= _ <-].
  apply orphaned_same in E as [E1 E2]. destruct (cleared_same (Some rotated) t2) as [C1 C2].
  unfold same_executions, same_supplies in *. cbn in *. split; congruence.
Qed.

Lemma delete_rule_same now uuid w tenant t a t' : deleteWorkflow now uuid w tenant t = Ok (a, t') -> same_work t t'.
Proof.
  unfold deleteWorkflow. destruct (List.find _ _) as [locked|]; [|by intros [= _ <-]].
  unfold result_bind. destruct (queueOrphanedSecret _ _ _ _ _ _ _) as [t2|] eqn:E; [|done]. intros [= _ <-].
  by apply orphaned_same in E.
Qed.

Section Calls.
Variable text_le : string -> string -> bool.

Lemma rule_call_same now uuid c t r t' : perform_rule text_le now uuid c t = Some (r, t') -> same_work t t'.
Proof.
  destruct c; try done; cbn [perform_rule]; try (by intros [= _ <-]); intros [= E];
    eapply (performed_ok _ _ _ _ (same_work t) E); try done; intros a t1.
  - apply create_rule_same.
  - apply update_rule_same.
  - apply delete_rule_same.
  - unfold result_bind. destruct (insertWorkflowSecretRetirement _ _ _ _) as [t2|] eqn:Ei; [|done].
    intros [= _ <-]. by apply retirement_same in Ei.
Qed.

Lemma token_call_same now uuid c t r t' : perform_token now uuid c t = Some (r, t') -> same_executions t t'.
Proof.
  destruct c; try done; cbn [perform_token]; try (by intros [= _ <-]); unfold answered.
  intros [= E]. eapply (performed_ok _ _ _ _ (same_executions t) E); [done|]. intros a t1.
  unfold insertAllowlistEntry. destruct (existsb _ _); [done|]. by intros [= _ <-].
Qed.

(** The statements on the recorded supplies, and the others. *)
Definition on_supplies (c : wf_call) : bool :=
  match c with ReserveMintSupply _ _ _ | SubtractSupply _ _ => true | _ => false end.

Lemma update_supplies p f t : same_supplies t (update_execution p f t).2.
Proof. unfold update_execution. by destruct (update_where p f _). Qed.

Lemma create_supplies now id i t o t' : createExecution now id i t = Ok (o, t') -> same_supplies t t'.
Proof.
  unfold createExecution. destruct (existsb (same_event i) _); [by intros [= _ <-]|].
  destruct (existsb _ _); [done|]. destruct (negb _); [done|]. by intros [= _ <-].
Qed.

Lemma token_call_supplies now uuid c t r t' :
  on_supplies c = false -> perform_token now uuid c t = Some (r, t') -> same_supplies t t'.
Proof.
  destruct c; try done; intros _; cbn [perform_token]; try (by intros [= _ <-]); unfold answered.
  intros [= E]. eapply (performed_ok _ _ _ _ (same_supplies t) E); [done|]. intros a t1.
  unfold insertAllowlistEntry. destruct (existsb _ _); [done|]. by intros [= _ <-].
Qed.

Lemma perform_supplies now uuid c t r t' :
  on_supplies c = false -> perform text_le now uuid c t = Some (r, t') -> same_supplies t t'.
Proof.
  intros Hc H. destruct c; try done; cbn [perform] in H; unfold answered in H; try (by injection H as _ <-);
    try match type of H with
    | match ?e with _ => _ end = _ =>
        destruct e as [[r1 t1]|] eqn:E1; [injection H as _ <-; by eapply proj2, rule_call_same|by eapply token_call_supplies]
    end; injection H as E; try (subst; apply update_supplies).
  eapply (performed_ok _ _ _ _ (same_supplies t) E); [done|]. intros a t1. apply create_supplies.
Qed.

(** The calls that are statements on executions, and the others. *)
Lemma perform_cases now uuid c t r t' :
  perform text_le now uuid c t = Some (r, t') ->
  same_executions t t'
  \/ match c with
     | CreateExecution _ | ParkStale _ _ _ | RequeueStale _ _ _ | ClaimExecution _ | CompleteExecution _ _
     | FailExecution _ _ _ | RescheduleExecution _ _ _ | DecideExecution _ _ | CancelOpen _ _ => True
     | _ => False
     end.
Proof.
  intros H. destruct c; try (by right); left; cbn [perform] in H; try (by injection H as _ <-);
    match type of H with
    | match ?e with _ => _ end = _ => destruct e as [[r1 t1]|] eqn:E1; [|by eapply token_call_same]
    end; injection H as _ <-; by eapply proj1, rule_call_same.
Qed.

Lemma create_kept now id i t o t' :
  createExecution now id i t = Ok (o, t') ->
  executions_kept (wf_executions t) (wf_executions t')
  /\ (wf_executions t' = wf_executions t \/ wf_executions t' = wf_executions t ++ [new_execution now id i]).
Proof.
  unfold createExecution. destruct (existsb (same_event i) _) eqn:Ee.
  { intros [= _ <-]. split; [apply executions_kept_refl|by left]. }
  destruct (existsb (fun r => String.eqb (execution_id r) id) _) eqn:Ei; [done|]. destruct (negb _); [done|].
  intros [= _ <-].
  split; [|by right]. split.
  - intros [H1 H2]. cbn [wf_executions with_executions].
    split; rewrite fmap_app; apply NoDup_app; (split_and!; [done| |apply NoDup_singleton]).
    + intros y Hy E%list_elem_of_singleton. subst y. by apply (fresh_key execution_id id (wf_executions t)) in Ei.
    + intros y Hy E'%list_elem_of_singleton. subst y. apply list_elem_of_fmap in Hy as (r & E & Hr).
      assert (existsb (same_event i) (wf_executions t) = true) as H'; [|congruence].
      apply existsb_exists. exists r. split; [by apply list_elem_of_In|].
      unfold same_event. unfold execution_event in E. cbn in E. injection E as -> ->. by rewrite !String.eqb_refl.
  - apply later_rows_app, later_execution_refl.
Qed.

(** A sweep over stale rows. *)
Lemma swept_kept before limit p now s res n next error t :
  s <> we_awaiting_review ->
  let hit r := bool_decide (execution_id r ∈ stale_ids text_le before limit p t) in
  let f r := settled_execution now s (res r) (n r) (next r) (error r) r in
  executions_sound (wf_executions t) ->
  executions_sound (map (fun r => if hit r then f r else r) (wf_executions t))
  /\ later_rows later_execution (wf_executions t) (map (fun r => if hit r then f r else r) (wf_executions t)).
Proof.
  intros Hs hit f Hsd. split.
  - apply facts_sound; [|done]. intros r. by destruct (hit r).
  - intros r Hr. exists (if hit r then f r else r). split; [apply list_elem_of_In, in_map_iff; exists r; by rewrite <- list_elem_of_In|].
    destruct (hit r) eqn:E; [|apply later_execution_refl]. apply bool_decide_eq_true in E.
    destruct (stale_ids_spec _ _ _ _ _ _ Hsd Hr E) as [Ep _]. split; [done|]. right. by rewrite Ep.
Qed.

(** From sound executions, no statement loses, forges or revives one. *)
Definition ledger_kept (t t' : WorkflowTables) : Prop :=
  executions_sound (wf_executions t) ->
  executions_sound (wf_executions t') /\ later_rows later_execution (wf_executions t) (wf_executions t').

Lemma ledger_kept_refl t : ledger_kept t t.
Proof. intros H. split; [done|]. apply later_rows_refl, later_execution_refl. Qed.

Lemma ledger_kept_same t t' : same_executions t t' -> ledger_kept t t'.
Proof. intros E H. rewrite E. split; [done|]. apply later_rows_refl, later_execution_refl. Qed.

Lemma ledger_kept_trans t1 t2 t3 : ledger_kept t1 t2 -> ledger_kept t2 t3 -> ledger_kept t1 t3.
Proof.
  intros H1 H2 H. destruct (H1 H) as [S2 L1]. destruct (H2 S2) as [S3 L2]. split; [done|].
  eapply later_rows_trans; [|done..]. apply later_execution_trans.
Qed.

Lemma kept_ledger t t' : executions_kept (wf_executions t) (wf_executions t') -> ledger_kept t t'.
Proof. intros [H L] Hs. auto. Qed.

Lemma perform_kept_ledger now uuid c t r t' : perform text_le now uuid c t = Some (r, t') -> ledger_kept t t'.
Proof.
  intros H. destruct (perform_cases _ _ _ _ _ _ H) as [E|Hc]; [by apply ledger_kept_same|].
  destruct c; try done; cbn [perform] in H; injection H as E; unfold answered in *.
  - eapply (performed_ok _ _ _ _ (ledger_kept t) E); [apply ledger_kept_refl|]. intros a t1 [Hk _]%create_kept.
    by apply kept_ledger.
  - subst t'. intros Hs. by apply swept_kept.
  - subst t'. intros Hs. by apply swept_kept.
  - subst t'. apply kept_ledger, update_executions_kept. intros r'. apply claim_later.
  - subst t'. apply kept_ledger, update_executions_kept. intros r'.
    by apply (processing_later now id we_succeeded (fun _ => result) we_attempt_count).
  - subst t'. apply kept_ledger, update_executions_kept. intros r'.
    by apply (processing_later now id we_failed (fun r => default (we_result r) result) we_attempt_count).
  - subst t'. apply kept_ledger, update_executions_kept. intros r'.
    by apply (processing_later now id we_pending we_result we_attempt_count).
  - subst t'. apply kept_ledger, update_executions_kept. intros r'. apply decide_later.
  - subst t'. apply kept_ledger, update_executions_kept. intros r'. apply open_later.
Qed.

(** ** Claims and decisions *)

(** The claim of an execution whose action a person must decide. *)
Definition claims_gated (x : string) (e : wf_event) : bool :=
  match ev_call e as c return result (wf_answer c) -> bool with
  | ClaimExecution _ => fun a =>
      match a with Ok (Some r) => String.eqb (execution_id r) x && requires_approval (execution_action r) | _ => false end
  | _ => fun _ => false
  end (ev_resp e).

(** A decision that an execution shall run, unless the answer is that it was not taken. *)
Definition decides_run (x : string) (e : wf_event) : bool :=
  match ev_call e as c return result (wf_answer c) -> bool with
  | DecideExecution v i => fun a =>
      match v with verb_cancel => false | _ => String.eqb (dc_executionId i) x end
      && match a with Ok None => false | _ => true end
  | _ => fun _ => false
  end (ev_resp e).

Definition counts (b : bool) : nat := if b then 1%nat else 0%nat.

(** What a call must be for a waiting execution to have been decided. *)
Definition lawful (c : wf_call) (l : list WorkflowExecutionRow) : Prop :=
  match c with
  | CreateExecution i => ce_pending i = true -> requires_approval (ce_actionType i) = false
  | RequeueStale _ _ types => types = APPROVAL_GATED_ACTIONS
  | RescheduleExecution id _ _ => forall r, r ∈ l -> execution_id r = id -> requires_approval (execution_action r) = false
  | _ => True
  end.

Lemma gated_actions a : requires_approval a = true -> a ∈ APPROVAL_GATED_ACTIONS.
Proof.
  unfold requires_approval, execution_tier, resolveWorkflowAction. rewrite bool_decide_eq_true.
  intros (e & He & E)%fmap_Some. revert He. unfold WORKFLOW_ACTIONS. cbn [own].
  repeat match goal with
  | |- context [String.eqb ?k a] =>
      destruct (String.eqb_spec k a) as [<-|_];
      [intros [= <-]; first [discriminate E|apply (bool_decide_unpack _); vm_compute; exact I]|]
  end.
  done.
Qed.

Lemma waiting_same x t t' : same_executions t t' -> waiting x (wf_executions t') = waiting x (wf_executions t).
Proof. by intros ->. Qed.

(** A row that an update leaves pending was pending. *)
Lemma waiting_update x p f t o t' :
  update_execution p f t = (o, t') ->
  (forall r, r ∈ wf_executions t -> p r = true -> waits x (f r) = true -> waits x r = true) ->
  (waiting x (wf_executions t') <= waiting x (wf_executions t))%nat.
Proof.
  intros [E _]%update_execution_eq H. rewrite E. apply waiting_map. intros r Hr. destruct (p r) eqn:Ep; [by apply H|done].
Qed.

Lemma not_waiting x r : we_status r <> we_pending -> waits x r = false.
Proof. intros H. destruct (waits x r) eqn:E; [|done]. by apply waits_spec in E as (_ & ? & _). Qed.

(** A claim takes a waiting execution away. *)
Lemma claim_counted x now id t o t' :
  claimExecution now id t = (o, t') -> executions_sound (wf_executions t) ->
  (waiting x (wf_executions t') + counts (claims_gated x (wf_ev (ClaimExecution id) (Ok o))) <= waiting x (wf_executions t))%nat.
Proof.
  intros H Hs. pose proof H as H'. apply update_execution_eq in H' as [E Ho]. cbn [claims_gated ev_call ev_resp wf_ev].
  destruct (match o with Some r => String.eqb (execution_id r) x && requires_approval (execution_action r) | None => false end) eqn:Ec;
    cbn [counts].
  - destruct o as [r|]; [|done]. destruct (Ho r eq_refl) as (r0 & Hr0 & Hp & -> & Hr).
    rewrite andb_true_iff, String.eqb_eq in Ec. destruct Ec as [Ex Eg]. rewrite andb_true_iff, String.eqb_eq, has_status_spec in Hp.
    assert (waiting x (wf_executions t') = O) as ->.
    { apply waiting_none. intros y Hy. rewrite E in Hy. apply update_rows_elem in Hy as (y0 & Hy0 & ->).
      destruct (_ && _) eqn:Ey; [by apply not_waiting|].
      destruct (waits x y0) eqn:Ew; [|done]. apply waits_spec in Ew as (Exy & Ep & _). exfalso.
      rewrite Exy, <- Ex in Ey. cbn in Ey. destruct Hp as [<- _]. rewrite String.eqb_refl in Ey. cbn in Ey.
      by rewrite (proj2 (has_status_spec _ _) Ep) in Ey. }
    apply (waiting_some x _ r0); [done|]. apply waits_spec. cbn in Ex, Eg. by destruct Hp.
  - rewrite Nat.add_0_r. eapply waiting_update; [exact H|]. intros r Hr Hp Hw. exfalso.
    by rewrite not_waiting in Hw.
Qed.

(** At most one execution is made to wait, by a decision on it. *)
Lemma decide_counted x now v i t o t' :
  decideExecution now v i t = (o, t') -> executions_sound (wf_executions t) ->
  (waiting x (wf_executions t')
   <= waiting x (wf_executions t) + counts (decides_run x (wf_ev (DecideExecution v i) (Ok o))))%nat.
Proof.
  intros H Hs. pose proof H as H'. apply update_execution_eq in H' as [E Ho]. cbn [decides_run ev_call ev_resp wf_ev].
  destruct (bool_decide (v = verb_cancel)) eqn:Ev; [apply bool_decide_eq_true in Ev; subst v|].
  { rewrite Nat.add_0_r. eapply waiting_update; [exact H|]. intros r Hr Hp Hw. by rewrite not_waiting in Hw. }
  apply bool_decide_eq_false in Ev.
  assert (match v with verb_cancel => false | _ => String.eqb (dc_executionId i) x end = String.eqb (dc_executionId i) x) as ->
    by (by destruct v).
  destruct (String.eqb_spec (dc_executionId i) x) as [Ex|Ex]; cbn [andb].
  - destruct o as [r|]; cbn [counts].
    + assert (executions_sound (wf_executions t')) as Hs'.
      { destruct (update_executions_kept (decidable_row i (verb_from v)) (fun r => mkExecution (we_facts r) (verb_to v) (we_result r) 0 None None
          None (Some (dc_decidedBy i)) (Some now) now) t) as [Hk _]; [intros r0; apply decide_later|].
        unfold decideExecution, decide_execution in H. rewrite H in Hk. by apply Hk. }
      pose proof (waiting_le x _ Hs'). lia.
    + rewrite Nat.add_0_r. eapply waiting_update; [exact H|]. intros r Hr Hp _. exfalso.
      unfold decideExecution, decide_execution, update_execution, update_where in H. injection H as Hf _.
      destruct (List.find _ _) eqn:Ef; [done|]. rewrite (find_none _ _ Ef r) in Hp; [done|by apply list_elem_of_In].
  - rewrite Nat.add_0_r. eapply waiting_update; [exact H|]. intros r Hr (Hid & _)%decidable_spec (Hx & _)%waits_spec.
    exfalso. apply Ex. by rewrite <- Hid.
Qed.

Ltac counts_nothing := cbn [claims_gated decides_run counts ev_call ev_resp wf_ev]; rewrite ?Nat.add_0_r.

(** What waits after a statement has been claimed or decided for it. *)
Lemma perform_counted x now uuid c t r t' :
  perform text_le now uuid c t = Some (r, t') -> executions_sound (wf_executions t) -> lawful c (wf_executions t) ->
  (waiting x (wf_executions t') + counts (claims_gated x (wf_ev c r))
   <= waiting x (wf_executions t) + counts (decides_run x (wf_ev c r)))%nat.
Proof.
  intros H Hs Hl.
  destruct c; try (destruct (perform_cases _ _ _ _ _ _ H) as [E|[]]; rewrite (waiting_same _ _ _ E); counts_nothing; exact (le_n _));
    cbn [perform] in H; unfold answered in H.
  - injection H as E. counts_nothing. cbn [lawful] in Hl.
    eapply (performed_ok _ _ _ _ (fun t' => waiting x (wf_executions t') <= waiting x (wf_executions t))%nat E); [done|].
    intros a t1 [_ [->|Ea]]%create_kept; [done|]. rewrite Ea, waiting_app. rewrite (waiting_none x [_]); [lia|].
    intros r' ->%list_elem_of_singleton. destruct (waits x _) eqn:Ew; [|done]. apply waits_spec in Ew as (_ & Es & Eg).
    cbn in Es, Eg. destruct (ce_pending i); [|done]. by rewrite Hl in Eg.
  - injection H as <- <-. counts_nothing. apply waiting_map. intros r' _. destruct (bool_decide _); [|done].
    by rewrite not_waiting.
  - injection H as <- <-. counts_nothing. cbn [lawful] in Hl. subst parkActionTypes. apply waiting_map. intros r' Hr'.
    destruct (bool_decide _) eqn:Eh; [|done]. apply bool_decide_eq_true in Eh. intros (_ & _ & Eg)%waits_spec.
    destruct (stale_ids_spec _ _ _ _ _ _ Hs Hr' Eh) as [_ Hn]. cbn in Eg. apply gated_actions in Eg.
    by rewrite bool_decide_true in Hn.
  - injection H as <- <-. pose proof (claim_counted x now id t _ _ (surjective_pairing _) Hs). cbn in *. lia.
  - injection H as <- <-. counts_nothing. eapply waiting_update; [apply surjective_pairing|].
    intros r _ _ Hw. by rewrite not_waiting in Hw.
  - injection H as <- <-. counts_nothing. eapply waiting_update; [apply surjective_pairing|].
    intros r _ _ Hw. by rewrite not_waiting in Hw.
  - injection H as <- <-. counts_nothing. eapply waiting_update; [apply surjective_pairing|].
    intros r Hr [Hid%String.eqb_eq _]%andb_true_iff (_ & _ & Eg)%waits_spec.
    specialize (Hl r Hr Hid). unfold execution_action in *. cbn in Eg, Hl. congruence.
  - injection H as <- <-. rewrite Nat.add_0_r. apply decide_counted with (now := now); [apply surjective_pairing|done].
  - injection H as <- <-. counts_nothing. eapply (waiting_update x (open_of workflowId tenant)); [reflexivity|].
    intros r _ _ Hw. by rewrite not_waiting in Hw.
Qed.

(** ** The environment *)

(** What the rest of the platform may do to the tables: edit the control lists. Supplies
    change by the statements of this development. *)
Definition others (t t' : WorkflowTables) : Prop :=
  wf_rules t' = wf_rules t /\ wf_executions t' = wf_executions t /\ wf_retirements t' = wf_retirements t
  /\ wf_supplies t' = wf_supplies t.

(** The environment answers a statement from the tables, or loses it or its answer; of
    anything else it may answer anything. *)
Inductive wf_answers : WorkflowTables -> wf_event -> WorkflowTables -> Prop :=
| answers_other t t' c r : (forall now uuid t, perform text_le now uuid c t = None) -> others t t' -> wf_answers t (wf_ev c r) t'
| answers_statement t t1 t' now uuid c r : others t t1 -> perform text_le now uuid c t1 = Some (r, t') ->
    wf_answers t (wf_ev c r) t'
| answers_unheard t t1 t' now uuid c r e : others t t1 -> perform text_le now uuid c t1 = Some (r, t') ->
    wf_answers t (wf_ev c (Err e)) t'
| answers_lost t t' c e : others t t' -> wf_answers t (wf_ev c (Err e)) t'.

Lemma others_kept t : others t t.
Proof. done. Qed.

Lemma others_executions t t' : others t t' -> same_executions t t'.
Proof. by intros (_ & ? & _). Qed.

Lemma answers_ledger t e t' : wf_answers t e t' -> ledger_kept t t'.
Proof.
  intros [u u' c r _ H|u u1 u' now id c r H Hp|u u1 u' now id c r err H Hp|u u' c err H];
    apply others_executions, ledger_kept_same in H; try done;
    (eapply ledger_kept_trans; [exact H|by eapply perform_kept_ledger]).
Qed.

Lemma unheard_decides x c r e : (counts (decides_run x (wf_ev c r)) <= counts (decides_run x (wf_ev c (Err e))))%nat.
Proof.
  unfold counts, decides_run, wf_ev. cbn. destruct c; try lia. destruct v; cbn; [..|lia];
    (destruct (String.eqb _ x); cbn; [|lia]; destruct r as [[r|]|]; lia).
Qed.

Lemma answers_counted x t e t' :
  wf_answers t e t' -> executions_sound (wf_executions t) -> lawful (ev_call e) (wf_executions t) ->
  (waiting x (wf_executions t') + counts (claims_gated x e) <= waiting x (wf_executions t) + counts (decides_run x e))%nat.
Proof.
  intros [u u' c r Hn H|u u1 u' now id c r H Hp|u u1 u' now id c r err H Hp|u u' c err H]; intros Hs Hl;
    apply others_executions in H; cbn [ev_call wf_ev] in Hl.
  - rewrite (waiting_same _ _ _ H). specialize (Hn "" "" u). destruct c; try (cbn; lia); by cbn in Hn.
  - rewrite <- H in Hs, Hl. rewrite <- (waiting_same _ _ _ H). by eapply perform_counted.
  - rewrite <- H in Hs, Hl. rewrite <- (waiting_same _ _ _ H).
    pose proof (perform_counted x now id c u1 r u' Hp Hs Hl) as Hpc. pose proof (unheard_decides x c r err).
    assert (claims_gated x (wf_ev c (Err err)) = false) as -> by (by destruct c). cbn [counts]. lia.
  - rewrite (waiting_same _ _ _ H). assert (claims_gated x (wf_ev c (Err err)) = false) as -> by (by destruct c).
    cbn [counts]. lia.
Qed.
End Calls.

(** ** Requests

    Runs of the engine and of the sweeper, events of any source, edits of rules and
    decisions by authenticated callers, and the reservations and burns of the other routes
    of a token. *)

Abbreviation wf_log := (list (nat * wf_event)).

Inductive wf_request :=
| run_due
| happens (event : WorkflowEvent)
| author_rule (auth : WorkflowAuth) (tokenId triggerType actionType : string) (body : WorkflowBody)
| edit_rule (auth : WorkflowAuth) (tokenId workflowId : string) (body : WorkflowBody)
| remove_rule (auth : WorkflowAuth) (tokenId workflowId : string)
| decide_run (v : Verb) (auth : WorkflowAuth) (tokenId executionId : string)
| sweep_secrets
| reserve_elsewhere (tokenId : string) (tenant : WfTenant) (deltaBaseUnits : N)
| burnt_elsewhere (tokenId : string) (deltaBaseUnits : N).

Section Requests.
Context {K : WorkflowKit}.
Variable dp : WorkflowDeployment.

Definition serve_workflow (r : wf_request) : wf_prog unit :=
  match r with
  | run_due => runDueWorkflowExecutions dp ;;; Ret tt
  | happens event => dispatchWorkflowEvent event ;;; Ret tt
  | author_rule auth tokenId triggerType actionType body => WorkflowRoutes.createWorkflow dp auth tokenId triggerType actionType body ;;; Ret tt
  | edit_rule auth tokenId workflowId body => WorkflowRoutes.updateWorkflow dp auth tokenId workflowId body ;;; Ret tt
  | remove_rule auth tokenId workflowId => WorkflowRoutes.deleteWorkflow dp auth tokenId workflowId ;;; Ret tt
  | decide_run v auth tokenId executionId => decideWorkflowExecution v auth tokenId executionId ;;; Ret tt
  | sweep_secrets => retireOrphanedActionSecrets dp ;;; Ret tt
  | reserve_elsewhere tokenId tenant delta => ask (ReserveMintSupply tokenId tenant (Z.of_N delta)) ;;; Ret tt
  | burnt_elsewhere tokenId delta => ask (SubtractSupply tokenId (Z.of_N delta))
  end.

Variable text_le : string -> string -> bool.
Variable requests : list wf_request.

(** Some interleaving of the calls of the requests, answered as the tables allow, that
    brings the tables from one state to another. *)
Definition workflow_history (s0 : WorkflowTables) (tr : wf_log) (s : WorkflowTables) : Prop :=
  exists ps, pool_run (wf_answers text_le) s0 (serve_workflow <$> requests) tr s ps.
End Requests.
