(* ===== verification/WorkflowScenario.v ===== *)
(** * Workflows: a platform to compute with

    A token with a rule that mints to the wallet of an approved holder, a kit and an
    environment that answer, and schedules of requests: the rule fires, a person approves
    and the engine mints. Then two behaviours of the statements: a late verdict that lands,
    and a key that is due before its rule commits. *)
From Stdlib Require Import Ascii String ZArith Lia.
From stdpp Require Import base list strings.
From S2P Require Import Prelude Text Dates Pool PolicyTypes PolicyEnforce PolicyService TokenAmount WorkflowTypes WorkflowRoutes WorkflowTables WorkflowCalls.
From S2P Require Import WorkflowEngine WorkflowInvariant.

Local Open Scope string_scope.
Local Open Scope Z_scope.
Local Open Scope list_scope.
Local Open Scope sdp_scope.

Definition demo_url (raw : string) : option ParsedUrl :=
  if String.eqb raw "https://hooks.example.com/in" then Some (mkUrl raw "https:" "hooks.example.com")
  else if String.eqb raw "https://[::ffff:10.0.0.1]/" then Some (mkUrl "https://[::ffff:a00:1]/" "https:" "[::ffff:a00:1]")
  else None.

#[export] Instance demo_workflow_kit : WorkflowKit :=
  mkWorkflowKit (fun a => negb (String.eqb a "")) demo_url (fun location _ => Some location) (fun _ => "{}")
    (fun key body => key ++ body)%string (fun _ => true) "already paused" "not paused".

Definition demo_engine : WorkflowDeployment := mkWorkflowDeployment (fun _ => None) false false.

Definition demo_wf_tenant : WfTenant := mkWfTenant "org" "project".

Definition demo_rule : AssetWorkflowRow :=
  mkRule "rule" demo_wf_tenant "token" "kyc_approved" "mint"
    (mkDefinition None "mint" [("amount", JString "5")] (Some (mkRetryPolicy 5 5)) None) 1 true review_manual None
    "2026-01-01T00:00:00.000Z" "2026-01-01T00:00:00.000Z" None.

(** A supply of 2 of at most 10, with two decimals. *)
Definition demo_wf_tables : WorkflowTables :=
  mkWorkflowTables [demo_rule] [] [] [mkSupply "token" "org" (Some "project") (Some 200) (Some 1000) None] [].

Definition demo_token : Token :=
  mkToken "token" "org" "project" (Some "wallet") (Some "mint") (Some "signer") None None "TKN" (Some 2) "custom" "2" (Some "10")
    true false token_active.

Definition demo_event : WorkflowEvent :=
  mkWorkflowEvent "kyc_approved" demo_wf_tenant "event-1" (Some "token") [("wallet", JString "holder")].

Definition demo_admin : WorkflowAuth := mkWorkflowAuth "admin-key" demo_wf_tenant ["tokens:admin"].

(** What the rest of the platform answers at a time. *)
Definition demo_reply (now : Z) (c : wf_call) : result (wf_answer c) :=
  match c as c return result (wf_answer c) with
  | NowMs => Ok now
  | Random => Ok 0
  | Turn => Ok true
  | GetToken _ _ | GetTokenById _ => Ok (Some demo_token)
  | ActiveAssetProfile _ _ => Ok None
  | CreateOrgSigner _ _ => Ok "signer"
  | CustodyWalletByPublicKey _ _ | PolicyCustodyWallet _ _ => Ok (Some "custody-wallet")
  | PolicyStore c => default_store "2026-01-01T00:00:00.000Z" default_allow c
  | PrepareMint _ _ _ => Ok tt
  | SubmitChain _ _ => Ok (mkChainResult "signature" (Some 7))
  | CreateTokenTransaction _ => Ok "transaction"
  | ConfirmTokenTransaction _ _ _ | AuditSystem _ _ _ | AuditDecision _ _ | DestroyVersion _ _ => Ok tt
  | LookupHost _ => Ok ["93.184.216.34"]
  | Fetch _ _ _ => Ok (mkResponse 200 None)
  | WriteSecret _ _ _ => Ok (mkStored gcp_secret_manager (Some "key") (Some "key/versions/1") None [])
  | NewUuid => Ok (z_text now)
  | _ => Err (PlainError "not asked")
  end.

Definition instant (ms : Z) : string := match toISOString ms with Ok s => s | Err _ => "" end.

Definition demo_serves (now : Z) (c : wf_call) (t : WorkflowTables) : result (wf_answer c) * WorkflowTables :=
  match perform String.leb (instant now) (z_text now) c t with
  | Some (r, t') => (r, t')
  | None => (demo_reply now c, t)
  end.

Abbreviation wf_handler := (forall c, WorkflowTables -> result (wf_answer c) * WorkflowTables).

(** A request's turns, a second apart. *)
Definition wf_turns (i : nat) (start : Z) (n : nat) : list (nat * wf_handler) :=
  map (fun m => (i, demo_serves (start + Z.of_nat m * 1000))) (seq 0 n).

Definition wf_outcome (requests : list wf_request) (turns : list (nat * wf_handler)) : wf_log * WorkflowTables * list (wf_prog unit) :=
  take_turns turns ([], demo_wf_tables, serve_workflow demo_engine <$> requests).

Definition demo_wf_start : Z := 1767225600000.

(** The rule fires, a person approves, the engine runs. *)
Definition demo_requests : list wf_request :=
  [happens demo_event; decide_run verb_approve demo_admin "token" "workflow_execution_1767225601000"; run_due].

Definition demo_schedule : list (nat * wf_handler) :=
  wf_turns 0 demo_wf_start 2 ++ wf_turns 1 (demo_wf_start + 10000) 3 ++ wf_turns 2 (demo_wf_start + 20000) 40.

Definition minted_log : wf_log := (wf_outcome demo_requests demo_schedule).1.1.
Definition minted_tables : WorkflowTables := (wf_outcome demo_requests demo_schedule).1.2.

(** * Lemmas *)

(** Whether a call is a statement is not a matter of the tables. *)
Lemma statement_none text_le now uuid c t now' uuid' t' :
  perform text_le now uuid c t = None -> perform text_le now' uuid' c t' = None.
Proof.
  destruct c; try done; cbn [perform perform_rule perform_token]; unfold answered;
    by match goal with |- (let '(_, _) := ?x in _) = _ -> _ => destruct x end.
Qed.

Lemma serves_allowed now c t : wf_answers String.leb t (wf_ev c (demo_serves now c t).1) (demo_serves now c t).2.
Proof.
  unfold demo_serves. destruct (perform _ _ _ c t) as [[r t']|] eqn:E.
  - eapply answers_statement; [apply others_kept|exact E].
  - apply answers_other; [|apply others_kept]. intros now' id t'. by eapply statement_none.
Qed.

Lemma wf_turns_allowed i start n :
  Forall (fun t => forall c s, wf_answers String.leb s (Ev c (t.2 c s).1) (t.2 c s).2) (wf_turns i start n).
Proof. apply Forall_fmap, Forall_forall. intros m _ c s. apply serves_allowed. Qed.

Lemma turns_history requests turns :
  Forall (fun t => forall c s, wf_answers String.leb s (Ev c (t.2 c s).1) (t.2 c s).2) turns ->
  workflow_history demo_engine String.leb requests demo_wf_tables (wf_outcome requests turns).1.1 (wf_outcome requests turns).1.2.
Proof. intros H. eexists. by apply pool_turns. Qed.

Lemma minted_history : workflow_history demo_engine String.leb demo_requests demo_wf_tables minted_log minted_tables.
Proof. apply turns_history. unfold demo_schedule. rewrite !Forall_app. split_and!; apply wf_turns_allowed. Qed.

Lemma demo_executions_sound : executions_sound (wf_executions demo_wf_tables).
Proof. split; constructor. Qed.

(** The execution succeeds, and its amount is counted. *)
Example minted_in_the_end :
  ((fun r => (we_status r, we_decided_by r)) <$> wf_executions minted_tables) = [(we_succeeded, Some "admin-key")]
  /\ (ts_total_supply_cached <$> wf_supplies minted_tables) = [Some 700].
Proof. vm_compute. split; reflexivity. Qed.

(** A run that outlived its lock settles the row another run holds: its write asks for the
    status alone. *)
Definition demo_delivery : CreateWorkflowExecutionInput :=
  mkCreateExecution demo_wf_tenant "rule" "token" "kyc_approved" "send_webhook" true "event-2" [] 5.

Definition twice_claimed : WorkflowTables :=
  let t := with_executions demo_wf_tables [new_execution (instant demo_wf_start) "delivery" demo_delivery] in
  let t := (claimExecution (instant (demo_wf_start + 1000)) "delivery" t).2 in
  let t := (requeueStaleProcessing String.leb (instant (demo_wf_start + 200000)) (instant (demo_wf_start + 20000)) 25
              APPROVAL_GATED_ACTIONS t).2 in
  (claimExecution (instant (demo_wf_start + 201000)) "delivery" t).2.

Example late_verdict_lands :
  let late := failExecution (instant (demo_wf_start + 202000)) "delivery" "HTTP_410" None twice_claimed in
  let second := completeExecution (instant (demo_wf_start + 203000)) "delivery" [("status", JNumber 200)] late in
  (we_status <$> wf_executions twice_claimed) = [we_processing]
  /\ ((fun r => (we_status r, we_error r)) <$> wf_executions second) = [(we_failed, Some "HTTP_410")].
Proof. vm_compute. split; reflexivity. Qed.

(** A key queued for destruction until its rule commits is due at once. *)
Definition demo_key : StoredCredentialSecret := mkStored gcp_secret_manager (Some "key") (Some "key/versions/1") None [].

Example pending_key_is_due :
  match insertWorkflowSecretRetirement "2026-01-01" "1"
          (retirement_input "org" (Some "rule") demo_key "key/versions/1" "written for a rule that has not committed yet")
          demo_wf_tables with
  | Ok t => (rt_secret_version_ref <$> listDueRetirements String.leb "2026-01-01" 25 t) = ["key/versions/1"]
  | Err _ => False
  end.
Proof. vm_compute. reflexivity. Qed.
