(* ===== verification/WorkflowSafety.v ===== *)
(** * Workflows: what a request may do

    The calls of each request, alone: an action submits at most one operation that cannot
    be undone, and only of an execution its run has claimed; what the engine enqueues,
    puts back and recovers is not an execution a person must decide. What the submission of
    such an operation was checked against, and why a deployment that sponsors through Kora
    submits none. *)
From Stdlib Require Import Ascii String ZArith Lia.
From stdpp Require Import base list strings.
From S2P Require Import Prelude Text Amount Pool History Workers PolicyTypes PolicyEnforce PolicyService TokenAmount WorkflowTypes WorkflowTables WorkflowCalls.
From S2P Require Import WorkflowAllowlist WorkflowSecret WorkflowOnchain WorkflowDelivery WorkflowEngine WorkflowRoutes WorkflowInvariant.

Local Open Scope string_scope.
Local Open Scope list_scope.
Local Open Scope sdp_scope.

(** ** What is counted *)

(** The submission of an operation that cannot be undone, for an execution. *)
Definition submits (x : string) (e : wf_event) : bool :=
  match ev_call e with
  | SubmitChain ctx o => destructive o && String.eqb (execution_id (oc_execution ctx)) x
  | _ => false
  end.

Definition tally (f : wf_event -> bool) (tr : list wf_event) : nat := length (List.filter f tr).

(** What a call of a request that is no decision may rest on: the claims before it. *)
Definition orderly (ctx : list wf_event) (e : wf_event) : Prop :=
  (forall x, tally (submits x) (ctx ++ [e]) <= tally (claims_gated x) (ctx ++ [e]))%nat
  /\ match ev_call e with
     | CreateExecution i => ce_pending i = true -> requires_approval (ce_actionType i) = false
     | RequeueStale _ _ types => types = APPROVAL_GATED_ACTIONS
     | RescheduleExecution id _ _ =>
         exists id' r, wf_ev (ClaimExecution id') (Ok (Some r)) ∈ ctx /\ execution_id r = id
           /\ requires_approval (execution_action r) = false
     | DecideExecution _ _ => False
     | ReserveMintSupply _ _ delta | SubtractSupply _ delta => (0 <= delta)%Z
     | _ => True
     end.

(** Every call of a run is orderly. *)
Definition run_orderly (tr : list wf_event) : Prop := forall pre e post, tr = pre ++ e :: post -> orderly pre e.

Definition orderly_prog {A} (m : wf_prog A) : Prop := all_runs m (fun tr _ => run_orderly tr).

(** ** Lemmas *)

Lemma tally_app f l1 l2 : tally f (l1 ++ l2) = (tally f l1 + tally f l2)%nat.
Proof. unfold tally. by rewrite List.filter_app, length_app. Qed.

Lemma tally_cons f e l : tally f (e :: l) = (counts (f e) + tally f l)%nat.
Proof. unfold tally. cbn. by destruct (f e). Qed.

Lemma orderly_total tr x : run_orderly tr -> (tally (submits x) tr <= tally (claims_gated x) tr)%nat.
Proof.
  destruct tr as [|e tr _] using rev_ind; intros H; [done|]. by apply (H tr e []).
Qed.

Lemma run_orderly_prefix tr1 tr2 : run_orderly (tr1 ++ tr2) -> run_orderly tr1.
Proof. intros H pre e post ->. apply (H pre e (post ++ tr2)). by rewrite <- app_assoc. Qed.

(** What is orderly is so among more calls, themselves orderly. *)
Lemma orderly_more ctx ctx' e :
  orderly ctx e -> (forall y, y ∈ ctx -> y ∈ ctx') ->
  (forall x, tally (submits x) ctx' + tally (claims_gated x) ctx <= tally (claims_gated x) ctx' + tally (submits x) ctx)%nat ->
  orderly ctx' e.
Proof.
  intros [Ht Hc] Hin Hx. split.
  - intros x. specialize (Ht x). specialize (Hx x). rewrite !tally_app in *. lia.
  - destruct (ev_call e); try done. destruct Hc as (id' & r & Hr & Hc). exists id', r. split; [by apply Hin|done].
Qed.

Lemma run_orderly_app tr1 tr2 : run_orderly tr1 -> run_orderly tr2 -> run_orderly (tr1 ++ tr2).
Proof.
  intros H1 H2 pre e post E.
  apply app_eq_inv in E as [(k & -> & E)|(k & -> & E)].
  - destruct k as [|y k]; cbn in E.
    + subst tr2. rewrite !app_nil_r in *. apply (orderly_more [] pre).
      * by apply (H2 [] e post).
      * intros y Hy. by apply elem_of_nil in Hy.
      * intros x. pose proof (orderly_total pre x H1). cbn. lia.
    + injection E as <- ->. by apply (H1 pre e k).
  - apply (orderly_more k (tr1 ++ k)).
    + by apply (H2 k e post).
    + intros y Hy. apply elem_of_app. by right.
    + intros x. pose proof (orderly_total tr1 x H1). rewrite !tally_app. lia.
Qed.

Lemma orderly_ret {A} (a : A) : orderly_prog (Ret a).
Proof. intros pre e post E. by destruct pre. Qed.

Lemma orderly_throw {A} e : orderly_prog (Throw (A := A) e).
Proof. intros pre e' post E. by destruct pre. Qed.

Lemma orderly_of_result {A} (r : result A) : orderly_prog (of_result r).
Proof. destruct r; [apply orderly_ret|apply orderly_throw]. Qed.

Lemma orderly_bind {A B} (m : wf_prog A) (f : A -> wf_prog B) :
  orderly_prog m -> (forall a, orderly_prog (f a)) -> orderly_prog (bind m f).
Proof.
  intros Hm Hf. unfold orderly_prog. rewrite all_runs_bind. eapply all_runs_mono; [|exact Hm].
  intros tr [a|e] H; [|done]. eapply all_runs_mono; [|apply Hf]. intros. by apply run_orderly_app.
Qed.

(** The calls that owe nothing to a claim. *)
Definition plain (c : wf_call) : Prop :=
  match c with
  | SubmitChain _ o => destructive o = false
  | CreateExecution i => ce_pending i = true -> requires_approval (ce_actionType i) = false
  | RequeueStale _ _ types => types = APPROVAL_GATED_ACTIONS
  | RescheduleExecution _ _ _ | DecideExecution _ _ => False
  | ReserveMintSupply _ _ delta | SubtractSupply _ delta => (0 <= delta)%Z
  | _ => True
  end.

Lemma plain_submits x e : plain (ev_call e) -> submits x e = false.
Proof. unfold submits, plain. destruct (ev_call e); try done. by intros ->. Qed.

Lemma plain_tally x tr : Forall (fun e => plain (ev_call e)) tr -> tally (submits x) tr = O.
Proof.
  induction 1 as [|e tr He _ IH]; [done|]. by rewrite tally_cons, IH, plain_submits.
Qed.

Lemma plain_orderly {A} (m : wf_prog A) : calls_within plain m -> orderly_prog m.
Proof.
  apply all_runs_mono. intros tr _ H pre e post ->. rewrite Forall_app, Forall_cons in H. destruct H as (H1 & H2 & _).
  split.
  - intros x. rewrite tally_app, (plain_tally x pre H1), tally_cons, plain_submits by done. cbn. lia.
  - unfold plain in H2. by destruct (ev_call e).
Qed.

(** ** A claimed execution *)

(** The calls of the run of a claimed execution. *)
Definition of_claim (r : WorkflowExecutionRow) (c : wf_call) : Prop :=
  match c with
  | CreateExecution _ | RequeueStale _ _ _ | DecideExecution _ _ => False
  | RescheduleExecution id _ _ => id = execution_id r /\ requires_approval (execution_action r) = false
  | ReserveMintSupply _ _ delta | SubtractSupply _ delta => (0 <= delta)%Z
  | _ => True
  end.

(** A part of that run submits at most [n] operations that cannot be undone, all of this
    execution. *)
Definition spends (r : WorkflowExecutionRow) (n : nat) {A} (m : wf_prog A) (Q : A -> Prop) : Prop :=
  all_runs m (fun tr res =>
    (forall x, tally (submits x) tr <= if String.eqb (execution_id r) x then n else 0)%nat
    /\ Forall (fun e => of_claim r (ev_call e)) tr /\ forall a, res = Ok a -> Q a).

Lemma spends_mono r n n' {A} (m : wf_prog A) (Q Q' : A -> Prop) :
  (n <= n')%nat -> (forall a, Q a -> Q' a) -> spends r n m Q -> spends r n' m Q'.
Proof.
  intros Hn HQ. apply all_runs_mono. intros tr res (Ht & Hc & Hq). split_and!; [|done|by auto].
  intros x. specialize (Ht x). destruct (String.eqb _ x); lia.
Qed.

Lemma spends_ret r {A} (a : A) (Q : A -> Prop) : Q a -> spends r 0 (Ret a) Q.
Proof. intros H. split_and!; [intros x; cbn; lia|done|by intros b [= <-]]. Qed.

Lemma spends_bind r n1 n2 {A B} (m : wf_prog A) (f : A -> wf_prog B) Q1 Q2 :
  spends r n1 m Q1 -> (forall a, Q1 a -> spends r n2 (f a) Q2) -> spends r (n1 + n2) (bind m f) Q2.
Proof.
  intros Hm Hf. unfold spends. rewrite all_runs_bind. eapply all_runs_mono; [|exact Hm].
  intros tr [a|e] (Ht & Hc & Hq).
  - eapply all_runs_mono; [|apply (Hf a), Hq; done]. intros tr' res (Ht' & Hc' & Hq'). split_and!; [|by apply Forall_app_2|done].
    intros x. specialize (Ht x). specialize (Ht' x). rewrite tally_app. destruct (String.eqb _ x); lia.
  - split_and!; [|done|done]. intros x. specialize (Ht x). destruct (String.eqb _ x); lia.
Qed.

Lemma spends_catch r n1 n2 {A} (m : wf_prog A) h (Q : A -> Prop) :
  spends r n1 m Q -> (forall e, spends r n2 (h e) Q) -> spends r (n1 + n2) (catch m h) Q.
Proof.
  intros Hm Hf. unfold spends. rewrite all_runs_catch. eapply all_runs_mono; [|exact Hm].
  intros tr [a|e] (Ht & Hc & Hq).
  - split_and!; [|done|done]. intros x. specialize (Ht x). destruct (String.eqb _ x); lia.
  - eapply all_runs_mono; [|apply (Hf e)]. intros tr' res (Ht' & Hc' & Hq'). split_and!; [|by apply Forall_app_2|done].
    intros x. specialize (Ht x). specialize (Ht' x). rewrite tally_app. destruct (String.eqb _ x); lia.
Qed.

(** The calls that submit nothing that cannot be undone, put nothing back and decide nothing. *)
Definition harmless (c : wf_call) : Prop :=
  match c with
  | SubmitChain _ o => destructive o = false
  | CreateExecution _ | RequeueStale _ _ _ | RescheduleExecution _ _ _ | DecideExecution _ _ => False
  | ReserveMintSupply _ _ delta | SubtractSupply _ delta => (0 <= delta)%Z
  | _ => True
  end.

(** The calls of a claimed execution but the submissions that cannot be undone. *)
Definition mild (r : WorkflowExecutionRow) (c : wf_call) : Prop :=
  of_claim r c /\ match c with SubmitChain _ o => destructive o = false | _ => True end.

Lemma spends_mild r {A} (m : wf_prog A) : calls_within (mild r) m -> spends r 0 m (fun _ => True).
Proof.
  apply all_runs_mono. intros tr res H. split_and!; [| |done].
  - intros x. assert (tally (submits x) tr = O) as ->; [|by destruct (String.eqb _ x)].
    induction H as [|e tr [_ He] _ IH]; [done|]. rewrite tally_cons, IH.
    assert (submits x e = false) as -> by (unfold submits; destruct (ev_call e); try done; by rewrite He). done.
  - eapply Forall_impl; [exact H|]. by intros e [He _].
Qed.

Lemma harmless_mild r {A} (m : wf_prog A) : calls_within harmless m -> calls_within (mild r) m.
Proof.
  apply all_runs_mono. intros tr res H. eapply Forall_impl; [exact H|]. intros e He. unfold harmless, mild, of_claim in *.
  by destruct (ev_call e).
Qed.

Lemma spends_harmless r {A} (m : wf_prog A) : calls_within harmless m -> spends r 0 m (fun _ => True).
Proof. intros H. by apply spends_mild, harmless_mild. Qed.

Lemma spends_submit r ctx o : oc_execution ctx = r -> spends r 1 (chain ctx o) (fun _ => True).
Proof.
  intros E a. assert (forall x, (tally (submits x) [wf_ev (SubmitChain ctx o) a]
      <= if String.eqb (execution_id r) x then 1 else 0)%nat) as H.
  { intros x. rewrite tally_cons. unfold submits. cbn [ev_call wf_ev tally List.filter length]. rewrite E.
    destruct (destructive o), (String.eqb _ x); cbn; lia. }
  destruct a; split_and!; try done; by constructor.
Qed.

(** ** Harmless programs *)

Lemma within_ask (P : wf_call -> Prop) c : P c -> calls_within P (ask c).
Proof. exact (within_call P c). Qed.

Lemma within_settled {A} (P : wf_call -> Prop) (m : wf_prog A) : calls_within P m -> calls_within P (settled m).
Proof.
  intros H. apply within_catch; [|intros e; apply within_ret]. apply within_bind; [done|]. intros a. apply within_ret.
Qed.

Ltac harmless_calls :=
  unfold settled, failing, need, step, answer_of, mem, auditTerminal, mirrored, affected;
  repeat (progress (within_calls; try done;
    try match goal with
    | |- calls_within _ (let _ := _ in _) => cbv zeta
    | |- calls_within _ (ask ?c) => apply within_ask
    | |- calls_within _ (match ?x with _ => _ end) => destruct x
    | |- calls_within _ (let '(_, _) := ?x in _) => destruct x
    end)).

Lemma policy_store_within {A} (P : wf_call -> Prop) (m : store_prog A) :
  (forall c, P (PolicyStore c)) -> calls_within P (with_policy_store m).
Proof.
  intros HP. induction m as [a|e|c k IH]; cbn [with_policy_store]; [apply within_ret|apply within_throw|].
  apply within_step; [apply HP|done].
Qed.

Section Actions.
Context {K : WorkflowKit}.
Variable dp : WorkflowDeployment.

Lemma resolve_signer_harmless x token a : calls_within harmless (resolveSignerForAuthority x token a).
Proof. unfold resolveSignerForAuthority, build_signer, lookupCustodyWallet. harmless_calls. Qed.

Lemma prepare_harmless r a : calls_within harmless (prepareOnchain dp r a).
Proof. unfold prepareOnchain. harmless_calls; apply resolve_signer_harmless. Qed.

(** The context an action is given names its execution. *)
Lemma prepare_spends r a :
  spends r 0 (prepareOnchain dp r a) (fun c => forall ctx, c = inr ctx -> oc_execution ctx = r).
Proof.
  pose proof (spends_harmless r (prepareOnchain dp r a)) as H.
  assert (yields (prepareOnchain dp r a) (fun _ c => forall ctx, c = inr ctx -> oc_execution ctx = r)) as Hy.
  { unfold prepareOnchain, step, need.
    apply yields_any. intros token tr. apply yields_any. intros [s|token'] tr1; [by apply yields_ret|].
    apply yields_any. intros [s|mint] tr2; [by apply yields_ret|].
    apply yields_any. intros [s|decimals] tr2'; [by apply yields_ret|].
    apply yields_any. intros [s|resolved] tr3; [by apply yields_ret|].
    apply yields_any. intros _ tr4. apply yields_any. intros address tr5. apply yields_ret.
    intros ctx E. by injection E as <-. }
  unfold yields in Hy. eapply all_runs_mono; [|apply (all_runs_and _ _ _ (H (prepare_harmless r a)) Hy)].
  by intros tr res [(H1 & H2 & _) H3].
Qed.

Lemma record_harmless r type params signature slot : calls_within harmless (recordWorkflowTransaction r type params signature slot).
Proof. unfold recordWorkflowTransaction. harmless_calls. Qed.

Lemma policy_call_harmless ctx op amount destination : calls_within harmless (preflightWalletPolicy ctx op amount destination).
Proof. unfold preflightWalletPolicy. harmless_calls; by apply policy_store_within. Qed.

Lemma destination_harmless ctx destination : calls_within harmless (preflightDestinationAllowed ctx destination).
Proof. unfold preflightDestinationAllowed. harmless_calls. Qed.

Lemma mirror_supply_harmless tokenId amount : calls_within harmless (mirrorSupply tokenId amount).
Proof.
  unfold mirrorSupply. apply within_catch; [|intros; apply within_ret]. apply within_bind; [by apply within_ask|].
  intros [token|]; [|apply within_throw].
  destruct (SolanaAmount.parseDecimalAmount _ _) as [delta|e] eqn:Ed; [|apply within_throw]. cbn [of_result bind].
  apply parseDecimalAmount_nonneg in Ed. apply within_bind; [by apply within_ask|]. intros. apply within_ret.
Qed.

Lemma supply_succeeded_harmless r result m type params : calls_within harmless (supplySucceeded r result m type params).
Proof. unfold supplySucceeded. harmless_calls; apply record_harmless. Qed.

(** A step keeps what its parts spend. *)
Lemma spends_step r n1 n2 {A B} (m : wf_prog (ActionExecutionResult + A)) (k : A -> wf_prog (ActionExecutionResult + B)) Q1 Q2 :
  spends r n1 m Q1 -> (forall s, Q2 (inl s)) -> (forall a, Q1 (inr a) -> spends r n2 (k a) Q2) ->
  spends r (n1 + n2) (step m k) Q2.
Proof.
  intros Hm Hs Hk. eapply spends_bind; [exact Hm|]. intros [s|a] Ha; [|by apply Hk].
  eapply spends_mono; [|done|by apply spends_ret, Hs]. lia.
Qed.

Definition anything {A} (_ : A) : Prop := True.

Lemma spends_then r n {A B} (m : wf_prog (ActionExecutionResult + A)) (k : A -> wf_prog (ActionExecutionResult + B)) :
  calls_within harmless m -> (forall a, spends r n (k a) anything) -> spends r n (step m k) anything.
Proof.
  intros Hm Hk. change n with (0 + n)%nat. eapply spends_step; [by apply spends_harmless|done|]. intros a _. apply Hk.
Qed.

Lemma spends_answer r n m : spends r n m anything -> spends r n (answer_of m) anything.
Proof.
  intros H. rewrite <- (Nat.add_0_r n). eapply spends_bind; [exact H|]. intros a _. by apply spends_ret.
Qed.

Lemma spends_failing r n {A} (m : wf_prog A) : spends r n m anything -> spends r n (failing m) anything.
Proof.
  intros H. unfold failing, settled. rewrite <- (Nat.add_0_r n). apply spends_bind with (Q1 := anything).
  - rewrite <- (Nat.add_0_r n). apply spends_catch; [|intros e; by apply spends_ret].
    rewrite <- (Nat.add_0_r n). eapply spends_bind; [exact H|]. intros a _. by apply spends_ret.
  - intros a _. by apply spends_ret.
Qed.

(** A submission at the end of what is harmless. *)
Lemma spends_last r ctx {A} (m : wf_prog A) (o : A -> ChainOperation) :
  oc_execution ctx = r -> calls_within harmless m ->
  spends r 1 (let! a := m in chain ctx (o a)) anything.
Proof.
  intros E H. change 1%nat with (0 + 1)%nat. eapply spends_bind; [by apply spends_harmless|].
  intros a _. by apply spends_submit.
Qed.

(** What follows a submission. *)
Lemma spends_after r n {A B} (m : wf_prog (ActionExecutionResult + A)) (k : A -> wf_prog (ActionExecutionResult + B)) :
  spends r n m anything -> (forall a, calls_within harmless (k a)) -> spends r n (step m k) anything.
Proof.
  intros Hm Hk. rewrite <- (Nat.add_0_r n). eapply spends_step; [exact Hm|done|]. intros a _. by apply spends_harmless.
Qed.

(** An action: its preamble, then what spends one submission of its execution. *)
Lemma spends_prepared r a (k : OnchainContext -> wf_prog (ActionExecutionResult + ActionExecutionResult)) :
  (forall ctx, oc_execution ctx = r -> spends r 1 (k ctx) anything) ->
  spends r 1 (answer_of (step (prepareOnchain dp r a) k)) anything.
Proof.
  intros H. apply spends_answer. change 1%nat with (0 + 1)%nat. eapply spends_step; [apply prepare_spends|done|].
  intros ctx Hc. by apply H, Hc.
Qed.

Ltac harmless_step := apply spends_then; [|intros ?]; [first [apply policy_call_harmless|apply destination_harmless|harmless_calls]|].

Lemma spends_need r n {A B} (o : option A) error (k : A -> wf_prog (ActionExecutionResult + B)) :
  (forall a, o = Some a -> spends r n (k a) anything) -> spends r n (step (need o error) k) anything.
Proof.
  intros H. destruct o as [a|]; [by apply (H a)|].
  apply (spends_mono r 0 n _ anything anything); [lia|done|by apply spends_ret].
Qed.

Lemma positive_units amountStr decimals units amount :
  parsePositiveTokenAmount amountStr decimals = Ok (units, amount) -> (0 <= units)%Z.
Proof.
  unfold parsePositiveTokenAmount. destruct (invalid_amount _) as [u|]; [|done]. cbn [result_bind].
  destruct (Z.leb_spec u 0); [done|]. destruct (invalid_amount _); [|done]. intros [= <- <-]. lia.
Qed.

Lemma parsed_units action decimals amountStr units amount :
  parseAmount action decimals = Some (amountStr, units, amount) -> (0 <= units)%Z.
Proof.
  unfold parseAmount. destruct (param action "amount") as [s|]; [|done].
  destruct (parsePositiveTokenAmount s decimals) as [[u a]|] eqn:Ep; [|done]. intros [= <- <- <-]. by eapply positive_units.
Qed.

Lemma mint_spends r action : spends r 1 (runMint dp r action) anything.
Proof.
  apply spends_prepared. intros ctx E. do 2 harmless_step.
  apply spends_need. intros [[amount units] number] Hunits%parsed_units.
  do 3 harmless_step. apply spends_after.
  - apply spends_failing. unfold mintTo, reserve_mint. change 1%nat with (0 + (0 + 1))%nat.
    eapply spends_bind; [apply spends_harmless; harmless_calls|]. intros _ _.
    eapply spends_bind; [apply spends_harmless; harmless_calls|]. intros _ _. by apply spends_submit.
  - intros result. harmless_calls; apply supply_succeeded_harmless.
Qed.

Lemma burn_spends r action : spends r 1 (runBurn dp r action) anything.
Proof.
  apply spends_prepared. intros ctx E. apply spends_then; [harmless_calls|]. intros [[amount units] number]. harmless_step.
  apply spends_after.
  - apply spends_failing, spends_last; [done|]. harmless_calls.
  - intros result. apply within_bind; [apply mirror_supply_harmless|]. intros m. harmless_calls; apply supply_succeeded_harmless.
Qed.

Lemma force_burn_spends r action : spends r 1 (runForceBurn dp r action) anything.
Proof.
  apply spends_prepared. intros ctx E. do 2 harmless_step. apply spends_then; [harmless_calls|]. intros [[amount units] number].
  harmless_step. apply spends_after.
  - by apply spends_failing, spends_submit.
  - intros result. apply within_bind; [apply mirror_supply_harmless|]. intros m. harmless_calls; apply supply_succeeded_harmless.
Qed.

Lemma seize_spends r action : spends r 1 (runSeize dp r action) anything.
Proof.
  apply spends_prepared. intros ctx E. do 2 harmless_step. apply spends_then; [harmless_calls|]. intros [source destination].
  apply spends_then; [harmless_calls|]. intros [[amount units] number]. do 2 harmless_step. apply spends_after.
  - apply spends_failing. rewrite <- (Nat.add_0_r 1). eapply spends_bind; [by apply spends_submit|].
    intros result _. apply spends_harmless. harmless_calls; apply record_harmless.
  - intros result. harmless_calls.
Qed.

Lemma lifecycle_harmless r result type params m : calls_within harmless (lifecycleSucceeded r result type params m).
Proof. unfold lifecycleSucceeded. harmless_calls; apply record_harmless. Qed.

Lemma chain_harmless ctx o : destructive o = false -> calls_within harmless (chain ctx o).
Proof. intros H. by apply within_ask. Qed.

Lemma status_harmless o status already flag type r :
  destructive o = false -> calls_within harmless (converge_status dp o status already flag type r).
Proof.
  intros H. unfold converge_status. harmless_calls; first [apply prepare_harmless|by apply chain_harmless|apply lifecycle_harmless].
Qed.

Lemma account_harmless freezing r action : calls_within harmless (converge_account dp freezing r action).
Proof.
  unfold converge_account, mirrorFreeze, mirrorUnfreeze. destruct freezing; harmless_calls; try apply prepare_harmless; try apply lifecycle_harmless;
    by apply chain_harmless.
Qed.

Lemma add_entry_harmless i label addedBy : calls_within harmless (addAndSyncAllowlistEntry dp i label addedBy).
Proof.
  unfold addAndSyncAllowlistEntry, addAllowlistEntry, insertNewAllowlistEntry, syncNewAllowlistEntryOnChain. harmless_calls.
Qed.

Lemma remove_entry_harmless i : calls_within harmless (removeAndSyncAllowlistEntry dp i).
Proof. unfold removeAndSyncAllowlistEntry, removeAllowlistEntryOnChain. harmless_calls. Qed.

Lemma deliver_within (P : wf_call -> Prop) hops current headers body :
  (forall host, P (LookupHost host)) -> (forall url headers body, P (Fetch url headers body)) ->
  calls_within P (deliver hops current headers body).
Proof.
  intros Hl Hf. revert current. induction hops as [|hops IH]; intros current; cbn [deliver]; unfold resolveWebhookUrl;
    harmless_calls; apply IH.
Qed.

Lemma send_all_within (P : wf_call -> Prop) emails title body :
  (forall to s b, P (SendEmail to s b)) -> calls_within P (send_all emails title body).
Proof. intros Hs. induction emails as [|to rest IH]; cbn [send_all]; harmless_calls. Qed.

Lemma webhook_harmless r action : calls_within harmless (runSendWebhook dp r action).
Proof.
  unfold runSendWebhook, readActionSecret. generalize MAX_REDIRECTS. intros hops. harmless_calls; by apply deliver_within.
Qed.

Lemma notify_harmless r action : calls_within harmless (runNotify dp r action).
Proof. unfold runNotify, notify_address, notify_audience. harmless_calls; by apply send_all_within. Qed.

Lemma gated_types type : requires_approval type = false ->
  type <> "mint" /\ type <> "burn" /\ type <> "force_burn" /\ type <> "seize".
Proof. intros H. split_and!; intros ->; vm_compute in H; discriminate. Qed.

Lemma allowlist_add_harmless r action : calls_within harmless (runAllowlistAdd dp r action).
Proof.
  unfold runAllowlistAdd. destruct (target_of r action); [|apply within_ret].
  apply within_bind; [apply add_entry_harmless|]. intros. apply within_ret.
Qed.

Lemma allowlist_remove_harmless r action : calls_within harmless (runAllowlistRemove dp r action).
Proof.
  unfold runAllowlistRemove. destruct (target_of r action); [|apply within_ret].
  apply within_bind; [apply remove_entry_harmless|]. intros. apply within_ret.
Qed.

Ltac harmless_action :=
  match goal with
  | |- calls_within _ (runAllowlistAdd _ _ _) => apply allowlist_add_harmless
  | |- calls_within _ (runAllowlistRemove _ _ _) => apply allowlist_remove_harmless
  | |- calls_within _ (runPause _ _) => by apply status_harmless
  | |- calls_within _ (runUnpause _ _) => by apply status_harmless
  | |- calls_within _ (runFreeze _ _ _) => apply account_harmless
  | |- calls_within _ (runUnfreeze _ _ _) => apply account_harmless
  | |- calls_within _ (runSendWebhook _ _ _) => apply webhook_harmless
  | |- calls_within _ (runNotify _ _ _) => apply notify_harmless
  | |- calls_within _ (Ret _) => apply within_ret
  end.

Lemma dispatch_harmless r action :
  execution_action r <> "mint" -> execution_action r <> "burn" -> execution_action r <> "force_burn" ->
  execution_action r <> "seize" -> calls_within harmless (dispatchWorkflowAction dp r action).
Proof.
  intros E1 E2 E3 E4. unfold dispatchWorkflowAction.
  repeat match goal with |- context [String.eqb ?a ?b] => destruct (String.eqb_spec a b); [try done|] end; harmless_action.
Qed.

(** An action submits what cannot be undone once at most, and only one that a person
    must decide does. *)
Lemma dispatch_spends r action :
  spends r (counts (requires_approval (execution_action r))) (dispatchWorkflowAction dp r action) anything.
Proof.
  unfold dispatchWorkflowAction. destruct (requires_approval (execution_action r)) eqn:Eg; cbn [counts].
  - assert (forall m : wf_prog ActionExecutionResult, calls_within harmless m -> spends r 1 m anything) as Hh
      by (intros m Hm; eapply spends_mono; [|done|by apply spends_harmless]; lia).
    repeat match goal with |- context [String.eqb ?a ?b] => destruct (String.eqb a b) end;
      match goal with
      | |- spends _ _ (runMint _ _ _) _ => apply mint_spends
      | |- spends _ _ (runBurn _ _ _) _ => apply burn_spends
      | |- spends _ _ (runForceBurn _ _ _) _ => apply force_burn_spends
      | |- spends _ _ (runSeize _ _ _) _ => apply seize_spends
      | |- _ => apply Hh; harmless_action
      end.
  - apply gated_types in Eg as (E1 & E2 & E3 & E4). by apply spends_harmless, dispatch_harmless.
Qed.

(** ** A deployment that sponsors through Kora *)

Definition off_chain (c : wf_call) : Prop := match c with SubmitChain _ _ => False | _ => True end.

Lemma off_chain_guarded {A} ctx (m : wf_prog A) : calls_within off_chain m -> guarded (fun _ e => off_chain (ev_call e)) ctx m.
Proof. intros H. by eapply calls_unguarded. Qed.

Lemma prepare_off_chain r a : calls_within off_chain (prepareOnchain dp r a).
Proof. unfold prepareOnchain, resolveSignerForAuthority, build_signer, lookupCustodyWallet. harmless_calls. Qed.

Lemma prepare_kora r a : wd_kora dp = true -> yields (prepareOnchain dp r a) (fun _ c => forall oc, c <> inr oc).
Proof.
  intros Hk. unfold prepareOnchain, step, need.
  apply yields_any. intros token tr. apply yields_any. intros [s|token'] tr1; [by apply yields_ret|].
  apply yields_any. intros [s|mint] tr2; [by apply yields_ret|].
  apply yields_any. intros [s|decimals] tr2'; [by apply yields_ret|].
  apply yields_any. intros [s|resolved] tr3; [by apply yields_ret|].
  unfold createMosaicService. rewrite Hk. apply yields_throw.
Qed.

Lemma kora_stops ctx r a (k : OnchainContext -> wf_prog (ActionExecutionResult + ActionExecutionResult)) :
  wd_kora dp = true ->
  guarded (fun _ e => off_chain (ev_call e)) ctx (answer_of (step (prepareOnchain dp r a) k)).
Proof.
  intros Hk. apply guarded_any; [|intros; apply guarded_ret].
  eapply guarded_bind; [apply off_chain_guarded, prepare_off_chain|by apply prepare_kora|].
  intros tr [s|oc] Hc; [apply guarded_ret|by destruct (Hc oc)].
Qed.

(** [createMosaicService] is given no scope, so nothing an action prepares is ever
    submitted there. *)
Lemma kora_submits_nothing r action :
  wd_kora dp = true -> guarded (fun _ e => off_chain (ev_call e)) [] (dispatchWorkflowAction dp r action).
Proof.
  intros Hk. unfold dispatchWorkflowAction.
  repeat match goal with |- context [String.eqb ?a ?b] => destruct (String.eqb a b) end;
    first [by apply kora_stops|apply off_chain_guarded; unfold runAllowlistAdd, runAllowlistRemove, addAndSyncAllowlistEntry,
      removeAndSyncAllowlistEntry, addAllowlistEntry, insertNewAllowlistEntry, syncNewAllowlistEntryOnChain,
      removeAllowlistEntryOnChain, runSendWebhook, readActionSecret, runNotify, notify_address, notify_audience;
      generalize MAX_REDIRECTS; intros; harmless_calls; by first [apply deliver_within|apply send_all_within]].
Qed.
(** ** The run of a claimed execution *)

Lemma settle_failed_mild r error res : calls_within (mild r) (settle_failed r error res).
Proof. apply harmless_mild. unfold settle_failed. harmless_calls. Qed.

Lemma settle_retried_mild now r error retryAfter :
  requires_approval (execution_action r) = false -> calls_within (mild r) (settle_retried now r error retryAfter).
Proof.
  intros Hg. unfold settle_retried. apply within_bind; [apply harmless_mild; unfold nextAttemptIso; harmless_calls|].
  intros next. apply within_bind; [|intros _; apply harmless_mild; harmless_calls].
  apply within_ask. by split.
Qed.

Lemma settle_thrown_mild now r retryAfter e : calls_within (mild r) (settle_thrown now r retryAfter e).
Proof.
  unfold settle_thrown. destruct (requires_approval (execution_action r)) eqn:Eg; [apply settle_failed_mild|]. cbn [orb].
  destruct (exhausted r); [apply settle_failed_mild|by apply settle_retried_mild].
Qed.

Lemma settle_outcome_mild now r retryAfter a : calls_within (mild r) (settle_outcome now r retryAfter a).
Proof.
  unfold settle_outcome. destruct (ar_succeeded a); [apply harmless_mild; harmless_calls|].
  destruct (requires_approval (execution_action r)) eqn:Eg; [apply settle_failed_mild|]. cbn [orb].
  destruct (_ || _); [apply settle_failed_mild|by apply settle_retried_mild].
Qed.

Lemma gate_harmless tenant tokenId : calls_within harmless (resolveAssetGateContext tenant tokenId).
Proof. unfold resolveAssetGateContext. harmless_calls. Qed.

Lemma guard_harmless r : calls_within harmless (guardExecution r).
Proof. unfold guardExecution, loadRule, loadGate. harmless_calls; apply gate_harmless. Qed.

Lemma run_claimed_spends now r : spends r (counts (requires_approval (execution_action r))) (run_claimed dp now r) anything.
Proof.
  set (n := counts _). unfold run_claimed. change n with (0 + n)%nat. eapply spends_bind.
  { apply spends_harmless, within_settled, guard_harmless. }
  assert (forall m : wf_prog unit, calls_within (mild r) m -> spends r n m anything) as Hm
    by (intros m Hm; eapply spends_mono; [|done|by apply spends_mild]; lia).
  intros [[reason|g]|e] _.
  - apply Hm, within_catch; [apply settle_failed_mild|]. intros e. apply settle_thrown_mild.
  - rewrite <- (Nat.add_0_r n). apply spends_catch; [|intros e; apply spends_mild, settle_thrown_mild].
    rewrite <- (Nat.add_0_r n). eapply spends_bind; [apply dispatch_spends|].
    intros a _. apply spends_mild, settle_outcome_mild.
  - apply Hm, settle_thrown_mild.
Qed.

(** A run that spends what its claim allows is orderly. *)
Lemma claimed_orderly id r tr :
  (forall x, tally (submits x) tr <= if String.eqb (execution_id r) x then counts (requires_approval (execution_action r)) else 0)%nat ->
  Forall (fun e => of_claim r (ev_call e)) tr -> run_orderly (wf_ev (ClaimExecution id) (Ok (Some r)) :: tr).
Proof.
  intros Ht Hc [|y pre] e post E; injection E as <- ->.
  - split; [intros x; cbn; lia|done].
  - split.
    + intros x. specialize (Ht x). rewrite tally_app, tally_cons in Ht. rewrite <- app_comm_cons, !tally_cons, !tally_app, !tally_cons.
      cbn [submits claims_gated ev_call ev_resp wf_ev]. change (tally (submits x) []) with O.
      destruct (String.eqb (execution_id r) x); cbn [andb counts]; lia.
    + apply Forall_app in Hc as [_ [He _]%Forall_cons]. unfold of_claim in He. destruct (ev_call e); try done.
      destruct He as [-> Hg]. exists id, r. split; [by left|done].
Qed.

Lemma process_orderly now row : orderly_prog (processDueExecution dp now row).
Proof.
  unfold processDueExecution, orderly_prog. intros a. destruct a as [[r|]|e]; cbn [bind call].
  - eapply all_runs_mono; [|apply run_claimed_spends]. intros tr res (Ht & Hc & _). by apply claimed_orderly.
  - intros [|y pre] e post E; [|by destruct pre]. injection E as <- <-. split; [intros x; cbn; lia|done].
  - intros [|y pre] e' post E; [|by destruct pre]. injection E as <- <-. split; [intros x; cbn; lia|done].
Qed.

Lemma plain_one (c : wf_call) : plain c -> orderly_prog (ask c).
Proof. intros H. by apply plain_orderly, within_ask. Qed.

Lemma worker_orderly rows now : orderly_prog (worker dp rows now).
Proof.
  induction rows as [|rows IH]; [apply orderly_ret|]. cbn [worker].
  apply orderly_bind; [by apply plain_one|]. intros [row|]; [|apply orderly_ret].
  apply orderly_bind; [apply process_orderly|]. intros _. apply IH.
Qed.

(** *** Several workers *)

Lemma tally_merges f l1 l2 l :
  (forall e, is_turn Turn e -> f e = false) -> merges (is_turn Turn) l1 l2 l -> tally f l = (tally f l1 + tally f l2)%nat.
Proof.
  intros Hf. apply merges_sum; [|done|].
  - intros e l'. rewrite (tally_cons f e l'), (tally_cons f e []). cbn. lia.
  - intros e He. rewrite tally_cons, (Hf e He). done.
Qed.

Lemma turn_neither x e : is_turn Turn e -> submits x e = false /\ claims_gated x e = false.
Proof. destruct e as [c r]. unfold is_turn. cbn. intros ->. done. Qed.

Lemma merged_orderly l1 l2 l : run_orderly l1 -> run_orderly l2 -> merges (is_turn Turn) l1 l2 l -> run_orderly l.
Proof.
  intros H1 H2 H pre e post ->. apply merges_split in H as (p1 & q1 & p2 & q2 & Hm & Hc).
  assert (forall x, tally (submits x) pre = tally (submits x) p1 + tally (submits x) p2
    /\ tally (claims_gated x) pre = tally (claims_gated x) p1 + tally (claims_gated x) p2)%nat as Hs.
  { intros x. split; (apply tally_merges; [|exact Hm]); intros e' He; by destruct (turn_neither x e' He). }
  destruct Hc as [[-> ->]|[[-> ->]|(He & -> & ->)]].
  - eapply orderly_more; [by apply (H1 p1 e q1)|intros y; by apply (merges_elem_l _ _ _ _ _ Hm)|].
    intros x. destruct (Hs x) as [-> ->]. pose proof (orderly_total p2 x (run_orderly_prefix _ _ H2)). lia.
  - eapply orderly_more; [by apply (H2 p2 e q2)|intros y; by apply (merges_elem_r _ _ _ _ _ Hm)|].
    intros x. destruct (Hs x) as [-> ->]. pose proof (orderly_total p1 x (run_orderly_prefix _ _ H1)). lia.
  - split.
    + intros x. destruct (Hs x) as [E1 E2], (turn_neither x e He) as [E3 E4]. rewrite !tally_app, !tally_cons, E1, E2, E3, E4.
      pose proof (orderly_total p1 x (run_orderly_prefix _ _ H1)). pose proof (orderly_total p2 x (run_orderly_prefix _ _ H2)).
      cbn. lia.
    + destruct e as [c r]. unfold is_turn in He. cbn in He. by subst c.
Qed.

Lemma tally_remembers f s tr s' out :
  (forall e, (exists mc, ev_call e = Mem mc) -> f e = false) -> remembers tick_memory s tr s' out -> tally f out = tally f tr.
Proof.
  intros Hf. induction 1 as [s|s c r s1 tr s'' out Hm H IH|s c r tr s' out Hm H IH]; [done|..].
  - rewrite tally_cons, IH. rewrite Hf; [done|]. destruct c; try done. by eexists.
  - by rewrite !tally_cons, IH.
Qed.

Lemma mem_neither x e : (exists mc, ev_call e = Mem mc) -> submits x e = false /\ claims_gated x e = false.
Proof. destruct e as [c r]. cbn. intros [mc ->]. done. Qed.

Lemma remembered_orderly s tr s' out : remembers tick_memory s tr s' out -> run_orderly tr -> run_orderly out.
Proof.
  intros Hr H pre e post ->. apply remembers_split in Hr as (t1 & s1 & t2 & -> & Hp). pose proof (H t1 e t2 eq_refl) as [Ht Hc].
  assert (forall x, tally (submits x) pre = tally (submits x) t1 /\ tally (claims_gated x) pre = tally (claims_gated x) t1) as Hs.
  { intros x. split; (eapply tally_remembers; [|exact Hp]); intros e' He; by destruct (mem_neither x e' He). }
  split.
  - intros x. specialize (Ht x). destruct (Hs x) as [E1 E2]. by rewrite !tally_app, E1, E2, <- !tally_app.
  - destruct (ev_call e); try done. destruct Hc as (id' & r & Hin & Hc). exists id', r. split; [|done].
    by eapply remembers_out.
Qed.

Lemma queue_orderly now due res : orderly_prog (run_queue dp now due res).
Proof.
  unfold run_queue. apply orderly_bind; [|intros a; apply orderly_ret].
  assert (all_runs (par_all Turn first_goes (repeat (worker dp (S (length due)) now) (Nat.min CONCURRENCY (length due))))
            (fun tr _ => run_orderly tr)) as H.
  { apply par_all_runs.
    - intros pre e post E. by destruct pre.
    - intros tr res' (tr1 & tr2 & r1 & r2 & Hm & H1 & H2 & _). exact (merged_orderly tr1 tr2 tr H1 H2 Hm).
    - apply Forall_forall. intros w Hw%list_elem_of_In%repeat_spec. subst w. apply worker_orderly. }
  eapply all_runs_mono; [|exact (with_memory_runs tick_memory _ (mkTick due [] [] res) _ H)].
  intros out r (tr & s' & r' & Hr & Ho & _). by eapply remembered_orderly.
Qed.

Lemma parked_plain parked failed : calls_within plain (audit_parked parked failed).
Proof.
  revert failed. induction parked as [|row rest IH]; intros failed; cbn [audit_parked]; [apply within_ret|].
  apply within_bind; [|intros _; apply IH]. harmless_calls.
Qed.

Lemma tick_orderly : orderly_prog (runDueWorkflowExecutions dp).
Proof.
  unfold runDueWorkflowExecutions.
  repeat (apply orderly_bind;
    [first [by apply plain_one|apply orderly_of_result|apply plain_orderly, parked_plain]|intros ?]).
  apply queue_orderly.
Qed.
End Actions.

(** ** The requests *)

Lemma harmless_orderly {A} (m : wf_prog A) : calls_within harmless m -> orderly_prog m.
Proof.
  intros H. apply plain_orderly. eapply all_runs_mono; [|exact H]. intros tr res Hh. eapply Forall_impl; [exact Hh|].
  intros e He. unfold harmless, plain in *. by destruct (ev_call e).
Qed.

Lemma dispatch_orderly event : orderly_prog (dispatchWorkflowEvent event).
Proof.
  apply plain_orderly. apply within_bind; [by apply within_ask|]. intros rules.
  generalize 0%Z. induction rules as [|rule rest IH]; intros n; cbn [dispatch_rules]; [apply within_ret|].
  destruct (evaluateCondition _ _); [|apply IH].
  apply within_bind; [|intros o; apply IH]. apply within_ask.
  cbn. intros [_ H]%negb_true_iff%orb_false_iff. exact H.
Qed.

Lemma queue_from_harmless attempts input : calls_within harmless (queue_from attempts input).
Proof.
  induction attempts as [|n rest IH]; cbn [queue_from]; [apply within_ret|].
  apply within_bind; [apply within_settled; by apply within_ask|].
  intros [a|e]; [apply within_ret|]. revert IH. generalize (queue_from rest input). intros m Hm.
  destruct rest; [apply within_ret|]. apply within_bind; [by apply within_ask|done].
Qed.

Section Routes.
Context {K : WorkflowKit}.
Variable dp : WorkflowDeployment.

Lemma destroy_harmless orgId workflowId stored : calls_within harmless (destroyActionSecret dp orgId workflowId stored).
Proof.
  unfold destroyActionSecret, recordFailedRetirement, queueRetirement. generalize QUEUE_ATTEMPTS. intros attempts.
  harmless_calls; apply queue_from_harmless.
Qed.

Lemma written_harmless auth workflowId secret : calls_within harmless (written_secret dp auth workflowId secret).
Proof.
  unfold written_secret, storeActionSecretOrRefuse, storeActionSecret, queuePendingActionSecret, queueRetirement.
  generalize QUEUE_ATTEMPTS. intros attempts. harmless_calls; apply queue_from_harmless.
Qed.

Lemma or_destroy_harmless auth workflowId written m missing :
  calls_within harmless m -> calls_within harmless (or_destroy dp auth workflowId written m missing).
Proof.
  intros H. unfold or_destroy. apply within_bind.
  - apply within_catch; [done|]. intros e. apply within_bind; [apply destroy_harmless|]. intros _. apply within_throw.
  - intros [row|]; [apply within_ret|]. apply within_bind; [apply destroy_harmless|]. intros _. apply within_throw.
Qed.

Lemma create_harmless auth tokenId trigger action body : calls_within harmless (createWorkflow dp auth tokenId trigger action body).
Proof.
  unfold createWorkflow. repeat (apply within_bind; [apply within_of_result|intros _]).
  apply within_bind; [apply gate_harmless|]. intros [gate|]; [|apply within_throw].
  destruct (validateActionSupported action gate); [apply within_throw|]. destruct (splitOutSecret _) as [params secret].
  apply within_bind; [by apply within_ask|]. intros uuid.
  apply within_bind; [apply written_harmless|]. intros written.
  apply within_bind; [|intros row; apply within_ret]. apply or_destroy_harmless. by apply within_ask.
Qed.

Lemma update_harmless auth tokenId workflowId body : calls_within harmless (updateWorkflow dp auth tokenId workflowId body).
Proof.
  unfold updateWorkflow. apply within_bind; [by apply within_ask|].
  intros [existing|]; [|apply within_throw]. destruct (negb _); [apply within_throw|].
  repeat (apply within_bind; [apply within_of_result|intros _]).
  apply within_bind; [destruct (wb_actionParams body); harmless_calls|]. intros split.
  apply within_bind; [destruct (wb_condition body); harmless_calls|]. intros _.
  apply within_bind; [apply written_harmless|]. intros written.
  apply within_bind; [apply or_destroy_harmless; by apply within_ask|]. intros row.
  apply within_bind; [unfold destroy_superseded; destruct (_ && _); [apply destroy_harmless|apply within_ret]|]. intros _.
  harmless_calls.
Qed.

Lemma delete_harmless auth tokenId workflowId : calls_within harmless (deleteWorkflow dp auth tokenId workflowId).
Proof.
  unfold deleteWorkflow. apply within_bind; [by apply within_ask|].
  intros [existing|]; [|apply within_throw]. destruct (negb _); [apply within_throw|].
  apply within_bind; [apply within_of_result|intros _].
  apply within_bind; [by apply within_ask|]. intros removed.
  apply within_bind; [destruct (_ || _); [apply destroy_harmless|apply within_ret]|]. intros _.
  by apply within_ask.
Qed.

Lemma sweep_harmless : calls_within harmless (retireOrphanedActionSecrets dp).
Proof.
  unfold retireOrphanedActionSecrets. apply within_bind; [by apply within_ask|]. intros now.
  apply within_bind; [apply within_of_result|]. intros iso.
  apply within_bind; [by apply within_ask|]. intros due.
  generalize (mkRetired 0 0). induction due as [|row rest IH]; intros r; cbn [retire_rows]; [apply within_ret|].
  apply within_bind; [|intros r'; apply IH]. unfold retire_row. harmless_calls.
Qed.

(** A step of any request. *)
Definition law_abiding (ctx : list wf_event) (e : wf_event) : Prop :=
  orderly ctx e
  \/ (exists v i, ev_call e = DecideExecution v i)
     /\ forall x, (tally (submits x) (ctx ++ [e]) <= tally (claims_gated x) (ctx ++ [e]))%nat.

Lemma orderly_guarded {A} (m : wf_prog A) : orderly_prog m -> guarded law_abiding [] m.
Proof. apply all_runs_mono. intros tr res H pre e post E. left. by eapply H. Qed.

(** What a decision rests on: the caller may run the action of the execution it read. *)
Definition decision_grounds (v : Verb) (auth : WorkflowAuth) (tokenId id : string) (ctx : list wf_event) (e : wf_event) : Prop :=
  match ev_call e with
  | DecideExecution v' i =>
      v' = v /\ dc_decidedBy i = wa_id auth
      /\ exists held, wf_ev (GetExecution id (wa_tenant auth)) (Ok (Some held)) ∈ ctx
           /\ dc_executionId i = execution_id held /\ dc_tenant i = execution_tenant held
           /\ wx_token_id (we_facts held) = tokenId
           /\ permits (wa_permissions auth) (execution_action held) = true
  | _ => True
  end.

Lemma decide_grounds v auth tokenId id :
  guarded (fun ctx e => decision_grounds v auth tokenId id ctx e /\ law_abiding ctx e) []
    (decideWorkflowExecution v auth tokenId id).
Proof.
  apply (triple_guarded _ [] _ (fun _ _ => True)). unfold decideWorkflowExecution, loadDecidableExecution.
  intros a. split.
  { split; [done|]. left. split; [intros x; cbn; lia|done]. }
  destruct a as [[held|]|e]; cbn [bind]; [|done..]. destruct (String.eqb_spec (wx_token_id (we_facts held)) tokenId) as [Et|]; [|done].
  unfold permitted_action, assertWorkflowActionPermitted. destruct (permits _ _) eqn:Ep; [|done]. cbn [of_result bind app].
  intros d. split.
  { split; [|right; split; [by eexists _, _|intros x; cbn; lia]]. do 2 (split; [done|]). exists held. split; [by left|done]. }
  destruct d as [[row|]|e]; cbn [bind]; [|done..]. intros l. split; [|by destruct l].
  split; [done|]. left. split; [intros x; cbn; lia|done].
Qed.
End Routes.

(** ** What a submission rests on *)

Section Checks.
Context {K : WorkflowKit}.
Variable dp : WorkflowDeployment.
Variable x : WorkflowExecutionRow.
Variable action : ActionContext.

(** No custody wallet is known to hold a key: none was found, or the search failed. *)
Definition no_wallet_holds (key : string) (ctx : list wf_event) : Prop :=
  exists answer, wf_ev (CustodyWalletByPublicKey (execution_tenant x) key) answer ∈ ctx
    /\ (answer = Ok None \/ exists e, answer = Err e).

(** The token was read in the execution's tenant, and its custody wallet, of which the
    policy is asked, is the one that signs; there is none only when none is known to hold
    the key that signs. *)
Definition loaded_context (oc : OnchainContext) (ctx : list wf_event) : Prop :=
  oc_execution oc = x
  /\ wf_ev (GetToken (wx_token_id (we_facts x)) (execution_tenant x)) (Ok (Some (oc_token oc))) ∈ ctx
  /\ tk_mintAddress (oc_token oc) = Some (oc_mintAddress oc)
  /\ tk_decimals (oc_token oc) = Some (oc_decimals oc)
  /\ exists wallet, wf_ev (CreateOrgSigner (execution_tenant x) wallet) (Ok (oc_signer oc)) ∈ ctx
       /\ match wallet, oc_signerWalletId oc with
          | Some id, signing => signing = Some id
          | None, Some id => wf_ev (CustodyWalletByPublicKey (execution_tenant x) (oc_signer oc)) (Ok (Some id)) ∈ ctx
          | None, None => no_wallet_holds (oc_signer oc) ctx
          end.

(** The mint authority of the token, when one is recorded. *)
Definition is_authority (token : Token) (signer : string) : Prop :=
  forall a, tk_mintAuthority token = Some a -> a <> "" -> signer = a.

(** The policy of the wallet allowed this operation, and its evaluation was recorded. *)
Definition policy_checked (oc : OnchainContext) (type : WalletOperationType) (amount destination : option string)
    (ctx : list wf_event) : Prop :=
  forall w, oc_signerWalletId oc = Some w -> w <> "" ->
    exists wallet evaluation tr,
      wf_ev (PolicyCustodyWallet (execution_tenant x) w) (Ok wallet) ∈ ctx
      /\ policy_allows (policy_input oc wallet w type amount destination) evaluation tr
      /\ forall e, e ∈ tr -> wf_ev (PolicyStore (ev_call e)) (ev_resp e) ∈ ctx.

Definition destination_checked (oc : OnchainContext) (destination : string) (ctx : list wf_event) : Prop :=
  exists listed, wf_ev (AddressAllowed (tk_id (oc_token oc)) destination) (Ok listed) ∈ ctx
    /\ assertDestinationAllowedByControlList (oc_token oc) listed = Ok tt.

(** The amount of the rule, in base units and as the number that is submitted. *)
Definition asked_amount (oc : OnchainContext) (amountStr : string) (units : Z) (amount : double) : Prop :=
  param action "amount" = Some amountStr /\ parsePositiveTokenAmount amountStr (oc_decimals oc) = Ok (units, amount).

Definition checked_operation (oc : OnchainContext) (o : ChainOperation) (ctx : list wf_event) : Prop :=
  match o with
  | chain_mint destination amount =>
      target_of x action = Some destination /\ is_authority (oc_token oc) (oc_signer oc) /\ destination_checked oc destination ctx
      /\ exists amountStr units total,
           asked_amount oc amountStr units amount
           /\ is_ok (resolveMintOperationAmount (oc_token oc) amountStr) = true
           /\ policy_checked oc issuance_mint_execute (Some amountStr) (Some destination) ctx
           /\ wf_ev (ReserveMintSupply (tk_id (oc_token oc)) (execution_tenant x) units) (Ok (Some total)) ∈ ctx
  | chain_burn source amount =>
      wf_ev (ResolveTokenAccount (oc_signer oc) (oc_mintAddress oc)) (Ok source) ∈ ctx
      /\ exists amountStr units,
           asked_amount oc amountStr units amount /\ policy_checked oc issuance_burn_execute (Some amountStr) None ctx
  | chain_force_burn source amount =>
      source_of x action = Some source
      /\ exists amountStr units,
           asked_amount oc amountStr units amount /\ policy_checked oc issuance_force_burn_execute (Some amountStr) None ctx
  | chain_seize source destination amount =>
      source_of x action = Some source /\ param action "destination" = Some destination
      /\ destination_checked oc destination ctx
      /\ exists amountStr units,
           asked_amount oc amountStr units amount
           /\ policy_checked oc issuance_seize_execute (Some amountStr) (Some destination) ctx
  | _ => True
  end.

Definition checked_submission (ctx : list wf_event) (e : wf_event) : Prop :=
  match ev_call e with
  | SubmitChain oc o => destructive o = true -> loaded_context oc ctx /\ checked_operation oc o ctx
  | _ => True
  end.

Abbreviation checks := (leads checked_submission).

Lemma harmless_free : free checked_submission harmless.
Proof. intros h [c r] H. destruct c; cbn in *; try done. congruence. Qed.

Lemma harmless_checks {A} h (m : wf_prog A) : calls_within harmless m -> checks h m (fun _ _ => True).
Proof. apply leads_within, harmless_free. Qed.

Lemma asks h c : harmless c -> checks h (ask c) (fun a h' => wf_ev c (Ok a) ∈ h').
Proof. intros H. apply leads_call. intros r. by apply harmless_free. Qed.

Lemma told_later (h h' : list wf_event) e : h `prefix_of` h' -> e ∈ h -> e ∈ h'.
Proof. intros [k ->] H. apply elem_of_app. by left. Qed.

Lemma loaded_later oc h h' : h `prefix_of` h' -> loaded_context oc h -> loaded_context oc h'.
Proof.
  intros Hp (H1 & H2 & H3 & H4 & w & H5 & H6). split_and!; try done; [by eapply told_later|].
  exists w. split; [by eapply told_later|]. destruct w, (oc_signerWalletId oc); try done; [by eapply told_later|].
  destruct H6 as (a & Ha & E). exists a. split; [by eapply told_later|done].
Qed.

Lemma policy_later oc type amount destination h h' :
  h `prefix_of` h' -> policy_checked oc type amount destination h -> policy_checked oc type amount destination h'.
Proof.
  intros Hp H w Ew Hw. destruct (H w Ew Hw) as (wallet & evaluation & tr & H1 & H2 & H3). exists wallet, evaluation, tr.
  split_and!; [by eapply told_later|done|]. intros e He. by eapply told_later, H3.
Qed.

Lemma destination_later oc d h h' : h `prefix_of` h' -> destination_checked oc d h -> destination_checked oc d h'.
Proof. intros Hp (b & H1 & H2). exists b. split; [by eapply told_later|done]. Qed.

(** *** Steps *)

Lemma checks_step {A B} h (m : wf_prog (ActionExecutionResult + A)) (k : A -> wf_prog (ActionExecutionResult + B)) F
    (F2 : _ -> _ -> Prop) :
  checks h m (fun r h' => forall a, r = inr a -> F a h') -> (forall s h', F2 (inl s) h') ->
  (forall h' a, h `prefix_of` h' -> F a h' -> checks h' (k a) F2) -> checks h (step m k) F2.
Proof.
  intros Hm Hs Hk. eapply leads_bind; [exact Hm|]. intros h' [s|a] Hp Hr; [by apply leads_ret|]. by apply Hk, Hr.
Qed.

Lemma checks_need {A} h (o : option A) error :
  checks h (need o error) (fun r _ => forall a, r = inr a -> o = Some a).
Proof. apply leads_ret. destruct o as [a|]; intros a' E; [by injection E as <-|done]. Qed.

Lemma checks_settled {A} h (m : wf_prog A) F :
  checks h m F -> checks h (settled m) (fun r h' => forall a, r = Ok a -> F a h').
Proof.
  intros H. unfold settled. eapply leads_catch; [|intros h' r _ Hr; exact Hr|].
  - eapply leads_bind; [exact H|]. intros h' a _ Ha. apply leads_ret. by intros a' [= <-].
  - intros. by apply leads_ret.
Qed.

Lemma checks_failing {A} h (m : wf_prog A) F :
  checks h m F -> checks h (failing m) (fun r h' => forall a, r = inr a -> F a h').
Proof.
  intros H. eapply leads_bind; [by apply checks_settled|]. intros h' [a|e] _ Ha; apply leads_ret; [|done].
  intros a' [= <-]. by apply Ha.
Qed.

Lemma checks_answer h m F : checks h m F -> checks h (answer_of m) (fun _ _ => True).
Proof. intros H. eapply leads_bind; [exact H|]. intros. by apply leads_ret. Qed.

(** *** What comes before a submission *)

Lemma build_checks h wallet :
  checks h (build_signer x wallet)
    (fun r h' => forall s, r = inr s -> wf_ev (CreateOrgSigner (execution_tenant x) wallet) (Ok s) ∈ h').
Proof.
  eapply leads_bind; [by apply checks_settled, asks|]. intros h' [s|e] _ Hs; apply leads_ret; [|done].
  intros s' [= <-]. by apply Hs.
Qed.

Lemma lookup_checks h key :
  checks h (lookupCustodyWallet x key)
    (fun r h' => match r with
                 | Some id => wf_ev (CustodyWalletByPublicKey (execution_tenant x) key) (Ok (Some id)) ∈ h'
                 | None => no_wallet_holds key h'
                 end).
Proof.
  intros r. split; [by apply harmless_free|].
  assert (forall a : result (option string), wf_ev (CustodyWalletByPublicKey (execution_tenant x) key) a
    ∈ h ++ [wf_ev (CustodyWalletByPublicKey (execution_tenant x) key) a]) as Hin.
  { intros a. apply elem_of_app. right. by left. }
  destruct r as [o|e]; cbn; (split; [by apply prefix_app_r|]); intros a [= <-].
  - destruct o as [id|]; [apply Hin|]. exists (Ok None). split; [apply Hin|by left].
  - exists (Err e). split; [apply Hin|by right; exists e].
Qed.

Definition signs (signer : string) (id : option string) (ctx : list wf_event) : Prop :=
  exists wallet, wf_ev (CreateOrgSigner (execution_tenant x) wallet) (Ok signer) ∈ ctx
    /\ match wallet, id with
       | Some w, signing => signing = Some w
       | None, Some w => wf_ev (CustodyWalletByPublicKey (execution_tenant x) signer) (Ok (Some w)) ∈ ctx
       | None, None => no_wallet_holds signer ctx
       end.

Lemma signs_wallet h signer token :
  wf_ev (CreateOrgSigner (execution_tenant x) (tk_signingWalletId token)) (Ok signer) ∈ h ->
  checks h (match tk_signingWalletId token with Some id => Ret (Some id) | None => lookupCustodyWallet x signer end)
    (fun id h' => signs signer id h').
Proof.
  intros Hs. destruct (tk_signingWalletId token) as [w|] eqn:Ew.
  - apply leads_ret. by exists (Some w).
  - eapply leads_mono; [|by apply lookup_checks]. intros h' [id|] Hp Hr; exists None; (split; [by eapply told_later|exact Hr]).
Qed.

Lemma resolve_checks h token a :
  checks h (resolveSignerForAuthority x token a)
    (fun r h' => forall res, r = inr res ->
       signs res.1 res.2 h' /\ (a = Some authority_mint -> is_authority token res.1)).
Proof.
  eapply checks_step; [by apply build_checks|done|]. intros h1 preferred _ Hb. cbv zeta.
  assert ((a = Some authority_mint -> is_authority token preferred) ->
    checks h1 (let! walletId := match tk_signingWalletId token with Some id => Ret (Some id)
                                | None => lookupCustodyWallet x preferred end in
               Ret (inr (A := ActionExecutionResult) (preferred, walletId)))
      (fun r h' => forall res, r = inr res -> signs res.1 res.2 h' /\ (a = Some authority_mint -> is_authority token res.1))) as Hpref.
  { intros Hk. eapply leads_bind; [by apply signs_wallet|]. intros h2 id _ Hs. apply leads_ret. by intros res [= <-]. }
  destruct a as [a|]; [|by apply Hpref].
  destruct (match a with authority_mint => _ | authority_freeze => _ end) as [required|] eqn:Er;
    [|apply Hpref; intros [= ->] key; congruence].
  destruct (String.eqb_spec required "") as [->|Hne]; cbn [orb].
  { apply Hpref. intros [= ->] key Ek Hk. congruence. }
  destruct (String.eqb_spec preferred required) as [->|Hpr].
  { apply Hpref. intros [= ->] key Ek Hk. congruence. }
  eapply leads_bind; [by apply lookup_checks|]. intros h2 wallet _ _.
  eapply checks_step; [by apply checks_need|done|]. intros h3 walletId _ _.
  eapply checks_step; [by apply build_checks|done|]. intros h4 signer _ Hs. apply leads_ret.
  destruct (String.eqb_spec signer required) as [->|]; [|done]. intros res [= <-]. split; [by exists (Some walletId)|].
  intros [= ->] key Ek _. cbn. congruence.
Qed.

Lemma prepare_checks h a :
  checks h (prepareOnchain dp x a)
    (fun r h' => forall oc, r = inr oc -> loaded_context oc h' /\ (a = Some authority_mint -> is_authority (oc_token oc) (oc_signer oc))).
Proof.
  eapply leads_bind; [by apply asks|]. intros h1 found _ Hf.
  eapply checks_step; [by apply checks_need|done|]. intros h2 token Hp2 ->.
  eapply checks_step; [by apply checks_need|done|]. intros h3 mint Hp3 Em.
  eapply checks_step; [by apply checks_need|done|]. intros h3' decimals Hp3' Ed.
  eapply checks_step; [by apply resolve_checks|done|]. intros h4 res Hp4 [Hs Ha].
  apply leads_bind_result. intros [] _. apply leads_bind_result. intros address Ea. apply leads_ret. intros oc [= <-].
  unfold assertValidAddress in Ea. destruct (is_address mint); [|done]. injection Ea as <-.
  split; [|exact Ha]. split_and!; try done.
  - cbn. eapply told_later; [|exact Hf]. etrans; [exact Hp2|]. etrans; [exact Hp3|]. etrans; [exact Hp3'|exact Hp4].
  - cbn. by destruct (truthy (tk_mintAddress token)).
Qed.

Lemma policy_store_checks {A} h (m : store_prog A) (Y : list store_event -> A -> Prop) :
  yields m Y ->
  checks h (with_policy_store m)
    (fun a h' => exists tr, Y tr a /\ forall e, e ∈ tr -> wf_ev (PolicyStore (ev_call e)) (ev_resp e) ∈ h').
Proof.
  assert (forall h0, h `prefix_of` h0 -> forall seen,
    (forall e : store_event, e ∈ seen -> wf_ev (PolicyStore (ev_call e)) (ev_resp e) ∈ h0) ->
    all_runs m (fun tr r => forall a, r = Ok a -> Y (seen ++ tr) a) ->
    triple checked_submission h0 (with_policy_store m)
      (fun h' r => h `prefix_of` h' /\ forall a, r = Ok a ->
         exists tr, Y tr a /\ forall e, e ∈ tr -> wf_ev (PolicyStore (ev_call e)) (ev_resp e) ∈ h')) as Hg.
  { induction m as [a|e|c k IH]; intros h0 Hp seen Hs Hy; cbn [with_policy_store].
    - split; [done|]. intros a' [= <-]. exists seen. split; [|done]. cbn in Hy. specialize (Hy a eq_refl). by rewrite app_nil_r in Hy.
    - by split.
    - intros r. split; [done|]. apply (IH r) with (seen := seen ++ [Ev c r]).
      + etrans; [exact Hp|by apply prefix_app_r].
      + intros e [He|He%list_elem_of_singleton]%elem_of_app; apply elem_of_app; [left; by apply Hs|right; subst; by left].
      + eapply all_runs_mono; [|exact (Hy r)]. intros tr res Hq a E. rewrite <- app_assoc. by apply Hq. }
  intros Hy. apply (Hg h ltac:(done) []); [|exact Hy]. by intros e He%elem_of_nil.
Qed.

Lemma policy_checks h oc type amount destination :
  oc_execution oc = x ->
  checks h (preflightWalletPolicy oc type amount destination)
    (fun r h' => forall a, r = inr a -> policy_checked oc type amount destination h').
Proof.
  intros Ex. unfold preflightWalletPolicy. cbv zeta. rewrite Ex.
  destruct (oc_signerWalletId oc) as [w|] eqn:Ew; [|apply leads_ret; intros _ _ w E; congruence].
  destruct (String.eqb_spec w "") as [->|Hw]; [apply leads_ret; intros _ _ w E; congruence|].
  apply (checks_failing _ _ (fun _ h' => policy_checked oc type amount destination h')).
  eapply leads_bind; [by apply asks|]. intros h1 wallet Hp1 Hwal. apply leads_bind_result. intros scope _.
  eapply leads_bind; [apply policy_store_checks, enforce_policy_allows|]. intros h2 evaluation Hp2 (tr & Ha & Htr).
  apply leads_ret. intros w' E _. rewrite Ew in E. injection E as <-. exists wallet, evaluation.2, tr.
  split_and!; [by eapply told_later|done|done].
Qed.

Lemma destination_checks h oc d :
  checks h (preflightDestinationAllowed oc d) (fun r h' => forall a, r = inr a -> destination_checked oc d h').
Proof.
  apply (checks_failing _ _ (fun _ h' => destination_checked oc d h')).
  eapply leads_bind; [by apply asks|]. intros h1 listed _ Hl.
  destruct (assertDestinationAllowedByControlList _ _) as [[]|e] eqn:Ea; [|by apply leads_throw]. apply leads_ret. by exists listed.
Qed.

Lemma chain_checks h oc o : loaded_context oc h -> checked_operation oc o h -> checks h (chain oc o) (fun _ _ => True).
Proof.
  intros Hl Ho r. split; [by split|]. by destruct r; (split; [by apply prefix_app_r|]).
Qed.

Lemma parsed_amount oc amountStr units amount :
  parseAmount action (oc_decimals oc) = Some (amountStr, units, amount) -> asked_amount oc amountStr units amount.
Proof.
  unfold parseAmount, asked_amount. destruct (param action "amount") as [s|]; [|done].
  destruct (parsePositiveTokenAmount s (oc_decimals oc)) as [[u a]|] eqn:Ep; [|done]. by intros [= <- <- <-].
Qed.

Lemma safe_address value label a : safeAddress value label = Some a -> a = value.
Proof. unfold safeAddress, assertValidAddress. destruct (is_address value); [by intros [= <-]|done]. Qed.

(** *** The actions *)

Lemma reserve_checks h oc units :
  oc_execution oc = x -> (0 <= units)%Z ->
  checks h (reserve_mint oc units)
    (fun _ h' => exists total, wf_ev (ReserveMintSupply (tk_id (oc_token oc)) (execution_tenant x) units) (Ok (Some total)) ∈ h').
Proof.
  intros Ex Hu. unfold reserve_mint. rewrite Ex. apply leads_bind_result. intros scope _.
  eapply leads_bind; [by apply asks|]. intros h1 [total|] _ Hr; [apply leads_ret; by exists total|apply leads_throw].
Qed.

Lemma mint_checks h : checks h (runMint dp x action) (fun _ _ => True).
Proof.
  eapply (checks_answer _ _ (fun _ _ => True)).
  eapply checks_step; [apply prepare_checks|done|]. intros h1 oc _ [Hl Ha].
  eapply checks_step; [apply checks_need|done|]. intros h2 raw Hp2 Et.
  eapply checks_step; [apply checks_need|done|]. intros h3 destination Hp3 ->%safe_address.
  eapply checks_step; [apply checks_need|done|]. intros h4 [[amountStr units] amount] Hp4 Hasked%parsed_amount.
  eapply (checks_step _ _ _ (fun _ _ => is_ok (resolveMintOperationAmount (oc_token oc) amountStr) = true)); [|done|].
  { apply leads_ret. intros a E. unfold preflightMintAmount in E.
    by destruct (resolveMintOperationAmount _ _) as [[[]]|]. }
  intros h5 ? Hp5 Hok.
  eapply checks_step; [apply destination_checks|done|]. intros h6 ? Hp6 Hd.
  eapply checks_step; [by apply policy_checks, Hl|done|]. intros h7 ? Hp7 Hpol.
  eapply checks_step; [apply checks_failing|done|].
  { eapply leads_bind; [by apply asks|]. intros h8 _ Hp8 _.
    eapply leads_bind; [apply reserve_checks; [by apply Hl|eapply positive_units; apply Hasked]|]. intros h9 ? Hp9 [total Hr].
    apply chain_checks.
    - eapply loaded_later; [|exact Hl]. by do 7 (etrans; [eassumption|]).
    - split_and!; [done|by apply Ha|eapply destination_later; [|exact Hd]; by do 2 (etrans; [eassumption|])|].
      exists amountStr, units, total. split_and!; try done. eapply policy_later; [|exact Hpol]. by etrans. }
  intros h8 result _ _. eapply leads_bind; [by apply harmless_checks, supply_succeeded_harmless|]. intros. by apply leads_ret.
Qed.

Lemma burn_checks h : checks h (runBurn dp x action) (fun _ _ => True).
Proof.
  eapply (checks_answer _ _ (fun _ _ => True)).
  eapply checks_step; [apply prepare_checks|done|]. intros h1 oc _ [Hl _].
  eapply checks_step; [apply checks_need|done|]. intros h2 [[amountStr units] amount] Hp2 Hasked%parsed_amount.
  eapply checks_step; [by apply policy_checks, Hl|done|]. intros h3 ? Hp3 Hpol.
  eapply checks_step; [apply checks_failing|done|].
  { eapply leads_bind; [by apply asks|]. intros h4 source Hp4 Hs. apply chain_checks.
    - eapply loaded_later; [|exact Hl]. by do 2 (etrans; [eassumption|]).
    - split; [done|]. exists amountStr, units. split; [done|]. by eapply policy_later. }
  intros h4 result _ _. eapply leads_bind; [by apply harmless_checks, mirror_supply_harmless|]. intros h5 m _ _.
  eapply leads_bind; [by apply harmless_checks, supply_succeeded_harmless|]. intros. by apply leads_ret.
Qed.

Lemma force_burn_checks h : checks h (runForceBurn dp x action) (fun _ _ => True).
Proof.
  eapply (checks_answer _ _ (fun _ _ => True)).
  eapply checks_step; [apply prepare_checks|done|]. intros h1 oc _ [Hl _].
  eapply checks_step; [apply checks_need|done|]. intros h2 raw Hp2 Es.
  eapply checks_step; [apply checks_need|done|]. intros h3 source Hp3 ->%safe_address.
  eapply checks_step; [apply checks_need|done|]. intros h4 [[amountStr units] amount] Hp4 Hasked%parsed_amount.
  eapply checks_step; [by apply policy_checks, Hl|done|]. intros h5 ? Hp5 Hpol.
  eapply checks_step; [apply checks_failing, chain_checks|done|].
  - eapply loaded_later; [|exact Hl]. by do 3 (etrans; [eassumption|]).
  - split; [done|]. by exists amountStr, units.
  - intros h6 result _ _. eapply leads_bind; [by apply harmless_checks, mirror_supply_harmless|]. intros h7 m _ _.
    eapply leads_bind; [by apply harmless_checks, supply_succeeded_harmless|]. intros. by apply leads_ret.
Qed.

Lemma seize_checks h : checks h (runSeize dp x action) (fun _ _ => True).
Proof.
  eapply (checks_answer _ _ (fun _ _ => True)).
  eapply checks_step; [apply prepare_checks|done|]. intros h1 oc _ [Hl _].
  eapply checks_step; [apply checks_need|done|]. intros h2 sourceRaw Hp2 Es.
  eapply checks_step; [apply checks_need|done|]. intros h3 destRaw Hp3 Ed.
  eapply checks_step; [apply checks_need|done|]. intros h4 [source destination] Hp4 Hsafe.
  destruct (safeAddress sourceRaw "source") as [s|] eqn:E1; [|done].
  destruct (safeAddress destRaw "destination") as [d|] eqn:E2; [|done].
  injection Hsafe as <- <-. apply safe_address in E1 as ->. apply safe_address in E2 as ->.
  eapply checks_step; [apply checks_need|done|]. intros h5 [[amountStr units] amount] Hp5 Hasked%parsed_amount.
  eapply checks_step; [apply destination_checks|done|]. intros h6 ? Hp6 Hd.
  eapply checks_step; [by apply policy_checks, Hl|done|]. intros h7 ? Hp7 Hpol.
  eapply checks_step; [apply (checks_failing _ _ (fun _ _ => True))|done|].
  { eapply leads_bind; [apply chain_checks|].
    - eapply loaded_later; [|exact Hl]. by do 5 (etrans; [eassumption|]).
    - split_and!; [done|done|by eapply destination_later|]. by exists amountStr, units.
    - intros h8 result _ _. eapply leads_bind; [by apply harmless_checks, record_harmless|]. intros. by apply leads_ret. }
  intros h8 res _ _. by apply leads_ret.
Qed.

Lemma dispatch_checks h : checks h (dispatchWorkflowAction dp x action) (fun _ _ => True).
Proof.
  destruct (decide (execution_action x = "mint")) as [E1|E1]; [unfold dispatchWorkflowAction; rewrite E1; apply mint_checks|].
  destruct (decide (execution_action x = "burn")) as [E2|E2]; [unfold dispatchWorkflowAction; rewrite E2; apply burn_checks|].
  destruct (decide (execution_action x = "force_burn")) as [E3|E3];
    [unfold dispatchWorkflowAction; rewrite E3; apply force_burn_checks|].
  destruct (decide (execution_action x = "seize")) as [E4|E4]; [unfold dispatchWorkflowAction; rewrite E4; apply seize_checks|].
  by apply harmless_checks, dispatch_harmless.
Qed.

End Checks.
