(* ===== verification/WorkflowGuarantees.v ===== *)
(** * Workflows: what no history of requests breaks

    Any number of requests at once: runs of the engine and of the sweeper, events of any
    source, edits of rules and decisions by authenticated callers, and the reservations
    and burns of the other routes of a token. A history is an interleaving of their calls
    answered as the tables allow, or lost. What cannot be undone needs a decision each; the
    ledger of executions moves forward; supplies stay within their caps. *)
From Stdlib Require Import Ascii String ZArith Lia.
From stdpp Require Import base list strings.
From S2P Require Import Prelude Rows Text Pool History PolicyTypes WorkflowTypes WorkflowTables WorkflowCalls WorkflowSecret.
From S2P Require Import WorkflowEngine WorkflowRoutes WorkflowInvariant WorkflowScenario WorkflowSafety.

Local Open Scope string_scope.
Local Open Scope list_scope.
Local Open Scope sdp_scope.

(** ** What answers tell *)

(** The execution a call was answered. *)
Definition told_execution (e : wf_event) : option WorkflowExecutionRow :=
  match ev_call e as c return result (wf_answer c) -> option WorkflowExecutionRow with
  | ClaimExecution _ | GetExecution _ _ => fun a => match a with Ok o => o | Err _ => None end
  | _ => fun _ => None
  end (ev_resp e).

(** An execution that is read is the one asked for. *)
Definition read_as_asked (e : wf_event) : Prop :=
  match ev_call e as c return result (wf_answer c) -> Prop with
  | GetExecution id tenant => fun a => forall r, a = Ok (Some r) -> execution_id r = id /\ execution_tenant r = tenant
  | _ => fun _ => True
  end (ev_resp e).

Definition known_execution (s : WorkflowTables) (r : WorkflowExecutionRow) : Prop :=
  exists r', r' ∈ wf_executions s /\ later_execution r r'.

Record in_time_order (s0 : WorkflowTables) (tr : wf_log) (s : WorkflowTables) : Prop := mkInOrder {
  order_sound : executions_sound (wf_executions s);
  order_later : later_rows later_execution (wf_executions s0) (wf_executions s);
  order_known : forall j e r, (j, e) ∈ tr -> told_execution e = Some r -> known_execution s r;
  order_read : forall j e, (j, e) ∈ tr -> read_as_asked e;
  order_counts : forall x, (waiting x (wf_executions s) + tally (claims_gated x) (map snd tr)
                            <= waiting x (wf_executions s0) + tally (decides_run x) (map snd tr))%nat;
}.

Section History.
Context {K : WorkflowKit}.
Variable dp : WorkflowDeployment.
Variable text_le : string -> string -> bool.
Variable requests : list wf_request.

Lemma answers_told t e t' r : wf_answers text_le t e t' -> told_execution e = Some r -> r ∈ wf_executions t'.
Proof.
  intros [u u' c a Hn H|u u1 u' now id c a H Hp|u u1 u' now id c a err H Hp|u u' c err H] Ht; destruct c; try done;
    try (by specialize (Hn "" "" u)); cbn [perform] in Hp; unfold answered in Hp.
  - injection Hp as <- <-. cbn in Ht. by apply find_some in Ht as [Hr%list_elem_of_In _].
  - pose proof (surjective_pairing (claimExecution now id0 u1)) as Ec. apply update_execution_eq in Ec as [_ Ho].
    injection Hp as <- <-. by destruct (Ho r Ht) as (r0 & _ & _ & _ & Hr).
Qed.

Lemma answers_read t e t' : wf_answers text_le t e t' -> read_as_asked e.
Proof.
  intros [u u' c a Hn H|u u1 u' now id c a H Hp|u u1 u' now id c a err H Hp|u u' c err H]; destruct c; try done;
    try (by specialize (Hn "" "" u)).
  cbn [perform] in Hp. injection Hp as <- _. cbn. intros r Hf. injection Hf as Hf. apply find_some in Hf as [_ Hf].
  unfold of_tenant in Hf. by rewrite andb_true_iff, String.eqb_eq, bool_decide_eq_true in Hf.
Qed.

Lemma known_later s s' r :
  known_execution s r -> later_rows later_execution (wf_executions s) (wf_executions s') -> known_execution s' r.
Proof.
  intros (r1 & H1 & L1) L. destruct (L _ H1) as (r2 & H2 & L2). exists r2. split; [done|by eapply later_execution_trans].
Qed.

(** A call of an orderly request is lawful for the tables. *)
Lemma law_abiding_lawful s0 tr s i e : in_time_order s0 tr s -> law_abiding (calls_of i tr) e -> lawful (ev_call e) (wf_executions s).
Proof.
  intros [Hs _ Hk _ _] [[_ Hc]|[(v & i' & E) _]]; [|by rewrite E].
  destruct e as [c a]. destruct c; cbn [ev_call lawful] in *; try done.
  destruct Hc as (id' & r & Hr & Hid & Hg). intros r0 Hr0 E0.
  apply calls_of_elem in Hr. destruct (Hk i _ r Hr eq_refl) as (r' & Hr' & [F _]).
  assert (r0 = r') as ->.
  { apply (same_key execution_id (wf_executions s)); [apply Hs|done..|]. unfold execution_id in *. rewrite F. congruence. }
  unfold execution_action in *. by rewrite F.
Qed.

Lemma in_order_step s0 tr s i e s' :
  in_time_order s0 tr s -> law_abiding (calls_of i tr) e -> wf_answers text_le s e s' -> in_time_order s0 (tr ++ [(i, e)]) s'.
Proof.
  intros Ho Hl Ha. pose proof (law_abiding_lawful _ _ _ _ _ Ho Hl) as Hw. destruct Ho as [Hs HL Hk Hr Hc].
  destruct (answers_ledger _ _ _ _ Ha Hs) as [Hs' L]. split; [done| | | |].
  - eapply later_rows_trans; [|exact HL|exact L]. apply later_execution_trans.
  - intros j e' r Hj Ht. apply elem_of_app in Hj as [Hj|Hj%list_elem_of_singleton].
    + eapply known_later; [by eapply Hk|done].
    + injection Hj as -> ->. exists r. split; [by eapply answers_told|apply later_execution_refl].
  - intros j e' Hj. apply elem_of_app in Hj as [Hj|Hj%list_elem_of_singleton]; [by eapply Hr|].
    injection Hj as -> ->. by eapply answers_read.
  - intros x. rewrite map_app, !tally_app. cbn [map snd]. rewrite !(tally_cons _ e []). cbn [tally List.filter length].
    pose proof (answers_counted _ x _ _ _ Ha Hs Hw). specialize (Hc x). lia.
Qed.

Lemma guarded_unit {A} (m : wf_prog A) P : guarded P [] m -> guarded P [] (m ;;; Ret tt).
Proof. intros H. apply guarded_any; [done|]. intros tr a. apply guarded_ret. Qed.

Lemma serve_law_abiding r : guarded law_abiding [] (serve_workflow dp r).
Proof.
  destruct r; cbn [serve_workflow]; try apply guarded_unit.
  - apply orderly_guarded, tick_orderly.
  - apply orderly_guarded, dispatch_orderly.
  - apply orderly_guarded, harmless_orderly, create_harmless.
  - apply orderly_guarded, harmless_orderly, update_harmless.
  - apply orderly_guarded, harmless_orderly, delete_harmless.
  - eapply all_runs_mono; [|apply decide_grounds]. intros tr res H pre e post E. by apply (H pre e post).
  - apply orderly_guarded, harmless_orderly, sweep_harmless.
  - apply orderly_guarded, harmless_orderly, within_ask. cbn. lia.
  - apply orderly_guarded, harmless_orderly, within_ask. cbn. lia.
Qed.

Lemma serve_all_law_abiding : Forall (guarded law_abiding []) (serve_workflow dp <$> requests).
Proof. apply Forall_fmap, Forall_forall. intros r _. apply serve_law_abiding. Qed.

Lemma history_in_order s0 tr s :
  executions_sound (wf_executions s0) -> workflow_history dp text_le requests s0 tr s -> in_time_order s0 tr s.
Proof.
  intros Hs [ps Hrun].
  eapply (pool_invariant (wf_answers text_le) law_abiding (in_time_order s0));
    [apply serve_all_law_abiding| | |exact Hrun].
  - split; [done|apply later_rows_refl, later_execution_refl|intros j e r Hj; by apply elem_of_nil in Hj|intros j e Hj; by apply elem_of_nil in Hj|cbn; lia].
  - intros. by eapply in_order_step.
Qed.

(** *** Decisions *)

(** The requests whose answers may have been to run the execution [x]. *)
Definition run_decisions (x : string) (tr : wf_log) : wf_log := List.filter (fun p => decides_run x p.2) tr.

Lemma run_decisions_tally x tr : length (run_decisions x tr) = tally (decides_run x) (map snd tr).
Proof.
  unfold run_decisions, tally. induction tr as [|[j e] tr IH]; [done|]. cbn. by destruct (decides_run x e); cbn; rewrite IH.
Qed.

(** A decision is of a request to decide, by a caller who may run the action. *)
Definition authorised (s : WorkflowTables) (x : string) (p : nat * wf_event) : Prop :=
  exists v auth tokenId r,
    requests !! p.1 = Some (decide_run v auth tokenId x) /\ v <> verb_cancel
    /\ r ∈ wf_executions s /\ execution_id r = x /\ execution_tenant r = wa_tenant auth
    /\ permits (wa_permissions auth) (execution_action r) = true.

Definition decision_by (q : wf_request) (ctx : list wf_event) (e : wf_event) : Prop :=
  match q with
  | decide_run v auth tokenId id => decision_grounds v auth tokenId id ctx e
  | _ => match ev_call e with DecideExecution _ _ => False | _ => True end
  end.

Lemma orderly_undecided {A} (m : wf_prog A) :
  orderly_prog m -> guarded (fun _ e => match ev_call e with DecideExecution _ _ => False | _ => True end) [] m.
Proof. apply all_runs_mono. intros tr res H pre e post E. destruct (H pre e post E) as [_ Hc]. by destruct (ev_call e). Qed.

Lemma serve_decisions q : guarded (decision_by q) [] (serve_workflow dp q).
Proof.
  destruct q; cbn [serve_workflow decision_by]; try apply guarded_unit.
  - apply orderly_undecided, tick_orderly.
  - apply orderly_undecided, dispatch_orderly.
  - apply orderly_undecided, harmless_orderly, create_harmless.
  - apply orderly_undecided, harmless_orderly, update_harmless.
  - apply orderly_undecided, harmless_orderly, delete_harmless.
  - eapply all_runs_mono; [|apply decide_grounds]. intros tr res H pre e post E. by apply (H pre e post).
  - apply orderly_undecided, harmless_orderly, sweep_harmless.
  - apply orderly_undecided, harmless_orderly, within_ask. cbn. lia.
  - apply orderly_undecided, harmless_orderly, within_ask. cbn. lia.
Qed.

Lemma decision_made s0 tr s j e :
  workflow_history dp text_le requests s0 tr s -> (j, e) ∈ tr ->
  exists q pre, requests !! j = Some q /\ decision_by q pre e /\ forall y, y ∈ pre -> (j, y) ∈ tr.
Proof.
  intros [ps Hrun] Hin. pose proof Hin as Hj. apply (pool_indices _ _ _ _ _ _ Hrun), elem_of_seq in Hj.
  rewrite length_fmap in Hj. destruct (lookup_lt_is_Some_2 requests j) as [q Hq]; [lia|].
  destruct (pool_steps _ _ _ _ _ _ Hrun j (serve_workflow dp q)) as (p' & _ & Hst); [by rewrite list_lookup_fmap, Hq|].
  apply calls_of_in, list_elem_of_split in Hin as (pre & post & E).
  exists q, pre. split; [done|]. split.
  - by eapply steps_guarded; [apply serve_decisions|exact Hst|].
  - intros y Hy. apply calls_of_elem. rewrite E. apply elem_of_app. by left.
Qed.

Lemma decision_authorised s0 tr s x p :
  executions_sound (wf_executions s0) -> workflow_history dp text_le requests s0 tr s -> p ∈ run_decisions x tr -> authorised s x p.
Proof.
  intros Hs H Hp. destruct p as [j e]. apply filter_elem in Hp as [Hin Hd]. cbn in Hd.
  destruct (decision_made _ _ _ _ _ H Hin) as (q & pre & Hq & Hg & Hpre).
  unfold decides_run in Hd. destruct e as [c a]. destruct c; try done. cbn in Hd.
  destruct q; try done. destruct Hg as (-> & _ & held & Hh & Hid & Ht & _ & Hp).
  destruct (order_known _ _ _ (history_in_order _ _ _ Hs H) j _ held (Hpre _ Hh) eq_refl) as (r & Hr & [F _]).
  destruct (order_read _ _ _ (history_in_order _ _ _ Hs H) j _ (Hpre _ Hh) held eq_refl) as [Ei Et].
  assert (v0 <> verb_cancel /\ dc_executionId i = x) as [Hv Ex].
  { destruct v0; apply andb_true_iff in Hd as [Hd _]; try done; (split; [done|by apply String.eqb_eq]). }
  assert (executionId = x) as -> by congruence.
  exists v0, auth, tokenId, r. unfold execution_id, execution_tenant, execution_action in *. rewrite F.
  split_and!; done.
Qed.

(** A thread never submits more than it has claimed. *)
Lemma thread_balanced s0 tr s i x :
  workflow_history dp text_le requests s0 tr s ->
  (tally (submits x) (calls_of i tr) <= tally (claims_gated x) (calls_of i tr))%nat.
Proof.
  intros [ps Hrun]. pose proof (pool_guarded (wf_answers text_le) law_abiding s0 _ tr s ps serve_all_law_abiding Hrun) as Hg.
  clear Hrun. induction tr as [|[j e] tr IH] using rev_ind; [done|].
  rewrite calls_of_app. cbn. destruct (decide (i = j)) as [<-|Hne]; cbn.
  - destruct (Hg tr i e [] eq_refl) as [[H _]|[_ H]]; apply H.
  - rewrite app_nil_r. apply IH. intros pre j' e' post ->. apply (Hg pre j' e' (post ++ [(j, e)])). by rewrite <- app_assoc.
Qed.

Lemma log_balanced s0 tr s x :
  workflow_history dp text_le requests s0 tr s ->
  (tally (submits x) (map snd tr) <= tally (claims_gated x) (map snd tr))%nat.
Proof.
  intros H. pose proof H as [ps Hrun]. pose proof (pool_indices _ _ _ _ _ _ Hrun) as Hi.
  unfold tally. rewrite !(calls_counted _ tr (seq 0 (length (serve_workflow dp <$> requests)))) by (apply NoDup_seq || done).
  apply sum_le. intros i _. by eapply thread_balanced.
Qed.

(** *** Supplies *)

(** Units of the token that a reservation granted. *)
Definition granted (k : string) (e : wf_event) : Z :=
  match ev_call e as c return result (wf_answer c) -> Z with
  | ReserveMintSupply tokenId _ delta => fun a =>
      match a with Ok (Some _) => if String.eqb tokenId k then delta else 0 | _ => 0 end
  | _ => fun _ => 0
  end%Z (ev_resp e).

(** Units of the token that a burn has asked to take away, whether or not it was heard. *)
Definition burnt (k : string) (e : wf_event) : Z :=
  match ev_call e with SubtractSupply tokenId delta => if String.eqb tokenId k then delta else 0 | _ => 0 end%Z.

Definition units_of (f : wf_event -> Z) (tr : wf_log) : Z := foldr (fun x n => f x.2 + n)%Z 0%Z tr.

Definition within_cap (r : TokenSupplyRow) : Prop :=
  forall cap, ts_max_supply r = Some cap -> (0 <= cap /\ recorded_supply r <= cap)%Z.

(** A token has one row, and its recorded supply is within its cap. *)
Record supplies_sound (l : list TokenSupplyRow) : Prop := mkSuppliesSound {
  sound_tokens : NoDup (ts_token_id <$> l);
  sound_caps : Forall within_cap l;
}.

Definition recorded (k : string) (l : list TokenSupplyRow) : Z :=
  match List.find (fun r => String.eqb (ts_token_id r) k) l with Some r => recorded_supply r | None => 0%Z end.

Definition caps (l : list TokenSupplyRow) : list (string * option Z) := (fun r => (ts_token_id r, ts_max_supply r)) <$> l.

Record supplied (s0 : WorkflowTables) (tr : wf_log) (s : WorkflowTables) : Prop := mkSupplied {
  supplied_sound : supplies_sound (wf_supplies s);
  supplied_caps : caps (wf_supplies s) = caps (wf_supplies s0);
  supplied_count : forall k, (recorded k (wf_supplies s0) + units_of (granted k) tr
                              <= recorded k (wf_supplies s) + units_of (burnt k) tr)%Z;
}.

(** What a statement does to the recorded supplies. *)
Definition supply_step (l l' : list TokenSupplyRow) (e : wf_event) : Prop :=
  supplies_sound l' /\ caps l' = caps l
  /\ forall k, (recorded k l + granted k e <= recorded k l' + burnt k e)%Z.

Lemma units_app f tr1 tr2 : units_of f (tr1 ++ tr2) = (units_of f tr1 + units_of f tr2)%Z.
Proof. unfold units_of. induction tr1 as [|x tr1 IH]; cbn; [done|]. rewrite IH. lia. Qed.

Lemma recorded_row l r : NoDup (ts_token_id <$> l) -> r ∈ l -> recorded (ts_token_id r) l = recorded_supply r.
Proof.
  intros Hn Hr. unfold recorded. destruct (List.find _ _) as [r'|] eqn:E.
  - apply find_some in E as [Hr'%list_elem_of_In E%String.eqb_eq]. by rewrite (same_key ts_token_id l r' r Hn).
  - apply list_elem_of_In in Hr. apply (find_none _ _ E) in Hr. by rewrite String.eqb_refl in Hr.
Qed.

Lemma recorded_map (f : TokenSupplyRow -> TokenSupplyRow) k l :
  (forall r, ts_token_id (f r) = ts_token_id r) ->
  recorded k (map f l)
  = match List.find (fun r => String.eqb (ts_token_id r) k) l with Some r => recorded_supply (f r) | None => 0%Z end.
Proof.
  intros Hf. unfold recorded. induction l as [|r l IH]; [done|]. cbn. rewrite Hf. by destruct (String.eqb _ k).
Qed.

(** An update of rows that leaves ids and caps, and keeps each row within its cap. *)
Lemma supplies_mapped (f : TokenSupplyRow -> TokenSupplyRow) l :
  (forall r, ts_token_id (f r) = ts_token_id r) -> (forall r, ts_max_supply (f r) = ts_max_supply r) ->
  (forall r, within_cap r -> within_cap (f r)) -> supplies_sound l ->
  supplies_sound (map f l) /\ caps (map f l) = caps l.
Proof.
  intros Hk Hm Hc [Hn Hl].
  assert (ts_token_id <$> map f l = ts_token_id <$> l) as E.
  { rewrite <- list_fmap_compose. apply list_fmap_ext. intros i r _. cbn. apply Hk. }
  split; [split|].
  - by rewrite E.
  - apply Forall_fmap. eapply Forall_impl; [exact Hl|]. exact Hc.
  - unfold caps. rewrite <- list_fmap_compose. apply list_fmap_ext. intros i r _. cbn. by rewrite Hk, Hm.
Qed.

Lemma same_supply_step l e : (forall k, granted k e <= burnt k e)%Z -> supplies_sound l -> supply_step l l e.
Proof. intros He Hs. split_and!; [done..|]. intros k. specialize (He k). lia. Qed.

Lemma reserve_step now tokenId tenant delta t a :
  (0 <= delta)%Z -> supplies_sound (wf_supplies t) ->
  a = Ok (reserveMintSupply now tokenId tenant delta t).1 \/ (exists e, a = Err e) ->
  supply_step (wf_supplies t) (wf_supplies (reserveMintSupply now tokenId tenant delta t).2)
    (wf_ev (ReserveMintSupply tokenId tenant delta) a).
Proof.
  intros Hd Hs Ha. unfold reserveMintSupply, update_where in *. cbn [fst snd wf_supplies with_supplies] in *.
  set (p := fun r => token_of tokenId tenant r && _) in *.
  set (f := fun r => if p r then with_supply now (recorded_supply r + delta) r else r).
  destruct (supplies_mapped f (wf_supplies t)) as [H1 H2]; [..|exact Hs|].
  { intros r. unfold f. by destruct (p r). }
  { intros r. unfold f. by destruct (p r). }
  { intros r Hr cap. unfold f. destruct (p r) eqn:Ep; [|apply Hr]. cbn. intros Ec. specialize (Hr cap Ec).
    unfold p in Ep. rewrite Ec, andb_true_iff, Z.leb_le in Ep. unfold recorded_supply in *. cbn. lia. }
  split_and!; [done..|]. intros k. rewrite (recorded_map f) by (intros r; unfold f; by destruct (p r)).
  change (burnt k (wf_ev (ReserveMintSupply tokenId tenant delta) a)) with 0%Z.
  assert (forall r, recorded_supply r <= recorded_supply (f r))%Z as Hle
    by (intros r; unfold f; destruct (p r); unfold recorded_supply; cbn; lia).
  assert (granted k (wf_ev (ReserveMintSupply tokenId tenant delta) a) = 0%Z
          \/ granted k (wf_ev (ReserveMintSupply tokenId tenant delta) a) = delta
             /\ exists r, r ∈ wf_supplies t /\ p r = true /\ ts_token_id r = k) as Hg.
  { destruct Ha as [-> |[e ->]]; [|by left]. destruct (List.find p _) as [r|] eqn:Ef; [|by left]. cbn.
    destruct (String.eqb_spec tokenId k) as [<-|]; [right|by left]. split; [done|]. exists r.
    apply find_some in Ef as [Hr%list_elem_of_In Hp]. split_and!; [done..|].
    subst p. cbn in Hp. unfold token_of in Hp. rewrite !andb_true_iff, String.eqb_eq in Hp. tauto. }
  unfold recorded. destruct (List.find (fun r => String.eqb (ts_token_id r) k) (wf_supplies t)) as [r|] eqn:Ef.
  - destruct Hg as [-> |(-> & r' & Hr' & Hp & Hk)]; [specialize (Hle r); lia|].
    apply find_some in Ef as [Hr%list_elem_of_In E%String.eqb_eq].
    assert (r = r') as -> by (eapply (same_key ts_token_id); [apply Hs|done..|congruence]).
    unfold f. rewrite Hp. unfold recorded_supply. cbn. lia.
  - destruct Hg as [-> |(-> & r' & Hr' & Hp & Hk)]; [lia|]. exfalso.
    apply list_elem_of_In in Hr'. apply (find_none _ _ Ef) in Hr'. by rewrite Hk, String.eqb_refl in Hr'.
Qed.

Lemma subtract_step now tokenId delta t a :
  (0 <= delta)%Z -> supplies_sound (wf_supplies t) ->
  supply_step (wf_supplies t) (wf_supplies (subtractSupply now tokenId delta t)) (wf_ev (SubtractSupply tokenId delta) a).
Proof.
  intros Hd Hs. unfold subtractSupply, update_where. cbn [snd wf_supplies with_supplies].
  set (f := fun r => if String.eqb (ts_token_id r) tokenId then with_supply now (Z.max (recorded_supply r - delta) 0) r else r).
  destruct (supplies_mapped f (wf_supplies t)) as [H1 H2]; [..|exact Hs|].
  { intros r. unfold f. by destruct (String.eqb _ _). }
  { intros r. unfold f. by destruct (String.eqb _ _). }
  { intros r Hr cap. unfold f. destruct (String.eqb _ _); [|apply Hr]. cbn. intros Ec. specialize (Hr cap Ec).
    unfold recorded_supply in *. cbn. lia. }
  split_and!; [done..|]. intros k. rewrite (recorded_map f) by (intros r; unfold f; by destruct (String.eqb _ _)).
  unfold granted, burnt, wf_ev, recorded. cbn [ev_call ev_resp].
  destruct (List.find (fun r => String.eqb (ts_token_id r) k) (wf_supplies t)) as [r|] eqn:Ef.
  - apply find_some in Ef as [_ <-%String.eqb_eq]. unfold f. rewrite (String.eqb_sym (ts_token_id r)).
    destruct (String.eqb tokenId _); unfold recorded_supply; cbn; lia.
  - destruct (String.eqb tokenId k); lia.
Qed.

Lemma law_abiding_units ctx e : law_abiding ctx e ->
  match ev_call e with ReserveMintSupply _ _ delta | SubtractSupply _ delta => (0 <= delta)%Z | _ => True end.
Proof. intros [[_ H]|[(v & i & ->) _]]; [by destruct (ev_call e)|done]. Qed.

Lemma unserved_units c r : on_supplies c = false -> forall k, granted k (wf_ev c r) = 0%Z /\ burnt k (wf_ev c r) = 0%Z.
Proof. by destruct c. Qed.

Lemma answers_supplied ctx s e s' :
  law_abiding ctx e -> wf_answers text_le s e s' -> supplies_sound (wf_supplies s) ->
  supply_step (wf_supplies s) (wf_supplies s') e.
Proof.
  intros Hl%law_abiding_units Ha Hs.
  destruct Ha as [u u' c a Hn (_ & _ & _ & E)|u u1 u' now id c a (_ & _ & _ & E) Hp|u u1 u' now id c a err (_ & _ & _ & E) Hp
                 |u u' c err (_ & _ & _ & E)]; cbn [ev_call wf_ev] in Hl.
  - rewrite E. apply same_supply_step; [|done]. intros k. destruct (unserved_units c a) with (k := k) as [-> ->]; [|done].
    specialize (Hn "" "" u). by destruct c.
  - rewrite <- E in Hs |- *. destruct (on_supplies c) eqn:Ec.
    + destruct c; try done; cbn [perform perform_rule perform_token] in Hp; unfold answered in Hp; injection Hp as <- <-.
      * apply reserve_step; [done..|by left].
      * by apply subtract_step.
    + rewrite (perform_supplies _ _ _ _ _ _ _ Ec Hp). apply same_supply_step; [|done]. intros k.
      by destruct (unserved_units c a Ec k) as [-> ->].
  - rewrite <- E in Hs |- *. destruct (on_supplies c) eqn:Ec.
    + destruct c; try done; cbn [perform perform_rule perform_token] in Hp; unfold answered in Hp; injection Hp as <- <-.
      * apply reserve_step; [done..|right; by exists err].
      * by apply subtract_step.
    + rewrite (perform_supplies _ _ _ _ _ _ _ Ec Hp). apply same_supply_step; [|done]. intros k.
      by destruct (unserved_units c (Err err) Ec k) as [-> ->].
  - rewrite E. apply same_supply_step; [|done]. intros k.
    destruct c; cbn in *; try lia. destruct (String.eqb _ _); lia.
Qed.

Lemma history_supplied s0 tr s :
  supplies_sound (wf_supplies s0) -> workflow_history dp text_le requests s0 tr s -> supplied s0 tr s.
Proof.
  intros Hs [ps Hrun].
  eapply (pool_invariant (wf_answers text_le) law_abiding (supplied s0)); [apply serve_all_law_abiding| | |exact Hrun].
  - split; [done..|]. intros k. cbn. lia.
  - intros tr1 s1 i e s2 [H1 H2 H3] Hl Ha. destruct (answers_supplied _ _ _ _ Hl Ha H1) as (H4 & H5 & H6).
    split; [done|congruence|]. intros k. rewrite !units_app. cbn. specialize (H3 k). specialize (H6 k). lia.
Qed.

(** ** Theorems *)

(** C1. In every history of runs of the engine, events, edits of rules and decisions at
    once, whatever answers are lost, the operations that cannot be undone (mint, burn,
    force burn, seize) submitted for an execution are at most the decisions that it shall
    run, and one more if it was already waiting to run at the start; and each of those
    decisions is of a request by a caller of the execution's tenant whose permissions
    allow its action. *)
Theorem destructive_needs_decision s0 tr s x :
  executions_sound (wf_executions s0) -> workflow_history dp text_le requests s0 tr s ->
  (tally (submits x) (map snd tr) <= waiting x (wf_executions s0) + length (run_decisions x tr))%nat
  /\ forall p, p ∈ run_decisions x tr -> authorised s x p.
Proof.
  intros Hs H. split; [|intros p; by eapply decision_authorised].
  pose proof (order_counts _ _ _ (history_in_order _ _ _ Hs H) x) as Hc. pose proof (log_balanced _ _ _ x H).
  rewrite run_decisions_tally. lia.
Qed.

(** C19. The ledger of executions is kept in every history: ids stay unique and a rule has
    one execution for an event; none is lost; its tenant, rule, token, action, event and
    payload never change; none returns to review, and one that has succeeded or been
    cancelled stays so. *)
Theorem workflow_ledger_kept s0 tr s :
  executions_sound (wf_executions s0) -> workflow_history dp text_le requests s0 tr s ->
  executions_sound (wf_executions s) /\ forall r, r ∈ wf_executions s0 -> known_execution s r.
Proof. intros Hs H. destruct (history_in_order _ _ _ Hs H). done. Qed.

(** C10. No history mints a token beyond its cap: whatever interleaving of engine runs and
    of the mints and burns of the other routes, and whatever answers are lost, the units
    the mints were granted, on top of the supply recorded at the start, exceed the cap by
    no more than the burns recorded since; and the recorded supplies stay within their
    caps, which no request changes. *)
Theorem supply_is_capped s0 tr s r cap :
  supplies_sound (wf_supplies s0) -> workflow_history dp text_le requests s0 tr s ->
  r ∈ wf_supplies s0 -> ts_max_supply r = Some cap ->
  (recorded_supply r + units_of (granted (ts_token_id r)) tr <= cap + units_of (burnt (ts_token_id r)) tr)%Z
  /\ supplies_sound (wf_supplies s) /\ caps (wf_supplies s) = caps (wf_supplies s0).
Proof.
  intros Hs H Hr Hc. destruct (history_supplied _ _ _ Hs H) as [H1 H2 H3]. split_and!; [|done..].
  specialize (H3 (ts_token_id r)). rewrite recorded_row in H3; [|apply Hs|done].
  assert ((ts_token_id r, ts_max_supply r) ∈ caps (wf_supplies s)) as Hin by (rewrite H2; apply list_elem_of_fmap; by exists r).
  apply list_elem_of_fmap in Hin as (r' & [= E Em] & Hr'). rewrite E in *.
  rewrite (recorded_row (wf_supplies s)) in H3; [|apply H1|done].
  destruct H1 as [_ Hf]. rewrite Forall_forall in Hf. destruct (Hf r' Hr' cap); [congruence|]. lia.
Qed.
End History.

(** ** Witnesses *)

Definition minted_execution : string := "workflow_execution_1767225601000".

Lemma destructive_needs_decision_witness :
  tally (submits minted_execution) (map snd minted_log) = 1%nat
  /\ (tally (submits minted_execution) (map snd minted_log) <= 0 + length (run_decisions minted_execution minted_log))%nat.
Proof.
  split; [vm_compute; reflexivity|].
  exact (proj1 (destructive_needs_decision demo_engine String.leb demo_requests demo_wf_tables minted_log minted_tables
                  minted_execution demo_executions_sound minted_history)).
Defined.

Lemma workflow_ledger_kept_witness :
  executions_sound (wf_executions minted_tables) /\ length (wf_executions minted_tables) = 1%nat.
Proof.
  split; [|vm_compute; reflexivity].
  exact (proj1 (workflow_ledger_kept demo_engine String.leb demo_requests demo_wf_tables minted_log minted_tables
                  demo_executions_sound minted_history)).
Defined.

Lemma supply_is_capped_witness :
  units_of (granted "token") minted_log = 500%Z /\ (200 + units_of (granted "token") minted_log <= 1000)%Z.
Proof.
  split; [vm_compute; reflexivity|].
  refine (proj1 (supply_is_capped demo_engine String.leb demo_requests demo_wf_tables minted_log minted_tables
                   (mkSupply "token" "org" (Some "project") (Some 200%Z) (Some 1000%Z) None) 1000 _ minted_history _ eq_refl)).
  - split; [apply NoDup_singleton|]. apply Forall_singleton. intros cap [= <-]. unfold recorded_supply. cbn. lia.
  - by left.
Defined.
